(* ===== verification/_CoqProject ===== *)
-Q . S2P
Prelude.v
GoStrings.v
RbacRules.v
OwnerUtil.v
RbacAuthorizer.v
CatalogModel.v
DeclcfgToModel.v
SatInterface.v
SatDemo.v
LitMapping.v
ChoiceDeque.v
SolverSearch.v
SolverSolve.v
ResolverCache.v
ResolverSort.v
ResolverVariables.v
ResolverResolve.v
ResolverSound.v
ResolverDiagnosis.v
GoHash.v
CsvTypes.v
OperatorGroups.v
ReplaceChain.v
Requirements.v
OperatorRbac.v
CsvTransition.v
CsvLifecycle.v
CatalogTypes.v
SnapshotSources.v
BundleSteps.v
ConfigMaps.v
SubscriptionState.v
InstallPlans.v
CatalogSync.v
StepExecution.v
BundleUnpack.v
UnpackedSteps.v
CachePopulation.v
ClusterCalls.v
CsvCopies.v
GroupSync.v
CsvSync.v
RegistryPods.v
RegistryServers.v
SourceStore.v
CatalogSources.v
Overrides.v
Certificates.v
InstallStrategy.v
InstallSettles.v
