(* ===== verification/Prelude.v ===== *)
(** * A verification development for the Operator Lifecycle Manager (OLM)

    The repository holds three Go modules under [staging/]: [api] (Kubernetes types),
    [operator-registry] (catalogs of operators and their validation) and
    [operator-lifecycle-manager] (the controllers that install operators).  This library models
    the parts of them that decide: what a catalog may contain, which operators a set of
    subscriptions resolves to, how a resolution becomes an install plan and the plan is installed,
    through which phases an installed operator goes, and who may be granted which permissions.
    Definitions follow the Go functions one by one and carry their names; the theorems say what
    the functions achieve.

    ** How the parts interact

    A catalog is a declarative config (files of packages, channels and bundles) that
    [ConvertToModel] turns into a model, which [Model.Validate] checks.  A catalog source names a
    catalog: the catalog operator runs a pod that serves it and connects to it
    ([syncCatalogSources]), and snapshots of the served catalogs fill the resolver's cache.  [Resolver.Resolve] reads the
    subscriptions of a namespace, finds candidate entries in the cache, orders them
    ([sortChannel], [sortBundles]), turns them and their dependencies into variables with constraints
    ([getBundleVariables], [getSubscriptionVariables], [addInvariants]) and hands these to the solver
    ([solver.Solve]), which encodes them for a SAT solver and searches in preference order.

    The catalog operator runs the resolver for a namespace ([syncResolvingNamespace]), has bundles
    unpacked, creates an install plan, and keeps the subscriptions' statuses in step with plans,
    catalogs and deprecations.  A plan waits for approval, is executed and ends complete or failed
    ([syncInstallPlans]).  The steps of a plan create ClusterServiceVersions (CSVs), which the
    OLM operator takes through their phases ([transitionCSVState]): it checks the operator group of
    the namespace, the requirements and permissions, the install modes and the CSVs that are
    replaced, installs the deployments with their certificates, webhooks and API services
    ([StrategyDeploymentInstaller]), adapted to the subscription and the proxy of the cluster, and
    watches over what is installed.  The RBAC packages decide whether a
    service account covers the rules an operator asks for, and owner references and labels tie
    the created objects together.

    ** The files

    - Prelude.v (this file): errors as sums, loops that can fail, ranging over Go maps, tactics and
      list lemmas.  GoStrings.v: the functions of package [strings] that the sources use, on byte
      strings, with their lemmas.
    - RbacRules.v: [pkg/lib/kubernetes/pkg/registry/rbac/validation/policy_comparator.go] ([Covers],
      [BreakdownRule], [ruleCovers]) and [policy_compact.go] ([CompactRules]), with the matchers of
      [rbac/v1/evaluation_helpers.go] and [RulesAllow] as the meaning of rules.
    - OwnerUtil.v: [pkg/lib/ownerutil/util.go], owner references and labels.
    - RbacAuthorizer.v: rule resolution and the escalation check of [validation/rule.go], the authorizer
      of [plugin/pkg/auth/authorizer/rbac/rbac.go], and OLM's [install/rule_checker.go] and
      [install/attributes_util.go].
    - CatalogModel.v: [alpha/model/model.go] and [alpha/property/property.go]; bundles, channels and
      packages point at each other, so they live in a heap ([Heap], [derefB], [derefC]).
    - DeclcfgToModel.v: [alpha/declcfg/declcfg_to_model.go], loop by loop, over that heap.
    - SatInterface.v: the gini circuit and SAT solver (a vendored library) as classes of operations and
      of documented laws.  SatDemo.v: a small circuit and a brute force solver that satisfy them.
    - LitMapping.v: [solver/constraints.go], [variable.go] and [lit_mapping.go]; [sat] and
      [solution] are the meaning of constraints.  ChoiceDeque.v: the doubly linked choice list of
      [solver/search.go] behind the interface [Deque].  SolverSearch.v: the search of [search.go].
      SolverSolve.v: [solve.go].
    - ResolverCache.v: [resolver/cache/operators.go], [predicates.go] and the finders of [cache.go].
      ResolverSort.v: [sortChannel] of [resolver/resolver.go].  ResolverVariables.v:
      [resolver/variable_types.go], the conversion of dependency properties and [addInvariants] of
      [resolver.go], and [api/pkg/constraints/constraint.go].  ResolverResolve.v: the rest of
      [resolver.go], up to [Resolve]; bundle variables are shared between maps and mutated, so they
      live in a heap ([rstate]) and maps hold pointers.
    - ResolverSound.v: the guarantees of a resolution.  ResolverDiagnosis.v: the reasons it gives for
      invalid subscriptions.
    - GoHash.v: FNV hashes and their base 62 and hexadecimal forms, at 32 and 64 bits.
    - CsvTypes.v: Go errors as the controllers tell them apart; CSVs
      ([v1alpha1/clusterserviceversion.go] and [_types.go]): phases, reasons, the bounded history of
      conditions, install modes, webhooks.
    - OperatorGroups.v: [v1/operatorgroup_types.go] and, of [operators/olm], [groups.go],
      [labeler.go] and parts of [operatorgroup.go]: namespace sets, surfaces, the reconciliation of
      provided APIs, API labels.
    - ReplaceChain.v: [lib/csv/csvset.go] and [replace_finder.go], [resolver/fail_forward.go] and the
      owner conflicts of [olm/operator.go]: walks along chains of CSVs that replace each other.
    - Requirements.v: [olm/requirements.go], [operatorconditions.go], [operators/internal/alongside].
    - CsvTransition.v: [transitionCSVState] of [olm/operator.go], phase by phase, in a state monad with
      early returns and a trace of actions ([M], [St]); the cluster is the record [Env].
      CsvLifecycle.v: its theorems, with the step relation [sync_step].
    - CatalogTypes.v: [v1alpha1/subscription_types.go] and [installplan_types.go], with lists of typed
      conditions ([Section conditions]).  SubscriptionState.v: [catalog/subscription/state.go] and
      [reconciler.go], the chain of [lib/kubestate] and [Sync]; a state is the outermost wrapper ([Kind])
      and the subscription all wrappers share.
    - InstallPlans.v: garbage collection, creation, the install state machine and retries of
      [catalog/operator.go] and [installplan_sync.go]; executing steps is the class
      [InstallPlanTransitioner], as in the source, and what it does may differ from sync to sync.
      [Module Workers]: two workers that ensure a plan.
    - CatalogSync.v: [syncResolvingNamespace] of [catalog/operator.go] and what it calls, as a computation
      with early returns and a trace of actions ([NS], [Action]); the cluster is [NsEnv].
    - StepExecution.v: [ExecutePlan] of [catalog/operator.go] with [manifests.go], [step_ensurer.go],
      [step.go], [not_found.go] and [lib/crd]: each kind of step, as a computation over the history of
      writes ([X], [History]); the cluster is [ExecEnv], whose answers may depend on the history.  It
      implements [InstallPlanTransitioner] ([operatorExecutor]), with a cluster for each sync ([SyncEnv]).
    - OperatorRbac.v: [resolver/rbac.go], the roles and bindings of a CSV's service accounts.
      SnapshotSources.v: [resolver/source_registry.go], [source_csvs.go] and
      [projection/properties.go], what fills a snapshot.  BundleSteps.v: [resolver/step_resolver.go] and
      [steps.go], from a resolution to steps and subscriptions.  CachePopulation.v: [Cache.Namespaced] with its
      locks, goroutines and semaphore as a step relation, and the source invalidator ([Module Invalidator]).
    - ConfigMaps.v: [operator-registry/pkg/configmap], bundles as config maps.  BundleUnpack.v:
      [controller/bundle/bundle_unpacker.go], jobs that unpack bundles, in a monad over the history of calls ([U]).
      UnpackedSteps.v: the steps of an unpacked bundle and their references.
    - ClusterCalls.v: the monad [P] of handlers that call the cluster, with rules for the calls a handler makes
      ([makes_only]) and for handlers that return no error ([steady]).  CsvCopies.v: copies of CSVs, roles in target
      namespaces and the OLM configuration.  GroupSync.v: [syncOperatorGroups], cluster roles of provided APIs, labels of
      namespaces.  CsvSync.v: [syncClusterServiceVersion] with its finalizer, the deletion of CSVs and requeueing.
    - RegistryPods.v: [v1alpha1/catalogsource_types.go] and the pod of a catalog ([registry/reconciler/reconciler.go]).
      RegistryServers.v: the reconcilers of [registry/reconciler] ([grpc.go], [grpc_address.go], [configmap.go]) behind
      the record [RegistryReconciler].  SourceStore.v: the connections of [registry/grpc/source.go], whose goroutines
      interleave step by step ([exec]).  CatalogSources.v: [syncCatalogSources] of [catalog/operator.go], polling and
      the handlers of source states.
    - Overrides.v: [olm/overrides] and [lib/proxy], what the configuration of a subscription changes in a deployment; the
      sharing of arrays between Go slices is modelled ([Merge], [Room]).  Certificates.v: [controller/certs] and the
      rotation of certificates.  InstallStrategy.v: [controller/install] ([deployment.go], [certresources.go],
      [apiservice.go], [webhook.go], [status_viewer.go], [resolver.go]) and [olm/apiservices.go]; [strategyInstaller]
      implements the interface [Installer] of CsvTransition.v.  InstallSettles.v: its theorems, composed with those of
      the state machine.

    ** What the theorems show

    - Resolution: [Resolve_sound] (what is installed satisfies the subscriptions, is closed under
      dependencies, has one operator per package and API, keeps freestanding operators) and
      [Resolve_terminates] (it ends, and never dereferences nil).  Below it: [Solve_correct] (the solver is
      sound, and reports only constraints that really conflict), [newLitMapping_exact] (the encoding is
      exact), [Do_terminates_and_decides] (the search ends and decides), [linked_refines_list] (the
      linked list is a deque), [addInvariants_exclusive], [sortChannel_iff],
      [convertConstraint_meaning], [FindPreferred_order], [invalidReason_names_first_filter] and round trips of identifiers and API
      annotations.
    - Permissions: [Covers_sound] and [Covers_iff] (rule covering against the meaning of rules),
      [BreakdownRule_equiv], [CompactRules_equiv], [ConfirmNoEscalation_sound],
      [Authorize_iff_RulesFor], [RuleSatisfied_covered], and the theorems on owner references.
    - Catalogs: [validateReplacesChain_iff], [Model_Validate_iff], [ConvertToModel_bundles] and the
      termination of the chain walk.
    - CSVs: [lifecycle_invariant] (each sync follows an edge of the phase graph, keeps what the CSV is
      and its history bounded, whatever the cluster answers), [install_ready_iff], [succeeded_installed]
      and [deleting_superseded] (when a CSV enters these phases), [install_progress] (a supported CSV is installed),
      [panic_iff] (the one nil dereference); below them [requirements_correct], [Reconcile_correct],
      [crdOwnerConflicts_correct] and the theorems on chains of CSVs.
    - Subscriptions and plans: [plan_lifecycle] (no plan is installed without approval),
      [plan_completes] (four syncs without an error complete an approved plan, with the operator's own
      execution of steps), [transitionInstallPlanState_correct], [gcInstallPlans_correct];
      [syncResolvingNamespace_plan_safe] (generations grow, manual approval is respected),
      [resolution_success], [resolution_failure_reported]; [UpdateHealth_correct],
      [UpdateHealth_settles], [CheckInstallPlanStatus_correct], [updateDeprecatedStatus_correct] (the
      conditions of a subscription say what holds).
    - Installing: [executePlan_stays_in_namespace] (nothing is written outside the namespace of the plan),
      [complete_plan_installed] (what a complete plan has done), [updateCRD_safe] and
      [SafeStorageVersionUpgrade_iff] (updates of definitions that could be read lose no data), [executePlan_done].
    - From catalogs to steps: [resolution_over_sources_ends] (the snapshots of registries and CSVs are what the
      resolver needs), [population_safe] and [population_completes] (no interleaving breaks the cache or blocks),
      [invalidator_correct], [ResolveSteps_asks_for_missing], [bundle_properties_roundtrip],
      [generated_rbac_satisfies], [populate_load_roundtrip], [UnpackBundle_outcome], [unpack_delivers_bundle],
      [sortUnpackJobs_correct] and [reference_resolves].
    - The other handlers of the OLM operator: [finalizer_protects], [sync_reconciles] and [csv_deletion_collects] (the sync
      and deletion of a CSV), [copies_converge] and [tenant_rbac_grants] (copies and roles reach the target
      namespaces), [syncOLMConfig_honest], [syncNamespace_correct], [annotateCSVs_correct],
      [pruneProvidedAPIs_correct], [group_role_aggregates], [getClusterRoleName_bound], [rbac_change_retries].
    - Catalog sources: [catalog_source_connects] (a served catalog ends connected), [update_keeps_serving] and
      [registry_settles] (updating a catalog never leaves it without a pod, and ends), [configmap_server_current],
      [catalog_status_honest], [requeue_bounds], [pod_security]; [clients_of_catalog] and [removed_stays_removed] (in
      every interleaving a client is connected to the address of its catalog).
    - Deployments: [installed_succeeds] (a CSV whose deployments come up reaches Succeeded), [install_touches_own] (an
      installation stays within what its CSV names), [resources_served], [removed_hooks_only], [issued_is_kept]
      (a certificate that is issued is not due for rotation, and is due before it expires), [overrides_applied].
    - Some theorems state behaviour that differs from what the code documents:
      [preference_lost_after_backtracking], [HasOwnerConflict_blind], [missing_blob_reported],
      [duplicate_package_excluded], [panic_iff], [unpacking_condition_stays],
      [generated_sub_blocks], [lock_does_not_help], [retry_keeps_clock], [missing_plan_not_cleared], [complete_without_api],
      [mergedOwnerReferences_keeps], [up_to_date_copy_rewritten], [copies_kept_without_targets],
      [all_namespaces_not_requeued], [failed_finalizer_forgotten], [removed_source_returns], [required_api_blocks],
      [duplicate_variables], [late_override_lost], [anti_affinity_removes_all], [colliding_mount].

    ** Parameters, bounds and fuel

    Code outside the repository is a class of operations with laws, instantiated by a concrete value for
    the witnesses: the SAT solver ([CircuitOps]/[Circuit], [SatOps]/[Sat]), JSON decoding, semver and CEL
    ([ResolverLib], [ConstraintDecoder], [SemverLib] and the decoders of CatalogModel.v), [sort.Sort]
    ([SortLib]: a permutation in order, nothing about ties), object hashes and encodings ([RbacLib], [CopyLib]), gRPC
    and YAML ([SnapshotLib], [StepLib], [ConfigMapLib], [UnpackLib], [RegistryLib], [InstallLib]), X.509 and PEM
    ([CertLib] with the laws [CertLaws]), the growth of slices ([Room]), the Kubernetes listers.  The iteration order
    of Go maps is the parameter [RangeOrder]; theorems hold for every order.  Loops that are not
    structural take fuel and say so in their result type ([outcome], [ChainOutOfFuel],
    [SortOutOfFuel]); the termination theorems show that enough fuel gives a result.  Chains take one
    step per entry and one more; the search and the walk over dependencies have no simple
    bound, so their theorems say that some fuel, and every larger one, is enough.  The reconcilers of
    a subscription make at most three transitions and have fuel for four ([Sync_ends]); a status is
    written in at most five attempts, the limit of the source.  The Kubernetes API is a record of
    functions per sync ([Env], [SubEnv], [PlanEnv], [NsEnv], [ExecEnv], [StepEnv], [WriterEnv], [UnpackEnv], [CopyEnv],
    [GroupEnv], [SyncEnv], [RegEnv], [CatEnv], [InstEnv]), arbitrary except where a theorem
    says what it answers; time is a value of the record.  Hashes are computed at their width;
    counters and lengths are far from the range of machine integers and are [nat] or [Z].

    ** What is not modelled

    Informers, queues and the wiring of the operators; SQL stores and the gRPC server of a registry, which are queries
    and generated code; image handling, generated clients, metrics and commands, which are I/O; the package server;
    the rendering and templating of catalogs and the legacy loading of upgrade graphs.  Of a pod, a container and a
    deployment the fields are kept that the code reads or sets.  Log output and the text of some errors are left out. *)

From Stdlib Require Export Ascii.
From stdpp Require Export base tactics list option strings gmap sorting fin_maps sets.
From stdpp Require Import pretty.

#[global] Open Scope string_scope.
#[global] Open Scope list_scope.

(** ** Errors

    A Go function that returns [(T, error)] is a function into [E + T]: [inl e] is the
    non-nil error (its type says which of the function's [return nil, fmt.Errorf(...)]
    statements produced it), [inr x] the result of the [return x, nil] path. *)

#[export] Instance sum_ret {E} : MRet (sum E) := fun A x => inr x.
#[export] Instance sum_bind {E} : MBind (sum E) :=
  fun A B f c => match c with inl e => inl e | inr x => f x end.

(** A loop [for _, x := range xs { acc, err = f(acc, x); if err != nil { return err } }]. *)
Fixpoint foldE {E A B} (f : A -> B -> E + A) (acc : A) (xs : list B) : E + A :=
  match xs with
  | [] => inr acc
  | x :: xs' => match f acc x with inl e => inl e | inr acc' => foldE f acc' xs' end
  end.

(** ** Go maps

    [for k, v := range m] visits the entries of a map in an unspecified order.  Code that
    ranges over a map is modelled over a [RangeOrder]: any function that lists the entries
    of a map once each.  What the theorems say of such code holds for every order. *)

Class RangeOrder := {
  range : forall {K V : Type} `{Countable K}, gmap K V -> list (K * V);
  range_perm : forall {K V : Type} `{Countable K} (m : gmap K V), range m ≡ₚ map_to_list m;
}.

(** One concrete order, the one of stdpp's [map_to_list]. *)
Definition canonical_order : RangeOrder :=
  {| range := fun K V _ _ m => map_to_list m; range_perm := fun K V _ _ m => Permutation_refl _ |}.

(** ** Tactics *)

(** Case analysis on the scrutinee of some [match]/[if] of the goal or a hypothesis. *)
Ltac case_one :=
  match goal with
  | |- context [match ?x with _ => _ end] => destruct x eqn:?
  | H : context [match ?x with _ => _ end] |- _ => destruct x eqn:?
  end.

(** Boolean connectives and [bool_decide] in hypotheses become propositions. *)
Ltac bools :=
  repeat match goal with
  | H : andb _ _ = true |- _ => apply andb_true_iff in H; destruct H
  | H : andb _ _ = false |- _ => apply andb_false_iff in H
  | H : orb _ _ = true |- _ => apply orb_true_iff in H
  | H : orb _ _ = false |- _ => apply orb_false_iff in H; destruct H
  | H : negb _ = true |- _ => apply negb_true_iff in H
  | H : negb _ = false |- _ => apply negb_false_iff in H
  | H : bool_decide _ = true |- _ => apply bool_decide_eq_true in H
  | H : bool_decide _ = false |- _ => apply bool_decide_eq_false in H
  | H : existsb _ _ = true |- _ => apply existsb_exists in H
  | H : forallb _ _ = true |- _ => rewrite forallb_forall in H
  | H : Is_true _ |- _ => apply Is_true_true in H
  end.

Create HintDb olm discriminated.

(** ** Lists *)

Lemma existsb_elem_of {A} (f : A -> bool) (l : list A) :
  existsb f l = true <-> exists x, x ∈ l /\ f x = true.
Proof. rewrite existsb_exists. by setoid_rewrite list_elem_of_In. Qed.

Lemma existsb_not_elem_of {A} (f : A -> bool) (l : list A) :
  existsb f l = false <-> forall x, x ∈ l -> f x = false.
Proof.
  split.
  - intros H x Hx. destruct (f x) eqn:E; [|done].
    assert (existsb f l = true) by (apply existsb_elem_of; eauto). congruence.
  - intros H. apply not_true_iff_false. rewrite existsb_elem_of.
    intros (x & Hx & E). rewrite H in E; done.
Qed.

Lemma forallb_elem_of {A} (f : A -> bool) (l : list A) :
  forallb f l = true <-> forall x, x ∈ l -> f x = true.
Proof. rewrite forallb_forall. by setoid_rewrite list_elem_of_In. Qed.

Lemma elem_of_flat_map {A B} (f : A -> list B) (l : list A) (y : B) :
  y ∈ flat_map f l <-> exists x, x ∈ l /\ y ∈ f x.
Proof. rewrite list_elem_of_In, in_flat_map. by setoid_rewrite list_elem_of_In. Qed.

Lemma nil_or_head {A} (l : list A) : l = [] \/ exists x, x ∈ l.
Proof. destruct l as [|x l]; [by left | right; exists x; set_solver]. Qed.

(** A bounded search: [find] returns the first element that satisfies the test. *)
Lemma find_elem_of {A} (f : A -> bool) (l : list A) (x : A) :
  List.find f l = Some x -> x ∈ l /\ f x = true.
Proof. intros H. apply find_some in H. by rewrite list_elem_of_In. Qed.

Lemma find_none_elem_of {A} (f : A -> bool) (l : list A) (x : A) :
  List.find f l = None -> x ∈ l -> f x = false.
Proof. intros H Hx. eapply find_none; [done|]. by apply list_elem_of_In. Qed.

(** ** Ranging over maps *)

Section range.
Context `{RangeOrder} {K V : Type} `{Countable K}.
Implicit Types (m : gmap K V) (k : K) (v : V).

Lemma elem_of_range m k v : (k, v) ∈ range m <-> m !! k = Some v.
Proof. rewrite range_perm. apply elem_of_map_to_list. Qed.

Lemma range_empty : range (∅ : gmap K V) = [].
Proof. apply Permutation_nil_r. rewrite range_perm. by rewrite map_to_list_empty. Qed.

Lemma elem_of_range_vals m v : v ∈ (range m).*2 <-> exists k, m !! k = Some v.
Proof.
  rewrite list_elem_of_fmap. split.
  - intros ([k v'] & -> & Hin%elem_of_range). eauto.
  - intros [k Hk%elem_of_range]. by exists (k, v).
Qed.

Lemma NoDup_range_keys m : NoDup (range m).*1.
Proof. rewrite range_perm. apply NoDup_fst_map_to_list. Qed.
End range.

(** ** Loops that can fail *)

Lemma bind_inr {E A B} (x : E + A) (f : A -> E + B) (y : B) :
  x ≫= f = inr y <-> exists a, x = inr a /\ f a = inr y.
Proof. destruct x; cbn; naive_solver. Qed.

Lemma foldE_app {E A B} (f : A -> B -> E + A) (acc : A) (xs ys : list B) :
  foldE f acc (xs ++ ys) =
  match foldE f acc xs with inl e => inl e | inr acc' => foldE f acc' ys end.
Proof. revert acc. induction xs as [|x xs IH]; intros acc; simpl; [done|]. by case_one. Qed.

(** An invariant of the accumulator, indexed by the elements consumed so far. *)
Lemma foldE_inv {E A B} (f : A -> B -> E + A) (P : list B -> A -> Prop) acc xs r :
  P [] acc ->
  (forall done x acc acc', P done acc -> f acc x = inr acc' -> P (done ++ [x]) acc') ->
  foldE f acc xs = inr r -> P xs r.
Proof.
  intros H0 Hstep. change xs with ([] ++ xs) at 2. revert H0. generalize (@nil B) as dn.
  revert acc. induction xs as [|x xs IH]; intros acc dn H0 H; simpl in H.
  - simplify_eq. by rewrite app_nil_r.
  - destruct (f acc x) as [e|acc'] eqn:Hf; [done|].
    replace (dn ++ x :: xs) with ((dn ++ [x]) ++ xs) by (by rewrite <- app_assoc).
    eauto.
Qed.

(** The same for a loop that cannot fail. *)
Lemma foldl_inv {A B} (f : A -> B -> A) (P : list B -> A -> Prop) acc xs :
  P [] acc -> (forall done x acc, P done acc -> P (done ++ [x]) (f acc x)) -> P xs (foldl f acc xs).
Proof.
  intros H0 Hstep. induction xs as [|x xs IH] using rev_ind; [done|].
  rewrite foldl_app. by apply Hstep.
Qed.
