(* ===== verification/GoStrings.v ===== *)
(** * The parts of Go's [strings] package the sources use

    A Go string is a sequence of bytes, which is what [String.string] is.  Each function
    below is the one of package [strings] with the same name; the separator of [Cut],
    [SplitN2] and [Split] is a single byte, as in every call of the sources. *)

From S2P Require Import Prelude.

#[local] Arguments String.append : simpl nomatch.

(** [strings.HasPrefix(s, p)] *)
Definition HasPrefix (s p : string) : bool := String.prefix p s.

(** [strings.HasSuffix(s, suffix)]: [len(s) >= len(suffix) && s[len(s)-len(suffix):] == suffix] *)
Definition HasSuffix (s suffix : string) : bool :=
  (String.length suffix <=? String.length s)%nat &&
  bool_decide (String.substring (String.length s - String.length suffix)
                 (String.length suffix) s = suffix).

(** Membership of a byte in a string. *)
Fixpoint HasByte (c : ascii) (s : string) : bool :=
  match s with
  | EmptyString => false
  | String d s' => bool_decide (c = d) || HasByte c s'
  end.

(** [strings.TrimRight(s, cutset)]: drop the trailing bytes that occur in [cutset]. *)
Fixpoint TrimRight (s cutset : string) : string :=
  match s with
  | EmptyString => EmptyString
  | String c s' =>
      match TrimRight s' cutset with
      | EmptyString => if HasByte c cutset then EmptyString else String c EmptyString
      | r => String c r
      end
  end.

(** [strings.Cut(s, sep)] for a one-byte separator. *)
Fixpoint Cut (sep : ascii) (s : string) : option (string * string) :=
  match s with
  | EmptyString => None
  | String c s' =>
      if bool_decide (c = sep) then Some (EmptyString, s')
      else match Cut sep s' with
           | Some (a, b) => Some (String c a, b)
           | None => None
           end
  end.

(** [strings.SplitN(s, sep, 2)] *)
Definition SplitN2 (sep : ascii) (s : string) : list string :=
  match Cut sep s with Some (a, b) => [a; b] | None => [s] end.

(** [strings.Split(s, sep)] *)
Fixpoint Split (sep : ascii) (s : string) : list string :=
  match s with
  | EmptyString => [EmptyString]
  | String c s' =>
      if bool_decide (c = sep) then EmptyString :: Split sep s'
      else match Split sep s' with
           | h :: t => String c h :: t
           | [] => [String c EmptyString]
           end
  end.

(** [strings.Join(l, sep)] *)
Definition Join (l : list string) (sep : string) : string := String.concat sep l.

(** The byte ["/"]. *)
Definition slash : ascii := "/"%char.

(** ** Concatenation *)

Lemma str_app_nil_r s : s +:+ "" = s.
Proof. induction s as [|c s IH]; simpl; [done|]. by rewrite IH. Qed.

Lemma str_app_assoc s t u : (s +:+ t) +:+ u = s +:+ (t +:+ u).
Proof. induction s as [|c s IH]; simpl; [done|]. by rewrite IH. Qed.

Lemma str_length_app s t : String.length (s +:+ t) = (String.length s + String.length t)%nat.
Proof. induction s as [|c s IH]; simpl; [done|]. by rewrite IH. Qed.

Lemma str_app_inj_len a b c d :
  String.length a = String.length c -> a +:+ b = c +:+ d -> a = c /\ b = d.
Proof.
  revert c. induction a as [|x a IH]; intros [|y c] Hl H; simplify_eq/=; [done|].
  destruct (IH c) as [-> ->]; auto.
Qed.

Lemma HasByte_app c s t : HasByte c (s +:+ t) = HasByte c s || HasByte c t.
Proof. induction s as [|d s IH]; simpl; [done|]. by rewrite IH, orb_assoc. Qed.

(** ** Prefixes and suffixes *)

Lemma HasPrefix_true s p : HasPrefix s p = true <-> exists t, s = p +:+ t.
Proof.
  unfold HasPrefix. revert s. induction p as [|c p IH]; intros s; simpl.
  - destruct s; split; eauto.
  - destruct s as [|d s]; simpl; [split; [done | intros [t ?]; done]|].
    destruct (ascii_dec c d) as [->|Hn].
    + rewrite IH. split; intros [t Ht]; exists t; by simplify_eq.
    + split; [done | intros [t ?]; by simplify_eq].
Qed.

Lemma HasPrefix_app s t : HasPrefix (s +:+ t) s = true.
Proof. apply HasPrefix_true. eauto. Qed.

Lemma HasPrefix_trans s t u :
  HasPrefix t u = true -> HasPrefix s t = true -> HasPrefix s u = true.
Proof.
  rewrite !HasPrefix_true. intros [x ->] [y ->]. exists (x +:+ y). by rewrite str_app_assoc.
Qed.

Lemma substring_all s : String.substring 0 (String.length s) s = s.
Proof. induction s as [|c s IH]; simpl; [done|]. by rewrite IH. Qed.

Lemma substring_drop t s :
  String.substring (String.length t) (String.length s) (t +:+ s) = s.
Proof. induction t as [|c t IH]; simpl; [apply substring_all | exact IH]. Qed.

Lemma substring_split n s :
  (n <= String.length s)%nat ->
  exists t, s = t +:+ String.substring n (String.length s - n) s /\ String.length t = n.
Proof.
  revert n. induction s as [|c s IH]; intros [|n] Hn; simpl in *; try lia.
  - exists "". done.
  - exists "". by rewrite substring_all.
  - destruct (IH n) as (t & Ht & Hl); [lia|]. exists (String c t). simpl.
    rewrite <- Ht, Hl. done.
Qed.

Lemma HasSuffix_true s suf : HasSuffix s suf = true <-> exists t, s = t +:+ suf.
Proof.
  unfold HasSuffix. split.
  - intros H. bools. apply Nat.leb_le in H.
    destruct (substring_split (String.length s - String.length suf) s) as (t & Ht & _); [lia|].
    replace (String.length s - (String.length s - String.length suf))%nat
      with (String.length suf) in Ht by lia.
    exists t. by rewrite Ht, H0 at 1.
  - intros [t ->]. rewrite str_length_app. apply andb_true_iff. split.
    + apply Nat.leb_le. lia.
    + apply bool_decide_eq_true.
      replace (String.length t + String.length suf - String.length suf)%nat
        with (String.length t) by lia.
      apply substring_drop.
Qed.

(** ** Trimming *)

(** Every byte of [s] is a byte of [cut]. *)
Fixpoint all_bytes_in (s cut : string) : bool :=
  match s with EmptyString => true | String c s' => HasByte c cut && all_bytes_in s' cut end.

Lemma all_bytes_in_app s t cut :
  all_bytes_in (s +:+ t) cut = all_bytes_in s cut && all_bytes_in t cut.
Proof. induction s as [|c s IH]; simpl; [done|]. by rewrite IH, andb_assoc. Qed.

Lemma TrimRight_decomp s cut :
  exists tl, s = TrimRight s cut +:+ tl /\ all_bytes_in tl cut = true.
Proof.
  induction s as [|c s (tl & Hs & Htl)]; simpl; [by exists ""|].
  destruct (TrimRight s cut) as [|d r] eqn:E.
  - destruct (HasByte c cut) eqn:Hc.
    + exists (String c s). simpl in *. subst tl. by rewrite Hc, Htl.
    + exists s. simpl in *. subst tl. done.
  - exists tl. simpl in *. rewrite <- Hs. done.
Qed.

(** A trimmed string never ends in a byte of the cutset. *)
Lemma TrimRight_last s cut p c :
  TrimRight s cut = p +:+ String c "" -> HasByte c cut = false.
Proof.
  revert p. induction s as [|d s IH]; intros p; simpl.
  - destruct p; done.
  - destruct (TrimRight s cut) as [|e r] eqn:E.
    + destruct (HasByte d cut) eqn:Hd; [destruct p; done|].
      destruct p as [|x p]; simpl; intros ?; simplify_eq; [done|].
      destruct p; done.
    + destruct p as [|x p]; simpl; intros H; simplify_eq. by apply (IH p).
Qed.

Lemma str_snoc_case s : s = "" \/ exists p c, s = p +:+ String c "".
Proof.
  induction s as [|c s [->|(p & d & ->)]]; [by left| |]; right.
  - by exists "", c.
  - by exists (String c p), d.
Qed.

Lemma all_bytes_in_last t cut p c :
  all_bytes_in t cut = true -> t = p +:+ String c "" -> HasByte c cut = true.
Proof. intros H ->. rewrite all_bytes_in_app in H. simpl in H. by bools. Qed.

(** When a trimmed string [TrimRight o cut] is a prefix of [s], it is already a prefix of
    the trimmed [s]: the part of [s] that trimming drops cannot contribute to it. *)
Lemma TrimRight_prefix o s cut :
  HasPrefix s (TrimRight o cut) = true ->
  HasPrefix (TrimRight s cut) (TrimRight o cut) = true.
Proof.
  rewrite !HasPrefix_true. intros [t Ht].
  destruct (TrimRight_decomp s cut) as (tl & Hs & Htl).
  rewrite Hs in Ht. remember (TrimRight o cut) as p eqn:Hp.
  remember (TrimRight s cut) as q eqn:Hq. clear Hs Hq.
  assert (Hlast : forall r c, p = r +:+ String c "" -> HasByte c cut = false)
    by (intros r c ->; eapply TrimRight_last; eauto).
  clear Hp o s. revert q Ht Hlast. induction p as [|x p IH]; intros q Ht Hlast; [by exists q|].
  destruct q as [|y q]; simpl in Ht.
  - exfalso. subst tl. destruct (str_snoc_case (String x p)) as [?|(r & c & E)]; [done|].
    change (String x (p +:+ t)) with (String x p +:+ t) in Htl.
    rewrite all_bytes_in_app in Htl. bools.
    pose proof (all_bytes_in_last _ _ _ _ H E). rewrite (Hlast r c E) in *. done.
  - simplify_eq. destruct (IH q) as [u ->]; [done| |by exists u].
    intros r c ->. eapply (Hlast (String _ r)). done.
Qed.

(** ** Splitting *)

Lemma Cut_Some sep s a b :
  Cut sep s = Some (a, b) -> s = a +:+ String sep b /\ HasByte sep a = false.
Proof.
  revert a. induction s as [|c s IH]; intros a; simpl; [done|].
  case_bool_decide; intros; simplify_eq; [done|].
  destruct (Cut sep s) as [[a' b']|]; simplify_eq.
  destruct (IH a' eq_refl) as [-> Hb]. simpl. rewrite Hb, bool_decide_false by congruence. done.
Qed.

Lemma Cut_None sep s : Cut sep s = None <-> HasByte sep s = false.
Proof.
  induction s as [|c s IH]; simpl; [done|].
  destruct (decide (c = sep)) as [->|Hn].
  - rewrite !bool_decide_true by done. done.
  - rewrite !bool_decide_false by congruence. simpl. rewrite <- IH.
    destruct (Cut sep s) as [[]|]; done.
Qed.

Lemma Cut_app sep a b : HasByte sep a = false -> Cut sep (a +:+ String sep b) = Some (a, b).
Proof.
  induction a as [|c a IH]; simpl; intros H.
  - by rewrite bool_decide_true.
  - bools. rewrite bool_decide_false by congruence. by rewrite IH.
Qed.

Lemma Split_noSep sep s : HasByte sep s = false -> Split sep s = [s].
Proof.
  induction s as [|c s IH]; simpl; intros H; [done|]. bools.
  rewrite bool_decide_false by congruence. by rewrite IH.
Qed.

Lemma Split_app sep a b :
  HasByte sep a = false -> Split sep (a +:+ String sep b) = a :: Split sep b.
Proof.
  induction a as [|c a IH]; simpl; intros H.
  - by rewrite bool_decide_true.
  - bools. rewrite bool_decide_false by congruence. by rewrite IH.
Qed.

#[export] Hint Resolve HasPrefix_app HasPrefix_trans TrimRight_prefix Split_noSep : olm.

(** [Split] undoes [Join] when no part has the separator. *)
Lemma Split_Join sep l :
  l <> [] -> (forall x, x ∈ l -> HasByte sep x = false) -> Split sep (Join l (String sep "")) = l.
Proof.
  induction l as [|x [|y l] IH]; intros Hne Hall; [done| |].
  - apply Split_noSep. set_solver.
  - change (Join (x :: y :: l) (String sep "")) with (x +:+ String sep (Join (y :: l) (String sep ""))).
    rewrite Split_app by set_solver. f_equal. apply IH; [done|set_solver].
Qed.

Lemma HasByte_Join c sep l :
  HasByte c sep = false -> (forall x, x ∈ l -> HasByte c x = false) -> HasByte c (Join l sep) = false.
Proof.
  intros Hs. induction l as [|x [|y l] IH]; intros Hall; [done|by apply Hall; set_solver|].
  change (Join (x :: y :: l) sep) with (x +:+ sep +:+ Join (y :: l) sep).
  rewrite !HasByte_app, Hs, IH by set_solver. rewrite Hall by set_solver. done.
Qed.
