(* ===== verification/RbacRules.v ===== *)
(** * RBAC policy rules: matching, covering, compaction

    Models [pkg/lib/kubernetes/pkg/registry/rbac/validation/policy_comparator.go]
    ([Covers] and its helpers), [policy_compact.go], the matching functions of
    [pkg/lib/kubernetes/pkg/apis/rbac/v1/evaluation_helpers.go] and [RuleAllows]/[RulesAllow]
    of [pkg/lib/kubernetes/plugin/pkg/auth/authorizer/rbac/rbac.go].

    The escalation check asks whether a set of owner rules grants everything a set of
    servant rules grants.  [Covers] answers it syntactically, on rules broken down to single
    verbs, groups, resources and names; [RulesAllow] is what the authorizer decides for one
    request.  The theorems relate the two. *)

From S2P Require Import Prelude GoStrings.

#[local] Arguments String.append : simpl nomatch.

(** ** Data *)

(** [rbacv1.PolicyRule].  [NonResourceURLs] keeps the difference between a nil and an empty
    slice, which [isSimpleResourceRule] observes. *)
Record PolicyRule := mkRule {
  Verbs : list string;
  APIGroups : list string;
  Resources : list string;
  ResourceNames : list string;
  NonResourceURLs_slice : option (list string)
}.

Definition NonResourceURLs (r : PolicyRule) : list string :=
  default [] r.(NonResourceURLs_slice).

#[export] Instance PolicyRule_eq_dec : EqDecision PolicyRule.
Proof. solve_decision. Defined.

(** [user.Info], as far as RBAC reads it. *)
Record UserInfo := mkUser { GetName : string; GetGroups : list string }.

(** [authorizer.AttributesRecord] *)
Record Attributes := mkAttrs {
  AUser : UserInfo;
  AVerb : string;
  ANamespace : string;
  AAPIGroup : string;
  AResource : string;
  ASubresource : string;
  AName : string;
  AResourceRequest : bool;
  APath : string
}.

(** [rbacv1.VerbAll], [APIGroupAll], [ResourceAll], [NonResourceAll] *)
Definition All : string := "*".

(** ** Matching one request against one rule (evaluation_helpers.go) *)

Definition VerbMatches (rule : PolicyRule) (requestedVerb : string) : bool :=
  existsb (fun ruleVerb => bool_decide (ruleVerb = All) || bool_decide (ruleVerb = requestedVerb))
    rule.(Verbs).

Definition APIGroupMatches (rule : PolicyRule) (requestedGroup : string) : bool :=
  existsb (fun ruleGroup => bool_decide (ruleGroup = All) || bool_decide (ruleGroup = requestedGroup))
    rule.(APIGroups).

Definition ResourceMatches (rule : PolicyRule) (combinedRequestedResource requestedSubresource : string) : bool :=
  existsb (fun ruleResource =>
      if bool_decide (ruleResource = All) then true
      else if bool_decide (ruleResource = combinedRequestedResource) then true
      else if (String.length requestedSubresource =? 0)%nat then false
      else (String.length ruleResource =? String.length requestedSubresource + 2)%nat
           && HasPrefix ruleResource "*/"
           && HasSuffix ruleResource requestedSubresource)
    rule.(Resources).

Definition ResourceNameMatches (rule : PolicyRule) (requestedName : string) : bool :=
  if (length rule.(ResourceNames) =? 0)%nat then true
  else existsb (fun ruleName => bool_decide (ruleName = requestedName)) rule.(ResourceNames).

Definition NonResourceURLMatches (rule : PolicyRule) (requestedURL : string) : bool :=
  existsb (fun ruleURL =>
      if bool_decide (ruleURL = All) then true
      else if bool_decide (ruleURL = requestedURL) then true
      else HasSuffix ruleURL "*" && HasPrefix requestedURL (TrimRight ruleURL "*"))
    (NonResourceURLs rule).

(** ** The authorizer's decision on one rule and on a list of rules (rbac.go) *)

Definition RuleAllows (requestAttributes : Attributes) (rule : PolicyRule) : bool :=
  if requestAttributes.(AResourceRequest) then
    let combinedResource :=
      if (0 <? String.length requestAttributes.(ASubresource))%nat
      then requestAttributes.(AResource) +:+ "/" +:+ requestAttributes.(ASubresource)
      else requestAttributes.(AResource) in
    VerbMatches rule requestAttributes.(AVerb)
    && APIGroupMatches rule requestAttributes.(AAPIGroup)
    && ResourceMatches rule combinedResource requestAttributes.(ASubresource)
    && ResourceNameMatches rule requestAttributes.(AName)
  else
    VerbMatches rule requestAttributes.(AVerb)
    && NonResourceURLMatches rule requestAttributes.(APath).

Definition RulesAllow (requestAttributes : Attributes) (rules : list PolicyRule) : bool :=
  existsb (RuleAllows requestAttributes) rules.

(** ** Covering (policy_comparator.go) *)

Definition has (set : list string) (ele : string) : bool :=
  existsb (fun s => bool_decide (s = ele)) set.

Definition hasAll (set contains : list string) : bool :=
  let owning : gset string := list_to_set set in
  forallb (fun ele => bool_decide (ele ∈ owning)) contains.

Definition resourceCoversAll (setResources coversResources : list string) : bool :=
  if has setResources All || hasAll setResources coversResources then true
  else forallb (fun path =>
      if has setResources path then true
      else if negb (HasByte slash path) then false
      else match SplitN2 slash path with
           | _ :: token1 :: _ => has setResources ("*/" +:+ token1)
           | _ => false
           end)
    coversResources.

Definition nonResourceURLCovers (ownerPath subPath : string) : bool :=
  if bool_decide (ownerPath = subPath) then true
  else HasSuffix ownerPath "*" && HasPrefix subPath (TrimRight ownerPath "*").

Definition nonResourceURLsCoversAll (set covers : list string) : bool :=
  forallb (fun path => existsb (fun owner => nonResourceURLCovers owner path) set) covers.

Definition ruleCovers (ownerRule subRule : PolicyRule) : bool :=
  let verbMatches := has ownerRule.(Verbs) All || hasAll ownerRule.(Verbs) subRule.(Verbs) in
  let groupMatches := has ownerRule.(APIGroups) All || hasAll ownerRule.(APIGroups) subRule.(APIGroups) in
  let resourceMatches := resourceCoversAll ownerRule.(Resources) subRule.(Resources) in
  let nonResourceURLMatches :=
    nonResourceURLsCoversAll (NonResourceURLs ownerRule) (NonResourceURLs subRule) in
  let resourceNameMatches :=
    if (length subRule.(ResourceNames) =? 0)%nat
    then (length ownerRule.(ResourceNames) =? 0)%nat
    else (length ownerRule.(ResourceNames) =? 0)%nat
         || hasAll ownerRule.(ResourceNames) subRule.(ResourceNames) in
  verbMatches && groupMatches && resourceMatches && resourceNameMatches && nonResourceURLMatches.

Definition BreakdownRule (rule : PolicyRule) : list PolicyRule :=
  flat_map (fun group =>
    flat_map (fun resource =>
      flat_map (fun verb =>
        if (0 <? length rule.(ResourceNames))%nat
        then map (fun resourceName => mkRule [verb] [group] [resource] [resourceName] None)
               rule.(ResourceNames)
        else [mkRule [verb] [group] [resource] [] None])
        rule.(Verbs))
      rule.(Resources))
    rule.(APIGroups)
  ++ flat_map (fun nonResourceURL =>
       map (fun verb => mkRule [verb] [] [] [] (Some [nonResourceURL])) rule.(Verbs))
     (NonResourceURLs rule).

Definition Covers (ownerRules servantRules : list PolicyRule) : bool * list PolicyRule :=
  let subrules := flat_map BreakdownRule servantRules in
  let uncoveredRules :=
    List.filter (fun subrule => negb (existsb (fun ownerRule => ruleCovers ownerRule subrule) ownerRules))
      subrules in
  ((length uncoveredRules =? 0)%nat, uncoveredRules).

(** ** Compaction (policy_compact.go) *)

(** [simpleResource]: Group, Resource, ResourceNameExist, ResourceName *)
Definition simpleResource : Type := string * string * bool * string.

Definition isSimpleResourceRule (rule : PolicyRule) : option simpleResource :=
  if (1 <? length rule.(ResourceNames))%nat || (0 <? length (NonResourceURLs rule))%nat then None
  else match rule.(APIGroups), rule.(Resources) with
  | [group], [resource] =>
      let simpleRule := mkRule rule.(Verbs) rule.(APIGroups) rule.(Resources) rule.(ResourceNames) None in
      if negb (bool_decide (simpleRule = rule)) then None
      else match rule.(ResourceNames) with
           | [] => Some (group, resource, false, "")
           | resourceName :: _ => Some (group, resource, true, resourceName)
           end
  | _, _ => None
  end.

Definition addVerbs (existingRule rule : PolicyRule) : PolicyRule :=
  mkRule (existingRule.(Verbs) ++ rule.(Verbs)) existingRule.(APIGroups) existingRule.(Resources)
    existingRule.(ResourceNames) existingRule.(NonResourceURLs_slice).

Definition compactStep (acc : list PolicyRule * gmap simpleResource PolicyRule) (rule : PolicyRule)
  : list PolicyRule * gmap simpleResource PolicyRule :=
  let '(compacted, simpleRules) := acc in
  match isSimpleResourceRule rule with
  | Some resource =>
      match simpleRules !! resource with
      | Some existingRule => (compacted, <[resource := addVerbs existingRule rule]> simpleRules)
      | None => (compacted, <[resource := rule]> simpleRules)
      end
  | None => (compacted ++ [rule], simpleRules)
  end.

Definition CompactRules `{RangeOrder} (rules : list PolicyRule) : list PolicyRule :=
  let '(compacted, simpleRules) := foldl compactStep ([], ∅) rules in
  compacted ++ (range simpleRules).*2.

(** [ruleValid] of [pkg/controller/install/rule_checker.go]: [None] when the rule is valid. *)
Inductive ruleError := NoVerb | ResourceAndNonResource.

Definition ruleValid (rule : PolicyRule) : option ruleError :=
  if (length rule.(Verbs) =? 0)%nat then Some NoVerb
  else
    let resourceCount :=
      (length rule.(APIGroups) + length rule.(Resources) + length rule.(ResourceNames))%nat in
    if (0 <? resourceCount)%nat && (0 <? length (NonResourceURLs rule))%nat
    then Some ResourceAndNonResource
    else None.

(** ** Characterisations of the matchers *)

Lemma has_true set ele : has set ele = true <-> ele ∈ set.
Proof.
  unfold has. rewrite existsb_elem_of. split.
  - intros (x & Hx & E). bools. by subst.
  - intros H. exists ele. by rewrite bool_decide_true.
Qed.

Lemma hasAll_true set contains : hasAll set contains = true <-> contains ⊆ set.
Proof.
  unfold hasAll. rewrite forallb_elem_of. split.
  - intros H x Hx%H. bools. by rewrite elem_of_list_to_set in *.
  - intros H x Hx%H. apply bool_decide_true. by apply elem_of_list_to_set.
Qed.

Lemma VerbMatches_true rule v : VerbMatches rule v = true <-> All ∈ Verbs rule \/ v ∈ Verbs rule.
Proof.
  unfold VerbMatches. rewrite existsb_elem_of. split.
  - intros (x & Hx & E). bools. destruct E; bools; subst; auto.
  - intros [H|H]; eexists; (split; [exact H|]); rewrite orb_true_iff, !bool_decide_eq_true; auto.
Qed.

Lemma APIGroupMatches_true rule g :
  APIGroupMatches rule g = true <-> All ∈ APIGroups rule \/ g ∈ APIGroups rule.
Proof.
  unfold APIGroupMatches. rewrite existsb_elem_of. split.
  - intros (x & Hx & E). bools. destruct E; bools; subst; auto.
  - intros [H|H]; eexists; (split; [exact H|]); rewrite orb_true_iff, !bool_decide_eq_true; auto.
Qed.

Lemma ResourceNameMatches_true rule n :
  ResourceNameMatches rule n = true <-> ResourceNames rule = [] \/ n ∈ ResourceNames rule.
Proof.
  unfold ResourceNameMatches. case_one.
  - apply Nat.eqb_eq, length_zero_iff_nil in Heqb. split; auto.
  - apply Nat.eqb_neq in Heqb. fold (has (ResourceNames rule) n). rewrite has_true.
    split; [auto|]. intros [E|?]; [|done]. rewrite E in Heqb. done.
Qed.

(** The strings a rule's resource can be to match a requested resource. *)
Lemma subresource_pattern p sub :
  ((String.length p =? String.length sub + 2)%nat && HasPrefix p "*/" && HasSuffix p sub = true)
  <-> p = "*/" +:+ sub.
Proof.
  split.
  - intros H. bools. apply Nat.eqb_eq in H.
    apply HasPrefix_true in H1 as [t ->]. apply HasSuffix_true in H0 as [u Hu].
    assert (String.length u = 2%nat) as Hl.
    { pose proof (f_equal String.length Hu) as E. rewrite str_length_app in E, H.
      rewrite str_length_app in E. simpl in *. lia. }
    destruct (str_app_inj_len "*/" t u sub) as [_ ->]; auto.
  - intros ->. rewrite !andb_true_iff, Nat.eqb_eq, HasPrefix_true, HasSuffix_true.
    rewrite str_length_app. simpl. split; [split; [lia|]|]; eauto. by exists "*/".
Qed.

Lemma ResourceMatches_true rule combined sub :
  ResourceMatches rule combined sub = true <->
  exists p, p ∈ Resources rule /\
    (p = All \/ p = combined \/ (sub <> "" /\ p = "*/" +:+ sub)).
Proof.
  unfold ResourceMatches. rewrite existsb_elem_of. apply exist_proper. intros p.
  apply and_iff_compat_l. do 2 (case_bool_decide; [naive_solver|]).
  destruct sub as [|c sub]; [naive_solver|]. simpl (_ =? 0)%nat. cbv iota.
  rewrite subresource_pattern. naive_solver.
Qed.

Lemma nonResourceURLCovers_true o s :
  nonResourceURLCovers o s = true <->
  o = s \/ (HasSuffix o "*" = true /\ HasPrefix s (TrimRight o "*") = true).
Proof.
  unfold nonResourceURLCovers. case_bool_decide; [naive_solver|].
  rewrite andb_true_iff. naive_solver.
Qed.

Lemma TrimRight_All : TrimRight All "*" = "".
Proof. done. Qed.

(** Matching a URL is being covered by one of the rule's URLs: the literal ["*"] is the case
    of an empty prefix. *)
Lemma NonResourceURLMatches_true rule url :
  NonResourceURLMatches rule url = true <->
  exists u, u ∈ NonResourceURLs rule /\ nonResourceURLCovers u url = true.
Proof.
  unfold NonResourceURLMatches. rewrite existsb_elem_of. apply exist_proper. intros u.
  apply and_iff_compat_l. unfold nonResourceURLCovers. repeat case_bool_decide; try done.
  subst. split; [|done]. intros _. rewrite TrimRight_All.
  apply andb_true_iff. split; [done|]. apply HasPrefix_true. by exists url.
Qed.

Lemma nonResourceURLCovers_trans a b c :
  nonResourceURLCovers a b = true -> nonResourceURLCovers b c = true ->
  nonResourceURLCovers a c = true.
Proof.
  rewrite !nonResourceURLCovers_true. intros [->|[Ha1 Ha2]] [->|[Hb1 Hb2]]; auto.
  right. split; [done|]. eauto using HasPrefix_trans, TrimRight_prefix.
Qed.

Lemma nonResourceURLsCoversAll_true set covers :
  nonResourceURLsCoversAll set covers = true <->
  forall p, p ∈ covers -> exists o, o ∈ set /\ nonResourceURLCovers o p = true.
Proof.
  unfold nonResourceURLsCoversAll. rewrite forallb_elem_of. by setoid_rewrite existsb_elem_of.
Qed.

(** One resource of a rule is covered: by the wildcard, literally, or by [*/subresource]. *)
Definition resourceCovered (set : list string) (path : string) : Prop :=
  All ∈ set \/ path ∈ set \/
  exists pre tok, path = pre +:+ String slash tok /\ HasByte slash pre = false /\ "*/" +:+ tok ∈ set.

Lemma resourceCoversAll_true set covers :
  resourceCoversAll set covers = true <-> forall p, p ∈ covers -> resourceCovered set p \/ All ∈ set.
Proof.
  unfold resourceCoversAll, resourceCovered. split.
  - case_one; [intros _ p Hp | rewrite forallb_elem_of; intros H p Hp%H].
    + bools. destruct Heqb as [H%has_true|H%hasAll_true]; auto.
    + case_one; [apply has_true in Heqb0; auto|]. destruct (HasByte slash p) eqn:Hs; [|done].
      simpl in Hp. unfold SplitN2 in Hp. destruct (Cut slash p) as [[pre tok]|] eqn:Hc.
      * apply Cut_Some in Hc as [-> ?]. apply has_true in Hp. left. right. right. eauto.
      * apply Cut_None in Hc. congruence.
  - intros H. case_one; [done|]. bools. rewrite forallb_elem_of. intros p Hp.
    assert (~ All ∈ set) as Hn by (rewrite <- has_true; congruence).
    case_one; [done|]. assert (~ p ∈ set) as Hnp by (rewrite <- has_true; congruence).
    destruct (H p Hp) as [[?|[?|(pre & tok & -> & Hpre & Htok)]]|?]; try done.
    rewrite HasByte_app, orb_comm. simpl.
    unfold SplitN2. rewrite Cut_app by done. by apply has_true.
Qed.

Lemma resourceCovered_iff set covers :
  resourceCoversAll set covers = true <-> forall p, p ∈ covers -> resourceCovered set p.
Proof.
  rewrite resourceCoversAll_true. unfold resourceCovered. split; intros H p Hp%H; naive_solver.
Qed.

Lemma ruleCovers_true o s :
  ruleCovers o s = true <->
  (All ∈ Verbs o \/ Verbs s ⊆ Verbs o) /\
  (All ∈ APIGroups o \/ APIGroups s ⊆ APIGroups o) /\
  (forall p, p ∈ Resources s -> resourceCovered (Resources o) p) /\
  (ResourceNames o = [] \/ (ResourceNames s <> [] /\ ResourceNames s ⊆ ResourceNames o)) /\
  (forall p, p ∈ NonResourceURLs s ->
     exists u, u ∈ NonResourceURLs o /\ nonResourceURLCovers u p = true).
Proof.
  unfold ruleCovers. rewrite !andb_true_iff, !orb_true_iff, !has_true, !hasAll_true,
    resourceCovered_iff, nonResourceURLsCoversAll_true.
  assert (forall l : list string, (length l =? 0)%nat = true <-> l = []) as Hlen.
  { intros l. by rewrite Nat.eqb_eq, length_zero_iff_nil. }
  assert ((if (length (ResourceNames s) =? 0)%nat
           then (length (ResourceNames o) =? 0)%nat
           else (length (ResourceNames o) =? 0)%nat || hasAll (ResourceNames o) (ResourceNames s)) = true
          <-> (ResourceNames o = [] \/ (ResourceNames s <> [] /\ ResourceNames s ⊆ ResourceNames o))) as ->.
  { destruct (length (ResourceNames s) =? 0)%nat eqn:E.
    - apply Hlen in E. rewrite Hlen. naive_solver.
    - rewrite orb_true_iff, Hlen, hasAll_true. split; [|naive_solver].
      intros [?|?]; [by left|]. right. split; [|done]. intros Hs. by rewrite Hs in E. }
  tauto.
Qed.

(** ** Breaking a rule down *)

Lemma elem_of_BreakdownRule rule sub :
  sub ∈ BreakdownRule rule <->
  (exists g r v ns, g ∈ APIGroups rule /\ r ∈ Resources rule /\ v ∈ Verbs rule /\
     ((ResourceNames rule = [] /\ ns = []) \/ exists n, n ∈ ResourceNames rule /\ ns = [n]) /\
     sub = mkRule [v] [g] [r] ns None) \/
  (exists u v, u ∈ NonResourceURLs rule /\ v ∈ Verbs rule /\ sub = mkRule [v] [] [] [] (Some [u])).
Proof.
  unfold BreakdownRule. rewrite elem_of_app. apply Morphisms_Prop.or_iff_morphism.
  - rewrite elem_of_flat_map. setoid_rewrite elem_of_flat_map. setoid_rewrite elem_of_flat_map.
    destruct (0 <? length (ResourceNames rule))%nat eqn:E.
    + apply Nat.ltb_lt in E. split.
      * intros (g & ? & r & ? & v & ? & (n & -> & ?)%list_elem_of_fmap). naive_solver.
      * intros (g & r & v & ns & ? & ? & ? & [[E' ?]|(n & ? & ->)] & ->); [by rewrite E' in E; simpl in E; lia|].
        exists g. split; [done|]. exists r. split; [done|]. exists v. split; [done|].
        apply list_elem_of_fmap. eauto.
    + apply Nat.ltb_ge in E. assert (ResourceNames rule = []) as E0 by (apply length_zero_iff_nil; lia).
      split.
      * intros (g & ? & r & ? & v & ? & ->%list_elem_of_singleton). exists g, r, v, []. auto 10.
      * rewrite E0.
        intros (g & r & v & ns & ? & ? & ? & [[_ ->]|(n & Hn & _)] & ->); [|by apply elem_of_nil in Hn].
        exists g. split; [done|]. exists r. split; [done|]. exists v. split; [done|].
        by apply list_elem_of_singleton.
  - rewrite elem_of_flat_map. setoid_rewrite list_elem_of_fmap. naive_solver.
Qed.

(** A request on resources is well formed when its resource names no subresource by itself:
    the API server splits [resource/subresource] before authorization. *)
Definition wf_request (a : Attributes) : Prop :=
  AResourceRequest a = true -> HasByte slash (AResource a) = false.

Lemma RuleAllows_resource a rule :
  AResourceRequest a = true ->
  RuleAllows a rule = true <->
  VerbMatches rule (AVerb a) = true /\ APIGroupMatches rule (AAPIGroup a) = true /\
  ResourceMatches rule
    (if (0 <? String.length (ASubresource a))%nat
     then AResource a +:+ "/" +:+ ASubresource a else AResource a) (ASubresource a) = true /\
  ResourceNameMatches rule (AName a) = true.
Proof. intros H. unfold RuleAllows. rewrite H, !andb_true_iff. tauto. Qed.

Lemma RuleAllows_nonResource a rule :
  AResourceRequest a = false ->
  RuleAllows a rule = true <->
  VerbMatches rule (AVerb a) = true /\ NonResourceURLMatches rule (APath a) = true.
Proof. intros H. unfold RuleAllows. by rewrite H, andb_true_iff. Qed.

Lemma RulesAllow_true a rules :
  RulesAllow a rules = true <-> exists r, r ∈ rules /\ RuleAllows a r = true.
Proof. unfold RulesAllow. apply existsb_elem_of. Qed.

Lemma resource_pattern_covered a o p :
  HasByte slash (AResource a) = false ->
  let combined := if (0 <? String.length (ASubresource a))%nat
                  then AResource a +:+ "/" +:+ ASubresource a else AResource a in
  p = All \/ p = combined \/ (ASubresource a <> "" /\ p = "*/" +:+ ASubresource a) ->
  resourceCovered (Resources o) p ->
  ResourceMatches o combined (ASubresource a) = true.
Proof.
  intros Hwf combined Hp Hc. apply ResourceMatches_true. unfold resourceCovered in Hc.
  destruct Hc as [?|[?|(pre & tok & -> & Hpre & Htok)]]; [by exists All; auto|by exists p|].
  exists ("*/" +:+ tok). split; [done|]. right. right.
  assert (forall x, HasByte slash x = false -> forall y, pre +:+ String slash tok = x +:+ String slash y -> tok = y)
    as Hcut.
  { intros x Hx y E. pose proof (Cut_app slash pre tok Hpre) as E1.
    rewrite E, Cut_app in E1 by done. congruence. }
  destruct Hp as [E|[E|[? E]]].
  - exfalso. assert (HasByte slash (pre +:+ String slash tok) = true) as Hs.
    { by rewrite HasByte_app, orb_comm. }
    rewrite E in Hs. done.
  - subst combined. destruct (ASubresource a) as [|c sub] eqn:Es; simpl in E.
    + exfalso. rewrite <- E, HasByte_app, orb_comm in Hwf. done.
    + split; [done|]. f_equal. by apply (Hcut (AResource a)).
  - split; [done|]. f_equal. by apply (Hcut "*").
Qed.

(** A covered rule allows no more than the rule that covers it. *)
Lemma ruleCovers_sound o s a :
  wf_request a -> ruleCovers o s = true -> RuleAllows a s = true -> RuleAllows a o = true.
Proof.
  intros Hwf (Hv & Hg & Hr & Hn & Hu)%ruleCovers_true.
  destruct (AResourceRequest a) eqn:Hreq.
  - rewrite !RuleAllows_resource, !VerbMatches_true, !APIGroupMatches_true,
      !ResourceNameMatches_true, (ResourceMatches_true s) by done.
    intros (? & ? & (p & Hp & Hpat) & Hname). repeat split.
    + set_solver.
    + set_solver.
    + eapply resource_pattern_covered; eauto.
    + set_solver.
  - rewrite !RuleAllows_nonResource, !VerbMatches_true, !NonResourceURLMatches_true by done.
    intros (? & u & (o' & ? & ?)%Hu & ?). split; [set_solver|].
    exists o'. eauto using nonResourceURLCovers_trans.
Qed.

Lemma Covers_true owner servant :
  (Covers owner servant).1 = true <->
  forall s sub, s ∈ servant -> sub ∈ BreakdownRule s -> exists o, o ∈ owner /\ ruleCovers o sub = true.
Proof.
  unfold Covers. simpl. rewrite Nat.eqb_eq, length_zero_iff_nil.
  set (l := flat_map BreakdownRule servant). split.
  - intros Hnil s sub Hs Hsub. apply existsb_elem_of.
    destruct (existsb _ owner) eqn:E; [done|].
    assert (sub ∈ List.filter (fun subrule => negb (existsb (fun o => ruleCovers o subrule) owner)) l) as Hin.
    { apply list_elem_of_In, filter_In. rewrite <- list_elem_of_In, E. split; [|done].
      apply elem_of_flat_map. eauto. }
    rewrite Hnil in Hin. by apply elem_of_nil in Hin.
  - intros H. destruct (nil_or_head (List.filter (fun subrule =>
      negb (existsb (fun o => ruleCovers o subrule) owner)) l)) as [?|[x Hx]]; [done|exfalso].
    apply list_elem_of_In, filter_In in Hx as [Hx Hn]. apply list_elem_of_In in Hx.
    apply elem_of_flat_map in Hx as (s & Hs & Hx). apply negb_true_iff in Hn.
    destruct (H s x Hs Hx) as (o & Ho & Hc).
    rewrite existsb_not_elem_of in Hn. rewrite (Hn o Ho) in Hc. done.
Qed.

Lemma RuleAllows_of_sub a rule sub :
  sub ∈ BreakdownRule rule -> RuleAllows a sub = true -> RuleAllows a rule = true.
Proof.
  intros [(g & r & v & ns & Hg & Hr & Hv & Hns & ->)|(u & v & Hu & Hv & ->)]%elem_of_BreakdownRule;
  destruct (AResourceRequest a) eqn:Hreq.
  - rewrite !RuleAllows_resource, !VerbMatches_true, !APIGroupMatches_true, !ResourceMatches_true,
      !ResourceNameMatches_true by done. simpl.
    intros (? & ? & (p & ->%list_elem_of_singleton & Hpat) & Hname).
    split; [set_solver|]. split; [set_solver|]. split; [eauto|].
    destruct Hns as [[-> ->]|(n & ? & ->)]; [by left|]. set_solver.
  - rewrite RuleAllows_nonResource, NonResourceURLMatches_true by done. simpl. set_solver.
  - rewrite RuleAllows_resource, APIGroupMatches_true by done. simpl. set_solver.
  - rewrite !RuleAllows_nonResource, !VerbMatches_true, !NonResourceURLMatches_true by done. simpl.
    intros (? & p & ->%list_elem_of_singleton & ?). split; [set_solver|eauto].
Qed.

Lemma RuleAllows_to_sub a rule :
  RuleAllows a rule = true -> exists sub, sub ∈ BreakdownRule rule /\ RuleAllows a sub = true.
Proof.
  assert (forall (l : list string) v, All ∈ l \/ v ∈ l -> exists x, x ∈ l /\ (All = x \/ v = x)) as Hpick
    by (intros l v [?|?]; eauto).
  destruct (AResourceRequest a) eqn:Hreq.
  - rewrite RuleAllows_resource, VerbMatches_true, APIGroupMatches_true, ResourceMatches_true,
      ResourceNameMatches_true by done.
    intros ((v & Hv & Ev)%Hpick & (g & Hg & Eg)%Hpick & (p & Hp & Hpat) & Hname).
    assert (exists ns, ((ResourceNames rule = [] /\ ns = []) \/
       exists n, n ∈ ResourceNames rule /\ ns = [n]) /\ (ns = [] \/ AName a ∈ ns)) as (ns & Hns & Hok).
    { destruct Hname as [->|?]; [exists []; auto|]. exists [AName a]. split; [eauto|set_solver]. }
    exists (mkRule [v] [g] [p] ns None). split.
    + apply elem_of_BreakdownRule. left. exists g, p, v, ns. auto 10.
    + rewrite RuleAllows_resource, VerbMatches_true, APIGroupMatches_true, ResourceMatches_true,
        ResourceNameMatches_true by done. simpl.
      split; [set_solver|]. split; [set_solver|]. split; [|done]. exists p. set_solver.
  - rewrite RuleAllows_nonResource, VerbMatches_true, NonResourceURLMatches_true by done.
    intros ((v & Hv & Ev)%Hpick & u & Hu & Hc).
    exists (mkRule [v] [] [] [] (Some [u])). split.
    + apply elem_of_BreakdownRule. right. eauto.
    + rewrite RuleAllows_nonResource, VerbMatches_true, NonResourceURLMatches_true by done. simpl.
      split; [set_solver|]. exists u. set_solver.
Qed.

(** ** Properties *)

(** C39: the owner rules that [Covers] accepts allow every (well-formed) request that the
    servant rules allow: the escalation check never accepts a grant of permissions the owner
    does not hold. *)
Theorem Covers_sound (owner servant : list PolicyRule) (a : Attributes) :
  wf_request a -> (Covers owner servant).1 = true ->
  RulesAllow a servant = true -> RulesAllow a owner = true.
Proof.
  rewrite Covers_true, !RulesAllow_true. intros Hwf Hc (s & Hs & (sub & Hsub & Ha)%RuleAllows_to_sub).
  destruct (Hc s sub Hs Hsub) as (o & Ho & Hcov). exists o. eauto using ruleCovers_sound.
Qed.

(** An owner of everything in ["apps"] and of [*/status], a servant that grants one
    subresource, and a request for it. *)
Definition demo_owner : list PolicyRule :=
  [mkRule ["get"; "update"] ["apps"] ["deployments"; "*/status"] [] None; mkRule ["get"] [] [] [] (Some ["/healthz/*"])].
Definition demo_servant : list PolicyRule :=
  [mkRule ["update"] ["apps"] ["deployments/status"] [] None].
Definition demo_request : Attributes :=
  mkAttrs (mkUser "system:serviceaccount:ns:sa" []) "update" "ns" "apps" "deployments" "status" "d" true "".

Lemma Covers_sound_witness : RulesAllow demo_request demo_owner = true.
Proof. apply (Covers_sound demo_owner demo_servant); [intros _|..]; vm_compute; reflexivity. Defined.

(** [BreakdownRule] builds an equivalent list of rules, as its comment says. *)
Theorem BreakdownRule_equiv (rule : PolicyRule) (a : Attributes) :
  RulesAllow a (BreakdownRule rule) = RuleAllows a rule.
Proof.
  apply eq_bool_prop_intro. rewrite !Is_true_true, RulesAllow_true. split.
  - intros (sub & ? & ?). eauto using RuleAllows_of_sub.
  - apply RuleAllows_to_sub.
Qed.

(** *** Completeness: a grant that [Covers] refuses is a real escalation *)

(** A string longer than every string of [l] together, hence not one of them. *)
Fixpoint letters (n : nat) : string :=
  match n with O => "" | S n' => String "z"%char (letters n') end.

Definition fresh (l : list string) : string :=
  letters (S (sum_list_with String.length l)).

Lemma letters_length n : String.length (letters n) = n.
Proof. induction n; simpl; congruence. Qed.

Lemma letters_no_slash n : HasByte slash (letters n) = false.
Proof. induction n; simpl; [done|]. by rewrite IHn. Qed.

Lemma fresh_longer l s : s ∈ l -> (String.length s < String.length (fresh l))%nat.
Proof.
  intros H. unfold fresh. rewrite letters_length. induction l as [|x l IH]; [by apply elem_of_nil in H|].
  apply elem_of_cons in H as [->|H]; simpl in *; [lia|]. specialize (IH H). lia.
Qed.

Lemma fresh_not_elem l t : fresh l +:+ t ∉ l.
Proof. intros H%fresh_longer. rewrite str_length_app in H. lia. Qed.

Lemma fresh_not_elem' l : fresh l ∉ l.
Proof. rewrite <- (str_app_nil_r (fresh l)) at 1. apply fresh_not_elem. Qed.

(** A literal that stands for a pattern: itself, or something fresh for the wildcard. *)
Definition instantiate (owned : list string) (p : string) : string :=
  if bool_decide (p = All) then fresh owned else p.

Lemma instantiate_owned owned sub p :
  sub ⊆ owned -> All ∈ sub \/ instantiate owned p ∈ sub -> All ∈ sub \/ p ∈ sub.
Proof.
  unfold instantiate. case_bool_decide; [|tauto]. intros Hs [?|Hf]; [tauto|].
  exfalso. eapply fresh_not_elem'. eauto.
Qed.

(** The request that tells an uncovered resource rule [{v, g, r, ns}] from the owner rules. *)
Definition distinguishing_request (owner : list PolicyRule) (v g r : string) (ns : list string) : Attributes :=
  let owned (f : PolicyRule -> list string) := flat_map f owner in
  let '(res, sub) :=
    match Cut slash r with
    | Some (pre, tok) => (instantiate (owned Resources) pre, tok)
    | None => (instantiate (owned Resources) r, "")
    end in
  mkAttrs (mkUser "" []) (instantiate (owned Verbs) v) "" (instantiate (owned APIGroups) g)
    res sub (match ns with n :: _ => n | [] => fresh (owned ResourceNames) end) true "".

(** A resource of the form [prefix/] denotes no request. *)
Definition wf_resource (r : string) : Prop := forall pre, Cut slash r <> Some (pre, "").

Lemma instantiate_no_slash owned p :
  HasByte slash p = false -> HasByte slash (instantiate owned p) = false.
Proof. unfold instantiate. case_bool_decide; [|done]. intros _. apply letters_no_slash. Qed.

Lemma distinguishing_request_wf owner v g r ns :
  wf_request (distinguishing_request owner v g r ns).
Proof.
  intros _. unfold distinguishing_request.
  destruct (Cut slash r) as [[pre tok]|] eqn:E; simpl; apply instantiate_no_slash.
  - by apply Cut_Some in E as [_ ?].
  - by apply Cut_None in E.
Qed.

Lemma distinguishing_request_resource owner v g r ns :
  wf_resource r ->
  let a := distinguishing_request owner v g r ns in
  let combined := if (0 <? String.length (ASubresource a))%nat
                  then AResource a +:+ "/" +:+ ASubresource a else AResource a in
  (r = All \/ r = combined \/ (ASubresource a <> "" /\ r = "*/" +:+ ASubresource a)) /\
  (forall o, o ∈ owner -> ResourceMatches o combined (ASubresource a) = true ->
     resourceCovered (Resources o) r).
Proof.
  intros Hwf. unfold distinguishing_request. set (owned := flat_map Resources owner).
  assert (forall o, o ∈ owner -> Resources o ⊆ owned) as Hsub.
  { intros o Ho x Hx. apply elem_of_flat_map. eauto. }
  destruct (Cut slash r) as [[pre tok]|] eqn:E; simpl.
  - pose proof (Cut_Some _ _ _ _ E) as [-> Hpre].
    destruct tok as [|c tok]; [by destruct (Hwf pre)|]. simpl (0 <? _)%nat. cbv iota.
    unfold instantiate. case_bool_decide as Hp.
    + subst pre. split; [right; right; done|]. intros o Ho (p & Hin & Hpat)%ResourceMatches_true.
      unfold resourceCovered. destruct Hpat as [->|[->|[_ ->]]]; [tauto| |tauto].
      exfalso. apply (fresh_not_elem owned ("/" +:+ String c tok)). by apply (Hsub o).
    + split; [right; left; done|]. intros o Ho (p & Hin & Hpat)%ResourceMatches_true.
      unfold resourceCovered. destruct Hpat as [->|[->|[_ ->]]]; [tauto|tauto|].
      right. right. eauto.
  - unfold instantiate. case_bool_decide as Hr; (split; [tauto|]);
      intros o Ho (p & Hin & Hpat)%ResourceMatches_true; unfold resourceCovered;
      destruct Hpat as [->|[->|[? _]]]; try tauto.
    exfalso. apply (fresh_not_elem' owned). by apply (Hsub o).
Qed.

Lemma uncovered_distinguished owner v g r ns :
  wf_resource r -> (ns = [] \/ exists n, ns = [n]) ->
  let u := mkRule [v] [g] [r] ns None in
  let a := distinguishing_request owner v g r ns in
  RuleAllows a u = true /\
  (forall o, o ∈ owner -> RuleAllows a o = true -> ruleCovers o u = true).
Proof.
  intros Hwf Hns u a. pose proof (distinguishing_request_resource owner v g r ns Hwf) as [Hpat Hcov].
  fold a in Hpat, Hcov.
  assert (forall (f : PolicyRule -> list string) o, o ∈ owner -> f o ⊆ flat_map f owner) as Hsub.
  { intros f o Ho x Hx. apply elem_of_flat_map. eauto. }
  assert (AResourceRequest a = true /\ AVerb a = instantiate (flat_map Verbs owner) v /\
          AAPIGroup a = instantiate (flat_map APIGroups owner) g /\
          AName a = match ns with n :: _ => n | [] => fresh (flat_map ResourceNames owner) end)
    as (Hreq & Hva & Hga & Hna).
  { subst a. unfold distinguishing_request. by destruct (Cut slash r) as [[]|]. }
  split.
  - rewrite RuleAllows_resource, VerbMatches_true, APIGroupMatches_true, ResourceMatches_true,
      ResourceNameMatches_true, Hva, Hga, Hna by done. simpl.
    assert (forall l p, All ∈ [p] \/ instantiate l p ∈ [p]) as Hinst.
    { intros l p. unfold instantiate. case_bool_decide; subst; set_solver. }
    split; [done|]. split; [done|]. split; [exists r; set_solver|].
    destruct Hns as [->|[n ->]]; [by left|right; set_solver].
  - intros o Ho. rewrite RuleAllows_resource, VerbMatches_true, APIGroupMatches_true,
      ResourceNameMatches_true, Hva, Hga, Hna by done.
    intros (Hv%instantiate_owned & Hg%instantiate_owned & Hr & Hn); [|by apply Hsub..].
    apply ruleCovers_true. subst u. simpl.
    split; [set_solver|]. split; [set_solver|]. split.
    { intros p ->%list_elem_of_singleton. eauto. }
    split; [|by intros p ?%elem_of_nil].
    destruct Hn as [?|Hn]; [by left|]. destruct Hns as [->|[n ->]].
    + exfalso. apply (fresh_not_elem' (flat_map ResourceNames owner)). by apply (Hsub ResourceNames o).
    + right. split; [done|]. set_solver.
Qed.

(** The request built for an uncovered rule is allowed by the servant rules and refused by
    every owner rule. *)
Lemma Covers_false_escalation owner servant :
  (forall s, s ∈ servant -> NonResourceURLs s = [] /\ forall r, r ∈ Resources s -> wf_resource r) ->
  (Covers owner servant).1 <> true ->
  exists a, wf_request a /\ RulesAllow a servant = true /\ RulesAllow a owner = false.
Proof.
  intros Hwf Hc.
  assert (exists s sub, s ∈ servant /\ sub ∈ BreakdownRule s /\
            forall o, o ∈ owner -> ruleCovers o sub = false) as (s & sub & Hs & Hsub & Hno).
  { unfold Covers in Hc. simpl in Hc.
    destruct (List.filter _ _) as [|sub l] eqn:E in Hc; [done|].
    assert (sub ∈ sub :: l) as Hin by set_solver. rewrite <- E in Hin.
    apply list_elem_of_In, filter_In in Hin as [Hin Hneg]. apply list_elem_of_In in Hin.
    apply elem_of_flat_map in Hin as (s & ? & ?). exists s, sub.
    rewrite negb_true_iff, existsb_not_elem_of in Hneg. auto. }
  destruct (Hwf s Hs) as [Hnr Hres].
  pose proof Hsub as Hsub'. apply elem_of_BreakdownRule in Hsub
    as [(g & r & v & ns & Hg & Hr & Hv & Hns & ->)|(u & v & Hu & _)]; [|rewrite Hnr in Hu; by apply elem_of_nil in Hu].
  destruct (uncovered_distinguished owner v g r ns (Hres r Hr)) as [Hallow Hcov].
  { destruct Hns as [[_ ->]|(n & _ & ->)]; eauto. }
  exists (distinguishing_request owner v g r ns). split; [apply distinguishing_request_wf|]. split.
  - apply RulesAllow_true. eauto using RuleAllows_of_sub.
  - apply not_true_iff_false. rewrite RulesAllow_true. intros (o & Ho & Ha).
    specialize (Hcov o Ho Ha). by rewrite Hno in Hcov.
Qed.

(** On resource rules [Covers] decides exactly the semantic question, "does every request
    allowed by the servant rules get allowed by the owner rules?". *)
Theorem Covers_iff (owner servant : list PolicyRule) :
  (forall s, s ∈ servant -> NonResourceURLs s = [] /\ forall r, r ∈ Resources s -> wf_resource r) ->
  ((Covers owner servant).1 = true <->
   forall a, wf_request a -> RulesAllow a servant = true -> RulesAllow a owner = true).
Proof.
  intros Hwf. split.
  - rewrite Covers_true. intros Hc a Hwa. rewrite !RulesAllow_true.
    intros (s & Hs & (sub & Hsub & Ha)%RuleAllows_to_sub).
    destruct (Hc s sub Hs Hsub) as (o & Ho & Hcov). exists o. eauto using ruleCovers_sound.
  - intros Hall. destruct (Covers owner servant).1 eqn:E; [done|].
    destruct (Covers_false_escalation owner servant) as (a & Hwa & Hs & Ho); [done|congruence|].
    rewrite Hall in Ho; done.
Qed.

Lemma Covers_iff_witness :
  (Covers demo_owner demo_servant).1 = true /\
  forall a, wf_request a -> RulesAllow a demo_servant = true -> RulesAllow a demo_owner = true.
Proof.
  split; [vm_compute; reflexivity|].
  apply (Covers_iff demo_owner demo_servant); [|vm_compute; reflexivity].
  intros s ->%list_elem_of_singleton. split; [reflexivity|].
  intros r ->%list_elem_of_singleton pre E. vm_compute in E. discriminate.
Defined.

(** *** Covering composes *)

Lemma resourceCovered_trans sa sb r :
  resourceCovered sb r ->
  (forall p, p ∈ sb -> resourceCovered sa p) ->
  resourceCovered sa r.
Proof.
  intros [H|[H|(pre & tok & -> & Hpre & H)]] Hb; apply Hb in H as [?|[?|(pre' & tok' & E & Hpre' & Htok)]].
  all: try (by left). all: try (by right; left).
  - exfalso. apply (f_equal (HasByte slash)) in E. rewrite HasByte_app, orb_comm in E. done.
  - right. right. eauto.
  - right. right. eauto.
  - right. right. exists pre, tok. split; [done|]. split; [done|].
    change ("*/" +:+ tok) with ("*" +:+ String slash tok) in E.
    pose proof (Cut_app slash "*" tok eq_refl) as E1. rewrite E, Cut_app in E1 by done.
    by simplify_eq.
Qed.

(** Among the parts of a rule [b] that covers [sub] there is one whose covering is enough. *)
Lemma ruleCovers_pick b sub c :
  sub ∈ BreakdownRule c -> ruleCovers b sub = true ->
  exists sub', sub' ∈ BreakdownRule b /\
    forall a, ruleCovers a sub' = true -> ruleCovers a sub = true.
Proof.
  assert (forall (l : list string) v, All ∈ l \/ [v] ⊆ l -> exists x, x ∈ l /\ (x = All \/ x = v)) as Hpick
    by (intros l v [?|?]; [eauto | exists v; set_solver]).
  intros [(g & r & v & ns & Hg & Hr & Hv & Hns & ->)|(u & v & Hu & Hv & ->)]%elem_of_BreakdownRule
    (Hbv & Hbg & Hbr & Hbn & Hbu)%ruleCovers_true; simpl in *.
  - apply Hpick in Hbv as (v' & Hv' & Ev), Hbg as (g' & Hg' & Eg).
    assert (exists r', r' ∈ Resources b /\
        forall sa, resourceCovered sa r' -> resourceCovered sa r) as (r' & Hr' & Hrc).
    { destruct (Hbr r) as [?|[?|(pre & tok & -> & Hpre & ?)]]; [set_solver|eexists; split; [done|]..].
      - intros sa Hsa. eapply (resourceCovered_trans sa [All]); [left; set_solver|set_solver].
      - done.
      - intros sa Hsa. eapply (resourceCovered_trans sa ["*/" +:+ tok]); [|set_solver].
        right. right. exists pre, tok. set_solver. }
    assert (exists ns', ((ResourceNames b = [] /\ ns' = []) \/
        exists n, n ∈ ResourceNames b /\ ns' = [n]) /\ (ns' = [] \/ ns' = ns)) as (ns' & Hns' & En).
    { destruct Hbn as [Hb|[Hne Hs]]; [exists []; auto|].
      destruct Hns as [[_ ->]|(n & _ & ->)]; [done|]. exists [n]. split; [|auto].
      right. exists n. split; [set_solver|done]. }
    exists (mkRule [v'] [g'] [r'] ns' None). split.
    { apply elem_of_BreakdownRule. left. exists g', r', v', ns'. auto 10. }
    intros a (Hav & Hag & Har & Han & _)%ruleCovers_true. apply ruleCovers_true. simpl in *.
    split; [set_solver|]. split; [set_solver|]. split.
    { intros p ->%list_elem_of_singleton. apply Hrc, Har. set_solver. }
    split; [|by intros p ?%elem_of_nil].
    destruct Han as [?|[Hne ?]]; [by left|]. destruct En as [->| ->]; [done|]. by right.
  - apply Hpick in Hbv as (v' & Hv' & Ev). destruct (Hbu u) as (u' & Hu' & Hc); [set_solver|].
    exists (mkRule [v'] [] [] [] (Some [u'])). split.
    { apply elem_of_BreakdownRule. right. eauto. }
    intros a (Hav & _ & _ & Han & Hau)%ruleCovers_true. apply ruleCovers_true. simpl in *.
    split; [set_solver|]. split; [set_solver|]. split; [by intros p ?%elem_of_nil|].
    split; [naive_solver|]. intros p ->%list_elem_of_singleton.
    destruct (Hau u') as (w & ? & ?); [set_solver|]. eauto using nonResourceURLCovers_trans.
Qed.

(** Covering is transitive, so checking each link of a chain of grants is enough. *)
Theorem Covers_trans (a b c : list PolicyRule) :
  (Covers a b).1 = true -> (Covers b c).1 = true -> (Covers a c).1 = true.
Proof.
  rewrite !Covers_true. intros Hab Hbc s sub Hs Hsub.
  destruct (Hbc s sub Hs Hsub) as (o & Ho & Hcov).
  destruct (ruleCovers_pick o sub s Hsub Hcov) as (sub' & Hsub' & Hpick).
  destruct (Hab o sub' Ho Hsub') as (o' & ? & ?). eauto.
Qed.

Lemma Covers_trans_witness :
  (Covers [mkRule ["*"] ["*"] ["*"] [] None] demo_servant).1 = true.
Proof.
  apply (Covers_trans _ [mkRule ["get"; "update"] ["apps"] ["*/status"] [] None]); vm_compute; reflexivity.
Defined.

(** *** Compaction keeps the meaning *)

Lemma isSimple_shape rule k :
  isSimpleResourceRule rule = Some k <->
  exists g r, APIGroups rule = [g] /\ Resources rule = [r] /\ NonResourceURLs_slice rule = None /\
    ((ResourceNames rule = [] /\ k = (g, r, false, "")) \/
     (exists n, ResourceNames rule = [n] /\ k = (g, r, true, n))).
Proof.
  unfold isSimpleResourceRule, NonResourceURLs.
  destruct rule as [vs [|g [|]] [|r [|]] [|n [|]] [[|]|]]; simpl;
    try (split; [done|]; naive_solver); try (case_bool_decide; simpl); naive_solver.
Qed.

Lemma isSimple_same_key r1 r2 k :
  isSimpleResourceRule r1 = Some k -> isSimpleResourceRule r2 = Some k ->
  APIGroups r1 = APIGroups r2 /\ Resources r1 = Resources r2 /\
  ResourceNames r1 = ResourceNames r2 /\ NonResourceURLs_slice r1 = NonResourceURLs_slice r2.
Proof. rewrite !isSimple_shape. naive_solver congruence. Qed.

Lemma addVerbs_simple e r k :
  isSimpleResourceRule e = Some k -> isSimpleResourceRule (addVerbs e r) = Some k.
Proof. by rewrite !isSimple_shape. Qed.

Lemma RuleAllows_addVerbs a e r k :
  isSimpleResourceRule e = Some k -> isSimpleResourceRule r = Some k ->
  RuleAllows a (addVerbs e r) = RuleAllows a e || RuleAllows a r.
Proof.
  intros He Hr. destruct (isSimple_same_key _ _ _ He Hr) as (Eg & Er & En & Eu).
  unfold RuleAllows, APIGroupMatches, ResourceMatches, ResourceNameMatches,
    NonResourceURLMatches, NonResourceURLs. rewrite <- Eg, <- Er, <- En, <- Eu.
  assert (VerbMatches (addVerbs e r) (AVerb a) = VerbMatches e (AVerb a) || VerbMatches r (AVerb a)) as ->
    by (unfold VerbMatches; simpl; apply existsb_app).
  simpl. destruct (AResourceRequest a); by rewrite !andb_orb_distrib_l.
Qed.

(** What the accumulator of the compaction loop allows. *)
Definition compact_allows (a : Attributes) (acc : list PolicyRule * gmap simpleResource PolicyRule) : Prop :=
  (exists r, r ∈ acc.1 /\ RuleAllows a r = true) \/
  (exists k r, acc.2 !! k = Some r /\ RuleAllows a r = true).

Definition compact_keyed (acc : list PolicyRule * gmap simpleResource PolicyRule) : Prop :=
  forall k r, acc.2 !! k = Some r -> isSimpleResourceRule r = Some k.

Lemma compactStep_keyed acc rule : compact_keyed acc -> compact_keyed (compactStep acc rule).
Proof.
  destruct acc as [l m]. unfold compact_keyed, compactStep. simpl. intros H.
  destruct (isSimpleResourceRule rule) as [key|] eqn:E; [|done].
  destruct (m !! key) as [e|] eqn:Em; simpl; intros k r [[<- <-]|[? ?]]%lookup_insert_Some; eauto.
  eapply addVerbs_simple; eauto.
Qed.

Lemma compactStep_allows a acc rule :
  compact_keyed acc ->
  compact_allows a (compactStep acc rule) <-> compact_allows a acc \/ RuleAllows a rule = true.
Proof.
  destruct acc as [l m]. unfold compact_keyed, compact_allows, compactStep. simpl. intros Hk.
  destruct (isSimpleResourceRule rule) as [key|] eqn:E; simpl.
  - destruct (m !! key) as [e|] eqn:Em; simpl.
    + assert (RuleAllows a (addVerbs e rule) = true <-> RuleAllows a e = true \/ RuleAllows a rule = true) as Hadd.
      { by rewrite (RuleAllows_addVerbs a e rule key), orb_true_iff by eauto. }
      split.
      * intros [?|(k & r & [[<- <-]|[? ?]]%lookup_insert_Some & Hr)]; [tauto| |eauto 6].
        apply Hadd in Hr as [?|?]; eauto 6.
      * intros [[?|(k & r & Hm & Hr)]|Hr]; [tauto| |right; exists key; rewrite lookup_insert_eq; naive_solver].
        right. destruct (decide (k = key)) as [->|Hne].
        -- exists key. rewrite lookup_insert_eq. naive_solver.
        -- exists k, r. by rewrite lookup_insert_ne.
    + split.
      * intros [?|(k & r & [[<- <-]|[? ?]]%lookup_insert_Some & Hr)]; eauto 6.
      * intros [[?|(k & r & Hm & Hr)]|Hr]; [tauto| |].
        -- right. exists k, r. rewrite lookup_insert_ne; [done|congruence].
        -- right. exists key, rule. by rewrite lookup_insert_eq.
  - setoid_rewrite elem_of_app. setoid_rewrite list_elem_of_singleton. naive_solver.
Qed.

Lemma compact_fold_allows a rules acc :
  compact_keyed acc ->
  compact_allows a (foldl compactStep acc rules) <->
  compact_allows a acc \/ exists r, r ∈ rules /\ RuleAllows a r = true.
Proof.
  revert acc. induction rules as [|rule rules IH]; intros acc Hk; simpl.
  - set_solver.
  - rewrite IH, compactStep_allows by eauto using compactStep_keyed.
    setoid_rewrite elem_of_cons. naive_solver.
Qed.

(** Compacting the rules of an error message changes no permission: the compacted list
    allows exactly what the original list allows, whatever the order the map is ranged in. *)
Theorem CompactRules_equiv `{RangeOrder} (rules : list PolicyRule) (a : Attributes) :
  RulesAllow a (CompactRules rules) = RulesAllow a rules.
Proof.
  apply eq_bool_prop_intro. rewrite !Is_true_true, !RulesAllow_true.
  assert (compact_keyed ([], ∅)) as Hk by (intros k r Hr; simpl in Hr; by rewrite lookup_empty in Hr).
  pose proof (compact_fold_allows a rules ([], ∅) Hk) as Hf.
  unfold CompactRules. destruct (foldl compactStep ([], ∅) rules) as [l m] eqn:E.
  assert (~ compact_allows a ([], ∅)) as Hn.
  { intros [(r & Hr & _)|(k & r & Hr & _)]; simpl in *; [by apply elem_of_nil in Hr|by rewrite lookup_empty in Hr]. }
  trans (compact_allows a (l, m)); [|tauto].
  unfold compact_allows. simpl. setoid_rewrite elem_of_app. setoid_rewrite elem_of_range_vals.
  naive_solver.
Qed.
