(* ===== verification/OwnerUtil.v ===== *)
(** * Owner references and owner labels

    Models [pkg/lib/ownerutil/util.go]: how OLM marks the objects it creates with their owner
    (an [OwnerReference], or the [olm.owner*] labels across namespaces) and how it decides
    later whether an object is owned, adoptable, or in conflict. *)

From S2P Require Import Prelude GoStrings.

#[local] Arguments String.append : simpl nomatch.

(** ** Data *)

(** [schema.GroupVersionKind] *)
Record GVK := mkGVK { Group : string; Version : string; Kind : string }.

Definition GVK_Empty (g : GVK) : bool :=
  bool_decide (Group g = "") && bool_decide (Version g = "") && bool_decide (Kind g = "").

(** [GroupVersion.String] and [GroupVersionKind.ToAPIVersionAndKind] *)
Definition GroupVersion_String (g : GVK) : string :=
  if (0 <? String.length (Group g))%nat then Group g +:+ "/" +:+ Version g else Version g.

Definition ToAPIVersionAndKind (g : GVK) : string * string :=
  if GVK_Empty g then ("", "") else (GroupVersion_String g, Kind g).

(** The Go type of an object, as [InferGroupVersionKind]'s type switch sees it. *)
Inductive ObjectType :=
  | TService | TServiceAccount | TConfigMap | TSecret
  | TClusterRole | TClusterRoleBinding | TRole | TRoleBinding
  | TClusterServiceVersion | TInstallPlan | TSubscription | TCatalogSource
  | TOperatorGroup | TOperatorCondition | TAPIService | TCRDv1beta1 | TCRDv1
  | TOther.

(** [metav1.OwnerReference]; the last two fields are pointers. *)
Record OwnerReference := mkRef {
  RAPIVersion : string; RKind : string; RName : string; RUID : string;
  RBlockOwnerDeletion : option bool; RController : option bool
}.

(** An object's type, type metadata and the object metadata that ownership reads or writes.
    [Labels] distinguishes the nil map from the empty one. *)
Record Object := mkObj {
  OType : ObjectType;
  OGVK : GVK;
  OName : string;
  ONamespace : string;
  OUID : string;
  OwnerRefs : list OwnerReference;
  Labels : option (gmap string string)
}.

Definition OwnerKey : string := "olm.owner".
Definition OwnerNamespaceKey : string := "olm.owner.namespace".
Definition OwnerKindKey : string := "olm.owner.kind".

Definition setGVK (o : Object) (g : GVK) : Object :=
  mkObj (OType o) g (OName o) (ONamespace o) (OUID o) (OwnerRefs o) (Labels o).
Definition SetOwnerReferences (o : Object) (refs : list OwnerReference) : Object :=
  mkObj (OType o) (OGVK o) (OName o) (ONamespace o) (OUID o) refs (Labels o).
Definition SetLabels (o : Object) (l : gmap string string) : Object :=
  mkObj (OType o) (OGVK o) (OName o) (ONamespace o) (OUID o) (OwnerRefs o) (Some l).

(** [labels[key]]: the zero value for a missing key, and for a nil map. *)
Definition label (l : option (gmap string string)) (key : string) : string :=
  default "" (default ∅ l !! key).

(** ** Operations *)

(** [InferGroupVersionKind] sets the object's type metadata when it is empty; the result says
    whether the GVK could be inferred. *)
Definition inferredGVK (t : ObjectType) : option GVK :=
  match t with
  | TService => Some (mkGVK "" "v1" "Service")
  | TServiceAccount => Some (mkGVK "" "v1" "ServiceAccount")
  | TConfigMap => Some (mkGVK "" "v1" "ConfigMap")
  | TSecret => Some (mkGVK "" "v1" "Secret")
  | TClusterRole => Some (mkGVK "rbac.authorization.k8s.io" "v1" "ClusterRole")
  | TClusterRoleBinding => Some (mkGVK "rbac.authorization.k8s.io" "v1" "ClusterRoleBinding")
  | TRole => Some (mkGVK "rbac.authorization.k8s.io" "v1" "Role")
  | TRoleBinding => Some (mkGVK "rbac.authorization.k8s.io" "v1" "RoleBinding")
  | TClusterServiceVersion => Some (mkGVK "operators.coreos.com" "v1alpha1" "ClusterServiceVersion")
  | TInstallPlan => Some (mkGVK "operators.coreos.com" "v1alpha1" "InstallPlan")
  | TSubscription => Some (mkGVK "operators.coreos.com" "v1alpha1" "Subscription")
  | TCatalogSource => Some (mkGVK "operators.coreos.com" "v1alpha1" "CatalogSource")
  | TOperatorGroup => Some (mkGVK "operators.coreos.com" "v1" "OperatorGroup")
  | TOperatorCondition => Some (mkGVK "operators.coreos.com" "v2" "OperatorCondition")
  | TAPIService => Some (mkGVK "apiregistration.k8s.io" "v1" "APIService")
  | TCRDv1beta1 => Some (mkGVK "apiextensions.k8s.io" "v1beta1" "CustomResourceDefinition")
  | TCRDv1 => Some (mkGVK "apiextensions.k8s.io" "v1" "CustomResourceDefinition")
  | TOther => None
  end.

Definition InferGroupVersionKind (obj : Object) : Object * bool :=
  if negb (GVK_Empty (OGVK obj)) then (obj, true)
  else match inferredGVK (OType obj) with
       | Some g => (setGVK obj g, true)
       | None => (obj, false)
       end.

(** The type metadata of an owner after the inference (an inference error is only logged). *)
Definition ownerGVK (owner : Object) : GVK := OGVK (InferGroupVersionKind owner).1.

Definition IsOwnedBy (object owner : Object) : bool :=
  existsb (fun oref => bool_decide (RUID oref = OUID owner)) (OwnerRefs object).

Definition IsOwnedByKind (object : Object) (ownerKind : string) : bool :=
  existsb (fun oref => bool_decide (RKind oref = ownerKind)) (OwnerRefs object).

Definition GetOwnerByKind (object : Object) (ownerKind : string) : option OwnerReference :=
  List.find (fun oref => bool_decide (RKind oref = ownerKind)) (OwnerRefs object).

Definition GetOwnersByKind (object : Object) (ownerKind : string) : list OwnerReference :=
  List.filter (fun oref => bool_decide (RKind oref = ownerKind)) (OwnerRefs object).

Definition IsOwnedByKindLabel (object : Object) (ownerKind : string) : bool :=
  match Labels object with
  | None => false
  | Some _ => bool_decide (label (Labels object) OwnerKindKey = ownerKind)
  end.

(** Returns [(name, namespace, ok)]. *)
Definition GetOwnerByKindLabel (object : Object) (ownerKind : string) : string * string * bool :=
  if negb (IsOwnedByKindLabel object ownerKind) then ("", "", false)
  else match Labels object with
  | None => ("", "", false)
  | Some l =>
      match l !! OwnerNamespaceKey with
      | None => ("", "", false)
      | Some namespace =>
          match l !! OwnerKey with
          | None => ("", namespace, false)
          | Some name => (name, namespace, true)
          end
      end
  end.

Definition IsOwnedByLabel (object owner : Object) : bool :=
  let '(name, namespace, ok) := GetOwnerByKindLabel object (Kind (OGVK owner)) in
  if negb ok then false
  else bool_decide (namespace = ONamespace owner) && bool_decide (name = OName owner).

(** The loop of [HasOwnerConflict], with the flag [conflicts]. *)
Fixpoint ownerConflictLoop (g : GVK) (target : Object) (owners : list OwnerReference) (conflicts : bool) : bool :=
  match owners with
  | [] => conflicts
  | owner :: rest =>
      if bool_decide (RKind owner = Kind g) && bool_decide (RAPIVersion owner = Version g) then
        if bool_decide (RName owner = OName target) && bool_decide (RUID owner = OUID target)
        then false
        else ownerConflictLoop g target rest true
      else ownerConflictLoop g target rest conflicts
  end.

Definition HasOwnerConflict (target : Object) (owners : list OwnerReference) : bool :=
  ownerConflictLoop (ownerGVK target) target owners false.

Definition Adoptable (target : Object) (owners : list OwnerReference) : bool :=
  if (length owners =? 0)%nat then false
  else existsb (fun owner => bool_decide (RKind owner = Kind (ownerGVK target))) owners.

Definition NonBlockingOwner (owner : Object) : OwnerReference :=
  let '(apiVersion, kind) := ToAPIVersionAndKind (ownerGVK owner) in
  mkRef apiVersion kind (OName owner) (OUID owner) (Some false) (Some false).

Definition sameOwner (r1 r2 : OwnerReference) : bool :=
  bool_decide (RKind r1 = RKind r2) && bool_decide (RName r1 = RName r2) && bool_decide (RUID r1 = RUID r2).

Definition AddNonBlockingOwner (object owner : Object) : Object :=
  let nonBlockingOwner := NonBlockingOwner owner in
  if existsb (fun item => sameOwner item nonBlockingOwner) (OwnerRefs object) then object
  else SetOwnerReferences object (OwnerRefs object ++ [nonBlockingOwner]).

Definition AddOwner (object owner : Object) (blockOwnerDeletion isController : bool) : Object :=
  let '(apiVersion, kind) := ToAPIVersionAndKind (ownerGVK owner) in
  let ownerRef := mkRef apiVersion kind (OName owner) (OUID owner) (Some blockOwnerDeletion) (Some isController) in
  if existsb (fun ref => sameOwner ref ownerRef) (OwnerRefs object) then object
  else SetOwnerReferences object (OwnerRefs object ++ [ownerRef]).

Definition EnsureOwner (object owner : Object) : Object * bool :=
  if IsOwnedBy object owner then (object, true)
  else (AddNonBlockingOwner object owner, false).

Definition OwnerLabel (owner : Object) (kind : string) : gmap string string :=
  <[OwnerKey := OName owner]> (<[OwnerNamespaceKey := ONamespace owner]>
    (<[OwnerKindKey := kind]> ∅)).

Definition AddOwnerLabelsForKind `{RangeOrder} (object owner : Object) (kind : string) : Object :=
  let labels := default ∅ (Labels object) in
  SetLabels object
    (foldl (fun l '(key, val) => <[key := val]> l) labels (range (OwnerLabel owner kind))).

(** [None] is the inference error. *)
Definition AddOwnerLabels `{RangeOrder} (object owner : Object) : option Object :=
  let '(owner', ok) := InferGroupVersionKind owner in
  if ok then Some (AddOwnerLabelsForKind object owner' (Kind (OGVK owner'))) else None.

Definition AdoptableLabels (labels : option (gmap string string)) (checkName : bool) (targets : list Object) : bool :=
  if (size (default ∅ labels) =? 0)%nat then false
  else existsb (fun target =>
      bool_decide (label labels OwnerKindKey = Kind (ownerGVK target))
      && bool_decide (label labels OwnerNamespaceKey = ONamespace target)
      && (negb checkName || bool_decide (label labels OwnerKey = OName target)))
    targets.

(** ** Lemmas *)

(** Inference is idempotent, so that the type metadata a call leaves on its target changes no
    later answer. *)
Lemma InferGroupVersionKind_idem o :
  InferGroupVersionKind (InferGroupVersionKind o).1 =
    ((InferGroupVersionKind o).1, (InferGroupVersionKind o).2).
Proof.
  unfold InferGroupVersionKind. destruct (GVK_Empty (OGVK o)) eqn:E; simpl; [|by rewrite E].
  destruct (OType o) eqn:T; simpl; try done. by rewrite E; simpl; rewrite T.
Qed.

Lemma InferGroupVersionKind_meta o :
  OName (InferGroupVersionKind o).1 = OName o /\ ONamespace (InferGroupVersionKind o).1 = ONamespace o /\
  OUID (InferGroupVersionKind o).1 = OUID o /\ OType (InferGroupVersionKind o).1 = OType o.
Proof. unfold InferGroupVersionKind. repeat case_one; done. Qed.

(** The rule [HasOwnerConflict] implements: some owner of the target's kind, and the target
    itself not among them, kinds and versions compared as the code does. *)
Definition matchesTargetKind (g : GVK) (r : OwnerReference) : bool :=
  bool_decide (RKind r = Kind g) && bool_decide (RAPIVersion r = Version g).

Definition isTarget (g : GVK) (target : Object) (r : OwnerReference) : bool :=
  matchesTargetKind g r && bool_decide (RName r = OName target) && bool_decide (RUID r = OUID target).

Lemma ownerConflictLoop_spec g t owners c :
  ownerConflictLoop g t owners c =
  negb (existsb (isTarget g t) owners) && (c || existsb (matchesTargetKind g) owners).
Proof.
  revert c. induction owners as [|r owners IH]; intros c; simpl; [by rewrite orb_false_r|].
  unfold isTarget, matchesTargetKind in *.
  destruct (bool_decide (RKind r = Kind g) && bool_decide (RAPIVersion r = Version g)); simpl; [|apply IH].
  rewrite IH. destruct (bool_decide (RName r = OName t) && bool_decide (RUID r = OUID t)); simpl; [done|].
  by rewrite !orb_true_r.
Qed.

Lemma ToAPIVersionAndKind_kind g : (ToAPIVersionAndKind g).2 = Kind g.
Proof. unfold ToAPIVersionAndKind. case_one; [|done]. unfold GVK_Empty in *. bools. done. Qed.

Lemma str_app_neq_suffix p s : p <> "" -> p +:+ s <> s.
Proof.
  intros Hp E. apply (f_equal String.length) in E. rewrite str_length_app in E.
  destruct p; simpl in *; [done|lia].
Qed.

Lemma GroupVersion_String_neq g : Group g <> "" -> GroupVersion_String g <> Version g.
Proof.
  intros Hg. unfold GroupVersion_String.
  destruct (Group g) as [|c s] eqn:E; [done|]. cbn [String.length Nat.ltb Nat.leb].
  rewrite <- (str_app_assoc (String c s) "/" (Version g)). by apply str_app_neq_suffix.
Qed.

Lemma OwnerLabel_lookup owner kind k :
  OwnerLabel owner kind !! k =
  if decide (k = OwnerKey) then Some (OName owner)
  else if decide (k = OwnerNamespaceKey) then Some (ONamespace owner)
  else if decide (k = OwnerKindKey) then Some kind else None.
Proof.
  unfold OwnerLabel. rewrite !lookup_insert, lookup_empty.
  repeat case_decide; congruence.
Qed.

(** Writing the entries of a map one by one, in any order, is the left-biased union. *)
Lemma foldl_insert_range `{RangeOrder} {V} (m l : gmap string V) :
  foldl (fun l '(k, v) => <[k := v]> l) l (range m) = m ∪ l.
Proof.
  assert (forall (xs : list (string * V)) (l : gmap string V), NoDup xs.*1 ->
    foldl (fun l '(k, v) => <[k := v]> l) l xs = (list_to_map xs : gmap string V) ∪ l) as Hgen.
  { induction xs as [|[k v] xs IH]; intros l' Hnd; simpl; [symmetry; apply map_empty_union|].
    apply NoDup_cons in Hnd as [Hk Hnd]. rewrite IH by done.
    apply map_eq. intros i. rewrite !lookup_union. destruct (decide (i = k)) as [->|Hne].
    - rewrite !lookup_insert_eq. rewrite not_elem_of_list_to_map_1 by done. by destruct (l' !! k).
    - by rewrite !lookup_insert_ne by done. }
  rewrite Hgen by apply NoDup_range_keys. f_equal.
  rewrite <- (list_to_map_to_list m). symmetry. apply list_to_map_proper.
  - apply NoDup_fst_map_to_list.
  - symmetry. rewrite (list_to_map_to_list m). apply range_perm.
Qed.

Lemma AddOwnerLabelsForKind_lookup `{RangeOrder} object owner kind :
  Labels (AddOwnerLabelsForKind object owner kind) =
  Some (OwnerLabel owner kind ∪ default ∅ (Labels object)).
Proof. unfold AddOwnerLabelsForKind. simpl. f_equal. apply foldl_insert_range. Qed.

(** ** Properties *)

(** An object labelled with an owner is found again by its label: the owner's name and
    namespace come back, whatever labels the object had, and the other labels are kept. *)
Theorem owner_labels_roundtrip `{RangeOrder} (object owner : Object) (kind : string) :
  GetOwnerByKindLabel (AddOwnerLabelsForKind object owner kind) kind
    = (OName owner, ONamespace owner, true) /\
  forall k, k ∉ [OwnerKey; OwnerNamespaceKey; OwnerKindKey] ->
    default ∅ (Labels (AddOwnerLabelsForKind object owner kind)) !! k = default ∅ (Labels object) !! k.
Proof.
  split.
  - unfold GetOwnerByKindLabel, IsOwnedByKindLabel, label. rewrite AddOwnerLabelsForKind_lookup.
    simpl default. rewrite !lookup_union, !OwnerLabel_lookup. simpl.
    destruct (default ∅ (Labels object) !! OwnerKindKey), (default ∅ (Labels object) !! OwnerNamespaceKey),
      (default ∅ (Labels object) !! OwnerKey); simpl; by rewrite bool_decide_true.
  - intros k Hk. rewrite AddOwnerLabelsForKind_lookup. simpl.
    rewrite lookup_union, OwnerLabel_lookup.
    rewrite !decide_False by set_solver. apply left_id_L, _.
Qed.

(** Adding an owner makes the object owned by it; adding it again changes nothing; and
    the references already there are kept, in order. *)
Theorem AddNonBlockingOwner_spec (object owner : Object) :
  let object' := AddNonBlockingOwner object owner in
  IsOwnedBy object' owner = true /\
  AddNonBlockingOwner object' owner = object' /\
  (exists added, OwnerRefs object' = OwnerRefs object ++ added /\ (length added <= 1)%nat).
Proof.
  assert (RUID (NonBlockingOwner owner) = OUID owner) as Huid
    by (unfold NonBlockingOwner; by destruct (ToAPIVersionAndKind _)).
  intros object'. subst object'. unfold AddNonBlockingOwner.
  destruct (existsb _ (OwnerRefs object)) eqn:E.
  - split; [|rewrite E; split; [done|exists []; rewrite app_nil_r; simpl; auto]].
    apply existsb_elem_of in E as (r & Hr & Hs). unfold IsOwnedBy. apply existsb_elem_of.
    exists r. split; [done|]. unfold sameOwner in Hs. bools. apply bool_decide_true. congruence.
  - simpl. split; [|split].
    + unfold IsOwnedBy. simpl. rewrite existsb_app. simpl.
      rewrite (bool_decide_true _ Huid). by rewrite orb_true_r.
    + rewrite existsb_app. simpl. unfold sameOwner at 2. rewrite !bool_decide_true by done.
      by rewrite orb_true_r.
    + exists [NonBlockingOwner owner]. simpl. auto.
Qed.

(** An owner conflict is never reported between objects whose references OLM itself
    writes: [HasOwnerConflict] compares the reference's [apiVersion] (["group/version"]) with
    the bare version of the target, so that when every reference is one that
    [NonBlockingOwner] builds for an owner of a named API group, of whatever kind, the answer
    is [false] for a target of a named group, another owner of the same kind included. *)
Theorem HasOwnerConflict_blind (target : Object) (owners : list Object) :
  (forall o, o ∈ owners -> Group (ownerGVK o) <> "" /\
     (Kind (ownerGVK o) = Kind (ownerGVK target) -> Version (ownerGVK o) = Version (ownerGVK target))) ->
  HasOwnerConflict target (NonBlockingOwner <$> owners) = false.
Proof.
  intros Hg. unfold HasOwnerConflict. rewrite ownerConflictLoop_spec. simpl.
  apply andb_false_iff. right. apply existsb_not_elem_of. intros r (o & -> & Ho)%list_elem_of_fmap.
  destruct (Hg o Ho) as [Hne Hv]. unfold matchesTargetKind. apply andb_false_iff.
  unfold NonBlockingOwner. pose proof (ToAPIVersionAndKind_kind (ownerGVK o)) as Hk.
  unfold ToAPIVersionAndKind in *.
  assert (GVK_Empty (ownerGVK o) = false) as HE
    by (unfold GVK_Empty; by rewrite (bool_decide_false _ Hne)).
  rewrite HE in *. simpl in *.
  destruct (decide (Kind (ownerGVK o) = Kind (ownerGVK target))) as [Hkd|Hkd].
  - right. apply bool_decide_false. rewrite <- Hv by done. by apply GroupVersion_String_neq.
  - left. by apply bool_decide_false.
Qed.

(** Two cluster service versions as the API server returns them, without type metadata. *)
Definition demo_csv (name uid : string) : Object :=
  mkObj TClusterServiceVersion (mkGVK "" "" "") name "ns" uid [] None.

Lemma HasOwnerConflict_blind_witness :
  HasOwnerConflict (demo_csv "etcd.v1" "1") [NonBlockingOwner (demo_csv "prometheus.v1" "2")] = false.
Proof.
  apply (HasOwnerConflict_blind (demo_csv "etcd.v1" "1") [demo_csv "prometheus.v1" "2"]).
  intros o ->%list_elem_of_singleton. split; [discriminate|reflexivity].
Defined.
