(* ===== verification/RbacAuthorizer.v ===== *)
(** * RBAC rule resolution, authorization and the CSV rule checker

    Models [DefaultRuleResolver] ([VisitRulesFor], [RulesFor], [GetRoleReferenceRules],
    [appliesTo], [ConfirmNoEscalation], [StaticRoles]) of
    [pkg/lib/kubernetes/pkg/registry/rbac/validation/rule.go], [RBACAuthorizer.Authorize] of
    [pkg/lib/kubernetes/plugin/pkg/auth/authorizer/rbac/rbac.go], and [CSVRuleChecker] with
    [toAttributesSet] of [pkg/controller/install].

    The cluster's roles and bindings are reached through listers, which are not part of these
    sources: a [RoleSource] is a record of the four lookups, and every theorem holds for any
    such record. *)

From S2P Require Import Prelude GoStrings RbacRules OwnerUtil.

#[local] Arguments String.append : simpl nomatch.

(** ** Data *)

Record Subject := mkSubject { SKind : string; SName : string; SNamespace : string }.
Record RoleRef := mkRoleRef { RefKind : string; RefName : string }.

(** [rbacv1.Role] and [rbacv1.ClusterRole] (whose namespace is empty). *)
Record Role := mkRole {
  RoleNamespace : string; RoleName : string;
  RoleOwners : list OwnerReference; RoleRules : list PolicyRule
}.

(** [rbacv1.RoleBinding] and [rbacv1.ClusterRoleBinding]. *)
Record Binding := mkBinding {
  BNamespace : string; BName : string; BOwners : list OwnerReference;
  BSubjects : list Subject; BRoleRef : RoleRef
}.

Inductive resolveError :=
  | LookupError (msg : string)             (* an error of a lister or getter *)
  | UnsupportedRoleKind (kind : string).   (* "unsupported role reference kind: %q" *)

(** [RoleGetter], [RoleBindingLister], [ClusterRoleGetter], [ClusterRoleBindingLister]. *)
Record RoleSource := mkSource {
  GetRole : string -> string -> resolveError + Role;
  ListRoleBindings : string -> resolveError + list Binding;
  GetClusterRole : string -> resolveError + Role;
  ListClusterRoleBindings : resolveError + list Binding
}.

(** The [fmt.Stringer] that describes where a rule comes from. *)
Inductive RuleOrigin :=
  | FromClusterRoleBinding (b : Binding) (s : Subject)
  | FromRoleBinding (b : Binding) (s : Subject).

(** ** Subjects *)

Definition ServiceAccountUsernamePrefix : string := "system:serviceaccount:".

(** [serviceaccount.MakeUsername] *)
Definition MakeUsername (namespace name : string) : string :=
  ServiceAccountUsernamePrefix +:+ namespace +:+ ":" +:+ name.

(** [username[len(p):]] after [strings.HasPrefix(username, p)] *)
Definition stripPrefix (s p : string) : option string :=
  if HasPrefix s p
  then Some (String.substring (String.length p) (String.length s - String.length p) s)
  else None.

(** [serviceaccount.MatchesUsername] *)
Definition MatchesUsername (namespace name username : string) : bool :=
  match stripPrefix username ServiceAccountUsernamePrefix with
  | None => false
  | Some username =>
      match stripPrefix username namespace with
      | None => false
      | Some username =>
          match stripPrefix username ":" with
          | None => false
          | Some username => bool_decide (username = name)
          end
      end
  end.

Definition appliesToUser (user : UserInfo) (subject : Subject) (namespace : string) : bool :=
  if bool_decide (SKind subject = "User") then bool_decide (GetName user = SName subject)
  else if bool_decide (SKind subject = "Group") then has (GetGroups user) (SName subject)
  else if bool_decide (SKind subject = "ServiceAccount") then
    let saNamespace :=
      if (0 <? String.length (SNamespace subject))%nat then SNamespace subject else namespace in
    if (String.length saNamespace =? 0)%nat then false
    else MatchesUsername saNamespace (SName subject) (GetName user)
  else false.

(** The first subject that applies, [None] when none does. *)
Definition appliesTo (user : UserInfo) (bindingSubjects : list Subject) (namespace : string) : option Subject :=
  List.find (fun bindingSubject => appliesToUser user bindingSubject namespace) bindingSubjects.

Definition GetRoleReferenceRules (src : RoleSource) (roleRef : RoleRef) (bindingNamespace : string)
  : resolveError + list PolicyRule :=
  if bool_decide (RefKind roleRef = "Role") then
    role ← GetRole src bindingNamespace (RefName roleRef); mret (RoleRules role)
  else if bool_decide (RefKind roleRef = "ClusterRole") then
    clusterRole ← GetClusterRole src (RefName roleRef); mret (RoleRules clusterRole)
  else inl (UnsupportedRoleKind (RefKind roleRef)).

(** ** Visiting the rules of a user *)

(** One call of the visitor: an origin, a rule, an error. *)
Record Visit := mkVisit {
  VOrigin : option RuleOrigin; VRule : option PolicyRule; VErr : option resolveError
}.

Section visiting.
Context {S : Type} (visitor : Visit -> S -> S * bool).

(** [for i := range rules { if !visitor(sourceDescriber, &rules[i], nil) { return } }] *)
Fixpoint visitRules (origin : RuleOrigin) (rules : list PolicyRule) (s : S) : S * bool :=
  match rules with
  | [] => (s, true)
  | rule :: rest =>
      let '(s', continue) := visitor (mkVisit (Some origin) (Some rule) None) s in
      if continue then visitRules origin rest s' else (s', false)
  end.

(** The loop over the bindings; [false] means the visitor asked to stop. *)
Fixpoint visitBindings (src : RoleSource) (user : UserInfo) (namespace : string)
    (describe : Binding -> Subject -> RuleOrigin) (bindings : list Binding) (s : S) : S * bool :=
  match bindings with
  | [] => (s, true)
  | binding :: rest =>
      match appliesTo user (BSubjects binding) namespace with
      | None => visitBindings src user namespace describe rest s
      | Some subject =>
          match GetRoleReferenceRules src (BRoleRef binding) namespace with
          | inl err =>
              let '(s', continue) := visitor (mkVisit None None (Some err)) s in
              if continue then visitBindings src user namespace describe rest s' else (s', false)
          | inr rules =>
              let '(s', continue) := visitRules (describe binding subject) rules s in
              if continue then visitBindings src user namespace describe rest s' else (s', false)
          end
      end
  end.

Definition VisitRulesFor (src : RoleSource) (user : UserInfo) (namespace : string) (s : S) : S :=
  let '(s', continue) :=
    match ListClusterRoleBindings src with
    | inl err => visitor (mkVisit None None (Some err)) s
    | inr clusterRoleBindings =>
        visitBindings src user "" FromClusterRoleBinding clusterRoleBindings s
    end in
  if negb continue then s'
  else if (0 <? String.length namespace)%nat then
    match ListRoleBindings src namespace with
    | inl err => (visitor (mkVisit None None (Some err)) s').1
    | inr roleBindings => (visitBindings src user namespace FromRoleBinding roleBindings s').1
    end
  else s'.
End visiting.

(** [ruleAccumulator.visit] *)
Definition accumulate (v : Visit) (acc : list PolicyRule * list resolveError)
  : (list PolicyRule * list resolveError) * bool :=
  let '(rules, errs) := acc in
  ((rules ++ option_list (VRule v), errs ++ option_list (VErr v)), true).

(** The rules found, and the errors met on the way. *)
Definition RulesFor (src : RoleSource) (user : UserInfo) (namespace : string)
  : list PolicyRule * list resolveError :=
  VisitRulesFor accumulate src user namespace ([], []).

(** ** Authorization *)

Inductive Decision := DecisionAllow (reason : option RuleOrigin) | DecisionNoOpinion (errs : list resolveError).

(** [authorizingVisitor]: the origin of the rule that allowed the request, and the errors. *)
Record authorizingVisitor := mkVisitor { allowed : bool; reason : option RuleOrigin; verrors : list resolveError }.

Definition authVisit (requestAttributes : Attributes) (v : Visit) (st : authorizingVisitor)
  : authorizingVisitor * bool :=
  match VRule v with
  | Some rule =>
      if RuleAllows requestAttributes rule
      then (mkVisitor true (VOrigin v) (verrors st), false)
      else (mkVisitor (allowed st) (reason st) (verrors st ++ option_list (VErr v)), true)
  | None => (mkVisitor (allowed st) (reason st) (verrors st ++ option_list (VErr v)), true)
  end.

Definition Authorize (src : RoleSource) (requestAttributes : Attributes) : Decision :=
  let st := VisitRulesFor (authVisit requestAttributes) src (AUser requestAttributes)
              (ANamespace requestAttributes) (mkVisitor false None []) in
  if allowed st then DecisionAllow (reason st) else DecisionNoOpinion (verrors st).

(** ** The escalation check *)

Inductive escalationError :=
  | NoUserOnContext
  | MissingRights (compactMissingRights : list PolicyRule) (ruleResolutionErrors : list resolveError).

(** [user] and [namespace] are what the request context holds; [None] is the nil error. *)
Definition ConfirmNoEscalation `{RangeOrder} (user : option UserInfo) (namespace : string)
    (src : RoleSource) (rules : list PolicyRule) : option escalationError :=
  match user with
  | None => Some NoUserOnContext
  | Some user =>
      let '(ownerRules, ruleResolutionErrors) := RulesFor src user namespace in
      let '(ownerRightsCover, missingRights) := Covers ownerRules rules in
      if ownerRightsCover then None
      else Some (MissingRights (CompactRules missingRights) ruleResolutionErrors)
  end.

(** ** Roles given as lists ([StaticRoles]) *)

Record StaticRoles := mkStatic {
  sroles : list Role; sroleBindings : list Binding;
  sclusterRoles : list Role; sclusterRoleBindings : list Binding
}.

Definition staticSource (r : StaticRoles) : RoleSource := {|
  GetRole namespace name :=
    if (String.length namespace =? 0)%nat
    then inl (LookupError "must provide namespace when getting role")
    else match List.find (fun role => bool_decide (RoleNamespace role = namespace)
                                     && bool_decide (RoleName role = name)) (sroles r) with
         | Some role => inr role
         | None => inl (LookupError "role not found")
         end;
  ListRoleBindings namespace :=
    if (String.length namespace =? 0)%nat
    then inl (LookupError "must provide namespace when listing role bindings")
    else inr (List.filter (fun b => bool_decide (BNamespace b = namespace)) (sroleBindings r));
  GetClusterRole name :=
    match List.find (fun role => bool_decide (RoleName role = name)) (sclusterRoles r) with
    | Some role => inr role
    | None => inl (LookupError "clusterrole not found")
    end;
  ListClusterRoleBindings := inr (sclusterRoleBindings r)
|}.

(** ** The CSV rule checker *)

(** [CSVRuleChecker]'s [GetRole], [ListRoleBindings], [GetClusterRole] and
    [ListClusterRoleBindings]: the listers' answers without what another CSV owns. *)
Definition emptyRole : Role := mkRole "" "" [] [].

Definition csvRoleSource (csv : Object) (listers : RoleSource) : RoleSource := {|
  GetRole namespace name :=
    role ← GetRole listers namespace name;
    mret (if HasOwnerConflict csv (RoleOwners role) then emptyRole else role);
  ListRoleBindings namespace :=
    rbList ← ListRoleBindings listers namespace;
    mret (List.filter (fun rb => negb (HasOwnerConflict csv (BOwners rb))) rbList);
  GetClusterRole name :=
    clusterRole ← GetClusterRole listers name;
    mret (if HasOwnerConflict csv (RoleOwners clusterRole) then emptyRole else clusterRole);
  ListClusterRoleBindings :=
    crbList ← ListClusterRoleBindings listers;
    mret (List.filter (fun crb => negb (HasOwnerConflict csv (BOwners crb))) crbList)
|}.

Definition attributesRecord (user : UserInfo) (namespace verb apiGroup resource name path : string) : Attributes :=
  let resourceRequest := bool_decide (path = "") in
  mkAttrs user verb namespace apiGroup resource "" name resourceRequest path.

Definition attributesKey (user : UserInfo) (namespace verb apiGroup resource name path : string) : string :=
  GetName user +:+ "|" +:+ verb +:+ "|" +:+ namespace +:+ "|" +:+ apiGroup +:+ "|" +:+ resource
  +:+ "|" +:+ name +:+ "|" +:+ resource +:+ "|" +:+ path.

(** [make([]string, 1)] for an empty slice: one empty string. *)
Definition orEmpty (l : list string) : list string :=
  if (length l =? 0)%nat then [""] else l.

(** The keyed attributes the nested loops of [toAttributesSet] build, in order. *)
Definition attributesList (user : UserInfo) (namespace : string) (rule : PolicyRule) : list (string * Attributes) :=
  let groups := orEmpty (APIGroups rule) in
  let resources := orEmpty (Resources rule) in
  let names := orEmpty (ResourceNames rule) in
  let nonResourceURLs := orEmpty (NonResourceURLs rule) in
  flat_map (fun verb =>
  flat_map (fun group =>
  flat_map (fun resource =>
  flat_map (fun name =>
  map (fun nonResourceURL =>
    (attributesKey user namespace verb group resource name nonResourceURL,
     attributesRecord user namespace verb group resource name nonResourceURL))
  nonResourceURLs) names) resources) groups) (Verbs rule).

Definition toAttributesSet `{RangeOrder} (user : UserInfo) (namespace : string) (rule : PolicyRule) : list Attributes :=
  let set : gmap string Attributes :=
    foldl (fun set '(key, attr) => <[key := attr]> set) ∅ (attributesList user namespace rule) in
  (range set).*2.

Record ServiceAccount := mkSA { SAName : string; SANamespace : string }.

Definition toDefaultInfo (sa : ServiceAccount) : UserInfo :=
  mkUser (MakeUsername (SANamespace sa) (SAName sa)) [].

Definition isAllow (d : Decision) : bool := match d with DecisionAllow _ => true | _ => false end.

Definition RuleSatisfied `{RangeOrder} (csv : Object) (listers : RoleSource)
    (sa : ServiceAccount) (namespace : string) (rule : PolicyRule) : ruleError + bool :=
  match ruleValid rule with
  | Some err => inl err
  | None =>
      let user := toDefaultInfo sa in
      let attributesSet := toAttributesSet user namespace rule in
      inr (forallb (fun attributes => isAllow (Authorize (csvRoleSource csv listers) attributes)) attributesSet)
  end.

(** ** What a visitor sees *)

(** The visits of the rules of one binding. *)
Definition bindingVisits (src : RoleSource) (user : UserInfo) (namespace : string)
    (describe : Binding -> Subject -> RuleOrigin) (binding : Binding) : list Visit :=
  match appliesTo user (BSubjects binding) namespace with
  | None => []
  | Some subject =>
      match GetRoleReferenceRules src (BRoleRef binding) namespace with
      | inl err => [mkVisit None None (Some err)]
      | inr rules => (fun rule => mkVisit (Some (describe binding subject)) (Some rule) None) <$> rules
      end
  end.

Definition listVisits (src : RoleSource) (user : UserInfo) (namespace : string)
    (describe : Binding -> Subject -> RuleOrigin) (bindings : resolveError + list Binding) : list Visit :=
  match bindings with
  | inl err => [mkVisit None None (Some err)]
  | inr bs => flat_map (bindingVisits src user namespace describe) bs
  end.

(** All the visits for a user: what a visitor that never stops is called with. *)
Definition allVisits (src : RoleSource) (user : UserInfo) (namespace : string) : list Visit :=
  listVisits src user "" FromClusterRoleBinding (ListClusterRoleBindings src) ++
  (if (0 <? String.length namespace)%nat
   then listVisits src user namespace FromRoleBinding (ListRoleBindings src namespace) else []).

Section visit_seq.
Context {S : Type} (visitor : Visit -> S -> S * bool).

Fixpoint visitSeq (vs : list Visit) (s : S) : S * bool :=
  match vs with
  | [] => (s, true)
  | v :: vs' => let '(s', k) := visitor v s in if k then visitSeq vs' s' else (s', false)
  end.

Lemma visitSeq_app vs1 vs2 s :
  visitSeq (vs1 ++ vs2) s =
  let '(s', k) := visitSeq vs1 s in if k then visitSeq vs2 s' else (s', false).
Proof.
  revert s. induction vs1 as [|v vs1 IH]; intros s; simpl; [done|].
  destruct (visitor v s) as [s' []]; [apply IH|done].
Qed.

Lemma visitRules_seq origin rules s :
  visitRules visitor origin rules s =
  visitSeq ((fun rule => mkVisit (Some origin) (Some rule) None) <$> rules) s.
Proof.
  revert s. induction rules as [|r rules IH]; intros s; simpl; [done|].
  destruct (visitor _ s) as [s' []]; [apply IH|done].
Qed.

Lemma visitBindings_seq src user ns describe bs s :
  visitBindings visitor src user ns describe bs s =
  visitSeq (flat_map (bindingVisits src user ns describe) bs) s.
Proof.
  revert s. induction bs as [|b bs IH]; intros s; simpl; [done|].
  rewrite visitSeq_app. unfold bindingVisits at 1.
  destruct (appliesTo user (BSubjects b) ns) as [subj|]; simpl; [|apply IH].
  destruct (GetRoleReferenceRules src (BRoleRef b) ns) as [err|rules]; simpl.
  - destruct (visitor _ s) as [s' []]; [apply IH|done].
  - rewrite visitRules_seq. destruct (visitSeq _ s) as [s' []]; [apply IH|done].
Qed.

(** [VisitRulesFor] runs the visitor over [allVisits] until it asks to stop. *)
Lemma VisitRulesFor_seq src user ns s :
  VisitRulesFor visitor src user ns s = (visitSeq (allVisits src user ns) s).1.
Proof.
  unfold VisitRulesFor, allVisits. rewrite visitSeq_app.
  assert (forall describe n bindings s0,
    match bindings with
    | inl err => visitor (mkVisit None None (Some err)) s0
    | inr bs => visitBindings visitor src user n describe bs s0
    end = visitSeq (listVisits src user n describe bindings) s0) as Hlist.
  { intros describe n [err|bs] s0; simpl; [by destruct (visitor _ s0) as [? []]|apply visitBindings_seq]. }
  rewrite Hlist. destruct (visitSeq _ s) as [s' []]; simpl; [|done].
  destruct (0 <? String.length ns)%nat; [|done].
  rewrite <- Hlist. by destruct (ListRoleBindings src ns).
Qed.
End visit_seq.

Lemma visitSeq_accumulate vs rules errs :
  visitSeq accumulate vs (rules, errs) = ((rules ++ omap VRule vs, errs ++ omap VErr vs), true).
Proof.
  revert rules errs. induction vs as [|v vs IH]; intros rules errs; simpl; [by rewrite !app_nil_r|].
  rewrite IH. destruct (VRule v), (VErr v); simpl; by rewrite <- ?app_assoc, ?app_nil_r.
Qed.

Lemma RulesFor_eq src user ns :
  RulesFor src user ns = (omap VRule (allVisits src user ns), omap VErr (allVisits src user ns)).
Proof. unfold RulesFor. by rewrite VisitRulesFor_seq, visitSeq_accumulate. Qed.

Lemma visitSeq_auth a vs st :
  allowed (visitSeq (authVisit a) vs st).1 = allowed st || RulesAllow a (omap VRule vs).
Proof.
  revert st. induction vs as [|v vs IH]; intros st; simpl; [by rewrite orb_false_r|].
  unfold authVisit at 1. destruct (VRule v) as [rule|]; simpl; [|by rewrite IH].
  destruct (RuleAllows a rule); simpl; [by rewrite orb_true_r|by rewrite IH].
Qed.

Lemma Authorize_allow src a :
  isAllow (Authorize src a) = RulesAllow a (RulesFor src (AUser a) (ANamespace a)).1.
Proof.
  unfold Authorize. rewrite VisitRulesFor_seq, RulesFor_eq. simpl.
  pose proof (visitSeq_auth a (allVisits src (AUser a) (ANamespace a)) (mkVisitor false None [])) as H.
  simpl in H. rewrite <- H. by destruct (visitSeq _ _ _) as [[[] ? ?] ?].
Qed.

(** ** Usernames *)

Lemma stripPrefix_Some s p t : stripPrefix s p = Some t <-> s = p +:+ t.
Proof.
  unfold stripPrefix. destruct (HasPrefix s p) eqn:E.
  - apply HasPrefix_true in E as [u ->]. rewrite str_length_app.
    replace (String.length p + String.length u - String.length p)%nat with (String.length u) by lia.
    rewrite substring_drop. split; intros H; simplify_eq; done.
  - split; [done|]. intros ->. by rewrite HasPrefix_app in E.
Qed.

(** ** Attribute keys *)

Lemma Cut_inj sep a b c d :
  HasByte sep a = false -> HasByte sep c = false ->
  a +:+ String sep b = c +:+ String sep d -> a = c /\ b = d.
Proof.
  intros Ha Hc E. pose proof (Cut_app sep a b Ha) as E1. rewrite E, Cut_app in E1 by done. by simplify_eq.
Qed.

Definition bar : ascii := "|"%char.

(** A field of the attribute key without the separator. *)
Definition noBar (s : string) : Prop := HasByte bar s = false.

Lemma attributesKey_inj user ns v g r n p v' g' r' n' p' :
  noBar v -> noBar g -> noBar r -> noBar n -> noBar v' -> noBar g' -> noBar r' -> noBar n' ->
  attributesKey user ns v g r n p = attributesKey user ns v' g' r' n' p' ->
  v = v' /\ g = g' /\ r = r' /\ n = n' /\ p = p'.
Proof.
  intros ???????? E. unfold attributesKey in E.
  do 2 apply (inj (String.append _)) in E.
  apply Cut_inj in E as [-> E]; [|done..].
  apply (inj (String.append ns)) in E. injection E as E.
  apply Cut_inj in E as [-> E]; [|done..]. apply Cut_inj in E as [-> E]; [|done..].
  apply Cut_inj in E as [-> E]; [|done..].
  apply (inj (String.append _)) in E. by injection E.
Qed.

Lemma foldl_insert_values {V} (l : list (string * V)) (m : gmap string V) k v :
  (forall k v v', (k, v) ∈ l -> (k, v') ∈ l -> v = v') ->
  (k, v) ∈ l ->
  foldl (fun m '(k, v) => <[k := v]> m) m l !! k = Some v.
Proof.
  assert (forall l0 (m0 : gmap string V), (forall v', (k, v') ∈ l0 -> v' = v) ->
            ((k, v) ∈ l0 \/ m0 !! k = Some v) ->
            foldl (fun m '(k, v) => <[k := v]> m) m0 l0 !! k = Some v) as Hgen.
  { induction l0 as [|[k1 v1] l0 IH]; intros m0 Huniq Hin; simpl; [by destruct Hin as [?%elem_of_nil|?]|].
    apply IH; [intros v' ?; apply Huniq; by right|].
    destruct (decide (k1 = k)) as [->|Hne].
    - right. rewrite lookup_insert_eq. f_equal. apply Huniq. by left.
    - rewrite lookup_insert_ne by done. set_solver. }
  intros Huniq Hin. apply Hgen; [|by left]. intros v' Hv'. by apply (Huniq k).
Qed.

(** The product of attributes that [toAttributesSet] enumerates. *)
Lemma elem_of_attributesList user ns rule key a :
  (key, a) ∈ attributesList user ns rule <->
  exists v g r n u, v ∈ Verbs rule /\ g ∈ orEmpty (APIGroups rule) /\ r ∈ orEmpty (Resources rule) /\
    n ∈ orEmpty (ResourceNames rule) /\ u ∈ orEmpty (NonResourceURLs rule) /\
    key = attributesKey user ns v g r n u /\ a = attributesRecord user ns v g r n u.
Proof.
  unfold attributesList. repeat setoid_rewrite elem_of_flat_map. setoid_rewrite list_elem_of_fmap.
  split.
  - intros (v & ? & g & ? & r & ? & n & ? & u & [= -> ->] & ?). exists v, g, r, n, u. auto 10.
  - intros (v & g & r & n & u & ? & ? & ? & ? & ? & -> & ->).
    exists v; split; [done|]. exists g; split; [done|]. exists r; split; [done|].
    exists n; split; [done|]. by exists u.
Qed.

Definition rule_noBar (rule : PolicyRule) : Prop :=
  forall s, s ∈ Verbs rule ++ APIGroups rule ++ Resources rule ++ ResourceNames rule -> noBar s.

Lemma orEmpty_noBar l : (forall s, s ∈ l -> noBar s) -> forall s, s ∈ orEmpty l -> noBar s.
Proof. unfold orEmpty. case_one; [|auto]. intros _ s ->%list_elem_of_singleton. done. Qed.

Lemma elem_of_toAttributesSet `{RangeOrder} user ns rule v g r n u :
  rule_noBar rule ->
  v ∈ Verbs rule -> g ∈ orEmpty (APIGroups rule) -> r ∈ orEmpty (Resources rule) ->
  n ∈ orEmpty (ResourceNames rule) -> u ∈ orEmpty (NonResourceURLs rule) ->
  attributesRecord user ns v g r n u ∈ toAttributesSet user ns rule.
Proof.
  intros Hbar Hv Hg Hr Hn Hu. unfold toAttributesSet. apply elem_of_range_vals.
  exists (attributesKey user ns v g r n u). apply foldl_insert_values.
  - intros k a a' (v1 & g1 & r1 & n1 & u1 & ? & ? & ? & ? & ? & -> & ->)%elem_of_attributesList
      (v2 & g2 & r2 & n2 & u2 & ? & ? & ? & ? & ? & E & ->)%elem_of_attributesList.
    assert (forall s, s ∈ Verbs rule -> noBar s) by (intros; apply Hbar; set_solver).
    assert (forall s, s ∈ orEmpty (APIGroups rule) -> noBar s)
      by (apply orEmpty_noBar; intros; apply Hbar; set_solver).
    assert (forall s, s ∈ orEmpty (Resources rule) -> noBar s)
      by (apply orEmpty_noBar; intros; apply Hbar; set_solver).
    assert (forall s, s ∈ orEmpty (ResourceNames rule) -> noBar s)
      by (apply orEmpty_noBar; intros; apply Hbar; set_solver).
    apply attributesKey_inj in E as (-> & -> & -> & -> & ->); auto.
  - apply elem_of_attributesList. exists v, g, r, n, u. auto 10.
Qed.

Lemma orEmpty_elem l x : x ∈ l -> x ∈ orEmpty l.
Proof. unfold orEmpty. destruct l; [by intros ?%elem_of_nil|done]. Qed.

(** ** Properties *)

(** The authorizer's short-circuiting visit decides like the full list of rules: a
    request is allowed exactly when one of the rules [RulesFor] collects for its user and
    namespace allows it, errors of single lookups notwithstanding. *)
Theorem Authorize_iff_RulesFor (src : RoleSource) (a : Attributes) :
  (exists reason, Authorize src a = DecisionAllow reason) <->
  RulesAllow a (RulesFor src (AUser a) (ANamespace a)).1 = true.
Proof.
  rewrite <- Authorize_allow. destruct (Authorize src a) eqn:E; simpl; naive_solver.
Qed.

(** When the escalation check passes, every well-formed request of that user in that
    namespace that the new rules would allow is already allowed by the authorizer. *)
Theorem ConfirmNoEscalation_sound `{RangeOrder} (src : RoleSource) (user : UserInfo)
    (ns : string) (rules : list PolicyRule) (a : Attributes) :
  ConfirmNoEscalation (Some user) ns src rules = None ->
  AUser a = user -> ANamespace a = ns -> wf_request a ->
  RulesAllow a rules = true ->
  isAllow (Authorize src a) = true.
Proof.
  intros Hc <- <- Hwf Ha. rewrite Authorize_allow. unfold ConfirmNoEscalation in Hc.
  destruct (RulesFor src (AUser a) (ANamespace a)) as [ownerRules errs]. simpl.
  destruct (Covers ownerRules rules) as [[] missing] eqn:E; [|done].
  assert ((Covers ownerRules rules).1 = true) as Hcov by by rewrite E.
  rewrite Covers_true in Hcov. rewrite RulesAllow_true in Ha |- *.
  destruct Ha as (s & Hs & (sub & Hsub & Ha)%RuleAllows_to_sub).
  destruct (Hcov s sub Hs Hsub) as (o & Ho & Hco). exists o. eauto using ruleCovers_sound.
Qed.

(** A cluster role bound to a service account. *)
Definition demo_roles : RoleSource :=
  staticSource (mkStatic [] [] [mkRole "" "edit" [] demo_owner]
    [mkBinding "" "edit-sa" [] [mkSubject "ServiceAccount" "sa" "ns"] (mkRoleRef "ClusterRole" "edit")]).

Lemma ConfirmNoEscalation_sound_witness : isAllow (Authorize demo_roles demo_request) = true.
Proof.
  apply (@ConfirmNoEscalation_sound canonical_order demo_roles (AUser demo_request) "ns" demo_servant);
    [..|intros _|]; vm_compute; reflexivity.
Defined.

(** A service account name matches a user name exactly when the user name is the one
    Kubernetes builds for that account. *)
Theorem MatchesUsername_iff (namespace name username : string) :
  MatchesUsername namespace name username = true <-> username = MakeUsername namespace name.
Proof.
  unfold MatchesUsername, MakeUsername. split.
  - destruct (stripPrefix username _) as [u1|] eqn:E1; [|done].
    destruct (stripPrefix u1 _) as [u2|] eqn:E2; [|done].
    destruct (stripPrefix u2 _) as [u3|] eqn:E3; [|done].
    intros H. bools. apply stripPrefix_Some in E1 as ->, E2 as ->, E3 as ->. by subst.
  - intros ->. rewrite (proj2 (stripPrefix_Some _ _ _) eq_refl),
      (proj2 (stripPrefix_Some _ _ _) eq_refl), (proj2 (stripPrefix_Some _ _ _) eq_refl).
    by apply bool_decide_true.
Qed.

(** Rules as the API server admits them: no empty resource name, and resource names only on
    resource rules. *)
Definition well_formed_rule (o : PolicyRule) : Prop :=
  "" ∉ ResourceNames o /\ (NonResourceURLs o = [] \/ ResourceNames o = []).

Lemma ruleValid_None rule :
  ruleValid rule = None ->
  Verbs rule <> [] /\
  (NonResourceURLs rule = [] \/ (APIGroups rule = [] /\ Resources rule = [] /\ ResourceNames rule = [])).
Proof.
  unfold ruleValid. destruct (Verbs rule); simpl; [done|].
  destruct (APIGroups rule), (Resources rule), (ResourceNames rule), (NonResourceURLs rule); simpl; naive_solver.
Qed.

(** A rule the CSV rule checker accepts for a service account is covered by the rules
    bound to that account, that is, [RuleSatisfied] and the escalation check's [Covers]
    agree; field separators aside, no combination of the rule escapes the check. *)
Theorem RuleSatisfied_covered `{RangeOrder} (csv : Object) (listers : RoleSource)
    (sa : ServiceAccount) (ns : string) (rule : PolicyRule) :
  rule_noBar rule -> "" ∉ NonResourceURLs rule ->
  (forall o, o ∈ (RulesFor (csvRoleSource csv listers) (toDefaultInfo sa) ns).1 -> well_formed_rule o) ->
  RuleSatisfied csv listers sa ns rule = inr true ->
  (Covers (RulesFor (csvRoleSource csv listers) (toDefaultInfo sa) ns).1 [rule]).1 = true.
Proof.
  intros Hbar Hurl Hwf. unfold RuleSatisfied. destruct (ruleValid rule) eqn:Hvalid; [done|].
  apply ruleValid_None in Hvalid as [_ Hkind]. intros [= Hall]. rewrite forallb_elem_of in Hall.
  set (src := csvRoleSource csv listers) in *. set (user := toDefaultInfo sa) in *.
  assert (forall v g r n u, v ∈ Verbs rule -> g ∈ orEmpty (APIGroups rule) -> r ∈ orEmpty (Resources rule) ->
    n ∈ orEmpty (ResourceNames rule) -> u ∈ orEmpty (NonResourceURLs rule) ->
    exists o, o ∈ (RulesFor src user ns).1 /\ RuleAllows (attributesRecord user ns v g r n u) o = true) as Hok.
  { intros v g r n u ?????.
    specialize (Hall _ (elem_of_toAttributesSet user ns rule v g r n u Hbar ltac:(done) ltac:(done)
      ltac:(done) ltac:(done) ltac:(done))).
    rewrite Authorize_allow, RulesAllow_true in Hall. exact Hall. }
  apply Covers_true. intros s sub ->%list_elem_of_singleton
    [(g & r & v & nms & Hg & Hr & Hv & Hns & ->)|(u & v & Hu & Hv & ->)]%elem_of_BreakdownRule.
  - destruct Hkind as [Hnr|(Hno & _ & _)]; [|rewrite Hno in Hg; by apply elem_of_nil in Hg].
    destruct (Hok v g r (match nms with n :: _ => n | [] => "" end) "")
      as (o & Ho & Ha); eauto using orEmpty_elem.
    { destruct Hns as [[E ->]|(n & ? & ->)]; [rewrite E; set_solver|by apply orEmpty_elem]. }
    { rewrite Hnr. set_solver. }
    exists o. split; [done|]. destruct (Hwf o Ho) as [Hne _].
    rewrite RuleAllows_resource, VerbMatches_true, APIGroupMatches_true, ResourceMatches_true,
      ResourceNameMatches_true in Ha by done. simpl in Ha.
    destruct Ha as (? & ? & (p & Hp & Hpat) & Hname). apply ruleCovers_true. simpl.
    split; [set_solver|]. split; [set_solver|]. split.
    { intros p' ->%list_elem_of_singleton. unfold resourceCovered. naive_solver. }
    split; [|by intros ? ?%elem_of_nil].
    destruct Hns as [[_ ->]|(n & _ & ->)]; [naive_solver|]. destruct Hname; [by left|].
    right. split; [done|set_solver].
  - destruct Hkind as [Hnr|(Eg & Er & En)]; [rewrite Hnr in Hu; by apply elem_of_nil in Hu|].
    destruct (Hok v "" "" "" u) as (o & Ho & Ha); eauto using orEmpty_elem.
    { rewrite Eg; set_solver. } { rewrite Er; set_solver. } { rewrite En; set_solver. }
    exists o. split; [done|]. destruct (Hwf o Ho) as [_ Hnames].
    assert (u <> "") as Hune by set_solver.
    rewrite RuleAllows_nonResource, VerbMatches_true, NonResourceURLMatches_true in Ha
      by (simpl; by apply bool_decide_false).
    destruct Ha as (? & w & Hw & Hc). apply ruleCovers_true. simpl in *.
    split; [set_solver|]. split; [set_solver|]. split; [by intros ? ?%elem_of_nil|].
    split; [|intros p ->%list_elem_of_singleton; eauto].
    left. destruct Hnames as [E|?]; [rewrite E in Hw; by apply elem_of_nil in Hw|done].
Qed.

Lemma RuleSatisfied_covered_witness :
  (Covers (RulesFor (csvRoleSource (demo_csv "etcd.v1" "1") demo_roles) (toDefaultInfo (mkSA "sa" "ns")) "ns").1
     [mkRule ["get"] ["apps"] ["deployments"] [] None]).1 = true.
Proof.
  apply (@RuleSatisfied_covered canonical_order).
  - intros s Hs. simpl in Hs.
    repeat (apply elem_of_cons in Hs as [->|Hs]; [vm_compute; reflexivity|]). by apply elem_of_nil in Hs.
  - set_solver.
  - change ((RulesFor (csvRoleSource (demo_csv "etcd.v1" "1") demo_roles) (toDefaultInfo (mkSA "sa" "ns")) "ns").1)
      with demo_owner. intros o Ho. unfold demo_owner in Ho.
    repeat (apply elem_of_cons in Ho as [->|Ho]; [split; [set_solver|by right]|]). by apply elem_of_nil in Ho.
  - vm_compute. reflexivity.
Defined.
