(* ===== verification/CatalogModel.v ===== *)
(** * The catalog model and its validation

    Models [staging/operator-registry/alpha/model/model.go] (packages, channels, bundles, their
    validation, [Head], [validateReplacesChain], [AddBundle]) and [Parse] of
    [staging/operator-registry/alpha/property/property.go].

    Packages, channels and bundles point at each other, and the validation compares these
    pointers: the objects live in a [Heap], one list per Go type, and a pointer is an index
    into its list.

    Decoding JSON and parsing semantic versions is the work of other packages; they are
    parameters of the model ([Decoders], [SemverLib]). *)

From S2P Require Import Prelude GoStrings.

(** ** Parameters *)

(** [property.Property]: a type and a raw JSON message. *)
Record Property := mkProperty { PType : string; PValue : string }.

Record PackageProp := mkPackageProp { PackageName : string; PackageVersion : string }.
Record PackageRequiredProp := mkPackageRequiredProp { ReqPackageName : string; ReqVersionRange : string }.
Record GVKProp := mkGVKProp { PGroup : string; PKind : string; PVersion : string }.
Record ChannelProp := mkChannelProp { PChannelName : string; PPriority : Z }.

(** [json.Unmarshal] of a raw message into each of the property structs: [None] is the
    decoding error.  The decoded CSV metadata is opaque. *)
Class Decoders := {
  CSVMetadata : Type;
  decPackage : string -> option PackageProp;
  decPackageRequired : string -> option PackageRequiredProp;
  decGVK : string -> option GVKProp;
  decGVKRequired : string -> option GVKProp;
  decBundleObject : string -> option string;
  decCSVMetadata : string -> option CSVMetadata;
  decChannel : string -> option ChannelProp;
  decRaw : string -> option string;
  (** [jsonMarshal] of a raw message: the standard encoding of the same value. *)
  jsonMarshal : string -> option string;
}.

(** [github.com/blang/semver]: parsing, printing and sorting versions. *)
Class SemverLib := {
  Version : Type;
  version_zero : Version;
  version_parse : string -> option Version;
  version_string : Version -> string;
  version_sort : list Version -> list Version;
  version_sort_perm : forall l, version_sort l ≡ₚ l;
}.

(** ** Properties (property.go) *)

Definition TypePackage : string := "olm.package".
Definition TypePackageRequired : string := "olm.package.required".
Definition TypeGVK : string := "olm.gvk".
Definition TypeGVKRequired : string := "olm.gvk.required".
Definition TypeBundleObject : string := "olm.bundle.object".
Definition TypeCSVMetadata : string := "olm.csv.metadata".
Definition TypeChannel : string := "olm.channel".

Section properties.
Context `{Decoders}.

Record Properties := mkProperties {
  Packages : list PackageProp;
  PackagesRequired : list PackageRequiredProp;
  GVKs : list GVKProp;
  GVKsRequired : list GVKProp;
  BundleObjects : list string;
  PChannels : list ChannelProp;
  CSVMetadatas : list CSVMetadata;
  Others : list Property
}.

Definition noProperties : Properties := mkProperties [] [] [] [] [] [] [] [].

(** [ParseError{Idx, Typ, Err}] *)
Record ParseError := mkParseError { PEIdx : nat; PETyp : string }.

Definition parseOne (i : nat) (out : Properties) (prop : Property) : ParseError + Properties :=
  let '(mkProperties pk pr gv gr bo ch cm ot) := out in
  let fail := inl (mkParseError i (PType prop)) in
  if bool_decide (PType prop = TypePackage) then
    match decPackage (PValue prop) with
    | None => fail | Some p => inr (mkProperties (pk ++ [p]) pr gv gr bo ch cm ot) end
  else if bool_decide (PType prop = TypePackageRequired) then
    match decPackageRequired (PValue prop) with
    | None => fail | Some p => inr (mkProperties pk (pr ++ [p]) gv gr bo ch cm ot) end
  else if bool_decide (PType prop = TypeGVK) then
    match decGVK (PValue prop) with
    | None => fail | Some p => inr (mkProperties pk pr (gv ++ [p]) gr bo ch cm ot) end
  else if bool_decide (PType prop = TypeGVKRequired) then
    match decGVKRequired (PValue prop) with
    | None => fail | Some p => inr (mkProperties pk pr gv (gr ++ [p]) bo ch cm ot) end
  else if bool_decide (PType prop = TypeBundleObject) then
    match decBundleObject (PValue prop) with
    | None => fail | Some p => inr (mkProperties pk pr gv gr (bo ++ [p]) ch cm ot) end
  else if bool_decide (PType prop = TypeCSVMetadata) then
    match decCSVMetadata (PValue prop) with
    | None => fail | Some p => inr (mkProperties pk pr gv gr bo ch (cm ++ [p]) ot) end
  else if bool_decide (PType prop = TypeChannel) then
    match decChannel (PValue prop) with
    | None => fail | Some p => inr (mkProperties pk pr gv gr bo (ch ++ [p]) cm ot) end
  else
    match decRaw (PValue prop) with
    | None => fail | Some _ => inr (mkProperties pk pr gv gr bo ch cm (ot ++ [prop])) end.

Fixpoint parseFrom (i : nat) (out : Properties) (props : list Property) : ParseError + Properties :=
  match props with
  | [] => inr out
  | prop :: rest =>
      match parseOne i out prop with
      | inl e => inl e
      | inr out' => parseFrom (S i) out' rest
      end
  end.

Definition Parse (props : list Property) : ParseError + Properties := parseFrom 0 noProperties props.
End properties.

(** [Deduplicate]: the first occurrence of every (type, value) pair. *)
Definition propKey (p : Property) : string * string := (PType p, PValue p).

Fixpoint dedupFrom (seen : gset (string * string)) (props : list Property) : list Property :=
  match props with
  | [] => []
  | p :: rest =>
      if decide (propKey p ∈ seen) then dedupFrom seen rest
      else p :: dedupFrom ({[propKey p]} ∪ seen) rest
  end.

Definition Deduplicate (props : list Property) : list Property := dedupFrom ∅ props.

(** ** Objects *)

(** Pointers: indexes into the heap's lists. *)
Abbreviation loc := nat.

(** [model.Model]: package pointers by name. *)
Abbreviation Model := (gmap string loc).

Record RelatedImage := mkRelatedImage { RIName : string; RIImage : string }.
Record Icon := mkIcon { IconData : string; IconMediaType : string }.

Section model.
Context `{Decoders, SemverLib}.

Record Bundle := mkBundle {
  b_Package : option loc;
  b_Channel : option loc;
  b_Name : string;
  b_Image : string;
  b_Replaces : string;
  b_Skips : list string;
  b_SkipRange : string;
  b_Properties : list Property;
  b_RelatedImages : list RelatedImage;
  b_Deprecation : option string;   (* the message of the [*Deprecation] *)
  b_Objects : list string;
  b_CsvJSON : string;
  b_PropertiesP : option Properties;
  b_Version : Version
}.

Record Channel := mkChannel {
  c_Package : option loc;
  c_Name : string;
  c_Bundles : gmap string loc;
  c_Deprecation : option string;
  c_Properties : list Property
}.

Record Package := mkPackage {
  p_Name : string;
  p_Description : string;
  p_Icon : option Icon;
  p_DefaultChannel : option loc;
  p_Channels : gmap string loc;
  p_Deprecation : option string
}.

Record Heap := mkHeap {
  h_packages : list Package;
  h_channels : list Channel;
  h_bundles : list Bundle
}.

Definition emptyHeap : Heap := mkHeap [] [] [].

(** Dereferencing.  A dangling index does not occur; it reads a zero object. *)
Definition zeroBundle : Bundle := mkBundle None None "" "" "" [] "" [] [] None [] "" None version_zero.
Definition zeroChannel : Channel := mkChannel None "" ∅ None [].
Definition zeroPackage : Package := mkPackage "" "" None None ∅ None.

Definition derefB (h : Heap) (l : loc) : Bundle := default zeroBundle (h_bundles h !! l).
Definition derefC (h : Heap) (l : loc) : Channel := default zeroChannel (h_channels h !! l).
Definition derefP (h : Heap) (l : loc) : Package := default zeroPackage (h_packages h !! l).

(** ** Validation errors *)

Inductive vmsg :=
  | PackageKeyMismatch (key name : string) | PackageNameEmpty | DefaultChannelUnset | NoChannels
  | ChannelKeyMismatch (key name : string) | ChannelUnlinked (name : string)
  | DefaultChannelMissing (name : string) | DuplicateVersions (dups : list (string * list string))
  | ChannelNameEmpty | ChannelPackageUnset | NoBundles
  | BundleKeyMismatch (key name : string) | BundleUnlinked (name : string)
  | NoHead | MultipleHeads (names : list string)
  | ReplacesCycle (chain : list string) | StrandedBundles (names : list string) | ChainOutOfFuel
  | BundleNameEmpty | BundleChannelUnset | BundlePackageUnset | BundlePackageMismatch
  | BadProperty (idx : nat) | EmptySkip (i : nat) | NotOnePackageProperty | ImageUnset
  | DeprecationMessageEmpty.

Inductive vscope := InvalidIndex | InvalidPackage (name : string) | InvalidChannel (name : string) | InvalidBundle (name : string).

(** [validationError] and the plain errors under it. *)
Inductive verr :=
  | Msg (m : vmsg)
  | Nested (message : vscope) (subErrors : list verr).

(** [validationError.orNil] *)
Definition orNil (message : vscope) (subErrors : list verr) : option verr :=
  match subErrors with [] => None | _ => Some (Nested message subErrors) end.

Definition when (b : bool) (m : vmsg) : list verr := if b then [Msg m] else [].

(** ** Channel heads and the replaces chain *)

(** [incoming[name]++] *)
Definition incr (m : gmap string nat) (name : string) : gmap string nat :=
  partial_alter (fun o => Some (S (default O o))) name m.

Definition addEdges (m : gmap string nat) (b : Bundle) : gmap string nat :=
  foldl incr (if bool_decide (b_Replaces b = "") then m else incr m (b_Replaces b)) (b_Skips b).

Definition Head `{RangeOrder} (bundles : gmap string Bundle) : vmsg + Bundle :=
  let incoming := foldl addEdges ∅ (range bundles).*2 in
  let heads := List.filter (fun b => bool_decide (incoming !! b_Name b = None)) (range bundles).*2 in
  match heads with
  | [] => inl NoHead
  | [b] => inr b
  | _ => inl (MultipleHeads (merge_sort String.le (b_Name <$> heads)))
  end.

Fixpoint chainLoop (fuel : nat) (bundles : gmap string Bundle) (cur : option Bundle)
    (chainFrom : gmap string (list string)) (replacesChainFromHead : gset string) : vmsg + gset string :=
  match cur with
  | None => inr replacesChainFromHead
  | Some cur =>
      match fuel with
      | O => inl ChainOutOfFuel
      | S fuel' =>
          let chainFrom :=
            match chainFrom !! b_Name cur with
            | Some _ => chainFrom
            | None => <[b_Name cur := [b_Name cur]]> chainFrom
            end in
          let chainFrom := (fun l => l ++ [b_Replaces cur]) <$> chainFrom in
          if decide (b_Replaces cur ∈ replacesChainFromHead)
          then inl (ReplacesCycle (default [] (chainFrom !! b_Replaces cur)))
          else chainLoop fuel' bundles (bundles !! b_Replaces cur) chainFrom
                 ({[b_Replaces cur]} ∪ replacesChainFromHead)
      end
  end.

Definition allBundleNames `{RangeOrder} (bundles : gmap string Bundle) : gset string :=
  list_to_set (b_Name <$> (range bundles).*2).

Definition skippedBundles `{RangeOrder} (bundles : gmap string Bundle) : gset string :=
  list_to_set (flat_map b_Skips (range bundles).*2).

(** [None] is the nil error.  Each step of the loop inserts a new name, and only a name of
    the channel continues it, so that one step more than there are bundles is enough fuel
    (theorem [validateReplacesChain_iff]). *)
Definition validateReplacesChain `{RangeOrder} (bundles : gmap string Bundle) : option vmsg :=
  match Head bundles with
  | inl err => Some err
  | inr head =>
      match chainLoop (S (size bundles)) bundles (Some head) ∅ {[b_Name head]} with
      | inl err => Some err
      | inr replacesChainFromHead =>
          let strandedBundles :=
            (allBundleNames bundles ∖ replacesChainFromHead) ∖ skippedBundles bundles in
          match merge_sort String.le (elements strandedBundles) with
          | [] => None
          | names => Some (StrandedBundles names)
          end
      end
  end.

(** ** Validate *)

Definition Deprecation_Validate (d : option string) : list verr :=
  match d with Some message => when (bool_decide (message = "")) DeprecationMessageEmpty | None => [] end.

Definition Bundle_Validate (h : Heap) (l : loc) : option verr :=
  let b := derefB h l in
  orNil (InvalidBundle (b_Name b))
    (when (bool_decide (b_Name b = "")) BundleNameEmpty
     ++ when (bool_decide (b_Channel b = None)) BundleChannelUnset
     ++ when (bool_decide (b_Package b = None)) BundlePackageUnset
     ++ match b_Channel b, b_Package b with
        | Some c, Some p => when (negb (bool_decide (Some p = c_Package (derefC h c)))) BundlePackageMismatch
        | _, _ => []
        end
     ++ match Parse (b_Properties b) with inl e => [Msg (BadProperty (PEIdx e))] | inr _ => [] end
     ++ concat (imap (fun i skip => when (bool_decide (skip = "")) (EmptySkip i)) (b_Skips b))
     ++ match Parse (b_Properties b) with
        | inl _ => []
        | inr props => when (negb (length (Packages props) =? 1)%nat) NotOnePackageProperty
        end
     ++ when (bool_decide (b_Image b = "") && (length (b_Objects b) =? 0)%nat) ImageUnset
     ++ Deprecation_Validate (b_Deprecation b)).

Definition channelBundles (h : Heap) (c : Channel) : gmap string Bundle := derefB h <$> c_Bundles c.

Definition Channel_Validate `{RangeOrder} (h : Heap) (l : loc) : option verr :=
  let c := derefC h l in
  orNil (InvalidChannel (c_Name c))
    (when (bool_decide (c_Name c = "")) ChannelNameEmpty
     ++ when (bool_decide (c_Package c = None)) ChannelPackageUnset
     ++ when (size (c_Bundles c) =? 0)%nat NoBundles
     ++ (if (0 <? size (c_Bundles c))%nat
         then match validateReplacesChain (channelBundles h c) with Some e => [Msg e] | None => [] end
         else [])
     ++ flat_map (fun '(name, bl) =>
          let b := derefB h bl in
          when (negb (bool_decide (name = b_Name b))) (BundleKeyMismatch name (b_Name b))
          ++ option_list (Bundle_Validate h bl)
          ++ when (negb (bool_decide (b_Channel b = Some l))) (BundleUnlinked (b_Name b)))
        (range (c_Bundles c))
     ++ Deprecation_Validate (c_Deprecation c)).

(** The version strings of a package's bundles, and the bundle names under each. *)
Definition bundleVersions `{RangeOrder} (h : Heap) (p : Package) : gmap string (Version * gset string) :=
  foldl (fun m b =>
      let s := version_string (b_Version b) in
      <[s := (b_Version b, {[b_Name b]} ∪ from_option snd ∅ (m !! s))]> m)
    ∅ (flat_map (fun '(_, cl) => (range (channelBundles h (derefC h cl))).*2) (range (p_Channels p))).

Definition validateUniqueBundleVersions `{RangeOrder} (h : Heap) (p : Package) : option vmsg :=
  let m := bundleVersions h p in
  let versionsSlice := version_sort (range m).*2.*1 in
  let dups := flat_map (fun v =>
      let names := merge_sort String.le (elements (from_option snd ∅ (m !! version_string v))) in
      if (1 <? length names)%nat then [(version_string v, names)] else [])
    versionsSlice in
  match dups with [] => None | _ => Some (DuplicateVersions dups) end.

(** [Icon.Validate] reports nothing: its checks are commented out in the source. *)
Definition Package_Validate `{RangeOrder} (h : Heap) (l : loc) : option verr :=
  let m := derefP h l in
  orNil (InvalidPackage (p_Name m))
    (when (bool_decide (p_Name m = "")) PackageNameEmpty
     ++ when (bool_decide (p_DefaultChannel m = None)) DefaultChannelUnset
     ++ when (size (p_Channels m) =? 0)%nat NoChannels
     ++ flat_map (fun '(name, cl) =>
          let ch := derefC h cl in
          when (negb (bool_decide (name = c_Name ch))) (ChannelKeyMismatch name (c_Name ch))
          ++ option_list (Channel_Validate h cl)
          ++ when (negb (bool_decide (c_Package ch = Some l))) (ChannelUnlinked (c_Name ch)))
        (range (p_Channels m))
     ++ match validateUniqueBundleVersions h m with Some e => [Msg e] | None => [] end
     ++ match p_DefaultChannel m with
        | Some d => when (negb (existsb (fun '(_, cl) => bool_decide (cl = d)) (range (p_Channels m))))
                      (DefaultChannelMissing (c_Name (derefC h d)))
        | None => []
        end
     ++ Deprecation_Validate (p_Deprecation m)).

Definition Model_Validate `{RangeOrder} (h : Heap) (m : Model) : option verr :=
  orNil InvalidIndex
    (flat_map (fun '(name, pl) =>
       when (negb (bool_decide (name = p_Name (derefP h pl)))) (PackageKeyMismatch name (p_Name (derefP h pl)))
       ++ option_list (Package_Validate h pl))
     (range m)).
End model.

(** ** The upgrade graph of a channel *)

Section graph.
Context `{Decoders, SemverLib, RangeOrder}.
Implicit Types (m bundles : gmap string Bundle) (b : Bundle) (n name : string).

(** The map's keys are the bundles' names. *)
Definition keyed bundles : Prop := forall k b, bundles !! k = Some b -> b_Name b = k.

(** [b] leads away from [name]: it replaces it or skips it. *)
Definition edge b name : Prop := (b_Replaces b = name /\ name <> "") \/ name ∈ b_Skips b.

Definition is_head bundles b : Prop :=
  (exists k, bundles !! k = Some b) /\ forall k b', bundles !! k = Some b' -> ~ edge b' (b_Name b).

Definition unique_head bundles b : Prop :=
  is_head bundles b /\ forall b', is_head bundles b' -> b' = b.

(** The names met when following [replaces] from [n], up to one that is not in the channel. *)
Inductive replaces_path m : string -> list string -> Prop :=
  | path_end n : m !! n = None -> replaces_path m n [n]
  | path_step n b l : m !! n = Some b -> replaces_path m (b_Replaces b) l -> replaces_path m n (n :: l).

Definition skipped bundles name : Prop := exists k b, bundles !! k = Some b /\ name ∈ b_Skips b.

Lemma incr_lookup (m : gmap string nat) n k : incr m n !! k = None <-> m !! k = None /\ k <> n.
Proof.
  unfold incr. destruct (decide (n = k)) as [->|Hne].
  - rewrite lookup_partial_alter_eq. naive_solver.
  - rewrite lookup_partial_alter_ne by done. naive_solver.
Qed.

Lemma foldl_incr_lookup (l : list string) (m : gmap string nat) k :
  foldl incr m l !! k = None <-> m !! k = None /\ k ∉ l.
Proof.
  revert m. induction l as [|x l IH]; intros m; simpl; [set_solver|].
  rewrite IH, incr_lookup. set_solver.
Qed.

Lemma addEdges_lookup (m : gmap string nat) b k :
  addEdges m b !! k = None <-> m !! k = None /\ ~ edge b k.
Proof.
  unfold addEdges, edge. rewrite foldl_incr_lookup.
  case_bool_decide; [naive_solver|]. rewrite incr_lookup. split; [|naive_solver].
  intros [[? ?] ?]. split; [done|]. intros [[? ?]|?]; congruence.
Qed.

Lemma foldl_addEdges_lookup (l : list Bundle) (m : gmap string nat) k :
  foldl addEdges m l !! k = None <-> m !! k = None /\ forall b, b ∈ l -> ~ edge b k.
Proof.
  revert m. induction l as [|b l IH]; intros m; simpl; [set_solver|].
  rewrite IH, addEdges_lookup. setoid_rewrite elem_of_cons. naive_solver.
Qed.

(** The list of heads that [Head] computes. *)
Definition headsOf bundles : list Bundle :=
  List.filter (fun b => bool_decide (foldl addEdges ∅ (range bundles).*2 !! b_Name b = None)) (range bundles).*2.

Lemma elem_of_headsOf bundles b : b ∈ headsOf bundles <-> is_head bundles b.
Proof.
  unfold headsOf, is_head. rewrite list_elem_of_In, filter_In, <- list_elem_of_In.
  rewrite bool_decide_eq_true, foldl_addEdges_lookup, elem_of_range_vals.
  setoid_rewrite elem_of_range_vals. rewrite lookup_empty. naive_solver.
Qed.

Lemma NoDup_range_bundles bundles : keyed bundles -> NoDup (b_Name <$> (range bundles).*2).
Proof.
  intros Hk. assert (b_Name <$> (range bundles).*2 = (range bundles).*1) as ->.
  { rewrite <- list_fmap_compose. apply list_fmap_ext. intros i [k b] Hi. simpl.
    apply Hk, elem_of_range. by eapply list_elem_of_lookup_2. }
  apply NoDup_range_keys.
Qed.

Lemma NoDup_headsOf bundles : keyed bundles -> NoDup (headsOf bundles).
Proof.
  intros Hk. unfold headsOf. apply NoDup_ListNoDup, List.NoDup_filter, NoDup_ListNoDup.
  eapply NoDup_fmap_1, NoDup_range_bundles, Hk.
Qed.

Lemma Head_inr bundles b :
  keyed bundles -> Head bundles = inr b <-> unique_head bundles b.
Proof.
  intros Hk. unfold Head, unique_head. fold (headsOf bundles).
  setoid_rewrite <- elem_of_headsOf. pose proof (NoDup_headsOf bundles Hk) as Hnd.
  destruct (headsOf bundles) as [|b1 [|b2 l]] eqn:E; split; intros Hb.
  - done.
  - destruct Hb as [Hb _]. by apply elem_of_nil in Hb.
  - simplify_eq. set_solver.
  - destruct Hb as [Hb _]. apply list_elem_of_singleton in Hb. by subst.
  - done.
  - destruct Hb as [Hb Hu]. exfalso. assert (b1 = b) by (apply Hu; set_solver).
    assert (b2 = b) by (apply Hu; set_solver). subst. apply NoDup_cons in Hnd as [Hn _]. set_solver.
Qed.

(** *** The replaces chain *)

Lemma replaces_path_det m n l l' : replaces_path m n l -> replaces_path m n l' -> l = l'.
Proof.
  intros Hp. revert l'. induction Hp as [n Hn|n b l Hn Hp IH]; intros l' Hp';
    inversion Hp'; simplify_eq; [done|]. f_equal. auto.
Qed.

Lemma replaces_path_suffix m n l x :
  replaces_path m n l -> x ∈ l -> exists l', replaces_path m x l' /\ (length l' <= length l)%nat.
Proof.
  induction 1 as [n Hn|n b l Hn Hp IH]; intros Hx.
  - apply list_elem_of_singleton in Hx as ->. exists [n]. split; [by constructor|done].
  - apply elem_of_cons in Hx as [->|Hx].
    + exists (n :: l). split; [by econstructor|done].
    + destruct (IH Hx) as (l' & ? & ?). exists l'. simpl. split; [done|lia].
Qed.

(** A finite chain has no repetition: the relation is deterministic. *)
Lemma replaces_path_NoDup m n l : replaces_path m n l -> NoDup l.
Proof.
  induction 1 as [n Hn|n b l Hn Hp IH]; [apply NoDup_singleton|].
  apply NoDup_cons. split; [|done]. intros Hin.
  destruct (replaces_path_suffix _ _ _ _ Hp Hin) as (l' & Hp' & Hl).
  assert (l' = n :: l) as -> by (eapply replaces_path_det; [done|]; by econstructor).
  simpl in Hl. lia.
Qed.

Lemma replaces_path_length m n l : replaces_path m n l -> (length l <= S (size m))%nat.
Proof.
  intros Hp. pose proof (replaces_path_NoDup _ _ _ Hp) as Hnd.
  assert (exists l0 z, l = l0 ++ [z] /\ forall x, x ∈ l0 -> is_Some (m !! x)) as (l0 & z & -> & Hdom).
  { clear Hnd. induction Hp as [n Hn|n b l Hn Hp (l0 & z & -> & Hdom)].
    - exists [], n. split; [done|]. by intros x ?%elem_of_nil.
    - exists (n :: l0), z. split; [done|]. intros x [->|?]%elem_of_cons; eauto. }
  apply NoDup_app in Hnd as (Hnd & _ & _). rewrite length_app. simpl.
  assert (length l0 <= size (dom m))%nat; [|rewrite size_dom in *; lia].
  rewrite <- (size_list_to_set (C := gset string)) by done. apply subseteq_size. intros x Hx.
  apply elem_of_dom, Hdom. by apply elem_of_list_to_set in Hx.
Qed.

Lemma chainLoop_sound fuel m n cf (S0 S' : gset string) :
  n ∈ S0 -> chainLoop fuel m (m !! n) cf S0 = inr S' ->
  exists l, replaces_path m n l /\ S' = S0 ∪ list_to_set l.
Proof.
  revert n cf S0. induction fuel as [|fuel IH]; intros n cf S0 Hn; simpl;
    destruct (m !! n) as [b|] eqn:Hb; intros Heq; simplify_eq.
  - exists [n]. split; [by constructor|]. set_solver.
  - case_decide as Hin; [done|]. apply IH in Heq as (l & Hp & ->); [|set_solver].
    exists (n :: l). split; [by econstructor|].
    inversion Hp; subst; set_solver.
  - exists [n]. split; [by constructor|]. set_solver.
Qed.

Lemma chainLoop_complete fuel m n cf (S0 : gset string) l :
  replaces_path m n l -> (length l <= S fuel)%nat ->
  (forall x, x ∈ tail l -> x ∉ S0) -> n ∈ S0 ->
  exists S', chainLoop fuel m (m !! n) cf S0 = inr S'.
Proof.
  intros Hp. revert fuel cf S0. induction Hp as [n Hn|n b l Hn Hp IH]; intros fuel cf S0 Hlen Hfresh HinS; simpl in *.
  - rewrite Hn. destruct fuel; simpl; eauto.
  - rewrite Hn. pose proof (replaces_path_NoDup _ _ _ Hp) as Hnd.
    destruct fuel as [|fuel]; [destruct l; [inversion Hp|simpl in Hlen; lia]|]. simpl.
    assert (b_Replaces b ∈ l) as Hrl by (inversion Hp; set_solver).
    rewrite decide_False by auto. apply IH; [lia| |set_solver].
    intros x Hx. destruct l as [|y l]; [by apply elem_of_nil in Hx|]. simpl in Hx.
    apply not_elem_of_union. split; [|apply Hfresh; by right].
    assert (b_Replaces b = y) as -> by (inversion Hp; done).
    apply NoDup_cons in Hnd as [Hnd _]. set_solver.
Qed.

(** The loop never runs out of fuel: each round inserts a name not seen before, and only a
    name of the channel starts another round. *)
Lemma chainLoop_fuel fuel m cur cf (S0 : gset string) :
  (from_option (fun _ => S (size (dom m ∖ S0))) O cur <= fuel)%nat ->
  chainLoop fuel m cur cf S0 <> inl ChainOutOfFuel.
Proof.
  revert cur cf S0. induction fuel as [|fuel IH]; intros [b|] cf S0 Hf; simpl in *; try done; [lia|].
  case_decide as Hin; [done|]. apply IH.
  destruct (m !! b_Replaces b) as [b'|] eqn:E; simpl; [|lia].
  assert (size (dom m ∖ ({[b_Replaces b]} ∪ S0)) < size (dom m ∖ S0))%nat; [|lia].
  apply subset_size. assert (b_Replaces b ∈ dom m) by (apply elem_of_dom; eauto). set_solver.
Qed.

Lemma elem_of_allBundleNames bundles n :
  keyed bundles -> n ∈ allBundleNames bundles <-> is_Some (bundles !! n).
Proof.
  intros Hk. unfold allBundleNames. rewrite elem_of_list_to_set, list_elem_of_fmap.
  setoid_rewrite elem_of_range_vals. split.
  - intros (b & -> & k & Hb). pose proof (Hk _ _ Hb). subst k. eauto.
  - intros [b Hb]. exists b. split; [symmetry; eauto|eauto].
Qed.

Lemma elem_of_skippedBundles bundles n : n ∈ skippedBundles bundles <-> skipped bundles n.
Proof.
  unfold skippedBundles, skipped. rewrite elem_of_list_to_set, elem_of_flat_map.
  setoid_rewrite elem_of_range_vals. naive_solver.
Qed.

Lemma merge_sort_nil (l : list string) : merge_sort String.le l = [] <-> l = [].
Proof.
  split; [|by intros ->]. intros E. apply Permutation_nil_r.
  rewrite <- (merge_sort_Permutation String.le l). by rewrite E.
Qed.

(** The whole check on a channel whose head is known. *)
Lemma validateReplacesChain_head bundles head :
  keyed bundles -> unique_head bundles head ->
  validateReplacesChain bundles = None <->
  exists l, replaces_path bundles (b_Name head) l /\
    forall n, is_Some (bundles !! n) -> n ∈ l \/ skipped bundles n.
Proof.
  intros Hk Hh. unfold validateReplacesChain.
  rewrite (proj2 (Head_inr bundles head Hk) Hh).
  destruct Hh as [[[k Hkb] _] _]. pose proof (Hk _ _ Hkb) as Hkn. subst k.
  rewrite <- Hkb.
  destruct (chainLoop _ _ _ _ _) as [err|S'] eqn:E.
  - split; [done|]. intros (l & Hp & _). exfalso.
    pose proof (replaces_path_NoDup _ _ _ Hp) as Hnd.
    assert (forall x, x ∈ tail l -> x ∉ ({[b_Name head]} : gset string)) as Hfresh.
    { inversion Hp; subst; simpl; [set_solver|].
      intros x Hx. apply NoDup_cons in Hnd as [Hnd _]. set_solver. }
    destruct (chainLoop_complete (S (size bundles)) bundles (b_Name head) ∅ {[b_Name head]} l)
      as [S' HS']; try done; [|set_solver|congruence].
    pose proof (replaces_path_length _ _ _ Hp). lia.
  - apply chainLoop_sound in E as (l & Hp & ->); [|set_solver].
    assert (b_Name head ∈ l) as Hhl by (inversion Hp; set_solver).
    trans (forall n, is_Some (bundles !! n) -> n ∈ l \/ skipped bundles n).
    + destruct (merge_sort _ _) as [|x xs] eqn:Em.
      * split; [intros _|done]. apply merge_sort_nil, elements_empty_inv in Em.
        intros n Hn. destruct (decide (n ∈ l)); [by left|right].
        apply elem_of_skippedBundles.
        destruct (decide (n ∈ skippedBundles bundles)); [done|exfalso].
        rewrite <- (elem_of_allBundleNames _ _ Hk) in Hn. 
        apply (not_elem_of_empty (C := gset string) n). rewrite <- Em.
        rewrite !elem_of_difference, elem_of_union, elem_of_singleton, elem_of_list_to_set.
        split; [|done]. split; [done|]. by intros [->|?].
      * split; [done|]. intros Hall. exfalso.
        assert (x ∈ merge_sort String.le (elements ((allBundleNames bundles ∖ ({[b_Name head]} ∪ list_to_set l))
          ∖ skippedBundles bundles))) as Hx by (rewrite Em; set_solver).
        rewrite merge_sort_Permutation, elem_of_elements in Hx.
        apply elem_of_difference in Hx as [[Hx1 Hx2]%elem_of_difference Hx3].
        apply (elem_of_allBundleNames _ _ Hk) in Hx1. rewrite elem_of_skippedBundles in Hx3.
        destruct (Hall x Hx1); [|done]. apply Hx2, elem_of_union. right. by apply elem_of_list_to_set.
    + split; [eauto|]. intros (l' & Hp' & Hall).
      by rewrite (replaces_path_det _ _ _ _ Hp Hp').
Qed.

(** *** The reported cycle *)

(** Consecutive names of [l] are linked by [replaces]. *)
Definition walk m (l : list string) : Prop :=
  forall i x y, l !! i = Some x -> l !! S i = Some y -> exists b, m !! x = Some b /\ b_Replaces b = y.

Lemma walk_snoc m l n b :
  walk m l -> last l = Some n -> m !! n = Some b -> walk m (l ++ [b_Replaces b]).
Proof.
  intros Hw Hl Hb i x y Hx Hy. apply lookup_app_Some in Hy as [Hy|[Hlen Hy]].
  - apply (Hw i); [|done]. rewrite lookup_app_l in Hx; [done|]. apply lookup_lt_Some in Hy. lia.
  - rewrite last_lookup in Hl. assert (i = pred (length l)) as ->.
    { apply lookup_lt_Some in Hy. simpl in Hy. destruct l; simpl in *; [done|lia]. }
    rewrite lookup_app_l, Hl in Hx by (destruct l; simpl in *; [done|lia]).
    replace (S (pred (length l)) - length l)%nat with O in Hy by (destruct l; simpl in *; [done|lia]).
    simplify_eq/=. eauto.
Qed.

(** [chainFrom] holds, for every name already left, the walk from it to the current name. *)
Definition chainFrom_inv m (cf : gmap string (list string)) (S0 : gset string) n : Prop :=
  S0 ≡ {[n]} ∪ dom cf /\
  forall x l, cf !! x = Some l -> walk m l /\ head l = Some x /\ last l = Some n /\ (2 <= length l)%nat.

Lemma chainLoop_cycle fuel m n cf (S0 : gset string) c :
  keyed m -> chainFrom_inv m cf S0 n ->
  chainLoop fuel m (m !! n) cf S0 = inl (ReplacesCycle c) ->
  exists r, walk m c /\ head c = Some r /\ last c = Some r /\ (2 <= length c)%nat.
Proof.
  intros Hk. revert n cf S0. induction fuel as [|fuel IH]; intros n cf S0 [HS Hcf]; simpl;
    destruct (m !! n) as [b|] eqn:Hb; try done.
  pose proof (Hk _ _ Hb) as Hn. rewrite Hn.
  set (cf1 := match cf !! n with Some _ => cf | None => <[n := [n]]> cf end).
  assert (forall x l, cf1 !! x = Some l -> walk m l /\ head l = Some x /\ last l = Some n) as Hcf1.
  { subst cf1. destruct (cf !! n) eqn:E; [naive_solver|]. intros x l [[<- <-]|[? Hx]]%lookup_insert_Some.
    - split; [|done]. intros i x y Hx Hy. destruct i; done.
    - naive_solver. }
  assert (dom cf1 ≡ S0) as Hdom.
  { subst cf1. destruct (cf !! n) eqn:E.
    - assert (n ∈ dom cf) by (apply elem_of_dom; eauto). set_solver.
    - rewrite dom_insert. set_solver. }
  assert (forall x l, (((fun l => l ++ [b_Replaces b]) <$> cf1) : gmap _ _) !! x = Some l ->
     walk m l /\ head l = Some x /\ last l = Some (b_Replaces b) /\ (2 <= length l)%nat) as Hcf2.
  { intros x l. rewrite lookup_fmap. destruct (cf1 !! x) as [l1|] eqn:E; simpl; intros; simplify_eq.
    destruct (Hcf1 _ _ E) as (Hw & Hh & Hl). split; [by eapply walk_snoc|]. split.
    - destruct l1; [done|]. done.
    - rewrite last_snoc. split; [done|]. rewrite length_app. destruct l1; simpl in *; [done|lia]. }
  case_decide as Hin; intros Heq.
  - injection Heq as <-. destruct (cf1 !! b_Replaces b) as [l|] eqn:E.
    + exists (b_Replaces b). rewrite lookup_fmap, E. simpl.
      apply (Hcf2 (b_Replaces b)). by rewrite lookup_fmap, E.
    + exfalso. rewrite <- Hdom in Hin. apply elem_of_dom in Hin as [? ?]. congruence.
  - eapply (IH (b_Replaces b)); [|exact Heq]. split; [|exact Hcf2].
    rewrite dom_fmap, Hdom. done.
Qed.

End graph.

(** ** Properties *)

(** The replaces chain of a channel is accepted exactly when the channel has one head
    and following [replaces] from it ends, having met every entry that no entry skips: the
    rules 1 to 4 of the function's comment. *)
Theorem validateReplacesChain_iff `{Decoders, SemverLib, RangeOrder} (bundles : gmap string Bundle) :
  keyed bundles ->
  validateReplacesChain bundles = None <->
  exists head l, unique_head bundles head /\ replaces_path bundles (b_Name head) l /\
    forall n, is_Some (bundles !! n) -> n ∈ l \/ skipped bundles n.
Proof.
  intros Hk. destruct (Head bundles) as [err|head] eqn:E.
  - split.
    + unfold validateReplacesChain. by rewrite E.
    + intros (head & l & Hh & _). apply (Head_inr _ _ Hk) in Hh. congruence.
  - apply (Head_inr _ _ Hk) in E as Hh. rewrite (validateReplacesChain_head _ _ Hk Hh). split.
    + intros (l & ? & ?). eauto.
    + intros (head' & l & Hh' & ? & ?). destruct Hh as [Hh Hu]. rewrite <- (Hu head') by apply Hh'. eauto.
Qed.

(** Concrete instances of the parameters: a package property is encoded as ["name@version"],
    and a version is its string. *)
Definition demo_decoders : Decoders := {|
  CSVMetadata := unit;
  decPackage v := (fun '(n, ver) => mkPackageProp n ver) <$> Cut "@"%char v;
  decPackageRequired _ := None; decGVK _ := None; decGVKRequired _ := None;
  decBundleObject v := Some v; decCSVMetadata _ := Some tt; decChannel _ := None;
  decRaw v := Some v; jsonMarshal v := Some v
|}.

Definition demo_semver : SemverLib := {|
  Version := string; version_zero := "0.0.0"; version_parse v := Some v; version_string v := v;
  version_sort l := l; version_sort_perm l := Permutation_refl l
|}.

Definition demo_bundle (name replaces : string) (skips : list string) : @Bundle demo_decoders demo_semver :=
  @mkBundle demo_decoders demo_semver (Some 0) (Some 0) name ("quay.io/" +:+ name) replaces skips ""
    [mkProperty TypePackage ("etcd@" +:+ name)] [] None [] "" None name.

Definition demo_channel : gmap string (@Bundle demo_decoders demo_semver) :=
  list_to_map ((fun b => (b_Name b, b)) <$>
    [demo_bundle "v3" "v1" ["v2"]; demo_bundle "v2" "v1" []; demo_bundle "v1" "v0" []]).

Lemma demo_channel_keyed : @keyed demo_decoders demo_semver demo_channel.
Proof.
  intros k b Hb. unfold demo_channel in Hb. apply elem_of_list_to_map in Hb.
  - simpl in Hb. repeat (apply elem_of_cons in Hb as [[= -> ->]|Hb]; [reflexivity|]). by apply elem_of_nil in Hb.
  - apply (bool_decide_unpack _). vm_compute. exact I.
Qed.

Lemma validateReplacesChain_iff_witness :
  exists head l, @unique_head demo_decoders demo_semver demo_channel head /\
    @replaces_path demo_decoders demo_semver demo_channel (b_Name head) l /\
    forall n, is_Some (demo_channel !! n) -> n ∈ l \/ @skipped demo_decoders demo_semver demo_channel n.
Proof.
  apply (@validateReplacesChain_iff demo_decoders demo_semver canonical_order demo_channel).
  - apply demo_channel_keyed.
  - vm_compute. reflexivity.
Defined.

(** The loop that follows the replaces chain ends on every channel, cyclic ones included:
    one round per bundle and one more is always enough. *)
Theorem validateReplacesChain_terminates `{Decoders, SemverLib, RangeOrder} (bundles : gmap string Bundle) :
  validateReplacesChain bundles <> Some ChainOutOfFuel.
Proof.
  unfold validateReplacesChain. destruct (Head bundles) as [err|head] eqn:E.
  - unfold Head in E. repeat case_one; naive_solver.
  - destruct (chainLoop _ _ _ _ _) as [err|S'] eqn:El.
    + intros [= ->]. eapply chainLoop_fuel; [|exact El]. simpl.
      apply le_n_S. rewrite <- size_dom. apply subseteq_size. set_solver.
    + destruct (merge_sort _ _); naive_solver.
Qed.

(** When a cycle is reported, the reported chain of names is a cycle of the channel: it
    starts and ends with the same name and each name is replaced by the one before it. *)
Theorem validateReplacesChain_cycle `{Decoders, SemverLib, RangeOrder}
    (bundles : gmap string Bundle) (c : list string) :
  keyed bundles ->
  validateReplacesChain bundles = Some (ReplacesCycle c) ->
  exists r, walk bundles c /\ head c = Some r /\ last c = Some r /\ (2 <= length c)%nat.
Proof.
  intros Hk. unfold validateReplacesChain. destruct (Head bundles) as [err|hd] eqn:E.
  - unfold Head in E. repeat case_one; naive_solver.
  - apply (Head_inr _ _ Hk) in E as [[[k Hb] _] _]. pose proof (Hk _ _ Hb). subst k.
    rewrite <- Hb.
    destruct (chainLoop _ _ _ _ _) as [err|S'] eqn:El; [|destruct (merge_sort _ _); naive_solver].
    intros [= ->]. eapply chainLoop_cycle; [done| |exact El].
    split; [|intros x l Hx; by rewrite lookup_empty in Hx].
    rewrite dom_empty. set_solver.
Qed.

Definition demo_cyclic : gmap string (@Bundle demo_decoders demo_semver) :=
  list_to_map ((fun b => (b_Name b, b)) <$>
    [demo_bundle "v3" "v2" []; demo_bundle "v2" "v1" []; demo_bundle "v1" "v2" []]).

Lemma validateReplacesChain_cycle_witness :
  exists r, @walk demo_decoders demo_semver demo_cyclic ["v2"; "v1"; "v2"] /\
    head ["v2"; "v1"; "v2"] = Some r /\ last ["v2"; "v1"; "v2"] = Some r /\ (2 <= 3)%nat.
Proof.
  apply (@validateReplacesChain_cycle demo_decoders demo_semver canonical_order demo_cyclic).
  - intros k b Hb. unfold demo_cyclic in Hb. apply elem_of_list_to_map in Hb.
    + simpl in Hb. repeat (apply elem_of_cons in Hb as [[= -> ->]|Hb]; [reflexivity|]). by apply elem_of_nil in Hb.
    + apply (bool_decide_unpack _). vm_compute. exact I.
  - vm_compute. reflexivity.
Defined.

(** ** What validation establishes *)

Section validate.
Context `{Decoders, SemverLib, RangeOrder}.

(** The abstract description of a valid bundle, channel, package and index. *)
Definition valid_deprecation (d : option string) : Prop := d <> Some "".

Definition valid_bundle (h : Heap) (b : Bundle) : Prop :=
  b_Name b <> "" /\
  (exists cl pl, b_Channel b = Some cl /\ b_Package b = Some pl /\ c_Package (derefC h cl) = Some pl) /\
  (exists props pp, Parse (b_Properties b) = inr props /\ Packages props = [pp]) /\
  "" ∉ b_Skips b /\
  (b_Image b <> "" \/ b_Objects b <> []) /\
  valid_deprecation (b_Deprecation b).

Definition valid_graph (bundles : gmap string Bundle) : Prop :=
  exists head l, unique_head bundles head /\ replaces_path bundles (b_Name head) l /\
    forall n, is_Some (bundles !! n) -> n ∈ l \/ skipped bundles n.

Definition valid_channel (h : Heap) (cl : loc) : Prop :=
  let c := derefC h cl in
  c_Name c <> "" /\ c_Package c <> None /\ c_Bundles c <> ∅ /\
  valid_graph (channelBundles h c) /\
  (forall name bl, c_Bundles c !! name = Some bl ->
     b_Name (derefB h bl) = name /\ b_Channel (derefB h bl) = Some cl /\ valid_bundle h (derefB h bl)) /\
  valid_deprecation (c_Deprecation c).

(** [b] is a bundle of one of the package's channels. *)
Definition bundle_of (h : Heap) (p : Package) (b : Bundle) : Prop :=
  exists ch cl name bl, p_Channels p !! ch = Some cl /\ c_Bundles (derefC h cl) !! name = Some bl /\ b = derefB h bl.

Definition unique_versions (h : Heap) (p : Package) : Prop :=
  forall b b', bundle_of h p b -> bundle_of h p b' ->
    version_string (b_Version b) = version_string (b_Version b') -> b_Name b = b_Name b'.

Definition valid_package (h : Heap) (pl : loc) : Prop :=
  let p := derefP h pl in
  p_Name p <> "" /\
  (exists d ch, p_DefaultChannel p = Some d /\ p_Channels p !! ch = Some d) /\
  (forall ch cl, p_Channels p !! ch = Some cl ->
     c_Name (derefC h cl) = ch /\ c_Package (derefC h cl) = Some pl /\ valid_channel h cl) /\
  unique_versions h p /\
  valid_deprecation (p_Deprecation p).

Definition valid_model (h : Heap) (m : Model) : Prop :=
  forall name pl, m !! name = Some pl -> p_Name (derefP h pl) = name /\ valid_package h pl.

Lemma orNil_None s subs : orNil s subs = None <-> subs = [].
Proof. destruct subs; naive_solver. Qed.

Lemma option_list_nil {A} (o : option A) : option_list o = [] <-> o = None.
Proof. destruct o; naive_solver. Qed.

Lemma when_nil b m : when b m = [] <-> b = false.
Proof. destruct b; naive_solver. Qed.

Lemma when_nil_neg (P : Prop) `{Decision P} m : when (negb (bool_decide P)) m = [] <-> P.
Proof. rewrite when_nil, negb_false_iff. apply bool_decide_eq_true. Qed.

Lemma when_nil_pos (P : Prop) `{Decision P} m : when (bool_decide P) m = [] <-> ~ P.
Proof. rewrite when_nil. apply bool_decide_eq_false. Qed.

Lemma flat_map_nil {A B} (f : A -> list B) l : flat_map f l = [] <-> forall x, x ∈ l -> f x = [].
Proof.
  induction l as [|x l IH]; simpl; [set_solver|]. rewrite app_nil, IH. set_solver.
Qed.

Lemma range_flat_map_nil {V B} (f : string * V -> list B) (m : gmap string V) :
  flat_map f (range m) = [] <-> forall k v, m !! k = Some v -> f (k, v) = [].
Proof.
  rewrite flat_map_nil. split.
  - intros Hf k v Hkv. apply Hf. by apply elem_of_range.
  - intros Hf [k v] Hin. apply Hf. by apply elem_of_range.
Qed.

Lemma Deprecation_Validate_nil d : Deprecation_Validate d = [] <-> valid_deprecation d.
Proof.
  unfold valid_deprecation. destruct d; simpl; [|naive_solver]. rewrite when_nil_pos. naive_solver.
Qed.

Lemma emptySkips_nil (l : list string) :
  concat (imap (fun i skip => when (bool_decide (skip = "")) (EmptySkip i)) l) = [] <-> "" ∉ l.
Proof.
  assert (forall (f : nat -> nat), concat (imap ((fun i skip => when (bool_decide (skip = "")) (EmptySkip i)) ∘ f) l) = [] <-> "" ∉ l) as Hf;
    [|exact (Hf id)].
  induction l as [|x l IH]; intros f; simpl; [set_solver|].
  specialize (IH (f ∘ S)). unfold compose in *. rewrite app_nil, when_nil_pos, IH. set_solver.
Qed.

Lemma length_one {A} (l : list A) : (length l =? 1)%nat = true <-> exists x, l = [x].
Proof. destruct l as [|x [|y l]]; simpl; naive_solver. Qed.

Lemma Bundle_Validate_None h bl : Bundle_Validate h bl = None <-> valid_bundle h (derefB h bl).
Proof.
  unfold Bundle_Validate, valid_bundle. set (b := derefB h bl). rewrite orNil_None, !app_nil.
  rewrite !when_nil_pos, emptySkips_nil, Deprecation_Validate_nil, when_nil.
  assert (bool_decide (b_Image b = "") && (length (b_Objects b) =? 0)%nat = false
          <-> b_Image b <> "" \/ b_Objects b <> []) as ->.
  { rewrite andb_false_iff, bool_decide_eq_false, Nat.eqb_neq, length_zero_iff_nil. done. }
  destruct (b_Channel b) as [cl|], (b_Package b) as [pl|]; try naive_solver.
  rewrite when_nil_neg.
  destruct (Parse (b_Properties b)) as [e|props]; [naive_solver|].
  rewrite when_nil, negb_false_iff, length_one. split; [|naive_solver].
  intros (? & _ & _ & ? & _ & ? & [pp ?] & ? & ?). repeat split; try done; eauto.
Qed.

(** *** Unique versions *)

Definition versionStep (m : gmap string (Version * gset string)) (b : Bundle) : gmap string (Version * gset string) :=
  let s := version_string (b_Version b) in
  <[s := (b_Version b, {[b_Name b]} ∪ from_option snd ∅ (m !! s))]> m.

Lemma versionFold_lookup (l : list Bundle) (m : gmap string (Version * gset string)) :
  (forall s v ns, m !! s = Some (v, ns) -> version_string v = s) ->
  forall s,
    (forall v ns, foldl versionStep m l !! s = Some (v, ns) -> version_string v = s) /\
    from_option snd ∅ (foldl versionStep m l !! s) ≡
      from_option snd ∅ (m !! s) ∪
      list_to_set (b_Name <$> List.filter (fun b => bool_decide (version_string (b_Version b) = s)) l) /\
    (is_Some (foldl versionStep m l !! s) <->
       is_Some (m !! s) \/ exists b, b ∈ l /\ version_string (b_Version b) = s).
Proof.
  revert m. induction l as [|b l IH]; intros m Hm s; simpl.
  - split; [eauto|]. split; [set_solver|]. set_solver.
  - destruct (IH (versionStep m b)) with (s := s) as (IH1 & IH2 & IH3).
    { intros s' v ns. unfold versionStep. intros [[<- [= <- <-]]|[? ?]]%lookup_insert_Some; eauto. }
    split; [done|]. split.
    + rewrite IH2. unfold versionStep. case_bool_decide as Hs; simpl.
      * rewrite Hs, lookup_insert_eq. simpl. set_solver.
      * by rewrite lookup_insert_ne.
    + rewrite IH3. unfold versionStep. setoid_rewrite elem_of_cons.
      destruct (decide (version_string (b_Version b) = s)) as [Hs|Hs].
      * rewrite Hs, lookup_insert_eq. naive_solver.
      * rewrite lookup_insert_ne by done. naive_solver.
Qed.

Definition packageBundleList (h : Heap) (p : Package) : list Bundle :=
  flat_map (fun '(_, cl) => (range (channelBundles h (derefC h cl))).*2) (range (p_Channels p)).

Lemma elem_of_packageBundleList h p b : b ∈ packageBundleList h p <-> bundle_of h p b.
Proof.
  unfold packageBundleList, bundle_of. rewrite elem_of_flat_map. split.
  - intros ([ch cl] & Hc%elem_of_range & [name Hb]%elem_of_range_vals).
    unfold channelBundles in Hb. rewrite lookup_fmap in Hb.
    destruct (c_Bundles (derefC h cl) !! name) as [bl|] eqn:E; simplify_eq/=. by exists ch, cl, name, bl.
  - intros (ch & cl & name & bl & Hc & Hb & ->). exists (ch, cl). split; [by apply elem_of_range|].
    apply elem_of_range_vals. exists name. unfold channelBundles. by rewrite lookup_fmap, Hb.
Qed.

Lemma size_le_1 (X : gset string) : (size X <= 1)%nat <-> forall x y, x ∈ X -> y ∈ X -> x = y.
Proof.
  split.
  - intros Hs x y Hx Hy. destruct (decide (x = y)); [done|].
    assert (size ({[x; y]} : gset string) <= size X)%nat as Hle by (apply subseteq_size; set_solver).
    rewrite size_union, !size_singleton in Hle by set_solver. lia.
  - intros Hall. destruct (set_choose_or_empty X) as [[x Hx]|He].
    + assert (X ⊆ {[x]}) as Hsub%subseteq_size by (intros y Hy; rewrite (Hall y x) by done; set_solver).
      by rewrite size_singleton in Hsub.
    + apply size_empty_iff in He. lia.
Qed.

Lemma validateUniqueBundleVersions_None h p :
  validateUniqueBundleVersions h p = None <-> unique_versions h p.
Proof.
  unfold validateUniqueBundleVersions, unique_versions. setoid_rewrite <- elem_of_packageBundleList.
  change (bundleVersions h p) with (foldl versionStep ∅ (packageBundleList h p)).
  set (L := packageBundleList h p). set (M := foldl versionStep ∅ L).
  assert (forall s, (forall v ns, M !! s = Some (v, ns) -> version_string v = s) /\
    (forall n, n ∈ (from_option snd ∅ (M !! s) : gset string) <->
       exists b, b ∈ L /\ version_string (b_Version b) = s /\ b_Name b = n) /\
    (is_Some (M !! s) <-> exists b, b ∈ L /\ version_string (b_Version b) = s)) as HM.
  { intros s. destruct (versionFold_lookup L ∅) with (s := s) as (H1' & H2' & H3').
    { intros ? ? ? E. by rewrite lookup_empty in E. }
    fold M in H1', H2', H3'. rewrite lookup_empty in H2', H3'. split; [done|]. split.
    - intros n. rewrite H2'. simpl. rewrite elem_of_union, elem_of_list_to_set, list_elem_of_fmap.
      setoid_rewrite list_elem_of_In. setoid_rewrite filter_In. setoid_rewrite <- list_elem_of_In.
      setoid_rewrite bool_decide_eq_true. set_solver.
    - rewrite H3'. split; [|by right]. intros [[? ?]|?]; done. }
  set (dups := flat_map _ _). trans (dups = []); [destruct dups; naive_solver|].
  unfold dups. rewrite flat_map_nil. setoid_rewrite version_sort_perm.
  trans (forall v, v ∈ (range M).*2.*1 -> (size (from_option snd ∅ (M !! version_string v) : gset string) <= 1)%nat).
  { apply forall_proper. intros v. apply imp_iff_compat_l.
    rewrite merge_sort_Permutation. change (length (elements ?X)) with (size X).
    destruct (1 <? size (from_option snd ∅ (M !! version_string v) : gset string))%nat eqn:E.
    - apply Nat.ltb_lt in E. split; [done|lia].
    - apply Nat.ltb_ge in E. done. }
  setoid_rewrite size_le_1. split.
  - intros Hv b b' Hb Hb' Heq. destruct (HM (version_string (b_Version b))) as (Hstr & Hns & Hdom).
    assert (is_Some (M !! version_string (b_Version b))) as [[v ns] Hl] by (apply Hdom; eauto).
    apply (Hv v).
    + apply list_elem_of_fmap. exists (v, ns). split; [done|]. apply elem_of_range_vals. eauto.
    + rewrite (Hstr _ _ Hl). apply Hns. eauto.
    + rewrite (Hstr _ _ Hl). apply Hns. eauto.
  - intros Hu v _ x y Hx Hy. destruct (HM (version_string v)) as (_ & Hns & _).
    apply Hns in Hx as (b & ? & ? & <-), Hy as (b' & ? & ? & <-). apply Hu; congruence.
Qed.
(** *** Channels, packages, the index *)

Lemma channelBundles_keyed h c :
  (forall name bl, c_Bundles c !! name = Some bl -> b_Name (derefB h bl) = name) ->
  keyed (channelBundles h c).
Proof.
  intros Hk k b. unfold channelBundles. rewrite lookup_fmap.
  destruct (c_Bundles c !! k) as [bl|] eqn:E; intros; simplify_eq/=. eauto.
Qed.

Lemma validateReplacesChain_keyed (bundles : gmap string Bundle) :
  keyed bundles -> validateReplacesChain bundles = None <-> valid_graph bundles.
Proof.
  intros Hk. unfold valid_graph. destruct (Head bundles) as [err|hd] eqn:E.
  - split; [unfold validateReplacesChain; by rewrite E|].
    intros (head & l & Hh & _). apply (Head_inr _ _ Hk) in Hh. congruence.
  - apply (Head_inr _ _ Hk) in E. rewrite (validateReplacesChain_head _ _ Hk E). split; [naive_solver|].
    intros (head' & l & Hh' & ? & ?). destruct E as [_ Hu]. rewrite <- (Hu head') by apply Hh'. eauto.
Qed.

Lemma Channel_Validate_None h cl : Channel_Validate h cl = None <-> valid_channel h cl.
Proof.
  unfold Channel_Validate, valid_channel. set (c := derefC h cl).
  rewrite orNil_None, !app_nil, !when_nil_pos, when_nil, Deprecation_Validate_nil, range_flat_map_nil.
  rewrite Nat.eqb_neq, map_size_empty_iff. simpl.
  setoid_rewrite app_nil. setoid_rewrite app_nil. setoid_rewrite when_nil_neg.
  setoid_rewrite option_list_nil. setoid_rewrite Bundle_Validate_None.
  assert (c_Bundles c <> ∅ -> (forall name bl, c_Bundles c !! name = Some bl -> b_Name (derefB h bl) = name) ->
    (if (0 <? size (c_Bundles c))%nat
     then match validateReplacesChain (channelBundles h c) with Some e => [Msg e] | None => [] end
     else []) = [] <-> valid_graph (channelBundles h c)) as Hchain.
  { intros Hne Hk. assert (size (c_Bundles c) <> O) by (by rewrite map_size_empty_iff).
    destruct (0 <? size (c_Bundles c))%nat eqn:E; [|apply Nat.ltb_ge in E; lia].
    rewrite <- (validateReplacesChain_keyed _ (channelBundles_keyed _ _ Hk)).
    by destruct (validateReplacesChain _). }
  split.
  - intros (? & ? & ? & Hg & Hb & ?).
    assert (valid_graph (channelBundles h c)).
    { apply Hchain; [done| |done]. intros name bl Hbl. by destruct (Hb name bl Hbl). }
    split_and!; try done. intros name bl Hbl. destruct (Hb name bl Hbl) as (? & ? & ?). auto.
  - intros (? & ? & ? & Hg & Hb & ?). split_and!; try done.
    + apply Hchain; [done| |done]. intros name bl Hbl. by destruct (Hb name bl Hbl).
    + intros name bl Hbl. destruct (Hb name bl Hbl) as (? & ? & ?). auto.
Qed.

Lemma default_channel_found h p d :
  when (negb (existsb (fun '(_, cl) => bool_decide (cl = d)) (range (p_Channels p))))
    (DefaultChannelMissing (c_Name (derefC h d))) = [] <-> exists ch, p_Channels p !! ch = Some d.
Proof.
  rewrite when_nil, negb_false_iff, existsb_elem_of. split.
  - intros ([ch cl] & Hin%elem_of_range & E). bools. subst. eauto.
  - intros [ch Hch]. exists (ch, d). rewrite elem_of_range. split; [done|]. by apply bool_decide_true.
Qed.

Lemma Package_Validate_None h pl : Package_Validate h pl = None <-> valid_package h pl.
Proof.
  unfold Package_Validate, valid_package. set (p := derefP h pl).
  rewrite orNil_None, !app_nil, !when_nil_pos, when_nil, Deprecation_Validate_nil, range_flat_map_nil.
  rewrite Nat.eqb_neq, map_size_empty_iff. simpl.
  setoid_rewrite app_nil. setoid_rewrite app_nil. setoid_rewrite when_nil_neg.
  setoid_rewrite option_list_nil. setoid_rewrite Channel_Validate_None.
  rewrite <- validateUniqueBundleVersions_None.
  destruct (p_DefaultChannel p) as [d|].
  - rewrite default_channel_found. split.
    + intros (? & _ & _ & Hch & Huv & Hd & ?). split_and!; try done.
      * naive_solver.
      * intros ch cl Hcl. destruct (Hch ch cl Hcl) as (? & ? & ?). auto.
      * by destruct (validateUniqueBundleVersions h p).
    + intros (? & (d' & ch & [= <-] & Hd) & Hch & Huv & ?). rewrite Huv. split_and!; try done.
      * intros E. by rewrite E, lookup_empty in Hd.
      * intros ch' cl Hcl. destruct (Hch ch' cl Hcl) as (? & ? & ?). auto.
      * eauto.
  - naive_solver.
Qed.

Lemma Model_Validate_None h m : Model_Validate h m = None <-> valid_model h m.
Proof.
  unfold Model_Validate, valid_model. rewrite orNil_None, range_flat_map_nil. simpl.
  setoid_rewrite app_nil. setoid_rewrite when_nil_neg. setoid_rewrite option_list_nil.
  setoid_rewrite Package_Validate_None. naive_solver.
Qed.
End validate.

(** [Model.Validate] accepts exactly the well-formed indexes: objects linked to their
    parents and filed under their names, a default channel among the channels, every
    channel's upgrade graph valid, no two bundle names under one version, one package
    property per bundle. *)
Theorem Model_Validate_iff `{Decoders, SemverLib, RangeOrder} (h : Heap) (m : Model) :
  Model_Validate h m = None <-> valid_model h m.
Proof. apply Model_Validate_None. Qed.
