(* ===== verification/DeclcfgToModel.v ===== *)
(** * From a declarative config to the catalog model

    Models [staging/operator-registry/alpha/declcfg/declcfg_to_model.go] ([ConvertToModel]),
    the configuration types of [declcfg.go], and [Model.Normalize] and [Model.AddBundle] of
    [alpha/model/model.go].  The conversion allocates the packages, channels and bundles in
    the heap of [CatalogModel] and updates them in place, as the source does through shared
    pointers. *)

From S2P Require Import Prelude GoStrings CatalogModel.

(** ** The configuration (declcfg.go) *)

Record ChannelEntry := mkEntry { ce_Name : string; ce_Replaces : string; ce_Skips : list string; ce_SkipRange : string }.

Record CfgPackage := mkCfgPackage {
  cp_Name : string; cp_DefaultChannel : string; cp_Icon : option Icon; cp_Description : string
}.

Record CfgChannel := mkCfgChannel {
  cc_Name : string; cc_Package : string; cc_Entries : list ChannelEntry; cc_Properties : list Property
}.

Record CfgBundle := mkCfgBundle {
  cb_Name : string; cb_Package : string; cb_Image : string; cb_Properties : list Property;
  cb_RelatedImages : list RelatedImage; cb_CsvJSON : string; cb_Objects : list string
}.

(** [PackageScopedReference]: schema and name. *)
Record DeprecationEntry := mkDepEntry { de_Schema : string; de_RefName : string; de_Message : string }.
Record CfgDeprecation := mkCfgDeprecation { cd_Package : string; cd_Entries : list DeprecationEntry }.

Record DeclarativeConfig := mkConfig {
  cfg_Packages : list CfgPackage;
  cfg_Channels : list CfgChannel;
  cfg_Bundles : list CfgBundle;
  cfg_Deprecations : list CfgDeprecation
}.

Definition SchemaPackage : string := "olm.package".
Definition SchemaChannel : string := "olm.channel".
Definition SchemaBundle : string := "olm.bundle".

Inductive cfgError :=
  | PackageNoName | DuplicatePackage (name : string) | InvalidPackageName (name : string)
  | UnknownChannelPackage (pkg ch : string) | ChannelNoName (pkg : string)
  | DuplicateChannel (pkg ch : string) | DuplicateEntry (pkg ch entry : string)
  | BundleNoPackage (b : string) | UnknownBundlePackage (pkg b : string) | DuplicateBundle (pkg b : string)
  | BundleProperties (b : string) (idx : nat) | BundlePackageProperties (b : string) (found : nat)
  | BundlePackagePropertyMismatch (pkg prop : string) | BundleVersion (b raw : string)
  | BundleNotInChannels (pkg b : string)
  | NoBundleBlobs (pkg : string) (entries : list string)
  | DeprecationNoPackage (i : nat) | DeprecationUnknownPackage (pkg : string) | DeprecationDuplicate (pkg : string)
  | DeprecationNoSchema (j : nat) | DeprecationDuplicateEntry (schema name : string)
  | DeprecationBundleNotFound (pkg b : string) | DeprecationChannelNotFound (pkg ch : string)
  | DeprecationPackageNamed (pkg name : string) | DeprecationUnknownSchema (schema : string)
  | InvalidModel (e : verr).

(** [validation.IsDNS1123Label] of k8s.io/apimachinery. *)
Class NameRules := { isDNS1123Label : string -> bool }.

(** ** The conversion *)

Section convert.
Context `{Decoders, SemverLib, NameRules, RangeOrder}.

(** The local variables of [ConvertToModel]. *)
Record cvt := mkCvt {
  s_heap : Heap;
  s_mpkgs : Model;
  s_defaultChannels : gmap string string;
  s_channelDefinedEntries : gmap string (gset string);
  s_packageBundles : gmap string (gset string)
}.

Definition setBundle (h : Heap) (l : loc) (b : Bundle) : Heap :=
  mkHeap (h_packages h) (h_channels h) (<[l := b]> (h_bundles h)).
Definition setChannel (h : Heap) (l : loc) (c : Channel) : Heap :=
  mkHeap (h_packages h) (<[l := c]> (h_channels h)) (h_bundles h).
Definition setPackage (h : Heap) (l : loc) (p : Package) : Heap :=
  mkHeap (<[l := p]> (h_packages h)) (h_channels h) (h_bundles h).
Definition allocPackage (h : Heap) (p : Package) : Heap * loc :=
  (mkHeap (h_packages h ++ [p]) (h_channels h) (h_bundles h), length (h_packages h)).
Definition allocChannel (h : Heap) (c : Channel) : Heap * loc :=
  (mkHeap (h_packages h) (h_channels h ++ [c]) (h_bundles h), length (h_channels h)).
Definition allocBundle (h : Heap) (b : Bundle) : Heap * loc :=
  (mkHeap (h_packages h) (h_channels h) (h_bundles h ++ [b]), length (h_bundles h)).

(** [for _, p := range cfg.Packages] *)
Definition addPackage (st : cvt) (p : CfgPackage) : cfgError + cvt :=
  if bool_decide (cp_Name p = "") then inl PackageNoName
  else match s_mpkgs st !! cp_Name p with
  | Some _ => inl (DuplicatePackage (cp_Name p))
  | None =>
      if negb (isDNS1123Label (cp_Name p)) then inl (InvalidPackageName (cp_Name p))
      else
        let '(h, l) := allocPackage (s_heap st)
          (mkPackage (cp_Name p) (cp_Description p) (cp_Icon p) None ∅ None) in
        inr (mkCvt h (<[cp_Name p := l]> (s_mpkgs st))
               (<[cp_Name p := cp_DefaultChannel p]> (s_defaultChannels st))
               (s_channelDefinedEntries st) (s_packageBundles st))
  end.

(** [for _, entry := range c.Entries]: the bundles allocated for the entries and the channel's
    bundle map, with [cde]. *)
Definition addEntry (pl cl : loc) (pkg ch : string) (acc : Heap * gmap string loc * gset string) (entry : ChannelEntry)
  : cfgError + (Heap * gmap string loc * gset string) :=
  let '(h, bmap, cde) := acc in
  match bmap !! ce_Name entry with
  | Some _ => inl (DuplicateEntry pkg ch (ce_Name entry))
  | None =>
      let '(h', l) := allocBundle h
        (mkBundle (Some pl) (Some cl) (ce_Name entry) "" (ce_Replaces entry) (ce_Skips entry)
           (ce_SkipRange entry) [] [] None [] "" None version_zero) in
      inr (h', <[ce_Name entry := l]> bmap, {[ce_Name entry]} ∪ cde)
  end.

(** [for _, c := range cfg.Channels].  The channel is allocated first: its entries point at it. *)
Definition addChannel (st : cvt) (c : CfgChannel) : cfgError + cvt :=
  match s_mpkgs st !! cc_Package c with
  | None => inl (UnknownChannelPackage (cc_Package c) (cc_Name c))
  | Some pl =>
      let mpkg := derefP (s_heap st) pl in
      if bool_decide (cc_Name c = "") then inl (ChannelNoName (cc_Package c))
      else match p_Channels mpkg !! cc_Name c with
      | Some _ => inl (DuplicateChannel (cc_Package c) (cc_Name c))
      | None =>
          let '(h, cl) := allocChannel (s_heap st) (mkChannel (Some pl) (cc_Name c) ∅ None (cc_Properties c)) in
          match foldE (addEntry pl cl (cc_Package c) (cc_Name c)) (h, ∅, ∅) (cc_Entries c) with
          | inl e => inl e
          | inr (h, bmap, cde) =>
              let h := setChannel h cl (mkChannel (Some pl) (cc_Name c) bmap None (cc_Properties c)) in
              let isDefault := bool_decide (default "" (s_defaultChannels st !! cc_Package c) = cc_Name c) in
              let h := setPackage h pl
                (mkPackage (p_Name mpkg) (p_Description mpkg) (p_Icon mpkg)
                   (if isDefault then Some cl else p_DefaultChannel mpkg)
                   (<[cc_Name c := cl]> (p_Channels mpkg)) (p_Deprecation mpkg)) in
              inr (mkCvt h (s_mpkgs st) (s_defaultChannels st)
                     (<[cc_Package c := cde]> (s_channelDefinedEntries st)) (s_packageBundles st))
          end
      end
  end.

(** The assignments to [mb] in the bundle loop. *)
Definition fillBundle (b : CfgBundle) (props : Properties) (ver : Version) (mb : Bundle) : Bundle :=
  mkBundle (b_Package mb) (b_Channel mb) (b_Name mb) (cb_Image b) (b_Replaces mb) (b_Skips mb)
    (b_SkipRange mb) (cb_Properties b) (cb_RelatedImages b) (b_Deprecation mb) (cb_Objects b)
    (cb_CsvJSON b) (Some props) ver.

(** [for _, mch := range mpkg.Channels { if mb, ok := mch.Bundles[b.Name]; ok { ... } }] *)
Definition updateInChannels (f : Bundle -> Bundle) (name : string) (acc : Heap * bool) (ch : string * loc) : Heap * bool :=
  let '(h, found) := acc in
  match c_Bundles (derefC h ch.2) !! name with
  | Some bl => (setBundle h bl (f (derefB h bl)), true)
  | None => (h, found)
  end.

(** [for _, b := range cfg.Bundles] *)
Definition addCfgBundle (st : cvt) (b : CfgBundle) : cfgError + cvt :=
  if bool_decide (cb_Package b = "") then inl (BundleNoPackage (cb_Name b))
  else match s_mpkgs st !! cb_Package b with
  | None => inl (UnknownBundlePackage (cb_Package b) (cb_Name b))
  | Some pl =>
      let bundles := default ∅ (s_packageBundles st !! cb_Package b) in
      if decide (cb_Name b ∈ bundles) then inl (DuplicateBundle (cb_Package b) (cb_Name b))
      else
        let packageBundles := <[cb_Package b := {[cb_Name b]} ∪ bundles]> (s_packageBundles st) in
        match Parse (cb_Properties b) with
        | inl e => inl (BundleProperties (cb_Name b) (PEIdx e))
        | inr props =>
            match Packages props with
            | [pp] =>
                if negb (bool_decide (cb_Package b = PackageName pp))
                then inl (BundlePackagePropertyMismatch (cb_Package b) (PackageName pp))
                else match version_parse (PackageVersion pp) with
                | None => inl (BundleVersion (cb_Name b) (PackageVersion pp))
                | Some ver =>
                    let cde := <[cb_Package b := default ∅ (s_channelDefinedEntries st !! cb_Package b) ∖ {[cb_Name b]}]>
                                 (s_channelDefinedEntries st) in
                    let '(h, found) := foldl (updateInChannels (fillBundle b props ver) (cb_Name b))
                      (s_heap st, false) (range (p_Channels (derefP (s_heap st) pl))) in
                    if negb found then inl (BundleNotInChannels (cb_Package b) (cb_Name b))
                    else inr (mkCvt h (s_mpkgs st) (s_defaultChannels st) cde packageBundles)
                end
            | pps => inl (BundlePackageProperties (cb_Name b) (length pps))
            end
        end
  end.

(** [for pkg, entries := range channelDefinedEntries] *)
Definition checkDefinedEntries (st : cvt) : cfgError + cvt :=
  match List.find (fun '(_, entries) => (0 <? size entries)%nat) (range (s_channelDefinedEntries st)) with
  | Some (pkg, entries) => inl (NoBundleBlobs pkg (merge_sort String.le (elements entries)))
  | None => inr st
  end.

(** [for _, mpkg := range mpkgs]: a channel for a default channel no [olm.channel] defines. *)
Definition addDefaultChannel (defaultChannels : gmap string string) (h : Heap) (pkg : string * loc) : Heap :=
  let mpkg := derefP h pkg.2 in
  let defaultChannelName := default "" (defaultChannels !! p_Name mpkg) in
  if negb (bool_decide (defaultChannelName = "")) && bool_decide (p_DefaultChannel mpkg = None) then
    let '(h, cl) := allocChannel h (mkChannel (Some pkg.2) defaultChannelName ∅ None []) in
    setPackage h pkg.2 (mkPackage (p_Name mpkg) (p_Description mpkg) (p_Icon mpkg) (Some cl)
      (<[defaultChannelName := cl]> (p_Channels mpkg)) (p_Deprecation mpkg))
  else h.

Definition deprecateBundle (message : string) (mb : Bundle) : Bundle :=
  mkBundle (b_Package mb) (b_Channel mb) (b_Name mb) (b_Image mb) (b_Replaces mb) (b_Skips mb)
    (b_SkipRange mb) (b_Properties mb) (b_RelatedImages mb) (Some message) (b_Objects mb)
    (b_CsvJSON mb) (b_PropertiesP mb) (b_Version mb).

(** [for j, entry := range deprecation.Entries]; the state is the heap, the index and the
    references seen. *)
Definition addDeprecationEntry (packageBundles : gmap string (gset string)) (pkg : string) (pl : loc)
    (acc : Heap * nat * gset (string * string)) (entry : DeprecationEntry)
  : cfgError + (Heap * nat * gset (string * string)) :=
  let '(h, j, references) := acc in
  let mpkg := derefP h pl in
  let ref := (de_Schema entry, de_RefName entry) in
  if bool_decide (de_Schema entry = "") then inl (DeprecationNoSchema j)
  else if decide (ref ∈ references) then inl (DeprecationDuplicateEntry (de_Schema entry) (de_RefName entry))
  else
    let references := {[ref]} ∪ references in
    if bool_decide (de_Schema entry = SchemaBundle) then
      if decide (de_RefName entry ∈ default ∅ (packageBundles !! pkg)) then
        inr ((foldl (updateInChannels (deprecateBundle (de_Message entry)) (de_RefName entry))
               (h, false) (range (p_Channels mpkg))).1, S j, references)
      else inl (DeprecationBundleNotFound pkg (de_RefName entry))
    else if bool_decide (de_Schema entry = SchemaChannel) then
      match p_Channels mpkg !! de_RefName entry with
      | None => inl (DeprecationChannelNotFound pkg (de_RefName entry))
      | Some cl =>
          let ch := derefC h cl in
          inr (setChannel h cl (mkChannel (c_Package ch) (c_Name ch) (c_Bundles ch)
                 (Some (de_Message entry)) (c_Properties ch)), S j, references)
      end
    else if bool_decide (de_Schema entry = SchemaPackage) then
      if negb (bool_decide (de_RefName entry = "")) then inl (DeprecationPackageNamed pkg (de_RefName entry))
      else inr (setPackage h pl (mkPackage (p_Name mpkg) (p_Description mpkg) (p_Icon mpkg)
             (p_DefaultChannel mpkg) (p_Channels mpkg) (Some (de_Message entry))), S j, references)
    else inl (DeprecationUnknownSchema (de_Schema entry)).

(** [for i, deprecation := range cfg.Deprecations] *)
Definition addDeprecation (st : cvt) (acc : Heap * nat * gset string) (d : CfgDeprecation)
  : cfgError + (Heap * nat * gset string) :=
  let '(h, i, deprecationsByPackage) := acc in
  if bool_decide (cd_Package d = "") then inl (DeprecationNoPackage i)
  else match s_mpkgs st !! cd_Package d with
  | None => inl (DeprecationUnknownPackage (cd_Package d))
  | Some pl =>
      if decide (cd_Package d ∈ deprecationsByPackage) then inl (DeprecationDuplicate (cd_Package d))
      else match foldE (addDeprecationEntry (s_packageBundles st) (cd_Package d) pl) (h, O, ∅) (cd_Entries d) with
      | inl e => inl e
      | inr (h, _, _) => inr (h, S i, {[cd_Package d]} ∪ deprecationsByPackage)
      end
  end.

(** [Model.Normalize] rewrites every bundle's properties in the standard encoding. *)
Definition normalizeProperty (p : Property) : Property :=
  match jsonMarshal (PValue p) with Some v => mkProperty (PType p) v | None => p end.

Definition normalizeBundle (b : Bundle) : Bundle :=
  mkBundle (b_Package b) (b_Channel b) (b_Name b) (b_Image b) (b_Replaces b) (b_Skips b)
    (b_SkipRange b) (normalizeProperty <$> b_Properties b) (b_RelatedImages b) (b_Deprecation b)
    (b_Objects b) (b_CsvJSON b) (b_PropertiesP b) (b_Version b).

(** The bundles in the order the nested loops reach them. *)
Definition bundleLocs (h : Heap) (m : Model) : list loc :=
  flat_map (fun '(_, pl) => flat_map (fun '(_, cl) => (range (c_Bundles (derefC h cl))).*2)
    (range (p_Channels (derefP h pl)))) (range m).

Definition Normalize (h : Heap) (m : Model) : Heap :=
  foldl (fun h bl => setBundle h bl (normalizeBundle (derefB h bl))) h (bundleLocs h m).

Definition initialState : cvt := mkCvt emptyHeap ∅ ∅ ∅ ∅.

Definition ConvertToModel (cfg : DeclarativeConfig) : cfgError + (Heap * Model) :=
  st ← foldE addPackage initialState (cfg_Packages cfg);
  st ← foldE addChannel st (cfg_Channels cfg);
  st ← foldE addCfgBundle st (cfg_Bundles cfg);
  st ← checkDefinedEntries st;
  let h := foldl (addDefaultChannel (s_defaultChannels st)) (s_heap st) (range (s_mpkgs st)) in
  '(h, _, _) ← foldE (addDeprecation st) (h, O, ∅) (cfg_Deprecations cfg);
  match Model_Validate h (s_mpkgs st) with
  | Some e => inl (InvalidModel e)
  | None => inr (Normalize h (s_mpkgs st), s_mpkgs st)
  end.
End convert.

(** ** What the conversion builds *)

Section convert_facts.
Context `{Decoders, SemverLib, NameRules, RangeOrder}.
Implicit Types (h : Heap) (m : Model).

(** The bundle the model files under a package, a channel and a name. *)
Definition model_bundle h m (pkg ch name : string) : option Bundle :=
  pl ← m !! pkg; p ← h_packages h !! pl; cl ← p_Channels p !! ch; c ← h_channels h !! cl;
  bl ← c_Bundles c !! name; h_bundles h !! bl.

(** Every pointer of the model leads to an object that is filed under its own name and points
    back at its parents. *)
Definition bundle_ok h (pl cl : loc) (name : string) (bl : loc) : Prop :=
  exists b, h_bundles h !! bl = Some b /\ b_Name b = name /\ b_Channel b = Some cl /\ b_Package b = Some pl.

Definition channel_ok h (pl : loc) (ch : string) (cl : loc) : Prop :=
  exists c, h_channels h !! cl = Some c /\ c_Name c = ch /\ c_Package c = Some pl /\
    forall name bl, c_Bundles c !! name = Some bl -> bundle_ok h pl cl name bl.

Definition package_ok h (pkg : string) (pl : loc) : Prop :=
  exists p, h_packages h !! pl = Some p /\ p_Name p = pkg /\
    forall ch cl, p_Channels p !! ch = Some cl -> channel_ok h pl ch cl.

Definition heap_ok h m : Prop := forall pkg pl, m !! pkg = Some pl -> package_ok h pkg pl.

(** A heap whose objects changed in place: packages and channels keep their links, bundles
    change along [R]. *)
Definition same_package (p p' : Package) : Prop := p_Name p' = p_Name p /\ p_Channels p' = p_Channels p.
Definition same_channel (c c' : Channel) : Prop :=
  c_Name c' = c_Name c /\ c_Package c' = c_Package c /\ c_Bundles c' = c_Bundles c.
Definition same_bundle (b b' : Bundle) : Prop :=
  b_Name b' = b_Name b /\ b_Channel b' = b_Channel b /\ b_Package b' = b_Package b.

Record heap_rel (R : Bundle -> Bundle -> Prop) h h' : Prop := mkRel {
  rel_packages : Forall2 same_package (h_packages h) (h_packages h');
  rel_channels : Forall2 same_channel (h_channels h) (h_channels h');
  rel_bundles : Forall2 (fun b b' => same_bundle b b' /\ R b b') (h_bundles h) (h_bundles h')
}.

#[local] Instance same_package_refl : Reflexive same_package. Proof. done. Qed.
#[local] Instance same_channel_refl : Reflexive same_channel. Proof. done. Qed.

Lemma heap_rel_refl (R : Bundle -> Bundle -> Prop) h : (forall b, R b b) -> heap_rel R h h.
Proof. intros HR. split; apply Forall_Forall2_diag, Forall_true; [done..|]. by split. Qed.

Lemma Forall2_lookup_insert {A} (R : A -> A -> Prop) `{!Reflexive R} (l : list A) i x y :
  l !! i = Some x -> R x y -> Forall2 R l (<[i := y]> l).
Proof.
  intros Hx Hxy. rewrite <- (list_insert_id l i x) at 1; [|done].
  apply Forall2_insert; [|done]. apply Forall_Forall2_diag, Forall_true. done.
Qed.

Lemma heap_rel_trans (R : Bundle -> Bundle -> Prop) h1 h2 h3 :
  (forall a b c, R a b -> R b c -> R a c) -> heap_rel R h1 h2 -> heap_rel R h2 h3 -> heap_rel R h1 h3.
Proof.
  intros HR [P1 C1 B1] [P2 C2 B2]. split.
  - eapply Forall2_trans; [|exact P1|exact P2]. unfold same_package. intros. intuition congruence.
  - eapply Forall2_trans; [|exact C1|exact C2]. unfold same_channel. intros. intuition congruence.
  - eapply Forall2_trans; [|exact B1|exact B2]. unfold same_bundle. intros x y z [??] [??].
    split; [intuition congruence|eauto].
Qed.

Lemma heap_rel_weaken (R R' : Bundle -> Bundle -> Prop) h h' :
  (forall b b', R b b' -> R' b b') -> heap_rel R h h' -> heap_rel R' h h'.
Proof. intros HR [? ? HB]. split; [done..|]. eapply Forall2_impl; [exact HB|naive_solver]. Qed.

Lemma heap_rel_bundle (R : Bundle -> Bundle -> Prop) h bl b b' :
  (forall b, R b b) -> h_bundles h !! bl = Some b -> same_bundle b b' -> R b b' ->
  heap_rel R h (setBundle h bl b').
Proof.
  intros HR Hb Hs Hb'. split; simpl.
  - apply (heap_rel_refl R h HR).
  - apply (heap_rel_refl R h HR).
  - assert (Reflexive (fun b b' => same_bundle b b' /\ R b b')) by (intros x; by split).
    eapply Forall2_lookup_insert; done.
Qed.

Lemma heap_rel_channel (R : Bundle -> Bundle -> Prop) h cl c c' :
  (forall b, R b b) -> h_channels h !! cl = Some c -> same_channel c c' -> heap_rel R h (setChannel h cl c').
Proof.
  intros HR Hc Hs. split; simpl; [apply (heap_rel_refl R h HR)| |apply (heap_rel_refl R h HR)].
  eapply Forall2_lookup_insert; [apply _|done..].
Qed.

Lemma heap_rel_package (R : Bundle -> Bundle -> Prop) h pl p p' :
  (forall b, R b b) -> h_packages h !! pl = Some p -> same_package p p' -> heap_rel R h (setPackage h pl p').
Proof.
  intros HR Hc Hs. split; simpl; [|apply (heap_rel_refl R h HR)..].
  eapply Forall2_lookup_insert; [apply _|done..].
Qed.

Lemma heap_rel_ok R h h' m : heap_rel R h h' -> heap_ok h m -> heap_ok h' m.
Proof.
  intros [HP HC HB] Hok pkg pl Hpl. destruct (Hok pkg pl Hpl) as (p & Hp & Hn & Hch).
  destruct (Forall2_lookup_l _ _ _ _ _ HP Hp) as (p' & Hp' & Hn' & Hc').
  exists p'. split_and!; [done|congruence|]. intros ch cl. rewrite Hc'. intros (c & Hc & Hcn & Hcp & Hbs)%Hch.
  destruct (Forall2_lookup_l _ _ _ _ _ HC Hc) as (c' & Hc1 & Hcn' & Hcp' & Hcb').
  exists c'. split_and!; [done|congruence..|]. intros n bl. rewrite Hcb'. intros (b & Hb & ? & ? & ?)%Hbs.
  destruct (Forall2_lookup_l _ _ _ _ _ HB Hb) as (b' & Hb' & (?&?&?) & _).
  exists b'. split_and!; [done|congruence..].
Qed.

Lemma heap_rel_model_bundle R h h' m pkg ch n :
  heap_rel R h h' -> option_Forall2 R (model_bundle h m pkg ch n) (model_bundle h' m pkg ch n).
Proof.
  intros [HP HC HB]. unfold model_bundle. destruct (m !! pkg) as [pl|]; simpl; [|constructor].
  pose proof (proj1 (Forall2_lookup _ _ _) HP pl) as Hp. destruct Hp as [p p' [_ Hc]|]; simpl; [|constructor].
  rewrite Hc. destruct (p_Channels p !! ch) as [cl|]; simpl; [|constructor].
  pose proof (proj1 (Forall2_lookup _ _ _) HC cl) as Hcl. destruct Hcl as [c c' (_&_&Hb)|]; simpl; [|constructor].
  rewrite Hb. destruct (c_Bundles c !! n) as [bl|]; simpl; [|constructor].
  pose proof (proj1 (Forall2_lookup _ _ _) HB bl) as Hbl. destruct Hbl as [b b' [_ HR]|]; by constructor.
Qed.

Lemma heap_rel_channel_ok R h h' pl ch cl : heap_rel R h h' -> channel_ok h pl ch cl -> channel_ok h' pl ch cl.
Proof.
  intros [HP HC HB] (c & Hc & Hcn & Hcp & Hbs).
  destruct (Forall2_lookup_l _ _ _ _ _ HC Hc) as (c' & Hc1 & Hcn' & Hcp' & Hcb').
  exists c'. split_and!; [done|congruence..|]. intros n bl. rewrite Hcb'. intros (b & Hb & ? & ? & ?)%Hbs.
  destruct (Forall2_lookup_l _ _ _ _ _ HB Hb) as (b' & Hb' & (?&?&?) & _).
  exists b'. split_and!; [done|congruence..].
Qed.

(** *** A new channel in a package *)

(** [h'] is [h] with the new object [c'] filed under the package at [pl]; the bundles of the new
    channel are new too. *)
Record adds_channel h h' (pl : loc) (p p' : Package) (ch : string) (c' : Channel) : Prop := mkAdds {
  add_package : h_packages h !! pl = Some p;
  add_fresh : p_Channels p !! ch = None;
  add_packages : h_packages h' = <[pl := p']> (h_packages h);
  add_name : p_Name p' = p_Name p;
  add_link : p_Channels p' = <[ch := length (h_channels h)]> (p_Channels p);
  add_channels : h_channels h' = h_channels h ++ [c'];
  add_cname : c_Name c' = ch;
  add_cpackage : c_Package c' = Some pl;
  add_bundles : exists new, h_bundles h' = h_bundles h ++ new;
  add_ok : forall n bl, c_Bundles c' !! n = Some bl -> bundle_ok h' pl (length (h_channels h)) n bl
}.

Lemma adds_channel_old h h' pl p p' ch c' pl' ch' cl' :
  adds_channel h h' pl p p' ch c' -> channel_ok h pl' ch' cl' -> channel_ok h' pl' ch' cl'.
Proof.
  intros [_ _ _ _ _ HC _ _ [new HB] _] (c & Hc & ? & ? & Hbs).
  exists c. split_and!; [by rewrite HC, lookup_app_l by eauto using lookup_lt_Some|done..|].
  intros n bl (b & Hb & ?)%Hbs. exists b. split; [|done].
  by rewrite HB, lookup_app_l by eauto using lookup_lt_Some.
Qed.

Lemma heap_ok_inj h m pkg pkg' pl : heap_ok h m -> m !! pkg = Some pl -> m !! pkg' = Some pl -> pkg = pkg'.
Proof. intros Hok (p & Hp & <- & _)%Hok (p' & Hp' & <- & _)%Hok. congruence. Qed.

Lemma adds_channel_ok h h' m pl p p' ch c' :
  adds_channel h h' pl p p' ch c' -> heap_ok h m -> heap_ok h' m.
Proof.
  intros Hadd Hok pkg0 pl0 Hpl0. destruct (Hok _ _ Hpl0) as (p0 & Hp0 & Hn0 & Hch0).
  assert (forall ch cl, p_Channels p0 !! ch = Some cl -> channel_ok h' pl0 ch cl) as Hold
    by eauto using adds_channel_old.
  destruct Hadd as [Hp Hfr HP Hn Hlk HC Hcn Hcp HB Hnew].
  destruct (decide (pl0 = pl)) as [->|Hne].
  - replace p0 with p in * by congruence. exists p'. rewrite HP, list_lookup_insert_eq by eauto using lookup_lt_Some.
    split_and!; [done|congruence|]. intros ch0 cl0. rewrite Hlk, lookup_insert_Some.
    intros [[<- <-]|[? ?]]; [|by apply Hold].
    exists c'. rewrite HC, list_lookup_middle by done. done.
  - exists p0. rewrite HP, list_lookup_insert_ne by done. split_and!; [done..|]. exact Hold.
Qed.

Lemma adds_channel_model_bundle h h' m pkg pl p p' ch c' pkg' ch' n :
  adds_channel h h' pl p p' ch c' -> heap_ok h m -> m !! pkg = Some pl ->
  model_bundle h' m pkg' ch' n =
  if decide (pkg' = pkg /\ ch' = ch) then bl ← c_Bundles c' !! n; h_bundles h' !! bl else model_bundle h m pkg' ch' n.
Proof.
  intros [Hp Hfr HP Hn Hlk HC Hcn Hcp [new HB] Hnew] Hok Hpl. unfold model_bundle.
  assert (Hold : forall pl0 p0 ch0, m !! pkg' = Some pl0 -> h_packages h !! pl0 = Some p0 ->
    (cl ← p_Channels p0 !! ch0; c ← h_channels h' !! cl; bl ← c_Bundles c !! n; h_bundles h' !! bl) =
    (cl ← p_Channels p0 !! ch0; c ← h_channels h !! cl; bl ← c_Bundles c !! n; h_bundles h !! bl)).
  { intros pl0 p0 ch0 (p1 & Hp1 & _ & Hch)%Hok Hp0. replace p1 with p0 in * by congruence.
    destruct (p_Channels p0 !! ch0) as [cl0|] eqn:Ec; simpl; [|done].
    destruct (Hch _ _ Ec) as (c & Hc & _ & _ & Hbs).
    rewrite HC, lookup_app_l, Hc by eauto using lookup_lt_Some. simpl.
    destruct (c_Bundles c !! n) as [bl|] eqn:Eb; simpl; [|done]. destruct (Hbs _ _ Eb) as (b & Hb & _).
    by rewrite HB, lookup_app_l by eauto using lookup_lt_Some. }
  destruct (m !! pkg') as [pl'|] eqn:Em; simpl.
  2: { by rewrite decide_False by (intros [-> _]; congruence). }
  destruct (Hok _ _ Em) as (p0 & Hp0 & _). rewrite HP, Hp0.
  destruct (decide (pl' = pl)) as [->|Hne].
  - assert (pkg' = pkg) as -> by eauto using heap_ok_inj.
    rewrite list_lookup_insert_eq by eauto using lookup_lt_Some. simpl. rewrite Hlk.
    replace p0 with p in * by congruence.
    destruct (decide (ch' = ch)) as [->|Hch].
    + rewrite decide_True by done. rewrite lookup_insert_eq. simpl.
      rewrite HC, list_lookup_middle by done. done.
    + rewrite decide_False by naive_solver. rewrite lookup_insert_ne by done. eauto.
  - rewrite decide_False by (intros [-> _]; congruence).
    rewrite list_lookup_insert_ne, Hp0 by done. simpl. eauto.
Qed.

(** *** The package and channel loops *)

Definition raw_bundle (pl cl : loc) (e : ChannelEntry) : Bundle :=
  mkBundle (Some pl) (Some cl) (ce_Name e) "" (ce_Replaces e) (ce_Skips e) (ce_SkipRange e) [] [] None [] "" None version_zero.

Definition entries_inv h (pl cl : loc) (es : list ChannelEntry) (acc : Heap * gmap string loc * gset string) : Prop :=
  h_packages acc.1.1 = h_packages h /\ h_channels acc.1.1 = h_channels h /\
  (exists new, h_bundles acc.1.1 = h_bundles h ++ new) /\
  (forall n bl, acc.1.2 !! n = Some bl ->
     exists e, e ∈ es /\ ce_Name e = n /\ h_bundles acc.1.1 !! bl = Some (raw_bundle pl cl e)) /\
  (forall e, e ∈ es -> is_Some (acc.1.2 !! ce_Name e)).

Lemma addEntry_fold h pl cl pkg ch es acc :
  foldE (addEntry pl cl pkg ch) (h, ∅, ∅) es = inr acc -> entries_inv h pl cl es acc.
Proof.
  apply (foldE_inv _ (entries_inv h pl cl)); unfold entries_inv.
  - simpl. split_and!; [done..|by exists []; rewrite app_nil_r|by intros n bl ?%lookup_empty_Some|by intros e ?%elem_of_nil].
  - clear. intros dn e [[h1 bm] cde] acc' (HP & HC & [new HB] & Hin & Hall). unfold addEntry. simpl in *.
    destruct (bm !! ce_Name e) eqn:E; [done|]. intros [= <-]. simpl.
    split_and!; [done..|by exists (new ++ [raw_bundle pl cl e]); rewrite HB, app_assoc| |].
    + intros n bl [[<- <-]|[? Hb]]%lookup_insert_Some.
      * exists e. split_and!; [set_solver|done|]. by apply list_lookup_middle.
      * destruct (Hin _ _ Hb) as (e' & ? & ? & ?). exists e'. split_and!; [set_solver|done|].
        by rewrite lookup_app_l by eauto using lookup_lt_Some.
    + intros e' He'. destruct (decide (ce_Name e' = ce_Name e)) as [->|Hne]; [rewrite lookup_insert_eq; eauto|].
      rewrite lookup_insert_ne by done. apply Hall.
      apply elem_of_app in He' as [?| ->%list_elem_of_singleton]; done.
Qed.

(** What an entry of a channel says of its bundle. *)
Definition entry_fields (e : ChannelEntry) (mb : Bundle) : Prop :=
  b_Name mb = ce_Name e /\ b_Replaces mb = ce_Replaces e /\ b_Skips mb = ce_Skips e /\ b_SkipRange mb = ce_SkipRange e.

(** The bundle is the one of an entry among [chs]. *)
Definition from_entry (chs : list CfgChannel) (pkg ch name : string) (mb : Bundle) : Prop :=
  exists c e, c ∈ chs /\ e ∈ cc_Entries c /\ cc_Package c = pkg /\ cc_Name c = ch /\ ce_Name e = name /\ entry_fields e mb.

(** A default channel that was defined is linked: a package without one has no channel of
    that name. *)
Definition default_pending (dcs : gmap string string) h m : Prop :=
  forall pkg pl p, m !! pkg = Some pl -> h_packages h !! pl = Some p -> p_DefaultChannel p = None ->
    p_Channels p !! default "" (dcs !! pkg) = None.

(** After the package loop and the channels [chs]. *)
Record channels_inv (chs : list CfgChannel) (st : cvt) : Prop := mkChannelsInv {
  ci_ok : heap_ok (s_heap st) (s_mpkgs st);
  ci_default : default_pending (s_defaultChannels st) (s_heap st) (s_mpkgs st);
  ci_entry : forall pkg ch n mb, model_bundle (s_heap st) (s_mpkgs st) pkg ch n = Some mb ->
    from_entry chs pkg ch n mb /\ b_Properties mb = [];
  ci_all : forall c e, c ∈ chs -> e ∈ cc_Entries c ->
    is_Some (model_bundle (s_heap st) (s_mpkgs st) (cc_Package c) (cc_Name c) (ce_Name e))
}.

Definition package_empty h (pkg : string) (pl : loc) : Prop :=
  exists p, h_packages h !! pl = Some p /\ p_Name p = pkg /\ p_Channels p = ∅.

Lemma addPackage_fold ps st :
  foldE addPackage initialState ps = inr st ->
  forall pkg pl, s_mpkgs st !! pkg = Some pl -> package_empty (s_heap st) pkg pl.
Proof.
  apply (foldE_inv _ (fun _ st => forall pkg pl, s_mpkgs st !! pkg = Some pl -> package_empty (s_heap st) pkg pl)).
  - intros pkg pl Hpl. simpl in Hpl. by apply lookup_empty_Some in Hpl.
  - clear. intros _ p st st' Hinv. unfold addPackage. case_bool_decide; [done|].
    destruct (s_mpkgs st !! cp_Name p) eqn:E; [done|]. destruct (isDNS1123Label (cp_Name p)); [|done]. simpl.
    intros [= <-] pkg pl. simpl. intros [[<- <-]|[? Hpl]]%lookup_insert_Some.
    + eexists. split; [by apply list_lookup_middle|done].
    + destruct (Hinv _ _ Hpl) as (p0 & ? & ?). exists p0. simpl.
      by rewrite lookup_app_l by eauto using lookup_lt_Some.
Qed.

Lemma channels_inv_start ps st : foldE addPackage initialState ps = inr st -> channels_inv [] st.
Proof.
  intros Hf. pose proof (addPackage_fold _ _ Hf) as Hemp. split.
  - intros pkg pl (p & ? & ? & E)%Hemp. exists p. split_and!; [done..|]. rewrite E. by intros ?? ?%lookup_empty_Some.
  - intros pkg pl p (p' & Hp' & _ & E)%Hemp Hp _. replace p with p' by congruence. by rewrite E.
  - intros pkg ch n mb. unfold model_bundle. destruct (s_mpkgs st !! pkg) as [pl|] eqn:Hpl; [|done]. simpl.
    destruct (Hemp _ _ Hpl) as (p & -> & _ & E). simpl. by rewrite E, lookup_empty.
  - by intros c e ?%elem_of_nil.
Qed.

Lemma from_entry_mono chs c pkg ch n mb : from_entry chs pkg ch n mb -> from_entry (chs ++ [c]) pkg ch n mb.
Proof. intros (c0 & e & ? & ?). exists c0, e. split; [set_solver|done]. Qed.

(** One round of the channel loop files one channel. *)
Lemma addChannel_adds st c st' :
  heap_ok (s_heap st) (s_mpkgs st) -> addChannel st c = inr st' ->
  exists pl p p' c', s_mpkgs st !! cc_Package c = Some pl /\
    adds_channel (s_heap st) (s_heap st') pl p p' (cc_Name c) c' /\
    s_mpkgs st' = s_mpkgs st /\ s_defaultChannels st' = s_defaultChannels st /\
    (p_DefaultChannel p' = None -> p_DefaultChannel p = None /\ default "" (s_defaultChannels st !! cc_Package c) <> cc_Name c) /\
    (forall n bl, c_Bundles c' !! n = Some bl -> exists e, e ∈ cc_Entries c /\ ce_Name e = n /\
       h_bundles (s_heap st') !! bl = Some (raw_bundle pl (length (h_channels (s_heap st))) e)) /\
    (forall e, e ∈ cc_Entries c -> is_Some (c_Bundles c' !! ce_Name e)).
Proof.
  intros Hok. unfold addChannel. destruct (s_mpkgs st !! cc_Package c) as [pl|] eqn:Hpl; [|done].
  destruct (Hok _ _ Hpl) as (p & Hp & Hn & Hch). unfold derefP. rewrite Hp. simpl.
  case_bool_decide as Hname; [done|]. destruct (p_Channels p !! cc_Name c) eqn:Hfr; [done|].
  destruct (foldE _ _ _) as [|[[h1 bmap] cde]] eqn:Hf; [done|].
  apply addEntry_fold in Hf as (HP & HC & HB & Hin & Hall). simpl in *. intros [= <-]. simpl.
  set (cl := length (h_channels (s_heap st))) in *.
  set (p' := mkPackage _ _ _ _ _ _). set (c' := mkChannel (Some pl) (cc_Name c) bmap None (cc_Properties c)).
  exists pl, p, p', c'. split_and!; [done| |done|done| |exact Hin|exact Hall].
  - split; simpl; rewrite ?HP, ?HC; try done.
    + rewrite insert_app_r_alt by done. by rewrite Nat.sub_diag.
    + intros n bl (e & He & <- & Hb)%Hin. by exists (raw_bundle pl cl e).
  - simpl. case_bool_decide; done.
Qed.

Lemma channels_inv_step chs st c st' :
  channels_inv chs st -> addChannel st c = inr st' -> channels_inv (chs ++ [c]) st'.
Proof.
  intros [Hok Hdef Hent Hall] Hadd.
  destruct (addChannel_adds _ _ _ Hok Hadd) as (pl & p & p' & c' & Hpl & Ha & Em & Ed & Hdc & Hin & Hcov).
  pose proof (fun pkg' ch' n => adds_channel_model_bundle _ _ _ _ _ _ _ _ _ pkg' ch' n Ha Hok Hpl) as HV.
  split; rewrite Em, ?Ed.
  - eauto using adds_channel_ok.
  - intros pkg0 pl0 p0 Hpl0 Hp0 Hd0. destruct Ha as [Hp Hfr HP Hn Hlk _ _ _ _ _].
    rewrite HP in Hp0. destruct (decide (pl0 = pl)) as [->|Hne].
    + rewrite list_lookup_insert_eq in Hp0 by eauto using lookup_lt_Some. injection Hp0 as <-.
      destruct (Hdc Hd0) as [Hd1 Hne]. assert (pkg0 = cc_Package c) as -> by eauto using heap_ok_inj.
      rewrite Hlk, lookup_insert_ne by congruence. eauto.
    + rewrite list_lookup_insert_ne in Hp0 by done. eauto.
  - intros pkg ch n mb. rewrite HV. destruct (decide _) as [[-> ->]|Hne].
    + destruct (c_Bundles c' !! n) as [bl|] eqn:Hbl; simpl; [|done].
      destruct (Hin _ _ Hbl) as (e & He & <- & ->). intros [= <-]. split; [|done].
      exists c, e. split_and!; try done. set_solver.
    + intros [? ?]%Hent. split; [|done]. by apply from_entry_mono.
  - intros c0 e Hc0 He. rewrite HV. apply elem_of_app in Hc0 as [Hc0| ->%list_elem_of_singleton].
    + destruct (decide _) as [[Epkg Ech]|Hne]; [|eauto].
      exfalso. destruct (Hall _ _ Hc0 He) as [mb Hmb]. unfold model_bundle in Hmb.
      destruct Ha as [Hp Hfr _ _ _ _ _ _ _ _]. rewrite Epkg, Hpl in Hmb. simpl in Hmb.
      rewrite Hp in Hmb. simpl in Hmb. by rewrite Ech, Hfr in Hmb.
    + rewrite decide_True by done. destruct (Hcov _ He) as [bl Hbl]. rewrite Hbl. simpl.
      destruct (Hin _ _ Hbl) as (? & _ & _ & ->). eauto.
Qed.

(** *** The bundle loop *)

(** Updating the bundles of one name in the channels of a package. *)
Lemma updateInChannels_fold (R : Bundle -> Bundle -> Prop) f name pl chs h found :
  (forall b, R b b) -> (forall a b c, R a b -> R b c -> R a c) -> (forall b, same_bundle b (f b)) ->
  (forall b, b_Name b = name -> b_Package b = Some pl -> R b (f b)) ->
  (forall ch cl, (ch, cl) ∈ chs -> channel_ok h pl ch cl) ->
  let r := foldl (updateInChannels f name) (h, found) chs in
  heap_rel R h r.1 /\ h_packages r.1 = h_packages h /\
  (r.2 = true -> found = true \/ exists ch cl, (ch, cl) ∈ chs /\ is_Some (c_Bundles (derefC h cl) !! name)).
Proof.
  intros Hrefl Htr Hsame Hf. revert h found. induction chs as [|[ch cl] chs IH]; intros h found Hok; simpl.
  { split_and!; [by apply heap_rel_refl|done|by left]. }
  destruct (c_Bundles (derefC h cl) !! name) as [bl|] eqn:Ebl.
  - assert (channel_ok h pl ch cl) as (c & Hc & _ & _ & Hbs) by set_solver.
    unfold derefC in Ebl. rewrite Hc in Ebl. simpl in Ebl. destruct (Hbs _ _ Ebl) as (b & Hb & Hbn & _ & Hbp).
    assert (heap_rel R h (setBundle h bl (f (derefB h bl)))) as Hrel.
    { unfold derefB. rewrite Hb. simpl. eapply heap_rel_bundle; eauto. }
    destruct (IH (setBundle h bl (f (derefB h bl))) true) as (HR & HP & _).
    { intros. eapply heap_rel_channel_ok; [done|]. set_solver. }
    split_and!; [by eapply heap_rel_trans|done|].
    intros _. right. exists ch, cl. split; [set_solver|]. unfold derefC. rewrite Hc. simpl. eauto.
  - destruct (IH h found) as (HR & HP & Hfound); [set_solver|].
    split_and!; [done..|]. intros [?|(ch' & cl' & ? & ?)]%Hfound; [by left|right].
    exists ch', cl'. split; [set_solver|done].
Qed.

Lemma package_channels_ok h m pkg pl :
  heap_ok h m -> m !! pkg = Some pl ->
  forall ch cl, (ch, cl) ∈ range (p_Channels (derefP h pl)) -> channel_ok h pl ch cl.
Proof.
  intros Hok (p & Hp & _ & Hch)%Hok ch cl. rewrite elem_of_range. unfold derefP. rewrite Hp. simpl. apply Hch.
Qed.

(** The path to a bundle of the model, with its back pointers. *)
Lemma model_bundle_path h m pkg ch n mb :
  heap_ok h m -> model_bundle h m pkg ch n = Some mb ->
  exists pl cl bl, m !! pkg = Some pl /\ p_Channels (derefP h pl) !! ch = Some cl /\
    c_Bundles (derefC h cl) !! n = Some bl /\ h_bundles h !! bl = Some mb /\ b_Name mb = n /\ b_Package mb = Some pl.
Proof.
  intros Hok. unfold model_bundle. destruct (m !! pkg) as [pl|] eqn:Hpl; [|done]. simpl.
  destruct (Hok _ _ Hpl) as (p & Hp & _ & Hch). rewrite Hp. simpl.
  destruct (p_Channels p !! ch) as [cl|] eqn:Hcl; [|done]. simpl.
  destruct (Hch _ _ Hcl) as (c & Hc & _ & _ & Hbs). rewrite Hc. simpl.
  destruct (c_Bundles c !! n) as [bl|] eqn:Hbl; [|done]. simpl.
  destruct (Hbs _ _ Hbl) as (b & Hb & <- & _ & Hbp). intros Hmb. simplify_eq.
  exists pl, cl, bl. unfold derefP, derefC. rewrite Hp, Hc. done.
Qed.

Lemma model_bundle_intro h m pkg pl ch cl n :
  heap_ok h m -> m !! pkg = Some pl -> p_Channels (derefP h pl) !! ch = Some cl ->
  is_Some (c_Bundles (derefC h cl) !! n) -> is_Some (model_bundle h m pkg ch n).
Proof.
  intros Hok Hpl Hcl [bl Hbl]. unfold model_bundle. rewrite Hpl. simpl.
  destruct (Hok _ _ Hpl) as (p & Hp & _ & Hch). unfold derefP in Hcl. rewrite Hp in Hcl |- *. simpl in *.
  rewrite Hcl. simpl. destruct (Hch _ _ Hcl) as (c & Hc & _ & _ & Hbs). unfold derefC in Hbl.
  rewrite Hc in Hbl |- *. simpl in *. rewrite Hbl. simpl. destruct (Hbs _ _ Hbl) as (b & -> & _). eauto.
Qed.

(** What an [olm.bundle] blob says of a bundle. *)
Definition blob_fields (b : CfgBundle) (mb : Bundle) : Prop :=
  b_Image mb = cb_Image b /\ b_RelatedImages mb = cb_RelatedImages b /\ b_CsvJSON mb = cb_CsvJSON b /\
  b_Objects mb = cb_Objects b /\
  exists props pp, Parse (cb_Properties b) = inr props /\ Packages props = [pp] /\ PackageName pp = cb_Package b /\
    version_parse (PackageVersion pp) = Some (b_Version mb) /\ b_PropertiesP mb = Some props.

Definition from_blob (bs : list CfgBundle) (pkg name : string) (mb : Bundle) : Prop :=
  exists b, b ∈ bs /\ cb_Package b = pkg /\ cb_Name b = name /\ b_Properties mb = cb_Properties b /\ blob_fields b mb.

Record bundles_inv (chs : list CfgChannel) (bs : list CfgBundle) (st : cvt) : Prop := mkBundlesInv {
  bi_ok : heap_ok (s_heap st) (s_mpkgs st);
  bi_default : default_pending (s_defaultChannels st) (s_heap st) (s_mpkgs st);
  bi_entry : forall pkg ch n mb, model_bundle (s_heap st) (s_mpkgs st) pkg ch n = Some mb ->
    from_entry chs pkg ch n mb /\ (b_Properties mb = [] \/ from_blob bs pkg n mb);
  bi_all : forall c e, c ∈ chs -> e ∈ cc_Entries c ->
    is_Some (model_bundle (s_heap st) (s_mpkgs st) (cc_Package c) (cc_Name c) (ce_Name e));
  bi_blob : forall b, b ∈ bs -> exists ch, is_Some (model_bundle (s_heap st) (s_mpkgs st) (cb_Package b) ch (cb_Name b))
}.

Definition fill_rel (pl : loc) (b : CfgBundle) (props : Properties) (ver : Version) (mb mb' : Bundle) : Prop :=
  mb' = mb \/ (mb' = fillBundle b props ver mb /\ b_Name mb = cb_Name b /\ b_Package mb = Some pl).

Lemma addCfgBundle_rel st b st' :
  heap_ok (s_heap st) (s_mpkgs st) -> addCfgBundle st b = inr st' ->
  exists pl props pp ver, s_mpkgs st !! cb_Package b = Some pl /\
    Parse (cb_Properties b) = inr props /\ Packages props = [pp] /\ PackageName pp = cb_Package b /\
    version_parse (PackageVersion pp) = Some ver /\
    heap_rel (fill_rel pl b props ver) (s_heap st) (s_heap st') /\
    h_packages (s_heap st') = h_packages (s_heap st) /\
    s_mpkgs st' = s_mpkgs st /\ s_defaultChannels st' = s_defaultChannels st /\
    exists ch, is_Some (model_bundle (s_heap st) (s_mpkgs st) (cb_Package b) ch (cb_Name b)).
Proof.
  intros Hok. unfold addCfgBundle. case_bool_decide; [done|].
  destruct (s_mpkgs st !! cb_Package b) as [pl|] eqn:Hpl; [|done]. destruct (decide _); [done|].
  destruct (Parse (cb_Properties b)) as [|props] eqn:Hprops; [done|].
  destruct (Packages props) as [|pp [|]] eqn:Hpps; [done| |done].
  case_bool_decide as Hname; [|done]. simpl. destruct (version_parse _) as [ver|] eqn:Hver; [|done].
  pose proof (updateInChannels_fold (fill_rel pl b props ver) (fillBundle b props ver) (cb_Name b) pl
    (range (p_Channels (derefP (s_heap st) pl))) (s_heap st) false) as Hu.
  destruct (foldl _ _ _) as [h found] eqn:Ef. destruct found; [|done]. simpl. intros [= <-]. simpl in *.
  destruct Hu as (HR & HP & Hfound); unfold fill_rel.
  - by left.
  - intros a c d [->|(-> & ? & ?)] [->|(-> & ? & ?)]; auto.
  - done.
  - auto.
  - by eapply package_channels_ok.
  - exists pl, props, pp, ver. split_and!; try done.
    destruct Hfound as [?|(ch & cl & Hcl%elem_of_range & Hb)]; [done..|]. exists ch. by eapply model_bundle_intro.
Qed.

Lemma from_blob_mono bs b pkg n mb : from_blob bs pkg n mb -> from_blob (bs ++ [b]) pkg n mb.
Proof. intros (b0 & ? & ?). exists b0. split; [set_solver|done]. Qed.

Lemma heap_rel_is_Some R h h' m pkg ch n :
  heap_rel R h h' -> is_Some (model_bundle h m pkg ch n) -> is_Some (model_bundle h' m pkg ch n).
Proof. intros HR [mb Hmb]. pose proof (heap_rel_model_bundle _ _ _ m pkg ch n HR) as Ho. rewrite Hmb in Ho. inv Ho. eauto. Qed.

Lemma heap_rel_inv R h h' m pkg ch n mb' :
  heap_rel R h h' -> model_bundle h' m pkg ch n = Some mb' -> exists mb, model_bundle h m pkg ch n = Some mb /\ R mb mb'.
Proof. intros HR Hmb. pose proof (heap_rel_model_bundle _ _ _ m pkg ch n HR) as Ho. rewrite Hmb in Ho. inv Ho. eauto. Qed.

Lemma bundles_inv_step chs bs st b st' :
  bundles_inv chs bs st -> addCfgBundle st b = inr st' -> bundles_inv chs (bs ++ [b]) st'.
Proof.
  intros [Hok Hdef Hent Hall Hblob] Hadd.
  destruct (addCfgBundle_rel _ _ _ Hok Hadd) as
    (pl & props & pp & ver & Hpl & Hprops & Hpps & Hpn & Hver & HR & HP & Em & Ed & Hfound).
  split; rewrite ?Em, ?Ed.
  - by eapply heap_rel_ok.
  - unfold default_pending. by rewrite HP.
  - intros pkg ch n mb' Hmb'. destruct (heap_rel_inv _ _ _ _ _ _ _ _ HR Hmb') as (mb & Hmb & Hrel).
    destruct (Hent _ _ _ _ Hmb) as [He Hp]. destruct Hrel as [->|(-> & Hn & Hpk)].
    + split; [done|]. destruct Hp as [?|?]; [by left|right]. by apply from_blob_mono.
    + split; [done|]. right. exists b. simpl. split_and!; [set_solver| | |done|].
      * destruct (model_bundle_path _ _ _ _ _ _ Hok Hmb) as (pl' & _ & _ & Hpl' & _ & _ & _ & _ & Hpk').
        assert (pl' = pl) as -> by congruence. by eapply heap_ok_inj.
      * destruct (model_bundle_path _ _ _ _ _ _ Hok Hmb) as (_ & _ & _ & _ & _ & _ & _ & Hn' & _). congruence.
      * unfold blob_fields. simpl. split_and!; [done..|]. exists props, pp. done.
  - intros. eapply heap_rel_is_Some; eauto.
  - intros b0 [Hb0| ->%list_elem_of_singleton]%elem_of_app.
    + destruct (Hblob _ Hb0) as [ch ?]. exists ch. by eapply heap_rel_is_Some.
    + destruct Hfound as [ch ?]. exists ch. by eapply heap_rel_is_Some.
Qed.

(** *** Default channels and deprecations *)

Lemma addDefaultChannel_view dcs h m pkg pl :
  heap_ok h m -> default_pending dcs h m -> m !! pkg = Some pl ->
  let h' := addDefaultChannel dcs h (pkg, pl) in
  heap_ok h' m /\ default_pending dcs h' m /\ forall pkg' ch n, model_bundle h' m pkg' ch n = model_bundle h m pkg' ch n.
Proof.
  intros Hok Hdef Hpl. unfold addDefaultChannel. simpl.
  destruct (Hok _ _ Hpl) as (p & Hp & Hn & _). unfold derefP. rewrite Hp. simpl. rewrite Hn.
  case_bool_decide as Hdn; simpl; [done|]. case_bool_decide as Hd; [|done].
  assert (Hfr := Hdef _ _ _ Hpl Hp Hd). set (dn := default "" (dcs !! pkg)) in *.
  set (p' := mkPackage _ _ _ _ _ _). set (c' := mkChannel (Some pl) dn ∅ None []). set (h' := setPackage _ _ _).
  assert (adds_channel h h' pl p p' dn c') as Ha.
  { split; simpl; try done. exists []. by rewrite app_nil_r. }
  split_and!.
  - by eapply adds_channel_ok.
  - intros pkg0 pl0 p0 Hpl0. simpl. destruct (decide (pl0 = pl)) as [->|Hne].
    + rewrite list_lookup_insert_eq by eauto using lookup_lt_Some. by intros [= <-].
    + rewrite list_lookup_insert_ne by done. by apply Hdef.
  - intros pkg' ch n. rewrite (adds_channel_model_bundle _ _ _ _ _ _ _ _ _ pkg' ch n Ha Hok Hpl).
    destruct (decide _) as [[-> ->]|]; [|done]. simpl. rewrite lookup_empty. simpl.
    unfold model_bundle. rewrite Hpl. simpl. rewrite Hp. simpl. by rewrite Hfr.
Qed.

Lemma addDefaultChannel_fold dcs m l h :
  (forall pkg pl, (pkg, pl) ∈ l -> m !! pkg = Some pl) -> heap_ok h m -> default_pending dcs h m ->
  let h' := foldl (addDefaultChannel dcs) h l in
  heap_ok h' m /\ forall pkg' ch n, model_bundle h' m pkg' ch n = model_bundle h m pkg' ch n.
Proof.
  revert h. induction l as [|[pkg pl] l IH]; intros h Hl Hok Hdef; simpl; [done|].
  destruct (addDefaultChannel_view dcs h m pkg pl) as (Hok' & Hdef' & HV); [done|done|set_solver|].
  destruct (IH (addDefaultChannel dcs h (pkg, pl))) as [Hok2 HV2]; [set_solver|done..|].
  split; [done|]. intros. by rewrite HV2, HV.
Qed.

(** Equality of bundles up to the deprecation message. *)
Definition undeprecated (b : Bundle) : Bundle :=
  mkBundle (b_Package b) (b_Channel b) (b_Name b) (b_Image b) (b_Replaces b) (b_Skips b) (b_SkipRange b)
    (b_Properties b) (b_RelatedImages b) None (b_Objects b) (b_CsvJSON b) (b_PropertiesP b) (b_Version b).
Definition dep_rel (b b' : Bundle) : Prop := undeprecated b' = undeprecated b.

Lemma addDeprecationEntry_rel pbs pkg pl m h j refs e acc :
  heap_ok h m -> m !! pkg = Some pl ->
  addDeprecationEntry pbs pkg pl (h, j, refs) e = inr acc -> heap_rel dep_rel h acc.1.1.
Proof.
  intros Hok Hpl. unfold addDeprecationEntry. destruct (Hok _ _ Hpl) as (p & Hp & _ & Hch).
  assert (derefP h pl = p) as Ep by (unfold derefP; by rewrite Hp). rewrite Ep.
  case_bool_decide; [done|]. destruct (decide _); [done|]. case_bool_decide.
  - destruct (decide _); [|done]. intros [= <-]. simpl.
    apply (updateInChannels_fold dep_rel _ _ pl); [done|unfold dep_rel; congruence|done|done|].
    intros ch cl Hcl. apply elem_of_range in Hcl. by apply Hch.
  - case_bool_decide.
    + destruct (p_Channels p !! de_RefName e) as [cl|] eqn:Hcl; [|done]. intros [= <-]. simpl.
      destruct (Hch _ _ Hcl) as (c & Hc & _). unfold derefC. rewrite Hc. simpl. by eapply heap_rel_channel.
    + case_bool_decide; [|done]. case_bool_decide; [|done]. simpl. intros [= <-]. simpl.
      by eapply heap_rel_package.
Qed.

Lemma dep_rel_trans h1 h2 h3 : heap_rel dep_rel h1 h2 -> heap_rel dep_rel h2 h3 -> heap_rel dep_rel h1 h3.
Proof. apply heap_rel_trans. unfold dep_rel. congruence. Qed.

Lemma addDeprecation_rel st h i seen d acc :
  heap_ok h (s_mpkgs st) -> addDeprecation st (h, i, seen) d = inr acc -> heap_rel dep_rel h acc.1.1.
Proof.
  intros Hok. unfold addDeprecation. case_bool_decide; [done|].
  destruct (s_mpkgs st !! cd_Package d) as [pl|] eqn:Hpl; [|done]. destruct (decide _); [done|].
  destruct (foldE _ _ _) as [|acc1] eqn:Hf; [done|].
  apply (foldE_inv _ (fun _ acc => heap_rel dep_rel h acc.1.1)) in Hf.
  - destruct acc1 as [[h1 j] refs]. intros [= <-]. done.
  - by apply heap_rel_refl.
  - intros _ e [[h1 j] refs] acc' HR Hstep. simpl in HR. eapply dep_rel_trans; [done|].
    eapply addDeprecationEntry_rel; [|done|done]. by eapply heap_rel_ok.
Qed.

Lemma addDeprecation_fold st h ds acc :
  heap_ok h (s_mpkgs st) -> foldE (addDeprecation st) (h, O, ∅) ds = inr acc -> heap_rel dep_rel h acc.1.1.
Proof.
  intros Hok. apply (foldE_inv _ (fun _ acc => heap_rel dep_rel h acc.1.1)); [by apply heap_rel_refl|].
  intros _ d [[h1 i] seen] acc' HR Hstep. eapply dep_rel_trans; [done|].
  eapply addDeprecation_rel; [|done]. by eapply heap_rel_ok.
Qed.

(** *** Normalization touches every bundle once *)

Lemma NoDup_flat_map {A B} (f : A -> list B) (l : list A) :
  (forall x1 x2 y, x1 ∈ l -> x2 ∈ l -> y ∈ f x1 -> y ∈ f x2 -> x1 = x2) ->
  (forall x, x ∈ l -> NoDup (f x)) -> NoDup l -> NoDup (flat_map f l).
Proof.
  intros Hinj Hf. induction 1 as [|x l Hx Hl IH]; simpl; [constructor|]. apply NoDup_app. split_and!.
  - set_solver.
  - intros y Hy. rewrite elem_of_flat_map. intros (x' & Hx' & Hy').
    assert (x = x') as -> by (apply (Hinj _ _ y); set_solver). done.
  - apply IH; [|set_solver]. intros x1 x2 y ? ?. apply Hinj; set_solver.
Qed.

Lemma NoDup_range {K V} `{Countable K} (mm : gmap K V) : NoDup (range mm).
Proof. rewrite range_perm. apply NoDup_map_to_list. Qed.

Lemma bundleLocs_NoDup h m : heap_ok h m -> NoDup (bundleLocs h m).
Proof.
  intros Hok.
  assert (Hpath : forall pl ch cl bl, (exists pkg, m !! pkg = Some pl) -> (ch, cl) ∈ range (p_Channels (derefP h pl)) ->
    bl ∈ (range (c_Bundles (derefC h cl))).*2 ->
    exists c b, h_channels h !! cl = Some c /\ c_Name c = ch /\ c_Package c = Some pl /\
      h_bundles h !! bl = Some b /\ b_Channel b = Some cl /\ b_Package b = Some pl /\ c_Bundles c !! b_Name b = Some bl).
  { intros pl ch cl bl [pkg Hpl] Hcl Hbl. destruct (package_channels_ok _ _ _ _ Hok Hpl _ _ Hcl) as (c & Hc & ? & ? & Hbs).
    unfold derefC in Hbl. rewrite Hc in Hbl. apply elem_of_range_vals in Hbl as [n Hn].
    destruct (Hbs _ _ Hn) as (b & ? & <- & ? & ?). eauto 10. }
  apply NoDup_flat_map; [| |apply NoDup_range].
  - intros [pkg1 pl1] [pkg2 pl2] bl Hm1%elem_of_range Hm2%elem_of_range.
    intros ([c1 l1] & Hc1 & Hb1)%elem_of_flat_map ([c2 l2] & Hc2 & Hb2)%elem_of_flat_map.
    destruct (Hpath _ _ _ _ (ex_intro _ _ Hm1) Hc1 Hb1) as (? & b1 & _ & _ & _ & Eb1 & _ & Ep1 & _).
    destruct (Hpath _ _ _ _ (ex_intro _ _ Hm2) Hc2 Hb2) as (? & b2 & _ & _ & _ & Eb2 & _ & Ep2 & _).
    assert (pl1 = pl2) as -> by congruence. f_equal. by eapply heap_ok_inj.
  - intros [pkg pl] Hpl%elem_of_range. apply NoDup_flat_map; [| |apply NoDup_range].
    + intros [c1 l1] [c2 l2] bl Hc1 Hc2 Hb1 Hb2.
      destruct (Hpath _ _ _ _ (ex_intro _ _ Hpl) Hc1 Hb1) as (? & b1 & ? & <- & _ & Eb1 & El1 & _ & _).
      destruct (Hpath _ _ _ _ (ex_intro _ _ Hpl) Hc2 Hb2) as (? & b2 & ? & <- & _ & Eb2 & El2 & _ & _).
      assert (l1 = l2) as -> by congruence. f_equal. congruence.
    + intros [ch cl] Hcl. apply NoDup_fmap_2_strong; [|apply NoDup_range].
      intros [n1 b1] [n2 b2] Hn1 Hn2 E. simpl in E. subst b2.
      destruct (package_channels_ok _ _ _ _ Hok Hpl _ _ Hcl) as (c & Hc & _ & _ & Hbs).
      unfold derefC in Hn1, Hn2. rewrite Hc in Hn1, Hn2. apply elem_of_range in Hn1, Hn2.
      destruct (Hbs _ _ Hn1) as (? & ? & <- & _), (Hbs _ _ Hn2) as (? & ? & <- & _). f_equal. congruence.
Qed.

Lemma normalize_fold (locs : list loc) h :
  NoDup locs ->
  let h' := foldl (fun h bl => setBundle h bl (normalizeBundle (derefB h bl))) h locs in
  h_packages h' = h_packages h /\ h_channels h' = h_channels h /\
  forall bl, h_bundles h' !! bl = (if decide (bl ∈ locs) then normalizeBundle <$> h_bundles h !! bl else h_bundles h !! bl).
Proof.
  revert h. induction locs as [|l locs IH]; intros h Hnd; cbn [foldl].
  { split_and!; [done..|]. intros bl. by rewrite decide_False by apply not_elem_of_nil. }
  apply NoDup_cons in Hnd as [Hl Hnd].
  destruct (IH (setBundle h l (normalizeBundle (derefB h l))) Hnd) as (HP & HC & HB).
  split_and!; [done..|]. intros bl. rewrite HB. simpl. destruct (decide (bl = l)) as [->|Hne].
  - rewrite decide_False by done. rewrite decide_True by set_solver. unfold derefB.
    destruct (h_bundles h !! l) as [b|] eqn:Hb; simpl.
    + by rewrite list_lookup_insert_eq by eauto using lookup_lt_Some.
    + rewrite list_insert_ge by (by apply lookup_ge_None). done.
  - rewrite list_lookup_insert_ne by done. destruct (decide (bl ∈ locs)).
    + by rewrite decide_True by set_solver.
    + by rewrite decide_False by set_solver.
Qed.

Lemma model_bundle_Normalize h m pkg ch n :
  heap_ok h m -> model_bundle (Normalize h m) m pkg ch n = normalizeBundle <$> model_bundle h m pkg ch n.
Proof.
  intros Hok. destruct (normalize_fold (bundleLocs h m) h (bundleLocs_NoDup h m Hok)) as (HP & HC & HB).
  fold (Normalize h m) in HP, HC, HB. unfold model_bundle.
  destruct (m !! pkg) as [pl|] eqn:Hpl; [|done]. simpl. rewrite HP.
  destruct (h_packages h !! pl) as [p|] eqn:Hp; [|done]. simpl.
  destruct (p_Channels p !! ch) as [cl|] eqn:Hcl; [|done]. simpl. rewrite HC.
  destruct (h_channels h !! cl) as [c|] eqn:Hc; [|done]. simpl.
  destruct (c_Bundles c !! n) as [bl|] eqn:Hbl; [|done]. simpl. rewrite HB, decide_True; [done|].
  apply elem_of_flat_map. exists (pkg, pl). split; [by apply elem_of_range|].
  apply elem_of_flat_map. exists (ch, cl). unfold derefP, derefC. rewrite Hp, Hc. simpl.
  split; [by apply elem_of_range|]. apply elem_of_range_vals. eauto.
Qed.

(** *** The whole conversion *)

Lemma valid_model_bundle h m pkg ch n mb :
  heap_ok h m -> valid_model h m -> model_bundle h m pkg ch n = Some mb -> valid_bundle h mb.
Proof.
  intros Hok Hv Hmb. destruct (model_bundle_path _ _ _ _ _ _ Hok Hmb) as (pl & cl & bl & Hpl & Hcl & Hbl & Hb & _ & _).
  destruct (Hv _ _ Hpl) as [_ (_ & _ & Hch & _)]. destruct (Hch _ _ Hcl) as (_ & _ & (_ & _ & _ & _ & Hbs & _)).
  destruct (Hbs _ _ Hbl) as (_ & _ & Hvb). unfold derefB in Hvb. by rewrite Hb in Hvb.
Qed.

Lemma valid_bundle_props h mb : valid_bundle h mb -> b_Properties mb <> [].
Proof. intros (_ & _ & (props & pp & Hp & Hpp) & _) E. rewrite E in Hp. cbn in Hp. injection Hp as <-. done. Qed.

(** The stages of a successful conversion: the model before normalization is valid, and holds
    the bundles the loops built. *)
Lemma ConvertToModel_stages cfg h m :
  ConvertToModel cfg = inr (h, m) ->
  exists h0, h = Normalize h0 m /\ heap_ok h0 m /\ valid_model h0 m /\
    (forall pkg ch n mb, model_bundle h0 m pkg ch n = Some mb ->
       from_entry (cfg_Channels cfg) pkg ch n mb /\ from_blob (cfg_Bundles cfg) pkg n mb) /\
    (forall c e, c ∈ cfg_Channels cfg -> e ∈ cc_Entries c ->
       is_Some (model_bundle h0 m (cc_Package c) (cc_Name c) (ce_Name e))) /\
    (forall b, b ∈ cfg_Bundles cfg -> exists ch, is_Some (model_bundle h0 m (cb_Package b) ch (cb_Name b))).
Proof.
  unfold ConvertToModel.
  intros (st1 & H1' & (st2 & H2' & (st3 & H3' & (st4 & Hdef & ([[h0 i] seen] & H4' & Hend)%bind_inr)%bind_inr)%bind_inr)%bind_inr)%bind_inr.
  unfold checkDefinedEntries in Hdef. destruct (List.find _ _) as [[]|]; [done|]. injection Hdef as <-.
  destruct (Model_Validate h0 (s_mpkgs st3)) eqn:Hval; [done|]. injection Hend as <- <-.
  apply Model_Validate_None in Hval.
  assert (channels_inv (cfg_Channels cfg) st2) as [Hok2 Hdef2 Hent2 Hall2].
  { revert H2'. apply (foldE_inv _ channels_inv); [by eapply channels_inv_start|]. intros. by eapply channels_inv_step. }
  assert (bundles_inv (cfg_Channels cfg) (cfg_Bundles cfg) st3) as [Hok3 Hdef3 Hent3 Hall3 Hblob3].
  { revert H3'. apply (foldE_inv _ (bundles_inv (cfg_Channels cfg))).
    - split; [done|done| |done|by intros b ?%elem_of_nil]. intros ???? [??]%Hent2. auto.
    - intros. by eapply bundles_inv_step. }
  destruct (addDefaultChannel_fold (s_defaultChannels st3) (s_mpkgs st3) (range (s_mpkgs st3)) (s_heap st3))
    as [Hok4 HV4]; [by intros ?? ?%elem_of_range|done..|].
  apply addDeprecation_fold in H4' as HR; [|done]. simpl in HR.
  exists h0. split; [done|]. assert (heap_ok h0 (s_mpkgs st3)) as Hok5 by (by eapply heap_rel_ok). split_and!; [done..| | |].
  - intros pkg ch n mb Hmb. pose proof (valid_bundle_props _ _ (valid_model_bundle _ _ _ _ _ _ Hok5 Hval Hmb)) as Hne.
    destruct (heap_rel_inv _ _ _ _ _ _ _ _ HR Hmb) as (mb0 & Hmb0 & Hd). rewrite HV4 in Hmb0.
    apply Hent3 in Hmb0 as [(c & e & He) Hb]. unfold dep_rel, undeprecated in Hd. injection Hd as ????????????.
    split.
    + exists c, e. unfold entry_fields in *. intuition congruence.
    + destruct Hb as [?|(b & Hb1 & Hb2 & Hb3 & Hb4 & Hbf)]; [congruence|].
      exists b. split_and!; [done..|congruence|]. unfold blob_fields in *.
      destruct Hbf as (? & ? & ? & ? & props & pp & ?). split_and!; [congruence..|]. exists props, pp. intuition congruence.
  - intros c e Hc He. eapply heap_rel_is_Some; [done|]. rewrite HV4. eauto.
  - intros b [ch Hb]%Hblob3. exists ch. eapply heap_rel_is_Some; [done|]. by rewrite HV4.
Qed.
End convert_facts.

(** ** The conversion's contract *)

(** A configuration that converts gives a model whose bundles are exactly the channel entries
    of the configuration, each joined with an [olm.bundle] blob of its package and name: the
    upgrade edges come from the entry, image, properties, related images, objects and version
    from the blob.  No entry and no blob is lost. *)
Theorem ConvertToModel_bundles `{Decoders, SemverLib, NameRules, RangeOrder} (cfg : DeclarativeConfig) (h : Heap) (m : Model) :
  ConvertToModel cfg = inr (h, m) ->
  (forall pkg ch n mb, model_bundle h m pkg ch n = Some mb ->
     exists c e b, c ∈ cfg_Channels cfg /\ e ∈ cc_Entries c /\ b ∈ cfg_Bundles cfg /\
       cc_Package c = pkg /\ cc_Name c = ch /\ ce_Name e = n /\ cb_Package b = pkg /\ cb_Name b = n /\
       entry_fields e mb /\ blob_fields b mb /\ b_Properties mb = normalizeProperty <$> cb_Properties b) /\
  (forall c e, c ∈ cfg_Channels cfg -> e ∈ cc_Entries c ->
     exists mb, model_bundle h m (cc_Package c) (cc_Name c) (ce_Name e) = Some mb) /\
  (forall b, b ∈ cfg_Bundles cfg -> exists ch mb, model_bundle h m (cb_Package b) ch (cb_Name b) = Some mb).
Proof.
  intros (h0 & -> & Hok & _ & Hin & Hent & Hblob)%ConvertToModel_stages. split_and!.
  - intros pkg ch n mb. rewrite model_bundle_Normalize by done. intros (mb0 & Hmb0 & ->)%fmap_Some.
    destruct (Hin _ _ _ _ Hmb0) as [(c & e & ? & ? & ? & ? & ? & ?) (b & ? & ? & ? & Hp & ?)].
    exists c, e, b. split_and!; [done..|]. simpl. by rewrite Hp.
  - intros c e Hc He. rewrite model_bundle_Normalize by done. destruct (Hent c e Hc He) as [mb ->]. simpl. eauto.
  - intros b Hb. destruct (Hblob b Hb) as (ch & mb & Hmb). exists ch, (normalizeBundle mb).
    rewrite model_bundle_Normalize by done. by rewrite Hmb.
Qed.

(** A package with one channel and two bundles. *)
Definition demo_rules : NameRules := {| isDNS1123Label := fun s => negb (bool_decide (s = "")) |}.

Definition demo_blob (name : string) : CfgBundle :=
  mkCfgBundle name "etcd" ("quay.io/" +:+ name) [mkProperty TypePackage ("etcd@" +:+ name)] [] "" [].

Definition demo_config (channels : list CfgChannel) : DeclarativeConfig :=
  mkConfig [mkCfgPackage "etcd" "stable" None ""] channels [demo_blob "v1"; demo_blob "v2"] [].

Definition demo_stable : CfgChannel :=
  mkCfgChannel "stable" "etcd" [mkEntry "v2" "v1" [] ""; mkEntry "v1" "" [] ""] [].

Definition demo_convert (cfg : DeclarativeConfig) : cfgError + (@Heap demo_decoders demo_semver * Model) :=
  @ConvertToModel demo_decoders demo_semver demo_rules canonical_order cfg.

Definition demo_model : @Heap demo_decoders demo_semver * Model :=
  match demo_convert (demo_config [demo_stable]) with inl _ => (@emptyHeap demo_decoders demo_semver, ∅) | inr hm => hm end.

Lemma ConvertToModel_bundles_witness :
  exists mb, @model_bundle demo_decoders demo_semver demo_model.1 demo_model.2 "etcd" "stable" "v2" = Some mb.
Proof.
  apply (@ConvertToModel_bundles demo_decoders demo_semver demo_rules canonical_order (demo_config [demo_stable])
    demo_model.1 demo_model.2 ltac:(vm_compute; reflexivity)) with (c := demo_stable) (e := mkEntry "v2" "v1" [] "");
  apply list_elem_of_In; simpl; auto.
Defined.

(** An entry that no blob defines is reported as such only in the last channel of its package:
    in an earlier channel it surfaces as a validation error of the half-built bundle. *)
Theorem missing_blob_reported :
  let ghost := mkCfgChannel "beta" "etcd" [mkEntry "v3" "" [] ""] [] in
  demo_convert (demo_config [demo_stable; ghost]) = inl (NoBundleBlobs "etcd" ["v3"]) /\
  exists e, demo_convert (demo_config [ghost; demo_stable]) = inl (InvalidModel e).
Proof. split; [vm_compute; reflexivity|]. eexists. vm_compute. reflexivity. Qed.
