(* ===== verification/SatInterface.v ===== *)
(** * The SAT library behind the resolver

    The solver of [pkg/controller/registry/resolver/solver] is written against
    [github.com/go-air/gini]: literals ([z.Lit]), a combinational circuit ([logic.C] and
    [logic.CardSort]) and an incremental SAT solver ([inter.S]).  The library is a parameter of
    the development.  This file states, as two classes, the operations the solver calls and
    what their documentation promises; the resolver's theorems are proved against them.
    [SatDemo] has concrete instances. *)

From S2P Require Import Prelude.
From Stdlib Require Export NArith.

(** ** Literals *)

(** [z.Lit] is a 32-bit word: the variable's index shifted by one, the low bit the negation. *)
Definition Lit : Type := N.
Definition LitNull : Lit := 0%N.
Definition Not (m : Lit) : Lit := N.lxor m 1.
Definition VarOf (m : Lit) : N := N.shiftr m 1.
Definition Pos (v : N) : Lit := N.shiftl v 1.

(** A valuation of the variables, and the value of a literal under it. *)
Definition valuation : Type := N -> bool.
Definition lval (ρ : valuation) (m : Lit) : bool := xorb (ρ (VarOf m)) (N.testbit m 0).

Lemma VarOf_Not m : VarOf (Not m) = VarOf m.
Proof. unfold VarOf, Not. rewrite N.shiftr_lxor. by rewrite N.lxor_0_r. Qed.

Lemma lval_Not ρ m : lval ρ (Not m) = negb (lval ρ m).
Proof.
  unfold lval. rewrite VarOf_Not. unfold Not. rewrite N.lxor_spec.
  change (N.testbit 1 0) with true. by destruct (ρ _), (N.testbit m 0).
Qed.

Lemma VarOf_Pos v : VarOf (Pos v) = v.
Proof. unfold VarOf, Pos. by rewrite N.shiftr_shiftl_l, N.sub_diag, N.shiftl_0_r by done. Qed.

Lemma lval_Pos ρ v : lval ρ (Pos v) = ρ v.
Proof. unfold lval. rewrite VarOf_Pos. unfold Pos. rewrite N.shiftl_spec_low by lia. apply xorb_false_r. Qed.

Lemma Pos_inj v w : Pos v = Pos w -> v = w.
Proof. intros E. by rewrite <- (VarOf_Pos v), E, VarOf_Pos. Qed.

(** All the literals of [ms] are true; the number of true literals. *)
Definition holds (ρ : valuation) (ms : list Lit) : Prop := forall m, m ∈ ms -> lval ρ m = true.
Definition trues (ρ : valuation) (ms : list Lit) : nat := length (filter (fun m => lval ρ m = true) ms).

Lemma holds_app ρ ms ms' : holds ρ (ms ++ ms') <-> holds ρ ms /\ holds ρ ms'.
Proof. unfold holds. setoid_rewrite elem_of_app. naive_solver. Qed.

Lemma holds_cons ρ m ms : holds ρ (m :: ms) <-> lval ρ m = true /\ holds ρ ms.
Proof. unfold holds. setoid_rewrite elem_of_cons. naive_solver. Qed.

Lemma holds_nil ρ : holds ρ [].
Proof. by intros m ?%elem_of_nil. Qed.

Lemma holds_mono ρ ms ms' : ms ⊆ ms' -> holds ρ ms' -> holds ρ ms.
Proof. intros Hsub H m Hm. apply H, Hsub, Hm. Qed.

(** ** Circuits ([logic.C]) *)

Class CircuitOps := {
  C : Type;
  CardSort : Type;
  NewC : C;
  Len : C -> N;                             (** the number of nodes *)
  c_Lit : C -> C * Lit;                     (** a new input *)
  c_Or : C -> Lit -> Lit -> C * Lit;
  c_CardSort : C -> list Lit -> C * CardSort;
  cs_N : CardSort -> Z;
  cs_Leq : CardSort -> Z -> Lit;
  (** [cone c ρ m]: the valuation respects the gates of [c] the literal is computed from. *)
  cone : C -> valuation -> Lit -> Prop;
}.

Section circuit.
Context `{CircuitOps}.

(** Variable indices run from 1 to [Len c - 1]. *)
Definition in_circuit (c : C) (m : Lit) : Prop := (1 <= VarOf m < Len c)%N.
Definition models (c : C) (ρ : valuation) : Prop := forall m, in_circuit c m -> cone c ρ m.
Definition agree (c : C) (ρ ρ' : valuation) : Prop := forall v, (v < Len c)%N -> ρ' v = ρ v.

(** [c'] has the nodes of [c] and further ones that put no condition on the old ones. *)
Definition extends (c c' : C) : Prop :=
  (Len c <= Len c')%N /\
  (forall ρ m, in_circuit c m -> (cone c' ρ m <-> cone c ρ m)) /\
  (forall ρ, models c ρ -> exists ρ', models c' ρ' /\ agree c ρ ρ').

Lemma in_circuit_mono c c' m : extends c c' -> in_circuit c m -> in_circuit c' m.
Proof. intros [? _] ?. unfold in_circuit in *. lia. Qed.

Lemma models_mono c c' ρ : extends c c' -> models c' ρ -> models c ρ.
Proof. intros He Hm m Hin. apply He; [done|]. apply Hm. by eapply in_circuit_mono. Qed.

Lemma agree_lval c ρ ρ' m : agree c ρ ρ' -> in_circuit c m -> lval ρ' m = lval ρ m.
Proof. intros Ha [_ Hlt]. unfold lval. by rewrite Ha. Qed.

Lemma extends_refl c : extends c c.
Proof. split_and!; [lia|done|]. intros ρ Hρ. exists ρ. by split. Qed.

Lemma extends_trans c1 c2 c3 : extends c1 c2 -> extends c2 c3 -> extends c1 c3.
Proof.
  intros He1 He2. pose proof He1 as (Hl1 & Hc1 & Hx1). pose proof He2 as (Hl2 & Hc2 & Hx2). split_and!; [lia| |].
  - intros ρ m Hm. rewrite Hc2 by (by eapply in_circuit_mono). by apply Hc1.
  - intros ρ (ρ2 & Hρ2 & Ha2)%Hx1. destruct (Hx2 _ Hρ2) as (ρ3 & Hρ3 & Ha3). exists ρ3. split; [done|].
    intros v Hv. rewrite Ha3 by lia. by apply Ha2.
Qed.

Lemma in_circuit_Not c m : in_circuit c (Not m) <-> in_circuit c m.
Proof. unfold in_circuit. by rewrite VarOf_Not. Qed.

Lemma in_circuit_nonnull c m : in_circuit c m -> m <> LitNull.
Proof. intros [Hm _] ->. cbv in Hm. done. Qed.
End circuit.

(** What [logic.C] documents. *)
Class Circuit `{CircuitOps} : Prop := {
  (** "One variable for internal use, with index 1, is created when c is created." *)
  Len_NewC : Len NewC = 2%N;
  models_NewC : forall ρ, exists ρ', models NewC ρ' /\ forall v, (2 <= v)%N -> ρ' v = ρ v;
  (** "Lit returns a new variable/input." *)
  c_Lit_spec : forall c c' m, c_Lit c = (c', m) ->
    m = Pos (Len c) /\ Len c' = (Len c + 1)%N /\ extends c c' /\ forall ρ, models c ρ -> models c' ρ;
  (** "Or constructs a literal which is the disjunction of a and b." *)
  c_Or_spec : forall c a b c' m, c_Or c a b = (c', m) -> in_circuit c a -> in_circuit c b ->
    extends c c' /\ in_circuit c' m /\
    forall ρ, cone c' ρ m -> lval ρ m = lval ρ a || lval ρ b;
  (** "The resulting predicates reflect how many of the literals in ms are true." *)
  c_CardSort_spec : forall c ms c' cs, c_CardSort c ms = (c', cs) -> (forall m, m ∈ ms -> in_circuit c m) ->
    extends c c' /\ cs_N cs = Z.of_nat (length ms) /\
    forall w, in_circuit c' (cs_Leq cs w) /\
      forall ρ, cone c' ρ (cs_Leq cs w) -> (lval ρ (cs_Leq cs w) = true <-> (Z.of_nat (trues ρ ms) <= w)%Z);
}.

(** ** The incremental solver ([inter.S]) *)

Class SatOps `{CircuitOps} := {
  G : Type;
  NewG : G;
  Assume : G -> list Lit -> G;
  Test : G -> G * Z;
  Untest : G -> G * Z;
  SolveG : G -> G * Z;
  Value : G -> Lit -> bool;
  Why : G -> list Lit;
  ToCnf : C -> G -> G;                                   (** [c.ToCnf(g)] *)
  CnfSince : C -> G -> list Z -> Lit -> G * list Z;      (** [c.CnfSince(g, marks, root)] *)
  (** The clauses taught so far, as the valuations that satisfy them; the tested assumptions,
      the last scope first; the assumptions not yet tested; whether the last [Test], [Untest]
      or [Solve] reported unsatisfiability. *)
  clauses : G -> valuation -> Prop;
  scopes : G -> list (list Lit);
  pending : G -> list Lit;
  unresolved : G -> bool;
}.

Section sat.
Context `{SatOps}.

Definition satisfiable : Z := 1.
Definition unsatisfiable : Z := -1.
Definition unknown : Z := 0.

Definition in_force (g : G) : list Lit := concat (scopes g).
(** The valuation [Value] reads, for variables. *)
Definition value_of (g : G) : valuation := fun v => Value g (Pos v).
Definition consistent (g : G) (ms : list Lit) (ρ : valuation) : Prop := clauses g ρ /\ holds ρ ms.
Definition refuted (g : G) (ms : list Lit) : Prop := forall ρ, ~ consistent g ms ρ.
(** [Why] names a part of [ms] that is impossible. *)
Definition blames (g : G) (ms : list Lit) : Prop := Why g ⊆ ms /\ refuted g (Why g).
(** Nothing is assumed or tested. *)
Definition idle (g : G) : Prop := scopes g = [] /\ pending g = [].
(** The gates [marks] sets are taught. *)
Definition marks_taught (c : C) (g : G) (marks : list Z) : Prop :=
  forall i, (1 <= i)%nat -> marks !! i = Some 1%Z -> forall ρ, clauses g ρ -> cone c ρ (Pos (N.of_nat i)).
End sat.

(** What [inter.S] documents.  Nothing is said of [Value] but after a satisfiable [Test] or
    [Solve], and [Test] may be called only when the last answer was not unsatisfiable. *)
Class Sat `{SatOps} : Prop := {
  NewG_spec : idle NewG /\ unresolved NewG = false /\ forall ρ, clauses NewG ρ;
  Assume_spec : forall g ms, clauses (Assume g ms) = clauses g /\ scopes (Assume g ms) = scopes g /\
    pending (Assume g ms) = pending g ++ ms /\ unresolved (Assume g ms) = unresolved g;
  (** "Test the current assumptions under unit propagation.  Once Test is called on a set of
      assumptions, all future calls to Solve do not consume and forget assumptions prior to test." *)
  Test_spec : forall g g' r, Test g = (g', r) -> unresolved g = false ->
    clauses g' = clauses g /\ scopes g' = pending g :: scopes g /\ pending g' = [] /\
    unresolved g' = (r =? unsatisfiable)%Z /\
    (r = satisfiable \/ r = unknown \/ r = unsatisfiable) /\
    (r = satisfiable -> consistent g' (in_force g') (value_of g')) /\
    (r = unsatisfiable -> blames g' (in_force g'));
  (** "Untest removes the assumptions from the last test.  Untest returns -1 if the result is
      UNSAT, and 0 (indicating unknown) otherwise." *)
  Untest_spec : forall g g' r sc rest, Untest g = (g', r) -> scopes g = sc :: rest -> pending g = [] ->
    clauses g' = clauses g /\ scopes g' = rest /\ pending g' = [] /\
    unresolved g' = (r =? unsatisfiable)%Z /\
    (r = unknown \/ r = unsatisfiable) /\
    (r = unsatisfiable -> blames g' (in_force g'));
  (** "Solve() consumes and forgets any untested assumptions." *)
  SolveG_spec : forall g g' r, SolveG g = (g', r) ->
    clauses g' = clauses g /\ scopes g' = scopes g /\ pending g' = [] /\
    unresolved g' = (r =? unsatisfiable)%Z /\
    (r = satisfiable \/ r = unsatisfiable) /\
    (r = satisfiable -> consistent g' (in_force g ++ pending g) (value_of g')) /\
    (r = unsatisfiable -> blames g' (in_force g ++ pending g));
  ToCnf_spec : forall c g, idle g ->
    idle (ToCnf c g) /\ unresolved (ToCnf c g) = unresolved g /\
    forall ρ, clauses (ToCnf c g) ρ <-> clauses g ρ /\ models c ρ;
  (** "CnfSince adds the circuit rooted at roots to dst assuming mark marks all already added
      nodes in the circuit." *)
  CnfSince_spec : forall c g marks m g' marks', CnfSince c g marks m = (g', marks') ->
    idle g -> in_circuit c m -> marks_taught c g marks ->
    idle g' /\ unresolved g' = unresolved g /\ marks_taught c g' marks' /\
    forall ρ, clauses g' ρ <-> clauses g ρ /\ cone c ρ m;
}.
