(* ===== verification/SatDemo.v ===== *)
(** * Concrete instances of the SAT interfaces

    A circuit of disjunctions and cardinality gates, and a backtracking solver whose [Test] is
    as weak as the interface allows.  They show that the hypotheses of [SatInterface] can hold, and
    let the resolver's definitions run. *)

From S2P Require Import Prelude SatInterface.

(** ** A circuit *)

Inductive gate := GTrue | GIn | GOr (a b : Lit) | GLeq (ms : list Lit) (w : nat).

(** The gates from index 2 on; index 1 is the constant true. *)
Abbreviation dC := (list gate).
Definition dLen (c : dC) : N := N.of_nat (2 + length c).
Definition node (c : dC) (i : nat) : option gate := match i with 0 => None | 1 => Some GTrue | S (S i) => c !! i end.

Definition below (i : nat) (ρ : valuation) : valuation := fun v => if (v <? N.of_nat i)%N then ρ v else false.

Definition gate_val (i : nat) (ρ : valuation) (g : gate) : bool :=
  match g with
  | GTrue => true
  | GIn => ρ (N.of_nat i)
  | GOr a b => lval (below i ρ) a || lval (below i ρ) b
  | GLeq ms w => (trues (below i ρ) ms <=? w)%nat
  end.

Definition gate_ok (c : dC) (ρ : valuation) (i : nat) : Prop :=
  forall g, node c i = Some g -> ρ (N.of_nat i) = gate_val i ρ g.

Definition dcone (c : dC) (ρ : valuation) (m : Lit) : Prop :=
  forall i, (1 <= i)%nat -> (N.of_nat i <= N.max 1 (VarOf m))%N -> gate_ok c ρ i.

Definition dCardSort (c : dC) (ms : list Lit) : dC * (N * nat) :=
  (c ++ ((fun w => GLeq ms w) <$> seq 0 (length ms)), (dLen c, length ms)).

Definition dLeq (cs : N * nat) (w : Z) : Lit :=
  if (w <? 0)%Z then Not (Pos 1) else if (Z.of_nat cs.2 <=? w)%Z then Pos 1 else Pos (cs.1 + Z.to_N w)%N.

Definition demo_circuit_ops : CircuitOps := {|
  C := dC; CardSort := N * nat; NewC := []; Len := dLen;
  c_Lit := fun c => (c ++ [GIn], Pos (dLen c));
  c_Or := fun c a b => (c ++ [GOr a b], Pos (dLen c));
  c_CardSort := dCardSort; cs_N := fun cs => Z.of_nat cs.2; cs_Leq := dLeq; cone := dcone
|}.

#[local] Existing Instance demo_circuit_ops.

Lemma below_lval i ρ m : (VarOf m < N.of_nat i)%N -> lval (below i ρ) m = lval ρ m.
Proof. intros Hlt. unfold lval, below. by apply N.ltb_lt in Hlt as ->. Qed.

Lemma lval_ext ρ ρ' m : ρ (VarOf m) = ρ' (VarOf m) -> lval ρ m = lval ρ' m.
Proof. unfold lval. by intros ->. Qed.

Lemma trues_ext ρ ρ' ms : (forall m, m ∈ ms -> lval ρ m = lval ρ' m) -> trues ρ ms = trues ρ' ms.
Proof.
  unfold trues. induction ms as [|m ms IH]; intros Heq; [done|]. rewrite !filter_cons.
  rewrite <- (Heq m) by set_solver. destruct (decide _); simpl; rewrite IH; set_solver.
Qed.

(** A gate depends on the nodes below it. *)
Lemma gate_val_ext_lt i ρ ρ' g :
  (forall v, (v < N.of_nat i)%N -> ρ v = ρ' v) -> g = GIn \/ gate_val i ρ g = gate_val i ρ' g.
Proof.
  intros Heq. assert (Hl : forall m, lval (below i ρ) m = lval (below i ρ') m).
  { intros m. apply lval_ext. unfold below. destruct (N.ltb_spec (VarOf m) (N.of_nat i)); [|done]. by apply Heq. }
  destruct g; [by right|by left|right; simpl..]; [by rewrite !Hl|].
  by rewrite (trues_ext (below i ρ) (below i ρ')) by done.
Qed.

Lemma gate_val_ext i ρ ρ' g :
  (forall v, (v <= N.of_nat i)%N -> ρ v = ρ' v) -> gate_val i ρ g = gate_val i ρ' g.
Proof.
  intros Heq. destruct (gate_val_ext_lt i ρ ρ' g) as [->|?]; [intros; apply Heq; lia| |done].
  apply Heq. lia.
Qed.

Lemma node_last c g : node (c ++ [g]) (S (S (length c))) = Some g.
Proof. simpl. by apply list_lookup_middle. Qed.

Lemma gate_ok_ext c ρ ρ' i : (forall v, (v <= N.of_nat i)%N -> ρ v = ρ' v) -> gate_ok c ρ i -> gate_ok c ρ' i.
Proof. intros Heq Hi g Hn. rewrite <- Heq, <- (gate_val_ext i ρ ρ' g) by (auto; lia). auto. Qed.

Lemma node_app c g i : (N.of_nat i < dLen c)%N -> node (c ++ [g]) i = node c i.
Proof. unfold dLen. destruct i as [|[|i]]; [done..|]. simpl. intros. apply lookup_app_l. lia. Qed.

Lemma gate_ok_app c g ρ i : (N.of_nat i < dLen c)%N -> gate_ok (c ++ [g]) ρ i <-> gate_ok c ρ i.
Proof. intros Hi. unfold gate_ok. rewrite node_app by done. done. Qed.

Lemma dLen_app c g : dLen (c ++ [g]) = (dLen c + 1)%N.
Proof. unfold dLen. rewrite length_app. simpl. lia. Qed.

Lemma models_gates c ρ : models c ρ <-> forall i, (1 <= i)%nat -> (N.of_nat i < dLen c)%N -> gate_ok c ρ i.
Proof.
  unfold models, in_circuit. simpl. split.
  - intros Hm i H1 Hi. apply (Hm (Pos (N.of_nat i))); rewrite ?VarOf_Pos; lia.
  - intros Hg m Hm i H1 Hi. apply Hg; [done|]. lia.
Qed.

Lemma extends_push c g : extends c (c ++ [g]).
Proof.
  split_and!; simpl.
  - rewrite dLen_app. lia.
  - intros ρ m [Hm1 Hm2]. simpl in *. unfold dcone.
    split; intros Hi i H1 Hle; (eapply gate_ok_app; [|by apply Hi]); lia.
  - intros ρ Hρ. rewrite models_gates in Hρ.
    set (n := S (S (length c))). assert (dLen c = N.of_nat n) as En by (unfold dLen, n; lia).
    set (ρ' := fun v => if (v =? dLen c)%N then gate_val n ρ g else ρ v). exists ρ'.
    assert (Hlow : forall v, (v < N.of_nat n)%N -> ρ v = ρ' v).
    { intros v Hv. unfold ρ'. destruct (N.eqb_spec v (dLen c)); [lia|done]. }
    split; [|intros v Hv; symmetry; apply Hlow; simpl in Hv; lia].
    apply models_gates. intros i H1. rewrite dLen_app. intros Hi. destruct (decide (i = n)) as [->|Hne].
    + intros g' Hg'. unfold n in Hg'. rewrite node_last in Hg'. injection Hg' as <-.
      assert (ρ' (N.of_nat n) = gate_val n ρ g) as E by (unfold ρ'; by rewrite En, N.eqb_refl).
      destruct (gate_val_ext_lt n ρ ρ' g Hlow) as [->|Hg]; [done|]. by rewrite E, Hg.
    + apply gate_ok_app; [lia|]. eapply gate_ok_ext; [intros; apply Hlow; lia|]. apply Hρ; lia.
Qed.

Lemma extends_app c gs : extends c (c ++ gs).
Proof.
  revert c. induction gs as [|g gs IH]; intros c; [rewrite app_nil_r; apply extends_refl|].
  rewrite (app_assoc c [g] gs : c ++ g :: gs = _). eapply extends_trans; [apply extends_push|apply IH].
Qed.

Lemma push_ok c g ρ : gate_ok (c ++ [g]) ρ (S (S (length c))) -> ρ (dLen c) = gate_val (S (S (length c))) ρ g.
Proof. intros Hg. apply Hg, node_last. Qed.

Lemma dcone_gate c ρ m i : dcone c ρ m -> (1 <= i)%nat -> (N.of_nat i <= VarOf m)%N -> gate_ok c ρ i.
Proof. intros Hc ??. apply Hc; [done|]. lia. Qed.

Lemma dLeq_ok c ms w ρ :
  (forall m, m ∈ ms -> in_circuit c m) ->
  in_circuit (dCardSort c ms).1 (dLeq (dCardSort c ms).2 w) /\
  (dcone (dCardSort c ms).1 ρ (dLeq (dCardSort c ms).2 w) ->
   (lval ρ (dLeq (dCardSort c ms).2 w) = true <-> (Z.of_nat (trues ρ ms) <= w)%Z)).
Proof.
  intros Hin. unfold dLeq, dCardSort, in_circuit. simpl. set (gs := _ <$> seq 0 (length ms)).
  assert (length gs = length ms) as Hgs by (unfold gs; by rewrite length_fmap, length_seq).
  assert (trues ρ ms <= length ms)%nat as Hle by apply length_filter.
  destruct (Z.ltb_spec w 0); [|destruct (Z.leb_spec (Z.of_nat (length ms)) w)].
  - rewrite VarOf_Not, VarOf_Pos. split; [unfold dLen; lia|]. intros Hc.
    rewrite lval_Not, lval_Pos, (Hc 1%nat ltac:(lia) ltac:(lia) GTrue eq_refl : ρ 1%N = true). split; [done|lia].
  - rewrite VarOf_Pos. split; [unfold dLen; lia|]. intros Hc. rewrite lval_Pos, (Hc 1%nat ltac:(lia) ltac:(lia) GTrue eq_refl : ρ 1%N = true). split; [lia|done].
  - rewrite VarOf_Pos. split; [unfold dLen; rewrite length_app; lia|]. intros Hc.
    set (k := Z.to_nat w). assert (dLen c + Z.to_N w = N.of_nat (S (S (length c + k))))%N as En by (unfold dLen; lia).
    rewrite lval_Pos, En. pose proof (dcone_gate _ _ _ (S (S (length c + k))) Hc) as Hg.
    rewrite (Hg ltac:(lia) ltac:(rewrite VarOf_Pos; lia) (GLeq ms k)).
    + simpl. rewrite (trues_ext _ ρ); [rewrite Nat.leb_le; lia|].
      intros m Hm. apply below_lval. apply Hin in Hm as [_ Hm]. simpl in Hm. unfold dLen in Hm. lia.
    + simpl. rewrite lookup_app_r by lia. replace (length c + k - length c)%nat with k by lia.
      unfold gs. rewrite list_lookup_fmap, lookup_seq_lt by lia. done.
Qed.

Lemma demo_circuit : Circuit.
Proof.
  split.
  - done.
  - intros ρ. exists (fun v => if (v =? 1)%N then true else ρ v). split.
    + apply models_gates. intros i H1 Hi. unfold dLen in Hi. simpl in Hi. assert (i = 1%nat) as -> by lia. by intros g [= <-].
    + intros v Hv. destruct (N.eqb_spec v 1); [lia|done].
  - intros c c' m [= <- <-]. split_and!; [done|apply dLen_app|apply extends_push|].
    intros ρ. rewrite !models_gates. intros Hg i H1. rewrite dLen_app. intros Hi.
    destruct (decide (i = S (S (length c)))) as [->|Hne].
    + intros g. rewrite node_last. by intros [= <-].
    + apply gate_ok_app; [unfold dLen in *; lia|]. apply Hg; unfold dLen in *; lia.
  - intros c a b c' m [= <- <-] Ha Hb. split_and!; [apply extends_push| |].
    + unfold in_circuit. simpl. rewrite VarOf_Pos, dLen_app. unfold dLen. lia.
    + intros ρ Hc. rewrite lval_Pos.
      rewrite (push_ok c (GOr a b) ρ) by (eapply dcone_gate; [exact Hc|lia|rewrite VarOf_Pos; unfold dLen; lia]).
      simpl. destruct Ha as [_ Ha], Hb as [_ Hb]. simpl in Ha, Hb. unfold dLen in *.
      rewrite !below_lval by lia. done.
  - intros c ms c' cs [= <- <-] Hin. split_and!; [apply extends_app|done|].
    intros w. split; [apply (dLeq_ok c ms w (fun _ => false) Hin)|]. intros ρ. apply (dLeq_ok c ms w ρ Hin).
Qed.

(** ** A solver *)

(** The gates taught, the scopes, the pending assumptions, the last answer, the last model and
    the assumptions blamed. *)
Record dG := mkG {
  g_gates : list (nat * gate); g_scopes : list (list Lit); g_pending : list Lit;
  g_unres : bool; g_model : list bool; g_why : list Lit
}.

Definition of_list (l : list bool) : valuation := fun v => nth (N.to_nat v) l false.

Definition allowed (gs : list (nat * gate)) (ms : list Lit) (prefix : list bool) (b : bool) : bool :=
  let i := length prefix in
  let ρ := of_list (prefix ++ [b]) in
  forallb (fun '(j, gt) => negb (j =? i)%nat || eqb b (gate_val i ρ gt)) gs &&
  forallb (fun m => negb (VarOf m =? N.of_nat i)%N || lval ρ m) ms.

(** The variables in order, false first. *)
Fixpoint dfs (n : nat) (gs : list (nat * gate)) (ms : list Lit) (prefix : list bool) : option (list bool) :=
  match n with
  | 0 => Some prefix
  | S n =>
      match (if allowed gs ms prefix false then dfs n gs ms (prefix ++ [false]) else None) with
      | Some r => Some r
      | None => if allowed gs ms prefix true then dfs n gs ms (prefix ++ [true]) else None
      end
  end.

Definition bound (gs : list (nat * gate)) (ms : list Lit) : nat :=
  S (foldr Nat.max 0 (gs.*1) `max` foldr Nat.max 0 ((fun m => N.to_nat (VarOf m)) <$> ms)).

Definition decide_sat (gs : list (nat * gate)) (ms : list Lit) : option (list bool) := dfs (bound gs ms) gs ms [].

Definition dSolve (g : dG) : dG * Z :=
  let ms := concat (g_scopes g) ++ g_pending g in
  match decide_sat (g_gates g) ms with
  | Some r => (mkG (g_gates g) (g_scopes g) [] false r [], 1%Z)
  | None => (mkG (g_gates g) (g_scopes g) [] true [] ms, (-1)%Z)
  end.

(** [Test] always answers "unknown". *)
Definition dTest (g : dG) : dG * Z :=
  (mkG (g_gates g) (g_pending g :: g_scopes g) [] false [] [], 0%Z).

Definition dUntest (g : dG) : dG * Z :=
  let ms := concat (tail (g_scopes g)) in
  match decide_sat (g_gates g) ms with
  | Some _ => (mkG (g_gates g) (tail (g_scopes g)) (g_pending g) false [] [], 0%Z)
  | None => (mkG (g_gates g) (tail (g_scopes g)) (g_pending g) true [] ms, (-1)%Z)
  end.

(** The gates of the nodes from 1 to [n]. *)
Definition gates_upto (c : dC) (n : nat) : list (nat * gate) :=
  omap (fun i => (fun gt => (i, gt)) <$> node c i) (seq 1 n).

Definition teach (g : dG) (gs : list (nat * gate)) : dG :=
  mkG (g_gates g ++ gs) (g_scopes g) (g_pending g) (g_unres g) (g_model g) (g_why g).

Definition gates_hold (gs : list (nat * gate)) (ρ : valuation) : Prop :=
  forall i gt, (i, gt) ∈ gs -> ρ (N.of_nat i) = gate_val i ρ gt.

Definition demo_sat_ops : SatOps := {|
  G := dG; NewG := mkG [] [] [] false [] [];
  Assume := fun g ms => mkG (g_gates g) (g_scopes g) (g_pending g ++ ms) (g_unres g) (g_model g) (g_why g);
  Test := dTest; Untest := dUntest; SolveG := dSolve;
  Value := fun g m => lval (of_list (g_model g)) m; Why := g_why;
  ToCnf := fun c g => teach g (gates_upto c (S (length c)));
  CnfSince := fun c g marks m => (teach g (gates_upto c (N.to_nat (N.max 1 (VarOf m)))), marks);
  clauses := fun g => gates_hold (g_gates g); scopes := g_scopes; pending := g_pending; unresolved := g_unres
|}.

#[local] Existing Instance demo_sat_ops.

(** The conditions on the variables below [n]. *)
Definition ok_upto (n : nat) (gs : list (nat * gate)) (ms : list Lit) (ρ : valuation) : Prop :=
  (forall i gt, (i, gt) ∈ gs -> (i < n)%nat -> ρ (N.of_nat i) = gate_val i ρ gt) /\
  (forall m, m ∈ ms -> (VarOf m < N.of_nat n)%N -> lval ρ m = true).

Lemma of_list_app l b v : (v < N.of_nat (length l))%N -> of_list (l ++ [b]) v = of_list l v.
Proof. intros Hv. unfold of_list. apply app_nth1. lia. Qed.

Lemma of_list_last l b : of_list (l ++ [b]) (N.of_nat (length l)) = b.
Proof. unfold of_list. rewrite Nat2N.id, app_nth2, Nat.sub_diag by lia. done. Qed.

Lemma allowed_iff gs ms prefix b :
  allowed gs ms prefix b = true <->
  (forall gt, (length prefix, gt) ∈ gs -> b = gate_val (length prefix) (of_list (prefix ++ [b])) gt) /\
  (forall m, m ∈ ms -> VarOf m = N.of_nat (length prefix) -> lval (of_list (prefix ++ [b])) m = true).
Proof.
  unfold allowed. rewrite andb_true_iff, !forallb_elem_of. split.
  - intros [Hg Hm]. split.
    + intros gt Hgt. specialize (Hg _ Hgt). simpl in Hg. rewrite Nat.eqb_refl in Hg. simpl in Hg. by apply eqb_prop.
    + intros m Hin Hv. specialize (Hm _ Hin). by rewrite Hv, N.eqb_refl in Hm.
  - intros [Hg Hm]. split.
    + intros [j gt] Hgt. destruct (Nat.eqb_spec j (length prefix)) as [->|]; [|done]. simpl. apply eqb_true_iff. auto.
    + intros m Hin. destruct (N.eqb_spec (VarOf m) (N.of_nat (length prefix))); [|done]. simpl. auto.
Qed.

Lemma ok_upto_ext n gs ms ρ ρ' :
  (forall v, (v < N.of_nat n)%N -> ρ v = ρ' v) -> ok_upto n gs ms ρ -> ok_upto n gs ms ρ'.
Proof.
  intros Heq [Hg Hm]. split.
  - intros i gt Hin Hi. rewrite <- Heq, <- (gate_val_ext i ρ ρ') by (intros; try apply Heq; lia). eauto.
  - intros m Hin Hv. rewrite <- (lval_ext ρ ρ') by (by apply Heq). eauto.
Qed.

Lemma ok_upto_snoc gs ms prefix b :
  ok_upto (length prefix) gs ms (of_list prefix) -> allowed gs ms prefix b = true ->
  ok_upto (length (prefix ++ [b])) gs ms (of_list (prefix ++ [b])).
Proof.
  intros Hok%(ok_upto_ext _ _ _ _ (of_list (prefix ++ [b]))) [Hg Hm]%allowed_iff.
  2: { intros v Hv. symmetry. by apply of_list_app. }
  destruct Hok as [Hg0 Hm0]. rewrite length_app. simpl. split.
  - intros i gt Hin Hi. destruct (decide (i = length prefix)) as [->|]; [|apply Hg0; [done|lia]].
    rewrite of_list_last. auto.
  - intros m Hin Hv. destruct (decide (VarOf m = N.of_nat (length prefix))); [auto|]. apply Hm0; [done|lia].
Qed.

Lemma dfs_sound n gs ms prefix r :
  ok_upto (length prefix) gs ms (of_list prefix) -> dfs n gs ms prefix = Some r ->
  ok_upto (length prefix + n) gs ms (of_list r).
Proof.
  revert prefix. induction n as [|n IH]; intros prefix Hok; simpl.
  { intros [= <-]. by rewrite Nat.add_0_r. }
  assert (Hb : forall b, allowed gs ms prefix b = true -> dfs n gs ms (prefix ++ [b]) = Some r ->
    ok_upto (length prefix + S n) gs ms (of_list r)).
  { intros b Ha Hr. apply IH in Hr; [|by apply ok_upto_snoc]. rewrite length_app in Hr. simpl in Hr.
    by replace (length prefix + S n) with (length prefix + 1 + n) by lia. }
  destruct (allowed gs ms prefix false) eqn:Ef; [destruct (dfs n gs ms (prefix ++ [false])) eqn:Ed|].
  - intros [= ->]. by eapply Hb.
  - destruct (allowed gs ms prefix true) eqn:Et; [|done]. by apply Hb.
  - destruct (allowed gs ms prefix true) eqn:Et; [|done]. by apply Hb.
Qed.

Lemma dfs_complete n gs ms prefix ρ :
  gates_hold gs ρ -> holds ρ ms -> (forall v, (v < N.of_nat (length prefix))%N -> of_list prefix v = ρ v) ->
  dfs n gs ms prefix <> None.
Proof.
  intros Hg Hm. revert prefix. induction n as [|n IH]; intros prefix Hpre; simpl; [done|].
  set (b := ρ (N.of_nat (length prefix))).
  assert (Hpre' : forall v, (v < N.of_nat (length (prefix ++ [b])))%N -> of_list (prefix ++ [b]) v = ρ v).
  { intros v. rewrite length_app. simpl. intros Hv.
    destruct (decide (v = N.of_nat (length prefix))) as [->|]; [apply of_list_last|].
    rewrite of_list_app by lia. apply Hpre. lia. }
  assert (allowed gs ms prefix b = true) as Hb.
  { apply allowed_iff. rewrite length_app in Hpre'. simpl in Hpre'. split.
    - intros gt Hin. rewrite (gate_val_ext _ _ ρ) by (intros; apply Hpre'; lia). by apply Hg.
    - intros m Hin Hv. rewrite (lval_ext _ ρ) by (apply Hpre'; lia). by apply Hm. }
  specialize (IH _ Hpre'). destruct b.
  - destruct (if allowed gs ms prefix false then _ else None); [done|]. by rewrite Hb.
  - rewrite Hb. by destruct (dfs n gs ms (prefix ++ [false])).
Qed.

Lemma foldr_max_ge (l : list nat) x : x ∈ l -> (x <= foldr Nat.max 0 l)%nat.
Proof. induction 1; simpl; lia. Qed.

Lemma decide_sat_Some gs ms r : decide_sat gs ms = Some r -> gates_hold gs (of_list r) /\ holds (of_list r) ms.
Proof.
  intros Hr. apply dfs_sound in Hr as [Hg Hm]; [|split; simpl; intros; lia]. simpl in *. split.
  - intros i gt Hin. apply Hg; [done|]. unfold bound.
    assert (i <= foldr Nat.max 0 gs.*1)%nat; [|lia]. apply foldr_max_ge. by apply (list_elem_of_fmap_2 fst) in Hin.
  - intros m Hin. apply Hm; [done|]. unfold bound.
    assert (N.to_nat (VarOf m) <= foldr Nat.max 0 ((fun m => N.to_nat (VarOf m)) <$> ms))%nat; [|lia].
    apply foldr_max_ge. by apply (list_elem_of_fmap_2 (fun m => N.to_nat (VarOf m))) in Hin.
Qed.

Lemma decide_sat_None gs ms ρ : decide_sat gs ms = None -> gates_hold gs ρ -> ~ holds ρ ms.
Proof. intros Hn Hg Hm. apply (dfs_complete (bound gs ms) gs ms [] ρ Hg Hm) in Hn; [done|]. simpl. lia. Qed.

Lemma gates_hold_app gs gs' ρ : gates_hold (gs ++ gs') ρ <-> gates_hold gs ρ /\ gates_hold gs' ρ.
Proof. unfold gates_hold. setoid_rewrite elem_of_app. naive_solver. Qed.

Lemma gates_upto_hold c n ρ :
  gates_hold (gates_upto c n) ρ <-> forall i, (1 <= i <= n)%nat -> gate_ok c ρ i.
Proof.
  unfold gates_hold, gates_upto, gate_ok. setoid_rewrite list_elem_of_omap. split.
  - intros Hg i Hi gt Hgt. apply Hg. exists i. split; [apply elem_of_seq; lia|]. by rewrite Hgt.
  - intros Hg i gt (j & Hj%elem_of_seq & (gt' & Hn & [= -> ->])%fmap_Some). apply Hg; [lia|done].
Qed.

Lemma value_of_model g : forall v, value_of g v = of_list (g_model g) v.
Proof. intros v. unfold value_of. simpl. apply lval_Pos. Qed.

Lemma consistent_model g ms : gates_hold (g_gates g) (of_list (g_model g)) -> holds (of_list (g_model g)) ms ->
  consistent g ms (value_of g).
Proof.
  intros Hg Hm. split.
  - intros i gt Hin. rewrite value_of_model, <- (gate_val_ext i (of_list (g_model g))); [by apply Hg|].
    intros v _. symmetry. apply value_of_model.
  - intros m Hin. rewrite (lval_ext _ (of_list (g_model g))) by apply value_of_model. by apply Hm.
Qed.

Lemma demo_sat : Sat.
Proof.
  split.
  - split_and!; [done..|]. by intros ρ i gt ?%elem_of_nil.
  - done.
  - intros g g' r [= <- <-] _. split_and!; simpl; auto; done.
  - intros g g' r sc rest. simpl. unfold dUntest.
    destruct (decide_sat _ _) eqn:Ed; intros [= <- <-] Hsc Hp; rewrite Hsc in *; simpl in *; split_and!; auto; try done.
    intros _. split; [done|]. intros ρ [Hg Hm]. exact (decide_sat_None _ _ ρ Ed Hg Hm).
  - intros g g' r. simpl. unfold dSolve. destruct (decide_sat _ _) eqn:Ed; intros [= <- <-]; split_and!; simpl; auto; try done.
    + intros _. apply decide_sat_Some in Ed as [Hg Hm]. by apply consistent_model.
    + intros _. split; [done|]. intros ρ [Hg Hm]. exact (decide_sat_None _ _ ρ Ed Hg Hm).
  - intros c g Hi. split_and!; [done..|]. intros ρ. simpl. rewrite gates_hold_app, gates_upto_hold, models_gates.
    unfold dLen. split; intros [Hg Hc]; (split; [done|]); intros i ?; intros; apply Hc; lia.
  - intros c g marks m g' marks' [= <- <-] Hi Hin Hmk. split_and!; [done..| |].
    + intros i H1 Hi' ρ [Hg _]%gates_hold_app. by apply (Hmk i).
    + intros ρ. simpl. rewrite gates_hold_app, gates_upto_hold. unfold dcone.
      split; intros [Hg Hc]; (split; [done|]); intros i ?; intros; apply Hc; lia.
Qed.
