(* ===== verification/LitMapping.v ===== *)
(** * Variables, constraints and their encoding

    Models [solver/variable.go], [solver/constraints.go] and [solver/lit_mapping.go] of
    [pkg/controller/registry/resolver], with [prettyConstraint] of [variable_types.go].  The
    specification is the meaning of a constraint on a selection of identifiers ([sat]) and of
    a problem ([solution]); the theorems say that the literals [newLitMapping] computes encode
    exactly that. *)

From stdpp Require Import pretty.
From S2P Require Import Prelude GoStrings SatInterface SatDemo.

(** ** Constraints and variables *)

Definition Identifier : Type := string.

(** The implementations of the [Constraint] interface. *)
Inductive Constraint :=
  | zeroConstraint
  | mandatory
  | prohibited
  | dependency (ids : list Identifier)
  | conflict (id : Identifier)
  | leq (ids : list Identifier) (n : Z)
  | prettyConstraint (inner : Constraint) (msg : string).

Definition Constraint_String (k : Constraint) (subject : Identifier) : string :=
  match k with
  | zeroConstraint => ""
  | mandatory => subject +:+ " is mandatory"
  | prohibited => subject +:+ " is prohibited"
  | dependency [] => subject +:+ " has a dependency without any candidates to satisfy it"
  | dependency ids => subject +:+ " requires at least one of " +:+ Join ids ", "
  | conflict id => subject +:+ " conflicts with " +:+ id
  | leq ids n => subject +:+ " permits at most " +:+ pretty n +:+ " of " +:+ Join ids ", "
  | prettyConstraint _ msg => msg
  end.

Fixpoint order (k : Constraint) : list Identifier :=
  match k with dependency ids => ids | prettyConstraint k _ => order k | _ => [] end.

Fixpoint anchor (k : Constraint) : bool :=
  match k with mandatory => true | prettyConstraint k _ => anchor k | _ => false end.

(** [Variable]: the interface's two methods. *)
Record SVariable := mkVariable { v_Identifier : Identifier; v_Constraints : list Constraint }.
Definition zeroVariable : SVariable := mkVariable "" [].

Record AppliedConstraint := mkApplied { ac_Variable : SVariable; ac_Constraint : Constraint }.
Definition Applied_String (a : AppliedConstraint) : string :=
  Constraint_String (ac_Constraint a) (v_Identifier (ac_Variable a)).

(** ** The mapping *)

Inductive lmError := VariableNotProvided (id : Identifier) | NoVariableFor (m : Lit) | NoConstraintFor (m : Lit).

Section mapping.
Context `{CircuitOps}.

Record litMapping := mkLM {
  inorder : list SVariable;
  variables : gmap Lit SVariable;
  lits : gmap Identifier Lit;
  constraints : gmap Lit AppliedConstraint;
  circuit : C;
  errs : list lmError
}.

Definition setCircuit (d : litMapping) (c : C) : litMapping :=
  mkLM (inorder d) (variables d) (lits d) (constraints d) c (errs d).
Definition addErr (d : litMapping) (e : lmError) : litMapping :=
  mkLM (inorder d) (variables d) (lits d) (constraints d) (circuit d) (errs d ++ [e]).

Definition LitOf (d : litMapping) (id : Identifier) : litMapping * Lit :=
  match lits d !! id with
  | Some m => (d, m)
  | None => (addErr d (VariableNotProvided id), LitNull)
  end.

Definition VariableOf (d : litMapping) (m : Lit) : litMapping * SVariable :=
  match variables d !! m with
  | Some v => (d, v)
  | None => (addErr d (NoVariableFor m), zeroVariable)
  end.

Definition ConstraintOf (d : litMapping) (m : Lit) : litMapping * AppliedConstraint :=
  match constraints d !! m with
  | Some a => (d, a)
  | None => (addErr d (NoConstraintFor m), mkApplied zeroVariable zeroConstraint)
  end.

(** Several calls of [LitOf] in a row. *)
Fixpoint LitsOf (d : litMapping) (ids : list Identifier) : litMapping * list Lit :=
  match ids with
  | [] => (d, [])
  | id :: ids =>
      let '(d, m) := LitOf d id in
      let '(d, ms) := LitsOf d ids in
      (d, m :: ms)
  end.

(** [for _, each := range constraint { m = c.Or(m, lm.LitOf(each)) }] *)
Fixpoint orLits (d : litMapping) (m : Lit) (ids : list Identifier) : litMapping * Lit :=
  match ids with
  | [] => (d, m)
  | id :: ids =>
      let '(d, mi) := LitOf d id in
      let '(c, m') := c_Or (circuit d) m mi in
      orLits (setCircuit d c) m' ids
  end.

Fixpoint apply (k : Constraint) (d : litMapping) (subject : Identifier) : litMapping * Lit :=
  match k with
  | zeroConstraint => (d, LitNull)
  | mandatory => LitOf d subject
  | prohibited => let '(d, m) := LitOf d subject in (d, Not m)
  | dependency ids => let '(d, m) := LitOf d subject in orLits d (Not m) ids
  | conflict id =>
      let '(d, ms) := LitOf d subject in
      let '(d, mi) := LitOf d id in
      let '(c, m) := c_Or (circuit d) (Not ms) (Not mi) in
      (setCircuit d c, m)
  | leq ids n =>
      let '(d, ms) := LitsOf d ids in
      let '(c, cs) := c_CardSort (circuit d) ms in
      (setCircuit d c, cs_Leq cs n)
  | prettyConstraint k _ => apply k d subject
  end.

(** The first pass of [newLitMapping]; the error is the duplicate identifier. *)
Definition assignLit (d : litMapping) (v : SVariable) : Identifier + litMapping :=
  let '(c, im) := c_Lit (circuit d) in
  match lits d !! v_Identifier v with
  | Some _ => inl (v_Identifier v)
  | None => inr (mkLM (inorder d) (<[im := v]> (variables d)) (<[v_Identifier v := im]> (lits d))
                   (constraints d) c (errs d))
  end.

Definition applyConstraint (d : litMapping) (vk : SVariable * Constraint) : litMapping :=
  let '(v, k) := vk in
  let '(d, m) := apply k d (v_Identifier v) in
  if bool_decide (m = LitNull) then d
  else mkLM (inorder d) (variables d) (lits d) (<[m := mkApplied v k]> (constraints d)) (circuit d) (errs d).

(** The pairs the nested loops of the second pass visit. *)
Definition applications (vs : list SVariable) : list (SVariable * Constraint) :=
  flat_map (fun v => (fun k => (v, k)) <$> v_Constraints v) vs.

Definition newLitMapping (vs : list SVariable) : Identifier + litMapping :=
  d ← foldE assignLit (mkLM vs ∅ ∅ ∅ NewC []) vs;
  inr (foldl applyConstraint d (applications vs)).

Definition Error (d : litMapping) : option (list lmError) :=
  match errs d with [] => None | es => Some es end.

Definition AnchorIdentifiers (d : litMapping) : list Identifier :=
  v_Identifier <$> filter (fun v => existsb anchor (v_Constraints v) = true) (inorder d).

(** [Lits]: the literals of the variables, in input order. *)
Definition Lits (d : litMapping) : litMapping * list Lit := LitsOf d (v_Identifier <$> inorder d).
End mapping.

Section mapping_sat.
Context `{SatOps, RangeOrder}.

Definition AddConstraints (d : litMapping) (g : G) : G := ToCnf (circuit d) g.

Definition AssumeConstraints (d : litMapping) (g : G) : G :=
  foldl (fun g m => Assume g [m]) g (range (constraints d)).*1.

(** [for w := 0; w <= cs.N(); w++ { marks, _ = d.c.CnfSince(g, marks, cs.Leq(w)) }] *)
Definition teachLeq (c : C) (cs : CardSort) (acc : G * list Z) (w : nat) : G * list Z :=
  CnfSince c acc.1 acc.2 (cs_Leq cs (Z.of_nat w)).

Definition CardinalityConstrainer (d : litMapping) (g : G) (ms : list Lit) : litMapping * G * CardSort :=
  let clen := Len (circuit d) in
  let '(c, cs) := c_CardSort (circuit d) ms in
  let '(g, _) := foldl (teachLeq c cs) (g, replicate (N.to_nat clen) 1%Z) (seq 0 (S (Z.to_nat (cs_N cs)))) in
  (setCircuit d c, g, cs).

(** [Variables]: the variables the model of the solver selects, in input order. *)
Fixpoint selected (d : litMapping) (g : G) (vs : list SVariable) : litMapping * list SVariable :=
  match vs with
  | [] => (d, [])
  | v :: vs =>
      let '(d, m) := LitOf d (v_Identifier v) in
      let '(d', r) := selected d g vs in
      (d', if Value g m then v :: r else r)
  end.
Definition Variables (d : litMapping) (g : G) : litMapping * list SVariable := selected d g (inorder d).

(** The order of [slices.SortFunc] on the strings. *)
Definition applied_le (a b : AppliedConstraint) : Prop := String.le (Applied_String a) (Applied_String b).

#[export] Instance applied_le_dec : RelDecision applied_le.
Proof. intros a b. unfold applied_le. apply _. Defined.

Definition Conflicts (d : litMapping) (g : G) : list AppliedConstraint :=
  merge_sort applied_le (omap (fun why => constraints d !! why) (Why g)).
End mapping_sat.

(** ** The meaning of constraints *)

(** A selection of identifiers satisfies the constraint of a subject. *)
Fixpoint sat (X : Identifier -> bool) (subject : Identifier) (k : Constraint) : Prop :=
  match k with
  | zeroConstraint => True
  | mandatory => X subject = true
  | prohibited => X subject = false
  | dependency ids => X subject = true -> exists id, id ∈ ids /\ X id = true
  | conflict id => ~ (X subject = true /\ X id = true)
  | leq ids n => (Z.of_nat (length (filter (fun id => X id = true) ids)) <= n)%Z
  | prettyConstraint k _ => sat X subject k
  end.

Definition solution (vs : list SVariable) (X : Identifier -> bool) : Prop :=
  forall v k, v ∈ vs -> k ∈ v_Constraints v -> sat X (v_Identifier v) k.

(** ** The encoding is exact *)

Section encoding.
Context `{Circuit}.
Implicit Types (d : litMapping) (ρ : valuation) (k : Constraint).

(** The identifiers a valuation selects. *)
Definition sel d ρ : Identifier -> bool := fun id => match lits d !! id with Some m => lval ρ m | None => false end.

Definition lits_in d : Prop := forall id m, lits d !! id = Some m -> in_circuit (circuit d) m.

(** [d'] is [d] with a larger circuit. *)
Definition grows d d' : Prop := d' = setCircuit d (circuit d') /\ extends (circuit d) (circuit d').

Lemma grows_refl d : grows d d.
Proof. split; [by destruct d|apply extends_refl]. Qed.

Lemma grows_trans d1 d2 d3 : grows d1 d2 -> grows d2 d3 -> grows d1 d3.
Proof. intros [E1 X1] [E2 X2]. split; [|by eapply extends_trans]. rewrite E2, E1. done. Qed.

Lemma grows_fields d d' : grows d d' ->
  inorder d' = inorder d /\ variables d' = variables d /\ lits d' = lits d /\ constraints d' = constraints d /\ errs d' = errs d.
Proof. intros [-> _]. done. Qed.

Lemma grows_lits_in d d' : grows d d' -> lits_in d -> lits_in d'.
Proof.
  intros Hg Hl id m. destruct (grows_fields _ _ Hg) as (_ & _ & -> & _). intros Hm.
  eapply in_circuit_mono; [apply Hg|eauto].
Qed.

Lemma grows_sel d d' ρ : grows d d' -> sel d' ρ = sel d ρ.
Proof. intros Hg. unfold sel. by destruct (grows_fields _ _ Hg) as (_ & _ & -> & _). Qed.

Lemma LitOf_ok d id d' m : LitOf d id = (d', m) -> errs d' = [] -> d' = d /\ lits d !! id = Some m.
Proof.
  unfold LitOf. destruct (lits d !! id); intros [= <- <-]; [done|]. simpl. intros E. by destruct (errs d).
Qed.

Lemma LitOf_sel d id d' m ρ : LitOf d id = (d', m) -> errs d' = [] -> sel d ρ id = lval ρ m.
Proof. intros Hl He. destruct (LitOf_ok _ _ _ _ Hl He) as [_ Hm]. unfold sel. by rewrite Hm. Qed.

Lemma LitOf_errs d id d' m : LitOf d id = (d', m) -> errs d' = [] -> errs d = [].
Proof. intros Hl He. by destruct (LitOf_ok _ _ _ _ Hl He) as [<- _]. Qed.

Lemma LitsOf_ok d ids d' ms :
  LitsOf d ids = (d', ms) -> errs d' = [] -> d' = d /\ Forall2 (fun id m => lits d !! id = Some m) ids ms.
Proof.
  revert d ms. induction ids as [|id ids IH]; intros d ms; simpl; [by intros [= <- <-]|].
  destruct (LitOf d id) as [d1 m] eqn:El. destruct (LitsOf d1 ids) as [d2 ms'] eqn:Es. intros [= <- <-] He.
  destruct (IH _ _ Es He) as [-> Hms]. destruct (LitOf_ok _ _ _ _ El He) as [-> Hm]. split; [done|]. by constructor.
Qed.

Lemma trues_sel d ρ ids ms :
  Forall2 (fun id m => lits d !! id = Some m) ids ms ->
  trues ρ ms = length (filter (fun id => sel d ρ id = true) ids).
Proof.
  unfold trues. induction 1 as [|id m ids ms Hm _ IH]; [done|]. rewrite !filter_cons.
  assert (sel d ρ id = lval ρ m) as E by (unfold sel; by rewrite Hm).
  destruct (decide (lval ρ m = true)), (decide (sel d ρ id = true)); simpl; rewrite ?IH; congruence.
Qed.

Lemma orLits_errs d m ids d' m' : orLits d m ids = (d', m') -> errs d' = [] -> errs d = [].
Proof.
  revert d m. induction ids as [|id ids IH]; intros d m; simpl; [by intros [= <- <-]|].
  destruct (LitOf d id) as [d1 mi] eqn:El. destruct (c_Or (circuit d1) m mi) as [c m1].
  intros Ho He. apply (IH _ _ Ho) in He. eapply LitOf_errs; [done|]. exact He.
Qed.

Lemma orLits_ok d m ids d' m' :
  orLits d m ids = (d', m') -> errs d' = [] -> lits_in d -> in_circuit (circuit d) m ->
  grows d d' /\ in_circuit (circuit d') m' /\
  forall ρ, models (circuit d') ρ -> (lval ρ m' = true <-> lval ρ m = true \/ exists id, id ∈ ids /\ sel d ρ id = true).
Proof.
  revert d m. induction ids as [|id ids IH]; intros d m Ho He Hl Hm; simpl in Ho.
  { injection Ho as <- <-. split_and!; [apply grows_refl|done|]. intros ρ _. set_solver. }
  destruct (LitOf d id) as [d1 mi] eqn:El. destruct (c_Or (circuit d1) m mi) as [c m1] eqn:Ec.
  pose proof (orLits_errs _ _ _ _ _ Ho He) as He1. simpl in He1.
  destruct (LitOf_ok _ _ _ _ El He1) as [-> Hmi].
  destruct (c_Or_spec _ _ _ _ _ Ec Hm (Hl _ _ Hmi)) as (Hx & Hm1 & Hor).
  assert (grows d (setCircuit d c)) as Hg by done.
  destruct (IH _ _ Ho He) as (Hg' & Hm' & Hiff); [by eapply grows_lits_in|done|].
  split_and!; [by eapply grows_trans|done|]. intros ρ Hρ. rewrite (Hiff ρ Hρ), (grows_sel _ _ ρ Hg).
  rewrite Hor by (eapply models_mono; [apply Hg'|done|done]). rewrite orb_true_iff.
  setoid_rewrite elem_of_cons. rewrite <- (LitOf_sel _ _ _ _ ρ El He1). naive_solver.
Qed.

(** What the literal of a constraint means in the circuit of [d']. *)
Definition encodes d d' (m : Lit) (s : Identifier) k : Prop :=
  (m = LitNull /\ forall X, sat X s k) \/
  (in_circuit (circuit d') m /\ forall ρ, models (circuit d') ρ -> (lval ρ m = true <-> sat (sel d ρ) s k)).

Lemma apply_errs k : forall d s d' m, apply k d s = (d', m) -> errs d' = [] -> errs d = [].
Proof.
  induction k as [| | |ids|id|ids n|k IH msg]; intros d s d' m; simpl.
  - by intros [= <- <-].
  - apply LitOf_errs.
  - destruct (LitOf d s) eqn:E. intros [= <- <-]. by eapply LitOf_errs.
  - destruct (LitOf d s) eqn:E. intros Ho He. eapply LitOf_errs; [done|]. by eapply orLits_errs.
  - destruct (LitOf d s) as [d1 ms] eqn:E1. destruct (LitOf d1 id) as [d2 mi] eqn:E2.
    destruct (c_Or _ _ _) as [c mo]. intros [= <- <-] He. eapply LitOf_errs; [done|]. by eapply LitOf_errs.
  - destruct (LitsOf d ids) as [d1 ms] eqn:E1. destruct (c_CardSort _ _) as [c cs]. intros [= <- <-] He.
    by destruct (LitsOf_ok _ _ _ _ E1 He) as [<- _].
  - apply IH.
Qed.

Lemma apply_ok k : forall d s d' m,
  apply k d s = (d', m) -> errs d' = [] -> lits_in d -> grows d d' /\ encodes d d' m s k.
Proof.
  induction k as [| | |ids|id|ids n|k IH msg]; intros d s d' m Ha He Hl; simpl in Ha.
  - injection Ha as <- <-. split; [apply grows_refl|by left].
  - destruct (LitOf_ok _ _ _ _ Ha He) as [-> Hm]. split; [apply grows_refl|]. right. split; [eauto|].
    intros ρ _. simpl. by rewrite (LitOf_sel _ _ _ _ ρ Ha He).
  - destruct (LitOf d s) as [d1 ms] eqn:E. injection Ha as <- <-. destruct (LitOf_ok _ _ _ _ E He) as [-> Hm].
    split; [apply grows_refl|]. right. split; [apply in_circuit_Not; eauto|].
    intros ρ _. simpl. rewrite (LitOf_sel _ _ _ _ ρ E He), lval_Not. by destruct (lval ρ ms).
  - destruct (LitOf d s) as [d1 ms] eqn:E. pose proof (orLits_errs _ _ _ _ _ Ha He) as He1.
    destruct (LitOf_ok _ _ _ _ E He1) as [-> Hm].
    destruct (orLits_ok _ _ _ _ _ Ha He Hl) as (Hg & Hin & Hiff); [apply in_circuit_Not; eauto|].
    split; [done|]. right. split; [done|]. intros ρ Hρ. rewrite (Hiff ρ Hρ), lval_Not. simpl.
    rewrite (LitOf_sel _ _ _ _ ρ E He1). destruct (lval ρ ms); naive_solver.
  - destruct (LitOf d s) as [d1 ms] eqn:E1. destruct (LitOf d1 id) as [d2 mi] eqn:E2.
    destruct (c_Or (circuit d2) (Not ms) (Not mi)) as [c mo] eqn:Eo. injection Ha as <- <-. simpl in He.
    destruct (LitOf_ok _ _ _ _ E2 He) as [-> Hmi]. destruct (LitOf_ok _ _ _ _ E1 He) as [-> Hms].
    destruct (c_Or_spec _ _ _ _ _ Eo) as (Hx & Hin & Hor); [apply in_circuit_Not; eauto..|].
    split; [done|]. right. split; [done|]. intros ρ Hρ. rewrite Hor by (by apply Hρ). rewrite !lval_Not. simpl.
    rewrite (LitOf_sel _ _ _ _ ρ E1 He), (LitOf_sel _ _ _ _ ρ E2 He).
    destruct (lval ρ ms), (lval ρ mi); simpl; naive_solver.
  - destruct (LitsOf d ids) as [d1 ms] eqn:E1. destruct (c_CardSort (circuit d1) ms) as [c cs] eqn:Ec.
    injection Ha as <- <-. simpl in He. destruct (LitsOf_ok _ _ _ _ E1 He) as [-> Hms].
    destruct (c_CardSort_spec _ _ _ _ Ec) as (Hx & _ & Hleq).
    { intros m Hm. apply list_elem_of_lookup in Hm as [i Hi].
      destruct (Forall2_lookup_r _ _ _ _ _ Hms Hi) as (id & _ & Hid). eauto. }
    destruct (Hleq n) as [Hin Hiff]. split; [done|]. right. split; [done|].
    intros ρ Hρ. rewrite Hiff by (by apply Hρ). simpl. by rewrite (trues_sel _ _ _ _ Hms).
  - apply IH; done.
Qed.

(** *** The first pass: one input per identifier *)

Record assigned (vs dn : list SVariable) d : Prop := mkAssigned {
  as_errs : errs d = [];
  as_inorder : inorder d = vs;
  as_constraints : constraints d = ∅;
  as_nodup : NoDup (v_Identifier <$> dn);
  as_lit : forall v, v ∈ dn -> exists m, lits d !! v_Identifier v = Some m /\ variables d !! m = Some v;
  as_var : forall m v, variables d !! m = Some v -> v ∈ dn /\ lits d !! v_Identifier v = Some m;
  as_ids : forall id m, lits d !! id = Some m -> exists v, v_Identifier v = id /\ variables d !! m = Some v;
  as_pos : forall id m, lits d !! id = Some m -> exists i, m = Pos i /\ (2 <= i < Len (circuit d))%N;
  as_len : (2 <= Len (circuit d))%N;
  as_free : forall ρ, exists ρ', models (circuit d) ρ' /\ forall v, (2 <= v)%N -> ρ' v = ρ v
}.

Lemma assigned_start vs : assigned vs [] (mkLM vs ∅ ∅ ∅ NewC []).
Proof.
  split; simpl; try done.
  - constructor.
  - by intros v ?%elem_of_nil.
  - by rewrite Len_NewC.
  - apply models_NewC.
Qed.

Lemma assigned_step vs dn d v d' : assigned vs dn d -> assignLit d v = inr d' -> assigned vs (dn ++ [v]) d'.
Proof.
  intros [Herr Hin Hcons Hnd Hlit Hvar Hids Hpos Hlen Hfree]. unfold assignLit.
  destruct (c_Lit (circuit d)) as [c im] eqn:Ec. destruct (lits d !! v_Identifier v) eqn:El; [done|].
  intros [= <-]. destruct (c_Lit_spec _ _ _ Ec) as (-> & Hl & Hx & Hmod).
  assert (Hfresh : forall id, lits d !! id <> Some (Pos (Len (circuit d)))).
  { intros id Hid. destruct (Hpos _ _ Hid) as (i & ?%Pos_inj & ?). lia. }
  split; simpl; try done.
  - rewrite fmap_app. apply NoDup_app. split_and!; [done| |apply NoDup_singleton].
    intros id (v' & -> & Hv')%list_elem_of_fmap E. apply list_elem_of_singleton in E.
    destruct (Hlit _ Hv') as (m & Hm & _). simpl in *. congruence.
  - intros v' [Hv'| ->%list_elem_of_singleton]%elem_of_app.
    + destruct (Hlit _ Hv') as (m & Hm & Hmv). exists m.
      rewrite lookup_insert_ne by congruence. rewrite lookup_insert_ne by (intros E; subst m; by apply (Hfresh _ Hm)). done.
    + exists (Pos (Len (circuit d))). by rewrite !lookup_insert_eq.
  - intros m v' [[<- <-]|[Hne Hv']]%lookup_insert_Some.
    + split; [set_solver|]. by rewrite lookup_insert_eq.
    + destruct (Hvar _ _ Hv') as [? Hm]. split; [set_solver|]. by rewrite lookup_insert_ne by congruence.
  - intros id m [[<- <-]|[Hne Hm]]%lookup_insert_Some.
    + exists v. by rewrite lookup_insert_eq.
    + destruct (Hids _ _ Hm) as (v' & <- & Hv'). exists v'.
      rewrite lookup_insert_ne by (intros E; subst m; by apply (Hfresh _ Hm)). done.
  - intros id m [[<- <-]|[Hne Hm]]%lookup_insert_Some; [eexists; split; [done|lia]|].
    destruct (Hpos _ _ Hm) as (i & -> & ?). exists i. split; [done|lia].
  - lia.
  - intros ρ. destruct (Hfree ρ) as (ρ' & ? & ?). exists ρ'. auto.
Qed.

Lemma assigned_lits_in vs dn d : assigned vs dn d -> lits_in d.
Proof.
  intros [_ _ _ _ _ _ _ Hpos _ _] id m Hm. destruct (Hpos _ _ Hm) as (i & -> & ?).
  unfold in_circuit. rewrite VarOf_Pos. lia.
Qed.

(** *** The second pass: one literal per constraint *)

(** After the applications [dn], starting from [d0]. *)
Record encoded d0 (dn : list (SVariable * Constraint)) d : Prop := mkEncoded {
  en_inorder : inorder d = inorder d0;
  en_variables : variables d = variables d0;
  en_lits : lits d = lits d0;
  en_extends : extends (circuit d0) (circuit d);
  en_done : forall v k, (v, k) ∈ dn -> (forall X, sat X (v_Identifier v) k) \/
    exists m, is_Some (constraints d !! m) /\ in_circuit (circuit d) m /\
      forall ρ, models (circuit d) ρ -> (lval ρ m = true <-> sat (sel d0 ρ) (v_Identifier v) k);
  en_from : forall m a, constraints d !! m = Some a ->
    (ac_Variable a, ac_Constraint a) ∈ dn /\ in_circuit (circuit d) m /\
    forall ρ, models (circuit d) ρ -> (lval ρ m = true <-> sat (sel d0 ρ) (v_Identifier (ac_Variable a)) (ac_Constraint a));
  en_anchor : forall v k, (v, k) ∈ dn -> anchor k = true ->
    exists m, lits d0 !! v_Identifier v = Some m /\ is_Some (constraints d !! m)
}.

Lemma apply_anchor k d s : anchor k = true -> apply k d s = LitOf d s.
Proof. induction k; simpl; try done. Qed.

Lemma applyConstraint_errs d vk : errs (applyConstraint d vk) = [] -> errs d = [].
Proof.
  destruct vk as [v k]. unfold applyConstraint. destruct (apply k d (v_Identifier v)) as [d1 m] eqn:E.
  case_bool_decide; simpl; by eapply apply_errs.
Qed.

Lemma encoded_step d0 dn d v k :
  lits_in d0 -> errs (applyConstraint d (v, k)) = [] -> encoded d0 dn d ->
  encoded d0 (dn ++ [(v, k)]) (applyConstraint d (v, k)).
Proof.
  intros Hl0 He [Hio Hvs Hlits Hx Hdone Hfrom Hanc]. unfold applyConstraint in *.
  destruct (apply k d (v_Identifier v)) as [d1 m] eqn:E.
  assert (errs d1 = []) as He1 by (by case_bool_decide).
  assert (lits_in d) as Hl.
  { intros id m' Hm'. rewrite Hlits in Hm'. eapply in_circuit_mono; eauto. }
  destruct (apply_ok _ _ _ _ _ E He1 Hl) as [Hg Henc].
  assert (Hsel : forall ρ, sel d ρ = sel d0 ρ) by (intros ρ; unfold sel; by rewrite Hlits).
  destruct (grows_fields _ _ Hg) as (Eio & Evs & Elits & Econs & Eerrs). pose proof Hg as [_ Hx1].
  assert (Hold : forall m' s k', in_circuit (circuit d) m' ->
    (forall ρ, models (circuit d) ρ -> (lval ρ m' = true <-> sat (sel d0 ρ) s k')) ->
    in_circuit (circuit d1) m' /\ forall ρ, models (circuit d1) ρ -> (lval ρ m' = true <-> sat (sel d0 ρ) s k')).
  { intros m' s k' ? Hiff. split; [by eapply in_circuit_mono|]. intros ρ Hρ. apply Hiff. by eapply models_mono. }
  assert (anchor k = true -> lits d0 !! v_Identifier v = Some m) as Hak.
  { intros Hk. rewrite (apply_anchor _ _ _ Hk) in E. rewrite <- Hlits. by eapply LitOf_ok. }
  case_bool_decide as Hnull.
  - split; [congruence..|by eapply extends_trans| | |].
    + intros v' k' [Hv|[= -> ->]%list_elem_of_singleton]%elem_of_app.
      * destruct (Hdone _ _ Hv) as [?|(m' & ? & ? & ?)]; [by left|right]. exists m'. rewrite Econs. split; [done|]. by apply Hold.
      * left. destruct Henc as [[_ ?]|[?%in_circuit_nonnull _]]; done.
    + intros m' a. rewrite Econs. intros (? & ? & ?)%Hfrom. split; [set_solver|]. by apply Hold.
    + intros v' k' [Hv|[= -> ->]%list_elem_of_singleton]%elem_of_app; [rewrite Econs; eauto|].
      intros Hk%Hak%Hl0. exfalso. by apply in_circuit_nonnull in Hk.
  - destruct Henc as [[? _]|[Hin Hiff]]; [done|]. setoid_rewrite Hsel in Hiff.
    split; simpl; [congruence..|by eapply extends_trans| | |].
    + intros v' k' [Hv|[= -> ->]%list_elem_of_singleton]%elem_of_app.
      * destruct (Hdone _ _ Hv) as [?|(m' & ? & ? & ?)]; [by left|right]. exists m'. split; [|by apply Hold].
        rewrite Econs, lookup_insert_is_Some. destruct (decide (m = m')); [by left|by right].
      * right. exists m. rewrite lookup_insert_eq. eauto.
    + intros m' a [[<- <-]|[? Ha]]%lookup_insert_Some; simpl; [split; [set_solver|done]|].
      rewrite Econs in Ha. destruct (Hfrom _ _ Ha) as (? & ? & ?). split; [set_solver|]. by apply Hold.
    + intros v' k' [Hv|[= -> ->]%list_elem_of_singleton]%elem_of_app Hk; [|exists m; rewrite lookup_insert_eq; eauto].
      destruct (Hanc _ _ Hv Hk) as (m' & Hm' & Hs'). exists m'. split; [done|].
      rewrite Econs, lookup_insert_is_Some. destruct (decide (m = m')); [by left|by right].
Qed.

(** What [newLitMapping] builds. *)
Lemma newLitMapping_ok vs d :
  newLitMapping vs = inr d -> errs d = [] ->
  exists d0, assigned vs vs d0 /\ encoded d0 (applications vs) d.
Proof.
  unfold newLitMapping. intros (d0 & Hd0 & [= <-])%bind_inr He. exists d0.
  assert (assigned vs vs d0) as Has.
  { revert Hd0. apply (foldE_inv _ (assigned vs)); [apply assigned_start|]. intros. by eapply assigned_step. }
  split; [done|]. revert He.
  apply (foldl_inv applyConstraint (fun dn d => errs d = [] -> encoded d0 dn d)).
  - intros _. split; try done; [apply extends_refl|by intros ?? ?%elem_of_nil| |].
    + rewrite (as_constraints _ _ _ Has). by intros m a ?%lookup_empty_Some.
    + by intros ?? ?%elem_of_nil.
  - intros dn [v k] d IH He. apply encoded_step; [by eapply assigned_lits_in|done|].
    apply IH. by eapply applyConstraint_errs.
Qed.

Lemma newLitMapping_circuit vs d ρ :
  newLitMapping vs = inr d -> errs d = [] -> models (circuit d) ρ ->
  ((forall m, is_Some (constraints d !! m) -> lval ρ m = true) <-> solution vs (sel d ρ)).
Proof.
  intros Hn He Hρ. destruct (newLitMapping_ok _ _ Hn He) as (d0 & Has & [_ _ Hlits _ Hdone Hfrom _]).
  assert (sel d ρ = sel d0 ρ) as -> by (unfold sel; by rewrite Hlits). split.
  - intros Hall v k Hv Hk. destruct (Hdone v k) as [?|(m & Hm & _ & Hiff)]; [|done|].
    { apply elem_of_flat_map. exists v. split; [done|]. by apply list_elem_of_fmap_2. }
    apply Hiff; [done|]. by apply Hall.
  - intros Hsol m [a Ha]. destruct (Hfrom _ _ Ha) as (Hin & _ & Hiff). apply Hiff; [done|].
    apply elem_of_flat_map in Hin as (v & Hv & (k & Ek & Hk)%list_elem_of_fmap).
    injection Ek as -> ->. by apply Hsol.
Qed.

Lemma newLitMapping_models vs d (X : Identifier -> bool) :
  newLitMapping vs = inr d -> errs d = [] ->
  exists ρ, models (circuit d) ρ /\ forall v, v ∈ vs -> sel d ρ (v_Identifier v) = X (v_Identifier v).
Proof.
  intros Hn He. destruct (newLitMapping_ok _ _ Hn He) as (d0 & Has & [_ _ Hlits Hx _ _ _]).
  pose proof (assigned_lits_in _ _ _ Has) as Hl.
  destruct Has as [_ _ _ _ Hlit _ _ Hpos _ Hfree].
  destruct (Hfree (fun i => match variables d0 !! Pos i with Some v => X (v_Identifier v) | None => false end))
    as (ρ0 & Hρ0 & Hval).
  destruct Hx as (_ & _ & Hext). destruct (Hext _ Hρ0) as (ρ & Hρ & Hag). exists ρ. split; [done|].
  intros v Hv. destruct (Hlit _ Hv) as (m & Hm & Hmv). unfold sel. rewrite Hlits, Hm.
  rewrite (agree_lval (circuit d0) ρ0 ρ m Hag (Hl _ _ Hm)). destruct (Hpos _ _ Hm) as (i & -> & ?).
  rewrite lval_Pos, Hval by lia. by rewrite Hmv.
Qed.
End encoding.

(** C38: a mapping built without internal errors encodes the problem exactly: a valuation of the
    circuit makes every constraint literal true iff the identifiers it selects are a solution, and
    every selection of the identifiers is the selection of some valuation. *)
Theorem newLitMapping_exact `{Circuit} (vs : list SVariable) (d : litMapping) :
  newLitMapping vs = inr d -> Error d = None ->
  (forall ρ, models (circuit d) ρ ->
     ((forall m, is_Some (constraints d !! m) -> lval ρ m = true) <-> solution vs (sel d ρ))) /\
  (forall X : Identifier -> bool, exists ρ, models (circuit d) ρ /\
     forall v, v ∈ vs -> sel d ρ (v_Identifier v) = X (v_Identifier v)).
Proof.
  intros Hn He. assert (errs d = []) as He' by (unfold Error in He; by destruct (errs d)).
  split; intros; [by apply newLitMapping_circuit|by apply newLitMapping_models].
Qed.

(** A subscription that needs one of two bundles, which exclude each other. *)
Definition demo_problem : list SVariable :=
  [mkVariable "sub" [mandatory; dependency ["a"; "b"]]; mkVariable "a" [conflict "b"]; mkVariable "b" [];
   mkVariable "pkg" [leq ["a"; "b"] 1]].

Definition demo_mapping : @litMapping demo_circuit_ops :=
  match @newLitMapping demo_circuit_ops demo_problem with
  | inr d => d
  | inl _ => @mkLM demo_circuit_ops [] ∅ ∅ ∅ [] []
  end.

Lemma newLitMapping_exact_witness :
  exists ρ, @models demo_circuit_ops (circuit demo_mapping) ρ /\
    forall v, v ∈ demo_problem -> @sel demo_circuit_ops demo_mapping ρ (v_Identifier v) = negb (String.eqb (v_Identifier v) "b").
Proof.
  apply (proj2 (@newLitMapping_exact demo_circuit_ops demo_circuit demo_problem demo_mapping
    ltac:(vm_compute; reflexivity) ltac:(vm_compute; reflexivity)) (fun id => negb (String.eqb id "b"))).
Defined.
