(* ===== verification/ChoiceDeque.v ===== *)
(** * The deque of unmade choices

    Models the [choice] list of [solver/search.go]: [PushChoiceFront], [PopChoiceFront],
    [PushChoiceBack] and [PopChoiceBack] on nodes linked both ways, with the nodes in a store.
    [Deque] is the contract the search relies on, a data refinement to lists; the linked
    implementation discharges it. *)

From S2P Require Import Prelude SatInterface.

(** [choice], without its links: the index of the next candidate to guess, the candidates. *)
Record choice := mkChoice { c_index : nat; c_candidates : list Lit }.

(** ** The contract *)

Class DequeOps := {
  D : Type;
  emptyD : D;
  isNil : D -> bool;                               (** [h.headChoice == nil] *)
  PushChoiceFront : D -> choice -> D;
  PopChoiceFront : D -> option (choice * D);       (** [None]: a nil dereference *)
  PushChoiceBack : D -> choice -> D;
  PopChoiceBack : D -> option (choice * D);
  represents : D -> list choice -> Prop;
}.

Class Deque `{DequeOps} : Prop := {
  represents_empty : represents emptyD [];
  isNil_iff : forall d l, represents d l -> (isNil d = true <-> l = []);
  PushChoiceFront_ok : forall d l c, represents d l -> represents (PushChoiceFront d c) (c :: l);
  PushChoiceBack_ok : forall d l c, represents d l -> represents (PushChoiceBack d c) (l ++ [c]);
  PopChoiceFront_ok : forall d l c, represents d (c :: l) -> exists d', PopChoiceFront d = Some (c, d') /\ represents d' l;
  PopChoiceBack_ok : forall d l c, represents d (l ++ [c]) -> exists d', PopChoiceBack d = Some (c, d') /\ represents d' l;
}.

(** ** The linked implementation *)

Record lnode := mkNode { n_prev : option nat; n_next : option nat; n_choice : choice }.
(** The store of the nodes ever allocated, [headChoice] and [tailChoice]. *)
Record linked := mkLinked { nodes : list lnode; headChoice : option nat; tailChoice : option nat }.

Definition setPrev (p : option nat) (n : lnode) : lnode := mkNode p (n_next n) (n_choice n).
Definition setNext (p : option nat) (n : lnode) : lnode := mkNode (n_prev n) p (n_choice n).

Definition linkedPushFront (d : linked) (c : choice) : linked :=
  let l := length (nodes d) in
  match headChoice d with
  | None => mkLinked (nodes d ++ [mkNode None None c]) (Some l) (Some l)
  | Some h => mkLinked (alter (setPrev (Some l)) h (nodes d) ++ [mkNode None (Some h) c]) (Some l) (tailChoice d)
  end.

Definition linkedPopFront (d : linked) : option (choice * linked) :=
  h ← headChoice d; c ← nodes d !! h;
  Some (n_choice c,
    match n_next c with
    | Some k => mkLinked (alter (setPrev None) k (nodes d)) (Some k) (tailChoice d)
    | None => mkLinked (nodes d) None None
    end).

Definition linkedPushBack (d : linked) (c : choice) : linked :=
  let l := length (nodes d) in
  match tailChoice d with
  | None => mkLinked (nodes d ++ [mkNode None None c]) (Some l) (Some l)
  | Some t => mkLinked (alter (setNext (Some l)) t (nodes d) ++ [mkNode (Some t) None c]) (headChoice d) (Some l)
  end.

Definition linkedPopBack (d : linked) : option (choice * linked) :=
  t ← tailChoice d; c ← nodes d !! t;
  Some (n_choice c,
    match n_prev c with
    | Some k => mkLinked (alter (setNext None) k (nodes d)) (headChoice d) (Some k)
    | None => mkLinked (nodes d) None None
    end).

(** A chain of locations, each node linked to its neighbours; [p] comes before, [q] after. *)
Fixpoint chain (ns : list lnode) (p : option nat) (locs : list nat) (cs : list choice) (q : option nat) : Prop :=
  match locs, cs with
  | [], [] => True
  | l :: locs', c :: cs' =>
      ns !! l = Some (mkNode p (match locs' with [] => q | k :: _ => Some k end) c) /\ chain ns (Some l) locs' cs' q
  | _, _ => False
  end.

Definition linked_rep (d : linked) (cs : list choice) : Prop :=
  exists locs, NoDup locs /\ chain (nodes d) None locs cs None /\
    headChoice d = head locs /\ tailChoice d = last locs.

(** A chain depends on its own nodes only. *)
Lemma chain_frame ns ns' p locs cs q :
  (forall l, l ∈ locs -> ns' !! l = ns !! l) -> chain ns p locs cs q -> chain ns' p locs cs q.
Proof.
  revert p cs. induction locs as [|l locs IH]; intros p cs Hf Hc; [done|]. destruct cs as [|c cs]; [done|].
  destruct Hc as [Hl Hc]. split; [rewrite Hf by set_solver; done|]. apply IH; [set_solver|done].
Qed.

Lemma chain_bound ns p locs cs q l : chain ns p locs cs q -> l ∈ locs -> (l < length ns)%nat.
Proof.
  revert p cs. induction locs as [|l' locs IH]; intros p cs Hc Hl; [by apply elem_of_nil in Hl|].
  destruct cs as [|c cs]; [done|]. destruct Hc as [Hl' Hc].
  apply elem_of_cons in Hl as [->|Hl]; [by eapply lookup_lt_Some|eauto].
Qed.

(** The end of a chain can be relinked through its last node. *)
Lemma chain_snoc ns p locs cs q l c :
  chain ns p (locs ++ [l]) (cs ++ [c]) q <->
  chain ns p locs cs (Some l) /\ ns !! l = Some (mkNode (match last locs with None => p | Some k => Some k end) q c).
Proof.
  revert p cs. induction locs as [|l' locs IH]; intros p cs; destruct cs as [|c' cs]; simpl.
  - naive_solver.
  - split; [|naive_solver]. intros [_ Hf]. by destruct cs.
  - split; [|naive_solver]. destruct locs; simpl; naive_solver.
  - rewrite IH. rewrite last_cons. destruct locs as [|k locs]; simpl; [naive_solver|].
    destruct (last (k :: locs)) eqn:E; [naive_solver|]. by apply last_None in E.
Qed.

Lemma chain_length ns p locs cs q : chain ns p locs cs q -> length locs = length cs.
Proof.
  revert p cs. induction locs as [|l locs IH]; intros p [|c cs]; simpl; try done. intros [_ Hc]. f_equal. eauto.
Qed.

Lemma alter_other (f : lnode -> lnode) k (ns : list lnode) l : l <> k -> alter f k ns !! l = ns !! l.
Proof. intros. by apply list_lookup_alter_ne. Qed.

Lemma alter_same (f : lnode -> lnode) k (ns : list lnode) n : ns !! k = Some n -> alter f k ns !! k = Some (f n).
Proof. intros Hn. by rewrite list_lookup_alter_eq, Hn. Qed.

(** Lookups in the store after an allocation. *)
Lemma chain_alloc ns n p locs cs q : chain ns p locs cs q -> chain (ns ++ [n]) p locs cs q.
Proof.
  intros Hc. apply (chain_frame ns); [|done]. intros l Hl. apply lookup_app_l. by eapply chain_bound.
Qed.

Lemma linked_pushFront_ok d cs c : linked_rep d cs -> linked_rep (linkedPushFront d c) (c :: cs).
Proof.
  intros (locs & Hnd & Hc & Hh & Ht). unfold linkedPushFront.
  assert (length (nodes d) ∉ locs) as Hfresh by (intros Hl; apply (chain_bound _ _ _ _ _ _ Hc) in Hl; lia).
  destruct locs as [|h locs]; rewrite Hh; simpl.
  - exists [length (nodes d)]. destruct cs; [|done]. split_and!; [apply NoDup_singleton| |done..].
    simpl. split; [|done]. by apply list_lookup_middle.
  - exists (length (nodes d) :: h :: locs). split_and!; [by constructor| |done|by rewrite Ht].
    destruct cs as [|c' cs]; [done|]. destruct Hc as [Hn Hc]. simpl.
    split; [|split].
    + rewrite lookup_app_r by (by rewrite length_alter). by rewrite length_alter, Nat.sub_diag.
    + rewrite lookup_app_l by (rewrite length_alter; by eapply lookup_lt_Some).
      by rewrite (alter_same _ _ _ _ Hn).
    + apply chain_alloc. apply (chain_frame (nodes d)); [|done]. intros l Hl. apply alter_other.
      apply NoDup_cons in Hnd as [? _]. set_solver.
Qed.

Lemma linked_popFront_ok d cs c :
  linked_rep d (c :: cs) -> exists d', linkedPopFront d = Some (c, d') /\ linked_rep d' cs.
Proof.
  intros (locs & Hnd & Hc & Hh & Ht). destruct locs as [|l locs]; [done|]. destruct Hc as [Hn Hc].
  unfold linkedPopFront. rewrite Hh. simpl. rewrite Hn. simpl. eexists. split; [done|].
  apply NoDup_cons in Hnd as [Hl Hnd]. destruct locs as [|k locs].
  - destruct cs; [|done]. exists []. split_and!; [constructor|done..].
  - exists (k :: locs). split_and!; [done| |done|by rewrite Ht]. destruct cs as [|c' cs]; [done|].
    destruct Hc as [Hk Hc]. simpl. split; [by rewrite (alter_same _ _ _ _ Hk)|].
    apply (chain_frame (nodes d)); [|done]. intros l' Hl'. apply alter_other.
    apply NoDup_cons in Hnd as [? _]. set_solver.
Qed.

Lemma linked_pushBack_ok d cs c : linked_rep d cs -> linked_rep (linkedPushBack d c) (cs ++ [c]).
Proof.
  intros (locs & Hnd & Hc & Hh & Ht). unfold linkedPushBack. set (l := length (nodes d)).
  assert (l ∉ locs) as Hfresh by (intros Hl; apply (chain_bound _ _ _ _ _ _ Hc) in Hl; unfold l in Hl; lia).
  exists (locs ++ [l]). assert (NoDup (locs ++ [l])) as Hnd' by (apply NoDup_app; split_and!; [done|intros x Hx ->%list_elem_of_singleton; done|apply NoDup_singleton]).
  rewrite last_snoc. destruct locs as [|t locs _] using rev_ind.
  - rewrite Ht. simpl. destruct cs; [|done]. simpl. split_and!; try done. by apply list_lookup_middle.
  - rewrite last_snoc in Ht. rewrite Ht. simpl. split_and!; [done| |by destruct locs|done].
    assert (exists cs' c', cs = cs' ++ [c']) as (cs' & c' & ->).
    { apply chain_length in Hc. rewrite length_app in Hc. destruct cs as [|c' cs' _] using rev_ind; [simpl in Hc; lia|eauto]. }
    apply chain_snoc in Hc as [Hc Hn]. rewrite chain_snoc. split.
    + apply chain_snoc. split.
      * apply chain_alloc. apply (chain_frame (nodes d)); [|done]. intros k Hk. apply alter_other.
        apply NoDup_app in Hnd as (_ & Hnd & _). set_solver.
      * rewrite lookup_app_l by (rewrite length_alter; by eapply lookup_lt_Some). by rewrite (alter_same _ _ _ _ Hn).
    + rewrite last_snoc. rewrite lookup_app_r by (by rewrite length_alter). by rewrite length_alter, Nat.sub_diag.
Qed.

Lemma linked_popBack_ok d cs c :
  linked_rep d (cs ++ [c]) -> exists d', linkedPopBack d = Some (c, d') /\ linked_rep d' cs.
Proof.
  intros (locs & Hnd & Hc & Hh & Ht). destruct locs as [|t locs _] using rev_ind.
  { apply chain_length in Hc. rewrite length_app in Hc. simpl in Hc. lia. }
  apply chain_snoc in Hc as [Hc Hn]. rewrite last_snoc in Ht. unfold linkedPopBack. rewrite Ht. simpl. rewrite Hn. simpl.
  eexists. split; [done|]. apply NoDup_app in Hnd as (Hnd & Hdisj & _). destruct locs as [|k locs _] using rev_ind.
  - simpl. destruct cs; [|done]. exists []. split_and!; [constructor|done..].
  - rewrite last_snoc. exists (locs ++ [k]). rewrite last_snoc. simpl. split_and!; [done| |by rewrite Hh; destruct locs|done].
    assert (exists cs' c', cs = cs' ++ [c']) as (cs' & c' & ->).
    { apply chain_length in Hc. rewrite length_app in Hc. destruct cs as [|c' cs' _] using rev_ind; [simpl in Hc; lia|eauto]. }
    apply chain_snoc in Hc as [Hc Hk]. apply chain_snoc. split; [|by rewrite (alter_same _ _ _ _ Hk)].
    apply (chain_frame (nodes d)); [|done]. intros l Hl. apply alter_other.
    apply NoDup_app in Hnd as (_ & Hnd & _). set_solver.
Qed.

#[export] Instance linked_ops : DequeOps := {|
  D := linked; emptyD := mkLinked [] None None;
  isNil := fun d => match headChoice d with None => true | Some _ => false end;
  PushChoiceFront := linkedPushFront; PopChoiceFront := linkedPopFront;
  PushChoiceBack := linkedPushBack; PopChoiceBack := linkedPopBack; represents := linked_rep
|}.

Lemma linked_deque : Deque.
Proof.
  split; [ | |apply linked_pushFront_ok|apply linked_pushBack_ok|apply linked_popFront_ok|apply linked_popBack_ok].
  - exists []. split_and!; [constructor|done..].
  - intros d l (locs & _ & Hc & Hh & _). simpl. rewrite Hh. apply chain_length in Hc.
    destruct locs, l; simpl in *; naive_solver.
Qed.

(** The choices linked both ways behave as a double-ended queue: after any pushes at either end, the
    pops return the choices in the order of the list they represent. *)
Theorem linked_refines_list (d : linked) (cs : list choice) (c : choice) :
  linked_rep d cs ->
  linked_rep (linkedPushFront d c) (c :: cs) /\ linked_rep (linkedPushBack d c) (cs ++ [c]) /\
  (forall c0 cs0, cs = c0 :: cs0 -> exists d', linkedPopFront d = Some (c0, d') /\ linked_rep d' cs0) /\
  (forall c0 cs0, cs = cs0 ++ [c0] -> exists d', linkedPopBack d = Some (c0, d') /\ linked_rep d' cs0).
Proof.
  intros Hr. split_and!; [by apply linked_pushFront_ok|by apply linked_pushBack_ok| |]; intros c0 cs0 ->.
  - by apply linked_popFront_ok.
  - by apply linked_popBack_ok.
Qed.

Lemma linked_refines_list_witness :
  linked_rep (linkedPushBack (mkLinked [] None None) (mkChoice 0 [4%N])) [mkChoice 0 [4%N]].
Proof.
  apply (linked_refines_list (mkLinked [] None None) [] (mkChoice 0 [4%N])).
  exists []. split; [constructor|split; [exact I|split; reflexivity]].
Defined.
