(* ===== verification/SolverSearch.v ===== *)
(** * The search for a solution in preference order

    Models [solver/search.go]: a backtracking search that guesses the candidates of each choice
    in order, testing each guess in a scope of the SAT solver.  The theorems say that the search ends
    on every input, that its answer is right, and that it leaves the solver in the scope it
    found it in. *)

From S2P Require Import Prelude SatInterface LitMapping ChoiceDeque.

(** ** The search *)

(** [guess]; [gu_m = LitNull] when the choice was satisfied already or has no candidate left. *)
Record guess := mkGuess { gu_m : Lit; gu_index : nat; gu_children : nat; gu_candidates : list Lit }.

(** How a loop ends: a result, a nil or out-of-range dereference, or no fuel. *)
Inductive outcome (A : Type) := Done (a : A) | Panic | OutOfFuel.
Arguments Done {A} a. Arguments Panic {A}. Arguments OutOfFuel {A}.

Section search.
Context `{SatOps, DequeOps}.

(** [guesses] has the last guess first. *)
Record search := mkSearch {
  h_s : G; h_lits : litMapping; h_assumptions : gset Lit; h_guesses : list guess;
  h_choices : D; h_result : Z
}.

(** The loop over the variable's constraints: one choice per constraint with an order. *)
Fixpoint pushChildren (lits : litMapping) (choices : D) (children : nat) (ks : list Constraint) : litMapping * D * nat :=
  match ks with
  | [] => (lits, choices, children)
  | k :: ks =>
      let '(lits, ms) := LitsOf lits (order k) in
      match ms with
      | [] => pushChildren lits choices children ks
      | _ => pushChildren lits (PushChoiceBack choices (mkChoice 0 ms)) (S children) ks
      end
  end.

(** The literal a choice guesses next. *)
Definition guessLit (assumptions : gset Lit) (c : choice) : Lit :=
  if existsb (fun m => bool_decide (m ∈ assumptions)) (c_candidates c) then LitNull
  else default LitNull (c_candidates c !! c_index c).

Definition PushGuess (h : search) : option search :=
  '(c, choices) ← PopChoiceFront (h_choices h);
  let m := guessLit (h_assumptions h) c in
  if bool_decide (m = LitNull) then
    Some (mkSearch (h_s h) (h_lits h) (h_assumptions h)
      (mkGuess m (c_index c) 0 (c_candidates c) :: h_guesses h) choices (h_result h))
  else
    let '(lits, variable) := VariableOf (h_lits h) m in
    let '(lits, choices, children) := pushChildren lits choices 0 (v_Constraints variable) in
    let '(g, r) := Test (Assume (h_s h) [m]) in
    Some (mkSearch g lits ({[m]} ∪ h_assumptions h)
      (mkGuess m (c_index c) children (c_candidates c) :: h_guesses h) choices r).

Fixpoint popChildren (choices : D) (children : nat) : option D :=
  match children with
  | 0 => Some choices
  | S children => '(_, choices) ← PopChoiceBack choices; popChildren choices children
  end.

Definition PopGuess (h : search) : option search :=
  match h_guesses h with
  | [] => None
  | g :: guesses =>
      let null := bool_decide (gu_m g = LitNull) in
      let '(s, r) := if null then (h_s h, h_result h) else Untest (h_s h) in
      choices ← popChildren (h_choices h) (gu_children g);
      Some (mkSearch s (h_lits h) (if null then h_assumptions h else h_assumptions h ∖ {[gu_m g]}) guesses
        (PushChoiceFront choices (mkChoice (if null then gu_index g else S (gu_index g)) (gu_candidates g))) r)
  end.

(** [Lits]: the guessed literals, the first guess first. *)
Definition guessedLits (gs : list guess) : list Lit := filter (fun m => m <> LitNull) (gu_m <$> gs).
Definition search_Lits (h : search) : list Lit := reverse (guessedLits (h_guesses h)).

(** "Need to have a definitive result once all choices have been made." *)
Definition settle (h : search) : search :=
  if isNil (h_choices h) && (h_result h =? unknown)%Z then
    let '(g, r) := SolveG (h_s h) in
    mkSearch g (h_lits h) (h_assumptions h) (h_guesses h) (h_choices h) r
  else h.

(** One round of the loop: [Done (inl h)] goes on with [h], [Done (inr h)] leaves the loop. *)
Definition round (h : search) : outcome (search + search) :=
  let h := settle h in
  let next o := match o with Some h' => Done (inl h') | None => Panic end in
  if (h_result h =? unsatisfiable)%Z then
    match h_guesses h with [] => Done (inr h) | _ => next (PopGuess h) end
  else if isNil (h_choices h) then Done (inr h)
  else next (PushGuess h).

Fixpoint loop (fuel : nat) (h : search) : outcome search :=
  match fuel with
  | 0 => OutOfFuel
  | S fuel =>
      match round h with
      | Done (inl h) => loop fuel h
      | Done (inr h) => Done h
      | Panic => Panic
      | OutOfFuel => OutOfFuel
      end
  end.

(** [for len(h.guesses) > 0 { h.PopGuess() }] *)
Fixpoint restore (n : nat) (h : search) : option search :=
  match n with 0 => Some h | S n => h ← PopGuess h; restore n h end.

Record found := mkFound { f_result : Z; f_lits : list Lit; f_set : gset Lit; f_search : search }.

Definition Do (fuel : nat) (h : search) (anchors : list Lit) : outcome found :=
  let choices := foldl (fun ch m => PushChoiceBack ch (mkChoice 0 [m])) (h_choices h) anchors in
  let h := mkSearch (h_s h) (h_lits h) (h_assumptions h) (h_guesses h) choices (h_result h) in
  match loop fuel h with
  | Done h =>
      let lits := search_Lits h in
      match restore (length (h_guesses h)) h with
      | Some h' => Done (mkFound (h_result h) lits (list_to_set lits) h')
      | None => Panic
      end
  | Panic => Panic
  | OutOfFuel => OutOfFuel
  end.
End search.

(** ** The invariant of the search *)

Section search_facts.
Context `{Sat, Deque}.
Implicit Types (h : search) (L : list choice).

(** A mapping changes only by recording errors. *)
Definition same_mapping (d d' : litMapping) : Prop :=
  inorder d' = inorder d /\ variables d' = variables d /\ lits d' = lits d /\ constraints d' = constraints d /\
  circuit d' = circuit d /\ exists es, errs d' = errs d ++ es.

(** A candidate stands for a variable, or for an identifier that was not provided. *)
Definition candidate (d : litMapping) (m : Lit) : Prop := m = LitNull \/ is_Some (variables d !! m).
Definition candidates_ok (d : litMapping) L : Prop := forall c m, c ∈ L -> m ∈ c_candidates c -> candidate d m.

(** Undoing the guesses never lacks a choice to remove. *)
Fixpoint children_fit (gs : list guess) (n : nat) : Prop :=
  match gs with [] => True | g :: gs => (gu_children g <= n)%nat /\ children_fit gs (S (n - gu_children g)) end.

(** [g0] and [d0] are the solver and the mapping the search started from. *)
Record inv (g0 : G) (d0 : litMapping) h L : Prop := mkInv {
  i_rep : represents (h_choices h) L;
  i_mapping : same_mapping d0 (h_lits h);
  i_cands : candidates_ok d0 L;
  i_gcands : candidates_ok d0 ((fun g => mkChoice (gu_index g) (gu_candidates g)) <$> h_guesses h);
  i_fit : children_fit (h_guesses h) (length L);
  i_guessed : forall m, m ∈ guessedLits (h_guesses h) -> is_Some (variables d0 !! m);
  i_nodup : NoDup (guessedLits (h_guesses h));
  i_assumed : h_assumptions h = list_to_set (guessedLits (h_guesses h));
  i_clauses : clauses (h_s h) = clauses g0;
  i_scopes : scopes (h_s h) = ((fun m => [m]) <$> guessedLits (h_guesses h)) ++ scopes g0;
  i_pending : pending (h_s h) = [];
  i_unres : unresolved (h_s h) = (h_result h =? unsatisfiable)%Z;
  i_result : h_result h = satisfiable \/ h_result h = unknown \/ h_result h = unsatisfiable;
  i_sat : h_result h = satisfiable -> exists ρ, consistent (h_s h) (in_force (h_s h)) ρ;
  i_unsat : h_result h = unsatisfiable -> blames (h_s h) (in_force (h_s h));
}.

Lemma same_mapping_refl d : same_mapping d d.
Proof. split_and!; try done. exists []. by rewrite app_nil_r. Qed.

Lemma same_mapping_trans d1 d2 d3 : same_mapping d1 d2 -> same_mapping d2 d3 -> same_mapping d1 d3.
Proof.
  intros (? & ? & ? & ? & ? & es & Hes) (? & ? & ? & ? & ? & es' & Hes').
  split_and!; try congruence. exists (es ++ es'). by rewrite Hes', Hes, app_assoc.
Qed.

Lemma addErr_same d e : same_mapping d (addErr d e).
Proof. split_and!; try done. by exists [e]. Qed.

Lemma LitOf_same d id d' m : LitOf d id = (d', m) -> same_mapping d d'.
Proof. unfold LitOf. destruct (lits d !! id); intros [= <- <-]; [apply same_mapping_refl|apply addErr_same]. Qed.

Lemma LitsOf_same d ids d' ms : LitsOf d ids = (d', ms) -> same_mapping d d'.
Proof.
  revert d ms. induction ids as [|id ids IH]; intros d ms; simpl; [intros [= <- <-]; apply same_mapping_refl|].
  destruct (LitOf d id) as [d1 m] eqn:E1. destruct (LitsOf d1 ids) as [d2 ms2] eqn:E2. intros [= <- <-].
  eapply same_mapping_trans; [by eapply LitOf_same|eauto].
Qed.

Lemma VariableOf_same d m d' v : VariableOf d m = (d', v) -> same_mapping d d'.
Proof. unfold VariableOf. destruct (variables d !! m); intros [= <- <-]; [apply same_mapping_refl|apply addErr_same]. Qed.

(** The literals of identifiers are candidates, when the tables of the mapping agree. *)
Definition tables_agree (d : litMapping) : Prop :=
  forall id m, lits d !! id = Some m -> m <> LitNull /\ is_Some (variables d !! m).

Lemma LitsOf_candidates d ids d' ms m : tables_agree d -> LitsOf d ids = (d', ms) -> m ∈ ms -> candidate d m.
Proof.
  intros Ht. assert (Hgen : forall d1, same_mapping d d1 -> LitsOf d1 ids = (d', ms) -> m ∈ ms -> candidate d m).
  2: { apply Hgen, same_mapping_refl. }
  revert ms. induction ids as [|id ids IH]; intros ms d1 Hs; simpl; [by intros [= <- <-] ?%elem_of_nil|].
  destruct (LitOf d1 id) as [d2 m2] eqn:E1. destruct (LitsOf d2 ids) as [d3 ms3] eqn:E2. intros [= <- <-].
  intros [->|Hm]%elem_of_cons.
  - unfold LitOf in E1. destruct Hs as (_ & _ & Hl & _). rewrite Hl in E1.
    destruct (lits d !! id) eqn:El; injection E1 as <- <-; [right; by eapply Ht|by left].
  - eapply IH; [|done|done]. eapply same_mapping_trans; [done|]. by eapply LitOf_same.
Qed.

Lemma pushChildren_ok d0 ks : forall d ch n L d' ch' n',
  tables_agree d0 -> same_mapping d0 d -> represents ch L -> pushChildren d ch n ks = (d', ch', n') ->
  exists kids, represents ch' (L ++ kids) /\ n' = (n + length kids)%nat /\ candidates_ok d0 kids /\ same_mapping d0 d'.
Proof.
  induction ks as [|k ks IH]; intros d ch n L d' ch' n' Ht Hs Hr; simpl.
  { intros [= <- <- <-]. exists []. rewrite app_nil_r. split_and!; [done|simpl; lia|by intros ? ? ?%elem_of_nil|done]. }
  destruct (LitsOf d (order k)) as [d1 ms] eqn:El.
  assert (same_mapping d0 d1) as Hs1 by (eapply same_mapping_trans; [done|by eapply LitsOf_same]).
  destruct ms as [|m ms]; intros Hp; [by eapply IH|].
  destruct (IH _ _ _ (L ++ [mkChoice 0 (m :: ms)]) _ _ _ Ht Hs1 (PushChoiceBack_ok _ _ _ Hr) Hp)
    as (kids & Hr' & -> & Hc & Hs').
  exists (mkChoice 0 (m :: ms) :: kids). rewrite <- app_assoc in Hr'. split_and!; [done|simpl; lia| |done].
  intros c m' [->|Hin]%elem_of_cons Hm'; [|by eapply Hc].
  assert (tables_agree d) as Htd.
  { destruct Hs as (_ & Hv & Hl & _). unfold tables_agree. by rewrite Hv, Hl. }
  destruct (LitsOf_candidates _ _ _ _ m' Htd El Hm') as [?|Hv]; [by left|right].
  destruct Hs as (_ & Hvs & _). by rewrite <- Hvs.
Qed.

Lemma popChildren_ok n : forall ch L kids,
  represents ch (L ++ kids) -> n = length kids -> exists ch', popChildren ch n = Some ch' /\ represents ch' L.
Proof.
  induction n as [|n IH]; intros ch L kids Hr Hn; simpl.
  - destruct kids; [|done]. rewrite app_nil_r in Hr. eauto.
  - destruct kids as [|k kids _] using rev_ind; [done|]. rewrite app_assoc in Hr.
    destruct (PopChoiceBack_ok _ _ _ Hr) as (ch' & -> & Hr'). simpl. apply (IH _ _ kids); [done|].
    rewrite length_app in Hn. simpl in Hn. lia.
Qed.

Lemma guessLit_spec A c m :
  guessLit A c = m -> m <> LitNull -> m ∈ c_candidates c /\ m ∉ A /\ c_candidates c !! c_index c = Some m.
Proof.
  unfold guessLit. destruct (existsb _ _) eqn:E; [naive_solver|].
  destruct (c_candidates c !! c_index c) as [m'|] eqn:El; simpl; intros <- Hne; [|done].
  assert (m' ∈ c_candidates c) as Hin by (by eapply list_elem_of_lookup_2).
  split_and!; [done| |done]. rewrite existsb_not_elem_of in E. apply E in Hin. by apply bool_decide_eq_false in Hin.
Qed.

Lemma guessedLits_cons g gs :
  guessedLits (g :: gs) = (if bool_decide (gu_m g = LitNull) then [] else [gu_m g]) ++ guessedLits gs.
Proof.
  unfold guessedLits. rewrite fmap_cons, filter_cons. case_bool_decide as E.
  - by rewrite decide_False by naive_solver.
  - by rewrite decide_True.
Qed.

(** *** A guess and its undoing *)

Lemma PushGuess_inv g0 d0 h c L :
  tables_agree d0 -> inv g0 d0 h (c :: L) -> h_result h <> unsatisfiable ->
  exists h' kids, PushGuess h = Some h' /\ inv g0 d0 h' (L ++ kids) /\
    let m := guessLit (h_assumptions h) c in
    h_guesses h' = mkGuess m (c_index c) (length kids) (c_candidates c) :: h_guesses h /\
    (m = LitNull -> kids = [] /\ h_result h' = h_result h).
Proof.
  intros Ht [Hrep Hmap Hc Hgc Hfit Hgd Hnd Has Hcl Hsc Hpe Hun Hres Hsat Hunsat] Hnu.
  destruct (PopChoiceFront_ok _ _ _ Hrep) as (ch & Hpop & Hrep'). unfold PushGuess. rewrite Hpop. simpl.
  set (m := guessLit (h_assumptions h) c).
  assert (candidates_ok d0 L) as HcL by (intros c0 m0 ? ?; apply (Hc c0); [set_solver|done]).
  assert (candidates_ok d0 [mkChoice (c_index c) (c_candidates c)]) as Hc1.
  { intros c0 m0 ->%list_elem_of_singleton ?. apply (Hc c); [set_solver|done]. }
  case_bool_decide as Hm.
  - eexists _, []. split; [done|]. rewrite app_nil_r. split; [|done].
    split; simpl; rewrite ?guessedLits_cons; simpl; rewrite ?bool_decide_true by done; simpl; try done.
    + intros c0 m0 [->|?]%elem_of_cons; [apply Hc1; set_solver|by apply Hgc].
    + rewrite Nat.sub_0_r. split; [lia|done].
  - destruct (VariableOf (h_lits h) m) as [d1 v] eqn:Ev.
    destruct (pushChildren d1 ch 0 (v_Constraints v)) as [[d2 ch2] n2] eqn:Ep.
    destruct (Test (Assume (h_s h) [m])) as [g' r] eqn:Et.
    destruct (Assume_spec (h_s h) [m]) as (Ea1 & Ea2 & Ea3 & Ea4).
    destruct (Test_spec _ _ _ Et) as (Hcl' & Hsc' & Hpe' & Hun' & Hr & Hs1 & Hs2).
    { rewrite Ea4, Hun. by apply Z.eqb_neq. }
    destruct (pushChildren_ok d0 _ _ _ _ _ _ _ _ Ht
      (same_mapping_trans _ _ _ Hmap (VariableOf_same _ _ _ _ Ev)) Hrep' Ep) as (kids & Hr2 & -> & Hkids & Hmap2).
    destruct (guessLit_spec (h_assumptions h) c m eq_refl Hm) as (Hin & Hnin & Hlk).
    eexists _, kids. split; [done|]. split; [|done].
    split; simpl; rewrite ?guessedLits_cons; simpl; rewrite ?bool_decide_false by done; simpl; try done.
    + intros c0 m0 [?|?]%elem_of_app ?; [by apply (HcL c0)|by apply (Hkids c0)].
    + intros c0 m0 [->|?]%elem_of_cons; [apply Hc1; set_solver|by apply Hgc].
    + rewrite length_app. split; [lia|]. by replace (S (length L + length kids - length kids)) with (S (length L)) by lia.
    + intros m0 [->|?]%elem_of_cons; [|eauto]. destruct (Hc c m) as [?|?]; [set_solver|done|done|done].
    + constructor; [|done]. rewrite Has in Hnin. by rewrite elem_of_list_to_set in Hnin.
    + by rewrite Has.
    + by rewrite Hcl', Ea1.
    + rewrite Hsc', Ea2, Ea3, Hpe, Hsc. done.
    + intros Hr1. exists (value_of g'). auto.
Qed.

Lemma PopGuess_inv g0 d0 h g gs L kids :
  inv g0 d0 h (L ++ kids) -> h_guesses h = g :: gs -> length kids = gu_children g ->
  exists h', PopGuess h = Some h' /\ h_guesses h' = gs /\
    inv g0 d0 h' (mkChoice (if bool_decide (gu_m g = LitNull) then gu_index g else S (gu_index g)) (gu_candidates g) :: L) /\
    (gu_m g = LitNull -> h_result h' = h_result h) /\
    (gu_m g <> LitNull -> h_result h' = unknown \/ h_result h' = unsatisfiable).
Proof.
  intros [Hrep Hmap Hc Hgc Hfit Hgd Hnd Has Hcl Hsc Hpe Hun Hres Hsat Hunsat] Hg Hk.
  rewrite Hg in *. destruct Hfit as [Hfit1 Hfit2]. rewrite guessedLits_cons in *.
  assert (candidates_ok d0 (mkChoice (if bool_decide (gu_m g = LitNull) then gu_index g else S (gu_index g)) (gu_candidates g) :: L)) as Hc'.
  { intros c m [->|?]%elem_of_cons Hm; [|apply (Hc c); set_solver].
    apply (Hgc (mkChoice (gu_index g) (gu_candidates g))); [|done]. set_solver. }
  assert (candidates_ok d0 ((fun g => mkChoice (gu_index g) (gu_candidates g)) <$> gs)) as Hgc'.
  { intros c m Hin Hm. apply (Hgc c); [|done]. set_solver. }
  assert (children_fit gs (S (length L))) as Hfit3.
  { replace (S (length L)) with (S (length (L ++ kids) - gu_children g)); [done|]. rewrite length_app. lia. }
  destruct (popChildren_ok (gu_children g) (h_choices h) L kids) as (ch & Hch & Hr'); [done|done|].
  unfold PopGuess. rewrite Hg, Hch. case_bool_decide as Hm; simpl in *.
  - eexists. split; [done|]. split_and!; [done| |done|done].
    split; simpl; try done. by apply PushChoiceFront_ok.
  - destruct (Untest (h_s h)) as [s r] eqn:Eu.
    destruct (Untest_spec _ _ _ _ _ Eu Hsc Hpe) as (Hcl' & Hsc' & Hpe' & Hun' & Hr & Hbl).
    apply NoDup_cons in Hnd as [Hnin Hnd].
    eexists. split; [done|]. split_and!; [done| |done|done].
    split; simpl; try done.
    + by apply PushChoiceFront_ok.
    + intros m ?. apply Hgd. set_solver.
    + rewrite Has. rewrite <- (elem_of_list_to_set (C := gset Lit)) in Hnin. apply set_eq. intros x.
      rewrite elem_of_difference, elem_of_union, elem_of_singleton. naive_solver.
    + by rewrite Hcl'.
    + naive_solver.
    + intros ->. destruct Hr; done.
Qed.

(** *** Runs of the loop *)

Lemma settle_inv g0 d0 h :
  inv g0 d0 h [] -> h_result h = unknown ->
  inv g0 d0 (settle h) [] /\ h_guesses (settle h) = h_guesses h /\
  (h_result (settle h) = satisfiable \/ h_result (settle h) = unsatisfiable).
Proof.
  intros [Hrep Hmap Hc Hgc Hfit Hgd Hnd Has Hcl Hsc Hpe Hun Hres Hsat Hunsat] Hr. unfold settle.
  rewrite (proj2 (isNil_iff _ _ Hrep) eq_refl), Hr. simpl. destruct (SolveG (h_s h)) as [g r] eqn:Es.
  destruct (SolveG_spec _ _ _ Es) as (Hcl' & Hsc' & Hpe' & Hun' & Hr' & Hs1 & Hs2). rewrite Hpe, app_nil_r in Hs1, Hs2.
  assert (in_force g = in_force (h_s h)) as Ef by (unfold in_force; by rewrite Hsc').
  split; [|done]. split; simpl; try done; try congruence; rewrite ?Ef; try naive_solver.
Qed.

Lemma settle_id h : isNil (h_choices h) = false \/ h_result h <> unknown -> settle h = h.
Proof. unfold settle. intros [->|Hne%Z.eqb_neq]; [done|]. by rewrite Hne, andb_false_r. Qed.

Lemma settle_idem h : settle (settle h) = settle h.
Proof.
  destruct (isNil (h_choices h) && (h_result h =? unknown)%Z) eqn:E.
  - apply settle_id. right. unfold settle. rewrite E. destruct (SolveG (h_s h)) as [g r] eqn:Es. simpl.
    destruct (SolveG_spec _ _ _ Es) as (_ & _ & _ & _ & [-> | ->] & _); done.
  - unfold settle at 2. unfold settle. by rewrite !E.
Qed.

(** [reaches h h']: the loop gets from [h] to [h'], counting the settling of a round as a step. *)
Inductive reaches : search -> search -> Prop :=
  | reach_refl h : reaches h h
  | reach_settle h h' : reaches (settle h) h' -> reaches h h'
  | reach_step h h1 h' : round h = Done (inl h1) -> reaches h1 h' -> reaches h h'.

Lemma reaches_trans h1 h2 h3 : reaches h1 h2 -> reaches h2 h3 -> reaches h1 h3.
Proof. induction 1; intros; [done|apply reach_settle|eapply reach_step]; eauto. Qed.

Lemma reaches_loop h h' hr : reaches h h' -> round h' = Done (inr hr) -> exists fuel, loop fuel h = Done hr.
Proof.
  induction 1 as [h|h h' _ IH|h h1 h' Hs _ IH]; intros Hr.
  - exists 1. simpl. by rewrite Hr.
  - destruct (IH Hr) as [[|fuel] Hf]; [done|]. exists (S fuel). simpl in *.
    replace (round h) with (round (settle h)); [done|]. unfold round. by rewrite settle_idem.
  - destruct (IH Hr) as [fuel Hf]. exists (S fuel). simpl. by rewrite Hs.
Qed.

Lemma loop_mono fuel fuel' h hr : (fuel <= fuel')%nat -> loop fuel h = Done hr -> loop fuel' h = Done hr.
Proof.
  revert fuel' h. induction fuel as [|fuel IH]; intros fuel' h Hle; [done|]. destruct fuel' as [|fuel']; [lia|]. simpl.
  destruct (round h) as [[h1|h1]| |]; [|done..]. apply IH. lia.
Qed.

Lemma round_push h : h_result h <> unsatisfiable -> isNil (h_choices h) = false ->
  round h = match PushGuess h with Some h' => Done (inl h') | None => Panic end.
Proof.
  intros Hr%Z.eqb_neq Hn. unfold round. rewrite settle_id by auto. by rewrite Hr, Hn.
Qed.

Lemma round_pop h g gs : h_result h = unsatisfiable -> h_guesses h = g :: gs ->
  round h = match PopGuess h with Some h' => Done (inl h') | None => Panic end.
Proof.
  intros Hr Hg. unfold round. rewrite settle_id by (right; by rewrite Hr). rewrite Hr. simpl. by rewrite Hg.
Qed.

Lemma round_sat h : h_result h = satisfiable -> isNil (h_choices h) = true -> round h = Done (inr h).
Proof. intros Hr Hn. unfold round. rewrite settle_id by (right; by rewrite Hr). by rewrite Hr, Hn. Qed.

(** The search leaves the loop with a model, or comes back with the guesses it had. *)
Definition exits g0 d0 h : Prop :=
  exists h' hr, reaches h h' /\ round h' = Done (inr hr) /\ h_result hr = satisfiable /\ inv g0 d0 hr [].
Definition backs_up g0 d0 h (n : nat) : Prop :=
  exists h' L', reaches h h' /\ h_result h' = unsatisfiable /\ inv g0 d0 h' L' /\
    h_guesses h' = h_guesses h /\ length L' = n.

Lemma exits_reach g0 d0 h h1 : reaches h h1 -> exits g0 d0 h1 -> exits g0 d0 h.
Proof. intros Hr (h' & hr & ? & ?). exists h', hr. split; [by eapply reaches_trans|done]. Qed.

(** The number of variables not assumed, and of candidates left in the first choice. *)
Definition unassumed (d0 : litMapping) h : nat := size (dom (variables d0) ∖ h_assumptions h).
Definition front_left L : nat := match L with [] => 0 | c :: _ => length (c_candidates c) - c_index c end.

Lemma unassumed_guess g0 d0 h L h' L' m gs c n :
  inv g0 d0 h L -> inv g0 d0 h' L' -> m <> LitNull ->
  h_guesses h' = mkGuess m c n gs :: h_guesses h -> (unassumed d0 h' < unassumed d0 h)%nat.
Proof.
  intros Hi Hi' Hm Hg. unfold unassumed.
  pose proof (i_nodup _ _ _ _ Hi') as Hnd. pose proof (i_guessed _ _ _ _ Hi') as Hgd.
  rewrite (i_assumed _ _ _ _ Hi'), (i_assumed _ _ _ _ Hi), Hg. rewrite Hg in Hnd, Hgd.
  rewrite guessedLits_cons in *. simpl in *. rewrite bool_decide_false in * by done. simpl in *.
  apply NoDup_cons in Hnd as [Hnin _]. specialize (Hgd m ltac:(set_solver)).
  apply subset_size. split; [set_solver|]. intros Hsub. apply elem_of_dom in Hgd.
  specialize (Hsub m). rewrite elem_of_difference, elem_of_list_to_set in Hsub. set_solver.
Qed.

Lemma unassumed_same g0 d0 h L h' L' :
  inv g0 d0 h L -> inv g0 d0 h' L' -> h_guesses h' = h_guesses h -> unassumed d0 h' = unassumed d0 h.
Proof. intros Hi Hi' Hg. unfold unassumed. by rewrite (i_assumed _ _ _ _ Hi'), (i_assumed _ _ _ _ Hi), Hg. Qed.

(** Undoing the top guess in a run. *)
Lemma undo g0 d0 h g gs L0 n :
  inv g0 d0 h L0 -> h_result h = unsatisfiable -> h_guesses h = g :: gs -> length L0 = (n + gu_children g)%nat ->
  exists h' L', reaches h h' /\ h_guesses h' = gs /\ length L' = n /\
    inv g0 d0 h' (mkChoice (if bool_decide (gu_m g = LitNull) then gu_index g else S (gu_index g)) (gu_candidates g) :: L') /\
    (gu_m g = LitNull -> h_result h' = unsatisfiable) /\
    (h_result h' = unknown \/ h_result h' = unsatisfiable).
Proof.
  intros Hi Hr Hg Hlen. rewrite <- (take_drop n L0) in Hi.
  assert (length (drop n L0) = gu_children g) as Hk by (rewrite length_drop; lia).
  destruct (PopGuess_inv _ _ _ _ _ _ _ Hi Hg Hk) as (h' & Hp & Hg' & Hi' & Hn & Hnn).
  exists h', (take n L0). split_and!; [|done|rewrite length_take; lia|done| |].
  - eapply reach_step; [|apply reach_refl]. rewrite (round_pop _ _ _ Hr Hg), Hp. done.
  - intros E. rewrite Hn by done. done.
  - destruct (decide (gu_m g = LitNull)) as [E|E]; [right; by rewrite Hn|auto].
Qed.

Definition explored g0 d0 (u n k : nat) : Prop :=
  forall h L, inv g0 d0 h L -> h_result h <> unsatisfiable ->
    unassumed d0 h = u -> length L = n -> front_left L = k -> exits g0 d0 h \/ backs_up g0 d0 h (length L).

(** A choice with nothing to guess is passed over, and put back when the rest fails. *)
Lemma explore_null g0 d0 h c L :
  tables_agree d0 -> inv g0 d0 h (c :: L) -> h_result h <> unsatisfiable ->
  guessLit (h_assumptions h) c = LitNull ->
  (forall k, explored g0 d0 (unassumed d0 h) (length L) k) ->
  exits g0 d0 h \/ backs_up g0 d0 h (S (length L)).
Proof.
  intros Ht Hi Hr Hm IH. destruct (PushGuess_inv _ _ _ _ _ Ht Hi Hr) as (h1 & kids & Hp & Hi1 & Hg1 & Hn1).
  rewrite Hm in Hg1. destruct (Hn1 Hm) as [-> Hr1]. rewrite app_nil_r in Hi1. simpl in Hg1.
  assert (reaches h h1) as Hreach.
  { eapply reach_step; [|apply reach_refl]. rewrite round_push, Hp; [done..|].
    apply not_true_iff_false. rewrite (isNil_iff _ _ (i_rep _ _ _ _ Hi)). done. }
  assert (unassumed d0 h1 = unassumed d0 h) as Hu.
  { unfold unassumed. rewrite (i_assumed _ _ _ _ Hi1), (i_assumed _ _ _ _ Hi), Hg1, guessedLits_cons. done. }
  destruct (IH _ h1 L Hi1 ltac:(congruence) Hu eq_refl eq_refl) as [?|(h2 & L2 & Hr2 & Hu2 & Hi2 & Hg2 & Hl2)].
  { left. by eapply exits_reach. }
  right. rewrite Hg1 in Hg2. destruct (undo _ _ _ _ _ _ (length L) Hi2 Hu2 Hg2) as (h3 & L3 & Hr3 & Hg3 & Hl3 & Hi3 & Hn3 & _).
  { simpl. lia. }
  exists h3. eexists. split_and!; [|by apply Hn3|exact Hi3|done|simpl; lia].
  eapply reaches_trans; [done|]. by eapply reaches_trans.
Qed.

(** A guess is explored; when it fails, the next candidate of the choice is. *)
Lemma explore_guess g0 d0 h c L :
  tables_agree d0 -> inv g0 d0 h (c :: L) -> h_result h <> unsatisfiable ->
  guessLit (h_assumptions h) c <> LitNull ->
  (forall u' n k, (u' < unassumed d0 h)%nat -> explored g0 d0 u' n k) ->
  (forall k', (k' < front_left (c :: L))%nat -> explored g0 d0 (unassumed d0 h) (S (length L)) k') ->
  exits g0 d0 h \/ backs_up g0 d0 h (S (length L)).
Proof.
  intros Ht Hi Hr Hm IHu IHk. destruct (PushGuess_inv _ _ _ _ _ Ht Hi Hr) as (h1 & kids & Hp & Hi1 & Hg1 & _).
  assert (reaches h h1) as Hreach.
  { eapply reach_step; [|apply reach_refl]. rewrite round_push, Hp; [done..|].
    apply not_true_iff_false. rewrite (isNil_iff _ _ (i_rep _ _ _ _ Hi)). done. }
  destruct (guessLit_spec _ _ _ eq_refl Hm) as (_ & _ & Hlk%lookup_lt_Some).
  assert (exits g0 d0 h1 \/ backs_up g0 d0 h1 (length (L ++ kids))) as [?|(h2 & L2 & Hr2 & Hu2 & Hi2 & Hg2 & Hl2)].
  { destruct (decide (h_result h1 = unsatisfiable)) as [E|E].
    - right. exists h1, (L ++ kids). split_and!; [apply reach_refl|done..].
    - eapply (IHu (unassumed d0 h1)); [|done..]. by eapply unassumed_guess. }
  { left. by eapply exits_reach. }
  rewrite Hg1 in Hg2.
  destruct (undo _ _ _ _ _ _ (length L) Hi2 Hu2 Hg2) as (h3 & L3 & Hr3 & Hg3 & Hl3 & Hi3 & _ & Hres3).
  { simpl. by rewrite Hl2, length_app. }
  simpl in Hi3. rewrite bool_decide_false in Hi3 by done.
  assert (reaches h h3) as Hreach3 by (eapply reaches_trans; [done|]; by eapply reaches_trans).
  destruct Hres3 as [E|E].
  - edestruct (IHk (length (c_candidates c) - S (c_index c))) as [?|(h4 & L4 & Hr4 & Hu4 & Hi4 & Hg4 & Hl4)].
    + simpl. lia.
    + exact Hi3.
    + by rewrite E.
    + by eapply unassumed_same.
    + simpl. by rewrite Hl3.
    + done.
    + left. by eapply exits_reach.
    + right. exists h4, L4. split_and!; [by eapply reaches_trans|done|done|congruence|]. simpl in Hl4. lia.
  - right. exists h3. eexists. split_and!; [done|done|exact Hi3|done|simpl; lia].
Qed.

Lemma explore g0 d0 : tables_agree d0 -> forall u n k, explored g0 d0 u n k.
Proof.
  intros Ht u. induction u as [u IHu] using lt_wf_ind. intros n. induction n as [n IHn] using lt_wf_ind.
  intros k. induction k as [k IHk] using lt_wf_ind. intros h L Hi Hr Hu Hn Hk. destruct L as [|c L].
  - pose proof (i_result _ _ _ _ Hi) as [E|[E|E]]; [| |done].
    + left. exists h, h. split_and!; [apply reach_refl| |done|done].
      apply round_sat; [done|]. by apply (isNil_iff _ _ (i_rep _ _ _ _ Hi)).
    + destruct (settle_inv _ _ _ Hi E) as (Hi' & Hg' & [E'|E']).
      * left. exists (settle h), (settle h). split_and!; [apply reach_settle, reach_refl| |done|done].
        apply round_sat; [done|]. by apply (isNil_iff _ _ (i_rep _ _ _ _ Hi')).
      * right. exists (settle h), []. split_and!; [apply reach_settle, reach_refl|done..].
  - simpl in Hn. subst n u. destruct (decide (guessLit (h_assumptions h) c = LitNull)) as [Hm|Hm].
    + apply (explore_null _ _ _ _ _ Ht Hi Hr Hm). intros k'. apply IHn. simpl. lia.
    + apply (explore_guess _ _ _ _ _ Ht Hi Hr Hm); [auto|]. intros k' Hk'. apply IHk. lia.
Qed.

(** *** The end of the search *)

Lemma restore_inv g0 d0 n : forall h L,
  inv g0 d0 h L -> n = length (h_guesses h) -> exists h' L', restore n h = Some h' /\ inv g0 d0 h' L' /\ h_guesses h' = [].
Proof.
  induction n as [|n IH]; intros h L Hi Hn; simpl.
  { exists h, L. split_and!; [done..|]. by destruct (h_guesses h). }
  destruct (h_guesses h) as [|g gs] eqn:Hg; [done|]. pose proof (i_fit _ _ _ _ Hi) as Hfit. rewrite Hg in Hfit.
  destruct Hfit as [Hle _].
  rewrite <- (take_drop (length L - gu_children g) L) in Hi.
  destruct (PopGuess_inv _ _ _ _ _ _ _ Hi Hg) as (h' & Hp & Hg' & Hi' & _); [rewrite length_drop; lia|].
  rewrite Hp. simpl. eapply IH; [exact Hi'|]. rewrite Hg'. simpl in Hn. lia.
Qed.

(** The loop from a state with no guesses. *)
Lemma loop_ends g0 d0 h L :
  tables_agree d0 -> inv g0 d0 h L -> h_guesses h = [] -> h_result h <> unsatisfiable ->
  exists fuel hr Lr, (forall fuel', (fuel <= fuel')%nat -> loop fuel' h = Done hr) /\ inv g0 d0 hr Lr /\
    (h_result hr = satisfiable \/ (h_result hr = unsatisfiable /\ h_guesses hr = [])).
Proof.
  intros Ht Hi Hg Hr.
  destruct (explore g0 d0 Ht _ _ _ h L Hi Hr eq_refl eq_refl eq_refl)
    as [(h' & hr & Hre & Hend & Hs & Hi')|(h' & L' & Hre & Hu & Hi' & Hg' & _)].
  - destruct (reaches_loop _ _ _ Hre Hend) as [fuel Hf]. exists fuel, hr, [].
    split_and!; [intros; by eapply loop_mono|done|by left].
  - rewrite Hg in Hg'. assert (round h' = Done (inr h')) as Hend.
    { unfold round. rewrite settle_id by (right; by rewrite Hu). by rewrite Hu, Hg'. }
    destruct (reaches_loop _ _ _ Hre Hend) as [fuel Hf]. exists fuel, h', L'.
    split_and!; [intros; by eapply loop_mono|done|by right].
Qed.

Definition newSearch (g : G) (d : litMapping) : search := mkSearch g d ∅ [] emptyD unknown.

Definition withAnchors h (anchors : list Lit) : search :=
  mkSearch (h_s h) (h_lits h) (h_assumptions h) (h_guesses h)
    (foldl (fun ch m => PushChoiceBack ch (mkChoice 0 [m])) (h_choices h) anchors) (h_result h).

Lemma start_inv g d anchors :
  pending g = [] -> unresolved g = false -> (forall m, m ∈ anchors -> candidate d m) ->
  inv g d (withAnchors (newSearch g d) anchors) ((fun m => mkChoice 0 [m]) <$> anchors).
Proof.
  intros Hp Hu Ha. split; simpl; try done.
  - assert (Hgen : forall ch L, represents ch L ->
      represents (foldl (fun ch m => PushChoiceBack ch (mkChoice 0 [m])) ch anchors) (L ++ ((fun m => mkChoice 0 [m]) <$> anchors))).
    { clear Ha. induction anchors as [|m anchors IH]; intros ch L Hr; simpl; [by rewrite app_nil_r|].
      apply (PushChoiceBack_ok _ _ (mkChoice 0 [m])) in Hr. apply IH in Hr. by rewrite <- app_assoc in Hr. }
    apply (Hgen emptyD []), represents_empty.
  - apply same_mapping_refl.
  - intros c m (m' & -> & Hm')%list_elem_of_fmap. simpl. intros ->%list_elem_of_singleton. by apply Ha.
  - by intros c m ?%elem_of_nil.
  - by intros m ?%elem_of_nil.
  - constructor.
  - auto.
Qed.

Lemma in_force_guesses g0 d0 h L :
  inv g0 d0 h L -> in_force (h_s h) = guessedLits (h_guesses h) ++ in_force g0.
Proof.
  intros Hi. unfold in_force. rewrite (i_scopes _ _ _ _ Hi), concat_app. f_equal.
  induction (guessedLits (h_guesses h)) as [|m l IH]; [done|]. by apply (f_equal (cons m)) in IH.
Qed.

Lemma blames_refuted (g : G) ms : blames g ms -> refuted g ms.
Proof. intros [Hsub Href] ρ [Hc Hh]. apply (Href ρ). split; [done|]. by eapply holds_mono. Qed.

(** What a search promises its caller. *)
Record found_ok (g : G) (d : litMapping) (f : found) : Prop := mkFoundOk {
  fo_result : f_result f = satisfiable \/ f_result f = unsatisfiable;
  fo_mapping : same_mapping d (h_lits (f_search f));
  fo_clauses : clauses (h_s (f_search f)) = clauses g;
  fo_scopes : scopes (h_s (f_search f)) = scopes g;
  fo_pending : pending (h_s (f_search f)) = [];
  fo_set : f_set f = list_to_set (f_lits f);
  fo_lits : forall m, m ∈ f_lits f -> is_Some (variables d !! m);
  fo_sat : f_result f = satisfiable ->
    unresolved (h_s (f_search f)) = false /\ exists ρ, consistent g (in_force g ++ f_lits f) ρ;
  fo_unsat : f_result f = unsatisfiable -> f_lits f = [] /\ blames (h_s (f_search f)) (in_force g);
}.

Lemma Do_ok g d anchors :
  tables_agree d -> pending g = [] -> unresolved g = false -> (forall m, m ∈ anchors -> candidate d m) ->
  exists fuel f, (forall fuel', (fuel <= fuel')%nat -> Do fuel' (newSearch g d) anchors = Done f) /\ found_ok g d f.
Proof.
  intros Ht Hp Hu Ha. pose proof (start_inv _ _ _ Hp Hu Ha) as Hi.
  destruct (loop_ends _ _ _ _ Ht Hi eq_refl) as (fuel & hr & Lr & Hloop & Hir & Hres); [done|].
  destruct (restore_inv g d _ hr Lr Hir eq_refl) as (h' & L' & Hrest & Hi' & Hg').
  exists fuel, (mkFound (h_result hr) (search_Lits hr) (list_to_set (search_Lits hr)) h'). split.
  { intros fuel' Hle. unfold Do. fold (withAnchors (newSearch g d) anchors). by rewrite Hloop, Hrest. }
  pose proof (in_force_guesses _ _ _ _ Hir) as Hf. pose proof (in_force_guesses _ _ _ _ Hi') as Hf'.
  rewrite Hg' in Hf'. simpl in Hf'. split; simpl.
  - tauto.
  - apply Hi'.
  - apply Hi'.
  - rewrite (i_scopes _ _ _ _ Hi'), Hg'. done.
  - apply Hi'.
  - done.
  - intros m. unfold search_Lits. rewrite elem_of_reverse. apply Hir.
  - intros Hs. destruct (i_sat _ _ _ _ Hir Hs) as (ρ & Hcl & Hh). rewrite (i_clauses _ _ _ _ Hir) in Hcl.
    rewrite Hf, holds_app in Hh. destruct Hh as [Hh1 Hh2]. split.
    + rewrite (i_unres _ _ _ _ Hi'). apply Z.eqb_neq. intros E.
      apply (i_unsat _ _ _ _ Hi') in E. apply blames_refuted in E. apply (E ρ). split.
      * by rewrite (i_clauses _ _ _ _ Hi').
      * by rewrite Hf'.
    + exists ρ. split; [done|]. apply holds_app. split; [done|]. intros m. unfold search_Lits. rewrite elem_of_reverse. apply Hh1.
  - intros Hs. destruct Hres as [E|[_ Hgr]]; [by rewrite E in Hs|].
    rewrite Hgr in Hrest. simpl in Hrest. injection Hrest as ->. unfold search_Lits. rewrite Hgr. split; [done|].
    rewrite <- Hf'. by apply (i_unsat _ _ _ _ Hi').
Qed.
End search_facts.

(** The search ends on every input, without a nil dereference, whatever the solver answers within its
    contract; it answers satisfiable or unsatisfiable; a satisfiable answer comes with guesses that
    extend to a model of the clauses and the baseline assumptions, an unsatisfiable one means
    the baseline is refuted; and the solver is back in the scope it was in. *)
Theorem Do_terminates_and_decides `{Sat, Deque} (g : G) (d : litMapping) (anchors : list Lit) :
  tables_agree d -> pending g = [] -> unresolved g = false -> (forall m, m ∈ anchors -> candidate d m) ->
  exists fuel f, (forall fuel', (fuel <= fuel')%nat -> Do fuel' (newSearch g d) anchors = Done f) /\
    scopes (h_s (f_search f)) = scopes g /\ clauses (h_s (f_search f)) = clauses g /\
    ((f_result f = satisfiable /\ exists ρ, consistent g (in_force g ++ f_lits f) ρ) \/
     (f_result f = unsatisfiable /\ refuted g (in_force g))).
Proof.
  intros Ht Hp Hu Ha. destruct (Do_ok g d anchors Ht Hp Hu Ha) as (fuel & f & Hdo & Hok). exists fuel, f.
  split_and!; [done|apply Hok|apply Hok|]. destruct (fo_result _ _ _ Hok) as [E|E]; [left|right]; (split; [done|]).
  - by apply (fo_sat _ _ _ Hok).
  - destruct (fo_unsat _ _ _ Hok E) as [_ Hb]. apply blames_refuted in Hb. intros ρ [Hc Hh].
    apply (Hb ρ). split; [|done]. by rewrite (fo_clauses _ _ _ Hok).
Qed.
