(* ===== verification/SolverSolve.v ===== *)
(** * Solving a resolution problem

    Models [solver/solve.go]: [Solve] teaches the encoded constraints to the SAT solver, searches
    in preference order, then minimizes the variables that were not guessed.  The theorem is
    the contract of the resolver's solver: what it returns is a solution, and when it
    reports the problem as unsatisfiable the constraints it names cannot hold together. *)

From S2P Require Import Prelude SatInterface SatDemo LitMapping ChoiceDeque SolverSearch.

(** ** Solve *)

(** The results of [Solve]: the selected variables, [NotSatisfiable], [ErrIncomplete], the
    "unexpected internal error", and the error of the mapping. *)
Inductive solveResult :=
  | Solved (vs : list SVariable)
  | NotSatisfiable (conflicts : list AppliedConstraint)
  | ErrIncomplete
  | InternalError
  | MappingError (es : list lmError).

Section solve.
Context `{SatOps, DequeOps, RangeOrder}.

Record solver := mkSolver { s_g : G; s_litMap : litMapping }.

(** The loop that splits the variables the search did not assume by their current value. *)
Fixpoint split_lits (g : G) (aset : gset Lit) (ms : list Lit) : list Lit * list Lit :=
  match ms with
  | [] => ([], [])
  | m :: ms =>
      let '(extras, excluded) := split_lits g aset ms in
      if decide (m ∈ aset) then (extras, excluded)
      else if negb (Value g m) then (extras, Not m :: excluded)
      else (m :: extras, excluded)
  end.

(** [for w := 0; w <= cs.N(); w++ { ... }]: [None] when no bound is satisfiable. *)
Fixpoint minimize (g : G) (cs : CardSort) (ws : list nat) : option G :=
  match ws with
  | [] => None
  | w :: ws =>
      let '(g, r) := SolveG (Assume g [cs_Leq cs (Z.of_nat w)]) in
      if (r =? satisfiable)%Z then Some g else minimize g cs ws
  end.

(** [case satisfiable:] *)
Definition finish (s : solver) (assumptions : list Lit) (aset : gset Lit) : solver * solveResult :=
  let '(d, buffer) := Lits (s_litMap s) in
  let '(extras, excluded) := split_lits (s_g s) aset buffer in
  let '(g, _) := Untest (s_g s) in
  let '(d, g, cs) := CardinalityConstrainer d g extras in
  let g := Assume g assumptions in
  let g := Assume g excluded in
  let g := AssumeConstraints d g in
  let '(g, _) := Test g in
  match minimize g cs (seq 0 (S (Z.to_nat (cs_N cs)))) with
  | Some g => let '(d, vs) := Variables d g in (mkSolver g d, Solved vs)
  | None => (mkSolver g d, InternalError)
  end.

(** [switch outcome] *)
Definition conclude (s : solver) (result : Z) (assumptions : list Lit) (aset : gset Lit) : solver * solveResult :=
  if (result =? satisfiable)%Z then finish s assumptions aset
  else if (result =? unsatisfiable)%Z then (s, NotSatisfiable (Conflicts (s_litMap s) (s_g s)))
  else (s, ErrIncomplete).

(** The deferred check of the mapping's errors. *)
Definition checkMapping (sr : solver * solveResult) : solver * solveResult :=
  match Error (s_litMap sr.1) with Some es => (sr.1, MappingError es) | None => sr end.

Definition Solve (fuel : nat) (s : solver) : outcome (solver * solveResult) :=
  let g := AddConstraints (s_litMap s) (s_g s) in
  let '(d, assumptions) := LitsOf (s_litMap s) (AnchorIdentifiers (s_litMap s)) in
  let g := AssumeConstraints d g in
  let g := Assume g assumptions in
  let '(g, result) := Test g in
  if (result =? satisfiable)%Z || (result =? unsatisfiable)%Z then
    Done (checkMapping (conclude (mkSolver g d) result assumptions ∅))
  else
    match Do fuel (mkSearch g d ∅ [] emptyD unknown) assumptions with
    | Done f => Done (checkMapping (conclude (mkSolver (h_s (f_search f)) (h_lits (f_search f)))
                        (f_result f) (f_lits f) (f_set f)))
    | Panic => Panic
    | OutOfFuel => OutOfFuel
    end.

(** [New(WithInput(input))] *)
Definition New (input : list SVariable) : Identifier + solver :=
  d ← newLitMapping input; inr (mkSolver NewG d).
End solve.

(** ** Selections *)

(** A selection of the given variables; the one a list of variables makes. *)
Definition selection (vs : list SVariable) (X : Identifier -> bool) : Prop :=
  forall id, X id = true -> id ∈ v_Identifier <$> vs.
Definition chosen (vs : list SVariable) : Identifier -> bool := fun id => bool_decide (id ∈ v_Identifier <$> vs).

Lemma filter_ext_length (X X' : Identifier -> bool) ids :
  (forall id, X id = X' id) -> length (filter (fun id => X id = true) ids) = length (filter (fun id => X' id = true) ids).
Proof.
  intros He. induction ids as [|id ids IH]; [done|]. rewrite !filter_cons.
  destruct (decide (X id = true)), (decide (X' id = true)); simpl; try congruence.
Qed.

Lemma sat_ext X X' s k : (forall id, X id = X' id) -> sat X s k <-> sat X' s k.
Proof.
  intros He. induction k; simpl; rewrite ?He; [done..| | | |done].
  - by setoid_rewrite He.
  - done.
  - by rewrite (filter_ext_length X X').
Qed.

Lemma solution_ext vs X X' : (forall id, X id = X' id) -> solution vs X <-> solution vs X'.
Proof. intros He. unfold solution. by setoid_rewrite (sat_ext X X' _ _ He). Qed.

Lemma sat_anchor X s k : anchor k = true -> sat X s k -> X s = true.
Proof. induction k; simpl; try done. Qed.

Section solve_facts.
Context `{Circuit, !SatOps, !Sat, Deque, RangeOrder}.

(** *** What the mapping gives the solver *)

Record mapped (vs : list SVariable) (d : litMapping) : Prop := mkMapped {
  ma_inorder : inorder d = vs;
  ma_nodup : NoDup (v_Identifier <$> vs);
  ma_lits : forall v, v ∈ vs -> exists i, lits d !! v_Identifier v = Some (Pos i) /\ in_circuit (circuit d) (Pos i);
  ma_ids : forall id m, lits d !! id = Some m -> id ∈ v_Identifier <$> vs;
  ma_models : forall X, selection vs X -> exists ρ, models (circuit d) ρ /\ forall id, sel d ρ id = X id;
  ma_exact : forall ρ, models (circuit d) ρ ->
    ((forall m, is_Some (constraints d !! m) -> lval ρ m = true) <-> solution vs (sel d ρ));
  ma_from : forall m a, constraints d !! m = Some a ->
    (ac_Variable a, ac_Constraint a) ∈ applications vs /\
    forall ρ, models (circuit d) ρ -> (lval ρ m = true <-> sat (sel d ρ) (v_Identifier (ac_Variable a)) (ac_Constraint a));
  ma_anchor : forall id, id ∈ AnchorIdentifiers d -> exists m, lits d !! id = Some m /\ is_Some (constraints d !! m)
}.

Lemma newLitMapping_mapped vs d : newLitMapping vs = inr d -> errs d = [] -> mapped vs d.
Proof.
  intros Hn He. pose proof (newLitMapping_circuit vs d) as Hexact. pose proof (newLitMapping_models vs d) as Hmod.
  destruct (newLitMapping_ok _ _ Hn He) as (d0 & Has & Hen). pose proof (assigned_lits_in _ _ _ Has) as Hin.
  destruct Hen as [Hio Hvs Hlits Hx _ Hfrom Hanc].
  assert (Hids : forall id m, lits d !! id = Some m -> id ∈ v_Identifier <$> vs).
  { intros id m. rewrite Hlits. intros (v & <- & Hv)%(as_ids _ _ _ Has).
    apply (as_var _ _ _ Has) in Hv as [? _]. by apply list_elem_of_fmap_2. }
  split.
  - rewrite Hio. apply Has.
  - apply Has.
  - intros v Hv. destruct (as_lit _ _ _ Has v Hv) as (m & Hm & _). destruct (as_pos _ _ _ Has _ _ Hm) as (i & -> & _).
    exists i. rewrite Hlits. split; [done|]. eapply in_circuit_mono; [done|]. by eapply Hin.
  - done.
  - intros X HX. destruct (Hmod X Hn He) as (ρ & Hρ & Hsel). exists ρ. split; [done|]. intros id.
    destruct (decide (id ∈ v_Identifier <$> vs)) as [(v & -> & Hv)%list_elem_of_fmap|Hnin]; [by apply Hsel|].
    transitivity false; [unfold sel; destruct (lits d !! id) eqn:El; [|done]; exfalso; eauto|].
    destruct (X id) eqn:EX; [|done]. exfalso. eauto.
  - intros ρ Hρ. by apply Hexact.
  - assert (sel d = sel d0) as Hsel by (unfold sel; by rewrite Hlits). rewrite Hsel.
    intros m a Ha. destruct (Hfrom _ _ Ha) as (? & _ & ?). done.
  - intros id. unfold AnchorIdentifiers. rewrite Hio, (as_inorder _ _ _ Has).
    intros (v & -> & (Hk & Hv)%list_elem_of_filter)%list_elem_of_fmap. rewrite Hlits.
    apply existsb_elem_of in Hk as (k & Hk & Ha). apply (Hanc v k); [|done].
    apply elem_of_flat_map. exists v. split; [done|]. by apply list_elem_of_fmap_2.
Qed.

(** The tables agree, errors or not. *)
Definition same_tables (d d' : litMapping) : Prop := lits d' = lits d /\ variables d' = variables d.

Lemma same_mapping_tables d d' : same_mapping d d' -> same_tables d d'.
Proof. intros (_ & ? & ? & _). done. Qed.

Lemma orLits_tables ids : forall d m, same_tables d (orLits d m ids).1.
Proof.
  induction ids as [|id ids IH]; intros d m; simpl; [done|]. destruct (LitOf d id) as [d1 mi] eqn:E.
  destruct (c_Or (circuit d1) m mi) as [c m']. apply LitOf_same, same_mapping_tables in E as [E1 E2].
  destruct (IH (setCircuit d1 c) m') as [E3 E4]. split; [rewrite E3; done|rewrite E4; done].
Qed.

Lemma apply_tables k : forall d s, same_tables d (apply k d s).1.
Proof.
  induction k as [| | |ids|id|ids n|k IH msg]; intros d s; simpl; [done|..|apply IH].
  - destruct (LitOf d s) eqn:E. by eapply same_mapping_tables, LitOf_same.
  - destruct (LitOf d s) eqn:E. by eapply same_mapping_tables, LitOf_same.
  - destruct (LitOf d s) as [d1 m] eqn:E. apply LitOf_same, same_mapping_tables in E as [E1 E2].
    destruct (orLits_tables ids d1 (Not m)) as [E3 E4]. split; congruence.
  - destruct (LitOf d s) as [d1 m] eqn:E. destruct (LitOf d1 id) as [d2 m2] eqn:E2.
    apply LitOf_same, same_mapping_tables in E as []. apply LitOf_same, same_mapping_tables in E2 as [].
    destruct (c_Or _ _ _). split; simpl; congruence.
  - destruct (LitsOf d ids) as [d1 ms] eqn:E. apply LitsOf_same, same_mapping_tables in E as []. by destruct (c_CardSort _ _).
Qed.

Lemma newLitMapping_tables vs d : newLitMapping vs = inr d -> tables_agree d.
Proof.
  unfold newLitMapping. intros (d0 & Hd0 & [= <-])%bind_inr.
  assert (assigned vs vs d0) as Has.
  { revert Hd0. apply (foldE_inv _ (assigned vs)); [apply assigned_start|]. intros. by eapply assigned_step. }
  assert (same_tables d0 (foldl applyConstraint d0 (applications vs))) as [El Ev].
  { apply (foldl_inv applyConstraint (fun _ d => same_tables d0 d)); [done|]. intros _ [v k] d [El Ev]. unfold applyConstraint.
    pose proof (apply_tables k d (v_Identifier v)) as [E1 E2]. destruct (apply k d (v_Identifier v)) as [d1 m]. simpl in *.
    case_bool_decide; split; simpl; congruence. }
  intros id m. rewrite El, Ev. intros Hm. destruct (as_ids _ _ _ Has _ _ Hm) as (v & _ & Hv). split; [|by rewrite Hv].
  apply (assigned_lits_in _ _ _ Has) in Hm. by eapply in_circuit_nonnull.
Qed.

(** *** Assuming the constraints *)

Lemma AssumeConstraints_spec (d : litMapping) g :
  let g' := AssumeConstraints d g in
  clauses g' = clauses g /\ scopes g' = scopes g /\ unresolved g' = unresolved g /\
  pending g' = pending g ++ (range (constraints d)).*1.
Proof.
  unfold AssumeConstraints. generalize ((range (constraints d)).*1) as ms. intros ms. revert g.
  induction ms as [|m ms IH]; intros g; simpl; [by rewrite app_nil_r|].
  destruct (IH (Assume g [m])) as (-> & -> & -> & ->). destruct (Assume_spec g [m]) as (-> & -> & -> & ->).
  by rewrite <- app_assoc.
Qed.

Lemma elem_of_keys (d : litMapping) m : m ∈ (range (constraints d)).*1 <-> is_Some (constraints d !! m).
Proof.
  rewrite list_elem_of_fmap. split.
  - intros ([m' a] & -> & Ha%elem_of_range). by exists a.
  - intros [a Ha%elem_of_range]. by exists (m, a).
Qed.

(** *** Teaching the cardinality network *)

(** [g'] is [g] with more clauses, and nothing assumed. *)
Definition taught_more g g' : Prop :=
  idle g' /\ unresolved g' = unresolved g /\ forall ρ, clauses g' ρ -> clauses g ρ.

Lemma teachLeq_fold c cs g marks ws :
  idle g -> marks_taught c g marks -> (forall w, in_circuit c (cs_Leq cs (Z.of_nat w))) ->
  taught_more g (foldl (teachLeq c cs) (g, marks) ws).1.
Proof.
  intros Hid Hm Hin.
  enough (Hgen : taught_more g (foldl (teachLeq c cs) (g, marks) ws).1 /\
    marks_taught c (foldl (teachLeq c cs) (g, marks) ws).1 (foldl (teachLeq c cs) (g, marks) ws).2) by apply Hgen.
  apply (foldl_inv (teachLeq c cs) (fun _ acc => taught_more g acc.1 /\ marks_taught c acc.1 acc.2)).
  { split; [|done]. by split_and!. }
  intros _ w [g1 m1] [(Hid1 & Hu1 & Hc1) Hm1]. simpl in *. unfold teachLeq. simpl.
  destruct (CnfSince c g1 m1 (cs_Leq cs (Z.of_nat w))) as [g2 m2] eqn:E.
  destruct (CnfSince_spec _ _ _ _ _ _ E Hid1 (Hin w) Hm1) as (Hid2 & Hu2 & Hm2 & Hc2).
  split; [|done]. split_and!; [done|simpl; congruence|]. intros ρ Hρ. by apply Hc1, Hc2.
Qed.

Lemma CardinalityConstrainer_ok (d : litMapping) g ms d' g' cs :
  CardinalityConstrainer d g ms = (d', g', cs) -> idle g -> (forall m, m ∈ ms -> in_circuit (circuit d) m) ->
  (forall ρ, clauses g ρ -> models (circuit d) ρ) ->
  taught_more g g' /\ d' = setCircuit d (circuit d').
Proof.
  unfold CardinalityConstrainer. intros E Hid Hin Hcl.
  destruct (c_CardSort (circuit d) ms) as [c cs'] eqn:Ec.
  destruct (c_CardSort_spec _ _ _ _ Ec Hin) as (Hx & _ & Hleq).
  pose proof (teachLeq_fold c cs' g (replicate (N.to_nat (Len (circuit d))) 1%Z) (seq 0 (S (Z.to_nat (cs_N cs')))) Hid) as Ht.
  destruct (foldl (teachLeq c cs') _ _) as [g1 mk] eqn:Ef. injection E as <- <- <-. split; [|done].
  apply Ht; [|intros w; apply Hleq].
  intros i Hi Hmk ρ Hρ. apply lookup_replicate in Hmk as [_ Hmk].
  assert (in_circuit (circuit d) (Pos (N.of_nat i))) as Hic by (unfold in_circuit; rewrite VarOf_Pos; lia).
  apply Hx; [done|]. by apply Hcl.
Qed.

(** *** The final model *)

Lemma minimize_ok cs ws : forall g g',
  minimize g cs ws = Some g' -> pending g = [] -> clauses g' = clauses g /\ consistent g (in_force g) (value_of g').
Proof.
  induction ws as [|w ws IH]; intros g g'; [done|]. cbn [minimize]. intros Hm Hp.
  destruct (SolveG (Assume g [cs_Leq cs (Z.of_nat w)])) as [g1 r] eqn:E.
  destruct (Assume_spec g [cs_Leq cs (Z.of_nat w)]) as (Ha1 & Ha2 & Ha3 & _).
  destruct (SolveG_spec _ _ _ E) as (Hc1 & Hs1 & Hp1 & _ & Hr & Hsat & _).
  destruct (Z.eqb_spec r satisfiable) as [->|Hne].
  - injection Hm as <-. specialize (Hsat eq_refl) as [Hcl Hh]. split; [congruence|]. split; [congruence|].
    apply holds_app in Hh as [Hh _]. unfold in_force in *. by rewrite Ha2 in Hh.
  - destruct (IH _ _ Hm Hp1) as [Hc [Hc2 Hh]]. split; [congruence|]. split; [congruence|].
    unfold in_force in *. by rewrite Hs1, Ha2 in Hh.
Qed.

Lemma selected_same (g : G) vs : forall d, same_mapping d (selected d g vs).1.
Proof.
  induction vs as [|v vs IH]; intros d; simpl; [apply same_mapping_refl|].
  destruct (LitOf d (v_Identifier v)) as [d1 m] eqn:E1. specialize (IH d1). destruct (selected d1 g vs) as [d2 r].
  simpl in *. eapply same_mapping_trans; [by eapply LitOf_same|done].
Qed.

Lemma same_mapping_errs d d' : same_mapping d d' -> errs d' = [] -> d' = d.
Proof.
  intros (? & ? & ? & ? & ? & es & Hes) He. rewrite Hes in He. apply app_eq_nil in He as [He1 He2].
  destruct d, d'. simpl in *. subst. by rewrite app_nil_r.
Qed.

Lemma selected_spec (g : G) vs : forall d d' r,
  selected d g vs = (d', r) -> errs d' = [] ->
  (forall v, v ∈ vs -> exists i, lits d !! v_Identifier v = Some (Pos i)) ->
  forall v, v ∈ r <-> v ∈ vs /\ sel d (value_of g) (v_Identifier v) = true.
Proof.
  induction vs as [|v0 vs IH]; intros d d' r; simpl; [intros [= <- <-]; set_solver|].
  destruct (LitOf d (v_Identifier v0)) as [d1 m] eqn:E1. destruct (selected d1 g vs) as [d2 r2] eqn:E2.
  intros [= <- <-] He Hl v. pose proof (selected_same g vs d1) as Hs. rewrite E2 in Hs.
  pose proof (same_mapping_errs _ _ Hs He) as Ed. simpl in Ed. rewrite Ed in He.
  destruct (LitOf_ok _ _ _ _ E1 He) as [-> Hm].
  destruct (Hl v0) as [i Hi]; [set_solver|]. assert (m = Pos i) as -> by congruence.
  specialize (IH d d2 r2 E2 ltac:(rewrite Ed; exact He) ltac:(set_solver) v).
  assert (sel d (value_of g) (v_Identifier v0) = Value g (Pos i)) as Ev by (unfold sel; rewrite Hm; by rewrite lval_Pos).
  destruct (Value g (Pos i)) eqn:EV; rewrite ?elem_of_cons, IH.
  - split; [intros [->|[? ?]]; auto|naive_solver].
  - split; [naive_solver|]. intros [[->|?] ?]; [congruence|done].
Qed.

Lemma chosen_sel vs (d0 d : litMapping) g d' r :
  mapped vs d0 -> lits d = lits d0 -> selected d g vs = (d', r) -> errs d' = [] ->
  (forall id, chosen r id = sel d0 (value_of g) id) /\ r ⊆ vs.
Proof.
  intros Hma Hld Hsel He. pose proof (selected_spec g vs d d' r Hsel He) as Hspec.
  assert (forall v, v ∈ vs -> exists i, lits d !! v_Identifier v = Some (Pos i)) as Hl.
  { intros v Hv. rewrite Hld. destruct (ma_lits _ _ Hma v Hv) as (i & ? & _). eauto. }
  specialize (Hspec Hl). split; [|intros v Hv; by apply Hspec]. intros id.
  assert (sel d (value_of g) = sel d0 (value_of g)) as Eq by (unfold sel; by rewrite Hld).
  rewrite Eq in Hspec. unfold chosen. destruct (sel d0 (value_of g) id) eqn:Es.
  - apply bool_decide_true. assert (exists m, lits d0 !! id = Some m) as [m Hm].
    { unfold sel in Es. destruct (lits d0 !! id); [eauto|done]. }
    apply (ma_ids _ _ Hma) in Hm. apply list_elem_of_fmap in Hm as (v & -> & Hv). apply list_elem_of_fmap_2, Hspec. done.
  - apply bool_decide_false. intros (v & -> & Hv)%list_elem_of_fmap. apply Hspec in Hv as [_ Hv]. congruence.
Qed.

(** The solver knows the circuit of [d], in one scope of assumptions. *)
Record based (d : litMapping) (g : G) (ms : list Lit) : Prop := mkBased {
  ba_clauses : forall ρ, clauses g ρ <-> models (circuit d) ρ;
  ba_scopes : scopes g = [ms];
  ba_pending : pending g = []
}.

Lemma split_extras g aset ms : (split_lits g aset ms).1 ⊆ ms.
Proof.
  induction ms as [|m ms IH]; simpl; [done|]. destruct (split_lits g aset ms) as [extras excluded]. simpl in *.
  destruct (decide (m ∈ aset)); [set_solver|]. destruct (negb (Value g m)); set_solver.
Qed.

Lemma Untest_base (d : litMapping) g ms g' r :
  based d g ms -> (exists ρ, clauses g ρ) -> Untest g = (g', r) ->
  idle g' /\ unresolved g' = false /\ forall ρ, clauses g' ρ <-> models (circuit d) ρ.
Proof.
  intros [Hcl Hsc Hpe] [ρ0 Hρ0] E. destruct (Untest_spec _ _ _ _ _ E Hsc Hpe) as (Hc & Hs & Hp & Hu & Hr & Hb).
  split; [done|]. rewrite Hu, Hc. split; [|done]. apply Z.eqb_neq. intros ->.
  destruct (Hb eq_refl) as [Hsub Href]. apply (Href ρ0). split; [by rewrite Hc|].
  eapply holds_mono; [exact Hsub|]. unfold in_force. rewrite Hs. apply holds_nil.
Qed.

Lemma finish_ok vs (d : litMapping) g ms assumptions aset s' r :
  mapped vs d -> based d g ms -> (exists ρ, clauses g ρ) ->
  finish (mkSolver g d) assumptions aset = (s', r) -> errs (s_litMap s') = [] ->
  match r with Solved sol => solution vs (chosen sol) /\ sol ⊆ vs | InternalError => True | _ => False end.
Proof.
  intros Hma Hba Hex. unfold finish, Lits. cbn [s_litMap s_g].
  destruct (LitsOf d _) as [d1 buffer] eqn:El. destruct (split_lits g aset buffer) as [extras excluded] eqn:Esp.
  destruct (Untest g) as [gu ru] eqn:Eu. destruct (Untest_base _ _ _ _ _ Hba Hex Eu) as (Hidu & Hunu & Hclu).
  destruct (CardinalityConstrainer d1 gu extras) as [[d2 g2] cs] eqn:Ecc.
  set (g3 := AssumeConstraints d2 (Assume (Assume g2 assumptions) excluded)).
  destruct (Test g3) as [g4 r4] eqn:Et. destruct (minimize g4 cs _) as [g5|] eqn:Em.
  2: { by intros [= <- <-]. }
  destruct (Variables d2 g5) as [d3 sol] eqn:Ev. intros [= <- <-] He. simpl in He.
  pose proof (selected_same g5 (inorder d2) d2) as Hs3. unfold Variables in Ev. rewrite Ev in Hs3. simpl in Hs3.
  pose proof (same_mapping_errs _ _ Hs3 He) as Ed3. rewrite Ed3 in He.
  assert (errs d1 = []) as He1.
  { unfold CardinalityConstrainer in Ecc. destruct (c_CardSort _ _), (foldl _ _ _). injection Ecc as <- _ _. done. }
  pose proof (same_mapping_errs _ _ (LitsOf_same _ _ _ _ El) He1) as ->.
  destruct (LitsOf_ok _ _ _ _ El He1) as [_ Hbuf].
  assert (forall m, m ∈ extras -> in_circuit (circuit d) m) as Hin.
  { intros m Hm. pose proof (split_extras g aset buffer) as Hsub. rewrite Esp in Hsub. apply Hsub in Hm.
    apply list_elem_of_lookup in Hm as [j Hj]. destruct (Forall2_lookup_r _ _ _ _ _ Hbuf Hj) as (id & Hid & Hlk).
    assert (id ∈ v_Identifier <$> vs) as (v & -> & Hv)%list_elem_of_fmap by (by eapply ma_ids).
    destruct (ma_lits _ _ Hma v Hv) as (i & Hi & Hic). congruence. }
  destruct (CardinalityConstrainer_ok _ _ _ _ _ _ Ecc Hidu Hin) as [(Hid2 & Hun2 & Hcl2) Ed2]; [apply Hclu|].
  destruct (AssumeConstraints_spec d2 (Assume (Assume g2 assumptions) excluded)) as (Ha1 & _ & Ha3 & Ha4).
  fold g3 in Ha1, Ha3, Ha4.
  destruct (Assume_spec g2 assumptions) as (Hb1 & _ & _ & Hb4).
  destruct (Assume_spec (Assume g2 assumptions) excluded) as (Hc1 & _ & _ & Hc4).
  destruct (Test_spec _ _ _ Et) as (Ht1 & Ht2 & Ht3 & _); [congruence|].
  destruct (minimize_ok _ _ _ _ Em Ht3) as [_ [Hcl5 Hh5]].
  assert (models (circuit d) (value_of g5)) as Hmod.
  { apply Hclu, Hcl2. rewrite Ht1, Ha1, Hc1, Hb1 in Hcl5. done. }
  assert (solution vs (sel d (value_of g5))) as Hsol.
  { apply (ma_exact _ _ Hma); [done|]. intros m Hm. apply Hh5. unfold in_force. rewrite Ht2, Ha4.
    rewrite Ed2. simpl. rewrite !elem_of_app. left. right. by apply elem_of_keys. }
  rewrite Ed2 in Ev. simpl in Ev. rewrite (ma_inorder _ _ Hma) in Ev.
  destruct (chosen_sel vs d (setCircuit d (circuit d2)) g5 d3 sol Hma eq_refl Ev) as [Hch Hsub]; [by rewrite Ed3|].
  split; [|done]. by apply (solution_ext vs (sel d (value_of g5))).
Qed.

(** *** The conflicts *)

Lemma Conflicts_core vs (d : litMapping) g anchors :
  mapped vs d -> (forall ρ, clauses g ρ <-> models (circuit d) ρ) ->
  (forall m, m ∈ anchors -> is_Some (constraints d !! m)) ->
  blames g ((range (constraints d)).*1 ++ anchors) ->
  (forall a, a ∈ Conflicts d g -> (ac_Variable a, ac_Constraint a) ∈ applications vs) /\
  (forall X, selection vs X -> ~ forall a, a ∈ Conflicts d g -> sat X (v_Identifier (ac_Variable a)) (ac_Constraint a)).
Proof.
  intros Hma Hcl Hanc [Hsub Href].
  assert (forall a, a ∈ Conflicts d g <-> exists why, why ∈ Why g /\ constraints d !! why = Some a) as Hin.
  { intros a. unfold Conflicts. rewrite merge_sort_Permutation. by rewrite list_elem_of_omap. }
  split.
  - intros a (why & _ & Ha)%Hin. by apply (ma_from _ _ Hma) in Ha as [? _].
  - intros X HX Hall. destruct (ma_models _ _ Hma X HX) as (ρ & Hρ & Hsel). apply (Href ρ). split; [by apply Hcl|].
    intros why Hwhy. assert (is_Some (constraints d !! why)) as [a Ha].
    { apply Hsub, elem_of_app in Hwhy as [?%elem_of_keys|?]; [done|by apply Hanc]. }
    destruct (ma_from _ _ Hma _ _ Ha) as [_ Hiff]. apply Hiff; [done|].
    apply (sat_ext _ X); [done|]. apply Hall, Hin. eauto.
Qed.

(** *** The solver's contract *)

Definition result_ok (vs : list SVariable) (r : solveResult) : Prop :=
  match r with
  | Solved sol => solution vs (chosen sol) /\ sol ⊆ vs
  | NotSatisfiable cs =>
      (forall a, a ∈ cs -> (ac_Variable a, ac_Constraint a) ∈ applications vs) /\
      (forall X, selection vs X -> ~ forall a, a ∈ cs -> sat X (v_Identifier (ac_Variable a)) (ac_Constraint a))
  | ErrIncomplete => False
  | InternalError => True
  | MappingError es => es <> []
  end.

Lemma checkMapping_ok vs (sr : solver * solveResult) :
  (errs (s_litMap sr.1) = [] -> result_ok vs sr.2) -> result_ok vs (checkMapping sr).2.
Proof. unfold checkMapping, Error. destruct (errs (s_litMap sr.1)) eqn:E; [auto|]. intros _. simpl. done. Qed.

(** The last step records errors only. *)
Lemma finish_errs g (d : litMapping) assumptions aset s' r :
  finish (mkSolver g d) assumptions aset = (s', r) -> errs (s_litMap s') = [] -> errs d = [].
Proof.
  intros Ef He. unfold finish, Lits in Ef. cbn [s_litMap s_g] in Ef. destruct (LitsOf d _) as [d1 buffer] eqn:El.
  destruct (split_lits _ _ _), (Untest g), (CardinalityConstrainer d1 _ _) as [[d2 g2] cs] eqn:Ecc.
  assert (errs d2 = errs d1) as Ee.
  { unfold CardinalityConstrainer in Ecc. destruct (c_CardSort _ _), (foldl _ _ _). by injection Ecc as <- _ _. }
  assert (errs d1 = [] -> errs d = []) as Hback.
  { intros He1. by rewrite <- (same_mapping_errs _ _ (LitsOf_same _ _ _ _ El) He1). }
  destruct (Test _) as [g4 r4], (minimize _ _ _) as [g5|]; [|injection Ef as <- <-; simpl in He; apply Hback; congruence].
  destruct (Variables d2 g5) as [d3 sol] eqn:Ev. injection Ef as <- <-. simpl in He.
  pose proof (selected_same g5 (inorder d2) d2) as Hs. unfold Variables in Ev. rewrite Ev in Hs. simpl in Hs.
  apply Hback. rewrite <- Ee. by rewrite <- (same_mapping_errs _ _ Hs He).
Qed.

Lemma conclude_ok vs (d : litMapping) g ms d' result assumptions aset anchors :
  newLitMapping vs = inr d -> same_mapping d d' -> based d g ms ->
  result = satisfiable \/ result = unsatisfiable ->
  (errs d' = [] -> forall m, m ∈ anchors -> is_Some (constraints d !! m)) ->
  (result = satisfiable -> exists ρ, clauses g ρ) ->
  (result = unsatisfiable -> blames g ((range (constraints d)).*1 ++ anchors)) ->
  result_ok vs (checkMapping (conclude (mkSolver g d') result assumptions aset)).2.
Proof.
  intros Hn Hsm Hba Hr Hanc Hsat Hunsat. apply checkMapping_ok. unfold conclude.
  destruct Hr as [-> | ->]; cbn.
  - destruct (finish (mkSolver g d') assumptions aset) as [s' r] eqn:Ef. simpl. intros He.
    pose proof (finish_errs _ _ _ _ _ _ Ef He) as He'.
    pose proof (same_mapping_errs _ _ Hsm He') as ->.
    pose proof (finish_ok vs d g ms assumptions aset s' r (newLitMapping_mapped _ _ Hn He') Hba (Hsat eq_refl) Ef He) as Hf.
    destruct r; done.
  - intros He'. pose proof (same_mapping_errs _ _ Hsm He') as ->.
    apply (Conflicts_core vs d g anchors); [by apply newLitMapping_mapped|apply Hba|auto|auto].
Qed.

(** The anchors assumed are literals of mandatory constraints. *)
Lemma anchors_constrained vs (d d1 : litMapping) anchors :
  newLitMapping vs = inr d -> LitsOf d (AnchorIdentifiers d) = (d1, anchors) -> errs d1 = [] ->
  forall m, m ∈ anchors -> is_Some (constraints d !! m).
Proof.
  intros Hn El He m Hm. destruct (LitsOf_ok _ _ _ _ El He) as [-> Hf].
  pose proof (newLitMapping_mapped _ _ Hn He) as Hma.
  apply list_elem_of_lookup in Hm as [j Hj]. destruct (Forall2_lookup_r _ _ _ _ _ Hf Hj) as (id & Hid & Hlk).
  destruct (ma_anchor _ _ Hma id) as (m' & Hm' & Hs); [by eapply list_elem_of_lookup_2|]. congruence.
Qed.

Lemma Solve_ok vs s :
  New vs = inr s ->
  exists fuel s' r, (forall fuel', (fuel <= fuel')%nat -> Solve fuel' s = Done (s', r)) /\ result_ok vs r.
Proof.
  unfold New. intros (d & Hn & [= <-])%bind_inr. unfold Solve. cbn [s_g s_litMap].
  destruct NewG_spec as (Hid & Hun & Hall). destruct (ToCnf_spec (circuit d) NewG Hid) as ([Hsc1 Hpe1] & Hun1 & Hcl1).
  fold (AddConstraints d NewG) in *. set (g1 := AddConstraints d NewG) in *.
  destruct (LitsOf d (AnchorIdentifiers d)) as [d1 anchors] eqn:El.
  pose proof (LitsOf_same _ _ _ _ El) as Hsm. assert (constraints d1 = constraints d) as Ec by apply Hsm.
  destruct (AssumeConstraints_spec d1 g1) as (Ha1 & Ha2 & Ha3 & Ha4). rewrite Ec in Ha4.
  destruct (Assume_spec (AssumeConstraints d1 g1) anchors) as (Hb1 & Hb2 & Hb3 & Hb4).
  set (g3 := Assume _ anchors) in *. set (ms := (range (constraints d)).*1 ++ anchors).
  assert (pending g3 = ms) as Hp3 by (rewrite Hb3, Ha4, Hpe1; done).
  destruct (Test g3) as [g4 result] eqn:Et.
  destruct (Test_spec _ _ _ Et) as (Ht1 & Ht2 & Ht3 & Ht4 & Hr & Hsat & Hunsat); [congruence|].
  assert (based d g4 ms) as Hba.
  { split; [|by rewrite Ht2, Hp3, Hb2, Ha2, Hsc1|done]. intros ρ. rewrite Ht1, Hb1, Ha1, Hcl1. naive_solver. }
  assert (in_force g4 = ms) as Hif by (unfold in_force; rewrite (ba_scopes _ _ _ Hba); simpl; by rewrite app_nil_r).
  assert (errs d1 = [] -> forall m, m ∈ anchors -> is_Some (constraints d !! m)) as Hanc
    by (intros; by eapply anchors_constrained).
  destruct ((result =? satisfiable)%Z || (result =? unsatisfiable)%Z) eqn:Edec.
  - exists 0%nat. destruct (checkMapping _) as [s' r] eqn:Ecm. exists s', r. split; [done|].
    change r with ((s', r).2). rewrite <- Ecm. apply (conclude_ok vs d g4 ms d1 _ _ _ anchors Hn Hsm Hba); [|done| |].
    + apply orb_true_iff in Edec as [?%Z.eqb_eq|?%Z.eqb_eq]; auto.
    + intros ->. exists (value_of g4). by apply Hsat.
    + intros ->. fold ms. rewrite <- Hif. auto.
  - apply orb_false_iff in Edec as [Hns%Z.eqb_neq Hnu%Z.eqb_neq].
    assert (unresolved g4 = false) as Hun4 by (rewrite Ht4; by apply Z.eqb_neq).
    assert (tables_agree d) as Htd by (by eapply newLitMapping_tables).
    assert (tables_agree d1) as Htd1.
    { destruct (same_mapping_tables _ _ Hsm) as [E1 E2]. unfold tables_agree. by rewrite E1, E2. }
    assert (forall m, m ∈ anchors -> candidate d1 m) as Hcand.
    { intros m Hm. destruct (LitsOf_candidates _ _ _ _ _ Htd El Hm) as [?|Hv]; [by left|right].
      destruct (same_mapping_tables _ _ Hsm) as [_ E2]. by rewrite E2. }
    destruct (Do_ok g4 d1 anchors Htd1 Ht3 Hun4 Hcand) as (fuel & f & Hdo & Hok). unfold newSearch in Hdo.
    destruct (checkMapping (conclude (mkSolver (h_s (f_search f)) (h_lits (f_search f))) (f_result f) (f_lits f) (f_set f)))
      as [s' r] eqn:Ecm.
    exists fuel, s', r. split; [intros fuel' Hle; by rewrite Hdo, Ecm|].
    change r with ((s', r).2). rewrite <- Ecm.
    apply (conclude_ok vs d _ ms _ _ _ _ anchors Hn); [| |apply Hok| | |].
    + eapply same_mapping_trans; [done|apply Hok].
    + split; [|by rewrite (fo_scopes _ _ _ Hok), (ba_scopes _ _ _ Hba)|apply Hok].
      intros ρ. rewrite (fo_clauses _ _ _ Hok). apply Hba.
    + intros He. apply Hanc. by rewrite <- (same_mapping_errs _ _ (fo_mapping _ _ _ Hok) He).
    + intros E. destruct (fo_sat _ _ _ Hok E) as (_ & ρ & Hc & _). exists ρ. by rewrite (fo_clauses _ _ _ Hok).
    + intros E. destruct (fo_unsat _ _ _ Hok E) as [_ Hb]. by rewrite Hif in Hb.
Qed.
End solve_facts.

(** C3: the solver of the resolver is sound and complete up to its two internal failures: on every
    input with distinct identifiers it ends; what it returns as solved satisfies every constraint
    of every variable; when it reports the problem as not satisfiable, the constraints it names
    belong to the problem and no selection of the variables satisfies them all; and it never
    gives up as incomplete. *)
Theorem Solve_correct `{Circuit, !SatOps, !Sat, Deque, RangeOrder} (vs : list SVariable) (s : solver) :
  New vs = inr s ->
  exists fuel s' r, (forall fuel', (fuel <= fuel')%nat -> Solve fuel' s = Done (s', r)) /\
    match r with
    | Solved sol => solution vs (chosen sol) /\ sol ⊆ vs
    | NotSatisfiable cs =>
        (forall a, a ∈ cs -> (ac_Variable a, ac_Constraint a) ∈ applications vs) /\
        (forall X, selection vs X -> ~ forall a, a ∈ cs -> sat X (v_Identifier (ac_Variable a)) (ac_Constraint a))
    | ErrIncomplete => False
    | InternalError => True
    | MappingError es => es <> []
    end.
Proof. intros Hn. exact (Solve_ok vs s Hn). Qed.

(** ** Running the solver *)

Definition demo_New (vs : list SVariable) : Identifier + @solver demo_circuit_ops demo_sat_ops :=
  @New demo_circuit_ops demo_sat_ops vs.

Definition demo_run (fuel : nat) (vs : list SVariable) : option solveResult :=
  match demo_New vs with
  | inl _ => None
  | inr s =>
      match @Solve demo_circuit_ops demo_sat_ops linked_ops canonical_order fuel s with
      | Done (_, r) => Some r
      | _ => None
      end
  end.

Definition demo_solver : @solver demo_circuit_ops demo_sat_ops :=
  match demo_New demo_problem with
  | inr s => s
  | inl _ => @mkSolver demo_circuit_ops demo_sat_ops (mkG [] [] [] false [] []) demo_mapping
  end.

Lemma Solve_correct_witness :
  exists fuel s' r, (forall fuel', (fuel <= fuel')%nat ->
    @Solve demo_circuit_ops demo_sat_ops linked_ops canonical_order fuel' demo_solver = Done (s', r)) /\
    match r with
    | Solved sol => solution demo_problem (chosen sol) /\ sol ⊆ demo_problem
    | NotSatisfiable cs =>
        (forall a, a ∈ cs -> (ac_Variable a, ac_Constraint a) ∈ applications demo_problem) /\
        (forall X, selection demo_problem X ->
           ~ forall a, a ∈ cs -> sat X (v_Identifier (ac_Variable a)) (ac_Constraint a))
    | ErrIncomplete => False
    | InternalError => True
    | MappingError es => es <> []
    end.
Proof.
  apply (@Solve_correct demo_circuit_ops demo_circuit demo_sat_ops demo_sat linked_ops linked_deque canonical_order
    demo_problem demo_solver). vm_compute. reflexivity.
Defined.

Lemma Do_terminates_and_decides_witness :
  exists fuel f, (forall fuel', (fuel <= fuel')%nat ->
    @Do demo_circuit_ops demo_sat_ops linked_ops fuel'
      (@newSearch demo_circuit_ops demo_sat_ops linked_ops (mkG [] [] [] false [] []) demo_mapping) [Pos 2] = Done f) /\
    g_scopes (h_s (f_search f)) = [] /\ @clauses _ demo_sat_ops (h_s (f_search f)) = gates_hold [] /\
    ((f_result f = satisfiable /\
      exists ρ, @consistent _ demo_sat_ops (mkG [] [] [] false [] []) ([] ++ f_lits f) ρ) \/
     (f_result f = unsatisfiable /\ @refuted _ demo_sat_ops (mkG [] [] [] false [] []) [])).
Proof.
  apply (@Do_terminates_and_decides demo_circuit_ops demo_sat_ops demo_sat linked_ops linked_deque
    (mkG [] [] [] false [] []) demo_mapping [Pos 2]).
  - apply (@newLitMapping_tables demo_circuit_ops demo_circuit demo_problem). vm_compute. reflexivity.
  - reflexivity.
  - reflexivity.
  - intros m ->%list_elem_of_singleton. right. eexists. vm_compute. reflexivity.
Defined.

(** The preferred candidate is chosen when nothing speaks against it. *)
Example demo_run_solved : demo_run 100 demo_problem =
  Some (Solved [mkVariable "sub" [mandatory; dependency ["a"; "b"]]; mkVariable "a" [conflict "b"]]).
Proof. vm_compute. reflexivity. Qed.

(** A choice met again after backtracking goes on from the candidate it had reached: here "p" is
    impossible, which is found only after "r" was guessed below it, and with "q" in its place the
    search takes "s" although "r" comes first and is possible. *)
Definition demo_backtrack : list SVariable :=
  [mkVariable "A" [mandatory; dependency ["p"; "q"]; dependency ["r"; "s"]];
   mkVariable "p" [dependency ["a"; "b"]]; mkVariable "q" []; mkVariable "r" []; mkVariable "s" [];
   mkVariable "a" [dependency ["b"]; conflict "b"]; mkVariable "b" [dependency ["a"]]].

(** The order of a dependency's candidates is not always respected: the solver returns the selection
    with "s" on a problem where the selection with "r" in its place is a solution too, and "r" comes before
    "s" in the only constraint that names them. *)
Theorem preference_lost_after_backtracking :
  (exists A q s, demo_run 100 demo_backtrack = Some (Solved [A; q; s]) /\
     v_Identifier A = "A" /\ v_Identifier q = "q" /\ v_Identifier s = "s") /\
  solution demo_backtrack (fun id => bool_decide (id ∈ ["A"; "q"; "r"])).
Proof.
  split; [do 3 eexists; split; [vm_compute; reflexivity|done]|].
  intros v k Hv Hk. unfold demo_backtrack in Hv.
  repeat (apply elem_of_cons in Hv as [->|Hv]; [simpl in Hk|]); [..|by apply elem_of_nil in Hv];
    repeat (apply elem_of_cons in Hk as [->|Hk]); try (by apply elem_of_nil in Hk); simpl.
  - by vm_compute.
  - intros _. exists "q". split; [set_solver|by vm_compute].
  - intros _. exists "r". split; [set_solver|by vm_compute].
  - intros E. by vm_compute in E.
  - intros E. by vm_compute in E.
  - intros [E _]. by vm_compute in E.
  - intros E. by vm_compute in E.
Qed.
