(* ===== verification/ResolverCache.v ===== *)
(** * The operator cache of the resolver

    Models [cache/operators.go] (API sets, entries), [cache/predicates.go] and the finders of
    [cache/cache.go] under [pkg/controller/registry/resolver].  Entries are shared pointers:
    an entry carries its address.  JSON decoding, CEL programs, version ranges and [sort.Sort]
    are parameters. *)

From S2P Require Import Prelude GoStrings CatalogModel.

(** ** Source keys *)

Record SourceKey := mkKey { sk_Name : string; sk_Namespace : string }.
#[export] Instance SourceKey_eq_dec : EqDecision SourceKey.
Proof. solve_decision. Defined.
#[export] Instance SourceKey_countable : Countable SourceKey.
Proof. apply (inj_countable' (fun k => (sk_Name k, sk_Namespace k)) (fun p => mkKey p.1 p.2)). by intros []. Defined.

Definition existingOperatorKey : string := "@existing".
Definition SourceKey_String (k : SourceKey) : string := sk_Name k +:+ "/" +:+ sk_Namespace k.
Definition Empty (k : SourceKey) : bool := bool_decide (sk_Name k = "") && bool_decide (sk_Namespace k = "").
Definition Equal (k compare : SourceKey) : bool :=
  bool_decide (sk_Name k = sk_Name compare) && bool_decide (sk_Namespace k = sk_Namespace compare).
Definition Virtual (k : SourceKey) : bool :=
  bool_decide (sk_Name k = existingOperatorKey) && negb (bool_decide (sk_Namespace k = "")).
Definition NewVirtualSourceKey (namespace : string) : SourceKey := mkKey existingOperatorKey namespace.

(** ** API sets (operators.go) *)

Record APIKey := mkAPIKey { ak_Group : string; ak_Version : string; ak_Kind : string; ak_Plural : string }.
#[export] Instance APIKey_eq_dec : EqDecision APIKey.
Proof. solve_decision. Defined.
#[export] Instance APIKey_countable : Countable APIKey.
Proof.
  apply (inj_countable' (fun k => (ak_Group k, ak_Version k, ak_Kind k, ak_Plural k))
    (fun '(g, v, k, p) => mkAPIKey g v k p)). by intros [].
Defined.

(** [map[opregistry.APIKey]struct{}] *)
Definition APISet : Type := gset APIKey.

(** [schema.ParseKindArg]: [None] when the argument has less than two dots. *)
Definition ParseKindArg (arg : string) : option (string * string * string) :=
  '(kind, rest) ← Cut "."%char arg;
  '(version, group) ← Cut "."%char rest;
  Some (group, version, kind).

(** [strings.Replace(s, " ", "", -1)] *)
Fixpoint removeSpaces (s : string) : string :=
  match s with
  | EmptyString => EmptyString
  | String c s' => if bool_decide (c = " "%char) then removeSpaces s' else String c (removeSpaces s')
  end.

Definition GVKStringToProvidedAPISet (gvksStr : string) : APISet :=
  list_to_set (omap (fun gvkStr => '(g, v, k) ← ParseKindArg gvkStr; Some (mkAPIKey g v k ""))
    (Split ","%char (removeSpaces gvksStr))).

Definition APIKeyToGVKString (key : APIKey) : string := Join [ak_Kind key; ak_Version key; ak_Group key] ".".

Definition APISet_String (s : APISet) : string :=
  Join (merge_sort String.le (APIKeyToGVKString <$> elements s)) ",".

Definition Union (s : APISet) (sets : list APISet) : APISet :=
  foldl (fun union set => union ∪ set) (∅ ∪ s) sets.
Definition Intersection (s : APISet) (sets : list APISet) : APISet :=
  foldl (fun intersection set => intersection ∪ filter (fun api => api ∈ s) set) ∅ sets.
Definition Difference (s set : APISet) : APISet := Union ∅ [s] ∖ set.
Definition IsSubset (s set : APISet) : bool := forallb (fun api => bool_decide (api ∈ set)) (elements s).
Definition StripPlural (s : APISet) : APISet :=
  set_map (fun api => mkAPIKey (ak_Group api) (ak_Version api) (ak_Kind api) "") s.

(** ** Entries *)

(** The decoders of property values, the CEL programs and the version ranges. *)
Class ResolverLib `{SemverLib} := {
  decPackageProperty : string -> option PackageProp;
  decGVKProperty : string -> option GVKProp;
  decLabelProperty : string -> option string;
  decRequiredGVK : string -> option GVKProp;
  decRequiredPackage : string -> option PackageRequiredProp;
  decRequiredLabel : string -> option string;
  ParseRange : string -> option (Version -> bool);
  CelProgram : Type;
  celValidate : string -> option CelProgram;
  celEvaluate : CelProgram -> list Property -> option bool;
  quote : string -> string;  (* the verb %q *)
}.

Section cache.
Context `{ResolverLib}.

(** The messages of a deprecated package, channel and bundle. *)
Record Deprecations := mkDeprecations { dep_Package : option string; dep_Channel : option string; dep_Bundle : option string }.

Record OperatorSourceInfo := mkSourceInfo {
  si_Package : string; si_Channel : string; si_StartingCSV : string; si_Catalog : SourceKey;
  si_DefaultChannel : bool; si_Deprecations : option Deprecations; si_Subscription : option string
}.

(** [api.Bundle], a bundle as a registry serves it. *)
Record APIBundle := mkAPIBundle {
  ab_CsvName : string; ab_PackageName : string; ab_ChannelName : string; ab_CsvJson : string; ab_Object : list string;
  ab_BundlePath : string; ab_ProvidedApis : list APIKey; ab_RequiredApis : list APIKey; ab_Version : string; ab_SkipRange : string;
  ab_Dependencies : list Property; ab_Properties : list Property; ab_Replaces : string; ab_Skips : list string;
  ab_Deprecation : option string
}.

(** [e_addr] is the identity of the pointer. *)
Record Entry := mkEntry {
  e_addr : nat; e_Name : string; e_Replaces : string; e_Skips : list string;
  e_SkipRange : option (Version -> bool); e_ProvidedAPIs : APISet; e_RequiredAPIs : APISet;
  e_Version : option Version; e_SourceInfo : option OperatorSourceInfo; e_Properties : list Property;
  e_BundlePath : string; e_Bundle : option APIBundle
}.

Definition Entry_Package (o : Entry) : string := match e_SourceInfo o with Some si => si_Package si | None => "" end.
Definition Entry_Channel (o : Entry) : string := match e_SourceInfo o with Some si => si_Channel si | None => "" end.

(** ** Predicates (predicates.go) *)

(** The implementations of the [Predicate] interface; [countingPredicate] names its counter. *)
Inductive Predicate :=
  | csvNamePredicate (name : string)
  | channelPredicate (channel : string)
  | pkgPredicate (pkg : string)
  | versionInRangePredicate (r : Version -> bool) (str : string)
  | labelPredicate (label : string)
  | catalogPredicate (key : SourceKey)
  | gvkPredicate (api : APIKey)
  | skipRangeIncludesPredicate (version : Version)
  | replacesPredicate (replaces : string)
  | andPredicate (ps : list Predicate)
  | orPredicate (ps : list Predicate)
  | notPredicate (ps : list Predicate)
  | booleanPredicate (result : bool)
  | countingPredicate (p : Predicate) (n : nat)
  | celPredicate (program : CelProgram) (rule failureMessage : string).

Definition PackageType : string := "olm.package".
Definition GVKType : string := "olm.gvk".
Definition LabelType : string := "olm.label".
Definition DeprecatedType : string := "olm.deprecated".

(** [for _, p := range o.Properties]: some property of the type decodes to a value that passes. *)
Definition anyProperty {A} (typ : string) (dec : string -> option A) (f : A -> bool) (o : Entry) : bool :=
  existsb (fun p => bool_decide (PType p = typ) && match dec (PValue p) with Some a => f a | None => false end)
    (e_Properties o).

Definition testName (c : string) (o : Entry) : bool := bool_decide (e_Name o = c).

Definition testChannel (ch : string) (o : Entry) : bool :=
  if bool_decide (ch = "") then true
  else match e_SourceInfo o with Some si => bool_decide (si_Channel si = ch) | None => false end.

Definition testLabel (l : string) (o : Entry) : bool :=
  anyProperty LabelType decLabelProperty (fun l' => bool_decide (l' = l)) o.

(** [None] is the nil dereference of an entry without source info. *)
Definition testCatalog (key : SourceKey) (o : Entry) : option bool :=
  si ← e_SourceInfo o; Some (Equal key (si_Catalog si)).

Definition testSkipRange (v : Version) (o : Entry) : bool := match e_SkipRange o with Some r => r v | None => false end.

Definition testCel (prog : CelProgram) (o : Entry) : bool :=
  match celEvaluate prog (e_Properties o) with Some b => b | None => false end.

Definition testPkg (pkg : string) (o : Entry) : bool :=
  anyProperty PackageType decPackageProperty (fun prop => bool_decide (PackageName prop = pkg)) o
  || bool_decide (Entry_Package o = pkg).

Definition testVersion (r : Version -> bool) (o : Entry) : bool :=
  anyProperty PackageType decPackageProperty
    (fun prop => match version_parse (PackageVersion prop) with Some ver => r ver | None => false end) o
  || match e_Version o with Some v => r v | None => false end.

Definition testGVK (api : APIKey) (o : Entry) : bool :=
  anyProperty GVKType decGVKProperty
    (fun prop => bool_decide (PKind prop = ak_Kind api) && bool_decide (PVersion prop = ak_Version api)
                 && bool_decide (PGroup prop = ak_Group api)) o.

Definition testReplaces (r : string) (o : Entry) : bool :=
  bool_decide (e_Replaces o = r) || existsb (fun s => bool_decide (s = r)) (e_Skips o).

(** The counters of the counting predicates. *)
Definition Counters : Type := nat -> nat.
Definition bump (n : nat) (s : Counters) : Counters := fun m => if (m =? n)%nat then S (s m) else s m.

(** [Test], with the counters threaded through and the short circuits of the loops. *)
Fixpoint Test (p : Predicate) (o : Entry) (s : Counters) : option (bool * Counters) :=
  let testAll := fix testAll (ps : list Predicate) (s : Counters) :=
    match ps with
    | [] => Some (true, s)
    | p :: ps => '(b, s) ← Test p o s; if negb b then Some (false, s) else testAll ps s
    end in
  let testAny := fix testAny (ps : list Predicate) (s : Counters) :=
    match ps with
    | [] => Some (false, s)
    | p :: ps => '(b, s) ← Test p o s; if (b : bool) then Some (true, s) else testAny ps s
    end in
  match p with
  | csvNamePredicate c => Some (testName c o, s)
  | channelPredicate ch => Some (testChannel ch o, s)
  | pkgPredicate pkg => Some (testPkg pkg o, s)
  | versionInRangePredicate r _ => Some (testVersion r o, s)
  | labelPredicate l => Some (testLabel l o, s)
  | catalogPredicate key => b ← testCatalog key o; Some (b, s)
  | gvkPredicate api => Some (testGVK api o, s)
  | skipRangeIncludesPredicate v => Some (testSkipRange v o, s)
  | replacesPredicate r => Some (testReplaces r o, s)
  | andPredicate ps => testAll ps s
  | orPredicate ps => testAny ps s
  | notPredicate ps => '(b, s) ← testAny ps s; Some (negb b, s)
  | booleanPredicate b => Some (b, s)
  | countingPredicate p n => '(b, s) ← Test p o s; if (b : bool) then Some (true, bump n s) else Some (false, s)
  | celPredicate prog _ _ => Some (testCel prog o, s)
  end.

(** [String] of the predicates, as it appears in the messages of constraints. *)
Fixpoint Predicate_String (p : Predicate) : string :=
  let sep (w : string) := fix sep (ps : list Predicate) : string :=
    match ps with
    | [] => ""
    | [p] => Predicate_String p
    | p :: ps => Predicate_String p +:+ w +:+ sep ps
    end in
  match p with
  | csvNamePredicate c => "with name: " +:+ c
  | channelPredicate ch => "with channel: " +:+ ch
  | pkgPredicate pkg => "with package: " +:+ pkg
  | versionInRangePredicate _ str => "with version in range: " +:+ str
  | labelPredicate l => "with label: " +:+ l
  | catalogPredicate key => "from catalog: " +:+ sk_Namespace key +:+ "/" +:+ sk_Name key
  | gvkPredicate api =>
      "providing an API with group: " +:+ ak_Group api +:+ ", version: " +:+ ak_Version api +:+ ", kind: " +:+ ak_Kind api
  | skipRangeIncludesPredicate v => "skip range includes: " +:+ version_string v
  | replacesPredicate r => "replaces: " +:+ r
  | andPredicate ps => sep " and " ps
  | orPredicate ps => sep " or " ps
  | notPredicate ps => sep " and not " ps
  | booleanPredicate b => if b then "predicate is true" else "predicate is false"
  | countingPredicate p _ => Predicate_String p
  | celPredicate _ rule msg => "with constraint: " +:+ quote rule +:+ " and message: " +:+ quote msg
  end.

(** [Matches] and [Filter] *)
Definition Matches (o : Entry) (ps : list Predicate) (s : Counters) : option (bool * Counters) :=
  Test (andPredicate ps) o s.

Fixpoint Filter (operators : list Entry) (ps : list Predicate) (s : Counters) : option (list Entry * Counters) :=
  match operators with
  | [] => Some ([], s)
  | o :: operators =>
      '(b, s) ← Matches o ps s;
      '(result, s) ← Filter operators ps s;
      Some (if (b : bool) then o :: result else result, s)
  end.

(** ** Finders (cache.go) *)

Record snapshotHeader := mkHeader { h_key : SourceKey; h_snapshot : option (list Entry); h_err : bool; h_priority : Z }.
Definition Snapshots : Type := gmap SourceKey snapshotHeader.

Definition Header_Find (hdr : snapshotHeader) (ps : list Predicate) (s : Counters) : option (list Entry * Counters) :=
  match h_snapshot hdr with None => Some ([], s) | Some entries => Filter entries ps s end.

(** [sortableSnapshots.Less] *)
Definition isKey (k : option SourceKey) (x : snapshotHeader) : bool :=
  match k with
  | None => false
  | Some k => bool_decide (sk_Name (h_key x) = sk_Name k) && bool_decide (sk_Namespace (h_key x) = sk_Namespace k)
  end.

Definition Less (existing preferred : option SourceKey) (preferredNamespace : string) (x y : snapshotHeader) : bool :=
  if isKey existing x then true
  else if isKey existing y then false
  else if isKey preferred x then true
  else if isKey preferred y then false
  else if negb (h_priority x =? h_priority y)%Z then (h_priority y <? h_priority x)%Z
  else
    let byName := String.ltb (sk_Name (h_key x)) (sk_Name (h_key y)) in
    if negb (bool_decide (sk_Namespace (h_key x) = sk_Namespace (h_key y))) then
      if bool_decide (sk_Namespace (h_key x) = preferredNamespace) then true
      else if bool_decide (sk_Namespace (h_key y) = preferredNamespace) then false
      else byName
    else byName.

(** [newSortableSnapshots] finds the virtual catalog of the preferred namespace. *)
Definition existingKey `{RangeOrder} (preferredNamespace : string) (snapshots : Snapshots) : option SourceKey :=
  List.find (fun key => Virtual key && bool_decide (sk_Namespace key = preferredNamespace)) (range snapshots).*1.

(** [sort.Sort] orders by [Less], in no particular way among equals.  [not_after less l]: on the
    elements of [l], [less] is a strict order up to ties. *)
Definition not_after {A} (less : A -> A -> bool) (l : list A) : Prop :=
  (forall x y, x ∈ l -> y ∈ l -> x <> y -> less x y = true -> less y x = false) /\
  (forall x y z, x ∈ l -> y ∈ l -> z ∈ l -> x <> y -> y <> z -> x <> z ->
     less y x = false -> less z y = false -> less z x = false).

Class SortLib := {
  sortBy : forall {A}, (A -> A -> bool) -> list A -> list A;
  sortBy_perm : forall {A} (less : A -> A -> bool) l, sortBy less l ≡ₚ l;
  sortBy_ordered : forall {A} (less : A -> A -> bool) l, NoDup l -> not_after less l ->
    forall i j x y, (i < j)%nat -> sortBy less l !! i = Some x -> sortBy less l !! j = Some y -> less y x = false;
}.

Section finders.
Context `{RangeOrder, SortLib}.

Fixpoint findAll (hdrs : list snapshotHeader) (ps : list Predicate) (s : Counters) : option (list Entry * Counters) :=
  match hdrs with
  | [] => Some ([], s)
  | hdr :: hdrs =>
      '(found, s) ← Header_Find hdr ps s;
      '(rest, s) ← findAll hdrs ps s;
      Some (found ++ rest, s)
  end.

(** The snapshots in the order [FindPreferred] visits them. *)
Definition sortedSnapshots (preferred : option SourceKey) (preferredNamespace : string) (snapshots : Snapshots) : list snapshotHeader :=
  sortBy (Less (existingKey preferredNamespace snapshots) preferred preferredNamespace) (range snapshots).*2.

Definition FindPreferred (snapshots : Snapshots) (preferred : option SourceKey) (preferredNamespace : string)
    (ps : list Predicate) (s : Counters) : option (list Entry * Counters) :=
  let preferred := match preferred with Some k => if Empty k then None else Some k | None => None end in
  findAll (sortedSnapshots preferred preferredNamespace snapshots) ps s.

Definition Find (snapshots : Snapshots) (ps : list Predicate) (s : Counters) : option (list Entry * Counters) :=
  FindPreferred snapshots None "" ps s.

(** [Catalog(k).Find(p...)]: the empty key stands for all catalogs, an unknown one finds nothing. *)
Definition CatalogFind (snapshots : Snapshots) (k : SourceKey) (ps : list Predicate) (s : Counters) : option (list Entry * Counters) :=
  if Empty k then Find snapshots ps s
  else match snapshots !! k with
  | Some hdr => Header_Find hdr ps s
  | None => Some ([], s)
  end.

(** [NamespacedOperatorCache.Error]: the keys of the snapshots that failed. *)
Definition Cache_Error (snapshots : Snapshots) : list SourceKey :=
  (filter (fun kh : SourceKey * snapshotHeader => h_err kh.2 = true) (range snapshots)).*1.
End finders.

(** [StaticSourceProvider.Sources] *)
Definition Sources {Source} (p : gmap SourceKey Source) (namespaces : list string) : gmap SourceKey Source :=
  filter (fun ks : SourceKey * Source => existsb (fun ns => bool_decide (sk_Namespace ks.1 = ns)) namespaces = true) p.

Definition ExactlyOne (operators : list Entry) : nat + Entry :=
  match operators with [o] => inr o | _ => inl (length operators) end.
End cache.

(** ** What predicates mean *)

Section predicates.
Context `{ResolverLib}.

Section Predicate_ind'.
Context (P : Predicate -> Prop).
Context (Hbase : forall p, match p with andPredicate _ | orPredicate _ | notPredicate _ | countingPredicate _ _ => True | _ => P p end).
Context (Hand : forall ps, (forall p, p ∈ ps -> P p) -> P (andPredicate ps)).
Context (Hor : forall ps, (forall p, p ∈ ps -> P p) -> P (orPredicate ps)).
Context (Hnot : forall ps, (forall p, p ∈ ps -> P p) -> P (notPredicate ps)).
Context (Hcount : forall p n, P p -> P (countingPredicate p n)).

(** Induction through the lists of compound predicates. *)
Lemma Predicate_ind' : forall p, P p.
Proof.
  fix IH 1. intros p.
  destruct p as [ | | | | | | | | |ps|ps|ps| |p n| ]; try (match goal with |- P ?q => exact (Hbase q) end).
  - apply Hand, Forall_forall. induction ps as [|q ps IHps]; constructor; [apply IH|exact IHps].
  - apply Hor, Forall_forall. induction ps as [|q ps IHps]; constructor; [apply IH|exact IHps].
  - apply Hnot, Forall_forall. induction ps as [|q ps IHps]; constructor; [apply IH|exact IHps].
  - apply Hcount, IH.
Qed.
End Predicate_ind'.

(** The meaning of a predicate, without counters and evaluation order. *)
Fixpoint meaning (p : Predicate) (o : Entry) : bool :=
  match p with
  | csvNamePredicate c => bool_decide (e_Name o = c)
  | channelPredicate ch => bool_decide (ch = "") || bool_decide (option_map si_Channel (e_SourceInfo o) = Some ch)
  | pkgPredicate pkg => testPkg pkg o
  | versionInRangePredicate r _ => testVersion r o
  | labelPredicate l => anyProperty LabelType decLabelProperty (fun l' => bool_decide (l' = l)) o
  | catalogPredicate key => bool_decide (option_map si_Catalog (e_SourceInfo o) = Some key)
  | gvkPredicate api => testGVK api o
  | skipRangeIncludesPredicate v => match e_SkipRange o with Some r => r v | None => false end
  | replacesPredicate r => bool_decide (r = e_Replaces o \/ r ∈ e_Skips o)
  | andPredicate ps => forallb (fun p => meaning p o) ps
  | orPredicate ps => existsb (fun p => meaning p o) ps
  | notPredicate ps => forallb (fun p => negb (meaning p o)) ps
  | booleanPredicate b => b
  | countingPredicate p _ => meaning p o
  | celPredicate prog _ _ => match celEvaluate prog (e_Properties o) with Some b => b | None => false end
  end.

(** The two loops over sub-predicates, as functions of their own. *)
Fixpoint testAll (o : Entry) (ps : list Predicate) (s : Counters) : option (bool * Counters) :=
  match ps with
  | [] => Some (true, s)
  | p :: ps => '(b, s) ← Test p o s; if negb b then Some (false, s) else testAll o ps s
  end.
Fixpoint testAny (o : Entry) (ps : list Predicate) (s : Counters) : option (bool * Counters) :=
  match ps with
  | [] => Some (false, s)
  | p :: ps => '(b, s) ← Test p o s; if (b : bool) then Some (true, s) else testAny o ps s
  end.

Lemma Test_and ps o s : Test (andPredicate ps) o s = testAll o ps s.
Proof.
  simpl. revert s. induction ps as [|p ps IH]; intros s; simpl; [done|].
  destruct (Test p o s) as [[[] s']|]; simpl; [apply IH|done..].
Qed.
Lemma Test_or ps o s : Test (orPredicate ps) o s = testAny o ps s.
Proof.
  simpl. revert s. induction ps as [|p ps IH]; intros s; simpl; [done|].
  destruct (Test p o s) as [[[] s']|]; simpl; [done|apply IH|done].
Qed.
Lemma Test_not ps o s : Test (notPredicate ps) o s = ('(b, s) ← testAny o ps s; Some (negb b, s)).
Proof. rewrite <- Test_or. done. Qed.

Lemma testReplaces_meaning r o : testReplaces r o = bool_decide (r = e_Replaces o \/ r ∈ e_Skips o).
Proof.
  unfold testReplaces. symmetry. case_bool_decide as Hr.
  - symmetry. apply orb_true_iff. destruct Hr as [->|Hr]; [left; by apply bool_decide_true|right].
    apply existsb_elem_of. exists r. split; [done|by apply bool_decide_true].
  - symmetry. apply orb_false_iff. split; [apply bool_decide_false; naive_solver|].
    apply existsb_not_elem_of. intros s Hs. apply bool_decide_false. intros ->. naive_solver.
Qed.

Lemma forallb_negb_existsb {A} (f : A -> bool) l : negb (existsb f l) = forallb (fun x => negb (f x)) l.
Proof. induction l as [|x l IH]; simpl; [done|]. by rewrite negb_orb, IH. Qed.

(** Short circuits and counters do not change the answer. *)
Lemma Test_meaning p : forall o s, is_Some (e_SourceInfo o) -> exists s', Test p o s = Some (meaning p o, s').
Proof.
  apply (Predicate_ind' (fun p => forall o s, is_Some (e_SourceInfo o) -> exists s', Test p o s = Some (meaning p o, s')));
    clear p; [intros p|intros ps IH..|intros p n IH].
  - destruct p; try done; intros o s [si Hsi]; simpl; try (eexists; reflexivity).
    + exists s. unfold testChannel. rewrite Hsi. simpl. case_bool_decide; simpl; [done|]. do 2 f_equal. by apply bool_decide_ext; naive_solver.
    + exists s. unfold testCatalog. rewrite Hsi. simpl. unfold Equal. do 2 f_equal. destruct key as [n1 n2], (si_Catalog si) as [m1 m2]. simpl.
      repeat case_bool_decide; naive_solver.
    + exists s. by rewrite testReplaces_meaning.
  - intros o s Hsi. rewrite Test_and. revert s. simpl. induction ps as [|p ps IHps]; intros s; simpl; [by eexists|].
    destruct (IH p ltac:(set_solver) o s Hsi) as [s1 ->]. simpl. destruct (meaning p o); simpl; [|by eexists].
    apply IHps. set_solver.
  - intros o s Hsi. rewrite Test_or. revert s. simpl. induction ps as [|p ps IHps]; intros s; simpl; [by eexists|].
    destruct (IH p ltac:(set_solver) o s Hsi) as [s1 ->]. simpl. destruct (meaning p o); simpl; [by eexists|].
    apply IHps. set_solver.
  - intros o s Hsi. rewrite Test_not.
    assert (exists s', testAny o ps s = Some (existsb (fun p => meaning p o) ps, s')) as [s' ->].
    { revert s. induction ps as [|p ps IHps]; intros s; simpl; [by eexists|].
      destruct (IH p ltac:(set_solver) o s Hsi) as [s1 ->]. simpl. destruct (meaning p o); simpl; [by eexists|].
      apply IHps. set_solver. }
    exists s'. simpl. by rewrite forallb_negb_existsb.
  - intros o s Hsi. destruct (IH o s Hsi) as [s1 Hs1]. simpl. rewrite Hs1. simpl. destruct (meaning p o); by eexists.
Qed.
End predicates.

(** ** What finders return *)

Section finder_facts.
Context `{ResolverLib, RangeOrder, SortLib}.
Implicit Types (hdr : snapshotHeader) (ps : list Predicate).

(** All predicates hold of the entry. *)
Definition matches ps (o : Entry) : bool := forallb (fun p => meaning p o) ps.
Definition sourced (es : list Entry) : Prop := forall o, o ∈ es -> is_Some (e_SourceInfo o).
Definition header_entries hdr : list Entry := default [] (h_snapshot hdr).

Lemma Filter_meaning es ps : forall s, sourced es ->
  exists s', Filter es ps s = Some (filter (fun o => matches ps o = true) es, s').
Proof.
  induction es as [|o es IH]; intros s Hs; simpl; [by eexists|].
  destruct (Test_meaning (andPredicate ps) o s) as [s1 E1]; [apply Hs; set_solver|]. unfold Matches. rewrite E1.
  simpl. destruct (IH s1) as [s2 ->]; [intros o' ?; apply Hs; set_solver|]. simpl. exists s2.
  rewrite filter_cons. change (forallb (fun p => meaning p o) ps) with (matches ps o).
  destruct (matches ps o); [by rewrite decide_True|by rewrite decide_False].
Qed.

Lemma Header_Find_meaning hdr ps s : sourced (header_entries hdr) ->
  exists s', Header_Find hdr ps s = Some (filter (fun o => matches ps o = true) (header_entries hdr), s').
Proof.
  unfold Header_Find, header_entries. destruct (h_snapshot hdr); simpl; [apply Filter_meaning|by eexists].
Qed.

Lemma findAll_meaning hdrs ps : forall s, (forall hdr, hdr ∈ hdrs -> sourced (header_entries hdr)) ->
  exists s', findAll hdrs ps s =
    Some (filter (fun o => matches ps o = true) (flat_map header_entries hdrs), s').
Proof.
  induction hdrs as [|hdr hdrs IH]; intros s Hs; simpl; [by eexists|].
  destruct (Header_Find_meaning hdr ps s) as [s1 ->]; [apply Hs; set_solver|]. simpl.
  destruct (IH s1) as [s2 ->]; [intros ? ?; apply Hs; set_solver|]. simpl. exists s2. by rewrite filter_app.
Qed.

(** *** The order of the snapshots *)

Lemma ltb_not_le x y : String.ltb x y = negb (String.leb y x).
Proof.
  unfold String.ltb, String.leb. rewrite (String.compare_antisym x y). by destruct (String.compare y x).
Qed.

Lemma leb_trans x y z : String.leb x y = true -> String.leb y z = true -> String.leb x z = true.
Proof.
  intros Hxy Hyz. apply Is_true_true_1. change (String.le x z). transitivity y; apply Is_true_true_2; done.
Qed.

(** A snapshot's place: existing operators, the preferred catalog, then descending priority, the preferred
    namespace, the name. *)
Definition before (existing preferred : option SourceKey) (ns : string) (x y : snapshotHeader) : Prop :=
  isKey existing y = false /\
  (isKey existing x = false ->
   isKey preferred y = false /\
   (isKey preferred x = false ->
    (h_priority y <= h_priority x)%Z /\
    (h_priority y = h_priority x ->
     (sk_Namespace (h_key y) = ns -> sk_Namespace (h_key x) = ns) /\
     ((sk_Namespace (h_key y) = ns <-> sk_Namespace (h_key x) = ns) -> String.leb (sk_Name (h_key x)) (sk_Name (h_key y)) = true)))).

Lemma Less_before existing preferred ns x y :
  (isKey existing x = true -> isKey existing y = false) -> (isKey preferred x = true -> isKey preferred y = false) ->
  Less existing preferred ns y x = false <-> before existing preferred ns x y.
Proof.
  intros Hex Hpr. unfold Less, before.
  destruct (isKey existing y) eqn:E1; [naive_solver|]. destruct (isKey existing x) eqn:E2; [naive_solver|].
  destruct (isKey preferred y) eqn:E3; [naive_solver|]. destruct (isKey preferred x) eqn:E4; [naive_solver|].
  rewrite ltb_not_le. destruct (Z.eqb_spec (h_priority y) (h_priority x)) as [Ep|Ep]; simpl.
  - rewrite Ep.
    enough (Hlast : (if negb (bool_decide (sk_Namespace (h_key y) = sk_Namespace (h_key x)))
       then if bool_decide (sk_Namespace (h_key y) = ns) then true
            else if bool_decide (sk_Namespace (h_key x) = ns) then false
                 else negb (String.leb (sk_Name (h_key x)) (sk_Name (h_key y)))
       else negb (String.leb (sk_Name (h_key x)) (sk_Name (h_key y)))) = false <->
      (sk_Namespace (h_key y) = ns -> sk_Namespace (h_key x) = ns) /\
      ((sk_Namespace (h_key y) = ns <-> sk_Namespace (h_key x) = ns) -> String.leb (sk_Name (h_key x)) (sk_Name (h_key y)) = true)).
    { rewrite Hlast. split; [|naive_solver]. intros Hl. do 2 (split; [done|intros _]). by split; [lia|]. }
    repeat case_bool_decide; simpl; rewrite ?negb_false_iff; try naive_solver congruence.
  - rewrite Z.ltb_ge. split; [|naive_solver]. intros Hl. do 2 (split; [done|intros _]). split; [lia|]. lia.
Qed.

Lemma before_total existing preferred ns x y :
  (isKey existing x = true -> isKey existing y = false) -> (isKey preferred x = true -> isKey preferred y = false) ->
  before existing preferred ns x y \/ before existing preferred ns y x.
Proof.
  intros Hex Hpr. unfold before.
  destruct (isKey existing x) eqn:E1; [left; naive_solver|]. destruct (isKey existing y) eqn:E2; [right; naive_solver|].
  destruct (isKey preferred x) eqn:E3; [left; naive_solver|]. destruct (isKey preferred y) eqn:E4; [right; naive_solver|].
  destruct (Z.lt_trichotomy (h_priority x) (h_priority y)) as [Hlt|[Heq|Hgt]].
  - right. do 2 (split; [done|intros _]). split; [lia|]. lia.
  - destruct (decide (sk_Namespace (h_key x) = ns)) as [Ex|Ex], (decide (sk_Namespace (h_key y) = ns)) as [Ey|Ey].
    + destruct (String.leb_total (sk_Name (h_key x)) (sk_Name (h_key y))); [left|right];
        do 2 (split; [done|intros _]); (split; [lia|]); naive_solver.
    + left. do 2 (split; [done|intros _]). (split; [lia|]); naive_solver.
    + right. do 2 (split; [done|intros _]). (split; [lia|]); naive_solver.
    + destruct (String.leb_total (sk_Name (h_key x)) (sk_Name (h_key y))); [left|right];
        do 2 (split; [done|intros _]); (split; [lia|]); naive_solver.
  - left. do 2 (split; [done|intros _]). split; [lia|]. lia.
Qed.

Lemma before_trans existing preferred ns x y z :
  before existing preferred ns x y -> before existing preferred ns y z -> before existing preferred ns x z.
Proof.
  unfold before. intros [Hy1 Hy2] [Hz1 Hz2]. split; [done|]. intros Hx1. destruct (Hy2 Hx1) as [Hy3 Hy4].
  destruct (Hz2 Hy1) as [Hz3 Hz4]. split; [done|]. intros Hx2. destruct (Hy4 Hx2) as [Hp1 Hn1]. destruct (Hz4 Hy3) as [Hp2 Hn2].
  split; [lia|]. intros Hp. destruct Hn1 as [Ha Hb]; [lia|]. destruct Hn2 as [Hc Hd]; [lia|]. split; [auto|].
  intros Hiff. apply (leb_trans _ (sk_Name (h_key y))).
  - apply Hb. split; [auto|]. intros Hx. apply Hc, Hiff, Hx.
  - apply Hd. split; [auto|]. intros Hy. apply Hiff, Ha, Hy.
Qed.

Definition keyed_snapshots (snapshots : Snapshots) : Prop := forall k hdr, snapshots !! k = Some hdr -> h_key hdr = k.

Lemma isKey_once (snapshots : Snapshots) k x y :
  keyed_snapshots snapshots -> x ∈ (range snapshots).*2 -> y ∈ (range snapshots).*2 -> x <> y ->
  isKey k x = true -> isKey k y = false.
Proof.
  intros Hk Hx Hy Hne. apply elem_of_range_vals in Hx as [kx Hx], Hy as [ky Hy].
  unfold isKey. destruct k as [k|]; [|done]. intros [E1 E2]%andb_true_iff. bools.
  apply not_true_iff_false. intros [E3 E4]%andb_true_iff. bools. apply Hne.
  assert (kx = ky); [|congruence]. rewrite <- (Hk _ _ Hx), <- (Hk _ _ Hy).
  destruct (h_key x), (h_key y); simpl in *; congruence.
Qed.

Lemma NoDup_snapshots (snapshots : Snapshots) : keyed_snapshots snapshots -> NoDup (range snapshots).*2.
Proof.
  intros Hk. apply NoDup_fmap_2_strong.
  - intros [k1 h1] [k2 h2] Hk1%elem_of_range Hk2%elem_of_range E. simpl in E. subst h2.
    f_equal. rewrite <- (Hk _ _ Hk1), <- (Hk _ _ Hk2). done.
  - rewrite range_perm. apply NoDup_map_to_list.
Qed.

Lemma Less_not_after existing preferred ns (snapshots : Snapshots) :
  keyed_snapshots snapshots -> not_after (Less existing preferred ns) (range snapshots).*2.
Proof.
  intros Hk. split.
  - intros x y Hx Hy Hxy Hl. apply Less_before; [by eapply isKey_once|by eapply isKey_once|].
    destruct (before_total existing preferred ns x y) as [?|Hb]; [by eapply isKey_once..|done|].
    apply Less_before in Hb; [congruence|eapply isKey_once; eauto..].
  - intros x y z Hx Hy Hz Hxy Hyz Hxz. rewrite !Less_before by (by eapply isKey_once). apply before_trans.
Qed.
End finder_facts.

(** [FindPreferred] returns the matching entries of every catalog, catalog by catalog: the operators
    already in the preferred namespace first, then the preferred catalog, then the others by descending
    priority, those of the preferred namespace before the rest, then by name. *)
Theorem FindPreferred_order `{ResolverLib, RangeOrder, SortLib} (snapshots : Snapshots) (preferred : option SourceKey)
    (ns : string) (ps : list Predicate) (s : Counters) :
  keyed_snapshots snapshots ->
  (forall k hdr, snapshots !! k = Some hdr -> sourced (header_entries hdr)) ->
  exists hdrs s', hdrs ≡ₚ (range snapshots).*2 /\
    FindPreferred snapshots preferred ns ps s =
      Some (filter (fun o => matches ps o = true) (flat_map header_entries hdrs), s') /\
    forall i j x y, (i < j)%nat -> hdrs !! i = Some x -> hdrs !! j = Some y ->
      before (existingKey ns snapshots) (match preferred with Some k => if Empty k then None else Some k | None => None end) ns x y.
Proof.
  intros Hk Hs. unfold FindPreferred, sortedSnapshots. set (pref := match preferred with Some k => _ | None => None end).
  set (less := Less _ pref ns). set (l := (range snapshots).*2).
  destruct (findAll_meaning (sortBy less l) ps s) as [s' Hf].
  { intros hdr. rewrite sortBy_perm. intros [k Hhdr]%elem_of_range_vals. eauto. }
  exists (sortBy less l), s'. split_and!; [apply sortBy_perm|done|].
  intros i j x y Hij Hx Hy.
  assert (less y x = false) as Hl.
  { eapply (sortBy_ordered less l); [by apply NoDup_snapshots|by apply Less_not_after|exact Hij|done|done]. }
  assert (x ∈ l /\ y ∈ l) as [Hxl Hyl].
  { split; rewrite <- (sortBy_perm less l); by eapply list_elem_of_lookup_2. }
  assert (x <> y) as Hne.
  { intros ->. assert (NoDup (sortBy less l)) as Hnd by (rewrite sortBy_perm; by apply NoDup_snapshots).
    assert (i = j); [by eapply NoDup_lookup|lia]. }
  apply Less_before in Hl; [done|by eapply isKey_once..].
Qed.

(** ** Concrete parameters *)

Fixpoint insertBy {A} (less : A -> A -> bool) (x : A) (l : list A) : list A :=
  match l with
  | [] => [x]
  | y :: l => if less y x then y :: insertBy less x l else x :: y :: l
  end.
Definition insertionSort {A} (less : A -> A -> bool) (l : list A) : list A := foldr (insertBy less) [] l.

Lemma insertBy_perm {A} (less : A -> A -> bool) x l : insertBy less x l ≡ₚ x :: l.
Proof.
  induction l as [|y l IH]; simpl; [done|]. destruct (less y x); [|done]. rewrite IH. apply Permutation_swap.
Qed.

Lemma insertionSort_perm {A} (less : A -> A -> bool) l : insertionSort less l ≡ₚ l.
Proof. induction l as [|x l IH]; simpl; [done|]. rewrite insertBy_perm. by f_equiv. Qed.

(** Every element is not greater than the later ones. *)
Fixpoint ascending {A} (less : A -> A -> bool) (l : list A) : Prop :=
  match l with [] => True | x :: l => (forall y, y ∈ l -> less y x = false) /\ ascending less l end.

Lemma insertBy_ascending {A} (less : A -> A -> bool) x l :
  x ∉ l -> NoDup l -> not_after less (x :: l) -> ascending less l -> ascending less (insertBy less x l).
Proof.
  intros Hx Hnd Hna. induction l as [|y l IH]; simpl; [intros; split; [by intros ? ?%elem_of_nil|done]|].
  apply NoDup_cons in Hnd as [Hy Hnd]. intros [Hall Hasc].
  assert (not_after less (x :: l)) as Hna'.
  { destruct Hna as [Ha Ht]. split; [intros a b ? ?; apply Ha|intros a b c ? ? ?; apply Ht]; set_solver. }
  destruct Hna as [Ha Ht]. assert (x <> y) as Hxy by set_solver. destruct (less y x) eqn:E; simpl.
  - split; [|apply IH; set_solver]. intros z. rewrite insertBy_perm. intros [->|Hz]%elem_of_cons; [|auto].
    apply Ha; set_solver.
  - split; [|done]. intros z [->|Hz]%elem_of_cons; [done|].
    apply (Ht x y z); [set_solver..| |done|auto]. set_solver.
Qed.

Lemma insertionSort_ascending {A} (less : A -> A -> bool) l :
  NoDup l -> not_after less l -> ascending less (insertionSort less l).
Proof.
  induction l as [|x l IH]; simpl; [done|]. intros [Hx Hnd]%NoDup_cons Hna.
  assert (not_after less l) as Hna'.
  { destruct Hna as [Ha Ht]. split; [intros a b ? ?; apply Ha|intros a b c ? ? ?; apply Ht]; set_solver. }
  apply insertBy_ascending; [by rewrite insertionSort_perm|by rewrite insertionSort_perm| |auto].
  destruct Hna as [Ha Ht]. split.
  - intros a b. rewrite !elem_of_cons, !insertionSort_perm, <- !elem_of_cons. apply Ha.
  - intros a b c. rewrite !elem_of_cons, !insertionSort_perm, <- !elem_of_cons. apply Ht.
Qed.

Lemma ascending_lookup {A} (less : A -> A -> bool) l :
  ascending less l -> forall i j x y, (i < j)%nat -> l !! i = Some x -> l !! j = Some y -> less y x = false.
Proof.
  induction l as [|z l IH]; intros Hl i j x y Hij Hi Hj; [done|]. destruct Hl as [Hz Hl].
  destruct j as [|j]; [lia|]. simpl in Hj. destruct i as [|i]; simpl in Hi; [injection Hi as ->|].
  - apply Hz. by eapply list_elem_of_lookup_2.
  - eapply (IH Hl i j); [lia|done..].
Qed.

Definition insertion_sort_lib : SortLib.
Proof.
  refine {| sortBy := fun A => insertionSort; sortBy_perm := fun A => insertionSort_perm |}.
  intros A less l Hnd Hna. by apply ascending_lookup, insertionSort_ascending.
Defined.

(** Properties encoded as in [demo_decoders]; a label is its own encoding. *)
Definition demo_lib : @ResolverLib demo_semver := {|
  decPackageProperty v := (fun '(n, ver) => mkPackageProp n ver) <$> Cut "@"%char v;
  decGVKProperty v := (fun '(g, v, k) => mkGVKProp g k v) <$> ParseKindArg v;
  decLabelProperty v := Some v;
  decRequiredGVK v := (fun '(g, v, k) => mkGVKProp g k v) <$> ParseKindArg v;
  decRequiredPackage v := (fun '(n, r) => mkPackageRequiredProp n r) <$> Cut "@"%char v;
  decRequiredLabel v := Some v;
  ParseRange r := Some (fun v : @Version demo_semver => bool_decide (v = r));
  CelProgram := unit; celValidate _ := Some tt; celEvaluate _ _ := Some true;
  quote s := s
|}.

Definition demo_entry (addr : nat) (name replaces : string) (catalog : SourceKey) : @Entry demo_semver :=
  @mkEntry demo_semver addr name replaces [] None ∅ ∅ (Some name)
    (Some (mkSourceInfo "etcd" "stable" "" catalog true None None)) [mkProperty PackageType ("etcd@" +:+ name)] "" None.

Definition demo_snapshots : @Snapshots demo_semver :=
  <[mkKey "community" "olm" := @mkHeader demo_semver (mkKey "community" "olm") (Some [demo_entry 1 "v1" "" (mkKey "community" "olm")]) false 0]>
  (<[mkKey "certified" "olm" := @mkHeader demo_semver (mkKey "certified" "olm") (Some [demo_entry 2 "v2" "v1" (mkKey "certified" "olm")]) false 5]> ∅).

Lemma FindPreferred_order_witness :
  exists hdrs s', hdrs ≡ₚ (@range canonical_order _ _ _ _ demo_snapshots).*2 /\
    @FindPreferred demo_semver demo_lib canonical_order insertion_sort_lib demo_snapshots None "olm"
      [csvNamePredicate "v2"] (fun _ => 0) =
      Some (filter (fun o => @matches demo_semver demo_lib [csvNamePredicate "v2"] o = true)
        (flat_map header_entries hdrs), s') /\
    forall i j x y, (i < j)%nat -> hdrs !! i = Some x -> hdrs !! j = Some y ->
      before (@existingKey demo_semver canonical_order "olm" demo_snapshots) None "olm" x y.
Proof.
  apply (@FindPreferred_order demo_semver demo_lib canonical_order insertion_sort_lib demo_snapshots None "olm"
    [csvNamePredicate "v2"] (fun _ => 0)).
  - intros k hdr Hk. unfold demo_snapshots, Snapshots in Hk.
    apply lookup_insert_Some in Hk as [[<- <-]|[_ Hk]]; [reflexivity|].
    apply lookup_insert_Some in Hk as [[<- <-]|[_ Hk]]; [reflexivity|]. by apply lookup_empty_Some in Hk.
  - intros k hdr Hk o Ho. unfold demo_snapshots, Snapshots in Hk.
    apply lookup_insert_Some in Hk as [[<- <-]|[_ Hk]].
    { apply list_elem_of_singleton in Ho as ->. by eexists. }
    apply lookup_insert_Some in Hk as [[<- <-]|[_ Hk]]; [|by apply lookup_empty_Some in Hk].
    apply list_elem_of_singleton in Ho as ->. by eexists.
Defined.

(** ** Annotations of provided APIs *)

(** Kind and version without dots, commas and spaces, a group without commas and spaces. *)
Definition gvk_ok (k : APIKey) : Prop :=
  HasByte "."%char (ak_Kind k) = false /\ HasByte "."%char (ak_Version k) = false /\
  forall c, c = ","%char \/ c = " "%char ->
    HasByte c (ak_Kind k) = false /\ HasByte c (ak_Version k) = false /\ HasByte c (ak_Group k) = false.

Lemma removeSpaces_id s : HasByte " "%char s = false -> removeSpaces s = s.
Proof.
  induction s as [|c s IH]; simpl; [done|]. intros Hb. bools. rewrite bool_decide_false by congruence. by rewrite IH.
Qed.

Lemma ParseKindArg_string k : gvk_ok k -> ParseKindArg (APIKeyToGVKString k) = Some (ak_Group k, ak_Version k, ak_Kind k).
Proof.
  intros (Hk & Hv & _). unfold ParseKindArg, APIKeyToGVKString.
  change (Join [ak_Kind k; ak_Version k; ak_Group k] ".")
    with (ak_Kind k +:+ String "."%char (ak_Version k +:+ String "."%char (ak_Group k))).
  rewrite Cut_app by done. simpl. by rewrite Cut_app by done.
Qed.

Lemma GVKString_bytes k c : gvk_ok k -> c = ","%char \/ c = " "%char -> HasByte c (APIKeyToGVKString k) = false.
Proof.
  intros (_ & _ & Hb) Hc. destruct (Hb c Hc) as (? & ? & ?). apply HasByte_Join; [by destruct Hc as [->| ->]|].
  intros x [->|[->|[->|?%elem_of_nil]%elem_of_cons]%elem_of_cons]%elem_of_cons; done.
Qed.

Lemma APISet_String_parse (s : APISet) :
  (forall k, k ∈ s -> gvk_ok k) -> GVKStringToProvidedAPISet (APISet_String s) = StripPlural s.
Proof.
  intros Hok. unfold GVKStringToProvidedAPISet, APISet_String. set (l := merge_sort String.le (APIKeyToGVKString <$> elements s)).
  assert (Hl : forall x, x ∈ l <-> exists k, x = APIKeyToGVKString k /\ k ∈ s).
  { intros x. unfold l. rewrite merge_sort_Permutation, list_elem_of_fmap. by setoid_rewrite elem_of_elements. }
  rewrite removeSpaces_id by (apply HasByte_Join; [done|]; intros x (k & -> & Hk)%Hl; apply GVKString_bytes; auto).
  apply set_eq. intros key. unfold StripPlural. rewrite elem_of_list_to_set, list_elem_of_omap, elem_of_map.
  destruct (decide (l = [])) as [El|Hne].
  - rewrite El. simpl. split.
    + intros (x & ->%list_elem_of_singleton & E). done.
    + intros (k & _ & Hk). assert (APIKeyToGVKString k ∈ l) as Hin by (apply Hl; eauto). rewrite El in Hin. by apply elem_of_nil in Hin.
  - rewrite Split_Join by (try done; intros x (k & -> & Hk)%Hl; apply GVKString_bytes; auto). split.
    + intros (x & (k & -> & Hk)%Hl & E). rewrite ParseKindArg_string in E by auto. simpl in E. injection E as <-. eauto.
    + intros (k & -> & Hk). exists (APIKeyToGVKString k). split; [apply Hl; eauto|]. by rewrite ParseKindArg_string by auto.
Qed.

(** The provided-APIs annotation reads back: parsing the printed form of a set of well-formed APIs
    gives the set, without the plural names, which are not printed. *)
Theorem APISet_roundtrip (s : APISet) :
  (forall k, k ∈ s -> gvk_ok k) -> GVKStringToProvidedAPISet (APISet_String s) = StripPlural s.
Proof. apply APISet_String_parse. Qed.

Lemma APISet_roundtrip_witness :
  GVKStringToProvidedAPISet (APISet_String {[mkAPIKey "etcd.database.coreos.com" "v1beta2" "EtcdCluster" "etcdclusters"]}) =
  StripPlural {[mkAPIKey "etcd.database.coreos.com" "v1beta2" "EtcdCluster" "etcdclusters"]}.
Proof.
  apply APISet_roundtrip. intros k ->%elem_of_singleton. split; [reflexivity|split; [reflexivity|]].
  intros c [->| ->]; split_and!; reflexivity.
Defined.
