(* ===== verification/ResolverSort.v ===== *)
(** * Ordering the entries of a channel

    Models [sortChannel] of [pkg/controller/registry/resolver/resolver.go]: the entries of one
    channel in upgrade order, the channel head first, leaving out skipped entries.  The
    theorem characterizes exactly when the order exists and what it is. *)

From S2P Require Import Prelude CatalogModel ResolverCache.

Section sort.
Context `{SemverLib}.
Implicit Types (b : Entry) (bundles : list Entry).

Inductive sortError :=
  | NoChannelHeads (channel pkg : string)
  | ReplacementCycle (head channel pkg : string)
  | MultipleChains (channel pkg : string) (schains : list string)
  | NoChains (channel pkg : string)
  | SortOutOfFuel.

(** The maps of the first loops: names to entries, addresses to the entries replacing and replaced, and
    the skipped names. *)
Record sortMaps := mkMaps {
  bundleLookup : gmap string Entry; replacedBy : gmap nat Entry; replaces : gmap nat Entry; skipped : gset string
}.

Definition lookupTable bundles : gmap string Entry := foldl (fun t b => <[e_Name b := b]> t) ∅ bundles.

Definition addSkip b (t : sortMaps) (skip : string) : sortMaps :=
  match bundleLookup t !! skip with
  | Some r => mkMaps (bundleLookup t) (<[e_addr r := b]> (replacedBy t)) (replaces t) ({[skip]} ∪ skipped t)
  | None => t
  end.

Definition addReplaces (t : sortMaps) b : sortMaps :=
  let t :=
    if negb (bool_decide (e_Replaces b = "")) then
      match bundleLookup t !! e_Replaces b with
      | Some r => mkMaps (bundleLookup t) (<[e_addr r := b]> (replacedBy t)) (<[e_addr b := r]> (replaces t)) (skipped t)
      | None => t
      end
    else t in
  foldl (addSkip b) t (e_Skips b).

Definition channelMaps bundles : sortMaps := foldl addReplaces (mkMaps (lookupTable bundles) ∅ ∅ ∅) bundles.

(** The loop that follows one chain; [None] is a cycle. *)
Fixpoint followChain (fuel : nat) (t : sortMaps) (visited : gset nat) (current : Entry) : option (option (list Entry)) :=
  match fuel with
  | 0 => None
  | S fuel =>
      let visited := {[e_addr current]} ∪ visited in
      let keep chain := if decide (e_Name current ∈ skipped t) then chain else current :: chain in
      match replaces t !! e_addr current with
      | None => Some (Some (keep []))
      | Some next =>
          if decide (e_addr next ∈ visited) then Some None
          else
            match followChain fuel t visited next with
            | Some (Some chain) => Some (Some (keep chain))
            | r => r
            end
      end
  end.

Definition chainName (chain : list Entry) : string :=
  match chain with
  | [] => "[]"
  | [b] => e_Name b
  | b :: rest => e_Name b +:+ "..." +:+ default "" (e_Name <$> last rest)
  end.

Definition sortChannel bundles : sortError + list Entry :=
  match bundles with
  | [] => inr []
  | b0 :: _ =>
      let packageName := Entry_Package b0 in
      let channelName := Entry_Channel b0 in
      let t := channelMaps bundles in
      let headCandidates := filter (fun b => replacedBy t !! e_addr b = None) bundles in
      match headCandidates with
      | [] => inl (NoChannelHeads channelName packageName)
      | _ =>
          chains ← foldE (fun chains head =>
            match followChain (S (length bundles)) t ∅ head with
            | Some (Some chain) => inr (chains ++ [chain])
            | Some None => inl (ReplacementCycle (e_Name head) channelName packageName)
            | None => inl SortOutOfFuel
            end) [] headCandidates;
          match chains with
          | [] => inl (NoChains channelName packageName)
          | [chain] => inr chain
          | _ => inl (MultipleChains channelName packageName (chainName <$> chains))
          end
      end
  end.

(** ** The upgrade order *)

(** Distinct pointers with distinct names, as in one channel of a catalog. *)
Definition distinct bundles : Prop := NoDup (e_addr <$> bundles) /\ NoDup (e_Name <$> bundles).

(** [b'] replaces or skips [b]; [b] directly replaces [b']. *)
Definition upgrades b' b : Prop := (e_Replaces b' = e_Name b /\ e_Replaces b' <> "") \/ e_Name b ∈ e_Skips b'.
Definition replaces_entry b b' : Prop := e_Replaces b = e_Name b' /\ e_Replaces b <> "".
Definition is_channel_head bundles b : Prop := b ∈ bundles /\ forall b', b' ∈ bundles -> ~ upgrades b' b.
Definition is_skipped bundles b : Prop := exists b', b' ∈ bundles /\ e_Name b ∈ e_Skips b'.

(** The replaces chain from an entry, to its end. *)
Inductive upgrade_chain bundles : Entry -> list Entry -> Prop :=
  | uc_end b : (forall b', b' ∈ bundles -> ~ replaces_entry b b') -> upgrade_chain bundles b [b]
  | uc_step b b' l : b' ∈ bundles -> replaces_entry b b' -> upgrade_chain bundles b' l ->
      upgrade_chain bundles b (b :: l).

Lemma lookupTable_spec bundles : distinct bundles ->
  forall n b, lookupTable bundles !! n = Some b <-> b ∈ bundles /\ e_Name b = n.
Proof.
  intros [_ Hnd] n b. unfold lookupTable.
  assert (Hgen : forall dn, NoDup (e_Name <$> dn) ->
    foldl (fun t b => <[e_Name b := b]> t) (∅ : gmap string Entry) dn !! n = Some b <-> b ∈ dn /\ e_Name b = n); [|by apply Hgen].
  intros dn. induction dn as [|x dn IH] using rev_ind; intros Hnd'.
  { simpl. rewrite lookup_empty. split; [done|]. intros [?%elem_of_nil _]. done. }
  rewrite fmap_app in Hnd'. apply NoDup_app in Hnd' as (Hnd1 & Hdis & _).
  rewrite foldl_app. simpl. rewrite lookup_insert_Some, IH by done. rewrite elem_of_app, list_elem_of_singleton.
  split; [naive_solver|]. intros [[Hb| ->] <-]; [|naive_solver]. right. split; [|done]. intros E.
  apply (Hdis (e_Name b)); [by apply list_elem_of_fmap_2|]. rewrite <- E. simpl. set_solver.
Qed.

Lemma distinct_addr bundles b b' : distinct bundles -> b ∈ bundles -> b' ∈ bundles -> e_addr b = e_addr b' -> b = b'.
Proof.
  intros [Hnd _] [i Hi]%list_elem_of_lookup [j Hj]%list_elem_of_lookup E.
  assert (i = j); [|congruence]. eapply (NoDup_lookup (e_addr <$> bundles)); [done|..].
  - rewrite list_lookup_fmap, Hi. done.
  - rewrite list_lookup_fmap, Hj, E. done.
Qed.

(** What the maps hold after the entries [dn]. *)
Record maps_ok bundles (dn : list Entry) (t : sortMaps) : Prop := mkMapsOk {
  mo_lookup : bundleLookup t = lookupTable bundles;
  mo_replaced : forall b, b ∈ bundles -> (is_Some (replacedBy t !! e_addr b) <-> exists b', b' ∈ dn /\ upgrades b' b);
  mo_replaces : forall b r, b ∈ bundles -> (replaces t !! e_addr b = Some r <-> b ∈ dn /\ r ∈ bundles /\ replaces_entry b r);
  mo_skipped : forall b, b ∈ bundles -> (e_Name b ∈ skipped t <-> exists b', b' ∈ dn /\ e_Name b ∈ e_Skips b');
}.

Lemma addSkip_fold b skips : forall t,
  let t' := foldl (addSkip b) t skips in
  bundleLookup t' = bundleLookup t /\ replaces t' = replaces t /\
  (forall a, is_Some (replacedBy t' !! a) <-> is_Some (replacedBy t !! a) \/
     exists skip r, skip ∈ skips /\ bundleLookup t !! skip = Some r /\ e_addr r = a) /\
  (forall n, n ∈ skipped t' <-> n ∈ skipped t \/ (n ∈ skips /\ is_Some (bundleLookup t !! n))).
Proof.
  induction skips as [|skip skips IH]; intros t; cbn [foldl].
  { split_and!; [done..| |]; intros; set_solver. }
  destruct (IH (addSkip b t skip)) as (Hl & Hr & Hrep & Hsk). unfold addSkip in *.
  destruct (bundleLookup t !! skip) as [r|] eqn:E; simpl in *; split_and!; try done.
  - intros a. rewrite Hrep. rewrite lookup_insert_is_Some. setoid_rewrite elem_of_cons. split.
    + intros [[<-|[_ ?]]|(s & r' & ? & ? & ?)]; [right; exists skip, r; auto|by left|right; exists s, r'; auto].
    + intros [?|(s & r' & [->|?] & ? & ?)]; [|left; left; congruence|right; eauto].
      destruct (decide (e_addr r = a)); [left; by left|left; by right].
  - intros n. rewrite Hsk, elem_of_union, elem_of_singleton, elem_of_cons. split; [naive_solver|].
    intros [?|[[->|?] ?]]; auto.
  - intros a. rewrite Hrep. setoid_rewrite elem_of_cons. split; [naive_solver|].
    intros [?|(s & r' & [->|?] & ? & ?)]; [by left|congruence|right; eauto].
  - intros n. rewrite Hsk, elem_of_cons. split; [naive_solver|]. intros [?|[[->|?] ?]]; [auto| |auto].
    rewrite E in *. by destruct (is_Some_None (A := Entry)).
Qed.

Lemma addReplaces_spec t b :
  let t' := addReplaces t b in
  bundleLookup t' = bundleLookup t /\
  (forall a, is_Some (replacedBy t' !! a) <-> is_Some (replacedBy t !! a) \/
     exists r, e_addr r = a /\ ((e_Replaces b <> "" /\ bundleLookup t !! e_Replaces b = Some r) \/
                            exists skip, skip ∈ e_Skips b /\ bundleLookup t !! skip = Some r)) /\
  (forall a r, replaces t' !! a = Some r <->
     (a = e_addr b /\ e_Replaces b <> "" /\ bundleLookup t !! e_Replaces b = Some r) \/
     (replaces t !! a = Some r /\ (a = e_addr b -> e_Replaces b = "" \/ bundleLookup t !! e_Replaces b = None))) /\
  (forall n, n ∈ skipped t' <-> n ∈ skipped t \/ (n ∈ e_Skips b /\ is_Some (bundleLookup t !! n))).
Proof.
  unfold addReplaces. set (t1 := if negb _ then _ else t).
  assert (bundleLookup t1 = bundleLookup t /\ skipped t1 = skipped t /\
    (forall a, is_Some (replacedBy t1 !! a) <-> is_Some (replacedBy t !! a) \/
       exists r, e_addr r = a /\ e_Replaces b <> "" /\ bundleLookup t !! e_Replaces b = Some r) /\
    (forall a r, replaces t1 !! a = Some r <->
       (a = e_addr b /\ e_Replaces b <> "" /\ bundleLookup t !! e_Replaces b = Some r) \/
       (replaces t !! a = Some r /\ (a = e_addr b -> e_Replaces b = "" \/ bundleLookup t !! e_Replaces b = None))))
    as (H1 & H2 & H3 & H4).
  { unfold t1. case_bool_decide as Er; simpl; [split_and!; try done; naive_solver|].
    destruct (bundleLookup t !! e_Replaces b) as [r|] eqn:El; simpl; split_and!; try done.
    - intros a. rewrite lookup_insert_is_Some. split; [naive_solver|].
      intros [?|(r' & <- & _ & [= ->])]; [destruct (decide (e_addr r = a)); auto|by left].
    - intros a r'. rewrite lookup_insert_Some. naive_solver.
    - naive_solver.
    - naive_solver. }
  destruct (addSkip_fold b (e_Skips b) t1) as (Hl & Hr & Hrep & Hsk). rewrite H1 in *. split_and!; [done| | |].
  - intros a. rewrite Hrep, H3. split.
    + intros [[?|(r & ? & ? & ?)]|(s & r & ? & ? & ?)]; [by left|right; exists r; auto|right; exists r; eauto].
    + intros [?|(r & ? & [[? ?]|(s & ? & ?)])]; [auto|left; right; eauto|right; eauto].
  - intros a r. rewrite Hr. apply H4.
  - intros n. by rewrite Hsk, H2.
Qed.

Lemma maps_ok_step bundles dn t b :
  distinct bundles -> b ∈ bundles -> (forall b', b' ∈ dn -> b' ∈ bundles) -> b ∉ dn -> maps_ok bundles dn t ->
  maps_ok bundles (dn ++ [b]) (addReplaces t b).
Proof.
  intros Hd Hb Hdn Hnb [Hl Hrep Hrs Hsk]. destruct (addReplaces_spec t b) as (Hl' & Hrep' & Hrs' & Hsk').
  rewrite Hl in *. pose proof (lookupTable_spec bundles Hd) as Hlt.
  assert (Hname : forall n x, x ∈ bundles -> e_Name x = n -> lookupTable bundles !! n = Some x) by (intros; by apply Hlt).
  split; [done| | |].
  - intros x Hx. rewrite Hrep', (Hrep x Hx). setoid_rewrite elem_of_app. setoid_rewrite list_elem_of_singleton. split.
    + intros [(b' & ? & ?)|(r & Ha & Hr)]; [eauto|]. exists b. split; [auto|].
      assert (r ∈ bundles /\ r = x) as [Hrb ->].
      { assert (r ∈ bundles) as Hrb by (destruct Hr as [[_ ?%Hlt]|(s & _ & ?%Hlt)]; naive_solver).
        split; [done|]. by eapply distinct_addr. }
      destruct Hr as [[? [_ E]%Hlt]|(s & ? & [_ <-]%Hlt)]; [left; split; congruence|by right].
    + intros (b' & [?| ->] & Hu); [left; eauto|right]. exists x. split; [done|].
      destruct Hu as [[E ?]|?]; [left; split; [done|]; apply Hname; congruence|right; exists (e_Name x); eauto].
  - intros x r Hx. rewrite Hrs'. rewrite (Hrs x r Hx). rewrite elem_of_app, list_elem_of_singleton. split.
    + intros [(Ha & ? & [? E]%Hlt)|[(? & ? & ?) _]]; [|auto].
      assert (x = b) as -> by (by eapply distinct_addr). split_and!; [auto|done|]. split; congruence.
    + intros ([Hin| ->] & Hr & [E ?]).
      * right. split; [done|]. intros Ha. exfalso. apply Hnb. by rewrite <- (distinct_addr bundles x b Hd Hx Hb Ha).
      * left. split_and!; [done|done|]. apply Hname; congruence.
  - intros x Hx. rewrite Hsk', (Hsk x Hx). setoid_rewrite elem_of_app. setoid_rewrite list_elem_of_singleton. split.
    + intros [(b' & ? & ?)|[? _]]; eauto.
    + intros (b' & [?| ->] & ?); [left; eauto|right]. split; [done|]. rewrite (Hname (e_Name x) x) by done. eauto.
Qed.

Lemma channelMaps_ok bundles : distinct bundles -> maps_ok bundles bundles (channelMaps bundles).
Proof.
  intros Hd. unfold channelMaps.
  assert (NoDup bundles) as Hnd by (destruct Hd as [Hnd _]; by eapply NoDup_fmap_1).
  assert (Hgen : forall dn, (forall b, b ∈ dn -> b ∈ bundles) -> NoDup dn ->
    maps_ok bundles dn (foldl addReplaces (mkMaps (lookupTable bundles) ∅ ∅ ∅) dn)); [|by apply Hgen].
  intros dn. induction dn as [|b dn IH] using rev_ind; intros Hin Hnd'.
  - simpl. split; simpl; [done|..]; intros; rewrite ?lookup_empty; set_solver by eauto.
  - apply NoDup_app in Hnd' as (Hnd1 & Hdis & _). rewrite foldl_app. cbn [foldl].
    apply maps_ok_step; [done|set_solver|set_solver|set_solver|]. apply IH; [set_solver|done].
Qed.

(** *** Chains *)

Definition skippedNames bundles : gset string := list_to_set (flat_map e_Skips bundles).

Lemma elem_of_skippedNames bundles n : n ∈ skippedNames bundles <-> exists b', b' ∈ bundles /\ n ∈ e_Skips b'.
Proof. unfold skippedNames. by rewrite elem_of_list_to_set, elem_of_flat_map. Qed.

Lemma replaces_entry_det bundles b x y :
  distinct bundles -> x ∈ bundles -> y ∈ bundles -> replaces_entry b x -> replaces_entry b y -> x = y.
Proof.
  intros Hd Hx Hy [E1 _] [E2 _]. pose proof (lookupTable_spec bundles Hd) as Hl.
  assert (lookupTable bundles !! e_Name x = Some x) by (by apply Hl).
  assert (lookupTable bundles !! e_Name y = Some y) by (by apply Hl). congruence.
Qed.

Lemma upgrade_chain_det bundles b l l' :
  distinct bundles -> upgrade_chain bundles b l -> upgrade_chain bundles b l' -> l = l'.
Proof.
  intros Hd Hl. revert l'. induction Hl as [b Hend|b b' l Hb' Hr Hc IH]; intros l' Hl'.
  - inv Hl'; [done|]. exfalso. by eapply Hend.
  - inv Hl' as [? Hend|? b2 l2 Hb2 Hr2 Hc2]; [exfalso; by eapply Hend|]. f_equal. apply IH.
    by rewrite (replaces_entry_det _ _ _ _ Hd Hb' Hb2 Hr Hr2).
Qed.

Lemma upgrade_chain_suffix bundles b l x :
  upgrade_chain bundles b l -> x ∈ l -> x = b \/ exists l', upgrade_chain bundles x l' /\ (length l' < length l)%nat.
Proof.
  induction 1 as [b Hend|b b' l Hb' Hr Hc IH]; intros Hx; [left; set_solver|].
  apply elem_of_cons in Hx as [->|Hx]; [by left|right]. destruct (IH Hx) as [->|(l' & ? & ?)].
  - exists l. split; [done|]. simpl. lia.
  - exists l'. split; [done|]. simpl. lia.
Qed.

Lemma upgrade_chain_in bundles b l : b ∈ bundles -> upgrade_chain bundles b l -> forall x, x ∈ l -> x ∈ bundles.
Proof. intros Hb Hc. revert Hb. induction Hc; intros Hb x Hx; set_solver. Qed.

Lemma upgrade_chain_NoDup bundles b l : distinct bundles -> upgrade_chain bundles b l -> NoDup l.
Proof.
  intros Hd. induction 1 as [b Hend|b b' l Hb' Hr Hc IH]; [apply NoDup_singleton|]. constructor; [|done].
  intros Hin. destruct (upgrade_chain_suffix _ _ _ _ Hc Hin) as [->|(l' & Hl' & Hlen)].
  - assert (l = b' :: l) as E by (eapply upgrade_chain_det; [done|done|by econstructor]).
    apply (f_equal length) in E. simpl in E. lia.
  - assert (l' = b :: l) as -> by (eapply upgrade_chain_det; [done|done|by econstructor]). simpl in Hlen. lia.
Qed.

Lemma upgrade_chain_addrs bundles b l : distinct bundles -> b ∈ bundles -> upgrade_chain bundles b l -> NoDup (e_addr <$> l).
Proof.
  intros Hd Hb Hc. apply NoDup_fmap_2_strong; [|by eapply upgrade_chain_NoDup].
  intros x y Hx Hy. apply (distinct_addr bundles); [done|by eapply upgrade_chain_in..].
Qed.

(** The entries of a chain that no entry skips. *)
Definition kept bundles (l : list Entry) : list Entry := filter (fun b => e_Name b ∉ skippedNames bundles) l.

Section follow.
Context (bundles : list Entry) (Hd : distinct bundles) (t : sortMaps) (Hok : maps_ok bundles bundles t).

Lemma skipped_names b : b ∈ bundles -> e_Name b ∈ skipped t <-> e_Name b ∈ skippedNames bundles.
Proof. intros Hb. by rewrite (mo_skipped _ _ _ Hok b Hb), elem_of_skippedNames. Qed.

Lemma kept_cons b l : b ∈ bundles ->
  kept bundles (b :: l) = if decide (e_Name b ∈ skipped t) then kept bundles l else b :: kept bundles l.
Proof.
  intros Hb. unfold kept. rewrite filter_cons. pose proof (skipped_names b Hb) as Hs.
  destruct (decide (e_Name b ∈ skipped t)), (decide (e_Name b ∉ skippedNames bundles)); tauto.
Qed.

Lemma followChain_sound fuel : forall visited b chain,
  b ∈ bundles -> followChain fuel t visited b = Some (Some chain) ->
  exists l, upgrade_chain bundles b l /\ chain = kept bundles l.
Proof.
  induction fuel as [|fuel IH]; intros visited b chain Hb; [done|]. cbn [followChain].
  destruct (replaces t !! e_addr b) as [next|] eqn:En.
  - apply (mo_replaces _ _ _ Hok b next Hb) in En as (_ & Hn & Hr).
    destruct (decide _); [done|]. destruct (followChain fuel t _ next) as [[ch|]|] eqn:Ef; [|done..].
    intros [= <-]. destruct (IH _ _ _ Hn Ef) as (l & Hl & ->). exists (b :: l). split; [by econstructor|].
    by rewrite kept_cons.
  - intros [= <-]. exists [b]. split; [|by rewrite kept_cons].
    apply uc_end. intros b' Hb' Hr.
    assert (replaces t !! e_addr b = Some b') by (by apply (mo_replaces _ _ _ Hok)). congruence.
Qed.

Lemma followChain_complete fuel : forall visited b l,
  b ∈ bundles -> upgrade_chain bundles b l -> (length l <= fuel)%nat -> (forall x, x ∈ l -> e_addr x ∉ visited) ->
  followChain fuel t visited b = Some (Some (kept bundles l)).
Proof.
  induction fuel as [|fuel IH]; intros visited b l Hb Hc Hlen Hv; [destruct Hc; simpl in Hlen; lia|]. cbn [followChain].
  pose proof (upgrade_chain_addrs _ _ _ Hd Hb Hc) as Hnd. inv Hc as [? Hend|? b' l' Hb' Hr Hc'].
  - destruct (replaces t !! e_addr b) as [next|] eqn:En; [|by rewrite kept_cons].
    apply (mo_replaces _ _ _ Hok b next Hb) in En as (_ & Hn & Hr). exfalso. by eapply Hend.
  - assert (replaces t !! e_addr b = Some b') as -> by (by apply (mo_replaces _ _ _ Hok)).
    rewrite fmap_cons in Hnd. apply NoDup_cons in Hnd as [Hna _].
    assert (forall x, x ∈ l' -> e_addr x ∉ ({[e_addr b]} ∪ visited : gset nat)) as Hv'.
    { intros x Hx. rewrite elem_of_union, elem_of_singleton. intros [E|E]; [|apply (Hv x); set_solver].
      apply Hna. rewrite <- E. by apply list_elem_of_fmap_2. }
    rewrite decide_False by (apply Hv'; inv Hc'; set_solver).
    rewrite (IH _ _ l') by (try done; simpl in Hlen; lia). by rewrite kept_cons.
Qed.

Lemma followChain_fuel fuel : forall visited b,
  b ∈ bundles -> e_addr b ∉ visited ->
  (size (list_to_set (e_addr <$> bundles) ∖ visited : gset nat) < fuel)%nat -> followChain fuel t visited b <> None.
Proof.
  induction fuel as [|fuel IH]; intros visited b Hb Hv Hsz; [lia|]. cbn [followChain].
  destruct (replaces t !! e_addr b) as [next|] eqn:En; [|done].
  apply (mo_replaces _ _ _ Hok b next Hb) in En as (_ & Hn & _). destruct (decide _) as [|Hnv]; [done|].
  specialize (IH _ next Hn Hnv). destruct (followChain fuel t _ next) as [[]|]; [done..|]. exfalso. apply IH; [|done].
  assert (size (list_to_set (e_addr <$> bundles) ∖ ({[e_addr b]} ∪ visited) : gset nat) <
    size (list_to_set (e_addr <$> bundles) ∖ visited : gset nat))%nat; [|lia].
  apply subset_size. split; [set_solver|]. intros Hsub. assert (e_addr b ∈ (list_to_set (e_addr <$> bundles) : gset nat)).
  { apply elem_of_list_to_set. by apply list_elem_of_fmap_2. }
  specialize (Hsub (e_addr b)). set_solver.
Qed.

Lemma followChain_start_fuel b : b ∈ bundles -> followChain (S (length bundles)) t ∅ b <> None.
Proof.
  intros Hb. apply followChain_fuel; [done|set_solver|]. rewrite difference_empty_L.
  destruct Hd as [Hnd _]. rewrite size_list_to_set, length_fmap by done. lia.
Qed.
End follow.

Lemma headCandidates_spec bundles t b :
  maps_ok bundles bundles t ->
  b ∈ filter (fun b => replacedBy t !! e_addr b = None) bundles <-> is_channel_head bundles b.
Proof.
  intros Hok. rewrite list_elem_of_filter. unfold is_channel_head. split.
  - intros [Hn Hb]. split; [done|]. intros b' Hb' Hu.
    assert (is_Some (replacedBy t !! e_addr b)) as [? E] by (apply (mo_replaced _ _ _ Hok b Hb); eauto). congruence.
  - intros [Hb Hno]. split; [|done]. apply eq_None_not_Some. rewrite (mo_replaced _ _ _ Hok b Hb). intros (b' & Hb' & Hu).
    by eapply Hno.
Qed.

Definition followStep bundles (t : sortMaps) (channelName packageName : string) (chains : list (list Entry)) (head : Entry)
  : sortError + list (list Entry) :=
  match followChain (S (length bundles)) t ∅ head with
  | Some (Some chain) => inr (chains ++ [chain])
  | Some None => inl (ReplacementCycle (e_Name head) channelName packageName)
  | None => inl SortOutOfFuel
  end.

Lemma followStep_fold bundles t cn pn heads chains :
  foldE (followStep bundles t cn pn) [] heads = inr chains ->
  Forall2 (fun head chain => followChain (S (length bundles)) t ∅ head = Some (Some chain)) heads chains.
Proof.
  apply (foldE_inv _ (Forall2 (fun head chain => followChain (S (length bundles)) t ∅ head = Some (Some chain)))); [constructor|].
  intros dn x acc acc' Hacc. unfold followStep. destruct (followChain _ _ _ x) as [[ch|]|] eqn:E; [|done..].
  intros [= <-]. apply Forall2_app; [done|]. by constructor.
Qed.

Lemma sortChannel_unfold b0 rest :
  sortChannel (b0 :: rest) =
  let bundles := b0 :: rest in let t := channelMaps bundles in
  match filter (fun b => replacedBy t !! e_addr b = None) bundles with
  | [] => inl (NoChannelHeads (Entry_Channel b0) (Entry_Package b0))
  | heads =>
      match foldE (followStep bundles t (Entry_Channel b0) (Entry_Package b0)) [] heads with
      | inl e => inl e
      | inr [] => inl (NoChains (Entry_Channel b0) (Entry_Package b0))
      | inr [chain] => inr chain
      | inr chains => inl (MultipleChains (Entry_Channel b0) (Entry_Package b0) (chainName <$> chains))
      end
  end.
Proof.
  unfold sortChannel. cbv zeta. destruct (filter _ (b0 :: rest)); [done|]. fold (followStep (b0 :: rest) (channelMaps (b0 :: rest)) (Entry_Channel b0) (Entry_Package b0)).
  cbn [mbind sum_bind]. by destruct (foldE _ _ _) as [|[|? [|]]].
Qed.

Lemma filter_singleton_elem {A} (P : A -> Prop) `{!forall x, Decision (P x)} (l : list A) x :
  NoDup l -> x ∈ l -> P x -> (forall y, y ∈ l -> P y -> y = x) -> filter P l = [x].
Proof.
  intros Hnd Hx HP Huniq. assert (NoDup (filter P l)) as Hnd' by (by apply NoDup_filter).
  destruct (filter P l) as [|y [|z l']] eqn:E.
  - assert (x ∈ filter P l) as Hin by (by apply list_elem_of_filter). rewrite E in Hin. by apply elem_of_nil in Hin.
  - assert (y ∈ filter P l) as [Hy1 Hy2]%list_elem_of_filter by (rewrite E; set_solver). by rewrite (Huniq y).
  - assert (y ∈ filter P l) as [Hy1 Hy2]%list_elem_of_filter by (rewrite E; set_solver).
    assert (z ∈ filter P l) as [Hz1 Hz2]%list_elem_of_filter by (rewrite E; set_solver).
    rewrite (Huniq y), (Huniq z) in Hnd' by done. apply NoDup_cons in Hnd' as [Hn _]. set_solver.
Qed.
End sort.

(** [sortChannel] orders a channel iff exactly one entry is not replaced or skipped by another and the
    replaces chain from it ends; the result is that chain, without the skipped entries. *)
Theorem sortChannel_iff `{SemverLib} (bundles res : list Entry) :
  distinct bundles -> bundles <> [] ->
  sortChannel bundles = inr res <->
  exists head path, is_channel_head bundles head /\ (forall b, is_channel_head bundles b -> b = head) /\
    upgrade_chain bundles head path /\ res = kept bundles path.
Proof.
  intros Hd Hne. pose proof (channelMaps_ok bundles Hd) as Hok. destruct bundles as [|b0 rest]; [done|].
  rewrite sortChannel_unfold. set (bundles := b0 :: rest) in *. cbv zeta. set (t := channelMaps bundles) in *.
  pose proof (fun b => headCandidates_spec bundles t b Hok) as Hheads. split.
  - destruct (filter _ bundles) as [|h hs] eqn:Eh; [done|].
    destruct (foldE _ _ _) as [|chains] eqn:Ef; [done|]. apply followStep_fold in Ef.
    destruct chains as [|chain [|]]; [done| |done]. intros [= <-]. inv Ef as [|? ? ? ? Hf Hrest]. inv Hrest.
    assert (is_channel_head bundles h) as Hh by (apply Hheads; set_solver).
    destruct (followChain_sound bundles t Hok _ _ _ _ (proj1 Hh) Hf) as (path & Hpath & ->).
    exists h, path. split_and!; [done| |done|done]. intros b Hb%Hheads. set_solver.
  - intros (head & path & Hh & Huniq & Hpath & ->).
    assert (NoDup bundles) as Hnd by (destruct Hd as [Hnd _]; by eapply NoDup_fmap_1).
    rewrite (filter_singleton_elem _ bundles head Hnd).
    + cbn [foldE]. unfold followStep.
      rewrite (followChain_complete bundles Hd t Hok _ ∅ head path); [done|apply Hh|done| |set_solver].
      pose proof (upgrade_chain_NoDup _ _ _ Hd Hpath) as Hndp.
      assert (length path <= length bundles)%nat; [|lia].
      apply submseteq_length, NoDup_submseteq; [done|]. by apply (upgrade_chain_in bundles head path (proj1 Hh)).
    + apply Hh.
    + apply Hheads in Hh. by apply list_elem_of_filter in Hh as [? _].
    + intros y Hy1 Hy2. apply Huniq, Hheads. by apply list_elem_of_filter.
Qed.

(** The loop that follows a chain always ends: [sortChannel] never runs out of steps, whatever the
    cycles in its input. *)
Theorem sortChannel_terminates `{SemverLib} (bundles : list Entry) :
  distinct bundles -> sortChannel bundles <> inl SortOutOfFuel.
Proof.
  intros Hd. destruct bundles as [|b0 rest]; [done|]. rewrite sortChannel_unfold.
  pose proof (channelMaps_ok _ Hd) as Hok. set (bundles := b0 :: rest) in *. cbv zeta. set (t := channelMaps bundles) in *.
  destruct (filter _ bundles) as [|h hs] eqn:Eh; [done|].
  assert (Hhs : forall x, x ∈ h :: hs -> x ∈ bundles) by (intros x; rewrite <- Eh; intros [_ ?]%list_elem_of_filter; done).
  enough (forall acc, foldE (followStep bundles t (Entry_Channel b0) (Entry_Package b0)) acc (h :: hs) <> inl SortOutOfFuel) as Hgen.
  { specialize (Hgen []). destruct (foldE _ _ _) as [e|[|? [|]]]; [congruence|done..]. }
  revert Hhs. clear Eh. generalize (h :: hs) as l. intros l. induction l as [|x l IH]; intros Hl acc; cbn [foldE]; [done|].
  unfold followStep at 1. pose proof (followChain_start_fuel bundles Hd t Hok x ltac:(apply Hl; set_solver)) as Hf.
  destruct (followChain _ _ _ x) as [[ch|]|]; [apply IH; set_solver|done|done].
Qed.

Definition demo_entries : list (@Entry demo_semver) :=
  [demo_entry 1 "v1" "" (mkKey "community" "olm"); demo_entry 3 "v3" "v2" (mkKey "community" "olm");
   demo_entry 2 "v2" "v1" (mkKey "community" "olm")].

Definition demo_sorted : list (@Entry demo_semver) :=
  [demo_entry 3 "v3" "v2" (mkKey "community" "olm"); demo_entry 2 "v2" "v1" (mkKey "community" "olm");
   demo_entry 1 "v1" "" (mkKey "community" "olm")].

Lemma demo_entries_distinct : @distinct demo_semver demo_entries.
Proof. split; apply (bool_decide_unpack _); vm_compute; exact I. Qed.

Lemma sortChannel_iff_witness :
  exists head path, @is_channel_head demo_semver demo_entries head /\
    (forall b, @is_channel_head demo_semver demo_entries b -> b = head) /\
    @upgrade_chain demo_semver demo_entries head path /\
    demo_sorted = @kept demo_semver demo_entries path.
Proof.
  apply (proj1 (@sortChannel_iff demo_semver demo_entries demo_sorted demo_entries_distinct ltac:(discriminate))).
  vm_compute. reflexivity.
Defined.

Lemma sortChannel_terminates_witness : @sortChannel demo_semver demo_entries <> inl SortOutOfFuel.
Proof. apply (@sortChannel_terminates demo_semver demo_entries), demo_entries_distinct. Defined.

(** ** Sorting invents nothing, whatever the entries are *)

Section subset.
Context `{SemverLib}.
Implicit Types (b : Entry) (bundles : list Entry).

Lemma lookupTable_in bundles n b : lookupTable bundles !! n = Some b -> b ∈ bundles.
Proof.
  revert b. unfold lookupTable. apply (foldl_inv (fun t b => <[e_Name b := b]> t)
    (fun dn (t : gmap string Entry) => forall b, t !! n = Some b -> b ∈ dn)); [intros b E; by rewrite lookup_empty in E|].
  intros dn x t IH b [[_ <-]|[_ E]]%lookup_insert_Some; [set_solver|]. apply IH in E. set_solver.
Qed.

Lemma channelMaps_in bundles a r : replaces (channelMaps bundles) !! a = Some r -> r ∈ bundles.
Proof.
  unfold channelMaps.
  assert (Hgen : forall dn, let t := foldl addReplaces (mkMaps (lookupTable bundles) ∅ ∅ ∅) dn in
    bundleLookup t = lookupTable bundles /\ forall a r, replaces t !! a = Some r -> r ∈ bundles).
  { intros dn. apply (foldl_inv addReplaces (fun _ t => bundleLookup t = lookupTable bundles /\
      forall a r, replaces t !! a = Some r -> r ∈ bundles)).
    - split; [done|]. simpl. intros ? ? E. by apply lookup_empty_Some in E.
    - intros dn' x t [Hl Hr]. destruct (addReplaces_spec t x) as (Hl' & _ & Hr' & _). split; [by rewrite Hl'|].
      intros a' r' [(_ & _ & E)|[E _]]%Hr'; [|eauto]. rewrite Hl in E. by eapply lookupTable_in. }
  apply Hgen.
Qed.

Lemma followChain_in bundles fuel : forall visited b chain,
  b ∈ bundles -> followChain fuel (channelMaps bundles) visited b = Some (Some chain) -> chain ⊆ bundles.
Proof.
  induction fuel as [|fuel IH]; intros visited b chain Hb; [done|]. cbn [followChain].
  destruct (replaces (channelMaps bundles) !! e_addr b) as [next|] eqn:E.
  - destruct (decide _); [done|]. destruct (followChain fuel _ _ next) as [[ch|]|] eqn:Ef; [|done..].
    apply IH in Ef; [|by eapply channelMaps_in]. intros [= <-]. destruct (decide _); set_solver.
  - intros [= <-]. destruct (decide _); set_solver.
Qed.

Lemma sortChannel_in bundles res : sortChannel bundles = inr res -> res ⊆ bundles.
Proof.
  destruct bundles as [|b0 rest]; [by intros [= <-]|]. rewrite sortChannel_unfold. cbv zeta.
  destruct (filter _ _) as [|h heads] eqn:Eh; [done|]. destruct (foldE _ _ _) as [|[|chain [|]]] eqn:Ef; [done..| |done].
  intros [= <-]. apply followStep_fold in Ef. apply Forall2_cons_inv_l in Ef as (c & cs & Hc & _ & E).
  injection E as <- _. eapply followChain_in; [|exact Hc].
  assert (h ∈ h :: heads) as Hin by left. rewrite <- Eh in Hin. by apply list_elem_of_filter in Hin as [_ Hin].
Qed.
End subset.
