(* ===== verification/ResolverVariables.v ===== *)
(** * Solver variables for subscriptions and bundles

    Models [variable_types.go] of [pkg/controller/registry/resolver], and from [resolver.go] the conversion
    of dependency properties to predicates and [addInvariants].  The theorems connect the
    variables to what they stand for: a subscription needs one of its candidates, a package is
    installed at most once, a converted constraint tree means its boolean combination. *)

From S2P Require Import Prelude GoStrings CatalogModel SatInterface LitMapping ResolverCache.

(** ** Variables (variable_types.go) *)

Record BundleVariable := mkBundleVariable { bv_identifier : Identifier; bv_constraints : list Constraint; bv_Replaces : string }.

Definition AddConstraint (i : BundleVariable) (c : Constraint) : BundleVariable :=
  mkBundleVariable (bv_identifier i) (bv_constraints i ++ [c]) (bv_Replaces i).
Definition MakeProhibited (i : BundleVariable) : BundleVariable := AddConstraint i prohibited.
Definition AddConflict (i : BundleVariable) (id : Identifier) : BundleVariable := AddConstraint i (conflict id).

(** [BundleSourceInfo]: the name, the channel and the catalog; [None] is the parse error. *)
Definition BundleSourceInfo (id : Identifier) : option (string * string * SourceKey) :=
  match Split slash id with
  | [name; namespace; channel; csvName] => Some (csvName, channel, mkKey name namespace)
  | _ => None
  end.

Definition bundleID (bundle channel : string) (catalog : SourceKey) : Identifier :=
  SourceKey_String catalog +:+ "/" +:+ channel +:+ "/" +:+ bundle.

(** The variables of a resolution: [*BundleVariable] or [GenericVariable]. *)
Inductive ResolverVariable := BundleVar (b : BundleVariable) | GenericVar (id : Identifier) (ks : list Constraint).
Definition rv_Identifier (v : ResolverVariable) : Identifier :=
  match v with BundleVar b => bv_identifier b | GenericVar id _ => id end.
Definition rv_Constraints (v : ResolverVariable) : list Constraint :=
  match v with BundleVar b => bv_constraints b | GenericVar _ ks => ks end.
(** The variable as the solver sees it. *)
Definition toVariable (v : ResolverVariable) : SVariable := mkVariable (rv_Identifier v) (rv_Constraints v).

Definition NewInvalidSubscriptionVariable (name reason : string) : ResolverVariable :=
  GenericVar ("subscription:" +:+ name)
    [prettyConstraint mandatory ("subscription " +:+ name +:+ " exists"); prettyConstraint prohibited reason].

(** [strings.Join(s[:len(s)-1], sep)] and [s[len(s)-1]] *)
Definition initJoin (s : list string) (sep : string) : string := Join (removelast s) sep.
Definition lastOf (s : list string) : string := List.last s "".

Definition NewSubscriptionVariable (name : string) (dependencies : list Identifier) : ResolverVariable :=
  let exists_ := prettyConstraint mandatory ("subscription " +:+ name +:+ " exists") in
  GenericVar ("subscription:" +:+ name)
    match dependencies with
    | [] => [exists_; prettyConstraint (dependency []) ("no operators found matching the criteria of subscription " +:+ name)]
    | _ =>
        let req :=
          match dependencies with
          | [d] => d
          | _ => "at least one of " +:+ initJoin dependencies ", " +:+ " or " +:+ lastOf dependencies
          end in
        [exists_; prettyConstraint (dependency dependencies) ("subscription " +:+ name +:+ " requires " +:+ req)]
    end.

Definition gvkID (group version kind : string) : Identifier := kind +:+ " (" +:+ group +:+ "/" +:+ version +:+ ")".

Definition NewSingleAPIProviderVariable (group version kind : string) (providers : list Identifier) : ResolverVariable :=
  let gvk := gvkID group version kind in
  GenericVar gvk
    (if (length providers <=? 1)%nat then []
     else [prettyConstraint mandatory ("there can be only one provider of " +:+ gvk);
           prettyConstraint (leq providers 1) (initJoin providers ", " +:+ " and " +:+ lastOf providers +:+ " provide " +:+ gvk)]).

Definition NewSinglePackageInstanceVariable (pkg : string) (providers : list Identifier) : ResolverVariable :=
  GenericVar pkg
    (if (length providers <=? 1)%nat then []
     else [prettyConstraint mandatory ("there can be only one operator from package " +:+ pkg);
           prettyConstraint (leq providers 1)
             (initJoin providers ", " +:+ " and " +:+ lastOf providers +:+ " originate from package " +:+ pkg)]).

Section variables.
Context `{ResolverLib}.

(** The error is the name of a bundle without source. *)
Definition NewBundleVariableFromOperator (o : Entry) : string + BundleVariable :=
  match e_SourceInfo o with
  | None => inl (e_Name o)
  | Some si =>
      let id := bundleID (e_Name o) (Entry_Channel o) (si_Catalog si) in
      inr (mkBundleVariable id
        ((if Virtual (si_Catalog si) && bool_decide (si_Subscription si = None) then
            [prettyConstraint mandatory
               ("clusterserviceversion " +:+ e_Name o +:+ " exists and is not referenced by a subscription")]
          else []) ++
         (if existsb (fun p => bool_decide (PType p = DeprecatedType)) (e_Properties o) then
            [prettyConstraint prohibited ("bundle " +:+ id +:+ " is deprecated")]
          else [])) "")
  end.

(** ** Dependency properties to predicates (resolver.go) *)

(** [constraints.Constraint]: optional fields, of which the conversion uses the first that is set. *)
Inductive OLMConstraint := mkOLM {
  oc_FailureMessage : string;
  oc_GVK : option GVKProp;
  oc_Package : option PackageRequiredProp;
  oc_All : option (list OLMConstraint);
  oc_Any : option (list OLMConstraint);
  oc_Not : option (list OLMConstraint);
  oc_Cel : option string
}.

(** The JSON decoder of [constraints.Parse]. *)
Class ConstraintDecoder := { decodeConstraint : string -> option OLMConstraint }.
Context `{ConstraintDecoder}.

Definition maxConstraintSize : nat := 2 * 2 ^ 16.
Definition Parse (v : string) : option OLMConstraint :=
  if (maxConstraintSize <? String.length v)%nat then None else decodeConstraint v.

Inductive convError := EmptyConstraint | BadRange (r : string) | BadCel (rule : string) | BadConstraint | BadValue.

Definition apiPredicate (g : GVKProp) : Predicate := gvkPredicate (mkAPIKey (PGroup g) (PVersion g) (PKind g) "").

Definition newPackageRequiredPredicate (name verRange : string) : convError + Predicate :=
  match ParseRange verRange with
  | Some ver => inr (andPredicate [pkgPredicate name; versionInRangePredicate ver verRange])
  | None => inl (BadRange verRange)
  end.

(** One element of [convertConstraints], which maps it over a list. *)
Fixpoint convertConstraint (c : OLMConstraint) : convError + Predicate :=
  let convertAll := fix convertAll (cs : list OLMConstraint) : convError + list Predicate :=
    match cs with
    | [] => inr []
    | c :: cs => p ← convertConstraint c; ps ← convertAll cs; inr (p :: ps)
    end in
  match c with
  | mkOLM _ (Some g) _ _ _ _ _ => inr (apiPredicate g)
  | mkOLM _ None (Some p) _ _ _ _ => newPackageRequiredPredicate (ReqPackageName p) (ReqVersionRange p)
  | mkOLM _ None None (Some cs) _ _ _ => ps ← convertAll cs; inr (andPredicate ps)
  | mkOLM _ None None None (Some cs) _ _ => ps ← convertAll cs; inr (orPredicate ps)
  | mkOLM _ None None None None (Some cs) _ => ps ← convertAll cs; inr (notPredicate ps)
  | mkOLM msg None None None None None (Some rule) =>
      match celValidate rule with Some prog => inr (celPredicate prog rule msg) | None => inl (BadCel rule) end
  | mkOLM _ None None None None None None => inl EmptyConstraint
  end.

Definition predicateForConstraintProperty (value : string) : convError + Predicate :=
  match Parse value with None => inl BadConstraint | Some c => convertConstraint c end.

(** [legacyPredicateParsers] *)
Definition legacyParser (typ value : string) : option (convError + Predicate) :=
  if bool_decide (typ = "olm.gvk.required") then
    Some (match decRequiredGVK value with Some g => inr (apiPredicate g) | None => inl BadValue end)
  else if bool_decide (typ = "olm.package.required") then
    Some (match decRequiredPackage value with
          | Some p => newPackageRequiredPredicate (ReqPackageName p) (ReqVersionRange p)
          | None => inl BadValue
          end)
  else if bool_decide (typ = "olm.label.required") then
    Some (match decRequiredLabel value with Some l => inr (labelPredicate l) | None => inl BadValue end)
  else None.

(** [predicateForProperty]: [inr None] is a property that is no constraint. *)
Definition predicateForProperty (p : Property) : convError + option Predicate :=
  if bool_decide (PType p = "olm.constraint") then q ← predicateForConstraintProperty (PValue p); inr (Some q)
  else match legacyParser (PType p) (PValue p) with None => inr None | Some r => q ← r; inr (Some q) end.

Fixpoint convertDependencyProperties (properties : list Property) : convError + list Predicate :=
  match properties with
  | [] => inr []
  | p :: properties =>
      pred ← predicateForProperty p;
      preds ← convertDependencyProperties properties;
      inr (match pred with Some q => q :: preds | None => preds end)
  end.

(** ** Invariants *)

Context `{RangeOrder, SortLib}.

(** [slices.Sort] on identifiers. *)
Definition sortIds (ids : list Identifier) : list Identifier := merge_sort String.le ids.

(** The properties of a type of the entry a bundle variable stands for. *)
Definition variableProps {A} (snapshots : Snapshots) (typ : string) (dec : string -> option A) (v : ResolverVariable) : list A :=
  match v with
  | GenericVar _ _ => []
  | BundleVar b =>
      match BundleSourceInfo (bv_identifier b) with
      | None => []
      | Some (csvName, channel, catalog) =>
          match CatalogFind snapshots catalog [csvNamePredicate csvName; channelPredicate channel] (fun _ => 0) with
          | Some ([op], _) =>
              omap (fun p => if bool_decide (PType p = typ) then dec (PValue p) else None) (e_Properties op)
          | _ => []
          end
      end
  end.

(** [m[k] = append(m[k], id)] *)
Definition appendTo {K} `{Countable K} (id : Identifier) (m : gmap K (list Identifier)) (k : K) : gmap K (list Identifier) :=
  <[k := default [] (m !! k) ++ [id]]> m.

Definition gvkKey (g : GVKProp) : string * string * string := (PGroup g, PVersion g, PKind g).

Definition gvkConflicts (snapshots : Snapshots) (vs : list ResolverVariable) : gmap (string * string * string) (list Identifier) :=
  foldl (fun m v => foldl (appendTo (rv_Identifier v)) m (gvkKey <$> variableProps snapshots GVKType decGVKProperty v)) ∅ vs.

Definition packageConflicts (snapshots : Snapshots) (vs : list ResolverVariable) : gmap string (list Identifier) :=
  foldl (fun m v => foldl (appendTo (rv_Identifier v)) m (PackageName <$> variableProps snapshots PackageType decPackageProperty v)) ∅ vs.

Definition insertVar (m : gmap Identifier ResolverVariable) (v : ResolverVariable) : gmap Identifier ResolverVariable :=
  <[rv_Identifier v := v]> m.

(** The bodies of the last two loops. *)
Definition apiVariable (e : (string * string * string) * list Identifier) : ResolverVariable :=
  let '((g, v, k), ids) := e in NewSingleAPIProviderVariable g v k (sortIds ids).
Definition packageVariable (e : string * list Identifier) : ResolverVariable :=
  NewSinglePackageInstanceVariable e.1 (sortIds e.2).

Definition addInvariants (snapshots : Snapshots) (variables : gmap Identifier ResolverVariable) : gmap Identifier ResolverVariable :=
  let vs := (range variables).*2 in
  let variables := foldl (fun m e => insertVar m (apiVariable e)) variables (range (gvkConflicts snapshots vs)) in
  foldl (fun m e => insertVar m (packageVariable e)) variables (range (packageConflicts snapshots vs)).
End variables.

(** ** Identifiers *)

Definition no_slash (s : string) : Prop := HasByte slash s = false.

(** The identifier of a bundle reads back to its name, channel and catalog, when none of these has a
    slash, as Kubernetes names do not. *)
Theorem bundleID_roundtrip (bundle channel : string) (catalog : SourceKey) :
  no_slash bundle -> no_slash channel -> no_slash (sk_Name catalog) -> no_slash (sk_Namespace catalog) ->
  BundleSourceInfo (bundleID bundle channel catalog) = Some (bundle, channel, catalog).
Proof.
  intros Hb Hc Hn Hs. destruct catalog as [n ns]. unfold BundleSourceInfo.
  replace (bundleID bundle channel (mkKey n ns)) with (Join [n; ns; channel; bundle] "/")
    by (unfold bundleID, SourceKey_String, Join; simpl; by rewrite !str_app_assoc).
  rewrite (Split_Join slash); [done..|]. simpl in *. set_solver.
Qed.

Lemma bundleID_roundtrip_witness :
  BundleSourceInfo (bundleID "etcd.v1" "stable" (mkKey "community" "olm")) = Some ("etcd.v1", "stable", mkKey "community" "olm").
Proof. apply bundleID_roundtrip; reflexivity. Defined.

(** ** Converted constraints *)

Section converted.
Context `{ResolverLib, ConstraintDecoder}.

Section OLMConstraint_ind'.
Context (P : OLMConstraint -> Prop).
Context (IHc : forall msg g p oall oany onot cel,
  Forall P (default [] oall) -> Forall P (default [] oany) -> Forall P (default [] onot) ->
  P (mkOLM msg g p oall oany onot cel)).

(** Induction through the lists of compound constraints. *)
Lemma OLMConstraint_ind' : forall c, P c.
Proof.
  fix IH 1. intros [msg g p oall oany onot cel].
  apply IHc; [destruct oall as [cs|]|destruct oany as [cs|]|destruct onot as [cs|]]; simpl; try constructor;
    (induction cs as [|c cs IHcs]; constructor; [apply IH|exact IHcs]).
Qed.
End OLMConstraint_ind'.

(** What a constraint asks of an entry: its first field that is set decides. *)
Fixpoint asks (c : OLMConstraint) (o : Entry) : bool :=
  match c with
  | mkOLM _ (Some g) _ _ _ _ _ => testGVK (mkAPIKey (PGroup g) (PVersion g) (PKind g) "") o
  | mkOLM _ None (Some p) _ _ _ _ =>
      testPkg (ReqPackageName p) o &&
      match ParseRange (ReqVersionRange p) with Some r => testVersion r o | None => false end
  | mkOLM _ None None (Some cs) _ _ _ => forallb (fun c => asks c o) cs
  | mkOLM _ None None None (Some cs) _ _ => existsb (fun c => asks c o) cs
  | mkOLM _ None None None None (Some cs) _ => negb (existsb (fun c => asks c o) cs)
  | mkOLM _ None None None None None (Some rule) =>
      match celValidate rule with
      | Some prog => bool_decide (celEvaluate prog (e_Properties o) = Some true)
      | None => false
      end
  | mkOLM _ None None None None None None => false
  end.

(** No empty constraint, no bad range and no bad rule where the conversion looks. *)
Fixpoint convertible (c : OLMConstraint) : bool :=
  match c with
  | mkOLM _ (Some _) _ _ _ _ _ => true
  | mkOLM _ None (Some p) _ _ _ _ => match ParseRange (ReqVersionRange p) with Some _ => true | None => false end
  | mkOLM _ None None (Some cs) _ _ _ | mkOLM _ None None None (Some cs) _ _ | mkOLM _ None None None None (Some cs) _ =>
      forallb convertible cs
  | mkOLM _ None None None None None (Some rule) => match celValidate rule with Some _ => true | None => false end
  | mkOLM _ None None None None None None => false
  end.

(** The loop over a list of constraints: [convertConstraints]. *)
Fixpoint convertConstraints (cs : list OLMConstraint) : convError + list Predicate :=
  match cs with
  | [] => inr []
  | c :: cs => p ← convertConstraint c; ps ← convertConstraints cs; inr (p :: ps)
  end.

Definition converted (c : OLMConstraint) : Prop :=
  match convertConstraint c with
  | inr p => convertible c = true /\ forall o, meaning p o = asks c o
  | inl _ => convertible c = false
  end.

Lemma convertConstraints_ok cs : (forall c, c ∈ cs -> converted c) ->
  match convertConstraints cs with
  | inr ps => forallb convertible cs = true /\ forall o, (fun p => meaning p o) <$> ps = (fun c => asks c o) <$> cs
  | inl _ => forallb convertible cs = false
  end.
Proof.
  induction cs as [|c cs IH]; intros Hcs; simpl; [done|].
  pose proof (Hcs c ltac:(set_solver)) as Hc. unfold converted in Hc.
  destruct (convertConstraint c) as [e|p]; simpl; [by rewrite Hc|]. destruct Hc as [-> Hp].
  specialize (IH ltac:(set_solver)). destruct (convertConstraints cs) as [e|ps]; simpl; [done|].
  destruct IH as [-> Hps]. split; [done|]. intros o. simpl. by rewrite Hp, Hps.
Qed.

Lemma forallb_fmap {A} (f : A -> bool) l : forallb f l = forallb id (f <$> l).
Proof. induction l as [|x l IH]; simpl; [done|]. by rewrite IH. Qed.
Lemma existsb_fmap {A} (f : A -> bool) l : existsb f l = existsb id (f <$> l).
Proof. induction l as [|x l IH]; simpl; [done|]. by rewrite IH. Qed.

Lemma convertConstraint_converted c : converted c.
Proof.
  induction c as [msg g p oall oany onot cel Hall Hany Hnot] using OLMConstraint_ind'. unfold converted.
  destruct g as [g|]; [by simpl|]. destruct p as [p|].
  { simpl. unfold newPackageRequiredPredicate. destruct (ParseRange (ReqVersionRange p)); simpl; [|done].
    split; [done|]. intros o. by rewrite andb_true_r. }
  destruct oall as [cs|].
  { pose proof (convertConstraints_ok cs ltac:(by apply Forall_forall)) as Hcs.
    change (match ps ← convertConstraints cs; inr (andPredicate ps) with
      | inr p => forallb convertible cs = true /\ (forall o, meaning p o = forallb (fun c => asks c o) cs)
      | inl _ => forallb convertible cs = false end).
    destruct (convertConstraints cs); simpl; [done|]. destruct Hcs as [? Hcs]. split; [done|].
    intros o. by rewrite forallb_fmap, Hcs, <- forallb_fmap. }
  destruct oany as [cs|].
  { pose proof (convertConstraints_ok cs ltac:(by apply Forall_forall)) as Hcs.
    change (match ps ← convertConstraints cs; inr (orPredicate ps) with
      | inr p => forallb convertible cs = true /\ (forall o, meaning p o = existsb (fun c => asks c o) cs)
      | inl _ => forallb convertible cs = false end).
    destruct (convertConstraints cs); simpl; [done|]. destruct Hcs as [? Hcs]. split; [done|].
    intros o. by rewrite existsb_fmap, Hcs, <- existsb_fmap. }
  destruct onot as [cs|].
  { pose proof (convertConstraints_ok cs ltac:(by apply Forall_forall)) as Hcs.
    change (match ps ← convertConstraints cs; inr (notPredicate ps) with
      | inr p => forallb convertible cs = true /\ (forall o, meaning p o = negb (existsb (fun c => asks c o) cs))
      | inl _ => forallb convertible cs = false end).
    destruct (convertConstraints cs); simpl; [done|]. destruct Hcs as [? Hcs]. split; [done|].
    intros o. by rewrite <- forallb_negb_existsb, existsb_fmap, Hcs, <- existsb_fmap. }
  destruct cel as [rule|]; simpl; [|done]. destruct (celValidate rule) as [prog|]; simpl; [|done].
  split; [done|]. intros o. case_bool_decide as E; [by rewrite E|]. by destruct (celEvaluate _ _) as [[]|].
Qed.
End converted.

(** The predicate of a converted constraint accepts exactly the entries that the constraint asks for, a
    boolean combination of its parts (all, any, none of), and the conversion fails exactly when a part
    it looks at is empty or has a bad version range or rule. *)
Theorem convertConstraint_meaning `{ResolverLib} (c : OLMConstraint) :
  match convertConstraint c with
  | inr p => convertible c = true /\
      forall o s, is_Some (e_SourceInfo o) -> exists s', Test p o s = Some (asks c o, s')
  | inl _ => convertible c = false
  end.
Proof.
  pose proof (convertConstraint_converted c) as Hc. unfold converted in Hc.
  destruct (convertConstraint c) as [e|p]; [done|]. destruct Hc as [Hc Hp]. split; [done|].
  intros o s Ho. rewrite <- Hp. by apply Test_meaning.
Qed.

(** ** One provider per package and API *)

Lemma submseteq_filter {A} (P : A -> Prop) `{!forall x, Decision (P x)} l1 l2 : l1 ⊆+ l2 -> filter P l1 ⊆+ filter P l2.
Proof. intros [k ->]%submseteq_Permutation. rewrite filter_app. by apply submseteq_inserts_r. Qed.

Section appended.
Context {K : Type} `{Countable K} {V : Type} (idOf : V -> Identifier) (keysOf : V -> list K).

(** The identifiers collected under a key, one per occurrence of the key. *)
Definition collected (vs : list V) (k : K) : list Identifier :=
  flat_map (fun v => (fun _ => idOf v) <$> filter (fun k' => k' = k) (keysOf v)) vs.

Lemma foldl_appendTo id (m : gmap K (list Identifier)) (ks : list K) (k : K) :
  default [] (foldl (appendTo id) m ks !! k) = default [] (m !! k) ++ ((fun _ => id) <$> filter (fun k' => k' = k) ks).
Proof.
  revert m. induction ks as [|k' ks IH]; intros m; simpl; [by rewrite app_nil_r|]. rewrite IH, filter_cons. unfold appendTo.
  destruct (decide (k' = k)) as [->|Hne].
  - rewrite lookup_insert_eq. simpl. by rewrite <- app_assoc.
  - by rewrite lookup_insert_ne.
Qed.

Lemma foldl_collected vs k :
  default [] (foldl (fun m v => foldl (appendTo (idOf v)) m (keysOf v)) (∅ : gmap K (list Identifier)) vs !! k) = collected vs k.
Proof.
  induction vs as [|v vs IH] using rev_ind; [by simpl; rewrite lookup_empty|].
  rewrite foldl_app. simpl. rewrite foldl_appendTo, IH. unfold collected. rewrite flat_map_app. simpl. by rewrite app_nil_r.
Qed.

Lemma foldl_appendTo_origin id (m : gmap K (list Identifier)) (ks : list K) (k : K) :
  is_Some (foldl (appendTo id) m ks !! k) -> is_Some (m !! k) \/ k ∈ ks.
Proof.
  revert m. induction ks as [|k' ks IH]; intros m; simpl; [by left|]. intros [Hk|Hk]%IH; [|right; set_solver].
  unfold appendTo in Hk. apply lookup_insert_is_Some in Hk as [->|[_ Hk]]; [right; set_solver|by left].
Qed.

(** Every key of the collection comes from a variable. *)
Lemma foldl_origin vs (k : K) :
  is_Some (foldl (fun m v => foldl (appendTo (idOf v)) m (keysOf v)) (∅ : gmap K (list Identifier)) vs !! k) ->
  exists v, v ∈ vs /\ k ∈ keysOf v.
Proof.
  induction vs as [|v vs IH] using rev_ind; [by intros [? ?]|]. rewrite foldl_app. simpl.
  intros [(v' & ? & ?)%IH|Hk]%foldl_appendTo_origin; [exists v'|exists v]; set_solver.
Qed.

Lemma collected_elem_of vs k v : v ∈ vs -> k ∈ keysOf v -> idOf v ∈ collected vs k.
Proof.
  intros Hv Hk. apply elem_of_flat_map. exists v. split; [done|]. apply list_elem_of_fmap.
  exists k. split; [done|]. by apply list_elem_of_filter.
Qed.

(** A variable that lists a key twice is collected twice. *)
Lemma collected_twice vs k v : v ∈ vs -> [k; k] ⊆+ keysOf v -> [idOf v; idOf v] ⊆+ collected vs k.
Proof.
  intros (l1 & l2 & ->)%list_elem_of_split Hk. unfold collected. rewrite flat_map_app. simpl.
  apply submseteq_inserts_l, submseteq_inserts_r. apply (submseteq_filter (fun k' => k' = k)) in Hk.
  rewrite !filter_cons, !decide_True, filter_nil in Hk by done.
  by apply (fmap_submseteq (fun _ => idOf v)) in Hk.
Qed.
End appended.

Section invariants.
Context `{ResolverLib, RangeOrder, SortLib}.
Implicit Types (v : ResolverVariable) (X : Identifier -> bool) (m : gmap Identifier ResolverVariable).

(** The packages and APIs of the entry a bundle variable stands for. *)
Definition packagesOf (snapshots : Snapshots) v : list string := PackageName <$> variableProps snapshots PackageType decPackageProperty v.
Definition gvksOf (snapshots : Snapshots) v : list (string * string * string) := gvkKey <$> variableProps snapshots GVKType decGVKProperty v.

Lemma two_of (X : Identifier -> bool) i j l :
  [i; j] ⊆+ l -> X i = true -> X j = true -> (2 <= length (filter (fun id => X id = true) l))%nat.
Proof.
  intros Hl Hi Hj. apply (submseteq_filter (fun id => X id = true)), submseteq_length in Hl.
  by rewrite !filter_cons, !decide_True, filter_nil in Hl by done.
Qed.

Lemma submseteq_two {A} (i j : A) l : i ∈ l -> j ∈ l -> i <> j -> [i; j] ⊆+ l.
Proof.
  intros Hi Hj Hne. apply NoDup_submseteq; [|set_solver].
  apply NoDup_cons. split; [set_solver|apply NoDup_singleton].
Qed.

(** What the two kinds of invariant variables have in common. *)
Definition at_most_one v (providers : list Identifier) : Prop :=
  (2 <= length providers)%nat -> exists msg, prettyConstraint (leq providers 1) msg ∈ rv_Constraints v.

Lemma at_most_one_solution v l (vs : list SVariable) X i j :
  at_most_one v (sortIds l) -> toVariable v ∈ vs -> solution vs X -> [i; j] ⊆+ l -> X i = true -> X j = true -> False.
Proof.
  intros Hone Hv Hsol Hij Hi Hj.
  assert ([i; j] ⊆+ sortIds l) as Hs by (unfold sortIds; by rewrite merge_sort_Permutation).
  destruct Hone as [msg Hk]; [by apply submseteq_length in Hs|].
  pose proof (Hsol _ _ Hv Hk) as Hsat. simpl in Hsat. pose proof (two_of X i j _ Hs Hi Hj). lia.
Qed.

Lemma at_most_one_api g ver k ps : at_most_one (NewSingleAPIProviderVariable g ver k ps) ps.
Proof.
  intros Hl. unfold NewSingleAPIProviderVariable. simpl. rewrite (proj2 (Nat.leb_gt _ _)) by lia. eexists. right. left.
Qed.
Lemma at_most_one_package pkg ps : at_most_one (NewSinglePackageInstanceVariable pkg ps) ps.
Proof.
  intros Hl. unfold NewSinglePackageInstanceVariable. simpl. rewrite (proj2 (Nat.leb_gt _ _)) by lia. eexists. right. left.
Qed.

(** A loop of insertions keeps what it inserts unless a later one has the same identifier. *)
Lemma foldl_insert_last {B} (f : B -> ResolverVariable) (bs : list B) m b :
  b ∈ bs -> (forall b', b' ∈ bs -> rv_Identifier (f b') = rv_Identifier (f b) -> f b' = f b) ->
  foldl (fun m b => insertVar m (f b)) m bs !! rv_Identifier (f b) = Some (f b).
Proof.
  induction bs as [|b' bs IH] using rev_ind; [by intros ?%elem_of_nil|]. rewrite foldl_app. simpl.
  intros [Hb| ->%list_elem_of_singleton]%elem_of_app Hinj; unfold insertVar; [|by rewrite lookup_insert_eq].
  destruct (decide (rv_Identifier (f b') = rv_Identifier (f b))) as [E|Hne].
  - rewrite E, lookup_insert_eq. f_equal. apply Hinj; [set_solver|done].
  - rewrite lookup_insert_ne by done. apply IH; [done|]. intros b'' ?. apply Hinj. set_solver.
Qed.

Lemma foldl_insert_other {B} (f : B -> ResolverVariable) (bs : list B) m id :
  (forall b, b ∈ bs -> rv_Identifier (f b) <> id) -> foldl (fun m b => insertVar m (f b)) m bs !! id = m !! id.
Proof.
  induction bs as [|b bs IH] using rev_ind; [done|]. intros Hb. rewrite foldl_app. simpl. unfold insertVar.
  rewrite lookup_insert_ne by (apply Hb; set_solver). apply IH. set_solver.
Qed.

(** Kinds and packages without spaces, groups without slashes: then the printed API is unambiguous
    and is not the name of a package. *)
Definition plain_names (snapshots : Snapshots) (vs : list ResolverVariable) : Prop :=
  (forall v g ver k, v ∈ vs -> (g, ver, k) ∈ gvksOf snapshots v -> HasByte " "%char k = false /\ no_slash g) /\
  (forall v pkg, v ∈ vs -> pkg ∈ packagesOf snapshots v -> HasByte " "%char pkg = false).

Lemma gvkID_parts g ver k : gvkID g ver k = k +:+ String " "%char (("(" +:+ g) +:+ String slash (ver +:+ ")")).
Proof. done. Qed.

Lemma gvkID_inj g ver k g' ver' k' :
  HasByte " "%char k = false -> HasByte " "%char k' = false -> no_slash g -> no_slash g' ->
  gvkID g ver k = gvkID g' ver' k' -> (g, ver, k) = (g', ver', k').
Proof.
  intros Hk Hk' Hg Hg'. rewrite !gvkID_parts. intros E.
  apply (f_equal (Cut " "%char)) in E. rewrite !Cut_app in E by done. injection E as -> E.
  change ("" +:+ g) with g in E. change ("" +:+ g') with g' in E.
  apply (f_equal (Cut slash)) in E. rewrite !(Cut_app slash) in E by done.
  injection E as -> E. assert (String.length ver = String.length ver') as El.
  { apply (f_equal String.length) in E. rewrite !str_length_app in E. simpl in E. lia. }
  by destruct (str_app_inj_len ver ")" ver' ")" El E) as [-> _].
Qed.

Lemma gvkID_space g ver k : HasByte " "%char (gvkID g ver k) = true.
Proof. unfold gvkID. rewrite !HasByte_app. simpl. by rewrite orb_true_r. Qed.

Lemma packageConflicts_lookup snapshots vs pkg ids :
  packageConflicts snapshots vs !! pkg = Some ids -> ids = collected rv_Identifier (packagesOf snapshots) vs pkg.
Proof.
  intros E. pose proof (foldl_collected rv_Identifier (packagesOf snapshots) vs pkg) as Hc.
  unfold packageConflicts, packagesOf in *. by rewrite E in Hc.
Qed.
Lemma gvkConflicts_lookup snapshots vs gvk ids :
  gvkConflicts snapshots vs !! gvk = Some ids -> ids = collected rv_Identifier (gvksOf snapshots) vs gvk.
Proof.
  intros E. pose proof (foldl_collected rv_Identifier (gvksOf snapshots) vs gvk) as Hc.
  unfold gvkConflicts, gvksOf in *. by rewrite E in Hc.
Qed.
Lemma default_cons_Some {A} (o : option (list A)) i l : i ∈ l -> default [] o = l -> o = Some l.
Proof. destruct o; simpl; [by intros _ ->|]. by intros Hl%elem_of_not_nil <-. Qed.

(** The variable of a package is in the result with all its providers. *)
Lemma addInvariants_package snapshots m pkg i :
  let l := collected rv_Identifier (packagesOf snapshots) (range m).*2 pkg in
  i ∈ l -> addInvariants snapshots m !! pkg = Some (packageVariable (pkg, l)).
Proof.
  intros l Hl. unfold addInvariants.
  assert (packageConflicts snapshots (range m).*2 !! pkg = Some l) as Hp.
  { eapply default_cons_Some; [done|]. apply foldl_collected. }
  change pkg with (rv_Identifier (packageVariable (pkg, l))) at 1. apply foldl_insert_last; [by apply elem_of_range|].
  intros [pkg' l'] Hp'%elem_of_range Epkg. simpl in Epkg. subst pkg'. congruence.
Qed.

(** So is the variable of an API, when names are plain. *)
Lemma addInvariants_gvk snapshots m g ver k i :
  plain_names snapshots (range m).*2 ->
  let l := collected rv_Identifier (gvksOf snapshots) (range m).*2 (g, ver, k) in
  i ∈ l -> addInvariants snapshots m !! gvkID g ver k = Some (apiVariable ((g, ver, k), l)).
Proof.
  intros [Hgvk Hpkg] l Hl. unfold addInvariants.
  assert (gvkConflicts snapshots (range m).*2 !! (g, ver, k) = Some l) as Hp.
  { eapply default_cons_Some; [done|]. apply foldl_collected. }
  rewrite foldl_insert_other.
  - change (gvkID g ver k) with (rv_Identifier (apiVariable ((g, ver, k), l))). apply foldl_insert_last; [by apply elem_of_range|].
    intros [[[g' ver'] k'] l'] Hp'%elem_of_range E. simpl in E.
    destruct (foldl_origin rv_Identifier (gvksOf snapshots) (range m).*2 (g, ver, k)) as (v & Hv & Hvk); [by eexists|].
    destruct (foldl_origin rv_Identifier (gvksOf snapshots) (range m).*2 (g', ver', k')) as (v' & Hv' & Hvk'); [by eexists|].
    destruct (Hgvk _ _ _ _ Hv Hvk), (Hgvk _ _ _ _ Hv' Hvk').
    apply gvkID_inj in E as [= -> -> ->]; [|done..]. congruence.
  - intros [pkg ids] Hp'%elem_of_range E. simpl in E. subst pkg.
    destruct (foldl_origin rv_Identifier (packagesOf snapshots) (range m).*2 (gvkID g ver k)) as (v & Hv & Hvk); [by eexists|].
    specialize (Hpkg _ _ Hv Hvk). rewrite gvkID_space in Hpkg. done.
Qed.

Lemma solution_at snapshots m X id v :
  solution (toVariable <$> (range (addInvariants snapshots m)).*2) X -> addInvariants snapshots m !! id = Some v ->
  toVariable v ∈ toVariable <$> (range (addInvariants snapshots m)).*2.
Proof. intros _ Hv. apply list_elem_of_fmap_2, elem_of_range_vals. eauto. Qed.
End invariants.

Lemma addInvariants_excludes `{ResolverLib, RangeOrder, SortLib} (snapshots : Snapshots)
    (variables : gmap Identifier ResolverVariable) (X : Identifier -> bool) (v1 v2 : ResolverVariable) :
  solution (toVariable <$> (range (addInvariants snapshots variables)).*2) X ->
  v1 ∈ (range variables).*2 -> v2 ∈ (range variables).*2 -> rv_Identifier v1 <> rv_Identifier v2 ->
  X (rv_Identifier v1) = true -> X (rv_Identifier v2) = true ->
  (forall pkg, pkg ∈ packagesOf snapshots v1 -> pkg ∉ packagesOf snapshots v2) /\
  (plain_names snapshots (range variables).*2 ->
   forall gvk, gvk ∈ gvksOf snapshots v1 -> gvk ∉ gvksOf snapshots v2).
Proof.
  intros Hsol Hv1 Hv2 Hne HX1 HX2. split.
  - intros pkg Hp1 Hp2. set (l := collected rv_Identifier (packagesOf snapshots) (range variables).*2 pkg).
    assert ([rv_Identifier v1; rv_Identifier v2] ⊆+ l) as Hl.
    { apply submseteq_two; [by apply collected_elem_of..|done]. }
    eapply (at_most_one_solution (packageVariable (pkg, l)) l); [apply at_most_one_package| |exact Hsol|exact Hl|done|done].
    eapply solution_at; [done|]. by eapply addInvariants_package, collected_elem_of.
  - intros Hplain [[g ver] k] Hp1 Hp2. set (l := collected rv_Identifier (gvksOf snapshots) (range variables).*2 (g, ver, k)).
    assert ([rv_Identifier v1; rv_Identifier v2] ⊆+ l) as Hl.
    { apply submseteq_two; [by apply collected_elem_of..|done]. }
    eapply (at_most_one_solution (apiVariable ((g, ver, k), l)) l); [apply at_most_one_api| |exact Hsol|exact Hl|done|done].
    eapply solution_at; [done|]. by eapply (addInvariants_gvk _ _ _ _ _ _ Hplain), collected_elem_of.
Qed.

(** In every solution of the variables that [addInvariants] returns, no two of the selected bundles
    have a package in common, and no two provide the same API when names are plain (an API is
    identified by its printed form, which a package name could otherwise take). *)
Theorem addInvariants_exclusive `{ResolverLib, RangeOrder, SortLib} (snapshots : Snapshots)
    (variables : gmap Identifier ResolverVariable) (X : Identifier -> bool) (v1 v2 : ResolverVariable) :
  solution (toVariable <$> (range (addInvariants snapshots variables)).*2) X ->
  v1 ∈ (range variables).*2 -> v2 ∈ (range variables).*2 -> rv_Identifier v1 <> rv_Identifier v2 ->
  X (rv_Identifier v1) = true -> X (rv_Identifier v2) = true ->
  (forall pkg, pkg ∈ packagesOf snapshots v1 -> pkg ∉ packagesOf snapshots v2) /\
  (plain_names snapshots (range variables).*2 ->
   forall gvk, gvk ∈ gvksOf snapshots v1 -> gvk ∉ gvksOf snapshots v2).
Proof. apply addInvariants_excludes. Qed.

(** A bundle whose entry lists its package twice counts as two providers of it: no solution selects it. *)
Theorem duplicate_package_excluded `{ResolverLib, RangeOrder, SortLib} (snapshots : Snapshots)
    (variables : gmap Identifier ResolverVariable) (X : Identifier -> bool) (v : ResolverVariable) (pkg : string) :
  solution (toVariable <$> (range (addInvariants snapshots variables)).*2) X ->
  v ∈ (range variables).*2 -> [pkg; pkg] ⊆+ packagesOf snapshots v -> X (rv_Identifier v) = false.
Proof.
  intros Hsol Hv Hp. apply not_true_iff_false. intros HX.
  set (l := collected rv_Identifier (packagesOf snapshots) (range variables).*2 pkg).
  assert (pkg ∈ packagesOf snapshots v) as Hin.
  { eapply elem_of_submseteq; [|exact Hp]. left. }
  eapply (at_most_one_solution (packageVariable (pkg, l)) l);
    [apply at_most_one_package| |exact Hsol|by apply collected_twice|done|done].
  eapply solution_at; [done|]. by eapply addInvariants_package, collected_elem_of.
Qed.

(** *** A catalog with two packages *)

Definition demo_pkg_entry (addr : nat) (name pkg : string) : @Entry demo_semver :=
  @mkEntry demo_semver addr name "" [] None ∅ ∅ (Some name)
    (Some (mkSourceInfo pkg "stable" "" (mkKey "community" "olm") true None None)) [mkProperty PackageType (pkg +:+ "@" +:+ name)] "" None.

Definition demo_catalog : @Snapshots demo_semver :=
  {[mkKey "community" "olm" := @mkHeader demo_semver (mkKey "community" "olm")
      (Some [demo_pkg_entry 1 "a1" "a"; demo_pkg_entry 2 "a2" "a"; demo_pkg_entry 3 "b1" "b"]) false 0]}.

Definition demo_var (name : string) : ResolverVariable :=
  BundleVar (mkBundleVariable (bundleID name "stable" (mkKey "community" "olm")) [] "").
Definition demo_vars : gmap Identifier ResolverVariable :=
  list_to_map ((fun n => (rv_Identifier (demo_var n), demo_var n)) <$> ["a1"; "a2"; "b1"]).
Definition demo_result : list SVariable :=
  toVariable <$> (@range canonical_order _ _ _ _
    (@addInvariants demo_semver demo_lib canonical_order insertion_sort_lib demo_catalog demo_vars)).*2.

(** The selection of the package variable and of one bundle per package. *)
Definition demo_selection (id : Identifier) : bool :=
  existsb (fun id' => bool_decide (id = id')) ["a"; rv_Identifier (demo_var "a1"); rv_Identifier (demo_var "b1")].

Fixpoint satb (X : Identifier -> bool) (subject : Identifier) (k : Constraint) : bool :=
  match k with
  | zeroConstraint => true
  | mandatory => X subject
  | prohibited => negb (X subject)
  | dependency ids => negb (X subject) || existsb X ids
  | conflict id => negb (X subject && X id)
  | leq ids n => (Z.of_nat (length (filter (fun id => X id = true) ids)) <=? n)%Z
  | prettyConstraint k _ => satb X subject k
  end.

Lemma satb_sat X subject k : satb X subject k = true -> sat X subject k.
Proof.
  induction k as [| | |ids|id|ids n|k IH msg]; simpl; try done.
  - by intros ?%negb_true_iff.
  - intros [E|E]%orb_true_iff; [rewrite negb_true_iff in E; congruence|].
    intros _. apply existsb_elem_of in E. naive_solver.
  - intros E [E1 E2]. by rewrite E1, E2 in E.
  - by intros ?%Z.leb_le.
Qed.

(** Solutions can be checked. *)
Lemma solution_check vs X :
  forallb (fun v => forallb (satb X (v_Identifier v)) (v_Constraints v)) vs = true -> solution vs X.
Proof.
  intros E v k Hv Hk. apply satb_sat. rewrite forallb_elem_of in E. specialize (E v Hv).
  rewrite forallb_elem_of in E. by apply E.
Qed.

Lemma addInvariants_exclusive_witness :
  (forall pkg, pkg ∈ @packagesOf demo_semver demo_lib canonical_order insertion_sort_lib demo_catalog (demo_var "a1") ->
     pkg ∉ @packagesOf demo_semver demo_lib canonical_order insertion_sort_lib demo_catalog (demo_var "b1")) /\
  demo_selection (rv_Identifier (demo_var "a1")) = true /\ demo_selection (rv_Identifier (demo_var "b1")) = true.
Proof.
  split; [|split; reflexivity].
  apply (@addInvariants_exclusive demo_semver demo_lib canonical_order insertion_sort_lib demo_catalog demo_vars
    demo_selection (demo_var "a1") (demo_var "b1")).
  - apply solution_check. vm_compute. reflexivity.
  - apply elem_of_range_vals. exists (rv_Identifier (demo_var "a1")). vm_compute. reflexivity.
  - apply elem_of_range_vals. exists (rv_Identifier (demo_var "b1")). vm_compute. reflexivity.
  - by apply (bool_decide_unpack _); vm_compute.
  - reflexivity.
  - reflexivity.
Defined.

(** A bundle with its package listed twice, alone in its catalog. *)
Definition demo_twice : @Entry demo_semver :=
  @mkEntry demo_semver 1 "d1" "" [] None ∅ ∅ (Some "d1")
    (Some (mkSourceInfo "d" "stable" "" (mkKey "community" "olm") true None None))
    [mkProperty PackageType "d@d1"; mkProperty PackageType "d@d1"] "" None.
Definition demo_twice_catalog : @Snapshots demo_semver :=
  {[mkKey "community" "olm" := @mkHeader demo_semver (mkKey "community" "olm") (Some [demo_twice]) false 0]}.
Definition demo_twice_vars : gmap Identifier ResolverVariable := {[rv_Identifier (demo_var "d1") := demo_var "d1"]}.

Definition demo_twice_selection (id : Identifier) : bool := String.eqb "d" id.

Lemma duplicate_package_excluded_witness : demo_twice_selection (rv_Identifier (demo_var "d1")) = false.
Proof.
  apply (@duplicate_package_excluded demo_semver demo_lib canonical_order insertion_sort_lib demo_twice_catalog demo_twice_vars
    demo_twice_selection (demo_var "d1") "d").
  - apply solution_check. vm_compute. reflexivity.
  - apply elem_of_range_vals. exists (rv_Identifier (demo_var "d1")). vm_compute. reflexivity.
  - vm_compute. reflexivity.
Defined.
