(* ===== verification/ResolverResolve.v ===== *)
(** * Resolution

    Models [Resolve], [getSubscriptionVariables], [getBundleVariables], [newBundleVariableFromEntry] and
    [sortBundles] of [pkg/controller/registry/resolver/resolver.go].  Bundle variables are
    shared and mutated (the map of visited entries outlives a call, candidates of a subscription
    get conflicts and a replacement later), so they live in a heap and maps hold pointers. *)

From S2P Require Import Prelude GoStrings CatalogModel SatInterface SatDemo LitMapping ChoiceDeque SolverSearch SolverSolve.
From S2P Require Import ResolverCache ResolverSort ResolverVariables.

#[export] Instance outcome_ret : MRet outcome := fun A x => Done x.
#[export] Instance outcome_bind : MBind outcome :=
  fun A B f c => match c with Done x => f x | Panic => Panic | OutOfFuel => OutOfFuel end.

(** A computation that panics on [None]. *)
Definition orPanic {A} (o : option A) : outcome A := match o with Some x => Done x | None => Panic end.

(** A loop whose body can panic. *)
Fixpoint foldO {A B} (f : A -> B -> outcome A) (acc : A) (xs : list B) : outcome A :=
  match xs with [] => Done acc | x :: xs => acc ← f acc x; foldO f acc xs end.

(** [sort.SliceStable]: on a strict weak order a stable sort has one result. *)
Definition SliceStable {A} (less : A -> A -> bool) (l : list A) : list A := insertionSort less l.

Inductive resolveError :=
  | NoNamespace
  | MultipleMatches (namespace sub : string) (names : list string)
  | NoSource (bundle : string)
  | SystemConstraintError (bundle : string)
  | ConvertError (e : convError)
  | SortError (e : sortError)
  | NoBundles (pkg : string)
  | OriginError (id : Identifier)
  | NotExactlyOne (n : nat)
  | CacheError (keys : list SourceKey)
  | DuplicateIdentifier (id : Identifier)
  | SolverError (r : solveResult)
  | Aggregate (errs : list resolveError).

(** The fields of a Subscription that resolution reads. *)
Record Subscription := mkSub {
  sub_Name : string; sub_Namespace : string; sub_Package : string; sub_Channel : string;
  sub_CatalogSource : string; sub_CatalogSourceNamespace : string; sub_StartingCSV : string; sub_InstalledCSV : string
}.

#[export] Instance Deprecations_eq_dec : EqDecision Deprecations.
Proof. solve_decision. Defined.
#[export] Instance OperatorSourceInfo_eq_dec : EqDecision OperatorSourceInfo.
Proof. solve_decision. Defined.

(** ** Ordering bundles *)

(** [PackageChannel]: package, channel, default. *)
Definition PackageChannel : Type := string * string * bool.
Definition packageChannelLess (pi pj : PackageChannel) : bool :=
  let '(pkgi, chi, defi) := pi in
  let '(pkgj, chj, defj) := pj in
  if negb (Bool.eqb defi defj) then defi
  else if negb (bool_decide (pkgi = pkgj)) then String.ltb pkgi pkgj
  else String.ltb chi chj.

Section sort_bundles.
Context `{SemverLib, RangeOrder}.

Record partition := mkPartition {
  catalogOrder : list SourceKey;
  channelOrder : gmap SourceKey (list PackageChannel);
  partitionedBundles : gmap SourceKey (gmap PackageChannel (list Entry))
}.

(** The body of the first loop; [None] is an entry without source info. *)
Definition addToPartition (t : partition) (b : Entry) : outcome partition :=
  si ← orPanic (e_SourceInfo b);
  let pc : PackageChannel := (Entry_Package b, Entry_Channel b, si_DefaultChannel si) in
  let cat := si_Catalog si in
  let t := match partitionedBundles t !! cat with
    | Some _ => t
    | None => mkPartition (catalogOrder t ++ [cat]) (channelOrder t) (<[cat := ∅]> (partitionedBundles t))
    end in
  let groups := default ∅ (partitionedBundles t !! cat) in
  let '(order, groups) := match groups !! pc with
    | Some _ => (channelOrder t, groups)
    | None => (<[cat := default [] (channelOrder t !! cat) ++ [pc]]> (channelOrder t), <[pc := []]> groups)
    end in
  Done (mkPartition (catalogOrder t) order
    (<[cat := <[pc := default [] (groups !! pc) ++ [b]]> groups]> (partitionedBundles t))).

(** [for channel := range partitionedBundles[catalog] { ... }] *)
Definition sortGroups (groups : gmap PackageChannel (list Entry)) : sortError + gmap PackageChannel (list Entry) :=
  foldE (fun m e => sorted ← sortChannel e.2; inr (<[e.1 := sorted]> m)) groups (range groups).

(** [for catalog := range partitionedBundles { ... }] *)
Definition sortCatalogs (t : partition) : sortError + partition :=
  foldE (fun t e =>
    let order := <[e.1 := SliceStable packageChannelLess (default [] (channelOrder t !! e.1))]> (channelOrder t) in
    groups ← sortGroups e.2;
    inr (mkPartition (catalogOrder t) order (<[e.1 := groups]> (partitionedBundles t)))) t (range (partitionedBundles t)).

(** The last loop. *)
Definition flatten (t : partition) : list Entry :=
  flat_map (fun cat => flat_map (fun pc => default [] (default ∅ (partitionedBundles t !! cat) !! pc))
    (default [] (channelOrder t !! cat))) (catalogOrder t).

Definition sortBundles (bundles : list Entry) : outcome (sortError + list Entry) :=
  t ← foldO addToPartition (mkPartition [] ∅ ∅) bundles;
  Done (t ← sortCatalogs t; inr (flatten t)).
End sort_bundles.

(** ** Variables of bundles *)

(** The heap of bundle variables, a pointer being an index, and the map of visited entries. *)
Record rstate := mkState { st_heap : list BundleVariable; st_visited : gmap nat nat }.

Definition alloc (st : rstate) (b : BundleVariable) : rstate * nat :=
  (mkState (st_heap st ++ [b]) (st_visited st), length (st_heap st)).
Definition update (st : rstate) (p : nat) (f : BundleVariable -> BundleVariable) : rstate :=
  mkState (alter f p (st_heap st)) (st_visited st).

Section resolve.
Context `{ResolverLib, ConstraintDecoder, RangeOrder, SortLib}.

(** [r.systemConstraintsProvider], when there is one. *)
Context (systemConstraints : option (Entry -> option (list Constraint))).

Definition newBundleVariableFromEntry (entry : Entry) : resolveError + BundleVariable :=
  match NewBundleVariableFromOperator entry with
  | inl name => inl (NoSource name)
  | inr b =>
      match systemConstraints, e_SourceInfo entry with
      | Some provider, Some si =>
          if negb (Virtual (si_Catalog si)) then
            match provider entry with
            | None => inl (SystemConstraintError (e_Name entry))
            | Some cs => inr (mkBundleVariable (bv_identifier b) (bv_constraints b ++ cs) (bv_Replaces b))
            end
          else inr b
      | _, _ => inr b
      end
  end.

(** The filter for the sources of a dependency's candidates. *)
Fixpoint sourceFilter (bs : list Entry) (sources : list OperatorSourceInfo) (p : Predicate) : outcome Predicate :=
  match bs with
  | [] => Done p
  | b :: bs =>
      si ← orPanic (e_SourceInfo b);
      if bool_decide (si ∈ sources) then sourceFilter bs sources p
      else
        let q := if Virtual (si_Catalog si)
          then andPredicate [csvNamePredicate (e_Name b); catalogPredicate (si_Catalog si)]
          else andPredicate [pkgPredicate (si_Package si); channelPredicate (si_Channel si); catalogPredicate (si_Catalog si)] in
        sourceFilter bs (si :: sources) (orPredicate [p; q])
  end.

(** The local state of [getBundleVariables]; the stack is listed from its top. *)
Record walk := mkWalk {
  w_st : rstate; w_variables : gmap Identifier nat; w_stack : list Entry; w_errs : list resolveError
}.
Definition addError (w : walk) (e : resolveError) : walk :=
  mkWalk (w_st w) (w_variables w) (w_stack w) (w_errs w ++ [e]).

(** The loop over the candidates of one dependency; the list is [bundleDependencies]. *)
Definition addCandidate (wd : walk * list Identifier) (b : Entry) : walk * list Identifier :=
  let '(w, deps) := wd in
  match newBundleVariableFromEntry b with
  | inl e => (addError w e, deps)
  | inr i =>
      let '(st, p) := alloc (w_st w) i in
      (mkWalk st (<[bv_identifier i := p]> (w_variables w)) (b :: w_stack w) (w_errs w), deps ++ [bv_identifier i])
  end.

(** The body of the loop over the dependency predicates of [bundle], whose variable is at [pb].  None
    of the predicates counts, so the counters of the finders start from anywhere. *)
Definition addDependency (snapshots : Snapshots) (preferredNamespace : string) (bundle : Entry) (catalog : SourceKey)
    (pb : nat) (w : walk) (d : Predicate) : outcome walk :=
  '(found, _) ← orPanic (Find snapshots [d] (fun _ => 0));
  sourcePredicate ← sourceFilter found [] (booleanPredicate false);
  '(preferred, _) ← orPanic (FindPreferred snapshots (Some catalog) preferredNamespace [sourcePredicate] (fun _ => 0));
  sorted ← sortBundles preferred;
  match sorted with
  | inl e => Done (addError w (SortError e))
  | inr sortedBundles =>
      '(candidates, _) ← orPanic (Filter sortedBundles [d] (fun _ => 0));
      let '(w, bundleDependencies) := foldl addCandidate (w, []) candidates in
      Done (mkWalk (update (w_st w) pb (fun v => AddConstraint v (prettyConstraint (dependency bundleDependencies)
              ("bundle " +:+ e_Name bundle +:+ " requires an operator " +:+ Predicate_String d))))
            (w_variables w) (w_stack w) (w_errs w))
  end.

(** One round: [bundle] is popped already. *)
Definition visitBundle (snapshots : Snapshots) (preferredNamespace : string) (w : walk) (bundle : Entry) : outcome walk :=
  match st_visited (w_st w) !! e_addr bundle with
  | Some p =>
      b ← orPanic (st_heap (w_st w) !! p);
      Done (mkWalk (w_st w) (<[bv_identifier b := p]> (w_variables w)) (w_stack w) (w_errs w))
  | None =>
      match newBundleVariableFromEntry bundle with
      | inl e => Done (addError w e)
      | inr b =>
          let '(st, pb) := alloc (w_st w) b in
          let st := mkState (st_heap st) (<[e_addr bundle := pb]> (st_visited st)) in
          let w := mkWalk st (w_variables w) (w_stack w) (w_errs w) in
          match convertDependencyProperties (e_Properties bundle) with
          | inl e => Done (addError w (ConvertError e))
          | inr dependencyPredicates =>
              si ← orPanic (e_SourceInfo bundle);
              w ← foldO (addDependency snapshots preferredNamespace bundle (si_Catalog si) pb) w dependencyPredicates;
              Done (mkWalk (w_st w) (<[bv_identifier b := pb]> (w_variables w)) (w_stack w) (w_errs w))
          end
      end
  end.

Fixpoint bundleLoop (fuel : nat) (snapshots : Snapshots) (preferredNamespace : string) (w : walk) : outcome walk :=
  match w_stack w with
  | [] => Done w
  | bundle :: stack =>
      match fuel with
      | 0 => OutOfFuel
      | S fuel =>
          w ← visitBundle snapshots preferredNamespace (mkWalk (w_st w) (w_variables w) stack (w_errs w)) bundle;
          bundleLoop fuel snapshots preferredNamespace w
      end
  end.

(** [visited[o].Identifier()] *)
Definition visitedIdentifier (st : rstate) (o : Entry) : option Identifier :=
  p ← st_visited st !! e_addr o; b ← st_heap st !! p; Some (bv_identifier b).

(** The state, which the caller shares, is returned on errors too. *)
Definition getBundleVariables (fuel : nat) (snapshots : Snapshots) (preferredNamespace : string) (bundleStack : list Entry)
    (st : rstate) : outcome (rstate * (resolveError + gset Identifier * gmap Identifier nat)) :=
  w ← bundleLoop fuel snapshots preferredNamespace (mkWalk st ∅ (reverse bundleStack) []);
  match w_errs w with
  | [] =>
      ids ← orPanic (mapM (visitedIdentifier (w_st w)) bundleStack);
      Done (w_st w, inr (list_to_set ids, w_variables w))
  | errs => Done (w_st w, inl (Aggregate errs))
  end.

(** ** Variables of subscriptions *)

(** The values of [variables]: pointers to bundle variables, or generic variables. *)
Inductive varRef := BundlePtr (p : nat) | GenericRef (id : Identifier) (ks : list Constraint).
Definition genericRef (v : ResolverVariable) : varRef := GenericRef (rv_Identifier v) (rv_Constraints v).

(** Counters 0 to 3 are [nall], [npkg], [nch] and [ncsv]. *)
Definition cachePredicate (sub : Subscription) (csvPredicate : Predicate) : Predicate :=
  andPredicate [countingPredicate (booleanPredicate true) 0; countingPredicate (pkgPredicate (sub_Package sub)) 1;
                countingPredicate (channelPredicate (sub_Channel sub)) 2; countingPredicate csvPredicate 3].

(** The [switch] on the counters. *)
Definition invalidReason (sub : Subscription) (s : Counters) : option string :=
  if (s 0 =? 0)%nat then
    Some ("no operators found from catalog " +:+ sub_CatalogSource sub +:+ " in namespace " +:+ sub_CatalogSourceNamespace sub
          +:+ " referenced by subscription " +:+ sub_Name sub)
  else if (s 1 =? 0)%nat then
    Some ("no operators found in package " +:+ sub_Package sub +:+ " in the catalog referenced by subscription " +:+ sub_Name sub)
  else if (s 2 =? 0)%nat then
    Some ("no operators found in channel " +:+ sub_Channel sub +:+ " of package " +:+ sub_Package sub
          +:+ " in the catalog referenced by subscription " +:+ sub_Name sub)
  else if (s 3 =? 0)%nat then
    Some ("no operators found with name " +:+ sub_StartingCSV sub +:+ " in channel " +:+ sub_Channel sub +:+ " of package "
          +:+ sub_Package sub +:+ " in the catalog referenced by subscription " +:+ sub_Name sub)
  else None.

(** Entries of the default channel first, then by channel name. *)
Definition entryLess (i j : Entry) : bool :=
  let '(idef, ichan) := match e_SourceInfo i with Some si => (si_DefaultChannel si, si_Channel si) | None => (false, "") end in
  let '(jdef, jchan) := match e_SourceInfo j with Some si => (si_DefaultChannel si, si_Channel si) | None => (false, "") end in
  if Bool.eqb idef jdef then String.ltb ichan jchan else idef.

(** The loop that sorts each run of entries with the same channel; [run] is [entries[lastIndex:i]]. *)
Fixpoint sortRuns (entries run : list Entry) (lastChannel : string) : sortError + list Entry :=
  match entries with
  | [] => sortChannel run
  | e :: entries =>
      if bool_decide (Entry_Channel e = lastChannel) then sortRuns entries (run ++ [e]) lastChannel
      else
        channel ← sortChannel run;
        rest ← sortRuns entries [e] (Entry_Channel e);
        inr (channel ++ rest)
  end.

(** The state of the loop over the candidates' entries. *)
Record candState := mkCand {
  c_st : rstate; c_variables : gmap Identifier varRef; c_candidates : list nat; c_counters : Counters
}.

(** [for _, i := range variable { ... }] *)
Definition addCandidateVar (ids : gset Identifier) (c : candState) (ip : Identifier * nat) : outcome candState :=
  i ← orPanic (st_heap (c_st c) !! ip.2);
  Done (mkCand (c_st c) (<[bv_identifier i := BundlePtr ip.2]> (c_variables c))
    (if bool_decide (bv_identifier i ∈ ids) then c_candidates c ++ [ip.2] else c_candidates c) (c_counters c)).
Definition addCandidates (ids : gset Identifier) (c : candState) (variable : gmap Identifier nat) : outcome candState :=
  foldO (addCandidateVar ids) c (range variable).

(** The body of the loop over the entries that can be installed; an error comes with the state. *)
Definition addUpgrade (fuel : nat) (snapshots : Snapshots) (sub : Subscription) (predicate : Predicate) (c : candState) (o : Entry) :
    outcome ((rstate * resolveError) + candState) :=
  '(stack, s) ← orPanic (CatalogFind snapshots (mkKey (sub_CatalogSource sub) (sub_CatalogSourceNamespace sub))
    [predicate; csvNamePredicate (e_Name o)] (c_counters c));
  '(st, r) ← getBundleVariables fuel snapshots (sub_Namespace sub) stack (c_st c);
  match r with
  | inl e => Done (inl (st, e))
  | inr (ids, variable) =>
      if bool_decide (ids = ∅) then Done (inl (st, NoBundles (sub_Package sub)))
      else c ← addCandidates ids (mkCand st (c_variables c) (c_candidates c) s) variable; Done (inr c)
  end.

Fixpoint addUpgrades (fuel : nat) (snapshots : Snapshots) (sub : Subscription) (predicate : Predicate) (c : candState) (os : list Entry) :
    outcome ((rstate * resolveError) + candState) :=
  match os with
  | [] => Done (inr c)
  | o :: os =>
      r ← addUpgrade fuel snapshots sub predicate c o;
      match r with inl e => Done (inl e) | inr c => addUpgrades fuel snapshots sub predicate c os end
  end.

(** The identifier of the installed operator's variable. *)
Definition currentID (sub : Subscription) (current : Entry) : Identifier :=
  bundleID (e_Name current) (Entry_Channel current) (NewVirtualSourceKey (sub_Namespace sub)).

(** [for _, c := range candidates { ... }]: what a candidate replaces and conflicts with. *)
Definition replaceCurrent (sub : Subscription) (current : Entry) (v : BundleVariable) : BundleVariable :=
  AddConflict (mkBundleVariable (bv_identifier v) (bv_constraints v) (e_Name current)) (currentID sub current).
Definition markCandidates (sub : Subscription) (current : option Entry) (st : rstate) (candidates : list nat) : rstate :=
  match current with
  | None => st
  | Some cur => foldl (fun st p => update st p (replaceCurrent sub cur)) st candidates
  end.

Definition getSubscriptionVariables (fuel : nat) (snapshots : Snapshots) (sub : Subscription) (current : option Entry) (st : rstate) :
    outcome (rstate * (resolveError + gmap Identifier varRef)) :=
  let catalog := mkKey (sub_CatalogSource sub) (sub_CatalogSourceNamespace sub) in
  '(channelPredicates, csvPredicate) ← match current with
    | Some cur =>
        ver ← orPanic (e_Version cur);
        Done ([orPredicate [skipRangeIncludesPredicate ver; replacesPredicate (e_Name cur)]], booleanPredicate true)
    | None => Done ([], if bool_decide (sub_StartingCSV sub = "") then booleanPredicate true
                        else csvNamePredicate (sub_StartingCSV sub))
    end;
  let predicate := cachePredicate sub csvPredicate in
  '(entries, s) ← orPanic (CatalogFind snapshots catalog [predicate] (fun _ => 0));
  match invalidReason sub s with
  | Some reason =>
      let si := NewInvalidSubscriptionVariable (sub_Name sub) reason in
      Done (st, inr {[rv_Identifier si := genericRef si]})
  | None =>
      match sortRuns (SliceStable entryLess entries) [] "" with
      | inl e => Done (st, inl (SortError e))
      | inr sortedBundles =>
          '(upgrades, s) ← orPanic (Filter sortedBundles channelPredicates s);
          r ← addUpgrades fuel snapshots sub predicate (mkCand st ∅ [] s) upgrades;
          match r with
          | inl (st, e) => Done (st, inl e)
          | inr c =>
              let st := markCandidates sub current (c_st c) (c_candidates c) in
              depIds ← orPanic (mapM (fun p => bv_identifier <$> st_heap st !! p) (c_candidates c));
              let depIds := depIds ++ match current with Some cur => [currentID sub cur] | None => [] end in
              let subVariable := NewSubscriptionVariable (sub_Name sub) depIds in
              Done (st, inr (<[rv_Identifier subVariable := genericRef subVariable]> (c_variables c)))
          end
      end
  end.

(** ** Resolve *)

(** The operator a subscription has installed. *)
Definition findCurrent (snapshots : Snapshots) (sub : Subscription) : outcome (resolveError + option Entry) :=
  '(matches, _) ← orPanic (CatalogFind snapshots (NewVirtualSourceKey (sub_Namespace sub))
    [csvNamePredicate (sub_InstalledCSV sub)] (fun _ => 0));
  Done match matches with
    | [] => inr None
    | [o] => inr (Some o)
    | _ => inl (MultipleMatches (sub_Namespace sub) (sub_Name sub) (e_Name <$> matches))
    end.

(** The variables of [Resolve] while it goes through the subscriptions. *)
Record resolution := mkRes {
  r_st : rstate; r_variables : gmap Identifier varRef; r_startingCSVs : gset string; r_errs : list resolveError
}.

(** [maps.Copy]-like loops [variables[i.Identifier()] = i]. *)
Definition addSubscription (fuel : nat) (snapshots : Snapshots) (r : resolution) (sub : Subscription) :
    outcome (resolveError + resolution) :=
  cur ← findCurrent snapshots sub;
  match cur with
  | inl e => Done (inl e)
  | inr current =>
      let starting := if bool_decide (current = None) && negb (bool_decide (sub_StartingCSV sub = ""))
        then {[sub_StartingCSV sub]} ∪ r_startingCSVs r else r_startingCSVs r in
      '(st, res) ← getSubscriptionVariables fuel snapshots sub current (r_st r);
      Done (inr match res with
        | inl e => mkRes st (r_variables r) starting (r_errs r ++ [e])
        | inr subVariables => mkRes st (subVariables ∪ r_variables r) starting (r_errs r)
        end)
  end.

Fixpoint addSubscriptions (fuel : nat) (snapshots : Snapshots) (r : resolution) (subs : list Subscription) :
    outcome (resolveError + resolution) :=
  match subs with
  | [] => Done (inr r)
  | sub :: subs =>
      x ← addSubscription fuel snapshots r sub;
      match x with inl e => Done (inl e) | inr r => addSubscriptions fuel snapshots r subs end
  end.

(** A variable as the solver gets it. *)
Definition deref (st : rstate) (v : varRef) : option ResolverVariable :=
  match v with
  | BundlePtr p => BundleVar <$> st_heap st !! p
  | GenericRef id ks => Some (GenericVar id ks)
  end.

(** The bundle variables among the solved ones that are not installed already. *)
Fixpoint operatorVariables (variables : gmap Identifier ResolverVariable) (solved : list SVariable) : resolveError + list BundleVariable :=
  match solved with
  | [] => inr []
  | v :: solved =>
      match variables !! v_Identifier v with
      | Some (BundleVar b) =>
          match BundleSourceInfo (bv_identifier b) with
          | None => inl (OriginError (bv_identifier b))
          | Some (_, _, catalog) =>
              rest ← operatorVariables variables solved;
              inr (if Virtual catalog then rest else b :: rest)
          end
      | _ => operatorVariables variables solved
      end
  end.

(** The copy of an entry that is returned, without its deprecations; nothing looks at its address, which is left. *)
Definition copyOperator (starting : gset string) (b : BundleVariable) (csvName : string) (op : Entry) : Entry :=
  mkEntry (e_addr op) (e_Name op) (if bool_decide (bv_Replaces b = "") then e_Replaces op else bv_Replaces b) (e_Skips op)
    (e_SkipRange op) (e_ProvidedAPIs op) (e_RequiredAPIs op) (e_Version op)
    ((fun si => mkSourceInfo (si_Package si) (si_Channel si)
        (if bool_decide (csvName ∈ starting) then csvName else si_StartingCSV si) (si_Catalog si) (si_DefaultChannel si)
        None (si_Subscription si)) <$> e_SourceInfo op)
    (e_Properties op) (e_BundlePath op) (e_Bundle op).

(** The loop over the operator variables, with its errors. *)
Definition addOperator (snapshots : Snapshots) (starting : gset string) (acc : list Entry * list resolveError) (b : BundleVariable) :
    outcome (list Entry * list resolveError) :=
  match BundleSourceInfo (bv_identifier b) with
  | None => Done (acc.1, acc.2 ++ [OriginError (bv_identifier b)])
  | Some (csvName, channel, catalog) =>
      '(found, _) ← orPanic (CatalogFind snapshots catalog [csvNamePredicate csvName; channelPredicate channel] (fun _ => 0));
      match ExactlyOne found with
      | inl n => Done (acc.1, acc.2 ++ [NotExactlyOne n])
      | inr op => _ ← orPanic (e_SourceInfo op); Done (acc.1 ++ [copyOperator starting b csvName op], acc.2)
      end
  end.

(** What follows the collection of the variables: solving and collecting the operators. *)
Definition solveVariables `{SatOps, DequeOps} (fuel : nat) (snapshots : Snapshots) (starting : gset string)
    (variables : gmap Identifier ResolverVariable) : outcome (resolveError + list Entry) :=
  match New (toVariable <$> (range variables).*2) with
  | inl id => Done (inl (DuplicateIdentifier id))
  | inr s =>
      '(_, r) ← Solve fuel s;
      match r with
      | Solved solvedVariables =>
          match operatorVariables variables solvedVariables with
          | inl e => Done (inl e)
          | inr bs =>
              '(operators, errs) ← foldO (addOperator snapshots starting) ([], []) bs;
              Done match errs with [] => inr operators | _ => inl (Aggregate errs) end
          end
      | r => Done (inl (SolverError r))
      end
  end.

(** [r.cache.Namespaced(namespaces...)] is the argument [snapshots]. *)
Definition Resolve `{SatOps, DequeOps} (fuel : nat) (snapshots : Snapshots) (namespaces : list string) (subs : list Subscription) :
    outcome (resolveError + list Entry) :=
  match namespaces with
  | [] => Done (inl NoNamespace)
  | preferredNamespace :: _ =>
      '(existing, _) ← orPanic (CatalogFind snapshots (NewVirtualSourceKey preferredNamespace) [booleanPredicate true] (fun _ => 0));
      '(st, res) ← getBundleVariables fuel snapshots preferredNamespace existing (mkState [] ∅);
      match res with
      | inl e => Done (inl e)
      | inr (_, existingVariables) =>
          x ← addSubscriptions fuel snapshots (mkRes st (BundlePtr <$> existingVariables) ∅ []) subs;
          match x with
          | inl e => Done (inl e)
          | inr r =>
              let variables := addInvariants snapshots (omap (deref (r_st r)) (r_variables r)) in
              match Cache_Error snapshots, r_errs r with
              | [], [] => solveVariables fuel snapshots (r_startingCSVs r) variables
              | [], errs => Done (inl (Aggregate errs))
              | keys, _ => Done (inl (CacheError keys))
              end
          end
      end
  end.
End resolve.
