(* ===== verification/ResolverSound.v ===== *)
(** * What a resolution guarantees

    Theorems about [Resolve] of ResolverResolve.v: the walk over the dependencies ends, and the operators it
    returns, with those already installed that it keeps, satisfy every subscription, have all
    their dependencies, and share no package. *)

From S2P Require Import Prelude GoStrings CatalogModel SatInterface SatDemo LitMapping ChoiceDeque SolverSearch SolverSolve.
From S2P Require Import ResolverCache ResolverSort ResolverVariables ResolverResolve.

(** ** Loops that can panic *)

Lemma bind_Done {A B} (x : outcome A) (f : A -> outcome B) (y : B) :
  x ≫= f = Done y <-> exists a, x = Done a /\ f a = Done y.
Proof. destruct x; cbn; naive_solver. Qed.

Lemma orPanic_Done {A} (o : option A) (x : A) : orPanic o = Done x <-> o = Some x.
Proof. destruct o; cbn; naive_solver. Qed.

Lemma foldO_inv {A B} (f : A -> B -> outcome A) (P : A -> Prop) (Q : B -> Prop) xs : forall acc r,
  P acc -> (forall x, x ∈ xs -> Q x) -> (forall acc x acc', Q x -> P acc -> f acc x = Done acc' -> P acc') ->
  foldO f acc xs = Done r -> P r.
Proof.
  induction xs as [|x xs IH]; intros acc r HP HQ Hf; simpl; [by intros [= <-]|].
  intros (acc' & Hx & Hr)%bind_Done. eapply IH; [|intros ? ?; apply HQ; by right|exact Hf|exact Hr].
  eapply Hf; [apply HQ; left|exact HP|exact Hx].
Qed.

Lemma elem_of_SliceStable {A} (less : A -> A -> bool) l x : x ∈ SliceStable less l <-> x ∈ l.
Proof. unfold SliceStable. by rewrite insertionSort_perm. Qed.

(** ** Sorted bundles are among the bundles *)

Section sorted_in.
Context `{SemverLib, RangeOrder}.
Implicit Types (bs : list Entry) (t : partition).

Definition groups_in bs (groups : gmap PackageChannel (list Entry)) : Prop :=
  forall pc l, groups !! pc = Some l -> l ⊆ bs.
Definition partition_in bs t : Prop := forall cat groups, partitionedBundles t !! cat = Some groups -> groups_in bs groups.

Lemma groups_in_insert bs groups pc l : groups_in bs groups -> l ⊆ bs -> groups_in bs (<[pc := l]> groups).
Proof. intros Hg Hl pc' l' [[_ <-]|[_ E]]%lookup_insert_Some; eauto. Qed.
Lemma groups_in_empty bs : groups_in bs ∅.
Proof. intros ? ? E. by apply lookup_empty_Some in E. Qed.
Lemma groups_in_default bs t cat : partition_in bs t -> groups_in bs (default ∅ (partitionedBundles t !! cat)).
Proof. intros Ht. destruct (partitionedBundles t !! cat) eqn:E; simpl; [by eapply Ht|apply groups_in_empty]. Qed.
Lemma group_default bs groups pc : groups_in bs groups -> default [] (groups !! pc) ⊆ bs.
Proof. intros Hg. destruct (groups !! pc) eqn:E; simpl; [by eapply Hg|set_solver]. Qed.

Lemma partition_in_insert bs t order cats cat groups :
  partition_in bs t -> groups_in bs groups -> partition_in bs (mkPartition cats order (<[cat := groups]> (partitionedBundles t))).
Proof. intros Ht Hg cat' groups'. simpl. intros [[_ <-]|[_ E]]%lookup_insert_Some; [done|by eapply Ht]. Qed.

Lemma addToPartition_in bs t b t' : b ∈ bs -> partition_in bs t -> addToPartition t b = Done t' -> partition_in bs t'.
Proof.
  intros Hb Ht. unfold addToPartition. intros (si & _ & E)%bind_Done. revert E. cbv zeta.
  set (pc := (Entry_Package b, Entry_Channel b, si_DefaultChannel si)). change (string * string * bool)%type with PackageChannel in pc.
  set (cat := si_Catalog si).
  set (t1 := match partitionedBundles t !! cat with Some _ => t | None => _ end).
  assert (partition_in bs t1) as Ht1.
  { unfold t1. destruct (partitionedBundles t !! cat); [done|]. apply partition_in_insert; [done|apply groups_in_empty]. }
  pose proof (groups_in_default bs t1 cat Ht1) as Hg.
  set (groups := default ∅ (partitionedBundles t1 !! cat)) in *.
  destruct (groups !! pc) as [l|] eqn:Epc; cbv beta iota; intros [= <-];
    (apply partition_in_insert; [done|]; apply groups_in_insert; [try done|]).
  - rewrite Epc. simpl. apply list_subseteq_app_iff_l. split; [by eapply Hg|set_solver].
  - apply groups_in_insert; [done|set_solver].
  - rewrite lookup_insert_eq. simpl. set_solver.
Qed.

Lemma sortGroups_in bs groups groups' : groups_in bs groups -> sortGroups groups = inr groups' -> groups_in bs groups'.
Proof.
  intros Hg. unfold sortGroups. assert (forall e, e ∈ range groups -> e.2 ⊆ bs) as Hr.
  { intros [pc l] Hin%elem_of_range. by eapply Hg. }
  revert Hr Hg. generalize groups at 2 3 as acc. induction (range groups) as [|e es IH]; intros acc Hr Hg; simpl; [by intros [= <-]|].
  destruct (sortChannel e.2) as [|sorted] eqn:E; simpl; [done|]. apply IH; [intros ? ?; apply Hr; by right|].
  apply groups_in_insert; [done|]. apply sortChannel_in in E. etrans; [exact E|]. apply Hr. left.
Qed.

Lemma sortCatalogs_in bs t t' : partition_in bs t -> sortCatalogs t = inr t' -> partition_in bs t'.
Proof.
  intros Ht. unfold sortCatalogs. assert (forall e, e ∈ range (partitionedBundles t) -> groups_in bs e.2) as Hr.
  { intros [cat groups] Hin%elem_of_range. by eapply Ht. }
  revert Hr Ht. generalize t at 2 3 as acc. induction (range (partitionedBundles t)) as [|e es IH]; intros acc Hr Hacc; simpl; [by intros [= <-]|].
  destruct (sortGroups e.2) as [|groups] eqn:E; simpl; [done|]. apply IH; [intros ? ?; apply Hr; by right|].
  apply partition_in_insert; [done|]. eapply sortGroups_in; [|exact E]. apply Hr. left.
Qed.

Lemma flatten_in bs t : partition_in bs t -> flatten t ⊆ bs.
Proof.
  intros Ht b (cat & _ & (pc & _ & Hb)%elem_of_flat_map)%elem_of_flat_map.
  revert Hb. apply group_default, groups_in_default, Ht.
Qed.

Lemma sortBundles_in bs res : sortBundles bs = Done (inr res) -> res ⊆ bs.
Proof.
  unfold sortBundles. intros (t & Ht & [= E])%bind_Done.
  assert (partition_in bs t) as Hin.
  { eapply (foldO_inv addToPartition (partition_in bs) (fun b => b ∈ bs)); [|done| |exact Ht].
    - intros ? ? Hc. simpl in Hc. by apply lookup_empty_Some in Hc.
    - intros acc x acc' ?. by apply addToPartition_in. }
  apply bind_inr in E as (t' & Ht' & [= <-]). apply flatten_in. by eapply sortCatalogs_in.
Qed.
End sorted_in.

(** ** The cache *)

Section sound.
Context `{ResolverLib, ConstraintDecoder, RangeOrder, SortLib}.
Context (systemConstraints : option (Entry -> option (list Constraint))) (snapshots : Snapshots).
Implicit Types (e : Entry) (w : walk) (st : rstate) (b : BundleVariable) (ps : list Predicate).

Definition in_catalog (k : SourceKey) e : Prop := exists hdr, snapshots !! k = Some hdr /\ e ∈ header_entries hdr.
Definition cached e : Prop := exists k, in_catalog k e.

(** The identifier of an entry's variable. *)
Definition entryID e : Identifier :=
  match e_SourceInfo e with Some si => bundleID (e_Name e) (si_Channel si) (si_Catalog si) | None => "" end.

(** What the sources of snapshots provide: entries know their catalog, are distinct objects, and within a
    catalog the name and the channel determine the entry (an empty channel matches any). *)
Record cache_ok : Prop := mkCacheOk {
  co_keyed : keyed_snapshots snapshots;
  co_nonempty : forall k hdr, snapshots !! k = Some hdr -> Empty k = false;
  co_nodup : forall k hdr, snapshots !! k = Some hdr -> NoDup (header_entries hdr);
  co_source : forall k e, in_catalog k e -> exists si, e_SourceInfo e = Some si /\ si_Catalog si = k;
  co_addr : forall e e', cached e -> cached e' -> e_addr e = e_addr e' -> e = e';
  co_name : forall k e e', in_catalog k e -> in_catalog k e' -> e_Name e = e_Name e' ->
    Entry_Channel e = "" \/ Entry_Channel e = Entry_Channel e' -> e = e';
  co_plain : forall e si, cached e -> e_SourceInfo e = Some si ->
    no_slash (e_Name e) /\ no_slash (si_Channel si) /\ no_slash (sk_Name (si_Catalog si)) /\ no_slash (sk_Namespace (si_Catalog si))
}.

Context (Hok : cache_ok).

Lemma cached_source e : cached e -> exists si, e_SourceInfo e = Some si /\ in_catalog (si_Catalog si) e.
Proof. intros [k Hk]. destruct (co_source Hok _ _ Hk) as (si & Hsi & <-). eauto. Qed.

Lemma header_sourced k hdr : snapshots !! k = Some hdr -> sourced (header_entries hdr).
Proof. intros Hk e He. destruct (co_source Hok k e) as (si & -> & _); [by exists hdr|]. by eexists. Qed.

Lemma entryID_info e si : cached e -> e_SourceInfo e = Some si ->
  BundleSourceInfo (entryID e) = Some (e_Name e, si_Channel si, si_Catalog si).
Proof.
  intros He Hsi. destruct (co_plain Hok e si He Hsi) as (Hn & Hc & Hkn & Hks). unfold entryID. rewrite Hsi.
  destruct (si_Catalog si) as [n ns] eqn:Ec. simpl in *. unfold BundleSourceInfo.
  replace (bundleID (e_Name e) (si_Channel si) (mkKey n ns)) with (Join [n; ns; si_Channel si; e_Name e] "/")
    by (unfold bundleID, SourceKey_String, Join; simpl; by rewrite !str_app_assoc).
  rewrite (Split_Join slash); [done..|]. set_solver.
Qed.

(** Identifiers tell entries apart. *)
Lemma entryID_inj e e' : cached e -> cached e' -> entryID e = entryID e' -> e = e'.
Proof.
  intros He He' E. destruct (cached_source e He) as (si & Hsi & Hin), (cached_source e' He') as (si' & Hsi' & Hin').
  pose proof (entryID_info e si He Hsi) as E1. rewrite E, (entryID_info e' si' He' Hsi') in E1. injection E1 as En Ec Ek.
  rewrite Ek in Hin'. eapply (co_name Hok); [exact Hin|exact Hin'|done|].
  right. unfold Entry_Channel. by rewrite Hsi, Hsi', Ec.
Qed.

(** *** Finders *)

Lemma filter_found ps (l : list Entry) (P : Entry -> Prop) :
  (forall e, e ∈ l -> P e) -> forall e, e ∈ filter (fun o => matches ps o = true) l -> P e /\ matches ps e = true.
Proof. intros Hl e [Hm He]%list_elem_of_filter. auto. Qed.

Lemma sorted_snapshots_sourced pref ns hdr : hdr ∈ sortedSnapshots pref ns snapshots -> exists k, snapshots !! k = Some hdr.
Proof. unfold sortedSnapshots. rewrite sortBy_perm. by apply elem_of_range_vals. Qed.

Lemma FindPreferred_found pref ns ps s : exists l s', FindPreferred snapshots pref ns ps s = Some (l, s') /\
  forall e, e ∈ l <-> cached e /\ matches ps e = true.
Proof.
  unfold FindPreferred. set (pref' := match pref with Some k => _ | None => None end).
  destruct (findAll_meaning (sortedSnapshots pref' ns snapshots) ps s) as [s' ->].
  { intros hdr [k Hk]%sorted_snapshots_sourced. by eapply header_sourced. }
  eexists _, s'. split; [done|]. intros e. rewrite list_elem_of_filter, elem_of_flat_map. split.
  - intros [Hm (hdr & [k Hk]%sorted_snapshots_sourced & He)]. split; [|done]. by exists k, hdr.
  - intros [(k & hdr & Hk & He) Hm]. split; [done|]. exists hdr. split; [|done].
    unfold sortedSnapshots. rewrite sortBy_perm. apply elem_of_range_vals. eauto.
Qed.

Lemma CatalogFind_found k ps s : exists l s', CatalogFind snapshots k ps s = Some (l, s') /\
  forall e, e ∈ l <-> (if Empty k then cached e else in_catalog k e) /\ matches ps e = true.
Proof.
  unfold CatalogFind, Find. destruct (Empty k); [apply FindPreferred_found|]. destruct (snapshots !! k) as [hdr|] eqn:Hk.
  - destruct (Header_Find_meaning hdr ps s) as [s' ->]; [by eapply header_sourced|]. eexists _, s'. split; [done|].
    intros e. rewrite list_elem_of_filter. unfold in_catalog. rewrite Hk. naive_solver.
  - exists [], s. split; [done|]. intros e. rewrite elem_of_nil. unfold in_catalog. rewrite Hk. naive_solver.
Qed.

Lemma Filter_found (es : list Entry) ps s : (forall e, e ∈ es -> cached e) ->
  exists l s', Filter es ps s = Some (l, s') /\ forall e, e ∈ l <-> e ∈ es /\ matches ps e = true.
Proof.
  intros Hes. destruct (Filter_meaning es ps s) as [s' ->].
  { intros e He. destruct (cached_source e (Hes e He)) as (si & -> & _). by eexists. }
  eexists _, s'. split; [done|]. intros e. rewrite list_elem_of_filter. naive_solver.
Qed.

(** ** The walk over dependencies *)

(** Heaps grow: variables keep their identifier and their constraints. *)
Definition hgrows (h h' : list BundleVariable) : Prop :=
  forall p b, h !! p = Some b -> exists b', h' !! p = Some b' /\ bv_identifier b' = bv_identifier b /\ bv_constraints b ⊆ bv_constraints b'.

Lemma hgrows_refl h : hgrows h h.
Proof. intros p b Hb. by exists b. Qed.
Lemma hgrows_trans h1 h2 h3 : hgrows h1 h2 -> hgrows h2 h3 -> hgrows h1 h3.
Proof.
  intros H12 H23 p b Hb. destruct (H12 p b Hb) as (b2 & Hb2 & Hi2 & Hc2). destruct (H23 p b2 Hb2) as (b3 & Hb3 & Hi3 & Hc3).
  exists b3. split_and!; [done|congruence|by etrans].
Qed.
Lemma hgrows_app h l : hgrows h (h ++ l).
Proof. intros p b Hb. exists b. split_and!; [by apply lookup_app_l_Some|done|done]. Qed.
Lemma hgrows_alter h p f :
  (forall b, bv_identifier (f b) = bv_identifier b /\ bv_constraints b ⊆ bv_constraints (f b)) -> hgrows h (alter f p h).
Proof.
  intros Hf p' b Hb. destruct (decide (p = p')) as [<-|Hne].
  - exists (f b). rewrite list_lookup_alter_eq, Hb. split; [done|]. apply Hf.
  - exists b. by rewrite list_lookup_alter_ne.
Qed.
Lemma AddConstraint_grows c b : bv_identifier (AddConstraint b c) = bv_identifier b /\ bv_constraints b ⊆ bv_constraints (AddConstraint b c).
Proof. split; [done|]. simpl. set_solver. Qed.

Lemma newBundle_id e b : newBundleVariableFromEntry systemConstraints e = inr b -> bv_identifier b = entryID e.
Proof.
  unfold newBundleVariableFromEntry, NewBundleVariableFromOperator, entryID, Entry_Channel.
  destruct (e_SourceInfo e) as [si|]; [|done]. destruct systemConstraints as [f|]; [|by intros [= <-]].
  destruct (negb _); [|by intros [= <-]]. destruct (f e); [|done]. by intros [= <-].
Qed.

(** The system constraints come on top of the entry's own. *)
Lemma newBundle_base e b b0 : newBundleVariableFromEntry systemConstraints e = inr b -> NewBundleVariableFromOperator e = inr b0 ->
  bv_constraints b0 ⊆ bv_constraints b.
Proof.
  unfold newBundleVariableFromEntry. intros E Eb0. rewrite Eb0 in E. destruct systemConstraints as [f|]; [|by injection E as <-].
  destruct (e_SourceInfo e); [|by injection E as <-]. destruct (negb _); [|by injection E as <-].
  destruct (f e); [|done]. injection E as <-. simpl. set_solver.
Qed.

(** Some entry that satisfies [d] has each of the identifiers. *)
Definition satisfy (d : Predicate) (ids : list Identifier) : Prop :=
  forall id, id ∈ ids -> exists e, cached e /\ meaning d e = true /\ id = entryID e.

Definition requires b (d : Predicate) : Prop :=
  exists ids msg, prettyConstraint (dependency ids) msg ∈ bv_constraints b /\ satisfy d ids.

(** The variable of an entry has the entry's own constraints and one for each dependency. *)
Definition own e b : Prop :=
  exists b0, newBundleVariableFromEntry systemConstraints e = inr b0 /\ bv_identifier b = entryID e /\ bv_constraints b0 ⊆ bv_constraints b.
Definition complete e b : Prop :=
  own e b /\ exists ds, convertDependencyProperties (e_Properties e) = inr ds /\ forall d, d ∈ ds -> requires b d.

Definition holds_at (h : list BundleVariable) (p : nat) (P : BundleVariable -> Prop) : Prop := exists b, h !! p = Some b /\ P b.

Definition upward (P : BundleVariable -> Prop) : Prop :=
  forall b b', bv_identifier b' = bv_identifier b -> bv_constraints b ⊆ bv_constraints b' -> P b -> P b'.

Lemma holds_at_grows h h' p P : upward P -> hgrows h h' -> holds_at h p P -> holds_at h' p P.
Proof. intros HP Hg (b & Hb & Hp). destruct (Hg p b Hb) as (b' & Hb' & Hi & Hc). exists b'. split; [done|]. by eapply HP. Qed.

Lemma requires_up d : upward (fun b => requires b d).
Proof. intros b b' _ Hc (ids & msg & Hin & Hs). exists ids, msg. set_solver. Qed.
Lemma own_up e : upward (own e).
Proof. intros b b' Hi Hc (b0 & Hn & Hid & Hsub). exists b0. split_and!; [done|congruence|by etrans]. Qed.
Lemma complete_up e : upward (complete e).
Proof.
  intros b b' Hi Hc [Hown (ds & Hds & Hd)]. split; [by eapply own_up|]. exists ds. split; [done|].
  intros d ?. eapply requires_up; [done|done|auto].
Qed.

(** Every visited entry, but the one at [except], has its complete variable. *)
Definition good_but (except : option nat) st : Prop :=
  forall a p, st_visited st !! a = Some p -> Some a <> except ->
    exists e, cached e /\ e_addr e = a /\ holds_at (st_heap st) p (complete e).
Definition good st : Prop := good_but None st.

Lemma good_but_grows except st st' :
  st_visited st' = st_visited st -> hgrows (st_heap st) (st_heap st') -> good_but except st -> good_but except st'.
Proof.
  intros Hv Hg Hgood a p Ha Hne. rewrite Hv in Ha. destruct (Hgood a p Ha Hne) as (e & He & Hea & Hc). exists e. split_and!; [done..|].
  by eapply holds_at_grows; [apply complete_up| |].
Qed.

(** Every variable is the one of a visited entry, or its entry is still on the stack. *)
Definition settled st (id : Identifier) (p : nat) : Prop :=
  exists e, cached e /\ st_visited st !! e_addr e = Some p /\ id = entryID e.
Definition vars_ok w : Prop :=
  forall id p, w_variables w !! id = Some p -> settled (w_st w) id p \/ exists e, e ∈ w_stack w /\ id = entryID e.
Definition stack_ok w : Prop := forall e, e ∈ w_stack w -> cached e.

(** The pointers of the variables are valid. *)
Definition ptrs_ok (h : list BundleVariable) (vars : gmap Identifier nat) : Prop :=
  forall id p, vars !! id = Some p -> is_Some (h !! p).
Lemma ptrs_ok_grows h h' vars : hgrows h h' -> ptrs_ok h vars -> ptrs_ok h' vars.
Proof. intros Hg Hv id p Hp. destruct (Hv id p Hp) as [b Hb]. destruct (Hg p b Hb) as (b' & ? & _). by exists b'. Qed.
Lemma ptrs_ok_insert h vars id p : is_Some (h !! p) -> ptrs_ok h vars -> ptrs_ok h (<[id := p]> vars).
Proof. intros Hp Hv id' p' [[_ <-]|[_ ?]]%lookup_insert_Some; eauto. Qed.

(** What processing a dependency does to the walk. *)
Record walks w w' : Prop := mkWalks {
  wk_visited : st_visited (w_st w') = st_visited (w_st w);
  wk_heap : hgrows (st_heap (w_st w)) (st_heap (w_st w'));
  wk_stack : w_stack w ⊆ w_stack w';
  wk_new : forall e, e ∈ w_stack w' -> e ∈ w_stack w \/ cached e;
  wk_vars : forall id p, w_variables w' !! id = Some p -> w_variables w !! id = Some p \/ exists e, e ∈ w_stack w' /\ id = entryID e;
  wk_dom : forall id, is_Some (w_variables w !! id) -> is_Some (w_variables w' !! id);
  wk_errs : w_errs w' = [] -> w_errs w = [];
  wk_ptrs : ptrs_ok (st_heap (w_st w)) (w_variables w) -> ptrs_ok (st_heap (w_st w')) (w_variables w')
}.

Lemma walks_refl w : walks w w.
Proof. constructor; try done; eauto using hgrows_refl. Qed.
Lemma walks_trans w1 w2 w3 : walks w1 w2 -> walks w2 w3 -> walks w1 w3.
Proof.
  intros [V1 G1 S1 N1 X1 D1 E1 P1] [V2 G2 S2 N2 X2 D2 E2 P2]. constructor; [congruence|by eapply hgrows_trans|by etrans| | | | |]; auto.
  - intros e [?|?]%N2; auto.
  - intros id p [[?|(e & ? & ?)]%X1|?]%X2; [by left| |by right]. right. exists e. auto.
Qed.
Lemma walks_error w (er : resolveError) : walks w (addError w er).
Proof. constructor; try done; eauto using hgrows_refl. simpl. by intros [_ [=]]%app_eq_nil. Qed.
Lemma walks_update w pb f :
  (forall b, bv_identifier (f b) = bv_identifier b /\ bv_constraints b ⊆ bv_constraints (f b)) ->
  walks w (mkWalk (update (w_st w) pb f) (w_variables w) (w_stack w) (w_errs w)).
Proof. intros Hf. constructor; try done; eauto; simpl; [by apply hgrows_alter|]. by apply ptrs_ok_grows, hgrows_alter. Qed.

Lemma addCandidate_walks wd e : cached e -> let wd' := addCandidate systemConstraints wd e in
  walks wd.1 wd'.1 /\ forall id, id ∈ wd'.2 -> id ∈ wd.2 \/ id = entryID e.
Proof.
  intros He. destruct wd as [w deps]. simpl. destruct (newBundleVariableFromEntry systemConstraints e) as [er|b] eqn:E; simpl.
  { split; [apply walks_error|by left]. }
  apply newBundle_id in E. split.
  - constructor; simpl; [done|apply hgrows_app|set_solver| | | |done|].
    + intros e' [->|?]%elem_of_cons; auto.
    + intros id p [[<- <-]|[_ Hp]]%lookup_insert_Some; [|by left]. right. exists e. split; [left|done].
    + intros id Hid. apply lookup_insert_is_Some. destruct (decide (bv_identifier b = id)); auto.
    + intros Hp. apply ptrs_ok_insert; [by rewrite lookup_app_r, Nat.sub_diag by done; eexists|].
      eapply ptrs_ok_grows; [apply hgrows_app|done].
  - intros id [?| ->%list_elem_of_singleton]%elem_of_app; auto.
Qed.

Lemma addCandidates_walks es : forall wd, (forall e, e ∈ es -> cached e) ->
  let wd' := foldl (addCandidate systemConstraints) wd es in
  walks wd.1 wd'.1 /\ forall id, id ∈ wd'.2 -> id ∈ wd.2 \/ exists e, e ∈ es /\ id = entryID e.
Proof.
  induction es as [|e es IH]; intros wd Hes; simpl; [split; [apply walks_refl|by left]|].
  destruct (addCandidate_walks wd e) as [Hw Hd]; [apply Hes; left|]. cbv zeta in Hw, Hd.
  destruct (IH (addCandidate systemConstraints wd e)) as [Hw' Hd']; [intros ? ?; apply Hes; by right|].
  split; [by eapply walks_trans|]. intros id [[?| ->]%Hd|(e' & ? & ?)]%Hd'; [by left|right; exists e; split; [left|done]|].
  right. exists e'. split; [by right|done].
Qed.

Lemma sourceFilter_Done es : forall sources p, (forall e, e ∈ es -> cached e) -> exists q, sourceFilter es sources p = Done q.
Proof.
  induction es as [|e es IH]; intros sources p Hes; simpl; [by eexists|].
  destruct (cached_source e) as (si & -> & _); [apply Hes; left|]. simpl.
  case_bool_decide; apply IH; intros ? ?; apply Hes; by right.
Qed.

Lemma foldO_Done {A B} (f : A -> B -> outcome A) xs : forall acc,
  (forall acc x, x ∈ xs -> exists acc', f acc x = Done acc') -> exists r, foldO f acc xs = Done r.
Proof.
  induction xs as [|x xs IH]; intros acc Hf; simpl; [by eexists|].
  destruct (Hf acc x) as [acc' ->]; [left|]. simpl. apply IH. intros ? ? ?. apply Hf. by right.
Qed.

Lemma sortBundles_Done es : (forall e, e ∈ es -> cached e) -> exists r, sortBundles es = Done r.
Proof.
  intros Hes. unfold sortBundles. destruct (foldO_Done addToPartition es (mkPartition [] ∅ ∅)) as [t ->]; [|by eexists].
  intros t e He. unfold addToPartition. destruct (cached_source e (Hes e He)) as (si & -> & _). simpl.
  destruct (match _ with Some _ => _ | None => _ end). by eexists.
Qed.

(** A dependency is recorded with candidates that satisfy it. *)
Lemma addDependency_walks ns bundle catalog pb w d :
  exists w', addDependency systemConstraints snapshots ns bundle catalog pb w d = Done w' /\ walks w w' /\
    (w_errs w' = [] -> is_Some (st_heap (w_st w) !! pb) -> holds_at (st_heap (w_st w')) pb (fun b => requires b d)).
Proof.
  unfold addDependency, Find. destruct (FindPreferred_found None "" [d] (fun _ => 0)) as (l & s1 & -> & Hl). simpl.
  destruct (sourceFilter_Done l [] (booleanPredicate false)) as [q ->]; [intros e; rewrite Hl; tauto|]. simpl.
  destruct (FindPreferred_found (Some catalog) ns [q] (fun _ => 0)) as (l2 & s2 & -> & Hl2). simpl.
  destruct (sortBundles_Done l2) as [r Hr]; [intros e; rewrite Hl2; tauto|]. rewrite Hr. simpl. destruct r as [er|sorted].
  { eexists. split; [done|]. split; [apply walks_error|]. simpl. by intros [_ [=]]%app_eq_nil. }
  assert (Hsorted : forall e, e ∈ sorted -> cached e).
  { intros e He. apply (sortBundles_in _ _ Hr), Hl2 in He. tauto. }
  destruct (Filter_found sorted [d] (fun _ => 0) Hsorted) as (cs & s3 & -> & Hcs). simpl.
  destruct (addCandidates_walks cs (w, [])) as [Hw Hd]; [intros e [? ?]%Hcs; auto|].
  destruct (foldl _ (w, []) cs) as [w' deps] eqn:Ef. cbv zeta in Hw, Hd. simpl in Hw, Hd.
  set (msg := "bundle " +:+ _). eexists. split; [done|]. split.
  - eapply walks_trans; [exact Hw|]. apply walks_update. apply AddConstraint_grows.
  - intros _ [b Hb]. destruct (wk_heap _ _ Hw _ _ Hb) as (b' & Hb' & _). simpl.
    eexists. split; [by rewrite list_lookup_alter_eq, Hb'|]. exists deps, msg. split; [simpl; set_solver|].
    intros id [[]%elem_of_nil|(e & [He Hm]%Hcs & ->)]%Hd. exists e. split_and!; [auto| |done].
    unfold matches in Hm. simpl in Hm. by rewrite andb_true_r in Hm.
Qed.

Lemma addDependencies_walks ns bundle catalog pb ds : forall w,
  exists w', foldO (addDependency systemConstraints snapshots ns bundle catalog pb) w ds = Done w' /\ walks w w' /\
    (w_errs w' = [] -> is_Some (st_heap (w_st w) !! pb) ->
     forall d, d ∈ ds -> holds_at (st_heap (w_st w')) pb (fun b => requires b d)).
Proof.
  induction ds as [|d ds IH]; intros w; simpl.
  { exists w. split_and!; [done|apply walks_refl|]. by intros _ _ d ?%elem_of_nil. }
  destruct (addDependency_walks ns bundle catalog pb w d) as (w1 & -> & Hw1 & Hr1). simpl.
  destruct (IH w1) as (w2 & -> & Hw2 & Hr2). exists w2. split_and!; [done|by eapply walks_trans|].
  intros He Hpb d' [->|Hd]%elem_of_cons.
  - eapply holds_at_grows; [apply requires_up|apply Hw2|]. apply Hr1; [|done]. by apply (wk_errs _ _ Hw2).
  - apply Hr2; [done| |done]. destruct Hpb as [b Hb]. destruct (wk_heap _ _ Hw1 _ _ Hb) as (b' & ? & _). by exists b'.
Qed.

(** *** Termination *)

Definition valid st : Prop := forall a p, st_visited st !! a = Some p -> is_Some (st_heap st !! p).

Lemma valid_grows st st' : st_visited st' = st_visited st -> hgrows (st_heap st) (st_heap st') -> valid st -> valid st'.
Proof. intros Hv Hg Hval a p Ha. rewrite Hv in Ha. destruct (Hval a p Ha) as [b Hb]. destruct (Hg p b Hb) as (b' & ? & _). by exists b'. Qed.

Lemma stack_ok_walks w w' : walks w w' -> stack_ok w -> stack_ok w'.
Proof. intros Hw Hs e [?|?]%(wk_new _ _ Hw); auto. Qed.

(** Entries stay visited and variables stay. *)
Definition stays st st' : Prop :=
  (forall a, is_Some (st_visited st !! a) -> is_Some (st_visited st' !! a)) /\ hgrows (st_heap st) (st_heap st').
Lemma stays_refl st : stays st st.
Proof. split; [done|apply hgrows_refl]. Qed.
Lemma stays_trans st1 st2 st3 : stays st1 st2 -> stays st2 st3 -> stays st1 st3.
Proof. intros [V1 G1] [V2 G2]. split; [auto|by eapply hgrows_trans]. Qed.
(** A round without error visits its entry. *)
Definition visits st st' e (errs : list resolveError) : Prop :=
  stays st st' /\ (errs = [] -> is_Some (st_visited st' !! e_addr e)).

(** A round takes an entry off the stack, or visits one more entry. *)
Lemma visitBundle_total ns w bundle :
  cached bundle -> stack_ok w -> valid (w_st w) -> ptrs_ok (st_heap (w_st w)) (w_variables w) ->
  exists w', visitBundle systemConstraints snapshots ns w bundle = Done w' /\ stack_ok w' /\ valid (w_st w') /\
    ptrs_ok (st_heap (w_st w')) (w_variables w') /\
    visits (w_st w) (w_st w') bundle (w_errs w') /\ w_stack w ⊆ w_stack w' /\
    ((w_stack w' = w_stack w /\ st_visited (w_st w') = st_visited (w_st w)) \/
     (st_visited (w_st w) !! e_addr bundle = None /\
      dom (st_visited (w_st w')) = {[e_addr bundle]} ∪ dom (st_visited (w_st w)))).
Proof.
  intros Hb Hs Hval Hptr. unfold visitBundle. destruct (st_visited (w_st w) !! e_addr bundle) as [p|] eqn:Ev.
  { destruct (Hval _ _ Ev) as [b Hbp]. rewrite Hbp. simpl.
    eexists. split_and!; [done|done|done|apply ptrs_ok_insert; [by eexists|done]|split; [apply stays_refl|]|done|by left].
    intros _. by exists p. }
  destruct (newBundleVariableFromEntry systemConstraints bundle) as [er|b] eqn:En.
  { eexists. split_and!; [done|done|done|done|split; [apply stays_refl|]|done|by left]. simpl. by intros [_ [=]]%app_eq_nil. }
  cbv zeta. cbn [alloc]. set (st1 := mkState _ (<[e_addr bundle := _]> _)).
  assert (valid st1) as Hv1.
  { intros a p. simpl. intros [[_ <-]|[_ Hp]]%lookup_insert_Some.
    - rewrite lookup_app_r by done. rewrite Nat.sub_diag. by eexists.
    - destruct (Hval _ _ Hp) as [b' ?]. exists b'. by apply lookup_app_l_Some. }
  assert (ptrs_ok (st_heap st1) (w_variables w)) as Hptr1 by (eapply ptrs_ok_grows; [apply hgrows_app|done]).
  assert (Hvis1 : forall errs, visits (w_st w) st1 bundle errs).
  { intros errs. split; [split; [intros a Ha|apply hgrows_app]|intros _]; simpl; rewrite lookup_insert_is_Some; [|by left].
    destruct (decide (e_addr bundle = a)); auto. }
  destruct (convertDependencyProperties (e_Properties bundle)) as [er|ds].
  { eexists. split_and!; [done|done|done|done|apply Hvis1|done|]. right. split; [done|]. simpl. by rewrite dom_insert_L. }
  destruct (cached_source bundle Hb) as (si & -> & _). simpl.
  destruct (addDependencies_walks ns bundle (si_Catalog si) (length (st_heap (w_st w))) ds
    (mkWalk st1 (w_variables w) (w_stack w) (w_errs w))) as (w' & -> & Hw & _). simpl.
  eexists. split; [done|]. split_and!.
  - by eapply (stack_ok_walks _ _ Hw).
  - simpl. eapply valid_grows; [apply Hw|apply Hw|done].
  - simpl. apply ptrs_ok_insert; [|by apply (wk_ptrs _ _ Hw)].
    destruct (wk_heap _ _ Hw (length (st_heap (w_st w))) b) as (b' & ? & _); [simpl; by rewrite lookup_app_r, Nat.sub_diag by done|by exists b'].
  - destruct (Hvis1 (w_errs w')) as [[Hvis Hgr] Hvis']. unfold visits, stays. simpl. rewrite (wk_visited _ _ Hw).
    split_and!; [done| |done]. eapply hgrows_trans; [exact Hgr|apply (wk_heap _ _ Hw)].
  - apply (wk_stack _ _ Hw).
  - right. split; [done|]. simpl. rewrite (wk_visited _ _ Hw). simpl. by rewrite dom_insert_L.
Qed.

(** The addresses of all entries. *)
Definition universe : gset nat := list_to_set (e_addr <$> flat_map header_entries (range snapshots).*2).

Lemma elem_of_universe e : cached e -> e_addr e ∈ universe.
Proof.
  intros (k & hdr & Hk & He). unfold universe. apply elem_of_list_to_set, list_elem_of_fmap_2, elem_of_flat_map.
  exists hdr. split; [apply elem_of_range_vals; eauto|done].
Qed.

Lemma bundleLoop_mono ns fuel : forall fuel' w w', (fuel <= fuel')%nat ->
  bundleLoop systemConstraints fuel snapshots ns w = Done w' -> bundleLoop systemConstraints fuel' snapshots ns w = Done w'.
Proof.
  induction fuel as [|fuel IH]; intros [|fuel'] w w' Hle; simpl; destruct (w_stack w); try done; [lia|].
  destruct (visitBundle _ _ _ _ _); simpl; [|done..]. apply IH. lia.
Qed.

Lemma bundleLoop_step ns fuel w bundle stack w1 w2 : w_stack w = bundle :: stack ->
  visitBundle systemConstraints snapshots ns (mkWalk (w_st w) (w_variables w) stack (w_errs w)) bundle = Done w1 ->
  bundleLoop systemConstraints fuel snapshots ns w1 = Done w2 -> bundleLoop systemConstraints (S fuel) snapshots ns w = Done w2.
Proof. intros Es Hv Hl. simpl. by rewrite Es, Hv. Qed.

Lemma visitBundle_errs ns w bundle w' :
  visitBundle systemConstraints snapshots ns w bundle = Done w' -> w_errs w' = [] -> w_errs w = [].
Proof.
  unfold visitBundle. destruct (st_visited (w_st w) !! e_addr bundle) as [p|].
  { by intros (b & _ & [= <-])%bind_Done. }
  destruct (newBundleVariableFromEntry systemConstraints bundle) as [er|b]; [by intros [= <-] [_ [=]]%app_eq_nil|].
  cbv zeta. cbn [alloc]. destruct (convertDependencyProperties (e_Properties bundle)) as [er|ds]; [by intros [= <-] [_ [=]]%app_eq_nil|].
  set (w1 := mkWalk _ (w_variables w) _ _). intros (si & _ & (w2 & Hw2 & [= <-])%bind_Done)%bind_Done.
  destruct (addDependencies_walks ns bundle (si_Catalog si) (length (st_heap (w_st w))) ds w1) as (w2' & Hw2' & Hwalk & _).
  assert (w2' = w2) as -> by congruence. intros He. by apply (wk_errs _ _ Hwalk).
Qed.

Lemma bundleLoop_errs ns fuel : forall w w', bundleLoop systemConstraints fuel snapshots ns w = Done w' -> w_errs w' = [] -> w_errs w = [].
Proof.
  induction fuel as [|fuel IH]; intros w w'; simpl; (destruct (w_stack w) as [|bundle stack]; [by intros [= <-]|]); [done|].
  intros (w1 & Hv & Hl)%bind_Done He. eapply visitBundle_errs in Hv; [done|]. by eapply IH.
Qed.

Lemma bundleLoop_total ns n : forall w, size (universe ∖ dom (st_visited (w_st w))) = n -> stack_ok w -> valid (w_st w) ->
  ptrs_ok (st_heap (w_st w)) (w_variables w) ->
  exists fuel w', bundleLoop systemConstraints fuel snapshots ns w = Done w' /\ valid (w_st w') /\
    ptrs_ok (st_heap (w_st w')) (w_variables w') /\
    stays (w_st w) (w_st w') /\ (w_errs w' = [] -> forall e, e ∈ w_stack w -> is_Some (st_visited (w_st w') !! e_addr e)).
Proof.
  induction (lt_wf n) as [n _ IHn]. intros w. remember (w_stack w) as stack eqn:Es. revert w Es.
  induction stack as [|bundle stack IHs]; intros w Es Hn Hs Hv Hptr.
  { exists 0%nat, w. simpl. rewrite <- Es. split_and!; [done|done|done|apply stays_refl|]. by intros _ ? ?%elem_of_nil. }
  assert (cached bundle) as Hb by (apply Hs; rewrite <- Es; left).
  destruct (visitBundle_total ns (mkWalk (w_st w) (w_variables w) stack (w_errs w)) bundle)
    as (w1 & Hw1 & Hs1 & Hv1 & Hptr1 & Hvis1 & Hsub1 & Hcase); [done| |done|done|].
  { intros e He. apply Hs. rewrite <- Es. by right. }
  assert (exists fuel w', bundleLoop systemConstraints fuel snapshots ns w1 = Done w' /\ valid (w_st w') /\
    ptrs_ok (st_heap (w_st w')) (w_variables w') /\ stays (w_st w1) (w_st w') /\ (w_errs w' = [] -> forall e, e ∈ w_stack w1 -> is_Some (st_visited (w_st w') !! e_addr e)))
    as (fuel & w' & Hl & Hv' & Hptr' & Hstay & Hvis').
  { destruct Hcase as [[Hst Hvis]|[Hnone Hdom]]; simpl in *.
    - rewrite Hst. apply IHs; [done|by rewrite Hvis|done..].
    - eapply IHn; [|reflexivity|done..]. rewrite <- Hn, Hdom.
      apply subset_size. split; [set_solver|]. intros Hsub.
      apply not_elem_of_dom in Hnone. pose proof (elem_of_universe bundle Hb) as Hu.
      assert (e_addr bundle ∈ universe ∖ ({[e_addr bundle]} ∪ dom (st_visited (w_st w)))) as Hin by (apply Hsub; set_solver).
      set_solver. }
  destruct Hvis1 as [Hstay1 Hvis1]. exists (S fuel), w'. split_and!; [by eapply bundleLoop_step|done|done| |].
  - by eapply stays_trans.
  - intros He e [->|Hin]%elem_of_cons; [apply (proj1 Hstay), Hvis1; by eapply bundleLoop_errs|by apply Hvis', Hsub1].
Qed.

(** *** Soundness *)

(** What rounds of the walk keep, from state and variables to later ones. *)
Record later st (vars : gmap Identifier nat) st' (vars' : gmap Identifier nat) : Prop := mkLater {
  lt_visited : forall a p, st_visited st !! a = Some p -> st_visited st' !! a = Some p;
  lt_heap : hgrows (st_heap st) (st_heap st');
  lt_dom : forall id, is_Some (vars !! id) -> is_Some (vars' !! id)
}.

Lemma later_refl st vars : later st vars st vars.
Proof. constructor; auto using hgrows_refl. Qed.
Lemma later_trans st1 v1 st2 v2 st3 v3 : later st1 v1 st2 v2 -> later st2 v2 st3 v3 -> later st1 v1 st3 v3.
Proof. intros [V1 G1 D1] [V2 G2 D2]. constructor; [auto|by eapply hgrows_trans|auto]. Qed.
Lemma settled_later st vars st' vars' id p : later st vars st' vars' -> settled st id p -> settled st' id p.
Proof. intros Hl (e & He & Hv & ->). exists e. split_and!; [done|by eapply lt_visited|done]. Qed.

(** The walk is sound as long as it has met no error. *)
Definition walk_ok w : Prop := stack_ok w /\ good (w_st w) /\ vars_ok w.
Definition pushed (bundle : Entry) w : walk := mkWalk (w_st w) (w_variables w) (bundle :: w_stack w) (w_errs w).

Definition has_variable st (vars : gmap Identifier nat) e : Prop :=
  is_Some (st_visited st !! e_addr e) /\ is_Some (vars !! entryID e).

Lemma lookup_insert_dom (vars : gmap Identifier nat) id0 p0 id : is_Some (vars !! id) -> is_Some (<[id0 := p0]> vars !! id).
Proof. intros Hs. apply lookup_insert_is_Some. destruct (decide (id0 = id)); auto. Qed.

Lemma visit_again ns w bundle w' : walk_ok (pushed bundle w) -> is_Some (st_visited (w_st w) !! e_addr bundle) ->
  visitBundle systemConstraints snapshots ns w bundle = Done w' -> w_errs w' = [] ->
  walk_ok w' /\ later (w_st w) (w_variables w) (w_st w') (w_variables w') /\ has_variable (w_st w') (w_variables w') bundle /\ w_stack w ⊆ w_stack w'.
Proof.
  intros (Hs & Hg & Hvars) [p Ev] Hvisit He. unfold visitBundle in Hvisit. rewrite Ev in Hvisit.
  assert (cached bundle) as Hb by (apply Hs; left).
  destruct (Hg _ _ Ev) as (e & Hce & Hea & b & Hbp & [(b0 & _ & Hid & _) _]); [done|].
  assert (e = bundle) as -> by (by apply (co_addr Hok)). simpl in *. rewrite Hbp in Hvisit. simpl in Hvisit. injection Hvisit as <-. simpl in *.
  assert (settled (w_st w) (bv_identifier b) p) as Hset by (exists bundle; by rewrite Hid).
  split_and!; [split_and!| | |done].
  - intros e He'. apply Hs. by right.
  - done.
  - intros id q. simpl. intros [[<- <-]|[Hne Hq]]%lookup_insert_Some; [by left|].
    destruct (Hvars id q Hq) as [?|(e & [->|?]%elem_of_cons & ->)]; [by left|congruence|right; eauto].
  - constructor; [done|apply hgrows_refl|]. intros id. apply lookup_insert_dom.
  - split; [by exists p|]. rewrite Hid. apply lookup_insert_is_Some. by left.
Qed.

Lemma visit_new ns w bundle w' : walk_ok (pushed bundle w) -> st_visited (w_st w) !! e_addr bundle = None ->
  visitBundle systemConstraints snapshots ns w bundle = Done w' -> w_errs w' = [] ->
  walk_ok w' /\ later (w_st w) (w_variables w) (w_st w') (w_variables w') /\ has_variable (w_st w') (w_variables w') bundle /\ w_stack w ⊆ w_stack w'.
Proof.
  intros (Hs & Hg & Hvars) Ev Hvisit He. unfold visitBundle in Hvisit. rewrite Ev in Hvisit.
  assert (cached bundle) as Hb by (apply Hs; left).
  destruct (newBundleVariableFromEntry systemConstraints bundle) as [er|b] eqn:En.
  { injection Hvisit as <-. simpl in He. by apply app_eq_nil in He as [_ ?]. }
  cbv zeta in Hvisit. cbn [alloc] in Hvisit. set (pb := length (st_heap (w_st w))) in *.
  set (st1 := mkState _ (<[e_addr bundle := _]> _)) in *.
  destruct (convertDependencyProperties (e_Properties bundle)) as [er|ds] eqn:Ec.
  { injection Hvisit as <-. simpl in He. by apply app_eq_nil in He as [_ ?]. }
  destruct (cached_source bundle Hb) as (si & Hsi & _). rewrite Hsi in Hvisit. simpl in Hvisit.
  set (w1 := mkWalk st1 _ _ _) in *.
  destruct (addDependencies_walks ns bundle (si_Catalog si) pb ds w1) as (w2 & Hw2 & Hwalk & Hreq).
  rewrite Hw2 in Hvisit. simpl in Hvisit. injection Hvisit as <-. simpl in *.
  pose proof (newBundle_id bundle b En) as Hid.
  assert (st_heap st1 !! pb = Some b) as Hpb by (simpl; unfold pb; rewrite lookup_app_r, Nat.sub_diag; done).
  assert (st_visited (w_st w2) = <[e_addr bundle := pb]> (st_visited (w_st w))) as Hvis by apply (wk_visited _ _ Hwalk).
  assert (later (w_st w) (w_variables w) (w_st w2) (<[bv_identifier b := pb]> (w_variables w2))) as Hlater.
  { constructor.
    - intros a p Ha. rewrite Hvis. apply lookup_insert_Some. right. split; [congruence|done].
    - eapply hgrows_trans; [|apply (wk_heap _ _ Hwalk)]. apply hgrows_app.
    - intros id Hdom. apply lookup_insert_dom. by apply (wk_dom _ _ Hwalk). }
  split_and!; [split_and!| | |].
  - intros e He'. destruct (wk_new _ _ Hwalk _ He') as [?|?]; [|done]. apply Hs. by right.
  - intros a p. simpl. rewrite Hvis. intros [[<- <-]|[Hne Hp]]%lookup_insert_Some _.
    + exists bundle. split_and!; [done..|]. assert (holds_at (st_heap (w_st w2)) pb (own bundle)) as (b2 & Hb2 & Hown).
      { eapply holds_at_grows; [apply own_up|apply (wk_heap _ _ Hwalk)|]. exists b. split; [done|]. by exists b. }
      exists b2. split; [done|]. split; [done|]. exists ds. split; [done|]. intros d Hd.
      destruct (Hreq He ltac:(by exists b) d Hd) as (b2' & Hb2' & Hr). by simplify_eq.
    + destruct (Hg a p Hp) as (e & ? & ? & ?); [done|]. exists e. split_and!; [done..|].
      eapply holds_at_grows; [apply complete_up|apply (lt_heap _ _ _ _ Hlater)|done].
  - intros id q. simpl. intros [[<- <-]|[Hne Hq]]%lookup_insert_Some.
    + left. exists bundle. split_and!; [done| |done]. simpl. rewrite Hvis. by rewrite lookup_insert_eq.
    + destruct (wk_vars _ _ Hwalk _ _ Hq) as [Hq1|?]; [|by right]. simpl in Hq1.
      destruct (Hvars id q Hq1) as [Hset|(e & [->|Hin]%elem_of_cons & ->)]; [left|congruence|right].
      * by eapply settled_later.
      * exists e. split; [|done]. by apply (wk_stack _ _ Hwalk).
  - done.
  - split; [simpl; rewrite Hvis, lookup_insert_eq; by eexists|]. rewrite Hid, lookup_insert_eq. by eexists.
  - apply (wk_stack _ _ Hwalk).
Qed.

Lemma bundleLoop_sound ns fuel : forall w w', bundleLoop systemConstraints fuel snapshots ns w = Done w' -> w_errs w' = [] -> walk_ok w ->
  walk_ok w' /\ w_stack w' = [] /\ later (w_st w) (w_variables w) (w_st w') (w_variables w') /\
  forall e, e ∈ w_stack w -> has_variable (w_st w') (w_variables w') e.
Proof.
  induction fuel as [|fuel IH]; intros w w'; simpl; destruct (w_stack w) as [|bundle stack] eqn:Es.
  1,3: intros [= <-] _ Hw; split_and!; [done..|apply later_refl|by intros ? ?%elem_of_nil].
  { done. }
  intros (w1 & Hv & Hl)%bind_Done He Hw.
  set (w0 := mkWalk (w_st w) (w_variables w) stack (w_errs w)) in *.
  assert (walk_ok (pushed bundle w0)) as Hw0.
  { destruct Hw as (Hs & Hg & Hvars). split_and!; [|done|].
    - intros e He'. apply Hs. by rewrite Es.
    - intros id p Hp. destruct (Hvars id p Hp) as [?|(e & Hin & ?)]; [by left|right]. exists e. by rewrite Es in Hin. }
  pose proof (bundleLoop_errs _ _ _ _ Hl He) as He1.
  assert (walk_ok w1 /\ later (w_st w0) (w_variables w0) (w_st w1) (w_variables w1) /\ has_variable (w_st w1) (w_variables w1) bundle /\
    w_stack w0 ⊆ w_stack w1) as (Hw1 & Hl1 & Hh1 & Hst1).
  { destruct (st_visited (w_st w0) !! e_addr bundle) eqn:Ev; [eapply visit_again|eapply visit_new]; eauto. }
  destruct (IH w1 w' Hl He Hw1) as (Hw' & Hs' & Hl' & Hh'). split_and!; [done|done|by eapply later_trans|].
  intros e [->|Hin]%elem_of_cons; [|by apply Hh', Hst1].
  destruct Hh1 as [[p Hp] Hd]. split; [exists p; by eapply lt_visited|by eapply lt_dom].
Qed.

(** *** The whole call *)

Lemma mapM_visited st (l : list Entry) : valid st -> (forall e, e ∈ l -> is_Some (st_visited st !! e_addr e)) ->
  exists ids, mapM (visitedIdentifier st) l = Some ids.
Proof.
  intros Hv Hl. apply mapM_is_Some_2, Forall_forall. intros e He. destruct (Hl e He) as [p Hp]. destruct (Hv _ _ Hp) as [b Hb].
  exists (bv_identifier b). unfold visitedIdentifier. apply bind_Some. exists p. split; [done|]. apply bind_Some. by exists b.
Qed.

(** With enough fuel the call returns, and without panic. *)
Lemma getBundleVariables_total ns stack st : (forall e, e ∈ stack -> cached e) -> valid st ->
  exists fuel st' r, (forall fuel', (fuel <= fuel')%nat ->
    getBundleVariables systemConstraints fuel' snapshots ns stack st = Done (st', r)) /\ valid st' /\ stays st st' /\
    match r with inr (_, vars) => ptrs_ok (st_heap st') vars | inl _ => True end.
Proof.
  intros Hs Hv. destruct (bundleLoop_total ns _ (mkWalk st ∅ (reverse stack) []) eq_refl) as (fuel & w & Hl & Hv' & Hptr & Hst & Hvis); [|done| |].
  { intros e He. simpl in He. rewrite elem_of_reverse in He. auto. }
  { intros id p Hp. simpl in Hp. by apply lookup_empty_Some in Hp. }
  simpl in Hvis. destruct (w_errs w) as [|er errs] eqn:Ee.
  - destruct (mapM_visited (w_st w) stack) as [ids Hids]; [done| |].
    { intros e He. apply Hvis; [done|]. by apply elem_of_reverse. }
    exists fuel, (w_st w), (inr (list_to_set ids, w_variables w)). split; [|done]. intros fuel' Hle. unfold getBundleVariables.
    rewrite (bundleLoop_mono _ _ _ _ _ Hle Hl). simpl. by rewrite Ee, Hids.
  - exists fuel, (w_st w), (inl (Aggregate (er :: errs))). split; [|done]. intros fuel' Hle. unfold getBundleVariables.
    rewrite (bundleLoop_mono _ _ _ _ _ Hle Hl). simpl. by rewrite Ee.
Qed.

Lemma good_valid st : good st -> valid st.
Proof. intros Hg a p Ha. destruct (Hg a p Ha) as (e & _ & _ & b & Hb & _); [done|]. by exists b. Qed.

Lemma visitedIdentifier_good st e id : good st -> cached e -> visitedIdentifier st e = Some id -> id = entryID e.
Proof.
  intros Hg He. unfold visitedIdentifier. destruct (st_visited st !! e_addr e) as [p|] eqn:Ep; [|done]. simpl.
  destruct (Hg _ _ Ep) as (e' & He' & Ea & b & Hb & [(_ & _ & Hid & _) _]); [done|].
  assert (e' = e) as -> by (by apply (co_addr Hok)). rewrite Hb. simpl. by intros [= <-].
Qed.

(** What a successful call returns: the variables of visited entries, among them those asked for. *)
Lemma getBundleVariables_sound ns fuel stack st st' ids vars :
  getBundleVariables systemConstraints fuel snapshots ns stack st = Done (st', inr (ids, vars)) ->
  (forall e, e ∈ stack -> cached e) -> good st ->
  good st' /\ later st ∅ st' vars /\ (forall id p, vars !! id = Some p -> settled st' id p) /\
  (forall e, e ∈ stack -> has_variable st' vars e) /\ (forall id, id ∈ ids <-> exists e, e ∈ stack /\ id = entryID e).
Proof.
  intros E Hs Hg. unfold getBundleVariables in E. apply bind_Done in E as (w & Hl & E).
  destruct (w_errs w) as [|er errs] eqn:Ee; [|done]. apply bind_Done in E as (idl & Hids%orPanic_Done & [= <- <- <-]).
  destruct (bundleLoop_sound ns _ _ _ Hl Ee) as ((_ & Hg' & Hvars) & Hnil & Hlater & Hhas).
  { split_and!; [|done|].
    - intros e He. simpl in He. rewrite elem_of_reverse in He. auto.
    - intros id p Hp. simpl in Hp. by apply lookup_empty_Some in Hp. }
  simpl in Hlater, Hhas. split_and!; [done|done| | |].
  - intros id p Hp. destruct (Hvars id p Hp) as [?|(e & He & _)]; [done|]. rewrite Hnil in He. by apply elem_of_nil in He.
  - intros e He. apply Hhas. by apply elem_of_reverse.
  - intros id. rewrite elem_of_list_to_set. apply mapM_Some in Hids. split.
    + intros Hin. destruct (list_elem_of_lookup_1 _ _ Hin) as [i Hi].
      destruct (Forall2_lookup_r _ _ _ _ _ Hids Hi) as (e & He & Hv). apply list_elem_of_lookup_2 in He.
      exists e. split; [done|]. eapply visitedIdentifier_good; eauto.
    + intros (e & He & ->). destruct (list_elem_of_lookup_1 _ _ He) as [i Hi].
      destruct (Forall2_lookup_l _ _ _ _ _ Hids Hi) as (id & Hid & Hv). apply list_elem_of_lookup_2 in Hid.
      apply visitedIdentifier_good in Hv as ->; auto.
Qed.

(** ** Subscriptions *)

Definition evolves st st' : Prop :=
  (forall a p, st_visited st !! a = Some p -> st_visited st' !! a = Some p) /\ hgrows (st_heap st) (st_heap st').

Lemma evolves_refl st : evolves st st.
Proof. split; [done|apply hgrows_refl]. Qed.
Lemma evolves_trans st1 st2 st3 : evolves st1 st2 -> evolves st2 st3 -> evolves st1 st3.
Proof. intros [V1 G1] [V2 G2]. split; [auto|by eapply hgrows_trans]. Qed.
Lemma later_evolves st v st' v' : later st v st' v' -> evolves st st'.
Proof. by intros [? ? _]. Qed.
Lemma settled_evolves st st' id p : evolves st st' -> settled st id p -> settled st' id p.
Proof. intros [Hv _] (e & ? & ? & ?). exists e. auto. Qed.

Lemma settled_heap st id p : good st -> settled st id p -> exists b, st_heap st !! p = Some b /\ bv_identifier b = id.
Proof.
  intros Hg (e & He & Hp & ->). destruct (Hg _ _ Hp) as (e' & He' & Ea & b & Hb & [(_ & _ & Hid & _) _]); [done|].
  assert (e' = e) as -> by (by apply (co_addr Hok)). eauto.
Qed.

Definition subKey (sub : Subscription) : SourceKey := mkKey (sub_CatalogSource sub) (sub_CatalogSourceNamespace sub).
Definition subID (sub : Subscription) : Identifier := "subscription:" +:+ sub_Name sub.
Definition from_catalog (k : SourceKey) e : Prop := if Empty k then cached e else in_catalog k e.

Lemma from_catalog_cached k e : from_catalog k e -> cached e.
Proof. unfold from_catalog. destruct (Empty k); [done|]. by exists k. Qed.

(** The maps of bundle variables, and candidates with a property. *)
Definition bundle_vars st (vars : gmap Identifier varRef) : Prop :=
  forall id v, vars !! id = Some v -> exists p, v = BundlePtr p /\ settled st id p.
Definition cands_ok st (cands : list nat) (P : Entry -> Prop) : Prop :=
  forall p, p ∈ cands -> exists e, cached e /\ P e /\ st_visited st !! e_addr e = Some p.

Lemma bundle_vars_evolves st st' vars : evolves st st' -> bundle_vars st vars -> bundle_vars st' vars.
Proof. intros He Hv id v Hid. destruct (Hv id v Hid) as (p & -> & ?). exists p. split; [done|by eapply settled_evolves]. Qed.
Lemma cands_ok_evolves st st' cands P : evolves st st' -> cands_ok st cands P -> cands_ok st' cands P.
Proof. intros [Hv _] Hc p Hp. destruct (Hc p Hp) as (e & ? & ? & ?). exists e. auto. Qed.

Lemma addCandidates_sound ids c variable c' (P : Entry -> Prop) :
  addCandidates ids c variable = Done c' -> good (c_st c) ->
  (forall id p, variable !! id = Some p -> settled (c_st c) id p) -> (forall e, cached e -> entryID e ∈ ids -> P e) ->
  bundle_vars (c_st c) (c_variables c) -> cands_ok (c_st c) (c_candidates c) P ->
  c_st c' = c_st c /\ bundle_vars (c_st c) (c_variables c') /\ cands_ok (c_st c) (c_candidates c') P.
Proof.
  intros Hadd Hg Hvar Hids Hb Hc.
  eapply (foldO_inv _ (fun c' => c_st c' = c_st c /\ bundle_vars (c_st c) (c_variables c') /\ cands_ok (c_st c) (c_candidates c') P)
    (fun ip => settled (c_st c) ip.1 ip.2)); [done| | |exact Hadd].
  - intros [id p] Hin%elem_of_range. by apply Hvar.
  - intros c1 [id p] c2 Hset (Hst & Hb1 & Hc1). unfold addCandidateVar. simpl in *. rewrite Hst.
    destruct (settled_heap _ _ _ Hg Hset) as (b & Hbp & Hid). rewrite Hbp. simpl. intros [= <-]. simpl. rewrite Hid.
    split_and!; [done| |].
    + intros id' v [[<- <-]|[_ ?]]%lookup_insert_Some; [by exists p|auto].
    + case_bool_decide as Hin; [|done]. intros p' [?| ->%list_elem_of_singleton]%elem_of_app; [auto|].
      destruct Hset as (e & He & Hv & ->). exists e. auto.
Qed.

(** What each entry that is followed up adds. *)
Lemma addUpgrade_sound fuel sub predicate c o c' (P : Entry -> Prop) :
  addUpgrade systemConstraints fuel snapshots sub predicate c o = Done (inr c') -> good (c_st c) ->
  (forall e, from_catalog (subKey sub) e -> meaning predicate e = true -> e_Name e = e_Name o -> P e) ->
  bundle_vars (c_st c) (c_variables c) -> cands_ok (c_st c) (c_candidates c) P ->
  good (c_st c') /\ evolves (c_st c) (c_st c') /\ bundle_vars (c_st c') (c_variables c') /\ cands_ok (c_st c') (c_candidates c') P.
Proof.
  intros Hadd Hg HP Hb Hc. unfold addUpgrade in Hadd.
  destruct (CatalogFind_found (subKey sub) [predicate; csvNamePredicate (e_Name o)] (c_counters c)) as (stack & s & Hf & Hstack).
  unfold subKey in Hf. rewrite Hf in Hadd. simpl in Hadd.
  apply bind_Done in Hadd as ([st r] & Hget & Hadd). destruct r as [er|[ids vars]]; [done|]. case_bool_decide; [done|].
  apply bind_Done in Hadd as (c1 & Hcand & [= <-]).
  assert (Hcs : forall e, e ∈ stack -> cached e) by (intros e [? _]%Hstack; by eapply from_catalog_cached).
  destruct (getBundleVariables_sound _ _ _ _ _ _ _ Hget Hcs Hg) as (Hg' & Hl & Hset & _ & Hids).
  apply later_evolves in Hl. eapply (addCandidates_sound _ _ _ _ P) in Hcand as (Hst & Hb' & Hc'); simpl in *.
  - rewrite Hst. auto.
  - done.
  - done.
  - intros e He (e' & Hin & Eid)%Hids. apply entryID_inj in Eid as ->; [|done|auto].
    apply Hstack in Hin as [Hfrom Hm]. unfold matches in Hm. simpl in Hm. bools. by apply HP.
  - by eapply bundle_vars_evolves.
  - by eapply cands_ok_evolves.
Qed.

Lemma addUpgrades_sound fuel sub predicate (P : Entry -> Prop) os : forall c c',
  addUpgrades systemConstraints fuel snapshots sub predicate c os = Done (inr c') -> good (c_st c) ->
  (forall o e, o ∈ os -> from_catalog (subKey sub) e -> meaning predicate e = true -> e_Name e = e_Name o -> P e) ->
  bundle_vars (c_st c) (c_variables c) -> cands_ok (c_st c) (c_candidates c) P ->
  good (c_st c') /\ evolves (c_st c) (c_st c') /\ bundle_vars (c_st c') (c_variables c') /\ cands_ok (c_st c') (c_candidates c') P.
Proof.
  induction os as [|o os IH]; intros c c'; simpl.
  { intros [= <-]. auto using evolves_refl. }
  intros (r & Hr & Hrest)%bind_Done Hg HP Hb Hc. destruct r as [er|c1]; [done|].
  destruct (addUpgrade_sound _ _ _ _ _ _ P Hr Hg) as (Hg1 & He1 & Hb1 & Hc1); [|done|done|].
  { intros e. apply HP. left. }
  destruct (IH c1 c' Hrest Hg1) as (Hg2 & He2 & Hb2 & Hc2); [|done|done|].
  { intros o' e Ho. apply HP. by right. }
  split_and!; [done|by eapply evolves_trans|done|done].
Qed.

Lemma sortRuns_in es : forall run last res, sortRuns es run last = inr res -> res ⊆ run ++ es.
Proof.
  induction es as [|e es IH]; intros run last res; simpl; [intros E%sortChannel_in; set_solver|].
  case_bool_decide.
  - intros E%IH. rewrite <- app_assoc in E. done.
  - intros (ch & E1%sortChannel_in & (rest & E2%IH & [= <-])%bind_inr)%bind_inr. set_solver.
Qed.

(** What the entry an operator is upgraded to must offer: a version of it (the name decides) skips or replaces
    the installed one. *)
Definition upgrades_to (cur e : Entry) : Prop :=
  exists o ver, cached o /\ e_Name o = e_Name e /\ e_Version cur = Some ver /\
    (testSkipRange ver o = true \/ testReplaces (e_Name cur) o = true).

(** An entry a subscription can be satisfied with. *)
Definition offers (sub : Subscription) (current : option Entry) e : Prop :=
  from_catalog (subKey sub) e /\ testPkg (sub_Package sub) e = true /\
  (sub_Channel sub = "" \/ Entry_Channel e = sub_Channel sub) /\
  match current with
  | Some cur => upgrades_to cur e
  | None => sub_StartingCSV sub = "" \/ e_Name e = sub_StartingCSV sub
  end.

Lemma meaning_cachePredicate sub q e : meaning (cachePredicate sub q) e = true ->
  testPkg (sub_Package sub) e = true /\ (sub_Channel sub = "" \/ Entry_Channel e = sub_Channel sub) /\ meaning q e = true.
Proof.
  simpl. rewrite andb_true_r. intros [Hpkg [Hch Hq]%andb_true_iff]%andb_true_iff. split_and!; [done| |done].
  apply orb_true_iff in Hch as [?|E]; bools; [by left|right]. unfold Entry_Channel. destruct (e_SourceInfo e) as [si|]; [|done].
  simpl in E. by injection E.
Qed.

Lemma replaceCurrent_grows sub cur b :
  bv_identifier (replaceCurrent sub cur b) = bv_identifier b /\ bv_constraints b ⊆ bv_constraints (replaceCurrent sub cur b).
Proof. split; [done|]. simpl. set_solver. Qed.

Lemma markCandidates_evolves sub current cands st :
  st_visited (markCandidates sub current st cands) = st_visited st /\ evolves st (markCandidates sub current st cands).
Proof.
  unfold markCandidates. destruct current as [cur|]; [|split; [done|apply evolves_refl]].
  revert st. induction cands as [|p cands IH]; intros st; simpl; [split; [done|apply evolves_refl]|].
  destruct (IH (update st p (replaceCurrent sub cur))) as [Hv He]. split; [by rewrite Hv|].
  eapply evolves_trans; [|exact He]. split; [done|]. simpl. apply hgrows_alter, replaceCurrent_grows.
Qed.

Lemma good_evolves st st' : st_visited st' = st_visited st -> evolves st st' -> good st -> good st'.
Proof. intros Hv [_ Hg] Hgood. by eapply good_but_grows. Qed.

Lemma cands_ids st cands P ids : good st -> cands_ok st cands P ->
  mapM (fun p => bv_identifier <$> st_heap st !! p) cands = Some ids -> forall id, id ∈ ids -> exists e, cached e /\ P e /\ id = entryID e.
Proof.
  intros Hg Hc Hm id Hid. apply mapM_Some in Hm. destruct (list_elem_of_lookup_1 _ _ Hid) as [i Hi].
  destruct (Forall2_lookup_r _ _ _ _ _ Hm Hi) as (p & Hp & Hb). apply list_elem_of_lookup_2 in Hp.
  destruct (Hc p Hp) as (e & He & HPe & Hv). exists e. split_and!; [done..|].
  destruct (settled_heap st (entryID e) p Hg) as (b & Hbp & Hidb); [by exists e|]. rewrite Hbp in Hb. simpl in Hb. congruence.
Qed.

(** A subscription variable holds only with one of its candidates. *)
Lemma NewSubscription_sat name deps X :
  (forall k, k ∈ rv_Constraints (NewSubscriptionVariable name deps) -> sat X ("subscription:" +:+ name) k) ->
  exists id, id ∈ deps /\ X id = true.
Proof.
  intros Hk. unfold NewSubscriptionVariable, rv_Constraints in Hk.
  assert (sat X ("subscription:" +:+ name) mandatory) as Hm.
  { destruct deps; apply (Hk (prettyConstraint mandatory ("subscription " +:+ name +:+ " exists"))); left. }
  assert (exists msg, sat X ("subscription:" +:+ name) (prettyConstraint (dependency deps) msg)) as [msg Hd].
  { destruct deps; eexists; apply Hk; right; left. }
  simpl in Hm, Hd. auto.
Qed.

Lemma NewInvalid_sat name reason X :
  ~ (forall k, k ∈ rv_Constraints (NewInvalidSubscriptionVariable name reason) -> sat X ("subscription:" +:+ name) k).
Proof.
  intros Hk. assert (sat X ("subscription:" +:+ name) mandatory) as Hm by (apply (Hk (prettyConstraint mandatory ("subscription " +:+ name +:+ " exists"))); left).
  assert (sat X ("subscription:" +:+ name) prohibited) as Hp by (apply (Hk (prettyConstraint prohibited reason)); right; left).
  simpl in Hm, Hp. congruence.
Qed.

(** What a subscription's constraints demand. *)
Definition demands (sub : Subscription) (current : option Entry) (ks : list Constraint) : Prop :=
  forall X, (forall k, k ∈ ks -> sat X (subID sub) k) ->
    exists e, cached e /\ X (entryID e) = true /\ (current = Some e \/ offers sub current e).

(** Its variables: those of bundles, and its own. *)
Definition sub_vars st (sub : Subscription) (vars : gmap Identifier varRef) : Prop :=
  forall id v, vars !! id = Some v -> (exists p, v = BundlePtr p /\ settled st id p) \/ (id = subID sub /\ exists ks, v = GenericRef id ks).

Definition current_ok (sub : Subscription) (current : option Entry) : Prop :=
  forall cur, current = Some cur -> in_catalog (NewVirtualSourceKey (sub_Namespace sub)) cur.

Lemma currentID_entryID sub current cur : current_ok sub current -> current = Some cur -> currentID sub cur = entryID cur.
Proof.
  intros Hc E. destruct (co_source Hok _ _ (Hc cur E)) as (si & Hsi & Hk). unfold currentID, entryID, Entry_Channel. by rewrite Hsi, Hk.
Qed.

(** The part of [getSubscriptionVariables] after the candidates are known. *)
Lemma subscription_vars sub current c st depIds :
  good (c_st c) -> bundle_vars (c_st c) (c_variables c) -> cands_ok (c_st c) (c_candidates c) (offers sub current) -> current_ok sub current ->
  st = markCandidates sub current (c_st c) (c_candidates c) ->
  mapM (fun p => bv_identifier <$> st_heap st !! p) (c_candidates c) = Some depIds ->
  let v := NewSubscriptionVariable (sub_Name sub) (depIds ++ match current with Some cur => [currentID sub cur] | None => [] end) in
  let vars := <[rv_Identifier v := genericRef v]> (c_variables c) in
  good st /\ evolves (c_st c) st /\ sub_vars st sub vars /\ exists ks, vars !! subID sub = Some (GenericRef (subID sub) ks) /\ demands sub current ks.
Proof.
  intros Hg Hb Hc Hcur -> Hm v vars. destruct (markCandidates_evolves sub current (c_candidates c) (c_st c)) as [Hv He].
  pose proof (good_evolves _ _ Hv He Hg) as Hg'. split_and!; [done|done| |].
  - intros id w [[<- <-]|[_ Hid]]%lookup_insert_Some; [right; split; [done|by eexists]|left].
    by apply (bundle_vars_evolves _ _ _ He Hb).
  - exists (rv_Constraints v). split; [unfold vars; by rewrite lookup_insert_eq|]. intros X HX.
    destruct (NewSubscription_sat _ _ X HX) as (id & [Hin|Hin]%elem_of_app & HXid).
    + destruct (cands_ids _ _ _ _ Hg' (cands_ok_evolves _ _ _ _ He Hc) Hm id Hin) as (e & ? & ? & ->). exists e. auto.
    + destruct current as [cur|]; [|by apply elem_of_nil in Hin]. apply list_elem_of_singleton in Hin as ->.
      exists cur. rewrite (currentID_entryID sub (Some cur) cur) in HXid by done. split_and!; [|done|by left].
      eexists. by apply (Hcur cur).
Qed.

Lemma getSubscriptionVariables_sound fuel sub current st st' vars :
  getSubscriptionVariables systemConstraints fuel snapshots sub current st = Done (st', inr vars) -> good st -> current_ok sub current ->
  good st' /\ evolves st st' /\ sub_vars st' sub vars /\ exists ks, vars !! subID sub = Some (GenericRef (subID sub) ks) /\ demands sub current ks.
Proof.
  intros E Hg Hcur. unfold getSubscriptionVariables in E. apply bind_Done in E as ([chps csvp] & Hsel & E).
  destruct (CatalogFind_found (subKey sub) [cachePredicate sub csvp] (fun _ => 0)) as (entries & s & Hf & Hentries).
  unfold subKey in Hf. rewrite Hf in E. simpl in E. destruct (invalidReason sub s) as [reason|].
  { injection E as <- <-. split_and!; [done|apply evolves_refl| |].
    - intros id v [<- <-]%lookup_singleton_Some. right. split; [done|by eexists].
    - eexists. split; [apply lookup_singleton_eq|]. intros X HX. by destruct (NewInvalid_sat _ _ X HX). }
  destruct (sortRuns (SliceStable entryLess entries) [] "") as [er|sorted] eqn:Esort; [done|].
  assert (Hsorted : forall e, e ∈ sorted -> cached e).
  { intros e He. apply (sortRuns_in _ _ _ _ Esort) in He. simpl in He. apply elem_of_SliceStable, Hentries in He as [? _]. by eapply from_catalog_cached. }
  destruct (Filter_found sorted chps s Hsorted) as (ups & s' & Hfilter & Hups). rewrite Hfilter in E. simpl in E.
  apply bind_Done in E as (r & Hadd & E). destruct r as [[st1 er]|c]; [done|].
  apply bind_Done in E as (depIds & Hm%orPanic_Done & [= <- <-]).
  destruct (addUpgrades_sound _ _ _ (offers sub current) _ _ _ Hadd) as (Hg1 & He1 & Hb1 & Hc1).
  - done.
  - intros o e [Ho Hom]%Hups Hfrom (Hpkg & Hch & Hq)%meaning_cachePredicate Hname. split_and!; [done..|].
    destruct current as [cur|].
    + apply bind_Done in Hsel as (ver & Hver%orPanic_Done & [= <- <-]). exists o, ver. split_and!; [auto|done|done|].
      unfold matches in Hom. simpl in Hom. rewrite andb_true_r, orb_false_r in Hom.
      rewrite <- testReplaces_meaning in Hom. by apply orb_true_iff in Hom.
    + injection Hsel as <- <-. case_bool_decide as Hs; [by left|right]. simpl in Hq. by bools.
  - intros id v Hid. simpl in Hid. by apply lookup_empty_Some in Hid.
  - by intros p ?%elem_of_nil.
  - simpl in He1. destruct (subscription_vars sub current c _ depIds Hg1 Hb1 Hc1 Hcur eq_refl Hm) as (? & ? & ? & ?).
    split_and!; [done|by eapply evolves_trans|done|done].
Qed.

(** *** Totality *)

(** A call that returns with every large enough fuel. *)
Definition returns {A} (f : nat -> outcome A) (P : A -> Prop) : Prop :=
  exists fuel r, (forall fuel', (fuel <= fuel')%nat -> f fuel' = Done r) /\ P r.

Lemma returns_bind {A B} (f : nat -> outcome A) (g : nat -> A -> outcome B) (P : A -> Prop) (Q : B -> Prop) :
  returns f P -> (forall x, P x -> returns (fun fuel => g fuel x) Q) -> returns (fun fuel => x ← f fuel; g fuel x) Q.
Proof.
  intros (n & x & Hf & Hx) Hg. destruct (Hg x Hx) as (m & y & Hgy & Hy). exists (max n m), y. split; [|done].
  intros fuel Hle. rewrite Hf by lia. simpl. apply Hgy. lia.
Qed.
Lemma returns_Done {A} (x : A) (P : A -> Prop) : P x -> returns (fun _ => Done x) P.
Proof. intros Hx. by exists 0%nat, x. Qed.

(** The state stays valid, and so do the pointers to candidates. *)
Definition cand_valid (c : candState) : Prop := valid (c_st c) /\ forall p, p ∈ c_candidates c -> is_Some (st_heap (c_st c) !! p).

Lemma addCandidates_total ids c variable : cand_valid c -> ptrs_ok (st_heap (c_st c)) variable ->
  exists c', addCandidates ids c variable = Done c' /\ cand_valid c'.
Proof.
  intros Hc Hv. unfold addCandidates.
  assert (Hr : forall ip, ip ∈ range variable -> is_Some (st_heap (c_st c) !! ip.2)).
  { intros [id p] Hin%elem_of_range. by eapply Hv. }
  revert c Hv Hc Hr. induction (range variable) as [|ip l IH]; intros c Hv Hc Hr; simpl; [by exists c|].
  destruct (Hr ip) as [b Hb]; [left|]. unfold addCandidateVar at 2. rewrite Hb. simpl. apply IH; [done| |intros ? ?; apply Hr; by right].
  destruct Hc as [Hval Hcs]. split; [done|]. simpl. intros p. case_bool_decide; [|by apply Hcs].
  intros [?| ->%list_elem_of_singleton]%elem_of_app; [by apply Hcs|by exists b].
Qed.

Definition upgrade_valid (r : (rstate * resolveError) + candState) : Prop :=
  match r with inl (st, _) => valid st | inr c => cand_valid c end.

Lemma getBundleVariables_returns ns stack st : (forall e, e ∈ stack -> cached e) -> valid st ->
  returns (fun fuel => getBundleVariables systemConstraints fuel snapshots ns stack st) (fun '(st', r) => valid st' /\ hgrows (st_heap st) (st_heap st') /\
    match r with inr (_, vars) => ptrs_ok (st_heap st') vars | inl _ => True end).
Proof.
  intros Hs Hv. destruct (getBundleVariables_total ns stack st Hs Hv) as (fuel & st' & r & Hall & Hv' & [_ Hgr] & Hr).
  exists fuel, (st', r). by split_and!.
Qed.

Lemma addUpgrade_returns sub predicate c o : cand_valid c ->
  returns (fun fuel => addUpgrade systemConstraints fuel snapshots sub predicate c o) upgrade_valid.
Proof.
  intros [Hv Hc]. unfold addUpgrade.
  destruct (CatalogFind_found (subKey sub) [predicate; csvNamePredicate (e_Name o)] (c_counters c)) as (stack & s & Hf & Hstack).
  unfold subKey in Hf. rewrite Hf. simpl.
  eapply returns_bind; [apply getBundleVariables_returns; [|exact Hv]|].
  { intros e [? _]%Hstack. by eapply from_catalog_cached. }
  intros [st r] (Hv' & Hgr & Hr). destruct r as [er|[ids vars]]; [by apply returns_Done|].
  case_bool_decide; [by apply returns_Done|].
  destruct (addCandidates_total ids (mkCand st (c_variables c) (c_candidates c) s) vars) as (c' & -> & Hc'); [|done|by apply returns_Done].
  split; [done|]. simpl. intros p Hp. destruct (Hc p Hp) as [b Hb]. destruct (Hgr p b Hb) as (b' & ? & _). by exists b'.
Qed.

Lemma addUpgrades_returns sub predicate os : forall c, cand_valid c ->
  returns (fun fuel => addUpgrades systemConstraints fuel snapshots sub predicate c os) upgrade_valid.
Proof.
  induction os as [|o os IH]; intros c Hc; simpl; [by apply returns_Done|].
  eapply returns_bind; [by apply addUpgrade_returns|]. intros [[st er]|c'] Hr; [by apply returns_Done|by apply IH].
Qed.

Lemma mark_mapM sub current c : cand_valid c ->
  let st := markCandidates sub current (c_st c) (c_candidates c) in
  valid st /\ exists ids, mapM (fun p => bv_identifier <$> st_heap st !! p) (c_candidates c) = Some ids.
Proof.
  intros [Hv Hc] st. destruct (markCandidates_evolves sub current (c_candidates c) (c_st c)) as [Hvis [_ Hgr]]. fold st in Hvis, Hgr.
  split; [by eapply valid_grows|]. apply mapM_is_Some_2, Forall_forall. intros p Hp. destruct (Hc p Hp) as [b Hb].
  destruct (Hgr p b Hb) as (b' & Hb' & _). exists (bv_identifier b'). by rewrite Hb'.
Qed.

Lemma getSubscriptionVariables_returns sub current st :
  valid st -> (forall cur, current = Some cur -> is_Some (e_Version cur)) ->
  returns (fun fuel => getSubscriptionVariables systemConstraints fuel snapshots sub current st) (fun x => valid x.1).
Proof.
  intros Hv Hver. unfold getSubscriptionVariables.
  eapply (returns_bind (fun _ => match current with Some cur => _ | None => _ end) _ (fun _ => True)).
  { destruct current as [cur|]; [|by apply returns_Done]. destruct (Hver cur eq_refl) as [ver ->]. by apply returns_Done. }
  intros [chps csvp] _.
  destruct (CatalogFind_found (subKey sub) [cachePredicate sub csvp] (fun _ => 0)) as (entries & s & Hf & Hentries).
  unfold subKey in Hf. rewrite Hf. simpl. destruct (invalidReason sub s) as [reason|]; [by apply returns_Done|].
  destruct (sortRuns (SliceStable entryLess entries) [] "") as [er|sorted] eqn:Esort; [by apply returns_Done|].
  assert (Hsorted : forall e, e ∈ sorted -> cached e).
  { intros e He. apply (sortRuns_in _ _ _ _ Esort) in He. simpl in He. apply elem_of_SliceStable, Hentries in He as [? _]. by eapply from_catalog_cached. }
  destruct (Filter_found sorted chps s Hsorted) as (ups & s' & -> & _). simpl.
  eapply returns_bind; [apply addUpgrades_returns; split; [exact Hv|by intros ? ?%elem_of_nil]|].
  intros [[st1 er]|c] Hc; [by apply returns_Done|]. destruct (mark_mapM sub current c Hc) as [Hv' [ids ->]]. simpl. by apply returns_Done.
Qed.


(** ** The variables of a resolution *)

Lemma findCurrent_ok sub : exists r, findCurrent snapshots sub = Done r /\ match r with inr current => current_ok sub current | inl _ => True end.
Proof.
  unfold findCurrent. destruct (CatalogFind_found (NewVirtualSourceKey (sub_Namespace sub)) [csvNamePredicate (sub_InstalledCSV sub)] (fun _ => 0))
    as (l & s & -> & Hl). simpl in *. destruct l as [|e [|]]; (eexists; split; [done|]); [done| |done].
  intros cur [= <-]. apply (Hl e). left.
Qed.

(** Installed operators have a version. *)
Definition versioned : Prop := forall ns e, in_catalog (NewVirtualSourceKey ns) e -> is_Some (e_Version e).

Lemma addSubscriptions_returns subs : versioned -> forall r, valid (r_st r) ->
  returns (fun fuel => addSubscriptions systemConstraints fuel snapshots r subs) (fun _ => True).
Proof.
  intros Hver. induction subs as [|sub subs IH]; intros r Hv; simpl; [by apply returns_Done|].
  eapply (returns_bind _ _ (fun x => match x with inr r => valid (r_st r) | inl _ => True end)).
  - unfold addSubscription. destruct (findCurrent_ok sub) as (cur & -> & Hcok). simpl. destruct cur as [er|current]; [by apply returns_Done|].
    eapply returns_bind; [apply (getSubscriptionVariables_returns sub current (r_st r) Hv)|].
    { intros cur ->. eapply Hver. by apply Hcok. }
    intros [st [er|vars]] Hst; by apply returns_Done.
  - intros [er|r'] Hr; [by apply returns_Done|by apply IH].
Qed.

Lemma info_noslash id : no_slash id -> BundleSourceInfo id = None.
Proof. intros Hs. unfold BundleSourceInfo. by rewrite Split_noSep. Qed.

Lemma entryID_not e id : cached e -> BundleSourceInfo id = None -> entryID e <> id.
Proof. intros He Hid <-. destruct (cached_source e He) as (si & Hsi & _). by rewrite (entryID_info e si) in Hid. Qed.

Lemma subID_info sub : no_slash (sub_Name sub) -> BundleSourceInfo (subID sub) = None.
Proof. intros Hs. apply info_noslash. unfold no_slash, subID. by rewrite HasByte_app, Hs. Qed.

Lemma subID_inj sub sub' : subID sub = subID sub' -> sub_Name sub = sub_Name sub'.
Proof. unfold subID. intros E. by injection E. Qed.

(** What holds after the subscriptions [dn], when no error was met. *)
Record resolved (vars0 : gmap Identifier nat) (dn : list Subscription) (r : resolution) : Prop := mkResolved {
  rs_good : good (r_st r);
  rs_vars : forall id v, r_variables r !! id = Some v -> (exists p, v = BundlePtr p /\ settled (r_st r) id p) \/
    exists sub, sub ∈ dn /\ id = subID sub /\ exists ks, v = GenericRef id ks;
  rs_subs : forall sub, sub ∈ dn -> exists current ks, findCurrent snapshots sub = Done (inr current) /\
    r_variables r !! subID sub = Some (GenericRef (subID sub) ks) /\ demands sub current ks;
  rs_existing : forall id, is_Some (vars0 !! id) -> is_Some (r_variables r !! id)
}.

Lemma union_dom {V} (m1 m2 : gmap Identifier V) id : is_Some (m2 !! id) -> is_Some ((m1 ∪ m2) !! id).
Proof. intros Hs. rewrite lookup_union. destruct (m1 !! id), (m2 !! id); simpl; try done. Qed.

Lemma addSubscription_resolved fuel vars0 dn r sub r' :
  addSubscription systemConstraints fuel snapshots r sub = Done (inr r') -> r_errs r' = [] ->
  no_slash (sub_Name sub) -> (forall sub', sub' ∈ dn -> no_slash (sub_Name sub') /\ sub_Name sub' <> sub_Name sub) ->
  resolved vars0 dn r -> resolved vars0 (dn ++ [sub]) r'.
Proof.
  intros E He Hname Hdn [Hg Hvars Hsubs Hex]. unfold addSubscription in E. destruct (findCurrent_ok sub) as (cur & Hcur & Hcok).
  rewrite Hcur in E. simpl in E. destruct cur as [er|current]; [done|].
  apply bind_Done in E as ([st res] & Hget & [= <-]). destruct res as [er|vars]; [by apply app_eq_nil in He as [_ ?]|].
  destruct (getSubscriptionVariables_sound _ _ _ _ _ _ Hget Hg Hcok) as (Hg' & Hev & Hsv & ks & Hks & Hdem).
  constructor; simpl; [done| | |].
  - intros id v [Hv|[_ Hv]]%lookup_union_Some_raw.
    + destruct (Hsv id v Hv) as [?|[-> ?]]; [by left|right]. exists sub. set_solver.
    + destruct (Hvars id v Hv) as [(p & -> & ?)|(sub' & ? & ?)]; [left|right].
      * exists p. split; [done|by eapply settled_evolves].
      * exists sub'. set_solver.
  - intros sub' [Hin| ->%list_elem_of_singleton]%elem_of_app.
    + destruct (Hsubs sub' Hin) as (current' & ks' & ? & Hks' & ?). exists current', ks'. split_and!; [done| |done].
      apply lookup_union_Some_raw. right. split; [|done]. apply eq_None_not_Some. intros [v Hv].
      destruct (Hdn sub' Hin) as [Hs' Hne]. destruct (Hsv _ _ Hv) as [(p & _ & e & Hce & _ & Eid)|[Eid%subID_inj _]]; [|done].
      by eapply (entryID_not e (subID sub')); [|apply subID_info|].
    + exists current, ks. split_and!; [done| |done]. by apply lookup_union_Some_l.
  - intros id Hid. by apply union_dom, Hex.
Qed.

Lemma addSubscription_errs fuel r sub r' :
  addSubscription systemConstraints fuel snapshots r sub = Done (inr r') -> r_errs r' = [] -> r_errs r = [].
Proof.
  unfold addSubscription. intros (cur & _ & E)%bind_Done. destruct cur; [done|]. apply bind_Done in E as ([st res] & _ & [= <-]).
  destruct res; simpl; [|done]. by intros [_ [=]]%app_eq_nil.
Qed.

Lemma addSubscriptions_errs fuel subs : forall r r',
  addSubscriptions systemConstraints fuel snapshots r subs = Done (inr r') -> r_errs r' = [] -> r_errs r = [].
Proof.
  induction subs as [|sub subs IH]; intros r r'; simpl; [by intros [= <-]|].
  intros (x & Hx & Hrest)%bind_Done He. destruct x as [|r1]; [done|]. eapply addSubscription_errs; [done|]. by eapply IH.
Qed.

Lemma addSubscriptions_resolved fuel vars0 subs : forall dn r r',
  addSubscriptions systemConstraints fuel snapshots r subs = Done (inr r') -> r_errs r' = [] ->
  NoDup (sub_Name <$> dn ++ subs) -> (forall sub, sub ∈ dn ++ subs -> no_slash (sub_Name sub)) ->
  resolved vars0 dn r -> resolved vars0 (dn ++ subs) r'.
Proof.
  induction subs as [|sub subs IH]; intros dn r r'; simpl.
  { rewrite app_nil_r. by intros [= <-]. }
  intros (x & Hx & Hrest)%bind_Done He Hnd Hns Hr. destruct x as [er|r1]; [done|].
  pose proof (addSubscriptions_errs _ _ _ _ Hrest He) as He1.
  rewrite (cons_middle sub dn subs) in *. rewrite !app_assoc in *. eapply IH; [done..|].
  eapply addSubscription_resolved; [done|done|apply Hns; set_solver| |done].
  intros sub' Hin. split; [apply Hns; set_solver|]. intros E.
  rewrite <- app_assoc, fmap_app in Hnd. apply NoDup_app in Hnd as (_ & Hnot & _).
  apply (Hnot (sub_Name sub')); [by apply list_elem_of_fmap_2|]. rewrite E. simpl. left.
Qed.

(** *** With the invariants *)

(** The decoded properties of a type of an entry. *)
Definition entryProps {A} (typ : string) (dec : string -> option A) e : list A :=
  omap (fun p => if bool_decide (PType p = typ) then dec (PValue p) else None) (e_Properties e).
Definition entryPackages e : list string := PackageName <$> entryProps PackageType decPackageProperty e.
Definition entryGVKs e : list (string * string * string) := gvkKey <$> entryProps GVKType decGVKProperty e.

(** Names as Kubernetes has them: no package or API prints as the identifier of a bundle or a subscription. *)
Record plain_entry e : Prop := mkPlain {
  pl_pkg : forall pkg, pkg ∈ entryPackages e -> no_slash pkg /\ HasByte " "%char pkg = false /\ HasByte ":"%char pkg = false;
  pl_gvk : forall g ver k, (g, ver, k) ∈ entryGVKs e -> no_slash g /\ no_slash ver /\ no_slash k /\ HasByte " "%char k = false
}.
Definition plain_sub (sub : Subscription) : Prop := no_slash (sub_Name sub) /\ HasByte " "%char (sub_Name sub) = false.

Lemma unique_find e si s : cached e -> e_SourceInfo e = Some si ->
  exists s', CatalogFind snapshots (si_Catalog si) [csvNamePredicate (e_Name e); channelPredicate (si_Channel si)] s = Some ([e], s').
Proof.
  intros He Hsi. destruct (cached_source e He) as (si' & Hsi' & hdr & Hk & Hin). assert (si' = si) as -> by congruence.
  unfold CatalogFind. rewrite (co_nonempty Hok _ _ Hk), Hk.
  destruct (Header_Find_meaning hdr [csvNamePredicate (e_Name e); channelPredicate (si_Channel si)] s) as [s' ->]; [by eapply header_sourced|].
  exists s'. do 2 f_equal. apply filter_singleton_elem; [by eapply (co_nodup Hok)|done| |].
  - unfold matches. simpl. rewrite Hsi. simpl. rewrite bool_decide_true by done. simpl. rewrite andb_true_r.
    apply orb_true_iff. right. by apply bool_decide_true.
  - intros e' He' Hm. unfold matches in Hm. simpl in Hm. rewrite andb_true_r in Hm. apply andb_true_iff in Hm as [Hn Hch]. bools.
    symmetry. eapply (co_name Hok); [by exists hdr|by exists hdr|done|].
    unfold Entry_Channel. rewrite Hsi. destruct Hch as [?|Hch]; bools; [by left|right].
    destruct (e_SourceInfo e'); [|done]. simpl in Hch. congruence.
Qed.

Lemma variableProps_entry {A} typ (dec : string -> option A) e b : cached e -> bv_identifier b = entryID e ->
  variableProps snapshots typ dec (BundleVar b) = entryProps typ dec e.
Proof.
  intros He Hid. destruct (cached_source e He) as (si & Hsi & _). unfold variableProps.
  rewrite Hid, (entryID_info e si He Hsi). by destruct (unique_find e si (fun _ => 0) He Hsi) as [s' ->].
Qed.

Lemma bundle_props e b : cached e -> bv_identifier b = entryID e ->
  packagesOf snapshots (BundleVar b) = entryPackages e /\ gvksOf snapshots (BundleVar b) = entryGVKs e.
Proof. intros He Hb. unfold packagesOf, gvksOf, entryPackages, entryGVKs. by rewrite !(variableProps_entry _ _ e b). Qed.

(** The variables before the invariants are added. *)
Definition base_vars (subs : list Subscription) (V0 : gmap Identifier ResolverVariable) : Prop :=
  forall id v, V0 !! id = Some v ->
    (exists e b, cached e /\ id = entryID e /\ v = BundleVar b /\ complete e b) \/
    (exists sub ks, sub ∈ subs /\ id = subID sub /\ v = GenericVar id ks).

Lemma base_vars_props subs V0 v : base_vars subs V0 -> v ∈ (range V0).*2 ->
  (packagesOf snapshots v = [] /\ gvksOf snapshots v = []) \/
  exists e, cached e /\ packagesOf snapshots v = entryPackages e /\ gvksOf snapshots v = entryGVKs e.
Proof.
  intros HV0 [id Hid]%elem_of_range_vals. destruct (HV0 id v Hid) as [(e & b & He & _ & -> & [(_ & _ & Hb & _) _])|(sub & ks & _ & _ & ->)]; [right|by left].
  exists e. split; [done|]. by apply bundle_props.
Qed.

Lemma base_vars_plain subs V0 : base_vars subs V0 -> (forall e, cached e -> plain_entry e) -> plain_names snapshots (range V0).*2.
Proof.
  intros HV0 Hpl. split.
  - intros v g ver k Hv Hin. destruct (base_vars_props subs V0 v HV0 Hv) as [[_ E]|(e & He & _ & E)]; rewrite E in Hin; [by apply elem_of_nil in Hin|].
    destruct (pl_gvk _ (Hpl e He) _ _ _ Hin) as (? & _ & _ & ?). done.
  - intros v pkg Hv Hin. destruct (base_vars_props subs V0 v HV0 Hv) as [[E _]|(e & He & E & _)]; rewrite E in Hin; [by apply elem_of_nil in Hin|].
    destruct (pl_pkg _ (Hpl e He) _ Hin) as (_ & ? & _). done.
Qed.

Lemma gvkID_info g ver k : no_slash g -> no_slash ver -> no_slash k -> BundleSourceInfo (gvkID g ver k) = None.
Proof.
  intros Hg Hv Hk. unfold BundleSourceInfo.
  replace (gvkID g ver k) with ((k +:+ " (" +:+ g) +:+ String slash (ver +:+ ")")) by (unfold gvkID; by rewrite !str_app_assoc).
  unfold no_slash in *. rewrite Split_app by (by rewrite !HasByte_app, Hk, Hg).
  rewrite Split_noSep by (by rewrite HasByte_app, Hv). done.
Qed.

(** The invariants overwrite no other variable. *)
Lemma addInvariants_keeps subs V0 id : base_vars subs V0 -> (forall e, cached e -> plain_entry e) ->
  (exists e, cached e /\ id = entryID e) \/ (exists sub, plain_sub sub /\ id = subID sub) ->
  addInvariants snapshots V0 !! id = V0 !! id.
Proof.
  intros HV0 Hpl Hid. unfold addInvariants. rewrite !foldl_insert_other; [done| |].
  - intros [[[g ver] k] ids] Hp%elem_of_range. simpl. intros E.
    destruct (foldl_origin rv_Identifier (gvksOf snapshots) (range V0).*2 (g, ver, k)) as (v & Hv & Hin); [by eexists|].
    destruct (base_vars_props subs V0 v HV0 Hv) as [[_ E']|(e & He & _ & E')]; rewrite E' in Hin; [by apply elem_of_nil in Hin|].
    destruct (pl_gvk _ (Hpl e He) _ _ _ Hin) as (Hg & Hver & Hk & Hsp). destruct Hid as [(e' & He' & ->)|(sub & [Hs Hsp'] & ->)].
    + apply (entryID_not e' (gvkID g ver k)); [done|by apply gvkID_info|by symmetry].
    + pose proof (gvkID_space g ver k) as Hspace. rewrite E in Hspace. unfold subID in Hspace. by rewrite HasByte_app, Hsp' in Hspace.
  - intros [pkg ids] Hp%elem_of_range. simpl. intros ->.
    destruct (foldl_origin rv_Identifier (packagesOf snapshots) (range V0).*2 id) as (v & Hv & Hin); [by eexists|].
    destruct (base_vars_props subs V0 v HV0 Hv) as [[E' _]|(e & He & E' & _)]; rewrite E' in Hin; [by apply elem_of_nil in Hin|].
    destruct (pl_pkg _ (Hpl e He) _ Hin) as (Hs & _ & Hcol). destruct Hid as [(e' & He' & ->)|(sub & _ & ->)].
    + by apply (entryID_not e' (entryID e') He'); [apply info_noslash|].
    + unfold subID in Hcol. by rewrite HasByte_app in Hcol.
Qed.

Lemma resolved_base vars0 subs r : resolved vars0 subs r -> base_vars subs (omap (deref (r_st r)) (r_variables r)).
Proof.
  intros [Hg Hvars _ _] id v (ref & Hd & Href)%lookup_omap_Some.
  destruct (Hvars id ref Href) as [(p & -> & e & He & Hv & ->)|(sub & Hin & -> & ks & ->)]; simpl in Hd.
  - left. destruct (Hg _ _ Hv) as (e' & He' & Ea & b & Hb & Hc); [done|]. assert (e' = e) as -> by (by apply (co_addr Hok)).
    rewrite Hb in Hd. injection Hd as <-. eauto 10.
  - right. injection Hd as <-. eauto 10.
Qed.

Definition keyed (V : gmap Identifier ResolverVariable) : Prop := forall id v, V !! id = Some v -> rv_Identifier v = id.

Lemma base_keyed subs V0 : base_vars subs V0 -> keyed V0.
Proof.
  intros HV0 id v Hid. destruct (HV0 id v Hid) as [(e & b & _ & -> & -> & [(_ & _ & Hb & _) _])|(sub & ks & _ & _ & ->)]; done.
Qed.
Lemma addInvariants_keyed V0 : keyed V0 -> keyed (addInvariants snapshots V0).
Proof.
  assert (Hfold : forall B (f : B -> ResolverVariable) xs m, keyed m -> keyed (foldl (fun m x => insertVar m (f x)) m xs)).
  { intros B f xs. induction xs as [|x xs IH]; intros m Hm; simpl; [done|]. apply IH.
    intros id v. unfold insertVar. intros [[<- <-]|[_ ?]]%lookup_insert_Some; auto. }
  intros HV0. unfold addInvariants. by apply Hfold, Hfold.
Qed.

(** The invariants add no bundle variables. *)
Lemma addInvariants_bundle V0 id b : addInvariants snapshots V0 !! id = Some (BundleVar b) -> V0 !! id = Some (BundleVar b).
Proof.
  assert (Hfold : forall B (f : B -> ResolverVariable) xs m, (forall x, f x <> BundleVar b) ->
    foldl (fun m x => insertVar m (f x)) m xs !! id = Some (BundleVar b) -> m !! id = Some (BundleVar b)).
  { intros B f xs. induction xs as [|x xs IH]; intros m Hf; simpl; [done|]. intros Hx. apply IH in Hx; [|done].
    unfold insertVar in Hx. apply lookup_insert_Some in Hx as [[_ E]|[_ ?]]; [by apply Hf in E|done]. }
  unfold addInvariants. intros Hb. apply Hfold in Hb; [|by intros [pkg ids]]. apply Hfold in Hb; [done|by intros [[[g ver] k] ids]].
Qed.

(** *** Selections of the variables *)

Section selection.
Context (subs : list Subscription) (V0 : gmap Identifier ResolverVariable) (X : Identifier -> bool).
Context (HV0 : base_vars subs V0) (Hpl : forall e, cached e -> plain_entry e).
Context (Hsubs : forall sub, sub ∈ subs -> plain_sub sub).
Let V := addInvariants snapshots V0.
Context (Hsol : solution (toVariable <$> (range V).*2) X).
Context (Hsel : forall id, X id = true -> is_Some (V !! id)).

(** The entries selected. *)
Definition selected_entry e : Prop := cached e /\ X (entryID e) = true.

Lemma kept_entry e : cached e -> V !! entryID e = V0 !! entryID e.
Proof. intros He. eapply addInvariants_keeps; [done|done|]. eauto. Qed.

Lemma var_sat id v k : V !! id = Some v -> k ∈ rv_Constraints v -> sat X id k.
Proof.
  intros Hid Hk. pose proof (addInvariants_keyed _ (base_keyed _ _ HV0) id v Hid) as Ekey.
  specialize (Hsol (toVariable v) k). simpl in Hsol. rewrite Ekey in Hsol. apply Hsol; [|done].
  apply list_elem_of_fmap_2, elem_of_range_vals. eauto.
Qed.

Lemma entry_var e v : cached e -> V0 !! entryID e = Some v -> exists b, v = BundleVar b /\ complete e b.
Proof.
  intros He Hv. destruct (HV0 _ _ Hv) as [(e' & b & He' & Eid & -> & Hc)|(sub & ks & Hin & Eid & ->)].
  - apply entryID_inj in Eid as ->; [|done..]. eauto.
  - exfalso. apply (entryID_not e (subID sub)); [done| |done]. apply subID_info. by apply Hsubs.
Qed.

Lemma selected_var e : selected_entry e -> exists b, V0 !! entryID e = Some (BundleVar b) /\ complete e b.
Proof.
  intros [He HX]. destruct (Hsel _ HX) as [v Hv]. rewrite kept_entry in Hv by done.
  destruct (entry_var e v He Hv) as (b & -> & ?). eauto.
Qed.

Lemma selected_dependency e ds d : selected_entry e -> convertDependencyProperties (e_Properties e) = inr ds -> d ∈ ds ->
  exists e', selected_entry e' /\ meaning d e' = true.
Proof.
  intros Hs Hds Hd. destruct (selected_var e Hs) as (b & Hb & [_ (ds' & Hds' & Hreq)]). destruct Hs as [He HX].
  assert (ds' = ds) as -> by congruence. destruct (Hreq d Hd) as (ids & msg & Hk & Hids).
  assert (sat X (entryID e) (prettyConstraint (dependency ids) msg)) as Hsat.
  { eapply var_sat; [by rewrite kept_entry|done]. }
  simpl in Hsat. destruct (Hsat HX) as (id & Hin & HXid). destruct (Hids id Hin) as (e' & He' & Hm & ->). by exists e'.
Qed.

Lemma selected_exclusive e e' : selected_entry e -> selected_entry e' -> e <> e' ->
  (forall pkg, pkg ∈ entryPackages e -> pkg ∉ entryPackages e') /\ (forall gvk, gvk ∈ entryGVKs e -> gvk ∉ entryGVKs e').
Proof.
  intros Hs Hs' Hne. destruct (selected_var e Hs) as (b & Hb & [(_ & _ & Hid & _) _]), (selected_var e' Hs') as (b' & Hb' & [(_ & _ & Hid' & _) _]).
  destruct Hs as [He HX], Hs' as [He' HX'].
  destruct (addInvariants_excludes snapshots V0 X (BundleVar b) (BundleVar b')) as [Hp Hg]; simpl.
  - done.
  - apply elem_of_range_vals. eauto.
  - apply elem_of_range_vals. eauto.
  - rewrite Hid, Hid'. intros E. by apply entryID_inj in E.
  - by rewrite Hid.
  - by rewrite Hid'.
  - destruct (bundle_props e b He Hid) as [E1 E2], (bundle_props e' b' He' Hid') as [E1' E2'].
    rewrite E1, E1' in Hp. rewrite E2, E2' in Hg. split; [done|]. apply Hg. by eapply base_vars_plain.
Qed.

Lemma selected_not_deprecated e : selected_entry e -> forall p, p ∈ e_Properties e -> PType p <> DeprecatedType.
Proof.
  intros Hs p Hp Hdep. destruct (selected_var e Hs) as (b & Hb & [(b0 & Hb0 & _ & Hsub) _]). destruct Hs as [He HX].
  destruct (cached_source e He) as (si & Hsi & _).
  assert (exists msg, prettyConstraint prohibited msg ∈ bv_constraints b0) as [msg Hin].
  { assert (existsb (fun p => bool_decide (PType p = DeprecatedType)) (e_Properties e) = true) as Hex.
    { apply existsb_elem_of. exists p. split; [done|]. by apply bool_decide_true. }
    eexists. eapply (newBundle_base e b0); [done|unfold NewBundleVariableFromOperator; by rewrite Hsi|].
    simpl. rewrite Hex. apply elem_of_app. right. left. }
  assert (sat X (entryID e) (prettyConstraint prohibited msg)) as Hsat.
  { eapply var_sat; [by rewrite kept_entry|]. simpl. by apply Hsub. }
  simpl in Hsat. congruence.
Qed.

Lemma freestanding_selected e si : in_catalog (si_Catalog si) e -> e_SourceInfo e = Some si -> Virtual (si_Catalog si) = true ->
  si_Subscription si = None -> is_Some (V0 !! entryID e) -> selected_entry e.
Proof.
  intros Hin Hsi Hvirt Hnone [v Hv]. assert (cached e) as He by (by eexists).
  destruct (entry_var e v He Hv) as (b & -> & [(b0 & Hb0 & _ & Hsub) _]). split; [done|].
  assert (exists msg, prettyConstraint mandatory msg ∈ bv_constraints b0) as [msg Hk].
  { eexists. eapply (newBundle_base e b0); [done|unfold NewBundleVariableFromOperator; by rewrite Hsi|].
    simpl. rewrite Hvirt, Hnone, (bool_decide_true (None = None)) by done. left. }
  assert (sat X (entryID e) (prettyConstraint mandatory msg)) as Hsat; [|done].
  eapply var_sat; [by rewrite kept_entry|]. simpl. by apply Hsub.
Qed.
End selection.

(** ** The operators *)

Lemma operatorVariables_spec V solved : forall bs, operatorVariables V solved = inr bs -> forall b,
  b ∈ bs <-> exists v name ch cat, v ∈ solved /\ V !! v_Identifier v = Some (BundleVar b) /\
    BundleSourceInfo (bv_identifier b) = Some (name, ch, cat) /\ Virtual cat = false.
Proof.
  induction solved as [|v solved IH]; simpl; intros bs; [intros [= <-] b; rewrite elem_of_nil; naive_solver (by eapply elem_of_nil)|].
  destruct (V !! v_Identifier v) as [[b0|id ks]|] eqn:Ev.
  - destruct (BundleSourceInfo (bv_identifier b0)) as [[[name ch] cat]|] eqn:Ei; [|done].
    intros (rest & Hrest & [= <-])%bind_inr b. specialize (IH rest Hrest b). split.
    + destruct (Virtual cat) eqn:Evirt; [|intros [->|Hb]%elem_of_cons].
      * intros (v' & n & c & k & ? & ? & ? & ?)%IH. exists v', n, c, k. split_and!; [by right|done..].
      * exists v, name, ch, cat. split_and!; [left|done..].
      * apply IH in Hb as (v' & n & c & k & ? & ? & ? & ?). exists v', n, c, k. split_and!; [by right|done..].
    + intros (v' & n & c & k & [->|Hin]%elem_of_cons & Hv' & Hi & Hk).
      * assert (b = b0) as -> by congruence. assert (k = cat) as -> by congruence. rewrite Hk. left.
      * assert (b ∈ rest) by (apply IH; eauto 10). destruct (Virtual cat); [done|by right].
  - intros Hrest b. rewrite (IH bs Hrest b). split; intros (v' & n & c & k & Hin & Hv' & ? & ?); exists v', n, c, k;
      [split_and!; [by right|done..]|]. apply elem_of_cons in Hin as [->|Hin]; [congruence|done].
  - intros Hrest b. rewrite (IH bs Hrest b). split; intros (v' & n & c & k & Hin & Hv' & ? & ?); exists v', n, c, k;
      [split_and!; [by right|done..]|]. apply elem_of_cons in Hin as [->|Hin]; [congruence|done].
Qed.

(** The returned operator is a copy of the entry. *)
Definition copy_of (op e : Entry) : Prop := exists starting b, op = copyOperator starting b (e_Name e) e.

Lemma addOperators_spec starting bs : forall acc ops errs,
  foldO (addOperator snapshots starting) acc bs = Done (ops, errs) -> errs = [] ->
  (forall b, b ∈ bs -> exists e, cached e /\ bv_identifier b = entryID e) ->
  acc.2 = [] /\ forall op, op ∈ ops <-> op ∈ acc.1 \/ exists b e, b ∈ bs /\ cached e /\ bv_identifier b = entryID e /\
    op = copyOperator starting b (e_Name e) e.
Proof.
  induction bs as [|b bs IH]; intros acc ops errs; simpl.
  { intros [= ->] -> _. split; [done|]. intros op. split; [by left|]. intros [?|(b & e & Hb & _)]; [done|]. by apply elem_of_nil in Hb. }
  intros (acc1 & Hacc1 & Hrest)%bind_Done He Hbs. destruct (Hbs b) as (e & Hce & Hid); [left|].
  destruct (IH acc1 ops errs Hrest He) as [He1 Hops]; [intros ? ?; apply Hbs; by right|].
  unfold addOperator in Hacc1. destruct (cached_source e Hce) as (si & Hsi & _).
  rewrite Hid, (entryID_info e si Hce Hsi) in Hacc1. destruct (unique_find e si (fun _ => 0) Hce Hsi) as [s' Hf].
  rewrite Hf in Hacc1. simpl in Hacc1. rewrite Hsi in Hacc1. simpl in Hacc1. injection Hacc1 as <-. simpl in *. split; [done|].
  intros op. rewrite Hops, elem_of_app, list_elem_of_singleton. split.
  - intros [[?| ->]|(b' & e' & ? & ? & ? & ?)]; [by left|right; exists b, e; split_and!; [left|done..]|right; exists b', e'; split_and!; [by right|done..]].
  - intros [?|(b' & e' & [->|Hin]%elem_of_cons & Hce' & Hid' & ->)]; [by left; left| |right; eauto 10].
    left. right. assert (e' = e) as ->; [|done]. apply entryID_inj; [done..|congruence].
Qed.
End sound.

(** ** Resolution is sound *)

Section solved.
Context `{SatOps, DequeOps, RangeOrder}.

Lemma Do_mono fuel fuel' h anchors f : (fuel <= fuel')%nat -> Do fuel h anchors = Done f -> Do fuel' h anchors = Done f.
Proof.
  intros Hle. unfold Do. cbv zeta. set (h0 := mkSearch _ _ _ _ _ _). destruct (loop fuel h0) as [hr| |] eqn:E; [|done..].
  by rewrite (loop_mono _ _ _ _ Hle E).
Qed.

Lemma Solve_mono fuel fuel' s r : (fuel <= fuel')%nat -> Solve fuel s = Done r -> Solve fuel' s = Done r.
Proof.
  intros Hle. unfold Solve. destruct (LitsOf _ _) as [d anchors]. destruct (SatInterface.Test _) as [g result]. destruct (_ || _); [done|].
  destruct (Do fuel _ _) as [f| |] eqn:E; [|done..]. by rewrite (Do_mono _ _ _ _ _ Hle E).
Qed.
End solved.

Section resolve_sound.
Context `{ResolverLib, ConstraintDecoder, RangeOrder, SortLib, Circuit, !SatOps, !Sat, Deque}.
Context (systemConstraints : option (Entry -> option (list Constraint))) (snapshots : Snapshots).
Implicit Types (e : Entry) (subs : list Subscription).

Lemma Solve_solution fuel vs s s' sol : New vs = inr s -> Solve fuel s = Done (s', Solved sol) ->
  solution vs (chosen sol) /\ sol ⊆ vs.
Proof.
  intros Hn Hs. destruct (Solve_ok vs s Hn) as (fuel0 & s0 & r0 & Hall & Hr).
  specialize (Hall (max fuel fuel0) ltac:(lia)). apply (Solve_mono _ (max fuel fuel0)) in Hs; [|lia].
  rewrite Hall in Hs. injection Hs as -> ->. done.
Qed.

Definition is_virtual e : bool := match e_SourceInfo e with Some si => Virtual (si_Catalog si) | None => false end.

Context (Hok : cache_ok snapshots).

(** The operators returned by [solveVariables] are the selected entries that are not installed. *)
Lemma solveVariables_sound fuel starting subs V0 ops :
  base_vars systemConstraints snapshots subs V0 -> (forall e, cached snapshots e -> plain_entry e) -> (forall sub, sub ∈ subs -> plain_sub sub) ->
  solveVariables fuel snapshots starting (addInvariants snapshots V0) = Done (inr ops) ->
  exists X, solution (toVariable <$> (range (addInvariants snapshots V0)).*2) X /\
    (forall id, X id = true -> is_Some (addInvariants snapshots V0 !! id)) /\
    (forall op, op ∈ ops -> exists e, selected_entry snapshots X e /\ is_virtual e = false /\ copy_of op e) /\
    (forall e, selected_entry snapshots X e -> is_virtual e = false -> exists op, op ∈ ops /\ copy_of op e).
Proof.
  intros HV0 Hpl Hsubs Hsolve. set (V := addInvariants snapshots V0) in *. unfold solveVariables in Hsolve.
  pose proof (addInvariants_keyed snapshots _ (base_keyed _ _ _ _ HV0)) as Hkey. fold V in Hkey.
  destruct (New _) as [id|s] eqn:En; [done|]. apply bind_Done in Hsolve as ([s' r] & Hs & Hsolve). destruct r as [sol| | | |]; [|done..].
  destruct (operatorVariables V sol) as [er|bs] eqn:Eb; [done|]. apply bind_Done in Hsolve as ([ops' errs] & Hops & Hres).
  destruct errs as [|]; [|done]. injection Hres as ->. destruct (Solve_solution _ _ _ _ _ En Hs) as [Hsol Hsub].
  assert (Hsel : forall id, chosen sol id = true -> exists v, v ∈ sol /\ v_Identifier v = id /\ exists rv, V !! id = Some rv).
  { intros id Hid. unfold chosen in Hid. bools. apply list_elem_of_fmap in Hid as (v & -> & Hv). exists v. split_and!; [done..|].
    apply Hsub, list_elem_of_fmap in Hv as (rv & -> & [id Hid]%elem_of_range_vals). simpl. exists rv. by rewrite (Hkey id rv Hid). }
  exists (chosen sol).
  assert (Hsel' : forall id, chosen sol id = true -> is_Some (V !! id)).
  { intros id Hid. destruct (Hsel id Hid) as (_ & _ & _ & rv & ?). by exists rv. }
  pose proof (selected_var systemConstraints snapshots Hok subs V0 (chosen sol) HV0 Hpl Hsubs Hsel') as Hvar.
  pose proof (operatorVariables_spec V sol bs Eb) as Hbs.
  assert (Hbase : forall b, b ∈ bs -> exists e, cached snapshots e /\ bv_identifier b = entryID e /\ chosen sol (entryID e) = true /\ is_virtual e = false).
  { intros b (v & n & c & k & Hv & HVb & Hi & Hk)%Hbs. apply addInvariants_bundle in HVb.
    destruct (HV0 _ _ HVb) as [(e & b' & He & Eid & [= <-] & [(_ & _ & Hid & _) _])|(sub & ks & _ & _ & [=])].
    exists e. split_and!; [done..| |].
    - unfold chosen. apply bool_decide_true. rewrite <- Eid. by apply list_elem_of_fmap_2.
    - destruct (cached_source snapshots Hok e He) as (si & Hsi & _). rewrite Hid, (entryID_info snapshots Hok e si He Hsi) in Hi.
      unfold is_virtual. rewrite Hsi. by injection Hi as _ _ <-. }
  destruct (addOperators_spec snapshots Hok starting bs _ _ _ Hops eq_refl) as [_ Hspec].
  { intros b Hb. destruct (Hbase b Hb) as (e & ? & ? & _). eauto. }
  split_and!; [done|done| |].
  - intros op [?%elem_of_nil|(b & e & Hb & He & Hid & ->)]%Hspec; [done|].
    destruct (Hbase b Hb) as (e' & He' & Hid' & HX & Hvirt). assert (e' = e) as -> by (apply (entryID_inj snapshots Hok); [done..|congruence]).
    exists e. split_and!; [done..|]. by exists starting, b.
  - intros e Hse Hvirt. destruct (Hvar e Hse) as (b & HVb & [(_ & _ & Hid & _) _]). destruct Hse as [He HX].
    exists (copyOperator starting b (e_Name e) e). split; [|by exists starting, b]. apply Hspec. right. exists b, e. split_and!; [|done..].
    apply Hbs. destruct (Hsel _ HX) as (v & Hv & Hvid & _). destruct (cached_source snapshots Hok e He) as (si & Hsi & _).
    exists v, (e_Name e), (si_Channel si), (si_Catalog si). split_and!; [done| | |].
    + rewrite Hvid. unfold V. by rewrite (kept_entry systemConstraints snapshots Hok subs V0 HV0 Hpl).
    + rewrite Hid. by apply (entryID_info snapshots Hok).
    + unfold is_virtual in Hvirt. by rewrite Hsi in Hvirt.
Qed.

(** What a resolution in namespace [ns] promises of the entries [sel] that will be installed: the operators to
    install and those installed that are kept. *)
Record resolution_ok (ns : string) subs (ops : list Entry) (sel : Entry -> Prop) : Prop := mkResolutionOk {
  ro_cached : forall e, sel e -> cached snapshots e;
  ro_new : forall op, op ∈ ops -> exists e, sel e /\ is_virtual e = false /\ copy_of op e;
  ro_all : forall e, sel e -> is_virtual e = false -> exists op, op ∈ ops /\ copy_of op e;
  ro_subs : forall sub, sub ∈ subs -> exists current e, findCurrent snapshots sub = Done (inr current) /\ sel e /\
    (current = Some e \/ offers snapshots sub current e);
  ro_deps : forall e ds d, sel e -> convertDependencyProperties (e_Properties e) = inr ds -> d ∈ ds ->
    exists e', sel e' /\ meaning d e' = true;
  ro_single : forall e e', sel e -> sel e' -> e <> e' ->
    (forall pkg, pkg ∈ entryPackages e -> pkg ∉ entryPackages e') /\ (forall gvk, gvk ∈ entryGVKs e -> gvk ∉ entryGVKs e');
  ro_supported : forall e p, sel e -> p ∈ e_Properties e -> PType p <> DeprecatedType;
  ro_freestanding : forall e si, in_catalog snapshots (NewVirtualSourceKey ns) e -> e_SourceInfo e = Some si ->
    si_Subscription si = None -> ns <> "" -> sel e
}.

Lemma existing_resolved fuel ns l st ids vars s :
  CatalogFind snapshots (NewVirtualSourceKey ns) [booleanPredicate true] (fun _ => 0) = Some (l, s) ->
  getBundleVariables systemConstraints fuel snapshots ns l (mkState [] ∅) = Done (st, inr (ids, vars)) ->
  resolved systemConstraints snapshots vars [] (mkRes st (BundlePtr <$> vars) ∅ []) /\
  forall e, in_catalog snapshots (NewVirtualSourceKey ns) e -> is_Some (vars !! entryID e).
Proof.
  intros Hf Hget. destruct (CatalogFind_found snapshots Hok (NewVirtualSourceKey ns) [booleanPredicate true] (fun _ => 0)) as (l' & s' & Hf' & Hl).
  assert (l' = l) as -> by congruence.
  destruct (getBundleVariables_sound systemConstraints snapshots Hok _ _ _ _ _ _ _ Hget) as (Hg & _ & Hset & Hhas & _).
  { intros e [? _]%Hl. by exists (NewVirtualSourceKey ns). }
  { intros a p Ha. simpl in Ha. by apply lookup_empty_Some in Ha. }
  split; [constructor; simpl; [done| | |]|].
  - intros id v Hv. rewrite lookup_fmap in Hv. apply fmap_Some in Hv as (p & Hp & ->). left. exists p. auto.
  - by intros sub ?%elem_of_nil.
  - intros id Hid. rewrite lookup_fmap. by apply fmap_is_Some.
  - intros e He. apply Hhas, Hl. done.
Qed.

Lemma Resolve_resolution fuel ns rest subs ops :
  (forall e, cached snapshots e -> plain_entry e) -> (forall sub, sub ∈ subs -> plain_sub sub) -> NoDup (sub_Name <$> subs) ->
  Resolve systemConstraints fuel snapshots (ns :: rest) subs = Done (inr ops) -> exists sel, resolution_ok ns subs ops sel.
Proof.
  intros Hpl Hsubs Hnd Hres. unfold Resolve in Hres. apply bind_Done in Hres as ([l s] & Hf%orPanic_Done & Hres).
  apply bind_Done in Hres as ([st res] & Hget & Hres). destruct res as [er|[ids vars]]; [done|].
  apply bind_Done in Hres as (x & Hadd & Hres). destruct x as [er|r]; [done|].
  destruct (Cache_Error snapshots); [|done]. destruct (r_errs r) as [|] eqn:Ee; [|done].
  destruct (existing_resolved _ _ _ _ _ _ _ Hf Hget) as [Hr0 Hex].
  pose proof (addSubscriptions_resolved systemConstraints snapshots Hok _ _ subs [] _ _ Hadd Ee Hnd ltac:(intros; by apply Hsubs) Hr0) as Hr.
  simpl in Hr. set (V0 := omap (deref (r_st r)) (r_variables r)) in *.
  pose proof (resolved_base _ _ Hok _ _ _ Hr) as HV0. fold V0 in HV0.
  destruct (solveVariables_sound _ _ _ _ _ HV0 Hpl Hsubs Hres) as (X & Hsol & Hsel & Hnew & Hall).
  exists (selected_entry snapshots X). constructor; [by intros e [? _]|done|done| | | | |].
  - intros sub Hin. destruct (rs_subs _ _ _ _ _ Hr sub Hin) as (current & ks & Hcur & Hks & Hdem). exists current.
    destruct (Hdem X) as (e & He & HXe & Hoff); [|by exists e].
    assert (V0 !! subID sub = Some (GenericVar (subID sub) ks)) as HVs by (apply lookup_omap_Some; by exists (GenericRef (subID sub) ks)).
    intros k Hk. apply (var_sat systemConstraints snapshots subs V0 X HV0 Hsol (subID sub) (GenericVar (subID sub) ks)); [|done].
    rewrite (addInvariants_keeps systemConstraints snapshots Hok subs V0); [exact HVs|done|done|right; eauto].
  - intros e ds d. eapply selected_dependency; eauto.
  - intros e e'. eapply selected_exclusive; eauto.
  - intros e p He. by eapply selected_not_deprecated.
  - intros e si Hin Hsi Hnone Hns. destruct (co_source _ Hok _ _ Hin) as (si' & Hsi' & Hk). assert (si' = si) as -> by congruence.
    eapply (freestanding_selected systemConstraints snapshots Hok subs V0 X HV0 Hpl Hsubs Hsol e si); [by rewrite Hk|done| |done|].
    + rewrite Hk. unfold Virtual, NewVirtualSourceKey. simpl. by rewrite bool_decide_false.
    + destruct (rs_existing _ _ _ _ _ Hr (entryID e) (Hex e Hin)) as [v Hv].
      destruct (rs_vars _ _ _ _ _ Hr _ _ Hv) as [(p & -> & Hset)|(sub & Hsub & Eid & _)].
      * destruct (settled_heap _ _ Hok _ _ _ (rs_good _ _ _ _ _ Hr) Hset) as (b & Hb & _).
        exists (BundleVar b). apply lookup_omap_Some. exists (BundlePtr p). split; [simpl; by rewrite Hb|done].
      * exfalso. apply (entryID_not snapshots Hok e (subID sub)); [by eexists| |done]. apply subID_info. by apply Hsubs.
Qed.

Lemma solveVariables_returns starting V : returns (fun fuel => solveVariables fuel snapshots starting V) (fun _ => True).
Proof.
  unfold solveVariables. destruct (New _) as [id|s] eqn:En; [by apply returns_Done|].
  eapply (returns_bind _ _ (fun _ => True)).
  { destruct (Solve_ok _ _ En) as (fuel & s' & r & Hall & _). by exists fuel, (s', r). }
  intros [s' r] _. destruct r as [sol| | | |]; try by apply returns_Done.
  destruct (operatorVariables V sol) as [er|bs]; [by apply returns_Done|].
  destruct (foldO_Done (addOperator snapshots starting) bs ([], [])) as [[ops errs] ->]; [|by apply returns_Done].
  intros acc b _. unfold addOperator. destruct (BundleSourceInfo (bv_identifier b)) as [[[name ch] cat]|]; [|by eexists].
  destruct (CatalogFind_found snapshots Hok cat [csvNamePredicate name; channelPredicate ch] (fun _ => 0)) as (l & s0 & -> & Hl). simpl.
  destruct l as [|e [|]]; simpl; [by eexists| |by eexists].
  assert (cached snapshots e) as He by (eapply from_catalog_cached; apply (Hl e); left).
  destruct (cached_source snapshots Hok e He) as (si & -> & _). by eexists.
Qed.

Lemma Resolve_returns namespaces subs : versioned snapshots ->
  returns (fun fuel => Resolve systemConstraints fuel snapshots namespaces subs) (fun _ => True).
Proof.
  intros Hver. unfold Resolve. destruct namespaces as [|ns rest]; [by apply returns_Done|].
  destruct (CatalogFind_found snapshots Hok (NewVirtualSourceKey ns) [booleanPredicate true] (fun _ => 0)) as (l & s & -> & Hl). simpl.
  eapply returns_bind; [apply (getBundleVariables_returns systemConstraints snapshots Hok)|].
  { intros e [? _]%Hl. by exists (NewVirtualSourceKey ns). }
  { intros a p Ha. simpl in Ha. by apply lookup_empty_Some in Ha. }
  intros [st [er|[ids vars]]] (Hv & _); [by apply returns_Done|].
  eapply returns_bind; [by apply (addSubscriptions_returns systemConstraints snapshots Hok)|].
  intros [er|r] _; [by apply returns_Done|]. destruct (Cache_Error snapshots); [|by apply returns_Done].
  destruct (r_errs r); [apply solveVariables_returns|by apply returns_Done].
Qed.
End resolve_sound.

(** C1: a resolution that returns operators is sound.  With the installed operators that it keeps they satisfy
    every subscription (with the installed operator, or an entry the subscription's package, channel
    and starting version or upgrade edges offer), contain an operator for each of their dependencies,
    share no package and no API, and are not deprecated; installed operators without a subscription
    stay. *)
Theorem Resolve_sound `{ResolverLib, ConstraintDecoder, RangeOrder, SortLib, Circuit, !SatOps, !Sat, Deque}
    (systemConstraints : option (Entry -> option (list Constraint))) (snapshots : Snapshots)
    (fuel : nat) (ns : string) (rest : list string) (subs : list Subscription) (ops : list Entry) :
  cache_ok snapshots -> (forall e, cached snapshots e -> plain_entry e) ->
  (forall sub, sub ∈ subs -> plain_sub sub) -> NoDup (sub_Name <$> subs) ->
  Resolve systemConstraints fuel snapshots (ns :: rest) subs = Done (inr ops) ->
  exists sel, resolution_ok snapshots ns subs ops sel.
Proof. intros Hok. by apply Resolve_resolution. Qed.

(** C2: a resolution ends, and never dereferences nil, on every cache whose entries know their catalog and whose
    installed operators have a version: enough fuel gives a result, an error or the operators. *)
Theorem Resolve_terminates `{ResolverLib, ConstraintDecoder, RangeOrder, SortLib, Circuit, !SatOps, !Sat, Deque}
    (systemConstraints : option (Entry -> option (list Constraint))) (snapshots : Snapshots)
    (namespaces : list string) (subs : list Subscription) :
  cache_ok snapshots -> versioned snapshots ->
  exists fuel r, forall fuel', (fuel <= fuel')%nat -> Resolve systemConstraints fuel' snapshots namespaces subs = Done r.
Proof.
  intros Hok Hver. destruct (Resolve_returns systemConstraints snapshots Hok namespaces subs Hver) as (fuel & r & Hall & _). eauto.
Qed.

(** ** A resolution *)

Definition demo_key : SourceKey := mkKey "community" "olm".
Definition demo_installed_key : SourceKey := NewVirtualSourceKey "ns".

(** Version 2 of [a], which replaces version 1, needs [b]; [c] is installed. *)
Definition demo_operator (addr : nat) (name pkg replaces : string) (key : SourceKey) (deps : list Property) : @Entry demo_semver :=
  @mkEntry demo_semver addr name replaces [] None ∅ ∅ (Some name)
    (Some (mkSourceInfo pkg "stable" "" key true None None)) (mkProperty PackageType (pkg +:+ "@" +:+ name) :: deps) "" None.
Definition demo_a1 := demo_operator 1 "a1" "a" "" demo_key [].
Definition demo_a2 := demo_operator 2 "a2" "a" "a1" demo_key [mkProperty "olm.package.required" "b@b1"].
Definition demo_b1 := demo_operator 3 "b1" "b" "" demo_key [].
Definition demo_c1 := demo_operator 4 "c1" "c" "" demo_installed_key [].

Definition demo_cache : @Snapshots demo_semver :=
  <[demo_key := @mkHeader demo_semver demo_key (Some [demo_a1; demo_a2; demo_b1]) false 0]>
  {[demo_installed_key := @mkHeader demo_semver demo_installed_key (Some [demo_c1]) false 0]}.
Definition demo_decoder : ConstraintDecoder := {| decodeConstraint _ := None |}.
Definition demo_sub : Subscription := mkSub "sub" "ns" "a" "stable" "community" "olm" "" "".

Definition demo_resolve (fuel : nat) : outcome (resolveError + list (@Entry demo_semver)) :=
  @Resolve demo_semver demo_lib demo_decoder canonical_order insertion_sort_lib None demo_circuit_ops demo_sat_ops linked_ops
    fuel demo_cache ["ns"; "olm"] [demo_sub].
Definition demo_operators : list (@Entry demo_semver) := match demo_resolve 200 with Done (inr ops) => ops | _ => [] end.

(** The newest version of [a] is installed, with the [b] it needs. *)
Example demo_resolve_operators : e_Name <$> demo_operators = ["a2"; "b1"].
Proof. vm_compute. reflexivity. Qed.

Lemma demo_in_catalog k e : in_catalog demo_cache k e ->
  (k = demo_key /\ (e = demo_a1 \/ e = demo_a2 \/ e = demo_b1)) \/ (k = demo_installed_key /\ e = demo_c1).
Proof.
  intros (hdr & Hk & He). unfold demo_cache, Snapshots in Hk. apply lookup_insert_Some in Hk as [[<- <-]|[_ Hk]].
  - left. split; [done|]. unfold header_entries in He. simpl in He. rewrite !elem_of_cons, elem_of_nil in He. tauto.
  - apply lookup_singleton_Some in Hk as [<- <-]. right. split; [done|]. by apply list_elem_of_singleton in He.
Qed.

Lemma demo_cached e : cached demo_cache e -> e = demo_a1 \/ e = demo_a2 \/ e = demo_b1 \/ e = demo_c1.
Proof. intros [k Hk]. apply demo_in_catalog in Hk. tauto. Qed.

Lemma demo_cache_ok : @cache_ok demo_semver demo_cache.
Proof.
  constructor.
  - intros k hdr Hk. unfold demo_cache, Snapshots in Hk. apply lookup_insert_Some in Hk as [[<- <-]|[_ Hk]]; [done|].
    by apply lookup_singleton_Some in Hk as [<- <-].
  - intros k hdr Hk. unfold demo_cache, Snapshots in Hk. apply lookup_insert_Some in Hk as [[<- <-]|[_ Hk]]; [done|].
    by apply lookup_singleton_Some in Hk as [<- <-].
  - intros k hdr Hk. unfold demo_cache, Snapshots in Hk. apply lookup_insert_Some in Hk as [[<- <-]|[_ Hk]].
    + apply (NoDup_fmap_1 e_addr). apply (bool_decide_unpack _). vm_compute. exact I.
    + apply lookup_singleton_Some in Hk as [<- <-]. apply NoDup_singleton.
  - intros k e [[-> [->|[->| ->]]]|[-> ->]]%demo_in_catalog; eexists; (split; [reflexivity|done]).
  - intros e e' [->|[->|[->| ->]]]%demo_cached [->|[->|[->| ->]]]%demo_cached; done.
  - intros k e e' [[-> [->|[->| ->]]]|[-> ->]]%demo_in_catalog [[_ [->|[->| ->]]]|[E ->]]%demo_in_catalog; done.
  - intros e si [->|[->|[->| ->]]]%demo_cached [= <-]; split_and!; reflexivity.
Qed.

Lemma demo_plain e : cached demo_cache e -> @plain_entry demo_semver demo_lib e.
Proof.
  intros [->|[->|[->| ->]]]%demo_cached; split;
    try (intros pkg ->%list_elem_of_singleton; split_and!; reflexivity);
    intros g ver k Hin; vm_compute in Hin; by apply elem_of_nil in Hin.
Qed.

Lemma Resolve_sound_witness :
  exists sel, @resolution_ok demo_semver demo_lib demo_decoder canonical_order insertion_sort_lib demo_cache "ns" [demo_sub] demo_operators sel.
Proof.
  apply (@Resolve_sound demo_semver demo_lib demo_decoder canonical_order insertion_sort_lib demo_circuit_ops demo_circuit demo_sat_ops demo_sat
    linked_ops linked_deque None demo_cache 200 "ns" ["olm"] [demo_sub] demo_operators).
  - apply demo_cache_ok.
  - apply demo_plain.
  - intros sub ->%list_elem_of_singleton. split; reflexivity.
  - apply NoDup_singleton.
  - vm_compute. reflexivity.
Defined.

Lemma Resolve_terminates_witness :
  exists fuel r, forall fuel', (fuel <= fuel')%nat -> demo_resolve fuel' = Done r.
Proof.
  apply (@Resolve_terminates demo_semver demo_lib demo_decoder canonical_order insertion_sort_lib demo_circuit_ops demo_circuit demo_sat_ops demo_sat
    linked_ops linked_deque None demo_cache ["ns"; "olm"] [demo_sub]).
  - apply demo_cache_ok.
  - intros ns e [[_ [->|[->| ->]]]|[_ ->]]%demo_in_catalog; by eexists.
Defined.
