(* ===== verification/ResolverDiagnosis.v ===== *)
(** * Why a subscription is invalid

    [getSubscriptionVariables] counts how many entries pass each of its filters and picks the reason it
    gives for an invalid subscription from the counters.  The theorem says the counters are right
    in spite of the short circuits of [And], and that the reason names the first filter that
    nothing passes. *)

From S2P Require Import Prelude GoStrings CatalogModel LitMapping ResolverCache ResolverVariables ResolverResolve.

Section diagnosis.
Context `{ResolverLib, ConstraintDecoder, RangeOrder, SortLib}.
Implicit Types (o : Entry) (s : Counters) (sub : Subscription) (es : list Entry).

(** The filter on the CSV name, or none. *)
Definition csvFilter (name : string) : Predicate := if bool_decide (name = "") then booleanPredicate true else csvNamePredicate name.

Definition passes sub (name : string) (n : nat) o : bool :=
  match n with
  | 0 => true
  | 1 => testPkg (sub_Package sub) o
  | 2 => testPkg (sub_Package sub) o && testChannel (sub_Channel sub) o
  | _ => testPkg (sub_Package sub) o && testChannel (sub_Channel sub) o && (bool_decide (name = "") || testName name o)
  end.

Lemma Test_csvFilter name o s : Test (csvFilter name) o s = Some (bool_decide (name = "") || testName name o, s).
Proof. unfold csvFilter. by case_bool_decide. Qed.

Definition bumpIf (b : bool) (n : nat) s : Counters := if b then bump n s else s.

(** Counter [n] goes up exactly for the entries that pass the filters up to [n]. *)
Lemma Test_counts sub name o s : exists s',
  Test (cachePredicate sub (csvFilter name)) o s = Some (passes sub name 3 o, s') /\
  forall n, (n < 4)%nat -> s' n = (s n + if passes sub name n o then 1 else 0)%nat.
Proof.
  unfold cachePredicate. rewrite Test_and. cbn [testAll Test mbind option_bind]. simpl.
  destruct (testPkg (sub_Package sub) o) eqn:E1; simpl.
  2:{ eexists. split; [done|]. intros [|[|[|[|n]]]] Hn; simpl; rewrite ?E1; unfold bump; simpl; lia. }
  destruct (testChannel (sub_Channel sub) o) eqn:E2; simpl.
  2:{ eexists. split; [done|]. intros [|[|[|[|n]]]] Hn; simpl; rewrite ?E1, ?E2; unfold bump; simpl; lia. }
  fold (csvFilter name). rewrite Test_csvFilter. simpl.
  destruct (bool_decide (name = "") || testName name o) eqn:E3; simpl.
  all: eexists; split; [done|]; intros [|[|[|[|n]]]] Hn; simpl; rewrite ?E1, ?E2, ?E3; unfold bump; simpl; lia.
Qed.

Lemma Filter_counts sub name es : forall s, exists l s', Filter es [cachePredicate sub (csvFilter name)] s = Some (l, s') /\
  (forall n, (n < 4)%nat -> s' n = (s n + length (filter (fun o => passes sub name n o = true) es))%nat) /\
  l = filter (fun o => passes sub name 3 o = true) es.
Proof.
  induction es as [|o es IH]; intros s.
  { exists [], s. split_and!; [done| |done]. intros n _. simpl. lia. }
  destruct (Test_counts sub name o s) as (s1 & Ht & Hs1). cbn [Filter]. unfold Matches. rewrite Test_and. cbn [testAll].
  rewrite Ht. cbn [mbind option_bind].
  destruct (IH s1) as (l & s2 & Hf & Hs2 & ->).
  exists (filter (fun o => passes sub name 3 o = true) (o :: es)), s2. split_and!; [|intros n Hn|done].
  - rewrite filter_cons. destruct (passes sub name 3 o) eqn:E; cbn [negb mbind option_bind]; rewrite Hf; cbn [mbind option_bind];
      [by rewrite decide_True|by rewrite decide_False].
  - rewrite Hs2, Hs1, filter_cons by done. destruct (decide _) as [E|E]; [rewrite E; simpl; lia|].
    apply not_true_iff_false in E. rewrite E. lia.
Qed.

(** No entry passes the filters up to [n]. *)
Definition none_pass sub name (n : nat) es : Prop := forall o, o ∈ es -> passes sub name n o = false.

Lemma count_zero sub name n es : length (filter (fun o => passes sub name n o = true) es) = 0%nat <-> none_pass sub name n es.
Proof.
  split.
  - intros E%nil_length_inv o Ho. apply not_true_iff_false. intros Hp.
    assert (o ∈ filter (fun o => passes sub name n o = true) es) as Hin by (by apply list_elem_of_filter). rewrite E in Hin. by apply elem_of_nil in Hin.
  - intros Hn. destruct (filter (fun o => passes sub name n o = true) es) as [|o l] eqn:E; [done|exfalso].
    assert (o ∈ o :: l) as Hin by left. rewrite <- E in Hin. apply list_elem_of_filter in Hin as [Hp Ho]. rewrite Hn in Hp; done.
Qed.

(** The reasons, in the order of the filters. *)
Definition reason sub (n : nat) : string :=
  match n with
  | 0 => "no operators found from catalog " +:+ sub_CatalogSource sub +:+ " in namespace " +:+ sub_CatalogSourceNamespace sub
         +:+ " referenced by subscription " +:+ sub_Name sub
  | 1 => "no operators found in package " +:+ sub_Package sub +:+ " in the catalog referenced by subscription " +:+ sub_Name sub
  | 2 => "no operators found in channel " +:+ sub_Channel sub +:+ " of package " +:+ sub_Package sub
         +:+ " in the catalog referenced by subscription " +:+ sub_Name sub
  | _ => "no operators found with name " +:+ sub_StartingCSV sub +:+ " in channel " +:+ sub_Channel sub +:+ " of package "
         +:+ sub_Package sub +:+ " in the catalog referenced by subscription " +:+ sub_Name sub
  end.

End diagnosis.

(** The reason given for an invalid subscription is the first filter (catalog, package, channel, CSV name) that no
    entry of the catalog passes, and no reason is given exactly when an entry passes all of them;
    the entries found are then those. *)
Theorem invalidReason_names_first_filter `{ResolverLib} (sub : Subscription) (name : string) (es l : list Entry) (s : Counters) :
  Filter es [cachePredicate sub (csvFilter name)] (fun _ => 0) = Some (l, s) ->
  l = filter (fun o => passes sub name 3 o = true) es /\
  match invalidReason sub s with
  | None => l <> []
  | Some r => exists n, (n < 4)%nat /\ r = reason sub n /\ none_pass sub name n es /\
      forall m, (m < n)%nat -> ~ none_pass sub name m es
  end.
Proof.
  intros Hf. destruct (Filter_counts sub name es (fun _ => 0)) as (l' & s' & Hf' & Hs & ->).
  rewrite Hf in Hf'. injection Hf' as -> ->. split; [done|].
  assert (Hz : forall n, (n < 4)%nat -> (s' n =? 0)%nat = true <-> none_pass sub name n es).
  { intros n Hn. rewrite Nat.eqb_eq, Hs, <- count_zero by done. lia. }
  unfold invalidReason.
  destruct (s' 0 =? 0)%nat eqn:E0.
  { exists 0%nat. split_and!; [lia|done|by apply Hz; [lia|]|lia]. }
  destruct (s' 1 =? 0)%nat eqn:E1.
  { exists 1%nat. split_and!; [lia|done|by apply Hz; [lia|]|]. intros [|m] Hm; [|lia]. rewrite <- Hz by lia. congruence. }
  destruct (s' 2 =? 0)%nat eqn:E2.
  { exists 2%nat. split_and!; [lia|done|by apply Hz; [lia|]|]. intros [|[|m]] Hm; [| |lia]; rewrite <- Hz by lia; congruence. }
  destruct (s' 3 =? 0)%nat eqn:E3.
  { exists 3%nat. split_and!; [lia|done|by apply Hz; [lia|]|]. intros [|[|[|m]]] Hm; [| | |lia]; rewrite <- Hz by lia; congruence. }
  apply Nat.eqb_neq in E3. rewrite Hs in E3 by lia. intros El. apply E3. exact (f_equal length El).
Qed.

(** A subscription to a channel the package does not have. *)
Definition demo_beta_sub : Subscription := mkSub "sub" "ns" "a" "beta" "community" "olm" "" "".
Definition demo_found : list (@Entry demo_semver) * Counters :=
  match @Filter demo_semver demo_lib [demo_pkg_entry 1 "a1" "a"] [@cachePredicate demo_semver demo_lib demo_beta_sub (csvFilter "")] (fun _ => 0) with
  | Some x => x
  | None => ([], fun _ => 0)
  end.

Example demo_beta_reason : invalidReason demo_beta_sub demo_found.2 = Some (reason demo_beta_sub 2).
Proof. vm_compute. reflexivity. Qed.

Lemma invalidReason_names_first_filter_witness :
  demo_found.1 = filter (fun o => @passes demo_semver demo_lib demo_beta_sub "" 3 o = true) [demo_pkg_entry 1 "a1" "a"] /\
  match invalidReason demo_beta_sub demo_found.2 with
  | None => demo_found.1 <> []
  | Some r => exists n, (n < 4)%nat /\ r = reason demo_beta_sub n /\
      @none_pass demo_semver demo_lib demo_beta_sub "" n [demo_pkg_entry 1 "a1" "a"] /\
      forall m, (m < n)%nat -> ~ @none_pass demo_semver demo_lib demo_beta_sub "" m [demo_pkg_entry 1 "a1" "a"]
  end.
Proof.
  apply (@invalidReason_names_first_filter demo_semver demo_lib demo_beta_sub "" [demo_pkg_entry 1 "a1" "a"]). reflexivity.
Defined.
