(* ===== verification/GoHash.v ===== *)
(** * FNV-1a hashes and hexadecimal printing

    The parts of Go's [hash/fnv] ([New64a]) and [fmt] ([%x] of a [uint64]) that label and
    annotation keys are built with, on 64-bit integers with their wrap-around. *)

From S2P Require Import Prelude GoStrings.
From Stdlib Require Import ZArith.

#[local] Open Scope Z_scope.
#[local] Arguments String.append : simpl nomatch.

Definition uint64_mod : Z := 2 ^ 64.
Definition offset64 : Z := 14695981039346656037.
Definition prime64 : Z := 1099511628211.

(** One byte: xor, then multiply, in [uint64]. *)
Definition fnvByte (hash : Z) (c : ascii) : Z := (Z.lxor hash (Z.of_nat (nat_of_ascii c)) * prime64) mod uint64_mod.

Fixpoint fnvFrom (hash : Z) (s : string) : Z :=
  match s with
  | EmptyString => hash
  | String c s' => fnvFrom (fnvByte hash c) s'
  end.

(** [h := fnv.New64a(); h.Write([]byte(s)); h.Sum64()] *)
Definition Sum64a (s : string) : Z := fnvFrom offset64 s.

Definition hexDigit (d : Z) : ascii :=
  ascii_of_nat (Z.to_nat (if d <? 10 then 48 + d else 87 + d)).

(** The digits of [n], least significant last, in front of [acc]. *)
Fixpoint hexFrom (fuel : nat) (n : Z) (acc : string) : string :=
  match fuel with
  | O => acc
  | S fuel' =>
      let acc := String (hexDigit (n mod 16)) acc in
      if n / 16 =? 0 then acc else hexFrom fuel' (n / 16) acc
  end.

(** [fmt.Sprintf("%x", n)] of a [uint64], which has at most 16 hexadecimal digits. *)
Definition hex (n : Z) : string := hexFrom 16 n "".

(** ** Bounds *)

Lemma Sum64a_bound s : 0 <= Sum64a s < uint64_mod.
Proof.
  unfold Sum64a. assert (0 <= offset64 < uint64_mod) as H by (vm_compute; intuition congruence).
  revert H. generalize offset64 as h. induction s as [|c s IH]; intros h Hh; simpl; [done|].
  apply IH. unfold fnvByte. apply Z.mod_pos_bound. vm_compute. reflexivity.
Qed.

Lemma hexFrom_length fuel n acc : (String.length (hexFrom fuel n acc) <= fuel + String.length acc)%nat.
Proof.
  revert n acc. induction fuel as [|fuel IH]; intros n acc; simpl; [lia|].
  case_one; simpl; [lia|]. etrans; [apply IH|]. simpl. lia.
Qed.

Lemma hex_length n : (String.length (hex n) <= 16)%nat.
Proof. unfold hex. pose proof (hexFrom_length 16 n ""). simpl in *. lia. Qed.

(** ** Reading back *)

Definition digitValue (c : ascii) : Z :=
  let n := Z.of_nat (nat_of_ascii c) in if n <? 58 then n - 48 else n - 87.

Fixpoint hexValue (acc : Z) (s : string) : Z :=
  match s with
  | EmptyString => acc
  | String c s' => hexValue (16 * acc + digitValue c) s'
  end.

Lemma digitValue_hexDigit d : 0 <= d < 16 -> digitValue (hexDigit d) = d.
Proof.
  intros Hd. unfold digitValue, hexDigit. destruct (Z.ltb_spec d 10);
    rewrite nat_ascii_embedding by lia; rewrite Z2Nat.id by lia; case_one; lia.
Qed.

Lemma hexFrom_value fuel n acc :
  0 <= n < 16 ^ Z.of_nat fuel -> exists k, hexFrom fuel n acc = k +:+ acc /\ forall z, hexValue z (k +:+ acc) = hexValue (z * 16 ^ Z.of_nat (String.length k) + n) acc.
Proof.
  revert n acc. induction fuel as [|fuel IH]; intros n acc Hn; simpl hexFrom.
  { exists "". simpl. split; [done|]. intros z. f_equal. lia. }
  pose proof (Z.mod_pos_bound n 16 ltac:(lia)) as Hm. pose proof (Z.div_mod n 16 ltac:(lia)) as Hdm.
  destruct (Z.eqb_spec (n / 16) 0) as [Hz|Hz].
  - exists (String (hexDigit (n mod 16)) ""). split; [done|]. intros z. simpl.
    rewrite digitValue_hexDigit by lia. f_equal. lia.
  - assert (0 <= n / 16 < 16 ^ Z.of_nat fuel) as Hd.
    { split; [apply Z.div_pos; lia|]. apply Z.div_lt_upper_bound; [lia|].
      rewrite Nat2Z.inj_succ, Z.pow_succ_r in Hn by lia. lia. }
    destruct (IH (n / 16) (String (hexDigit (n mod 16)) acc) Hd) as (k & -> & Hk).
    exists (k +:+ String (hexDigit (n mod 16)) ""). rewrite str_app_assoc. split; [done|].
    intros z. simpl. rewrite Hk. simpl. rewrite digitValue_hexDigit by lia. f_equal.
    rewrite str_length_app. simpl. rewrite Nat2Z.inj_add, Z.pow_add_r by lia. simpl. lia.
Qed.

(** Printing loses nothing of a 64-bit value. *)
Lemma hex_value n : 0 <= n < uint64_mod -> hexValue 0 (hex n) = n.
Proof.
  intros Hn. destruct (hexFrom_value 16 n "") as (k & Hk & Hv); [exact Hn|].
  unfold hex. rewrite Hk, Hv. simpl. lia.
Qed.

Lemma hex_inj n m : 0 <= n < uint64_mod -> 0 <= m < uint64_mod -> hex n = hex m -> n = m.
Proof. intros Hn Hm E. rewrite <- (hex_value n), <- (hex_value m) by done. by rewrite E. Qed.
