(* ===== verification/CsvTypes.v ===== *)
(** * ClusterServiceVersions: data and status

    Models [api/pkg/operators/v1alpha1/clusterserviceversion_types.go] (the fields the OLM
    operator reads and their accessors) and [clusterserviceversion.go] ([SetPhase] and the
    condition history, [IsCopied], [IsObsolete], install modes), the errors the controllers
    tell apart ([controller/install/errors.go], [controller/errors/errors.go], Kubernetes API
    errors), [controller/install/webhook.go] ([ValidWebhookRules]) and
    [StrategyResolver.UnmarshalStrategy] of [controller/install/resolver.go].  Descriptive
    fields of the spec that no controller reads (display names, icons, links) are left out. *)

From stdpp Require Import pretty.
From S2P Require Import Prelude GoStrings RbacRules OwnerUtil.

#[local] Arguments String.append : simpl nomatch.

(** ** Errors *)

(** [metav1.StatusReason] of an API error, as far as the code distinguishes it. *)
Inductive APIReason := ReasonNotFound | ReasonGone | ReasonServiceUnavailable | ReasonForbidden | ReasonConflict | ReasonAlreadyExists | ReasonOther.
#[export] Instance APIReason_eq_dec : EqDecision APIReason.
Proof. solve_decision. Defined.

(** The non-nil values of Go's [error] interface: plain errors, API status errors, the
    [install.StrategyError], [UnadoptableError], [FatalError] and [solver.NotSatisfiable] types,
    aggregates, and the sentinels that are compared by identity. *)
Inductive error :=
  | ErrString (msg : string)
  | ErrAPI (reason : APIReason) (msg : string)
  | ErrStrategy (reason msg : string)
  | ErrUnadoptable (namespace name : string)
  | ErrFatal (msg : string)
  | ErrNotSatisfiable (msg : string)
  | ErrAggregate (errs : list error)
  | ErrRequirementsNotMet
  | ErrCRDOwnerConflict
  | ErrAPIServiceOwnerConflict.

Definition IsReason (r : APIReason) (err : option error) : bool :=
  match err with Some (ErrAPI r' _) => bool_decide (r' = r) | _ => false end.
Definition IsNotFound : option error -> bool := IsReason ReasonNotFound.
Definition IsGone : option error -> bool := IsReason ReasonGone.
Definition IsForbidden : option error -> bool := IsReason ReasonForbidden.
Definition IsConflict : option error -> bool := IsReason ReasonConflict.
Definition IsAlreadyExists : option error -> bool := IsReason ReasonAlreadyExists.
Definition IsServiceUnavailable : option error -> bool := IsReason ReasonServiceUnavailable.

(** [utilerrors.NewAggregate]: no error at all when the list is empty. *)
Definition NewAggregate (errs : list error) : option error :=
  match errs with [] => None | _ => Some (ErrAggregate errs) end.

(** [UnadoptableError.Error] *)
Definition UnadoptableError_Error (namespace name : string) : string :=
  if bool_decide (namespace = "") then name +:+ " is unadoptable"
  else namespace +:+ "/" +:+ name +:+ " is unadoptable".

(** The messages [aggregate.Error] joins: each once, in order of first occurrence. *)
Definition dedupMessages (msgs : list string) : list string :=
  foldl (fun seen msg => if bool_decide (msg ∈ seen) then seen else seen ++ [msg]) [] msgs.

(** [err.Error()].  The aggregates of this program are flat, so that visiting an aggregate's
    errors is ranging over them. *)
Fixpoint Error_ (err : error) : string :=
  match err with
  | ErrString msg | ErrAPI _ msg | ErrStrategy _ msg | ErrFatal msg | ErrNotSatisfiable msg => msg
  | ErrUnadoptable ns n => UnadoptableError_Error ns n
  | ErrAggregate [] => ""
  | ErrAggregate [e] => Error_ e
  | ErrAggregate errs =>
      match dedupMessages (map Error_ errs) with
      | [msg] => msg
      | msgs => "[" +:+ Join msgs ", " +:+ "]"
      end
  | ErrRequirementsNotMet => "requirements were not met"
  | ErrCRDOwnerConflict => "conflicting CRD owner in namespace"
  | ErrAPIServiceOwnerConflict => "unable to adopt APIService"
  end.

(** [IsFatal] of [controller/errors/errors.go]. *)
Definition IsFatal (err : option error) : bool := match err with Some (ErrFatal _) => true | _ => false end.

(** [corev1.ConditionStatus] *)
Definition ConditionTrue : string := "True".
Definition ConditionFalse : string := "False".
Definition ConditionUnknown : string := "Unknown".

(** [controller/install/errors.go] *)
Definition StrategyErrReasonAnnotationsMissing : string := "AnnotationsMissing".
Definition StrategyErrReasonInvalidStrategy : string := "InvalidStrategy".
Definition StrategyErrReasonTimeout : string := "Timeout".
Definition StrategyErrReasonUnknown : string := "Unknown".
Definition StrategyErrBadPatch : string := "PatchUnsuccessful".
Definition StrategyErrDeploymentUpdated : string := "DeploymentUpdated".
Definition StrategyErrInsufficientPermissions : string := "InsufficentPermissions".

Definition unrecoverableErrors : gset string :=
  {[ StrategyErrReasonInvalidStrategy; StrategyErrReasonTimeout; StrategyErrBadPatch;
     StrategyErrInsufficientPermissions ]}.

Definition ReasonForError (err : error) : string :=
  match err with ErrStrategy reason _ => reason | _ => StrategyErrReasonUnknown end.

Definition IsErrorUnrecoverable (err : option error) : bool :=
  match err with None => false | Some err => bool_decide (ReasonForError err ∈ unrecoverableErrors) end.

Definition findFirstError (f : option error -> bool) (errs : list (option error)) : option error :=
  match List.find f errs with Some err => err | None => None end.

(** ** The spec *)

Definition ClusterServiceVersionKind : string := "ClusterServiceVersion".
Definition InstallStrategyNameDeployment : string := "deployment".

Record CRDDescription := mkCRDDesc { crd_Name : string; crd_Version : string; crd_Kind : string }.

Record APIServiceDescription := mkAPIDesc {
  as_Name : string; as_Group : string; as_Version : string; as_Kind : string; as_DeploymentName : string; as_ContainerPort : Z
}.

Definition APIServiceDescription_GetName (d : APIServiceDescription) : string :=
  as_Version d +:+ "." +:+ as_Group d.

(** [admissionregistrationv1.RuleWithOperations] *)
Record WebhookRule := mkWebhookRule { wr_APIGroups : list string; wr_Resources : list string }.

Definition ValidatingAdmissionWebhook : string := "ValidatingAdmissionWebhook".
Definition MutatingAdmissionWebhook : string := "MutatingAdmissionWebhook".
Definition ConversionWebhook : string := "ConversionWebhook".

(** [intstr.IntOrString] *)
Inductive IntOrString := IntValue (n : Z) | StringValue (s : string).
#[export] Instance IntOrString_eq_dec : EqDecision IntOrString.
Proof. solve_decision. Defined.

Record WebhookDescription := mkWebhook {
  wd_GenerateName : string; wd_Type : string; wd_DeploymentName : string;
  wd_Rules : list WebhookRule; wd_ConversionCRDs : list string;
  wd_ContainerPort : Z; wd_TargetPort : option IntOrString; wd_WebhookPath : option string; wd_AdmissionReviewVersions : list string;
  wd_rest : string   (* the policies, the selector and the timeout *)
}.

(** The parts of [appsv1.DeploymentSpec] that are edited: volumes, and of the containers the environment, the mounts and
    the resources.  Sources of volumes and of the environment, tolerations, resources and the three parts of an affinity
    are only compared, an empty string is the zero value; the fields [..._rest] are all else. *)
Inductive VolumeSource := SecretSource (secretName : string) (items : list (string * string)) | OtherSource (source : string).
Record Volume := mkVolume { v_Name : string; v_Source : VolumeSource }.
Record VolumeMount := mkMount { vm_Name : string; vm_MountPath : string; vm_rest : string }.
Record EnvVar := mkEnvVar { ev_Name : string; ev_Value : string; ev_ValueFrom : option string }.
Record Container := mkContainer {
  ct_Name : string; ct_VolumeMounts : list VolumeMount; ct_Env : list EnvVar; ct_EnvFrom : list string; ct_Resources : string; ct_rest : string
}.
Record Affinity := mkAffinity { af_NodeAffinity : option string; af_PodAffinity : option string; af_PodAntiAffinity : option string }.
Record DeploymentSpec := mkDeploymentSpec {
  sp_Annotations : option (gmap string string); sp_ServiceAccountName : string;
  sp_Volumes : list Volume; sp_Containers : list Container; sp_Tolerations : list string;
  sp_NodeSelector : option (gmap string string); sp_Affinity : option Affinity;
  sp_MatchLabels : gmap string string; sp_RevisionHistoryLimit : option Z; sp_rest : string
}.

Record StrategyDeploymentSpec := mkStrategySpec {
  ds_Name : string; ds_Spec : DeploymentSpec; ds_Label : gmap string string
}.
Record StrategyDeploymentPermissions := mkPermissions { pm_ServiceAccountName : string; pm_Rules : list PolicyRule }.
Record StrategyDetailsDeployment := mkStrategy {
  sd_DeploymentSpecs : list StrategyDeploymentSpec;
  sd_Permissions : list StrategyDeploymentPermissions;
  sd_ClusterPermissions : list StrategyDeploymentPermissions
}.
Record NamedInstallStrategy := mkNamedStrategy { ns_StrategyName : string; ns_StrategySpec : StrategyDetailsDeployment }.

Record InstallMode := mkMode { im_Type : string; im_Supported : bool }.

Record CSVSpec := mkCSVSpec {
  spec_InstallStrategy : NamedInstallStrategy;
  spec_CRDs_Owned : list CRDDescription;
  spec_CRDs_Required : list CRDDescription;
  spec_APIServices_Owned : list APIServiceDescription;
  spec_APIServices_Required : list APIServiceDescription;
  spec_WebhookDefinitions : list WebhookDescription;
  spec_NativeAPIs : list GVK;
  spec_MinKubeVersion : string;
  spec_InstallModes : list InstallMode;
  spec_Replaces : string;
  spec_CleanupEnabled : bool
}.

(** ** The status *)

(** [metav1.Time], in nanoseconds; a [*metav1.Time] is an [option]. *)
Definition Time : Type := Z.

(** [ClusterServiceVersionPhase] and [ConditionReason] are strings: the API server accepts any. *)
Definition CSVPhaseNone : string := "".
Definition CSVPhasePending : string := "Pending".
Definition CSVPhaseInstallReady : string := "InstallReady".
Definition CSVPhaseInstalling : string := "Installing".
Definition CSVPhaseSucceeded : string := "Succeeded".
Definition CSVPhaseFailed : string := "Failed".
Definition CSVPhaseReplacing : string := "Replacing".
Definition CSVPhaseDeleting : string := "Deleting".
Definition CSVPhaseAny : string := "".

Definition CSVReasonRequirementsUnknown : string := "RequirementsUnknown".
Definition CSVReasonRequirementsNotMet : string := "RequirementsNotMet".
Definition CSVReasonRequirementsMet : string := "AllRequirementsMet".
Definition CSVReasonOwnerConflict : string := "OwnerConflict".
Definition CSVReasonComponentFailed : string := "InstallComponentFailed".
Definition CSVReasonComponentFailedNoRetry : string := "InstallComponentFailedNoRetry".
Definition CSVReasonInvalidStrategy : string := "InvalidInstallStrategy".
Definition CSVReasonWaiting : string := "InstallWaiting".
Definition CSVReasonInstallSuccessful : string := "InstallSucceeded".
Definition CSVReasonInstallCheckFailed : string := "InstallCheckFailed".
Definition CSVReasonComponentUnhealthy : string := "ComponentUnhealthy".
Definition CSVReasonBeingReplaced : string := "BeingReplaced".
Definition CSVReasonReplaced : string := "Replaced".
Definition CSVReasonNeedsReinstall : string := "NeedsReinstall".
Definition CSVReasonNeedsCertRotation : string := "NeedsCertRotation".
Definition CSVReasonAPIServiceResourceIssue : string := "APIServiceResourceIssue".
Definition CSVReasonAPIServiceResourcesNeedReinstall : string := "APIServiceResourcesNeedReinstall".
Definition CSVReasonAPIServiceInstallFailed : string := "APIServiceInstallFailed".
Definition CSVReasonCopied : string := "Copied".
Definition CSVReasonInvalidInstallModes : string := "InvalidInstallModes".
Definition CSVReasonNoTargetNamespaces : string := "NoTargetNamespaces".
Definition CSVReasonUnsupportedOperatorGroup : string := "UnsupportedOperatorGroup".
Definition CSVReasonNoOperatorGroup : string := "NoOperatorGroup".
Definition CSVReasonTooManyOperatorGroups : string := "TooManyOperatorGroups".
Definition CSVReasonInterOperatorGroupOwnerConflict : string := "InterOperatorGroupOwnerConflict".
Definition CSVReasonCannotModifyStaticOperatorGroupProvidedAPIs : string :=
  "CannotModifyStaticOperatorGroupProvidedAPIs".
Definition CSVReasonDetectedClusterChange : string := "DetectedClusterChange".
Definition CSVReasonInvalidWebhookDescription : string := "InvalidWebhookDescription".
Definition CSVReasonOperatorConditionNotUpgradeable : string := "OperatorConditionNotUpgradeable".

Record CSVCondition := mkCondition {
  c_Phase : string; c_Message : string; c_Reason : string;
  c_LastUpdateTime : option Time; c_LastTransitionTime : option Time
}.

Definition RequirementStatusReasonPresent : string := "Present".
Definition RequirementStatusReasonNotPresent : string := "NotPresent".
Definition RequirementStatusReasonPresentNotSatisfied : string := "PresentNotSatisfied".
Definition RequirementStatusReasonNotAvailable : string := "PresentNotAvailable".
Definition DependentStatusReasonSatisfied : string := "Satisfied".
Definition DependentStatusReasonNotSatisfied : string := "NotSatisfied".

Record DependentStatus := mkDependent {
  dep_Group : string; dep_Version : string; dep_Kind : string; dep_Status : string; dep_Message : string
}.
Record RequirementStatus := mkReq {
  req_Group : string; req_Version : string; req_Kind : string; req_Name : string;
  req_Status : string; req_Message : string; req_UUID : string; req_Dependents : list DependentStatus
}.

Record CSVStatus := mkCSVStatus {
  st_Phase : string; st_Message : string; st_Reason : string;
  st_LastUpdateTime : option Time; st_LastTransitionTime : option Time;
  st_Conditions : list CSVCondition;
  st_RequirementStatus : list RequirementStatus;
  st_CertsLastUpdated : option Time; st_CertsRotateAt : option Time
}.

(** A ClusterServiceVersion.  [csv_obj] is its type and object metadata (with the labels);
    annotations, like labels, distinguish the nil map. *)
Record CSV := mkCSV {
  csv_obj : Object;
  csv_Annotations : option (gmap string string);
  csv_Spec : CSVSpec;
  csv_Status : CSVStatus
}.

Definition csv_Name (c : CSV) : string := OName (csv_obj c).
Definition csv_Namespace (c : CSV) : string := ONamespace (csv_obj c).
Definition csv_Phase (c : CSV) : string := st_Phase (csv_Status c).
Definition csv_Reason (c : CSV) : string := st_Reason (csv_Status c).
Definition csv_Replaces (c : CSV) : string := spec_Replaces (csv_Spec c).
Definition setStatus (c : CSV) (s : CSVStatus) : CSV := mkCSV (csv_obj c) (csv_Annotations c) (csv_Spec c) s.
Definition setAnnotations (c : CSV) (a : gmap string string) : CSV :=
  mkCSV (csv_obj c) (Some a) (csv_Spec c) (csv_Status c).

(** [annotations[key]], with the [ok] of the two-value form. *)
Definition annotation (a : option (gmap string string)) (key : string) : option string := default ∅ a !! key.

(** ** Phases and the condition history (clusterserviceversion.go) *)

Definition ConditionsLengthLimit : nat := 20.

Definition TrimConditionsIfLimitExceeded (s : CSVStatus) : CSVStatus :=
  if (length (st_Conditions s) <=? ConditionsLengthLimit)%nat then s
  else
    let firstIndex := (length (st_Conditions s) - ConditionsLengthLimit)%nat in
    mkCSVStatus (st_Phase s) (st_Message s) (st_Reason s) (st_LastUpdateTime s) (st_LastTransitionTime s)
      (drop firstIndex (st_Conditions s)) (st_RequirementStatus s) (st_CertsLastUpdated s) (st_CertsRotateAt s).

Definition withConditions (s : CSVStatus) (conds : list CSVCondition) : CSVStatus :=
  mkCSVStatus (st_Phase s) (st_Message s) (st_Reason s) (st_LastUpdateTime s) (st_LastTransitionTime s)
    conds (st_RequirementStatus s) (st_CertsLastUpdated s) (st_CertsRotateAt s).

(** [SetPhase]; the deferred trim runs on both return paths. *)
Definition setPhaseStatus (phase reason message : string) (now : option Time) (s0 : CSVStatus) : CSVStatus :=
  let s := mkCSVStatus phase message reason now
    (if bool_decide (st_Phase s0 <> phase) then now else st_LastTransitionTime s0)
    (st_Conditions s0) (st_RequirementStatus s0) (st_CertsLastUpdated s0) (st_CertsRotateAt s0) in
  let newCondition := mkCondition (st_Phase s) message reason (st_LastUpdateTime s) (st_LastTransitionTime s) in
  TrimConditionsIfLimitExceeded
    match last (st_Conditions s) with
    | None => withConditions s (st_Conditions s ++ [newCondition])
    | Some previousCondition =>
        if bool_decide (c_Phase previousCondition <> st_Phase s) || bool_decide (c_Reason previousCondition <> st_Reason s)
        then withConditions s (st_Conditions s ++ [newCondition])
        else s
    end.

Definition SetPhase (c : CSV) (phase reason message : string) (now : option Time) : CSV :=
  setStatus c (setPhaseStatus phase reason message now (csv_Status c)).

(** [corev1] event types; the event a phase change sends to the recorder. *)
Record Event := mkEvent { ev_Type : string; ev_Reason : string; ev_Message : string }.

Definition SetPhaseWithEvent (c : CSV) (phase reason message : string) (now : option Time) : CSV * list Event :=
  let eventtype := if bool_decide (phase = CSVPhaseFailed) then "Warning" else "Normal" in
  (SetPhase c phase reason message now, [mkEvent eventtype reason message]).

Definition SetPhaseWithEventIfChanged (c : CSV) (phase reason message : string) (now : option Time) : CSV * list Event :=
  let s := csv_Status c in
  if bool_decide (st_Phase s = phase) && bool_decide (st_Reason s = reason) && bool_decide (st_Message s = message)
  then (c, [])
  else SetPhaseWithEvent c phase reason message now.

Definition SetRequirementStatus (c : CSV) (statuses : list RequirementStatus) : CSV :=
  let s := csv_Status c in
  setStatus c (mkCSVStatus (st_Phase s) (st_Message s) (st_Reason s) (st_LastUpdateTime s) (st_LastTransitionTime s)
    (st_Conditions s) statuses (st_CertsLastUpdated s) (st_CertsRotateAt s)).

(** [out.Status.CertsLastUpdated = &now; out.Status.CertsRotateAt = &rotateTime] *)
Definition setCertTimes (c : CSV) (updated rotateAt : Time) : CSV :=
  let s := csv_Status c in
  setStatus c (mkCSVStatus (st_Phase s) (st_Message s) (st_Reason s) (st_LastUpdateTime s) (st_LastTransitionTime s)
    (st_Conditions s) (st_RequirementStatus s) (Some updated) (Some rotateAt)).

Definition obsoleteReasons : gset string := {[ CSVReasonReplaced; CSVReasonBeingReplaced ]}.

Definition uncopiableReasons : gset string :=
  {[ CSVReasonCopied; CSVReasonInvalidInstallModes; CSVReasonNoTargetNamespaces; CSVReasonUnsupportedOperatorGroup;
     CSVReasonNoOperatorGroup; CSVReasonTooManyOperatorGroups; CSVReasonInterOperatorGroupOwnerConflict;
     CSVReasonCannotModifyStaticOperatorGroupProvidedAPIs ]}.

Definition safeToAnnotateOperatorGroupReasons : gset string :=
  {[ CSVReasonOwnerConflict; CSVReasonInstallSuccessful; CSVReasonInvalidInstallModes; CSVReasonNoTargetNamespaces;
     CSVReasonUnsupportedOperatorGroup; CSVReasonNoOperatorGroup; CSVReasonTooManyOperatorGroups;
     CSVReasonInterOperatorGroupOwnerConflict; CSVReasonCannotModifyStaticOperatorGroupProvidedAPIs ]}.

Definition IsObsolete (c : CSV) : bool :=
  existsb (fun condition => bool_decide (c_Reason condition ∈ obsoleteReasons)) (st_Conditions (csv_Status c)).

Definition CopiedLabelKey : string := "olm.copiedFrom".
Definition OperatorGroupNamespaceAnnotationKey : string := "olm.operatorNamespace".

(** The package function [IsCopied], on an object's namespace, annotations and labels. *)
Definition IsCopiedObject (namespace : string) (annotations labels : option (gmap string string)) : bool :=
  match annotation annotations OperatorGroupNamespaceAnnotationKey with
  | Some operatorNamespace => bool_decide (namespace <> operatorNamespace)
  | None => false
  end || bool_decide (is_Some (annotation labels CopiedLabelKey)).

Definition IsCopied (c : CSV) : bool :=
  bool_decide (csv_Reason c = CSVReasonCopied)
  || IsCopiedObject (csv_Namespace c) (csv_Annotations c) (Labels (csv_obj c)).

Definition IsUncopiable (c : CSV) : bool :=
  bool_decide (csv_Phase c = CSVPhaseNone) || bool_decide (csv_Reason c ∈ uncopiableReasons).

Definition IsSafeToUpdateOperatorGroupAnnotations (c : CSV) : bool :=
  bool_decide (csv_Reason c ∈ safeToAnnotateOperatorGroupReasons).

(** ** Install modes *)

Definition InstallModeTypeOwnNamespace : string := "OwnNamespace".
Definition InstallModeTypeSingleNamespace : string := "SingleNamespace".
Definition InstallModeTypeMultiNamespace : string := "MultiNamespace".
Definition InstallModeTypeAllNamespaces : string := "AllNamespaces".
Definition InstallModeSet : Type := gmap string bool.

(** [set[mode]] of a missing mode is false. *)
Definition supported (set : InstallModeSet) (mode : string) : bool := default false (set !! mode).

(** [fmt]'s [%v] of a slice of install modes. *)
Definition modes_String (modes : list InstallMode) : string :=
  "[" +:+ Join ((fun m => "{" +:+ im_Type m +:+ " " +:+ (if im_Supported m then "true" else "false") +:+ "}") <$> modes) " "
  +:+ "]".

Definition NewInstallModeSet (modes : list InstallMode) : error + InstallModeSet :=
  foldE (fun (set : InstallModeSet) mode =>
    if bool_decide (is_Some (set !! im_Type mode))
    then inl (ErrString ("InstallMode list contains duplicates, cannot make set: " +:+ modes_String modes))
    else inr (<[im_Type mode := im_Supported mode]> set)) ∅ modes.

Definition NamespaceAll : string := "".

Definition errZeroNamespaces : error :=
  ErrString "operatorgroup has invalid selected namespaces, cannot configure to watch zero namespaces".
Definition errOwnNamespace : error :=
  ErrString (InstallModeTypeOwnNamespace +:+ " InstallModeType not supported, cannot configure to watch own namespace").
Definition errAllNamespaces : error :=
  ErrString (InstallModeTypeAllNamespaces +:+ " InstallModeType not supported, cannot configure to watch all namespaces").
Definition errSingleNamespace : error :=
  ErrString (InstallModeTypeSingleNamespace +:+ " InstallModeType not supported, cannot configure to watch one namespace").
Definition errMultiNamespace (n : nat) : error :=
  ErrString (InstallModeTypeMultiNamespace +:+ " InstallModeType not supported, cannot configure to watch "
    +:+ pretty n +:+ " namespaces").
Definition errNamespaceAllFound : error :=
  ErrString "operatorgroup has invalid selected namespaces, NamespaceAll found when |selected namespaces| > 1".

(** The loop of [Supports] over more than one namespace. *)
Fixpoint supportsEach (set : InstallModeSet) (operatorNamespace : string) (namespaces : list string) : option error :=
  match namespaces with
  | [] => None
  | namespace :: rest =>
      if bool_decide (namespace = operatorNamespace) && negb (supported set InstallModeTypeOwnNamespace)
      then Some errOwnNamespace
      else if bool_decide (namespace = NamespaceAll) then Some errNamespaceAllFound
      else supportsEach set operatorNamespace rest
  end.

Definition Supports (set : InstallModeSet) (operatorNamespace : string) (namespaces : list string) : option error :=
  match namespaces with
  | [] => Some errZeroNamespaces
  | [namespace] =>
      if bool_decide (namespace = operatorNamespace)
      then if supported set InstallModeTypeOwnNamespace then None else Some errOwnNamespace
      else if bool_decide (namespace = NamespaceAll)
      then if supported set InstallModeTypeAllNamespaces then None else Some errAllNamespaces
      else if supported set InstallModeTypeSingleNamespace then None else Some errSingleNamespace
  | _ =>
      if negb (supported set InstallModeTypeMultiNamespace) then Some (errMultiNamespace (length namespaces))
      else supportsEach set operatorNamespace namespaces
  end.

(** ** Accessors (clusterserviceversion_types.go) *)

Definition OwnsCRD (c : CSV) (name : string) : bool :=
  existsb (fun desc => bool_decide (crd_Name desc = name)) (spec_CRDs_Owned (csv_Spec c)).

Definition OwnsAPIService (c : CSV) (name : string) : bool :=
  existsb (fun desc => bool_decide (APIServiceDescription_GetName desc = name)) (spec_APIServices_Owned (csv_Spec c)).

Definition HasCAResources (c : CSV) : bool :=
  negb (length (spec_APIServices_Owned (csv_Spec c)) + length (spec_WebhookDefinitions (csv_Spec c)) =? 0)%nat.

(** The descriptions a map holds, in the alphabetical order of their keys. *)
Definition sortedDescs {A} (set : gmap string A) : list A :=
  omap (fun key => set !! key) (merge_sort String.le (elements (dom set))).

Definition addByKey {A} (key : A -> string) (set : gmap string A) (ds : list A) : gmap string A :=
  foldl (fun set d => <[key d := d]> set) set ds.

Definition GetAllCRDDescriptions (c : CSV) : list CRDDescription :=
  let set := addByKey crd_Name ∅ (spec_CRDs_Required (csv_Spec c)) in
  sortedDescs (addByKey crd_Name set (spec_CRDs_Owned (csv_Spec c))).

Definition GetAllAPIServiceDescriptions (c : CSV) : list APIServiceDescription :=
  let set := addByKey APIServiceDescription_GetName ∅ (spec_APIServices_Required (csv_Spec c)) in
  sortedDescs (addByKey APIServiceDescription_GetName set (spec_APIServices_Owned (csv_Spec c))).

Definition GetRequiredAPIServiceDescriptions (c : CSV) : list APIServiceDescription :=
  let set := addByKey APIServiceDescription_GetName ∅ (spec_APIServices_Required (csv_Spec c)) in
  sortedDescs (foldl (fun set owned => delete (APIServiceDescription_GetName owned) set) set
    (spec_APIServices_Owned (csv_Spec c))).

Definition GetOwnedAPIServiceDescriptions (c : CSV) : list APIServiceDescription :=
  sortedDescs (addByKey APIServiceDescription_GetName ∅ (spec_APIServices_Owned (csv_Spec c))).

(** ** Install strategy and webhook rules *)

Definition UnmarshalStrategy (s : NamedInstallStrategy) : error + StrategyDetailsDeployment :=
  if bool_decide (ns_StrategyName s = InstallStrategyNameDeployment) then inr (ns_StrategySpec s)
  else inl (ErrString "unrecognized install strategy").

Definition errWebhookAllGroups : error := ErrString "webhook rules cannot include all groups".
Definition errWebhookOLMGroup : error := ErrString "webhook rules cannot include the OLM group".
Definition errWebhookAdmission : error :=
  ErrString "webhook rules cannot include MutatingWebhookConfiguration or ValidatingWebhookConfiguration resources".

Definition webhookRuleError (rule : WebhookRule) : option error :=
  let apiGroupMap := wr_APIGroups rule in
  let resourceGroupMap := wr_Resources rule in
  if bool_decide ("*" ∈ apiGroupMap) then Some errWebhookAllGroups
  else if bool_decide ("operators.coreos.com" ∈ apiGroupMap) then Some errWebhookOLMGroup
  else if bool_decide ("admissionregistration.k8s.io" ∈ apiGroupMap)
    && (bool_decide ("*" ∈ resourceGroupMap) || bool_decide ("MutatingWebhookConfiguration" ∈ resourceGroupMap)
        || bool_decide ("ValidatingWebhookConfiguration" ∈ resourceGroupMap))
  then Some errWebhookAdmission
  else None.

Fixpoint ValidWebhookRules (rules : list WebhookRule) : option error :=
  match rules with
  | [] => None
  | rule :: rules' => match webhookRuleError rule with Some err => Some err | None => ValidWebhookRules rules' end
  end.

(** ** The condition history is well formed *)

(** No two neighbours of the history record the same phase and reason. *)
Definition distinct_adjacent (conds : list CSVCondition) : Prop :=
  forall i c1 c2, conds !! i = Some c1 -> conds !! S i = Some c2 ->
    (c_Phase c1, c_Reason c1) <> (c_Phase c2, c_Reason c2).

(** The history of a status: bounded, without repetitions, and up to date. *)
Record history_ok (s : CSVStatus) : Prop := {
  ho_bound : (length (st_Conditions s) <= ConditionsLengthLimit)%nat;
  ho_adjacent : distinct_adjacent (st_Conditions s);
  ho_last : forall c, last (st_Conditions s) = Some c -> c_Phase c = st_Phase s /\ c_Reason c = st_Reason s;
}.

Lemma distinct_adjacent_drop n l : distinct_adjacent l -> distinct_adjacent (drop n l).
Proof.
  intros Hl i c1 c2. rewrite !lookup_drop, <- plus_n_Sm. apply Hl.
Qed.

Lemma distinct_adjacent_snoc l c :
  distinct_adjacent l -> (forall p, last l = Some p -> (c_Phase p, c_Reason p) <> (c_Phase c, c_Reason c)) ->
  distinct_adjacent (l ++ [c]).
Proof.
  intros Hl Hlast i c1 c2 H1 H2.
  apply lookup_snoc_Some in H2 as [[? H2]|[Hi ->]].
  - rewrite lookup_app_l in H1 by lia. by eapply Hl.
  - rewrite lookup_app_l in H1 by lia. apply Hlast. rewrite last_lookup.
    by replace (pred (length l)) with i by lia.
Qed.

(** Trimming changes the history only, and keeps its newest entries. *)
Lemma Trim_conditions s :
  st_Conditions (TrimConditionsIfLimitExceeded s) =
    drop (length (st_Conditions s) - ConditionsLengthLimit) (st_Conditions s).
Proof.
  unfold TrimConditionsIfLimitExceeded. destruct (Nat.leb_spec (length (st_Conditions s)) ConditionsLengthLimit); [|done].
  by replace (length (st_Conditions s) - ConditionsLengthLimit)%nat with 0%nat by lia.
Qed.

Lemma Trim_fields s :
  let t := TrimConditionsIfLimitExceeded s in
  st_Phase t = st_Phase s /\ st_Reason t = st_Reason s /\ st_Message t = st_Message s /\
  st_LastUpdateTime t = st_LastUpdateTime s /\ st_LastTransitionTime t = st_LastTransitionTime s /\
  st_RequirementStatus t = st_RequirementStatus s /\
  st_CertsLastUpdated t = st_CertsLastUpdated s /\ st_CertsRotateAt t = st_CertsRotateAt s.
Proof. unfold TrimConditionsIfLimitExceeded. by case_one. Qed.

(** The condition [SetPhase] records, and whether it records one. *)
Definition phaseCondition (phase reason message : string) (now : option Time) (s : CSVStatus) : CSVCondition :=
  mkCondition phase message reason now (if bool_decide (st_Phase s <> phase) then now else st_LastTransitionTime s).

Definition phaseChanges (phase reason : string) (s : CSVStatus) : bool :=
  match last (st_Conditions s) with
  | None => true
  | Some c => bool_decide (c_Phase c <> phase) || bool_decide (c_Reason c <> reason)
  end.

Lemma setPhaseStatus_trim phase reason message now s :
  exists s', setPhaseStatus phase reason message now s = TrimConditionsIfLimitExceeded s' /\
    st_Phase s' = phase /\ st_Reason s' = reason /\ st_Message s' = message /\ st_LastUpdateTime s' = now /\
    st_LastTransitionTime s' = (if bool_decide (st_Phase s <> phase) then now else st_LastTransitionTime s) /\
    st_Conditions s' = st_Conditions s ++
      (if phaseChanges phase reason s then [phaseCondition phase reason message now s] else []).
Proof.
  unfold setPhaseStatus, phaseChanges. simpl. destruct (last (st_Conditions s)) as [c|] eqn:Hl; [|by eexists].
  destruct (_ || _); eexists; [done|]. by rewrite app_nil_r.
Qed.

Lemma setPhaseStatus_fields phase reason message now s :
  let t := setPhaseStatus phase reason message now s in
  st_Phase t = phase /\ st_Reason t = reason /\ st_Message t = message /\ st_LastUpdateTime t = now /\
  st_LastTransitionTime t = (if bool_decide (st_Phase s <> phase) then now else st_LastTransitionTime s).
Proof.
  destruct (setPhaseStatus_trim phase reason message now s) as (s' & -> & ? & ? & ? & ? & ? & _).
  cbv zeta. destruct (Trim_fields s') as (-> & -> & -> & -> & -> & _). done.
Qed.

Lemma setPhaseStatus_conditions phase reason message now s :
  let all := st_Conditions s ++ (if phaseChanges phase reason s then [phaseCondition phase reason message now s] else []) in
  st_Conditions (setPhaseStatus phase reason message now s) = drop (length all - ConditionsLengthLimit) all.
Proof.
  destruct (setPhaseStatus_trim phase reason message now s) as (s' & -> & _ & _ & _ & _ & _ & Hc).
  simpl. rewrite Trim_conditions, Hc. done.
Qed.

Lemma last_drop_lt {A} n (l : list A) : (n < length l)%nat -> last (drop n l) = last l.
Proof. intros Hn. rewrite !last_lookup, length_drop, lookup_drop. f_equal. lia. Qed.

(** Recording a phase yields a well-formed history from any history without repetitions. *)
Lemma setPhaseStatus_history phase reason message now s :
  distinct_adjacent (st_Conditions s) -> history_ok (setPhaseStatus phase reason message now s).
Proof.
  intros Hadj. pose proof (setPhaseStatus_conditions phase reason message now s) as Hc.
  destruct (setPhaseStatus_fields phase reason message now s) as (Hp & Hr & _).
  cbv zeta in Hc. set (all := st_Conditions s ++ _) in Hc. split; rewrite Hc.
  - rewrite length_drop. lia.
  - apply distinct_adjacent_drop. subst all. unfold phaseChanges.
    destruct (last (st_Conditions s)) as [c|] eqn:Hl.
    + case_one; [|by rewrite app_nil_r]. apply distinct_adjacent_snoc; [done|].
      intros p [= <-]%(eq_trans (eq_sym Hl)) [= H1 H2]. bools.
      match goal with Hor : _ \/ _ |- _ => destruct Hor; bools; congruence end.
    + apply distinct_adjacent_snoc; [done|]. congruence.
  - intros c. rewrite Hp, Hr. unfold ConditionsLengthLimit.
    destruct (decide (length all = 0)%nat) as [Hn|Hn].
    + apply nil_length_inv in Hn. subst all. unfold phaseChanges in Hn.
      destruct (last (st_Conditions s)) eqn:Hl; [|by destruct (st_Conditions s)].
      apply app_eq_nil in Hn as [Hn _]. by rewrite Hn in Hl.
    + rewrite last_drop_lt by lia. subst all. unfold phaseChanges.
      destruct (last (st_Conditions s)) as [p|] eqn:Hl; [|rewrite last_snoc; by intros [= <-]].
      case_one; [rewrite last_snoc; by intros [= <-]|].
      rewrite app_nil_r, Hl. intros [= <-]. bools. split; by apply dec_stable.
Qed.

(** The ways the operator writes to a CSV's status. *)
Inductive status_step : CSV -> CSV -> Prop :=
  | step_SetPhase c phase reason message now : status_step c (SetPhase c phase reason message now)
  | step_Requirements c statuses : status_step c (SetRequirementStatus c statuses)
  | step_Certs c updated rotateAt : status_step c (setCertTimes c updated rotateAt).

Lemma history_ok_requirements c statuses :
  history_ok (csv_Status c) -> history_ok (csv_Status (SetRequirementStatus c statuses)).
Proof. intros [? ? ?]. by split. Qed.

Lemma history_ok_certs c u r : history_ok (csv_Status c) -> history_ok (csv_Status (setCertTimes c u r)).
Proof. intros [? ? ?]. by split. Qed.

Lemma status_step_history c c' : status_step c c' -> history_ok (csv_Status c) -> history_ok (csv_Status c').
Proof.
  intros [] H; [|by apply history_ok_requirements|by apply history_ok_certs].
  apply setPhaseStatus_history. by destruct H.
Qed.

Lemma status_steps_history c c' : rtc status_step c c' -> history_ok (csv_Status c) -> history_ok (csv_Status c').
Proof. induction 1; eauto using status_step_history. Qed.

Lemma SetPhaseWithEventIfChanged_steps c phase reason message now :
  rtc status_step c (SetPhaseWithEventIfChanged c phase reason message now).1.
Proof.
  unfold SetPhaseWithEventIfChanged. case_one; [apply rtc_refl|]. apply rtc_once, step_SetPhase.
Qed.

(** A status as the API server creates it: no phase and no history. *)
Definition fresh (c : CSV) : Prop := st_Conditions (csv_Status c) = [].

Lemma fresh_history c : fresh c -> history_ok (csv_Status c).
Proof. intros H. unfold fresh in H. split; rewrite H; [simpl; lia| |done]. by intros ???. Qed.

(** Whatever sequence of status writes a CSV has gone through since it was created, its
    condition history holds at most [ConditionsLengthLimit] conditions, no two neighbours of
    it record the same phase and reason, and its newest condition is the current phase and
    reason. *)
Theorem status_history_invariant (c c' : CSV) :
  fresh c -> rtc status_step c c' -> history_ok (csv_Status c').
Proof. intros Hc Hs. eapply status_steps_history; [done|]. by apply fresh_history. Qed.

Definition empty_strategy : NamedInstallStrategy := mkNamedStrategy "deployment" (mkStrategy [] [] []).
Definition demo_spec (replaces : string) : CSVSpec :=
  mkCSVSpec empty_strategy [] [] [] [] [] [] "" [mkMode "AllNamespaces" true] replaces false.
Definition demo_status (phase reason : string) : CSVStatus := mkCSVStatus phase "" reason None None [] [] None None.
Definition demo_CSV (name replaces phase reason : string) : CSV :=
  mkCSV (demo_csv name name) None (demo_spec replaces) (demo_status phase reason).

Definition flip_phase (n : nat) (c : CSV) : CSV :=
  SetPhase c (if Nat.even n then CSVPhasePending else CSVPhaseInstallReady) "r" "" (Some 0%Z).
Definition flips (n : nat) (c : CSV) : CSV := foldr flip_phase c (seq 0 n).

Lemma flips_steps n c : rtc status_step c (flips n c).
Proof.
  unfold flips. induction (seq 0 n) as [|k l IH]; simpl; [apply rtc_refl|].
  eapply rtc_r; [exact IH|]. apply step_SetPhase.
Qed.

Lemma status_history_invariant_witness :
  length (st_Conditions (csv_Status (flips 25 (demo_CSV "etcd" "" "" "")))) = 20%nat /\
  history_ok (csv_Status (flips 25 (demo_CSV "etcd" "" "" ""))).
Proof.
  split; [vm_compute; reflexivity|].
  apply (status_history_invariant (demo_CSV "etcd" "" "" "")); [reflexivity|apply flips_steps].
Defined.

(** [SetPhase] keeps the newest conditions: after it the history is the old one, with the
    new condition when phase or reason differ from the last recorded ones, cut from the front
    to [ConditionsLengthLimit]; never more than the limit remain, whatever the status was, and
    a longer history than the limit is cut to it exactly. *)
Theorem SetPhase_keeps_newest (c : CSV) (phase reason message : string) (now : option Time) :
  let all := st_Conditions (csv_Status c) ++
    (if phaseChanges phase reason (csv_Status c) then [phaseCondition phase reason message now (csv_Status c)] else []) in
  let kept := st_Conditions (csv_Status (SetPhase c phase reason message now)) in
  (exists dropped, all = dropped ++ kept) /\ (length kept = length all `min` ConditionsLengthLimit)%nat.
Proof.
  intros all kept. pose proof (setPhaseStatus_conditions phase reason message now (csv_Status c)) as Hk.
  cbv zeta in Hk. fold all in Hk.
  assert (kept = drop (length all - ConditionsLengthLimit) all) as -> by exact Hk. split.
  - exists (take (length all - ConditionsLengthLimit) all). by rewrite take_drop.
  - rewrite length_drop. lia.
Qed.

(** ** Install modes *)

Lemma supportsEach_None set op nss :
  supportsEach set op nss = None <->
  NamespaceAll ∉ nss /\ (op ∈ nss -> supported set InstallModeTypeOwnNamespace = true).
Proof.
  induction nss as [|n nss IH]; simpl.
  { split; [intros _; split; [apply not_elem_of_nil|by intros ?%elem_of_nil]|done]. }
  rewrite not_elem_of_cons, elem_of_cons. destruct (supported set InstallModeTypeOwnNamespace); simpl.
  - rewrite andb_false_r. case_bool_decide; [split; [done|]; intros [[? _] _]; congruence|].
    rewrite IH. naive_solver.
  - rewrite andb_true_r. case_bool_decide; [split; [done|]; intros [_ Hx]; by specialize (Hx (or_introl (eq_sym H)))|].
    case_bool_decide; [split; [done|]; intros [[? _] _]; congruence|]. rewrite IH. naive_solver.
Qed.

Definition mode_ok (modes : list InstallMode) (mode : string) : Prop := mkMode mode true ∈ modes.

(** The install modes an operator must support to be configured for a list of target
    namespaces from its own namespace. *)
Definition supports_spec (modes : list InstallMode) (own : string) (namespaces : list string) : Prop :=
  match namespaces with
  | [] => False
  | [n] => mode_ok modes (if bool_decide (n = own) then InstallModeTypeOwnNamespace
                          else if bool_decide (n = NamespaceAll) then InstallModeTypeAllNamespaces
                          else InstallModeTypeSingleNamespace)
  | _ => mode_ok modes InstallModeTypeMultiNamespace /\ NamespaceAll ∉ namespaces /\
         (own ∈ namespaces -> mode_ok modes InstallModeTypeOwnNamespace)
  end.

Lemma NewInstallModeSet_inr modes set :
  NewInstallModeSet modes = inr set ->
  NoDup (im_Type <$> modes) /\ forall t b, set !! t = Some b <-> mkMode t b ∈ modes.
Proof.
  unfold NewInstallModeSet, InstallModeSet. intros Hset. unfold InstallModeSet in set.
  apply (foldE_inv _ (fun ms (set : gmap string bool) =>
    NoDup (im_Type <$> ms) /\ forall t b, set !! t = Some b <-> mkMode t b ∈ ms)) in Hset; [done| |].
  - split; [constructor|]. intros t b. rewrite lookup_empty. split; [done|]. by intros ?%elem_of_nil.
  - intros ms m acc acc' [Hnd Hin]. case_bool_decide as Hs; [done|]. intros [= <-].
    assert (forall b, mkMode (im_Type m) b ∉ ms) as Hfresh.
    { intros b Hb%Hin. apply Hs. eauto. }
    split.
    + rewrite fmap_app. apply NoDup_app. split; [done|]. split; [|apply NoDup_singleton].
      intros t (m' & -> & Hm')%list_elem_of_fmap Ht%list_elem_of_singleton.
      destruct m' as [t' b']. simpl in Ht. subst t'. by apply (Hfresh b').
    + intros t b. rewrite elem_of_app, list_elem_of_singleton, <- Hin.
      destruct (decide (t = im_Type m)) as [->|Hne].
      * rewrite lookup_insert_eq. split.
        { intros [= <-]. right. by destruct m. }
        { intros [Hb| <-]; [|done]. by apply Hin, Hfresh in Hb. }
      * rewrite lookup_insert_ne by done. split; [by left|]. intros [?|E]; [done|]. by rewrite <- E in Hne.
Qed.

Lemma supported_mode modes set mode :
  NewInstallModeSet modes = inr set -> supported set mode = true <-> mode_ok modes mode.
Proof.
  intros [_ Hin]%NewInstallModeSet_inr. unfold supported, mode_ok. rewrite <- Hin.
  destruct (set !! mode) as [[]|]; simpl; naive_solver.
Qed.

(** For a CSV whose install modes form a set, [Supports] reports no error exactly when the
    modes the selected namespaces call for are marked as supported: its own namespace, all
    namespaces, a single other namespace; several namespaces need [MultiNamespace], may not
    contain the all-namespaces marker, and need [OwnNamespace] when its own is among them. *)
Theorem Supports_correct (modes : list InstallMode) (set : InstallModeSet) (own : string) (namespaces : list string) :
  NewInstallModeSet modes = inr set ->
  Supports set own namespaces = None <-> supports_spec modes own namespaces.
Proof.
  intros Hset. pose proof (supported_mode modes set) as Hm.
  destruct namespaces as [|n [|n' rest]]; simpl; [done| |].
  - repeat case_bool_decide; rewrite <- Hm by done; by destruct (supported _ _).
  - rewrite <- !Hm by done. destruct (supported set InstallModeTypeMultiNamespace); simpl.
    + pose proof (supportsEach_None set own (n :: n' :: rest)) as He. simpl in He. rewrite He. naive_solver.
    + split; [done|]. by intros [? _].
Qed.

Lemma Supports_correct_witness :
  Supports {[ "OwnNamespace" := true; "MultiNamespace" := true ]} "op" ["op"; "other"] = None <->
  supports_spec [mkMode "OwnNamespace" true; mkMode "MultiNamespace" true] "op" ["op"; "other"].
Proof.
  apply (Supports_correct [mkMode "OwnNamespace" true; mkMode "MultiNamespace" true]). vm_compute. reflexivity.
Defined.
