(* ===== verification/OperatorGroups.v ===== *)
(** * Operator groups

    Models [api/pkg/operators/v1/operatorgroup_types.go], [controller/operators/olm/groups.go]
    (namespace sets, the API surface of a group, the reconciliation of provided APIs),
    [controller/operators/olm/labeler.go] and the parts of
    [controller/operators/olm/operatorgroup.go] that compute a group's targets, annotate its
    member CSVs and build the copies of a CSV. *)

From S2P Require Import Prelude GoStrings GoHash RbacRules OwnerUtil CatalogModel ResolverCache CsvTypes.

#[local] Arguments String.append : simpl nomatch.

(** ** The OperatorGroup resource *)

Definition OperatorGroupAnnotationKey : string := "olm.operatorGroup".
Definition OperatorGroupTargetsAnnotationKey : string := "olm.targetNamespaces".
Definition OperatorGroupProvidedAPIsAnnotationKey : string := "olm.providedAPIs".
Definition OperatorGroupLabelPrefix : string := "olm.operatorgroup.uid/".
Definition UpgradeStrategyDefault : string := "Default".
Definition UpgradeStrategyUnsafeFailForward : string := "TechPreviewUnsafeFailForward".

(** The label selector of the spec is kept as its printed form; [Status.Namespaces] tells the
    nil slice apart. *)
Record OperatorGroup := mkGroup {
  og_Name : string; og_Namespace : string; og_UID : string;
  og_Annotations : option (gmap string string);
  og_Selector : option string;
  og_TargetNamespaces : list string;
  og_ServiceAccountName : string;
  og_StaticProvidedAPIs : bool;
  og_SpecUpgradeStrategy : string;
  og_StatusNamespaces : option (list string);
  og_ServiceAccountRef : option string
}.

Definition og_Namespaces (o : OperatorGroup) : list string := default [] (og_StatusNamespaces o).
Definition setGroupAnnotations (o : OperatorGroup) (a : gmap string string) : OperatorGroup :=
  mkGroup (og_Name o) (og_Namespace o) (og_UID o) (Some a) (og_Selector o) (og_TargetNamespaces o)
    (og_ServiceAccountName o) (og_StaticProvidedAPIs o) (og_SpecUpgradeStrategy o) (og_StatusNamespaces o)
    (og_ServiceAccountRef o).

(** [sort.Strings] and [strings.Join]. *)
Definition BuildTargetNamespaces (o : OperatorGroup) : string :=
  Join (merge_sort String.le (og_Namespaces o)) ",".

Definition UpgradeStrategy (o : OperatorGroup) : string :=
  if bool_decide (og_SpecUpgradeStrategy o = UpgradeStrategyUnsafeFailForward) then og_SpecUpgradeStrategy o
  else UpgradeStrategyDefault.

Definition IsServiceAccountSpecified (o : OperatorGroup) : bool := negb (bool_decide (og_ServiceAccountName o = "")).

Definition HasServiceAccountSynced (o : OperatorGroup) : bool :=
  IsServiceAccountSpecified o && bool_decide (is_Some (og_ServiceAccountRef o)).

Definition OGLabelKeyAndValue (o : OperatorGroup) : error + string * string :=
  if bool_decide (og_UID o = "") then inl (ErrString "Missing UID")
  else inr (OperatorGroupLabelPrefix +:+ og_UID o, "").

(** A selector the group's namespaces are found with: the one of the spec, or the group's
    label; [None] selects everything. *)
Inductive GroupSelector := SpecSelector (sel : string) | MatchLabels (labels : gmap string string).

Definition NamespaceLabelSelector (o : OperatorGroup) : error + option GroupSelector :=
  if (length (og_TargetNamespaces o) =? 0)%nat then
    match og_Selector o with Some sel => inr (Some (SpecSelector sel)) | None => inr None end
  else
    match OGLabelKeyAndValue o with
    | inl err => inl err
    | inr (ogKey, ogValue) => inr (Some (MatchLabels {[ ogKey := ogValue ]}))
    end.

Definition IsOperatorGroupLabel (label : string) : bool := HasPrefix label OperatorGroupLabelPrefix.

(** ** Namespace sets (groups.go) *)

(** [map[string]struct{}] *)
Definition NamespaceSet : Type := gset string.

Definition NewNamespaceSet (namespaces : list string) : NamespaceSet := list_to_set namespaces.
Definition NewNamespaceSetFromString (namespaces : string) : NamespaceSet := NewNamespaceSet (Split ","%char namespaces).

(** [Peek] returns the first key of the set, in the unspecified order of the map; of the
    singleton sets it is called on, the only one. *)
Definition Peek (n : NamespaceSet) : string := match elements n with namespace :: _ => namespace | [] => "" end.

Definition IsAllNamespaces (n : NamespaceSet) : bool := (size n =? 1)%nat && bool_decide (Peek n = "").

Definition NamespaceSet_Intersection (n set : NamespaceSet) : NamespaceSet :=
  if IsAllNamespaces n then set
  else if IsAllNamespaces set then n
  else filter (fun namespace => namespace ∈ set) n.

Definition NamespaceSet_Union (n set : NamespaceSet) : NamespaceSet :=
  if IsAllNamespaces n then n else if IsAllNamespaces set then set else n ∪ set.

Definition Contains (n : NamespaceSet) (namespace : string) : bool :=
  if IsAllNamespaces n then true else bool_decide (namespace ∈ n).

(** ** Group surfaces *)

Record GroupSurface := mkSurface {
  gs_namespace : string; gs_name : string; gs_targets : NamespaceSet; gs_providedAPIs : APISet
}.

Definition NewOperatorGroup (group : OperatorGroup) : GroupSurface :=
  let namespaces := og_Namespaces group in
  let namespaces :=
    match namespaces with
    | n :: _ => if bool_decide (n <> "") then namespaces ++ [og_Namespace group] else namespaces
    | [] => namespaces
    end in
  let gvksStr := default "" (annotation (og_Annotations group) OperatorGroupProvidedAPIsAnnotationKey) in
  mkSurface (og_Namespace group) (og_Name group) (NewNamespaceSet namespaces) (GVKStringToProvidedAPISet gvksStr).

Definition NewOperatorGroupSurfaces (groups : list OperatorGroup) : list GroupSurface := NewOperatorGroup <$> groups.

Definition Identifier (g : GroupSurface) : string := gs_name g +:+ "/" +:+ gs_namespace g.

Definition GroupIntersection (g : GroupSurface) (groups : list GroupSurface) : list GroupSurface :=
  List.filter (fun group =>
    negb (bool_decide (Identifier group = Identifier g))
    && (0 <? size (NamespaceSet_Intersection (gs_targets g) (gs_targets group)))%nat) groups.

Inductive APIReconciliationResult := RemoveAPIs | AddAPIs | APIConflict | NoAPIConflict.
#[export] Instance APIReconciliationResult_eq_dec : EqDecision APIReconciliationResult.
Proof. solve_decision. Defined.

Definition ReconcileAPIIntersection (add : APISet) (group : GroupSurface) (otherGroups : list GroupSurface)
    : APIReconciliationResult :=
  let groupIntersection := GroupIntersection group otherGroups in
  let providedAPIIntersection :=
    foldl (fun acc g => Union acc [gs_providedAPIs g]) ∅ groupIntersection in
  let intersecting := (0 <? size (Intersection add [providedAPIIntersection]))%nat in
  let subset := IsSubset add (gs_providedAPIs group) in
  if subset && intersecting then RemoveAPIs
  else if negb subset && intersecting then APIConflict
  else if negb subset then AddAPIs
  else NoAPIConflict.

(** ** The API surface of a CSV, and API labels (labeler.go) *)

Definition APILabelKeyPrefix : string := "olm.api.".

Record operatorSurface := mkOperatorSurface { os_ProvidedAPIs : APISet; os_RequiredAPIs : APISet }.

(** The key of a CRD, whose name is [plural.group]. *)
Definition crdKey (d : CRDDescription) : error + APIKey :=
  match SplitN2 "."%char (crd_Name d) with
  | [plural; group] => inr (mkAPIKey group (crd_Version d) (crd_Kind d) plural)
  | _ => inl (ErrString ("error parsing crd name: " +:+ crd_Name d))
  end.

Definition apiKey (d : APIServiceDescription) : APIKey := mkAPIKey (as_Group d) (as_Version d) (as_Kind d) (as_Name d).

Definition addCrdKeys (set : APISet) (ds : list CRDDescription) : error + APISet :=
  foldE (fun set d => match crdKey d with inl err => inl err | inr key => inr (set ∪ {[ key ]}) end) set ds.

Definition addApiKeys (set : APISet) (ds : list APIServiceDescription) : APISet :=
  foldl (fun set d => set ∪ {[ apiKey d ]}) set ds.

(** The required APIs are collected, and their CRD names checked, into a variable that the
    result does not use. *)
Definition apiSurfaceOfCSV (csv : CSV) : error + operatorSurface :=
  let spec := csv_Spec csv in
  match addCrdKeys ∅ (spec_CRDs_Owned spec) with
  | inl err => inl err
  | inr provided =>
      let provided := addApiKeys provided (spec_APIServices_Owned spec) in
      match addCrdKeys ∅ (spec_CRDs_Required spec) with
      | inl err => inl err
      | inr required =>
          let _requiredAPIs := addApiKeys required (spec_APIServices_Required spec) in
          inr (mkOperatorSurface provided ∅)
      end
  end.

(** The object a labeler is applied to, by its Go type: the type switch of [LabelSetsFor]
    has a case for [operatorSurface] values and none for pointers to one. *)
Record CRDObject := mkCRDObject { co_Group : string; co_Versions : list string; co_Kind : string }.
Inductive labelObject :=
  | LOperatorSurface (v : operatorSurface)
  | LOperatorSurfacePointer (v : operatorSurface)
  | LCRDv1beta1 (crd : option CRDObject)
  | LCRDv1 (crd : option CRDObject)
  | LOther.

(** [hash.Write] of an FNV hash never fails. *)
Definition APIKeyToGVKHash (key : APIKey) : error + string := inr (hex (Sum64a (APIKeyToGVKString key))).

Definition addLabels (value : string) (labelSet : gmap string string) (keys : list APIKey) : error + gmap string string :=
  foldE (fun labelSet key =>
    match APIKeyToGVKHash key with
    | inl err => inl err
    | inr hash => inr (<[APILabelKeyPrefix +:+ hash := value]> labelSet)
    end) labelSet keys.

Definition labelSetsForOperatorSurface (surface : operatorSurface) : error + list (gmap string string) :=
  match addLabels "provided" ∅ (elements (StripPlural (os_ProvidedAPIs surface))) with
  | inl err => inl err
  | inr labelSet =>
      match addLabels "required" labelSet (elements (StripPlural (os_RequiredAPIs surface))) with
      | inl err => inl err
      | inr labelSet => inr [labelSet]
      end
  end.

Definition labelSetsForCRD (crd : option CRDObject) : error + list (gmap string string) :=
  match crd with
  | None => inr []
  | Some crd =>
      foldE (fun labelSets version =>
        match APIKeyToGVKHash (mkAPIKey (co_Group crd) version (co_Kind crd) "") with
        | inl err => inl err
        | inr hash =>
            let key := APILabelKeyPrefix +:+ hash in
            inr (labelSets ++ [ {[ key := "provided" ]}; {[ key := "required" ]} ])
        end) [] (co_Versions crd)
  end.

Definition LabelSetsFor (obj : labelObject) : error + list (gmap string string) :=
  match obj with
  | LOperatorSurface v => labelSetsForOperatorSurface v
  | LCRDv1beta1 crd | LCRDv1 crd => labelSetsForCRD crd
  | _ => inr []
  end.

(** ** Group annotations on member CSVs (operatorgroup.go) *)

(** [metav1.SetMetaDataAnnotation] *)
Definition SetMetaDataAnnotation (a : option (gmap string string)) (key value : string) : option (gmap string string) :=
  Some (<[key := value]> (default ∅ a)).

Definition setOperatorGroupAnnotations (a : option (gmap string string)) (op : OperatorGroup) (addTargets : bool)
    : option (gmap string string) :=
  let a := SetMetaDataAnnotation a OperatorGroupNamespaceAnnotationKey (og_Namespace op) in
  let a := SetMetaDataAnnotation a OperatorGroupAnnotationKey (og_Name op) in
  if addTargets && bool_decide (is_Some (og_StatusNamespaces op))
  then SetMetaDataAnnotation a OperatorGroupTargetsAnnotationKey (BuildTargetNamespaces op)
  else a.

Definition operatorGroupAnnotationsDiffer (a : option (gmap string string)) (op : OperatorGroup) : bool :=
  match a with
  | None => true
  | Some annotations =>
      if bool_decide (annotations !! OperatorGroupNamespaceAnnotationKey <> Some (og_Namespace op)) then true
      else if bool_decide (annotations !! OperatorGroupAnnotationKey <> Some (og_Name op)) then true
      else if bool_decide (annotations !! OperatorGroupTargetsAnnotationKey <> Some (BuildTargetNamespaces op)) then true
      else false
  end.

Definition groupAnnotationKeys : gset string :=
  {[ OperatorGroupNamespaceAnnotationKey; OperatorGroupAnnotationKey; OperatorGroupTargetsAnnotationKey ]}.

Definition copyOperatorGroupAnnotations (a : option (gmap string string)) : gmap string string :=
  filter (fun kv => kv.1 ∈ groupAnnotationKeys) (default ∅ a).

Definition namespacesChanged (clusterNamespaces statusNamespaces : list string) : bool :=
  if negb (length clusterNamespaces =? length statusNamespaces)%nat then true
  else
    let nsMap : gset string := list_to_set clusterNamespaces in
    existsb (fun v => negb (bool_decide (v ∈ nsMap))) statusNamespaces.

Definition namespacesAddedOrRemoved `{RangeOrder} (a b : list string) : list string :=
  let check : gmap string unit := foldl (fun check namespace => <[namespace := tt]> check) ∅ a in
  let check := foldl (fun (check : gmap string unit) namespace =>
    if bool_decide (check !! namespace = None) then <[namespace := tt]> check else delete namespace check) check b in
  (range (delete "" check)).*1.

(** A parsed label selector: [labels.Nothing], one that matches everything, or another. *)
Inductive Selector := SelNothing | SelEverything | SelOther (requirements : string).
#[export] Instance Selector_eq_dec : EqDecision Selector.
Proof. solve_decision. Defined.

Definition Selector_Empty (s : Selector) : bool := match s with SelEverything => true | _ => false end.

Section targets.
Context `{RangeOrder}.
Context (LabelSelectorAsSelector : option string -> error + Selector).
Context (ListNamespaces : Selector -> error + list string).

(** [fmt]'s [%v] of a slice of strings. *)
Definition strings_String (l : list string) : string := "[" +:+ Join l " " +:+ "]".

Definition getOperatorGroupTargets (op : OperatorGroup) : error + NamespaceSet :=
  match LabelSelectorAsSelector (og_Selector op) with
  | inl err => inl err
  | inr selector =>
      if (0 <? length (og_TargetNamespaces op))%nat then
        foldE (fun (namespaceSet : NamespaceSet) ns =>
          if bool_decide (ns = NamespaceAll)
          then inl (ErrString ("TargetNamespaces cannot contain NamespaceAll: " +:+ strings_String (og_TargetNamespaces op)))
          else inr (namespaceSet ∪ {[ ns ]})) ∅ (og_TargetNamespaces op)
      else if Selector_Empty selector || bool_decide (selector = SelNothing) then inr {[ NamespaceAll ]}
      else
        match ListNamespaces selector with
        | inl err => inl err
        | inr matchedNamespaces => inr (list_to_set matchedNamespaces)
        end
  end.

Definition updateNamespaceList (op : OperatorGroup) : error + list string :=
  match getOperatorGroupTargets op with
  | inl err => inl err
  | inr namespaceSet => inr (range (gset_to_gmap tt namespaceSet)).*1
  end.
End targets.

(** ** Copies of a CSV *)

Definition ComponentLabelKeyPrefix : string := "operators.coreos.com/".
Definition lastAppliedKey : string := "kubectl.kubernetes.io/last-applied-configuration".

(** [csvCopyPrototype]: the object that is created in each target namespace. *)
Definition csvCopyPrototype (src : CSV) : CSV :=
  let o := csv_obj src in
  let annotations := filter (fun kv => kv.1 <> OperatorGroupTargetsAnnotationKey /\ kv.1 <> lastAppliedKey)
    (default ∅ (csv_Annotations src)) in
  let labels := filter (fun kv => HasPrefix kv.1 ComponentLabelKeyPrefix = false) (default ∅ (Labels o)) in
  let s := csv_Status src in
  mkCSV (mkObj (OType o) (OGVK o) (OName o) "" "" [] (Some (<[CopiedLabelKey := csv_Namespace src]> labels)))
    (Some annotations) (csv_Spec src)
    (mkCSVStatus (st_Phase s)
      ("The operator is running in " +:+ csv_Namespace src +:+ " but is managing this namespace") CSVReasonCopied
      (st_LastUpdateTime s) (st_LastTransitionTime s) (st_Conditions s) (st_RequirementStatus s)
      (st_CertsLastUpdated s) (st_CertsRotateAt s)).

(** ** Namespace sets denote sets of namespaces *)

(** The marker for all namespaces stands alone. *)
Definition sane (n : NamespaceSet) : Prop := "" ∈ n -> n = {[ "" ]}.

Lemma IsAllNamespaces_true n : IsAllNamespaces n = true <-> n = {[ "" ]}.
Proof.
  unfold IsAllNamespaces, Peek. rewrite andb_true_iff, Nat.eqb_eq, bool_decide_eq_true. split.
  - intros [[x Hx]%size_1_elem_of Hp]. fold_leibniz. subst n. rewrite elements_singleton in Hp. by subst x.
  - intros ->. rewrite size_singleton, elements_singleton. done.
Qed.

Lemma IsAllNamespaces_false n : sane n -> IsAllNamespaces n = false <-> "" ∉ n.
Proof.
  intros Hn. rewrite <- not_true_iff_false, IsAllNamespaces_true. unfold sane in Hn. split; [tauto|].
  intros H ->. apply H. set_solver.
Qed.

Lemma Contains_plain n x : "" ∉ n -> Contains n x = bool_decide (x ∈ n).
Proof.
  intros Hn. unfold Contains. rewrite (proj2 (IsAllNamespaces_false n ltac:(intros ?; done))); done.
Qed.

Lemma Contains_Intersection n m x :
  sane n -> sane m -> Contains (NamespaceSet_Intersection n m) x = Contains n x && Contains m x.
Proof.
  intros Hn Hm. unfold NamespaceSet_Intersection.
  destruct (IsAllNamespaces n) eqn:En; [by unfold Contains at 2; rewrite En|].
  destruct (IsAllNamespaces m) eqn:Em; [by unfold Contains at 3; rewrite Em, andb_true_r|].
  apply IsAllNamespaces_false in En, Em; try done.
  rewrite !Contains_plain by set_solver. rewrite <- bool_decide_and. apply bool_decide_ext. set_solver.
Qed.

Lemma Contains_Union n m x :
  sane n -> sane m -> Contains (NamespaceSet_Union n m) x = Contains n x || Contains m x.
Proof.
  intros Hn Hm. unfold NamespaceSet_Union.
  destruct (IsAllNamespaces n) eqn:En; [by unfold Contains; rewrite En|].
  destruct (IsAllNamespaces m) eqn:Em; [by unfold Contains at 1 3; rewrite Em, orb_true_r|].
  apply IsAllNamespaces_false in En, Em; try done.
  rewrite !Contains_plain by set_solver. rewrite <- bool_decide_or. apply bool_decide_ext. set_solver.
Qed.

(** ** Provided APIs *)

Lemma elem_of_Union k s sets : k ∈ Union s sets <-> k ∈ s \/ exists t, t ∈ sets /\ k ∈ t.
Proof.
  unfold Union. rewrite (left_id_L ∅ (∪)). revert s. induction sets as [|t sets IH]; intros s; simpl.
  { split; [by left|]. intros [?|(t & ?%elem_of_nil & _)]; done. }
  rewrite IH, elem_of_union. setoid_rewrite elem_of_cons. naive_solver.
Qed.

Lemma elem_of_Intersection1 k s t : k ∈ Intersection s [t] <-> k ∈ s /\ k ∈ t.
Proof. unfold Intersection. simpl. set_solver. Qed.

Lemma IsSubset_true s t : IsSubset s t = true <-> s ⊆ t.
Proof.
  unfold IsSubset. rewrite forallb_elem_of. setoid_rewrite elem_of_elements. setoid_rewrite bool_decide_eq_true.
  set_solver.
Qed.

Lemma size_pos {A} `{Countable A} (s : gset A) : (0 <? size s)%nat = true <-> exists x, x ∈ s.
Proof.
  rewrite Nat.ltb_lt. split.
  - intros Hs. destruct (set_choose_or_empty s) as [?|He]; [done|]. fold_leibniz. subst s. rewrite size_empty in Hs. lia.
  - intros [x Hx]. assert (size s <> 0)%nat; [|lia]. intros H0%size_empty_inv. set_solver.
Qed.

(** Some other group whose targets meet this one's provides one of the APIs. *)
Definition provided_elsewhere (add : APISet) (group : GroupSurface) (others : list GroupSurface) : Prop :=
  exists g api, g ∈ others /\ Identifier g <> Identifier group /\
    (exists ns, ns ∈ NamespaceSet_Intersection (gs_targets group) (gs_targets g)) /\
    api ∈ gs_providedAPIs g /\ api ∈ add.

Definition intersects (add : APISet) (group : GroupSurface) (others : list GroupSurface) : bool :=
  (0 <? size (Intersection add [foldl (fun acc g => Union acc [gs_providedAPIs g]) ∅ (GroupIntersection group others)]))%nat.

Lemma elem_of_GroupIntersection g group others :
  g ∈ GroupIntersection group others <-> g ∈ others /\ Identifier g <> Identifier group /\
    exists ns, ns ∈ NamespaceSet_Intersection (gs_targets group) (gs_targets g).
Proof.
  unfold GroupIntersection. rewrite list_elem_of_In, filter_In, <- list_elem_of_In, andb_true_iff, negb_true_iff,
    bool_decide_eq_false.
  pose proof (size_pos (A := string) (NamespaceSet_Intersection (gs_targets group) (gs_targets g))) as Hs.
  rewrite <- Hs. done.
Qed.

Lemma intersects_true add group others : intersects add group others = true <-> provided_elsewhere add group others.
Proof.
  unfold intersects, provided_elsewhere.
  match goal with |- (0 <? size ?x)%nat = true <-> _ => pose proof (size_pos (A := APIKey) x) as Hs; rewrite Hs end.
  setoid_rewrite elem_of_Intersection1.
  assert (forall k gs acc, k ∈ foldl (fun acc g => Union acc [gs_providedAPIs g]) acc gs <->
    k ∈ acc \/ exists g, g ∈ gs /\ k ∈ gs_providedAPIs g) as Hf.
  { intros k gs. induction gs as [|g gs IH]; intros acc; simpl.
    - split; [by left|]. intros [?|(? & ?%elem_of_nil & _)]; done.
    - rewrite IH, elem_of_Union. setoid_rewrite list_elem_of_singleton. setoid_rewrite elem_of_cons. naive_solver. }
  setoid_rewrite Hf. setoid_rewrite elem_of_GroupIntersection. set_solver.
Qed.

Lemma Reconcile_cases add group others :
  ReconcileAPIIntersection add group others =
    match IsSubset add (gs_providedAPIs group), intersects add group others with
    | true, true => RemoveAPIs
    | false, true => APIConflict
    | false, false => AddAPIs
    | true, false => NoAPIConflict
    end.
Proof. unfold ReconcileAPIIntersection, intersects. by repeat case_one. Qed.

(** What the reconciliation of provided APIs answers: whether some other operator group
    with an intersecting selection of namespaces already provides one of the APIs decides
    between a conflict (the group does not claim all of them yet) or their removal (it does)
    and their addition or nothing to do. *)
Theorem Reconcile_correct (add : APISet) (group : GroupSurface) (others : list GroupSurface) :
  let r := ReconcileAPIIntersection add group others in
  let claimed := add ⊆ gs_providedAPIs group in
  let elsewhere := provided_elsewhere add group others in
  (r = RemoveAPIs <-> claimed /\ elsewhere) /\ (r = APIConflict <-> ~ claimed /\ elsewhere) /\
  (r = AddAPIs <-> ~ claimed /\ ~ elsewhere) /\ (r = NoAPIConflict <-> claimed /\ ~ elsewhere).
Proof.
  cbv zeta. rewrite Reconcile_cases, <- IsSubset_true, <- intersects_true.
  destruct (IsSubset _ _), (intersects _ _ _); split_and!; split; intuition congruence.
Qed.

(** *** The annotation an update writes *)

Lemma HasByte_removeSpaces s : HasByte " "%char (removeSpaces s) = false.
Proof. induction s as [|c s IH]; simpl; [done|]. case_bool_decide; [done|]. simpl. by rewrite IH, bool_decide_false by congruence. Qed.

Lemma Split_bytes sep s x c :
  x ∈ Split sep s -> (HasByte c s = false -> HasByte c x = false) /\ HasByte sep x = false.
Proof.
  revert x. induction s as [|d s IH]; intros x; simpl.
  { by intros ->%list_elem_of_singleton. }
  case_bool_decide as Hd.
  - intros [->|Hx]%elem_of_cons; [done|]. split; [|by apply IH]. intros Hc. bools. by apply IH.
  - destruct (Split sep s) as [|h t] eqn:E.
    + intros ->%list_elem_of_singleton. simpl. split; [intros Hc; bools; by rewrite bool_decide_false|].
      by rewrite bool_decide_false by congruence.
    + intros [->|Hx]%elem_of_cons.
      * destruct (IH h) as [H1 H2]; [set_solver|]. simpl. split.
        { intros Hc. bools. rewrite bool_decide_false by done. auto. }
        { rewrite bool_decide_false by congruence. done. }
      * destruct (IH x) as [H1 H2]; [set_solver|]. split; [intros Hc; bools; auto|done].
Qed.

(** Every key the annotation parses to is one that prints and parses back, without a plural. *)
Lemma parsed_keys gvks k : k ∈ GVKStringToProvidedAPISet gvks -> gvk_ok k /\ ak_Plural k = "".
Proof.
  unfold GVKStringToProvidedAPISet. rewrite elem_of_list_to_set, list_elem_of_omap. intros (x & Hx & E).
  destruct (Split_bytes ","%char (removeSpaces gvks) x " "%char Hx) as [Hsp Hcomma].
  specialize (Hsp (HasByte_removeSpaces gvks)). unfold ParseKindArg in E.
  destruct (Cut "."%char x) as [[kind rest]|] eqn:E1; [|done]. simpl in E.
  destruct (Cut "."%char rest) as [[version group]|] eqn:E2; [|done]. simpl in E. injection E as <-.
  apply Cut_Some in E1 as [-> Hk], E2 as [-> Hv]. split; [|done]. unfold gvk_ok. simpl. split_and!; [done|done|].
  intros c Hc. assert (HasByte c (kind +:+ String "."%char (version +:+ String "."%char group)) = false) as Hb
    by (destruct Hc as [->| ->]; done).
  rewrite HasByte_app in Hb. simpl in Hb. rewrite HasByte_app in Hb. simpl in Hb. by bools.
Qed.

Lemma StripPlural_id (s : APISet) : (forall k, k ∈ s -> ak_Plural k = "") -> StripPlural s = s.
Proof.
  intros H. unfold StripPlural. apply set_eq. intros k. rewrite elem_of_map. split.
  - intros ([g v kd p] & -> & Hk). simpl. pose proof (H _ Hk) as Hp. simpl in Hp. by subst p.
  - intros Hk. exists k. split; [|done]. destruct k. simpl. f_equal. by apply (H _ Hk).
Qed.

(** Reading back what [union.String()] or [difference.String()] wrote. *)
Lemma annotation_roundtrip (s : APISet) :
  (forall k, k ∈ s -> gvk_ok k /\ ak_Plural k = "") -> GVKStringToProvidedAPISet (APISet_String s) = s.
Proof.
  intros H. rewrite APISet_String_parse by (intros k Hk; by apply H). apply StripPlural_id. intros k Hk. by apply H.
Qed.

(** The group with its provided-APIs annotation set to a set of APIs. *)
Definition annotate (group : OperatorGroup) (apis : APISet) : OperatorGroup :=
  setGroupAnnotations group
    (<[OperatorGroupProvidedAPIsAnnotationKey := APISet_String apis]> (default ∅ (og_Annotations group))).

Lemma annotate_surface group apis :
  (forall k, k ∈ apis -> gvk_ok k /\ ak_Plural k = "") ->
  NewOperatorGroup (annotate group apis) =
    let g := NewOperatorGroup group in mkSurface (gs_namespace g) (gs_name g) (gs_targets g) apis.
Proof.
  intros H. unfold NewOperatorGroup, annotate, annotation, og_Namespaces. simpl.
  rewrite lookup_insert_eq. simpl. by rewrite annotation_roundtrip.
Qed.

Lemma Reconcile_with add g apis others :
  ReconcileAPIIntersection add (mkSurface (gs_namespace g) (gs_name g) (gs_targets g) apis) others =
    match IsSubset add apis, intersects add g others with
    | true, true => RemoveAPIs
    | false, true => APIConflict
    | false, false => AddAPIs
    | true, false => NoAPIConflict
    end.
Proof. by rewrite Reconcile_cases. Qed.

(** An update of the group's provided-APIs annotation settles the reconciliation: once the
    union is written and read back nothing is left to do, once the difference is written the
    CSV is in conflict, and neither answer asks for another update of the annotation. *)
Theorem Reconcile_settles (add : APISet) (group : OperatorGroup) (others : list GroupSurface) :
  (forall k, k ∈ add -> gvk_ok k /\ ak_Plural k = "") ->
  let surface := NewOperatorGroup group in
  (ReconcileAPIIntersection add surface others = AddAPIs ->
   ReconcileAPIIntersection add
     (NewOperatorGroup (annotate group (Union (gs_providedAPIs surface) [add]))) others = NoAPIConflict) /\
  (ReconcileAPIIntersection add surface others = RemoveAPIs ->
   ReconcileAPIIntersection add
     (NewOperatorGroup (annotate group (Difference (gs_providedAPIs surface) add))) others = APIConflict).
Proof.
  intros Hadd surface.
  assert (forall k, k ∈ gs_providedAPIs surface -> gvk_ok k /\ ak_Plural k = "") as Hown
    by (intros k; apply parsed_keys).
  rewrite !annotate_surface.
  2:{ intros k. unfold Difference. rewrite elem_of_difference, elem_of_Union. setoid_rewrite list_elem_of_singleton.
      intros [[?%elem_of_empty|(? & -> & Hk)] _]; [done|auto]. }
  2:{ intros k [?|(? & ->%list_elem_of_singleton & ?)]%elem_of_Union; auto. }
  fold surface. cbv zeta. rewrite !Reconcile_with, Reconcile_cases. split.
  - destruct (IsSubset add (gs_providedAPIs surface)), (intersects add surface others); try done. intros _.
    assert (IsSubset add (Union (gs_providedAPIs surface) [add]) = true) as ->; [|done].
    apply IsSubset_true. intros k Hk. apply elem_of_Union. right. exists add. by rewrite list_elem_of_singleton.
  - destruct (IsSubset add (gs_providedAPIs surface)) eqn:Es, (intersects add surface others) eqn:Ei; try done. intros _.
    apply intersects_true in Ei as (g & api & _ & _ & _ & _ & Hapi).
    assert (IsSubset add (Difference (gs_providedAPIs surface) add) = false) as ->; [|done].
    apply not_true_iff_false. rewrite IsSubset_true. intros Hs. specialize (Hs _ Hapi).
    unfold Difference in Hs. set_solver.
Qed.

Definition demo_group (name namespace : string) (provided : string) : OperatorGroup :=
  mkGroup name namespace "uid" (Some {[ OperatorGroupProvidedAPIsAnnotationKey := provided ]}) None [] "" false ""
    (Some [""]) None.
Definition etcd_key : APIKey := mkAPIKey "etcd.io" "v1" "EtcdCluster" "".

Lemma Reconcile_settles_witness :
  ReconcileAPIIntersection {[ etcd_key ]} (NewOperatorGroup (demo_group "g" "ns" "")) [] = AddAPIs /\
  ReconcileAPIIntersection {[ etcd_key ]}
    (NewOperatorGroup (annotate (demo_group "g" "ns" "")
      (Union (gs_providedAPIs (NewOperatorGroup (demo_group "g" "ns" ""))) [ {[ etcd_key ]} ]))) [] = NoAPIConflict.
Proof.
  split; [vm_compute; reflexivity|].
  refine (proj1 (Reconcile_settles {[ etcd_key ]} (demo_group "g" "ns" "") [] _) _).
  - intros k ->%elem_of_singleton. split; [|reflexivity]. split; [reflexivity|]. split; [reflexivity|].
    intros c [->| ->]; split; [reflexivity|split; reflexivity|reflexivity|split; reflexivity].
  - vm_compute. reflexivity.
Defined.

(** ** Annotations of member CSVs *)

Lemma differ_false a op :
  operatorGroupAnnotationsDiffer a op = false <->
  exists m, a = Some m /\ m !! OperatorGroupNamespaceAnnotationKey = Some (og_Namespace op) /\
    m !! OperatorGroupAnnotationKey = Some (og_Name op) /\
    m !! OperatorGroupTargetsAnnotationKey = Some (BuildTargetNamespaces op).
Proof.
  unfold operatorGroupAnnotationsDiffer. destruct a as [m|]; [|naive_solver].
  repeat case_bool_decide; split; naive_solver.
Qed.

(** For a group whose target namespaces are resolved, annotating a CSV makes it a member
    (the annotations no longer differ), touches the group's three annotations only, and is a
    no-op on a member; so the operator rewrites a CSV's annotations exactly once per change of
    the group. *)
Theorem annotations_settle (a : option (gmap string string)) (op : OperatorGroup) :
  is_Some (og_StatusNamespaces op) ->
  operatorGroupAnnotationsDiffer (setOperatorGroupAnnotations a op true) op = false /\
  (forall k, k ∉ groupAnnotationKeys ->
    annotation (setOperatorGroupAnnotations a op true) k = annotation a k) /\
  (operatorGroupAnnotationsDiffer a op = false -> setOperatorGroupAnnotations a op true = a).
Proof.
  intros Hs. unfold setOperatorGroupAnnotations. rewrite bool_decide_true by done.
  cbn [andb]. unfold SetMetaDataAnnotation. cbn [default from_option id]. split_and!.
  - apply differ_false. eexists. split_and!; [done|..]; rewrite ?lookup_insert_ne by done; apply lookup_insert_eq.
  - intros k Hk. unfold annotation. simpl. unfold groupAnnotationKeys in Hk.
    rewrite !not_elem_of_union, !not_elem_of_singleton in Hk. by rewrite !lookup_insert_ne by (intros <-; tauto).
  - intros (m & -> & H1 & H2 & H3)%differ_false. simpl. f_equal.
    by rewrite (insert_id m _ _ H1), (insert_id m _ _ H2), (insert_id m _ _ H3).
Qed.

Lemma annotations_settle_witness :
  operatorGroupAnnotationsDiffer (setOperatorGroupAnnotations None (demo_group "g" "ns" "") true) (demo_group "g" "ns" "") = false.
Proof. apply (annotations_settle None (demo_group "g" "ns" "")). exists [""]. reflexivity. Defined.

(** ** Target namespaces *)

Lemma namespacesChanged_perm cluster status :
  NoDup cluster -> NoDup status -> namespacesChanged cluster status = false <-> cluster ≡ₚ status.
Proof.
  intros Hc Hs. unfold namespacesChanged. destruct (Nat.eqb_spec (length cluster) (length status)) as [Hl|Hl]; simpl.
  - rewrite existsb_not_elem_of. split.
    + intros H. symmetry. apply submseteq_length_Permutation; [|lia].
      apply NoDup_submseteq; [done|]. intros x Hx. specialize (H x Hx). rewrite negb_false_iff, bool_decide_eq_true in H.
      by apply elem_of_list_to_set in H.
    + intros Hp x Hx. rewrite negb_false_iff, bool_decide_eq_true, elem_of_list_to_set. by rewrite Hp.
  - split; [done|]. intros Hp. by apply Permutation_length in Hp.
Qed.

Lemma elem_of_foldl_insert (l : list string) (m : gmap string unit) x :
  foldl (fun check namespace => <[namespace := tt]> check) m l !! x = Some tt <-> m !! x = Some tt \/ x ∈ l.
Proof.
  revert m. induction l as [|n l IH]; intros m; simpl; [split; [by left|]; intros [?|?%elem_of_nil]; done|].
  rewrite IH, elem_of_cons. destruct (decide (x = n)) as [->|Hne].
  - rewrite lookup_insert_eq. naive_solver.
  - rewrite lookup_insert_ne by done. naive_solver.
Qed.

Lemma elem_of_foldl_toggle (l : list string) (m : gmap string unit) x :
  NoDup l ->
  foldl (fun (check : gmap string unit) namespace =>
    if bool_decide (check !! namespace = None) then <[namespace := tt]> check else delete namespace check) m l !! x
  = if bool_decide (x ∈ l) then (if bool_decide (m !! x = None) then Some tt else None) else m !! x.
Proof.
  revert m. induction l as [|n l IH]; intros m Hnd; [done|]. apply NoDup_cons in Hnd as [Hn Hnd].
  cbn [foldl]. rewrite IH by done. destruct (decide (x = n)) as [->|Hne].
  - rewrite (bool_decide_false _ Hn), (bool_decide_true (n ∈ n :: l)) by set_solver.
    repeat case_bool_decide; rewrite ?lookup_insert_eq, ?lookup_delete_eq; congruence.
  - rewrite (bool_decide_ext (x ∈ n :: l) (x ∈ l)) by set_solver.
    assert ((if bool_decide (m !! n = None) then <[n := tt]> m else delete n m) !! x = m !! x) as ->; [|done].
    clear IH. case_bool_decide; [by rewrite lookup_insert_ne|by rewrite lookup_delete_ne].
Qed.

(** After a change of the selected namespaces the operator requeues exactly the named
    namespaces that the group gained or lost, and it sees a change exactly when the two lists
    differ as sets. *)
Theorem namespace_changes_correct `{RangeOrder} (old new : list string) :
  NoDup old -> NoDup new ->
  (namespacesChanged new old = false <-> new ≡ₚ old) /\
  (forall ns, ns ∈ namespacesAddedOrRemoved old new <-> ns <> "" /\ ~ (ns ∈ old <-> ns ∈ new)).
Proof.
  intros Ho Hn. split; [by apply namespacesChanged_perm|]. intros ns. unfold namespacesAddedOrRemoved.
  rewrite list_elem_of_fmap. setoid_rewrite surjective_pairing at 1.
  set (m := foldl _ ∅ old). set (m' := foldl _ m new).
  assert (m !! ns = Some tt <-> ns ∈ old) as Hm.
  { unfold m. rewrite elem_of_foldl_insert, lookup_empty. naive_solver. }
  assert (m' !! ns = Some tt <-> ~ (ns ∈ old <-> ns ∈ new)) as Hm'.
  { unfold m'. rewrite elem_of_foldl_toggle by done. rewrite <- Hm. case_bool_decide as Hin.
    - destruct (m !! ns) as [[]|] eqn:E; (rewrite bool_decide_true by done) || rewrite bool_decide_false by done;
        intuition congruence.
    - split; [|intros Hx; destruct (m !! ns) as [[]|] eqn:E]; intuition congruence. }
  rewrite <- Hm'. split.
  - intros ([k []] & -> & Hk%elem_of_range). simpl. apply lookup_delete_Some in Hk as [Hk ?]. done.
  - intros [Hne Hk]. exists (ns, tt). split; [done|]. apply elem_of_range.
    by rewrite lookup_delete_ne.
Qed.

Lemma namespace_changes_correct_witness :
  "b" ∈ @namespacesAddedOrRemoved canonical_order ["a"; "b"] ["a"; "c"] <->
    "b" <> "" /\ ~ ("b" ∈ ["a"; "b"] <-> "b" ∈ ["a"; "c"]).
Proof.
  refine (proj2 (@namespace_changes_correct canonical_order ["a"; "b"] ["a"; "c"] _ _) "b").
  - apply (bool_decide_unpack _). vm_compute. exact I.
  - apply (bool_decide_unpack _). vm_compute. exact I.
Defined.

(** ** API surfaces and labels *)

Lemma addCrdKeys_inr set ds keys :
  addCrdKeys set ds = inr keys -> forall k, k ∈ keys <-> k ∈ set \/ exists d, d ∈ ds /\ crdKey d = inr k.
Proof.
  unfold addCrdKeys. intros Hk.
  refine (foldE_inv _ (fun ds keys => forall k, k ∈ keys <-> k ∈ set \/ exists d, d ∈ ds /\ crdKey d = inr k)
    _ _ _ _ _ Hk).
  - intros k. split; [by left|]. intros [?|(d & ?%elem_of_nil & _)]; done.
  - intros dn d acc acc' Hacc. destruct (crdKey d) as [e|key] eqn:E; [done|]. intros [= <-] k.
    rewrite elem_of_union, elem_of_singleton, Hacc. setoid_rewrite elem_of_app. setoid_rewrite list_elem_of_singleton.
    split.
    + intros [[?|(d' & ? & ?)]| ->]; eauto 10.
    + intros [?|(d' & [?| ->] & ?)]; [eauto|eauto|]. right. congruence.
Qed.

Lemma elem_of_addApiKeys set ds k : k ∈ addApiKeys set ds <-> k ∈ set \/ exists d, d ∈ ds /\ k = apiKey d.
Proof.
  revert set. induction ds as [|d ds IH]; intros set; simpl.
  { split; [by left|]. intros [?|(? & ?%elem_of_nil & _)]; done. }
  rewrite IH, elem_of_union, elem_of_singleton. setoid_rewrite elem_of_cons. naive_solver.
Qed.

(** The API surface of a CSV provides exactly the APIs of its owned CRDs and owned API
    services; the required APIs never enter the surface, although the CRDs that declare them
    must have well-formed names. *)
Theorem apiSurfaceOfCSV_correct (csv : CSV) (surface : operatorSurface) :
  apiSurfaceOfCSV csv = inr surface ->
  (forall k, k ∈ os_ProvidedAPIs surface <->
    (exists d, d ∈ spec_CRDs_Owned (csv_Spec csv) /\ crdKey d = inr k) \/
    (exists d, d ∈ spec_APIServices_Owned (csv_Spec csv) /\ k = apiKey d)) /\
  os_RequiredAPIs surface = ∅.
Proof.
  unfold apiSurfaceOfCSV. intros Hs.
  destruct (addCrdKeys ∅ (spec_CRDs_Owned (csv_Spec csv))) as [e|provided] eqn:E1; [done|].
  destruct (addCrdKeys ∅ (spec_CRDs_Required (csv_Spec csv))) as [e|required]; [done|]. injection Hs as <-.
  split; [|done]. intros k. cbn [os_ProvidedAPIs]. rewrite elem_of_addApiKeys, (addCrdKeys_inr _ _ _ E1), elem_of_empty.
  naive_solver.
Qed.

Definition csv_owning (crds : list CRDDescription) : CSV :=
  mkCSV (demo_csv "etcd" "1") None (mkCSVSpec empty_strategy crds [] [] [] [] [] "" [] "" false) (demo_status "" "").

Lemma apiSurfaceOfCSV_correct_witness :
  exists surface, apiSurfaceOfCSV (csv_owning [mkCRDDesc "etcdclusters.etcd.io" "v1" "EtcdCluster"]) = inr surface /\
    os_RequiredAPIs surface = ∅.
Proof.
  eexists. split; [reflexivity|].
  refine (proj2 (apiSurfaceOfCSV_correct (csv_owning [mkCRDDesc "etcdclusters.etcd.io" "v1" "EtcdCluster"]) _ _)).
  reflexivity.
Defined.

(** Kubernetes accepts label names of up to 63 characters. *)
Definition labelNameLimit : nat := 63.

Definition api_label (k v : string) : Prop :=
  HasPrefix k APILabelKeyPrefix = true /\ (String.length k <= labelNameLimit)%nat /\ (v = "provided" \/ v = "required").

Lemma api_label_hash key hash v :
  APIKeyToGVKHash key = inr hash -> v = "provided" \/ v = "required" -> api_label (APILabelKeyPrefix +:+ hash) v.
Proof.
  intros [= <-] Hv. split_and!; [apply HasPrefix_app| |done].
  rewrite str_length_app. pose proof (hex_length (Sum64a (APIKeyToGVKString key))). unfold labelNameLimit. simpl. lia.
Qed.

Lemma addLabels_ok value set keys set' :
  (forall k v, set !! k = Some v -> api_label k v) -> value = "provided" \/ value = "required" ->
  addLabels value set keys = inr set' -> forall k v, set' !! k = Some v -> api_label k v.
Proof.
  intros Hset Hvalue Hr. unfold addLabels in Hr.
  refine (foldE_inv _ (fun _ (set : gmap string string) => forall k v, set !! k = Some v -> api_label k v)
    _ _ _ Hset _ Hr).
  intros _ key acc acc' Hacc. destruct (APIKeyToGVKHash key) as [e|hash] eqn:E; [done|]. intros [= <-] k v.
  rewrite lookup_insert_Some. intros [[<- <-]|[_ ?]]; [by eapply api_label_hash|by apply Hacc].
Qed.

(** Every label of every label set the labeler makes is a valid API label: the prefix
    [olm.api.], a name within the length Kubernetes accepts (the hash is at most 16 hexadecimal
    digits of a 64-bit value), and the value "provided" or "required". *)
Theorem LabelSetsFor_valid (obj : labelObject) (sets : list (gmap string string)) :
  LabelSetsFor obj = inr sets -> forall set k v, set ∈ sets -> set !! k = Some v -> api_label k v.
Proof.
  intros Hl set k v Hin Hk.
  assert (forall crd, labelSetsForCRD crd = inr sets -> api_label k v) as Hcrd.
  { intros [crd|]; cbn [labelSetsForCRD]; [|intros [= <-]; by apply elem_of_nil in Hin]. intros Hc.
    refine (foldE_inv _ (fun _ sets => forall set, set ∈ sets -> forall k v, set !! k = Some v -> api_label k v)
      _ _ _ _ _ Hc set Hin k v Hk); [by intros ? ?%elem_of_nil|].
    intros _ ver acc acc' Hacc. destruct (APIKeyToGVKHash _) as [e|hash] eqn:E; [done|]. intros [= <-] s Hs k' v' Hk'.
    apply elem_of_app in Hs as [Hs|Hs]; [by eapply Hacc|].
    rewrite !elem_of_cons in Hs. destruct Hs as [->|[->|?%elem_of_nil]]; [..|done];
      apply lookup_singleton_Some in Hk' as [<- <-]; eapply api_label_hash; eauto. }
  destruct obj as [s|s|crd|crd|]; simpl in Hl; eauto; try (injection Hl as <-; by apply elem_of_nil in Hin).
  unfold labelSetsForOperatorSurface in Hl.
  destruct (addLabels "provided" ∅ _) as [e|s1] eqn:E1; [done|].
  destruct (addLabels "required" s1 _) as [e|s2] eqn:E2; [done|]. injection Hl as <-.
  apply list_elem_of_singleton in Hin as ->. eapply addLabels_ok; [|by right|exact E2|exact Hk].
  eapply addLabels_ok; [|by left|exact E1]. by intros ? ? ?%lookup_empty_Some.
Qed.

Lemma LabelSetsFor_valid_witness :
  exists set, LabelSetsFor (LCRDv1 (Some (mkCRDObject "etcd.io" ["v1"] "EtcdCluster"))) =
      inr [set; {[ APILabelKeyPrefix +:+ hex (Sum64a "EtcdCluster.v1.etcd.io") := "required" ]}] /\
    api_label (APILabelKeyPrefix +:+ hex (Sum64a "EtcdCluster.v1.etcd.io")) "provided".
Proof.
  eexists. split; [reflexivity|].
  eapply (LabelSetsFor_valid (LCRDv1 (Some (mkCRDObject "etcd.io" ["v1"] "EtcdCluster"))) _ eq_refl).
  - apply elem_of_cons. left. reflexivity.
  - apply lookup_singleton_eq.
Defined.

(** ** Copies *)

(** A copy of a CSV is recognised as a copy in every namespace it is created in, by its
    status and by its label alone, so it is neither synced as an operator of its own nor copied
    again; it keeps the spec and the condition history of the original. *)
Theorem csvCopyPrototype_copied (src : CSV) (ns : string) :
  let copy := csvCopyPrototype src in
  IsCopied copy = true /\ IsCopiedObject ns (csv_Annotations copy) (Labels (csv_obj copy)) = true /\
  IsUncopiable copy = true /\ csv_Spec copy = csv_Spec src /\ csv_Name copy = csv_Name src /\
  st_Conditions (csv_Status copy) = st_Conditions (csv_Status src) /\
  annotation (csv_Annotations copy) OperatorGroupTargetsAnnotationKey = None.
Proof.
  cbv zeta. split_and!; try done.
  - unfold IsCopiedObject. apply orb_true_iff. right. apply bool_decide_eq_true.
    unfold annotation, csvCopyPrototype. simpl. rewrite lookup_insert_eq. eauto.
  - unfold IsUncopiable. apply orb_true_iff. right. apply bool_decide_eq_true.
    change (CSVReasonCopied ∈ uncopiableReasons). unfold uncopiableReasons. set_solver.
  - unfold annotation, csvCopyPrototype. simpl. apply map_lookup_filter_None. right. naive_solver.
Qed.
