(* ===== verification/ReplaceChain.v ===== *)
(** * Replacement chains of CSVs

    Models [pkg/lib/csv/csvset.go] and [replace_finder.go] (which CSV replaces which),
    [controller/registry/resolver/fail_forward.go] (walking a replacement chain) and
    [getReplacementChain]/[crdOwnerConflicts] of [controller/operators/olm/operator.go].

    The Go loops follow [spec.replaces] links until there is none; the links are written by
    users and can form cycles.  Loops run on fuel, [None] is the loop that has not ended yet;
    the theorems bound the fuel by the number of CSVs. *)

From S2P Require Import Prelude GoStrings RbacRules OwnerUtil CatalogModel ResolverCache CsvTypes OperatorGroups.

#[local] Arguments String.append : simpl nomatch.

(** ** CSV sets (csvset.go) *)

(** [csvSet.with], of the CSVs the lister returned; a lister error gives the nil map. *)
Definition csvSet (listed : error + list CSV) (phase : string) : gmap string CSV :=
  match listed with
  | inl _ => ∅
  | inr csvsInNamespace =>
      foldl (fun csvs csv =>
        if bool_decide (phase <> CSVPhaseAny) && bool_decide (csv_Phase csv <> phase) then csvs
        else <[csv_Name csv := csv]> csvs) ∅ csvsInNamespace
  end.

(** ** The replace finder (replace_finder.go) *)

Section finder.
Context `{RangeOrder}.

Definition replacesName (name : string) (csv : CSV) : bool :=
  negb (IsCopied csv) && bool_decide (csv_Replaces csv = name).

Definition IsBeingReplaced (inName : string) (csvsInNamespace : gmap string CSV) : option CSV :=
  List.find (replacesName inName) (range csvsInNamespace).*2.

(** [get] is the client's [Get]. *)
Definition IsReplacing (get : string -> string -> error + CSV) (in_ : CSV) : option CSV :=
  if bool_decide (csv_Replaces in_ = "") then None
  else match get (csv_Namespace in_) (csv_Replaces in_) with inl _ => None | inr previous => Some previous end.

(** The loop of [GetFinalCSVInReplacing]: [None] when it is still running. *)
Fixpoint finalCSV (fuel : nat) (current : string) (replacedBy : option CSV) (csvs : gmap string CSV) : option (option CSV) :=
  match fuel with
  | O => None
  | S fuel' =>
      match IsBeingReplaced current csvs with
      | None => Some replacedBy
      | Some next => finalCSV fuel' (csv_Name next) (Some next) csvs
      end
  end.

Definition GetFinalCSVInReplacing (fuel : nat) (in_ : CSV) (csvs : gmap string CSV) : option (option CSV) :=
  finalCSV fuel (csv_Name in_) None csvs.

(** ** The chain of a CSV (operator.go) *)

(** The closures [replacement] and [replaces] of [getReplacementChain]. *)
Definition replacement (csvsInNamespace : gmap string CSV) (csvName : string) : option string :=
  csv_Name <$> List.find (fun csv => bool_decide (csv_Replaces csv = csvName)) (range csvsInNamespace).*2.

Definition replaces (csvsInNamespace : gmap string CSV) (name : string) : option string :=
  csv_Replaces <$> List.find (fun csv => bool_decide (csv_Name csv = name)) (range csvsInNamespace).*2.

Fixpoint chainUp (fuel : nat) (csvs : gmap string CSV) (next : option string) (csvsInChain : gset string)
    : option (gset string) :=
  match fuel with
  | O => None
  | S fuel' =>
      match next with
      | None => Some csvsInChain
      | Some n =>
          if bool_decide (n ∈ csvsInChain) then Some csvsInChain
          else chainUp fuel' csvs (replacement csvs n) (csvsInChain ∪ {[ n ]})
      end
  end.

Fixpoint chainDown (fuel : nat) (csvs : gmap string CSV) (prev : option string) (csvsInChain : gset string)
    : option (gset string) :=
  match fuel with
  | O => None
  | S fuel' =>
      match prev with
      | None => Some csvsInChain
      | Some p =>
          if bool_decide (p = "") then Some csvsInChain
          else if bool_decide (p ∈ csvsInChain) then Some csvsInChain
          else chainDown fuel' csvs (replaces csvs p) (csvsInChain ∪ {[ p ]})
      end
  end.

(** Each iteration but the last adds a new name to the chain. *)
Definition chainFuel (csvs : gmap string CSV) : nat := size csvs + 3.

Definition getReplacementChain (in_ : CSV) (csvs : gmap string CSV) : option (gset string) :=
  let current := csv_Name in_ in
  up ← chainUp (chainFuel csvs) csvs (replacement csvs current) {[ current ]};
  let current := csv_Replaces in_ in
  let prev := replaces csvs current in
  let csvsInChain := if bool_decide (is_Some prev) then up ∪ {[ current ]} else up in
  chainDown (chainFuel csvs) csvs prev csvsInChain.

Definition crdOwnerConflicts (in_ : CSV) (csvs : gmap string CSV) : option error :=
  let csvsInChain := default ∅ (getReplacementChain in_ csvs) in
  if existsb (fun '(name, csv) =>
       negb (bool_decide (name ∈ csvsInChain))
       && existsb (fun crd => negb (bool_decide (name = csv_Name in_)) && OwnsCRD csv (crd_Name crd))
            (spec_CRDs_Owned (csv_Spec in_)))
     (range csvs)
  then Some ErrCRDOwnerConflict else None.
End finder.

(** ** Walking a chain (fail_forward.go) *)

(** A walk option is a closure; [WithUniqueCSVs] carries the names it has seen. *)
Inductive walkOption := WithCSVPhase (phase : string) | WithUniqueCSVs (visited : gset string).

Definition namespacedName (csv : CSV) : string := csv_Namespace csv +:+ "/" +:+ csv_Name csv.

Definition runOption (o : walkOption) (csv : CSV) : error + walkOption :=
  match o with
  | WithCSVPhase phase =>
      if bool_decide (csv_Phase csv <> phase)
      then inl (ErrString ("csv " +:+ namespacedName csv +:+ " in phase " +:+ csv_Phase csv +:+ " instead of " +:+ phase))
      else inr o
  | WithUniqueCSVs visited =>
      if bool_decide (csv_Name csv ∈ visited)
      then inl (ErrString ("csv " +:+ namespacedName csv +:+ " has already been seen"))
      else inr (WithUniqueCSVs (visited ∪ {[ csv_Name csv ]}))
  end.

(** [for _, o := range options { if err := o(csv); err != nil { return nil, err } }] *)
Fixpoint runOptions (os : list walkOption) (csv : CSV) : error + list walkOption :=
  match os with
  | [] => inr []
  | o :: os' =>
      match runOption o csv with
      | inl err => inl err
      | inr o' => match runOptions os' csv with inl err => inl err | inr os'' => inr (o' :: os'') end
      end
  end.

Fixpoint walk (fuel : nat) (csv : CSV) (csvToReplacement : gmap string CSV) (os : list walkOption) : option (error + CSV) :=
  match fuel with
  | O => None
  | S fuel' =>
      match csvToReplacement !! csv_Name csv with
      | None => Some (inr csv)
      | Some next =>
          match runOptions os csv with
          | inl err => Some (inl err)
          | inr os' => walk fuel' next csvToReplacement os'
          end
      end
  end.

Definition WalkReplacementChain (fuel : nat) (csv : option CSV) (csvToReplacement : gmap string CSV)
    (options : list walkOption) : option (error + CSV) :=
  match csv with
  | None => Some (inl (ErrString "csv cannot be nil"))
  | Some csv => walk fuel csv csvToReplacement options
  end.

(** Every step of a walk with [WithUniqueCSVs] sees a new name with a replacement. *)
Definition walkFuel (csvToReplacement : gmap string CSV) : nat := size csvToReplacement + 2.

Definition isReplacementChainThatEndsInFailure (csv : option CSV) (csvToReplacement : gmap string CSV)
    : option (error + bool) :=
  match WalkReplacementChain (walkFuel csvToReplacement) csv csvToReplacement
          [WithCSVPhase CSVPhaseReplacing; WithUniqueCSVs ∅] with
  | None => None
  | Some (inl err) => Some (inl err)
  | Some (inr lastCSV) => Some (inr (bool_decide (csv_Phase lastCSV = CSVPhaseFailed)))
  end.

Definition ReplacementMapping (csvs : list CSV) : gmap string CSV :=
  foldl (fun m csv => if bool_decide (csv_Replaces csv <> "") then <[csv_Replaces csv := csv]> m else m) ∅ csvs.

(** [%d] of a length. *)
Definition IsFailForwardEnabled (listed : error + list OperatorGroup) : error + bool :=
  match listed with
  | inl err => inl err
  | inr [og] => inr (bool_decide (UpgradeStrategy og = UpgradeStrategyUnsafeFailForward))
  | inr ogs => inl (ErrString ("found " +:+ pretty.pretty (length ogs) +:+ " operatorGroups, expected 1"))
  end.

(** ** Walks terminate and find the end of the chain *)

Section walks.
Context (m : gmap string CSV).

(** [n] replaces [c], by the mapping. *)
Definition link (c n : CSV) : Prop := m !! csv_Name c = Some n.
Definition terminal (c : CSV) : Prop := m !! csv_Name c = None.

Lemma runOptions_unique os csv os' visited :
  WithUniqueCSVs visited ∈ os -> runOptions os csv = inr os' ->
  csv_Name csv ∉ visited /\ WithUniqueCSVs (visited ∪ {[ csv_Name csv ]}) ∈ os'.
Proof.
  revert os'. induction os as [|o os IH]; intros os' Hin; [by apply elem_of_nil in Hin|]. simpl.
  destruct (runOption o csv) as [e|o'] eqn:Eo; [done|].
  destruct (runOptions os csv) as [e|os''] eqn:Eos; [done|]. intros [= <-].
  apply elem_of_cons in Hin as [<-|Hin].
  - simpl in Eo. case_bool_decide; [done|]. injection Eo as <-. set_solver.
  - destruct (IH os'' Hin eq_refl). set_solver.
Qed.

Lemma dom_shrinks (visited : gset string) x :
  x ∈ dom m -> x ∉ visited -> (size (dom m ∖ (visited ∪ {[ x ]})) < size (dom m ∖ visited))%nat.
Proof. intros Hx Hv. apply subset_size. set_solver. Qed.

Lemma walk_terminates fuel csv os visited :
  WithUniqueCSVs visited ∈ os -> (size (dom m ∖ visited) < fuel)%nat -> is_Some (walk fuel csv m os).
Proof.
  revert csv os visited. induction fuel as [|fuel IH]; intros csv os visited Hin Hf; [lia|]. simpl.
  destruct (m !! csv_Name csv) as [n|] eqn:En; [|eauto].
  destruct (runOptions os csv) as [e|os'] eqn:Eo; [eauto|].
  destruct (runOptions_unique _ _ _ _ Hin Eo) as [Hv Hin'].
  apply (IH _ _ _ Hin'). pose proof (dom_shrinks visited (csv_Name csv) (elem_of_dom_2 _ _ _ En) Hv). lia.
Qed.

(** The CSVs a successful walk leaves behind satisfied its phase options. *)
Lemma runOptions_phase os csv os' phase :
  WithCSVPhase phase ∈ os -> runOptions os csv = inr os' -> csv_Phase csv = phase /\ WithCSVPhase phase ∈ os'.
Proof.
  revert os'. induction os as [|o os IH]; intros os' Hin; [by apply elem_of_nil in Hin|]. simpl.
  destruct (runOption o csv) as [e|o'] eqn:Eo; [done|].
  destruct (runOptions os csv) as [e|os''] eqn:Eos; [done|]. intros [= <-].
  apply elem_of_cons in Hin as [<-|Hin].
  - simpl in Eo. case_bool_decide as Hp; [done|]. injection Eo as <-. split; [destruct (decide (csv_Phase csv = phase)); tauto|set_solver].
  - destruct (IH os'' Hin eq_refl). set_solver.
Qed.

Definition phase_link (phase : string) (c n : CSV) : Prop := csv_Phase c = phase /\ link c n.

Lemma walk_sound fuel csv os phase last :
  WithCSVPhase phase ∈ os -> walk fuel csv m os = Some (inr last) -> rtc (phase_link phase) csv last /\ terminal last.
Proof.
  revert csv os. induction fuel as [|fuel IH]; intros csv os Hin; [done|]. simpl.
  destruct (m !! csv_Name csv) as [n|] eqn:En; [|intros [= <-]; split; [apply rtc_refl|done]].
  destruct (runOptions os csv) as [e|os'] eqn:Eo; [done|].
  destruct (runOptions_phase _ _ _ _ Hin Eo) as [Hp Hin']. intros [Hr Ht]%(IH _ _ Hin'). split; [|done].
  by eapply rtc_l.
Qed.

Lemma walk_end_sound fuel csv os last :
  walk fuel csv m os = Some (inr last) -> rtc link csv last /\ terminal last.
Proof.
  revert csv os. induction fuel as [|fuel IH]; intros csv os; [done|]. simpl.
  destruct (m !! csv_Name csv) as [n|] eqn:En; [|intros [= <-]; split; [apply rtc_refl|done]].
  destruct (runOptions os csv) as [e|os'] eqn:Eo; [done|]. intros [Hr Ht]%IH. split; [|done]. by eapply rtc_l.
Qed.

(** The next CSV depends on the name only, so the distance to the end of a chain does. *)
Lemma distance_unique k k' c c' l l' :
  csv_Name c = csv_Name c' -> nsteps link k c l -> nsteps link k' c' l' -> terminal l -> terminal l' -> k = k'.
Proof.
  unfold terminal. revert k' c c'. induction k as [|k IH]; intros k' c c' Hn H1 H2 Hl Hl'.
  - inversion H1; subst. inversion H2 as [|? ? ? ? Hs]; subst; [done|]. unfold link in Hs. congruence.
  - inversion H1 as [|? ? x ? Hs Hr]; subst. inversion H2 as [|k2 ? x' ? Hs' Hr']; subst; unfold link in Hs; [congruence|].
    unfold link in Hs'. assert (x = x') as <- by congruence. f_equal. by apply (IH _ x x).
Qed.

(** A walk along a chain that ends is not stopped: it never meets a name twice. *)
Lemma walk_complete k fuel csv last phase visited :
  nsteps (phase_link phase) k csv last -> terminal last -> (k < fuel)%nat ->
  (forall x c k', x ∈ visited -> csv_Name c = x -> nsteps link k' c last -> (k < k')%nat) ->
  walk fuel csv m [WithCSVPhase phase; WithUniqueCSVs visited] = Some (inr last).
Proof.
  assert (forall k c d, nsteps (phase_link phase) k c d -> nsteps link k c d) as Hweak.
  { induction 1 as [|? ? ? ? [_ ?]]; econstructor; eauto. }
  revert fuel csv visited. induction k as [|k IH]; intros fuel csv visited Hs Ht Hf Hv; (destruct fuel as [|fuel]; [lia|]); simpl.
  - inversion Hs; subst. unfold terminal in Ht. by rewrite Ht.
  - pose proof (Hweak _ _ _ Hs) as Hs'. inversion Hs as [|? ? n ? [Hp Hl] Hr]; subst. rewrite Hl.
    rewrite bool_decide_false by (intros ?; done). rewrite bool_decide_false; [apply IH; [done..|lia|]|].
    + intros x c k' Hx Hc Hk. apply elem_of_union in Hx as [Hx| ->%elem_of_singleton]; [specialize (Hv _ _ _ Hx Hc Hk); lia|].
      assert (k' = S k) as ->; [|lia]. by eapply distance_unique.
    + intros Hin. specialize (Hv _ _ _ Hin eq_refl Hs'). lia.
Qed.

Lemma nsteps_bound k c l : nsteps link k c l -> terminal l -> (k <= size m)%nat.
Proof.
  intros Hk Ht.
  assert (forall visited : gset string, (forall x c k', x ∈ visited -> csv_Name c = x -> nsteps link k' c l -> (k < k')%nat) ->
    (k <= size (dom m ∖ visited))%nat) as Hb.
  { clear -Hk Ht. induction Hk as [l|k c n l Hl Hk IH]; intros visited Hv; [lia|].
    assert (csv_Name c ∉ visited) as Hn.
    { intros Hin. assert (S k < S k)%nat; [|lia]. eapply Hv; [done|done|]. by econstructor. }
    pose proof (dom_shrinks visited (csv_Name c) (elem_of_dom_2 _ _ _ Hl) Hn).
    cut (k <= size (dom m ∖ (visited ∪ {[ csv_Name c ]})))%nat; [lia|]. apply (IH Ht).
    intros x c' k' Hx Hc Hk'. apply elem_of_union in Hx as [Hx| ->%elem_of_singleton]; [specialize (Hv _ _ _ Hx Hc Hk'); lia|].
    assert (k' = S k) as ->; [|lia]. eapply distance_unique; [exact Hc|exact Hk'|by econstructor|done|done]. }
  specialize (Hb ∅). rewrite difference_empty_L, size_dom in Hb. apply Hb. set_solver.
Qed.

(** The same without a condition on the phases. *)
Lemma walk_unique_complete k fuel csv last visited :
  nsteps link k csv last -> terminal last -> (k < fuel)%nat ->
  (forall x c k', x ∈ visited -> csv_Name c = x -> nsteps link k' c last -> (k < k')%nat) ->
  walk fuel csv m [WithUniqueCSVs visited] = Some (inr last).
Proof.
  revert fuel csv visited. induction k as [|k IH]; intros fuel csv visited Hs Ht Hf Hv; (destruct fuel as [|fuel]; [lia|]); simpl.
  - inversion Hs; subst. unfold terminal in Ht. by rewrite Ht.
  - pose proof Hs as Hs'. inversion Hs as [|? ? n ? Hl Hr]; subst. rewrite Hl.
    rewrite bool_decide_false; [apply IH; [done..|lia|]|].
    + intros x c k' Hx Hc Hk. apply elem_of_union in Hx as [Hx| ->%elem_of_singleton]; [specialize (Hv _ _ _ Hx Hc Hk); lia|].
      assert (k' = S k) as ->; [|lia]. by eapply distance_unique.
    + intros Hin. specialize (Hv _ _ _ Hin eq_refl Hs'). lia.
Qed.

Lemma walk_to_end csv last :
  rtc link csv last -> terminal last -> walk (walkFuel m) csv m [WithUniqueCSVs ∅] = Some (inr last).
Proof.
  intros [k Hk]%rtc_nsteps Ht. apply (walk_unique_complete k); [done..| |by intros ? ? ? ?%elem_of_empty].
  pose proof (nsteps_bound _ _ _ Hk Ht). unfold walkFuel. lia.
Qed.
End walks.

(** Whether a replacement chain ends in failure is decided for every set of CSVs, cyclic
    ones included: the walk ends within as many steps as there are replacements, and it answers
    true exactly when the chain runs through CSVs in the Replacing phase to a CSV that nothing
    replaces and that has failed. *)
Theorem chain_ends_in_failure_correct (csv : CSV) (m : gmap string CSV) :
  exists r, isReplacementChainThatEndsInFailure (Some csv) m = Some r /\
    (r = inr true <-> exists last, rtc (phase_link m CSVPhaseReplacing) csv last /\
      terminal m last /\ csv_Phase last = CSVPhaseFailed).
Proof.
  unfold isReplacementChainThatEndsInFailure, WalkReplacementChain.
  set (os := [WithCSVPhase CSVPhaseReplacing; WithUniqueCSVs ∅]).
  destruct (walk_terminates m (walkFuel m) csv os ∅) as [r Hr]; [set_solver| |].
  { rewrite difference_empty_L, size_dom. unfold walkFuel. lia. }
  assert (forall last, rtc (phase_link m CSVPhaseReplacing) csv last -> terminal m last -> r = inr last) as Hc.
  { intros last [k Hk]%rtc_nsteps Ht.
    assert (nsteps (link m) k csv last) as Hk' by (clear -Hk; induction Hk as [|? ? ? ? [_ ?]]; econstructor; eauto).
    pose proof (nsteps_bound m _ _ _ Hk' Ht) as Hb. unfold os in Hr.
    rewrite (walk_complete m k _ _ last) in Hr; [congruence|done|done|unfold walkFuel; lia|].
    intros ? ? ? ?%elem_of_empty. done. }
  rewrite Hr. destruct r as [e|last]; eexists; (split; [reflexivity|]).
  - split; [done|]. intros (last & Hl & Ht & _). by specialize (Hc _ Hl Ht).
  - apply (walk_sound m _ _ _ CSVPhaseReplacing) in Hr as [Hs Ht]; [|set_solver]. split.
    + intros [= Hf]. bools. eauto.
    + intros (last' & Hl & Ht' & Hp). specialize (Hc _ Hl Ht'). injection Hc as ->. by rewrite bool_decide_true.
Qed.

(** ** The replace finder's loop *)

(** A CSV set is keyed by the names of its CSVs, as [csvSet] builds it. *)
Definition keyed (m : gmap string CSV) : Prop := forall k c, m !! k = Some c -> csv_Name c = k.

Lemma csvSet_keyed listed phase : keyed (csvSet listed phase).
Proof.
  destruct listed as [e|l]; simpl; [by intros k c ?%lookup_empty_Some|].
  apply (foldl_inv _ (fun _ m => keyed m)); [by intros k c ?%lookup_empty_Some|].
  intros _ c m Hm. case_one; [done|]. intros k c'. rewrite lookup_insert_Some. intros [[<- <-]|[_ ?]]; [done|by apply Hm].
Qed.

(** [y], a CSV of the set that is no copy, replaces [x]. *)
Definition replaced_by (m : gmap string CSV) (x y : string) : Prop :=
  exists c, m !! y = Some c /\ replacesName x c = true.

Section final.
Context `{RangeOrder}.

Lemma IsBeingReplaced_Some x m c :
  keyed m -> IsBeingReplaced x m = Some c -> m !! csv_Name c = Some c /\ replacesName x c = true.
Proof.
  intros Hm [Hin Hc]%find_elem_of. split; [|done]. apply elem_of_range_vals in Hin as [k Hk]. by rewrite (Hm _ _ Hk).
Qed.

Lemma IsBeingReplaced_None x m : IsBeingReplaced x m = None -> forall y, ~ replaced_by m x y.
Proof.
  intros Hf y (c & Hc & Hr). unfold IsBeingReplaced in Hf.
  rewrite (find_none_elem_of _ _ c Hf) in Hr; [done|]. apply elem_of_range_vals. eauto.
Qed.

Lemma finalCSV_terminates m fuel x r (visited : gset string) :
  keyed m -> (forall y, ~ tc (replaced_by m) y y) ->
  (forall y, y ∈ visited -> tc (replaced_by m) y x \/ y = x) ->
  (size (dom m ∖ visited) < fuel)%nat -> (forall c, r = Some c -> csv_Name c = x) ->
  exists r', finalCSV fuel x r m = Some r' /\
    match r' with
    | None => r = None /\ forall y, ~ replaced_by m x y
    | Some c => (r' = r \/ m !! csv_Name c = Some c) /\ rtc (replaced_by m) x (csv_Name c) /\
        forall y, ~ replaced_by m (csv_Name c) y
    end.
Proof.
  intros Hm Hacyc. revert x r visited. induction fuel as [|fuel IH]; intros x r visited Hv Hf Hr; [lia|]. simpl.
  destruct (IsBeingReplaced x m) as [c|] eqn:E.
  - apply IsBeingReplaced_Some in E as [Hc Hrep]; [|done].
    assert (replaced_by m x (csv_Name c)) as Hstep by (exists c; done).
    assert (csv_Name c ∉ visited) as Hn.
    { intros [Ht|Ht]%Hv; [|rewrite Ht in *]; apply (Hacyc (csv_Name c)); [by eapply tc_r|rewrite Ht; by apply tc_once]. }
    destruct (IH (csv_Name c) (Some c) (visited ∪ {[ csv_Name c ]})) as (r' & -> & Hr').
    + intros y [Hy| ->%elem_of_singleton]%elem_of_union; [left|by right].
      destruct (Hv y Hy) as [?| ->]; [by eapply tc_r|by apply tc_once].
    + pose proof (dom_shrinks m visited (csv_Name c) (elem_of_dom_2 _ _ _ Hc) Hn). lia.
    + by intros ? [= <-].
    + exists r'. split; [done|]. destruct r' as [c'|]; [|by destruct Hr'].
      destruct Hr' as (Hin & Hl & Hno). split; [right; by destruct Hin as [[= ->]|?]|]. split; [|done]. by eapply rtc_l.
  - pose proof (IsBeingReplaced_None _ _ E) as Hno. exists r. split; [done|]. destruct r as [c|]; [|done].
    rewrite (Hr c eq_refl). split; [by left|]. by split; [apply rtc_refl|].
Qed.

(** For a set of CSVs whose replacements have no cycle, the search for the newest CSV ends
    within one step more than there are CSVs, and what it returns is the end of the chain: a CSV
    of the set, reached from the given one by replacements, that nothing replaces; nil means
    that the CSV itself is not replaced. *)
Theorem GetFinalCSVInReplacing_correct (in_ : CSV) (m : gmap string CSV) :
  keyed m -> (forall y, ~ tc (replaced_by m) y y) ->
  exists r, GetFinalCSVInReplacing (S (size m)) in_ m = Some r /\
    match r with
    | None => forall y, ~ replaced_by m (csv_Name in_) y
    | Some c => m !! csv_Name c = Some c /\ rtc (replaced_by m) (csv_Name in_) (csv_Name c) /\
        forall y, ~ replaced_by m (csv_Name c) y
    end.
Proof.
  intros Hm Hacyc. unfold GetFinalCSVInReplacing.
  destruct (finalCSV_terminates m (S (size m)) (csv_Name in_) None ∅) as (r & Hr & Hspec); try done.
  { rewrite difference_empty_L, size_dom. lia. }
  exists r. split; [done|]. destruct r; [|apply Hspec]. destruct Hspec as ([?|?] & ? & ?); [done|]. by split_and!.
Qed.
End final.

(** A CSV that names itself in [spec.replaces] is followed forever: no fuel is enough. *)
Lemma GetFinalCSVInReplacing_self_loop (fuel : nat) :
  let c := demo_CSV "etcd" "etcd" "" "" in
  @GetFinalCSVInReplacing canonical_order fuel c {[ "etcd" := c ]} = None.
Proof.
  cbv zeta. unfold GetFinalCSVInReplacing. change (csv_Name (demo_CSV "etcd" "etcd" "" "")) with "etcd".
  generalize (@None CSV) as r. induction fuel as [|fuel IH]; intros r; [done|]. simpl finalCSV.
  set (m := {[ "etcd" := _ ]}). assert (@IsBeingReplaced canonical_order "etcd" m = Some (demo_CSV "etcd" "etcd" "" "")) as ->
    by (vm_compute; reflexivity).
  apply IH.
Qed.

Lemma GetFinalCSVInReplacing_correct_witness :
  let m := {[ "etcd.v2" := demo_CSV "etcd.v2" "etcd.v1" "" "" ]} in
  exists r, @GetFinalCSVInReplacing canonical_order 2 (demo_CSV "etcd.v1" "" "" "") m = Some r /\
    match r with
    | None => forall y, ~ replaced_by m "etcd.v1" y
    | Some c => m !! csv_Name c = Some c /\ rtc (replaced_by m) "etcd.v1" (csv_Name c) /\ forall y, ~ replaced_by m (csv_Name c) y
    end.
Proof.
  intros m. refine (@GetFinalCSVInReplacing_correct canonical_order (demo_CSV "etcd.v1" "" "" "") m _ _).
  - intros k c [<- <-]%lookup_singleton_Some. reflexivity.
  - assert (forall x y, replaced_by m x y -> x = "etcd.v1" /\ y = "etcd.v2") as Hr.
    { intros x y (c & [<- <-]%lookup_singleton_Some & Hx). unfold replacesName in Hx. bools. split; [by symmetry|done]. }
    intros y Ht. assert (forall a b, tc (replaced_by m) a b -> a = "etcd.v1" /\ b = "etcd.v2") as Hall.
    { induction 1 as [a b ?|a b d ? ? [? ?]]; [by apply Hr|]. by destruct (Hr a b). }
    destruct (Hall y y Ht) as [-> ?]. done.
Defined.

(** ** The chain of a CSV *)

(** [x], a CSV of the set, names [y] in [spec.replaces]. *)
Definition replacesLink (m : gmap string CSV) (x y : string) : Prop := exists c, m !! x = Some c /\ csv_Replaces c = y.

Section chain.
Context `{RangeOrder} (m : gmap string CSV) (Hm : keyed m).

Lemma replacement_Some x y : replacement m x = Some y -> replacesLink m y x /\ y ∈ dom m.
Proof.
  unfold replacement. destruct (List.find _ _) as [c|] eqn:E; [|done]. intros [= <-].
  apply find_elem_of in E as [[k Hk]%elem_of_range_vals Hr]. bools. rewrite (Hm _ _ Hk).
  split; [by exists c|by apply elem_of_dom_2 in Hk].
Qed.

Lemma replaces_lookup x : replaces m x = csv_Replaces <$> m !! x.
Proof.
  unfold replaces. destruct (List.find _ _) as [c|] eqn:E.
  - apply find_elem_of in E as [[k Hk]%elem_of_range_vals Hr]. bools. rewrite (Hm _ _ Hk) in Hr. subst k. by rewrite Hk.
  - destruct (m !! x) as [c|] eqn:Hx; [|done]. exfalso.
    assert (c ∈ (range m).*2) as Hin by (apply elem_of_range_vals; eauto).
    pose proof (find_none_elem_of _ _ c E Hin) as Hne. cbv beta in Hne. bools. by apply Hne, Hm.
Qed.

(** The chain above [name]: it grows along replacements until there is none or a cycle closes. *)
Record up_inv (name : string) (chain : gset string) : Prop := {
  up_in : name ∈ chain;
  up_closed : forall x c, x ∈ chain -> x <> name -> m !! x = Some c -> csv_Replaces c ∈ chain;
  up_sound : forall x, x ∈ chain -> rtc (replacesLink m) x name;
}.

Lemma chainUp_ok name fuel current chain :
  up_inv name chain -> current ∈ chain -> (size (dom m ∖ chain) + 1 < fuel)%nat ->
  exists T, chainUp fuel m (replacement m current) chain = Some T /\ up_inv name T.
Proof.
  revert current chain. induction fuel as [|fuel IH]; intros current chain Hinv Hc Hf; [lia|]. simpl.
  destruct (replacement m current) as [n|] eqn:En; [|eauto].
  case_bool_decide as Hn; [eauto|].
  apply replacement_Some in En as [Hl Hd]. pose proof (dom_shrinks m chain n Hd Hn) as Hsh.
  apply IH; [|set_solver|lia]. destruct Hinv as [Hin Hcl Hs]. split.
  - set_solver.
  - intros x c Hx Hne Hlk. apply elem_of_union in Hx as [Hx| ->%elem_of_singleton]; [set_solver|].
    destruct Hl as (c' & Hc' & <-). set_solver.
  - intros x [Hx| ->%elem_of_singleton]%elem_of_union; [auto|]. eapply rtc_l; [exact Hl|]. auto.
Qed.

(** The chain below: every link out of it is inside, or is the next one to follow. *)
Record down_inv (name first : string) (prev : option string) (chain : gset string) : Prop := {
  dn_closed : forall x c, x ∈ chain -> x <> name -> m !! x = Some c -> csv_Replaces c <> "" ->
    csv_Replaces c ∈ chain \/ prev = Some (csv_Replaces c);
  dn_sound : forall x, x ∈ chain -> rtc (replacesLink m) x name \/ rtc (replacesLink m) first x;
  dn_prev : forall p, prev = Some p -> rtc (replacesLink m) first p;
}.

Lemma chainDown_ok name first fuel prev chain :
  down_inv name first prev chain ->
  (size (dom m ∖ chain) + 2 < fuel)%nat \/ (prev = None /\ 0 < fuel)%nat ->
  exists T, chainDown fuel m prev chain = Some T /\ down_inv name first None T /\ chain ⊆ T.
Proof.
  revert prev chain. induction fuel as [|fuel IH]; intros prev chain Hinv Hf; [lia|]. simpl.
  destruct prev as [p|]; [|exists chain; done].
  destruct Hinv as [Hcl Hs Hp].
  assert (p = "" \/ p ∈ chain -> down_inv name first None chain) as Hstop.
  { intros Hstop. split; [|done|done]. intros x c Hx Hne Hlk Hr. destruct (Hcl x c Hx Hne Hlk Hr) as [?|[= ->]]; naive_solver. }
  case_bool_decide as He; [exists chain; naive_solver|]. case_bool_decide as Hin; [exists chain; naive_solver|].
  destruct Hf as [Hf|[? _]]; [|done].
  destruct (IH (replaces m p) (chain ∪ {[ p ]})) as (T & -> & HT & Hsub).
  - rewrite replaces_lookup. split.
    + intros x c Hx Hne Hlk Hr. apply elem_of_union in Hx as [Hx| ->%elem_of_singleton].
      * destruct (Hcl x c Hx Hne Hlk Hr) as [?|[= ->]]; set_solver.
      * right. by rewrite Hlk.
    + intros x [Hx| ->%elem_of_singleton]%elem_of_union; [auto|]. right. by apply Hp.
    + intros q. destruct (m !! p) as [c|] eqn:E; [|done]. intros [= <-].
      eapply rtc_r; [by apply Hp|]. by exists c.
  - rewrite replaces_lookup. destruct (m !! p) as [c|] eqn:E; [left|right; split; [done|lia]].
    pose proof (dom_shrinks m chain p (elem_of_dom_2 _ _ _ E) Hin). lia.
  - exists T. set_solver.
Qed.

(** What [getReplacementChain] computes for [in_]. *)
Record chain_spec (in_ : CSV) (T : gset string) : Prop := {
  cs_self : csv_Name in_ ∈ T;
  cs_first : csv_Replaces in_ ∈ dom m -> csv_Replaces in_ ∈ T;
  cs_closed : forall x c, x ∈ T -> x <> csv_Name in_ -> m !! x = Some c -> csv_Replaces c <> "" -> csv_Replaces c ∈ T;
  cs_sound : forall x, x ∈ T -> rtc (replacesLink m) x (csv_Name in_) \/ rtc (replacesLink m) (csv_Replaces in_) x;
}.

Lemma getReplacementChain_ok in_ : exists T, getReplacementChain in_ m = Some T /\ chain_spec in_ T.
Proof.
  unfold getReplacementChain.
  destruct (chainUp_ok (csv_Name in_) (chainFuel m) (csv_Name in_) {[ csv_Name in_ ]}) as (U & HU & [Hin Hcl Hs]).
  { split; [set_solver|set_solver|]. intros x ->%elem_of_singleton. apply rtc_refl. }
  { set_solver. }
  { unfold chainFuel. pose proof (subseteq_size (dom m ∖ {[ csv_Name in_ ]}) (dom m)) as Hsz.
    rewrite size_dom in Hsz. specialize (Hsz ltac:(set_solver)). lia. }
  rewrite HU. cbn [mbind option_bind]. rewrite replaces_lookup.
  set (chain := if bool_decide _ then _ else _).
  assert (U ⊆ chain) as HUc by (unfold chain; case_bool_decide; set_solver).
  assert (forall x, x ∈ chain -> x ∈ U \/ x = csv_Replaces in_) as HcU by (unfold chain; case_bool_decide; set_solver).
  destruct (chainDown_ok (csv_Name in_) (csv_Replaces in_) (chainFuel m) (csv_Replaces <$> m !! csv_Replaces in_) chain)
    as (T & -> & [Hcl' Hs' _] & Hsub).
  { split.
    - intros x c [Hx| ->]%HcU Hne Hlk Hr; [left; apply HUc; by eapply Hcl|]. right. by rewrite Hlk.
    - intros x [Hx| ->]%HcU; [left; auto|right; apply rtc_refl].
    - intros p. destruct (m !! csv_Replaces in_) as [c|] eqn:E; [|done]. intros [= <-]. apply rtc_once. by exists c. }
  { left. unfold chainFuel. pose proof (subseteq_size (dom m ∖ chain) (dom m)) as Hsz.
    rewrite size_dom in Hsz. specialize (Hsz ltac:(set_solver)). lia. }
  exists T. split; [done|]. split; [set_solver| |intros x c ? ? ? ?; by destruct (Hcl' x c)|done].
  intros [c Hc]%elem_of_dom. apply Hsub. unfold chain. rewrite Hc. rewrite bool_decide_true by eauto. set_solver.
Qed.
End chain.

Section conflicts.
Context `{RangeOrder} (m : gmap string CSV) (in_ : CSV).

(** The set's own version of the CSV, if it has one, replaces the same CSV. *)
Definition consistent : Prop := forall c, m !! csv_Name in_ = Some c -> csv_Replaces c = csv_Replaces in_.

(** [x] is replaced by the CSV, directly or through other CSVs of the set. *)
Definition ancestor (x : string) : Prop := rtc (replacesLink m) (csv_Replaces in_) x.

Lemma ancestors_in_chain T x :
  consistent -> "" ∉ dom m -> chain_spec m in_ T -> ancestor x -> x ∈ dom m -> x ∈ T.
Proof.
  intros Hin Hne [Hself Hfirst Hcl _] Hanc. unfold ancestor in Hanc. revert x Hanc.
  apply (rtc_ind_r (fun x => x ∈ dom m -> x ∈ T) (csv_Replaces in_)); [done|].
  intros x y _ (c & Hc & <-) IH Hy. specialize (IH (elem_of_dom_2 _ _ _ Hc)).
  destruct (decide (x = csv_Name in_)) as [->|Hx].
  - rewrite (Hin c Hc) in *. auto.
  - apply (Hcl x c); [done..|]. intros E. rewrite E in Hy. done.
Qed.

Lemma crdOwnerConflicts_Some e :
  keyed m -> crdOwnerConflicts in_ m = Some e <-> e = ErrCRDOwnerConflict /\ exists T x csv crd,
    getReplacementChain in_ m = Some T /\ m !! x = Some csv /\ x ∉ T /\ crd ∈ spec_CRDs_Owned (csv_Spec in_) /\
    x <> csv_Name in_ /\ OwnsCRD csv (crd_Name crd) = true.
Proof.
  intros Hm. destruct (getReplacementChain_ok m Hm in_) as (T & ET & _).
  unfold crdOwnerConflicts. rewrite ET. cbn [default from_option id]. split.
  - destruct (existsb _ (range m)) eqn:E; [|done]. intros [= <-]. split; [done|].
    apply existsb_elem_of in E as ([x csv] & Hx%elem_of_range & Hb). apply andb_true_iff in Hb as [Hn Hb].
    apply existsb_elem_of in Hb as (crd & Hcrd & Hb). bools. by exists T, x, csv, crd.
  - intros (-> & ? & x & csv & crd & [= <-] & Hx & HT & Hcrd & Hne & Ho).
    match goal with |- context [existsb ?f (range m)] => assert (existsb f (range m) = true) as ->; [|done] end.
    apply existsb_elem_of. exists (x, csv). split; [by apply elem_of_range|].
    rewrite bool_decide_false by done. simpl. apply existsb_elem_of. exists crd. split; [done|].
    by rewrite bool_decide_false, Ho by done.
Qed.

(** A conflict over a CRD is reported exactly for the CSVs outside the chain: when none is
    reported, every other CSV of the namespace that owns one of the CSV's CRDs is connected to it
    by replacements; a reported conflict is with a CSV that owns one of its CRDs and that it does
    not replace, directly or through others.  The chain is found for every set of CSVs, cyclic
    ones included. *)
Theorem crdOwnerConflicts_correct :
  keyed m -> "" ∉ dom m -> consistent ->
  (crdOwnerConflicts in_ m = None -> forall x csv crd,
    m !! x = Some csv -> x <> csv_Name in_ -> crd ∈ spec_CRDs_Owned (csv_Spec in_) ->
    OwnsCRD csv (crd_Name crd) = true -> rtc (replacesLink m) x (csv_Name in_) \/ ancestor x) /\
  (forall e, crdOwnerConflicts in_ m = Some e -> e = ErrCRDOwnerConflict /\
    exists x csv crd, m !! x = Some csv /\ x <> csv_Name in_ /\ crd ∈ spec_CRDs_Owned (csv_Spec in_) /\
      OwnsCRD csv (crd_Name crd) = true /\ ~ ancestor x).
Proof.
  intros Hm Hne Hc. destruct (getReplacementChain_ok m Hm in_) as (T & ET & HT). split.
  - intros Hnone x csv crd Hx Hnx Hcrd Ho. destruct (decide (x ∈ T)) as [Hin|Hin]; [by apply HT|].
    assert (crdOwnerConflicts in_ m = Some ErrCRDOwnerConflict) as Hs; [|congruence].
    apply crdOwnerConflicts_Some; [done|]. split; [done|]. by exists T, x, csv, crd.
  - intros e (-> & T' & x & csv & crd & HT' & Hx & Hn & ? & ? & ?)%crdOwnerConflicts_Some; [|done].
    split; [done|]. exists x, csv, crd. split_and!; try done. intros Hanc.
    assert (T' = T) as -> by congruence. by apply Hn, (ancestors_in_chain T), (elem_of_dom_2 _ _ _ Hx).
Qed.
End conflicts.

Definition crd_CSV (name replaces : string) : CSV :=
  mkCSV (demo_csv name name) None
    (mkCSVSpec empty_strategy [mkCRDDesc "etcdclusters.etcd.io" "v1" "EtcdCluster"] [] [] [] [] [] "" [] replaces false)
    (demo_status "" "").
Definition two_versions : gmap string CSV := {[ "etcd.v1" := crd_CSV "etcd.v1" ""; "etcd.v2" := crd_CSV "etcd.v2" "etcd.v1" ]}.

Lemma crdOwnerConflicts_correct_witness :
  @crdOwnerConflicts canonical_order (crd_CSV "etcd.v2" "etcd.v1") two_versions = None /\
  (rtc (replacesLink two_versions) "etcd.v1" "etcd.v2" \/ ancestor two_versions (crd_CSV "etcd.v2" "etcd.v1") "etcd.v1").
Proof.
  split; [vm_compute; reflexivity|].
  refine (proj1 (@crdOwnerConflicts_correct canonical_order two_versions (crd_CSV "etcd.v2" "etcd.v1") _ _ _) _
    "etcd.v1" (crd_CSV "etcd.v1" "") (mkCRDDesc "etcdclusters.etcd.io" "v1" "EtcdCluster") _ _ _ _).
  - intros k c. unfold two_versions. rewrite lookup_insert_Some, lookup_singleton_Some.
    intros [[<- <-]|[_ [<- <-]]]; reflexivity.
  - unfold two_versions. rewrite dom_insert, dom_singleton. set_solver.
  - intros c. unfold two_versions. rewrite lookup_insert_ne by discriminate. rewrite lookup_singleton_Some.
    intros [_ <-]. reflexivity.
  - vm_compute. reflexivity.
  - vm_compute. reflexivity.
  - discriminate.
  - apply elem_of_cons. left. reflexivity.
  - reflexivity.
Defined.
