(* ===== verification/Requirements.v ===== *)
(** * Requirements and permissions of a CSV

    Models [controller/operators/olm/requirements.go] (what a CSV needs before it is
    installed), [isOperatorUpgradeable] of [operatorconditions.go], the availability and
    ownership checks of API services ([areAPIServicesAvailable] of [apiservices.go],
    [apiServiceOwnerConflicts] of [operator.go], [IsAPIServiceAvailable] and
    [IsAPIServiceAdoptable] of [controller/install/apiservice.go]) and
    [controller/operators/internal/alongside/alongside.go].

    What the code reads from the cluster is a record of functions, [Cluster]: one function per
    client or lister call, with the error it can return.  Within one sync the same call gives
    the same answer.  Hashes, JSON and the semver library are parameters. *)

From S2P Require Import Prelude GoStrings GoHash RbacRules OwnerUtil RbacAuthorizer CatalogModel ResolverCache CsvTypes OperatorGroups ReplaceChain.

#[local] Arguments String.append : simpl nomatch.

(** ** What is read from the cluster *)

(** [apiextensionsv1.CustomResourceDefinition]; versions are (name, served), conditions
    (type, status). *)
Record CRD := mkCRD {
  k_Name : string; k_UID : string; k_Annotations : option (gmap string string);
  k_Versions : list (string * bool); k_Conditions : list (string * string)
}.

(** [apiregistrationv1.APIService] *)
Record APIService := mkAPIService { a_obj : Object; a_Conditions : list (string * string) }.

(** [metav1.Condition] of an OperatorCondition. *)
Record OpCondition := mkOpCondition { oc_Type : string; oc_Status : string; oc_Message : string; oc_ObservedGeneration : Z }.
Record OperatorCondition := mkOperatorCondition {
  op_Generation : Z; op_Overrides : list OpCondition; op_Conditions : list OpCondition
}.

(** The semver library, JSON and the content hashes. *)
Class RequirementLib := {
  KubeVersion : Type;
  NewVersion : string -> option KubeVersion;
  CompareVersion : KubeVersion -> KubeVersion -> Z;
  KubeVersion_String : KubeVersion -> string;
  marshalRule : PolicyRule -> option string;
  PolicyRuleHashLabelValue : list PolicyRule -> error + string;
  RoleReferenceAndSubjectHashLabelValue : RoleRef -> list Subject -> error + string;
}.

Record Cluster := mkCluster {
  cl_ServerVersion : error + string;
  cl_GetCRD : string -> error + CRD;
  cl_GetCSV : string -> string -> error + CSV;
  cl_ServerResources : string -> error + list string;
  cl_GetAPIService : string -> error + APIService;
  cl_GetServiceAccount : string -> string -> error + Object;
  cl_GetOperatorCondition : string -> string -> error + OperatorCondition;
  cl_informersFiltered : bool;
  cl_ListRoles : string -> gmap string string -> error + list string;
  cl_ListBindings : string -> gmap string string -> error + list string;
  cl_RuleListers : option RoleSource;
}.

(** ** Installed-alongside annotations (alongside.go) *)

Definition AnnotationPrefix : string := "operatorframework.io/installed-alongside-".

Record NamespacedName := mkNN { nn_Namespace : string; nn_Name : string }.
#[export] Instance NamespacedName_eq_dec : EqDecision NamespacedName.
Proof. solve_decision. Defined.

Section alongside.
Context `{RangeOrder}.

Definition nnOfAnnotation (k v : string) : option NamespacedName :=
  if negb (HasPrefix k AnnotationPrefix) then None
  else match Split "/"%char v with [namespace; name] => Some (mkNN namespace name) | _ => None end.

Definition FromObject (annotations : option (gmap string string)) : list NamespacedName :=
  omap (fun '(k, v) => nnOfAnnotation k v) (range (default ∅ annotations)).
End alongside.

(** [key]: the hash is over the bytes of the namespace, a slash and the name. *)
Definition alongsideKey (n : NamespacedName) : string :=
  AnnotationPrefix +:+ hex (Sum64a (nn_Namespace n +:+ "/" +:+ nn_Name n)).

(** The new annotations of the object. *)
Definition ToObject (annotations : option (gmap string string)) (nns : list NamespacedName) : option (gmap string string) :=
  let kept := filter (fun kv => HasPrefix kv.1 AnnotationPrefix = false) (default ∅ annotations) in
  match nns with
  | [] => if bool_decide (kept = ∅) then None else Some kept
  | _ => Some (foldl (fun a nn => <[alongsideKey nn := nn_Namespace nn +:+ "/" +:+ nn_Name nn]> a) kept nns)
  end.

(** The ancestors loop of [othersInstalledAlongside]: a link is removed when it is followed,
    so the fuel is the number of links and one more iteration. *)
Fixpoint ancestorsLoop (fuel : nat) (current : string) (replacees : gmap string string) (ancestors : gset string)
    : option (gset string) :=
  match fuel with
  | O => None
  | S fuel' =>
      if bool_decide (current = "") then Some ancestors
      else
        match replacees !! current with
        | Some replacee => ancestorsLoop fuel' replacee (delete current replacees) (ancestors ∪ {[ replacee ]})
        | None => ancestorsLoop fuel' "" (delete current replacees) ancestors
        end
  end.

Section others.
Context `{RangeOrder}.

(** The CSVs of the target's namespace the object was installed alongside; [None] when the
    target is one of them. *)
Fixpoint csvsAlongside (cl : Cluster) (target : CSV) (nns : list NamespacedName) (csvsByName : gmap string CSV)
    : option (gmap string CSV) :=
  match nns with
  | [] => Some csvsByName
  | nn :: nns' =>
      if negb (bool_decide (nn_Namespace nn = csv_Namespace target)) then csvsAlongside cl target nns' csvsByName
      else if bool_decide (nn_Name nn = csv_Name target) then None
      else
        match cl_GetCSV cl (csv_Namespace target) (nn_Name nn) with
        | inl _ => csvsAlongside cl target nns' csvsByName
        | inr csv =>
            if IsCopied csv then csvsAlongside cl target nns' csvsByName
            else csvsAlongside cl target nns' (<[csv_Name csv := csv]> csvsByName)
        end
  end.

Definition replaceesOf (target : CSV) (csvsByName : gmap string CSV) : gmap string string :=
  let replacees := omap (fun csv =>
    if bool_decide (is_Some (csvsByName !! csv_Replaces csv)) then Some (csv_Replaces csv) else None) csvsByName in
  if bool_decide (csv_Replaces target <> "") then <[csv_Name target := csv_Replaces target]> replacees else replacees.

Definition othersInstalledAlongside (cl : Cluster) (annotations : option (gmap string string)) (target : CSV) : list string :=
  match csvsAlongside cl target (FromObject annotations) ∅ with
  | None => []
  | Some csvsByName =>
      let replacees := replaceesOf target csvsByName in
      let ancestors := default ∅ (ancestorsLoop (size replacees + 2) (csv_Name target) replacees ∅) in
      List.filter (fun each => bool_decide (each ∈ ancestors) && negb (bool_decide (each = csv_Name target)))
        (range csvsByName).*1
  end.
End others.

(** ** API services *)

Definition IsAPIServiceAvailable (a : APIService) : bool :=
  existsb (fun '(type, status) => bool_decide (type = "Available") && bool_decide (status = ConditionTrue)) (a_Conditions a).

(** [GroupVersion.String]: the version alone for the core group. *)
Definition gvString (group version : string) : string := GroupVersion_String (mkGVK group version "").

Definition isGVKRegistered (cl : Cluster) (group version kind : string) : error + bool :=
  match cl_ServerResources cl (gvString group version) with
  | inl err => inl err
  | inr kinds => inr (existsb (fun k => bool_decide (k = kind)) kinds)
  end.

Fixpoint apiServicesAvailableLoop (cl : Cluster) (ds : list APIServiceDescription) : error + bool :=
  match ds with
  | [] => inr true
  | desc :: ds' =>
      match cl_GetAPIService cl (APIServiceDescription_GetName desc) with
      | inl err => if IsNotFound (Some err) then inr false else inl err
      | inr apiService =>
          if negb (IsAPIServiceAvailable apiService) then inr false
          else
            match isGVKRegistered cl (as_Group desc) (as_Version desc) (as_Kind desc) with
            | inl err => inl err
            | inr false => inr false
            | inr true => apiServicesAvailableLoop cl ds'
            end
      end
  end.

Definition areAPIServicesAvailable (cl : Cluster) (csv : CSV) : error + bool :=
  apiServicesAvailableLoop cl (spec_APIServices_Owned (csv_Spec csv)).

(** The result of a lister [Get] that tolerates missing objects: [inl] for other errors. *)
Definition getIfPresent {A} (r : error + A) : error + option A :=
  match r with
  | inr x => inr (Some x)
  | inl err => if IsNotFound (Some err) || IsGone (Some err) then inr None else inl err
  end.

Definition IsAPIServiceAdoptable (cl : Cluster) (target : CSV) (a : APIService) : error + bool :=
  let ls := Labels (a_obj a) in
  let ownerKind := label ls OwnerKindKey in
  let ownerName := label ls OwnerKey in
  let ownerNamespace := label ls OwnerNamespaceKey in
  if bool_decide (ownerKind = "") || bool_decide (ownerNamespace = "") || bool_decide (ownerName = "") then inr false
  else if negb (bool_decide (ownerKind = Kind (ownerGVK (csv_obj target)))) then inr false
  else
    match getIfPresent (cl_GetCSV cl (csv_Namespace target) (csv_Replaces target)) with
    | inl err => inl err
    | inr replacing =>
        match getIfPresent (cl_GetCSV cl ownerNamespace ownerName) with
        | inl err => inl err
        | inr currentOwnerCSV =>
            let owners := [csv_obj target] in
            let owners := match replacing with Some c => owners ++ [csv_obj c] | None => owners end in
            let owners :=
              match currentOwnerCSV with
              | Some c =>
                  if bool_decide (csv_Phase c = CSVPhaseReplacing) || bool_decide (csv_Phase c = CSVPhaseDeleting)
                  then owners ++ [csv_obj c] else owners
              | None => owners
              end in
            inr (AdoptableLabels ls true owners)
        end
    end.

Fixpoint apiServiceConflictsLoop (cl : Cluster) (csv : CSV) (ds : list APIServiceDescription) : option error :=
  match ds with
  | [] => None
  | desc :: ds' =>
      match getIfPresent (cl_GetAPIService cl (APIServiceDescription_GetName desc)) with
      | inl err => Some err
      | inr None => apiServiceConflictsLoop cl csv ds'
      | inr (Some apiService) =>
          match IsAPIServiceAdoptable cl csv apiService with
          | inr true => apiServiceConflictsLoop cl csv ds'
          | _ => Some ErrAPIServiceOwnerConflict
          end
      end
  end.

Definition apiServiceOwnerConflicts (cl : Cluster) (csv : CSV) : option error :=
  apiServiceConflictsLoop cl csv (GetOwnedAPIServiceDescriptions csv).

(** ** Operator conditions *)

Definition Upgradeable : string := "Upgradeable".

(** [meta.FindStatusCondition] *)
Definition FindStatusCondition (conds : list OpCondition) (type : string) : option OpCondition :=
  List.find (fun c => bool_decide (oc_Type c = type)) conds.

(** [%q] of a string without characters to escape. *)
Definition quoted (s : string) : string :=
  String (Ascii.ascii_of_nat 34) s +:+ String (Ascii.ascii_of_nat 34) "".

(** [None]: upgradeable; [Some err]: not upgradeable, and why. *)
Definition isOperatorUpgradeable (cl : Cluster) (csv : CSV) : option error :=
  match cl_GetOperatorCondition cl (csv_Namespace csv) (csv_Name csv) with
  | inl err => if IsNotFound (Some err) then None else Some err
  | inr cond =>
      match FindStatusCondition (op_Overrides cond) Upgradeable with
      | Some o =>
          if bool_decide (oc_Status o = ConditionTrue) then None
          else Some (ErrString ("the operator is not upgradeable: " +:+ oc_Message o))
      | None =>
          match FindStatusCondition (op_Conditions cond) Upgradeable with
          | Some c =>
              if negb (oc_ObservedGeneration c =? op_Generation cond)%Z
              then Some (ErrString ("the operatorcondition status " +:+ quoted (oc_Type c) +:+ "=" +:+ quoted (oc_Status c) +:+ " is outdated"))
              else if bool_decide (oc_Status c = ConditionFalse)
              then Some (ErrString ("the operator is not upgradeable: " +:+ oc_Message c))
              else None
          | None => None
          end
      end
  end.

(** ** Requirements (requirements.go) *)

Section requirements.
Context `{RangeOrder, RequirementLib} (cl : Cluster).

(** A status entry without dependents. *)
Definition reqStatus (group version kind name status message uuid : string) : RequirementStatus :=
  mkReq group version kind name status message uuid [].

(** [strings.TrimPrefix(s, "v")] *)
Definition trimV (s : string) : string :=
  match s with String c s' => if bool_decide (c = "v"%char) then s' else s | EmptyString => s end.

(** The first element of [strings.Split(s, "-")]. *)
Definition beforeDash (s : string) : string := match Split "-"%char s with h :: _ => h | [] => "" end.

Definition minKubeVersionStatus (name minKubeVersion : string) : bool * list RequirementStatus :=
  if bool_decide (minKubeVersion = "") then (true, [])
  else
    let status s msg := [reqStatus "operators.coreos.com" "v1alpha1" "ClusterServiceVersion" name s msg ""] in
    let failed msg := (false, status RequirementStatusReasonPresentNotSatisfied msg) in
    match cl_ServerVersion cl with
    | inl _ => failed "Server version discovery error"
    | inr serverVersionInfo =>
        match NewVersion (beforeDash (trimV serverVersionInfo)) with
        | None => failed "Server version parsing error"
        | Some serverVersion =>
            match NewVersion (trimV minKubeVersion) with
            | None => failed "CSV version parsing error"
            | Some csvVersionInfo =>
                if (CompareVersion csvVersionInfo serverVersion >? 0)%Z
                then failed ("CSV version requirement not met: minKubeVersion (" +:+ minKubeVersion
                  +:+ ") > server version (" +:+ KubeVersion_String serverVersion +:+ ")")
                else (true, status RequirementStatusReasonPresent ("CSV minKubeVersion (" +:+ minKubeVersion
                  +:+ ") less than server version (" +:+ serverVersionInfo +:+ ")"))
            end
        end
    end.

(** The version loop: the first entry of that name decides. *)
Definition versionServed (versions : list (string * bool)) (version : string) : bool :=
  match List.find (fun v => bool_decide (v.1 = version)) versions with Some v => v.2 | None => false end.

Definition conditionTrue (conds : list (string * string)) (type : string) : bool :=
  existsb (fun c => bool_decide (c.1 = type) && bool_decide (c.2 = ConditionTrue)) conds.

(** One CRD description: whether it is met, and its status. *)
Definition crdStatus (csv : CSV) (r : CRDDescription) : bool * RequirementStatus :=
  let status := reqStatus "apiextensions.k8s.io" "v1" "CustomResourceDefinition" (crd_Name r) in
  match cl_GetCRD cl (crd_Name r) with
  | inl _ => (false, status RequirementStatusReasonNotPresent "CRD is not present" "")
  | inr crd =>
      let others := othersInstalledAlongside cl (k_Annotations crd) csv in
      if (0 <? length others)%nat && OwnsCRD csv (k_Name crd)
      then (false, status RequirementStatusReasonPresentNotSatisfied
              ("CRD installed alongside other CSV(s): " +:+ Join others ", ") "")
      else if negb (versionServed (k_Versions crd) (crd_Version r))
      then (false, status RequirementStatusReasonNotPresent "CRD version not served" "")
      else if conditionTrue (k_Conditions crd) "Established" && conditionTrue (k_Conditions crd) "NamesAccepted"
      then (true, status RequirementStatusReasonPresent "CRD is present and Established condition is true" (k_UID crd))
      else (false, status RequirementStatusReasonNotAvailable
              "CRD is present but the Established condition is False (not available)" "")
  end.

Definition requiredAPIStatus (r : APIServiceDescription) : bool * RequirementStatus :=
  let status s uuid := reqStatus "apiregistration.k8s.io" "v1" "APIService" (APIServiceDescription_GetName r) s "" uuid in
  match isGVKRegistered cl (as_Group r) (as_Version r) (as_Kind r) with
  | inr true =>
      match cl_GetAPIService cl (APIServiceDescription_GetName r) with
      | inl _ => (false, status "NotPresent" "")
      | inr apiService =>
          if negb (IsAPIServiceAvailable apiService) then (false, status "NotPresent" "")
          else (true, status "Present" (OUID (a_obj apiService)))
      end
  | _ => (false, status "NotPresent" "")
  end.

Definition ownedAPIStatus (strategy : StrategyDetailsDeployment) (r : APIServiceDescription) : bool * RequirementStatus :=
  let status s := reqStatus "apiregistration.k8s.io" "v1" "APIService" (APIServiceDescription_GetName r) s "" "" in
  if existsb (fun spec => bool_decide (ds_Name spec = as_DeploymentName r)) (sd_DeploymentSpecs strategy)
  then (true, status "DeploymentFound") else (false, status "DeploymentNotFound").

Definition nativeAPIStatus (r : GVK) : bool * RequirementStatus :=
  let '(group, version, kind) := (OwnerUtil.Group r, OwnerUtil.Version r, OwnerUtil.Kind r) in
  let status := reqStatus group version kind (version +:+ "." +:+ group) in
  match isGVKRegistered cl group version kind with
  | inr true => (true, status RequirementStatusReasonPresent "Native API exists" "")
  | _ => (false, status RequirementStatusReasonNotPresent "Native API does not exist" "")
  end.

(** Every check clears [met] when it fails and appends one status. *)
Definition requirementStatus (strategy : StrategyDetailsDeployment) (csv : CSV) : bool * list RequirementStatus :=
  let checks :=
    (crdStatus csv <$> GetAllCRDDescriptions csv)
    ++ (requiredAPIStatus <$> GetRequiredAPIServiceDescriptions csv)
    ++ (ownedAPIStatus strategy <$> GetOwnedAPIServiceDescriptions csv)
    ++ (nativeAPIStatus <$> spec_NativeAPIs (csv_Spec csv)) in
  (forallb fst checks, snd <$> checks).

(** ** Permissions *)

Definition ContentHashLabelKey : string := "olm.permissions.hash".

(** [permissionsPreviouslyCreated]; [namespace] selects the lister, the empty one the
    cluster-wide listers.  The error of the binding list is returned with the answer. *)
Definition permissionsPreviouslyCreated (permission : StrategyDeploymentPermissions) (csv : CSV) (namespace : string)
    : error + bool :=
  match PolicyRuleHashLabelValue (pm_Rules permission) with
  | inl err => inl (ErrString ("failed to hash permission rules: " +:+ Error_ err))
  | inr ruleHash =>
      let owner := OwnerLabel (csv_obj csv) ClusterServiceVersionKind in
      match cl_ListRoles cl namespace (<[ContentHashLabelKey := ruleHash]> owner) with
      | inl err => inl err
      | inr [] => inr false
      | inr (role :: _) =>
          match RoleReferenceAndSubjectHashLabelValue (mkRoleRef "Role" role)
                  [mkSubject "ServiceAccount" (pm_ServiceAccountName permission) (csv_Namespace csv)] with
          | inl err => inl (ErrString ("failed to hash binding content: " +:+ Error_ err))
          | inr bindingHash =>
              match cl_ListBindings cl namespace (<[ContentHashLabelKey := bindingHash]> owner) with
              | inl err => inl err
              | inr bindings => inr (0 <? length bindings)%nat
              end
          end
      end
  end.

Definition setReq (status : RequirementStatus) (s message : string) : RequirementStatus :=
  mkReq (req_Group status) (req_Version status) (req_Kind status) (req_Name status) s message (req_UUID status)
    (req_Dependents status).
Definition addDependent (status : RequirementStatus) (d : DependentStatus) : RequirementStatus :=
  mkReq (req_Group status) (req_Version status) (req_Kind status) (req_Name status) (req_Status status)
    (req_Message status) (req_UUID status) (req_Dependents status ++ [d]).

Definition ruleDependent (s message : string) : DependentStatus :=
  mkDependent "rbac.authorization.k8s.io" "v1" "PolicyRule" s message.

Definition ruleScope (namespace marshalled : string) : string :=
  (if bool_decide (namespace = NamespaceAll) then "cluster" else "namespaced") +:+ " rule:" +:+ marshalled.

Definition ruleError_error (e : ruleError) : error :=
  ErrString match e with
            | NoVerb => "policy rule must have at least one verb"
            | ResourceAndNonResource => "rule cannot apply to both regular resources and non-resource URLs"
            end.

(** One rule of one permission, with the authorizer. *)
Definition checkRule (csv : CSV) (ruleChecker : RoleSource) (sa : Object) (namespace : string) (acc : bool * RequirementStatus) (rule : PolicyRule)
    : error + bool * RequirementStatus :=
  let '(met, status) := acc in
  match marshalRule rule with
  | None => inr (met, addDependent status (ruleDependent DependentStatusReasonNotSatisfied "rule unmarshallable"))
  | Some marshalled =>
      match RuleSatisfied (csv_obj csv) ruleChecker (mkSA (OName sa) (ONamespace sa)) namespace rule with
      | inl err => inl (ruleError_error err)
      | inr false =>
          inr (false, addDependent
            (setReq status RequirementStatusReasonPresentNotSatisfied "Policy rule not satisfied for service account")
            (ruleDependent DependentStatusReasonNotSatisfied (ruleScope namespace marshalled)))
      | inr true =>
          inr (met, addDependent status (ruleDependent DependentStatusReasonSatisfied (ruleScope namespace marshalled)))
      end
  end.

(** Whether the permission is one OLM created itself; only asked when the informers are
    filtered. *)
Definition previouslyCreated (perm : StrategyDeploymentPermissions) (csv : CSV) (namespace : string) : error + bool :=
  if cl_informersFiltered cl then permissionsPreviouslyCreated perm csv namespace else inr false.

Definition errNoRuleChecker : error := ErrString "could not create a rule checker (are we shutting down?)".

(** One permission; the accumulator is [met] and [statusesSet].  A permission that OLM created
    itself is met, and its status is dropped.  The rule checker is [None] when [a.getRuleChecker()(csv)] is nil. *)
Definition checkPermission (csv : CSV) (namespace : string) (acc : bool * gmap string RequirementStatus)
    (perm : StrategyDeploymentPermissions) : error + bool * gmap string RequirementStatus :=
  let '(met, statusesSet) := acc in
  let saName := pm_ServiceAccountName perm in
  let status :=
    match statusesSet !! saName with
    | Some stored => stored
    | None => reqStatus "" "v1" "ServiceAccount" saName RequirementStatusReasonPresent "" ""
    end in
  match cl_GetServiceAccount cl (csv_Namespace csv) saName with
  | inl _ =>
      inr (false, <[saName := setReq status RequirementStatusReasonNotPresent "Service account does not exist"]> statusesSet)
  | inr sa =>
      if IsOwnedByKind sa ClusterServiceVersionKind && negb (IsOwnedBy sa (csv_obj csv))
      then inr (false, <[saName := setReq status RequirementStatusReasonPresentNotSatisfied
             "Service account is owned by another ClusterServiceVersion"]> statusesSet)
      else
        match previouslyCreated perm csv namespace with
        | inl err => inl err
        | inr true => inr (met, statusesSet)
        | inr false =>
            match cl_RuleListers cl with
            | None => inl errNoRuleChecker
            | Some ruleChecker =>
                match foldE (checkRule csv ruleChecker sa namespace) (met, status) (pm_Rules perm) with
                | inl err => inl err
                | inr (met, status) => inr (met, <[saName := status]> statusesSet)
                end
            end
        end
  end.

Definition checkPermissions (csv : CSV) (namespace : string) (statusesSet : gmap string RequirementStatus)
    (permissions : list StrategyDeploymentPermissions) : error + bool * gmap string RequirementStatus :=
  foldE (checkPermission csv namespace) (true, statusesSet) permissions.

Definition permissionStatus (strategy : StrategyDetailsDeployment) (targetNamespace : string) (csv : CSV)
    : error + bool * list RequirementStatus :=
  match checkPermissions csv targetNamespace ∅ (sd_Permissions strategy) with
  | inl err => inl err
  | inr (permMet, statusesSet) =>
      match checkPermissions csv NamespaceAll statusesSet (sd_ClusterPermissions strategy) with
      | inl err => inl err
      | inr (clusterPermMet, statusesSet) => inr (permMet && clusterPermMet, (range statusesSet).*2)
      end
  end.

Definition requirementAndPermissionStatus (csv : CSV) : error + bool * list RequirementStatus :=
  match UnmarshalStrategy (spec_InstallStrategy (csv_Spec csv)) with
  | inl err => inl err
  | inr strategy =>
      let '(minKubeMet, minKubeStatus) := minKubeVersionStatus (csv_Name csv) (spec_MinKubeVersion (csv_Spec csv)) in
      let '(reqMet, reqStatuses) := requirementStatus strategy csv in
      match permissionStatus strategy (csv_Namespace csv) csv with
      | inl err => inl err
      | inr (permMet, permStatuses) =>
          inr (minKubeMet && reqMet && permMet, minKubeStatus ++ reqStatuses ++ permStatuses)
      end
  end.
End requirements.

(** ** The ancestors loop *)

Section ancestors.
Context (rep : gmap string string) (target : string).

(** The links, and what the loop has collected when it stands at [current] with [left] links
    not followed yet. *)
Definition repLink (x y : string) : Prop := rep !! x = Some y.

Record anc_inv (current : string) (left_ : gmap string string) (A : gset string) : Prop := {
  ai_sub : left_ ⊆ rep;
  ai_visited : forall x y, rep !! x = Some y -> left_ !! x = None -> y ∈ A;
  ai_front : forall x, x ∈ A \/ x = target -> x = current \/ left_ !! x = None;
  ai_sound : forall x, x ∈ A -> tc repLink target x;
  ai_current : current = "" \/ current = target \/ tc repLink target current;
}.

Lemma ancestorsLoop_ok fuel current left_ A :
  rep !! "" = None -> anc_inv current left_ A -> (size left_ + 1 < fuel)%nat \/ (current = "" /\ 0 < fuel)%nat ->
  exists A', ancestorsLoop fuel current left_ A = Some A' /\ (forall x, x ∈ A' <-> tc repLink target x).
Proof.
  intros Hempty. revert current left_ A. induction fuel as [|fuel IH]; intros current left_ A Hinv Hf; [lia|].
  destruct Hinv as [Hsub Hvis Hfront Hsound Hcur]. simpl. case_bool_decide as Hc.
  - exists A. split; [done|]. intros x. split; [auto|]. intros Ht.
    assert (forall x y, x ∈ A \/ x = target -> repLink x y -> y ∈ A) as Hcl.
    { intros a b Ha Hb. apply (Hvis a b Hb). destruct (Hfront a Ha) as [->|]; [|done].
      rewrite Hc in Hb. unfold repLink in Hb. congruence. }
    assert (forall a b, tc repLink a b -> a ∈ A \/ a = target -> b ∈ A) as Htc by (induction 1; eauto).
    eauto.
  - destruct Hf as [Hf|[? _]]; [|done]. destruct (left_ !! current) as [r|] eqn:Er.
    + assert (rep !! current = Some r) as Hr by (by eapply lookup_weaken).
      assert (tc repLink target r) as Htr.
      { destruct Hcur as [?|[->|?]]; [done|by apply tc_once|by eapply tc_r]. }
      apply IH.
      * split.
        -- etrans; [apply delete_subseteq|done].
        -- intros x y Hx [<-|Hn]%lookup_delete_None; [|apply elem_of_union_l; eauto].
           replace y with r by congruence. set_solver.
        -- intros x Hx. destruct (decide (x = r)) as [->|Hne]; [by left|]. right.
           destruct (Hfront x) as [->|?]; [set_solver|apply lookup_delete_eq|]. apply lookup_delete_None. by right.
        -- intros x [?| ->%elem_of_singleton]%elem_of_union; auto.
        -- auto.
      * left. assert (size (delete current left_) = pred (size left_)) as Hsz by (apply map_size_delete_Some; eauto).
        assert (size left_ <> 0)%nat by (intros H0%map_size_empty_inv; by rewrite H0 in Er). lia.
    + apply IH.
      * split.
        -- etrans; [apply delete_subseteq|done].
        -- intros x y Hx Hn. apply (Hvis x y Hx). apply lookup_delete_None in Hn as [<-|?]; done.
        -- intros x Hx. right. apply lookup_delete_None. destruct (Hfront x Hx) as [->|?]; [by left|by right].
        -- done.
        -- by left.
      * right. split; [done|lia].
Qed.

Lemma ancestorsLoop_correct :
  rep !! "" = None ->
  exists A, ancestorsLoop (size rep + 2) target rep ∅ = Some A /\ (forall x, x ∈ A <-> tc repLink target x).
Proof.
  intros Hempty. apply ancestorsLoop_ok; [done| |left; lia]. split; [done| | | |by right; left].
  - intros x y Hx Hn. congruence.
  - intros x [?%elem_of_empty| ->]; [done|by left].
  - set_solver.
Qed.
End ancestors.

Lemma csvsAlongside_keyed cl target nns acc m :
  keyed acc -> csvsAlongside cl target nns acc = Some m -> keyed m.
Proof.
  revert acc. induction nns as [|nn nns IH]; intros acc Hacc; simpl; [by intros [= <-]|].
  repeat case_one; eauto; try done. intros Hr. eapply IH; [|exact Hr].
  intros k c'. rewrite lookup_insert_Some. intros [[<- <-]|[_ ?]]; [done|by apply Hacc].
Qed.

(** The CSVs reported for a CRD are installed alongside it and transitively replaced by the
    target; none is reported when the target itself was installed alongside it. *)
Lemma othersInstalledAlongside_sound `{RangeOrder} cl a target x :
  csv_Name target <> "" -> x ∈ othersInstalledAlongside cl a target ->
  exists m, csvsAlongside cl target (FromObject a) ∅ = Some m /\ is_Some (m !! x) /\
    (m !! "" = None -> tc (repLink (replaceesOf target m)) (csv_Name target) x) /\ x <> csv_Name target.
Proof.
  intros Hne. unfold othersInstalledAlongside. destruct (csvsAlongside cl target (FromObject a) ∅) as [m|] eqn:E;
    [|by intros ?%elem_of_nil].
  rewrite list_elem_of_In, filter_In, <- list_elem_of_In. intros [Hin Hb]. bools.
  exists m. split; [done|]. apply list_elem_of_fmap in Hin as ([k c] & -> & Hk%elem_of_range). simpl in *.
  split_and!; [eauto| |done]. intros Hm.
  destruct (ancestorsLoop_correct (replaceesOf target m) (csv_Name target)) as (A & HA & Hspec).
  { unfold replaceesOf. case_bool_decide; [rewrite lookup_insert_ne by done|]; rewrite lookup_omap, Hm; done. }
  rewrite HA in *. apply Hspec. done.
Qed.

(** ** Annotations round trip *)

Definition plain_nn (n : NamespacedName) : Prop :=
  HasByte "/"%char (nn_Namespace n) = false /\ HasByte "/"%char (nn_Name n) = false.

Lemma nnOfAnnotation_key n : plain_nn n ->
  nnOfAnnotation (alongsideKey n) (nn_Namespace n +:+ "/" +:+ nn_Name n) = Some n.
Proof.
  intros [H1 H2]. unfold nnOfAnnotation, alongsideKey. rewrite HasPrefix_app. simpl.
  change (nn_Namespace n +:+ String "/"%char (nn_Name n)) with (nn_Namespace n +:+ String "/"%char (nn_Name n)).
  rewrite Split_app by done. rewrite Split_noSep by done. by destruct n.
Qed.

(** The installed-alongside annotations of an object read back as the names they were
    written for, whatever alongside annotations the object carried before, provided the hashes
    of the names differ; other annotations are kept. *)
Theorem alongside_roundtrip `{RangeOrder} (a : option (gmap string string)) (nns : list NamespacedName) :
  Forall plain_nn nns -> (forall n n', n ∈ nns -> n' ∈ nns -> alongsideKey n = alongsideKey n' -> n = n') ->
  (forall n, n ∈ FromObject (ToObject a nns) <-> n ∈ nns) /\
  (forall k, HasPrefix k AnnotationPrefix = false -> annotation (ToObject a nns) k = annotation a k).
Proof.
  intros Hplain Hinj. set (kept := filter (fun kv => HasPrefix kv.1 AnnotationPrefix = false) (default ∅ a)).
  set (m := foldl (fun a nn => <[alongsideKey nn := nn_Namespace nn +:+ "/" +:+ nn_Name nn]> a) kept nns).
  assert (default ∅ (ToObject a nns) = m) as Hm.
  { unfold ToObject. fold kept. destruct nns; [|done]. case_bool_decide as E; [by rewrite <- E|done]. }
  assert (forall k v, m !! k = Some v <-> (exists n, n ∈ nns /\ k = alongsideKey n /\ v = nn_Namespace n +:+ "/" +:+ nn_Name n) \/
    (kept !! k = Some v /\ forall n, n ∈ nns -> k <> alongsideKey n)) as Hlk.
  { unfold m. clear Hm m Hplain. induction nns as [|n nns IH] using rev_ind; intros k v.
    - simpl. split; [intros Hk; right; split; [done|by intros ? ?%elem_of_nil]|].
      intros [(? & ?%elem_of_nil & _)|[? _]]; done.
    - rewrite foldl_app. simpl. setoid_rewrite elem_of_app. setoid_rewrite list_elem_of_singleton.
      rewrite lookup_insert_Some, IH by (intros ????; apply Hinj; apply elem_of_app; by left). clear IH. split.
      + intros [[<- <-]|[Hne [(n' & ? & -> & ->)|[? Hn]]]]; [left; eauto|left; eauto|right].
        split; [done|]. intros n' [?| ->]; [by apply Hn|done].
      + intros [(n' & [Hin| ->] & -> & ->)|[? Hn]]; [|by left|].
        * destruct (decide (n' = n)) as [->|Hne]; [by left|]. right. split; [|left; eauto].
          intros E. apply Hne. symmetry. apply Hinj; [apply elem_of_app; right; set_solver|apply elem_of_app; by left|done].
        * right. split; [intros E; by apply (Hn n); [right|]|]. right. split; [done|]. intros n' Hn'. apply Hn. by left. }
  rewrite Forall_forall in Hplain. split.
  - intros n. unfold FromObject. rewrite Hm, list_elem_of_omap. split.
    + intros ([k v] & Hk%elem_of_range & Hn). apply Hlk in Hk as [(n' & Hin & -> & ->)|[Hk _]].
      * rewrite nnOfAnnotation_key in Hn by auto. by injection Hn as <-.
      * apply map_lookup_filter_Some in Hk as [_ Hp]. simpl in Hp. unfold nnOfAnnotation in Hn. by rewrite Hp in Hn.
    + intros Hin. exists (alongsideKey n, nn_Namespace n +:+ "/" +:+ nn_Name n).
      split; [apply elem_of_range, Hlk; left; eauto|]. by apply nnOfAnnotation_key, Hplain.
  - intros k Hk. unfold annotation. rewrite Hm. apply option_eq. intros v. rewrite Hlk. unfold kept.
    rewrite map_lookup_filter_Some. simpl. split.
    + intros [(n & _ & -> & _)|[[? _] _]]; [|done]. unfold alongsideKey in Hk. by rewrite HasPrefix_app in Hk.
    + intros Hv. right. split; [done|]. intros n _ ->. unfold alongsideKey in Hk. by rewrite HasPrefix_app in Hk.
Qed.

Lemma alongside_roundtrip_witness :
  mkNN "ns" "etcd.v1" ∈ @FromObject canonical_order (ToObject None [mkNN "ns" "etcd.v1"]) <->
  mkNN "ns" "etcd.v1" ∈ [mkNN "ns" "etcd.v1"].
Proof.
  refine (proj1 (@alongside_roundtrip canonical_order None [mkNN "ns" "etcd.v1"] _ _) (mkNN "ns" "etcd.v1")).
  - repeat constructor.
  - intros n n' ->%list_elem_of_singleton ->%list_elem_of_singleton _. reflexivity.
Defined.

(** ** When the requirements are met *)

(** What the statuses say: the entries that report a requirement as satisfied. *)
Definition satisfied_status (s : RequirementStatus) : Prop :=
  req_Status s = RequirementStatusReasonPresent \/ req_Status s = "DeploymentFound".

Section met.
Context `{RangeOrder, RequirementLib} (cl : Cluster) (csv : CSV).

Definition minKube_ok : Prop :=
  spec_MinKubeVersion (csv_Spec csv) = "" \/
  exists server sv cv, cl_ServerVersion cl = inr server /\ NewVersion (beforeDash (trimV server)) = Some sv /\
    NewVersion (trimV (spec_MinKubeVersion (csv_Spec csv))) = Some cv /\ (CompareVersion cv sv <= 0)%Z.

Definition crd_ok (r : CRDDescription) : Prop :=
  exists crd, cl_GetCRD cl (crd_Name r) = inr crd /\
    (OwnsCRD csv (k_Name crd) = true -> othersInstalledAlongside cl (k_Annotations crd) csv = []) /\
    versionServed (k_Versions crd) (crd_Version r) = true /\
    conditionTrue (k_Conditions crd) "Established" = true /\ conditionTrue (k_Conditions crd) "NamesAccepted" = true.

Definition gvk_registered (group version kind : string) : Prop := isGVKRegistered cl group version kind = inr true.

Definition required_api_ok (r : APIServiceDescription) : Prop :=
  gvk_registered (as_Group r) (as_Version r) (as_Kind r) /\
  exists a, cl_GetAPIService cl (APIServiceDescription_GetName r) = inr a /\ IsAPIServiceAvailable a = true.

Definition owned_api_ok (strategy : StrategyDetailsDeployment) (r : APIServiceDescription) : Prop :=
  exists spec, spec ∈ sd_DeploymentSpecs strategy /\ ds_Name spec = as_DeploymentName r.

(** The service account exists, belongs to no other CSV, and holds every rule, by OLM's own
    roles or by the authorizer's answer. *)
Definition rule_ok (sa : Object) (namespace : string) (rule : PolicyRule) : Prop :=
  marshalRule rule = None \/
  exists listers, cl_RuleListers cl = Some listers /\
    RuleSatisfied (csv_obj csv) listers (mkSA (OName sa) (ONamespace sa)) namespace rule = inr true.

Definition permission_ok (namespace : string) (perm : StrategyDeploymentPermissions) : Prop :=
  exists sa, cl_GetServiceAccount cl (csv_Namespace csv) (pm_ServiceAccountName perm) = inr sa /\
    (IsOwnedByKind sa ClusterServiceVersionKind = true -> IsOwnedBy sa (csv_obj csv) = true) /\
    (previouslyCreated cl perm csv namespace = inr true \/
     (forall rule, rule ∈ pm_Rules perm -> rule_ok sa namespace rule)).

Record requirements_ok (strategy : StrategyDetailsDeployment) : Prop := {
  ro_kube : minKube_ok;
  ro_crds : forall r, r ∈ GetAllCRDDescriptions csv -> crd_ok r;
  ro_required : forall r, r ∈ GetRequiredAPIServiceDescriptions csv -> required_api_ok r;
  ro_owned : forall r, r ∈ GetOwnedAPIServiceDescriptions csv -> owned_api_ok strategy r;
  ro_native : forall r, r ∈ spec_NativeAPIs (csv_Spec csv) -> gvk_registered (OwnerUtil.Group r) (OwnerUtil.Version r) (OwnerUtil.Kind r);
  ro_permissions : forall p, p ∈ sd_Permissions strategy -> permission_ok (csv_Namespace csv) p;
  ro_cluster : forall p, p ∈ sd_ClusterPermissions strategy -> permission_ok NamespaceAll p;
}.

(** A check: its decision is the property it stands for, and its status agrees with it. *)
Definition check_ok (P : Prop) (c : bool * RequirementStatus) : Prop :=
  (c.1 = true <-> P) /\ (c.1 = true <-> satisfied_status c.2).

Lemma check_fail (P : Prop) st :
  ~ P -> req_Status st <> RequirementStatusReasonPresent /\ req_Status st <> "DeploymentFound" -> check_ok P (false, st).
Proof.
  unfold check_ok, satisfied_status. simpl. intros HP [Hn1 Hn2].
  split; (split; [done|]); intros Hx; [done|by destruct Hx].
Qed.

Lemma check_pass (P : Prop) st : P -> satisfied_status st -> check_ok P (true, st).
Proof. unfold check_ok. simpl. tauto. Qed.

Lemma crdStatus_ok r : check_ok (crd_ok r) (crdStatus cl csv r).
Proof.
  unfold crdStatus, crd_ok. destruct (cl_GetCRD cl (crd_Name r)) as [e|crd] eqn:Ec.
  { apply check_fail; [by intros (? & ? & _)|done]. }
  set (os := othersInstalledAlongside cl (k_Annotations crd) csv).
  destruct ((0 <? length os)%nat && OwnsCRD csv (k_Name crd)) eqn:Eo.
  { apply andb_true_iff in Eo as [Hl Ho]. apply check_fail; [|done]. intros (? & [= <-] & Hos & _).
    specialize (Hos Ho). fold os in Hos. rewrite Hos in Hl. done. }
  destruct (versionServed (k_Versions crd) (crd_Version r)) eqn:Ev; simpl.
  2:{ apply check_fail; [|done]. intros (? & [= <-] & _ & ? & _). congruence. }
  destruct (conditionTrue (k_Conditions crd) "Established" && conditionTrue (k_Conditions crd) "NamesAccepted") eqn:E1.
  - apply andb_true_iff in E1 as [? ?]. apply check_pass; [|by left]. exists crd. split_and!; try done.
    intros Ho. rewrite Ho, andb_true_r in Eo. fold os. by destruct os.
  - apply check_fail; [|done]. intros (? & [= <-] & _ & _ & Ha & Hb). rewrite Ha, Hb in E1. done.
Qed.

Lemma requiredAPIStatus_ok r : check_ok (required_api_ok r) (requiredAPIStatus cl r).
Proof.
  unfold requiredAPIStatus, required_api_ok, gvk_registered.
  destruct (isGVKRegistered cl _ _ _) as [e|[]]; try (apply check_fail; [by intros [? _]|done]).
  destruct (cl_GetAPIService cl _) as [e|a]; [apply check_fail; [by intros [_ (? & ? & _)]|done]|].
  destruct (IsAPIServiceAvailable a) eqn:E; [apply check_pass; [eauto|by left]|].
  apply check_fail; [|done]. intros [_ (? & [= <-] & ?)]. congruence.
Qed.

Lemma ownedAPIStatus_ok strategy r : check_ok (owned_api_ok strategy r) (ownedAPIStatus strategy r).
Proof.
  unfold ownedAPIStatus, owned_api_ok. destruct (existsb _ _) eqn:E.
  - apply existsb_elem_of in E as (spec & ? & ?). bools. apply check_pass; [eauto|by right].
  - rewrite existsb_not_elem_of in E. apply check_fail; [|done]. intros (spec & Hin & Hn).
    specialize (E spec Hin). rewrite bool_decide_true in E; done.
Qed.

Lemma nativeAPIStatus_ok r :
  check_ok (gvk_registered (OwnerUtil.Group r) (OwnerUtil.Version r) (OwnerUtil.Kind r)) (nativeAPIStatus cl r).
Proof.
  unfold nativeAPIStatus, gvk_registered.
  destruct (isGVKRegistered cl _ _ _) as [e|[]]; [by apply check_fail|apply check_pass; [done|by left]|by apply check_fail].
Qed.

(** A list of checks decides all of its properties, and reports them. *)
Lemma checks_ok {A} (f : A -> bool * RequirementStatus) (P : A -> Prop) (l : list A) :
  (forall x, check_ok (P x) (f x)) ->
  (forallb fst (f <$> l) = true <-> forall x, x ∈ l -> P x) /\
  (forallb fst (f <$> l) = true <-> Forall satisfied_status (snd <$> (f <$> l))).
Proof.
  intros Hf. rewrite Forall_fmap, Forall_fmap, Forall_forall. rewrite forallb_elem_of.
  setoid_rewrite list_elem_of_fmap. split; split.
  - intros Ha x Hx. apply (proj1 (Hf x)), Ha. eauto.
  - intros Ha ? (x & -> & Hx). by apply (proj1 (Hf x)), Ha.
  - intros Ha x Hx. simpl. apply (proj2 (Hf x)), Ha. eauto.
  - intros Ha ? (x & -> & Hx). by apply (proj2 (Hf x)), Ha.
Qed.

Lemma requirementStatus_ok strategy :
  let r := requirementStatus cl strategy csv in
  (r.1 = true <-> (forall r, r ∈ GetAllCRDDescriptions csv -> crd_ok r) /\
    (forall r, r ∈ GetRequiredAPIServiceDescriptions csv -> required_api_ok r) /\
    (forall r, r ∈ GetOwnedAPIServiceDescriptions csv -> owned_api_ok strategy r) /\
    (forall r, r ∈ spec_NativeAPIs (csv_Spec csv) ->
      gvk_registered (OwnerUtil.Group r) (OwnerUtil.Version r) (OwnerUtil.Kind r))) /\
  (r.1 = true <-> Forall satisfied_status r.2).
Proof.
  simpl. rewrite !fmap_app, !Forall_app, !forallb_app, !andb_true_iff.
  destruct (checks_ok _ _ (GetAllCRDDescriptions csv) crdStatus_ok) as [-> <-].
  destruct (checks_ok _ _ (GetRequiredAPIServiceDescriptions csv) requiredAPIStatus_ok) as [-> <-].
  destruct (checks_ok _ _ (GetOwnedAPIServiceDescriptions csv) (ownedAPIStatus_ok strategy)) as [-> <-].
  destruct (checks_ok _ _ (spec_NativeAPIs (csv_Spec csv)) nativeAPIStatus_ok) as [-> <-]. done.
Qed.

Lemma minKubeVersionStatus_ok :
  let r := minKubeVersionStatus cl (csv_Name csv) (spec_MinKubeVersion (csv_Spec csv)) in
  (r.1 = true <-> minKube_ok) /\ (r.1 = true <-> Forall satisfied_status r.2).
Proof.
  unfold minKubeVersionStatus. case_bool_decide as He.
  { simpl. split; (split; [intros _|done]); [by left|constructor]. }
  assert (forall P s msg, ~ P -> s <> RequirementStatusReasonPresent /\ s <> "DeploymentFound" ->
    let r := (false, [reqStatus "operators.coreos.com" "v1alpha1" "ClusterServiceVersion" (csv_Name csv) s msg ""]) in
    (r.1 = true <-> P) /\ (r.1 = true <-> Forall satisfied_status r.2)) as Hfail.
  { intros P s msg HP Hs r. simpl. rewrite Forall_singleton. by apply check_fail. }
  destruct (cl_ServerVersion cl) as [e|sv] eqn:E0.
  { apply Hfail; [|done]. intros [?|(? & ? & ? & ? & _)]; congruence. }
  destruct (NewVersion (beforeDash (trimV sv))) as [v|] eqn:E1.
  2:{ apply Hfail; [|done]. intros [?|(? & ? & ? & [= <-]%(eq_trans (eq_sym E0)) & ? & _)]; congruence. }
  destruct (NewVersion (trimV _)) as [v'|] eqn:E2.
  2:{ apply Hfail; [|done]. intros [?|(? & ? & ? & _ & _ & ? & _)]; congruence. }
  destruct (Z.gtb_spec (CompareVersion v' v) 0).
  - apply Hfail; [|done]. intros [?|(? & sv' & cv & [= <-]%(eq_trans (eq_sym E0)) & Hsv & Hcv & Hle)]; [congruence|].
    assert (sv' = v) as -> by congruence. assert (cv = v') as -> by congruence. lia.
  - simpl. rewrite Forall_singleton. apply check_pass; [|by left]. right. by exists sv, v, v'.
Qed.
(** *** Permissions *)

Definition all_good (set : gmap string RequirementStatus) : Prop := map_Forall (fun _ s => satisfied_status s) set.

Lemma rule_ok_iff listers sa ns rule : cl_RuleListers cl = Some listers ->
  rule_ok sa ns rule <-> marshalRule rule = None \/ RuleSatisfied (csv_obj csv) listers (mkSA (OName sa) (ONamespace sa)) ns rule = inr true.
Proof. intros Hl. unfold rule_ok. rewrite Hl. naive_solver. Qed.

Lemma checkRules_ok listers sa ns acc rules acc' :
  cl_RuleListers cl = Some listers -> foldE (checkRule csv listers sa ns) acc rules = inr acc' ->
  let ok := forall rule, rule ∈ rules -> rule_ok sa ns rule in
  (acc'.1 = true <-> acc.1 = true /\ ok) /\ (satisfied_status acc'.2 <-> satisfied_status acc.2 /\ ok).
Proof.
  intros Hl Hf ok. refine (foldE_inv _ (fun rules (acc' : bool * RequirementStatus) =>
    let ok := forall rule, rule ∈ rules -> rule_ok sa ns rule in
    (acc'.1 = true <-> acc.1 = true /\ ok) /\ (satisfied_status acc'.2 <-> satisfied_status acc.2 /\ ok)) _ _ _ _ _ Hf).
  - simpl. assert (forall rule, rule ∈ [] -> rule_ok sa ns rule) by (by intros ? ?%elem_of_nil). tauto.
  - clear acc' Hf ok. intros dn rule [m s] acc' [IH1 IH2] Hstep. simpl in IH1, IH2.
    assert (forall P : PolicyRule -> Prop, (forall r, r ∈ dn ++ [rule] -> P r) <-> (forall r, r ∈ dn -> P r) /\ P rule) as Hsplit.
    { intros P. setoid_rewrite elem_of_app. setoid_rewrite list_elem_of_singleton. split; [split; auto|].
      intros [Hd Hr] r [?| ->]; auto. }
    cbv zeta. rewrite !Hsplit, (rule_ok_iff listers _ _ _ Hl). simpl in Hstep.
    destruct (marshalRule rule) as [marshalled|]; [|injection Hstep as <-; unfold satisfied_status in *; simpl; tauto].
    destruct (RuleSatisfied _ _ _ _ rule) as [e|[]]; [done|..]; injection Hstep as <-; unfold satisfied_status in *; simpl.
    + tauto.
    + split; (split; [by intros [?|?] || done|]); intros [_ [_ [?|?]]]; done.
Qed.

Lemma checkPermission_ok ns acc perm acc' :
  checkPermission cl csv ns acc perm = inr acc' ->
  (acc'.1 = true <-> acc.1 = true /\ permission_ok ns perm) /\
  (all_good acc'.2 <-> all_good acc.2 /\ permission_ok ns perm).
Proof.
  destruct acc as [met set]. unfold checkPermission.
  set (saName := pm_ServiceAccountName perm). set (status := match set !! saName with Some _ => _ | None => _ end).
  assert (forall st, all_good (<[saName := st]> set) <-> satisfied_status st /\ all_good (delete saName set)) as Hins.
  { intros st. rewrite <- insert_delete_eq. apply map_Forall_insert. apply lookup_delete_eq. }
  assert (all_good set <-> satisfied_status status /\ all_good (delete saName set)) as Hset.
  { unfold status. destruct (set !! saName) as [st|] eqn:E.
    - rewrite <- Hins, insert_id; done.
    - rewrite delete_id by done. assert (satisfied_status (reqStatus "" "v1" "ServiceAccount" saName RequirementStatusReasonPresent "" ""))
        by (by left). tauto. }
  assert (forall st, ~ satisfied_status st -> ~ permission_ok ns perm ->
    (false = true <-> met = true /\ permission_ok ns perm) /\
    (all_good (<[saName := st]> set) <-> all_good set /\ permission_ok ns perm)) as Hfail.
  { intros st Hst Hp. rewrite Hins. split; split; try done; tauto. }
  destruct (cl_GetServiceAccount cl (csv_Namespace csv) saName) as [e|sa] eqn:Esa.
  { intros [= <-]. apply Hfail; [by intros [?|?]|]. intros (sa & Hsa & _). fold saName in Hsa. congruence. }
  destruct (IsOwnedByKind sa _ && negb (IsOwnedBy sa _)) eqn:Eown.
  { apply andb_true_iff in Eown as [Hk Ho%negb_true_iff]. intros [= <-]. apply Hfail; [by intros [?|?]|].
    intros (? & Hsa & Himp & _). fold saName in Hsa. rewrite Esa in Hsa. injection Hsa as <-. rewrite Himp in Ho; done. }
  assert (forall Q : Prop, (Q <-> (previouslyCreated cl perm csv ns = inr true \/ forall rule, rule ∈ pm_Rules perm -> rule_ok sa ns rule)) ->
    (permission_ok ns perm <-> Q)) as Hperm.
  { intros Q ->. unfold permission_ok. fold saName. rewrite Esa. split.
    - intros (? & [= <-] & _ & ?). done.
    - intros ?. exists sa. split_and!; try done. intros Hk. rewrite Hk in Eown. by apply negb_false_iff in Eown. }
  destruct (previouslyCreated cl perm csv ns) as [e|[]]; [done|..].
  { intros [= <-]. rewrite (Hperm True) by (split; [by left|done]). simpl. tauto. }
  destruct (cl_RuleListers cl) as [listers|] eqn:Er; [|done].
  destruct (foldE _ _ _) as [e|[met' st']] eqn:Ef; [done|]. intros [= <-].
  apply (checkRules_ok listers) in Ef as [Hmet Hst]; [|done]. simpl in *.
  rewrite (Hperm (forall rule, rule ∈ pm_Rules perm -> rule_ok sa ns rule)); [|split; [by right|by intros [?|?]]].
  rewrite Hins, Hset, Hst. tauto.
Qed.

Lemma checkPermissions_ok ns set perms acc' :
  checkPermissions cl csv ns set perms = inr acc' ->
  (acc'.1 = true <-> forall p, p ∈ perms -> permission_ok ns p) /\
  (all_good acc'.2 <-> all_good set /\ forall p, p ∈ perms -> permission_ok ns p).
Proof.
  intros Hf. unfold checkPermissions in Hf.
  refine (foldE_inv _ (fun perms (acc' : bool * gmap string RequirementStatus) =>
    (acc'.1 = true <-> forall p, p ∈ perms -> permission_ok ns p) /\
    (all_good acc'.2 <-> all_good set /\ forall p, p ∈ perms -> permission_ok ns p)) _ _ _ _ _ Hf).
  - simpl. assert (forall p, p ∈ [] -> permission_ok ns p) by (by intros ? ?%elem_of_nil). tauto.
  - clear acc' Hf. intros dn perm acc acc' [IH1 IH2] [-> ->]%checkPermission_ok. rewrite IH1, IH2.
    assert ((forall p, p ∈ dn ++ [perm] -> permission_ok ns p) <-> (forall p, p ∈ dn -> permission_ok ns p) /\ permission_ok ns perm)
      as ->; [|tauto].
    setoid_rewrite elem_of_app. setoid_rewrite list_elem_of_singleton. split; [split; auto|].
    intros [Hd Hr] r [?| ->]; auto.
Qed.

Lemma permissionStatus_ok strategy ns r :
  permissionStatus cl strategy ns csv = inr r ->
  (r.1 = true <-> (forall p, p ∈ sd_Permissions strategy -> permission_ok ns p) /\
    (forall p, p ∈ sd_ClusterPermissions strategy -> permission_ok NamespaceAll p)) /\
  (r.1 = true <-> Forall satisfied_status r.2).
Proof.
  unfold permissionStatus. destruct (checkPermissions cl csv ns ∅ _) as [e|[m1 s1]] eqn:E1; [done|].
  destruct (checkPermissions cl csv NamespaceAll s1 _) as [e|[m2 s2]] eqn:E2; [done|]. intros [= <-].
  apply checkPermissions_ok in E1 as [H1 G1], E2 as [H2 G2]. cbn [fst snd] in *.
  assert (all_good ∅) as Hempty by apply map_Forall_empty.
  assert (Forall satisfied_status (range s2).*2 <-> all_good s2) as ->.
  { rewrite Forall_forall. unfold all_good. split.
    - intros Ha k s Hs. apply Ha, elem_of_range_vals. eauto.
    - intros Ha s [k Hk]%elem_of_range_vals. by eapply Ha. }
  rewrite andb_true_iff. tauto.
Qed.
End met.

(** C40: the check of a CSV's requirements is exact, and its report agrees with it: it says "met"
    exactly when the cluster is recent enough, every CRD is served and established, every
    required and owned API is there, every native API is registered, and every service account
    exists, is the CSV's own and holds the rules it is given; and it says so exactly when every
    status it reports is a satisfied one. *)
Theorem requirements_correct `{RangeOrder, RequirementLib} (cl : Cluster) (csv : CSV)
    (strategy : StrategyDetailsDeployment) (met : bool) (statuses : list RequirementStatus) :
  UnmarshalStrategy (spec_InstallStrategy (csv_Spec csv)) = inr strategy ->
  requirementAndPermissionStatus cl csv = inr (met, statuses) ->
  (met = true <-> requirements_ok cl csv strategy) /\ (met = true <-> Forall satisfied_status statuses).
Proof.
  intros Hs Hr. unfold requirementAndPermissionStatus in Hr. rewrite Hs in Hr.
  pose proof (minKubeVersionStatus_ok cl csv) as Hk.
  destruct (minKubeVersionStatus cl _ _) as [kmet kst]. pose proof (requirementStatus_ok cl csv strategy) as Hq.
  destruct (requirementStatus cl strategy csv) as [qmet qst].
  destruct (permissionStatus cl strategy (csv_Namespace csv) csv) as [e|[pmet pst]] eqn:Ep; [done|].
  apply permissionStatus_ok in Ep. injection Hr as <- <-. cbn [fst snd] in *.
  rewrite !Forall_app, !andb_true_iff. destruct Hk as [Hk1 Hk2], Hq as [Hq1 Hq2], Ep as [Hp1 Hp2].
  split; [|tauto]. split.
  - intros [[?%Hk1 (? & ? & ? & ?)%Hq1] [? ?]%Hp1]. by split.
  - intros []. split; [split; [by apply Hk1|by apply Hq1]|by apply Hp1].
Qed.

Definition demo_req_lib : RequirementLib := {|
  KubeVersion := nat; NewVersion s := Some (String.length s); CompareVersion a b := (Z.of_nat a - Z.of_nat b)%Z;
  KubeVersion_String := fun _ => ""; marshalRule := fun _ => Some "{}";
  PolicyRuleHashLabelValue := fun _ => inr "hash"; RoleReferenceAndSubjectHashLabelValue := fun _ _ => inr "hash" |}.

Definition notFound : error := ErrAPI ReasonNotFound "not found".

(** A cluster with one service account, whose roles are [demo_roles], and nothing else. *)
Definition demo_cluster : Cluster := {|
  cl_ServerVersion := inr "v1.29.0"; cl_GetCRD := fun _ => inl notFound; cl_GetCSV := fun _ _ => inl notFound;
  cl_ServerResources := fun _ => inl notFound; cl_GetAPIService := fun _ => inl notFound;
  cl_GetServiceAccount := fun ns n =>
    if bool_decide (n = "sa") then inr (mkObj TServiceAccount (mkGVK "" "" "") "sa" ns "u" [] None) else inl notFound;
  cl_GetOperatorCondition := fun _ _ => inl notFound;
  cl_informersFiltered := false; cl_ListRoles := fun _ _ => inr []; cl_ListBindings := fun _ _ => inr [];
  cl_RuleListers := Some demo_roles |}.

Definition sa_strategy : StrategyDetailsDeployment :=
  mkStrategy [] [mkPermissions "sa" [mkRule ["get"] ["apps"] ["deployments"] [] None]] [].
Definition sa_CSV : CSV :=
  mkCSV (demo_csv "etcd" "1") None
    (mkCSVSpec (mkNamedStrategy "deployment" sa_strategy) [] [] [] [] [] [] "v1.2.0" [] "" false) (demo_status "" "").

Lemma requirements_correct_witness :
  exists met statuses,
    @requirementAndPermissionStatus canonical_order demo_req_lib demo_cluster sa_CSV = inr (met, statuses) /\
    (met = true <-> @requirements_ok canonical_order demo_req_lib demo_cluster sa_CSV sa_strategy).
Proof.
  eexists. eexists. split; [vm_compute; reflexivity|].
  refine (proj1 (@requirements_correct canonical_order demo_req_lib demo_cluster sa_CSV sa_strategy _ _ _ _)).
  - reflexivity.
  - vm_compute. reflexivity.
Defined.
