(* ===== verification/OperatorRbac.v ===== *)
(** * The roles of an operator

    Models [resolver/rbac.go] and [lib/kubernetes/pkg/util/hash/hash.go]: the service accounts, roles and
    bindings that are generated for the permissions of a CSV, with their names and content hashes.
    JSON and SHA-224 are parameters ([RbacLib]); numbers in base 62 are computed. *)

From S2P Require Import Prelude GoStrings RbacRules OwnerUtil RbacAuthorizer GoHash CsvTypes Requirements.
From Stdlib Require Import ZArith.

#[local] Arguments String.append : simpl nomatch.

(** ** Base 62 *)

Definition base62Digit (d : Z) : ascii :=
  ascii_of_nat (Z.to_nat (if (d <? 10)%Z then 48 + d else if (d <? 36)%Z then 87 + d else 29 + d)).
Fixpoint base62From (fuel : nat) (n : Z) (acc : string) : string :=
  match fuel with
  | O => acc
  | S fuel' =>
      let acc := String (base62Digit (n mod 62)) acc in
      if (n / 62 =? 0)%Z then acc else base62From fuel' (n / 62)%Z acc
  end.

(** [i.Text(62)] of a number of 224 bits, which has at most 38 digits. *)
Definition toBase62 (n : Z) : string := base62From 38 n "".

(** ** Names and hashes *)

Class RbacLib := {
  encodePermission : string -> option string -> StrategyDeploymentPermissions -> error + string;
  marshalRules : list PolicyRule -> error + string;
  marshalBinding : RoleRef -> list Subject -> error + string;
  sha224 : string -> Z;
  sha224_bound : forall s, (0 <= sha224 s < 2 ^ 224)%Z;
}.

Definition maxNameLength : nat := 63.

Section rbac.
Context `{RbacLib}.

Definition DeepHashObject (encoded : error + string) : error + string :=
  match encoded with
  | inl err => inl (ErrString ("couldn't encode object: " +:+ Error_ err))
  | inr raw => inr (toBase62 (sha224 raw))
  end.

(** [base[:maxNameLength-len(hash)-1]] *)
Definition generateName (base : string) (encoded : error + string) : error + string :=
  match DeepHashObject encoded with
  | inl err => inl err
  | inr hash =>
      let base := if (maxNameLength <? String.length base + String.length hash)%nat
                  then String.substring 0 (maxNameLength - String.length hash - 1) base else base in
      inr (base +:+ "-" +:+ hash)
  end.

(** [PolicyRuleHashLabelValue] and [RoleReferenceAndSubjectHashLabelValue] *)
Definition policyRuleHash (rules : list PolicyRule) : error + string :=
  match marshalRules rules with inl err => inl err | inr raw => inr (toBase62 (sha224 raw)) end.
Definition bindingHash (roleRef : RoleRef) (subjects : list Subject) : error + string :=
  match marshalBinding roleRef subjects with inl err => inl err | inr raw => inr (toBase62 (sha224 raw)) end.

(** ** Permissions *)

Record RbacRole := mkRbacRole { ro_obj : Object; ro_Rules : list PolicyRule }.
Record RbacBinding := mkRbacBinding { rb_obj : Object; rb_RoleRef : RoleRef; rb_Subjects : list Subject }.
Record OperatorPermissions := mkPerms {
  op_ServiceAccount : Object; op_Roles : list RbacRole; op_RoleBindings : list RbacBinding;
  op_ClusterRoles : list RbacRole; op_ClusterRoleBindings : list RbacBinding
}.

Definition NewOperatorPermissions (serviceAccount : Object) : OperatorPermissions := mkPerms serviceAccount [] [] [] [].
Definition AddRole (role : RbacRole) (o : OperatorPermissions) : OperatorPermissions :=
  mkPerms (op_ServiceAccount o) (op_Roles o ++ [role]) (op_RoleBindings o) (op_ClusterRoles o) (op_ClusterRoleBindings o).
Definition AddRoleBinding (b : RbacBinding) (o : OperatorPermissions) : OperatorPermissions :=
  mkPerms (op_ServiceAccount o) (op_Roles o) (op_RoleBindings o ++ [b]) (op_ClusterRoles o) (op_ClusterRoleBindings o).
Definition AddClusterRole (role : RbacRole) (o : OperatorPermissions) : OperatorPermissions :=
  mkPerms (op_ServiceAccount o) (op_Roles o) (op_RoleBindings o) (op_ClusterRoles o ++ [role]) (op_ClusterRoleBindings o).
Definition AddClusterRoleBinding (b : RbacBinding) (o : OperatorPermissions) : OperatorPermissions :=
  mkPerms (op_ServiceAccount o) (op_Roles o) (op_RoleBindings o) (op_ClusterRoles o) (op_ClusterRoleBindings o ++ [b]).

Definition noGVK : GVK := mkGVK "" "" "".
Definition hashLabels (csv : CSV) (hash : string) : option (gmap string string) :=
  Some (<[ContentHashLabelKey := hash]> (OwnerLabel (csv_obj csv) ClusterServiceVersionKind)).
Definition saSubject (csv : CSV) (permission : StrategyDeploymentPermissions) : list Subject :=
  [mkSubject "ServiceAccount" (pm_ServiceAccountName permission) (csv_Namespace csv)].

(** The role and the binding for a permission in the namespace of the CSV. *)
Definition roleFor (csv : CSV) (permission : StrategyDeploymentPermissions) : error + RbacRole * RbacBinding :=
  name ← generateName (csv_Name csv +:+ "-" +:+ pm_ServiceAccountName permission) (encodePermission (csv_Name csv) None permission);
  match policyRuleHash (pm_Rules permission) with
  | inl err => inl (ErrString ("failed to hash permission rules: " +:+ Error_ err))
  | inr hash =>
      let role := mkRbacRole (mkObj TRole noGVK name (csv_Namespace csv) "" [NonBlockingOwner (csv_obj csv)] (hashLabels csv hash)) (pm_Rules permission) in
      let roleRef := mkRoleRef "Role" (OName (ro_obj role)) in
      match bindingHash roleRef (saSubject csv permission) with
      | inl err => inl (ErrString ("failed to hash binding content: " +:+ Error_ err))
      | inr hash =>
          inr (role, mkRbacBinding (mkObj TRoleBinding noGVK (OName (ro_obj role)) (csv_Namespace csv) "" [NonBlockingOwner (csv_obj csv)] (hashLabels csv hash))
                       roleRef (saSubject csv permission))
      end
  end.

(** The cluster role and the binding for a permission everywhere. *)
Definition clusterRoleFor (csv : CSV) (permission : StrategyDeploymentPermissions) : error + RbacRole * RbacBinding :=
  name ← generateName (csv_Name csv) (encodePermission (csv_Name csv) (Some (csv_Namespace csv)) permission);
  match policyRuleHash (pm_Rules permission) with
  | inl err => inl (ErrString ("failed to hash permission rules: " +:+ Error_ err))
  | inr hash =>
      let role := mkRbacRole (mkObj TClusterRole noGVK name "" "" [] (hashLabels csv hash)) (pm_Rules permission) in
      let roleRef := mkRoleRef "ClusterRole" (OName (ro_obj role)) in
      match bindingHash roleRef (saSubject csv permission) with
      | inl err => inl (ErrString ("failed to hash binding content: " +:+ Error_ err))
      | inr hash =>
          inr (role, mkRbacBinding (mkObj TClusterRoleBinding noGVK (OName (ro_obj role)) (csv_Namespace csv) "" [] (hashLabels csv hash))
                       roleRef (saSubject csv permission))
      end
  end.

Abbreviation Permissions := (gmap string OperatorPermissions).

(** An account that is not there yet is made. *)
Definition ensureAccount (account : Object) (name : string) (permissions : Permissions) : Permissions :=
  match permissions !! name with Some _ => permissions | None => <[name := NewOperatorPermissions account]> permissions end.

(** The two loops; accounts of cluster permissions are made without a namespace. *)
Definition addPermission (csv : CSV) (permissions : Permissions) (permission : StrategyDeploymentPermissions) : error + Permissions :=
  let name := pm_ServiceAccountName permission in
  let account := AddNonBlockingOwner (mkObj TServiceAccount noGVK name (csv_Namespace csv) "" [] None) (csv_obj csv) in
  '(role, binding) ← roleFor csv permission;
  mret (alter (fun o => AddRoleBinding binding (AddRole role o)) name (ensureAccount account name permissions)).
Definition addClusterPermission (csv : CSV) (permissions : Permissions) (permission : StrategyDeploymentPermissions) : error + Permissions :=
  let name := pm_ServiceAccountName permission in
  let owned := AddOwner (mkObj TServiceAccount noGVK "" "" "" [] None) (csv_obj csv) false false in
  let account := mkObj TServiceAccount (OGVK owned) name (ONamespace owned) (OUID owned) (OwnerRefs owned) (Labels owned) in
  '(role, binding) ← clusterRoleFor csv permission;
  mret (alter (fun o => AddClusterRoleBinding binding (AddClusterRole role o)) name (ensureAccount account name permissions)).

Definition RBACForClusterServiceVersion (csv : CSV) : error + Permissions :=
  match UnmarshalStrategy (spec_InstallStrategy (csv_Spec csv)) with
  | inl err => inl err
  | inr strategy =>
      permissions ← foldE (addPermission csv) ∅ (sd_Permissions strategy);
      foldE (addClusterPermission csv) permissions (sd_ClusterPermissions strategy)
  end.

(** ** Names *)

Lemma base62From_length fuel n acc : (String.length (base62From fuel n acc) <= fuel + String.length acc)%nat.
Proof.
  revert n acc. induction fuel as [|fuel IH]; intros n acc; simpl; [lia|].
  case_one; simpl; [lia|]. etrans; [apply IH|]. simpl. lia.
Qed.

Lemma toBase62_length n : (String.length (toBase62 n) <= 38)%nat.
Proof. unfold toBase62. etrans; [apply base62From_length|]. apply Nat.leb_le. reflexivity. Qed.

Lemma substring_0_length n s : String.length (String.substring 0 n s) = Nat.min n (String.length s).
Proof. revert s. induction n as [|n IH]; intros [|c s]; simpl; auto. Qed.

(** A generated name is at most 64 characters long.  It exceeds the limit of 63 for a base
    that just fits without the dash. *)
Lemma generateName_length base encoded name :
  generateName base encoded = inr name ->
  exists hash, DeepHashObject encoded = inr hash /\ (String.length name <= S maxNameLength)%nat /\
    (String.length name = S maxNameLength <-> (String.length base + String.length hash = maxNameLength)%nat).
Proof.
  unfold generateName. destruct (DeepHashObject encoded) as [err|hash] eqn:E; [done|]. intros [= <-]. exists hash. split; [done|].
  assert (String.length hash <= 38)%nat as Hh.
  { unfold DeepHashObject in E. destruct encoded; [done|]. injection E as <-. apply toBase62_length. }
  rewrite !str_length_app. cbn [String.length]. unfold maxNameLength in *.
  destruct (Nat.ltb_spec 63 (String.length base + String.length hash)); [rewrite substring_0_length|]; lia.
Qed.

(** ** What is generated *)

Definition forAccount (name : string) (ps : list StrategyDeploymentPermissions) : list StrategyDeploymentPermissions :=
  List.filter (fun p => bool_decide (pm_ServiceAccountName p = name)) ps.

(** The roles and bindings are those of the permissions, in order. *)
Definition madeFor (f : StrategyDeploymentPermissions -> error + RbacRole * RbacBinding) (ps : list StrategyDeploymentPermissions)
    (roles : list RbacRole) (bindings : list RbacBinding) : Prop :=
  exists l, Forall2 (fun p x => f p = inr x) ps l /\ roles = l.*1 /\ bindings = l.*2.

Lemma madeFor_nil f : madeFor f [] [] [].
Proof. by exists []. Qed.
Lemma madeFor_app f ps p roles bindings x :
  madeFor f ps roles bindings -> f p = inr x -> madeFor f (ps ++ [p]) (roles ++ [x.1]) (bindings ++ [x.2]).
Proof.
  intros (l & Hl & -> & ->) Hx. exists (l ++ [x]). rewrite !fmap_app. split_and!; [|done..]. apply Forall2_app; [done|by repeat constructor].
Qed.

Lemma forAccount_app name ps p :
  forAccount name (ps ++ [p]) = forAccount name ps ++ (if bool_decide (pm_ServiceAccountName p = name) then [p] else []).
Proof. unfold forAccount. rewrite List.filter_app. simpl. by case_bool_decide. Qed.

(** What the two loops have made of the permissions so far. *)
Definition generated (csv : CSV) (ps cps : list StrategyDeploymentPermissions) (perms : Permissions) : Prop :=
  forall name, match perms !! name with
  | None => forAccount name ps = [] /\ forAccount name cps = []
  | Some o => OName (op_ServiceAccount o) = name /\ (forAccount name ps <> [] \/ forAccount name cps <> []) /\
      madeFor (roleFor csv) (forAccount name ps) (op_Roles o) (op_RoleBindings o) /\
      madeFor (clusterRoleFor csv) (forAccount name cps) (op_ClusterRoles o) (op_ClusterRoleBindings o)
  end.

Lemma app_singleton_ne {A} (l : list A) x : l ++ [x] <> [].
Proof. by destruct l. Qed.

Lemma addPermission_generated csv ps perms p perms' :
  generated csv ps [] perms -> addPermission csv perms p = inr perms' -> generated csv (ps ++ [p]) [] perms'.
Proof.
  intros Hg. unfold addPermission. cbv zeta. set (account := AddNonBlockingOwner _ _).
  destruct (roleFor csv p) as [err|[role binding]] eqn:E; [done|]. intros [= <-] name. rewrite forAccount_app. specialize (Hg name).
  unfold ensureAccount. case_bool_decide as Hn.
  - rewrite Hn, lookup_alter_eq. destruct (perms !! name) as [o|] eqn:Eo.
    + rewrite Eo. destruct Hg as (H1 & H2 & H3 & H4). cbn. split_and!; [done|left; apply app_singleton_ne| |done].
      by apply (madeFor_app _ _ _ _ _ (role, binding)).
    + rewrite lookup_insert_eq. destruct Hg as [-> _]. cbn. split_and!; [|by left| |apply madeFor_nil].
      * done.
      * exists [(role, binding)]. split_and!; [by repeat constructor|done..].
  - rewrite lookup_alter_ne, app_nil_r by done. destruct (perms !! pm_ServiceAccountName p); [done|]. by rewrite lookup_insert_ne.
Qed.

Lemma addClusterPermission_generated csv ps cps perms p perms' :
  generated csv ps cps perms -> addClusterPermission csv perms p = inr perms' -> generated csv ps (cps ++ [p]) perms'.
Proof.
  intros Hg. unfold addClusterPermission. cbv zeta.
  destruct (clusterRoleFor csv p) as [err|[role binding]] eqn:E; [done|]. intros [= <-] name. rewrite forAccount_app. specialize (Hg name).
  unfold ensureAccount. case_bool_decide as Hn.
  - rewrite Hn, lookup_alter_eq. destruct (perms !! name) as [o|] eqn:Eo.
    + rewrite Eo. destruct Hg as (H1 & H2 & H3 & H4). cbn. split_and!; [done|right; apply app_singleton_ne|done|].
      by apply (madeFor_app _ _ _ _ _ (role, binding)).
    + rewrite lookup_insert_eq. destruct Hg as [-> ->]. cbn. split_and!; [done|by right|apply madeFor_nil|].
      exists [(role, binding)]. split_and!; [by repeat constructor|done..].
  - rewrite lookup_alter_ne, app_nil_r by done. destruct (perms !! pm_ServiceAccountName p); [done|]. by rewrite lookup_insert_ne.
Qed.

(** The generated objects are exactly those of the permissions: an account for every account that
    is named, with one role and one binding per permission, in the order of the permissions. *)
Lemma RBAC_generated csv strategy perms :
  UnmarshalStrategy (spec_InstallStrategy (csv_Spec csv)) = inr strategy -> RBACForClusterServiceVersion csv = inr perms ->
  generated csv (sd_Permissions strategy) (sd_ClusterPermissions strategy) perms.
Proof.
  unfold RBACForClusterServiceVersion. intros ->. intros (perms1 & H1 & H2)%bind_inr.
  apply (foldE_inv _ (fun ps => generated csv ps [])) in H1; [|done|intros; by eapply addPermission_generated].
  by apply (foldE_inv _ (generated csv (sd_Permissions strategy))) in H2; [|done|intros; by eapply addClusterPermission_generated].
Qed.

(** A role and its binding are among those of the account, and nothing else is. *)
Lemma madeFor_elem f ps roles bindings p : madeFor f ps roles bindings -> p ∈ ps -> exists r b, f p = inr (r, b) /\ r ∈ roles /\ b ∈ bindings.
Proof.
  intros (l & Hl & -> & ->) [i Hi]%list_elem_of_lookup. destruct (Forall2_lookup_l _ _ _ _ _ Hl Hi) as ([r b] & Hx & Hf).
  exists r, b. split; [done|]. split; apply list_elem_of_fmap; exists (r, b); (split; [done|by apply list_elem_of_lookup_2 in Hx]).
Qed.
Lemma madeFor_role f ps roles bindings r : madeFor f ps roles bindings -> r ∈ roles -> exists p b, p ∈ ps /\ f p = inr (r, b).
Proof.
  intros (l & Hl & -> & ->) ([r' b] & -> & [i Hi]%list_elem_of_lookup)%list_elem_of_fmap.
  destruct (Forall2_lookup_r _ _ _ _ _ Hl Hi) as (p & Hp & Hf). exists p, b. split; [by apply list_elem_of_lookup_2 in Hp|done].
Qed.

Lemma forAccount_elem name ps p : p ∈ forAccount name ps <-> p ∈ ps /\ pm_ServiceAccountName p = name.
Proof. unfold forAccount. rewrite !list_elem_of_In, filter_In. by rewrite bool_decide_eq_true. Qed.

(** ** The generated roles suffice

    The roles and bindings of all accounts, as the rule checker of the OLM operator finds them in the
    cluster. *)

Definition toRole (r : RbacRole) : Role := mkRole (ONamespace (ro_obj r)) (OName (ro_obj r)) (OwnerRefs (ro_obj r)) (ro_Rules r).
Definition toBinding (b : RbacBinding) : Binding :=
  mkBinding (ONamespace (rb_obj b)) (OName (rb_obj b)) (OwnerRefs (rb_obj b)) (rb_Subjects b) (rb_RoleRef b).
Definition allOf {A} (f : OperatorPermissions -> list A) (perms : Permissions) : list A := (map_to_list perms).*2 ≫= f.
Definition generatedRoles (perms : Permissions) : StaticRoles :=
  mkStatic (toRole <$> allOf op_Roles perms) (toBinding <$> allOf op_RoleBindings perms)
    (toRole <$> allOf op_ClusterRoles perms) (toBinding <$> allOf op_ClusterRoleBindings perms).

Lemma elem_of_allOf {A} (f : OperatorPermissions -> list A) perms x : x ∈ allOf f perms <-> exists name o, perms !! name = Some o /\ x ∈ f o.
Proof.
  unfold allOf. rewrite list_elem_of_bind. split.
  - intros (o & Hx & ([name o'] & -> & Hin%elem_of_map_to_list)%list_elem_of_fmap). by exists name, o'.
  - intros (name & o & Hin & Hx). exists o. split; [done|]. apply list_elem_of_fmap. exists (name, o). split; [done|by apply elem_of_map_to_list].
Qed.

Section generated.
Context (csv : CSV) (ps cps : list StrategyDeploymentPermissions) (perms : Permissions) (Hgen : generated csv ps cps perms).

Lemma generated_role p : p ∈ ps -> exists r b, roleFor csv p = inr (r, b) /\ r ∈ allOf op_Roles perms /\ b ∈ allOf op_RoleBindings perms.
Proof using Hgen.
  intros Hp. assert (p ∈ forAccount (pm_ServiceAccountName p) ps) as Hin by (by apply forAccount_elem).
  specialize (Hgen (pm_ServiceAccountName p)). destruct (perms !! pm_ServiceAccountName p) as [o|] eqn:Eo.
  - destruct Hgen as (_ & _ & Hm & _). destruct (madeFor_elem _ _ _ _ _ Hm Hin) as (r & b & Hf & Hr & Hb).
    exists r, b. split_and!; [done| |]; apply elem_of_allOf; eauto.
  - destruct Hgen as [Hn _]. rewrite Hn in Hin. by apply elem_of_nil in Hin.
Qed.
Lemma generated_cluster_role p :
  p ∈ cps -> exists r b, clusterRoleFor csv p = inr (r, b) /\ r ∈ allOf op_ClusterRoles perms /\ b ∈ allOf op_ClusterRoleBindings perms.
Proof using Hgen.
  intros Hp. assert (p ∈ forAccount (pm_ServiceAccountName p) cps) as Hin by (by apply forAccount_elem).
  specialize (Hgen (pm_ServiceAccountName p)). destruct (perms !! pm_ServiceAccountName p) as [o|] eqn:Eo.
  - destruct Hgen as (_ & _ & _ & Hm). destruct (madeFor_elem _ _ _ _ _ Hm Hin) as (r & b & Hf & Hr & Hb).
    exists r, b. split_and!; [done| |]; apply elem_of_allOf; eauto.
  - destruct Hgen as [_ Hn]. rewrite Hn in Hin. by apply elem_of_nil in Hin.
Qed.
Lemma role_generated r : r ∈ allOf op_Roles perms -> exists p b, p ∈ ps /\ roleFor csv p = inr (r, b).
Proof using Hgen.
  intros (name & o & Ho & Hr)%elem_of_allOf. specialize (Hgen name). rewrite Ho in Hgen. destruct Hgen as (_ & _ & Hm & _).
  destruct (madeFor_role _ _ _ _ _ Hm Hr) as (p & b & [Hp _]%forAccount_elem & Hf). by exists p, b.
Qed.
Lemma cluster_role_generated r : r ∈ allOf op_ClusterRoles perms -> exists p b, p ∈ cps /\ clusterRoleFor csv p = inr (r, b).
Proof using Hgen.
  intros (name & o & Ho & Hr)%elem_of_allOf. specialize (Hgen name). rewrite Ho in Hgen. destruct Hgen as (_ & _ & _ & Hm).
  destruct (madeFor_role _ _ _ _ _ Hm Hr) as (p & b & [Hp _]%forAccount_elem & Hf). by exists p, b.
Qed.
End generated.

(** What a role and its binding are. *)
Lemma roleFor_inr csv p r b :
  roleFor csv p = inr (r, b) ->
  ONamespace (ro_obj r) = csv_Namespace csv /\ ro_Rules r = pm_Rules p /\ OwnerRefs (ro_obj r) = [NonBlockingOwner (csv_obj csv)] /\
  OwnerRefs (rb_obj b) = [NonBlockingOwner (csv_obj csv)] /\ ONamespace (rb_obj b) = csv_Namespace csv /\
  rb_RoleRef b = mkRoleRef "Role" (OName (ro_obj r)) /\ rb_Subjects b = saSubject csv p.
Proof.
  unfold roleFor. intros (name & _ & Hx)%bind_inr. destruct (policyRuleHash _); [done|]. cbv zeta in Hx.
  destruct (bindingHash _ _); [done|]. injection Hx as <- <-. done.
Qed.
Lemma clusterRoleFor_inr csv p r b :
  clusterRoleFor csv p = inr (r, b) ->
  ro_Rules r = pm_Rules p /\ OwnerRefs (ro_obj r) = [] /\ OwnerRefs (rb_obj b) = [] /\
  rb_RoleRef b = mkRoleRef "ClusterRole" (OName (ro_obj r)) /\ rb_Subjects b = saSubject csv p.
Proof.
  unfold clusterRoleFor. intros (name & _ & Hx)%bind_inr. destruct (policyRuleHash _); [done|]. cbv zeta in Hx.
  destruct (bindingHash _ _); [done|]. injection Hx as <- <-. done.
Qed.

(** A rule as the API server admits it: for resources of named groups, or for URLs. *)
Definition grantable (rule : PolicyRule) : Prop :=
  Verbs rule <> [] /\
  ((NonResourceURLs rule = [] /\ APIGroups rule <> [] /\ Resources rule <> []) \/
   (APIGroups rule = [] /\ Resources rule = [] /\ ResourceNames rule = [] /\ NonResourceURLs rule <> [] /\ "" ∉ NonResourceURLs rule)).

Lemma grantable_valid rule : grantable rule -> ruleValid rule = None.
Proof.
  intros [Hv Hk]. unfold ruleValid. destruct (Verbs rule); [done|]. destruct (APIGroups rule), (Resources rule), (ResourceNames rule), (NonResourceURLs rule);
    simpl; naive_solver.
Qed.

Lemma orEmpty_ne l x : l <> [] -> x ∈ orEmpty l -> x ∈ l.
Proof. by destruct l. Qed.
Lemma orEmpty_nil x : x ∈ orEmpty [] -> x = "".
Proof. by intros ?%list_elem_of_singleton. Qed.

Lemma toAttributesSet_from `{RangeOrder} user ns rule a : a ∈ toAttributesSet user ns rule -> exists key, (key, a) ∈ attributesList user ns rule.
Proof.
  intros (key & Hk)%elem_of_range_vals. exists key. revert Hk. generalize (attributesList user ns rule) as l. intros l.
  apply (foldl_inv (fun (set : gmap string Attributes) '(key, attr) => <[key := attr]> set) (fun dn set => set !! key = Some a -> (key, a) ∈ dn)); [done|].
  intros dn [k v] acc IH. rewrite lookup_insert_Some, elem_of_app. intros [[-> ->]|[_ Hs]]; [right; apply list_elem_of_here|left; auto].
Qed.

(** A rule allows every request its check is made with. *)
Lemma grantable_allows `{RangeOrder} user ns rule a : grantable rule -> a ∈ toAttributesSet user ns rule -> RuleAllows a rule = true.
Proof.
  intros [_ Hk] (key & (v & g & r & n & u & Hv & Hg & Hr & Hn & Hu & _ & ->)%elem_of_attributesList)%toAttributesSet_from.
  destruct Hk as [(Eu & Eg & Er)|(Eg & Er & En & Eu & Hne)].
  - rewrite Eu in Hu. apply orEmpty_nil in Hu as ->. rewrite RuleAllows_resource, VerbMatches_true, APIGroupMatches_true, ResourceMatches_true, ResourceNameMatches_true by done.
    simpl. split_and!; [auto|right; by apply orEmpty_ne|exists r; split; [by apply orEmpty_ne|auto]|].
    destruct (decide (ResourceNames rule = [])); [by left|right; by apply orEmpty_ne].
  - apply orEmpty_ne in Hu; [|done]. assert (u <> "") as Hu' by set_solver.
    rewrite RuleAllows_nonResource, VerbMatches_true, NonResourceURLMatches_true by (simpl; by apply bool_decide_false). simpl.
    split; [auto|]. exists u. split; [done|]. unfold nonResourceURLCovers. rewrite (bool_decide_true (u = u)) by done. by destruct (bool_decide (u = All)).
Qed.

(** A binding of the account to a role with the rule makes the rule one of the account's. *)
Lemma listVisits_rule src user n describe bindings b subject rules rule :
  b ∈ bindings -> appliesTo user (BSubjects b) n = Some subject -> GetRoleReferenceRules src (BRoleRef b) n = inr rules -> rule ∈ rules ->
  rule ∈ omap VRule (listVisits src user n describe (inr bindings)).
Proof.
  intros Hb Hs Hg Hr. apply list_elem_of_omap. eexists (mkVisit _ (Some rule) None). split; [|reflexivity].
  apply elem_of_flat_map. exists b. split; [done|]. unfold bindingVisits. rewrite Hs, Hg. apply list_elem_of_fmap. by exists rule.
Qed.

Lemma appliesTo_account csv p n : csv_Namespace csv <> "" ->
  appliesTo (toDefaultInfo (mkSA (pm_ServiceAccountName p) (csv_Namespace csv))) (saSubject csv p) n = Some (mkSubject "ServiceAccount" (pm_ServiceAccountName p) (csv_Namespace csv)).
Proof.
  intros Hne. unfold appliesTo, saSubject, List.find, appliesToUser. cbn [SKind SName SNamespace].
  do 2 rewrite bool_decide_false by done. rewrite bool_decide_true by done.
  assert ((0 <? String.length (csv_Namespace csv))%nat = true /\ (String.length (csv_Namespace csv) =? 0)%nat = false) as [-> ->].
  { destruct (csv_Namespace csv); [done|]. split; reflexivity. }
  cbn [GetName toDefaultInfo SANamespace SAName]. by rewrite (proj2 (MatchesUsername_iff _ _ _)).
Qed.

(** Roles with the same name have the same rules: the hash in the name tells permissions apart. *)
Definition namesTellApart (f : StrategyDeploymentPermissions -> error + RbacRole * RbacBinding) (ps : list StrategyDeploymentPermissions) : Prop :=
  forall p q r b r' b', p ∈ ps -> q ∈ ps -> f p = inr (r, b) -> f q = inr (r', b') -> OName (ro_obj r) = OName (ro_obj r') -> pm_Rules p = pm_Rules q.
End rbac.

Section suffices.
Context `{RbacLib, RangeOrder} (csv : CSV) (perms : gmap string OperatorPermissions) (strategy : StrategyDetailsDeployment) (target : Object).
Context (Hgen : generated csv (sd_Permissions strategy) (sd_ClusterPermissions strategy) perms).
Context (Hns : csv_Namespace csv <> "") (Hgroup : Group (ownerGVK (csv_obj csv)) <> "") (Htarget : ownerGVK target = ownerGVK (csv_obj csv)).

Abbreviation source := (csvRoleSource target (staticSource (generatedRoles perms))).

Lemma generated_no_conflict refs : refs = [NonBlockingOwner (csv_obj csv)] \/ refs = [] -> HasOwnerConflict target refs = false.
Proof using Hgroup Htarget.
  intros [->| ->]; [|done]. apply (HasOwnerConflict_blind target [csv_obj csv]). intros o ->%list_elem_of_singleton. split; [done|congruence].
Qed.

Lemma generated_GetRole r p b :
  namesTellApart (roleFor csv) (sd_Permissions strategy) -> p ∈ sd_Permissions strategy -> roleFor csv p = inr (r, b) -> r ∈ allOf op_Roles perms ->
  GetRoleReferenceRules source (mkRoleRef "Role" (OName (ro_obj r))) (csv_Namespace csv) = inr (pm_Rules p).
Proof using Hgen Hns Hgroup Htarget.
  intros Htell Hp Hf Hr. unfold GetRoleReferenceRules. cbn [RefKind RefName]. rewrite bool_decide_true by done. cbn [GetRole csvRoleSource staticSource].
  assert ((String.length (csv_Namespace csv) =? 0)%nat = false) as -> by (by destruct (csv_Namespace csv)).
  destruct (roleFor_inr _ _ _ _ Hf) as (Hn & _). destruct (List.find _ _) as [role|] eqn:E.
  - apply find_elem_of in E as [Hin Hb]. bools. apply list_elem_of_fmap in Hin as (r' & -> & Hr'). cbn [RoleName toRole] in *.
    destruct (role_generated _ _ _ _ Hgen r' Hr') as (q & b' & Hq & Hf'). destruct (roleFor_inr _ _ _ _ Hf') as (_ & Hrules & Ho & _).
    cbn -[HasOwnerConflict]. rewrite Ho, generated_no_conflict by auto. cbn. rewrite Hrules. f_equal. symmetry. by apply (Htell p q r b r' b').
  - apply (find_none_elem_of _ _ (toRole r)) in E; [|apply list_elem_of_fmap; by exists r].
    apply andb_false_iff in E as [E|E]; apply bool_decide_eq_false in E; done.
Qed.

Lemma generated_GetClusterRole r p b n :
  namesTellApart (clusterRoleFor csv) (sd_ClusterPermissions strategy) -> p ∈ sd_ClusterPermissions strategy -> clusterRoleFor csv p = inr (r, b) ->
  r ∈ allOf op_ClusterRoles perms -> GetRoleReferenceRules source (mkRoleRef "ClusterRole" (OName (ro_obj r))) n = inr (pm_Rules p).
Proof using Hgen Hgroup Htarget.
  intros Htell Hp Hf Hr. unfold GetRoleReferenceRules. cbn [RefKind RefName]. rewrite bool_decide_false, bool_decide_true by done.
  cbn [GetClusterRole csvRoleSource staticSource]. destruct (List.find _ _) as [role|] eqn:E.
  - apply find_elem_of in E as [Hin Hb]. bools. apply list_elem_of_fmap in Hin as (r' & -> & Hr'). cbn [RoleName toRole] in *.
    destruct (cluster_role_generated _ _ _ _ Hgen r' Hr') as (q & b' & Hq & Hf'). destruct (clusterRoleFor_inr _ _ _ _ Hf') as (Hrules & Ho & _).
    cbn -[HasOwnerConflict]. rewrite Ho, generated_no_conflict by auto. cbn. rewrite Hrules. f_equal. symmetry. by apply (Htell p q r b r' b').
  - apply (find_none_elem_of _ _ (toRole r)) in E; [|apply list_elem_of_fmap; by exists r]. apply bool_decide_eq_false in E. done.
Qed.

Lemma generated_rule ns p rule :
  namesTellApart (roleFor csv) (sd_Permissions strategy) -> namesTellApart (clusterRoleFor csv) (sd_ClusterPermissions strategy) ->
  (p ∈ sd_Permissions strategy /\ ns = csv_Namespace csv) \/ p ∈ sd_ClusterPermissions strategy -> rule ∈ pm_Rules p ->
  rule ∈ (RulesFor source (toDefaultInfo (mkSA (pm_ServiceAccountName p) (csv_Namespace csv))) ns).1.
Proof using Hgen Hns Hgroup Htarget.
  intros Ht1 Ht2 Hp Hrule. rewrite RulesFor_eq. unfold allVisits. cbn [fst]. rewrite omap_app, elem_of_app. destruct Hp as [[Hp ->]|Hp].
  - right. assert ((0 <? String.length (csv_Namespace csv))%nat = true) as -> by (by destruct (csv_Namespace csv)).
    destruct (generated_role _ _ _ _ Hgen p Hp) as (r & b & Hf & Hr & Hb). destruct (roleFor_inr _ _ _ _ Hf) as (_ & _ & _ & Ho & Hn & Href & Hsub).
    cbn [ListRoleBindings csvRoleSource staticSource].
    assert ((String.length (csv_Namespace csv) =? 0)%nat = false) as -> by (by destruct (csv_Namespace csv)).
    eapply (listVisits_rule _ _ _ _ _ (toBinding b)); [|cbn [toBinding BSubjects]; rewrite Hsub; by apply appliesTo_account| |exact Hrule].
    + apply list_elem_of_In, filter_In. cbn [toBinding BOwners]. rewrite Ho, generated_no_conflict by auto. split; [|done].
      apply filter_In. cbn [toBinding BNamespace]. rewrite Hn, bool_decide_true by done. split; [|done]. apply list_elem_of_In, list_elem_of_fmap. by exists b.
    + cbn [toBinding BRoleRef]. rewrite Href. by apply (generated_GetRole r p b).
  - left. destruct (generated_cluster_role _ _ _ _ Hgen p Hp) as (r & b & Hf & Hr & Hb). destruct (clusterRoleFor_inr _ _ _ _ Hf) as (_ & _ & Ho & Href & Hsub).
    cbn [ListClusterRoleBindings csvRoleSource staticSource].
    eapply (listVisits_rule _ _ _ _ _ (toBinding b)); [|cbn [toBinding BSubjects]; rewrite Hsub; by apply appliesTo_account| |exact Hrule].
    + apply list_elem_of_In, filter_In. cbn [toBinding BOwners]. rewrite Ho, generated_no_conflict by auto. split; [|done].
      apply list_elem_of_In, list_elem_of_fmap. by exists b.
    + cbn [toBinding BRoleRef]. rewrite Href. by apply (generated_GetClusterRole r p b).
Qed.
End suffices.

(** A rule that the account holds is satisfied. *)
Lemma held_rule_satisfied `{RangeOrder} target listers sa ns rule :
  grantable rule -> rule ∈ (RulesFor (csvRoleSource target listers) (toDefaultInfo sa) ns).1 -> RuleSatisfied target listers sa ns rule = inr true.
Proof.
  intros Hg Hin. unfold RuleSatisfied. rewrite grantable_valid by done. f_equal. apply forallb_elem_of. intros a Ha. rewrite Authorize_allow, RulesAllow_true.
  exists rule. split; [|by apply (grantable_allows _ _ _ _ Hg Ha)].
  destruct (toAttributesSet_from _ _ _ _ Ha) as (key & (v & g & r & n & u & _ & _ & _ & _ & _ & _ & ->)%elem_of_attributesList). done.
Qed.

(** C31: what OLM creates for an operator is what it then asks for: in a cluster with the roles and
    bindings generated for the permissions of a CSV, the rule checker finds every rule of every
    permission satisfied for its service account, in the namespace of the CSV for permissions and
    in every namespace for cluster permissions. *)
Theorem generated_rbac_satisfies `{RbacLib, RangeOrder} (csv : CSV) (strategy : StrategyDetailsDeployment) (perms : gmap string OperatorPermissions)
    (target : Object) (ns : string) (p : StrategyDeploymentPermissions) (rule : PolicyRule) :
  UnmarshalStrategy (spec_InstallStrategy (csv_Spec csv)) = inr strategy -> RBACForClusterServiceVersion csv = inr perms ->
  csv_Namespace csv <> "" -> Group (ownerGVK (csv_obj csv)) <> "" -> ownerGVK target = ownerGVK (csv_obj csv) ->
  namesTellApart (roleFor csv) (sd_Permissions strategy) -> namesTellApart (clusterRoleFor csv) (sd_ClusterPermissions strategy) ->
  (p ∈ sd_Permissions strategy /\ ns = csv_Namespace csv) \/ p ∈ sd_ClusterPermissions strategy -> rule ∈ pm_Rules p -> grantable rule ->
  RuleSatisfied target (staticSource (generatedRoles perms)) (mkSA (pm_ServiceAccountName p) (csv_Namespace csv)) ns rule = inr true.
Proof.
  intros Hs Hr Hns Hgroup Htarget Ht1 Ht2 Hp Hrule Hg. pose proof (RBAC_generated csv strategy perms Hs Hr) as Hgen.
  apply held_rule_satisfied; [done|]. by apply (generated_rule csv perms strategy target Hgen Hns Hgroup Htarget ns p rule).
Qed.

(** ** The generated roles are recognised

    The content hashes of the requirement check are the ones roles and bindings are labelled with. *)

Definition requirementLib `{RbacLib} (base : RequirementLib) : RequirementLib := {|
  KubeVersion := KubeVersion; NewVersion := NewVersion; CompareVersion := CompareVersion; KubeVersion_String := KubeVersion_String;
  marshalRule := marshalRule; PolicyRuleHashLabelValue := policyRuleHash; RoleReferenceAndSubjectHashLabelValue := bindingHash |}.

(** The names of the objects of a namespace whose labels match a selector. *)
Definition selects (sel : gmap string string) (o : Object) : bool := bool_decide (sel ⊆ default ∅ (Labels o)).
Definition listed (objs : list Object) (ns : string) (sel : gmap string string) : list string :=
  OName <$> List.filter (fun o => bool_decide (ONamespace o = ns) && selects sel o) objs.

Section recognised.
Context `{RbacLib} (csv : CSV).

Lemma selects_hash hash hash' : selects (<[ContentHashLabelKey := hash]> (OwnerLabel (csv_obj csv) ClusterServiceVersionKind))
    (mkObj TRole noGVK "" "" "" [] (hashLabels csv hash')) = true -> hash = hash'.
Proof.
  unfold selects. intros Hs%bool_decide_eq_true. rewrite map_subseteq_spec in Hs. specialize (Hs ContentHashLabelKey hash).
  rewrite lookup_insert_eq in Hs. specialize (Hs eq_refl). cbn in Hs. rewrite lookup_insert_eq in Hs. congruence.
Qed.

Lemma roleFor_hash p r b :
  roleFor csv p = inr (r, b) ->
  exists hash hash', policyRuleHash (pm_Rules p) = inr hash /\ Labels (ro_obj r) = hashLabels csv hash /\
    bindingHash (mkRoleRef "Role" (OName (ro_obj r))) (saSubject csv p) = inr hash' /\ Labels (rb_obj b) = hashLabels csv hash'.
Proof.
  unfold roleFor. intros (name & _ & Hx)%bind_inr. destruct (policyRuleHash _) as [|hash]; [done|]. cbv zeta in Hx.
  destruct (bindingHash _ _) as [|hash'] eqn:E; [done|]. injection Hx as <- <-. by exists hash, hash'.
Qed.

(** A permission whose rules no other permission of the CSV has is recognised as created by OLM, once its
    role and binding are listed. *)
Lemma generated_recognised (base : RequirementLib) (cl : Cluster) (ps cps : list StrategyDeploymentPermissions) (perms : gmap string OperatorPermissions) p :
  generated csv ps cps perms -> p ∈ ps ->
  (forall q, q ∈ ps -> policyRuleHash (pm_Rules q) = policyRuleHash (pm_Rules p) -> q = p) ->
  (forall ns sel, cl_ListRoles cl ns sel = inr (listed (ro_obj <$> allOf op_Roles perms) ns sel)) ->
  (forall ns sel, cl_ListBindings cl ns sel = inr (listed (rb_obj <$> allOf op_RoleBindings perms) ns sel)) ->
  @permissionsPreviouslyCreated (requirementLib base) cl p csv (csv_Namespace csv) = inr true.
Proof.
  intros Hgen Hp Huniq Hroles Hbindings. destruct (generated_role _ _ _ _ Hgen p Hp) as (r & b & Hf & Hr & Hb).
  destruct (roleFor_inr _ _ _ _ Hf) as (Hrn & _ & _ & _ & Hbn & _). destruct (roleFor_hash _ _ _ Hf) as (hash & hash' & Hh & Hlr & Hh' & Hlb).
  unfold permissionsPreviouslyCreated. cbn [PolicyRuleHashLabelValue RoleReferenceAndSubjectHashLabelValue requirementLib]. rewrite Hh, Hroles.
  destruct (listed _ _ _) as [|first rest] eqn:El.
  - exfalso. assert (OName (ro_obj r) ∈ @nil string) as Hin; [|by apply elem_of_nil in Hin]. rewrite <- El. apply list_elem_of_fmap. exists (ro_obj r). split; [done|].
    apply list_elem_of_In, filter_In. split; [apply list_elem_of_In, list_elem_of_fmap; by exists r|]. rewrite Hrn, bool_decide_true by done.
    unfold selects. rewrite Hlr. by apply bool_decide_true.
  - assert (first ∈ first :: rest) as Hin by apply list_elem_of_here. rewrite <- El in Hin.
    apply list_elem_of_fmap in Hin as (o & -> & [Hin Hsel]%list_elem_of_In%filter_In). apply list_elem_of_In, list_elem_of_fmap in Hin as (r' & -> & Hr').
    destruct (role_generated _ _ _ _ Hgen r' Hr') as (q & b' & Hq & Hf'). destruct (roleFor_hash _ _ _ Hf') as (hq & ? & Hhq & Hlq & _).
    assert (q = p) as ->.
    { apply Huniq; [done|]. apply andb_true_iff in Hsel as [_ Hsel]. unfold selects in Hsel. rewrite Hlq in Hsel. rewrite Hh, Hhq. f_equal. symmetry.
      by apply selects_hash. }
    assert (r' = r) as -> by congruence. fold (saSubject csv p). rewrite Hh', Hbindings.
    destruct (listed (rb_obj <$> _) _ _) eqn:E2; [|done]. exfalso. assert (OName (rb_obj b) ∈ @nil string) as Hin; [|by apply elem_of_nil in Hin].
    rewrite <- E2. apply list_elem_of_fmap. exists (rb_obj b). split; [done|]. apply list_elem_of_In, filter_In.
    split; [apply list_elem_of_In, list_elem_of_fmap; by exists b|]. rewrite Hbn, bool_decide_true by done. unfold selects. rewrite Hlb. by apply bool_decide_true.
Qed.
End recognised.

(** ** An operator with a permission and a cluster permission *)

Module RbacDemo.
#[local] Existing Instance canonical_order.

(** Fields joined by spaces stand for JSON, and a shorter hash for SHA-224. *)
Definition printRule (r : PolicyRule) : string := Join (Verbs r ++ APIGroups r ++ Resources r ++ ResourceNames r) " ".
Definition lib : RbacLib.
Proof.
  refine {| encodePermission name ns p := inr (name +:+ default "" ns +:+ pm_ServiceAccountName p +:+ Join (printRule <$> pm_Rules p) ",");
    marshalRules rules := inr (Join (printRule <$> rules) ","); marshalBinding ref subjects := inr (RefName ref +:+ Join (SName <$> subjects) ","); sha224 := Sum64a |}.
  intros s. pose proof (Sum64a_bound s) as Hb. unfold uint64_mod in Hb. split; [lia|]. etrans; [apply Hb|]. apply Z.pow_lt_mono_r; lia.
Defined.

Definition read : PolicyRule := mkRule ["get"; "list"] [""] ["pods"; "pods/log"] [] None.
Definition metrics : PolicyRule := mkRule ["get"] [] [] [] (Some ["/metrics"]).
Definition strategy : StrategyDetailsDeployment := mkStrategy [] [mkPermissions "etcd" [read]] [mkPermissions "etcd" [metrics]].
Definition operator : CSV :=
  mkCSV (demo_csv "etcd.v1" "1") None (mkCSVSpec (mkNamedStrategy "deployment" strategy) [] [] [] [] [] [] "" [] "" false) (demo_status "" "").

Lemma generated_rbac_satisfies_witness :
  exists perms, @RBACForClusterServiceVersion lib operator = inr perms /\
    RuleSatisfied (csv_obj operator) (staticSource (generatedRoles perms)) (mkSA "etcd" "ns") "ns" read = inr true /\
    RuleSatisfied (csv_obj operator) (staticSource (generatedRoles perms)) (mkSA "etcd" "ns") "other" metrics = inr true.
Proof.
  eexists. split; [vm_compute; reflexivity|].
  assert (forall f p q, namesTellApart f [mkPermissions p q]) as Hone.
  { by intros f p q ? ? ? ? ? ? ->%list_elem_of_singleton ->%list_elem_of_singleton. }
  split.
  - refine (@generated_rbac_satisfies lib _ operator strategy _ (csv_obj operator) "ns" (mkPermissions "etcd" [read]) read _ _ _ _ _ _ _ _ _ _);
      [reflexivity|vm_compute; reflexivity|done|done|done|apply Hone|apply Hone|left; split; [apply list_elem_of_here|done]|apply list_elem_of_here|].
    split; [done|]. left. done.
  - refine (@generated_rbac_satisfies lib _ operator strategy _ (csv_obj operator) "other" (mkPermissions "etcd" [metrics]) metrics _ _ _ _ _ _ _ _ _ _);
      [reflexivity|vm_compute; reflexivity|done|done|done|apply Hone|apply Hone|right; apply list_elem_of_here|apply list_elem_of_here|].
    split; [done|]. right. split_and!; try done. intros Hin%list_elem_of_singleton. done.
Defined.

(** A name that is longer than the limit. *)
Lemma generateName_too_long : exists base name, generateName (H := lib) base (inr "x") = inr name /\ String.length name = S maxNameLength.
Proof. exists (String.substring 0 52 "an-operator-name-that-is-rather-long-but-not-too-long-to-be-accepted"). eexists. split; [vm_compute; reflexivity|]. vm_compute. reflexivity. Qed.
End RbacDemo.
