(* ===== verification/CsvTransition.v ===== *)
(** * The CSV state machine: one sync

    Models [transitionCSVState] of [controller/operators/olm/operator.go] and the methods it
    calls ([operatorGroupForCSV], [parseStrategiesAndUpdateStatus], [updateInstallStatus],
    [checkReplacementsAndUpdateStatus], [ensureLabels], [cleanupCSVDeployments]).

    The function mutates a copy of the CSV, talks to the cluster, and returns the copy and a
    sync error.  Here it runs in a small state monad: the state is the copy and the log of the
    calls that change something outside of it; a Go [return] in the middle of the function
    leaves the monad with the sync error, a nil dereference leaves it with a panic.

    What is read is [Env]: the cluster of [Requirements], the clock (one value per reading),
    the clients and listers, and the parts of the operator that act through interfaces:
    the install strategy ([install.StrategyInstaller]), webhooks and API service resources. *)

From S2P Require Import Prelude GoStrings RbacRules OwnerUtil RbacAuthorizer CatalogModel ResolverCache CsvTypes OperatorGroups ReplaceChain Requirements.

#[local] Arguments String.append : simpl nomatch.

(** ** The environment of a sync *)

(** The calls of [a.now()] in one sync. *)
Inductive Reading :=
  | NowTransition | NowGroup | NowStrategy | NowInstallStatus | NowTimeout | NowReplacement | NowFailForward | NowCerts.

(** The calls of [isReplacing] in one sync: the client is asked each time. *)
Inductive ReplacingRead := ReadUpgradeable | ReadRequeue | ReadReady | ReadStrategy | ReadLeaf.

(** [install.StrategyInstaller] *)
Record Installer := mkInstaller {
  in_Install : StrategyDetailsDeployment -> option error;
  in_CheckInstalled : StrategyDetailsDeployment -> bool * option error;
  in_ShouldRotateCerts : StrategyDetailsDeployment -> error + bool;
  in_CertsRotateAt : Time;
  in_CertsRotated : bool
}.

Record Env := mkEnv {
  env_cluster : Cluster;
  env_now : Reading -> Time;
  env_groupsIn : string -> error + list OperatorGroup;
  env_allGroups : error + list OperatorGroup;
  env_listCSVs : string -> error + list CSV;
  env_getCSV : ReplacingRead -> string -> string -> error + CSV;
  env_updateCSV : CSV -> error + CSV;
  env_updateGroup : OperatorGroup -> option error;
  env_requeueGroup : string -> string -> option error;
  env_deleteCSV : string -> string -> option error;
  env_LabelSelectorAsSelector : option string -> error + Selector;
  env_ListNamespaces : Selector -> error + list string;
  env_clientError : CSV -> option error;
  env_installer : CSV -> option StrategyDetailsDeployment -> Installer;
  env_checkAPIServiceResources : CSV -> option error;
  env_updateDeploymentSpecs : CSV -> StrategyDetailsDeployment -> error + StrategyDetailsDeployment;
  env_areWebhooksAvailable : CSV -> error + bool;
  env_ensureClusterRoles : CSV -> option error
}.

(** ** The monad *)

(** What a sync does besides changing the CSV it returns. *)
Inductive Action :=
  | AEvent (e : Event)
  | ARequeueCSV (namespace name : string)
  | ARequeueGroup (namespace name : string)
  | AUpdateCSV (c : CSV)
  | AUpdateGroup (g : OperatorGroup)
  | ADeleteDeployment (namespace name : string)
  | ADeleteCSV (namespace name : string)
  | AEnsureClusterRoles (c : CSV).

Record St := mkSt { s_out : CSV; s_acts : list Action }.

Inductive Exit := Return (syncError : option error) | Panic.

Definition M (A : Type) : Type := St -> St * (Exit + A).

#[export] Instance M_ret : MRet M := fun A x s => (s, inr x).
#[export] Instance M_bind : MBind M := fun A B k m s =>
  match m s with (s', inl e) => (s', inl e) | (s', inr x) => k x s' end.

Definition returnWith {A} (err : option error) : M A := fun s => (s, inl (Return err)).
Definition panic {A} : M A := fun s => (s, inl Panic).
Definition getOut : M CSV := fun s => (s, inr (s_out s)).
Definition putOut (c : CSV) : M unit := fun s => (mkSt c (s_acts s), inr tt).
Definition modifyOut (f : CSV -> CSV) : M unit := fun s => (mkSt (f (s_out s)) (s_acts s), inr tt).
Definition act (a : Action) : M unit := fun s => (mkSt (s_out s) (s_acts s ++ [a]), inr tt).
Definition whenM (b : bool) (m : M unit) : M unit := if b then m else mret tt.

Definition setPhaseWithEvent (phase reason message : string) (now : Time) : M unit := fun s =>
  let '(c, evs) := SetPhaseWithEvent (s_out s) phase reason message (Some now) in
  (mkSt c (s_acts s ++ (AEvent <$> evs)), inr tt).
Definition setPhaseIfChanged (phase reason message : string) (now : Time) : M unit := fun s =>
  let '(c, evs) := SetPhaseWithEventIfChanged (s_out s) phase reason message (Some now) in
  (mkSt c (s_acts s ++ (AEvent <$> evs)), inr tt).

(** [fmt]'s [%s] of an error value. *)
Definition fmtErr (err : option error) : string := match err with Some e => Error_ e | None => "%!s(<nil>)" end.

Section transition.
Context `{RangeOrder, RequirementLib} (env : Env).

(** ** Helpers *)

Definition isReplacing (r : ReplacingRead) (c : CSV) : option CSV := IsReplacing (env_getCSV env r) c.

Definition csvsIn (namespace : string) : gmap string CSV := csvSet (env_listCSVs env namespace) CSVPhaseAny.

(** [labels.Merge] prefers the second set; [labels.Equals] compares nil and empty as equal. *)
Definition mergeLabels (labelSets : list (gmap string string)) (l : gmap string string) : gmap string string :=
  foldl (fun merged labelSet => labelSet ∪ merged) l labelSets.

Definition ensureLabels (labelSets : list (gmap string string)) : M unit :=
  c ← getOut;
  let csvLabelSet := default ∅ (Labels (csv_obj c)) in
  let merged := mergeLabels labelSets csvLabelSet in
  if bool_decide (csvLabelSet = merged) then mret tt
  else
    let c' := mkCSV (SetLabels (csv_obj c) merged) (csv_Annotations c) (csv_Spec c) (csv_Status c) in
    act (AUpdateCSV c') ;;
    match env_updateCSV env c' with
    | inl err => returnWith (Some err)
    | inr updated => putOut updated
    end.

Definition cleanupCSVDeployments : M unit :=
  c ← getOut;
  match UnmarshalStrategy (spec_InstallStrategy (csv_Spec c)) with
  | inl _ => mret tt
  | inr strategy =>
      foldl (fun m spec => m ;; act (ADeleteDeployment (csv_Namespace c) (ds_Name spec))) (mret tt) (sd_DeploymentSpecs strategy)
  end.

Definition errNoOperatorGroups : error := ErrString "csv in namespace with no operatorgroups".
Definition errManyOperatorGroups : error :=
  ErrString "csv created in namespace with multiple operatorgroups, can't pick one automatically".

(** Returns the operator group of the CSV, or leaves the sync with the error of the lookup. *)
Definition operatorGroupForCSV : M OperatorGroup :=
  c ← getOut;
  match env_groupsIn env (csv_Namespace c) with
  | inl err => returnWith (Some err)
  | inr [] =>
      setPhaseWithEvent CSVPhaseFailed CSVReasonNoOperatorGroup (Error_ errNoOperatorGroups) (env_now env NowGroup) ;;
      returnWith (Some errNoOperatorGroups)
  | inr [operatorGroup] =>
      if operatorGroupAnnotationsDiffer (csv_Annotations c) operatorGroup then
        modifyOut (fun c =>
          mkCSV (csv_obj c) (setOperatorGroupAnnotations (csv_Annotations c) operatorGroup true) (csv_Spec c) (csv_Status c)) ;;
        c ← getOut;
        act (AUpdateCSV c) ;;
        match env_updateCSV env c with
        | inl err => returnWith (Some err)
        | inr _ =>
            match getOperatorGroupTargets (env_LabelSelectorAsSelector env) (env_ListNamespaces env) operatorGroup with
            | inr targets =>
                whenM (size targets =? 0)%nat
                  (setPhaseIfChanged CSVPhaseFailed CSVReasonNoTargetNamespaces
                    "no targetNamespaces are matched operatorgroups namespace selection" (env_now env NowGroup))
            | inl _ => mret tt
            end ;;
            act (ARequeueGroup (og_Namespace operatorGroup) (og_Name operatorGroup)) ;;
            returnWith (env_requeueGroup env (og_Namespace operatorGroup) (og_Name operatorGroup))
        end
      else mret operatorGroup
  | inr _ =>
      whenM (negb (bool_decide (csv_Reason c = CSVReasonTooManyOperatorGroups)))
        (setPhaseWithEvent CSVPhaseFailed CSVReasonTooManyOperatorGroups (Error_ errManyOperatorGroups) (env_now env NowGroup)) ;;
      returnWith (Some errManyOperatorGroups)
  end.

Definition checkReplacementsAndUpdateStatus : M unit :=
  c ← getOut;
  if bool_decide (csv_Phase c = CSVPhaseReplacing) || bool_decide (csv_Phase c = CSVPhaseDeleting) then mret tt
  else
    match IsBeingReplaced (csv_Name c) (csvsIn (csv_Namespace c)) with
    | Some replacement =>
        setPhaseWithEvent CSVPhaseReplacing CSVReasonBeingReplaced ("being replaced by csv: " +:+ csv_Name replacement)
          (env_now env NowReplacement) ;;
        returnWith None
    | None => mret tt
    end.

(** The installer and the strategy; leaves the sync when there is none. *)
Definition parseStrategiesAndUpdateStatus : M (Installer * StrategyDetailsDeployment) :=
  c ← getOut;
  match UnmarshalStrategy (spec_InstallStrategy (csv_Spec c)) with
  | inl err =>
      setPhaseWithEvent CSVPhaseFailed CSVReasonInvalidStrategy ("install strategy invalid: " +:+ Error_ err) (env_now env NowStrategy) ;;
      returnWith None
  | inr strategy =>
      previousStrategy ←
        match isReplacing ReadStrategy c with
        | None => mret None
        | Some previousCSV =>
            act (ARequeueCSV (csv_Namespace previousCSV) (csv_Name previousCSV)) ;;
            mret (match UnmarshalStrategy (spec_InstallStrategy (csv_Spec previousCSV)) with inl _ => None | inr s => Some s end)
        end;
      match env_clientError env c with
      | Some _ => returnWith None
      | None => mret (env_installer env c previousStrategy, strategy)
      end
  end.

Definition errApiServicesNotInstalled : error := ErrString "apiServices not installed".
Definition errWebhooksNotInstalled : error := ErrString "webhooks not installed".

Definition toPair (r : error + bool) : bool * option error :=
  match r with inl err => (false, Some err) | inr b => (b, None) end.

(** The install error that is returned, if any. *)
Definition updateInstallStatus (installer : Installer) (strategy : StrategyDetailsDeployment)
    (requeuePhase requeueConditionReason : string) : M (option error) :=
  let '(strategyInstalled, strategyErr) := in_CheckInstalled installer strategy in
  let now := env_now env NowInstallStatus in
  c ← getOut;
  let '(apiServicesInstalled, apiServiceErr) := toPair (areAPIServicesAvailable (env_cluster env) c) in
  let '(webhooksInstalled, webhookErr) := toPair (env_areWebhooksAvailable env c) in
  let requeue := act (ARequeueCSV (csv_Namespace c) (csv_Name c)) in
  if strategyInstalled && apiServicesInstalled && webhooksInstalled then
    setPhaseIfChanged CSVPhaseSucceeded CSVReasonInstallSuccessful "install strategy completed with no errors" now ;;
    mret None
  else
    match findFirstError IsServiceUnavailable [strategyErr; apiServiceErr; webhookErr] with
    | Some err => mret (Some err)
    | None =>
        if IsErrorUnrecoverable strategyErr then
          setPhaseIfChanged CSVPhaseFailed CSVReasonInstallCheckFailed ("install failed: " +:+ fmtErr strategyErr) now ;;
          mret strategyErr
        else
          match apiServiceErr with
          | Some err =>
              setPhaseIfChanged CSVPhaseFailed CSVReasonAPIServiceInstallFailed
                ("APIService install failed: " +:+ Error_ err) now ;;
              mret (Some err)
          | None =>
              if negb apiServicesInstalled then
                setPhaseIfChanged requeuePhase requeueConditionReason "apiServices not installed" now ;;
                requeue ;; mret (Some errApiServicesNotInstalled)
              else
                match webhookErr with
                | Some err =>
                    setPhaseIfChanged CSVPhaseInstallReady requeueConditionReason
                      ("Webhook install failed: " +:+ Error_ err) now ;;
                    mret (Some err)
                | None =>
                    if negb webhooksInstalled then
                      setPhaseIfChanged requeuePhase requeueConditionReason "webhooks not installed" now ;;
                      requeue ;; mret (Some errWebhooksNotInstalled)
                    else
                      match strategyErr with
                      | Some err =>
                          let reasonForError := ReasonForError err in
                          (if bool_decide (reasonForError = StrategyErrDeploymentUpdated)
                              || bool_decide (reasonForError = StrategyErrReasonAnnotationsMissing)
                           then setPhaseIfChanged CSVPhaseInstallReady requeueConditionReason ("installing: " +:+ Error_ err) now
                           else setPhaseIfChanged requeuePhase requeueConditionReason ("installing: " +:+ Error_ err) now) ;;
                          requeue ;; mret (Some err)
                      | None => mret None
                      end
                end
          end
    end.

(** ** The checks before the phase is looked at *)

Definition wrapGroupError (err : error) : error :=
  ErrString ("could not update operatorgroups " +:+ OperatorGroupProvidedAPIsAnnotationKey +:+ " annotation: " +:+ Error_ err).

(** The update of the group's annotation: not found is no error. *)
Definition updateGroupError (g : OperatorGroup) : option error :=
  match env_updateGroup env g with
  | Some err => if IsNotFound (Some err) then None else Some (wrapGroupError err)
  | None => None
  end.

Definition requeueSelf : M unit := c ← getOut; act (ARequeueCSV (csv_Namespace c) (csv_Name c)).

Definition ensureInstallModes : M unit :=
  c ← getOut;
  match NewInstallModeSet (spec_InstallModes (csv_Spec c)) with
  | inl err =>
      setPhaseIfChanged CSVPhaseFailed CSVReasonInvalidInstallModes (Error_ err) (env_now env NowTransition) ;; returnWith None
  | inr modeSet =>
      match annotation (csv_Annotations c) OperatorGroupTargetsAnnotationKey with
      | Some targets =>
          match Supports modeSet (csv_Namespace c) (Split ","%char targets) with
          | Some err =>
              setPhaseIfChanged CSVPhaseFailed CSVReasonUnsupportedOperatorGroup (Error_ err) (env_now env NowTransition) ;;
              returnWith None
          | None => mret tt
          end
      | None =>
          setPhaseIfChanged CSVPhaseFailed CSVReasonNoTargetNamespaces "csv missing olm.targetNamespaces annotation"
            (env_now env NowTransition) ;;
          returnWith None
      end
  end.

(** A CSV that may not provide its APIs fails, unless it already failed for the conflict. *)
Definition failForAPIs (reason message : string) : M unit :=
  c ← getOut;
  whenM (negb (bool_decide (csv_Reason c = CSVReasonInterOperatorGroupOwnerConflict)))
    (setPhaseWithEvent CSVPhaseFailed reason message (env_now env NowTransition) ;; cleanupCSVDeployments) ;;
  returnWith None.

Definition otherGroups (operatorGroup : OperatorGroup) (allGroups : list OperatorGroup) : list OperatorGroup :=
  List.filter (fun g => negb (bool_decide (og_Name g = og_Name operatorGroup))
                        || negb (bool_decide (og_Namespace g = og_Namespace operatorGroup))) allGroups.

Definition ensureProvidedAPIs (surface : operatorSurface) (operatorGroup : OperatorGroup) : M unit :=
  match env_allGroups env with
  | inl _ => returnWith None
  | inr allGroups =>
      let groupSurface := NewOperatorGroup operatorGroup in
      let otherGroupSurfaces := NewOperatorGroupSurfaces (otherGroups operatorGroup allGroups) in
      let providedAPIs := StripPlural (os_ProvidedAPIs surface) in
      let result := ReconcileAPIIntersection providedAPIs groupSurface otherGroupSurfaces in
      if og_StaticProvidedAPIs operatorGroup && (bool_decide (result = AddAPIs) || bool_decide (result = RemoveAPIs)) then
        failForAPIs CSVReasonCannotModifyStaticOperatorGroupProvidedAPIs
          "static provided api operatorgroup cannot be modified by these apis"
      else
        match result with
        | APIConflict =>
            failForAPIs CSVReasonInterOperatorGroupOwnerConflict "intersecting operatorgroups provide the same apis"
        | AddAPIs =>
            let union := Union (gs_providedAPIs groupSurface) [providedAPIs] in
            let unionedAnnotations := default ∅ (og_Annotations operatorGroup) in
            if bool_decide (default "" (unionedAnnotations !! OperatorGroupProvidedAPIsAnnotationKey) = APISet_String union)
            then mret tt
            else
              let g := setGroupAnnotations operatorGroup
                (<[OperatorGroupProvidedAPIsAnnotationKey := APISet_String union]> unionedAnnotations) in
              act (AUpdateGroup g) ;; requeueSelf ;; returnWith (updateGroupError g)
        | RemoveAPIs =>
            let difference := Difference (gs_providedAPIs groupSurface) providedAPIs in
            match og_Annotations operatorGroup with
            | Some diffedAnnotations =>
                let g := setGroupAnnotations operatorGroup
                  (<[OperatorGroupProvidedAPIsAnnotationKey := APISet_String difference]> diffedAnnotations) in
                act (AUpdateGroup g) ;; requeueSelf ;; returnWith (updateGroupError g)
            | None => requeueSelf ;; returnWith None
            end
        | NoAPIConflict => mret tt
        end
  end.

(** Everything up to the switch on the phase.  The labeler is called with a pointer to the
    surface. *)
Definition prepare : M OperatorGroup :=
  c ← getOut;
  match apiSurfaceOfCSV c with
  | inl _ => returnWith None
  | inr surface =>
      match LabelSetsFor (LOperatorSurfacePointer surface) with
      | inl _ => mret tt
      | inr [] => mret tt
      | inr labelSets => ensureLabels labelSets
      end ;;
      operatorGroup ← operatorGroupForCSV;
      ensureInstallModes ;;
      ensureProvidedAPIs surface operatorGroup ;;
      mret operatorGroup
  end.

(** ** The phases *)

Definition nonePhase : M unit :=
  setPhaseWithEvent CSVPhasePending CSVReasonRequirementsUnknown "requirements not yet checked" (env_now env NowTransition).

(** The message of the first invalid webhook description. *)
Fixpoint invalidWebhook (webhookNames : gset string) (ds : list WebhookDescription) : option string :=
  match ds with
  | [] => None
  | desc :: ds' =>
      if bool_decide (wd_GenerateName desc ∈ webhookNames) then Some "CSV contains repeated WebhookDescription name"
      else
        match ValidWebhookRules (wd_Rules desc) with
        | Some err => Some (Error_ err)
        | None => invalidWebhook (webhookNames ∪ {[ wd_GenerateName desc ]}) ds'
        end
  end.

(** An owner conflict fails the CSV; another error is only returned. *)
Definition ownerConflict (conflict : error) (isConflict : bool) : M unit :=
  whenM isConflict
    (setPhaseWithEvent CSVPhaseFailed CSVReasonOwnerConflict (Error_ conflict) (env_now env NowTransition)) ;;
  returnWith (Some conflict).

Definition pendingPhase : M unit :=
  let now := env_now env NowTransition in
  c ← getOut;
  match isReplacing ReadUpgradeable c with
  | Some replacedCSV =>
      match isOperatorUpgradeable (env_cluster env) replacedCSV with
      | Some condErr =>
          setPhaseIfChanged CSVPhasePending CSVReasonOperatorConditionNotUpgradeable
            ("operator is not upgradeable: " +:+ Error_ condErr) now ;;
          returnWith None
      | None => mret tt
      end
  | None => mret tt
  end ;;
  match requirementAndPermissionStatus (env_cluster env) c with
  | inl err =>
      setPhaseWithEvent CSVPhaseFailed CSVReasonInvalidStrategy ("install strategy invalid: " +:+ Error_ err) now ;;
      returnWith None
  | inr (met, statuses) =>
      modifyOut (fun c => SetRequirementStatus c statuses) ;;
      match isReplacing ReadRequeue c with
      | Some prev =>
          whenM (bool_decide (csv_Phase prev = CSVPhaseSucceeded)) (act (ARequeueCSV (csv_Namespace prev) (csv_Name prev)))
      | None => mret tt
      end ;;
      if negb met then
        setPhaseIfChanged CSVPhasePending CSVReasonRequirementsNotMet "one or more requirements couldn't be found" now ;;
        returnWith (Some ErrRequirementsNotMet)
      else
        match invalidWebhook ∅ (spec_WebhookDefinitions (csv_Spec c)) with
        | Some message =>
            setPhaseIfChanged CSVPhaseFailed CSVReasonInvalidWebhookDescription message now ;; returnWith None
        | None =>
            match crdOwnerConflicts c (csvsIn (csv_Namespace c)) with
            | Some err => ownerConflict err true
            | None =>
                match apiServiceOwnerConflicts (env_cluster env) c with
                | Some err =>
                    ownerConflict err match err with ErrAPIServiceOwnerConflict => true | _ => false end
                | None =>
                    match isReplacing ReadReady c with
                    | Some prev =>
                        if negb (bool_decide (csv_Phase prev = CSVPhaseReplacing)) then returnWith None else mret tt
                    | None => mret tt
                    end ;;
                    setPhaseWithEvent CSVPhaseInstallReady CSVReasonRequirementsMet
                      "all requirements found, attempting install" now
                end
            end
        end
  end.

Definition installReadyPhase : M unit :=
  let now := env_now env NowTransition in
  '(installer, strategy) ← parseStrategiesAndUpdateStatus;
  match in_Install installer strategy with
  | Some err =>
      setPhaseWithEvent CSVPhaseFailed
        (if IsErrorUnrecoverable (Some err) then CSVReasonComponentFailedNoRetry else CSVReasonComponentFailed)
        ("install strategy failed: " +:+ Error_ err) now ;;
      returnWith (Some err)
  | None =>
      whenM (in_CertsRotated installer)
        (modifyOut (fun c => setCertTimes c (env_now env NowCerts) (in_CertsRotateAt installer))) ;;
      setPhaseWithEvent CSVPhaseInstalling CSVReasonInstallSuccessful "waiting for install components to report healthy" now ;;
      requeueSelf
  end.

(** [updateDeploymentSpecsWithAPIServiceData], whose error asks for a reinstall. *)
Definition expectedStrategy (strategy : StrategyDetailsDeployment) : M StrategyDetailsDeployment :=
  c ← getOut;
  match env_updateDeploymentSpecs env c strategy with
  | inl _ =>
      setPhaseWithEvent CSVPhasePending CSVReasonNeedsReinstall "calculated deployment install is bad" (env_now env NowTransition) ;;
      returnWith None
  | inr strategy => mret strategy
  end.

Definition fiveMinutes : Time := (5 * 60 * 1000000000)%Z.

Definition installingPhase : M unit :=
  '(installer, strategy) ← parseStrategiesAndUpdateStatus;
  strategy ← expectedStrategy strategy;
  installErr ← updateInstallStatus installer strategy CSVPhaseInstalling CSVReasonWaiting;
  match installErr with
  | Some err =>
      if IsServiceUnavailable (Some err) then returnWith (Some err)
      else
        c ← getOut;
        match st_LastTransitionTime (csv_Status c) with
        | Some t =>
            if (fiveMinutes <=? env_now env NowTimeout - t)%Z then
              setPhaseWithEvent CSVPhaseFailed CSVReasonInstallCheckFailed "install timeout" (env_now env NowTransition) ;;
              returnWith None
            else mret tt
        | None => mret tt
        end
  | None => mret tt
  end.

(** The certificates of owned API services: due for rotation, or not checkable. *)
Definition rotateCerts (installer : Installer) (strategy : StrategyDetailsDeployment) (message : string) : M unit :=
  match in_ShouldRotateCerts installer strategy with
  | inl _ => returnWith None
  | inr true =>
      setPhaseWithEvent CSVPhasePending CSVReasonNeedsCertRotation message (env_now env NowTransition) ;; returnWith None
  | inr false => mret tt
  end.

Definition succeededPhase : M unit :=
  let now := env_now env NowTransition in
  checkReplacementsAndUpdateStatus ;;
  '(installer, strategy) ← parseStrategiesAndUpdateStatus;
  c ← getOut;
  match env_checkAPIServiceResources env c with
  | Some err => setPhaseWithEvent CSVPhaseFailed CSVReasonAPIServiceResourceIssue (Error_ err) now ;; returnWith None
  | None => mret tt
  end ;;
  rotateCerts installer strategy "CSV owns resources that require a cert refresh" ;;
  match requirementAndPermissionStatus (env_cluster env) c with
  | inl err =>
      setPhaseWithEvent CSVPhaseFailed CSVReasonInvalidStrategy ("install strategy invalid: " +:+ Error_ err) now ;;
      returnWith None
  | inr (met, statuses) =>
      if negb met then
        modifyOut (fun c => SetRequirementStatus c statuses) ;;
        setPhaseWithEvent CSVPhaseFailed CSVReasonRequirementsNotMet "requirements no longer met" now ;; returnWith None
      else mret tt
  end ;;
  strategy ← expectedStrategy strategy;
  installErr ← updateInstallStatus installer strategy CSVPhaseFailed CSVReasonComponentUnhealthy;
  match installErr with
  | Some err => returnWith (if IsServiceUnavailable (Some err) then Some err else None)
  | None => mret tt
  end ;;
  c ← getOut;
  act (AEnsureClusterRoles c) ;;
  match env_ensureClusterRoles env c with Some err => returnWith (Some err) | None => mret tt end.

(** [apiServiceResourceErrorActionable]: no error of the aggregate is an [UnadoptableError]. *)
Fixpoint apiServiceResourceErrorActionable (err : error) : bool :=
  match err with
  | ErrUnadoptable _ _ => false
  | ErrAggregate errs => forallb apiServiceResourceErrorActionable errs
  | _ => true
  end.

(** The failure reasons that the checks before the switch have just cleared, with the message
    of the return to Pending. *)
Definition clearedFailure (reason : string) : option string :=
  if bool_decide (reason ∈ [CSVReasonNoTargetNamespaces; CSVReasonNoOperatorGroup; CSVReasonTooManyOperatorGroups;
       CSVReasonUnsupportedOperatorGroup]) then Some "InstallModes now support target namespaces"
  else if bool_decide (reason = CSVReasonInterOperatorGroupOwnerConflict)
  then Some "OperatorGroup no longer intersecting with conflicting owner"
  else if bool_decide (reason = CSVReasonCannotModifyStaticOperatorGroupProvidedAPIs)
  then Some "static OperatorGroup and intersecting groups now support providedAPIs"
  else None.

Definition failForward (operatorGroup : OperatorGroup) : bool :=
  bool_decide (UpgradeStrategy operatorGroup = UpgradeStrategyUnsafeFailForward).

Definition failedPhase (operatorGroup : OperatorGroup) : M unit :=
  let now := env_now env NowTransition in
  c ← getOut;
  (if failForward operatorGroup then
     match IsBeingReplaced (csv_Name c) (csvsIn (csv_Namespace c)) with
     | Some replacement =>
         setPhaseWithEvent CSVPhaseReplacing CSVReasonBeingReplaced
           ("Fail Forward is enabled, allowing " +:+ csv_Phase c +:+ " csv to be replaced by csv: " +:+ csv_Name replacement)
           (env_now env NowFailForward) ;;
         returnWith None
     | None => mret tt
     end
   else mret tt) ;;
  '(installer, strategy) ← parseStrategiesAndUpdateStatus;
  match clearedFailure (csv_Reason c) with
  | Some message =>
      setPhaseWithEvent CSVPhasePending CSVReasonRequirementsUnknown message now ;; returnWith None
  | None => mret tt
  end ;;
  match requirementAndPermissionStatus (env_cluster env) c with
  | inl err =>
      if negb (bool_decide (csv_Reason c = CSVReasonInvalidStrategy)) then
        setPhaseWithEvent CSVPhaseFailed CSVReasonInvalidStrategy ("install strategy invalid: " +:+ Error_ err) now ;;
        returnWith None
      else
        modifyOut (fun c => SetRequirementStatus c []) ;;
        setPhaseWithEvent CSVPhasePending CSVReasonRequirementsNotMet "requirements not met" now ;; returnWith None
  | inr (false, statuses) =>
      modifyOut (fun c => SetRequirementStatus c statuses) ;;
      setPhaseWithEvent CSVPhasePending CSVReasonRequirementsNotMet "requirements not met" now ;; returnWith None
  | inr (true, _) => mret tt
  end ;;
  match env_checkAPIServiceResources env c with
  | Some err =>
      whenM (apiServiceResourceErrorActionable err)
        (setPhaseWithEvent CSVPhasePending CSVReasonAPIServiceResourcesNeedReinstall (Error_ err) now) ;;
      returnWith None
  | None => mret tt
  end ;;
  rotateCerts installer strategy "owned APIServices need cert refresh" ;;
  strategy ← expectedStrategy strategy;
  installErr ← updateInstallStatus installer strategy CSVPhasePending CSVReasonNeedsReinstall;
  match installErr with
  | Some err => if IsServiceUnavailable (Some err) then returnWith (Some err) else mret tt
  | None => mret tt
  end.

Definition errNoReplacement : error := ErrString "marked as replacement, but no replacement CSV found in cluster".

(** The CSV whose success lets this one be deleted: the newest of the chain under
    fail-forward, where a missing replacement is dereferenced. *)
Definition replacingNext (operatorGroup : OperatorGroup) (c : CSV) : M (option CSV) :=
  let next := IsBeingReplaced (csv_Name c) (csvsIn (csv_Namespace c)) in
  if failForward operatorGroup then
    match next with
    | None => panic
    | Some n =>
        match env_listCSVs env (csv_Namespace n) with
        | inl err => returnWith (Some err)
        | inr csvs =>
            let m := ReplacementMapping csvs in
            match WalkReplacementChain (walkFuel m) next m [WithUniqueCSVs ∅] with
            | Some (inr lastCSVInChain) => mret (Some lastCSVInChain)
            | Some (inl err) => returnWith (Some err)
            | None => panic
            end
        end
    end
  else mret next.

Definition replacingPhase (operatorGroup : OperatorGroup) : M unit :=
  c ← getOut;
  match isReplacing ReadLeaf c with
  | Some _ => returnWith None
  | None => mret tt
  end ;;
  next ← replacingNext operatorGroup c;
  match next with
  | Some next =>
      if bool_decide (csv_Phase next = CSVPhaseSucceeded) then
        setPhaseWithEvent CSVPhaseDeleting CSVReasonReplaced
          "has been replaced by a newer ClusterServiceVersion that has successfully installed." (env_now env NowTransition)
      else act (ARequeueCSV (csv_Namespace next) (csv_Name next)) ;; requeueSelf
  | None => returnWith (Some errNoReplacement)
  end.

Definition deletingPhase : M unit :=
  c ← getOut;
  act (ADeleteCSV (csv_Namespace c) (csv_Name c)) ;;
  returnWith (env_deleteCSV env (csv_Namespace c) (csv_Name c)).

Definition phaseHandler (operatorGroup : OperatorGroup) (phase : string) : M unit :=
  if bool_decide (phase = CSVPhaseNone) then nonePhase
  else if bool_decide (phase = CSVPhasePending) then pendingPhase
  else if bool_decide (phase = CSVPhaseInstallReady) then installReadyPhase
  else if bool_decide (phase = CSVPhaseInstalling) then installingPhase
  else if bool_decide (phase = CSVPhaseSucceeded) then succeededPhase
  else if bool_decide (phase = CSVPhaseFailed) then failedPhase operatorGroup
  else if bool_decide (phase = CSVPhaseReplacing) then replacingPhase operatorGroup
  else if bool_decide (phase = CSVPhaseDeleting) then deletingPhase
  else mret tt.

Definition syncBody : M unit :=
  operatorGroup ← prepare;
  c ← getOut;
  phaseHandler operatorGroup (csv_Phase c).

(** The CSV to write back and the sync error, or a panic, with the calls made; a CSV that failed
    for good is not touched. *)
Inductive Outcome :=
  | Skipped
  | Panicked (acts : list Action)
  | Synced (out : CSV) (syncError : option error) (acts : list Action).

Definition transitionCSVState (in_ : CSV) : Outcome :=
  if bool_decide (csv_Reason in_ = CSVReasonComponentFailedNoRetry) then Skipped
  else
    match syncBody (mkSt in_ []) with
    | (s, inl Panic) => Panicked (s_acts s)
    | (s, inl (Return err)) => Synced (s_out s) err (s_acts s)
    | (s, inr _) => Synced (s_out s) None (s_acts s)
    end.
End transition.
