(* ===== verification/CsvLifecycle.v ===== *)
(** * The CSV state machine: invariants, safety, progress

    The theorems about [transitionCSVState] of [CsvTransition]: which phases a sync can move a
    CSV to, the invariants it preserves in every environment, what must have been checked when
    a CSV becomes ready, succeeds or is deleted, when a sync panics, and that a CSV in a healthy
    environment is installed after four syncs and stays so. *)

From S2P Require Import Prelude GoStrings RbacRules OwnerUtil RbacAuthorizer CatalogModel ResolverCache CsvTypes OperatorGroups ReplaceChain Requirements CsvTransition.

#[local] Arguments String.append : simpl nomatch.

(** ** Relations between the state before and after a computation *)

(** [m] relates the CSV it starts with to the CSV it leaves, however it ends. *)
Definition ensures (Rel : CSV -> CSV -> Prop) {A} (m : M A) : Prop := forall s, Rel (s_out s) (s_out (m s).1).

Section ensures.
Context (Rel : CSV -> CSV -> Prop) `{!PreOrder Rel}.

Lemma ensures_ret {A} (x : A) : ensures Rel (mret x).
Proof. intros s. simpl. reflexivity. Qed.
Lemma ensures_bind {A B} (m : M A) (k : A -> M B) : ensures Rel m -> (forall x, ensures Rel (k x)) -> ensures Rel (m ≫= k).
Proof.
  intros Hm Hk s. unfold mbind, M_bind. pose proof (Hm s) as H1. destruct (m s) as [s' [e|x]] eqn:E; [done|].
  etrans; [exact H1|apply Hk].
Qed.
Lemma ensures_returnWith {A} err : ensures Rel (@returnWith A err).
Proof. intros s. simpl. reflexivity. Qed.
Lemma ensures_panic {A} : ensures Rel (@panic A).
Proof. intros s. simpl. reflexivity. Qed.
Lemma ensures_act a : ensures Rel (act a).
Proof. intros s. simpl. reflexivity. Qed.
Lemma ensures_modifyOut f : (forall c, Rel c (f c)) -> ensures Rel (modifyOut f).
Proof. intros Hf s. apply Hf. Qed.
Lemma ensures_whenM b m : ensures Rel m -> ensures Rel (whenM b m).
Proof. destruct b; [done|]. intros _. apply ensures_ret. Qed.

Lemma ensures_getOut : ensures Rel getOut.
Proof. intros s. simpl. reflexivity. Qed.

Lemma ensures_foldl {A} (f : A -> M unit) (l : list A) :
  (forall x, ensures Rel (f x)) -> ensures Rel (foldl (fun m x => m ;; f x) (mret tt) l).
Proof.
  intros Hf. induction l as [|x l IH] using rev_ind; [apply ensures_ret|].
  rewrite foldl_app. simpl. by apply ensures_bind.
Qed.
End ensures.

(** What a sync does not write: the object, the spec, and the annotations other than those that name the operator group. *)
Record keeps (c c' : CSV) : Prop := {
  ke_obj : csv_obj c' = csv_obj c;
  ke_spec : csv_Spec c' = csv_Spec c;
  ke_annotations : forall k, k ∉ groupAnnotationKeys -> annotation (csv_Annotations c') k = annotation (csv_Annotations c) k;
}.
#[export] Instance keeps_preorder : PreOrder keeps.
Proof.
  split; [done|]. intros a b c [? ? Hb] [? ? Hc]. split; [congruence..|]. intros k Hk. by rewrite Hc, Hb.
Qed.

(** What every computation of a sync preserves: that, and a well-formed history. *)
Definition evolves (c c' : CSV) : Prop := keeps c c' /\ (history_ok (csv_Status c) -> history_ok (csv_Status c')).

#[export] Instance evolves_preorder : PreOrder evolves.
Proof. split; [by split|]. intros a b c [Hk Hab] [Hk' Hbc]. split; [by etrans|auto]. Qed.

(** The phase changes to one of [L] or not at all. *)
Definition phase_in (L : list string) (c c' : CSV) : Prop := csv_Phase c' = csv_Phase c \/ csv_Phase c' ∈ L.

#[export] Instance phase_in_preorder L : PreOrder (phase_in L).
Proof. split; [by left|]. intros a b c [E|Hb] [E'|Hc]; unfold phase_in; rewrite ?E'; auto. Qed.

(** Both at once. *)
Definition moves (L : list string) (c c' : CSV) : Prop := evolves c c' /\ phase_in L c c'.
#[export] Instance moves_preorder L : PreOrder (moves L).
Proof. split; [split; reflexivity|]. intros a b c [? ?] [? ?]. split; etrans; eauto. Qed.

Lemma moves_weaken L L' {A} (m : M A) : (forall p, p ∈ L -> p ∈ L') -> ensures (moves L) m -> ensures (moves L') m.
Proof. intros HL Hm s. destruct (Hm s) as [He [Hp|Hp]]; (split; [done|]); [by left|right; auto]. Qed.

Lemma SetPhase_moves c phase reason message now : moves [phase] c (SetPhase c phase reason message now).
Proof.
  split.
  - split_and!; try done. intros Hh. by apply (status_step_history c); [constructor|].
  - right. apply list_elem_of_singleton. unfold csv_Phase, SetPhase. simpl.
    by destruct (setPhaseStatus_fields phase reason message now (csv_Status c)).
Qed.

Lemma setPhaseWithEvent_moves L phase reason message now :
  phase ∈ L -> ensures (moves L) (setPhaseWithEvent phase reason message now).
Proof.
  intros HL. apply (moves_weaken [phase]); [intros p ->%list_elem_of_singleton; exact HL|].
  intros s. simpl. apply SetPhase_moves.
Qed.

Lemma setPhaseIfChanged_moves L phase reason message now :
  phase ∈ L -> ensures (moves L) (setPhaseIfChanged phase reason message now).
Proof.
  intros HL. apply (moves_weaken [phase]); [intros p ->%list_elem_of_singleton; exact HL|].
  intros s. unfold setPhaseIfChanged, SetPhaseWithEventIfChanged.
  destruct (_ && _ && _); simpl; [reflexivity|apply SetPhase_moves].
Qed.

Lemma SetRequirementStatus_moves L c statuses : moves L c (SetRequirementStatus c statuses).
Proof. split; [|by left]. split_and!; try done. apply history_ok_requirements. Qed.
Lemma setCertTimes_moves L c u r : moves L c (setCertTimes c u r).
Proof. split; [|by left]. split_and!; try done. apply history_ok_certs. Qed.

Create HintDb lifecycle discriminated.
#[export] Hint Resolve SetRequirementStatus_moves setCertTimes_moves : lifecycle.

(** The membership of a constant in a constant list. *)
Ltac in_list := solve [repeat (first [apply list_elem_of_here | apply list_elem_of_further])].

(** Follow a computation, every branch of it. *)
Ltac moves_step :=
  match goal with
  | |- forall _, _ => intros ?
  | |- ensures _ (mbind _ _) => apply ensures_bind; [apply moves_preorder| |]
  | |- ensures _ (mret _) => apply ensures_ret; apply moves_preorder
  | |- ensures _ (returnWith _) => apply ensures_returnWith; apply moves_preorder
  | |- ensures _ panic => apply ensures_panic; apply moves_preorder
  | |- ensures _ (act _) => apply ensures_act; apply moves_preorder
  | |- ensures _ getOut => apply ensures_getOut; apply moves_preorder
  | |- ensures _ (whenM _ _) => apply ensures_whenM; [apply moves_preorder|]
  | |- ensures _ (modifyOut _) => apply ensures_modifyOut; auto with lifecycle
  | |- ensures _ (setPhaseWithEvent _ _ _ _) => apply setPhaseWithEvent_moves; in_list
  | |- ensures _ (setPhaseIfChanged _ _ _ _) => apply setPhaseIfChanged_moves; in_list
  | |- ensures _ (foldl _ _ _) => apply ensures_foldl; [apply moves_preorder|]
  | |- ensures _ (match ?x with _ => _ end) => destruct x
  | |- ensures _ (let '(_, _) := ?x in _) => destruct x
  | |- ensures _ _ => solve [auto with lifecycle]
  end.
Ltac solve_moves := repeat moves_step.

Section phases.
Context `{RangeOrder, RequirementLib} (env : Env).

Lemma cleanup_moves L : ensures (moves L) cleanupCSVDeployments.
Proof. unfold cleanupCSVDeployments. solve_moves. Qed.

Lemma group_annotations_moves L og c :
  moves L c (mkCSV (csv_obj c) (setOperatorGroupAnnotations (csv_Annotations c) og true) (csv_Spec c) (csv_Status c)).
Proof.
  split; [|by left]. split; [|done]. split; [done..|]. intros k Hk. unfold groupAnnotationKeys in Hk.
  rewrite !not_elem_of_union, !not_elem_of_singleton in Hk. unfold setOperatorGroupAnnotations, SetMetaDataAnnotation.
  destruct (_ && _); cbn [csv_Annotations annotation default from_option id]; unfold annotation; cbn [default from_option id];
    by rewrite !lookup_insert_ne by (intros <-; tauto).
Qed.
#[local] Hint Resolve cleanup_moves group_annotations_moves : lifecycle.

Lemma operatorGroupForCSV_moves : ensures (moves [CSVPhaseFailed]) (operatorGroupForCSV env).
Proof. unfold operatorGroupForCSV. solve_moves. Qed.

Lemma ensureInstallModes_moves : ensures (moves [CSVPhaseFailed]) (ensureInstallModes env).
Proof. unfold ensureInstallModes. solve_moves. Qed.

Lemma ensureProvidedAPIs_moves surface og : ensures (moves [CSVPhaseFailed]) (ensureProvidedAPIs env surface og).
Proof. unfold ensureProvidedAPIs, failForAPIs, requeueSelf. solve_moves. Qed.
#[local] Hint Resolve operatorGroupForCSV_moves ensureInstallModes_moves ensureProvidedAPIs_moves : lifecycle.

(** The labeler has no case for the pointer it is given, so that no label is ever added. *)
Lemma prepare_moves : ensures (moves [CSVPhaseFailed]) (prepare env).
Proof. unfold prepare. simpl LabelSetsFor. cbv iota. solve_moves. Qed.

Lemma parseStrategies_moves L : CSVPhaseFailed ∈ L -> ensures (moves L) (parseStrategiesAndUpdateStatus env).
Proof.
  intros HL. apply (moves_weaken [CSVPhaseFailed]); [intros p ->%list_elem_of_singleton; exact HL|].
  unfold parseStrategiesAndUpdateStatus. solve_moves.
Qed.

Lemma updateInstallStatus_moves L installer strategy requeuePhase reason :
  (forall p, p ∈ [CSVPhaseSucceeded; CSVPhaseFailed; CSVPhaseInstallReady; requeuePhase] -> p ∈ L) ->
  ensures (moves L) (updateInstallStatus env installer strategy requeuePhase reason).
Proof.
  intros HL. apply (moves_weaken [CSVPhaseSucceeded; CSVPhaseFailed; CSVPhaseInstallReady; requeuePhase]); [exact HL|].
  unfold updateInstallStatus. solve_moves.
Qed.

End phases.
#[export] Hint Resolve cleanup_moves operatorGroupForCSV_moves ensureInstallModes_moves ensureProvidedAPIs_moves : lifecycle.

(** The phases a sync can leave a CSV in, by the phase it was in; every phase can be kept. *)
Definition targets (phase : string) : list string :=
  if bool_decide (phase = CSVPhaseNone) then [CSVPhasePending]
  else if bool_decide (phase = CSVPhasePending) then [CSVPhaseFailed; CSVPhaseInstallReady]
  else if bool_decide (phase = CSVPhaseInstallReady) then [CSVPhaseFailed; CSVPhaseInstalling]
  else if bool_decide (phase = CSVPhaseInstalling)
  then [CSVPhaseFailed; CSVPhasePending; CSVPhaseSucceeded; CSVPhaseInstallReady]
  else if bool_decide (phase = CSVPhaseSucceeded)
  then [CSVPhaseFailed; CSVPhasePending; CSVPhaseInstallReady; CSVPhaseReplacing]
  else if bool_decide (phase = CSVPhaseFailed)
  then [CSVPhasePending; CSVPhaseInstallReady; CSVPhaseSucceeded; CSVPhaseReplacing]
  else if bool_decide (phase = CSVPhaseReplacing) then [CSVPhaseDeleting]
  else [].

Ltac handler :=
  repeat match goal with
  | |- ensures _ (parseStrategiesAndUpdateStatus _) => apply parseStrategies_moves; in_list
  | |- ensures _ (updateInstallStatus _ _ _ _ _) =>
      apply updateInstallStatus_moves;
      intros ? [->|[->|[->|[->|?%elem_of_nil]%elem_of_cons]%elem_of_cons]%elem_of_cons]%elem_of_cons; [in_list..|done]
  | _ => moves_step
  end.

Lemma phaseHandler_moves `{RangeOrder, RequirementLib} env og phase :
  ensures (moves (phase :: targets phase)) (phaseHandler env og phase).
Proof.
  unfold phaseHandler, targets.
  repeat case_bool_decide; subst; try (apply ensures_ret; apply moves_preorder).
  - unfold nonePhase. handler.
  - unfold pendingPhase, ownerConflict. handler.
  - unfold installReadyPhase, requeueSelf. handler.
  - unfold installingPhase, expectedStrategy. handler.
  - unfold succeededPhase, checkReplacementsAndUpdateStatus, expectedStrategy, rotateCerts. handler.
  - unfold failedPhase, expectedStrategy, rotateCerts. handler.
  - unfold replacingPhase, replacingNext, requeueSelf. handler.
  - unfold deletingPhase. handler.
Qed.

(** ** Syncs *)

Section syncs.
Context `{RangeOrder, RequirementLib}.

(** When the checks before the switch let a CSV through, and with which operator group. *)
Record admitted (env : Env) (c : CSV) (og : OperatorGroup) : Prop := {
  ad_surface : exists surface groups,
    apiSurfaceOfCSV c = inr surface /\ env_allGroups env = inr groups /\
    let apis := StripPlural (os_ProvidedAPIs surface) in
    let r := ReconcileAPIIntersection apis (NewOperatorGroup og) (NewOperatorGroupSurfaces (otherGroups og groups)) in
    r = NoAPIConflict \/
    (r = AddAPIs /\ og_StaticProvidedAPIs og = false /\
     default "" (annotation (og_Annotations og) OperatorGroupProvidedAPIsAnnotationKey)
       = APISet_String (Union (gs_providedAPIs (NewOperatorGroup og)) [apis]));
  ad_group : env_groupsIn env (csv_Namespace c) = inr [og];
  ad_member : operatorGroupAnnotationsDiffer (csv_Annotations c) og = false;
  ad_modes : exists set targets, NewInstallModeSet (spec_InstallModes (csv_Spec c)) = inr set /\
    annotation (csv_Annotations c) OperatorGroupTargetsAnnotationKey = Some targets /\
    Supports set (csv_Namespace c) (Split ","%char targets) = None;
}.

(** A computation that ends normally has not changed the state. *)
Definition pure_if_done {A} (m : M A) : Prop := forall s s' x, m s = (s', inr x) -> s' = s.

Lemma bind_done {A B} (m : M A) (k : A -> M B) s s' y :
  (m ≫= k) s = (s', inr y) <-> exists s1 x, m s = (s1, inr x) /\ k x s1 = (s', inr y).
Proof.
  unfold mbind, M_bind. destruct (m s) as [s1 [e|x]]; split; try naive_solver.
Qed.

Lemma getOut_bind {B} (k : CSV -> M B) s : (getOut ≫= k) s = k (s_out s) s.
Proof. reflexivity. Qed.

Lemma mret_done {A} (x y : A) s s' : @mret M _ A x s = (s', inr y) <-> s' = s /\ y = x.
Proof. unfold mret, M_ret. split; [by intros [= -> ->]|by intros [-> ->]]. Qed.

Lemma returnWith_done {A} err s s' (x : A) : returnWith err s = (s', inr x) -> False.
Proof. discriminate. Qed.

Lemma panic_done {A} s s' (x : A) : panic s = (s', inr x) -> False.
Proof. discriminate. Qed.

Lemma seq_exit {A} (m : M unit) err s s' (x : A) : (m ;; returnWith err) s = (s', inr x) -> False.
Proof. intros (s1 & [] & _ & Hr)%bind_done. discriminate Hr. Qed.

Lemma operatorGroupForCSV_done env s s' og :
  operatorGroupForCSV env s = (s', inr og) <->
  s' = s /\ env_groupsIn env (csv_Namespace (s_out s)) = inr [og] /\
  operatorGroupAnnotationsDiffer (csv_Annotations (s_out s)) og = false.
Proof.
  unfold operatorGroupForCSV. rewrite getOut_bind.
  destruct (env_groupsIn env _) as [e|[|g [|g' gs]]] eqn:Eg.
  - split; [by intros ?%returnWith_done|]. by intros (_ & ? & _).
  - split; [by intros ?%seq_exit|]. by intros (_ & ? & _).
  - destruct (operatorGroupAnnotationsDiffer _ g) eqn:Ed.
    + split; [|intros (_ & [= <-] & ?); congruence].
      intros (s1 & [] & _ & (s2 & c & _ & (s3 & [] & _ & Hm)%bind_done)%bind_done)%bind_done.
      destruct (env_updateCSV env c); [by apply returnWith_done in Hm|]. apply bind_done in Hm as (s4 & [] & _ & Hm). by apply seq_exit in Hm.
    + simpl. split; [intros [= <- <-]; done|]. intros (-> & [= <-] & _). done.
  - split; [by intros ?%seq_exit|]. by intros (_ & ? & _).
Qed.

Lemma ensureInstallModes_done env s s' :
  ensureInstallModes env s = (s', inr tt) <->
  s' = s /\ exists set targets, NewInstallModeSet (spec_InstallModes (csv_Spec (s_out s))) = inr set /\
    annotation (csv_Annotations (s_out s)) OperatorGroupTargetsAnnotationKey = Some targets /\
    Supports set (csv_Namespace (s_out s)) (Split ","%char targets) = None.
Proof.
  unfold ensureInstallModes. rewrite getOut_bind.
  destruct (NewInstallModeSet _) as [e|set] eqn:Es; [split; [by intros ?%seq_exit|by intros (_ & ? & ? & ? & _)]|].
  destruct (annotation _ _) as [t|] eqn:Ea; [|split; [by intros ?%seq_exit|by intros (_ & ? & ? & _ & ? & _)]].
  destruct (Supports set _ _) as [e|] eqn:Eu.
  - split; [by intros ?%seq_exit|]. intros (_ & ? & ? & [= <-] & [= <-] & ?). congruence.
  - simpl. split; [intros [= <-]; split; [done|]; eauto|by intros [-> _]].
Qed.

Lemma ensureProvidedAPIs_done env surface og s s' :
  ensureProvidedAPIs env surface og s = (s', inr tt) <->
  s' = s /\ exists groups, env_allGroups env = inr groups /\
    let apis := StripPlural (os_ProvidedAPIs surface) in
    let r := ReconcileAPIIntersection apis (NewOperatorGroup og) (NewOperatorGroupSurfaces (otherGroups og groups)) in
    r = NoAPIConflict \/
    (r = AddAPIs /\ og_StaticProvidedAPIs og = false /\
     default "" (annotation (og_Annotations og) OperatorGroupProvidedAPIsAnnotationKey)
       = APISet_String (Union (gs_providedAPIs (NewOperatorGroup og)) [apis])).
Proof.
  unfold ensureProvidedAPIs. destruct (env_allGroups env) as [e|groups]; [split; [by intros ?%returnWith_done|by intros (_ & ? & ? & _)]|].
  cbv zeta. set (r := ReconcileAPIIntersection _ _ _).
  assert (forall reason msg, failForAPIs env reason msg s <> (s', inr tt)) as Hfail.
  { intros reason msg. unfold failForAPIs. intros (s1 & c & _ & Hx)%bind_done. by apply seq_exit in Hx. }
  assert (forall a err, (act a ;; requeueSelf ;; returnWith err) s <> (s', inr tt)) as Hupd.
  { intros a err (s1 & [] & _ & Hx)%bind_done. by apply seq_exit in Hx. }
  assert (forall P : Prop, (exists groups', (inr groups : error + list OperatorGroup) = inr groups' /\
    P) <-> P) as Hex by (intros P; split; [by intros (? & _ & ?)|eauto]).
  destruct (og_StaticProvidedAPIs og && _) eqn:Est.
  { apply andb_true_iff in Est as [Hst Hr]. apply orb_true_iff in Hr. split; [by intros ?%Hfail|].
    intros (_ & ? & [= <-] & [Hr'|(_ & ? & _)]); [|congruence]. change (r = NoAPIConflict) in Hr'.
    rewrite Hr' in Hr. by destruct Hr. }
  assert (og_StaticProvidedAPIs og = false \/ (r <> AddAPIs /\ r <> RemoveAPIs)) as Hst.
  { apply andb_false_iff in Est as [?|Hr]; [by left|]. apply orb_false_iff in Hr as [? ?]. bools. by right. }
  destruct r eqn:Er; subst r.
  - split; [|intros (_ & ? & [= <-] & [?|(? & _)]); congruence]. destruct (og_Annotations og).
    + by intros ?%Hupd.
    + by intros ?%seq_exit.
  - clear Est. case_bool_decide as Ha.
    + rewrite mret_done. split; [intros [-> _]|by intros [-> _]]. split; [done|]. exists groups. split; [done|]. right.
      split_and!; [done|by destruct Hst as [?|[]]|]. done.
    + split; [by intros ?%Hupd|]. intros (_ & ? & [= <-] & [?|(_ & _ & ?)]); [congruence|]. done.
  - split; [by intros ?%Hfail|]. intros (_ & ? & [= <-] & [?|(? & _)]); congruence.
  - rewrite mret_done. split; [intros [-> _]|by intros [-> _]]. split; [done|]. exists groups. split; [done|]. by left.
Qed.

(** The checks pass exactly for admitted CSVs, and change nothing then. *)
Lemma prepare_done env s s' og : prepare env s = (s', inr og) <-> s' = s /\ admitted env (s_out s) og.
Proof.
  unfold prepare. rewrite getOut_bind. destruct (apiSurfaceOfCSV (s_out s)) as [e|surface] eqn:Es.
  { split; [by intros ?%returnWith_done|]. intros [_ [(? & ? & ? & _) _ _ _]]. congruence. }
  simpl LabelSetsFor. cbv iota. split.
  - intros (s0 & [] & [= <-] & (s1 & og' & (-> & Hg & Hm)%operatorGroupForCSV_done & Hr)%bind_done)%bind_done.
    apply bind_done in Hr as (s2 & [] & (-> & set & t & Hset & Ht & Hsup)%ensureInstallModes_done & Hr).
    apply bind_done in Hr as (s3 & [] & (-> & groups & Hgr & Hrec)%ensureProvidedAPIs_done & [= <- <-]).
    split; [done|]. split; [by exists surface, groups|done|done|by exists set, t].
  - intros (-> & [(surface' & groups & Hsf & Hgr & Hrec) Hg Hm (set & t & Hset & Ht & Hsup)]).
    assert (surface' = surface) as -> by congruence.
    apply bind_done. exists s, tt. split; [done|]. apply bind_done. exists s, og.
    split; [by apply operatorGroupForCSV_done|]. apply bind_done. exists s, tt.
    split; [apply ensureInstallModes_done; split; [done|]; eauto|]. apply bind_done. exists s, tt.
    split; [apply ensureProvidedAPIs_done; split; [done|]; eauto|done].
Qed.
End syncs.

(** ** Entering a phase *)

(** [m] takes the CSV from another phase into [p]. *)
Definition enters {A} (p : string) (m : M A) (s : St) : Prop :=
  csv_Phase (s_out s) <> p /\ csv_Phase (s_out (m s).1) = p.

Lemma enters_not {A} p L (m : M A) s : ensures (moves L) m -> p ∉ L -> ~ enters p m s.
Proof. intros Hm Hp [H1 H2]. destruct (Hm s) as [_ [H3|H3]]; congruence. Qed.

(** What cannot enter the phase itself must end normally for the rest to enter it. *)
Lemma enters_bind {A B} p L (m : M A) (k : A -> M B) s :
  ensures (moves L) m -> p ∉ L -> enters p (m ≫= k) s -> exists s1 x, m s = (s1, inr x) /\ enters p (k x) s1.
Proof.
  intros Hm Hp [H1 H2]. assert (csv_Phase (s_out (m s).1) <> p) as H3.
  { intros E. by apply (enters_not p L m s). }
  unfold mbind, M_bind in H2. destruct (m s) as [s1 [e|x]] eqn:Em; [done|]. exists s1, x. by repeat split.
Qed.

Lemma enters_split {A B} p (m : M A) (k : A -> M B) s :
  enters p (m ≫= k) s -> enters p m s \/ exists s1 x, m s = (s1, inr x) /\ enters p (k x) s1.
Proof.
  intros [H1 H2]. unfold enters at 1. destruct (decide (csv_Phase (s_out (m s).1) = p)) as [|Hp]; [by left|right].
  unfold mbind, M_bind in H2. destruct (m s) as [s1 [e|x]] eqn:Em; [done|]. exists s1, x. by repeat split.
Qed.

Lemma enters_getOut {B} p (k : CSV -> M B) s : enters p (getOut ≫= k) s <-> enters p (k (s_out s)) s.
Proof. done. Qed.
Lemma enters_mret {A} p (x : A) s : ~ enters p (mret x) s.
Proof. intros [H1 H2]. by apply H1. Qed.
Lemma enters_returnWith {A} p err s : ~ enters p (@returnWith A err) s.
Proof. intros [H1 H2]. by apply H1. Qed.

(** The phase that was set. *)
Lemma setPhaseWithEvent_phase phase reason message now s :
  csv_Phase (s_out (setPhaseWithEvent phase reason message now s).1) = phase.
Proof. simpl. unfold csv_Phase, SetPhase. simpl. by destruct (setPhaseStatus_fields phase reason message (Some now) (csv_Status (s_out s))). Qed.

Lemma setPhaseIfChanged_phase phase reason message now s :
  csv_Phase (s_out (setPhaseIfChanged phase reason message now s).1) = phase.
Proof.
  unfold setPhaseIfChanged, SetPhaseWithEventIfChanged.
  destruct (_ && _ && _) eqn:E; [|apply setPhaseWithEvent_phase]. simpl.
  apply andb_true_iff in E as [[E _]%andb_true_iff _]. by bools.
Qed.

Lemma bind_ok {A B} (m : M A) (k : A -> M B) s s1 x : m s = (s1, inr x) -> (m ≫= k) s = k x s1.
Proof. unfold mbind, M_bind. by intros ->. Qed.

(** A constant is not in a constant list. *)
Ltac not_in_list := refine (bool_decide_eq_true_1 _ _); vm_compute; reflexivity.
(** The hypothesis enters a phase that none of its branches can set. *)
Ltac never_enters L :=
  match goal with He : enters _ _ _ |- _ => exfalso; revert He; apply (enters_not _ L); [handler|not_in_list] end.
(** The first part of the hypothesis cannot enter the phase, so that it has ended normally. *)
Ltac enters_past L He s1 x Hm :=
  apply (enters_bind _ L) in He as (s1 & x & Hm & He); [|handler|not_in_list].

(** Two CSVs that differ in their status only. *)
Definition same_config (c c' : CSV) : Prop :=
  csv_obj c' = csv_obj c /\ csv_Annotations c' = csv_Annotations c /\ csv_Spec c' = csv_Spec c.

#[export] Instance same_config_equiv : Equivalence same_config.
Proof. split; unfold same_config; red; intros; naive_solver congruence. Qed.

Lemma setPhase_fields c phase reason message now :
  csv_Phase (SetPhase c phase reason message now) = phase /\ csv_Reason (SetPhase c phase reason message now) = reason /\
  same_config c (SetPhase c phase reason message now).
Proof.
  unfold csv_Phase, csv_Reason, SetPhase. simpl.
  by destruct (setPhaseStatus_fields phase reason message now (csv_Status c)) as (-> & -> & _).
Qed.

Lemma SetRequirementStatus_same c statuses : same_config c (SetRequirementStatus c statuses).
Proof. done. Qed.

Section entering.
Context `{RangeOrder, RequirementLib} (env : Env).

(** What a pending CSV needs to be installed. *)
Record ready (c : CSV) : Prop := {
  rd_upgradeable : forall prev, isReplacing env ReadUpgradeable c = Some prev ->
    isOperatorUpgradeable (env_cluster env) prev = None;
  rd_requirements : exists statuses, requirementAndPermissionStatus (env_cluster env) c = inr (true, statuses);
  rd_webhooks : invalidWebhook ∅ (spec_WebhookDefinitions (csv_Spec c)) = None;
  rd_crds : crdOwnerConflicts c (csvsIn env (csv_Namespace c)) = None;
  rd_apis : apiServiceOwnerConflicts (env_cluster env) c = None;
  rd_previous : forall prev, isReplacing env ReadReady c = Some prev -> csv_Phase prev = CSVPhaseReplacing;
}.

Lemma pendingPhase_ready s : enters CSVPhaseInstallReady (pendingPhase env) s -> ready (s_out s).
Proof.
  unfold pendingPhase, ownerConflict. cbv zeta. rewrite enters_getOut. set (c := s_out s). intros He.
  enters_past [CSVPhasePending] He s1 x1 H1.
  assert (forall prev, isReplacing env ReadUpgradeable c = Some prev ->
    isOperatorUpgradeable (env_cluster env) prev = None) as Hup.
  { intros prev Hp. rewrite Hp in H1. destruct (isOperatorUpgradeable _ prev); [|done]. by apply seq_exit in H1. }
  destruct (requirementAndPermissionStatus _ c) as [e|[met sts]] eqn:Hreq; [never_enters [CSVPhaseFailed]|].
  enters_past (@nil string) He s2 x2 H2. enters_past (@nil string) He s3 x3 H3.
  destruct met; simpl in He; [|never_enters [CSVPhasePending]].
  destruct (invalidWebhook _ _) eqn:Hw; [never_enters [CSVPhaseFailed]|].
  destruct (crdOwnerConflicts _ _) eqn:Hc; [never_enters [CSVPhaseFailed]|].
  destruct (apiServiceOwnerConflicts _ _) eqn:Ha; [never_enters [CSVPhaseFailed]|].
  enters_past (@nil string) He s4 x4 H4. split; try done; [by eexists|].
  intros prev Hp. rewrite Hp in H4. case_bool_decide as Hr; [done|]. by apply returnWith_done in H4.
Qed.

Lemma pendingPhase_enters s :
  ready (s_out s) -> exists s', pendingPhase env s = (s', inr tt) /\ csv_Phase (s_out s') = CSVPhaseInstallReady /\
    csv_Reason (s_out s') = CSVReasonRequirementsMet /\ same_config (s_out s) (s_out s').
Proof.
  intros [Hup [sts Hreq] Hw Hc Ha Hp].
  unfold pendingPhase. cbv zeta. rewrite getOut_bind.
  erewrite bind_ok; [|by destruct (isReplacing env ReadUpgradeable _) as [prev|]; [rewrite (Hup prev)|]].
  rewrite Hreq. erewrite bind_ok; [|reflexivity].
  match goal with |- context [(?b ≫= _) ?s1] => assert (exists s2, b s1 = (s2, inr tt) /\ s_out s2 = s_out s1) as (s2 & H2 & Ho) end.
  { destruct (isReplacing env ReadRequeue _) as [prev|]; [|by eexists]. unfold whenM. case_bool_decide; by eexists. }
  rewrite (bind_ok _ _ _ _ _ H2). cbn [negb]. rewrite Hw, Hc, Ha.
  erewrite bind_ok.
  - eexists. split; [reflexivity|].
    destruct (setPhase_fields (s_out s2) CSVPhaseInstallReady CSVReasonRequirementsMet
      "all requirements found, attempting install" (Some (env_now env NowTransition))) as (H3 & H4 & H5).
    split_and!; [done|done|]. etrans; [apply (SetRequirementStatus_same (s_out s) sts)|]. simpl in Ho. by rewrite <-Ho.
  - destruct (isReplacing env ReadReady _) as [prev|]; [|reflexivity]. rewrite (Hp prev) by done. reflexivity.
Qed.

(** What has happened when a CSV that is being replaced may go: it replaces nothing, or the CSV it replaces could not
    be read, and its replacement, or under fail-forward the newest CSV of the chain, has succeeded. *)
Record superseded (og : OperatorGroup) (c next : CSV) : Prop := {
  su_leaf : csv_Replaces c = "" \/ exists err, env_getCSV env ReadLeaf (csv_Namespace c) (csv_Replaces c) = inl err;
  su_next : exists n, IsBeingReplaced (csv_Name c) (csvsIn env (csv_Namespace c)) = Some n /\
    if failForward og
    then exists csvs, env_listCSVs env (csv_Namespace n) = inr csvs /\
      rtc (link (ReplacementMapping csvs)) n next /\ terminal (ReplacementMapping csvs) next
    else next = n;
  su_succeeded : csv_Phase next = CSVPhaseSucceeded;
}.

Lemma isReplacing_none r c :
  isReplacing env r c = None <-> csv_Replaces c = "" \/ exists err, env_getCSV env r (csv_Namespace c) (csv_Replaces c) = inl err.
Proof.
  unfold isReplacing, IsReplacing. case_bool_decide as He; [by split; [left|]|].
  destruct (env_getCSV _ _ _ _) as [err|prev]; split; [by right; exists err|done..|]. intros [?|[err ?]]; done.
Qed.

Lemma replacingNext_done og c s s' next :
  replacingNext env og c s = (s', inr (Some next)) ->
  exists n, IsBeingReplaced (csv_Name c) (csvsIn env (csv_Namespace c)) = Some n /\
    if failForward og
    then exists csvs, env_listCSVs env (csv_Namespace n) = inr csvs /\
      rtc (link (ReplacementMapping csvs)) n next /\ terminal (ReplacementMapping csvs) next
    else next = n.
Proof.
  unfold replacingNext. cbv zeta. destruct (failForward og).
  - destruct (IsBeingReplaced _ _) as [n|]; [|by intros ?%panic_done].
    destruct (env_listCSVs _ _) as [e|csvs] eqn:El; [by intros ?%returnWith_done|].
    destruct (WalkReplacementChain _ _ _ _) as [[e|last]|] eqn:Ew; [by intros ?%returnWith_done| |by intros ?%panic_done].
    intros [_ [= <-]]%mret_done. exists n. split; [done|]. exists csvs. split; [done|]. by eapply walk_end_sound.
  - intros [_ Hn]%mret_done. exists next. by rewrite <-Hn.
Qed.

Lemma replacingPhase_superseded og s :
  enters CSVPhaseDeleting (replacingPhase env og) s -> exists next, superseded og (s_out s) next.
Proof.
  unfold replacingPhase, requeueSelf. rewrite enters_getOut. intros He.
  enters_past (@nil string) He s1 x1 H1.
  assert (isReplacing env ReadLeaf (s_out s) = None) as Hl.
  { destruct (isReplacing env ReadLeaf _); [|done]. by apply returnWith_done in H1. }
  apply (enters_bind _ []) in He as (s2 & next & H2 & He); [|unfold replacingNext; handler|not_in_list].
  destruct next as [next|]; [|by apply enters_returnWith in He].
  destruct (bool_decide (csv_Phase next = _)) eqn:Hs; [|never_enters (@nil string)]. bools.
  exists next. split; [by apply isReplacing_none|by eapply replacingNext_done|done].
Qed.

Lemma superseded_enters og s next :
  superseded og (s_out s) next -> exists s', replacingPhase env og s = (s', inr tt) /\ csv_Phase (s_out s') = CSVPhaseDeleting.
Proof.
  intros [Hl%isReplacing_none (n & Hn & Hx) Hs]. unfold replacingPhase. rewrite getOut_bind, Hl.
  erewrite bind_ok by reflexivity. assert (replacingNext env og (s_out s) s = (s, inr (Some next))) as Hr.
  { unfold replacingNext. cbv zeta. rewrite Hn. destruct (failForward og); [|by subst].
    destruct Hx as (csvs & -> & Hw & Ht). unfold WalkReplacementChain. by rewrite (walk_to_end _ _ _ Hw Ht). }
  erewrite bind_ok by exact Hr. cbv beta iota. rewrite (bool_decide_true (csv_Phase next = _)) by done. eexists. split; [reflexivity|].
  by destruct (setPhase_fields (s_out s) CSVPhaseDeleting CSVReasonReplaced
    "has been replaced by a newer ClusterServiceVersion that has successfully installed." (Some (env_now env NowTransition))).
Qed.

(** The chain is walked to its end within the fuel, so that the only panic is the missing
    replacement. *)
Lemma replacingNext_panics og c s :
  (replacingNext env og c s).2 = inl Panic <->
  failForward og = true /\ IsBeingReplaced (csv_Name c) (csvsIn env (csv_Namespace c)) = None.
Proof.
  unfold replacingNext. cbv zeta. destruct (failForward og); [|by split; [|intros []]].
  destruct (IsBeingReplaced _ _) as [n|]; [|by split].
  split; [|by intros []]. destruct (env_listCSVs _ _) as [e|csvs]; [done|]. unfold WalkReplacementChain.
  destruct (walk_terminates (ReplacementMapping csvs) (walkFuel (ReplacementMapping csvs)) n [WithUniqueCSVs ∅] ∅) as [r ->].
  - apply list_elem_of_here.
  - rewrite difference_empty_L, size_dom. unfold walkFuel. lia.
  - by destruct r.
Qed.

(** Everything is installed: the components of the strategy, API services and webhooks. *)
Record installed (c : CSV) : Prop := {
  is_components : exists strategy strategy' previous err,
    UnmarshalStrategy (spec_InstallStrategy (csv_Spec c)) = inr strategy /\
    env_updateDeploymentSpecs env c strategy = inr strategy' /\
    in_CheckInstalled (env_installer env c previous) strategy' = (true, err);
  is_apiServices : areAPIServicesAvailable (env_cluster env) c = inr true;
  is_webhooks : env_areWebhooksAvailable env c = inr true;
}.

Lemma parseStrategies_done s s1 installer strategy :
  parseStrategiesAndUpdateStatus env s = (s1, inr (installer, strategy)) ->
  s_out s1 = s_out s /\ UnmarshalStrategy (spec_InstallStrategy (csv_Spec (s_out s))) = inr strategy /\
  exists previous, installer = env_installer env (s_out s) previous.
Proof.
  unfold parseStrategiesAndUpdateStatus. rewrite getOut_bind.
  destruct (UnmarshalStrategy _) as [e|str]; [by intros ?%seq_exit|].
  intros (s2 & prev & H2 & H3)%bind_done. assert (s_out s2 = s_out s) as Hs.
  { destruct (isReplacing _ _ _) as [p|]; [|by apply mret_done in H2 as [-> _]].
    apply bind_done in H2 as (s3 & [] & [= <-] & [-> _]%mret_done). done. }
  destruct (env_clientError _ _); [by apply returnWith_done in H3|]. apply mret_done in H3 as [-> [= -> ->]]. eauto.
Qed.

Lemma expectedStrategy_done s s1 strategy strategy' :
  expectedStrategy env strategy s = (s1, inr strategy') -> s1 = s /\ env_updateDeploymentSpecs env (s_out s) strategy = inr strategy'.
Proof.
  unfold expectedStrategy. rewrite getOut_bind.
  destruct (env_updateDeploymentSpecs _ _ _) as [e|str]; [by intros ?%seq_exit|]. by intros [-> ->]%mret_done.
Qed.

Lemma updateInstallStatus_enters installer strategy phase reason s :
  phase <> CSVPhaseSucceeded -> enters CSVPhaseSucceeded (updateInstallStatus env installer strategy phase reason) s ->
  (exists err, in_CheckInstalled installer strategy = (true, err)) /\
  areAPIServicesAvailable (env_cluster env) (s_out s) = inr true /\ env_areWebhooksAvailable env (s_out s) = inr true.
Proof.
  intros Hphase. unfold updateInstallStatus. destruct (in_CheckInstalled installer strategy) as [b err] eqn:Ei. cbv zeta.
  rewrite enters_getOut. destruct (toPair (areAPIServicesAvailable _ _)) as [ba ea] eqn:Ea.
  destruct (toPair (env_areWebhooksAvailable _ _)) as [bw ew] eqn:Ew. destruct (b && ba && bw) eqn:Eb; intros He.
  - apply andb_true_iff in Eb as [[-> ->]%andb_true_iff ->]. split; [by eexists|].
    by destruct (areAPIServicesAvailable _ _), (env_areWebhooksAvailable _ _); simplify_eq/=.
  - exfalso. revert He. apply (enters_not _ [CSVPhaseFailed; CSVPhaseInstallReady; phase]); [handler|].
    intros [?|[?|[?|?%elem_of_nil]%elem_of_cons]%elem_of_cons]%elem_of_cons; [discriminate|discriminate|congruence|done].
Qed.

(** The end of the Installing and Failed phases: what remains to be checked is installed. *)
Lemma checked_installed {A} installer strategy previous phase reason (k : option error -> M A) s :
  phase <> CSVPhaseSucceeded -> installer = env_installer env (s_out s) previous ->
  UnmarshalStrategy (spec_InstallStrategy (csv_Spec (s_out s))) = inr strategy ->
  (forall x, ensures (moves [CSVPhaseFailed]) (k x)) ->
  enters CSVPhaseSucceeded (strategy ← expectedStrategy env strategy; updateInstallStatus env installer strategy phase reason ≫= k) s ->
  installed (s_out s).
Proof.
  intros Hphase -> Hs Hk He. apply (enters_bind _ [CSVPhasePending]) in He as (s1 & str & Hx & He);
    [|unfold expectedStrategy; handler|not_in_list].
  apply expectedStrategy_done in Hx as [-> Hx]. apply enters_split in He as [He|(s2 & x & _ & He)].
  - apply updateInstallStatus_enters in He as ([err Hc] & Ha & Hw); [|done]. split; [|done|done]. by exists strategy, str, previous, err.
  - exfalso. revert He. apply (enters_not _ [CSVPhaseFailed]); [apply Hk|not_in_list].
Qed.

Lemma installingPhase_installed s : enters CSVPhaseSucceeded (installingPhase env) s -> installed (s_out s).
Proof.
  intros He. apply (enters_bind _ [CSVPhaseFailed]) in He as (s1 & [installer strategy] & Hp & He); [|handler|not_in_list].
  apply parseStrategies_done in Hp as (Hs & Hu & previous & ->). rewrite <-Hs in *.
  revert He. eapply checked_installed; [discriminate|done|done|]. intros x. handler.
Qed.

(** A failed CSV recovers only when its requirements are met again as well. *)
Lemma failedPhase_installed og s :
  enters CSVPhaseSucceeded (failedPhase env og) s ->
  installed (s_out s) /\ (exists statuses, requirementAndPermissionStatus (env_cluster env) (s_out s) = inr (true, statuses)) /\
  clearedFailure (csv_Reason (s_out s)) = None /\ env_checkAPIServiceResources env (s_out s) = None.
Proof.
  unfold failedPhase. cbv zeta. rewrite enters_getOut. set (c := s_out s). intros He.
  apply (enters_bind _ [CSVPhaseReplacing]) in He as (s0 & [] & Hz & He); [|handler|not_in_list].
  assert (s_out s0 = c) as Hc.
  { destruct (failForward og); [|by apply mret_done in Hz as [-> _]].
    destruct (IsBeingReplaced _ _); [by apply seq_exit in Hz|by apply mret_done in Hz as [-> _]]. }
  apply (enters_bind _ [CSVPhaseFailed]) in He as (s1 & [installer strategy] & Hp & He); [|handler|not_in_list].
  apply parseStrategies_done in Hp as (Hs & Hu & previous & ->). rewrite Hc in *. clear Hz.
  enters_past [CSVPhasePending] He s2 x2 H2. destruct (clearedFailure _); [by apply seq_exit in H2|].
  apply mret_done in H2 as [-> _]. enters_past [CSVPhasePending; CSVPhaseFailed] He s3 x3 H3.
  assert (s3 = s1 /\ exists statuses, requirementAndPermissionStatus (env_cluster env) c = inr (true, statuses)) as [-> Hreq].
  { destruct (requirementAndPermissionStatus _ _) as [e|[[|] sts]].
    - destruct (negb _); [by apply seq_exit in H3|]. apply bind_done in H3 as (? & ? & _ & H3). by apply seq_exit in H3.
    - apply mret_done in H3 as [-> _]. eauto.
    - apply bind_done in H3 as (? & ? & _ & H3). by apply seq_exit in H3. }
  enters_past [CSVPhasePending] He s4 x4 H4. destruct (env_checkAPIServiceResources _ _); [by apply seq_exit in H4|].
  apply mret_done in H4 as [-> _]. apply (enters_bind _ [CSVPhasePending]) in He as (s5 & x5 & H5 & He);
    [|unfold rotateCerts; handler|not_in_list].
  assert (s5 = s1) as ->.
  { unfold rotateCerts in H5. destruct (in_ShouldRotateCerts _ _) as [e|[|]];
      [by apply returnWith_done in H5|by apply seq_exit in H5|by apply mret_done in H5 as [-> _]]. }
  split_and!; [|done..]. rewrite <-Hs in *. revert He. eapply checked_installed; [discriminate|done|done|].
  intros x. handler.
Qed.
End entering.

(** ** Computations that do not panic *)

Definition noPanic {A} (m : M A) : Prop := forall s, (m s).2 <> inl Panic.

Lemma noPanic_bind {A B} (m : M A) (k : A -> M B) : noPanic m -> (forall x, noPanic (k x)) -> noPanic (m ≫= k).
Proof.
  intros Hm Hk s. specialize (Hm s). unfold mbind, M_bind. destruct (m s) as [s1 [e|x]]; [|apply Hk]. simpl in *. congruence.
Qed.
Lemma noPanic_foldl {A} (f : A -> M unit) (l : list A) :
  (forall x, noPanic (f x)) -> noPanic (foldl (fun m x => m ;; f x) (mret tt) l).
Proof. intros Hf. induction l as [|x l IH] using rev_ind; [by intros s|]. rewrite foldl_app. simpl. by apply noPanic_bind. Qed.
Lemma noPanic_whenM b m : noPanic m -> noPanic (whenM b m).
Proof. by destruct b. Qed.
Lemma noPanic_event phase reason message now : noPanic (setPhaseWithEvent phase reason message now).
Proof. done. Qed.
Lemma noPanic_ifChanged phase reason message now : noPanic (setPhaseIfChanged phase reason message now).
Proof. intros s. unfold setPhaseIfChanged. by destruct (SetPhaseWithEventIfChanged _ _ _ _ _). Qed.

Ltac no_panic :=
  repeat match goal with
  | |- forall _, _ => intros ?
  | |- noPanic (mbind _ _) => apply noPanic_bind
  | |- noPanic (foldl _ _ _) => apply noPanic_foldl
  | |- noPanic (whenM _ _) => apply noPanic_whenM
  | |- noPanic (setPhaseWithEvent _ _ _ _) => apply noPanic_event
  | |- noPanic (setPhaseIfChanged _ _ _ _) => apply noPanic_ifChanged
  | |- noPanic (mret _) => intros ?; discriminate
  | |- noPanic (returnWith _) => intros ?; discriminate
  | |- noPanic (act _) => intros ?; discriminate
  | |- noPanic (modifyOut _) => intros ?; discriminate
  | |- noPanic getOut => intros ?; discriminate
  | |- noPanic (match ?x with _ => _ end) => destruct x
  end.

Section outcome.
Context `{RangeOrder, RequirementLib} (env : Env).

Lemma prepare_noPanic : noPanic (prepare env).
Proof.
  unfold prepare, operatorGroupForCSV, ensureInstallModes, ensureProvidedAPIs, failForAPIs, cleanupCSVDeployments, requeueSelf.
  simpl LabelSetsFor. cbv iota. no_panic.
Qed.

(** The only phase that can panic is the replacing one. *)
Lemma phaseHandler_panics og phase s :
  (phaseHandler env og phase s).2 = inl Panic <->
  phase = CSVPhaseReplacing /\ isReplacing env ReadLeaf (s_out s) = None /\ failForward og = true /\
  IsBeingReplaced (csv_Name (s_out s)) (csvsIn env (csv_Namespace (s_out s))) = None.
Proof.
  assert (forall m : M unit, noPanic m -> phase <> CSVPhaseReplacing -> (m s).2 = inl Panic <->
    phase = CSVPhaseReplacing /\ isReplacing env ReadLeaf (s_out s) = None /\ failForward og = true /\
    IsBeingReplaced (csv_Name (s_out s)) (csvsIn env (csv_Namespace (s_out s))) = None) as Hno.
  { intros m Hm Hp. split; [by intros ?%Hm|by intros [? _]]. }
  unfold phaseHandler. repeat case_bool_decide; subst; try (apply Hno; [|discriminate]); try (apply Hno; [|done]).
  - unfold nonePhase. no_panic.
  - unfold pendingPhase, ownerConflict. no_panic.
  - unfold installReadyPhase, parseStrategiesAndUpdateStatus, requeueSelf. no_panic.
  - unfold installingPhase, parseStrategiesAndUpdateStatus, expectedStrategy, updateInstallStatus. no_panic.
  - unfold succeededPhase, checkReplacementsAndUpdateStatus, rotateCerts, parseStrategiesAndUpdateStatus, expectedStrategy,
      updateInstallStatus. no_panic.
  - unfold failedPhase, rotateCerts, parseStrategiesAndUpdateStatus, expectedStrategy, updateInstallStatus. no_panic.
  - unfold replacingPhase. rewrite getOut_bind. destruct (isReplacing env ReadLeaf _); [by split; [|intros (_ & ? & _)]|].
    erewrite bind_ok by reflexivity. rewrite <-(replacingNext_panics env og _ s). unfold mbind, M_bind.
    destruct (replacingNext env og _ s) as [s1 [e|next]]; [simpl; naive_solver|].
    split; [|by intros (_ & _ & ?)]. intros Hp. exfalso. revert Hp. unfold requeueSelf.
    destruct next as [next|]; [|done]. case_bool_decide; done.
  - unfold deletingPhase. no_panic.
  - no_panic.
Qed.

(** A sync body is the handler of the phase on the unchanged CSV, or an exit before it. *)
Lemma syncBody_cases c :
  let s := mkSt c [] in
  (exists og, admitted env c og /\ syncBody env s = phaseHandler env og (csv_Phase c) s) \/
  (exists s1 e, (forall og, ~ admitted env c og) /\ syncBody env s = (s1, inl (Return e)) /\ moves [CSVPhaseFailed] c (s_out s1)).
Proof.
  intros s. destruct (prepare env s) as [s1 [e|og]] eqn:Ep.
  - right. exists s1. pose proof (prepare_noPanic s) as Hn. pose proof (prepare_moves env s) as Hm. rewrite Ep in Hn, Hm.
    destruct e as [err|]; [|done]. exists err. split_and!; [|unfold syncBody, mbind, M_bind; by rewrite Ep|done].
    intros og Ha. assert (prepare env s = (s, inr og)) as Hx by by apply prepare_done. congruence.
  - left. exists og. pose proof Ep as Ep'. apply prepare_done in Ep' as [-> Ha]. split; [done|].
    unfold syncBody. by rewrite (bind_ok _ _ _ _ _ Ep), getOut_bind.
Qed.
End outcome.

(** ** Theorems about a sync *)

(** Syncs of a CSV, one after the other: the environment of each and the CSV it leaves. *)
Inductive run `{RangeOrder, RequirementLib} : CSV -> list (Env * CSV) -> Prop :=
  | run_nil c : run c []
  | run_sync env c out err acts syncs : transitionCSVState env c = Synced out err acts -> run out syncs -> run c ((env, out) :: syncs).

(** The edges of the phase graph: every phase can be kept, and fail before it is looked at. *)
Definition phase_edge (p q : string) : Prop := q = p \/ q = CSVPhaseFailed \/ q ∈ targets p.

(** What one sync may do: a CSV that failed for good is not synced, and a phase that is not kept and not Failed is one
    that follows, of a CSV the operator group admits. *)
Record allowed `{RangeOrder, RequirementLib} (env : Env) (c out : CSV) : Prop := {
  al_retry : csv_Reason c <> CSVReasonComponentFailedNoRetry;
  al_phase : csv_Phase out = csv_Phase c \/ csv_Phase out = CSVPhaseFailed \/
    csv_Phase out ∈ targets (csv_Phase c) /\ exists og, admitted env c og;
}.

Section sync_theorems.
Context `{RangeOrder, RequirementLib} (env : Env).

(** The outcome of a sync is the final state of its body. *)
Lemma Synced_body c out err acts :
  transitionCSVState env c = Synced out err acts ->
  csv_Reason c <> CSVReasonComponentFailedNoRetry /\ out = s_out (syncBody env (mkSt c [])).1.
Proof.
  unfold transitionCSVState. case_bool_decide as Hr; [done|].
  destruct (syncBody env _) as [s [[e|]|x]]; naive_solver.
Qed.

Lemma sync_moves c out err acts :
  transitionCSVState env c = Synced out err acts -> moves (CSVPhaseFailed :: csv_Phase c :: targets (csv_Phase c)) c out.
Proof.
  intros [_ ->]%Synced_body. destruct (syncBody_cases env c) as [(og & _ & ->)|(s1 & e & _ & -> & Hm)].
  - refine (moves_weaken (csv_Phase c :: targets (csv_Phase c)) _ (phaseHandler env og (csv_Phase c)) _ _ (mkSt c []));
      [intros p; apply list_elem_of_further|apply phaseHandler_moves].
  - simpl. destruct Hm as [He [Hp|Hp]]; split; [done|by left|done|]. right. apply list_elem_of_singleton in Hp as ->. apply list_elem_of_here.
Qed.

Lemma sync_edge c out err acts : transitionCSVState env c = Synced out err acts -> phase_edge (csv_Phase c) (csv_Phase out).
Proof.
  intros Hs. destruct (sync_moves _ _ _ _ Hs) as [_ [Hp|Hp]]; unfold phase_edge; [by left|].
  apply elem_of_cons in Hp as [?|Hp]; [by auto|]. apply elem_of_cons in Hp as [?|Hp]; auto.
Qed.

(** A sync that enters a phase other than Failed has passed the checks, and its handler enters it. *)
Lemma sync_enters p c out err acts :
  transitionCSVState env c = Synced out err acts -> p <> CSVPhaseFailed -> csv_Phase c <> p -> csv_Phase out = p ->
  exists og, admitted env c og /\ enters p (phaseHandler env og (csv_Phase c)) (mkSt c []) /\ p ∈ targets (csv_Phase c).
Proof.
  intros Hs Hf Hn Hp. destruct (sync_edge _ _ _ _ Hs) as [?|[?|Ht]]; [congruence|congruence|]. rewrite Hp in Ht.
  apply Synced_body in Hs as [_ Ho]. destruct (syncBody_cases env c) as [(og & Ha & Hb)|(s1 & e & _ & Hb & Hm)].
  - exists og. split_and!; [done| |done]. split; [done|]. by rewrite <-Hb, <-Ho.
  - rewrite Hb in Ho. simpl in Ho. subst out. destruct Hm as [_ [?|Hx]]; [congruence|]. apply list_elem_of_singleton in Hx. congruence.
Qed.

Lemma sources p q : p ∈ targets q ->
  (p = CSVPhaseInstallReady -> q = CSVPhasePending \/ q = CSVPhaseInstalling \/ q = CSVPhaseSucceeded \/ q = CSVPhaseFailed) /\
  (p = CSVPhaseSucceeded -> q = CSVPhaseInstalling \/ q = CSVPhaseFailed) /\ (p = CSVPhaseDeleting -> q = CSVPhaseReplacing).
Proof.
  unfold targets. repeat case_bool_decide; rewrite ?elem_of_cons, ?elem_of_nil; subst;
    (intros Hp; split_and!; intros ->; intuition (try discriminate)).
Qed.
Lemma sync_allowed c out err acts : transitionCSVState env c = Synced out err acts -> allowed env c out.
Proof.
  intros Hs. split; [by apply Synced_body in Hs as [? _]|].
  destruct (decide (csv_Phase out = csv_Phase c)) as [|Hn]; [by left|right].
  destruct (decide (csv_Phase out = CSVPhaseFailed)) as [|Hf]; [by left|right].
  destruct (sync_enters _ _ _ _ _ Hs Hf (not_eq_sym Hn) eq_refl) as (og & Ha & _ & Ht). eauto.
Qed.
End sync_theorems.

(** C15: whatever the environments of its syncs answer, along every sequence of syncs of a CSV: each sync follows an edge
    of the phase graph, to a phase other than Failed only when the operator group admits the CSV; a CSV that failed for
    good is never synced again; the object (labels included), the spec and the annotations other than those of the operator
    group stay what they were; and the history stays well formed: at most [ConditionsLengthLimit] conditions, adjacent ones
    different, the last one of the current phase and reason. *)
Theorem lifecycle_invariant `{RangeOrder, RequirementLib} (c : CSV) (syncs : list (Env * CSV)) :
  history_ok (csv_Status c) -> run c syncs ->
  forall i env before out, (c :: syncs.*2) !! i = Some before -> syncs !! i = Some (env, out) ->
    allowed env before out /\ keeps c out /\ history_ok (csv_Status out).
Proof.
  intros Hh Hr. induction Hr as [c|env c d err acts syncs Hs Hr IH]; intros i env' before out Hb Ho; [done|].
  destruct (sync_moves _ _ _ _ _ Hs) as [[Hk Hd] _]. destruct i as [|i].
  - simplify_eq/=. split_and!; [by eapply sync_allowed|done|auto].
  - destruct (IH (Hd Hh) i env' before out Hb Ho) as (Ha & Hk' & Hh'). split_and!; [done|by etrans|done].
Qed.

(** C7: a CSV is installed exactly when it may be: a pending CSV becomes ready if and only if the
    checks before the phases admit it, its requirements and permissions are met, its webhooks are
    valid, no other CSV owns its CRDs or API services, the CSV it replaces is upgradeable, and
    that CSV, if it is still there, is already being replaced. *)
Theorem install_ready_iff `{RangeOrder, RequirementLib} (env : Env) (c : CSV) :
  csv_Phase c = CSVPhasePending -> csv_Reason c <> CSVReasonComponentFailedNoRetry ->
  (exists out err acts, transitionCSVState env c = Synced out err acts /\ csv_Phase out = CSVPhaseInstallReady) <->
  (exists og, admitted env c og) /\ ready env c.
Proof.
  intros Hp Hn. split.
  - intros (out & err & acts & Hs & Ho). assert (csv_Phase c <> CSVPhaseInstallReady) as Hne by (rewrite Hp; discriminate).
    destruct (sync_enters env CSVPhaseInstallReady _ _ _ _ Hs ltac:(discriminate) Hne Ho) as (og & Ha & He & _).
    split; [by eexists|]. rewrite Hp in He. by apply (pendingPhase_ready env (mkSt c [])) in He.
  - intros [[og Ha] Hr]. unfold transitionCSVState. rewrite bool_decide_false by done.
    destruct (syncBody_cases env c) as [(og' & _ & Hb)|(s1 & e & Hno & _)]; [|by destruct (Hno og)].
    rewrite Hb, Hp. change (phaseHandler env og' CSVPhasePending) with (pendingPhase env).
    destruct (pendingPhase_enters env (mkSt c []) Hr) as (s & -> & Hph & _). eauto.
Qed.

(** A CSV succeeds only when it is installed: the sync that brings a CSV into Succeeded found
    its deployments, API services and webhooks installed; it was installing, or it had failed and
    its requirements are met again, the failure is not one the earlier checks clear, and the
    resources of its API services are healthy. *)
Theorem succeeded_installed `{RangeOrder, RequirementLib} (env : Env) (c out : CSV) err acts :
  transitionCSVState env c = Synced out err acts -> csv_Phase c <> CSVPhaseSucceeded -> csv_Phase out = CSVPhaseSucceeded ->
  (exists og, admitted env c og) /\ installed env c /\
  (csv_Phase c = CSVPhaseInstalling \/
   csv_Phase c = CSVPhaseFailed /\ clearedFailure (csv_Reason c) = None /\ env_checkAPIServiceResources env c = None /\
   exists statuses, requirementAndPermissionStatus (env_cluster env) c = inr (true, statuses)).
Proof.
  intros Hs Hn Ho. destruct (sync_enters env CSVPhaseSucceeded _ _ _ _ Hs ltac:(discriminate) Hn Ho) as (og & Ha & He & Ht).
  split; [by eexists|]. destruct (sources _ _ Ht) as (_ & Hsrc & _). destruct (Hsrc eq_refl) as [Hp|Hp]; rewrite Hp in He.
  - split; [by apply (installingPhase_installed env (mkSt c []))|by left].
  - apply (failedPhase_installed env og (mkSt c [])) in He as (? & ? & ? & ?). split; [done|]. right. by split_and!.
Qed.

(** C8: a CSV is marked for deletion only from the Replacing phase, and from there exactly when it is superseded: the
    operator group admits it; it replaces no CSV, or reading the CSV that it replaces failed, with whatever error; and the
    CSV that replaces it has succeeded, where under fail-forward that CSV is the end of the whole chain of replacements. *)
Theorem deleting_superseded `{RangeOrder, RequirementLib} (env : Env) (c : CSV) :
  csv_Phase c <> CSVPhaseDeleting -> csv_Reason c <> CSVReasonComponentFailedNoRetry ->
  (exists out err acts, transitionCSVState env c = Synced out err acts /\ csv_Phase out = CSVPhaseDeleting) <->
  csv_Phase c = CSVPhaseReplacing /\ exists og next, admitted env c og /\ superseded env og c next.
Proof.
  intros Hn Hr. split.
  - intros (out & err & acts & Hs & Ho).
    destruct (sync_enters env CSVPhaseDeleting _ _ _ _ Hs ltac:(discriminate) Hn Ho) as (og & Ha & He & Ht).
    destruct (sources _ _ Ht) as (_ & _ & Hsrc). pose proof (Hsrc eq_refl) as Hp. rewrite Hp in He.
    apply (replacingPhase_superseded env og (mkSt c [])) in He as [next Hx]. eauto.
  - intros (Hp & og & next & Ha & Hx). unfold transitionCSVState. rewrite bool_decide_false by done.
    destruct (syncBody_cases env c) as [(og' & Ha' & Hb)|(s1 & e & Hno & _)]; [|by destruct (Hno og)].
    assert (og' = og) as -> by (destruct Ha, Ha'; congruence).
    rewrite Hb, Hp. change (phaseHandler env og CSVPhaseReplacing) with (replacingPhase env og).
    destruct (superseded_enters env og (mkSt c []) next Hx) as (s & -> & Hph). eauto.
Qed.

(** A sync dereferences nil in one case only: an admitted CSV in the Replacing phase that
    replaces nothing, under fail-forward, and that no CSV of its namespace replaces any more. *)
Theorem panic_iff `{RangeOrder, RequirementLib} (env : Env) (c : CSV) :
  (exists acts, transitionCSVState env c = Panicked acts) <->
  csv_Reason c <> CSVReasonComponentFailedNoRetry /\ csv_Phase c = CSVPhaseReplacing /\
  exists og, admitted env c og /\ isReplacing env ReadLeaf c = None /\ failForward og = true /\
    IsBeingReplaced (csv_Name c) (csvsIn env (csv_Namespace c)) = None.
Proof.
  unfold transitionCSVState. case_bool_decide as Hr; [split; [by intros []|by intros []]|].
  destruct (syncBody_cases env c) as [(og & Ha & ->)|(s1 & e & Hno & -> & _)].
  - pose proof (phaseHandler_panics env og (csv_Phase c) (mkSt c [])) as Hp. simpl s_out in Hp. split.
    + intros [acts Hx]. destruct (phaseHandler env og _ _) as [s [[err|]|x]]; [done| |done].
      destruct (proj1 Hp eq_refl) as (? & ? & ? & ?). eauto 10.
    + intros (_ & Hph & og' & [_ Hg' _ _] & Hl & Hf & Hb). destruct Ha as [_ Hg _ _].
      assert (og' = og) as -> by congruence. destruct (phaseHandler env og _ _) as [s r]. simpl in Hp.
      rewrite (proj2 Hp) by done. eauto.
  - split; [by intros []|]. intros (_ & _ & og & Ha & _). by destruct (Hno og).
Qed.

(** ** Progress *)

Section progress.
Context `{RangeOrder, RequirementLib}.

(** An environment in which the CSV can be installed: it is admitted and ready, its components
    install and are found healthy, and nothing replaces it. *)
Record healthy (env : Env) (c : CSV) : Prop := {
  he_admitted : exists og, admitted env c og;
  he_ready : ready env c;
  he_client : env_clientError env c = None;
  he_replaced : IsBeingReplaced (csv_Name c) (csvsIn env (csv_Namespace c)) = None;
  he_components : exists strategy strategy',
    UnmarshalStrategy (spec_InstallStrategy (csv_Spec c)) = inr strategy /\
    env_updateDeploymentSpecs env c strategy = inr strategy' /\
    forall previous, let i := env_installer env c previous in
      in_Install i strategy = None /\ in_ShouldRotateCerts i strategy = inr false /\
      in_CheckInstalled i strategy' = (true, None);
  he_apiServices : areAPIServicesAvailable (env_cluster env) c = inr true;
  he_webhooks : env_areWebhooksAvailable env c = inr true;
  he_resources : env_checkAPIServiceResources env c = None;
  he_roles : env_ensureClusterRoles env c = None;
}.

(** The same for every status the CSV goes through. *)
Definition supports (env : Env) (c : CSV) : Prop := forall c', same_config c c' -> healthy env c'.

(** The handler of [p] brings the CSV into [q] for [reason]. *)
Definition advances (env : Env) (p q reason : string) : Prop := forall og s,
  csv_Phase (s_out s) = p -> healthy env (s_out s) ->
  exists s', phaseHandler env og p s = (s', inr tt) /\ csv_Phase (s_out s') = q /\ csv_Reason (s_out s') = reason /\
    same_config (s_out s) (s_out s').

Lemma none_advances env : advances env CSVPhaseNone CSVPhasePending CSVReasonRequirementsUnknown.
Proof. intros og s _ _. eexists. split; [reflexivity|]. apply setPhase_fields. Qed.

Lemma pending_advances env : advances env CSVPhasePending CSVPhaseInstallReady CSVReasonRequirementsMet.
Proof. intros og s _ Hh. apply (pendingPhase_enters env s). apply he_ready, Hh. Qed.

Lemma parseStrategies_healthy env s strategy :
  healthy env (s_out s) -> UnmarshalStrategy (spec_InstallStrategy (csv_Spec (s_out s))) = inr strategy ->
  exists s1 previous, parseStrategiesAndUpdateStatus env s = (s1, inr (env_installer env (s_out s) previous, strategy)) /\
    s_out s1 = s_out s.
Proof.
  intros Hh Hu. unfold parseStrategiesAndUpdateStatus. rewrite getOut_bind, Hu.
  destruct (isReplacing env ReadStrategy _) as [prev|];
    (erewrite bind_ok; [|reflexivity]); rewrite (he_client _ _ Hh); eexists _, _; (split; [reflexivity|done]).
Qed.

Lemma ready_advances env : advances env CSVPhaseInstallReady CSVPhaseInstalling CSVReasonInstallSuccessful.
Proof.
  intros og s _ Hh. change (phaseHandler env og CSVPhaseInstallReady) with (installReadyPhase env).
  destruct (he_components _ _ Hh) as (strategy & strategy' & Hu & _ & Hi).
  destruct (parseStrategies_healthy env s strategy Hh Hu) as (s1 & previous & Hp & Ho).
  unfold installReadyPhase. cbv zeta. rewrite (bind_ok _ _ _ _ _ Hp). destruct (Hi previous) as (-> & _).
  destruct (in_CertsRotated _); (erewrite bind_ok; [|reflexivity]).
  - eexists. split; [reflexivity|]. simpl s_out. rewrite Ho. apply (setPhase_fields (setCertTimes _ _ _)).
  - eexists. split; [reflexivity|]. simpl s_out. rewrite Ho. apply setPhase_fields.
Qed.

(** The status says what [SetPhase] would write. *)
Definition says (c : CSV) (phase reason message : string) : Prop :=
  csv_Phase c = phase /\ csv_Reason c = reason /\ st_Message (csv_Status c) = message.

Lemma setPhaseIfChanged_says phase reason message now s : exists s',
  setPhaseIfChanged phase reason message now s = (s', inr tt) /\ says (s_out s') phase reason message /\
  same_config (s_out s) (s_out s') /\ (says (s_out s) phase reason message -> s' = s).
Proof.
  unfold setPhaseIfChanged, SetPhaseWithEventIfChanged. cbv zeta. destruct (_ && _ && _) eqn:E.
  - eexists. split; [reflexivity|]. apply andb_true_iff in E as [[E1 E2]%andb_true_iff E3]. bools.
    split_and!; try done. intros _. simpl. rewrite app_nil_r. by destruct s.
  - eexists. split; [reflexivity|]. split_and!; try done.
    + unfold says, csv_Phase, csv_Reason. simpl.
      by destruct (setPhaseStatus_fields phase reason message (Some now) (csv_Status (s_out s))) as (? & ? & ? & _).
    + intros (E1 & E2 & E3). unfold csv_Phase, csv_Reason in *. rewrite E1, E2, E3, !bool_decide_true in E by done. done.
Qed.

(** Everything is found installed. *)
Definition succeeds (c : CSV) : Prop :=
  says c CSVPhaseSucceeded CSVReasonInstallSuccessful "install strategy completed with no errors".

Lemma updateInstallStatus_healthy env s strategy installer phase reason :
  healthy env (s_out s) -> in_CheckInstalled installer strategy = (true, None) ->
  exists s', updateInstallStatus env installer strategy phase reason s = (s', inr None) /\ succeeds (s_out s') /\
    same_config (s_out s) (s_out s') /\ (succeeds (s_out s) -> s' = s).
Proof.
  intros Hh Hi. unfold updateInstallStatus. rewrite Hi. cbv zeta. rewrite getOut_bind.
  rewrite (he_apiServices _ _ Hh), (he_webhooks _ _ Hh). cbn [toPair andb].
  destruct (setPhaseIfChanged_says CSVPhaseSucceeded CSVReasonInstallSuccessful "install strategy completed with no errors"
    (env_now env NowInstallStatus) s) as (s' & Hs & H1 & H2 & H3).
  rewrite (bind_ok _ _ _ _ _ Hs). exists s'. by split_and!.
Qed.

Lemma expectedStrategy_healthy env s strategy strategy' :
  env_updateDeploymentSpecs env (s_out s) strategy = inr strategy' -> expectedStrategy env strategy s = (s, inr strategy').
Proof. intros Hx. unfold expectedStrategy. rewrite getOut_bind. by rewrite Hx. Qed.

Lemma installing_advances env og s :
  healthy env (s_out s) ->
  exists s', phaseHandler env og CSVPhaseInstalling s = (s', inr tt) /\ succeeds (s_out s') /\ same_config (s_out s) (s_out s').
Proof.
  intros Hh. change (phaseHandler env og CSVPhaseInstalling) with (installingPhase env).
  destruct (he_components _ _ Hh) as (strategy & strategy' & Hu & Hx & Hi).
  destruct (parseStrategies_healthy env s strategy Hh Hu) as (s1 & previous & Hp & Ho). rewrite <-Ho in Hx.
  unfold installingPhase. rewrite (bind_ok _ _ _ _ _ Hp). rewrite (bind_ok _ _ _ _ _ (expectedStrategy_healthy _ _ _ _ Hx)).
  destruct (Hi previous) as (_ & _ & Hc). rewrite <-Ho in Hh.
  destruct (updateInstallStatus_healthy env s1 strategy' _ CSVPhaseInstalling CSVReasonWaiting Hh Hc) as (s2 & H2 & H3 & H4 & _).
  rewrite (bind_ok _ _ _ _ _ H2). exists s2. rewrite <-Ho. by split_and!.
Qed.

Lemma succeeded_stays env og s :
  csv_Phase (s_out s) = CSVPhaseSucceeded -> supports env (s_out s) ->
  exists s', phaseHandler env og CSVPhaseSucceeded s = (s', inr tt) /\ succeeds (s_out s') /\ same_config (s_out s) (s_out s') /\
    (succeeds (s_out s) -> s_out s' = s_out s).
Proof.
  intros Hph Hsup. pose proof (Hsup _ (reflexivity _)) as Hh.
  change (phaseHandler env og CSVPhaseSucceeded) with (succeededPhase env).
  destruct (he_components _ _ Hh) as (strategy & strategy' & Hu & Hx & Hi).
  destruct (parseStrategies_healthy env s strategy Hh Hu) as (s1 & previous & Hp & Ho). rewrite <-Ho in Hx.
  destruct (Hi previous) as (_ & Hrot & Hc). destruct (rd_requirements _ _ (he_ready _ _ Hh)) as [sts Hreq].
  unfold succeededPhase. cbv zeta. rewrite (bind_ok (checkReplacementsAndUpdateStatus env) _ s s tt).
  2: { unfold checkReplacementsAndUpdateStatus. rewrite getOut_bind, Hph. cbn. by rewrite (he_replaced _ _ Hh). }
  rewrite (bind_ok _ _ _ _ _ Hp), getOut_bind. rewrite <-Ho in Hh, Hreq |- *. rewrite (he_resources _ _ Hh).
  erewrite bind_ok by reflexivity. rewrite (bind_ok (rotateCerts _ _ _ _) _ s1 s1 tt).
  2: { unfold rotateCerts. rewrite <-Ho in Hrot. by rewrite Hrot. }
  rewrite Hreq. cbn [negb]. erewrite bind_ok by reflexivity.
  rewrite (bind_ok _ _ _ _ _ (expectedStrategy_healthy _ _ _ _ Hx)). rewrite <-Ho in Hc.
  destruct (updateInstallStatus_healthy env s1 strategy' _ CSVPhaseFailed CSVReasonComponentUnhealthy Hh Hc)
    as (s2 & H2 & H3 & H4 & H5).
  rewrite (bind_ok _ _ _ _ _ H2). erewrite bind_ok by reflexivity. rewrite getOut_bind. erewrite bind_ok by reflexivity.
  rewrite (he_roles env (s_out s2)) by (apply Hsup; rewrite <-Ho; done).
  eexists. split; [reflexivity|]. split_and!; try done. intros ->%H5. done.
Qed.

(** The sync of [c] in [env] returns [out] and no error. *)
Definition synced_to (env : Env) (c out : CSV) : Prop := exists acts, transitionCSVState env c = Synced out None acts.

(** An admitted CSV that has not failed for good is handled by its phase. *)
Lemma sync_handled env c (Q : CSV -> Prop) :
  (exists og, admitted env c og) -> csv_Reason c <> CSVReasonComponentFailedNoRetry ->
  (forall og, exists s', phaseHandler env og (csv_Phase c) (mkSt c []) = (s', inr tt) /\ Q (s_out s')) ->
  exists out, synced_to env c out /\ Q out.
Proof.
  intros [og0 Ha] Hr Hh. unfold synced_to, transitionCSVState. rewrite bool_decide_false by done.
  destruct (syncBody_cases env c) as [(og & _ & ->)|(s1 & e & Hno & _)]; [|by destruct (Hno og0)].
  destruct (Hh og) as (s' & -> & HQ). exists (s_out s'). split; [by eexists|done].
Qed.

Lemma sync_advances env c p q reason :
  advances env p q reason -> csv_Phase c = p -> csv_Reason c <> CSVReasonComponentFailedNoRetry -> supports env c ->
  exists out, synced_to env c out /\ csv_Phase out = q /\ csv_Reason out = reason /\ same_config c out.
Proof.
  intros Hadv Hp Hr Hs. pose proof (Hs _ (reflexivity _)) as Hh. apply sync_handled; [by apply he_admitted in Hh|done|].
  intros og. rewrite Hp. exact (Hadv og (mkSt c []) Hp Hh).
Qed.
End progress.

(** C9: a new CSV is installed after four syncs, and stays so: in environments that support it,
    whatever their clocks say and whatever status is recorded meanwhile, the syncs take it through
    Pending, InstallReady and Installing to Succeeded without an error, and every further sync
    returns it unchanged. *)
Theorem install_progress `{RangeOrder, RequirementLib} (envs : nat -> Env) (c : CSV) :
  csv_Phase c = CSVPhaseNone -> csv_Reason c <> CSVReasonComponentFailedNoRetry -> (forall n, supports (envs n) c) ->
  exists c1 c2 c3 c4,
    synced_to (envs 0%nat) c c1 /\ csv_Phase c1 = CSVPhasePending /\
    synced_to (envs 1%nat) c1 c2 /\ csv_Phase c2 = CSVPhaseInstallReady /\
    synced_to (envs 2%nat) c2 c3 /\ csv_Phase c3 = CSVPhaseInstalling /\
    synced_to (envs 3%nat) c3 c4 /\ succeeds c4 /\ same_config c c4 /\
    forall n, synced_to (envs n) c4 c4.
Proof.
  intros Hp Hr Hsup. assert (forall n c', same_config c c' -> supports (envs n) c') as Hsup'.
  { intros n c' Hc c'' Hc''. apply Hsup. by etrans. }
  destruct (sync_advances (envs 0%nat) c _ _ _ (none_advances _) Hp Hr (Hsup _)) as (c1 & S1 & P1 & R1 & E1).
  destruct (sync_advances (envs 1%nat) c1 _ _ _ (pending_advances _) P1 ltac:(rewrite R1; discriminate) (Hsup' _ _ E1))
    as (c2 & S2 & P2 & R2 & E2'). assert (same_config c c2) as E2 by by etrans.
  destruct (sync_advances (envs 2%nat) c2 _ _ _ (ready_advances _) P2 ltac:(rewrite R2; discriminate) (Hsup' _ _ E2))
    as (c3 & S3 & P3 & R3 & E3'). assert (same_config c c3) as E3 by by etrans.
  destruct (sync_handled (envs 3%nat) c3 (fun out => succeeds out /\ same_config c3 out)) as (c4 & S4 & G4 & E4').
  { by apply he_admitted, (Hsup' _ _ E3). } { rewrite R3. discriminate. }
  { intros og. rewrite P3. apply (installing_advances (envs 3%nat) og (mkSt c3 [])). by apply (Hsup' _ _ E3). }
  assert (same_config c c4) as E4 by by etrans. exists c1, c2, c3, c4. split_and!; try done.
  intros n. destruct (sync_handled (envs n) c4 (fun out => out = c4)) as (out & So & ->); [..|done].
  { by apply he_admitted, (Hsup' _ _ E4). } { destruct G4 as (_ & -> & _). discriminate. }
  intros og. destruct G4 as (Hph & Hg). rewrite Hph.
  destruct (succeeded_stays (envs n) og (mkSt c4 []) Hph (Hsup' _ _ E4)) as (s' & Hs' & _ & _ & Hsame).
  exists s'. split; [done|]. by apply Hsame.
Qed.

(** ** A concrete environment *)

(** One operator group, a namespace with the given CSVs, and components that are healthy at once. *)
Definition live_group (upgradeStrategy : string) : OperatorGroup :=
  mkGroup "g" "ns" "u" None None [] "" false upgradeStrategy (Some [""]) None.
Definition live_installer : Installer := mkInstaller (fun _ => None) (fun _ => (true, None)) (fun _ => inr false) 0%Z false.

Definition live_env (upgradeStrategy : string) (csvs : list CSV) (now : Time) : Env := {|
  env_cluster := demo_cluster; env_now := fun _ => now;
  env_groupsIn := fun _ => inr [live_group upgradeStrategy]; env_allGroups := inr [live_group upgradeStrategy];
  env_listCSVs := fun _ => inr csvs;
  env_getCSV := fun _ _ name =>
    match List.find (fun c => bool_decide (csv_Name c = name)) csvs with Some c => inr c | None => inl notFound end;
  env_updateCSV := fun c => inr c; env_updateGroup := fun _ => None; env_requeueGroup := fun _ _ => None;
  env_deleteCSV := fun _ _ => None; env_LabelSelectorAsSelector := fun _ => inl notFound;
  env_ListNamespaces := fun _ => inr []; env_clientError := fun _ => None;
  env_installer := fun _ _ => live_installer; env_checkAPIServiceResources := fun _ => None;
  env_updateDeploymentSpecs := fun _ strategy => inr strategy; env_areWebhooksAvailable := fun _ => inr true;
  env_ensureClusterRoles := fun _ => None |}.

(** A CSV of the group, with the given status. *)
Definition member_CSV (name replaces phase reason : string) : CSV :=
  mkCSV (demo_csv name name) (setOperatorGroupAnnotations None (live_group "") true) (demo_spec replaces) (demo_status phase reason).

#[local] Existing Instances canonical_order demo_req_lib.

Lemma live_admitted strategy csvs now name replaces status :
  admitted (live_env strategy csvs now)
    (mkCSV (demo_csv name name) (setOperatorGroupAnnotations None (live_group "") true) (demo_spec replaces) status)
    (live_group strategy).
Proof.
  split.
  - eexists _, _. split; [reflexivity|]. split; [reflexivity|]. left. vm_compute. reflexivity.
  - reflexivity.
  - vm_compute. reflexivity.
  - eexists _, _. split; [reflexivity|]. split; [reflexivity|]. vm_compute. reflexivity.
Qed.

Lemma live_supports now : supports (live_env "" [] now) (member_CSV "etcd" "" "" "").
Proof.
  intros [o a sp st] (Ho & Ha & Hs). simpl in Ho, Ha, Hs. subst. split; try reflexivity.
  - eexists. apply live_admitted.
  - split; try done. eexists. vm_compute. reflexivity.
  - by eexists _, _.
Qed.

Lemma install_progress_witness :
  exists c1 c2 c3 c4, synced_to (live_env "" [] 0%Z) (member_CSV "etcd" "" "" "") c1 /\ csv_Phase c1 = CSVPhasePending /\
    synced_to (live_env "" [] 1%Z) c1 c2 /\ csv_Phase c2 = CSVPhaseInstallReady /\
    synced_to (live_env "" [] 2%Z) c2 c3 /\ csv_Phase c3 = CSVPhaseInstalling /\
    synced_to (live_env "" [] 3%Z) c3 c4 /\ succeeds c4 /\ same_config (member_CSV "etcd" "" "" "") c4 /\
    forall n, synced_to (live_env "" [] (Z.of_nat n)) c4 c4.
Proof.
  refine (install_progress (fun n => live_env "" [] (Z.of_nat n)) (member_CSV "etcd" "" "" "") _ _ _).
  - reflexivity.
  - discriminate.
  - intros n. apply live_supports.
Defined.

(** The CSV a sync leaves. *)
Definition after (env : Env) (c : CSV) : CSV := match transitionCSVState env c with Synced out _ _ => out | _ => c end.

Lemma lifecycle_invariant_witness :
  let c := member_CSV "etcd" "" "" "" in
  let d := after (live_env "" [] 0%Z) c in let out := after (live_env "" [] 1%Z) d in
  csv_Phase out = CSVPhaseInstallReady /\ allowed (live_env "" [] 1%Z) d out /\ keeps c out /\ history_ok (csv_Status out).
Proof.
  intros c d out. split; [vm_compute; reflexivity|].
  refine (lifecycle_invariant c [(live_env "" [] 0%Z, d); (live_env "" [] 1%Z, out)] _ _ 1 _ _ _ eq_refl eq_refl).
  - by apply fresh_history.
  - eapply run_sync; [vm_compute; reflexivity|]. eapply run_sync; [vm_compute; reflexivity|apply run_nil].
Defined.

Lemma install_ready_iff_witness :
  exists out err acts, transitionCSVState (live_env "" [] 0%Z) (member_CSV "etcd" "" "Pending" "") = Synced out err acts /\
    csv_Phase out = CSVPhaseInstallReady.
Proof.
  refine (proj2 (install_ready_iff (live_env "" [] 0%Z) (member_CSV "etcd" "" "Pending" "") _ _) _).
  - reflexivity.
  - discriminate.
  - split; [eexists; apply live_admitted|]. apply he_ready, (live_supports 0%Z). by split_and!.
Defined.

Lemma succeeded_installed_witness : installed (live_env "" [] 0%Z) (member_CSV "etcd" "" "Installing" "").
Proof.
  refine (proj1 (proj2 (succeeded_installed (live_env "" [] 0%Z) (member_CSV "etcd" "" "Installing" "") _ _ _ eq_refl _ _))).
  - discriminate.
  - vm_compute. reflexivity.
Defined.

(** The second CSV, which replaces the first, has succeeded. *)
Lemma deleting_superseded_witness :
  let env := live_env "" [member_CSV "etcd2" "etcd1" "Succeeded" ""; member_CSV "etcd1" "" "Replacing" ""] 0%Z in
  csv_Phase (member_CSV "etcd1" "" "Replacing" "") = CSVPhaseReplacing /\
  exists og next, admitted env (member_CSV "etcd1" "" "Replacing" "") og /\
    superseded env og (member_CSV "etcd1" "" "Replacing" "") next.
Proof.
  intros env. refine (proj1 (deleting_superseded env (member_CSV "etcd1" "" "Replacing" "") _ _) _); [discriminate..|].
  do 3 eexists. split; vm_compute; reflexivity.
Defined.

(** The replacing CSV was deleted, and fail-forward is on. *)
Example replacing_panics :
  exists acts, transitionCSVState (live_env "TechPreviewUnsafeFailForward" [member_CSV "etcd1" "" "Replacing" ""] 0%Z)
    (member_CSV "etcd1" "" "Replacing" "") = Panicked acts.
Proof. eexists. vm_compute. reflexivity. Qed.
