(* ===== verification/CatalogTypes.v ===== *)
(** * Subscriptions and install plans: data and conditions

    Models [api/pkg/operators/v1alpha1/subscription_types.go] and [installplan_types.go]: the
    fields the catalog operator reads, and the methods that read and write conditions.  The three
    kinds of conditions (of a subscription, of an install plan, of a bundle lookup) are kept in
    lists with at most one entry per type; what they have in common is proved once, in [Section
    conditions]. *)

From S2P Require Import Prelude GoStrings RbacRules OwnerUtil CsvTypes.

(** ** Lists of typed conditions *)

Section conditions.
Context {C : Type} (type : C -> string).

Definition hasType (t : string) (c : C) : bool := bool_decide (type c = t).

(** The first condition of a type. *)
Definition findCond (t : string) (conds : list C) : option C := List.find (hasType t) conds.

(** Replace the first condition of the type of [cond], or append; [merge] sees the old one. *)
Fixpoint setCond (merge : C -> C -> C) (cond : C) (conds : list C) : list C :=
  match conds with
  | [] => [cond]
  | existing :: conds' =>
      if hasType (type cond) existing then merge existing cond :: conds' else existing :: setCond merge cond conds'
  end.

Definition removeConds (remove : list string) (conds : list C) : list C :=
  List.filter (fun c => negb (bool_decide (type c ∈ remove))) conds.

(** Every type at most once. *)
Definition conds_ok (conds : list C) : Prop := NoDup (type <$> conds).

Lemma findCond_Some t conds c : findCond t conds = Some c -> c ∈ conds /\ type c = t.
Proof. intros [Hin Ht]%find_elem_of. unfold hasType in Ht. by bools. Qed.
Lemma findCond_None t conds : findCond t conds = None <-> t ∉ type <$> conds.
Proof.
  rewrite list_elem_of_fmap. split.
  - intros Hf (c & -> & Hc). pose proof (find_none_elem_of _ _ _ Hf Hc) as Hn. unfold hasType in Hn. by bools.
  - intros Hn. destruct (findCond t conds) as [c|] eqn:E; [|done]. apply findCond_Some in E as [Hin <-]. exfalso. eauto.
Qed.

Lemma findCond_elem conds c : conds_ok conds -> c ∈ conds -> findCond (type c) conds = Some c.
Proof.
  unfold conds_ok, findCond. induction conds as [|d conds IH]; [by intros _ ?%elem_of_nil|]. simpl. rewrite NoDup_cons.
  intros [Hd Hok] [->|Hin]%elem_of_cons; unfold hasType; [by rewrite bool_decide_true|].
  rewrite bool_decide_false; [by apply IH|]. intros E. apply Hd. rewrite E. by apply list_elem_of_fmap_2.
Qed.

Section set.
Context (merge : C -> C -> C) (Hmerge : forall a b, type (merge a b) = type b).

Lemma setCond_types cond conds :
  type <$> setCond merge cond conds = if bool_decide (type cond ∈ type <$> conds) then type <$> conds else (type <$> conds) ++ [type cond].
Proof using Hmerge.
  induction conds as [|d conds IH]; [done|]. cbn [setCond]. unfold hasType. rewrite !fmap_cons.
  destruct (decide (type d = type cond)) as [E|E].
  - rewrite (bool_decide_true (type d = _)) by done. rewrite bool_decide_true by (rewrite E; apply list_elem_of_here).
    rewrite fmap_cons. by rewrite Hmerge, E.
  - rewrite (bool_decide_false (type d = _)) by done. rewrite fmap_cons, IH.
    rewrite (bool_decide_ext (type cond ∈ type d :: (type <$> conds)) (type cond ∈ type <$> conds))
      by (rewrite elem_of_cons; intuition congruence). clear IH. by case_bool_decide.
Qed.

Lemma setCond_ok cond conds : conds_ok conds -> conds_ok (setCond merge cond conds).
Proof using Hmerge.
  unfold conds_ok. rewrite setCond_types. case_bool_decide as E; [done|]. intros Hok. apply NoDup_app.
  split; [done|]. split; [|apply NoDup_singleton]. by intros x Hx ->%list_elem_of_singleton.
Qed.

Lemma findCond_set cond conds t :
  findCond t (setCond merge cond conds) =
  if bool_decide (t = type cond)
  then Some (match findCond t conds with Some existing => merge existing cond | None => cond end)
  else findCond t conds.
Proof using Hmerge.
  unfold findCond. induction conds as [|d conds IH]; cbn [setCond List.find].
  - unfold hasType. rewrite (bool_decide_ext (type cond = t) (t = type cond)) by (split; congruence). by case_bool_decide.
  - destruct (decide (type d = type cond)) as [E|E].
    + unfold hasType. rewrite (bool_decide_true (type d = _)) by done. cbn [List.find]. rewrite Hmerge, E.
      rewrite (bool_decide_ext (type cond = t) (t = type cond)) by (split; congruence). clear IH. by case_bool_decide.
    + unfold hasType in *. rewrite (bool_decide_false (type d = type cond)) by done. cbn [List.find]. rewrite IH. clear IH.
      destruct (decide (type d = t)) as [Et|Et].
      * rewrite (bool_decide_true (type d = t)) by done. by rewrite bool_decide_false by congruence.
      * by rewrite (bool_decide_false (type d = t)) by done.
Qed.
End set.

Lemma removeConds_ok remove conds : conds_ok conds -> conds_ok (removeConds remove conds).
Proof.
  unfold conds_ok, removeConds. induction conds as [|d conds IH]; simpl; [done|]. rewrite NoDup_cons. intros [Hd Hok].
  case_bool_decide; simpl; [by apply IH|]. rewrite NoDup_cons. split; [|by apply IH].
  intros (c & Hc & [Hin _]%list_elem_of_In%filter_In)%list_elem_of_fmap. apply Hd. rewrite Hc.
  apply list_elem_of_fmap_2. by apply list_elem_of_In.
Qed.

Lemma findCond_remove remove conds t :
  findCond t (removeConds remove conds) = if bool_decide (t ∈ remove) then None else findCond t conds.
Proof.
  unfold findCond, removeConds, hasType. induction conds as [|d conds IH]; cbn [List.filter List.find]; [by case_bool_decide|].
  destruct (decide (type d ∈ remove)) as [Ed|Ed].
  - rewrite (bool_decide_true (type d ∈ remove)) by done. cbn [negb]. rewrite IH. clear IH. case_bool_decide; [done|].
    by rewrite bool_decide_false by congruence.
  - rewrite (bool_decide_false (type d ∈ remove)) by done. cbn [negb List.find]. rewrite IH. clear IH.
    destruct (decide (type d = t)) as [Et|Et].
    + rewrite (bool_decide_true (type d = t)) by done. by rewrite bool_decide_false by congruence.
    + by rewrite (bool_decide_false (type d = t)) by done.
Qed.
End conditions.

(** [corev1.ObjectReference] *)
Record ObjectReference := mkObjectRef {
  or_Kind : string; or_Namespace : string; or_Name : string; or_UID : string; or_APIVersion : string
}.
#[export] Instance ObjectReference_eq_dec : EqDecision ObjectReference.
Proof. solve_decision. Defined.

(** ** Install plans (installplan_types.go) *)

Definition ApprovalAutomatic : string := "Automatic".
Definition ApprovalManual : string := "Manual".

Definition InstallPlanPhaseNone : string := "".
Definition InstallPlanPhasePlanning : string := "Planning".
Definition InstallPlanPhaseRequiresApproval : string := "RequiresApproval".
Definition InstallPlanPhaseInstalling : string := "Installing".
Definition InstallPlanPhaseComplete : string := "Complete".
Definition InstallPlanPhaseFailed : string := "Failed".

Definition InstallPlanInstalled : string := "Installed".
Definition InstallPlanReasonInstallCheckFailed : string := "InstallCheckFailed".
Definition InstallPlanReasonComponentFailed : string := "InstallComponentFailed".

Definition StepStatusUnknown : string := "Unknown".
Definition StepStatusNotPresent : string := "NotPresent".
Definition StepStatusPresent : string := "Present".
Definition StepStatusCreated : string := "Created".
Definition StepStatusWaitingForAPI : string := "WaitingForApi".
Definition StepStatusUnsupportedResource : string := "UnsupportedResource".

Record StepResource := mkStepResource {
  sr_CatalogSource : string; sr_CatalogSourceNamespace : string;
  sr_Group : string; sr_Version : string; sr_Kind : string; sr_Name : string; sr_Manifest : string
}.
Record Step := mkStep { step_Resolving : string; step_Resource : StepResource; step_Optional : bool; step_Status : string }.
#[export] Instance StepResource_eq_dec : EqDecision StepResource.
Proof. solve_decision. Defined.
#[export] Instance Step_eq_dec : EqDecision Step.
Proof. solve_decision. Defined.

Record InstallPlanCondition := mkIPCond {
  ipc_Type : string; ipc_Status : string; ipc_LastUpdateTime : option Time; ipc_LastTransitionTime : option Time;
  ipc_Reason : string; ipc_Message : string
}.
#[export] Instance InstallPlanCondition_eq_dec : EqDecision InstallPlanCondition.
Proof. solve_decision. Defined.

Definition BundleLookupPending : string := "BundleLookupPending".
Definition BundleLookupFailed : string := "BundleLookupFailed".
Definition crdKind : string := "CustomResourceDefinition".

Record BundleLookupCondition := mkBLCond {
  blc_Type : string; blc_Status : string; blc_Reason : string; blc_Message : string;
  blc_LastUpdateTime : option Time; blc_LastTransitionTime : option Time
}.
#[export] Instance BundleLookupCondition_eq_dec : EqDecision BundleLookupCondition.
Proof. solve_decision. Defined.

Record BundleLookup := mkLookup {
  bl_Path : string; bl_Identifier : string; bl_Replaces : string; bl_CatalogSourceRef : ObjectReference;
  bl_Conditions : list BundleLookupCondition; bl_Properties : string
}.
#[export] Instance BundleLookup_eq_dec : EqDecision BundleLookup.
Proof. solve_decision. Defined.

Definition setLookupConditions (b : BundleLookup) (conds : list BundleLookupCondition) : BundleLookup :=
  mkLookup (bl_Path b) (bl_Identifier b) (bl_Replaces b) (bl_CatalogSourceRef b) conds (bl_Properties b).

Definition Lookup_GetCondition (b : BundleLookup) (conditionType : string) : BundleLookupCondition :=
  default (mkBLCond conditionType ConditionUnknown "" "" None None) (findCond blc_Type conditionType (bl_Conditions b)).

(** Removes the first condition of the type. *)
Fixpoint removeFirst (conditionType : string) (conds : list BundleLookupCondition) : list BundleLookupCondition :=
  match conds with
  | [] => []
  | c :: conds' => if bool_decide (blc_Type c = conditionType) then conds' else c :: removeFirst conditionType conds'
  end.
Definition Lookup_RemoveCondition (b : BundleLookup) (conditionType : string) : BundleLookup :=
  setLookupConditions b (removeFirst conditionType (bl_Conditions b)).

(** A condition whose status does not change keeps its transition time. *)
Definition mergeLookupCond (existing cond : BundleLookupCondition) : BundleLookupCondition :=
  if bool_decide (blc_Status existing = blc_Status cond)
  then mkBLCond (blc_Type cond) (blc_Status cond) (blc_Reason cond) (blc_Message cond) (blc_LastUpdateTime cond)
         (blc_LastTransitionTime existing)
  else cond.
Definition Lookup_SetCondition (b : BundleLookup) (cond : BundleLookupCondition) : BundleLookup :=
  setLookupConditions b (setCond blc_Type mergeLookupCond cond (bl_Conditions b)).

Record InstallPlanSpec := mkIPSpec {
  ips_ClusterServiceVersionNames : list string; ips_Approval : string; ips_Approved : bool; ips_Generation : Z
}.

Record InstallPlanStatus := mkIPStatus {
  ipt_Phase : string; ipt_Conditions : list InstallPlanCondition; ipt_CatalogSources : list string;
  ipt_Plan : list Step; ipt_BundleLookups : list BundleLookup;
  ipt_AttenuatedServiceAccountRef : option ObjectReference; ipt_StartTime : option Time; ipt_Message : string
}.
#[export] Instance InstallPlanStatus_eq_dec : EqDecision InstallPlanStatus.
Proof. solve_decision. Defined.

Record InstallPlan := mkPlan {
  ip_obj : Object; ip_CreationTimestamp : Time; ip_Spec : InstallPlanSpec; ip_Status : InstallPlanStatus
}.
Definition ip_Name (p : InstallPlan) : string := OName (ip_obj p).
Definition ip_Namespace (p : InstallPlan) : string := ONamespace (ip_obj p).
Definition ip_Generation (p : InstallPlan) : Z := ips_Generation (ip_Spec p).
Definition setPlanStatus (p : InstallPlan) (s : InstallPlanStatus) : InstallPlan :=
  mkPlan (ip_obj p) (ip_CreationTimestamp p) (ip_Spec p) s.

Definition Plan_GetCondition (s : InstallPlanStatus) (conditionType : string) : InstallPlanCondition :=
  default (mkIPCond conditionType ConditionUnknown None None "" "") (findCond ipc_Type conditionType (ipt_Conditions s)).

Definition mergePlanCond (existing cond : InstallPlanCondition) : InstallPlanCondition :=
  if bool_decide (ipc_Status existing = ipc_Status cond)
  then mkIPCond (ipc_Type cond) (ipc_Status cond) (ipc_LastUpdateTime cond) (ipc_LastTransitionTime existing)
         (ipc_Reason cond) (ipc_Message cond)
  else cond.
Definition Plan_SetCondition (s : InstallPlanStatus) (cond : InstallPlanCondition) : InstallPlanStatus :=
  mkIPStatus (ipt_Phase s) (setCond ipc_Type mergePlanCond cond (ipt_Conditions s)) (ipt_CatalogSources s) (ipt_Plan s)
    (ipt_BundleLookups s) (ipt_AttenuatedServiceAccountRef s) (ipt_StartTime s) (ipt_Message s).

(** [ConditionFailed] and [ConditionMet] *)
Definition ConditionFailed (cond reason message : string) (now : Time) : InstallPlanCondition :=
  mkIPCond cond ConditionFalse (Some now) (Some now) reason message.
Definition ConditionMet (cond : string) (now : Time) : InstallPlanCondition :=
  mkIPCond cond ConditionTrue (Some now) (Some now) "" "".

Definition NeedsRequeue (s : InstallPlanStatus) : bool :=
  existsb (fun step => bool_decide (step_Status step = StepStatusWaitingForAPI)) (ipt_Plan s).

(** CSVs first, then CRDs, then the rest. *)
Definition OrderSteps (steps : list Step) : list Step :=
  let kind s := sr_Kind (step_Resource s) in
  let csvList := List.filter (fun s => negb (bool_decide (kind s = crdKind)) && bool_decide (kind s = ClusterServiceVersionKind)) steps in
  let crdList := List.filter (fun s => bool_decide (kind s = crdKind)) steps in
  let remainingResources :=
    List.filter (fun s => negb (bool_decide (kind s = crdKind)) && negb (bool_decide (kind s = ClusterServiceVersionKind))) steps in
  csvList ++ crdList ++ remainingResources.

Definition EnsureCatalogSource (s : InstallPlanStatus) (sourceName : string) : InstallPlanStatus :=
  if existsb (fun srcName => bool_decide (srcName = sourceName)) (ipt_CatalogSources s) then s
  else mkIPStatus (ipt_Phase s) (ipt_Conditions s) (ipt_CatalogSources s ++ [sourceName]) (ipt_Plan s) (ipt_BundleLookups s)
    (ipt_AttenuatedServiceAccountRef s) (ipt_StartTime s) (ipt_Message s).

(** ** Subscriptions (subscription_types.go) *)

Definition SubscriptionKind : string := "Subscription".
Definition SubscriptionStateNone : string := "".
Definition SubscriptionStateFailed : string := "UpgradeFailed".
Definition SubscriptionStateUpgradeAvailable : string := "UpgradeAvailable".
Definition SubscriptionStateUpgradePending : string := "UpgradePending".
Definition SubscriptionStateAtLatest : string := "AtLatestKnown".

Definition SubscriptionCatalogSourcesUnhealthy : string := "CatalogSourcesUnhealthy".
Definition SubscriptionInstallPlanMissing : string := "InstallPlanMissing".
Definition SubscriptionInstallPlanPending : string := "InstallPlanPending".
Definition SubscriptionInstallPlanFailed : string := "InstallPlanFailed".
Definition SubscriptionResolutionFailed : string := "ResolutionFailed".
Definition SubscriptionBundleUnpacking : string := "BundleUnpacking".
Definition SubscriptionBundleUnpackFailed : string := "BundleUnpackFailed".
Definition SubscriptionDeprecated : string := "Deprecated".
Definition SubscriptionPackageDeprecated : string := "PackageDeprecated".
Definition SubscriptionChannelDeprecated : string := "ChannelDeprecated".
Definition SubscriptionBundleDeprecated : string := "BundleDeprecated".

Definition NoCatalogSourcesFound : string := "NoCatalogSourcesFound".
Definition AllCatalogSourcesHealthy : string := "AllCatalogSourcesHealthy".
Definition CatalogSourcesAdded : string := "CatalogSourcesAdded".
Definition CatalogSourcesUpdated : string := "CatalogSourcesUpdated".
Definition CatalogSourcesDeleted : string := "CatalogSourcesDeleted".
Definition UnhealthyCatalogSourceFound : string := "UnhealthyCatalogSourceFound".
Definition ReferencedInstallPlanNotFound : string := "ReferencedInstallPlanNotFound".
Definition InstallPlanNotYetReconciled : string := "InstallPlanNotYetReconciled".
Definition InstallPlanFailed : string := "InstallPlanFailed".

Record SubscriptionSpec := mkSubSpec {
  ss_CatalogSource : string; ss_CatalogSourceNamespace : string; ss_Package : string; ss_Channel : string;
  ss_StartingCSV : string; ss_InstallPlanApproval : string
}.

Record SubscriptionCondition := mkSubCond {
  sc_Type : string; sc_Status : string; sc_Reason : string; sc_Message : string;
  sc_LastHeartbeatTime : option Time; sc_LastTransitionTime : option Time
}.
#[export] Instance SubscriptionCondition_eq_dec : EqDecision SubscriptionCondition.
Proof. solve_decision. Defined.

(** [SubscriptionCondition.Equals]: type, status, reason and message only. *)
Definition Cond_Equals (s condition : SubscriptionCondition) : bool :=
  bool_decide (sc_Type s = sc_Type condition) && bool_decide (sc_Status s = sc_Status condition)
  && bool_decide (sc_Reason s = sc_Reason condition) && bool_decide (sc_Message s = sc_Message condition).

Record SubscriptionCatalogHealth := mkHealth {
  h_CatalogSourceRef : ObjectReference; h_LastUpdated : option Time; h_Healthy : bool
}.
#[export] Instance SubscriptionCatalogHealth_eq_dec : EqDecision SubscriptionCatalogHealth.
Proof. solve_decision. Defined.

(** [SubscriptionCatalogHealth.Equals]: health and UID only. *)
Definition Health_Equals (s health : SubscriptionCatalogHealth) : bool :=
  Bool.eqb (h_Healthy s) (h_Healthy health)
  && bool_decide (or_UID (h_CatalogSourceRef s) = or_UID (h_CatalogSourceRef health)).

(** [InstallPlanReference] and [NewInstallPlanReference] *)
Record InstallPlanReference := mkIPRef { ipr_APIVersion : string; ipr_Kind : string; ipr_Name : string; ipr_UID : string }.
#[export] Instance InstallPlanReference_eq_dec : EqDecision InstallPlanReference.
Proof. solve_decision. Defined.
Definition NewInstallPlanReference (ref : ObjectReference) : InstallPlanReference :=
  mkIPRef (or_APIVersion ref) (or_Kind ref) (or_Name ref) (or_UID ref).

Record SubscriptionStatus := mkSubStatus {
  su_CurrentCSV : string; su_InstalledCSV : string; su_Install : option InstallPlanReference; su_State : string;
  su_InstallPlanGeneration : Z; su_InstallPlanRef : option ObjectReference;
  su_CatalogHealth : list SubscriptionCatalogHealth; su_Conditions : list SubscriptionCondition; su_LastUpdated : Time
}.
#[export] Instance SubscriptionStatus_eq_dec : EqDecision SubscriptionStatus.
Proof. solve_decision. Defined.

Record Subscription := mkSub {
  sub_obj : Object; sub_Annotations : option (gmap string string); sub_Spec : SubscriptionSpec; sub_Status : SubscriptionStatus
}.
Definition sub_Name (s : Subscription) : string := OName (sub_obj s).
Definition sub_Namespace (s : Subscription) : string := ONamespace (sub_obj s).

Definition GetInstallPlanApproval (s : Subscription) : string :=
  if bool_decide (ss_InstallPlanApproval (sub_Spec s) = ApprovalManual) then ApprovalManual else ApprovalAutomatic.

Definition GetCondition (s : SubscriptionStatus) (conditionType : string) : SubscriptionCondition :=
  default (mkSubCond conditionType ConditionUnknown "" "" None None) (findCond sc_Type conditionType (su_Conditions s)).

Definition withSubConditions (s : SubscriptionStatus) (conds : list SubscriptionCondition) : SubscriptionStatus :=
  mkSubStatus (su_CurrentCSV s) (su_InstalledCSV s) (su_Install s) (su_State s) (su_InstallPlanGeneration s)
    (su_InstallPlanRef s) (su_CatalogHealth s) conds (su_LastUpdated s).
Definition SetCondition (s : SubscriptionStatus) (condition : SubscriptionCondition) : SubscriptionStatus :=
  withSubConditions s (setCond sc_Type (fun _ c => c) condition (su_Conditions s)).
Definition RemoveConditions (s : SubscriptionStatus) (remove : list string) : SubscriptionStatus :=
  withSubConditions s (removeConds sc_Type remove (su_Conditions s)).

Definition setSubStatus (s : Subscription) (st : SubscriptionStatus) : Subscription :=
  mkSub (sub_obj s) (sub_Annotations s) (sub_Spec s) st.
Definition setLastUpdated (s : SubscriptionStatus) (now : Time) : SubscriptionStatus :=
  mkSubStatus (su_CurrentCSV s) (su_InstalledCSV s) (su_Install s) (su_State s) (su_InstallPlanGeneration s)
    (su_InstallPlanRef s) (su_CatalogHealth s) (su_Conditions s) now.

(** ** Lemmas *)

Lemma GetCondition_Set s cond t :
  GetCondition (SetCondition s cond) t = if bool_decide (t = sc_Type cond) then cond else GetCondition s t.
Proof. unfold GetCondition, SetCondition. simpl. rewrite findCond_set by done. case_bool_decide; [by case_match|done]. Qed.

Lemma GetCondition_Remove s remove t :
  GetCondition (RemoveConditions s remove) t =
  if bool_decide (t ∈ remove) then mkSubCond t ConditionUnknown "" "" None None else GetCondition s t.
Proof. unfold GetCondition, RemoveConditions. simpl. rewrite findCond_remove. by case_bool_decide. Qed.

Lemma GetCondition_type s t : sc_Type (GetCondition s t) = t.
Proof. unfold GetCondition. destruct (findCond _ _ _) as [c|] eqn:E; [by apply findCond_Some in E as [_ ?]|done]. Qed.

Lemma Cond_Equals_true c d :
  Cond_Equals c d = true <-> sc_Type c = sc_Type d /\ sc_Status c = sc_Status d /\ sc_Reason c = sc_Reason d /\ sc_Message c = sc_Message d.
Proof. unfold Cond_Equals. rewrite !andb_true_iff, !bool_decide_eq_true. tauto. Qed.

(** The order in which an install plan applies its steps: every step once, CSVs before CRDs before
    the rest, and steps of the same group in the order they were given. *)
Lemma OrderSteps_perm steps : OrderSteps steps ≡ₚ steps.
Proof.
  unfold OrderSteps. cbv zeta. induction steps as [|s steps IH]; [done|]. simpl.
  destruct (bool_decide (sr_Kind _ = crdKind)); simpl.
  - rewrite <-Permutation_middle. by rewrite IH.
  - destruct (bool_decide (sr_Kind _ = ClusterServiceVersionKind)); simpl; [by rewrite IH|].
    rewrite app_assoc, <-Permutation_middle, <-app_assoc. by rewrite IH.
Qed.
