(* ===== verification/SnapshotSources.v ===== *)
(** * Where the snapshots of the resolver come from

    Models [resolver/source_registry.go] (entries for the bundles a registry serves), [source_csvs.go]
    (entries for the CSVs of a namespace) and [projection/properties.go], with the property encoders of
    [resolver.go].  JSON and version parsing are parameters ([SnapshotLib]).  Entries are allocated: the
    [i]-th entry of a snapshot is the object [base + i]. *)

From S2P Require Import Prelude GoStrings OwnerUtil CatalogModel SatInterface SatDemo LitMapping ChoiceDeque SolverSearch SolverSolve ResolverCache ResolverVariables ResolverResolve ResolverSound CsvTypes OperatorGroups ReplaceChain CatalogTypes.

#[local] Arguments String.append : simpl nomatch.

(** The encoders, with what decoding gives back for valid UTF-8. *)
Class SnapshotLib `{ResolverLib} := {
  ParseTolerant : string -> option Version;
  version_is_zero : Version -> bool;
  encGVKProperty : string -> string -> string -> string;
  encRequiredGVK : string -> string -> string -> string;
  encPackageProperty : string -> string -> string;
  encRequiredPackage : string -> string -> string;
  encAnnotation : list Property -> option string;
  decAnnotation : string -> option (list Property);
  decLegacyGVK : string -> option (string * string * string);
  decLegacyPackage : string -> option (string * string);
  utf8 : string -> Prop;
  decGVK_enc : forall g v k, utf8 g -> utf8 v -> utf8 k -> decGVKProperty (encGVKProperty g v k) = Some (mkGVKProp g k v);
  decRequiredGVK_enc : forall g v k, utf8 g -> utf8 v -> utf8 k -> ResolverCache.decRequiredGVK (encRequiredGVK g v k) = Some (mkGVKProp g k v);
  decPackage_enc : forall n v, utf8 n -> utf8 v -> decPackageProperty (encPackageProperty n v) = Some (mkPackageProp n v);
  compactJSON : string -> Prop;  (* JSON without white space and characters that are escaped in HTML *)
  decAnnotation_enc : forall props s, (forall p, p ∈ props -> utf8 (PType p) /\ compactJSON (PValue p)) ->
    encAnnotation props = Some s -> decAnnotation s = Some props;
}.

(** ** Properties (resolver.go, projection/properties.go) *)

Section properties.
Context `{SnapshotLib, RangeOrder, SortLib}.

Definition setKeys (apis : APISet) : list APIKey := (range (gset_to_gmap tt apis)).*1.
Definition valueLess (a b : Property) : bool := bool_decide (strict String.le (PValue a) (PValue b)).

Definition providedAPIsToProperties (apis : APISet) : list Property :=
  sortBy valueLess ((fun a => mkProperty GVKType (encGVKProperty (ak_Group a) (ak_Version a) (ak_Kind a))) <$> setKeys apis).
Definition requiredAPIsToProperties (apis : APISet) : list Property :=
  sortBy valueLess ((fun a => mkProperty "olm.gvk.required" (encRequiredGVK (ak_Group a) (ak_Version a) (ak_Kind a))) <$> setKeys apis).

Definition PropertiesAnnotationKey : string := "operatorframework.io/properties".

Definition PropertiesAnnotationFromPropertyList (props : list Property) : error + string :=
  match encAnnotation props with
  | None => inl (ErrString "failed to marshal properties annotation")
  | Some v => inr v
  end.
Definition PropertyListFromPropertiesAnnotation (raw : string) : error + list Property :=
  match decAnnotation raw with
  | None => inl (ErrString "failed to unmarshal properties annotation")
  | Some props => inr props
  end.

(** ** Entries of a registry (source_registry.go) *)

Definition EnsurePackageProperty (o : Entry) (name version : string) : list Property :=
  if existsb (fun p => bool_decide (PType p = PackageType)) (e_Properties o) then e_Properties o
  else e_Properties o ++ [mkProperty PackageType (encPackageProperty name version)].

(** [None] is a value that cannot be decoded; dependencies of other types are dropped. *)
Definition legacyDependency (d : Property) : error + list Property :=
  if bool_decide (PType d = "olm.gvk") then
    match decLegacyGVK (PValue d) with
    | None => inl (ErrString "failed to unmarshal legacy 'olm.gvk' dependency")
    | Some (g, v, k) => inr [mkProperty "olm.gvk.required" (encRequiredGVK g v k)]
    end
  else if bool_decide (PType d = "olm.package") then
    match decLegacyPackage (PValue d) with
    | None => inl (ErrString "failed to unmarshal legacy 'olm.package' dependency")
    | Some (n, r) => inr [mkProperty "olm.package.required" (encRequiredPackage n r)]
    end
  else if bool_decide (PType d = "olm.label") then inr [mkProperty "olm.label.required" (PValue d)]
  else if bool_decide (PType d = "olm.constraint") then inr [mkProperty "olm.constraint" (PValue d)]
  else inr [].
Definition legacyDependenciesToProperties (dependencies : list Property) : error + list Property :=
  foldE (fun result d => match legacyDependency d with inl err => inl err | inr ps => inr (result ++ ps) end) [] dependencies.

Definition newOperatorFromBundle (addr : nat) (bundle : APIBundle) (startingCSV : string) (sourceKey : SourceKey) (defaultChannel : string) : error + Entry :=
  let provided : APISet := list_to_set (ab_ProvidedApis bundle) in
  let required : APISet := list_to_set (ab_RequiredApis bundle) in
  let sourceInfo := mkSourceInfo (ab_PackageName bundle) (ab_ChannelName bundle) startingCSV sourceKey
                      (bool_decide (ab_ChannelName bundle = defaultChannel)) None None in
  let properties := if (length (ab_Properties bundle) =? 0)%nat then providedAPIsToProperties provided else ab_Properties bundle in
  match (if (0 <? length (ab_Dependencies bundle))%nat
         then match legacyDependenciesToProperties (ab_Dependencies bundle) with
              | inl err => inl (ErrString ("failed to translate legacy dependencies to properties: " +:+ Error_ err))
              | inr ps => inr ps
              end
         else inr (requiredAPIsToProperties required)) with
  | inl err => inl err
  | inr ps =>
      inr (mkEntry addr (ab_CsvName bundle) (ab_Replaces bundle) (ab_Skips bundle) (ParseRange (ab_SkipRange bundle)) provided required
             (ParseTolerant (ab_Version bundle)) (Some sourceInfo) (properties ++ ps) (ab_BundlePath bundle)
             (if bool_decide (ab_BundlePath bundle = "") then Some bundle else None))
  end.

(** [api.Package] *)
Record APIPackage := mkAPIPackage {
  ap_Name : string; ap_Channels : list (string * option string); ap_DefaultChannelName : string; ap_Deprecation : option string
}.

(** Whatever is deprecated, with its message; the last channel of the name counts. *)
Definition deprecationsOf (p : APIPackage) (b : APIBundle) : option Deprecations :=
  let pkg := (fun m => "olm.package/" +:+ ap_Name p +:+ ": " +:+ m) <$> ap_Deprecation p in
  let channel := foldl (fun acc '(c, d) =>
    match d with Some m => if bool_decide (c = ab_ChannelName b) then Some ("olm.channel/" +:+ c +:+ ": " +:+ m) else acc | None => acc end) None (ap_Channels p) in
  let bundle := (fun m => "olm.bundle/" +:+ ab_CsvName b +:+ ": " +:+ m) <$> ab_Deprecation b in
  match pkg, channel, bundle with None, None, None => None | _, _, _ => Some (mkDeprecations pkg channel bundle) end.

(** The entry of a bundle as the snapshot has it. *)
Definition finishEntry (o : Entry) (p : APIPackage) (b : APIBundle) : Entry :=
  mkEntry (e_addr o) (e_Name o) (ab_Replaces b) (e_Skips o) (e_SkipRange o) (StripPlural (e_ProvidedAPIs o)) (StripPlural (e_RequiredAPIs o)) (e_Version o)
    ((fun si => mkSourceInfo (si_Package si) (si_Channel si) (si_StartingCSV si) (si_Catalog si) (si_DefaultChannel si) (deprecationsOf p b) (si_Subscription si))
       <$> e_SourceInfo o)
    (EnsurePackageProperty o (ab_PackageName b) (ab_Version b)) (e_BundlePath o) (e_Bundle o).

(** The registry: the bundles with the error the stream ends in, and the answer to the [n]-th query for
    a package. *)
Record RegistryClient := mkClient { rc_bundles : error + list APIBundle * option error; rc_package : nat -> string -> error + APIPackage }.

(** The loop over the bundles, with the packages that are known and the number of queries. *)
Fixpoint snapshotLoop (client : RegistryClient) (key : SourceKey) (bs : list APIBundle) (packages : gmap string APIPackage) (queries : nat) (addr : nat)
    : list Entry :=
  match bs with
  | [] => []
  | b :: bs' =>
      let '(found, packages, queries) :=
        match packages !! ab_PackageName b with
        | Some p => (Some p, packages, queries)
        | None =>
            match rc_package client queries (ab_PackageName b) with
            | inl _ => (None, packages, S queries)
            | inr p => (Some p, <[ab_PackageName b := p]> packages, S queries)
            end
        end in
      match found with
      | None => snapshotLoop client key bs' packages queries addr
      | Some p =>
          match newOperatorFromBundle addr b "" key (ap_DefaultChannelName p) with
          | inl _ => snapshotLoop client key bs' packages queries addr
          | inr o => finishEntry o p b :: snapshotLoop client key bs' packages queries (S addr)
          end
      end
  end.

Definition registrySnapshot (client : RegistryClient) (key : SourceKey) (base : nat) : error + list Entry :=
  match rc_bundles client with
  | inl err => inl (ErrString ("failed to list bundles: " +:+ Error_ err))
  | inr (bs, streamErr) =>
      let operators := snapshotLoop client key bs ∅ 0 base in
      match streamErr with
      | Some err => inl (ErrString ("error encountered while listing bundles: " +:+ Error_ err))
      | None => inr operators
      end
  end.
End properties.

(** ** Entries of installed operators (source_csvs.go) *)

Section csvs.
Context `{SnapshotLib, RangeOrder, SortLib}.
(** [csv.Spec.Version.Version] *)
Context (csvVersion : CSV -> Version).

Definition crdKey (crdDef : CRDDescription) : error + APIKey :=
  match SplitN2 "."%char (crd_Name crdDef) with
  | [plural; group] => inr (mkAPIKey group (crd_Version crdDef) (crd_Kind crdDef) plural)
  | _ => inl (ErrString ("error parsing crd name: " +:+ crd_Name crdDef))
  end.
Definition apiKey (api : APIServiceDescription) : APIKey := mkAPIKey (as_Group api) (as_Version api) (as_Kind api) (as_Name api).
Definition apisOf (crds : list CRDDescription) (apis : list APIServiceDescription) : error + APISet :=
  match foldE (fun set crd => match crdKey crd with inl err => inl err | inr key => inr (set ∪ {[key]} : APISet) end) ∅ crds with
  | inl err => inl err
  | inr set => inr (set ∪ list_to_set (apiKey <$> apis))
  end.

Definition newEntryFromV1Alpha1CSV (addr : nat) (csv : CSV) : error + Entry :=
  match apisOf (spec_CRDs_Owned (csv_Spec csv)) (spec_APIServices_Owned (csv_Spec csv)) with
  | inl err => inl err
  | inr providedAPIs =>
      match apisOf (spec_CRDs_Required (csv_Spec csv)) (spec_APIServices_Required (csv_Spec csv)) with
      | inl err => inl err
      | inr requiredAPIs =>
          inr (mkEntry addr (csv_Name csv) "" [] None providedAPIs requiredAPIs (Some (csvVersion csv))
                 (Some (mkSourceInfo "" "" "" (mkKey "" "") false None None))
                 (providedAPIsToProperties providedAPIs ++ requiredAPIsToProperties requiredAPIs) "" None)
      end
  end.

(** A package is inferred when the subscriptions of the CSV name exactly one. *)
Definition inferProperties (csv : CSV) (subs : list CatalogTypes.Subscription) : list Property :=
  let packages : gset string := list_to_set (omap (fun sub =>
    if bool_decide (su_InstalledCSV (sub_Status sub) = csv_Name csv) && negb (bool_decide (ss_Package (sub_Spec sub) = ""))
    then Some (ss_Package (sub_Spec sub)) else None) subs) in
  match elements packages with
  | [pkg] =>
      let version := if version_is_zero (csvVersion csv) then "" else version_string (csvVersion csv) in
      [mkProperty PackageType (encPackageProperty pkg version)]
  | _ => []
  end.

(** What the source reads; the live list is asked once per CSV without a subscription. *)
Record CsvSource := mkCsvSource {
  cs_key : SourceKey; cs_csvs : error + list CSV; cs_subs : error + list CatalogTypes.Subscription;
  cs_groups : error + list OperatorGroup; cs_liveSubs : nat -> error + list CatalogTypes.Subscription
}.

(** The subscriptions of CSVs, by the position of the CSV. *)
Definition firstInstalled (csvs : list CSV) (sub : CatalogTypes.Subscription) : option nat :=
  fst <$> list_find (fun csv => IsCopied csv = false /\ csv_Name csv = su_InstalledCSV (sub_Status sub)) csvs.
Definition csvSubscriptions (csvs : list CSV) (subs : list CatalogTypes.Subscription) : gmap nat CatalogTypes.Subscription :=
  foldl (fun m sub => match firstInstalled csvs sub with Some i => <[i := sub]> m | None => m end) ∅ subs.

(** The last package property that can be decoded. *)
Definition packageOf (props : list Property) : string :=
  foldl (fun acc p => if bool_decide (PType p = PackageType) then match decPackageProperty (PValue p) with Some pp => PackageName pp | None => acc end else acc)
    "" props.

(** The entry of one CSV: [None] when it is left out. *)
Definition csvEntry (key : SourceKey) (csvs : list CSV) (subs : list CatalogTypes.Subscription) (failForwardEnabled : bool)
    (sub : option CatalogTypes.Subscription) (live : error + list CatalogTypes.Subscription) (addr : nat) (csv : CSV) : option (error + option Entry) :=
  let incoherent :=
    match sub with
    | Some _ => None
    | None =>
        match live with
        | inl err => Some (ErrString ("failed to list subscriptions: " +:+ Error_ err))
        | inr real =>
            match List.find (fun s => bool_decide (su_InstalledCSV (sub_Status s) = csv_Name csv)) real with
            | Some s => Some (ErrString ("lister caches incoherent for CSV " +:+ csv_Namespace csv +:+ "/" +:+ csv_Name csv +:+ " - found owning Subscription "
                                +:+ CatalogTypes.sub_Namespace s +:+ "/" +:+ CatalogTypes.sub_Name s))
            | None => None
            end
        end
    end in
  match incoherent with
  | Some err => Some (inl err)
  | None =>
      match (if failForwardEnabled then isReplacementChainThatEndsInFailure (Some csv) (ReplacementMapping csvs) else Some (inr false)) with
      | None => None
      | Some (inl err) => Some (inl err)
      | Some (inr endsInFailure) =>
          if failForwardEnabled && bool_decide (csv_Phase csv = CSVPhaseReplacing) && endsInFailure then Some (inr None)
          else
            match newEntryFromV1Alpha1CSV addr csv with
            | inl err => Some (inl err)
            | inr entry =>
                let properties :=
                  match default ∅ (csv_Annotations csv) !! PropertiesAnnotationKey with
                  | None => inr (e_Properties entry ++ inferProperties csv subs)
                  | Some anno =>
                      match PropertyListFromPropertiesAnnotation anno with
                      | inl err => inl (ErrString ("failed to retrieve properties of csv " +:+ csv_Name csv +:+ ": " +:+ Error_ err))
                      | inr props => inr props
                      end
                  end in
                match properties with
                | inl err => Some (inl err)
                | inr props =>
                    Some (inr (Some (mkEntry (e_addr entry) (e_Name entry) (e_Replaces entry) (e_Skips entry) (e_SkipRange entry) (e_ProvidedAPIs entry)
                      (e_RequiredAPIs entry) (e_Version entry) (Some (mkSourceInfo (packageOf props) "" "" key false None (CatalogTypes.sub_Name <$> sub))) props
                      (e_BundlePath entry) (e_Bundle entry))))
                end
            end
      end
  end.

Fixpoint csvLoop (src : CsvSource) (csvs : list CSV) (subs : list CatalogTypes.Subscription) (failForwardEnabled : bool) (rest : list CSV)
    (i queries addr : nat) : option (error + list Entry) :=
  match rest with
  | [] => Some (inr [])
  | csv :: rest' =>
      if IsCopied csv then csvLoop src csvs subs failForwardEnabled rest' (S i) queries addr
      else
        let sub := csvSubscriptions csvs subs !! i in
        match csvEntry (cs_key src) csvs subs failForwardEnabled sub (cs_liveSubs src queries) addr csv with
        | None => None
        | Some (inl err) => Some (inl err)
        | Some (inr entry) =>
            let queries := match sub with Some _ => queries | None => S queries end in
            match csvLoop src csvs subs failForwardEnabled rest' (S i) queries (match entry with Some _ => S addr | None => addr end) with
            | Some (inr entries) => Some (inr (option_list entry ++ entries))
            | other => other
            end
        end
  end.

(** [csvSource.Snapshot]; [None] cannot happen, see [csvSnapshot_returns]. *)
Definition csvSnapshot (src : CsvSource) (base : nat) : option (error + list Entry) :=
  match cs_csvs src with
  | inl err => Some (inl err)
  | inr csvs =>
      match cs_subs src with
      | inl err => Some (inl err)
      | inr subs =>
          match IsFailForwardEnabled (cs_groups src) with
          | inl err => Some (inl err)
          | inr failForwardEnabled => csvLoop src csvs subs failForwardEnabled csvs 0 0 base
          end
      end
  end.
End csvs.

(** ** Sources *)

(** [errorSource], [registrySource] and [csvSource] *)
Inductive Source `{SnapshotLib} :=
  | errorSource (err : error)
  | registrySource (client : RegistryClient)
  | csvSource (src : CsvSource).

Section sources.
Context `{SnapshotLib, RangeOrder, SortLib} (csvVersion : CSV -> Version).

(** [RegistrySourceProvider.Sources]: the first namespace that cannot be listed is the only source. *)
Fixpoint listCatalogs (list_ : string -> error + list SourceKey) (namespaces : list string) (cats : list SourceKey) : string * error + list SourceKey :=
  match namespaces with
  | [] => inr cats
  | ns :: namespaces' => match list_ ns with inl err => inl (ns, err) | inr found => listCatalogs list_ namespaces' (cats ++ found) end
  end.
Definition registrySources (list_ : string -> error + list SourceKey) (clients : gmap SourceKey RegistryClient) (namespaces : list string)
    : gmap SourceKey Source :=
  match listCatalogs list_ namespaces [] with
  | inl (ns, err) => {[mkKey "" ns := errorSource (ErrString ("failed to list catalogsources for namespace " +:+ ns +:+ ": " +:+ Error_ err))]}
  | inr cats =>
      foldl (fun result key => <[key := match clients !! key with
                                        | Some client => registrySource client
                                        | None => errorSource (ErrString ("no registry client established for catalogsource " +:+ sk_Namespace key +:+ "/" +:+ sk_Name key))
                                        end]> result) ∅ cats
  end.

(** [csvSourceProvider.Sources]: the first namespace is the target. *)
Definition csvSources (read : string -> CsvSource) (namespaces : list string) : gmap SourceKey Source :=
  match namespaces with [] => ∅ | ns :: _ => {[NewVirtualSourceKey ns := csvSource (read ns)]} end.

(** [mergedSourceProvider.Sources]: a later provider overwrites. *)
Definition mergedSources (sps : list (gmap SourceKey Source)) : gmap SourceKey Source := foldl (fun result sp => sp ∪ result) ∅ sps.

Definition Snapshot (src : Source) (key : SourceKey) (base : nat) : option (error + list Entry) :=
  match src with
  | errorSource err => Some (inl err)
  | registrySource client => Some (registrySnapshot client key base)
  | csvSource s => csvSnapshot csvVersion s base
  end.

(** Every source is read into a header of its own. *)
Definition header (key : SourceKey) (priority : Z) (result : error + list Entry) : snapshotHeader :=
  match result with inl _ => mkHeader key None true priority | inr entries => mkHeader key (Some entries) false priority end.
Fixpoint readSources (priority : SourceKey -> Z) (sources : list (SourceKey * Source)) (base : nat) : option (gmap SourceKey snapshotHeader) :=
  match sources with
  | [] => Some ∅
  | (key, src) :: sources' =>
      match Snapshot src key base with
      | None => None
      | Some result =>
          match readSources priority sources' (base + length (default [] (h_snapshot (header key (priority key) result)))) with
          | None => None
          | Some snapshots => Some (<[key := header key (priority key) result]> snapshots)
          end
      end
  end.

(** ** What the entries are *)

(** A list of entries as a source makes it: distinct objects from an address on, of one catalog. *)
Definition allocated (base : nat) (key : SourceKey) (entries : list Entry) : Prop :=
  e_addr <$> entries = seq base (length entries) /\ Forall (fun e => exists si, e_SourceInfo e = Some si /\ si_Catalog si = key) entries.

Lemma allocated_nil base key : allocated base key [].
Proof. by split. Qed.
Lemma allocated_cons base key e entries :
  e_addr e = base -> (exists si, e_SourceInfo e = Some si /\ si_Catalog si = key) -> allocated (S base) key entries -> allocated base key (e :: entries).
Proof. intros Ha Hs [Hl Hf]. split; [cbn; by rewrite Ha, Hl|by constructor]. Qed.

Lemma newOperator_fields addr b start key ch o :
  newOperatorFromBundle addr b start key ch = inr o ->
  e_addr o = addr /\ e_Name o = ab_CsvName b /\
  e_SourceInfo o = Some (mkSourceInfo (ab_PackageName b) (ab_ChannelName b) start key (bool_decide (ab_ChannelName b = ch)) None None).
Proof. unfold newOperatorFromBundle. cbv zeta. case_match; [done|]. intros [= <-]. done. Qed.

Lemma snapshotLoop_ok client key bs packages queries addr :
  let entries := snapshotLoop client key bs packages queries addr in
  allocated addr key entries /\
  (fun e => (e_Name e, Entry_Channel e)) <$> entries `sublist_of` (fun b => (ab_CsvName b, ab_ChannelName b)) <$> bs.
Proof.
  cbv zeta. revert packages queries addr. induction bs as [|b bs IH]; intros packages queries addr; cbn [snapshotLoop fmap list_fmap].
  { split; [apply allocated_nil|constructor]. }
  assert (forall found packages queries,
    let r := match found with
      | None => snapshotLoop client key bs packages queries addr
      | Some p => match newOperatorFromBundle addr b "" key (ap_DefaultChannelName p) with
                  | inl _ => snapshotLoop client key bs packages queries addr
                  | inr o => finishEntry o p b :: snapshotLoop client key bs packages queries (S addr)
                  end
      end in
    allocated addr key r /\ (fun e => (e_Name e, Entry_Channel e)) <$> r `sublist_of` (ab_CsvName b, ab_ChannelName b) :: ((fun b => (ab_CsvName b, ab_ChannelName b)) <$> bs)) as Hstep.
  { intros [p|] pk q; cbv zeta; [|destruct (IH pk q addr); split; [done|by constructor]].
    destruct (newOperatorFromBundle addr b "" key (ap_DefaultChannelName p)) as [err|o] eqn:E; [destruct (IH pk q addr); split; [done|by constructor]|].
    destruct (newOperator_fields _ _ _ _ _ _ E) as (Ha & Hn & Hs). destruct (IH pk q (S addr)) as [Hal Hsub]. split.
    - apply allocated_cons; [done| |done]. cbn. rewrite Hs. by eexists.
    - cbn. unfold Entry_Channel at 1. cbn. rewrite Hs, Hn. by constructor. }
  destruct (packages !! ab_PackageName b) as [p|]; [apply (Hstep (Some p))|].
  destruct (rc_package client queries (ab_PackageName b)) as [err|p]; [apply (Hstep None)|apply (Hstep (Some p))].
Qed.

Lemma csvEntry_ok key csvs subs ff sub live addr csv r :
  csvEntry csvVersion key csvs subs ff sub live addr csv = Some (inr (Some r)) ->
  e_addr r = addr /\ e_Name r = csv_Name csv /\ is_Some (e_Version r) /\ Entry_Channel r = "" /\
  exists si, e_SourceInfo r = Some si /\ si_Catalog si = key.
Proof.
  assert (forall entry, newEntryFromV1Alpha1CSV csvVersion addr csv = inr entry ->
    e_addr entry = addr /\ e_Name entry = csv_Name csv /\ is_Some (e_Version entry)) as Hnew.
  { intros entry. unfold newEntryFromV1Alpha1CSV. case_match; [done|]. case_match; [done|]. intros [= <-]. by split_and!. }
  unfold csvEntry. cbv zeta. destruct (match sub with Some _ => _ | None => _ end); [done|].
  destruct (if ff then _ else _) as [[err|ends]|]; [done| |done]. destruct (ff && _ && ends); [done|].
  destruct (newEntryFromV1Alpha1CSV csvVersion addr csv) as [err|entry] eqn:E; [done|].
  destruct (match default ∅ (csv_Annotations csv) !! PropertiesAnnotationKey with Some _ => _ | None => _ end) as [err|props]; [done|].
  intros [= <-]. destruct (Hnew entry eq_refl) as (? & ? & ?). split_and!; try done; by eexists.
Qed.

Lemma csvEntry_returns key csvs subs ff sub live addr csv : is_Some (csvEntry csvVersion key csvs subs ff sub live addr csv).
Proof.
  unfold csvEntry. cbv zeta. case_match; [by eexists|]. destruct ff.
  - destruct (chain_ends_in_failure_correct csv (ReplacementMapping csvs)) as ([err|b] & -> & _); [by eexists|]. repeat case_match; by eexists.
  - repeat case_match; by eexists.
Qed.

Lemma csvLoop_ok src csvs subs ff rest i queries addr :
  exists r, csvLoop csvVersion src csvs subs ff rest i queries addr = Some r /\
  forall entries, r = inr entries ->
    allocated addr (cs_key src) entries /\ Forall (fun e => is_Some (e_Version e) /\ Entry_Channel e = "") entries /\
    e_Name <$> entries `sublist_of` csv_Name <$> rest.
Proof.
  revert i queries addr. induction rest as [|csv rest IH]; intros i queries addr; cbn [csvLoop fmap list_fmap].
  { exists (inr []). split; [done|]. intros entries [= <-]. split_and!; [apply allocated_nil|constructor|constructor]. }
  destruct (IsCopied csv).
  { destruct (IH (S i) queries addr) as (r & -> & Hr). exists r. split; [done|]. intros entries He. destruct (Hr entries He) as (? & ? & ?). split_and!; [done..|by constructor]. }
  destruct (csvEntry_returns (cs_key src) csvs subs ff (csvSubscriptions csvs subs !! i) (cs_liveSubs src queries) addr csv) as [[err|entry] E]; rewrite E; [by eexists|].
  set (q' := match csvSubscriptions csvs subs !! i with Some _ => queries | None => S queries end).
  destruct (IH (S i) q' (match entry with Some _ => S addr | None => addr end)) as (r & Hr & Hall). rewrite Hr. destruct r as [err|entries]; [by eexists|].
  eexists. split; [done|]. intros ? [= <-]. destruct (Hall entries eq_refl) as (Hal & Hv & Hn). destruct entry as [e|]; cbn [option_list app].
  - apply csvEntry_ok in E as (Ha & Hname & Hver & Hch & Hsi). split_and!; [by apply allocated_cons|by constructor|]. cbn. rewrite Hname. by constructor.
  - split_and!; [done..|by constructor].
Qed.

Lemma csvSnapshot_returns src base :
  exists r, csvSnapshot csvVersion src base = Some r /\ forall entries, r = inr entries ->
    exists csvs, cs_csvs src = inr csvs /\ allocated base (cs_key src) entries /\
      Forall (fun e => is_Some (e_Version e) /\ Entry_Channel e = "") entries /\ e_Name <$> entries `sublist_of` csv_Name <$> csvs.
Proof.
  unfold csvSnapshot. destruct (cs_csvs src) as [err|csvs]; [by eexists|]. destruct (cs_subs src) as [err|subs]; [by eexists|].
  destruct (IsFailForwardEnabled _) as [err|ff]; [by eexists|]. destruct (csvLoop_ok src csvs subs ff csvs 0 0 base) as (r & -> & Hr).
  exists r. split; [done|]. intros entries He. exists csvs. split; [done|]. by apply Hr.
Qed.

(** ** Caches made from sources *)

(** What the Kubernetes API guarantees of names, and what a catalog must serve: bundles in named channels,
    each at most once per channel. *)
Definition source_ok (key : SourceKey) (src : Source) : Prop :=
  Empty key = false /\ no_slash (sk_Name key) /\ no_slash (sk_Namespace key) /\
  match src with
  | errorSource _ => True
  | registrySource client => sk_Name key <> existingOperatorKey /\ forall bs err, rc_bundles client = inr (bs, err) ->
      NoDup ((fun b => (ab_CsvName b, ab_ChannelName b)) <$> bs) /\
      forall b, b ∈ bs -> ab_ChannelName b <> "" /\ no_slash (ab_CsvName b) /\ no_slash (ab_ChannelName b)
  | csvSource s => cs_key s = key /\ forall csvs, cs_csvs s = inr csvs -> NoDup (csv_Name <$> csvs) /\ forall csv, csv ∈ csvs -> no_slash (csv_Name csv)
  end.

(** The entries of a header, for a key and from an address on. *)
Definition entries_ok (base : nat) (key : SourceKey) (entries : list Entry) : Prop :=
  allocated base key entries /\ NoDup ((fun e => (e_Name e, Entry_Channel e)) <$> entries) /\
  (forall e e', e ∈ entries -> e' ∈ entries -> e_Name e = e_Name e' -> Entry_Channel e = "" -> e = e') /\
  (forall e, e ∈ entries -> no_slash (e_Name e) /\ no_slash (Entry_Channel e)) /\ (sk_Name key = existingOperatorKey -> forall e, e ∈ entries -> is_Some (e_Version e)).

Lemma sublist_elem {A} (l1 l2 : list A) x : l1 `sublist_of` l2 -> x ∈ l1 -> x ∈ l2.
Proof. intros Hs. induction Hs; [done| |]; rewrite ?elem_of_cons; naive_solver. Qed.
Lemma sublist_NoDup {A} (l1 l2 : list A) : l1 `sublist_of` l2 -> NoDup l2 -> NoDup l1.
Proof.
  intros Hs. induction Hs as [|x l1 l2 Hs IH|x l1 l2 Hs IH]; [done| |]; intros [Hx Hnd]%NoDup_cons; [|by apply IH].
  apply NoDup_cons. split; [|by apply IH]. intros Hin. by apply Hx, (sublist_elem l1 l2).
Qed.

Lemma registrySnapshot_ok client key base entries :
  source_ok key (registrySource client) -> registrySnapshot client key base = inr entries -> entries_ok base key entries.
Proof.
  intros (_ & _ & _ & Hv & Hb). unfold registrySnapshot. destruct (rc_bundles client) as [err|[bs e]] eqn:E; [done|]. cbv zeta. destruct e; [done|]. intros [= <-].
  destruct (Hb bs None eq_refl) as [Hnd Hplain]. destruct (snapshotLoop_ok client key bs ∅ 0 base) as [Hal Hsub]. set (entries := snapshotLoop _ _ _ _ _ _) in *.
  assert (forall e, e ∈ entries -> exists b, b ∈ bs /\ e_Name e = ab_CsvName b /\ Entry_Channel e = ab_ChannelName b) as Hfrom.
  { intros e He. assert ((e_Name e, Entry_Channel e) ∈ (fun b => (ab_CsvName b, ab_ChannelName b)) <$> bs) as Hin.
    { eapply sublist_elem; [exact Hsub|]. apply list_elem_of_fmap. by exists e. }
    apply list_elem_of_fmap in Hin as (b & [= Hn Hc] & Hbs). by exists b. }
  split_and!; [done|by eapply sublist_NoDup| | |congruence].
  - intros e e' He _ _ Hc. destruct (Hfrom e He) as (b & Hbs & _ & Hch). destruct (Hplain b Hbs) as [Hne _]. congruence.
  - intros e He. destruct (Hfrom e He) as (b & Hbs & -> & ->). by apply Hplain.
Qed.

Lemma csvSnapshot_ok s key base entries :
  source_ok key (csvSource s) -> csvSnapshot csvVersion s base = Some (inr entries) -> entries_ok base key entries.
Proof.
  intros (_ & _ & _ & Hk & Hc) Hs. destruct (csvSnapshot_returns s base) as (r & Hr & Hall). rewrite Hs in Hr. injection Hr as <-.
  destruct (Hall entries eq_refl) as (csvs & Hcs & Hal & Hv & Hsub). destruct (Hc csvs Hcs) as [Hnd Hplain]. rewrite Hk in Hal. rewrite Forall_forall in Hv.
  assert (NoDup (e_Name <$> entries)) as Hnames by (by eapply sublist_NoDup).
  split_and!; [done| | | |by intros _ e He; apply Hv].
  - apply (NoDup_fmap_1 fst). rewrite <- list_fmap_compose. exact Hnames.
  - intros e e' [i Hi]%list_elem_of_lookup [j Hj]%list_elem_of_lookup Hn _.
    assert (i = j) as ->; [|congruence]. eapply (NoDup_lookup _ i j (e_Name e) Hnames); rewrite list_lookup_fmap; [by rewrite Hi|by rewrite Hj, Hn].
  - intros e He. destruct (Hv e He) as [_ ->]. split; [|done]. assert (e_Name e ∈ csv_Name <$> csvs) as Hin.
    { eapply sublist_elem; [exact Hsub|]. apply list_elem_of_fmap. by exists e. }
    apply list_elem_of_fmap in Hin as (csv & -> & Hin). by apply Hplain.
Qed.

Lemma Snapshot_ok src key base : source_ok key src ->
  exists r, Snapshot src key base = Some r /\ forall entries, r = inr entries -> entries_ok base key entries.
Proof.
  intros Hok. destruct src as [err|client|s]; cbn [Snapshot]; [by eexists|eexists; split; [done|]; intros entries; by apply registrySnapshot_ok|].
  destruct (csvSnapshot_returns s base) as (r & Hr & _). exists r. split; [done|]. intros entries ->. by apply (csvSnapshot_ok s).
Qed.

Lemma allocated_addr base key entries e : allocated base key entries -> e ∈ entries -> (base <= e_addr e < base + length entries)%nat.
Proof.
  intros [Hl _] He. assert (e_addr e ∈ seq base (length entries)) as Hin by (rewrite <- Hl; apply list_elem_of_fmap; by exists e).
  apply elem_of_seq in Hin. lia.
Qed.

Lemma entries_ok_nil base key : entries_ok base key [].
Proof. split_and!; [apply allocated_nil|constructor| | |]; intros; by set_solver. Qed.

Lemma header_ok base key priority r :
  (forall entries, r = inr entries -> entries_ok base key entries) ->
  h_key (header key priority r) = key /\ entries_ok base key (header_entries (header key priority r)).
Proof. intros Hr. destruct r as [err|entries]; split; try done; [apply entries_ok_nil|by apply Hr]. Qed.

(** The snapshots read from an address on: headers at their keys, with disjoint ranges of addresses. *)
Definition read_ok (base : nat) (snapshots : gmap SourceKey snapshotHeader) : Prop :=
  (forall k hdr, snapshots !! k = Some hdr -> h_key hdr = k /\ exists b, (base <= b)%nat /\ entries_ok b k (header_entries hdr)) /\
  (forall k k' hdr hdr' e e', snapshots !! k = Some hdr -> snapshots !! k' = Some hdr' -> e ∈ header_entries hdr -> e' ∈ header_entries hdr' ->
   e_addr e = e_addr e' -> k = k').

Lemma readSources_ok priority sources base :
  NoDup sources.*1 -> (forall key src, (key, src) ∈ sources -> source_ok key src) ->
  exists snapshots, readSources priority sources base = Some snapshots /\ read_ok base snapshots /\ forall k hdr, snapshots !! k = Some hdr -> k ∈ sources.*1.
Proof.
  revert base. induction sources as [|[key src] sources IH]; intros base Hnd Hok; cbn [readSources].
  { exists ∅. split; [done|]. split; [split|]; intros *; by intros ?%lookup_empty_Some. }
  destruct (Snapshot_ok src key base) as (r & -> & Hr); [apply Hok, list_elem_of_here|].
  destruct (header_ok base key (priority key) r Hr) as [Hkey Hent]. set (hdr := header key (priority key) r) in *.
  cbn in Hnd. apply NoDup_cons in Hnd as [Hnotin Hnd]. fold (header_entries hdr).
  destruct (IH (base + length (header_entries hdr))%nat) as (snapshots & -> & [Hall Hdis] & Hdom); [done|intros; apply Hok; by apply list_elem_of_further|].
  exists (<[key := hdr]> snapshots). split; [done|]. split; [split|].
  - intros k h [[<- <-]|[_ Hk]]%lookup_insert_Some; [split; [done|by exists base]|]. destruct (Hall k h Hk) as (? & b & Hb & He). split; [done|]. exists b. split; [lia|done].
  - assert (forall k h e e', snapshots !! k = Some h -> e ∈ header_entries hdr -> e' ∈ header_entries h -> e_addr e <> e_addr e') as Hlow.
    { intros k h e e' Hk He He'. destruct (Hall k h Hk) as (_ & b & Hb & He2). destruct Hent as [Hal _], He2 as [Hal' _].
      pose proof (allocated_addr _ _ _ _ Hal He). pose proof (allocated_addr _ _ _ _ Hal' He'). lia. }
    intros k k' h h' e e' [[<- <-]|[? Hk]]%lookup_insert_Some [[<- <-]|[? Hk']]%lookup_insert_Some He He' Heq; [done| | |by eapply Hdis].
    + by destruct (Hlow _ _ _ _ Hk' He He').
    + by destruct (Hlow _ _ _ _ Hk He' He).
  - intros k h [[<- <-]|[_ Hk]]%lookup_insert_Some; [apply list_elem_of_here|]. cbn. apply list_elem_of_further. by apply (Hdom k h).
Qed.

Lemma entry_by {B} (f : Entry -> B) entries e e' : NoDup (f <$> entries) -> e ∈ entries -> e' ∈ entries -> f e = f e' -> e = e'.
Proof.
  intros Hnd [i Hi]%list_elem_of_lookup [j Hj]%list_elem_of_lookup Hf. assert (i = j) as ->; [|congruence].
  eapply (NoDup_lookup _ i j (f e) Hnd); rewrite list_lookup_fmap; [by rewrite Hi|by rewrite Hj, Hf].
Qed.

(** What the sources provide is what a resolution needs of its cache. *)
Lemma sources_cache_ok priority sources snapshots :
  NoDup sources.*1 -> (forall key src, (key, src) ∈ sources -> source_ok key src) -> readSources priority sources 0 = Some snapshots ->
  cache_ok snapshots /\ versioned snapshots.
Proof.
  intros Hnd Hok Hread. destruct (readSources_ok priority sources 0 Hnd Hok) as (snaps & Hs & [Hall Hdis] & Hdom). rewrite Hread in Hs. injection Hs as <-.
  assert (forall k hdr, snapshots !! k = Some hdr -> exists src, source_ok k src) as Hkey.
  { intros k hdr Hk. apply Hdom, list_elem_of_fmap in Hk as ([k' src] & -> & Hin). exists src. by apply Hok. }
  split; [split|].
  - intros k hdr Hk. by apply Hall.
  - intros k hdr Hk. destruct (Hkey k hdr Hk) as (src & He & _). done.
  - intros k hdr Hk. destruct (Hall k hdr Hk) as (_ & b & _ & [[Hl _] _]). apply (NoDup_fmap_1 e_addr). rewrite Hl. apply NoDup_seq.
  - intros k e (hdr & Hk & He). destruct (Hall k hdr Hk) as (_ & b & _ & [[_ Hf] _]). rewrite Forall_forall in Hf. by apply Hf.
  - intros e e' (k & hdr & Hk & He) (k' & hdr' & Hk' & He') Heq. assert (k = k') as -> by (by apply (Hdis k k' hdr hdr' e e')).
    rewrite Hk in Hk'. injection Hk' as <-. destruct (Hall k' hdr Hk) as (_ & b & _ & [[Hl _] _]).
    apply (entry_by e_addr (header_entries hdr)); [rewrite Hl; apply NoDup_seq|done..].
  - intros k e e' (hdr & Hk & He) (hdr' & Hk' & He') Hn Hc. rewrite Hk in Hk'. injection Hk' as <-. destruct (Hall k hdr Hk) as (_ & b & _ & (_ & Hnd2 & Hone & _)).
    destruct Hc as [Hc|Hc]; [by apply Hone|]. apply (entry_by (fun e => (e_Name e, Entry_Channel e)) (header_entries hdr)); [done..|congruence].
  - intros e si (k & hdr & Hk & He) Hsi. destruct (Hall k hdr Hk) as (_ & b & _ & ([_ Hf] & _ & _ & Hplain & _)). destruct (Hplain e He) as [Hn Hc].
    rewrite Forall_forall in Hf. destruct (Hf e He) as (si' & Hsi' & Hcat). assert (si' = si) as -> by congruence. destruct (Hkey k hdr Hk) as (src & _ & Hk1 & Hk2 & _).
    unfold Entry_Channel in Hc. rewrite Hsi in Hc. rewrite Hcat. by split_and!.
  - intros ns e (hdr & Hk & He). destruct (Hall _ hdr Hk) as (_ & b & _ & (_ & _ & _ & _ & Hv)). by apply Hv.
Qed.
End sources.

(** ** Legacy bundles *)

Section legacy.
Context `{SnapshotLib, RangeOrder, SortLib}.

Lemma elem_of_setKeys (apis : APISet) a : a ∈ setKeys apis <-> a ∈ apis.
Proof.
  unfold setKeys. rewrite list_elem_of_fmap. split.
  - intros ([k []] & -> & Hk%elem_of_range). by apply lookup_gset_to_gmap_Some in Hk as [? _].
  - intros Ha. exists (a, tt). split; [done|]. apply elem_of_range. by apply lookup_gset_to_gmap_Some.
Qed.

Definition utf8Key (a : APIKey) : Prop := utf8 (ak_Group a) /\ utf8 (ak_Version a) /\ utf8 (ak_Kind a).

Lemma provided_property apis p : p ∈ providedAPIsToProperties apis <->
  exists a, a ∈ apis /\ p = mkProperty GVKType (encGVKProperty (ak_Group a) (ak_Version a) (ak_Kind a)).
Proof. unfold providedAPIsToProperties. rewrite sortBy_perm, list_elem_of_fmap. setoid_rewrite elem_of_setKeys. naive_solver. Qed.

Lemma legacyDependencies_types ds ps p : legacyDependenciesToProperties ds = inr ps -> p ∈ ps -> PType p <> GVKType /\ PType p <> PackageType.
Proof.
  unfold legacyDependenciesToProperties. intros Hf Hin. revert p Hin.
  refine (foldE_inv _ (fun _ ps => forall p, p ∈ ps -> PType p <> GVKType /\ PType p <> PackageType) [] ds ps _ _ Hf); [by intros p ?%elem_of_nil|].
  clear. intros dn d acc acc' IH. unfold legacyDependency. intros Hd p Hp.
  assert (p ∈ acc \/ PType p ∈ ["olm.gvk.required"; "olm.package.required"; "olm.label.required"; "olm.constraint"]) as [Hp'|Hp'].
  { repeat case_match; simplify_eq; rewrite elem_of_app in Hp; destruct Hp as [Hp|Hp]; auto; right; set_solver. }
  { by apply IH. }
  repeat (apply elem_of_cons in Hp' as [->|Hp']; [done|]). by apply elem_of_nil in Hp'.
Qed.

(** A bundle that lists APIs instead of properties provides exactly these APIs for the resolver: the entry
    passes the test for an API, whatever its plural name, if and only if the bundle lists it. *)
Lemma legacy_provides addr b start key ch o api :
  newOperatorFromBundle addr b start key ch = inr o -> ab_Properties b = [] -> (forall a, a ∈ ab_ProvidedApis b -> utf8Key a) ->
  testGVK api o = true <-> exists a, a ∈ ab_ProvidedApis b /\ ak_Group a = ak_Group api /\ ak_Version a = ak_Version api /\ ak_Kind a = ak_Kind api.
Proof.
  unfold newOperatorFromBundle. cbv zeta. intros Hn Hp Hu. rewrite Hp in Hn. cbn [length Nat.eqb] in Hn.
  destruct (if (0 <? length (ab_Dependencies b))%nat then _ else _) as [err|ps] eqn:E; [done|]. injection Hn as <-.
  assert (forall p, p ∈ ps -> PType p <> GVKType) as Hps.
  { intros p Hin. destruct (0 <? _)%nat.
    - destruct (legacyDependenciesToProperties _) as [|ps'] eqn:El; [done|]. injection E as <-. by destruct (legacyDependencies_types _ _ _ El Hin).
    - injection E as <-. unfold requiredAPIsToProperties in Hin. rewrite sortBy_perm in Hin. by apply list_elem_of_fmap in Hin as (a & -> & _). }
  unfold testGVK, anyProperty. rewrite existsb_elem_of. cbn [e_Properties]. setoid_rewrite elem_of_app. setoid_rewrite provided_property. setoid_rewrite elem_of_list_to_set. split.
  - intros (p & [(a & Ha & ->)|Hin] & Ht); [|apply Hps in Hin; apply andb_true_iff in Ht as [Ht _]; by bools].
    exists a. split; [done|]. destruct (Hu a Ha) as (? & ? & ?). cbn [PType PValue] in Ht. rewrite decGVK_enc in Ht by done. cbn in Ht. bools. by split_and!.
  - intros (a & Ha & Hg & Hv & Hk). eexists. split; [left; by exists a|]. destruct (Hu a Ha) as (? & ? & ?). cbn [PType PValue]. rewrite decGVK_enc by done. cbn.
    by rewrite !bool_decide_true.
Qed.
End legacy.

(** ** Resolution over the sources *)

(** A resolution over what the sources provide ends and never dereferences nil: registries that serve
    each bundle once per named channel, and the CSVs of the namespace, make a cache on which enough fuel gives
    a result. *)
Theorem resolution_over_sources_ends `{SnapshotLib, ConstraintDecoder, RangeOrder, SortLib, Circuit, !SatOps, !Sat, Deque}
    (csvVersion : CSV -> Version) (systemConstraints : option (Entry -> option (list Constraint))) (priority : SourceKey -> Z)
    (sources : list (SourceKey * Source)) (namespaces : list string) (subs : list ResolverResolve.Subscription) :
  NoDup sources.*1 -> (forall key src, (key, src) ∈ sources -> source_ok key src) ->
  exists snapshots, readSources csvVersion priority sources 0 = Some snapshots /\
  exists fuel r, forall fuel', (fuel <= fuel')%nat -> Resolve systemConstraints fuel' snapshots namespaces subs = Done r.
Proof.
  intros Hnd Hok. destruct (readSources_ok csvVersion priority sources 0 Hnd Hok) as (snapshots & Hs & _). exists snapshots. split; [done|].
  destruct (sources_cache_ok csvVersion priority sources snapshots Hnd Hok Hs) as [Hc Hv].
  destruct (Resolve_returns systemConstraints snapshots Hc namespaces subs Hv) as (fuel & r & Hall & _). eauto.
Qed.

(** ** A registry and a namespace *)

Module SourceDemo.
(** Fields are joined by a separator they must not contain; lists of properties are numbers in binary. *)
Fixpoint bits (p : positive) : string :=
  match p with xH => "" | xO p => String "0" (bits p) | xI p => String "1" (bits p) end.
Fixpoint unbits (s : string) : positive :=
  match s with EmptyString => xH | String c s => if bool_decide (c = "0"%char) then xO (unbits s) else xI (unbits s) end.
Lemma unbits_bits p : unbits (bits p) = p.
Proof. induction p as [p IH|p IH|]; cbn; [by rewrite IH..|done]. Qed.

Definition joined (a b c : string) : string := a +:+ String "@" (b +:+ String "@" c).
Definition separated (s : string) : option (string * string * string) :=
  '(a, r) ← Cut "@"%char s; '(b, c) ← Cut "@"%char r; Some (a, b, c).
Definition plain (s : string) : Prop := HasByte "@"%char s = false.
Lemma separated_joined a b c : plain a -> plain b -> separated (joined a b c) = Some (a, b, c).
Proof. intros Ha Hb. unfold separated, joined. rewrite Cut_app by done. cbn. by rewrite Cut_app. Qed.

Definition resolverLib : @ResolverLib demo_semver := {|
  decPackageProperty v := (fun '(n, ver) => mkPackageProp n ver) <$> Cut "@"%char v;
  decGVKProperty v := (fun '(g, ver, k) => mkGVKProp g k ver) <$> separated v;
  decLabelProperty v := Some v; decRequiredGVK v := (fun '(g, ver, k) => mkGVKProp g k ver) <$> separated v;
  decRequiredPackage v := (fun '(n, r) => mkPackageRequiredProp n r) <$> Cut "@"%char v; decRequiredLabel v := Some v;
  ParseRange r := None; CelProgram := unit; celValidate _ := Some tt; celEvaluate _ _ := Some true; quote s := s
|}.

Definition pairs (props : list Property) : list (string * string) := (fun p => (PType p, PValue p)) <$> props.
Definition lib : @SnapshotLib demo_semver resolverLib.
Proof.
  refine (@Build_SnapshotLib demo_semver resolverLib (fun v => Some v) (fun v => bool_decide (v = "0.0.0")) joined joined
    (fun n v => n +:+ String "@" v) (fun n v => n +:+ String "@" v) (fun props => Some (bits (encode (pairs props))))
    (fun s => (fun l : list (string * string) => (fun '(t, v) => mkProperty t v) <$> l) <$> decode (unbits s)) separated (Cut "@"%char) plain _ _ _ (fun _ => True) _).
  - intros g v k Hg Hv Hk. cbn. by rewrite separated_joined.
  - intros g v k Hg Hv Hk. cbn. by rewrite separated_joined.
  - intros n v Hn Hv. cbn. by rewrite Cut_app.
  - intros props s _ [= <-]. rewrite unbits_bits, decode_encode. cbn. f_equal. unfold pairs. rewrite <- list_fmap_compose.
    rewrite <- (list_fmap_id props) at 2. apply list_fmap_ext. by intros i [].
Defined.

Definition catalog : SourceKey := mkKey "community" "olm".
Definition bundle (name channel replaces : string) : APIBundle :=
  mkAPIBundle name "etcd" channel "{}" [] ("quay.io/" +:+ name) [mkAPIKey "etcd.io" "v1" "Etcd" "etcds"] [] "1.0.0" "" [] [] replaces [] None.
Definition client : RegistryClient :=
  mkClient (inr ([bundle "etcd.v1" "stable" ""; bundle "etcd.v2" "stable" "etcd.v1"; bundle "etcd.v2" "beta" ""], None))
    (fun _ name => inr (mkAPIPackage name [("stable", None); ("beta", Some "use stable")] "stable" None)).
Definition installed : CSV := mkCSV (demo_csv "prometheus.v1" "1") None (demo_spec "") (demo_status CSVPhaseSucceeded "").
Definition namespace : CsvSource :=
  mkCsvSource (NewVirtualSourceKey "ns") (inr [installed]) (inr []) (inr [mkGroup "og" "ns" "u" None None ["ns"] "" false "" None None]) (fun _ => inr []).
Definition all : list (SourceKey * @Source demo_semver resolverLib lib) := [(catalog, registrySource client); (NewVirtualSourceKey "ns", csvSource namespace)].
Definition sub : ResolverResolve.Subscription := ResolverResolve.mkSub "etcd" "ns" "etcd" "stable" "community" "olm" "" "".

Lemma all_ok key src : (key, src) ∈ all -> source_ok key src.
Proof.
  unfold all. intros [[= -> ->]|[= -> ->]%list_elem_of_singleton]%elem_of_cons; split_and!; try done.
  - intros bs err [= <- <-]. split; [apply (bool_decide_unpack _); by vm_compute|]. intros b Hb.
    repeat (apply elem_of_cons in Hb as [->|Hb]; [by split_and!|]). by apply elem_of_nil in Hb.
  - intros csvs [= <-]. split; [apply NoDup_singleton|]. by intros csv ->%list_elem_of_singleton.
Qed.

Lemma resolution_over_sources_ends_witness :
  exists snapshots, @readSources demo_semver resolverLib lib canonical_order insertion_sort_lib (fun _ => "1.0.0") (fun _ => 0%Z) all 0 = Some snapshots /\
  exists fuel r, forall fuel', (fuel <= fuel')%nat ->
    @Resolve demo_semver resolverLib demo_decoder canonical_order insertion_sort_lib None demo_circuit_ops demo_sat_ops linked_ops fuel' snapshots ["ns"; "olm"] [sub] = Done r.
Proof.
  refine (@resolution_over_sources_ends demo_semver resolverLib lib demo_decoder canonical_order insertion_sort_lib demo_circuit_ops demo_circuit demo_sat_ops demo_sat
    linked_ops linked_deque (fun _ => "1.0.0") None (fun _ => 0%Z) all ["ns"; "olm"] [sub] _ all_ok).
  apply (bool_decide_unpack _). by vm_compute.
Defined.
End SourceDemo.
