(* ===== verification/BundleSteps.v ===== *)
(** * From operators to the steps of an install plan

    Models [resolver/steps.go] (the step resources of a bundle) and [step_resolver.go] ([ResolveSteps]).
    JSON and YAML are parameters ([StepLib]); subscriptions are shared pointers, named by their position in
    the list, and updated in place. *)

From S2P Require Import Prelude GoStrings OwnerUtil CatalogModel SatInterface SatDemo LitMapping ChoiceDeque SolverSearch SolverSolve ResolverCache ResolverVariables.
From S2P Require Import ResolverSort ResolverResolve ResolverSound CsvTypes OperatorGroups ReplaceChain Requirements OperatorRbac CatalogTypes SnapshotSources.

#[local] Arguments String.append : simpl nomatch.

(** ** Step resources (steps.go) *)

Definition secretKind : string := "Secret".
Definition BundleSecretKind : string := "BundleSecret".

(** The objects that become steps. *)
Inductive StepObject :=
  | CSVObject (csv : CSV) (generateName : string)
  | UnstructuredObject (o : Object) (generateName body : string)
  | SubscriptionObject (o : Object) (spec : SubscriptionSpec)
  | AccountObject (o : Object)
  | RoleObject (r : RbacRole)
  | BindingObject (b : RbacBinding).

Definition objectMeta (obj : StepObject) : Object :=
  match obj with
  | CSVObject csv _ => csv_obj csv
  | UnstructuredObject o _ _ | SubscriptionObject o _ | AccountObject o => o
  | RoleObject r => ro_obj r
  | BindingObject b => rb_obj b
  end.
Definition GetGenerateName (obj : StepObject) : string :=
  match obj with CSVObject _ g | UnstructuredObject _ g _ => g | _ => "" end.

Class StepLib := {
  encodeObject : StepObject -> error + string;
  unmarshalCSV : string -> error + CSV * string;
  decodeUnstructured : string -> error + Object * string * string;
}.

Section steps.
Context `{StepLib}.

Definition NewStepResourceFromObject (obj : StepObject) (catalogSourceName catalogSourceNamespace : string) : error + StepResource :=
  match encodeObject obj with
  | inl err => inl err
  | inr manifest =>
      let '(o, ok) := InferGroupVersionKind (objectMeta obj) in
      if negb ok then inl (ErrString "could not infer the kind of the object")
      else
        let gvk := OGVK o in
        let name := if bool_decide (OName o = "") then GetGenerateName obj else OName o in
        let kind := if bool_decide (Kind gvk = secretKind) then BundleSecretKind else Kind gvk in
        inr (mkStepResource catalogSourceName catalogSourceNamespace (Group gvk) (OwnerUtil.Version gvk) kind name manifest)
  end.

Definition newSubscription (namespace : string) (info : OperatorSourceInfo) : StepObject :=
  SubscriptionObject
    (mkObj TSubscription (mkGVK "" "" "") (Join [si_Package info; si_Channel info; sk_Name (si_Catalog info); sk_Namespace (si_Catalog info)] "-") namespace "" [] None)
    (mkSubSpec (sk_Name (si_Catalog info)) (sk_Namespace (si_Catalog info)) (si_Package info) (si_Channel info) (si_StartingCSV info) ApprovalAutomatic).
Definition NewSubscriptionStepResource (namespace : string) (info : OperatorSourceInfo) : error + StepResource :=
  NewStepResourceFromObject (newSubscription namespace info) (sk_Name (si_Catalog info)) (sk_Namespace (si_Catalog info)).

Definition V1alpha1CSVFromBundle (bundle : APIBundle) : error + CSV * string := unmarshalCSV (ab_CsvJson bundle).

(** The CSV of a bundle in a namespace: what it replaces, and its properties as an annotation. *)
Definition projectCSV (csv : CSV) (namespace replaces anno : string) : CSV :=
  let o := csv_obj csv in
  let s := csv_Spec csv in
  mkCSV (mkObj (OType o) (OGVK o) (OName o) namespace (OUID o) (OwnerRefs o) (Labels o))
    (Some (<[PropertiesAnnotationKey := anno]> (default ∅ (csv_Annotations csv))))
    (mkCSVSpec (spec_InstallStrategy s) (spec_CRDs_Owned s) (spec_CRDs_Required s) (spec_APIServices_Owned s) (spec_APIServices_Required s)
       (spec_WebhookDefinitions s) (spec_NativeAPIs s) (spec_MinKubeVersion s) (spec_InstallModes s) replaces (spec_CleanupEnabled s))
    (csv_Status csv).

Definition toSteps (catalogSourceName catalogSourceNamespace : string) (objs : list StepObject) : error + list StepResource :=
  foldE (fun steps obj => match NewStepResourceFromObject obj catalogSourceName catalogSourceNamespace with
                          | inl err => inl err
                          | inr step => inr (steps ++ [step])
                          end) [] objs.

(** The objects of one account; the default account exists in every namespace. *)
Definition permissionObjects (perms : OperatorPermissions) : list StepObject :=
  (if bool_decide (OName (op_ServiceAccount perms) = "default") then [] else [AccountObject (op_ServiceAccount perms)])
  ++ (RoleObject <$> op_Roles perms) ++ (BindingObject <$> op_RoleBindings perms)
  ++ (RoleObject <$> op_ClusterRoles perms) ++ (BindingObject <$> op_ClusterRoleBindings perms).

Section bundles.
Context `{RbacLib, RangeOrder, SnapshotLib}.

Definition NewServiceAccountStepResources (csv : CSV) (catalogSourceName catalogSourceNamespace : string) : error + list StepResource :=
  match RBACForClusterServiceVersion csv with
  | inl err => inl err
  | inr operatorPermissions => toSteps catalogSourceName catalogSourceNamespace ((range operatorPermissions).*2 ≫= permissionObjects)
  end.

(** The objects of a bundle, CSVs left out, decoded and turned into steps one by one. *)
Definition objectSteps (catalogSourceName catalogSourceNamespace : string) (objects : list string) : error + list StepResource :=
  foldE (fun steps object =>
    match decodeUnstructured object with
    | inl err => inl err
    | inr (o, generateName, body) =>
        if bool_decide (Kind (OGVK o) = ClusterServiceVersionKind) then inr steps
        else match NewStepResourceFromObject (UnstructuredObject o generateName body) catalogSourceName catalogSourceNamespace with
             | inl err => inl err
             | inr step => inr (steps ++ [step])
             end
    end) [] objects.

Definition NewStepResourceFromBundle (bundle : APIBundle) (namespace replaces catalogSourceName catalogSourceNamespace : string) : error + list StepResource :=
  match V1alpha1CSVFromBundle bundle with
  | inl err => inl err
  | inr (csv, generateName) =>
      if bool_decide (Group (OGVK (csv_obj csv)) = "") && bool_decide (OwnerUtil.Version (OGVK (csv_obj csv)) = "")
      then inl (ErrFatal ("bundle CSV " +:+ csv_Name csv +:+ " missing APIVersion"))
      else if bool_decide (Kind (OGVK (csv_obj csv)) = "") then inl (ErrFatal ("bundle CSV " +:+ csv_Name csv +:+ " missing Kind"))
      else
        match PropertiesAnnotationFromPropertyList (ab_Properties bundle) with
        | inl err => inl (ErrString ("failed to construct properties annotation for " +:+ quote (csv_Name csv) +:+ ": " +:+ Error_ err))
        | inr anno =>
            let csv := projectCSV csv namespace replaces anno in
            step ← NewStepResourceFromObject (CSVObject csv generateName) catalogSourceName catalogSourceNamespace;
            objects ← objectSteps catalogSourceName catalogSourceNamespace (ab_Object bundle);
            accounts ← NewServiceAccountStepResources csv catalogSourceName catalogSourceNamespace;
            inr (step :: objects ++ accounts)
        end
  end.

Definition NewStepsFromBundle (bundle : APIBundle) (namespace replaces catalogSourceName catalogSourceNamespace : string) : error + list Step :=
  match NewStepResourceFromBundle bundle namespace replaces catalogSourceName catalogSourceNamespace with
  | inl err => inl err
  | inr resources => inr ((fun s => mkStep (ab_CsvName bundle) s false StepStatusUnknown) <$> resources)
  end.

(** ** The steps of a resolution (step_resolver.go) *)

Definition BundleLookupConditionPacked : string := "BundleLookupNotPersisted".
Definition exclusionAnnotation : string := "olm.operatorframework.io/exclude-global-namespace-resolution".
Definition NotUnpackedReason : string := "BundleNotUnpacked".
Definition NotUnpackedMessage : string := "bundle contents have not yet been persisted to installplan status".
Definition JobNotStartedReason : string := "JobNotStarted".
Definition JobNotStartedMessage : string := "unpack job not yet started".

Definition catsrcPriority (getPriority : string -> string -> error + Z) (key : SourceKey) : Z :=
  match getPriority (sk_Namespace key) (sk_Name key) with inl _ => 0%Z | inr p => p end.

(** What a resolution reads: subscriptions from the API, operator groups and CSVs from listers. *)
Record StepEnv := mkStepEnv {
  te_listSubs : error + list CatalogTypes.Subscription;
  te_groups : error + list OperatorGroup;
  te_globalCatalogNamespace : string;
  te_getCSV : string -> string -> option error;
}.

Inductive stepsError := ResolveFailed (err : resolveError) | StepsFailed (err : error).

Definition resolvable (s : CatalogTypes.Subscription) : ResolverResolve.Subscription :=
  let spec := sub_Spec s in
  ResolverResolve.mkSub (CatalogTypes.sub_Name s) (CatalogTypes.sub_Namespace s) (ss_Package spec) (ss_Channel spec) (ss_CatalogSource spec)
    (ss_CatalogSourceNamespace spec) (ss_StartingCSV spec) (su_InstalledCSV (sub_Status s)).

Definition hasExistingCurrentCSV (env : StepEnv) (sub : CatalogTypes.Subscription) : error + bool :=
  if bool_decide (su_CurrentCSV (sub_Status sub) = "") then inr false
  else match te_getCSV env (CatalogTypes.sub_Namespace sub) (su_CurrentCSV (sub_Status sub)) with
       | None => inr true
       | Some err => if IsNotFound (Some err) then inr false else inl err
       end.

(** A subscription that resolves to an operator of the source. *)
Definition matchesSub (info : OperatorSourceInfo) (sub : CatalogTypes.Subscription) : bool :=
  let spec := sub_Spec sub in
  let subCatalogKey := mkKey (ss_CatalogSource spec) (ss_CatalogSourceNamespace spec) in
  bool_decide (ss_Package spec = si_Package info)
  && negb (negb (bool_decide (ss_Channel spec = "")) && negb (bool_decide (ss_Channel spec = si_Channel info)))
  && negb (negb (Empty subCatalogKey) && negb (Equal subCatalogKey (si_Catalog info))).

(** The subscriptions by pointer, each with whether its current CSV exists. *)
Definition existingSubscriptions (env : StepEnv) (info : OperatorSourceInfo) (subs : list CatalogTypes.Subscription) : error + gmap nat bool :=
  foldE (fun m '(i, sub) =>
    if matchesSub info sub then
      match hasExistingCurrentCSV env sub with
      | inl _ => inl (ErrString ("unable to determine whether subscription " +:+ CatalogTypes.sub_Name sub +:+ " has a preexisting CSV"))
      | inr alreadyExists => inr (<[i := alreadyExists]> m)
      end
    else inr m) ∅ (imap pair subs).

Definition currentCSV (subs : list CatalogTypes.Subscription) (i : nat) : string :=
  match subs !! i with Some sub => su_CurrentCSV (sub_Status sub) | None => "" end.
Definition setCurrentCSV (name : string) (sub : CatalogTypes.Subscription) : CatalogTypes.Subscription :=
  let s := sub_Status sub in
  setSubStatus sub (mkSubStatus name (su_InstalledCSV s) (su_Install s) (su_State s) (su_InstallPlanGeneration s) (su_InstallPlanRef s)
    (su_CatalogHealth s) (su_Conditions s) (su_LastUpdated s)).

Definition newLookup (op : Entry) (info : OperatorSourceInfo) (anno : string) : BundleLookup :=
  mkLookup (e_BundlePath op) (e_Name op) (e_Replaces op) (mkObjectRef "" (sk_Namespace (si_Catalog info)) (sk_Name (si_Catalog info)) "" "")
    [mkBLCond BundleLookupConditionPacked ConditionTrue NotUnpackedReason NotUnpackedMessage None None;
     mkBLCond BundleLookupPending ConditionTrue JobNotStartedReason JobNotStartedMessage None None] anno.

(** The steps of a new bundle, or a lookup of its contents. *)
Definition bundleSteps (namespace : string) (op : Entry) (info : OperatorSourceInfo) : error + list Step * list BundleLookup :=
  match e_Bundle op with
  | Some bundle =>
      match NewStepsFromBundle bundle namespace (e_Replaces op) (sk_Name (si_Catalog info)) (sk_Namespace (si_Catalog info)) with
      | inl err => inl (ErrString ("failed to turn bundle into steps: " +:+ Error_ err))
      | inr steps => inr (steps, [])
      end
  | None =>
      match PropertiesAnnotationFromPropertyList (e_Properties op) with
      | inl err => inl (ErrString ("failed to serialize operator properties for " +:+ quote (e_Name op) +:+ ": " +:+ Error_ err))
      | inr anno => inr ([], [newLookup op info anno])
      end
  end.

(** A subscription for an operator that nobody subscribed to, pinned to what was resolved. *)
Definition subscriptionStep (namespace : string) (op : Entry) (info : OperatorSourceInfo) : error + Step :=
  let info := mkSourceInfo (si_Package info) (si_Channel info) (e_Name op) (si_Catalog info) (si_DefaultChannel info) (si_Deprecations info) (si_Subscription info) in
  match NewSubscriptionStepResource namespace info with
  | inl err => inl err
  | inr subStep => inr (mkStep (e_Name op) subStep false StepStatusUnknown)
  end.

Record StepsState := mkStepsState {
  sts_subs : list CatalogTypes.Subscription; sts_steps : list Step; sts_lookups : list BundleLookup; sts_updated : list nat
}.

(** The subscriptions of the map are moved on to the operator, in the order of the map. *)
Definition updateCurrent (name : string) (existing : gmap nat bool) (st : StepsState) : StepsState :=
  foldl (fun st i => if bool_decide (currentCSV (sts_subs st) i = name) then st
                     else mkStepsState (alter (setCurrentCSV name) i (sts_subs st)) (sts_steps st) (sts_lookups st) (sts_updated st ++ [i]))
    st (range existing).*1.

(** One operator; [None] is a nil source. *)
Definition resolveOne (env : StepEnv) (namespace : string) (st : StepsState) (op : Entry) : option (error + StepsState) :=
  info ← e_SourceInfo op;
  Some (match existingSubscriptions env info (sts_subs st) with
  | inl err => inl err
  | inr existing =>
      if negb (size existing =? 0)%nat && forallb (fun '(i, exists_) => exists_ && bool_decide (currentCSV (sts_subs st) i = e_Name op)) (range existing)
      then inr st
      else
        match bundleSteps namespace op info with
        | inl err => inl err
        | inr (steps, lookups) =>
            match (if (size existing =? 0)%nat then match subscriptionStep namespace op info with inl err => inl err | inr s => inr [s] end else inr []) with
            | inl err => inl err
            | inr subSteps =>
                inr (updateCurrent (e_Name op) existing (mkStepsState (sts_subs st) (sts_steps st ++ steps ++ subSteps) (sts_lookups st ++ lookups) (sts_updated st)))
            end
        end
  end).

Fixpoint resolveOps (env : StepEnv) (namespace : string) (st : StepsState) (ops : list Entry) : option (error + StepsState) :=
  match ops with
  | [] => Some (inr st)
  | op :: ops' =>
      r ← resolveOne env namespace st op;
      match r with inl err => Some (inl err) | inr st => resolveOps env namespace st ops' end
  end.

(** The namespaces a resolution looks at. *)
Definition resolutionNamespaces (env : StepEnv) (namespace : string) (og : OperatorGroup) : list string :=
  if bool_decide (default ∅ (og_Annotations og) !! exclusionAnnotation = Some "true") then [namespace] else [namespace; te_globalCatalogNamespace env].

(** The whole resolution: steps, lookups, the updated subscriptions by pointer, and the subscriptions. *)
Definition ResolveSteps `{SatOps, DequeOps, ConstraintDecoder, SortLib} (systemConstraints : option (Entry -> option (list Constraint))) (fuel : nat)
    (snapshots : list string -> Snapshots) (env : StepEnv) (namespace : string) : outcome (stepsError + StepsState) :=
  match te_listSubs env with
  | inl err => Done (inl (StepsFailed err))
  | inr subs =>
      match te_groups env with
      | inl err => Done (inl (StepsFailed (ErrString ("listing operatorgroups in namespace " +:+ namespace +:+ ": " +:+ Error_ err))))
      | inr [og] =>
          let namespaces := resolutionNamespaces env namespace og in
          r ← Resolve systemConstraints fuel (snapshots namespaces) namespaces (resolvable <$> subs);
          match r with
          | inl err => Done (inl (ResolveFailed err))
          | inr operators =>
              r ← orPanic (resolveOps env namespace (mkStepsState subs [] [] []) operators);
              match r with
              | inl err => Done (inl (StepsFailed err))
              | inr st => Done (inr (mkStepsState (sts_subs st) (OrderSteps (sts_steps st)) (sts_lookups st) (sts_updated st)))
              end
          end
      | inr ogs => Done (inl (StepsFailed (ErrString ("expected 1 OperatorGroup in the namespace, found " +:+ pretty.pretty (length ogs)))))
      end
  end.
End bundles.
End steps.

(** ** What the steps of a resolution are *)

Section planned.
Context `{StepLib, RbacLib, RangeOrder, SnapshotLib} (env : StepEnv) (namespace : string).

(** The operator a subscription resolves to, and the subscription moved on to it. *)
Definition opMatches (op : Entry) (sub : CatalogTypes.Subscription) : bool :=
  match e_SourceInfo op with Some info => matchesSub info sub | None => false end.
Definition moved (ops : list Entry) (sub : CatalogTypes.Subscription) : CatalogTypes.Subscription :=
  match List.find (fun op => opMatches op sub) ops with Some op => setCurrentCSV (e_Name op) sub | None => sub end.
(** No subscription resolves to two operators. *)
Definition sole (subs : list CatalogTypes.Subscription) (ops : list Entry) : Prop :=
  forall sub i j op op', sub ∈ subs -> ops !! i = Some op -> ops !! j = Some op' -> opMatches op sub -> opMatches op' sub -> i = j.

Lemma matchesSub_set info name sub : matchesSub info (setCurrentCSV name sub) = matchesSub info sub.
Proof. done. Qed.
Lemma opMatches_moved op ops sub : opMatches op (moved ops sub) = opMatches op sub.
Proof. unfold moved. by case_match. Qed.
Lemma setCurrentCSV_same sub : setCurrentCSV (su_CurrentCSV (sub_Status sub)) sub = sub.
Proof. by destruct sub as [? ? ? []]. Qed.
Lemma setCurrentCSV_changes name sub : setCurrentCSV name sub <> sub <-> su_CurrentCSV (sub_Status sub) <> name.
Proof.
  split; [intros Hn <-; by rewrite setCurrentCSV_same in Hn|]. intros Hn E. apply Hn. by rewrite <- E at 1.
Qed.
Lemma moved_app dn op sub : moved (dn ++ [op]) sub =
  if bool_decide (List.find (fun op => opMatches op sub) dn = None) && opMatches op sub then setCurrentCSV (e_Name op) sub else moved dn sub.
Proof.
  unfold moved. induction dn as [|d dn IH]; cbn [app List.find]; [by destruct (opMatches op sub)|].
  destruct (opMatches d sub); [|apply IH]. by rewrite bool_decide_false.
Qed.

(** All subscriptions of the operator have it already. *)
Definition upToDate (subs : list CatalogTypes.Subscription) (op : Entry) : bool :=
  let matching := List.filter (opMatches op) subs in
  negb (bool_decide (matching = []))
  && forallb (fun sub => match hasExistingCurrentCSV env sub with inr e => e | inl _ => false end && bool_decide (su_CurrentCSV (sub_Status sub) = e_Name op)) matching.

(** What one operator adds, from the subscriptions as they were listed. *)
Definition planned (subs : list CatalogTypes.Subscription) (op : Entry) : error + list Step * list BundleLookup :=
  match e_SourceInfo op with
  | None => inr ([], [])
  | Some info =>
      if upToDate subs op then inr ([], [])
      else
        '(steps, lookups) ← bundleSteps namespace op info;
        if bool_decide (List.filter (opMatches op) subs = []) then s ← subscriptionStep namespace op info; inr (steps ++ [s], lookups)
        else inr (steps, lookups)
  end.

Lemma imap_pair_fst {A} (l : list A) : (imap pair l).*1 = seq 0 (length l).
Proof.
  apply list_eq. intros i. rewrite list_lookup_fmap, list_lookup_imap. destruct (l !! i) eqn:E; cbn.
  - apply lookup_lt_Some in E. symmetry. by apply lookup_seq.
  - apply lookup_ge_None in E. symmetry. by apply lookup_seq_ge.
Qed.
Lemma elem_of_imap_pair {A} (l : list A) i x : (i, x) ∈ imap pair l <-> l !! i = Some x.
Proof. rewrite elem_of_lookup_imap. naive_solver. Qed.

Lemma existing_lookup info subs m : existingSubscriptions env info subs = inr m ->
  forall i b, m !! i = Some b <-> exists sub, subs !! i = Some sub /\ matchesSub info sub = true /\ hasExistingCurrentCSV env sub = inr b.
Proof.
  unfold existingSubscriptions. intros Hf. setoid_rewrite <- elem_of_imap_pair.
  assert (NoDup (imap pair subs).*1) as Hnd by (rewrite imap_pair_fst; apply NoDup_seq). revert Hnd.
  refine (foldE_inv _ (fun dn m => NoDup dn.*1 -> forall i b, m !! i = Some b <->
    exists sub, (i, sub) ∈ dn /\ matchesSub info sub = true /\ hasExistingCurrentCSV env sub = inr b) ∅ (imap pair subs) m _ _ Hf); clear.
  { intros _ i b. rewrite lookup_empty. split; [done|]. by intros (? & ?%elem_of_nil & _). }
  intros dn [j sub] acc acc' IH Hstep Hnd. rewrite fmap_app in Hnd. apply NoDup_app in Hnd as (Hnd & Hj & _). specialize (IH Hnd). intros i b.
  setoid_rewrite elem_of_app. setoid_rewrite list_elem_of_singleton.
  assert (forall x, (j, x) ∉ dn) as Hfresh. { intros x Hx. apply (Hj j); [|left]. by apply (list_elem_of_fmap_2 fst) in Hx. }
  destruct (matchesSub info sub) eqn:Em; [|injection Hstep as <-; rewrite IH;
    split; [intros (x & ? & ? & ?); exists x; auto|intros (x & [?|[= -> ->]] & ? & ?); [eauto|congruence]]].
  destruct (hasExistingCurrentCSV env sub) as [|a] eqn:Ea; [done|]. injection Hstep as <-. rewrite lookup_insert_Some, IH. split.
  - intros [[<- <-]|[? (x & ? & ? & ?)]]; [by exists sub; auto|exists x; auto].
  - intros (x & [Hx|[= -> ->]] & ? & ?); [right; split; [by intros <-; destruct (Hfresh x)|eauto]|left; split; congruence].
Qed.

(** Moving subscriptions that are not the operator's own is invisible to it. *)
Lemma existing_moved info op subs dn : e_SourceInfo op = Some info ->
  (forall sub, sub ∈ subs -> opMatches op sub = true -> moved dn sub = sub) ->
  existingSubscriptions env info (moved dn <$> subs) = existingSubscriptions env info subs.
Proof.
  intros Hinfo Hsame. unfold existingSubscriptions. rewrite imap_fmap. unfold compose.
  assert (forall i sub, (i, sub) ∈ imap pair subs -> sub ∈ subs) as Hin. { intros i sub Hi%elem_of_imap_pair. by apply list_elem_of_lookup_2 in Hi. }
  replace (imap (fun n x => (n, moved dn x)) subs) with ((fun '(n, x) => (n, moved dn x)) <$> imap pair subs) by (by rewrite fmap_imap).
  revert Hin. generalize (imap pair subs). generalize (∅ : gmap nat bool). intros m l. revert m. induction l as [|[i sub] l IH]; intros m Hin; [done|].
  cbn [fmap list_fmap foldE]. assert (matchesSub info (moved dn sub) = matchesSub info sub) as ->.
  { unfold moved. by case_match. }
  destruct (matchesSub info sub) eqn:Em; [|apply IH; intros; eapply Hin; by right].
  rewrite (Hsame sub); [|eapply Hin; left|unfold opMatches; by rewrite Hinfo].
  destruct (hasExistingCurrentCSV env sub); [done|]. apply IH. intros. eapply Hin. by right.
Qed.

(** The pointers of the map, moved on: all of them end at the operator, and those that moved are reported. *)
Definition moveOn (name : string) (st : StepsState) (i : nat) : StepsState :=
  if bool_decide (currentCSV (sts_subs st) i = name) then st
  else mkStepsState (alter (setCurrentCSV name) i (sts_subs st)) (sts_steps st) (sts_lookups st) (sts_updated st ++ [i]).

Lemma moveOn_lookup name st i j :
  sts_subs (moveOn name st i) !! j = if bool_decide (j = i) then setCurrentCSV name <$> sts_subs st !! j else sts_subs st !! j.
Proof.
  unfold moveOn, currentCSV. destruct (decide (j = i)) as [->|Hn].
  - rewrite (bool_decide_true (i = i)) by done. case_bool_decide as E; [|cbn; by rewrite list_lookup_alter_eq].
    destruct (sts_subs st !! i) as [sub|]; [|done]. cbn. by rewrite <- E, setCurrentCSV_same.
  - rewrite (bool_decide_false (j = i)) by done. case_bool_decide; [done|]. cbn. by rewrite list_lookup_alter_ne.
Qed.

Lemma moveAll_lookup name ks st j :
  sts_subs (foldl (moveOn name) st ks) !! j = if bool_decide (j ∈ ks) then setCurrentCSV name <$> sts_subs st !! j else sts_subs st !! j.
Proof.
  revert st. induction ks as [|k ks IH]; intros st; cbn [foldl]; [by rewrite bool_decide_false by (by intros ?%elem_of_nil)|].
  rewrite IH, moveOn_lookup. rewrite (bool_decide_ext (j ∈ k :: ks) (j = k \/ j ∈ ks)) by apply elem_of_cons.
  destruct (decide (j = k)) as [Hk|Hk], (decide (j ∈ ks)) as [Hin|Hin].
  all: rewrite ?(bool_decide_true (j ∈ ks)), ?(bool_decide_false (j ∈ ks)), ?(bool_decide_true (j = k)), ?(bool_decide_false (j = k)) by done.
  all: first [rewrite bool_decide_true by tauto|rewrite bool_decide_false by tauto]; try done.
  by destruct (sts_subs st !! j) as [[]|].
Qed.

Lemma moveAll_rest name ks st : NoDup ks ->
  let st' := foldl (moveOn name) st ks in
  sts_steps st' = sts_steps st /\ sts_lookups st' = sts_lookups st /\
  sts_updated st' = sts_updated st ++ List.filter (fun i => negb (bool_decide (currentCSV (sts_subs st) i = name))) ks.
Proof.
  revert st. induction ks as [|k ks IH]; intros st Hnd; cbn [foldl List.filter]; [by rewrite app_nil_r|].
  apply NoDup_cons in Hnd as [Hk Hnd]. destruct (IH (moveOn name st k) Hnd) as (-> & -> & ->).
  assert (List.filter (fun i => negb (bool_decide (currentCSV (sts_subs (moveOn name st k)) i = name))) ks =
          List.filter (fun i => negb (bool_decide (currentCSV (sts_subs st) i = name))) ks) as ->.
  { apply filter_ext_in. intros i Hi%list_elem_of_In. unfold currentCSV. by rewrite moveOn_lookup, (bool_decide_false (i = k)) by (by intros ->). }
  unfold moveOn. case_bool_decide; [done|]. cbn. by rewrite <- app_assoc.
Qed.

(** The operators done so far, seen from the subscriptions as they were listed. *)
Definition planning (subs : list CatalogTypes.Subscription) (dn : list Entry) (st : StepsState) : Prop :=
  sts_subs st = moved dn <$> subs /\
  (exists ps, mapM (planned subs) dn = inr ps /\ sts_steps st = concat ps.*1 /\ sts_lookups st = concat ps.*2) /\
  NoDup (sts_updated st) /\
  (forall i, i ∈ sts_updated st <-> exists sub, subs !! i = Some sub /\ moved dn sub <> sub).

Lemma keys_range (m : gmap nat bool) : NoDup (range m).*1 /\ forall i, i ∈ (range m).*1 <-> is_Some (m !! i).
Proof.
  split; [rewrite range_perm; apply NoDup_fst_map_to_list|]. intros i. rewrite list_elem_of_fmap. split.
  - intros ([j b] & -> & Hj%elem_of_range). by exists b.
  - intros [b Hb]. exists (i, b). split; [done|]. by apply elem_of_range.
Qed.

Lemma filter_matching op info subs : e_SourceInfo op = Some info ->
  forall sub, sub ∈ List.filter (opMatches op) subs <-> exists i, subs !! i = Some sub /\ matchesSub info sub = true.
Proof.
  intros Hinfo sub. rewrite list_elem_of_In, filter_In, <- list_elem_of_In, list_elem_of_lookup. unfold opMatches. rewrite Hinfo. naive_solver.
Qed.

Section one.
Context (subs : list CatalogTypes.Subscription) (dn : list Entry) (op : Entry) (info : OperatorSourceInfo) (m : gmap nat bool).
Context (Hinfo : e_SourceInfo op = Some info) (Hm : existingSubscriptions env info subs = inr m).
Context (Hfree : forall sub, sub ∈ subs -> opMatches op sub = true -> List.find (fun d => opMatches d sub) dn = None).

Lemma unmoved sub : sub ∈ subs -> opMatches op sub = true -> moved dn sub = sub.
Proof using Hfree. intros Hin Hop. unfold moved. by rewrite Hfree. Qed.

Lemma existing_dom i : is_Some (m !! i) <-> exists sub, subs !! i = Some sub /\ opMatches op sub = true.
Proof using Hinfo Hm.
  unfold opMatches. rewrite Hinfo. pose proof (existing_lookup _ _ _ Hm) as Hl. split.
  - intros [b (sub & ? & ? & ?)%Hl]. eauto.
  - intros (sub & Hi & Hs). destruct (hasExistingCurrentCSV env sub) as [err|b] eqn:E; [|exists b; apply Hl; eauto].
    exfalso. revert Hm. unfold existingSubscriptions. apply elem_of_imap_pair in Hi. revert Hi. generalize (imap pair subs), (∅ : gmap nat bool). clear -Hs E.
    intros l. induction l as [|[j x] l IH]; intros g; [by intros ?%elem_of_nil|]. intros [[= <- <-]|Hl]%elem_of_cons; cbn [foldE]; [by rewrite Hs, E|].
    destruct (matchesSub info x); [destruct (hasExistingCurrentCSV env x); [done|]|]; by apply IH.
Qed.

Lemma existing_none : (size m =? 0)%nat = bool_decide (List.filter (opMatches op) subs = []).
Proof using Hinfo Hm.
  apply Bool.eq_iff_eq_true. rewrite Nat.eqb_eq, map_size_empty_iff, bool_decide_eq_true. split.
  - intros Hemp. destruct (List.filter _ _) as [|sub l] eqn:E; [done|]. assert (sub ∈ List.filter (opMatches op) subs) as Hs by (rewrite E; left).
    apply list_elem_of_In, filter_In in Hs as [[i Hi]%list_elem_of_In%list_elem_of_lookup Hs]. destruct (existing_dom i) as [_ Hd].
    destruct Hd as [b Hb]; [eauto|]. by rewrite Hemp, lookup_empty in Hb.
  - intros Hnil. apply map_empty. intros i. apply eq_None_not_Some. rewrite existing_dom. intros (sub & Hi & Hs).
    assert (sub ∈ List.filter (opMatches op) subs) as Hin. { apply list_elem_of_In, filter_In. split; [apply list_elem_of_In; by eapply list_elem_of_lookup_2|done]. }
    rewrite Hnil in Hin. by apply elem_of_nil in Hin.
Qed.

Lemma existing_current :
  forallb (fun '(i, exists_) => exists_ && bool_decide (currentCSV (moved dn <$> subs) i = e_Name op)) (range m) =
  forallb (fun sub => match hasExistingCurrentCSV env sub with inr e => e | inl _ => false end && bool_decide (su_CurrentCSV (sub_Status sub) = e_Name op))
    (List.filter (opMatches op) subs).
Proof using Hinfo Hm Hfree.
  pose proof (existing_lookup _ _ _ Hm) as Hl.
  assert (forall i sub, subs !! i = Some sub -> opMatches op sub = true -> currentCSV (moved dn <$> subs) i = su_CurrentCSV (sub_Status sub)) as Hc.
  { intros i sub Hi Hs. unfold currentCSV. rewrite list_lookup_fmap, Hi. cbn. rewrite unmoved; [done| |done]. by eapply list_elem_of_lookup_2. }
  apply Bool.eq_iff_eq_true. rewrite !forallb_forall. split.
  - intros Hall sub [Hin Hs]%filter_In. apply list_elem_of_In, list_elem_of_lookup in Hin as [i Hi].
    destruct (existing_dom i) as [_ Hd]. destruct Hd as [b Hb]; [eauto|]. pose proof Hb as (sub' & Hi' & _ & He)%Hl. assert (sub' = sub) as -> by congruence.
    rewrite He, <- (Hc i sub) by done. apply (Hall (i, b)). apply list_elem_of_In. by apply elem_of_range.
  - intros Hall [i b] Hin%list_elem_of_In%elem_of_range. pose proof Hin as (sub & Hi & Hs & He)%Hl.
    assert (opMatches op sub = true) as Hop by (unfold opMatches; by rewrite Hinfo).
    specialize (Hall sub). rewrite He in Hall. rewrite (Hc i sub) by done. apply Hall, filter_In. split; [|done]. apply list_elem_of_In. by eapply list_elem_of_lookup_2.
Qed.
End one.

Lemma mapM_snoc (f : Entry -> error + list Step * list BundleLookup) dn op ps p : mapM f dn = inr ps -> f op = inr p -> mapM f (dn ++ [op]) = inr (ps ++ [p]).
Proof.
  revert ps. induction dn as [|d dn IH]; intros ps; cbn [app mapM]; [intros [= <-] ->; done|].
  destruct (f d) as [|q] eqn:Ed; [done|]. cbn [mbind sum_bind]. destruct (mapM f dn) as [|qs] eqn:Eq; [done|]. intros [= <-] Hop. by rewrite (IH qs).
Qed.

Lemma planning_up_to_date subs dn op st :
  (forall sub, sub ∈ subs -> opMatches op sub = true -> moved dn sub = sub) -> planned subs op = inr ([], []) ->
  (forall sub, sub ∈ subs -> opMatches op sub = true -> su_CurrentCSV (sub_Status sub) = e_Name op) ->
  planning subs dn st -> planning subs (dn ++ [op]) st.
Proof.
  intros Hfree Hp Hcur (Hsubs & (ps & Hps & Hst & Hlo) & Hnd & Hupd).
  assert (forall sub, sub ∈ subs -> moved (dn ++ [op]) sub = moved dn sub) as Heq.
  { intros sub Hin. rewrite moved_app. case_bool_decide; [|done]. destruct (opMatches op sub) eqn:Ho; [|done]. cbn.
    by rewrite Hfree, <- (Hcur sub), setCurrentCSV_same. }
  split_and!; [| |done|].
  - rewrite Hsubs. apply list_fmap_ext. intros i sub Hi. symmetry. apply Heq. by eapply list_elem_of_lookup_2.
  - exists (ps ++ [([], [])]). split; [by apply mapM_snoc|]. by rewrite !fmap_app, !concat_app, !app_nil_r.
  - intros i. rewrite Hupd. split; intros (sub & Hi & Hne); exists sub; (split; [done|]); [rewrite Heq|rewrite <- Heq]; try done; by eapply list_elem_of_lookup_2.
Qed.

Lemma planning_moved subs dn op info m st p :
  e_SourceInfo op = Some info -> existingSubscriptions env info subs = inr m ->
  (forall sub, sub ∈ subs -> opMatches op sub = true -> List.find (fun d => opMatches d sub) dn = None) -> planned subs op = inr p -> planning subs dn st ->
  planning subs (dn ++ [op])
    (updateCurrent (e_Name op) m (mkStepsState (sts_subs st) (sts_steps st ++ p.1) (sts_lookups st ++ p.2) (sts_updated st))).
Proof.
  intros Hinfo Hm Hfree Hp (Hsubs & (ps & Hps & Hst & Hlo) & Hnd & Hupd). unfold updateCurrent. fold (moveOn (e_Name op)).
  destruct (keys_range m) as [Hknd Hkeys]. pose proof (existing_dom subs op info m Hinfo Hm) as Hdom.
  set (st0 := mkStepsState _ _ _ _). destruct (moveAll_rest (e_Name op) (range m).*1 st0 Hknd) as (Es & El & Eu).
  assert (forall sub, sub ∈ subs -> opMatches op sub = true -> moved (dn ++ [op]) sub = setCurrentCSV (e_Name op) sub /\ moved dn sub = sub) as Hop.
  { intros sub Hin Ho. rewrite moved_app, Ho. unfold moved. by rewrite (Hfree sub) by done. }
  assert (forall sub, opMatches op sub = false -> moved (dn ++ [op]) sub = moved dn sub) as Hno.
  { intros sub Ho. by rewrite moved_app, Ho, andb_false_r. }
  assert (forall i sub, subs !! i = Some sub -> i ∈ (range m).*1 <-> opMatches op sub = true) as Hin.
  { intros i sub Hi. rewrite Hkeys, Hdom. split; [intros (? & ? & ?); congruence|eauto]. }
  assert (forall i sub, subs !! i = Some sub -> opMatches op sub = true -> currentCSV (sts_subs st) i = su_CurrentCSV (sub_Status sub)) as Hcur.
  { intros i sub Hi Ho. unfold currentCSV. cbn. rewrite Hsubs, list_lookup_fmap, Hi. cbn. by rewrite (proj2 (Hop sub (list_elem_of_lookup_2 _ _ _ Hi) Ho)). }
  split_and!.
  - apply list_eq. intros i. rewrite moveAll_lookup. cbn. rewrite Hsubs, !list_lookup_fmap. destruct (subs !! i) as [sub|] eqn:Ei; [|by case_bool_decide].
    cbn. rewrite (bool_decide_ext _ _ (Hin i sub Ei)). case_bool_decide as Ho; [|by rewrite Hno by (by destruct (opMatches op sub))].
    destruct (Hop sub (list_elem_of_lookup_2 _ _ _ Ei) Ho) as [-> ->]. done.
  - exists (ps ++ [p]). split; [by apply mapM_snoc|]. rewrite Es, El. cbn. by rewrite Hst, Hlo, !fmap_app, !concat_app; cbn; rewrite !app_nil_r.
  - rewrite Eu. cbn. apply NoDup_app. split_and!; [done| |apply NoDup_ListNoDup, List.NoDup_filter; by apply NoDup_ListNoDup].
    intros i (sub & Hi & Hne)%Hupd [Hk _]%list_elem_of_In%filter_In. apply list_elem_of_In, (Hin i sub Hi) in Hk.
    by apply Hne, (Hop sub (list_elem_of_lookup_2 _ _ _ Hi) Hk).
  - intros i. rewrite Eu. cbn. rewrite elem_of_app, Hupd, list_elem_of_In, filter_In, <- list_elem_of_In. split.
    + intros [(sub & Hi & Hne)|[Hk Hc]].
      * exists sub. split; [done|]. destruct (opMatches op sub) eqn:Ho; [|by rewrite Hno]. by destruct Hne; apply (Hop sub (list_elem_of_lookup_2 _ _ _ Hi)).
      * pose proof Hk as (sub & Hi & Ho)%Hkeys%Hdom. exists sub. split; [done|]. destruct (Hop sub (list_elem_of_lookup_2 _ _ _ Hi) Ho) as [-> _].
        apply setCurrentCSV_changes. rewrite (Hcur i sub Hi Ho) in Hc. by bools.
    + intros (sub & Hi & Hne). destruct (opMatches op sub) eqn:Ho; [|left; exists sub; by rewrite Hno in Hne].
      right. split; [by apply (Hin i sub Hi)|]. destruct (Hop sub (list_elem_of_lookup_2 _ _ _ Hi) Ho) as [E _]. rewrite E in Hne. apply setCurrentCSV_changes in Hne.
      rewrite (Hcur i sub Hi Ho). by rewrite bool_decide_false.
Qed.

Lemma planned_eq subs op info m dn : e_SourceInfo op = Some info -> existingSubscriptions env info subs = inr m ->
  (forall sub, sub ∈ subs -> opMatches op sub = true -> List.find (fun d => opMatches d sub) dn = None) ->
  upToDate subs op = negb (size m =? 0)%nat
    && forallb (fun '(i, exists_) => exists_ && bool_decide (currentCSV (moved dn <$> subs) i = e_Name op)) (range m).
Proof.
  intros Hinfo Hm Hfree. unfold upToDate. by rewrite (existing_none subs op info m Hinfo Hm), (existing_current subs dn op info m Hinfo Hm Hfree).
Qed.

Lemma upToDate_current subs op : upToDate subs op = true ->
  forall sub, sub ∈ subs -> opMatches op sub = true -> su_CurrentCSV (sub_Status sub) = e_Name op.
Proof.
  unfold upToDate. intros [_ Hall]%andb_true_iff sub Hin Ho. rewrite forallb_forall in Hall. specialize (Hall sub).
  apply andb_true_iff in Hall as [_ Hc]; [by bools|]. apply filter_In. split; [by apply list_elem_of_In|done].
Qed.

Lemma resolveOne_planning subs dn op st st' :
  (forall sub, sub ∈ subs -> opMatches op sub = true -> List.find (fun d => opMatches d sub) dn = None) ->
  planning subs dn st -> resolveOne env namespace st op = Some (inr st') -> planning subs (dn ++ [op]) st'.
Proof.
  intros Hfree Hpl. pose proof Hpl as [Hsubs _]. unfold resolveOne. destruct (e_SourceInfo op) as [info|] eqn:Hinfo; [|done]. cbn [mbind option_bind].
  rewrite Hsubs, (existing_moved info op subs dn Hinfo) by (intros sub Hin Ho; unfold moved; by rewrite Hfree).
  destruct (existingSubscriptions env info subs) as [|m] eqn:Hm; [done|]. rewrite <- (planned_eq subs op info m dn) by done.
  destruct (upToDate subs op) eqn:Eup.
  - intros [= <-]. apply planning_up_to_date; [intros sub Hin Ho; unfold moved; by rewrite Hfree|unfold planned; by rewrite Hinfo, Eup| |done].
    by apply upToDate_current.
  - assert (planned subs op = '(steps, lookups) ← bundleSteps namespace op info;
      if (size m =? 0)%nat then s ← subscriptionStep namespace op info; inr (steps ++ [s], lookups) else inr (steps, lookups)) as Hp.
    { unfold planned. by rewrite Hinfo, Eup, (existing_none subs op info m Hinfo Hm). }
    destruct (bundleSteps namespace op info) as [|[steps lookups]]; [done|]. cbn [mbind sum_bind] in Hp. destruct (size m =? 0)%nat.
    + destruct (subscriptionStep namespace op info) as [|s]; [done|]. intros [= <-]. rewrite <- Hsubs. by apply (planning_moved subs dn op info m st _ Hinfo Hm Hfree Hp Hpl).
    + intros [= <-]. rewrite <- Hsubs, app_nil_r. by apply (planning_moved subs dn op info m st _ Hinfo Hm Hfree Hp Hpl).
Qed.
End planned.

Section resolve.
Context `{StepLib, RbacLib, RangeOrder, SnapshotLib} (env : StepEnv) (namespace : string).

Lemma sole_free subs dn op ops : sole subs (dn ++ op :: ops) ->
  forall sub, sub ∈ subs -> opMatches op sub = true -> List.find (fun d => opMatches d sub) dn = None.
Proof.
  intros Hsole sub Hin Ho. destruct (List.find _ dn) as [d|] eqn:E; [|done]. apply find_elem_of in E as [[i Hi]%list_elem_of_lookup Hd].
  assert (i = length dn); [|apply lookup_lt_Some in Hi; lia].
  apply (Hsole sub _ _ d op Hin); [by apply lookup_app_l_Some|by rewrite list_lookup_middle|by rewrite Hd|by rewrite Ho].
Qed.

Lemma resolveOps_planning subs ops st' : sole subs ops ->
  resolveOps env namespace (mkStepsState subs [] [] []) ops = Some (inr st') -> planning env namespace subs ops st'.
Proof.
  intros Hsole. assert (planning env namespace subs [] (mkStepsState subs [] [] [])) as Hpl.
  { split_and!; [symmetry; apply list_fmap_id|by exists []|apply NoDup_nil_2|]. intros i. rewrite elem_of_nil. split; [done|]. by intros (sub & _ & ?). }
  change ops with ([] ++ ops) in Hsole |- * at 2. revert Hsole Hpl. generalize (@nil Entry) as dn, (mkStepsState subs [] [] []) as st.
  induction ops as [|op ops IH]; intros dn st Hsole Hpl; cbn [resolveOps]; [intros [= <-]; by rewrite app_nil_r|].
  destruct (resolveOne env namespace st op) as [[|st1]|] eqn:E; [done| |done]. cbn. rewrite cons_middle, app_assoc in Hsole |- *. intros Hr.
  apply (IH (dn ++ [op]) st1); [done| |done]. eapply resolveOne_planning; [|done..]. eapply (sole_free subs dn op ops). by rewrite <- app_assoc in Hsole.
Qed.
End resolve.

(** C28: a resolution that succeeds asks for exactly what is missing.  Whatever the order of the operators, each of
    them adds the steps (or the lookup) of its bundle unless all its subscriptions have it already, and a subscription
    if it has none, all as read from the subscriptions before any of them was changed; afterwards every subscription
    is at the operator it resolves to, nothing else of it is changed, and those that moved are reported once.  CSVs are
    first in the steps, then CRDs. *)
Theorem ResolveSteps_asks_for_missing `{StepLib, RbacLib, RangeOrder, SnapshotLib, SatOps, DequeOps, ConstraintDecoder, SortLib}
    (systemConstraints : option (Entry -> option (list Constraint))) (fuel : nat) (snapshots : list string -> Snapshots) (env : StepEnv) (namespace : string)
    (st : StepsState) :
  ResolveSteps systemConstraints fuel snapshots env namespace = Done (inr st) ->
  exists subs og ops, te_listSubs env = inr subs /\ te_groups env = inr [og] /\
  (let namespaces := resolutionNamespaces env namespace og in
   Resolve systemConstraints fuel (snapshots namespaces) namespaces (resolvable <$> subs) = Done (inr ops)) /\
  (sole subs ops ->
   sts_subs st = moved ops <$> subs /\
   (exists ps, mapM (planned env namespace subs) ops = inr ps /\ sts_steps st = OrderSteps (concat ps.*1) /\ sts_lookups st = concat ps.*2) /\
   NoDup (sts_updated st) /\ (forall i, i ∈ sts_updated st <-> exists sub, subs !! i = Some sub /\ moved ops sub <> sub)).
Proof.
  unfold ResolveSteps. destruct (te_listSubs env) as [|subs]; [done|]. destruct (te_groups env) as [|[|og [|]]]; try done. cbv zeta.
  intros ([|ops] & Hr & Hk)%bind_Done; [done|]. apply bind_Done in Hk as ([|st0] & Ho%orPanic_Done & [= <-]).
  exists subs, og, ops. split_and!; [done..|]. intros Hsole. destruct (resolveOps_planning env namespace subs ops st0 Hsole Ho) as (Hs & (ps & Hps & Hst & Hlo) & Hnd & Hu).
  split_and!; [done| |done..]. exists ps. cbn. by rewrite Hst.
Qed.

(** The properties of a bundle, written as compact JSON, survive its installation.  The first step of a bundle is its CSV in the
    namespace of the subscription, with what it replaces; and whatever else happens to it in the cluster, as long as
    its annotations are kept, the entry that the resolver makes of it has exactly the properties of the bundle. *)
Theorem bundle_properties_roundtrip `{StepLib, RbacLib, RangeOrder, SnapshotLib, SortLib}
    (bundle : APIBundle) (namespace replaces catalogSourceName catalogSourceNamespace : string) (resources : list StepResource) :
  (forall p, p ∈ ab_Properties bundle -> utf8 (PType p) /\ compactJSON (PValue p)) ->
  NewStepResourceFromBundle bundle namespace replaces catalogSourceName catalogSourceNamespace = inr resources ->
  exists csv0 generateName anno step rest, V1alpha1CSVFromBundle bundle = inr (csv0, generateName) /\ PropertiesAnnotationFromPropertyList (ab_Properties bundle) = inr anno /\
    let csv := projectCSV csv0 namespace replaces anno in
    resources = step :: rest /\ encodeObject (CSVObject csv generateName) = inr (sr_Manifest step) /\
    csv_Namespace csv = namespace /\ spec_Replaces (csv_Spec csv) = replaces /\
    forall (csvVersion : CSV -> Version) key csvs subs failForward sub live addr installed entry, csv_Annotations installed = csv_Annotations csv ->
      csvEntry csvVersion key csvs subs failForward sub live addr installed = Some (inr (Some entry)) -> e_Properties entry = ab_Properties bundle.
Proof.
  intros Hcompact. unfold NewStepResourceFromBundle. destruct (V1alpha1CSVFromBundle bundle) as [|[csv0 generateName]]; [done|].
  destruct (_ && _); [done|]. destruct (bool_decide _); [done|]. unfold PropertiesAnnotationFromPropertyList at 1.
  destruct (encAnnotation (ab_Properties bundle)) as [anno|] eqn:Henc; [|done]. cbv zeta. set (csv := projectCSV csv0 namespace replaces anno).
  intros (step & Hstep & (objs & _ & (accs & _ & [= <-])%bind_inr)%bind_inr)%bind_inr. exists csv0, generateName, anno, step, (objs ++ accs).
  split; [done|]. split; [unfold PropertiesAnnotationFromPropertyList; by rewrite Henc|]. split; [done|]. split_and!; [|done..|].
  - unfold NewStepResourceFromObject in Hstep. destruct (encodeObject _) as [|manifest]; [done|]. destruct (InferGroupVersionKind _) as [o []]; [|done].
    by injection Hstep as <-.
  - intros csvVersion key csvs subs ff sub live addr installed entry Hann. unfold csvEntry. cbv zeta. rewrite Hann.
    assert (default ∅ (csv_Annotations (projectCSV csv0 namespace replaces anno)) !! PropertiesAnnotationKey = Some anno) as -> by apply lookup_insert_eq. unfold PropertyListFromPropertiesAnnotation. rewrite (decAnnotation_enc _ _ Hcompact Henc). intros Hentry.
    repeat case_match; simplify_eq; done.
Qed.

(** ** A catalog with one operator *)

Module StepsDemo.
#[local] Existing Instances demo_semver canonical_order insertion_sort_lib SourceDemo.resolverLib SourceDemo.lib RbacDemo.lib demo_decoder demo_circuit_ops demo_sat_ops linked_ops.

Definition csv : CSV :=
  mkCSV (mkObj TClusterServiceVersion (mkGVK "operators.coreos.com" "v1alpha1" ClusterServiceVersionKind) "etcd.v1" "" "" [] None) None (csv_Spec RbacDemo.operator) (demo_status "" "").
Definition printObject (obj : StepObject) : string := OName (objectMeta obj) +:+ "." +:+ ONamespace (objectMeta obj).
Definition stepLib : StepLib := {|
  encodeObject obj := inr (printObject obj); unmarshalCSV _ := inr (csv, "");
  decodeUnstructured s := inr (mkObj TOther (mkGVK "" "v1" s) "object" "" "" [] None, "", s)
|}.
#[local] Existing Instance stepLib.

Definition bundle : APIBundle :=
  mkAPIBundle "etcd.v1" "etcd" "stable" "{}" ["Secret"; "ClusterServiceVersion"] "" [mkAPIKey "etcd.io" "v1" "Etcd" "etcds"] [] "1.0.0" "" []
    [mkProperty PackageType "etcd@1.0.0"] "" [] None.
Definition client : RegistryClient := mkClient (inr ([bundle], None)) (fun _ name => inr (mkAPIPackage name [("stable", None)] "stable" None)).
Definition sources : list (SourceKey * Source) := [(SourceDemo.catalog, registrySource client); (NewVirtualSourceKey "ns", csvSource SourceDemo.namespace)].
Definition snapshots (_ : list string) : Snapshots := default ∅ (readSources (fun _ => "1.0.0") (fun _ => 0%Z) sources 0).
Definition sub (pkg : string) : CatalogTypes.Subscription :=
  CatalogTypes.mkSub (mkObj TSubscription (mkGVK "" "" "") pkg "ns" "" [] None) None (mkSubSpec "community" "olm" pkg "stable" "" ApprovalAutomatic)
    (mkSubStatus "" "" None "" 0%Z None [] [] 0%Z).
Definition env : StepEnv :=
  mkStepEnv (inr [sub "etcd"]) (inr [mkGroup "og" "ns" "u" None None ["ns"] "" false "" None None]) "olm" (fun _ _ => None).
Definition run : outcome (stepsError + StepsState) := ResolveSteps None 200 snapshots env "ns".
Definition result : StepsState := match run with Done (inr st) => st | _ => mkStepsState [] [] [] [] end.

(** The CSV of the bundle, its objects, and the accounts, roles and bindings its deployments need. *)
Example run_steps : (fun s => sr_Kind (step_Resource s)) <$> sts_steps result =
  ["ClusterServiceVersion"; "BundleSecret"; "ServiceAccount"; "Role"; "RoleBinding"; "ClusterRole"; "ClusterRoleBinding"].
Proof. vm_compute. reflexivity. Qed.

Lemma ResolveSteps_asks_for_missing_witness :
  exists ops, Resolve None 200 (snapshots ["ns"; "olm"]) ["ns"; "olm"] (resolvable <$> [sub "etcd"]) = Done (inr ops) /\
  sts_subs result = moved ops <$> [sub "etcd"] /\ su_CurrentCSV ∘ sub_Status <$> sts_subs result = ["etcd.v1"].
Proof.
  destruct (ResolveSteps_asks_for_missing None 200 snapshots env "ns" result) as (subs & og & ops & [= <-] & [= <-] & Hr & Hall); [vm_compute; reflexivity|].
  exists ops. split; [exact Hr|]. assert (exists o, ops = [o]) as [o ->].
  { vm_compute in Hr. injection Hr as <-. eexists. reflexivity. }
  destruct Hall as (Hs & _); [|split; [exact Hs|vm_compute; reflexivity]].
  intros x [|i] [|j] op op' _ Hi Hj _ _; done.
Defined.

Definition installedCSV : CSV := projectCSV csv "ns" "" (default "" (encAnnotation (ab_Properties bundle))).
Lemma bundle_properties_roundtrip_witness :
  match csvEntry (fun _ => "1.0.0") (NewVirtualSourceKey "ns") [installedCSV] [] false None (inr []) 0 installedCSV with
  | Some (inr (Some entry)) => csv_Namespace installedCSV = "ns" /\ e_Properties entry = ab_Properties bundle
  | _ => False
  end.
Proof.
  destruct (bundle_properties_roundtrip bundle "ns" "" "community" "olm"
    (match NewStepResourceFromBundle bundle "ns" "" "community" "olm" with inr r => r | inl _ => [] end))
    as (csv0 & g & anno & step & rest & [= <- <-] & [= <-] & _ & _ & Hns & _ & Hround);
    [intros p ->%list_elem_of_singleton; by split|vm_compute; reflexivity|].
  destruct (csvEntry _ _ _ _ _ _ _ _ installedCSV) as [[err|[entry|]]|] eqn:E; [vm_compute in E; discriminate| |vm_compute in E; discriminate..].
  split; [exact Hns|]. eapply Hround; [|exact E]. reflexivity.
Defined.
End StepsDemo.
