(* ===== verification/ConfigMaps.v ===== *)
(** * Bundles in config maps

    Models [operator-registry/pkg/configmap]: [configmap_writer.go] (what an unpack job writes) and
    [configmap.go] (what is read back).  Decoding of manifests and compression are parameters
    ([ConfigMapLib]); the file system and the cluster are the environment of the writer ([WriterEnv]). *)

From stdpp Require Import sorting.
From S2P Require Import Prelude GoStrings OwnerUtil CatalogModel ResolverCache CsvTypes.

#[local] Arguments String.append : simpl nomatch.

Definition ConfigMapImageAnnotationKey : string := "olm.sourceImage".
Definition ConfigMapEncodingAnnotationKey : string := "olm.contentEncoding".
Definition ConfigMapEncodingAnnotationGzip : string := "gzip+base64".
Definition annotationsFileName : string := "annotations.yaml".

Record ConfigMap := mkConfigMap {
  cm_obj : Object; cm_Annotations : option (gmap string string); cm_Data : gmap string string; cm_BinaryData : gmap string string
}.

(** The fields of the annotations file, in the order of its labels. *)
Record AnnotationsFile := mkAnnotationsFile {
  af_Resources : string; af_MediaType : string; af_Metadata : string; af_Package : string; af_Channels : string; af_ChannelDefault : string
}.

(** [decodeResource] gives the kind, the name and the JSON of a manifest. *)
Class ConfigMapLib := {
  decodeResource : string -> option (string * string * (error + string));
  gzipEncode : string -> error + string;
  gzipDecode : string -> error + string;
  unmarshalAnnotations : string -> error + AnnotationsFile;
  gzip_roundtrip : forall content encoded, gzipEncode content = inr encoded -> gzipDecode encoded = inr content;
}.

(** ** Keys *)

(** The bytes of the first rune, as [utf8.DecodeRuneInString] counts them. *)
Definition byte (s : string) (i : nat) : nat := match String.get i s with Some c => nat_of_ascii c | None => 0 end.
Definition between (lo hi n : nat) : bool := (lo <=? n)%nat && (n <=? hi)%nat.
Definition runeWidth (s : string) : nat :=
  let cont i := between 128 191 (byte s i) in
  let b := byte s 0 in
  if between 194 223 b && cont 1 then 2
  else if (if (b =? 224)%nat then between 160 191 (byte s 1) else if (b =? 237)%nat then between 128 159 (byte s 1) else between 225 239 b && cont 1) && cont 2 then 3
  else if (if (b =? 240)%nat then between 144 191 (byte s 1) else if (b =? 244)%nat then between 128 143 (byte s 1) else between 241 243 b && cont 1) && cont 2 && cont 3 then 4
  else 1.

(** [-A-Za-z0-9_.] *)
Definition allowedKeyChar (c : ascii) : bool :=
  let n := nat_of_ascii c in
  between 65 90 n || between 97 122 n || between 48 57 n || bool_decide (c = "-"%char) || bool_decide (c = "_"%char) || bool_decide (c = "."%char).

Fixpoint translateFrom (skip : nat) (s : string) : string :=
  match s with
  | EmptyString => EmptyString
  | String c s' =>
      match skip with
      | S skip' => translateFrom skip' s'
      | O => if allowedKeyChar c then String c (translateFrom 0 s') else String "~" (translateFrom (runeWidth s - 1) s')
      end
  end.
Definition TranslateInvalidChars (input : string) : string := translateFrom 0 input.

(** ** Reading (configmap.go) *)

Section loader.
Context `{ConfigMapLib, RangeOrder}.

Definition hasGzipEncodingAnnotation (cm : ConfigMap) : bool :=
  bool_decide (default ∅ (cm_Annotations cm) !! ConfigMapEncodingAnnotationKey = Some ConfigMapEncodingAnnotationGzip).

Definition decodeGzipBinaryData (cm : ConfigMap) : error + gmap string string :=
  foldE (fun data '(name, content) =>
    match gzipDecode content with
    | inl err => inl (ErrString ("error decoding gzip-encoded bundle data: " +:+ Error_ err))
    | inr decoded => inr (<[name := decoded]> data)
    end) ∅ (range (cm_BinaryData cm)).

(** The bundle so far: the objects, and the CSV as JSON with its name. *)
Record Loaded := mkLoaded { ld_Object : list string; ld_CsvJson : string; ld_CsvName : string }.

Definition loadResource (bundle : Loaded) (content : string) : error + Loaded :=
  match decodeResource content with
  | None => inr bundle
  | Some (kind, name, json) =>
      match (if bool_decide (kind = "ClusterServiceVersion") then json' ← json; inr (json', name) else inr (ld_CsvJson bundle, ld_CsvName bundle)) with
      | inl err => inl err
      | inr (csvJson, csvName) => inr (mkLoaded (ld_Object bundle ++ [content]) csvJson csvName)
      end
  end.

Definition sortedContents (data : gmap string string) : list string :=
  omap (fun name => data !! name) (merge_sort String.le (range data).*1).

Definition loadBundle (cm : ConfigMap) : error + Loaded :=
  data ← (if hasGzipEncodingAnnotation cm then decodeGzipBinaryData cm else inr (cm_Data cm));
  foldE loadResource (mkLoaded [] "" "") (sortedContents data).

Definition apiBundle (b : Loaded) (properties : list Property) : APIBundle :=
  mkAPIBundle (ld_CsvName b) "" "" (ld_CsvJson b) (ld_Object b) "" [] [] "" "" [] properties "" [] None.

Definition Load (cm : option ConfigMap) : error + APIBundle :=
  match cm with
  | None => inl (ErrString "ConfigMap must not be <nil>")
  | Some cm =>
      match loadBundle cm with
      | inl err => inl (ErrString ("failed to extract bundle from configmap - " +:+ Error_ err))
      | inr bundle => inr (apiBundle bundle [])
      end
  end.

(** ** Writing (configmap_writer.go) *)

Record WriterEnv := mkWriterEnv {
  we_get : error + ConfigMap;
  we_readDir : string -> error + list string;
  we_readFile : string -> error + string;
  we_sourceImage : string;
  we_update : ConfigMap -> option error;
}.

Definition setAnnotation (cm : ConfigMap) (key value : string) : ConfigMap :=
  mkConfigMap (cm_obj cm) (Some (<[key := value]> (default ∅ (cm_Annotations cm)))) (cm_Data cm) (cm_BinaryData cm).
Definition setGzipEncodingAnnotation (cm : ConfigMap) : ConfigMap := setAnnotation cm ConfigMapEncodingAnnotationKey ConfigMapEncodingAnnotationGzip.

Definition bundleLabels (a : AnnotationsFile) : gmap string string :=
  list_to_map [("operators.operatorframework.io.bundle.manifests.v1", af_Resources a); ("operators.operatorframework.io.bundle.mediatype.v1", af_MediaType a);
    ("operators.operatorframework.io.bundle.metadata.v1", af_Metadata a); ("operators.operatorframework.io.bundle.package.v1", af_Package a);
    ("operators.operatorframework.io.bundle.channels.v1", af_Channels a); ("operators.operatorframework.io.bundle.channel.default.v1", af_ChannelDefault a)].

Definition uint64_add (a b : Z) : Z := ((a + b) mod 2 ^ 64)%Z.

(** One file; the total size is a [uint64]. *)
Definition populateFile (gzip : bool) (maxDataSizeLimit : Z) (read : string -> error + string) (completePath : string) (st : ConfigMap * Z) (name : string)
    : error + ConfigMap * Z :=
  let '(cm, totalSize) := st in
  content ← read (completePath +:+ name);
  if bool_decide (name = annotationsFileName) then
    annotations ← unmarshalAnnotations content;
    inr (mkConfigMap (cm_obj cm) (Some (bundleLabels annotations)) (cm_Data cm) (cm_BinaryData cm), totalSize)
  else
    content ← (if gzip then gzipEncode content else inr content);
    let totalSize := uint64_add totalSize (Z.of_nat (String.length content)) in
    if (maxDataSizeLimit <? totalSize)%Z then inl (ErrString "bundle files exceeded the limit in bytes")
    else
      let key := TranslateInvalidChars name in
      inr (if gzip then mkConfigMap (cm_obj cm) (cm_Annotations cm) (cm_Data cm) (<[key := content]> (cm_BinaryData cm))
           else mkConfigMap (cm_obj cm) (cm_Annotations cm) (<[key := content]> (cm_Data cm)) (cm_BinaryData cm), totalSize).

Definition populateDir (env : WriterEnv) (manifestsDir : string) (gzip : bool) (maxDataSizeLimit : Z) (st : ConfigMap * Z) (dir : string) : error + ConfigMap * Z :=
  let completePath := manifestsDir +:+ dir in
  files ← we_readDir env completePath;
  foldE (populateFile gzip maxDataSizeLimit (we_readFile env) completePath) st files.

(** What is written, and the error. *)
Definition Populate (env : WriterEnv) (manifestsDir : string) (gzip : bool) (maxDataSizeLimit : Z) : list ConfigMap * option error :=
  match
    cm ← we_get env;
    '(cm, _) ← foldE (populateDir env manifestsDir gzip maxDataSizeLimit) (mkConfigMap (cm_obj cm) (cm_Annotations cm) ∅ ∅, 0%Z) ["manifests/"; "metadata/"];
    let cm := if bool_decide (we_sourceImage env = "") then cm else setAnnotation cm ConfigMapImageAnnotationKey (we_sourceImage env) in
    inr (if gzip then setGzipEncodingAnnotation cm else cm)
  with
  | inl err => ([], Some err)
  | inr cm => ([cm], we_update env cm)
  end.
End loader.

(** ** What is written can be read *)

#[export] Instance filter_Permutation {A} (f : A -> bool) : Proper ((≡ₚ) ==> (≡ₚ)) (List.filter f).
Proof. intros l l' Hl. induction Hl as [|x l l' _ IH|x y l|l1 l2 l3 _ IH1 _ IH2]; cbn; [done| | |by etrans]; by repeat case_match; econstructor. Qed.

Section roundtrip.
Context `{ConfigMapLib, RangeOrder} (env : WriterEnv) (manifestsDir : string) (gzip : bool) (limit : Z).

(** The files of a directory that go into the config map, with their contents. *)
Definition dirFiles (completePath : string) (names : list string) : list (string * string) :=
  omap (fun name => if bool_decide (name = annotationsFileName) then None
                    else match we_readFile env (completePath +:+ name) with inr content => Some (name, content) | inl _ => None end) names.
Definition filesOf (dir : string) : list (string * string) :=
  match we_readDir env (manifestsDir +:+ dir) with inr names => dirFiles (manifestsDir +:+ dir) names | inl _ => [] end.
Definition bundleFiles : list (string * string) := filesOf "manifests/" ++ filesOf "metadata/".

Definition keyed (files : list (string * string)) : gmap string string :=
  foldl (fun m '(name, content) => <[TranslateInvalidChars name := content]> m) ∅ files.

(** The config map holds the files, and nothing says it is compressed when it is not. *)
Definition holds (files : list (string * string)) (cm : ConfigMap) : Prop :=
  if gzip then forall k, option_Forall2 (fun encoded content => gzipDecode encoded = inr content) (cm_BinaryData cm !! k) (keyed files !! k)
  else cm_Data cm = keyed files /\ hasGzipEncodingAnnotation cm = false.

Lemma keyed_snoc files name content : keyed (files ++ [(name, content)]) = <[TranslateInvalidChars name := content]> (keyed files).
Proof. unfold keyed. by rewrite foldl_app. Qed.

Lemma labels_not_gzip a : bundleLabels a !! ConfigMapEncodingAnnotationKey = None.
Proof. unfold bundleLabels. apply not_elem_of_list_to_map_1. cbn. rewrite !elem_of_cons, elem_of_nil. naive_solver. Qed.

Lemma hasGzip_Some o m d b : hasGzipEncodingAnnotation (mkConfigMap o (Some m) d b) = bool_decide (m !! ConfigMapEncodingAnnotationKey = Some ConfigMapEncodingAnnotationGzip).
Proof. done. Qed.

Lemma populateFile_holds completePath st st' name files :
  holds files st.1 -> populateFile gzip limit (we_readFile env) completePath st name = inr st' -> holds (files ++ dirFiles completePath [name]) st'.1.
Proof.
  destruct st as [cm size]. unfold populateFile, dirFiles. cbn [omap list_omap fst]. intros Hh (content & Hread & Hk)%bind_inr. rewrite Hread in *.
  case_bool_decide as Ename.
  - apply bind_inr in Hk as (a & _ & [= <-]). rewrite app_nil_r. cbn [fst]. unfold holds in *. destruct gzip; [done|]. destruct Hh as [Hd _]. split; [done|].
    rewrite hasGzip_Some, labels_not_gzip. by rewrite bool_decide_false.
  - apply bind_inr in Hk as (encoded & Henc & Hk). destruct (limit <? _)%Z; [done|]. injection Hk as <-. cbn [fst].
    unfold holds in *. destruct gzip.
    + intros k. cbn. rewrite keyed_snoc. destruct (decide (TranslateInvalidChars name = k)) as [->|Hn].
      * rewrite !lookup_insert_eq. constructor. by apply gzip_roundtrip.
      * rewrite !lookup_insert_ne by done. apply Hh.
    + injection Henc as ->. destruct Hh as [Hd Ha]. split; [|done]. cbn. by rewrite keyed_snoc, Hd.
Qed.

Lemma dirFiles_app completePath l l' : dirFiles completePath (l ++ l') = dirFiles completePath l ++ dirFiles completePath l'.
Proof. apply omap_app. Qed.

Lemma populateDir_holds st st' dir files : holds files st.1 -> populateDir env manifestsDir gzip limit st dir = inr st' -> holds (files ++ filesOf dir) st'.1.
Proof.
  unfold populateDir, filesOf. intros Hh (names & -> & Hf)%bind_inr.
  refine (foldE_inv _ (fun dn st => holds (files ++ dirFiles (manifestsDir +:+ dir) dn) st.1) st names st' _ _ Hf).
  - by rewrite app_nil_r.
  - intros dn name s s' Hs Hstep. rewrite dirFiles_app, app_assoc. by eapply populateFile_holds.
Qed.

Lemma setAnnotation_holds files cm key value : key <> ConfigMapEncodingAnnotationKey -> holds files cm -> holds files (setAnnotation cm key value).
Proof.
  unfold holds. intros Hk. destruct gzip; [done|]. intros [Hd Ha]. split; [done|]. unfold setAnnotation. rewrite hasGzip_Some, lookup_insert_ne by done. done.
Qed.

Lemma Populate_holds cm :
  Populate env manifestsDir gzip limit = ([cm], None) -> (gzip = true \/ forall cm0, we_get env = inr cm0 -> hasGzipEncodingAnnotation cm0 = false) ->
  holds bundleFiles cm /\ hasGzipEncodingAnnotation cm = gzip.
Proof.
  unfold Populate. intros Hp Hg. destruct (_ ≫= _) as [|cm1] eqn:E; [done|]. injection Hp as -> _.
  apply bind_inr in E as (cm0 & Hget & ([cm2 size] & Hf & Hcm)%bind_inr).
  assert (holds bundleFiles cm2) as Hh.
  { cbn [foldE] in Hf. destruct (populateDir _ _ _ _ _ "manifests/") as [|st1] eqn:E1; [done|]. destruct (populateDir _ _ _ _ st1 _) as [|st2] eqn:E2; [done|].
    injection Hf as ->. unfold bundleFiles. eapply (populateDir_holds _ (cm2, size)); [|done]. eapply (populateDir_holds _ _ _ []); [|done].
    unfold holds. destruct gzip; [intros k; cbn; rewrite !lookup_empty; constructor|]. split; [done|]. destruct Hg as [?|Hg]; [done|]. by apply Hg in Hget. }
  set (cm3 := if bool_decide (we_sourceImage env = "") then _ else _) in Hcm.
  assert (holds bundleFiles cm3) as Hh3. { unfold cm3. case_bool_decide; [done|]. by apply setAnnotation_holds. }
  clear Hf Hh Hget. clearbody cm3. unfold holds in *. destruct gzip; injection Hcm as <-.
  - split; [done|]. unfold setGzipEncodingAnnotation, setAnnotation. by rewrite hasGzip_Some, lookup_insert_eq, bool_decide_true.
  - by destruct Hh3.
Qed.

Lemma decode_list (l : list (string * string)) : forall acc : gmap string string, NoDup l.*1 -> (forall k e, (k, e) ∈ l -> exists c, gzipDecode e = inr c) ->
  exists data, foldE (fun data '(name, content) =>
    match gzipDecode content with
    | inl err => inl (ErrString ("error decoding gzip-encoded bundle data: " +:+ Error_ err))
    | inr decoded => inr (<[name := decoded]> data)
    end) acc l = inr data /\
  forall k, data !! k = match (list_to_map l : gmap string string) !! k with Some e => match gzipDecode e with inr c => Some c | inl _ => None end | None => acc !! k end.
Proof.
  induction l as [|[k e] l IH]; intros acc Hnd Hdec; cbn [foldE]; [exists acc; split; [done|]; by intros k|].
  destruct (Hdec k e) as [c Hc]; [left|]. rewrite Hc. cbn in Hnd. apply NoDup_cons in Hnd as [Hk Hnd].
  destruct (IH (<[k := c]> acc) Hnd) as (data & -> & Hd); [intros; eapply Hdec; by right|]. exists data. split; [done|]. intros k'. rewrite Hd. cbn [list_to_map foldr fst snd].
  destruct (decide (k = k')) as [<-|Hn].
  - rewrite not_elem_of_list_to_map_1 by done. by rewrite !lookup_insert_eq, Hc.
  - rewrite !lookup_insert_ne by done. by destruct (list_to_map l !! k').
Qed.

Lemma decodeGzip_holds cm m :
  (forall k, option_Forall2 (fun encoded content => gzipDecode encoded = inr content) (cm_BinaryData cm !! k) (m !! k)) -> decodeGzipBinaryData cm = inr m.
Proof.
  intros Hm. unfold decodeGzipBinaryData.
  assert (NoDup (range (cm_BinaryData cm)).*1) as Hnd by (rewrite range_perm; apply NoDup_fst_map_to_list).
  destruct (decode_list (range (cm_BinaryData cm)) ∅ Hnd) as (data & -> & Hd).
  { intros k e He%elem_of_range. specialize (Hm k). rewrite He in Hm. inversion Hm; subst. eauto. }
  f_equal. apply map_eq. intros k. rewrite Hd. rewrite (list_to_map_proper _ (map_to_list (cm_BinaryData cm))) by (done || apply range_perm).
  rewrite list_to_map_to_list. specialize (Hm k). rewrite lookup_empty. by inversion Hm as [? ? Hc|]; rewrite ?Hc.
Qed.

(** ** Loading *)

Definition decodable (content : string) : bool := match decodeResource content with Some _ => true | None => false end.
Definition isCSV (content : string) : option (string * (error + string)) :=
  match decodeResource content with Some (kind, name, json) => if bool_decide (kind = "ClusterServiceVersion") then Some (name, json) else None | None => None end.

Lemma loadResources l : (forall c name err, c ∈ l -> isCSV c <> Some (name, inl err)) ->
  forall b, exists b', foldE loadResource b l = inr b' /\ ld_Object b' = ld_Object b ++ List.filter decodable l /\
    ((ld_CsvName b', ld_CsvJson b') = (ld_CsvName b, ld_CsvJson b) /\ (forall c, c ∈ l -> isCSV c = None) \/
     exists c, c ∈ l /\ isCSV c = Some (ld_CsvName b', inr (ld_CsvJson b'))).
Proof.
  induction l as [|c l IH]; intros Hok b; cbn [foldE List.filter]; [exists b; split_and!; [done|by rewrite app_nil_r|left; split; [done|]; by intros c ?%elem_of_nil]|].
  assert (exists b1, loadResource b c = inr b1 /\ ld_Object b1 = ld_Object b ++ (if decodable c then [c] else []) /\
    match isCSV c with None => (ld_CsvName b1, ld_CsvJson b1) = (ld_CsvName b, ld_CsvJson b) | r => r = Some (ld_CsvName b1, inr (ld_CsvJson b1)) end) as (b1 & -> & Ho & Hc).
  { specialize (Hok c). clear IH. unfold loadResource, isCSV, decodable in *. destruct (decodeResource c) as [[[kind name] json]|]; [|exists b; by rewrite app_nil_r].
    case_bool_decide; [|by eexists]. destruct json as [err|json]; [by destruct (Hok name err (list_elem_of_here _ _))|]. by eexists. }
  destruct (IH (fun c' name err Hin => Hok c' name err (list_elem_of_further _ _ _ Hin)) b1) as (b' & -> & Ho' & Hc'). exists b'. split; [done|]. split.
  { rewrite Ho', Ho, <- app_assoc. by destruct (decodable c). }
  destruct Hc' as [[Heq Hnone]|(c' & Hin & Hcsv)]; [|right; exists c'; split; [by right|done]].
  destruct (isCSV c) as [r|] eqn:Ec.
  - right. exists c. split; [left|]. rewrite Ec, Hc. congruence.
  - left. split; [congruence|]. intros c' [->|?]%elem_of_cons; [done|by apply Hnone].
Qed.

Lemma sortedContents_perm (files : list (string * string)) :
  NoDup (TranslateInvalidChars <$> files.*1) -> sortedContents (keyed files) ≡ₚ files.*2.
Proof.
  intros Hnd. unfold sortedContents.
  assert (keyed files = list_to_map ((fun '(n, c) => (TranslateInvalidChars n, c)) <$> files)) as ->.
  { revert Hnd. induction files as [|[n c] files IH] using rev_ind; intros Hnd; [done|]. rewrite keyed_snoc.
    rewrite !fmap_app in Hnd. apply NoDup_app in Hnd as (Hnd & Hn & _). rewrite IH by done. rewrite fmap_app, list_to_map_app. cbn.
    rewrite insert_empty, <- insert_union_singleton_r; [done|]. apply not_elem_of_list_to_map_1. rewrite <- list_fmap_compose. intros Hin.
    apply (Hn (TranslateInvalidChars n)); [|left]. rewrite <- list_fmap_compose. revert Hin. rewrite !list_elem_of_fmap. intros ([] & ? & ?). by eexists (_, _). }
  set (l := (fun '(n, c) => (TranslateInvalidChars n, c)) <$> files).
  assert (NoDup l.*1) as Hl. { unfold l. rewrite <- list_fmap_compose. rewrite <- list_fmap_compose in Hnd. erewrite list_fmap_ext; [exact Hnd|]. by intros ? [] _. }
  assert ((range (list_to_map l : gmap string string)).*1 ≡ₚ l.*1) as Hr by (by rewrite range_perm, map_to_list_to_map).
  rewrite (merge_sort_Permutation String.le), Hr.
  assert (files.*2 = l.*2) as ->. { unfold l. rewrite <- list_fmap_compose. apply list_fmap_ext. by intros ? [] _. }
  assert (forall l', l' ⊆ l -> omap (fun name => (list_to_map l : gmap string string) !! name) l'.*1 = l'.*2) as Ho; [|by rewrite (Ho l)].
  clear Hr Hnd. induction l' as [|[k c] l' IH]; intros Hsub; [done|]. cbn. rewrite (elem_of_list_to_map_1 l k c); [|done|apply Hsub; left].
  f_equal. apply IH. intros x Hx. apply Hsub. by right.
Qed.
End roundtrip.

Lemma Populate_load `{ConfigMapLib, RangeOrder} (env : WriterEnv) (manifestsDir : string) (gzip : bool) (limit : Z) (cm : ConfigMap) :
  Populate env manifestsDir gzip limit = ([cm], None) ->
  (gzip = true \/ forall cm0, we_get env = inr cm0 -> hasGzipEncodingAnnotation cm0 = false) ->
  NoDup (TranslateInvalidChars <$> (bundleFiles env manifestsDir).*1) ->
  (forall c name err, c ∈ (bundleFiles env manifestsDir).*2 -> isCSV c <> Some (name, inl err)) ->
  exists bundle, Load (Some cm) = inr bundle /\ ab_Object bundle ≡ₚ List.filter decodable (bundleFiles env manifestsDir).*2 /\
    forall csv name json, csv ∈ (bundleFiles env manifestsDir).*2 -> isCSV csv = Some (name, inr json) ->
      (forall c, c ∈ (bundleFiles env manifestsDir).*2 -> is_Some (isCSV c) -> c = csv) -> ab_CsvName bundle = name /\ ab_CsvJson bundle = json.
Proof.
  intros Hp Hg Hnd Hjson. destruct (Populate_holds env manifestsDir gzip limit cm Hp Hg) as [Hh Hgz].
  assert ((if hasGzipEncodingAnnotation cm then decodeGzipBinaryData cm else inr (cm_Data cm)) = inr (keyed (bundleFiles env manifestsDir))) as Hdata.
  { rewrite Hgz. unfold holds in Hh. destruct gzip; [by apply decodeGzip_holds|]. by destruct Hh as [-> _]. }
  pose proof (sortedContents_perm _ Hnd) as Hperm. set (l := sortedContents (keyed (bundleFiles env manifestsDir))) in *.
  destruct (loadResources l (fun c name err Hin => Hjson c name err ltac:(by rewrite <- Hperm)) (mkLoaded [] "" "")) as (b & Hb & Ho & Hcsv).
  exists (apiBundle b []). split.
  { unfold Load, loadBundle. rewrite Hdata. cbn [mbind sum_bind]. fold l. by rewrite Hb. }
  split; [cbn; rewrite Ho; cbn; by rewrite Hperm|].
  intros csv name json Hin Hname Hone. cbn. rewrite <- Hperm in Hin. destruct Hcsv as [[_ Hnone]|(c & Hc & Hcsv)]; [by rewrite Hnone in Hname|].
  assert (c = csv) as -> by (apply Hone; [by rewrite <- Hperm|by rewrite Hcsv]). rewrite Hname in Hcsv. by injection Hcsv as -> ->.
Qed.

(** C37: what an unpack job writes is what is read.  After a successful [Populate], compressed or not, loading the
    config map gives the manifests of the bundle, those that are Kubernetes objects and no others, and its CSV, as
    long as no two file names become the same key. *)
Theorem populate_load_roundtrip `{ConfigMapLib, RangeOrder} (env : WriterEnv) (manifestsDir : string) (gzip : bool) (limit : Z) (cm : ConfigMap) :
  Populate env manifestsDir gzip limit = ([cm], None) ->
  (gzip = true \/ forall cm0, we_get env = inr cm0 -> hasGzipEncodingAnnotation cm0 = false) ->
  NoDup (TranslateInvalidChars <$> (bundleFiles env manifestsDir).*1) ->
  (forall c name err, c ∈ (bundleFiles env manifestsDir).*2 -> isCSV c <> Some (name, inl err)) ->
  exists bundle, Load (Some cm) = inr bundle /\ ab_Object bundle ≡ₚ List.filter decodable (bundleFiles env manifestsDir).*2 /\
    forall csv name json, csv ∈ (bundleFiles env manifestsDir).*2 -> isCSV csv = Some (name, inr json) ->
      (forall c, c ∈ (bundleFiles env manifestsDir).*2 -> is_Some (isCSV c) -> c = csv) -> ab_CsvName bundle = name /\ ab_CsvJson bundle = json.
Proof. apply Populate_load. Qed.

(** ** A bundle *)

Module ConfigMapDemo.
#[local] Existing Instance canonical_order.

(** A manifest is its kind and its name; compression adds a mark. *)
Definition lib : ConfigMapLib.
Proof.
  refine {| decodeResource s := (fun '(kind, name) => (kind, name, inr s)) <$> Cut "/"%char s; gzipEncode s := inr (String "z" s);
    gzipDecode s := match s with String _ s' => inr s' | EmptyString => inl (ErrString "EOF") end;
    unmarshalAnnotations _ := inr (mkAnnotationsFile "manifests/" "registry+v1" "metadata/" "etcd" "stable" "stable") |}.
  intros content encoded [= <-]. done.
Defined.
#[local] Existing Instance lib.

Definition fresh : ConfigMap := mkConfigMap (mkObj TConfigMap (mkGVK "" "v1" "ConfigMap") "etcd" "olm" "u" [] None) None ∅ ∅.
Definition writer : WriterEnv :=
  mkWriterEnv (inr fresh) (fun d => inr (if bool_decide (d = "/bundle/manifests/") then ["README.md"; "etcd csv.yaml"; "service.yaml"] else [annotationsFileName]))
    (fun f => inr (if bool_decide (f = "/bundle/manifests/etcd csv.yaml") then "ClusterServiceVersion/etcd.v1"
                   else if bool_decide (f = "/bundle/manifests/service.yaml") then "Service/metrics" else "text")) "quay.io/etcd" (fun _ => None).
Definition written : ConfigMap := match (Populate writer "/bundle/" true 1000000).1 with [cm] => cm | _ => fresh end.

Lemma populate_load_roundtrip_witness :
  exists bundle, Load (Some written) = inr bundle /\ ab_CsvName bundle = "etcd.v1" /\ ab_Object bundle ≡ₚ ["ClusterServiceVersion/etcd.v1"; "Service/metrics"].
Proof.
  destruct (populate_load_roundtrip writer "/bundle/" true 1000000 written) as (bundle & Hload & Ho & Hcsv).
  - vm_compute. reflexivity.
  - by left.
  - apply (bool_decide_unpack _). by vm_compute.
  - assert (Forall (fun c => match isCSV c with Some (_, inl _) => False | _ => True end) (bundleFiles writer "/bundle/").*2) as Hall
      by (vm_compute; repeat constructor).
    intros c name err Hin Hc. rewrite Forall_forall in Hall. specialize (Hall c Hin). by rewrite Hc in Hall.
  - exists bundle. split; [done|]. split; [|exact Ho]. eapply (Hcsv "ClusterServiceVersion/etcd.v1"); [|vm_compute; reflexivity|].
    + apply (bool_decide_unpack _). by vm_compute.
    + assert ((bundleFiles writer "/bundle/").*2 = ["text"; "ClusterServiceVersion/etcd.v1"; "Service/metrics"]) as -> by (vm_compute; reflexivity).
      intros c Hin Hc. apply elem_of_cons in Hin as [->|Hin]; [vm_compute in Hc; by destruct Hc|].
      apply elem_of_cons in Hin as [->|Hin]; [done|]. apply list_elem_of_singleton in Hin as ->. vm_compute in Hc. by destruct Hc.
Defined.

(** Two names that become the same key: one manifest is lost. *)
Definition clash : WriterEnv :=
  mkWriterEnv (inr fresh) (fun d => inr (if bool_decide (d = "/bundle/manifests/") then ["a b.yaml"; "a~b.yaml"; "a(b.yaml"] else []))
    (fun f => inr (if bool_decide (f = "/bundle/manifests/a b.yaml") then "Service/one" else "Service/other")) "" (fun _ => None).
Lemma translated_names_collide : exists cm bundle, Populate clash "/bundle/" true 1000000 = ([cm], None) /\ Load (Some cm) = inr bundle /\
  "Service/one" ∈ (bundleFiles clash "/bundle/").*2 /\ ab_Object bundle = ["Service/other"].
Proof. eexists _, _. split_and!; [vm_compute; reflexivity..| |reflexivity]. apply (bool_decide_unpack _). by vm_compute. Qed.
End ConfigMapDemo.
