(* ===== verification/SubscriptionState.v ===== *)
(** * Subscription reconciliation

    Models [controller/operators/catalog/subscription/state.go] and [reconciler.go]: the states a
    subscription goes through while its install plan and its catalogs are checked, the two default
    reconcilers, and [kubestate.ReconcilerChain], by which the syncer runs them.

    In the source a state is a stack of wrappers around one shared [subscriptionState]; a wrapper
    embeds an interface, so that its outermost struct decides which case of a type switch it takes,
    and [setSubscription] on any wrapper changes the subscription all of them see.  Here a state is
    the outermost struct ([Kind]) and the current value of the shared subscription.  The two
    reconcilers loop until a state no longer changes (the same pointer), an error occurs or the
    context is closed. *)

From S2P Require Import Prelude GoStrings RbacRules OwnerUtil CatalogModel ResolverCache CsvTypes CatalogTypes.

#[local] Arguments String.append : simpl nomatch.

(** ** States *)

Inductive Kind :=
  | subscriptionState | subscriptionExistsState | subscriptionAddedState | subscriptionUpdatedState
  | catalogHealthState | catalogHealthyState | catalogUnhealthyState
  | installPlanState | noInstallPlanReferencedState | installPlanReferencedState
  | installPlanMissingState | installPlanPendingState | installPlanFailedState | installPlanInstalledState.
#[export] Instance Kind_eq_dec : EqDecision Kind.
Proof. solve_decision. Defined.

(** The interfaces a struct satisfies, as far as the type switches ask. *)
Definition isCatalogHealthKnown (k : Kind) : bool :=
  match k with catalogHealthyState | catalogUnhealthyState => true | _ => false end.
Definition isCatalogHealth (k : Kind) : bool :=
  match k with catalogHealthState | catalogHealthyState | catalogUnhealthyState => true | _ => false end.
Definition isInstallPlanKnown (k : Kind) : bool :=
  match k with
  | installPlanMissingState | installPlanPendingState | installPlanFailedState | installPlanInstalledState => true
  | _ => false
  end.
Definition isInstallPlanReferenced (k : Kind) : bool :=
  match k with installPlanReferencedState => true | _ => isInstallPlanKnown k end.
Definition isInstallPlan (k : Kind) : bool :=
  match k with installPlanState | noInstallPlanReferencedState => true | _ => isInstallPlanReferenced k end.
Definition isSubscriptionExists (k : Kind) : bool := match k with subscriptionState => false | _ => true end.

(** ** Environment *)

(** A catalog source as the health check sees it. *)
Record CatalogSource := mkCatalogSource { cat_Namespace : string; cat_Name : string; cat_UID : string; cat_Reason : string }.
Definition CatalogSourceSpecInvalidError : string := "SpecInvalidError".

(** A cache entry: its name, and its source info with the deprecations, if any. *)
Record CacheEntry := mkCacheEntry { ce_Name : string; ce_SourceInfo : option (option Deprecations) }.

Inductive UpdateSite := UpdatePlan | UpdateHealthStatus | UpdateDeprecation.

(** [hashstructure.Hash] of a list of conditions; the transition times are tagged to be ignored. *)
Definition stripTime (c : SubscriptionCondition) : SubscriptionCondition :=
  mkSubCond (sc_Type c) (sc_Status c) (sc_Reason c) (sc_Message c) (sc_LastHeartbeatTime c) None.
Class HashLib := {
  hashEqual : list SubscriptionCondition -> list SubscriptionCondition -> bool;
  hashEqual_same : forall a b, stripTime <$> a = stripTime <$> b -> hashEqual a b = true;
}.

Record SubEnv := mkSubEnv {
  se_ctxDone : Kind -> bool;
  se_now : string -> Time;
  se_getPlan : string -> string -> error + InstallPlan;
  se_updateStatus : UpdateSite -> Subscription -> error + Subscription;
  se_listCatalogs : string -> error + list CatalogSource;
  se_globalCatalogNamespace : string;
  se_checkRegistryServer : CatalogSource -> error + bool;
  se_getReference : CatalogSource -> error + ObjectReference;
  se_entries : SubscriptionSpec -> option (list CacheEntry);
}.

(** ** Catalog health (state.go) *)

(** The accumulator of the loop over the catalogs. *)
Record HealthScan := mkScan {
  hs_set : gmap string SubscriptionCatalogHealth; hs_healthy : bool; hs_missingTargeted : bool; hs_message : string
}.

Definition targeted (spec : SubscriptionSpec) (h : SubscriptionCatalogHealth) : bool :=
  bool_decide (or_Namespace (h_CatalogSourceRef h) = ss_CatalogSourceNamespace spec)
  && bool_decide (or_Name (h_CatalogSourceRef h) = ss_CatalogSource spec).

Definition scanHealth (spec : SubscriptionSpec) (s : HealthScan) (h : SubscriptionCatalogHealth) : HealthScan :=
  let ref := h_CatalogSourceRef h in
  mkScan (<[or_UID ref := h]> (hs_set s)) (hs_healthy s && h_Healthy h)
    (if targeted spec h then false else hs_missingTargeted s)
    (if targeted spec h && negb (h_Healthy h)
     then "targeted catalogsource " +:+ or_Namespace ref +:+ "/" +:+ or_Name ref +:+ " unhealthy" else hs_message s).

Definition withCond (c : SubscriptionCondition) (status reason message : string) : SubscriptionCondition :=
  mkSubCond (sc_Type c) status reason message (sc_LastHeartbeatTime c) (sc_LastTransitionTime c).
Definition withReason (c : SubscriptionCondition) (reason : string) : SubscriptionCondition :=
  withCond c (sc_Status c) reason (sc_Message c).

(** The known state and the condition that goes with it. *)
Definition knownHealth (spec : SubscriptionSpec) (cond : SubscriptionCondition) (s : HealthScan)
    : Kind * SubscriptionCondition :=
  if hs_missingTargeted s then
    (catalogUnhealthyState, withCond cond ConditionTrue UnhealthyCatalogSourceFound
      ("targeted catalogsource " +:+ ss_CatalogSourceNamespace spec +:+ "/" +:+ ss_CatalogSource spec +:+ " missing"))
  else if negb (hs_healthy s) then
    (catalogUnhealthyState, withCond cond ConditionTrue UnhealthyCatalogSourceFound (hs_message s))
  else
    (catalogHealthyState, withCond cond ConditionFalse AllCatalogSourcesHealthy "all available catalogsources are healthy").

(** Whether the recorded health must be replaced whatever the condition says, and the condition
    with the reason of the change. *)
Definition healthChanges (healthSet : gmap string SubscriptionCatalogHealth) (old : list SubscriptionCatalogHealth)
    (cond : SubscriptionCondition) : bool * SubscriptionCondition :=
  let numNew := size healthSet in
  let numOld := length old in
  if (numOld <? numNew)%nat then (true, withReason cond CatalogSourcesAdded)
  else if (numNew <? numOld)%nat then (true, withReason cond CatalogSourcesDeleted)
  else if (numNew =? 0)%nat then
    (true, withCond cond (sc_Status cond) NoCatalogSourcesFound "dependency resolution requires at least one catalogsource")
  else
    (false,
     if existsb (fun oldHealth =>
          match healthSet !! or_UID (h_CatalogSourceRef oldHealth) with
          | Some newHealth => negb (Health_Equals newHealth oldHealth)
          | None => true
          end) old
     then withReason cond CatalogSourcesUpdated else cond).

Definition setCatalogHealth (s : SubscriptionStatus) (health : list SubscriptionCatalogHealth) : SubscriptionStatus :=
  mkSubStatus (su_CurrentCSV s) (su_InstalledCSV s) (su_Install s) (su_State s) (su_InstallPlanGeneration s)
    (su_InstallPlanRef s) health (su_Conditions s) (su_LastUpdated s).

(** The known state, whether the subscription was updated, and the subscription. *)
Definition UpdateHealth (now : Time) (catalogHealth : list SubscriptionCatalogHealth) (in_ : Subscription)
    : Kind * bool * Subscription :=
  let status := sub_Status in_ in
  let old := GetCondition status SubscriptionCatalogSourcesUnhealthy in
  let scan := foldl (scanHealth (sub_Spec in_)) (mkScan ∅ true true (sc_Message old)) catalogHealth in
  let '(known, cond) := knownHealth (sub_Spec in_) old scan in
  let '(update, cond) := healthChanges (hs_set scan) (su_CatalogHealth status) cond in
  if negb update && Cond_Equals cond old then (known, false, in_)
  else
    let cond := mkSubCond (sc_Type cond) (sc_Status cond) (sc_Reason cond) (sc_Message cond) (sc_LastHeartbeatTime cond) (Some now) in
    (known, true, setSubStatus in_ (setCatalogHealth (SetCondition (setLastUpdated status now) cond) catalogHealth)).

(** ** Install plan states (state.go) *)

(** What a transition does: the new state, an error that keeps the state, an error with no state,
    a nil dereference, or nothing; with the subscription and the status updates sent. *)
Inductive Transition :=
  | Stay
  | Panics
  | To (k : Kind) (sub : Subscription) (sent : list Subscription)
  | Fails (err : error) (k : Kind) (sub : Subscription) (sent : list Subscription)
  | FailsNil (err : error) (sub : Subscription) (sent : list Subscription).

Definition CheckReference (sub : Subscription) : Kind :=
  match su_InstallPlanRef (sub_Status sub) with
  | Some _ => installPlanReferencedState
  | None => noInstallPlanReferencedState
  end.

(** The messages of the pending bundle lookups, each with a full stop. *)
Definition lookupMessage (b : string) (lookup : BundleLookup) : string :=
  let cond := Lookup_GetCondition lookup BundleLookupPending in
  if negb (bool_decide (blc_Status cond = ConditionUnknown)) && negb (bool_decide (blc_Message cond = ""))
  then (if bool_decide (b = "") then b else b +:+ " ") +:+ blc_Message cond +:+ "."
  else b.

Definition extractMessage (status : InstallPlanStatus) : string :=
  let cond := Plan_GetCondition status InstallPlanInstalled in
  if negb (bool_decide (ipc_Status cond = ConditionUnknown)) && negb (bool_decide (ipc_Message cond = ""))
  then ipc_Message cond
  else foldl lookupMessage "" (ipt_BundleLookups status).

Section plans.
Context `{HashLib} (env : SubEnv).

(** Send the status when the conditions have changed; the server's answer becomes the subscription. *)
Definition sendStatus (known : Kind) (now : Time) (in_ out : Subscription) : Transition :=
  if hashEqual (su_Conditions (sub_Status out)) (su_Conditions (sub_Status in_)) then To known in_ []
  else
    let out := setSubStatus out (setLastUpdated (sub_Status out) now) in
    match se_updateStatus env UpdatePlan out with
    | inl err => Fails err installPlanReferencedState in_ [out]
    | inr updated => To known updated [out]
    end.

(** The status without a reference, so that the namespace is resolved again. *)
Definition clearReference (s : SubscriptionStatus) (now : Time) : SubscriptionStatus :=
  mkSubStatus "" (su_InstalledCSV s) None SubscriptionStateNone (su_InstallPlanGeneration s) None (su_CatalogHealth s)
    (su_Conditions s) now.

Definition InstallPlanNotFound (now : Time) (in_ : Subscription) : Transition :=
  let status := RemoveConditions (sub_Status in_) [SubscriptionInstallPlanPending; SubscriptionInstallPlanFailed] in
  let status :=
    if bool_decide (su_State (sub_Status in_) = SubscriptionStateUpgradePending) then clearReference status now
    else
      let cond := GetCondition status SubscriptionInstallPlanMissing in
      SetCondition status (mkSubCond (sc_Type cond) ConditionTrue ReferencedInstallPlanNotFound (sc_Message cond)
        (sc_LastHeartbeatTime cond) (Some now)) in
  sendStatus installPlanMissingState now in_ (setSubStatus in_ status).

(** The condition and the state for the phase of the plan. *)
Definition planCondition (now : Time) (status : InstallPlanStatus) : Kind * option SubscriptionCondition :=
  let phase := ipt_Phase status in
  let cond type reason := Some (mkSubCond type ConditionTrue reason (extractMessage status) None (Some now)) in
  if bool_decide (phase = InstallPlanPhaseNone)
  then (installPlanPendingState, cond SubscriptionInstallPlanPending InstallPlanNotYetReconciled)
  else if bool_decide (phase ∈ [InstallPlanPhasePlanning; InstallPlanPhaseInstalling; InstallPlanPhaseRequiresApproval])
  then (installPlanPendingState, cond SubscriptionInstallPlanPending phase)
  else if bool_decide (phase = InstallPlanPhaseFailed)
  then
    let installedCond := Plan_GetCondition status InstallPlanInstalled in
    (installPlanFailedState,
     cond SubscriptionInstallPlanFailed
       (if bool_decide (ipc_Status installedCond = ConditionFalse) then ipc_Reason installedCond else InstallPlanFailed))
  else (installPlanInstalledState, None).

Definition planConditionTypes : list string :=
  [SubscriptionInstallPlanMissing; SubscriptionInstallPlanPending; SubscriptionInstallPlanFailed].

Definition CheckInstallPlanStatus (now : Time) (status : InstallPlanStatus) (in_ : Subscription) : Transition :=
  let out := RemoveConditions (sub_Status in_) planConditionTypes in
  let '(known, cond) := planCondition now status in
  let out := match cond with Some cond => SetCondition out cond | None => out end in
  sendStatus known now in_ (setSubStatus in_ out).

(** ** The install plan reconciler (reconciler.go) *)

Definition installPlanStep (k : Kind) (sub : Subscription) : Transition :=
  match k with
  | noInstallPlanReferencedState => Stay
  | installPlanReferencedState =>
      match su_InstallPlanRef (sub_Status sub) with
      | None => Panics
      | Some ref =>
          match se_getPlan env (or_Namespace ref) (or_Name ref) with
          | inl err =>
              if IsNotFound (Some err) then InstallPlanNotFound (se_now env "installplan") sub
              else Fails err installPlanReferencedState sub []
          | inr plan => CheckInstallPlanStatus (se_now env "installplan") (ip_Status plan) sub
          end
      end
  | installPlanState => To (CheckReference sub) sub []
  | _ =>
      if isInstallPlanKnown k then Stay
      else if isSubscriptionExists k then To installPlanState sub []
      else Stay
  end.

(** ** The catalog health reconciler (reconciler.go) *)

Definition healthy (catalog : CatalogSource) : error + bool :=
  if bool_decide (cat_Reason catalog = CatalogSourceSpecInvalidError) then inr false
  else se_checkRegistryServer env catalog.

Definition health (now : Time) (catalog : CatalogSource) : error + SubscriptionCatalogHealth :=
  match healthy catalog with
  | inl err => inl err
  | inr healthy =>
      match se_getReference env catalog with
      | inl err => inl err
      | inr ref => inr (mkHealth ref (Some now) healthy)
      end
  end.
End plans.

(** The results of a loop that goes on after errors: the values, or the aggregate of all errors. *)
Definition collect {A} (rs : list (error + A)) : error + list A :=
  match NewAggregate (omap (fun r => match r with inl e => Some e | inr _ => None end) rs) with
  | Some err => inl err
  | None => inr (omap (fun r => match r with inl _ => None | inr x => Some x end) rs)
  end.

Section reconcilers.
Context `{HashLib, SortLib} (env : SubEnv).

Definition catalogLess (a b : CatalogSource) : bool :=
  String.ltb (cat_Namespace a +:+ cat_Name a) (cat_Namespace b +:+ cat_Name b).

Definition catalogHealth (namespace : string) : error + list SubscriptionCatalogHealth :=
  match se_listCatalogs env namespace with
  | inl err => inl err
  | inr catalogs =>
      let globals :=
        if bool_decide (namespace = se_globalCatalogNamespace env) then inr [] else se_listCatalogs env (se_globalCatalogNamespace env) in
      match globals with
      | inl err => inl err
      | inr globals => collect (health env (se_now env "catalogs") <$> sortBy catalogLess (catalogs ++ globals))
      end
  end.

(** The entry of the installed CSV, if it has source info: its deprecations. *)
Definition installedDeprecations (installedCSV : string) (entries : list CacheEntry) : option (option Deprecations) :=
  match List.find (fun e => bool_decide (is_Some (ce_SourceInfo e)) && bool_decide (installedCSV = ce_Name e)) entries with
  | Some e => ce_SourceInfo e
  | None => None
  end.

Definition deprecationTypes : list string :=
  [SubscriptionPackageDeprecated; SubscriptionChannelDeprecated; SubscriptionBundleDeprecated].

Definition deprecationFor (d : option Deprecations) (conditionType : string) : option string :=
  match d with
  | None => None
  | Some d =>
      if bool_decide (conditionType = SubscriptionPackageDeprecated) then dep_Package d
      else if bool_decide (conditionType = SubscriptionChannelDeprecated) then dep_Channel d
      else if bool_decide (conditionType = SubscriptionBundleDeprecated) then dep_Bundle d
      else None
  end.

(** One condition type: the status, whether it changed, and the messages of the roll-up. *)
Definition deprecationStep (channel : string) (deprecations : option Deprecations)
    (acc : SubscriptionStatus * bool * list string) (conditionType : string) : SubscriptionStatus * bool * list string :=
  let '(status, changed, rollupMessages) := acc in
  let oldCondition := GetCondition status conditionType in
  match deprecationFor deprecations conditionType with
  | Some message =>
      if bool_decide (conditionType = SubscriptionChannelDeprecated) && bool_decide (channel = "")
      then (RemoveConditions status [conditionType], changed || bool_decide (sc_Status oldCondition = ConditionTrue), rollupMessages)
      else
        let rollupMessages := rollupMessages ++ [message] in
        if negb (bool_decide (sc_Message oldCondition = message))
        then (SetCondition status (mkSubCond conditionType ConditionTrue "" message None (Some (se_now env conditionType))), true,
              rollupMessages)
        else (status, changed, rollupMessages)
  | None =>
      if bool_decide (sc_Status oldCondition = ConditionTrue)
      then (RemoveConditions status [conditionType], true, rollupMessages)
      else (status, changed, rollupMessages)
  end.

(** The subscription is changed in place; the answer is whether to send it. *)
Definition updateDeprecatedStatus (sub : Subscription) : bool * Subscription :=
  match se_entries env (sub_Spec sub) with
  | None => (false, sub)
  | Some entries =>
      match installedDeprecations (su_InstalledCSV (sub_Status sub)) entries with
      | None => (false, sub)
      | Some deprecations =>
          let '(status, changed, rollupMessages) :=
            foldl (deprecationStep (ss_Channel (sub_Spec sub)) deprecations) (sub_Status sub, false, []) deprecationTypes in
          if negb changed then (false, setSubStatus sub status)
          else
            let status :=
              match rollupMessages with
              | [] => RemoveConditions status [SubscriptionDeprecated]
              | _ => SetCondition status (mkSubCond SubscriptionDeprecated ConditionTrue "" (Join rollupMessages "; ") None
                       (Some (se_now env SubscriptionDeprecated)))
              end in
            (true, setSubStatus sub status)
      end
  end.

(** The answer of the server to a status update is not kept here. *)
Definition catalogHealthStep (k : Kind) (sub : Subscription) : Transition :=
  if isCatalogHealthKnown k then Stay
  else if isCatalogHealth k then
    match catalogHealth (sub_Namespace sub) with
    | inl err => Fails err k sub []
    | inr health =>
        let '(known, healthUpdated, sub) := UpdateHealth (se_now env "health") health sub in
        match (if healthUpdated then se_updateStatus env UpdateHealthStatus sub else inr sub) with
        | inl err => FailsNil err sub [sub]
        | inr _ =>
            let sent := if healthUpdated then [sub] else [] in
            let '(deprecationUpdated, sub) := updateDeprecatedStatus sub in
            if deprecationUpdated then
              match se_updateStatus env UpdateDeprecation sub with
              | inl err => Fails err known sub (sent ++ [sub])
              | inr _ => To known sub (sent ++ [sub])
              end
            else To known sub sent
        end
    end
  else if isSubscriptionExists k then To catalogHealthState sub []
  else Stay.

(** ** The loops and the chain *)

(** The state a reconciler returns ([None] for nil), the subscription, the error and the updates. *)
Record Reconciled := mkReconciled {
  rc_state : option Kind; rc_sub : Subscription; rc_err : option error; rc_sent : list Subscription
}.

Definition errContextClosed (name : string) : error := ErrString ("subscription " +:+ name +:+ " reconciliation context closed").

(** A run of a reconciler: still going when the fuel is used up, a nil dereference, or its result. *)
Inductive Run := Running | Crashed | Ended (r : Reconciled).

Fixpoint reconcileLoop (name : string) (step : Kind -> Subscription -> Transition) (fuel : nat) (k : Kind) (sub : Subscription)
    (sent : list Subscription) : Run :=
  match fuel with
  | O => Running
  | S fuel' =>
      if se_ctxDone env k then Ended (mkReconciled (Some k) sub (Some (errContextClosed name)) sent)
      else
        match step k sub with
        | Stay => Ended (mkReconciled (Some k) sub None sent)
        | Panics => Crashed
        | To k' sub' more => reconcileLoop name step fuel' k' sub' (sent ++ more)
        | Fails err k' sub' more => Ended (mkReconciled (Some k') sub' (Some err) (sent ++ more))
        | FailsNil err sub' more => Ended (mkReconciled None sub' (Some err) (sent ++ more))
        end
  end.

(** Fresh state, reference, status, known: no reconciler makes more than three transitions. *)
Definition reconcileFuel : nat := 5.

Definition installPlanReconcile (k : Kind) (sub : Subscription) : Run :=
  reconcileLoop "installplan" (installPlanStep env) reconcileFuel k sub [].
Definition catalogHealthReconcile (k : Kind) (sub : Subscription) : Run :=
  reconcileLoop "catalog health" catalogHealthStep reconcileFuel k sub [].

(** [ReconcilerChain.Reconcile]: the reconcilers in turn, until an error or a nil state. *)
Fixpoint chainReconcile (recs : list (Kind -> Subscription -> Run)) (k : Kind) (sub : Subscription)
    (sent : list Subscription) : Run :=
  match recs with
  | [] => Ended (mkReconciled (Some k) sub None sent)
  | rec :: recs' =>
      match rec k sub with
      | Running => Running
      | Crashed => Crashed
      | Ended r =>
          let sent := sent ++ rc_sent r in
          match rc_state r, rc_err r with
          | Some k', None => chainReconcile recs' k' (rc_sub r) sent
          | _, _ => Ended (mkReconciled (rc_state r) (rc_sub r) (rc_err r) sent)
          end
      end
  end.

(** [subscriptionSyncer.Sync] with the default reconcilers and the configured ones. *)
Definition Sync (configured : list (Kind -> Subscription -> Run)) (sub : Subscription) : Run :=
  chainReconcile ([installPlanReconcile; catalogHealthReconcile] ++ configured) subscriptionUpdatedState sub [].
End reconcilers.

(** ** The health of the catalogs *)

(** The targeted catalog is there, and every catalog is healthy. *)
Definition all_healthy (spec : SubscriptionSpec) (health : list SubscriptionCatalogHealth) : Prop :=
  (exists h, h ∈ health /\ targeted spec h = true) /\ forall h, h ∈ health -> h_Healthy h = true.

Definition targetedMessage (spec : SubscriptionSpec) : string :=
  "targeted catalogsource " +:+ ss_CatalogSourceNamespace spec +:+ "/" +:+ ss_CatalogSource spec +:+ " unhealthy".

Lemma scan_spec spec s health :
  let r := foldl (scanHealth spec) s health in
  hs_healthy r = hs_healthy s && forallb h_Healthy health /\
  hs_missingTargeted r = hs_missingTargeted s && negb (existsb (targeted spec) health) /\
  hs_message r = (if existsb (fun h => targeted spec h && negb (h_Healthy h)) health then targetedMessage spec else hs_message s) /\
  hs_set r = foldl (fun m h => <[or_UID (h_CatalogSourceRef h) := h]> m) (hs_set s) health.
Proof.
  revert s. induction health as [|h health IH]; intros s; simpl.
  { by rewrite !andb_true_r. }
  destruct (IH (scanHealth spec s h)) as (-> & -> & -> & ->). simpl. split_and!; [by rewrite andb_assoc| | |done].
  - destruct (targeted spec h); simpl; [by rewrite andb_false_r|done].
  - destruct (existsb (fun h => targeted spec h && negb (h_Healthy h)) health); [by rewrite orb_true_r|]. rewrite orb_false_r.
    destruct (targeted spec h && negb (h_Healthy h)) eqn:E; [|done]. apply andb_true_iff in E as [E _]. unfold targeted in E.
    apply andb_true_iff in E as [E1%bool_decide_eq_true E2%bool_decide_eq_true]. unfold targetedMessage. by rewrite E1, E2.
Qed.

Lemma knownHealth_spec spec cond health m :
  let s := foldl (scanHealth spec) (mkScan ∅ true true m) health in
  let r := knownHealth spec cond s in
  sc_Type r.2 = sc_Type cond /\ sc_LastHeartbeatTime r.2 = sc_LastHeartbeatTime cond /\
  ((all_healthy spec health /\ r.1 = catalogHealthyState /\ sc_Status r.2 = ConditionFalse) \/
   (~ all_healthy spec health /\ r.1 = catalogUnhealthyState /\ sc_Status r.2 = ConditionTrue)).
Proof.
  cbv zeta. destruct (scan_spec spec (mkScan ∅ true true m) health) as (Hh & Hm & _ & _).
  unfold knownHealth. rewrite Hm, Hh. simpl. destruct (existsb (targeted spec) health) eqn:Et; simpl.
  - apply existsb_elem_of in Et. destruct (forallb h_Healthy health) eqn:Ea; simpl.
    + rewrite forallb_elem_of in Ea. split_and!; [done..|]. left. done.
    + split_and!; [done..|]. right. split_and!; try done. intros [_ Hall].
      assert (forallb h_Healthy health = true) by (by apply forallb_elem_of). congruence.
  - split_and!; [done..|]. right. split_and!; try done. intros [Hex _]. apply existsb_elem_of in Hex. congruence.
Qed.

Lemma healthChanges_spec set old cond :
  let r := healthChanges set old cond in
  sc_Type r.2 = sc_Type cond /\ sc_Status r.2 = sc_Status cond /\ sc_LastHeartbeatTime r.2 = sc_LastHeartbeatTime cond.
Proof. unfold healthChanges. cbv zeta. repeat case_match; done. Qed.

(** The health of a subscription's catalogs is reported as it is: the state is the healthy one
    exactly when the targeted catalog is there and all catalogs are healthy, and the condition on
    the subscription, written or left as it was, says so too; nothing else of the subscription
    changes but the recorded health and the time of the update. *)
Theorem UpdateHealth_correct (now : Time) (health : list SubscriptionCatalogHealth) (sub : Subscription) :
  let '(known, updated, out) := UpdateHealth now health sub in
  (known = catalogHealthyState <-> all_healthy (sub_Spec sub) health) /\
  (known = catalogUnhealthyState <-> ~ all_healthy (sub_Spec sub) health) /\
  sc_Status (GetCondition (sub_Status out) SubscriptionCatalogSourcesUnhealthy)
    = (if bool_decide (known = catalogHealthyState) then ConditionFalse else ConditionTrue) /\
  (forall t, t <> SubscriptionCatalogSourcesUnhealthy -> GetCondition (sub_Status out) t = GetCondition (sub_Status sub) t) /\
  (updated = false -> out = sub) /\
  (updated = true -> su_CatalogHealth (sub_Status out) = health /\ su_LastUpdated (sub_Status out) = now) /\
  sub_obj out = sub_obj sub /\ sub_Spec out = sub_Spec sub /\ su_InstallPlanRef (sub_Status out) = su_InstallPlanRef (sub_Status sub).
Proof.
  unfold UpdateHealth. set (old := GetCondition _ _). set (scan := foldl _ _ _).
  pose proof (knownHealth_spec (sub_Spec sub) old health (sc_Message old)) as Hk. cbv zeta in Hk. fold scan in Hk.
  destruct (knownHealth (sub_Spec sub) old scan) as [known cond]. simpl in Hk. destruct Hk as (Ht & _ & Hk).
  pose proof (healthChanges_spec (hs_set scan) (su_CatalogHealth (sub_Status sub)) cond) as Hc. cbv zeta in Hc.
  destruct (healthChanges _ _ cond) as [update cond']. simpl in Hc. destruct Hc as (Ht' & Hs' & _).
  assert (sc_Type old = SubscriptionCatalogSourcesUnhealthy) as Hold by apply GetCondition_type.
  assert ((known = catalogHealthyState <-> all_healthy (sub_Spec sub) health) /\
    (known = catalogUnhealthyState <-> ~ all_healthy (sub_Spec sub) health)) as [Hk1 Hk2].
  { destruct Hk as [(Ha & -> & _)|(Ha & -> & _)]; split; split; intros; done. }
  assert (sc_Status cond = (if bool_decide (known = catalogHealthyState) then ConditionFalse else ConditionTrue)) as Hs.
  { destruct Hk as [(_ & -> & ->)|(_ & -> & ->)]; done. }
  destruct (negb update && Cond_Equals cond' old) eqn:E.
  - apply andb_true_iff in E as [_ (_ & Es & _ & _)%Cond_Equals_true]. fold old. split_and!; try done. congruence.
  - cbn [sub_Status setSubStatus]. split_and!; try done.
    + unfold GetCondition at 1. simpl. rewrite findCond_set by done. simpl. rewrite bool_decide_true by congruence.
      rewrite <-Hs, <-Hs'. by destruct (findCond _ _ _).
    + intros t Hne. unfold GetCondition. simpl. rewrite findCond_set by done. simpl. by rewrite bool_decide_false by congruence.
Qed.

Definition health_uid (h : SubscriptionCatalogHealth) : string := or_UID (h_CatalogSourceRef h).

Lemma health_set_spec (health : list SubscriptionCatalogHealth) :
  NoDup (health_uid <$> health) ->
  let m := foldl (fun m h => <[health_uid h := h]> m) (∅ : gmap string SubscriptionCatalogHealth) health in
  size m = length health /\ forall k h, m !! k = Some h <-> h ∈ health /\ health_uid h = k.
Proof.
  cbv zeta. induction health as [|x l IH] using rev_ind; intros Hnd.
  { split; [done|]. intros k h. simpl. rewrite lookup_empty. split; [done|]. by intros [?%elem_of_nil _]. }
  rewrite fmap_app in Hnd. apply NoDup_app in Hnd as (Hl & Hd & _). destruct (IH Hl) as [Hs Hm]. clear IH.
  rewrite foldl_app. simpl. set (m := foldl _ ∅ l) in *.
  assert (forall h, h ∈ l -> health_uid h <> health_uid x) as Hx.
  { intros h Hh E. apply (Hd (health_uid x)); [rewrite <-E; by apply list_elem_of_fmap_2|apply list_elem_of_here]. }
  assert (m !! health_uid x = None) as Hn.
  { destruct (m !! health_uid x) as [h|] eqn:E; [|done]. apply Hm in E as [Hh E]. by destruct (Hx h). }
  split; [rewrite map_size_insert_None by done; rewrite length_app; simpl; lia|].
  intros k h. rewrite lookup_insert_Some, elem_of_app, list_elem_of_singleton, Hm. split.
  - intros [[<- <-]|[_ [? ?]]]; auto.
  - intros [[Hh| ->] <-]; [right|by left]. split; [|done]. intros E. by apply (Hx h).
Qed.

Lemma Health_Equals_refl h : Health_Equals h h = true.
Proof. unfold Health_Equals. by rewrite eqb_reflx, bool_decide_true. Qed.

(** The recorded health is the current one: nothing has changed. *)
Lemma healthChanges_same spec s health cond :
  health <> [] -> NoDup (health_uid <$> health) -> hs_set s = ∅ ->
  healthChanges (hs_set (foldl (scanHealth spec) s health)) health cond = (false, cond).
Proof.
  intros Hne Hnd Hs. destruct (scan_spec spec s health) as (_ & _ & _ & ->). rewrite Hs.
  destruct (health_set_spec health Hnd) as [Hsz Hm]. unfold health_uid in *. set (m := foldl _ ∅ health) in *.
  unfold healthChanges. cbv zeta. rewrite Hsz, !Nat.ltb_irrefl.
  destruct health as [|h0 health]; [done|]. cbn [length Nat.eqb]. rewrite (proj2 (existsb_not_elem_of _ _)); [done|].
  intros h Hh. rewrite (proj2 (Hm _ h)) by done. by rewrite Health_Equals_refl.
Qed.

(** The condition a known state is given depends on the old one through its message only, and
    giving it again changes nothing. *)
Lemma knownHealth_again spec c c' health :
  sc_Type c' = sc_Type c -> sc_Message c' = sc_Message (knownHealth spec c (foldl (scanHealth spec) (mkScan ∅ true true (sc_Message c)) health)).2 ->
  let r := knownHealth spec c (foldl (scanHealth spec) (mkScan ∅ true true (sc_Message c)) health) in
  let r' := knownHealth spec c' (foldl (scanHealth spec) (mkScan ∅ true true (sc_Message c')) health) in
  r'.1 = r.1 /\ Cond_Equals r'.2 r.2 = true.
Proof.
  cbv zeta. destruct (scan_spec spec (mkScan ∅ true true (sc_Message c)) health) as (Hh & Hm & Hg & _).
  destruct (scan_spec spec (mkScan ∅ true true (sc_Message c')) health) as (Hh' & Hm' & Hg' & _).
  unfold knownHealth. rewrite Hm, Hm', Hh, Hh', Hg, Hg'. simpl. intros Ht.
  destruct (existsb (targeted spec) health); simpl; [|intros _; split; [done|]; by apply Cond_Equals_true].
  destruct (forallb h_Healthy health); simpl; [intros _; split; [done|]; by apply Cond_Equals_true|].
  destruct (existsb (fun h => targeted spec h && negb (h_Healthy h)) health); simpl; intros Hmsg; (split; [done|]); by apply Cond_Equals_true.
Qed.

(** One check of health that is recorded: it changes the subscription only when the condition does
    not say what it should, and then the next check finds it right. *)
Lemma UpdateHealth_recorded now now' health sub :
  health <> [] -> NoDup (health_uid <$> health) -> su_CatalogHealth (sub_Status sub) = health ->
  let '(_, updated, out) := UpdateHealth now health sub in
  su_CatalogHealth (sub_Status out) = health /\ (UpdateHealth now' health out).1.2 = false.
Proof.
  intros Hne Hnd Hrec. unfold UpdateHealth at 1. set (old := GetCondition _ _). set (scan := foldl _ _ _).
  destruct (knownHealth (sub_Spec sub) old scan) as [known cond] eqn:Hk. rewrite Hrec.
  unfold scan at 1. rewrite healthChanges_same by done. simpl negb. cbn [andb].
  pose proof (knownHealth_spec (sub_Spec sub) old health (sc_Message old)) as Hsp. cbv zeta in Hsp. fold scan in Hsp.
  rewrite Hk in Hsp. simpl in Hsp. destruct Hsp as (Ht & _ & _).
  assert (sc_Type old = SubscriptionCatalogSourcesUnhealthy) as Hold by apply GetCondition_type.
  assert (forall c', sc_Type c' = sc_Type old -> sc_Message c' = sc_Message cond -> sc_Status c' = sc_Status cond -> sc_Reason c' = sc_Reason cond ->
    forall out, sub_Spec out = sub_Spec sub -> su_CatalogHealth (sub_Status out) = health ->
    GetCondition (sub_Status out) SubscriptionCatalogSourcesUnhealthy = c' -> (UpdateHealth now' health out).1.2 = false) as Hagain.
  { intros c' H1 H2 H3 H4 out Hspec Hh Hc. unfold UpdateHealth. rewrite Hspec, Hh, Hc.
    pose proof (knownHealth_again (sub_Spec sub) old c' health H1) as Ha. cbv zeta in Ha. fold scan in Ha. rewrite Hk in Ha.
    specialize (Ha H2). destruct (knownHealth (sub_Spec sub) c' _) as [known' cond'] eqn:Hk'. simpl in Ha.
    rewrite healthChanges_same by done. destruct Ha as [_ (A1 & A2 & A3 & A4)%Cond_Equals_true].
    replace (Cond_Equals cond' c') with true; [done|]. symmetry. apply Cond_Equals_true. split_and!; congruence. }
  destruct (Cond_Equals cond old) eqn:E.
  - apply Cond_Equals_true in E as (? & ? & ? & ?). split; [done|]. by apply (Hagain old).
  - split; [done|]. eapply (Hagain (mkSubCond (sc_Type cond) (sc_Status cond) (sc_Reason cond) (sc_Message cond) (sc_LastHeartbeatTime cond) (Some now)));
      [done..|]. unfold GetCondition. simpl. rewrite findCond_set by done. simpl. rewrite bool_decide_true by congruence.
    by destruct (findCond _ _ _).
Qed.

Lemma UpdateHealth_frame now health sub :
  let '(_, updated, out) := UpdateHealth now health sub in
  (updated = false -> out = sub) /\ (updated = true -> su_CatalogHealth (sub_Status out) = health).
Proof. unfold UpdateHealth. destruct (knownHealth _ _ _) as [k c]. destruct (healthChanges _ _ c) as [u c']. by destruct (negb u && _). Qed.

(** Repeated checks settle: when the health of the catalogs stays the same, with at least one
    catalog, the first check records it, a second one may still correct the reason of the
    condition, and every later one leaves the subscription alone, so that status updates do not
    trigger each other forever. *)
Theorem UpdateHealth_settles (now : nat -> Time) (health : list SubscriptionCatalogHealth) (sub : Subscription) :
  health <> [] -> NoDup (health_uid <$> health) ->
  let sub1 := (UpdateHealth (now 1%nat) health sub).2 in
  let sub2 := (UpdateHealth (now 2%nat) health sub1).2 in
  forall n, (UpdateHealth (now n) health sub2).1.2 = false.
Proof.
  intros Hne Hnd sub1 sub2 n. subst sub2.
  destruct (UpdateHealth (now 1%nat) health sub) as [[k1 u1] s1] eqn:E1. simpl in sub1. subst sub1.
  pose proof (UpdateHealth_frame (now 1%nat) health sub) as Hc. rewrite E1 in Hc. destruct Hc as [Hsame Hh]. destruct u1.
  - specialize (Hh eq_refl). pose proof (UpdateHealth_recorded (now 2%nat) (now n) health s1 Hne Hnd Hh) as Hr.
    destruct (UpdateHealth (now 2%nat) health s1) as [[k2 u2] s2]. by destruct Hr.
  - rewrite (Hsame eq_refl). rewrite (Hsame eq_refl) in E1.
    assert (forall t, UpdateHealth t health sub = (k1, false, sub)) as Hfix; [|by rewrite !Hfix].
    intros t. revert E1. unfold UpdateHealth. destruct (knownHealth _ _ _) as [k c]. destruct (healthChanges _ _ c) as [u c'].
    by destruct (negb u && Cond_Equals c' _).
Qed.

(** Without any catalog a check never settles: each one rewrites the status. *)
Lemma UpdateHealth_no_catalogs now sub :
  su_CatalogHealth (sub_Status sub) = [] ->
  exists out, UpdateHealth now [] sub = (catalogUnhealthyState, true, out) /\ su_CatalogHealth (sub_Status out) = [].
Proof. intros Hh. unfold UpdateHealth. rewrite Hh. simpl. eexists. split; [reflexivity|done]. Qed.

(** ** Concrete subscriptions *)

Definition demo_ref (name : string) : ObjectReference := mkObjectRef "CatalogSource" "olm" name name "operators.coreos.com/v1alpha1".
Definition demo_health (name : string) (healthy : bool) : SubscriptionCatalogHealth := mkHealth (demo_ref name) (Some 0%Z) healthy.
Definition demo_substatus (conds : list SubscriptionCondition) (health : list SubscriptionCatalogHealth) : SubscriptionStatus :=
  mkSubStatus "etcd.v1" "" None SubscriptionStateUpgradePending 1 (Some (mkObjectRef "InstallPlan" "ns" "install-1" "u" "")) health conds 0%Z.
Definition demo_sub (conds : list SubscriptionCondition) (health : list SubscriptionCatalogHealth) : Subscription :=
  mkSub (mkObj TSubscription (mkGVK "" "" "") "etcd" "ns" "1" [] None) None
    (mkSubSpec "operators" "olm" "etcd" "alpha" "" "Automatic") (demo_substatus conds health).

Lemma UpdateHealth_settles_witness :
  let health := [demo_health "operators" true; demo_health "community" false] in
  let sub1 := (UpdateHealth 1%Z health (demo_sub [] [])).2 in
  let sub2 := (UpdateHealth 2%Z health sub1).2 in
  (UpdateHealth 2%Z health sub1).1.2 = true /\ forall n, (UpdateHealth (Z.of_nat n) health sub2).1.2 = false.
Proof.
  intros health sub1 sub2. split; [vm_compute; reflexivity|].
  refine (UpdateHealth_settles Z.of_nat health (demo_sub [] []) _ _); [discriminate|].
  refine (bool_decide_eq_true_1 _ _). vm_compute. reflexivity.
Defined.

(** A change of health can be missed: the number of catalogs is the same, and the condition already
    gives the same reason for the same message. *)
Lemma UpdateHealth_misses_change :
  let unhealthy := mkSubCond SubscriptionCatalogSourcesUnhealthy ConditionTrue CatalogSourcesUpdated "m" None (Some 0%Z) in
  let sub := demo_sub [unhealthy] [demo_health "operators" true; demo_health "a" false; demo_health "b" true] in
  UpdateHealth 1%Z [demo_health "operators" true; demo_health "a" true; demo_health "b" false] sub
    = (catalogUnhealthyState, false, sub).
Proof. vm_compute. reflexivity. Qed.

(** ** The state of the install plan *)

(** What the conditions about the install plan should be. *)
Definition plan_condition (now : Time) (plan : option InstallPlanStatus) (t : string) : option SubscriptionCondition :=
  match plan with
  | Some status => match (planCondition now status).2 with Some c => if bool_decide (sc_Type c = t) then Some c else None | None => None end
  | None => None
  end.

Lemma planCondition_type now status k c :
  planCondition now status = (k, Some c) -> sc_Type c ∈ planConditionTypes /\ isInstallPlanKnown k = true.
Proof.
  unfold planCondition. cbv zeta. repeat case_bool_decide; intros [= <- <-]; simpl; (split; [|done]); unfold planConditionTypes;
    repeat (first [apply list_elem_of_here|apply list_elem_of_further]).
Qed.

(** The server stores what it is sent. *)
Definition stores (env : SubEnv) : Prop := forall site sub, exists out, se_updateStatus env site sub = inr out /\
  sub_obj out = sub_obj sub /\ sub_Spec out = sub_Spec sub /\ sub_Status out = sub_Status sub.

Lemma findCond_strip t (a b : list SubscriptionCondition) :
  stripTime <$> a = stripTime <$> b -> stripTime <$> findCond sc_Type t a = stripTime <$> findCond sc_Type t b.
Proof.
  assert (forall l : list SubscriptionCondition, stripTime <$> findCond sc_Type t l = findCond sc_Type t (stripTime <$> l)) as Hf.
  { unfold findCond. induction l as [|c l IH]; [done|]. rewrite fmap_cons. cbn [List.find]. unfold hasType at 1 3. simpl.
    by destruct (bool_decide _). }
  intros E. by rewrite !Hf, E.
Qed.

Section plan_status.
Context `{HashLib} (env : SubEnv).

Lemma sendStatus_ok known now in_ out :
  stores env -> sub_obj out = sub_obj in_ -> sub_Spec out = sub_Spec in_ ->
  (hashEqual (su_Conditions (sub_Status out)) (su_Conditions (sub_Status in_)) = true ->
    stripTime <$> su_Conditions (sub_Status out) = stripTime <$> su_Conditions (sub_Status in_)) ->
  exists sub' sent, sendStatus env known now in_ out = To known sub' sent /\
    sub_obj sub' = sub_obj in_ /\ sub_Spec sub' = sub_Spec in_ /\
    stripTime <$> su_Conditions (sub_Status sub') = stripTime <$> su_Conditions (sub_Status out).
Proof.
  intros Hst Ho Hs Hh. unfold sendStatus. destruct (hashEqual _ _) eqn:E.
  - exists in_, []. by rewrite Hh.
  - set (out' := setSubStatus out _). destruct (Hst UpdatePlan out') as (u & -> & Hu1 & Hu2 & Hu3).
    exists u, [out']. rewrite Hu1, Hu2, Hu3. by split_and!.
Qed.

(** After the status of its install plan has been checked, the conditions of a subscription say
    what the plan's phase says, and nothing else about the plan: pending while it is planned,
    approved or installed, failed with the plan's reason when it failed, and none when it is
    complete; a condition left over from an earlier phase is gone, and every other condition is
    kept.  It holds when the server stores what it is sent and the hash tells the two lists of
    conditions apart. *)
Theorem CheckInstallPlanStatus_correct (now : Time) (status : InstallPlanStatus) (in_ : Subscription) :
  stores env ->
  (forall a b, hashEqual a b = true -> stripTime <$> a = stripTime <$> b) ->
  exists sub' sent,
    CheckInstallPlanStatus env now status in_ = To (planCondition now status).1 sub' sent /\
    (forall t, t ∈ planConditionTypes ->
      stripTime <$> findCond sc_Type t (su_Conditions (sub_Status sub')) = stripTime <$> plan_condition now (Some status) t) /\
    (forall t, t ∉ planConditionTypes ->
      stripTime <$> findCond sc_Type t (su_Conditions (sub_Status sub'))
        = stripTime <$> findCond sc_Type t (su_Conditions (sub_Status in_))).
Proof.
  intros Hst Hhash. unfold CheckInstallPlanStatus. cbv zeta.
  destruct (planCondition now status) as [known cond] eqn:Hp.
  set (out := match cond with Some c => _ | None => _ end).
  assert (forall t, findCond sc_Type t (su_Conditions out) =
    if bool_decide (t ∈ planConditionTypes) then plan_condition now (Some status) t else findCond sc_Type t (su_Conditions (sub_Status in_))) as Hout.
  { intros t. unfold out, plan_condition. rewrite Hp. cbn [snd]. destruct cond as [c|].
    - apply planCondition_type in Hp as [Hc _]. simpl. rewrite findCond_set by done. rewrite findCond_remove.
      rewrite (bool_decide_ext (t = sc_Type c) (sc_Type c = t)) by (split; congruence).
      destruct (decide (sc_Type c = t)) as [E|E].
      + rewrite !bool_decide_true by congruence. done.
      + rewrite (bool_decide_false (sc_Type c = t)) by done. by destruct (bool_decide (t ∈ _)).
    - simpl. by rewrite findCond_remove. }
  destruct (sendStatus_ok known now in_ (setSubStatus in_ out)) as (sub' & sent & Hs & _ & _ & Hc); [done..|by apply Hhash|].
  exists sub', sent. split; [done|]. split; intros t Ht.
  - rewrite (findCond_strip t _ _ Hc). cbn [sub_Status setSubStatus]. rewrite Hout. by rewrite bool_decide_true.
  - rewrite (findCond_strip t _ _ Hc). cbn [sub_Status setSubStatus]. rewrite Hout. by rewrite bool_decide_false.
Qed.
End plan_status.

(** ** Every sync ends *)

Section ends.
Context `{HashLib, SortLib} (env : SubEnv).

Definition ended (r : Run) : Prop := exists r', r = Ended r'.

Lemma UpdateHealth_known now health sub : isCatalogHealthKnown (UpdateHealth now health sub).1.1 = true.
Proof.
  unfold UpdateHealth. set (scan := foldl _ _ _) in *. pose proof (knownHealth_spec (sub_Spec sub) (GetCondition (sub_Status sub) SubscriptionCatalogSourcesUnhealthy)
    health (sc_Message (GetCondition (sub_Status sub) SubscriptionCatalogSourcesUnhealthy))) as Hk. cbv zeta in Hk. fold scan in Hk.
  destruct (knownHealth _ _ scan) as [k c]. destruct (healthChanges _ _ c) as [u c']. simpl in Hk.
  destruct Hk as (_ & _ & [(_ & -> & _)|(_ & -> & _)]); by destruct (_ && _).
Qed.

Lemma loop_known name step fuel k sub sent :
  step k sub = Stay -> ended (reconcileLoop env name step (S fuel) k sub sent).
Proof. intros Hs. simpl. rewrite Hs. destruct (se_ctxDone env k); by eexists. Qed.

Lemma loop_step name step fuel k sub sent :
  step k sub <> Panics ->
  (forall k' sub' more, step k sub = To k' sub' more -> ended (reconcileLoop env name step fuel k' sub' (sent ++ more))) ->
  ended (reconcileLoop env name step (S fuel) k sub sent).
Proof. intros Hp Hs. simpl. destruct (se_ctxDone env k); [by eexists|]. destruct (step k sub); [by eexists|done|by apply Hs|by eexists..]. Qed.

Lemma sendStatus_To known now in_ out k' sub' more : sendStatus env known now in_ out = To k' sub' more -> k' = known.
Proof. unfold sendStatus. case_match; [by intros [= <-]|]. case_match; [done|]. by intros [= <-]. Qed.
Lemma sendStatus_noPanic known now in_ out : sendStatus env known now in_ out <> Panics.
Proof. unfold sendStatus. repeat case_match; done. Qed.

Lemma planCondition_known now status : isInstallPlanKnown (planCondition now status).1 = true.
Proof. unfold planCondition. cbv zeta. by repeat case_bool_decide. Qed.

Lemma known_stays k sub : isInstallPlanKnown k = true -> installPlanStep env k sub = Stay.
Proof. by destruct k. Qed.

Lemma referenced_ends fuel sub sent :
  is_Some (su_InstallPlanRef (sub_Status sub)) ->
  ended (reconcileLoop env "installplan" (installPlanStep env) (S (S fuel)) installPlanReferencedState sub sent).
Proof.
  intros [ref Href]. apply loop_step; unfold installPlanStep; rewrite Href.
  - case_match; [|unfold CheckInstallPlanStatus; cbv zeta; case_match; apply sendStatus_noPanic].
    destruct (IsNotFound _); [apply sendStatus_noPanic|done].
  - intros k' sub' more Hto. apply loop_known, known_stays. revert Hto. case_match.
    + destruct (IsNotFound _); [|done]. by intros ->%sendStatus_To.
    + unfold CheckInstallPlanStatus. cbv zeta. pose proof (planCondition_known (se_now env "installplan") (ip_Status i)) as Hk.
      destruct (planCondition _ _) as [kn c]. by intros ->%sendStatus_To.
Qed.

Lemma installPlanState_ends fuel sub sent :
  ended (reconcileLoop env "installplan" (installPlanStep env) (S (S (S fuel))) installPlanState sub sent).
Proof.
  apply loop_step; [done|]. intros k' sub' more [= <- <- <-]. unfold CheckReference.
  destruct (su_InstallPlanRef (sub_Status sub)) eqn:E; [apply referenced_ends; rewrite E; by eexists|by apply loop_known].
Qed.

Lemma installPlanReconcile_ends k sub :
  (k = installPlanReferencedState -> is_Some (su_InstallPlanRef (sub_Status sub))) -> ended (installPlanReconcile env k sub).
Proof.
  intros Hk. unfold installPlanReconcile, reconcileFuel.
  destruct k; try (by apply loop_known); try (apply loop_step; [done|]; intros ? ? ? [= <- <- <-]; apply installPlanState_ends).
  - apply installPlanState_ends.
  - apply referenced_ends. by apply Hk.
Qed.

Lemma catalogHealthStep_known sub k' sub' more :
  catalogHealthStep env catalogHealthState sub = To k' sub' more -> isCatalogHealthKnown k' = true.
Proof.
  unfold catalogHealthStep. simpl. intros Hto. destruct (catalogHealth env _) as [e|health]; [done|].
  pose proof (UpdateHealth_known (se_now env "health") health sub) as Hk.
  destruct (UpdateHealth _ _ _) as [[kn u] s]. simpl in Hk. repeat case_match; simplify_eq; done.
Qed.

Lemma catalogHealthState_ends fuel sub sent :
  ended (reconcileLoop env "catalog health" (catalogHealthStep env) (S (S fuel)) catalogHealthState sub sent).
Proof.
  apply loop_step.
  - unfold catalogHealthStep. simpl. repeat case_match; done.
  - intros k' sub' more Hto%catalogHealthStep_known. apply loop_known. unfold catalogHealthStep. by rewrite Hto.
Qed.

Lemma catalogHealthReconcile_ends k sub : ended (catalogHealthReconcile env k sub).
Proof.
  unfold catalogHealthReconcile, reconcileFuel. destruct k; try (by apply loop_known);
    try apply catalogHealthState_ends; (apply loop_step; [done|]; intros ? ? ? [= <- <- <-]; apply catalogHealthState_ends).
Qed.

Lemma chain_ends recs k sub sent :
  (forall rec k sub, rec ∈ recs -> ended (rec k sub)) -> ended (chainReconcile recs k sub sent).
Proof.
  revert k sub sent. induction recs as [|rec recs IH]; intros k sub sent Hr; simpl; [by eexists|].
  destruct (Hr rec k sub) as [r ->]; [apply list_elem_of_here|].
  destruct (rc_state r); [|by eexists]. destruct (rc_err r); [by eexists|]. apply IH. intros. apply Hr. by apply list_elem_of_further.
Qed.

(** Every sync of a subscription ends, without a nil dereference: the loops of the two default
    reconcilers stop after at most four rounds whatever the environment answers, and the chain
    ends when the reconcilers configured after them do. *)
Theorem Sync_ends (configured : list (Kind -> Subscription -> Run)) (sub : Subscription) :
  (forall rec k s, rec ∈ configured -> exists r, rec k s = Ended r) -> exists r, Sync env configured sub = Ended r.
Proof.
  intros Hc. unfold Sync. cbn [app chainReconcile].
  destruct (installPlanReconcile_ends subscriptionUpdatedState sub) as [r ->]; [done|].
  destruct (rc_state r) as [k|]; [|by eexists]. destruct (rc_err r); [by eexists|].
  destruct (catalogHealthReconcile_ends k (rc_sub r)) as [r' ->].
  destruct (rc_state r') as [k'|]; [|by eexists]. destruct (rc_err r'); [by eexists|]. by apply chain_ends.
Qed.
End ends.

(** ** Deprecations *)

Section deprecations.
Context (env : SubEnv).

(** The message a condition of type [t] should carry; a subscription without a channel is told
    nothing about its channel. *)
Definition expectedMessage (channel : string) (d : option Deprecations) (t : string) : option string :=
  if bool_decide (t = SubscriptionChannelDeprecated) && bool_decide (channel = "") then None else deprecationFor d t.

Definition condMessage (s : SubscriptionStatus) (t : string) : option string := sc_Message <$> findCond sc_Type t (su_Conditions s).

(** A condition of type [t] is only there to say that it holds, with a message. *)
Definition condSet (s : SubscriptionStatus) (t : string) : Prop :=
  forall c, findCond sc_Type t (su_Conditions s) = Some c -> sc_Status c = ConditionTrue /\ sc_Message c <> "".

(** The roll-up of some messages. *)
Definition rollup (messages : list string) : option string := match messages with [] => None | _ => Some (Join messages "; ") end.

(** The conditions about deprecation say what holds, and the roll-up lists their messages in order. *)
Definition deprecations_ok (s : SubscriptionStatus) : Prop :=
  (forall t, t ∈ deprecationTypes -> condSet s t) /\ condMessage s SubscriptionDeprecated = rollup (omap (condMessage s) deprecationTypes).

Lemma omap_ext_elem {A B} (f g : A -> option B) (l : list A) : (forall x, x ∈ l -> f x = g x) -> omap f l = omap g l.
Proof.
  induction l as [|x l IH]; intros Hfg; [done|]. cbn. rewrite (Hfg x) by apply list_elem_of_here.
  assert (omap f l = omap g l) as Hl by (apply IH; intros y Hy; by apply Hfg, list_elem_of_further).
  cbn in Hl. by rewrite Hl.
Qed.

Lemma removeConds_absent t (s : SubscriptionStatus) :
  findCond sc_Type t (su_Conditions s) = None -> RemoveConditions s [t] = s.
Proof.
  intros Hn%findCond_None. unfold RemoveConditions.
  assert (removeConds sc_Type [t] (su_Conditions s) = su_Conditions s) as ->; [|by destruct s].
  unfold removeConds. revert Hn. induction (su_Conditions s) as [|c l IH]; [done|]. rewrite fmap_cons, not_elem_of_cons.
  intros [Hc Hl]. simpl. rewrite bool_decide_false by (rewrite list_elem_of_singleton; congruence). simpl. by rewrite IH.
Qed.

Lemma deprecationStep_spec channel d s changed messages t :
  condSet s t -> (forall m, deprecationFor d t = Some m -> m <> "") ->
  exists s' changed', deprecationStep env channel d (s, changed, messages) t = (s', changed', messages ++ option_list (expectedMessage channel d t)) /\
    condMessage s' t = expectedMessage channel d t /\ condSet s' t /\
    (forall t', t' <> t -> findCond sc_Type t' (su_Conditions s') = findCond sc_Type t' (su_Conditions s)) /\
    (changed' = false -> changed = false /\ s' = s).
Proof.
  intros Hset Hm. unfold deprecationStep, GetCondition, expectedMessage, condMessage. unfold condSet in *.
  assert (forall c, findCond sc_Type t (su_Conditions (RemoveConditions s [t])) = Some c -> sc_Status c = ConditionTrue /\ sc_Message c <> "") as Hrm.
  { simpl. intros c. rewrite findCond_remove. by rewrite bool_decide_true by apply list_elem_of_here. }
  assert (forall t', t' <> t -> findCond sc_Type t' (su_Conditions (RemoveConditions s [t])) = findCond sc_Type t' (su_Conditions s)) as Hother.
  { simpl. intros t' Hne. rewrite findCond_remove. by rewrite bool_decide_false by (by rewrite list_elem_of_singleton). }
  assert (sc_Message <$> findCond sc_Type t (su_Conditions (RemoveConditions s [t])) = None) as Hnone.
  { simpl. rewrite findCond_remove. by rewrite bool_decide_true by apply list_elem_of_here. }
  destruct (deprecationFor d t) as [m|] eqn:Hd.
  - specialize (Hm m eq_refl). destruct (bool_decide (t = _) && bool_decide (channel = "")).
    + eexists _, _. rewrite app_nil_r. split_and!; [done..|]. intros Hc. apply orb_false_iff in Hc as [-> Hc]. split; [done|].
      apply removeConds_absent. destruct (findCond _ _ _) as [c|]; [|done]. destruct (Hset c eq_refl) as [E _]. simpl in Hc. by bools.
    + destruct (findCond sc_Type t (su_Conditions s)) as [c|] eqn:Hf; simpl; case_bool_decide as E; simpl;
        try (by destruct Hm); eexists _, _; (split; [done|]); simpl; rewrite ?findCond_set, ?Hf by done;
        rewrite ?(bool_decide_true (t = t)) by done; simpl.
      * rewrite E. split_and!; [done|by intros ? [= <-]; apply Hset|done|done].
      * split_and!; [done|by intros ? [= <-]|intros; rewrite findCond_set by done; by rewrite bool_decide_false by done|done].
      * split_and!; [done|by intros ? [= <-]|intros; rewrite findCond_set by done; by rewrite bool_decide_false by done|done].
  - replace (if bool_decide (t = _) && bool_decide (channel = "") then None else None) with (@None string) by (by case_match).
    rewrite app_nil_r. destruct (findCond sc_Type t (su_Conditions s)) as [c|] eqn:Hf; simpl.
    + destruct (Hset c eq_refl) as [Hs _]. rewrite bool_decide_true by done. by eexists _, _.
    + eexists _, _. split; [done|]. rewrite Hf. by split_and!.
Qed.

(** The roll-up condition, set or removed. *)
Definition withRollup (s : SubscriptionStatus) (messages : list string) : SubscriptionStatus :=
  match messages with
  | [] => RemoveConditions s [SubscriptionDeprecated]
  | _ => SetCondition s (mkSubCond SubscriptionDeprecated ConditionTrue "" (Join messages "; ") None (Some (se_now env SubscriptionDeprecated)))
  end.

Lemma withRollup_spec s messages :
  condMessage (withRollup s messages) SubscriptionDeprecated = rollup messages /\
  forall t, t <> SubscriptionDeprecated ->
    findCond sc_Type t (su_Conditions (withRollup s messages)) = findCond sc_Type t (su_Conditions s).
Proof.
  unfold condMessage, withRollup, rollup, RemoveConditions, SetCondition, withSubConditions.
  generalize SubscriptionDeprecated as D. intros D. destruct messages as [|m messages]; cbn [su_Conditions].
  - rewrite findCond_remove, bool_decide_true by apply list_elem_of_here. split; [done|]. intros t Ht.
    rewrite findCond_remove. by rewrite bool_decide_false by (by rewrite list_elem_of_singleton).
  - rewrite findCond_set, bool_decide_true by done. split; [by case_match|]. intros t Ht.
    rewrite findCond_set by done. by rewrite bool_decide_false by done.
Qed.

Lemma deprecationFold_spec channel d types s changed messages :
  NoDup types -> (forall t, t ∈ types -> condSet s t) -> (forall t m, deprecationFor d t = Some m -> m <> "") ->
  exists s' changed',
    foldl (deprecationStep env channel d) (s, changed, messages) types
      = (s', changed', messages ++ omap (expectedMessage channel d) types) /\
    (forall t, t ∈ types -> condMessage s' t = expectedMessage channel d t /\ condSet s' t) /\
    (forall t, t ∉ types -> findCond sc_Type t (su_Conditions s') = findCond sc_Type t (su_Conditions s)) /\
    (changed' = false -> changed = false /\ s' = s).
Proof.
  intros Hnd Hset Hm. revert s changed messages Hnd Hset. induction types as [|t types IH]; intros s changed messages Hnd Hset.
  { exists s, changed. simpl. rewrite app_nil_r. split_and!; [done|by intros ? ?%elem_of_nil|done|done]. }
  apply NoDup_cons in Hnd as [Ht Hnd]. cbn [foldl].
  destruct (deprecationStep_spec channel d s changed messages t) as (s1 & changed1 & -> & Hmsg & Hs1 & Ho & Hc); [apply Hset, list_elem_of_here|apply Hm|].
  assert (forall t', t' <> t -> condSet s t' -> condSet s1 t') as Hkeep by (intros t' Hne Hs' c; rewrite Ho by done; apply Hs').
  destruct (IH s1 changed1 (messages ++ option_list (expectedMessage channel d t)) Hnd) as (s2 & changed2 & -> & Hin & Hout & Hc2).
  { intros t' Ht'. apply Hkeep; [congruence|]. by apply Hset, list_elem_of_further. }
  exists s2, changed2. split_and!.
  - rewrite <- app_assoc. do 2 f_equal. simpl. by destruct (expectedMessage channel d t).
  - intros t' [->|Ht']%elem_of_cons; [|by apply Hin]. unfold condMessage, condSet. rewrite Hout by done. done.
  - intros t' [Hne Hni]%not_elem_of_cons. rewrite Hout by done. by apply Ho.
  - intros E. apply Hc2 in E as [E ->]. by apply Hc.
Qed.

(** Checking for deprecations keeps the conditions about them true: afterwards a subscription
    carries the condition of a level exactly when the catalog deprecates the installed bundle at
    that level, with the catalog's message (and none about the channel when it follows no
    channel), the roll-up condition lists exactly these messages, every other condition is kept,
    and a status update is asked for only when the status changed. *)
Theorem updateDeprecatedStatus_correct (entries : list CacheEntry) (d : option Deprecations) (sub : Subscription) :
  se_entries env (sub_Spec sub) = Some entries -> installedDeprecations (su_InstalledCSV (sub_Status sub)) entries = Some d ->
  (forall t m, deprecationFor d t = Some m -> m <> "") -> deprecations_ok (sub_Status sub) ->
  let '(changed, out) := updateDeprecatedStatus env sub in
  deprecations_ok (sub_Status out) /\
  (forall t, t ∈ deprecationTypes -> condMessage (sub_Status out) t = expectedMessage (ss_Channel (sub_Spec sub)) d t) /\
  (forall t, t ∉ SubscriptionDeprecated :: deprecationTypes ->
    findCond sc_Type t (su_Conditions (sub_Status out)) = findCond sc_Type t (su_Conditions (sub_Status sub))) /\
  (changed = false -> sub_Status out = sub_Status sub).
Proof.
  intros He Hd Hm [Hset Hroll]. unfold updateDeprecatedStatus. rewrite He, Hd. set (channel := ss_Channel (sub_Spec sub)).
  destruct (deprecationFold_spec channel d deprecationTypes (sub_Status sub) false []) as (s' & changed & -> & Hin & Hout & Hc);
    [apply (bool_decide_unpack _); by vm_compute|done|done|]. cbn [app].
  assert (omap (condMessage s') deprecationTypes = omap (expectedMessage channel d) deprecationTypes) as Hmsgs.
  { apply omap_ext_elem. intros t Ht. by apply Hin. }
  destruct changed; cbn [negb].
  - fold (withRollup s' (omap (expectedMessage channel d) deprecationTypes)).
    destruct (withRollup_spec s' (omap (expectedMessage channel d) deprecationTypes)) as [Hr Hsame]. set (s'' := withRollup _ _) in *.
    assert (forall t, t ∈ deprecationTypes -> condMessage s'' t = condMessage s' t /\ condSet s'' t) as Hsub.
    { intros t Ht. unfold condMessage, condSet. rewrite Hsame; [split; [done|]; by apply Hin|].
      intros ->. revert Ht. apply (bool_decide_unpack (SubscriptionDeprecated ∉ deprecationTypes)). by vm_compute. }
    cbn [sub_Status setSubStatus]. split_and!; [split| | |done].
    + intros t Ht. by apply Hsub.
    + rewrite Hr, <- Hmsgs. f_equal. apply omap_ext_elem. intros t Ht. symmetry. by apply Hsub.
    + intros t Ht. destruct (Hsub t Ht) as [-> _]. by apply Hin.
    + intros t [Hne Hni]%not_elem_of_cons. rewrite Hsame by done. by apply Hout.
  - destruct (Hc eq_refl) as [_ ->]. simpl. split_and!; [done|by intros; apply Hin|done|done].
Qed.
End deprecations.

(** ** A concrete environment *)

Module Demo.
(** A hash without collisions. *)
Definition demoHash : HashLib.
Proof.
  refine {| hashEqual a b := bool_decide (stripTime <$> a = stripTime <$> b) |}. intros a b Hab. by apply bool_decide_true.
Defined.

(** A server that stores what it is sent, a plan that requires approval, one healthy catalog, and a
    cache in which the installed bundle's package and channel are deprecated. *)
Definition planStatus (phase : string) : InstallPlanStatus := mkIPStatus phase [] [] [] [] None None "".
Definition plan : InstallPlan :=
  mkPlan (mkObj TOther (mkGVK "" "" "") "install-1" "ns" "u" [] None) 0%Z (mkIPSpec [] ApprovalManual false 1%Z)
    (planStatus InstallPlanPhaseRequiresApproval).
Definition deprecated : Deprecations := mkDeprecations (Some "use etcd2") (Some "use beta") None.
Definition env : SubEnv :=
  mkSubEnv (fun _ => false) (fun _ => 7%Z) (fun _ _ => inr plan) (fun _ sub => inr sub)
    (fun ns => inr (if bool_decide (ns = "olm") then [mkCatalogSource "olm" "operators" "c1" ""] else [])) "olm" (fun _ => inr true)
    (fun c => inr (mkObjectRef "CatalogSource" (cat_Namespace c) (cat_Name c) (cat_UID c) "")) (fun _ => Some [mkCacheEntry "etcd.v1" (Some (Some deprecated))]).
Definition installed : Subscription :=
  mkSub (sub_obj (demo_sub [] [])) None (sub_Spec (demo_sub [] []))
    (mkSubStatus "etcd.v1" "etcd.v1" None SubscriptionStateAtLatest 1 None [] [] 0%Z).

Lemma CheckInstallPlanStatus_witness :
  exists sub' sent,
    CheckInstallPlanStatus (H := demoHash) env 9%Z (planStatus InstallPlanPhaseFailed) (demo_sub [] []) = To installPlanFailedState sub' sent /\
    stripTime <$> findCond sc_Type SubscriptionInstallPlanFailed (su_Conditions (sub_Status sub')) =
      Some (mkSubCond SubscriptionInstallPlanFailed ConditionTrue InstallPlanFailed "" None None).
Proof.
  destruct (CheckInstallPlanStatus_correct (H := demoHash) env 9%Z (planStatus InstallPlanPhaseFailed) (demo_sub [] [])) as (sub' & sent & E & Hc & _).
  - intros site sub. by exists sub.
  - intros a b. apply (bool_decide_eq_true_1 _).
  - exists sub', sent. split; [exact E|]. rewrite Hc; [by vm_compute|]. apply list_elem_of_further, list_elem_of_further, list_elem_of_here.
Defined.

Lemma Sync_ends_witness :
  (exists r, Sync (H := demoHash) (H0 := insertion_sort_lib) env [] (demo_sub [] []) = Ended r) /\
  match Sync (H := demoHash) (H0 := insertion_sort_lib) env [] (demo_sub [] []) with
  | Ended r => rc_state r = Some catalogHealthyState /\ rc_err r = None /\ length (rc_sent r) = 2%nat
  | _ => False
  end.
Proof.
  split; [refine (Sync_ends (H := demoHash) (H0 := insertion_sort_lib) env [] (demo_sub [] []) _); by intros ? ? ? ?%elem_of_nil|].
  vm_compute. by split_and!.
Defined.

Lemma updateDeprecatedStatus_witness :
  let '(changed, out) := updateDeprecatedStatus env installed in
  changed = true /\ deprecations_ok (sub_Status out) /\
  condMessage (sub_Status out) SubscriptionDeprecated = Some "use etcd2; use beta" /\
  condMessage (sub_Status out) SubscriptionPackageDeprecated = Some "use etcd2".
Proof.
  assert (deprecations_ok (sub_Status installed)) as Hok by (split; [by intros t _ c|reflexivity]).
  assert (forall t m, deprecationFor (Some deprecated) t = Some m -> m <> "") as Hm.
  { intros t m. unfold deprecationFor. repeat case_bool_decide; simpl; by intros [= <-]. }
  pose proof (updateDeprecatedStatus_correct env _ (Some deprecated) installed eq_refl eq_refl Hm Hok) as Hc.
  destruct (updateDeprecatedStatus env installed) as [changed out] eqn:E. destruct Hc as (Hd & _). vm_compute in E. injection E as <- <-.
  split; [done|]. split; [exact Hd|]. vm_compute. done.
Defined.
End Demo.

(** A plan that is gone is not cleared from a pending subscription without plan conditions: the
    conditions have not changed, so nothing is sent, and the reference stays. *)
Lemma missing_plan_not_cleared `{HashLib} (env : SubEnv) (now : Time) (in_ : Subscription) :
  su_State (sub_Status in_) = SubscriptionStateUpgradePending ->
  (forall c, c ∈ su_Conditions (sub_Status in_) -> sc_Type c ∉ planConditionTypes) ->
  InstallPlanNotFound env now in_ = To installPlanMissingState in_ [].
Proof.
  intros Hs Hc. unfold InstallPlanNotFound. rewrite bool_decide_true by done. unfold sendStatus. rewrite hashEqual_same; [done|].
  cbn [sub_Status setSubStatus clearReference su_Conditions RemoveConditions withSubConditions]. f_equal. unfold removeConds.
  revert Hc. induction (su_Conditions (sub_Status in_)) as [|c l IH]; intros Hc; [done|]. cbn [List.filter].
  rewrite bool_decide_false.
  - cbn [negb]. f_equal. apply IH. intros c' Hc'. by apply Hc, list_elem_of_further.
  - intros Hin. apply (Hc c); [apply list_elem_of_here|]. unfold planConditionTypes. by apply list_elem_of_further.
Qed.
