(* ===== verification/InstallPlans.v ===== *)
(** * Install plans: garbage collection and the install state machine

    Models the parts of [controller/operators/catalog/operator.go] that look after install plans
    ([gcInstallPlans], [createInstallPlan], [ensureInstallPlan], [syncInstallPlans],
    [transitionInstallPlanState]) and [installplan_sync.go] ([triggerInstallPlanRetry]).  Executing
    the steps of a plan is behind the source's own interface [installPlanTransitioner]. *)

From stdpp Require Import sorting.
From S2P Require Import Prelude GoStrings RbacRules OwnerUtil CatalogModel ResolverCache CsvTypes CatalogTypes.

#[local] Arguments String.append : simpl nomatch.

(** ** Garbage collection *)

Definition maxInstallPlanCount : nat := 5.
Definition maxDeletesPerSweep : nat := 5.

(** Within a generation: by creation time, then by name. *)
Definition planLess (a b : InstallPlan) : bool :=
  if negb (bool_decide (ip_CreationTimestamp a = ip_CreationTimestamp b))
  then (ip_CreationTimestamp a <? ip_CreationTimestamp b)%Z
  else String.ltb (ip_Name a) (ip_Name b).

Definition byGeneration (ips : list InstallPlan) : gmap Z (list InstallPlan) :=
  foldl (fun m ip => <[ip_Generation ip := default [] (m !! ip_Generation ip) ++ [ip]]> m) ∅ ips.

(** [sort.Ints] of the keys. *)
Definition sortedGenerations (m : gmap Z (list InstallPlan)) : list Z := merge_sort Z.le (map_to_list m).*1.

Section gc.
Context `{SortLib}.

Fixpoint gcLoop (n : nat) (byGen : gmap Z (list InstallPlan)) (gens : list Z) (toDelete : list InstallPlan) : list InstallPlan :=
  match gens with
  | [] => toDelete
  | i :: gens' =>
      let g := default [] (byGen !! i) in
      if (n - length toDelete <=? maxInstallPlanCount)%nat then toDelete
      else if (maxInstallPlanCount <=? n - length toDelete - length g)%nat then gcLoop n byGen gens' (toDelete ++ g)
      else gcLoop n byGen gens' (toDelete ++ take (n - length toDelete - maxInstallPlanCount) (sortBy planLess g))
  end.

(** The plans the sweep looks at, and those it deletes; a failed listing deletes nothing. *)
Definition considered (allIps : list InstallPlan) : list InstallPlan := take (maxInstallPlanCount + maxDeletesPerSweep) allIps.

Definition gcInstallPlans (listed : error + list InstallPlan) : list InstallPlan :=
  let allIps := match listed with inl _ => [] | inr ips => ips end in
  if (length allIps <=? maxInstallPlanCount)%nat then []
  else
    let ips := considered allIps in
    gcLoop (length ips) (byGeneration ips) (sortedGenerations (byGeneration ips)) [].
End gc.

(** ** The install state machine *)

(** [installPlanTransitioner]: the plan is changed in place, and an error may be returned.  What it does
    depends on the cluster, so that an instance stands for one call.  What the state machine relies on: executing a plan changes the steps of its status only. *)
Class InstallPlanTransitioner := {
  ExecutePlan : InstallPlan -> InstallPlan * option error;
  ExecutePlan_steps : forall p, exists steps, (ExecutePlan p).1 =
    setPlanStatus p (mkIPStatus (ipt_Phase (ip_Status p)) (ipt_Conditions (ip_Status p)) (ipt_CatalogSources (ip_Status p)) steps
      (ipt_BundleLookups (ip_Status p)) (ipt_AttenuatedServiceAccountRef (ip_Status p)) (ipt_StartTime (ip_Status p)) (ipt_Message (ip_Status p)));
}.

Definition setPhase (s : InstallPlanStatus) (phase message : string) : InstallPlanStatus :=
  mkIPStatus phase (ipt_Conditions s) (ipt_CatalogSources s) (ipt_Plan s) (ipt_BundleLookups s)
    (ipt_AttenuatedServiceAccountRef s) (ipt_StartTime s) message.
Definition setStartTime (s : InstallPlanStatus) (t : Time) : InstallPlanStatus :=
  mkIPStatus (ipt_Phase s) (ipt_Conditions s) (ipt_CatalogSources s) (ipt_Plan s) (ipt_BundleLookups s)
    (ipt_AttenuatedServiceAccountRef s) (Some t) (ipt_Message s).
Definition setServiceAccount (s : InstallPlanStatus) (ref : ObjectReference) : InstallPlanStatus :=
  mkIPStatus (ipt_Phase s) (ipt_Conditions s) (ipt_CatalogSources s) (ipt_Plan s) (ipt_BundleLookups s)
    (Some ref) (ipt_StartTime s) (ipt_Message s).

Section plans.
Context `{InstallPlanTransitioner}.

(** The start time is set before the plan is executed, so that it can be read afterwards. *)
Definition transitionInstallPlanState (in_ : InstallPlan) (now : Time) (timeout : Z) : InstallPlan * option error :=
  let s := ip_Status in_ in
  if bool_decide (ipt_Phase s = InstallPlanPhaseRequiresApproval) then
    (if ips_Approved (ip_Spec in_) then setPlanStatus in_ (setPhase s InstallPlanPhaseInstalling "") else in_, None)
  else if bool_decide (ipt_Phase s = InstallPlanPhaseInstalling) then
    let start := default now (ipt_StartTime s) in
    let '(out, err) := ExecutePlan (setPlanStatus in_ (setStartTime s start)) in
    let s := ip_Status out in
    match err with
    | Some err =>
        if IsForbidden (Some err) || (now - start <? timeout)%Z
        then (setPlanStatus out (setPhase s (ipt_Phase s) ("retrying execution due to error: " +:+ Error_ err)), Some err)
        else
          let s := Plan_SetCondition s (ConditionFailed InstallPlanInstalled InstallPlanReasonComponentFailed (Error_ err) now) in
          (setPlanStatus out (setPhase s InstallPlanPhaseFailed (Error_ err)), Some err)
    | None =>
        if negb (NeedsRequeue s) then
          let s := Plan_SetCondition s (ConditionMet InstallPlanInstalled now) in
          (setPlanStatus out (setPhase s InstallPlanPhaseComplete ""), None)
        else (out, None)
    end
  else (in_, None).

(** The cluster as one sync of a plan sees it. *)
Inductive PlanUpdate := UpdateCheckFailed | UpdateCheckReset | UpdateServiceAccount | UpdateTransition.
Record PlanEnv := mkPlanEnv {
  pe_querier : string -> error + option ObjectReference;
  pe_updateStatus : PlanUpdate -> InstallPlan -> error + InstallPlan;
  pe_now : PlanUpdate -> Time;
  pe_timeout : Z;
}.

(** The status updates a sync asked for, its error, whether the plan is queued again in five
    seconds, and the subscriptions that are queued. *)
Record PlanSync := mkPlanSync {
  pl_sent : list InstallPlan; pl_err : option error; pl_requeue : bool; pl_subs : list string
}.

(** [setInstallPlanInstalledCond]: the plan it sends, and the server's answer. *)
Definition setInstallPlanInstalledCond (env : PlanEnv) (site : PlanUpdate) (ip : InstallPlan) (reason message : string)
    : InstallPlan * (error + InstallPlan) :=
  let ip := setPlanStatus ip (Plan_SetCondition (ip_Status ip) (ConditionFailed InstallPlanInstalled reason message (pe_now env site))) in
  (ip, match pe_updateStatus env site ip with
       | inl err => inl (ErrString ("error updating InstallPlan status: " +:+ Error_ err))
       | inr out => inr out
       end).

Definition requeueSubscriptionForInstallPlan (plan : InstallPlan) : list string :=
  RName <$> GetOwnersByKind (ip_obj plan) SubscriptionKind.

(** The last part of the sync: the transition and the update of the status. *)
Definition syncTransition (env : PlanEnv) (sent : list InstallPlan) (plan : InstallPlan) : PlanSync :=
  let '(out, syncError) := transitionInstallPlanState plan (pe_now env UpdateTransition) (pe_timeout env) in
  let requeue := bool_decide (ipt_Phase (ip_Status out) = InstallPlanPhaseInstalling) in
  let err :=
    match pe_updateStatus env UpdateTransition out with
    | inr _ => syncError
    | inl err =>
        let updateErr := "error updating InstallPlan status: " +:+ Error_ err in
        match syncError with
        | None => Some (ErrString updateErr)
        | Some e => Some (ErrString ("error transitioning InstallPlan: " +:+ Error_ e +:+ " and error updating InstallPlan status: " +:+ updateErr))
        end
    end in
  mkPlanSync (sent ++ [out]) err requeue (requeueSubscriptionForInstallPlan plan).

Definition syncInstallPlans (env : PlanEnv) (plan : InstallPlan) : PlanSync :=
  let s := ip_Status plan in
  if bool_decide (ipt_Plan s = []) && bool_decide (ipt_BundleLookups s = []) then mkPlanSync [] None false []
  else if bool_decide (ipt_Phase s = InstallPlanPhaseFailed) || bool_decide (ipt_Phase s = InstallPlanPhaseComplete)
  then mkPlanSync [] None false []
  else
    match pe_querier env (ip_Namespace plan) with
    | inl err =>
        let ipFailError := ErrString ("attenuated service account query failed - " +:+ Error_ err) in
        let '(sent, r) := setInstallPlanInstalledCond env UpdateCheckFailed plan InstallPlanReasonInstallCheckFailed (Error_ err) in
        mkPlanSync [sent] (Some match r with inl err => err | inr _ => ipFailError end) false []
    | inr ref =>
        let '(sent, r) :=
          if bool_decide (ipc_Reason (Plan_GetCondition s InstallPlanInstalled) = InstallPlanReasonInstallCheckFailed)
          then let '(sent, r) := setInstallPlanInstalledCond env UpdateCheckReset plan ConditionUnknown "" in ([sent], r)
          else ([], inr plan) in
        match r with
        | inl err => mkPlanSync sent (Some err) false []
        | inr plan =>
            match ref with
            | Some ref =>
                if bool_decide (ipt_AttenuatedServiceAccountRef (ip_Status plan) = Some ref) then syncTransition env sent plan
                else
                  let out := setPlanStatus plan (setServiceAccount (ip_Status plan) ref) in
                  mkPlanSync (sent ++ [out])
                    match pe_updateStatus env UpdateServiceAccount out with
                    | inl updateErr => Some (ErrString ("failed to attach attenuated ServiceAccount to status - " +:+ Error_ updateErr))
                    | inr _ => None
                    end false []
            | None => syncTransition env sent plan
            end
        end
    end.
End plans.

(** [triggerInstallPlanRetry]: after a change of a role or a role binding, the plans of its
    namespace that failed under a service account are installed again. *)
Definition isRetryTarget (ip : InstallPlan) : bool :=
  bool_decide (ipt_Phase (ip_Status ip) = InstallPlanPhaseFailed) && bool_decide (is_Some (ipt_AttenuatedServiceAccountRef (ip_Status ip))).

Definition retryPlan (ip : InstallPlan) : InstallPlan :=
  setPlanStatus ip (setPhase (ip_Status ip) InstallPlanPhaseInstalling (ipt_Message (ip_Status ip))).

Definition triggerInstallPlanRetry (related : bool) (listed : error + list InstallPlan)
    (update : InstallPlan -> option error) : list InstallPlan * option error :=
  if negb related then ([], None)
  else
    match listed with
    | inl err => ([], Some err)
    | inr ips =>
        let outs := retryPlan <$> List.filter isRetryTarget ips in
        (outs, NewAggregate (omap update outs))
    end.

(** ** Creating plans *)

Record CreateEnv := mkCreateEnv {
  cr_list : error + list InstallPlan;
  cr_create : InstallPlan -> error + InstallPlan;
  cr_updateStatus : InstallPlan -> error + InstallPlan;
  cr_getReference : InstallPlan -> error + ObjectReference;
}.

(** The plan that is created for some subscriptions, without a name; the server generates it. *)
Definition newPlan (namespace : string) (gen : Z) (subs : list Subscription) (approval : string) (steps : list Step) : InstallPlan :=
  let csvNames := (fun s => sr_Name (step_Resource s)) <$> List.filter (fun s => bool_decide (sr_Kind (step_Resource s) = ClusterServiceVersionKind)) steps in
  mkPlan (foldl AddNonBlockingOwner (mkObj TInstallPlan (mkGVK "" "" "") "" namespace "" [] None) (sub_obj <$> subs)) 0%Z
    (mkIPSpec csvNames approval (bool_decide (approval = ApprovalAutomatic)) gen) (mkIPStatus "" [] [] [] [] None None "").

(** Its status: the catalogs of the steps, each once, in the order the map is ranged over. *)
Definition newPlanStatus `{RangeOrder} (approval : string) (steps : list Step) (bundleLookups : list BundleLookup) : InstallPlanStatus :=
  let catalogSourceMap := list_to_map ((fun s => (sr_CatalogSource (step_Resource s), tt)) <$> steps) : gmap string unit in
  mkIPStatus (if bool_decide (approval = ApprovalManual) then InstallPlanPhaseRequiresApproval else InstallPlanPhaseInstalling)
    [] (range catalogSourceMap).*1 steps bundleLookups None None "".

(** What is written: the new plan, and then its status. *)
Inductive PlanWrite := Creates (p : InstallPlan) | SendsStatus (p : InstallPlan).

Definition refOf (env : CreateEnv) (ip : InstallPlan) : error + option ObjectReference :=
  match cr_getReference env ip with inl err => inl err | inr ref => inr (Some ref) end.

Definition createInstallPlan `{RangeOrder} (env : CreateEnv) (namespace : string) (gen : Z) (subs : list Subscription) (approval : string)
    (steps : list Step) (bundleLookups : list BundleLookup) : list PlanWrite * (error + option ObjectReference) :=
  if bool_decide (steps = []) && bool_decide (bundleLookups = []) then ([], inr None)
  else
    let ip := newPlan namespace gen subs approval steps in
    match cr_create env ip with
    | inl err => ([Creates ip], inl err)
    | inr res =>
        let res := setPlanStatus res (newPlanStatus approval steps bundleLookups) in
        ([Creates ip; SendsStatus res],
         match cr_updateStatus env res with inl err => inl err | inr res => refOf env res end)
    end.

(** The plans are listed before the lock is taken; the lock is held from then on. *)
Definition ensureInstallPlan `{RangeOrder} (env : CreateEnv) (namespace : string) (gen : Z) (subs : list Subscription) (approval : string)
    (steps : list Step) (bundleLookups : list BundleLookup) : list PlanWrite * (error + option ObjectReference) :=
  if bool_decide (steps = []) && bool_decide (bundleLookups = []) then ([], inr None)
  else
    match cr_list env with
    | inl err => ([], inl err)
    | inr installPlans =>
        match List.find (fun ip => bool_decide (ip_Generation ip = gen)) installPlans with
        | Some ip => ([], refOf env ip)
        | None => createInstallPlan env namespace gen subs approval steps bundleLookups
        end
    end.

(** ** Garbage collection deletes the oldest *)

(** [a] is not newer than [b]. *)
Definition notNewer (a b : InstallPlan) : Prop :=
  (ip_Generation a < ip_Generation b)%Z \/ (ip_Generation a = ip_Generation b /\ planLess b a = false).

Definition group (ips : list InstallPlan) (gen : Z) : list InstallPlan :=
  List.filter (fun ip => bool_decide (ip_Generation ip = gen)) ips.

Lemma byGeneration_snoc ips ip :
  byGeneration (ips ++ [ip]) = <[ip_Generation ip := default [] (byGeneration ips !! ip_Generation ip) ++ [ip]]> (byGeneration ips).
Proof. unfold byGeneration. by rewrite foldl_app. Qed.

Lemma byGeneration_lookup ips gen :
  default [] (byGeneration ips !! gen) = group ips gen /\ (gen ∈ (map_to_list (byGeneration ips)).*1 <-> group ips gen <> []).
Proof.
  assert (gen ∈ (map_to_list (byGeneration ips)).*1 <-> is_Some (byGeneration ips !! gen)) as ->.
  { rewrite list_elem_of_fmap. split.
    - intros ([g l] & -> & Hl%elem_of_map_to_list). by eexists.
    - intros [l Hl]. exists (gen, l). split; [done|]. by apply elem_of_map_to_list. }
  induction ips as [|ip ips IH] using rev_ind; [split; [done|]; split; [by intros [? ?]|done]|].
  rewrite byGeneration_snoc. unfold group in *. rewrite List.filter_app. simpl.
  destruct (decide (ip_Generation ip = gen)) as [E|E].
  - rewrite bool_decide_true by done. subst gen. rewrite lookup_insert_eq. simpl. destruct IH as [-> _]. split; [done|].
    split; [|by eexists]. intros _ Hnil. by apply app_eq_nil in Hnil as [_ ?].
  - rewrite bool_decide_false by done. rewrite app_nil_r, lookup_insert_ne by done. done.
Qed.

Lemma sortedGenerations_sorted ips : StronglySorted Z.lt (sortedGenerations (byGeneration ips)).
Proof.
  assert (NoDup (sortedGenerations (byGeneration ips))) as Hnd.
  { unfold sortedGenerations. rewrite merge_sort_Permutation. apply NoDup_fst_map_to_list. }
  assert (StronglySorted Z.le (sortedGenerations (byGeneration ips))) as Hs.
  { apply StronglySorted_merge_sort; [intros ? ? ?; lia|intros a b; lia]. }
  induction Hs as [|g gens Hs IH Hle]; [constructor|]. apply NoDup_cons in Hnd as [Hg Hnd]. constructor; [by apply IH|].
  apply Forall_forall. intros x Hx. rewrite Forall_forall in Hle. specialize (Hle x Hx).
  assert (x <> g) by congruence. lia.
Qed.

(** [planLess y x = false], spelled out. *)
Lemma planLess_false x y :
  planLess y x = false <->
  (ip_CreationTimestamp x < ip_CreationTimestamp y)%Z \/
  (ip_CreationTimestamp x = ip_CreationTimestamp y /\ String.leb (ip_Name x) (ip_Name y) = true).
Proof.
  unfold planLess. destruct (decide (ip_CreationTimestamp y = ip_CreationTimestamp x)) as [E|E].
  - rewrite bool_decide_true by done. cbn [negb]. rewrite ltb_not_le, negb_false_iff, E. split; [auto|]. intros [?|[_ ?]]; [lia|done].
  - rewrite bool_decide_false by done. cbn [negb]. rewrite Z.ltb_ge. lia.
Qed.

Lemma planLess_strict (ips : list InstallPlan) : not_after planLess ips.
Proof.
  split.
  - intros x y _ _ _ Hl. apply planLess_false.
    destruct (decide (planLess x y = false)) as [Hf|Hf]; [congruence|]. rewrite planLess_false in Hf.
    destruct (String.leb_total (ip_Name y) (ip_Name x)) as [Hn|Hn]; [|].
    + destruct (Z.lt_trichotomy (ip_CreationTimestamp x) (ip_CreationTimestamp y)) as [?|[?|?]]; [by left| |]; exfalso; apply Hf; [right; auto|left; lia].
    + destruct (Z.lt_trichotomy (ip_CreationTimestamp x) (ip_CreationTimestamp y)) as [?|[?|?]]; [by left|right; auto|]. exfalso. apply Hf. left. lia.
  - intros x y z _ _ _ _ _ _. rewrite !planLess_false. intros [?|[? Hxy]] [?|[? Hyz]]; [left; lia..|]. right. split; [congruence|].
    by apply (leb_trans _ (ip_Name y)).
Qed.

Section gc_spec.
Context `{SortLib} (ips : list InstallPlan).
Hypothesis Hnd : NoDup ips.

Lemma group_gen gen p : p ∈ group ips gen -> ip_Generation p = gen /\ p ∈ ips.
Proof using. unfold group. intros [? ?]%list_elem_of_In%filter_In. split; [by bools|by apply list_elem_of_In]. Qed.

Lemma group_NoDup gen : NoDup (group ips gen).
Proof using Hnd. unfold group. apply NoDup_ListNoDup, List.NoDup_filter. by apply NoDup_ListNoDup. Qed.

(** The groups of some generations, in their order. *)
Definition groups (gens : list Z) : list InstallPlan := gens ≫= group ips.

Lemma groups_elem gens p : p ∈ groups gens <-> ip_Generation p ∈ gens /\ p ∈ ips.
Proof using.
  unfold groups. rewrite list_elem_of_bind. split.
  - intros (g & Hp & Hg). apply group_gen in Hp as [<- ?]. done.
  - intros [Hg Hp]. exists (ip_Generation p). split; [|done]. apply list_elem_of_In, filter_In. split; [by apply list_elem_of_In|by apply bool_decide_true].
Qed.

Lemma groups_NoDup gens : StronglySorted Z.lt gens -> NoDup (groups gens).
Proof using Hnd.
  intros Hs. induction Hs as [|g gens Hs IH Hlt]; [constructor|]. unfold groups. simpl. apply NoDup_app. split; [apply group_NoDup|].
  split; [|apply IH]. intros p Hp Hp2. apply groups_elem in Hp2 as [Hp2 _]. apply group_gen in Hp as [<- _].
  rewrite Forall_forall in Hlt. specialize (Hlt _ Hp2). lia.
Qed.

Lemma gcLoop_stop n m gens acc : (n - length acc <= maxInstallPlanCount)%nat -> gcLoop n m gens acc = acc.
Proof using. intros Hle. destruct gens as [|g gens]; [done|]. cbn [gcLoop]. by rewrite (proj2 (Nat.leb_le _ _) Hle). Qed.

(** The first plans of a generation, in order, are not newer than the others. *)
Lemma sorted_prefix gen m d k :
  d ∈ take m (sortBy planLess (group ips gen)) -> k ∈ group ips gen -> k ∉ take m (sortBy planLess (group ips gen)) -> notNewer d k.
Proof using Hnd.
  set (l := sortBy planLess (group ips gen)). intros Hd Hk Hnk.
  assert (d ∈ l) as Hdl by (rewrite <- (take_drop m l), elem_of_app; by left).
  assert (k ∈ drop m l) as Hkd.
  { assert (k ∈ l) as Hkl by (unfold l; by rewrite sortBy_perm). rewrite <- (take_drop m l), elem_of_app in Hkl. by destruct Hkl. }
  apply list_elem_of_lookup in Hd as [i Hi], Hkd as [j Hj]. apply lookup_take_Some in Hi as [Hi Him]. rewrite lookup_drop in Hj.
  right. split.
  - unfold l in Hdl. rewrite sortBy_perm in Hdl. apply group_gen in Hdl as [-> _]. by apply group_gen in Hk as [-> _].
  - apply (sortBy_ordered planLess (group ips gen) (group_NoDup gen) (planLess_strict _) i (m + j)); [lia|done|done].
Qed.

(** The loop over the generations [gens] that are left deletes, besides what it already does,
    exactly as many of the oldest plans as leave five. *)
Lemma gcLoop_spec n gens acc :
  StronglySorted Z.lt gens -> n = (length acc + length (groups gens))%nat -> (maxInstallPlanCount <= length (groups gens))%nat ->
  exists del, gcLoop n (byGeneration ips) gens acc = acc ++ del /\ NoDup del /\ del ⊆ groups gens /\
    length del = (length (groups gens) - maxInstallPlanCount)%nat /\
    forall d k, d ∈ del -> k ∈ groups gens -> k ∉ del -> notNewer d k.
Proof using Hnd.
  intros Hs. revert acc. induction Hs as [|g gens Hs IH Hlt]; intros acc Hn Hge; [unfold groups, maxInstallPlanCount in Hge; cbn [mbind list_bind length] in Hge; lia|].
  assert (groups (g :: gens) = group ips g ++ groups gens) as Hg by done. rewrite Hg, length_app in *.
  cbn [gcLoop]. destruct (byGeneration_lookup ips g) as [-> _].
  assert (forall d k, d ∈ group ips g -> k ∈ groups gens -> notNewer d k) as Hold.
  { intros d k [<- _]%group_gen [Hk _]%groups_elem. left. rewrite Forall_forall in Hlt. by apply Hlt. }
  destruct (Nat.leb_spec (n - length acc) maxInstallPlanCount).
  { exists []. rewrite app_nil_r. split_and!; [done|constructor|apply list_subseteq_nil|simpl; lia|by intros ? ? ?%elem_of_nil]. }
  destruct (Nat.leb_spec maxInstallPlanCount (n - length acc - length (group ips g))).
  - destruct (IH (acc ++ group ips g)) as (del & -> & Hd1 & Hd2 & Hd3 & Hd4); [rewrite length_app; lia|lia|].
    exists (group ips g ++ del). rewrite <- app_assoc. split_and!; [done| |by apply list_subseteq_app_iff_l; split; [apply list_subseteq_app_l|apply list_subseteq_app_r]|rewrite length_app; lia|].
    + apply NoDup_app. split; [apply group_NoDup|]. split; [|done]. intros p Hp Hdel. apply Hd2, groups_elem in Hdel as [Hdel _].
      apply group_gen in Hp as [<- _]. rewrite Forall_forall in Hlt. specialize (Hlt _ Hdel). lia.
    + intros d k Hd Hk Hkd. rewrite elem_of_app in Hd, Hk. apply not_elem_of_app in Hkd as [Hk1 Hk2].
      destruct Hk as [?|Hk]; [done|]. destruct Hd as [Hd|Hd]; [by apply Hold|by apply Hd4].
  - set (l := sortBy planLess (group ips g)). set (m := (n - length acc - maxInstallPlanCount)%nat).
    assert (length l = length (group ips g)) as Hl by (apply Permutation_length, sortBy_perm).
    assert (take m l ⊆ group ips g) as Hsub.
    { intros p Hp. rewrite <- (sortBy_perm planLess (group ips g)). fold l. rewrite <- (take_drop m l), elem_of_app. by left. }
    rewrite gcLoop_stop by (rewrite length_app, length_take; lia). exists (take m l). split_and!; [done| | |rewrite length_take; lia|].
    + apply (sublist_NoDup (take m l) l); [|apply sublist_take]. unfold l. rewrite sortBy_perm. apply group_NoDup.
    + intros p Hp. apply elem_of_app. left. by apply Hsub.
    + intros d k Hd Hk Hkd. apply elem_of_app in Hk as [Hk|Hk]; [by apply (sorted_prefix g m)|by apply Hold, Hk; apply Hsub].
Qed.
End gc_spec.

(** C36: a sweep of the garbage collector never leaves fewer than five install plans and deletes the
    oldest of the at most ten plans it looks at: with more than five plans listed, the number
    deleted is what exceeds five (at most five), and every plan that is looked at and kept is at
    least as new as every plan that is deleted, so that each deleted plan is outlived by five
    plans that are not older. *)
Theorem gcInstallPlans_correct `{SortLib} (allIps : list InstallPlan) :
  NoDup allIps ->
  let del := gcInstallPlans (inr allIps) in
  NoDup del /\ del ⊆ considered allIps /\ length del = ((length allIps - maxInstallPlanCount) `min` maxDeletesPerSweep)%nat /\
  forall d, d ∈ del -> exists newer, NoDup newer /\ length newer = maxInstallPlanCount /\
    forall k, k ∈ newer -> k ∈ allIps /\ k ∉ del /\ notNewer d k.
Proof.
  intros Hnd. unfold gcInstallPlans. destruct (Nat.leb_spec (length allIps) maxInstallPlanCount) as [Hle|Hgt].
  { simpl. split_and!; [constructor|apply list_subseteq_nil|unfold maxInstallPlanCount, maxDeletesPerSweep in *; lia|by intros ? ?%elem_of_nil]. }
  set (ips := considered allIps). set (gens := sortedGenerations (byGeneration ips)).
  assert (NoDup ips) as Hips by (apply (sublist_NoDup ips allIps); [done|apply sublist_take]).
  assert (groups ips gens ≡ₚ ips) as Hperm.
  { apply NoDup_Permutation; [by apply groups_NoDup, sortedGenerations_sorted|done|]. intros p. rewrite groups_elem. split; [by intros [_ ?]|].
    intros Hp. split; [|done]. unfold gens, sortedGenerations. rewrite merge_sort_Permutation. apply byGeneration_lookup.
    intros Hnil. assert (p ∈ group ips (ip_Generation p)) as Hin; [|rewrite Hnil in Hin; by apply elem_of_nil in Hin].
    apply list_elem_of_In, filter_In. split; [by apply list_elem_of_In|by apply bool_decide_true]. }
  assert (length (groups ips gens) = length ips) as Hlen by (by rewrite Hperm).
  assert (length ips = (10 `min` length allIps)%nat) as Hl10 by (unfold ips, considered; by rewrite length_take).
  unfold maxInstallPlanCount in *.
  destruct (gcLoop_spec ips Hips (length ips) gens []) as (del & -> & Hd1 & Hd2 & Hd3 & Hd4); [apply sortedGenerations_sorted|simpl; lia|unfold maxInstallPlanCount; lia|].
  rewrite Hlen in Hd3. unfold maxInstallPlanCount in Hd3. rewrite Hperm in Hd2. cbn [app].
  split_and!; [done|done|rewrite Hd3, Hl10; unfold maxDeletesPerSweep; lia|].
  intros d Hd. destruct (submseteq_Permutation del ips) as [newer Hnew]; [by apply NoDup_submseteq|].
  rewrite Hnew in Hips. apply NoDup_app in Hips as (_ & Hdis & Hnewer). exists newer. split_and!; [done| |].
  - pose proof (Permutation_length Hnew) as Hlen'. rewrite length_app in Hlen'. lia.
  - intros k Hk. assert (k ∈ ips) as Hki by (rewrite Hnew, elem_of_app; by right).
    assert (k ∉ del) as Hkd by (intros Hkd; by apply (Hdis k)). split_and!; [|done|apply Hd4; [done|by rewrite Hperm|done]].
    unfold ips, considered in Hki. rewrite <- (take_drop (maxInstallPlanCount + maxDeletesPerSweep) allIps), elem_of_app. by left.
Qed.

(** ** The phases of a plan *)

Abbreviation phase p := (ipt_Phase (ip_Status p)).

(** A conjunction of equivalences whose two sides are decided by the equations in the context. *)
Ltac phase_cases := split_and!; intros; repeat split; intros; destruct_or?; destruct_and?; try done; try congruence; try tauto;
  try match goal with Ha : ipt_Phase ?s = _, Hb : ipt_Phase ?s = _ |- _ => rewrite Ha in Hb; discriminate Hb end.

Section transitions.
Context `{InstallPlanTransitioner}.

(** The plan as it is executed: with a start time. *)
Definition started (p : InstallPlan) (now : Time) : InstallPlan :=
  setPlanStatus p (setStartTime (ip_Status p) (default now (ipt_StartTime (ip_Status p)))).

Lemma ExecutePlan_keeps p :
  ip_Spec (ExecutePlan p).1 = ip_Spec p /\ ip_obj (ExecutePlan p).1 = ip_obj p /\ phase (ExecutePlan p).1 = phase p /\
  ipt_StartTime (ip_Status (ExecutePlan p).1) = ipt_StartTime (ip_Status p) /\
  ipt_Conditions (ip_Status (ExecutePlan p).1) = ipt_Conditions (ip_Status p) /\
  ipt_AttenuatedServiceAccountRef (ip_Status (ExecutePlan p).1) = ipt_AttenuatedServiceAccountRef (ip_Status p).
Proof. destruct (ExecutePlan_steps p) as [steps ->]. done. Qed.

(** Why a transition leaves a phase. *)
Definition fails (p : InstallPlan) (now : Time) (timeout : Z) : Prop :=
  exists e, (ExecutePlan (started p now)).2 = Some e /\ IsForbidden (Some e) = false /\
    (timeout <= now - default now (ipt_StartTime (ip_Status p)))%Z.
Definition completes (p : InstallPlan) (now : Time) : Prop :=
  (ExecutePlan (started p now)).2 = None /\ NeedsRequeue (ip_Status (ExecutePlan (started p now)).1) = false.

(** The result of a transition, case by case. *)
Inductive transition_spec (p : InstallPlan) (now : Time) (timeout : Z) : InstallPlan * option error -> Prop :=
  | TApproved : phase p = InstallPlanPhaseRequiresApproval -> ips_Approved (ip_Spec p) = true ->
      transition_spec p now timeout (setPlanStatus p (setPhase (ip_Status p) InstallPlanPhaseInstalling ""), None)
  | TWaiting : phase p = InstallPlanPhaseRequiresApproval -> ips_Approved (ip_Spec p) = false -> transition_spec p now timeout (p, None)
  | TIdle : phase p <> InstallPlanPhaseRequiresApproval -> phase p <> InstallPlanPhaseInstalling -> transition_spec p now timeout (p, None)
  | TRetrying out e message : phase p = InstallPlanPhaseInstalling -> ~ fails p now timeout -> (ExecutePlan (started p now)).2 = Some e ->
      out = setPlanStatus (ExecutePlan (started p now)).1 (setPhase (ip_Status (ExecutePlan (started p now)).1) (phase p) message) ->
      transition_spec p now timeout (out, Some e)
  | TFailed out e : phase p = InstallPlanPhaseInstalling -> fails p now timeout -> (ExecutePlan (started p now)).2 = Some e ->
      out = setPlanStatus (ExecutePlan (started p now)).1
              (setPhase (Plan_SetCondition (ip_Status (ExecutePlan (started p now)).1)
                (ConditionFailed InstallPlanInstalled InstallPlanReasonComponentFailed (Error_ e) now)) InstallPlanPhaseFailed (Error_ e)) ->
      transition_spec p now timeout (out, Some e)
  | TComplete out : phase p = InstallPlanPhaseInstalling -> completes p now ->
      out = setPlanStatus (ExecutePlan (started p now)).1
              (setPhase (Plan_SetCondition (ip_Status (ExecutePlan (started p now)).1) (ConditionMet InstallPlanInstalled now)) InstallPlanPhaseComplete "") ->
      transition_spec p now timeout (out, None)
  | TRequeue : phase p = InstallPlanPhaseInstalling -> (ExecutePlan (started p now)).2 = None ->
      NeedsRequeue (ip_Status (ExecutePlan (started p now)).1) = true -> transition_spec p now timeout ((ExecutePlan (started p now)).1, None).

Lemma transition_cases p now timeout : transition_spec p now timeout (transitionInstallPlanState p now timeout).
Proof.
  unfold transitionInstallPlanState. case_bool_decide as E1.
  { destruct (ips_Approved (ip_Spec p)) eqn:E; [by apply TApproved|by apply TWaiting]. }
  case_bool_decide as E2; [|by apply TIdle]. fold (started p now). destruct (ExecutePlan_keeps (started p now)) as (_ & _ & Hp & _).
  destruct (ExecutePlan (started p now)) as [out [e|]] eqn:Ex.
  - destruct (IsForbidden (Some e) || _) eqn:Ef.
    + eapply (TRetrying p now timeout _ e); [done| |by rewrite Ex|rewrite Ex; simpl in *; by rewrite Hp].
      intros (e' & He' & Hf & Ht). rewrite Ex in He'. injection He' as ->. rewrite Hf in Ef. simpl in Ef. apply Z.ltb_lt in Ef. lia.
    + apply orb_false_iff in Ef as [Ef Et]. apply Z.ltb_ge in Et.
      apply (TFailed p now timeout _ e); [done| |by rewrite Ex|by rewrite Ex]. exists e. by rewrite Ex.
  - destruct (NeedsRequeue (ip_Status out)) eqn:En; simpl.
    + replace out with (ExecutePlan (started p now)).1 by (by rewrite Ex). apply TRequeue; [done|by rewrite Ex|by rewrite Ex].
    + apply TComplete; [done|split; by rewrite Ex|by rewrite Ex].
Qed.

(** The phase of an install plan moves in exactly three ways.  It starts installing when it is
    waiting for approval and approved; it fails when an attempt at installing it ends in an error
    that is not a denied permission, after the timeout has run out since the first attempt; it is
    complete when an attempt succeeds and no step still waits for an API.  The transition changes
    nothing of the plan's spec or identity. *)
Theorem transitionInstallPlanState_correct (p : InstallPlan) (now : Time) (timeout : Z) :
  let '(out, err) := transitionInstallPlanState p now timeout in
  ip_Spec out = ip_Spec p /\ ip_obj out = ip_obj p /\
  (phase out = InstallPlanPhaseInstalling <->
     (phase p = InstallPlanPhaseRequiresApproval /\ ips_Approved (ip_Spec p) = true) \/
     (phase p = InstallPlanPhaseInstalling /\ ~ fails p now timeout /\ ~ completes p now)) /\
  (phase out = InstallPlanPhaseFailed <-> phase p = InstallPlanPhaseFailed \/ (phase p = InstallPlanPhaseInstalling /\ fails p now timeout)) /\
  (phase out = InstallPlanPhaseComplete <-> phase p = InstallPlanPhaseComplete \/ (phase p = InstallPlanPhaseInstalling /\ completes p now)) /\
  (phase p = InstallPlanPhaseInstalling -> err = (ExecutePlan (started p now)).2).
Proof.
  destruct (ExecutePlan_keeps (started p now)) as (Hs & Ho & Hp & _). cbn in Hs, Ho, Hp.
  destruct (transition_cases p now timeout) as [Hph Ha|Hph Ha|Hn1 Hn2|out e msg Hph Hf He ->|out e Hph Hf He ->|out Hph Hc ->|Hph He Hr].
  - simpl. rewrite Hph. phase_cases.
  - rewrite Hph. phase_cases.
  - phase_cases.
  - assert (~ completes p now) as Hnc by (intros [? _]; congruence). simpl. rewrite Hph. phase_cases.
  - assert (~ completes p now) as Hnc by (intros [? _]; congruence). simpl. phase_cases.
  - assert (~ fails p now timeout) as Hnf by (intros (? & ? & _); destruct Hc; congruence). simpl. phase_cases.
    by destruct Hc.
  - assert (~ fails p now timeout) as Hnf by (intros (? & ? & _); congruence).
    assert (~ completes p now) as Hnc by (intros [_ ?]; congruence). rewrite Hp, Hph. phase_cases.
Qed.
End transitions.

(** ** Syncing a plan *)

Section syncs.
Context `{InstallPlanTransitioner}.

(** The server's answer to an update has the content of the update. *)
Definition sameContent (p q : InstallPlan) : Prop := ip_Spec q = ip_Spec p /\ ip_Status q = ip_Status p /\ ip_obj q = ip_obj p.
Definition answersStored (env : PlanEnv) : Prop := forall site p q, pe_updateStatus env site p = inr q -> sameContent p q.

(** The plan a sync leaves behind when its updates succeed. *)
Definition synced (env : PlanEnv) (p : InstallPlan) : InstallPlan := default p (last (pl_sent (syncInstallPlans env p))).

(** What a sync may send, in the order it is sent: a condition of the plan's check of permissions,
    a service account, or the result of a transition, of a plan with the phase, the spec and the
    start time of [p]. *)
Definition sameRun (p q : InstallPlan) : Prop :=
  ip_Spec q = ip_Spec p /\ ip_obj q = ip_obj p /\ phase q = phase p /\ ipt_StartTime (ip_Status q) = ipt_StartTime (ip_Status p) /\
  ipt_Plan (ip_Status q) = ipt_Plan (ip_Status p) /\ ipt_BundleLookups (ip_Status q) = ipt_BundleLookups (ip_Status p).

Definition active (p : InstallPlan) : Prop :=
  (ipt_Plan (ip_Status p) <> [] \/ ipt_BundleLookups (ip_Status p) <> []) /\ phase p <> InstallPlanPhaseFailed /\ phase p <> InstallPlanPhaseComplete.

Lemma syncInstallPlans_inactive env p : ~ active p -> syncInstallPlans env p = mkPlanSync [] None false [].
Proof.
  unfold active, syncInstallPlans. intros Ha. repeat case_bool_decide; simpl; try done; exfalso; apply Ha; auto.
Qed.

Lemma sameRun_refl p : sameRun p p.
Proof. by split_and!. Qed.

(** The part of a sync that comes after the checks. *)
Definition syncRest (env : PlanEnv) (ref : option ObjectReference) (sent : list InstallPlan) (plan : InstallPlan) : PlanSync :=
  match ref with
  | Some ref =>
      if bool_decide (ipt_AttenuatedServiceAccountRef (ip_Status plan) = Some ref) then syncTransition env sent plan
      else
        let out := setPlanStatus plan (setServiceAccount (ip_Status plan) ref) in
        mkPlanSync (sent ++ [out])
          match pe_updateStatus env UpdateServiceAccount out with
          | inl updateErr => Some (ErrString ("failed to attach attenuated ServiceAccount to status - " +:+ Error_ updateErr))
          | inr _ => None
          end false []
  | None => syncTransition env sent plan
  end.

(** How a sync of an active plan goes: the query of the service account fails; or an earlier
    failure is first taken back, which may fail itself; and then the rest is done. *)
Inductive sync_spec (env : PlanEnv) (p : InstallPlan) : PlanSync -> Prop :=
  | SyncNoAccount err q err' : pe_querier env (ip_Namespace p) = inl err -> sameRun p q -> sync_spec env p (mkPlanSync [q] (Some err') false [])
  | SyncNoReset ref q err : pe_querier env (ip_Namespace p) = inr ref -> sameRun p q ->
      pe_updateStatus env UpdateCheckReset q = inl err ->
      sync_spec env p (mkPlanSync [q] (Some (ErrString ("error updating InstallPlan status: " +:+ Error_ err))) false [])
  | SyncReset ref q q' : pe_querier env (ip_Namespace p) = inr ref -> sameRun p q -> pe_updateStatus env UpdateCheckReset q = inr q' ->
      ipt_AttenuatedServiceAccountRef (ip_Status q) = ipt_AttenuatedServiceAccountRef (ip_Status p) -> sync_spec env p (syncRest env ref [q] q')
  | SyncGoesOn ref : pe_querier env (ip_Namespace p) = inr ref -> sync_spec env p (syncRest env ref [] p).

Lemma syncInstallPlans_active env p : active p -> sync_spec env p (syncInstallPlans env p).
Proof.
  intros (Hne & Hf & Hc). unfold syncInstallPlans.
  rewrite (bool_decide_false (phase p = InstallPlanPhaseFailed)), (bool_decide_false (phase p = InstallPlanPhaseComplete)) by done.
  replace (bool_decide (ipt_Plan _ = []) && _) with false by (symmetry; apply andb_false_iff; destruct Hne; [left|right]; by apply bool_decide_false).
  cbn [orb]. destruct (pe_querier env (ip_Namespace p)) as [err|ref] eqn:Eq.
  - cbn. eapply SyncNoAccount; [done|]. by split_and!.
  - case_bool_decide; [|by eapply SyncGoesOn]. unfold setInstallPlanInstalledCond. set (q := setPlanStatus p _).
    destruct (pe_updateStatus env UpdateCheckReset q) as [err|q'] eqn:Eu.
    + eapply SyncNoReset; [done| |done]. by split_and!.
    + fold (syncRest env ref [q] q'). eapply SyncReset; [done| |done|done]. by split_and!.
Qed.

Lemma sameRun_content p q q' : sameRun p q -> sameContent q q' -> sameRun p q'.
Proof. intros (? & ? & ? & ? & ? & ?) (Hs & Ht & Ho). unfold sameRun. rewrite Hs, Ht, Ho. by split_and!. Qed.

Lemma syncRest_sent env ref sent p q :
  q ∈ pl_sent (syncRest env ref sent p) ->
  q ∈ sent \/ sameRun p q \/ q = (transitionInstallPlanState p (pe_now env UpdateTransition) (pe_timeout env)).1.
Proof.
  assert (q ∈ pl_sent (syncTransition env sent p) ->
    q ∈ sent \/ sameRun p q \/ q = (transitionInstallPlanState p (pe_now env UpdateTransition) (pe_timeout env)).1) as Ht.
  { unfold syncTransition. destruct (transitionInstallPlanState p _ _) as [out err]. cbn.
    intros [Hq|Hq%list_elem_of_singleton]%elem_of_app; [by left|by right; right]. }
  unfold syncRest. destruct ref as [ref|]; [|done]. case_bool_decide; [done|]. cbn.
  intros [Hq| ->%list_elem_of_singleton]%elem_of_app; [by left|]. right; left. by split_and!.
Qed.

Lemma syncInstallPlans_sent env p q :
  answersStored env -> q ∈ pl_sent (syncInstallPlans env p) ->
  active p /\ (sameRun p q \/ exists p', sameRun p p' /\ q = (transitionInstallPlanState p' (pe_now env UpdateTransition) (pe_timeout env)).1).
Proof.
  intros Hst Hq. destruct (decide (active p)) as [Ha|Ha]; [|rewrite syncInstallPlans_inactive in Hq by done; by apply elem_of_nil in Hq].
  split; [done|]. revert Hq. destruct (syncInstallPlans_active env p Ha) as [err q0 err' _ Hr|ref q0 err _ Hr _|ref q0 q' _ Hr Hu _|ref _].
  - cbn. intros ->%list_elem_of_singleton. by left.
  - cbn. intros ->%list_elem_of_singleton. by left.
  - apply Hst in Hu. pose proof (sameRun_content _ _ _ Hr Hu) as Hr'.
    intros [ ->%list_elem_of_singleton|[Hq|Hq]]%syncRest_sent; [by left| |right; by exists q'].
    left. destruct Hr' as (R1 & R2 & R3 & R4 & R5 & R6), Hq as (Q1 & Q2 & Q3 & Q4 & Q5 & Q6). split_and!; congruence.
  - intros [?%elem_of_nil|[Hq|Hq]]%syncRest_sent; [done|by left|]. right. exists p. split; [apply sameRun_refl|done].
Qed.
End syncs.

(** ** The life of a plan *)

Definition approve (p : InstallPlan) : InstallPlan :=
  mkPlan (ip_obj p) (ip_CreationTimestamp p)
    (mkIPSpec (ips_ClusterServiceVersionNames (ip_Spec p)) (ips_Approval (ip_Spec p)) true (ips_Generation (ip_Spec p))) (ip_Status p).

(** A plan as it is created, once its status has been written. *)
Definition created `{RangeOrder} (p : InstallPlan) : Prop :=
  exists namespace gen subs approval steps lookups, approval ∈ [ApprovalAutomatic; ApprovalManual] /\
    ip_Spec p = ip_Spec (newPlan namespace gen subs approval steps) /\ ip_Status p = newPlanStatus approval steps lookups.

Section life.
Context `{RangeOrder}.

(** What happens to a stored plan: an update by a sync, a retry, the user's approval.  What executing
    the plan does depends on the cluster at that time, so that every sync comes with its own. *)
Inductive plan_step : InstallPlan -> InstallPlan -> Prop :=
  | PSync (executor : InstallPlanTransitioner) env p q : answersStored env -> q ∈ pl_sent (syncInstallPlans env p) -> plan_step p q
  | PRetry p : isRetryTarget p = true -> plan_step p (retryPlan p)
  | PApprove p : plan_step p (approve p).

Definition installedCond (p : InstallPlan) : InstallPlanCondition := Plan_GetCondition (ip_Status p) InstallPlanInstalled.

Record plan_ok (p : InstallPlan) : Prop := {
  po_phase : phase p ∈ [InstallPlanPhaseRequiresApproval; InstallPlanPhaseInstalling; InstallPlanPhaseFailed; InstallPlanPhaseComplete];
  po_approved : phase p <> InstallPlanPhaseRequiresApproval -> ips_Approved (ip_Spec p) = true;
  po_started : is_Some (ipt_StartTime (ip_Status p)) -> ips_Approved (ip_Spec p) = true;
  po_failed : phase p = InstallPlanPhaseFailed -> is_Some (ipt_StartTime (ip_Status p)) /\ ipc_Status (installedCond p) = ConditionFalse;
  po_complete : phase p = InstallPlanPhaseComplete ->
    is_Some (ipt_StartTime (ip_Status p)) /\ ipc_Status (installedCond p) = ConditionTrue /\ NeedsRequeue (ip_Status p) = false;
}.

Lemma created_ok p : created p -> plan_ok p.
Proof.
  intros (ns & gen & subs & approval & steps & lookups & Ha & Hs & Ht). split; rewrite ?Ht, ?Hs; simpl.
  - case_bool_decide; [apply list_elem_of_here|apply list_elem_of_further, list_elem_of_here].
  - case_bool_decide; [done|]. intros _. apply bool_decide_true. apply elem_of_cons in Ha as [?|Ha]; [done|].
    by apply list_elem_of_singleton in Ha.
  - by intros [? ?].
  - by case_bool_decide.
  - by case_bool_decide.
Qed.

Lemma Plan_SetCondition_status s c : ipc_Status (Plan_GetCondition (Plan_SetCondition s c) (ipc_Type c)) = ipc_Status c.
Proof.
  unfold Plan_GetCondition, Plan_SetCondition. cbn [ipt_Conditions].
  rewrite findCond_set; [|intros a b; unfold mergePlanCond; by case_bool_decide]. rewrite bool_decide_true by done. simpl.
  case_match; [|done]. unfold mergePlanCond. by case_bool_decide.
Qed.

(** A plan that is not in a final phase is all right when its approval is. *)
Lemma unfinished_ok p :
  phase p ∈ [InstallPlanPhaseRequiresApproval; InstallPlanPhaseInstalling] ->
  (phase p = InstallPlanPhaseInstalling \/ is_Some (ipt_StartTime (ip_Status p)) -> ips_Approved (ip_Spec p) = true) -> plan_ok p.
Proof.
  intros Hp Ha. assert (phase p = InstallPlanPhaseRequiresApproval \/ phase p = InstallPlanPhaseInstalling) as Hc.
  { apply elem_of_cons in Hp as [?|?%list_elem_of_singleton]; auto. }
  split; [destruct Hc as [-> | ->]; [apply list_elem_of_here|apply list_elem_of_further, list_elem_of_here]|naive_solver|auto| |];
    destruct Hc as [-> | ->]; done.
Qed.

Lemma transition_ok `{InstallPlanTransitioner} p now timeout :
  plan_ok p -> phase p <> InstallPlanPhaseFailed -> phase p <> InstallPlanPhaseComplete -> plan_ok (transitionInstallPlanState p now timeout).1.
Proof.
  intros Hok Hnf Hnc. destruct (ExecutePlan_keeps (started p now)) as (Hs & Ho & Hp & Ht & _). cbn in Hs, Ho, Hp, Ht.
  destruct (transition_cases p now timeout) as [Hph Ha|Hph Ha|Hn1 Hn2|out e msg Hph Hf He ->|out e Hph Hf He ->|out Hph Hc ->|Hph He Hr]; cbn [fst]; try done.
  - apply unfinished_ok; simpl; [apply list_elem_of_further, list_elem_of_here|auto].
  - assert (ips_Approved (ip_Spec p) = true) as Ha by (apply po_approved; [done|by rewrite Hph]).
    apply unfinished_ok; simpl; [rewrite Hph; apply list_elem_of_further, list_elem_of_here|by rewrite Hs].
  - assert (ips_Approved (ip_Spec p) = true) as Ha by (apply po_approved; [done|by rewrite Hph]).
    split; simpl; rewrite ?Hs, ?Ht; [do 2 apply list_elem_of_further; apply list_elem_of_here|done|done| |done].
    intros _. split; [by eexists|]. unfold installedCond. simpl. apply (Plan_SetCondition_status _ (ConditionFailed _ _ _ _)).
  - assert (ips_Approved (ip_Spec p) = true) as Ha by (apply po_approved; [done|by rewrite Hph]).
    split; simpl; rewrite ?Hs, ?Ht; [do 3 apply list_elem_of_further; apply list_elem_of_here|done|done|done|].
    intros _. split_and!; [by eexists| |by destruct Hc]. unfold installedCond. simpl. apply (Plan_SetCondition_status _ (ConditionMet _ _)).
  - assert (ips_Approved (ip_Spec p) = true) as Ha by (apply po_approved; [done|by rewrite Hph]).
    apply unfinished_ok; simpl; [rewrite Hp, Hph; apply list_elem_of_further, list_elem_of_here|by rewrite Hs].
Qed.

Lemma sameRun_ok p q : plan_ok p -> phase p <> InstallPlanPhaseFailed -> phase p <> InstallPlanPhaseComplete -> sameRun p q -> plan_ok q.
Proof.
  intros Hok Hnf Hnc (Hs & _ & Hp & Ht & _). apply unfinished_ok; rewrite ?Hs, ?Hp, ?Ht.
  - pose proof (po_phase p Hok) as Hin. apply elem_of_cons in Hin as [->|Hin]; [apply list_elem_of_here|].
    apply elem_of_cons in Hin as [->|Hin]; [apply list_elem_of_further, list_elem_of_here|].
    apply elem_of_cons in Hin as [?|?%list_elem_of_singleton]; done.
  - intros [Hi|Hst]; [apply po_approved; [done|]; by rewrite Hi|by apply po_started].
Qed.

Lemma plan_step_ok p q : plan_ok p -> plan_step p q -> plan_ok q.
Proof.
  intros Hok Hstep. destruct Hstep as [executor env p q Hst Hq|p Hr|p].
  - apply syncInstallPlans_sent in Hq as [(_ & Hnf & Hnc) [Hq|(p' & Hq & ->)]]; [by apply (sameRun_ok p)| |done].
    apply transition_ok; [by apply (sameRun_ok p)|..]; destruct Hq as (_ & _ & -> & _); done.
  - unfold isRetryTarget in Hr. apply andb_true_iff in Hr as [Hf _]. apply bool_decide_eq_true in Hf.
    apply unfinished_ok; simpl; [apply list_elem_of_further, list_elem_of_here|]. intros _. apply po_approved; [done|]. by rewrite Hf.
  - destruct Hok as [? ? ? ? ?]. split; simpl; auto.
Qed.

(** C25: through every sequence of syncs, retries and approvals, with whatever errors the cluster
    answers, an install plan is only ever installed when it has been approved: as soon as it has
    left the phase in which it waits for approval, or an attempt at installing it has begun, its
    spec is approved.  A failed plan has been started and says that it is not installed, and a
    complete one has been started, says that it is installed, and no step of it waits. *)
Theorem plan_lifecycle (p0 p : InstallPlan) : created p0 -> rtc plan_step p0 p -> plan_ok p.
Proof. intros Hp%created_ok Hrtc. induction Hrtc as [|p q r Hstep _ IH]; [done|]. apply IH. by apply (plan_step_ok p). Qed.

(** A complete plan stays as it is: no sync sends an update of it, no retry takes it up, and
    whatever happens leaves its status alone. *)
Theorem complete_final (p q : InstallPlan) : phase p = InstallPlanPhaseComplete -> rtc plan_step p q -> ip_Status q = ip_Status p.
Proof.
  intros Hp Hrtc. induction Hrtc as [|p q r Hstep _ IH]; [done|]. assert (ip_Status q = ip_Status p) as Hq; [|rewrite IH; congruence].
  clear IH. destruct Hstep as [executor env p q Hst Hq|p Hr|p]; [| |done].
  - by apply syncInstallPlans_sent in Hq as [(_ & _ & Hnc) _].
  - unfold isRetryTarget in Hr. rewrite Hp in Hr. done.
Qed.
End life.

(** ** Progress *)

(** A sync that reports no error, of a plan that is not in a final phase. *)
Section progress.
Context `{InstallPlanTransitioner} (env : PlanEnv) (ref : option ObjectReference) (p : InstallPlan).

Definition attached (q : InstallPlan) : Prop := ref = None \/ ipt_AttenuatedServiceAccountRef (ip_Status q) = ref.

Lemma syncTransition_quiet sent q : pl_err (syncTransition env sent q) = None ->
  transitionInstallPlanState q (pe_now env UpdateTransition) (pe_timeout env) = (default p (last (pl_sent (syncTransition env sent q))), None).
Proof using.
  unfold syncTransition. destruct (transitionInstallPlanState q _ _) as [out [e|]]; cbn [pl_err pl_sent];
    destruct (pe_updateStatus env UpdateTransition out); try done. by rewrite last_snoc.
Qed.

Lemma syncRest_quiet sent q :
  sameRun p q -> ipt_AttenuatedServiceAccountRef (ip_Status q) = ipt_AttenuatedServiceAccountRef (ip_Status p) ->
  pl_err (syncRest env ref sent q) = None -> let out := default p (last (pl_sent (syncRest env ref sent q))) in
  (~ attached p /\ sameRun p out /\ attached out) \/
  attached p /\ attached q /\ transitionInstallPlanState q (pe_now env UpdateTransition) (pe_timeout env) = (out, None).
Proof using.
  intros Hr Hsa. unfold syncRest, attached. destruct ref as [r|].
  - case_bool_decide as Es; [intros Hq; right; split_and!; [right; congruence|by right|by apply syncTransition_quiet]|].
    intros _. cbn [pl_sent]. rewrite last_snoc. cbn. left. split_and!; [|by destruct Hr as (? & ? & ? & ? & ? & ?)..|by right].
    intros [?|Ha]; [done|]. congruence.
  - intros Hq. right. split_and!; [by left..|by apply syncTransition_quiet].
Qed.

Hypothesis Hstores : answersStored env.
Hypothesis Hquerier : pe_querier env (ip_Namespace p) = inr ref.
Hypothesis Hactive : active p.
Hypothesis Hquiet : pl_err (syncInstallPlans env p) = None.

(** It either attaches the service account, when it is not, or makes a transition. *)
Lemma sync_progress :
  (~ attached p /\ sameRun p (synced env p) /\ attached (synced env p)) \/
  attached p /\ exists p', sameRun p p' /\ attached p' /\
    transitionInstallPlanState p' (pe_now env UpdateTransition) (pe_timeout env) = (synced env p, None).
Proof using Hstores Hquerier Hactive Hquiet.
  assert (forall sent q, sameRun p q -> ipt_AttenuatedServiceAccountRef (ip_Status q) = ipt_AttenuatedServiceAccountRef (ip_Status p) ->
    syncInstallPlans env p = syncRest env ref sent q ->
    (~ attached p /\ sameRun p (synced env p) /\ attached (synced env p)) \/
    attached p /\ exists p', sameRun p p' /\ attached p' /\ transitionInstallPlanState p' (pe_now env UpdateTransition) (pe_timeout env) = (synced env p, None)) as Hrest.
  { intros sent q Hr Hsa E. unfold synced. rewrite E in *. destruct (syncRest_quiet sent q Hr Hsa Hquiet) as [?|(? & ? & ?)]; [by left|]. right. split; [done|]. by exists q. }
  pose proof Hquiet as Hnone. pose proof (syncInstallPlans_active env p Hactive) as Hspec.
  inversion Hspec as [err q err' Hq _ E|r q err Hq _ Hu E|r q q' Hq Hr Hu Hsa E|r Hq E];
    rewrite Hquerier in Hq; simplify_eq; [by rewrite <- E in Hnone| |by eapply (Hrest [] p); [apply sameRun_refl|..]].
  apply Hstores in Hu. eapply (Hrest [q] q'); [by apply (sameRun_content p q)| |done]. destruct Hu as (_ & -> & _). done.
Qed.
End progress.

(** An attempt at installing without an error. *)
Lemma install_quiet `{InstallPlanTransitioner} p now timeout out :
  phase p = InstallPlanPhaseInstalling -> transitionInstallPlanState p now timeout = (out, None) ->
  (ExecutePlan (started p now)).2 = None /\ ip_obj out = ip_obj p /\
  ipt_Plan (ip_Status out) = ipt_Plan (ip_Status (ExecutePlan (started p now)).1) /\
  ipt_BundleLookups (ip_Status out) = ipt_BundleLookups (ip_Status p) /\
  ipt_AttenuatedServiceAccountRef (ip_Status out) = ipt_AttenuatedServiceAccountRef (ip_Status p) /\
  phase out = (if NeedsRequeue (ip_Status out) then InstallPlanPhaseInstalling else InstallPlanPhaseComplete).
Proof.
  intros Hp. unfold transitionInstallPlanState. rewrite bool_decide_false by (by rewrite Hp). rewrite bool_decide_true by done. fold (started p now).
  destruct (ExecutePlan_steps (started p now)) as [steps E]. destruct (ExecutePlan (started p now)) as [q [e|]]; cbn [fst] in E; subst q; cbn [snd fst].
  { by destruct (_ || _). }
  destruct (NeedsRequeue _) eqn:En; cbn [negb]; intros [= <-]; split_and!; try done; unfold NeedsRequeue in *; cbn in *; by rewrite En.
Qed.

Lemma synced_complete `{InstallPlanTransitioner} env p : phase p = InstallPlanPhaseComplete -> synced env p = p.
Proof. intros Hp. unfold synced. rewrite syncInstallPlans_inactive; [done|]. by intros (_ & _ & ?). Qed.

(** ** Retried plans *)

(** A retry does not restart the clock: a plan that failed and is retried fails again at the first
    error that is not a denied permission, however soon it comes, since its start time is that of
    the first attempt. *)
Lemma retry_keeps_clock `{InstallPlanTransitioner} (p : InstallPlan) (t now : Time) (timeout : Z) e :
  ipt_StartTime (ip_Status p) = Some t -> (timeout <= now - t)%Z ->
  (ExecutePlan (started (retryPlan p) now)).2 = Some e -> IsForbidden (Some e) = false ->
  phase (transitionInstallPlanState (retryPlan p) now timeout).1 = InstallPlanPhaseFailed.
Proof.
  intros Ht Hto He Hf. assert (fails (retryPlan p) now timeout) as Hfail by (exists e; cbn; by rewrite Ht).
  destruct (transition_cases (retryPlan p) now timeout) as [| |Hn1 Hn2|? ? ? _ Hn|out e' _ _ _ ->|? _ [Hn _]|_ Hn]; try done; congruence.
Qed.

(** ** Two workers that ensure the plan of a generation *)

Module Workers.
(** Where a worker is in [ensureInstallPlan], and the plans of the namespace. *)
Inductive Stage := Idle | Listed (seen : list InstallPlan) | Holding (seen : list InstallPlan) | Finished.
Record World := mkWorld { w_plans : list InstallPlan; w_lock : option bool; w_stage : bool -> Stage }.

Definition at_stage (w : World) (i : bool) (s : Stage) : bool -> Stage := fun j => if Bool.eqb i j then s else w_stage w j.

Inductive worker_step (gen : Z) (new : InstallPlan) : World -> World -> Prop :=
  | WList w i : w_stage w i = Idle -> worker_step gen new w (mkWorld (w_plans w) (w_lock w) (at_stage w i (Listed (w_plans w))))
  | WLock w i seen : w_stage w i = Listed seen -> w_lock w = None ->
      worker_step gen new w (mkWorld (w_plans w) (Some i) (at_stage w i (Holding seen)))
  | WFind w i seen ip : w_stage w i = Holding seen -> List.find (fun ip => bool_decide (ip_Generation ip = gen)) seen = Some ip ->
      worker_step gen new w (mkWorld (w_plans w) None (at_stage w i Finished))
  | WCreate w i seen : w_stage w i = Holding seen -> List.find (fun ip => bool_decide (ip_Generation ip = gen)) seen = None ->
      worker_step gen new w (mkWorld (w_plans w ++ [new]) None (at_stage w i Finished)).

(** The lock does not keep two workers from creating a plan of the same generation each: both can
    have listed the plans before either takes the lock. *)
Lemma lock_does_not_help (gen : Z) (new : InstallPlan) (plans : list InstallPlan) :
  (forall p, p ∈ plans -> ip_Generation p <> gen) ->
  exists w, rtc (worker_step gen new) (mkWorld plans None (fun _ => Idle)) w /\ w_plans w = plans ++ [new; new].
Proof.
  intros Hnone. assert (List.find (fun ip => bool_decide (ip_Generation ip = gen)) plans = None) as Hf.
  { destruct (List.find _ plans) as [p|] eqn:E; [|done]. apply find_elem_of in E as [Hp Hg]. apply bool_decide_eq_true in Hg.
    by destruct (Hnone p Hp). }
  eexists. split.
  - eapply rtc_l; [apply (WList _ _ _ true); done|]. eapply rtc_l; [apply (WList _ _ _ false); done|].
    eapply rtc_l; [eapply (WLock _ _ _ true); done|]. eapply rtc_l; [eapply (WCreate _ _ _ true); done|].
    eapply rtc_l; [eapply (WLock _ _ _ false); done|]. eapply rtc_l; [eapply (WCreate _ _ _ false); done|]. apply rtc_refl.
  - simpl. by rewrite <- app_assoc.
Qed.
End Workers.

(** ** Concrete plans *)

Module PlanDemo.
Definition doStep (s : Step) : Step := mkStep (step_Resolving s) (step_Resource s) (step_Optional s) "Created".

(** Every step can be executed. *)
Definition executor : InstallPlanTransitioner.
Proof.
  refine {| ExecutePlan p := (setPlanStatus p (mkIPStatus (ipt_Phase (ip_Status p)) (ipt_Conditions (ip_Status p)) (ipt_CatalogSources (ip_Status p))
    (doStep <$> ipt_Plan (ip_Status p)) (ipt_BundleLookups (ip_Status p)) (ipt_AttenuatedServiceAccountRef (ip_Status p))
    (ipt_StartTime (ip_Status p)) (ipt_Message (ip_Status p))), None) |}.
  intros p. by eexists.
Defined.

Definition step (name : string) : Step := mkStep "etcd.v1" (mkStepResource "operators" "olm" "" "v1" "Service" name "{}") false "Unknown".
Definition plan (name : string) (gen : Z) (approved : bool) (phase : string) : InstallPlan :=
  mkPlan (mkObj TInstallPlan (mkGVK "" "" "") name "ns" name [] None) 0%Z (mkIPSpec [] ApprovalManual approved gen)
    (mkIPStatus phase [] [] [step "a"; step "b"] [] None None "").
Definition env (ref : option ObjectReference) : PlanEnv := mkPlanEnv (fun _ => inr ref) (fun _ p => inr p) (fun _ => 5%Z) 10%Z.
Definition account : ObjectReference := mkObjectRef "ServiceAccount" "ns" "installer" "u" "v1".

Lemma gcInstallPlans_witness :
  let plans := (fun g => plan ("install-" +:+ (if (g <? 2)%Z then "b" else "c")) g false "") <$> [3; 1; 4; 1; 5; 9; 2]%Z in
  let plans := zip_with (fun n p => mkPlan (ip_obj p) n (ip_Spec p) (ip_Status p)) [7; 6; 5; 4; 3; 2; 1]%Z plans in
  ip_CreationTimestamp <$> @gcInstallPlans insertion_sort_lib (inr plans) = [6; 4]%Z /\
  length (@gcInstallPlans insertion_sort_lib (inr plans)) = ((7 - maxInstallPlanCount) `min` maxDeletesPerSweep)%nat.
Proof.
  intros ips plans. assert (NoDup plans) as Hnd.
  { apply (NoDup_fmap_1 ip_CreationTimestamp). apply (bool_decide_unpack _). by vm_compute. }
  destruct (@gcInstallPlans_correct insertion_sort_lib plans Hnd) as (_ & _ & Hl & _).
  split; [by vm_compute|exact Hl].
Defined.

Lemma plan_lifecycle_witness :
  let p0 := plan "install-1" 1 false InstallPlanPhaseRequiresApproval in
  @created canonical_order (mkPlan (ip_obj p0) 0%Z (ip_Spec (newPlan "ns" 1 [] ApprovalManual [step "a"])) (newPlanStatus (H := canonical_order) ApprovalManual [step "a"] [])) /\
  exists p, phase p = InstallPlanPhaseComplete /\ @plan_ok p.
Proof.
  intros p0. assert (@created canonical_order (mkPlan (ip_obj p0) 0%Z (ip_Spec (newPlan "ns" 1 [] ApprovalManual [step "a"])) (newPlanStatus (H := canonical_order) ApprovalManual [step "a"] []))) as Hc.
  { exists "ns", 1%Z, [], ApprovalManual, [step "a"], []. split_and!; [apply list_elem_of_further, list_elem_of_here|done|done]. }
  split; [exact Hc|]. set (p := mkPlan _ _ _ _) in Hc.
  assert (answersStored (env None)) as Hst by (intros site q q' [= <-]; by split_and!).
  exists (synced (H := executor) (env None) (synced (H := executor) (env None) (approve p))). split; [by vm_compute|].
  refine (plan_lifecycle (H := canonical_order) p _ Hc _).
  eapply rtc_l; [apply PApprove|]. eapply rtc_l; [|eapply rtc_l; [|apply rtc_refl]];
    (apply (PSync executor (env None)); [exact Hst|vm_compute; apply list_elem_of_here]).
Defined.

Lemma complete_final_witness :
  let p := plan "install-1" 1 true InstallPlanPhaseComplete in
  rtc plan_step p (approve p) /\ ip_Status (approve p) = ip_Status p.
Proof.
  intros p. assert (rtc plan_step p (approve p)) as Hr by (apply rtc_once, PApprove).
  split; [exact Hr|]. refine (complete_final p (approve p) _ Hr). reflexivity.
Defined.
End PlanDemo.
