(* ===== verification/CatalogSync.v ===== *)
(** * Resolving a namespace

    Models [syncResolvingNamespace] of [controller/operators/catalog/operator.go] and what it calls:
    the state of subscriptions is brought up to date, the resolver is run, bundles are unpacked, an
    install plan is ensured, and the statuses of the subscriptions are written.  The resolver, the
    unpacker and the cluster are parameters ([NsEnv]); what a sync does to the cluster is the list
    of its [Action]s, in order. *)

From S2P Require Import Prelude GoStrings RbacRules OwnerUtil CatalogModel ResolverCache CsvTypes OperatorGroups ReplaceChain CatalogTypes BundleSteps InstallPlans.

#[local] Arguments String.append : simpl nomatch.

Definition generatedByKey : string := "olm.generated-by".
Definition BundleUnpackTimeoutAnnotationKey : string := "operatorframework.io/bundle-unpack-timeout".
Definition BundleUnpackRetryMinimumIntervalAnnotationKey : string := "operatorframework.io/bundle-unpack-min-retry-interval".

(** ** Environment *)

(** What the unpacker returns: the lookup with its conditions, the bundle once it is unpacked, and
    the name of the config map. *)
Record BundleUnpackResult (Bundle : Type) := mkUnpack { ur_BundleLookup : BundleLookup; ur_bundle : Bundle; ur_name : string }.
Arguments mkUnpack {Bundle}.
Arguments ur_BundleLookup {Bundle}.
Arguments ur_bundle {Bundle}.
Arguments ur_name {Bundle}.

Record UnpackedBundleReference := mkUnpackedRef {
  ub_Kind : string; ub_Name : string; ub_Namespace : string; ub_CatalogSourceName : string; ub_CatalogSourceNamespace : string;
  ub_Replaces : string; ub_Properties : string
}.

(** The calls of [o.now()] in one sync. *)
Inductive NowSite := NowPlanState | NowCSVState | NowSetCond | NowReference | NowRemoveCond (condType : string).

(** The two listings of install plans in one sync: for the next generation, and when a plan is ensured. *)
Inductive PlanListing := ListForGeneration | ListForEnsure.

Record NsEnv (Bundle : Type) := mkNsEnv {
  ne_plansCache : error + list InstallPlan;
  ne_listSubs : error + list Subscription;
  ne_groups : error + list OperatorGroup;
  ne_parseDuration : string -> error + Z;
  ne_getPlan : string -> string -> error + InstallPlan;
  ne_getReference : InstallPlan -> error + ObjectReference;
  ne_getCSV : string -> string -> option error;
  ne_updateSub : Subscription -> error + Subscription;
  ne_resolve : error + (list Step * list BundleLookup * list Subscription);
  ne_unpack : BundleLookup -> Z -> Z -> error + BundleUnpackResult Bundle;
  ne_newSteps : Bundle -> string -> string -> string -> string -> error + list Step;
  ne_marshal : UnpackedBundleReference -> error + string;
  ne_listPlans : PlanListing -> error + list InstallPlan;
  ne_create : InstallPlan -> error + InstallPlan;
  ne_updatePlan : InstallPlan -> error + InstallPlan;
  ne_getSub : nat -> string -> string -> error + Subscription;
  ne_updateStatus : nat -> Subscription -> option error;
  ne_now : NowSite -> Time;
}.
Arguments ne_plansCache {Bundle}.
Arguments ne_listSubs {Bundle}.
Arguments ne_groups {Bundle}.
Arguments ne_parseDuration {Bundle}.
Arguments ne_getPlan {Bundle}.
Arguments ne_getReference {Bundle}.
Arguments ne_getCSV {Bundle}.
Arguments ne_updateSub {Bundle}.
Arguments ne_resolve {Bundle}.
Arguments ne_unpack {Bundle}.
Arguments ne_newSteps {Bundle}.
Arguments ne_marshal {Bundle}.
Arguments ne_listPlans {Bundle}.
Arguments ne_create {Bundle}.
Arguments ne_updatePlan {Bundle}.
Arguments ne_getSub {Bundle}.
Arguments ne_updateStatus {Bundle}.
Arguments ne_now {Bundle}.

(** What a sync asks the cluster to do. *)
Inductive Action :=
  | DeletePlan (p : InstallPlan)
  | UpdateSub (s : Subscription)
  | CreatePlan (p : InstallPlan)
  | UpdatePlan (p : InstallPlan)
  | WriteStatus (s : Subscription)
  | RequeueAfter.

(** ** Settings of the operator group *)

(** [OperatorGroupBundleUnpackTimeout] and [OperatorGroupBundleUnpackRetryInterval]: a duration in
    an annotation of the only operator group, in nanoseconds. *)
Definition groupDuration (parseDuration : string -> error + Z) (key name : string) (absent : Z) (listed : error + list OperatorGroup) : error + Z :=
  match listed with
  | inl err => inl err
  | inr [og] =>
      match default ∅ (og_Annotations og) !! key with
      | None => inr absent
      | Some timeoutStr =>
          match parseDuration timeoutStr with
          | inl err => inl (ErrString ("failed to parse unpack " +:+ name +:+ " annotation(" +:+ key +:+ ": " +:+ timeoutStr +:+ "): " +:+ Error_ err))
          | inr d => inr d
          end
      end
  | inr ogs => inl (ErrString ("found " +:+ pretty.pretty (length ogs) +:+ " operatorGroups, expected 1"))
  end.
Definition OperatorGroupBundleUnpackTimeout (parseDuration : string -> error + Z) : error + list OperatorGroup -> error + Z :=
  groupDuration parseDuration BundleUnpackTimeoutAnnotationKey "timeout" (-60000000000)%Z.
Definition OperatorGroupBundleUnpackRetryInterval (parseDuration : string -> error + Z) : error + list OperatorGroup -> error + Z :=
  groupDuration parseDuration BundleUnpackRetryMinimumIntervalAnnotationKey "retry" 0%Z.

(** ** Conditions of many subscriptions *)

(** The subscriptions that change, changed. *)
Definition setSubsCond (now : Time) (cond : SubscriptionCondition) (subs : list Subscription) : list Subscription :=
  (fun sub => setSubStatus sub (SetCondition (setLastUpdated (sub_Status sub) now) cond)) <$>
    List.filter (fun sub => negb (Cond_Equals (GetCondition (sub_Status sub) (sc_Type cond)) cond)) subs.

(** All subscriptions, without the condition. *)
Definition removeSubCond (now : Time) (condType : string) (sub : Subscription) : Subscription :=
  if bool_decide (sc_Status (GetCondition (sub_Status sub) condType) = ConditionUnknown) then sub
  else setSubStatus sub (RemoveConditions (setLastUpdated (sub_Status sub) now) [condType]).
Definition removeSubsCond (now : Time) (condType : string) (subs : list Subscription) : list Subscription :=
  removeSubCond now condType <$> subs.

Definition setIPReference (now : Time) (gen : Z) (installPlanRef : option ObjectReference) (subs : list Subscription) : list Subscription :=
  (fun sub =>
     let s := setLastUpdated (sub_Status sub) now in
     setSubStatus sub
       match installPlanRef with
       | None => s
       | Some ref => mkSubStatus (su_CurrentCSV s) (su_InstalledCSV s) (Some (NewInstallPlanReference ref)) SubscriptionStateUpgradePending gen
                       (Some ref) (su_CatalogHealth s) (su_Conditions s) (su_LastUpdated s)
       end) <$> subs.

Definition nothingToUpdate (sub : Subscription) : bool :=
  bool_decide (is_Some (su_InstallPlanRef (sub_Status sub))) && bool_decide (su_State (sub_Status sub) = SubscriptionStateUpgradePending).

(** The first bundle lookup condition that says a lookup failed. *)
Definition hasBundleLookupFailureCondition (bundleLookups : list BundleLookup) : option BundleLookupCondition :=
  List.find (fun cond => bool_decide (blc_Type cond = BundleLookupFailed) && bool_decide (blc_Status cond = ConditionTrue))
    (bundleLookups ≫= bl_Conditions).

(** ** A sync that may return early *)

(** The actions, and either the error a sync returns with ([None] is nil) or a value to go on with. *)
Definition NS (A : Type) : Type := list Action * (option error + A).
Definition go {A} (x : A) : NS A := ([], inr x).
Definition return_ {A} (err : option error) : NS A := ([], inl err).
Definition act (a : Action) : NS unit := ([a], inr tt).
Definition acts (l : list Action) : NS unit := (l, inr tt).
Definition andThen {A B} (m : NS A) (k : A -> NS B) : NS B :=
  match m with
  | (l, inl err) => (l, inl err)
  | (l, inr x) => let '(l', r) := k x in (l ++ l', r)
  end.
(** Go on with the value, or return with the error. *)
Definition orReturn {A} (r : error + A) : NS A := match r with inl err => return_ (Some err) | inr x => go x end.

Declare Scope ns_scope.
Delimit Scope ns_scope with ns.
Notation "'let!' x := m 'in' k" := (andThen m (fun x => k)) (at level 10, x name, m at level 100, k at level 200) : ns_scope.
#[local] Open Scope ns_scope.

Section sync.
Context {Bundle : Type} `{RangeOrder, SortLib} (env : NsEnv Bundle).

(** ** The state of a subscription *)

Definition ensureSubscriptionInstallPlanState (failForwardEnabled : bool) (sub : Subscription) : error + (Subscription * bool) :=
  let s := sub_Status sub in
  if bool_decide (is_Some (su_InstallPlanRef s)) || bool_decide (is_Some (su_Install s)) then inr (sub, false)
  else
    match default ∅ (sub_Annotations sub) !! generatedByKey with
    | None => inr (sub, false)
    | Some ipName =>
        match ne_getPlan env (sub_Namespace sub) ipName with
        | inl err => inl err
        | inr ip =>
            match ne_getReference env ip with
            | inl err => inl err
            | inr ref =>
                let state := if failForwardEnabled && bool_decide (ipt_Phase (ip_Status ip) = InstallPlanPhaseFailed)
                             then SubscriptionStateFailed else SubscriptionStateUpgradePending in
                inr (setSubStatus sub (mkSubStatus (ss_StartingCSV (sub_Spec sub)) (su_InstalledCSV s) (Some (NewInstallPlanReference ref)) state
                       (su_InstallPlanGeneration s) (Some ref) (su_CatalogHealth s) (su_Conditions s) (ne_now env NowPlanState)), true)
            end
        end
    end.

(** The state the CSV of the subscription says it should have, and the installed CSV. *)
Definition csvState (failForwardEnabled : bool) (sub : Subscription) : string * string :=
  let s := sub_Status sub in
  match ne_getCSV env (sub_Namespace sub) (su_CurrentCSV s) with
  | None => (SubscriptionStateAtLatest, su_CurrentCSV s)
  | Some _ =>
      (match su_InstallPlanRef s with
       | Some ref =>
           if failForwardEnabled then
             match ne_getPlan env (sub_Namespace sub) (or_Name ref) with
             | inl _ => SubscriptionStateUpgradePending
             | inr ip => if bool_decide (ipt_Phase (ip_Status ip) = InstallPlanPhaseFailed) then SubscriptionStateFailed
                         else SubscriptionStateUpgradePending
             end
           else SubscriptionStateUpgradePending
       | None => SubscriptionStateUpgradePending
       end, su_InstalledCSV s)
  end.

Definition ensureSubscriptionCSVState (failForwardEnabled : bool) (sub : Subscription) : NS (Subscription * bool) :=
  let s := sub_Status sub in
  if bool_decide (su_CurrentCSV s = "") then go (sub, false)
  else
    let '(state, installedCSV) := csvState failForwardEnabled sub in
    if bool_decide (su_State s = state) then go (sub, false)
    else
      let out := setSubStatus sub (mkSubStatus (su_CurrentCSV s) installedCSV (su_Install s) state (su_InstallPlanGeneration s) (su_InstallPlanRef s)
                   (su_CatalogHealth s) (su_Conditions s) (ne_now env NowCSVState)) in
      let! _ := act (UpdateSub out) in
      match ne_updateSub env out with
      | inl err => return_ (Some (ErrString ("error updating Subscription status: " +:+ Error_ err)))
      | inr updatedSub => go (updatedSub, true)
      end.

(** The loop over the subscriptions: their new values, and whether any was updated. *)
Fixpoint ensureStates (failForwardEnabled : bool) (subs : list Subscription) : NS (list Subscription * bool) :=
  match subs with
  | [] => go ([], false)
  | sub :: subs' =>
      let! r := orReturn (ensureSubscriptionInstallPlanState failForwardEnabled sub) in
      let '(sub, changedIP) := r in
      let! r := ensureSubscriptionCSVState failForwardEnabled sub in
      let '(sub, changedCSV) := r in
      let! r := ensureStates failForwardEnabled subs' in
      let '(subs', updated) := r in
      go (sub :: subs', changedIP || changedCSV || updated)
  end.

(** ** Unpacking bundles *)

(** The accumulator of the loop: the lookups done, the steps, the errors, and whether all is unpacked. *)
Record Unpacking := mkUnpacking { un_lookups : list BundleLookup; un_steps : list Step; un_errs : list error; un_unpacked : bool }.

(** The manifests become references to the config map; a step whose reference cannot be generated
    keeps its manifest. *)
Definition referManifests (res : BundleUnpackResult Bundle) (bundleSteps : list Step) : list Step * list error :=
  let lookup := ur_BundleLookup res in
  let ref := mkUnpackedRef "ConfigMap" (ur_name res) (or_Namespace (bl_CatalogSourceRef lookup)) (or_Name (bl_CatalogSourceRef lookup))
               (or_Namespace (bl_CatalogSourceRef lookup)) (bl_Replaces lookup) (bl_Properties lookup) in
  match ne_marshal env ref with
  | inl err => (bundleSteps, (fun _ => ErrString ("failed to generate reference for configmap: " +:+ Error_ err)) <$> bundleSteps)
  | inr r =>
      ((fun s => let r0 := step_Resource s in
                 mkStep (step_Resolving s) (mkStepResource (sr_CatalogSource r0) (sr_CatalogSourceNamespace r0) (sr_Group r0) (sr_Version r0) (sr_Kind r0)
                   (sr_Name r0) r) (step_Optional s) (step_Status s)) <$> bundleSteps, [])
  end.

(** One lookup; a fatal error ends the loop. *)
Definition unpackOne (namespace : string) (unpackTimeout unpackRetryInterval : Z) (acc : Unpacking) (lookup : BundleLookup) : error + Unpacking :=
  let '(mkUnpacking lookups steps errs unpacked) := acc in
  match ne_unpack env lookup unpackTimeout unpackRetryInterval with
  | inl err => inr (mkUnpacking (lookups ++ [lookup]) steps (errs ++ [err]) unpacked)
  | inr res =>
      let out := ur_BundleLookup res in
      if bool_decide (blc_Status (Lookup_GetCondition out BundleLookupFailed) = ConditionTrue)
         || bool_decide (blc_Status (Lookup_GetCondition out BundleLookupPending) = ConditionTrue)
      then inr (mkUnpacking (lookups ++ [out]) steps errs false)
      else if bool_decide (blc_Status (Lookup_GetCondition out BundleLookupConditionPacked) = ConditionUnknown)
      then inr (mkUnpacking (lookups ++ [out]) steps errs unpacked)
      else
        match ne_newSteps env (ur_bundle res) namespace (bl_Replaces out) (or_Name (bl_CatalogSourceRef out)) (or_Namespace (bl_CatalogSourceRef out)) with
        | inl err =>
            if IsFatal (Some err) then inl err
            else inr (mkUnpacking (lookups ++ [out]) steps (errs ++ [ErrString ("failed to turn bundle into steps: " +:+ Error_ err)]) false)
        | inr bundleSteps =>
            let '(bundleSteps, refErrs) := referManifests res bundleSteps in
            inr (mkUnpacking (lookups ++ [Lookup_RemoveCondition out BundleLookupConditionPacked]) (steps ++ bundleSteps) (errs ++ refErrs)
                   (unpacked && bool_decide (refErrs = [])))
        end
  end.

Fixpoint unpackLoop (namespace : string) (unpackTimeout unpackRetryInterval : Z) (acc : Unpacking) (lookups : list BundleLookup) : error + Unpacking :=
  match lookups with
  | [] => inr acc
  | lookup :: lookups' =>
      match unpackOne namespace unpackTimeout unpackRetryInterval acc lookup with
      | inl err => inl err
      | inr acc => unpackLoop namespace unpackTimeout unpackRetryInterval acc lookups'
      end
  end.

Definition unpackBundles (namespace : string) (steps : list Step) (bundleLookups : list BundleLookup) (unpackTimeout unpackRetryInterval : Z)
    : error + (bool * list Step * list BundleLookup) :=
  match unpackLoop namespace unpackTimeout unpackRetryInterval (mkUnpacking [] steps [] true) bundleLookups with
  | inl err => inl err
  | inr acc =>
      match NewAggregate (un_errs acc) with
      | Some err => inl err
      | None => inr (un_unpacked acc, un_steps acc, un_lookups acc)
      end
  end.

(** ** Writing the statuses *)

(** [retry.RetryOnConflict] with [retry.DefaultRetry]: at most five attempts, another one only
    after a conflict.  Each attempt writes the status on the latest revision. *)
Definition retrySteps : nat := 5.
Fixpoint storeStatus (steps attempt : nat) (sub : Subscription) : list Action * option error :=
  match steps with
  | O => ([], None)
  | S steps' =>
      match ne_getSub env attempt (sub_Namespace sub) (sub_Name sub) with
      | inl err => if IsConflict (Some err) && negb (steps' =? 0)%nat then storeStatus steps' (S attempt) sub else ([], Some err)
      | inr latest =>
          let latest := setSubStatus latest (sub_Status sub) in
          let err := ne_updateStatus env attempt latest in
          if IsConflict err && negb (steps' =? 0)%nat
          then let '(l, r) := storeStatus steps' (S attempt) latest in (WriteStatus latest :: l, r)
          else ([WriteStatus latest], err)
      end
  end.

(** One goroutine per subscription: each writes its own subscription only, so that they are listed
    here in the order of the list. *)
Definition updateSubscriptionStatuses (subs : list Subscription) : NS unit :=
  let rs := storeStatus retrySteps 0 <$> subs in
  let! _ := acts (rs ≫= fst) in
  match NewAggregate (omap snd rs) with Some err => return_ (Some err) | None => go tt end.

(** Set a condition on all subscriptions, write those that changed, and return. *)
Definition reportCond {A} (type reason message : string) (subs : list Subscription) (err : option error) : NS A :=
  let! _ := updateSubscriptionStatuses (setSubsCond (ne_now env NowSetCond) (mkSubCond type ConditionTrue reason message None None) subs) in
  return_ err.

(** ** The sync of a namespace *)

Definition subGeneration (sub : Subscription) : Z := su_InstallPlanGeneration (sub_Status sub).
Definition maxGenerationOf (gens : list Z) : Z := foldl Z.max 0%Z gens.

(** Unpack what has to be unpacked, or report why not. *)
Definition unpackPhase (namespace : string) (subs : list Subscription) (unpackTimeout minUnpackRetryInterval : Z)
    (steps : list Step) (bundleLookups : list BundleLookup) : NS (list Step * list BundleLookup) :=
  match bundleLookups with
  | [] => go (steps, bundleLookups)
  | _ =>
      match unpackBundles namespace steps bundleLookups unpackTimeout minUnpackRetryInterval with
      | inl err =>
          if IsFatal (Some err) then reportCond SubscriptionBundleUnpackFailed "ErrorPreventedUnpacking" (Error_ err) subs None
          else return_ (Some (ErrString ("bundle unpacking failed with an error: " +:+ Error_ err)))
      | inr (unpacked, steps, bundleLookups) =>
          match hasBundleLookupFailureCondition bundleLookups with
          | Some cond =>
              reportCond SubscriptionBundleUnpackFailed "BundleUnpackFailed"
                ("bundle unpacking failed. Reason: " +:+ blc_Reason cond +:+ ", and Message: " +:+ blc_Message cond) subs None
          | None =>
              if negb unpacked then
                let! _ := updateSubscriptionStatuses (setSubsCond (ne_now env NowSetCond)
                            (mkSubCond SubscriptionBundleUnpacking ConditionTrue "UnpackingInProgress" "" None None) subs) in
                let! _ := act RequeueAfter in
                return_ None
              else go (steps, bundleLookups)
          end
      end
  end.

Definition approvalOf (subs : list Subscription) : string :=
  if existsb (fun sub => bool_decide (ss_InstallPlanApproval (sub_Spec sub) = ApprovalManual)) subs then ApprovalManual else ApprovalAutomatic.

Definition planAction (w : PlanWrite) : Action := match w with Creates p => CreatePlan p | SendsStatus p => UpdatePlan p end.

(** Ensure the install plan, if anything was updated: the updated subscriptions, referring to it. *)
Definition planPhase (namespace : string) (subs : list Subscription) (maxGeneration : Z)
    (steps : list Step) (bundleLookups : list BundleLookup) (updatedSubs : list Subscription) : NS (list Subscription) :=
  match updatedSubs with
  | [] => go []
  | _ =>
      let! installPlans := orReturn (ne_listPlans env ListForGeneration) in
      let gen := (foldl Z.max maxGeneration (ip_Generation <$> installPlans) + 1)%Z in
      let '(writes, ref) :=
        ensureInstallPlan (mkCreateEnv (ne_listPlans env ListForEnsure) (ne_create env) (ne_updatePlan env) (ne_getReference env))
          namespace gen subs (approvalOf subs) steps bundleLookups in
      let! _ := acts (planAction <$> writes) in
      match ref with
      | inl err =>
          let msg := "error ensuring InstallPlan: " +:+ Error_ err in
          reportCond SubscriptionBundleUnpackFailed "EnsureInstallPlanFailed" msg subs (Some (ErrString msg))
      | inr ref => go (setIPReference (ne_now env NowReference) gen ref updatedSubs)
      end
  end.

(** Replace the subscription of the same name, or add a new one. *)
Fixpoint replaceSub (updatedSub : Subscription) (subs : list Subscription) : list Subscription :=
  match subs with
  | [] => [updatedSub]
  | sub :: subs' =>
      if bool_decide (sub_Name sub = sub_Name updatedSub) && bool_decide (sub_Namespace sub = sub_Namespace updatedSub)
      then updatedSub :: subs' else sub :: replaceSub updatedSub subs'
  end.
Definition mergeUpdated (updatedSubs subs : list Subscription) : list Subscription :=
  foldl (fun subs updatedSub =>
    replaceSub (setSubStatus updatedSub (RemoveConditions (sub_Status updatedSub) [SubscriptionResolutionFailed])) subs) subs updatedSubs.

(** The subscriptions without the conditions about unpacking and resolution. *)
Definition clearConds (subs : list Subscription) : list Subscription :=
  let clear t := removeSubsCond (ne_now env (NowRemoveCond t)) t in
  clear SubscriptionResolutionFailed (clear SubscriptionBundleUnpackFailed (clear SubscriptionBundleUnpacking subs)).

Definition resolvePhase (namespace : string) (subs : list Subscription) (maxGeneration unpackTimeout minUnpackRetryInterval : Z) : NS unit :=
  match ne_resolve env with
  | inl (ErrNotSatisfiable msg as err) => reportCond SubscriptionResolutionFailed "ConstraintsNotSatisfiable" msg subs None
  | inl err => reportCond SubscriptionResolutionFailed "ErrorPreventedResolution" (Error_ err) subs (Some err)
  | inr (steps, bundleLookups, updatedSubs) =>
      let! r := unpackPhase namespace subs unpackTimeout minUnpackRetryInterval steps bundleLookups in
      let '(steps, bundleLookups) := r in
      let! updatedSubs := planPhase namespace subs maxGeneration steps bundleLookups updatedSubs in
      updateSubscriptionStatuses (mergeUpdated updatedSubs (clearConds subs))
  end.

Definition syncNamespace (namespace : string) : NS unit :=
  let! _ := acts (DeletePlan <$> gcInstallPlans (ne_plansCache env)) in
  let! subs := orReturn (ne_listSubs env) in
  match subs with
  | [] => return_ None
  | _ =>
      let! failForwardEnabled := orReturn (IsFailForwardEnabled (ne_groups env)) in
      let! unpackTimeout := orReturn (OperatorGroupBundleUnpackTimeout (ne_parseDuration env) (ne_groups env)) in
      let! minUnpackRetryInterval := orReturn (OperatorGroupBundleUnpackRetryInterval (ne_parseDuration env) (ne_groups env)) in
      let maxGeneration := maxGenerationOf (subGeneration <$> subs) in
      let! r := ensureStates failForwardEnabled subs in
      let '(subs, subscriptionUpdated) := r in
      if subscriptionUpdated then return_ None
      else if negb (existsb (fun sub => negb (nothingToUpdate sub)) subs) then return_ None
      else resolvePhase namespace subs maxGeneration unpackTimeout minUnpackRetryInterval
  end.

(** The actions and the error of a sync. *)
Definition syncResolvingNamespace (namespace : string) : list Action * option error :=
  match syncNamespace namespace with
  | (l, inl err) => (l, err)
  | (l, inr _) => (l, None)
  end.
End sync.

(** ** What a sync does *)

(** All actions of a computation satisfy [P]. *)
Definition allActs (P : Action -> Prop) {A} (m : NS A) : Prop := Forall P m.1.

Section acts.
Context (P : Action -> Prop).

Lemma allActs_then {A B} (m : NS A) (k : A -> NS B) :
  allActs P m -> (forall x, m.2 = inr x -> allActs P (k x)) -> allActs P (andThen m k).
Proof.
  unfold allActs. destruct m as [l [err|x]]; simpl; [done|]. intros Hl Hk. specialize (Hk x eq_refl).
  destruct (k x) as [l' r]. simpl in *. by apply Forall_app.
Qed.
Lemma allActs_go {A} (x : A) : allActs P (go x).
Proof. apply Forall_nil_2. Qed.
Lemma allActs_return {A} err : allActs P (return_ (A := A) err).
Proof. apply Forall_nil_2. Qed.
Lemma allActs_orReturn {A} (r : error + A) : allActs P (orReturn r).
Proof. destruct r; apply Forall_nil_2. Qed.
Lemma allActs_act a : P a -> allActs P (act a).
Proof. intros Ha. by apply Forall_singleton. Qed.
End acts.

Lemma then_ok {A B} (m : NS A) (k : A -> NS B) l r : andThen m k = (l, inr r) ->
  exists l1 x l2, m = (l1, inr x) /\ k x = (l2, inr r) /\ l = l1 ++ l2.
Proof.
  destruct m as [l1 [err|x]]; simpl; [done|]. destruct (k x) as [l2 r'] eqn:E. intros [= <- ->]. by exists l1, x, l2.
Qed.

Lemma orReturn_ok {A} (r : error + A) l x : orReturn r = (l, inr x) -> l = [] /\ r = inr x.
Proof. destruct r; simpl; [done|]. by intros [= <- <-]. Qed.

Lemma omap_none {A B} (f : A -> option B) (l : list A) : (forall x, x ∈ l -> f x = None) -> omap f l = [].
Proof.
  induction l as [|x l IH]; intros Hf; [done|]. cbn. rewrite (Hf x) by apply list_elem_of_here.
  apply IH. intros y Hy. by apply Hf, list_elem_of_further.
Qed.

Lemma orReturn_snd {A} (r : error + A) x : (orReturn r).2 = inr x -> r = inr x.
Proof. destruct r; simpl; [done|]. by intros [= <-]. Qed.

Section sync_facts.
Context {Bundle : Type} `{RangeOrder, SortLib} (env : NsEnv Bundle).

(** When no subscription is updated, none is changed and nothing is done. *)
Lemma ensureStates_unchanged ff subs l subs' :
  ensureStates env ff subs = (l, inr (subs', false)) -> l = [] /\ subs' = subs.
Proof.
  revert l subs'. induction subs as [|sub subs IH]; intros l subs'; [by intros [= <- <-]|]. cbn [ensureStates].
  intros (l1 & [sub1 c1] & l2 & E1 & E & ->)%then_ok. apply then_ok in E as (l3 & [sub2 c2] & l4 & E2 & E & ->).
  apply then_ok in E as (l5 & [subs3 c3] & l6 & E3 & E & ->). injection E as <- <- Hc.
  apply orb_false_iff in Hc as [Hc ->]. apply orb_false_iff in Hc as [-> ->]. apply IH in E3 as [-> ->].
  assert (l1 = [] /\ sub1 = sub) as [-> ->].
  { apply orReturn_ok in E1 as [-> E1]. split; [done|]. revert E1. unfold ensureSubscriptionInstallPlanState.
    case_match; [by intros [= <-]|]. case_match; [|by intros [= <-]]. case_match; [done|]. case_match; done. }
  assert (l3 = [] /\ sub2 = sub) as [-> ->]; [|done].
  revert E2. unfold ensureSubscriptionCSVState. case_bool_decide; [by intros [= <- <-]|].
  destruct (csvState env ff sub) as [state csv]. case_bool_decide; [by intros [= <- <-]|].
  unfold andThen, act. by destruct (ne_updateSub _ _).
Qed.

Lemma ensureStates_acts ff subs : allActs (fun a => exists s, a = UpdateSub s) (ensureStates env ff subs).
Proof.
  induction subs as [|sub subs IH]; [apply allActs_go|]. cbn [ensureStates].
  apply allActs_then; [apply allActs_orReturn|]. intros [sub1 c1] _.
  apply allActs_then; [|intros [sub2 c2] _; apply allActs_then; [done|]; intros [subs3 c3] _; apply allActs_go].
  unfold ensureSubscriptionCSVState. case_bool_decide; [apply allActs_go|]. destruct (csvState env ff sub1) as [state csv].
  case_bool_decide; [apply allActs_go|]. apply allActs_then; [apply allActs_act; by eexists|]. intros _ _.
  destruct (ne_updateSub _ _); [apply allActs_return|apply allActs_go].
Qed.

Lemma storeStatus_acts steps attempt sub : Forall (fun a => exists s, a = WriteStatus s /\ sub_Status s = sub_Status sub) (storeStatus env steps attempt sub).1.
Proof.
  revert attempt sub. induction steps as [|steps IH]; intros attempt sub; cbn [storeStatus]; [constructor|].
  destruct (ne_getSub _ _ _ _) as [err|latest].
  - destruct (IsConflict _ && _); [apply IH|constructor].
  - destruct (IsConflict _ && _); [|apply Forall_singleton; by eexists].
    specialize (IH (S attempt) (setSubStatus latest (sub_Status sub))). destruct (storeStatus _ _ _ _) as [l r].
    constructor; [by eexists|exact IH].
Qed.

Lemma updateStatuses_acts subs :
  allActs (fun a => exists s sub, a = WriteStatus s /\ sub ∈ subs /\ sub_Status s = sub_Status sub) (updateSubscriptionStatuses env subs).
Proof.
  unfold updateSubscriptionStatuses. apply allActs_then.
  - unfold allActs, acts. simpl. apply Forall_forall. intros a (r & Ha & Hr)%list_elem_of_bind.
    apply list_elem_of_fmap in Hr as (sub & -> & Hsub). pose proof (storeStatus_acts retrySteps 0 sub) as Hs.
    rewrite Forall_forall in Hs. destruct (Hs a Ha) as (s & -> & Hst). by exists s, sub.
  - intros _ _. destruct (NewAggregate _); [apply allActs_return|apply allActs_go].
Qed.

(** *** Install plans *)

Definition isManual (sub : Subscription) : Prop := ss_InstallPlanApproval (sub_Spec sub) = ApprovalManual.

(** A plan that is written is newer than everything the sync has seen, and approved from the start
    only when no subscription of the namespace asks for manual approval. *)
Definition planSafe (subs : list Subscription) (a : Action) : Prop :=
  match a with
  | CreatePlan p =>
      (forall sub, sub ∈ subs -> subGeneration sub < ip_Generation p)%Z /\
      (forall plans q, ne_listPlans env ListForGeneration = inr plans -> q ∈ plans -> ip_Generation q < ip_Generation p)%Z /\
      (forall plans q, ne_listPlans env ListForEnsure = inr plans -> q ∈ plans -> ip_Generation q <> ip_Generation p) /\
      (ips_Approved (ip_Spec p) = true <-> forall sub, sub ∈ subs -> ~ isManual sub)
  | UpdatePlan p =>
      ipt_Phase (ip_Status p) = InstallPlanPhaseRequiresApproval \/
      (ipt_Phase (ip_Status p) = InstallPlanPhaseInstalling /\ forall sub, sub ∈ subs -> ~ isManual sub)
  | _ => True
  end.

Lemma foldl_max_ge l z : (z <= foldl Z.max z l)%Z /\ forall x, x ∈ l -> (x <= foldl Z.max z l)%Z.
Proof using.
  revert z. induction l as [|y l IH]; intros z; simpl; [split; [lia|by intros ? ?%elem_of_nil]|].
  destruct (IH (Z.max z y)) as [H1 H2]. split; [lia|]. intros x [->|Hx]%elem_of_cons; [lia|by apply H2].
Qed.

Lemma approvalOf_spec subs :
  (approvalOf subs = ApprovalAutomatic /\ forall sub, sub ∈ subs -> ~ isManual sub) \/
  (approvalOf subs = ApprovalManual /\ exists sub, sub ∈ subs /\ isManual sub).
Proof using.
  unfold approvalOf. destruct (existsb _ subs) eqn:E; [right|left]; (split; [done|]).
  - apply existsb_exists in E as (sub & Hin%list_elem_of_In & Hm). exists sub. split; [done|]. by apply bool_decide_eq_true in Hm.
  - intros sub Hin Hm. apply not_true_iff_false in E. apply E, existsb_exists. exists sub. split; [by apply list_elem_of_In|by apply bool_decide_true].
Qed.

Lemma reportCond_safe {A} subs0 type reason message subs err : allActs (planSafe subs0) (reportCond env (A := A) type reason message subs err).
Proof.
  apply allActs_then; [|intros; apply allActs_return]. eapply Forall_impl; [apply updateStatuses_acts|]. by intros a (s & sub & -> & _).
Qed.

Lemma ensureInstallPlan_safe subs namespace gen steps lookups creates :
  creates = mkCreateEnv (ne_listPlans env ListForEnsure) (ne_create env) (ne_updatePlan env) (ne_getReference env) ->
  (forall sub, sub ∈ subs -> subGeneration sub < gen)%Z ->
  (forall plans q, ne_listPlans env ListForGeneration = inr plans -> q ∈ plans -> ip_Generation q < gen)%Z ->
  Forall (planSafe subs) (planAction <$> (ensureInstallPlan creates namespace gen subs (approvalOf subs) steps lookups).1).
Proof.
  intros -> Hs Hp.
  assert ((forall plans q, ne_listPlans env ListForEnsure = inr plans -> q ∈ plans -> ip_Generation q <> gen) ->
    planSafe subs (CreatePlan (newPlan namespace gen subs (approvalOf subs) steps))) as Hc.
  { intros Hfree. split_and!; [exact Hs|exact Hp|exact Hfree|]. cbn. rewrite bool_decide_eq_true.
    destruct (approvalOf_spec subs) as [[-> Hn]|[-> (sub & Hin & Hm)]]; [done|]. split; [done|]. intros Hn. by destruct (Hn sub). }
  unfold ensureInstallPlan, createInstallPlan. destruct (_ && _); [constructor|]. cbn [cr_list].
  destruct (ne_listPlans env ListForEnsure) as [err|plans]; [constructor|]. destruct (List.find _ _) eqn:Ef; [constructor|]. cbn [cr_create].
  specialize (Hc ltac:(intros ps q [= <-] Hq Hg; apply find_none_elem_of with (x := q) in Ef; [|done]; by rewrite bool_decide_eq_true_2 in Ef)).
  destruct (ne_create env _) as [err|res]; cbn; [by apply Forall_singleton|]. constructor; [exact Hc|]. apply Forall_singleton. cbn.
  destruct (approvalOf_spec subs) as [[-> Hn]|[-> _]]; [right; by split|by left].
Qed.

Lemma planPhase_safe namespace subs steps lookups updated :
  allActs (planSafe subs) (planPhase env namespace subs (maxGenerationOf (subGeneration <$> subs)) steps lookups updated).
Proof.
  unfold planPhase. destruct updated as [|u updated]; [apply allActs_go|]. set (updatedSubs := u :: updated). clearbody updatedSubs. set (maxGen := maxGenerationOf _).
  apply allActs_then; [apply allActs_orReturn|]. intros plans Hplans. apply orReturn_snd in Hplans.
  pose proof (foldl_max_ge (ip_Generation <$> plans) maxGen) as [Hmax Hge].
  pose proof (foldl_max_ge (subGeneration <$> subs) 0) as [_ Hsubs].
  destruct (ensureInstallPlan _ _ _ _ _ _ _) as [writes ref] eqn:E. apply allActs_then.
  - unfold allActs, acts. cbn [fst]. replace writes with (ensureInstallPlan (mkCreateEnv (ne_listPlans env ListForEnsure) (ne_create env) (ne_updatePlan env) (ne_getReference env))
      namespace (foldl Z.max maxGen (ip_Generation <$> plans) + 1) subs (approvalOf subs) steps lookups).1 by (by rewrite E).
    apply ensureInstallPlan_safe; [done| |].
    + intros sub Hin. specialize (Hsubs (subGeneration sub)). unfold maxGen, maxGenerationOf in *.
      assert (subGeneration sub ∈ subGeneration <$> subs) as Hin' by (by apply list_elem_of_fmap_2).
      apply Hsubs in Hin'. lia.
    + intros plans' q Hp Hq. rewrite Hplans in Hp. injection Hp as <-. specialize (Hge (ip_Generation q)).
      assert (ip_Generation q ∈ ip_Generation <$> plans) as Hin by (by apply list_elem_of_fmap_2). apply Hge in Hin. lia.
  - intros _ _. destruct ref; [apply reportCond_safe|apply allActs_go].
Qed.

Lemma unpackPhase_safe subs0 namespace subs timeout retry steps lookups : allActs (planSafe subs0) (unpackPhase env namespace subs timeout retry steps lookups).
Proof.
  unfold unpackPhase. destruct lookups as [|l lookups]; [apply allActs_go|].
  destruct (unpackBundles _ _ _ _ _ _) as [err|[[unpacked steps'] lookups']].
  - destruct (IsFatal _); [apply reportCond_safe|apply allActs_return].
  - destruct (hasBundleLookupFailureCondition _); [apply reportCond_safe|]. destruct (negb unpacked); [|apply allActs_go].
    apply allActs_then; [eapply Forall_impl; [apply updateStatuses_acts|]; by intros a (s & sub & -> & _)|].
    intros _ _. apply allActs_then; [by apply allActs_act|intros; apply allActs_return].
Qed.

Lemma resolvePhase_safe namespace subs timeout retry :
  allActs (planSafe subs) (resolvePhase env namespace subs (maxGenerationOf (subGeneration <$> subs)) timeout retry).
Proof.
  unfold resolvePhase. destruct (ne_resolve env) as [err|[[steps lookups] updated]].
  { destruct err; apply reportCond_safe. }
  apply allActs_then; [apply unpackPhase_safe|]. intros [steps' lookups'] _.
  apply allActs_then; [apply planPhase_safe|]. intros updated' _.
  eapply Forall_impl; [apply updateStatuses_acts|]. by intros a (s & sub & -> & _).
Qed.

(** C26: an install plan that a sync of a namespace creates is newer than every plan it listed for the
    generation and than every generation recorded on a subscription of the namespace, so that generations grow, and no
    plan of its generation was listed when it was created; it is
    created approved exactly when no subscription of the namespace asks for manual approval, and
    its status lets it be installed only in that case.  It holds whatever the resolver, the
    unpacker and the cluster answer. *)
Theorem syncResolvingNamespace_plan_safe (namespace : string) (subs : list Subscription) (a : Action) :
  ne_listSubs env = inr subs -> a ∈ (syncResolvingNamespace env namespace).1 -> planSafe subs a.
Proof.
  intros Hsubs. assert (allActs (planSafe subs) (syncNamespace env namespace)) as Hall.
  { unfold syncNamespace. rewrite Hsubs. apply allActs_then.
    { unfold allActs, acts. cbn [fst]. apply Forall_forall. by intros x (p & -> & _)%list_elem_of_fmap. }
    intros _ _. apply allActs_then; [apply allActs_orReturn|]. intros subs' [= <-]. destruct subs as [|sub subs]; [apply allActs_return|].
    set (l := sub :: subs) in *. clearbody l. do 3 (apply allActs_then; [apply allActs_orReturn|]; intros ? _).
    apply allActs_then; [eapply Forall_impl; [apply ensureStates_acts|]; by intros ? (? & ->)|].
    intros [subs' updated] Hens. destruct updated; [apply allActs_return|]. destruct (ensureStates env _ l) as [acts' r] eqn:E. simpl in Hens. subst r.
    apply ensureStates_unchanged in E as [_ ->]. destruct (negb _); [apply allActs_return|]. apply resolvePhase_safe. }
  unfold allActs in Hall. rewrite Forall_forall in Hall. unfold syncResolvingNamespace. intros Ha. apply Hall. revert Ha.
  by destruct (syncNamespace env namespace) as [l [err|u]].
Qed.

(** *** A resolution that fails *)

Definition failureCond (err : error) : SubscriptionCondition :=
  match err with
  | ErrNotSatisfiable msg => mkSubCond SubscriptionResolutionFailed ConditionTrue "ConstraintsNotSatisfiable" msg None None
  | err => mkSubCond SubscriptionResolutionFailed ConditionTrue "ErrorPreventedResolution" (Error_ err) None None
  end.
(** Only an error that trying again may mend is returned. *)
Definition failureErr (err : error) : option error := match err with ErrNotSatisfiable _ => None | err => Some err end.
Definition reported (err : error) (sub : Subscription) : Prop :=
  Cond_Equals (GetCondition (sub_Status sub) SubscriptionResolutionFailed) (failureCond err) = true.

Lemma resolvePhase_fails namespace subs maxGen timeout retry err :
  ne_resolve env = inl err ->
  resolvePhase env namespace subs maxGen timeout retry =
    andThen (updateSubscriptionStatuses env (setSubsCond (ne_now env NowSetCond) (failureCond err) subs)) (fun _ => return_ (failureErr err)).
Proof. intros Hr. unfold resolvePhase. rewrite Hr. by destruct err. Qed.

Lemma setSubsCond_elem now cond subs s :
  s ∈ setSubsCond now cond subs <-> exists sub, sub ∈ subs /\ Cond_Equals (GetCondition (sub_Status sub) (sc_Type cond)) cond = false /\
    s = setSubStatus sub (SetCondition (setLastUpdated (sub_Status sub) now) cond).
Proof using.
  unfold setSubsCond. rewrite list_elem_of_fmap. split.
  - intros (sub & -> & [Hin Hc]%list_elem_of_In%filter_In). exists sub. split_and!; [by apply list_elem_of_In|by apply negb_true_iff|done].
  - intros (sub & Hin & Hc & ->). exists sub. split; [done|]. apply list_elem_of_In, filter_In. split; [by apply list_elem_of_In|by apply negb_true_iff].
Qed.

(** A failed resolution is reported on the subscriptions of the namespace, and reported once:
    every status that is written says that the resolution failed, and why; a subscription that
    already says so is left alone, so that when all of them do nothing is written at all and the
    reports do not trigger syncs forever.  The error is returned, to be tried again, unless the
    constraints cannot be satisfied. *)
Theorem resolution_failure_reported (namespace : string) (subs : list Subscription) (maxGen timeout retry : Z) (err : error) :
  ne_resolve env = inl err ->
  let r := resolvePhase env namespace subs maxGen timeout retry in
  (forall a, a ∈ r.1 -> exists s, a = WriteStatus s /\ reported err s) /\
  ((forall sub, sub ∈ subs -> reported err sub) -> r = ([], inl (failureErr err))) /\
  (r.2 = inl (failureErr err) \/ exists e, r.2 = inl (Some e)).
Proof.
  intros Hr r. unfold r. rewrite resolvePhase_fails with (err := err) by done. clear r.
  assert (sc_Type (failureCond err) = SubscriptionResolutionFailed) as Ht by (by destruct err). split_and!.
  - assert (allActs (fun a => exists s, a = WriteStatus s /\ reported err s)
      (andThen (updateSubscriptionStatuses env (setSubsCond (ne_now env NowSetCond) (failureCond err) subs)) (fun _ => return_ (A := unit) (failureErr err)))) as Hall.
    { apply allActs_then; [|intros; apply allActs_return]. eapply Forall_impl; [apply updateStatuses_acts|].
      intros a (s & sub & -> & Hin & Hs). exists s. split; [done|]. apply setSubsCond_elem in Hin as (sub0 & _ & _ & ->).
      unfold reported. rewrite Hs. cbn [sub_Status setSubStatus]. rewrite GetCondition_Set, Ht, bool_decide_true by done. by apply Cond_Equals_true. }
    unfold allActs in Hall. rewrite Forall_forall in Hall. exact Hall.
  - intros Hall. assert (setSubsCond (ne_now env NowSetCond) (failureCond err) subs = []) as ->; [|done].
    destruct (setSubsCond _ _ _) as [|s l] eqn:E; [done|]. exfalso. assert (s ∈ s :: l) as Hs by apply list_elem_of_here.
    rewrite <- E in Hs. apply setSubsCond_elem in Hs as (sub & Hin & Hc & _). rewrite Ht in Hc. unfold reported in Hall. rewrite (Hall sub Hin) in Hc. done.
  - unfold updateSubscriptionStatuses. destruct (NewAggregate _); simpl; [by right; eexists|by left].
Qed.

(** *** A resolution that succeeds *)

Section success.
(** The subscriptions are found, and their statuses stored. *)
Hypothesis Hget : forall n namespace name, exists latest, ne_getSub env n namespace name = inr latest /\ sub_Name latest = name /\ sub_Namespace latest = namespace.
Hypothesis Hput : forall n s, ne_updateStatus env n s = None.

Definition sameSub (s t : Subscription) : Prop := sub_Name s = sub_Name t /\ sub_Namespace s = sub_Namespace t.

Lemma updateStatuses_ok subs :
  (updateSubscriptionStatuses env subs).2 = inr tt /\
  forall sub, sub ∈ subs -> exists s, WriteStatus s ∈ (updateSubscriptionStatuses env subs).1 /\ sameSub s sub /\ sub_Status s = sub_Status sub.
Proof using Hget Hput.
  assert (forall sub, exists s, storeStatus env retrySteps 0 sub = ([WriteStatus s], None) /\ sameSub s sub /\ sub_Status s = sub_Status sub) as Hone.
  { intros sub. unfold retrySteps. cbn [storeStatus]. destruct (Hget 0 (sub_Namespace sub) (sub_Name sub)) as (latest & -> & Hn & Hns).
    rewrite Hput. by eexists. }
  unfold updateSubscriptionStatuses. assert (omap snd (storeStatus env retrySteps 0 <$> subs) = []) as ->.
  { apply omap_none. intros r (sub & -> & _)%list_elem_of_fmap. by destruct (Hone sub) as (s & -> & _). }
  simpl. rewrite app_nil_r. split; [done|]. intros sub Hin. destruct (Hone sub) as (s & E & Hs & Hst). exists s. split; [|done].
  apply list_elem_of_bind. exists ([WriteStatus s], None). split; [apply list_elem_of_here|]. rewrite <- E. by apply list_elem_of_fmap_2.
Qed.

Lemma replaceSub_here u subs : u ∈ replaceSub u subs.
Proof using. induction subs as [|s subs IH]; simpl; [apply list_elem_of_here|]. destruct (_ && _); [apply list_elem_of_here|by apply list_elem_of_further]. Qed.
Lemma replaceSub_other u subs s : s ∈ subs -> ~ sameSub s u -> s ∈ replaceSub u subs.
Proof using.
  intros Hin Hne. induction subs as [|t subs IH]; [by apply elem_of_nil in Hin|]. simpl. destruct (_ && _) eqn:E.
  - apply elem_of_cons in Hin as [->|Hin]; [|by apply list_elem_of_further]. apply andb_true_iff in E as [E1 E2]. bools. by destruct Hne.
  - apply elem_of_cons in Hin as [->|Hin]; [apply list_elem_of_here|by apply list_elem_of_further, IH].
Qed.

(** The status of an updated subscription that is written. *)
Definition finalStatus (u : Subscription) : Subscription := setSubStatus u (RemoveConditions (sub_Status u) [SubscriptionResolutionFailed]).

Lemma mergeUpdated_spec updated subs :
  (forall s, s ∈ subs -> (forall u, u ∈ updated -> ~ sameSub s u) -> s ∈ mergeUpdated updated subs) /\
  (NoDup ((fun u => (sub_Name u, sub_Namespace u)) <$> updated) -> forall u, u ∈ updated -> finalStatus u ∈ mergeUpdated updated subs).
Proof using.
  revert subs. induction updated as [|u updated IH]; intros subs; [split; [done|by intros _ ? ?%elem_of_nil]|]. simpl.
  destruct (IH (replaceSub (finalStatus u) subs)) as [IH1 IH2]. split.
  - intros s Hs Hne. apply IH1; [|intros; apply Hne; by apply list_elem_of_further].
    apply replaceSub_other; [done|]. exact (Hne u (list_elem_of_here _ _)).
  - intros [Hu Hnd]%NoDup_cons v [->|Hv]%elem_of_cons; [|by apply IH2]. apply IH1; [apply replaceSub_here|].
    intros v Hv [Hn Hns]. apply Hu. apply list_elem_of_fmap. exists v. split; [|done]. exact (f_equal2 pair Hn Hns).
Qed.

(** The plan that the subscriptions are to refer to: one of the generation that was there, or the one that is created,
    as it is after its status was written. *)
Definition planFor (namespace : string) (subs : list Subscription) (steps : list Step) (gen : Z) (plans' : list InstallPlan) (plan : InstallPlan) (writes : list Action) : Prop :=
  writes = [] /\ plan ∈ plans' /\ ip_Generation plan = gen \/
  exists p stored, p = newPlan namespace gen subs (approvalOf subs) steps /\ ne_create env p = inr stored /\
    let q := setPlanStatus stored (newPlanStatus (approvalOf subs) steps []) in
    writes = [CreatePlan p; UpdatePlan q] /\ ne_updatePlan env q = inr plan.

Lemma planPhase_ok namespace subs maxGen steps updated plans plans' :
  steps <> [] -> updated <> [] -> ne_listPlans env ListForGeneration = inr plans -> ne_listPlans env ListForEnsure = inr plans' ->
  (forall p, exists q, ne_create env p = inr q) -> (forall p, exists q, ne_updatePlan env p = inr q) -> (forall p, exists ref, ne_getReference env p = inr ref) ->
  let gen := (foldl Z.max maxGen (ip_Generation <$> plans) + 1)%Z in
  exists plan ref writes, planFor namespace subs steps gen plans' plan writes /\ ne_getReference env plan = inr ref /\
    planPhase env namespace subs maxGen steps [] updated = (writes, inr (setIPReference (ne_now env NowReference) gen (Some ref) updated)).
Proof using.
  intros Hsteps Hupd Hplans Hplans' Hcr Hup Href gen. unfold planPhase. destruct updated as [|u0 updated]; [done|].
  set (l := u0 :: updated) in *. clearbody l. rewrite Hplans, Hplans'. cbn [orReturn andThen go]. fold gen. unfold ensureInstallPlan. cbn [cr_list].
  rewrite bool_decide_false by done. cbn [andb]. destruct (List.find _ plans') as [p|] eqn:E.
  - apply find_elem_of in E as [Hp Hg]. apply bool_decide_eq_true in Hg. destruct (Href p) as [ref Hr]. exists p, ref, []. unfold refOf. cbn [cr_getReference]. rewrite Hr.
    split; [by left|]. split; [done|reflexivity].
  - unfold createInstallPlan. rewrite bool_decide_false by done. cbn [andb cr_create]. set (p := newPlan _ _ _ _ _). destruct (Hcr p) as [stored Hc]. rewrite Hc.
    set (q := setPlanStatus stored _). cbn [cr_updateStatus]. destruct (Hup q) as [plan Hq]. rewrite Hq. unfold refOf. cbn [cr_getReference]. destruct (Href plan) as [ref Hr]. rewrite Hr.
    exists plan, ref, [CreatePlan p; UpdatePlan q]. split; [right; by exists p, stored|]. split; [done|reflexivity].
Qed.

(** *** The conditions that are cleared *)

Definition clearedTypes : list string := [SubscriptionBundleUnpacking; SubscriptionBundleUnpackFailed; SubscriptionResolutionFailed].
(** A condition stays when it is of another type, or when its status is unknown. *)
Definition staysCond (ts : list string) (st : SubscriptionStatus) (c : SubscriptionCondition) : bool :=
  negb (bool_decide (sc_Type c ∈ ts)) || bool_decide (sc_Status (GetCondition st (sc_Type c)) = ConditionUnknown).
Definition clearedStatus (ts : list string) (st : SubscriptionStatus) (now : Time) : SubscriptionStatus :=
  setLastUpdated (withSubConditions st (List.filter (staysCond ts st) (su_Conditions st))) now.

Lemma filter_ext_elem {A} (f g : A -> bool) l : (forall x, x ∈ l -> f x = g x) -> List.filter f l = List.filter g l.
Proof using. induction l as [|x l IH]; intros Hl; [done|]. cbn. rewrite (Hl x) by (by left). rewrite IH; [done|]. intros y Hy. apply Hl. by right. Qed.
Lemma filter_filter_andb {A} (f g : A -> bool) l : List.filter f (List.filter g l) = List.filter (fun x => g x && f x) l.
Proof using. induction l as [|x l IH]; [done|]. cbn. destruct (g x); cbn; [destruct (f x); by rewrite IH|done]. Qed.
Lemma findCond_filter (f : SubscriptionCondition -> bool) t l : (forall c, c ∈ l -> sc_Type c = t -> f c = true) -> findCond sc_Type t (List.filter f l) = findCond sc_Type t l.
Proof using.
  unfold findCond, hasType. induction l as [|c l IH]; intros Hf; [done|]. cbn. assert (forall y, y ∈ l -> sc_Type y = t -> f y = true) as Hl by (intros y Hy; apply Hf; by right).
  destruct (f c) eqn:Ef; cbn; [case_bool_decide; [done|by apply IH]|]. rewrite IH by done. case_bool_decide as Hc; [|done]. rewrite (Hf c) in Ef by (done || by left). done.
Qed.
Lemma removeSubCond_status now t ts sub0 st u : t ∉ ts -> sub_Status sub0 = clearedStatus ts st u ->
  exists u', sub_Status (removeSubCond now t sub0) = clearedStatus (t :: ts) st u'.
Proof using.
  intros Ht Hs. assert (GetCondition (sub_Status sub0) t = GetCondition st t) as Hg.
  { rewrite Hs. unfold GetCondition. change (su_Conditions (clearedStatus ts st u)) with (List.filter (staysCond ts st) (su_Conditions st)). rewrite findCond_filter; [done|]. intros c _ <-. unfold staysCond. by rewrite bool_decide_eq_false_2. }
  unfold removeSubCond. rewrite Hg. case_bool_decide as Hu; [exists u|exists now].
  - rewrite Hs. unfold clearedStatus. do 2 f_equal. apply filter_ext_elem. intros c _. unfold staysCond.
    destruct (decide (sc_Type c = t)) as [->|Hc]; [by rewrite Hu, (bool_decide_eq_true_2 (ConditionUnknown = ConditionUnknown)), !orb_true_r|].
    f_equal. f_equal. apply bool_decide_ext. rewrite elem_of_cons. tauto.
  - rewrite Hs. unfold clearedStatus, RemoveConditions, removeConds.
    cbn [setSubStatus sub_Status setLastUpdated withSubConditions su_CurrentCSV su_InstalledCSV su_Install su_State su_InstallPlanGeneration su_InstallPlanRef su_CatalogHealth su_Conditions su_LastUpdated].
    unfold withSubConditions, setLastUpdated. f_equal. rewrite filter_filter_andb. apply filter_ext_elem. intros c _. unfold staysCond. rewrite (bool_decide_ext (sc_Type c ∈ [t]) (sc_Type c = t)) by apply list_elem_of_singleton.
    destruct (decide (sc_Type c = t)) as [->|Hc].
    + rewrite (bool_decide_eq_true_2 (t = t)), (bool_decide_eq_true_2 (t ∈ t :: ts)), (bool_decide_eq_false_2 _ Hu) by (done || by left). by rewrite andb_false_r.
    + rewrite (bool_decide_eq_false_2 _ Hc), andb_true_r. f_equal. f_equal. apply bool_decide_ext. rewrite elem_of_cons. tauto.
Qed.
Lemma clearConds_spec subs sub0 : sub0 ∈ subs -> exists cleared now, cleared ∈ clearConds env subs /\ sameSub cleared sub0 /\ sub_Status cleared = clearedStatus clearedTypes (sub_Status sub0) now.
Proof using.
  intros Hin. unfold clearConds, removeSubsCond. set (f t := removeSubCond (ne_now env (NowRemoveCond t)) t).
  exists (f SubscriptionResolutionFailed (f SubscriptionBundleUnpackFailed (f SubscriptionBundleUnpacking sub0))).
  assert (exists u, sub_Status sub0 = clearedStatus [] (sub_Status sub0) u) as [u0 Hc0].
  { exists (su_LastUpdated (sub_Status sub0)). unfold clearedStatus. assert (List.filter (staysCond [] (sub_Status sub0)) (su_Conditions (sub_Status sub0)) = su_Conditions (sub_Status sub0)) as ->.
    { induction (su_Conditions (sub_Status sub0)) as [|c l IH]; [done|]. cbn. unfold staysCond at 1. rewrite bool_decide_eq_false_2 by (by intros ?%elem_of_nil). cbn. by rewrite IH. }
    by destruct (sub_Status sub0). }
  destruct (removeSubCond_status (ne_now env (NowRemoveCond SubscriptionBundleUnpacking)) SubscriptionBundleUnpacking [] sub0 _ _ ltac:(by intros ?%elem_of_nil) Hc0) as [u1 Hc1].
  destruct (removeSubCond_status (ne_now env (NowRemoveCond SubscriptionBundleUnpackFailed)) SubscriptionBundleUnpackFailed [SubscriptionBundleUnpacking] _ _ _ ltac:(apply (bool_decide_unpack _); vm_compute; exact I) Hc1) as [u2 Hc2].
  destruct (removeSubCond_status (ne_now env (NowRemoveCond SubscriptionResolutionFailed)) SubscriptionResolutionFailed [SubscriptionBundleUnpackFailed; SubscriptionBundleUnpacking] _ _ _ ltac:(apply (bool_decide_unpack _); vm_compute; exact I) Hc2) as [u3 Hc3].
  exists u3. split_and!; [by do 3 apply list_elem_of_fmap_2| |].
  - assert (forall t x, sameSub (f t x) x) as Hsame by (intros t x; unfold f, removeSubCond; by case_bool_decide).
    unfold sameSub in *. destruct (Hsame SubscriptionResolutionFailed (f SubscriptionBundleUnpackFailed (f SubscriptionBundleUnpacking sub0))) as [-> ->].
    destruct (Hsame SubscriptionBundleUnpackFailed (f SubscriptionBundleUnpacking sub0)) as [-> ->]. apply Hsame.
  - etrans; [exact Hc3|]. unfold clearedStatus. do 2 f_equal. apply filter_ext_elem. intros c _. unfold staysCond, clearedTypes. f_equal. f_equal. apply bool_decide_ext. rewrite !elem_of_cons. tauto.
Qed.

(** C27: a resolution that needs no unpacking ends in one install plan that the updated subscriptions refer to: when plans
    can be listed and created and the statuses stored, the sync succeeds; it creates one plan for the next generation,
    unless one of that generation has appeared; for every subscription the resolver updated a status is written with the
    CSV that was chosen, a reference to this very plan, its generation and the state of a pending upgrade, with every
    condition of it but the one about a failed resolution; every other subscription is written with its status, but without
    the conditions about unpacking and resolution, of which only those of an unknown status stay. *)
Theorem resolution_success (namespace : string) (subs : list Subscription) (maxGen timeout retry : Z)
    (steps : list Step) (updated : list Subscription) (plans plans' : list InstallPlan) :
  ne_resolve env = inr (steps, [], updated) -> steps <> [] -> updated <> [] ->
  NoDup ((fun u => (sub_Name u, sub_Namespace u)) <$> updated) ->
  ne_listPlans env ListForGeneration = inr plans -> ne_listPlans env ListForEnsure = inr plans' ->
  (forall p, exists q, ne_create env p = inr q) -> (forall p, exists q, ne_updatePlan env p = inr q) -> (forall p, exists ref, ne_getReference env p = inr ref) ->
  let r := resolvePhase env namespace subs maxGen timeout retry in
  let gen := (foldl Z.max maxGen (ip_Generation <$> plans) + 1)%Z in
  exists plan ref writes statuses, planFor namespace subs steps gen plans' plan writes /\ ne_getReference env plan = inr ref /\
    r = (writes ++ statuses, inr tt) /\
    (forall a, a ∈ statuses -> exists s, a = WriteStatus s) /\
    (forall u, u ∈ updated -> exists s, WriteStatus s ∈ statuses /\ sameSub s u /\
       su_CurrentCSV (sub_Status s) = su_CurrentCSV (sub_Status u) /\ su_InstallPlanRef (sub_Status s) = Some ref /\
       subGeneration s = gen /\ nothingToUpdate s = true /\
       su_Conditions (sub_Status s) = removeConds sc_Type [SubscriptionResolutionFailed] (su_Conditions (sub_Status u))) /\
    (forall sub, sub ∈ subs -> (forall u, u ∈ updated -> ~ sameSub sub u) ->
       exists s now, WriteStatus s ∈ statuses /\ sameSub s sub /\ sub_Status s = clearedStatus clearedTypes (sub_Status sub) now).
Proof using Hget Hput.
  intros Hr Hsteps Hupd Hnd Hplans Hplans' Hcr Hup Href r gen. unfold r, resolvePhase. rewrite Hr. cbn [unpackPhase].
  destruct (planPhase_ok namespace subs maxGen steps updated plans plans') as (plan & ref & writes & Hplan & Hpr & Heq); [done..|]. fold gen in Hplan, Heq.
  unfold go, andThen. rewrite Heq. clear Heq r. set (final := setIPReference _ gen (Some ref) updated).
  pose proof (updateStatuses_acts (mergeUpdated final (clearConds env subs))) as Hacts.
  destruct (updateStatuses_ok (mergeUpdated final (clearConds env subs))) as [Hok Hw].
  destruct (updateSubscriptionStatuses env _) as [l r]. unfold allActs in Hacts. cbn [fst snd app] in *. subst r. exists plan, ref, writes, l. split_and!; [done|done|done|..].
  - intros a Ha. eapply Forall_forall in Hacts as (s & sub & -> & _); [by exists s|done].
  - intros u Hu. set (f := fun sub => setSubStatus sub (mkSubStatus (su_CurrentCSV (sub_Status sub)) (su_InstalledCSV (sub_Status sub))
      (Some (NewInstallPlanReference ref)) SubscriptionStateUpgradePending gen (Some ref) (su_CatalogHealth (sub_Status sub)) (su_Conditions (sub_Status sub))
      (ne_now env NowReference))).
    destruct (mergeUpdated_spec final (clearConds env subs)) as [_ Hm]. destruct (Hw (finalStatus (f u))) as (s & Hs & Hsame & Hst).
    { apply Hm; [|exact (list_elem_of_fmap_2 f updated u Hu)]. unfold final, setIPReference. rewrite <- list_fmap_compose. exact Hnd. }
    exists s. unfold subGeneration, nothingToUpdate. rewrite Hst. by split_and!.
  - intros sub Hsub Hne. destruct (clearConds_spec subs sub Hsub) as (cleared & now & Hc & [Hn1 Hn2] & Hst).
    destruct (mergeUpdated_spec final (clearConds env subs)) as [Hm _]. destruct (Hw cleared) as (s & Hs & [Hs1 Hs2] & Hst').
    { apply Hm; [done|]. unfold final, setIPReference. intros u (u0 & -> & Hu0)%list_elem_of_fmap [Hss1 Hss2]. apply (Hne u0 Hu0). split; [by rewrite <- Hn1|by rewrite <- Hn2]. }
    exists s, now. split; [done|]. split; [split; congruence|congruence].
Qed.
End success.
End sync_facts.

(** ** A generated subscription whose CSV is not there holds up its namespace *)

(** The reference to the plan that generated a subscription is recorded in memory only: while the
    CSV does not exist the sync reports an update, writes nothing and does not resolve, and the
    next sync starts from the same subscription. *)
Lemma generated_sub_blocks {Bundle} `{RangeOrder, SortLib} (env : NsEnv Bundle) (namespace : string) (og : OperatorGroup) (sub : Subscription)
    (ip : InstallPlan) (ipName : string) (ref : ObjectReference) (err : error) :
  ne_listSubs env = inr [sub] -> ne_groups env = inr [og] -> UpgradeStrategy og <> UpgradeStrategyUnsafeFailForward -> og_Annotations og = None ->
  su_InstallPlanRef (sub_Status sub) = None -> su_Install (sub_Status sub) = None ->
  default ∅ (sub_Annotations sub) !! generatedByKey = Some ipName ->
  ne_getPlan env (sub_Namespace sub) ipName = inr ip -> ne_getReference env ip = inr ref ->
  ne_getCSV env (sub_Namespace sub) (ss_StartingCSV (sub_Spec sub)) = Some err ->
  syncResolvingNamespace env namespace = (DeletePlan <$> gcInstallPlans (ne_plansCache env), None).
Proof.
  intros Hl Hg Hff Hann Hr Hi Ha Hp Href Hcsv. unfold syncResolvingNamespace, syncNamespace. rewrite Hl, Hg.
  unfold OperatorGroupBundleUnpackTimeout, OperatorGroupBundleUnpackRetryInterval, groupDuration. rewrite Hann.
  cbn [orReturn andThen go acts IsFailForwardEnabled]. rewrite bool_decide_false by done. cbn [default lookup]. rewrite !lookup_empty.
  cbn [orReturn andThen go ensureStates]. unfold ensureSubscriptionInstallPlanState. rewrite Hr, Hi.
  rewrite !bool_decide_false by (by intros [? ?]). cbn [orb]. rewrite Ha, Hp, Href. cbn [orReturn andThen go andb].
  unfold ensureSubscriptionCSVState, csvState. cbn [sub_Status setSubStatus su_CurrentCSV su_State].
  match goal with |- context [ne_getCSV env ?ns _] => change ns with (sub_Namespace sub) end. rewrite Hcsv.
  case_bool_decide as E.
  - cbn. by rewrite !app_nil_r.
  - cbn [su_InstallPlanRef]. rewrite bool_decide_true by done. cbn. by rewrite !app_nil_r.
Qed.

(** ** Concrete namespaces *)

Module NsDemo.
Definition latest : Subscription := mkSub (mkObj TSubscription (mkGVK "" "" "") "etcd" "ns" "u" [] None) None
  (mkSubSpec "operators" "olm" "etcd" "alpha" "" ApprovalManual) (mkSubStatus "" "" None SubscriptionStateNone 3 None [] [] 0%Z).
Definition sub (approval currentCSV : string) (conds : list SubscriptionCondition) : Subscription :=
  mkSub (sub_obj latest) None (mkSubSpec "operators" "olm" "etcd" "alpha" "" approval) (mkSubStatus currentCSV "" None SubscriptionStateNone 3 None [] conds 0%Z).
Definition group : OperatorGroup := mkGroup "og" "ns" "u" None None ["ns"] "" false "" None None.
Definition ref : ObjectReference := mkObjectRef "InstallPlan" "ns" "install-x" "u" "".
Definition lookup : BundleLookup := mkLookup "quay.io/etcd" "etcd.v1" "" (mkObjectRef "" "olm" "operators" "" "")
  [mkBLCond BundleLookupConditionPacked ConditionTrue "" "" None None; mkBLCond BundleLookupPending ConditionTrue "" "" None None] "".
Definition unpackedLookup : BundleLookup := setLookupConditions lookup [mkBLCond BundleLookupConditionPacked ConditionTrue "" "" None None].

(** One subscription; the resolver chooses etcd.v1 for it, or fails. *)
Definition env (resolved : error + (list Step * list BundleLookup * list Subscription)) (s : Subscription) (unpacked : bool) : NsEnv unit :=
  {| ne_plansCache := inr []; ne_listSubs := inr [s]; ne_groups := inr [group]; ne_parseDuration := fun _ => inr 0%Z;
     ne_getPlan := fun _ _ => inl (ErrAPI ReasonNotFound "not found"); ne_getReference := fun _ => inr ref;
     ne_getCSV := fun _ _ => Some (ErrAPI ReasonNotFound "not found"); ne_updateSub := fun s => inr s; ne_resolve := resolved;
     ne_unpack := fun l _ _ => inr (mkUnpack (if unpacked then unpackedLookup else l) tt "cm"); ne_newSteps := fun _ _ _ _ _ => inr [PlanDemo.step "svc"];
     ne_marshal := fun r => inr (ub_Name r); ne_listPlans := fun _ => inr [PlanDemo.plan "install-1" 4 true InstallPlanPhaseComplete];
     ne_create := fun p => inr p; ne_updatePlan := fun p => inr p;
     ne_getSub := fun _ ns n => inr (mkSub (mkObj TSubscription (mkGVK "" "" "") n ns "u" [] None) None (sub_Spec s) (sub_Status s));
     ne_updateStatus := fun _ _ => None; ne_now := fun _ => 9%Z |}.

#[local] Existing Instance canonical_order.
#[local] Existing Instance insertion_sort_lib.

Definition steps : list Step := [PlanDemo.step "svc"].

Lemma plan_safe_witness :
  let e := env (inr (steps, [], [sub ApprovalManual "etcd.v1" []])) (sub ApprovalManual "" []) true in
  exists p, CreatePlan p ∈ (syncResolvingNamespace e "ns").1 /\ ip_Generation p = 5%Z /\ planSafe e [sub ApprovalManual "" []] (CreatePlan p).
Proof.
  intros e. exists (newPlan "ns" 5 [sub ApprovalManual "" []] ApprovalManual steps).
  assert (CreatePlan (newPlan "ns" 5 [sub ApprovalManual "" []] ApprovalManual steps) ∈ (syncResolvingNamespace e "ns").1) as Hin
    by (vm_compute; apply list_elem_of_here).
  split; [exact Hin|]. split; [done|]. refine (syncResolvingNamespace_plan_safe e "ns" [sub ApprovalManual "" []] _ _ Hin). reflexivity.
Defined.

Lemma failure_witness :
  let err := ErrNotSatisfiable "no operators found" in
  let e := env (inl err) (sub ApprovalManual "" []) true in
  length (resolvePhase e "ns" [sub ApprovalManual "" []] 3 0 0).1 = 1%nat /\
  resolvePhase e "ns" [sub ApprovalManual "" [failureCond err]] 3 0 0 = ([], inl None).
Proof.
  intros err e. split; [by vm_compute|].
  refine (proj1 (proj2 (resolution_failure_reported e "ns" [sub ApprovalManual "" [failureCond err]] 3 0 0 err _)) _); [reflexivity|].
  intros s ->%list_elem_of_singleton. vm_compute. reflexivity.
Defined.

(** Two subscriptions; the resolver updates the first, and the second says that it failed before. *)
Lemma success_witness :
  let u := sub ApprovalManual "etcd.v1" [failureCond (ErrString "x")] in
  let other := mkSub (mkObj TSubscription (mkGVK "" "" "") "prometheus" "ns" "w" [] None) None (sub_Spec latest) (sub_Status u) in
  let e := env (inr (steps, [], [u])) (sub ApprovalManual "" []) true in
  exists s t, WriteStatus s ∈ (resolvePhase e "ns" [sub ApprovalManual "" []; other] 3 0 0).1 /\ WriteStatus t ∈ (resolvePhase e "ns" [sub ApprovalManual "" []; other] 3 0 0).1 /\
    su_CurrentCSV (sub_Status s) = "etcd.v1" /\ subGeneration s = 5%Z /\ nothingToUpdate s = true /\ su_Conditions (sub_Status s) = [] /\
    sameSub t other /\ su_Conditions (sub_Status t) = [].
Proof.
  intros u other e.
  destruct (resolution_success e) with (namespace := "ns") (subs := [sub ApprovalManual "" []; other]) (maxGen := 3%Z) (timeout := 0%Z) (retry := 0%Z)
    (steps := steps) (updated := [u]) (plans := [PlanDemo.plan "install-1" 4 true InstallPlanPhaseComplete]) (plans' := [PlanDemo.plan "install-1" 4 true InstallPlanPhaseComplete])
    as (plan & ref' & writes & statuses & _ & _ & Hr & _ & Hu & Ho);
    [by intros; eexists|done|done|discriminate|discriminate|apply NoDup_singleton|done|done|by intros; eexists|by intros; eexists|by intros; eexists|].
  destruct (Hu u) as (s & Hs & _ & Hcsv & _ & Hgen & Hn & Hc); [apply list_elem_of_here|].
  destruct (Ho other) as (t & now & Ht & Hsame & Hst); [right; by left|intros x ->%list_elem_of_singleton [X _]; discriminate X|].
  exists s, t. rewrite Hr. cbn [fst]. split_and!; [apply elem_of_app; by right|apply elem_of_app; by right|by rewrite Hcsv|by rewrite Hgen|exact Hn|by rewrite Hc|exact Hsame|].
  rewrite Hst. vm_compute. reflexivity.
Defined.

(** The condition that a bundle is being unpacked, which an earlier sync has set, stays on the
    subscription when the bundle has been unpacked and the plan is created. *)
Lemma unpacking_condition_stays :
  let unpacking := mkSubCond SubscriptionBundleUnpacking ConditionTrue "UnpackingInProgress" "" None None in
  let e unpacked := env (inr ([], [lookup], [sub ApprovalManual "etcd.v1" [unpacking]])) (sub ApprovalManual "" [unpacking]) unpacked in
  (exists q, syncResolvingNamespace (env (inr ([], [lookup], [sub ApprovalManual "etcd.v1" []])) (sub ApprovalManual "" []) false) "ns"
      = ([WriteStatus q; RequeueAfter], None) /\ su_Conditions (sub_Status q) = [unpacking]) /\
  exists p q s, syncResolvingNamespace (e true) "ns" = ([CreatePlan p; UpdatePlan q; WriteStatus s], None) /\
    su_InstallPlanRef (sub_Status s) = Some ref /\ su_Conditions (sub_Status s) = [unpacking].
Proof. split; [eexists; split; vm_compute; reflexivity|]. do 3 eexists. split_and!; vm_compute; reflexivity. Qed.
End NsDemo.
