(* ===== verification/StepExecution.v ===== *)
(** * Executing the steps of an install plan

    Models [ExecutePlan] of [controller/operators/catalog/operator.go] with what it calls: the
    manifests of steps ([manifests.go]), the ensurers of [step_ensurer.go], the steps for custom
    resource definitions of [step.go] and [lib/crd/storage.go], and [not_found.go].

    A Kubernetes object is its metadata and an opaque body ([Resource]).  What a plan does to the
    cluster is the list of its writes ([History]); every answer of the cluster may depend on what has
    been written before.  Decoding manifests is a parameter. *)

From S2P Require Import Prelude GoStrings RbacRules OwnerUtil CatalogModel ResolverCache CsvTypes OperatorGroups ReplaceChain GoHash Requirements CatalogTypes BundleSteps InstallPlans CatalogSync.

#[local] Arguments String.append : simpl nomatch.

(** ** Objects *)

Record Resource := mkResource {
  r_obj : Object; r_Annotations : option (gmap string string); r_Secrets : list string; r_body : string
}.
Definition r_Name (r : Resource) : string := OName (r_obj r).
Definition r_Namespace (r : Resource) : string := ONamespace (r_obj r).
Definition withObj (r : Resource) (o : Object) : Resource := mkResource o (r_Annotations r) (r_Secrets r) (r_body r).
Definition setResourceAnnotations (r : Resource) (a : option (gmap string string)) : Resource := mkResource (r_obj r) a (r_Secrets r) (r_body r).
Definition setNamespace (o : Object) (ns : string) : Object :=
  mkObj (OType o) (OGVK o) (OName o) ns (OUID o) (OwnerRefs o) (Labels o).

Definition OLMManagedLabelKey : string := "olm.managed".
Definition OLMManagedLabelValue : string := "true".

(** [obj.Labels[key] = value], with a map made when there is none. *)
Definition setLabel (o : Object) (key value : string) : Object := SetLabels o (<[key := value]> (default ∅ (Labels o))).
Definition manage (r : Resource) : Resource := withObj r (setLabel (r_obj r) OLMManagedLabelKey OLMManagedLabelValue).
Definition inNamespace (r : Resource) (ns : string) : Resource := withObj r (setNamespace (r_obj r) ns).

(** A custom resource definition: its versions with whether they are served and their schemas, the
    global version and schema of [v1beta1], the stored versions and the conditions of its status. *)
Record CRDVersion := mkCRDVersion { cv_Name : string; cv_Served : bool; cv_Schema : option string }.
Record CRDObject := mkCRD {
  cd_meta : Resource; cd_Group : string; cd_Plural : string; cd_Version : string; cd_Validation : option string; cd_Versions : list CRDVersion;
  cd_WebhookConversion : bool; cd_StoredVersions : list string; cd_Conditions : list (string * string)
}.
Definition withMeta (c : CRDObject) (r : Resource) : CRDObject :=
  mkCRD r (cd_Group c) (cd_Plural c) (cd_Version c) (cd_Validation c) (cd_Versions c) (cd_WebhookConversion c) (cd_StoredVersions c) (cd_Conditions c).

Definition V1Version : string := "v1".
Definition V1Beta1Version : string := "v1beta1".

(** ** The cluster *)

Inductive Write :=
  | Create (kind : string) (ns : option string) (r : Resource)
  | Update (kind : string) (ns : option string) (r : Resource).
Definition History := list Write.

Definition written (w : Write) : Resource := match w with Create _ _ r | Update _ _ r => r end.
Definition writtenIn (w : Write) : option string := match w with Create _ ns _ | Update _ ns _ => ns end.

Record ExecEnv := mkExecEnv {
  xe_operatorNamespace : string;
  xe_clients : InstallPlan -> option error;
  xe_listCSVs : string -> error + list CSV;
  xe_getCSV : History -> string -> string -> error + CSV;
  xe_unmarshalRef : string -> option UnpackedBundleReference;
  xe_unpackedSteps : UnpackedBundleReference -> string -> error + list StepResource;
  xe_gvkVersion : string -> error + string;
  xe_decodeCSV : string -> error + (CSV * Resource);
  xe_decode : string -> string -> error + Resource;
  xe_decodeCRD : string -> string -> error + CRDObject;
  xe_do : History -> Write -> option error;
  xe_getSecret : History -> string -> string -> error + Resource;
  xe_getServiceAccount : History -> string -> string -> error + Resource;
  xe_derivative : Resource -> Resource -> bool;
  xe_getObject : History -> GVK -> option string -> string -> error + Resource;
  xe_apiResources : GVK -> error + list (string * string * bool);
  xe_getCRD : History -> nat -> string -> error + CRDObject;
  xe_convertSchema : option string -> error + string;
  xe_newValidator : string -> error + (Resource -> option error);
  xe_listObjects : History -> string -> string -> string -> list Resource * option error;
}.

(** ** A computation on the cluster *)

(** The writes so far, and the unpacked steps cached by bundle. *)
Record XState := mkX { x_history : History; x_unpacked : gmap string (list StepResource) }.
Definition X (A : Type) : Type := XState -> XState * (error + A).
Definition xret {A} (x : A) : X A := fun s => (s, inr x).
Definition xfail {A} (err : error) : X A := fun s => (s, inl err).
Definition xbind {A B} (m : X A) (k : A -> X B) : X B :=
  fun s => match m s with (s', inl err) => (s', inl err) | (s', inr x) => k x s' end.
Definition xlift {A} (r : error + A) : X A := fun s => (s, r).
(** A question to the cluster, and a write with its answer. *)
Definition ask {A} (f : History -> A) : X A := fun s => (s, inr (f (x_history s))).
Definition write (env : ExecEnv) (w : Write) : X (option error) :=
  fun s => (mkX (x_history s ++ [w]) (x_unpacked s), inr (xe_do env (x_history s) w)).

Declare Scope x_scope.
Delimit Scope x_scope with x.
Notation "'do!' x := m 'in' k" := (xbind m (fun x => k)) (at level 10, x name, m at level 100, k at level 200) : x_scope.
#[local] Open Scope x_scope.

(** [errorwrap.Wrapf]: the reason of an API error can still be asked for. *)
Definition Wrapf (err : error) (msg : string) : error :=
  match err with
  | ErrAPI reason m => ErrAPI reason (msg +:+ ": " +:+ m)
  | err => ErrString (msg +:+ ": " +:+ Error_ err)
  end.
Definition orWrap {A} (r : error + A) (msg : string) : X A :=
  match r with inl err => xfail (Wrapf err msg) | inr x => xret x end.

(** ** Manifests (manifests.go) *)

Definition refForStep (env : ExecEnv) (step : Step) : option UnpackedBundleReference :=
  match xe_unmarshalRef env (sr_Manifest (step_Resource step)) with
  | None => None
  | Some ref =>
      if negb (bool_decide (ub_Kind ref = "ConfigMap")) || bool_decide (ub_Name ref = "") || bool_decide (ub_Namespace ref = "")
         || bool_decide (ub_CatalogSourceName ref = "") || bool_decide (ub_CatalogSourceNamespace ref = "")
      then None else Some ref
  end.

(** The steps of a bundle are unpacked once per plan; loading the config map and turning the bundle
    into steps is a parameter. *)
Definition unpackedStepsForBundle (env : ExecEnv) (namespace bundleName : string) (ref : UnpackedBundleReference) : X (list StepResource) :=
  fun s =>
    match x_unpacked s !! bundleName with
    | Some usteps => (s, inr usteps)
    | None =>
        match xe_unpackedSteps env ref namespace with
        | inl err => (s, inl err)
        | inr steps => (mkX (x_history s) (<[bundleName := steps]> (x_unpacked s)), inr steps)
        end
    end.

Definition sameStepResource (u r : StepResource) : bool :=
  bool_decide (sr_Name u = sr_Name r) && bool_decide (sr_Kind u = sr_Kind r) && bool_decide (sr_Version u = sr_Version r)
  && bool_decide (sr_Group u = sr_Group r).

Definition ManifestForStep (env : ExecEnv) (namespace : string) (step : Step) : X string :=
  match refForStep env step with
  | None => xret (sr_Manifest (step_Resource step))
  | Some ref =>
      do! usteps := unpackedStepsForBundle env namespace (step_Resolving step) ref in
      let manifest := match List.find (fun u => sameStepResource u (step_Resource step)) usteps with
                      | Some u => sr_Manifest u
                      | None => sr_Manifest (step_Resource step)
                      end in
      if bool_decide (manifest = sr_Manifest (step_Resource step))
      then xfail (ErrString ("couldn't find unpacked step for " +:+ sr_Name (step_Resource step)))
      else xret manifest
  end.

(** ** Ensuring objects (step_ensurer.go) *)

Section ensure.
Context `{RangeOrder} (env : ExecEnv).

(** Create an object; when it exists already, go on with [exists_]. *)
Definition createOr (kind : string) (ns : option string) (r : Resource) (msg : string) (exists_ : X string) : X string :=
  do! createErr := write env (Create kind ns r) in
  match createErr with
  | None => xret StepStatusCreated
  | Some err => if IsAlreadyExists (Some err) then exists_ else xfail (Wrapf err msg)
  end.

(** Update it, and say that it is present. *)
Definition updateTo (kind : string) (ns : option string) (r : Resource) (msg : string) : X string :=
  do! updateErr := write env (Update kind ns r) in
  match updateErr with None => xret StepStatusPresent | Some err => xfail (Wrapf err msg) end.

Definition clusterRoleKind : string := "ClusterRole".
Definition clusterRoleBindingKind : string := "ClusterRoleBinding".
Definition roleKind : string := "Role".
Definition roleBindingKind : string := "RoleBinding".
Definition serviceAccountKind : string := "ServiceAccount".
Definition serviceKind : string := "Service".
Definition configMapKind : string := "ConfigMap".

Definition EnsureClusterServiceVersion (csv : Resource) : X string :=
  createOr ClusterServiceVersionKind (Some (r_Namespace csv)) csv ("error creating csv " +:+ r_Name csv) (xret StepStatusPresent).

Definition EnsureSubscription (sub : Resource) : X string :=
  createOr SubscriptionKind (Some (r_Namespace sub)) sub ("error creating subscription " +:+ r_Name sub) (xret StepStatusPresent).

(** Copies the secret from the namespace of the operator. *)
Definition EnsureSecret (operatorNamespace planNamespace name : string) : X string :=
  do! got := ask (fun h => xe_getSecret env h operatorNamespace name) in
  match got with
  | inl err =>
      if IsNotFound (Some err) then xfail (ErrString ("secret " +:+ name +:+ " does not exist - " +:+ Error_ err))
      else xfail (Wrapf err "error getting pull secret from olm namespace ")
  | inr secret =>
      let newSecret := mkResource (mkObj TSecret (mkGVK "" "" "") (r_Name secret) planNamespace "" []
        (Some {[OLMManagedLabelKey := OLMManagedLabelValue]})) None [] (r_body secret) in
      do! createErr := write env (Create secretKind (Some planNamespace) newSecret) in
      match createErr with
      | None => xret StepStatusCreated
      | Some err => if IsAlreadyExists (Some err) then xret StepStatusPresent
                    else xfail (ErrString ("error creating secret " +:+ r_Name secret +:+ " - " +:+ Error_ err))
      end
  end.

Definition EnsureBundleSecret (namespace : string) (secret : Resource) : X string :=
  createOr secretKind (Some namespace) secret ("error updating secret: " +:+ r_Name secret)
    (updateTo secretKind (Some namespace) (inNamespace secret namespace) ("error updating secret: " +:+ r_Name secret)).

(** The references are the keys of a map.  Keys are compared with the pointers they hold, so that
    references whose pointers are all nil are merged when they are equal, and any other one is a key
    of its own; the result is in the order the map is ranged over. *)
#[export] Instance OwnerReference_eq_dec : EqDecision OwnerReference.
Proof. solve_decision. Defined.
Definition nilPointers (ref : OwnerReference) : bool :=
  match RBlockOwnerDeletion ref, RController ref with None, None => true | _, _ => false end.
Fixpoint uniqueRefs (refs : list OwnerReference) : list OwnerReference :=
  match refs with
  | [] => []
  | ref :: refs' => let rest := uniqueRefs refs' in if nilPointers ref && bool_decide (ref ∈ rest) then rest else ref :: rest
  end.
Definition mergedOwnerReferences (pre refs : list OwnerReference) : list OwnerReference :=
  (range (map_seq 0 (uniqueRefs (pre ++ refs)) : gmap nat OwnerReference)).*2.

Definition EnsureServiceAccount (namespace : string) (sa : Resource) : X string :=
  createOr serviceAccountKind (Some namespace) sa ("error creating service account: " +:+ r_Name sa)
    (do! got := ask (fun h => xe_getServiceAccount env h namespace (r_Name sa)) in
     do! preSa := orWrap got ("error getting older version of service account: " +:+ r_Name sa) in
     let sa := mkResource (setNamespace (SetOwnerReferences (r_obj sa) (mergedOwnerReferences (OwnerRefs (r_obj preSa)) (OwnerRefs (r_obj sa)))) namespace)
                 (r_Annotations sa) (r_Secrets preSa) (r_body sa) in
     if xe_derivative env sa preSa then xret StepStatusPresent
     else updateTo serviceAccountKind (Some namespace) sa ("error updating service account: " +:+ r_Name sa)).

Definition EnsureService (namespace : string) (service : Resource) : X string :=
  createOr serviceKind (Some namespace) service ("error updating service: " +:+ r_Name service)
    (updateTo serviceKind (Some namespace) (inNamespace service namespace) ("error updating service: " +:+ r_Name service)).

(** A cluster role that exists is given the step's CSV as its owner. *)
Definition EnsureClusterRole (cr : Resource) (step : Step) : X string :=
  createOr clusterRoleKind None cr ("error creating clusterrole " +:+ r_Name cr)
    (updateTo clusterRoleKind None (withObj cr (setLabel (r_obj cr) OwnerKey (step_Resolving step))) ("error updating clusterrole " +:+ r_Name cr)).
Definition EnsureClusterRoleBinding (crb : Resource) (step : Step) : X string :=
  createOr clusterRoleBindingKind None crb ("error creating clusterrolebinding " +:+ r_Name crb)
    (updateTo clusterRoleBindingKind None (withObj crb (setLabel (r_obj crb) OwnerKey (step_Resolving step)))
       ("error updating clusterrolebinding " +:+ r_Name crb)).

Definition EnsureRole (namespace : string) (role : Resource) : X string :=
  createOr roleKind (Some namespace) role ("error creating role " +:+ r_Name role)
    (updateTo roleKind (Some namespace) (inNamespace role namespace) ("error updating role " +:+ r_Name role)).
Definition EnsureRoleBinding (namespace : string) (rb : Resource) : X string :=
  createOr roleBindingKind (Some namespace) rb ("error creating rolebinding " +:+ r_Name rb)
    (updateTo roleBindingKind (Some namespace) (inNamespace rb namespace) ("error updating rolebinding " +:+ r_Name rb)).

Definition EnsureUnstructuredObject (gvk : GVK) (ns : option string) (obj : Resource) : X string :=
  createOr (Kind gvk) ns obj ("error creating unstructured object " +:+ r_Name obj)
    (do! got := ask (fun h => xe_getObject env h gvk ns (r_Name obj)) in
     do! original := orWrap got ("error getting unstructured object " +:+ r_Name obj) in
     updateTo (Kind gvk) ns obj ("error updating unstructured object " +:+ r_Name obj)).

Definition EnsureConfigMap (namespace : string) (configmap : Resource) : X string :=
  createOr configMapKind (Some namespace) configmap ("error updating configmap: " +:+ r_Name configmap)
    (updateTo configMapKind (Some namespace) (inNamespace configmap namespace) ("error updating configmap: " +:+ r_Name configmap)).

(** ** Custom resource definitions (step.go, lib/crd/storage.go) *)

(** [SafeStorageVersionUpgrade]: every stored version of the existing definition is a version of the
    new one; the error names one that is not. *)
Definition newSpecVersions (version : string) (c : CRDObject) : gset string :=
  list_to_set (cv_Name <$> cd_Versions c) ∪ (if bool_decide (version = V1Beta1Version) && negb (bool_decide (cd_Version c = "")) then {[cd_Version c]} else ∅).
Definition SafeStorageVersionUpgrade (version : string) (existing new : CRDObject) : bool * option error :=
  let stored := list_to_map ((fun v => (v, tt)) <$> cd_StoredVersions existing) : gmap string unit in
  match List.find (fun name => negb (bool_decide (name ∈ newSpecVersions version new))) (range stored).*1 with
  | Some name => (false, Some (ErrString ("new CRD removes version " +:+ name +:+ " that is listed as a stored version on the existing CRD")))
  | None => (true, None)
  end.

(** The references to other CSVs the objects were installed alongside, those of CSVs that are gone
    or copies left out, and the reference to the CSV that is installed. *)
Definition setInstalledAlongsideAnnotation (h : History) (dst : Resource) (namespace name : string) (srcs : list Resource) : Resource :=
    let keep nn :=
      if bool_decide (nn_Namespace nn = namespace) && bool_decide (nn_Name nn = name) then false
      else match xe_getCSV env h (nn_Namespace nn) (nn_Name nn) with
           | inl err => negb (IsNotFound (Some err))
           | inr csv => negb (IsCopied csv)
           end in
    let nns := List.filter keep (srcs ≫= (fun src => FromObject (r_Annotations src))) in
    let nns := if negb (bool_decide (namespace = "")) && negb (bool_decide (name = "")) then nns ++ [mkNN namespace name] else nns in
    setResourceAnnotations dst (ToObject (r_Annotations dst) nns).

(** *** Existing objects and a new schema *)

(** [validateExistingCRs]: every object of every version is valid under the schema of the version.  An
    error says whether it is a [validationError]. *)
Definition objectName (r : Resource) : string := if bool_decide (r_Namespace r = "") then r_Name r else r_Namespace r +:+ "/" +:+ r_Name r.
Fixpoint firstInvalid (validate : Resource -> option error) (objects : list Resource) : option error :=
  match objects with
  | [] => None
  | cr :: objects' =>
      match validate cr with
      | Some err => Some (ErrString ("error validating " +:+ Kind (OGVK (r_obj cr)) +:+ " " +:+ objectName cr +:+ ": updated validation is too restrictive: " +:+ Error_ err))
      | None => firstInvalid validate objects'
      end
  end.
Fixpoint validateVersions (h : History) (group resource : string) (validations : list (string * string)) : option (error * bool) :=
  match validations with
  | [] => None
  | (version, schema) :: validations' =>
      match xe_newValidator env schema with
      | inl err => Some (ErrString ("error creating validator for schema version " +:+ version +:+ ": " +:+ Error_ err), false)
      | inr validate =>
          let '(objects, listErr) := xe_listObjects env h group version resource in
          match firstInvalid validate objects, listErr with
          | Some err, _ => Some (err, true)
          | None, Some err => Some (err, false)
          | None, None => validateVersions h group resource validations'
          end
      end
  end.
Definition validateExistingCRs (h : History) (group resource : string) (validationsMap : gmap string string) : option (error * bool) :=
  validateVersions h group resource (range validationsMap).

(** [validateV1CRDCompatibility] and [validateV1Beta1CRDCompatibility]: the versions that were served
    and still are, with their new schemas; a global schema of [v1beta1] is checked for one of them. *)
Definition servedVersions (c : CRDObject) : gset string := list_to_set (cv_Name <$> List.filter cv_Served (cd_Versions c)).
Definition stillServed (old : gset string) (new : CRDObject) : list CRDVersion :=
  List.filter (fun v => bool_decide (cv_Name v ∈ old) && cv_Served v) (cd_Versions new).
Fixpoint convertSchemas (versions : list CRDVersion) (validationsMap : gmap string string) : error + gmap string string :=
  match versions with
  | [] => inr validationsMap
  | v :: versions' =>
      match xe_convertSchema env (cv_Schema v) with
      | inl err => inl err
      | inr schema => convertSchemas versions' (<[cv_Name v := schema]> validationsMap)
      end
  end.
Definition validateV1CRDCompatibility (h : History) (oldCRD newCRD : CRDObject) : option (error * bool) :=
  match convertSchemas (stillServed (servedVersions oldCRD) newCRD) ∅ with
  | inl err => Some (err, false)
  | inr validationsMap => validateExistingCRs h (cd_Group newCRD) (cd_Plural newCRD) validationsMap
  end.
Definition validateV1Beta1CRDCompatibility (h : History) (oldCRD newCRD : CRDObject) : option (error * bool) :=
  let oldVersionSet := servedVersions oldCRD ∪ (if (length (cd_Versions oldCRD) =? 0)%nat then {[cd_Version oldCRD]} else ∅) in
  let global :=
    if (length (cd_Versions newCRD) =? 0)%nat && bool_decide (cd_Version newCRD ∈ oldVersionSet) then
      match xe_convertSchema env (cd_Validation newCRD) with inl err => inl err | inr schema => inr {[cd_Version newCRD := schema]} end
    else inr ∅ in
  match global with
  | inl err => Some (err, false)
  | inr validationsMap =>
      match stillServed oldVersionSet newCRD, cd_Validation newCRD with
      | newVersion :: _, Some validation =>
          match xe_convertSchema env (Some validation) with
          | inl err => Some (err, false)
          | inr schema => validateExistingCRs h (cd_Group newCRD) (cd_Plural newCRD) {[cv_Name newVersion := schema]}
          end
      | versions, _ =>
          match convertSchemas versions validationsMap with
          | inl err => Some (err, false)
          | inr validationsMap => validateExistingCRs h (cd_Group newCRD) (cd_Plural newCRD) validationsMap
          end
      end
  end.
Definition validateCRDCompatibility (version : string) : History -> CRDObject -> CRDObject -> option (error * bool) :=
  if bool_decide (version = V1Version) then validateV1CRDCompatibility else validateV1Beta1CRDCompatibility.

(** One attempt at updating a definition that exists; the error may be a conflict.  The new definition
    is annotated in place, also when the update fails. *)
Definition updateCRD (version namespace : string) (step : Step) (attempt : nat) (crd : CRDObject) : XState -> XState * (CRDObject * option error) :=
  let name := sr_Name (step_Resource step) in
  fun s =>
    let currentCRD := match xe_getCRD env (x_history s) attempt (r_Name (cd_meta crd)) with
                      | inl _ => mkCRD (mkResource (mkObj TCRDv1 (mkGVK "" "" "") "" "" "" [] None) None [] "") "" "" "" None [] false [] []
                      | inr c => c
                      end in
    let invalid := match validateCRDCompatibility version (x_history s) currentCRD crd with
                   | Some (err, isValidationError) =>
                       if bool_decide (version = V1Version) && cd_WebhookConversion crd && isValidationError then None
                       else Some (Wrapf err ("error validating existing CRs against new CRD's schema for " +:+ name))
                   | None => None
                   end in
    match invalid with
    | Some err => (s, (crd, Some err))
    | None =>
        match SafeStorageVersionUpgrade version currentCRD crd with
        | (false, err) => (s, (crd, Some (ErrString ("risk of data loss updating " +:+ name +:+ ": " +:+ match err with Some e => Error_ e | None => "" end))))
        | (true, Some err) => (s, (crd, Some (Wrapf err ("checking CRD for potential data loss updating " +:+ name))))
        | (true, None) =>
            let crd := withMeta crd (setInstalledAlongsideAnnotation (x_history s) (cd_meta crd) namespace (step_Resolving step) [cd_meta crd; cd_meta currentCRD]) in
            let w := Update crdKind None (cd_meta crd) in
            (mkX (x_history s ++ [w]) (x_unpacked s),
             (crd, match xe_do env (x_history s) w with Some err => Some (Wrapf err ("error updating CRD " +:+ name)) | None => None end))
        end
    end.

(** [retry.RetryOnConflict] with five attempts. *)
Fixpoint updateLoop (version namespace : string) (step : Step) (steps attempt : nat) (crd : CRDObject) : X unit :=
  match steps with
  | O => xret tt
  | S steps' => fun s =>
      match updateCRD version namespace step attempt crd s with
      | (s', (_, None)) => (s', inr tt)
      | (s', (crd', Some err)) =>
          if IsConflict (Some err) && negb (steps' =? 0)%nat then updateLoop version namespace step steps' (S attempt) crd' s' else (s', inl err)
      end
  end.

Definition crdConditionTrue (type : string) (c : CRDObject) : bool :=
  existsb (fun '(t, s) => bool_decide (t = type) && bool_decide (s = ConditionTrue)) (cd_Conditions c).

(** [NewCRDV1Step] and [NewCRDV1Beta1Step], which differ in the check of existing objects only. *)
Definition stepCRD (version namespace : string) (step : Step) (manifest : string) : X string :=
  let status := step_Status step in
  let name := sr_Name (step_Resource step) in
  if bool_decide (status = StepStatusPresent) then xret StepStatusPresent
  else if bool_decide (status = StepStatusCreated) then xret StepStatusCreated
  else if bool_decide (status = StepStatusWaitingForAPI) then
    do! got := ask (fun h => xe_getCRD env h 0 name) in
    match got with
    | inl err => if IsNotFound (Some err) then xret StepStatusNotPresent else xfail (Wrapf err "error finding the  CRD")
    | inr crd =>
        if crdConditionTrue "Established" crd && crdConditionTrue "NamesAccepted" crd then xret StepStatusCreated else xret StepStatusUnknown
    end
  else if bool_decide (status = StepStatusUnknown) || bool_decide (status = StepStatusNotPresent) then
    do! crd := xlift (xe_decodeCRD env version manifest) in
    do! meta := ask (fun h => setInstalledAlongsideAnnotation h (cd_meta crd) namespace (step_Resolving step) [cd_meta crd]) in
    let crd := withMeta crd (manage meta) in
    do! createErr := write env (Create crdKind None (cd_meta crd)) in
    match createErr with
    | None => xret StepStatusWaitingForAPI
    | Some err =>
        if IsAlreadyExists (Some err) then
          do! _ := updateLoop version namespace step 5 0 crd in
          xret StepStatusPresent
        else xfail err
    end
  else xret StepStatusUnknown.

(** ** Executing a plan (operator.go) *)

(** [getCSVNameSet] and [getExistingAPIOwners] *)
Definition getCSVNameSet (plan : InstallPlan) : gset string := list_to_set (ips_ClusterServiceVersionNames (ip_Spec plan)).

Definition addOwner (owners : gmap string (list string)) (key name : string) : gmap string (list string) :=
  <[key := default [] (owners !! key) ++ [name]]> owners.
Definition getExistingAPIOwners (csvs : list CSV) : gmap string (list string) :=
  foldl (fun owners csv =>
    let owners := foldl (fun o crd => addOwner o (crd_Name crd) (csv_Name csv)) owners (spec_CRDs_Owned (csv_Spec csv)) in
    foldl (fun o api => addOwner o (as_Group api) (csv_Name csv)) owners (spec_APIServices_Owned (csv_Spec csv))) ∅ csvs.

(** The first owned definition that another CSV owns, or that several own. *)
Fixpoint competingCRDOwnersExist (namespace : string) (name : string) (owned : list CRDDescription) (existingOwners : gmap string (list string))
    : error + bool :=
  match owned with
  | [] => inr false
  | crd :: owned' =>
      match default [] (existingOwners !! crd_Name crd) with
      | [] => competingCRDOwnersExist namespace name owned' existingOwners
      | [o] => if bool_decide (o = name) then competingCRDOwnersExist namespace name owned' existingOwners else inr true
      | os => inl (ErrString ("Existing CSVs " +:+ "[" +:+ Join os " " +:+ "]" +:+ " in namespace " +:+ namespace +:+ " all claim to own CRD " +:+ crd_Name crd))
      end
  end.

(** [getUpdatedOwnerReferences]: references to CSVs get the UID the CSV has. *)
Fixpoint updatedRefs (refs : list OwnerReference) (namespace : string) (h : History) : error + list OwnerReference :=
  match refs with
  | [] => inr []
  | owner :: refs' =>
      let updated :=
        if bool_decide (RKind owner = ClusterServiceVersionKind) then
          match xe_getCSV env h namespace (RName owner) with
          | inl err => inl err
          | inr csv => inr (mkRef (RAPIVersion owner) (RKind owner) (RName owner) (OUID (csv_obj csv)) (RBlockOwnerDeletion owner) (RController owner))
          end
        else inr owner in
      match updated with
      | inl err => inl err
      | inr owner => match updatedRefs refs' namespace h with inl err => inl err | inr refs' => inr (owner :: refs') end
      end
  end.
Definition getUpdatedOwnerReferences (refs : list OwnerReference) (namespace : string) : X (list OwnerReference) :=
  fun s => (s, updatedRefs refs namespace (x_history s)).

(** The CSV a step belongs to, as an owner without a UID. *)
Definition stepOwner (plan : InstallPlan) (step : Step) : Object :=
  mkObj TClusterServiceVersion (mkGVK "" "" "") (step_Resolving step) (ip_Namespace plan) "" [] None.
Definition addStepOwner (plan : InstallPlan) (step : Step) (o : Object) : Object :=
  if bool_decide (step_Resolving step = "") then o else AddNonBlockingOwner o (stepOwner plan step).

(** An object of the plan's namespace: its owners with their UIDs, its namespace and its label. *)
Definition prepareObject (plan : InstallPlan) (msg : string) (r : Resource) : X Resource :=
  do! updated := (fun s => match getUpdatedOwnerReferences (OwnerRefs (r_obj r)) (ip_Namespace plan) s with
                           | (s', inl err) => (s', inl (Wrapf err ("error generating ownerrefs for " +:+ msg +:+ " " +:+ r_Name r)))
                           | r => r
                           end) in
  xret (manage (inNamespace (withObj r (SetOwnerReferences (r_obj r) updated)) (ip_Namespace plan))).

Definition decodeStep {A} (decode : string -> error + A) (step : Step) (manifest : string) : X A :=
  orWrap (decode manifest) ("error parsing step manifest: " +:+ sr_Name (step_Resource step)).

Definition executeCSV (plan : InstallPlan) (existingCRDOwners : gmap string (list string)) (step : Step) (manifest : string) : X string :=
  do! decoded := decodeStep (xe_decodeCSV env) step manifest in
  let '(csv, r) := decoded in
  do! competingOwners :=
    (if bool_decide (csv_Name csv ∈ getCSVNameSet plan) then xret false
     else orWrap (competingCRDOwnersExist (ip_Namespace plan) (csv_Name csv) (spec_CRDs_Owned (csv_Spec csv)) existingCRDOwners)
            ("error checking crd owners for: " +:+ csv_Name csv)) in
  if competingOwners : bool
  then xfail (ErrString ("pre-existing CRD owners found for owned CRD(s) of dependent CSV " +:+ csv_Name csv))
  else EnsureClusterServiceVersion (manage (inNamespace r (ip_Namespace plan))).

Definition executeSubscription (plan : InstallPlan) (step : Step) (manifest : string) : X string :=
  do! sub := decodeStep (xe_decode env SubscriptionKind) step manifest in
  let sub := setResourceAnnotations sub (Some (<[generatedByKey := ip_Name plan]> (default ∅ (r_Annotations sub)))) in
  EnsureSubscription (manage (inNamespace sub (ip_Namespace plan))).

(** Owners are added to bundle secrets, services and config maps only. *)
Definition executeOwned (plan : InstallPlan) (kind msg : string) (ensure : string -> Resource -> X string) (step : Step) (manifest : string) : X string :=
  do! r := decodeStep (xe_decode env kind) step manifest in
  do! r := prepareObject plan msg (withObj r (addStepOwner plan step (r_obj r))) in
  ensure (ip_Namespace plan) r.
Definition executePlain (plan : InstallPlan) (kind msg : string) (ensure : string -> Resource -> X string) (step : Step) (manifest : string) : X string :=
  do! r := decodeStep (xe_decode env kind) step manifest in
  do! r := prepareObject plan msg r in
  ensure (ip_Namespace plan) r.
Definition executeClusterScoped (kind : string) (ensure : Resource -> Step -> X string) (step : Step) (manifest : string) : X string :=
  do! r := decodeStep (xe_decode env kind) step manifest in
  ensure (manage r) step.

Definition supportedKinds : gset string :=
  {[ "PrometheusRule"; "ServiceMonitor"; "PodDisruptionBudget"; "PriorityClass"; "VerticalPodAutoscaler"; "ConsoleYAMLSample";
     "ConsoleQuickStart"; "ConsoleCLIDownload"; "ConsoleLink"; "ConsolePlugin" ]}.
Definition isSupported (kind : string) : bool := bool_decide (kind ∈ supportedKinds).

(** [apiresourceFromGVK]: the name of the resource, and whether it is namespaced. *)
Definition apiresourceFromGVK (gvk : GVK) : error + (string * bool) :=
  match xe_apiResources env gvk with
  | inl err => inl err
  | inr resources =>
      match List.find (fun '(_, kind, _) => bool_decide (kind = Kind gvk)) resources with
      | Some (name, _, namespaced) => inr (name, namespaced)
      | None => inl (ErrString ("Unable to find GVK in discovery: " +:+ Group gvk +:+ " " +:+ OwnerUtil.Version gvk +:+ " " +:+ Kind gvk))
      end
  end.

Definition executeUnstructured (plan : InstallPlan) (step : Step) (manifest : string) : X string :=
  do! r := orWrap (xe_decode env (sr_Kind (step_Resource step)) manifest)
             ("error decoding " +:+ sr_Name (step_Resource step) +:+ " object to an unstructured object") in
  let gvk := OGVK (r_obj r) in
  do! res := xlift (apiresourceFromGVK gvk) in
  let namespaced := res.2 in
  do! r :=
    (if bool_decide (step_Resolving step = "") then xret r
     else if namespaced then
       do! updated := (fun s => match getUpdatedOwnerReferences (OwnerRefs (AddNonBlockingOwner (r_obj r) (stepOwner plan step))) (ip_Namespace plan) s with
                                | (s', inl err) => (s', inl (Wrapf err ("error generating ownerrefs for unstructured object: " +:+ r_Name r)))
                                | ok => ok
                                end) in
       xret (withObj r (SetOwnerReferences (r_obj r) updated))
     else
       match AddOwnerLabels (r_obj r) (stepOwner plan step) with
       | Some o => xret (withObj r o)
       | None => xfail (ErrString "could not infer the kind of the owner")
       end) in
  let r := manage r in
  if namespaced then EnsureUnstructuredObject gvk (Some (ip_Namespace plan)) (inNamespace r (ip_Namespace plan))
  else EnsureUnstructuredObject gvk None r.

(** What is done with a step that has to be executed, by the kind of its resource; the kinds that are
    listed take precedence over the supported ones. *)
Definition executeKind (plan : InstallPlan) (existingCRDOwners : gmap string (list string)) (step : Step) (manifest : string) : X string :=
  let kind := sr_Kind (step_Resource step) in
  if bool_decide (kind = ClusterServiceVersionKind) then executeCSV plan existingCRDOwners step manifest
  else if bool_decide (kind = SubscriptionKind) then executeSubscription plan step manifest
  else if bool_decide (kind = BundleSecretKind) then executeOwned plan secretKind "secret" EnsureBundleSecret step manifest
  else if bool_decide (kind = secretKind) then EnsureSecret (xe_operatorNamespace env) (ip_Namespace plan) (sr_Name (step_Resource step))
  else if bool_decide (kind = clusterRoleKind) then executeClusterScoped clusterRoleKind EnsureClusterRole step manifest
  else if bool_decide (kind = clusterRoleBindingKind) then executeClusterScoped clusterRoleBindingKind EnsureClusterRoleBinding step manifest
  else if bool_decide (kind = roleKind) then executePlain plan roleKind "role" EnsureRole step manifest
  else if bool_decide (kind = roleBindingKind) then executePlain plan roleBindingKind "rolebinding" EnsureRoleBinding step manifest
  else if bool_decide (kind = serviceAccountKind) then executePlain plan serviceAccountKind "service account:" EnsureServiceAccount step manifest
  else if bool_decide (kind = serviceKind) then executeOwned plan serviceKind "service:" EnsureService step manifest
  else if bool_decide (kind = configMapKind) then executeOwned plan configMapKind "configmap:" EnsureConfigMap step manifest
  else executeUnstructured plan step manifest.

(** The kinds of steps that have their own case. *)
Definition handledKinds : list string :=
  [ClusterServiceVersionKind; SubscriptionKind; BundleSecretKind; secretKind; clusterRoleKind; clusterRoleBindingKind; roleKind; roleBindingKind;
   serviceAccountKind; serviceKind; configMapKind].

Definition ErrInvalidInstallPlan : error := ErrString "the InstallPlan contains invalid data".

(** [crdlib.Version] *)
Definition crdVersion (manifest : string) : error + string :=
  match xe_gvkVersion env manifest with
  | inl err => inl err
  | inr v => if bool_decide (v = V1Beta1Version) || bool_decide (v = V1Version) then inr v
             else inl (ErrString ("CRD APIVersion from manifest not supported: " +:+ v))
  end.

(** One step: its status and the error.  The builder resolves the manifest of every step first, and
    takes care of custom resource definitions. *)
Definition executeStep (plan : InstallPlan) (existingCRDOwners : gmap string (list string)) (step : Step) : XState -> XState * (string * option error) :=
  let keep (r : XState * (error + string)) : XState * (string * option error) :=
    match r with (s, inl err) => (s, (step_Status step, Some err)) | (s, inr status) => (s, (status, None)) end in
  fun s =>
    match ManifestForStep env (ip_Namespace plan) step s with
    | (s, inl err) => (s, (step_Status step, Some err))
    | (s, inr manifest) =>
        if bool_decide (sr_Kind (step_Resource step) = crdKind) then
          keep ((do! version := xlift (crdVersion manifest) in stepCRD version (ip_Namespace plan) step manifest) s)
        else if bool_decide (step_Status step ∈ [StepStatusPresent; StepStatusCreated; StepStatusWaitingForAPI]) then (s, (step_Status step, None))
        else if bool_decide (step_Status step ∈ [StepStatusUnknown; StepStatusNotPresent]) then
          match ManifestForStep env (ip_Namespace plan) step s with
          | (s, inl err) => (s, (step_Status step, Some err))
          | (s, inr manifest) =>
              if negb (bool_decide (sr_Kind (step_Resource step) ∈ handledKinds)) && negb (isSupported (sr_Kind (step_Resource step)))
              then (s, (StepStatusUnsupportedResource, Some ErrInvalidInstallPlan))
              else keep (executeKind plan existingCRDOwners step manifest s)
          end
        else (s, (step_Status step, Some ErrInvalidInstallPlan))
    end.

(** [QueryForGVK] *)
Definition queryForGVK (r : StepResource) : option error :=
  let gvk := mkGVK (sr_Group r) (sr_Version r) (sr_Kind r) in
  let notFound := ErrString ("api-server resource not found installing " +:+ sr_Kind r +:+ " " +:+ sr_Name r +:+ ": GroupVersionKind not found on the cluster. ") in
  match xe_apiResources env gvk with
  | inl err => Some (if IsNotFound (Some err) then notFound else err)
  | inr resources => if existsb (fun '(_, kind, _) => bool_decide (kind = sr_Kind r)) resources then None else Some notFound
  end.

Definition setStepStatus (step : Step) (status : string) : Step :=
  mkStep (step_Resolving step) (step_Resource step) (step_Optional step) status.

(** The loop over the steps, up to the first error. *)
Fixpoint executeSteps (plan : InstallPlan) (existingCRDOwners : gmap string (list string)) (steps : list Step) (s : XState)
    : XState * (list Step * option error) :=
  match steps with
  | [] => (s, ([], None))
  | step :: steps' =>
      let '(s, (status, err)) := executeStep plan existingCRDOwners step s in
      let step := setStepStatus step status in
      match err with
      | Some err =>
          let err := if IsNotFound (Some err) then default err (queryForGVK (step_Resource step)) else err in
          (s, (step :: steps', Some err))
      | None => let '(s, (done, err)) := executeSteps plan existingCRDOwners steps' s in (s, (step :: done, err))
      end
  end.

Definition withSteps (p : InstallPlan) (steps : list Step) : InstallPlan :=
  let s := ip_Status p in
  setPlanStatus p (mkIPStatus (ipt_Phase s) (ipt_Conditions s) (ipt_CatalogSources s) steps (ipt_BundleLookups s)
    (ipt_AttenuatedServiceAccountRef s) (ipt_StartTime s) (ipt_Message s)).

(** [ExecutePlan], on a history of writes: [None] is the panic for a plan that is not being installed.  The
    last loop of the source has no effect. *)
Definition executePlan (h : History) (plan : InstallPlan) : option (History * InstallPlan * option error) :=
  if negb (bool_decide (ipt_Phase (ip_Status plan) = InstallPlanPhaseInstalling)) then None
  else
    Some match xe_listCSVs env (ip_Namespace plan) with
    | inl err => (h, plan, Some err)
    | inr csvs =>
        match xe_clients env plan with
        | Some err => (h, plan, Some err)
        | None =>
            let '(s, (steps, err)) := executeSteps plan (getExistingAPIOwners csvs) (ipt_Plan (ip_Status plan)) (mkX h ∅) in
            (x_history s, withSteps plan steps, err)
        end
    end.
End ensure.

(** ** What is written *)

(** A computation only adds writes that satisfy [P]. *)
Definition adds (P : Write -> Prop) {A} (m : XState -> XState * A) : Prop :=
  forall s, exists ws, x_history (m s).1 = x_history s ++ ws /\ Forall P ws.

Create HintDb adds.

Section adds.
Context (P : Write -> Prop).

Lemma adds_none {A} (m : XState -> XState * A) : (forall s, x_history (m s).1 = x_history s) -> adds P m.
Proof. intros Hm s. exists []. rewrite app_nil_r. split; [apply Hm|constructor]. Qed.
Lemma adds_ret {A} (x : A) : adds P (xret x).
Proof. by apply adds_none. Qed.
Lemma adds_fail {A} err : adds P (xfail (A := A) err).
Proof. by apply adds_none. Qed.
Lemma adds_lift {A} (r : error + A) : adds P (xlift r).
Proof. by apply adds_none. Qed.
Lemma adds_ask {A} (f : History -> A) : adds P (ask f).
Proof. by apply adds_none. Qed.
Lemma adds_orWrap {A} (r : error + A) msg : adds P (orWrap r msg).
Proof. destruct r; by apply adds_none. Qed.
Lemma adds_bind_val {A B} (m : X A) (k : A -> X B) (Q : A -> Prop) :
  adds P m -> (forall s s' x, m s = (s', inr x) -> Q x) -> (forall x, Q x -> adds P (k x)) -> adds P (xbind m k).
Proof.
  intros Hm HQ Hk s. unfold xbind. destruct (Hm s) as (ws & Hws & Hall). destruct (m s) as [s' [err|x]] eqn:E; [by exists ws|].
  destruct (Hk x (HQ _ _ _ E) s') as (ws' & Hws' & Hall'). exists (ws ++ ws'). simpl in Hws. rewrite Hws', Hws, app_assoc. split; [done|by apply Forall_app].
Qed.
Lemma adds_bind {A B} (m : X A) (k : A -> X B) : adds P m -> (forall x, adds P (k x)) -> adds P (xbind m k).
Proof. intros Hm Hk. apply (adds_bind_val m k (fun _ => True)); auto. Qed.
Lemma adds_write env w : P w -> adds P (write env w).
Proof. intros Hw s. exists [w]. split; [done|by apply Forall_singleton]. Qed.

Section ensurers.
Context `{RangeOrder} (env : ExecEnv).

Lemma adds_createOr kind ns r msg exists_ : P (Create kind ns r) -> adds P exists_ -> adds P (createOr env kind ns r msg exists_).
Proof.
  intros Hw He. apply adds_bind; [by apply adds_write|]. intros [err|]; [|apply adds_ret]. destruct (IsAlreadyExists _); [done|apply adds_fail].
Qed.
Lemma adds_updateTo kind ns r msg : P (Update kind ns r) -> adds P (updateTo env kind ns r msg).
Proof. intros Hw. apply adds_bind; [by apply adds_write|]. intros [err|]; [apply adds_fail|apply adds_ret]. Qed.
End ensurers.
End adds.

#[export] Hint Resolve adds_ret adds_fail adds_lift adds_ask adds_orWrap adds_createOr adds_updateTo : adds.

(** An object that is written belongs to the plan: it carries the label of managed objects, and it is
    in the plan's namespace unless it is not in a namespace at all. *)
Definition managed (r : Resource) : Prop := default ∅ (Labels (r_obj r)) !! OLMManagedLabelKey = Some OLMManagedLabelValue.
Definition ours (ns : string) (w : Write) : Prop :=
  managed (written w) /\ (writtenIn w = None \/ (writtenIn w = Some ns /\ r_Namespace (written w) = ns)).

Lemma managed_manage r : managed (manage r).
Proof. unfold managed, manage. simpl. by rewrite lookup_insert_eq. Qed.
Lemma managed_inNamespace r ns : managed (inNamespace r ns) <-> managed r.
Proof. done. Qed.
Lemma managed_ownerLabel r owner : managed r -> managed (withObj r (setLabel (r_obj r) OwnerKey owner)).
Proof. unfold managed. simpl. intros Hm. by rewrite lookup_insert_ne. Qed.

Section ours.
Context `{RangeOrder} (env : ExecEnv) (ns : string).
Abbreviation adds_ours := (adds (ours ns)).

Lemma EnsureNamespaced_ours kind msg msg' r :
  managed r -> r_Namespace r = ns -> adds_ours (createOr env kind (Some ns) r msg (updateTo env kind (Some ns) (inNamespace r ns) msg')).
Proof. intros Hm Hn. apply adds_createOr; [split; [done|by right]|]. apply adds_updateTo. split; [done|by right]. Qed.

Lemma EnsureCluster_ours kind msg msg' r owner :
  managed r -> adds_ours (createOr env kind None r msg (updateTo env kind None (withObj r (setLabel (r_obj r) OwnerKey owner)) msg')).
Proof. intros Hm. apply adds_createOr; [split; [done|by left]|]. apply adds_updateTo. split; [by apply managed_ownerLabel|by left]. Qed.

Lemma EnsureServiceAccount_ours sa : managed sa -> r_Namespace sa = ns -> adds_ours (EnsureServiceAccount env ns sa).
Proof.
  intros Hm Hn. apply adds_createOr; [split; [done|by right]|]. apply adds_bind; [auto with adds|]. intros got.
  apply adds_bind; [auto with adds|]. intros pre. cbv zeta. destruct (xe_derivative _ _ _); [auto with adds|].
  apply adds_updateTo. split; [exact Hm|by right].
Qed.

Lemma EnsureSecret_ours operatorNamespace name : adds_ours (EnsureSecret env operatorNamespace ns name).
Proof.
  apply adds_bind; [auto with adds|]. intros [err|secret]; [destruct (IsNotFound _); auto with adds|].
  apply adds_bind; [apply adds_write; split; [|by right]|].
  - unfold managed. simpl. by rewrite lookup_singleton_eq.
  - intros [err|]; [|auto with adds]. destruct (IsAlreadyExists _); auto with adds.
Qed.

Lemma EnsureUnstructured_ours gvk n r : managed r -> n = None \/ (n = Some ns /\ r_Namespace r = ns) -> adds_ours (EnsureUnstructuredObject env gvk n r).
Proof.
  intros Hm Hn. apply adds_createOr; [by split|]. apply adds_bind; [auto with adds|]. intros got.
  apply adds_bind; [auto with adds|]. intros original. apply adds_updateTo. by split.
Qed.

Lemma adds_refs {A} refs (k : list OwnerReference -> X A) (f : error -> error) :
  (forall x, adds_ours (k x)) ->
  adds_ours (xbind (fun s => match getUpdatedOwnerReferences env refs ns s with (s', inl err) => (s', inl (f err)) | ok => ok end) k).
Proof.
  intros Hk. apply adds_bind; [|done]. apply adds_none. intros s. unfold getUpdatedOwnerReferences. by destruct (updatedRefs _ _ _).
Qed.

Section plan.
Context (plan : InstallPlan) (Hns : ip_Namespace plan = ns).

Lemma prepareObject_val msg r s s' x : prepareObject env plan msg r s = (s', inr x) -> managed x /\ r_Namespace x = ns.
Proof using Hns.
  unfold prepareObject, xbind. destruct (match getUpdatedOwnerReferences _ _ _ _ with (_, _) => _ end) as [s1 [err|refs]]; [done|].
  intros [= <- <-]. split; [apply managed_manage|exact Hns].
Qed.

Lemma adds_prepare {A} msg r (k : Resource -> X A) :
  (forall x, managed x -> r_Namespace x = ns -> adds_ours (k x)) -> adds_ours (xbind (prepareObject env plan msg r) k).
Proof using Hns.
  intros Hk. apply (adds_bind_val _ _ _ (fun x => managed x /\ r_Namespace x = ns)); [|apply prepareObject_val|by intros x [? ?]; apply Hk].
  unfold prepareObject. rewrite Hns. apply adds_refs. intros x. apply adds_ret.
Qed.

Lemma executeKind_ours owners step manifest : adds_ours (executeKind env plan owners step manifest).
Proof using Hns.
  unfold executeKind. cbv zeta.
  repeat (case_bool_decide; [|]).
  - unfold executeCSV. apply adds_bind; [apply adds_orWrap|]. intros [csv r]. apply adds_bind; [case_bool_decide; auto with adds|]. intros [|]; [auto with adds|].
    apply adds_createOr; [|auto with adds]. rewrite Hns. split; [apply managed_manage|by right].
  - apply adds_bind; [apply adds_orWrap|]. intros sub. cbv zeta. apply adds_createOr; [|auto with adds]. rewrite Hns. split; [apply managed_manage|by right].
  - apply adds_bind; [apply adds_orWrap|]. intros r. apply adds_prepare. intros x Hm Hx. rewrite Hns. by apply EnsureNamespaced_ours.
  - rewrite Hns. apply EnsureSecret_ours.
  - apply adds_bind; [apply adds_orWrap|]. intros r. apply EnsureCluster_ours, managed_manage.
  - apply adds_bind; [apply adds_orWrap|]. intros r. apply EnsureCluster_ours, managed_manage.
  - apply adds_bind; [apply adds_orWrap|]. intros r. apply adds_prepare. intros x Hm Hx. rewrite Hns. by apply EnsureNamespaced_ours.
  - apply adds_bind; [apply adds_orWrap|]. intros r. apply adds_prepare. intros x Hm Hx. rewrite Hns. by apply EnsureNamespaced_ours.
  - apply adds_bind; [apply adds_orWrap|]. intros r. apply adds_prepare. intros x Hm Hx. rewrite Hns. by apply EnsureServiceAccount_ours.
  - apply adds_bind; [apply adds_orWrap|]. intros r. apply adds_prepare. intros x Hm Hx. rewrite Hns. by apply EnsureNamespaced_ours.
  - apply adds_bind; [apply adds_orWrap|]. intros r. apply adds_prepare. intros x Hm Hx. rewrite Hns. by apply EnsureNamespaced_ours.
  - unfold executeUnstructured. apply adds_bind; [apply adds_orWrap|]. intros r. cbv zeta. apply adds_bind; [apply adds_lift|]. intros [name namespaced]. cbn [snd].
    apply adds_bind.
    + case_bool_decide; [auto with adds|]. destruct namespaced; [rewrite Hns; apply adds_refs; auto with adds|].
      destruct (AddOwnerLabels _ _); auto with adds.
    + intros x. destruct namespaced; apply EnsureUnstructured_ours; [apply managed_inNamespace, managed_manage|right; by rewrite Hns|apply managed_manage|by left].
Qed.

Lemma updateLoop_ours version step steps attempt crd : managed (cd_meta crd) -> adds_ours (updateLoop env version ns step steps attempt crd).
Proof using.
  revert attempt crd. induction steps as [|steps IH]; intros attempt crd Hm; cbn [updateLoop]; [apply adds_ret|]. intros s.
  assert (exists ws, x_history (updateCRD env version ns step attempt crd s).1 = x_history s ++ ws /\ Forall (ours ns) ws /\
    managed (cd_meta (updateCRD env version ns step attempt crd s).2.1)) as (ws & Hws & Hall & Hm').
  { assert (forall r : XState * (CRDObject * option error), x_history r.1 = x_history s -> r.2.1 = crd ->
      exists ws, x_history r.1 = x_history s ++ ws /\ Forall (ours ns) ws /\ managed (cd_meta r.2.1)) as Hsame.
    { intros r Hh Hc. exists []. rewrite app_nil_r, Hc. split_and!; [done|constructor|done]. }
    unfold updateCRD. cbv zeta. case_match; [by apply Hsame|]. destruct (SafeStorageVersionUpgrade _ _ _) as [[|] [err|]]; [by apply Hsame| |by apply Hsame..].
    eexists. split; [reflexivity|]. split; [|exact Hm]. apply Forall_singleton. split; [exact Hm|by left]. }
  destruct (updateCRD env version ns step attempt crd s) as [s' [crd' [err|]]]; cbn [fst snd] in *; [|by exists ws].
  match goal with |- context [if ?b then _ else _] => destruct b end; [|by exists ws]. destruct (IH (S attempt) crd' Hm' s') as (ws' & Hws' & Hall').
  exists (ws ++ ws'). rewrite Hws', Hws, app_assoc. split; [done|by apply Forall_app].
Qed.

Lemma stepCRD_ours version step manifest : adds_ours (stepCRD env version ns step manifest).
Proof using.
  unfold stepCRD. cbv zeta. do 2 (case_bool_decide; [auto with adds|]). case_bool_decide.
  { apply adds_bind; [auto with adds|]. intros [err|crd]; [destruct (IsNotFound _)|destruct (_ && _)]; auto with adds. }
  destruct (_ || _); [|auto with adds]. apply adds_bind; [auto with adds|]. intros crd. apply adds_bind; [auto with adds|]. intros meta.
  apply adds_bind; [apply adds_write; split; [apply managed_manage|by left]|]. intros [err|]; [|auto with adds].
  destruct (IsAlreadyExists _); [|auto with adds]. apply adds_bind; [|auto with adds]. apply updateLoop_ours, managed_manage.
Qed.
End plan.
End ours.

(** ** Executing steps *)

Section execution.
Context `{RangeOrder} (env : ExecEnv).

Lemma ManifestForStep_reads namespace step s : x_history (ManifestForStep env namespace step s).1 = x_history s.
Proof.
  unfold ManifestForStep. destruct (refForStep env step) as [ref|]; [|done]. unfold xbind, unpackedStepsForBundle.
  destruct (x_unpacked s !! _); [by case_match|]. destruct (xe_unpackedSteps _ _ _); [done|]. by case_match.
Qed.

Lemma executeStep_ours plan owners step : adds (ours (ip_Namespace plan)) (executeStep env plan owners step).
Proof.
  intros s. unfold executeStep.
  pose proof (ManifestForStep_reads (ip_Namespace plan) step s) as Hm. destruct (ManifestForStep env (ip_Namespace plan) step s) as [s1 [err|manifest]].
  { exists []. rewrite app_nil_r. split; [exact Hm|constructor]. }
  cbn [fst] in Hm. rewrite <- Hm. clear Hm s. rename s1 into s.
  assert (forall m : X string, adds (ours (ip_Namespace plan)) m ->
    exists ws, x_history (match m s with (s, inl err) => (s, (step_Status step, Some err)) | (s, inr status) => (s, (status, None)) end).1 = x_history s ++ ws
      /\ Forall (ours (ip_Namespace plan)) ws) as Hkeep.
  { intros m Hadds. destruct (Hadds s) as (ws & Hws & Hall). exists ws. by destruct (m s) as [s' [err|status]]. }
  assert (forall r : XState * (string * option error), x_history r.1 = x_history s ->
    exists ws, x_history r.1 = x_history s ++ ws /\ Forall (ours (ip_Namespace plan)) ws) as Hnone.
  { intros r Hr. exists []. rewrite app_nil_r. split; [done|constructor]. }
  case_bool_decide.
  { apply Hkeep. apply adds_bind; [apply adds_lift|]. intros version. by apply stepCRD_ours. }
  case_bool_decide; [by apply Hnone|]. case_bool_decide; [|by apply Hnone].
  pose proof (ManifestForStep_reads (ip_Namespace plan) step s) as Hm. destruct (ManifestForStep env (ip_Namespace plan) step s) as [s1 [err|manifest']]; [by apply Hnone|].
  cbn [fst] in Hm. match goal with |- context [if ?b then _ else _] => destruct b end; [by apply Hnone|].
  destruct (executeKind_ours env (ip_Namespace plan) plan eq_refl owners step manifest' s1) as (ws & Hws & Hall).
  exists ws. rewrite <- Hm. by destruct (executeKind _ _ _ _ _ s1) as [s' [err|status]].
Qed.

Lemma executeSteps_ours plan owners steps : adds (ours (ip_Namespace plan)) (executeSteps env plan owners steps).
Proof.
  induction steps as [|step steps IH]; intros s; cbn [executeSteps]; [exists []; rewrite app_nil_r; split; [done|constructor]|].
  destruct (executeStep_ours plan owners step s) as (ws & Hws & Hall). destruct (executeStep env plan owners step s) as [s1 [status [err|]]]; [by exists ws|].
  destruct (IH s1) as (ws' & Hws' & Hall'). destruct (executeSteps env plan owners steps s1) as [s2 [done err]]. cbn [fst] in *.
  exists (ws ++ ws'). rewrite Hws', Hws, app_assoc. split; [done|by apply Forall_app].
Qed.

(** C33: executing a plan writes nothing but objects of the plan: whatever the manifests contain and
    the cluster answers, every object that is created or updated carries the label of managed
    objects, and every object in a namespace is in the namespace of the plan. *)
Theorem executePlan_stays_in_namespace (h h' : History) (plan plan' : InstallPlan) (err : option error) :
  executePlan env h plan = Some (h', plan', err) -> exists ws, h' = h ++ ws /\ Forall (ours (ip_Namespace plan)) ws.
Proof.
  unfold executePlan. destruct (negb _); [done|]. destruct (xe_listCSVs env _) as [e|csvs]; [intros [= <- _ _]; exists []; by rewrite app_nil_r|].
  destruct (xe_clients env plan) as [e|]; [intros [= <- _ _]; exists []; by rewrite app_nil_r|].
  pose proof (executeSteps_ours plan (getExistingAPIOwners csvs) (ipt_Plan (ip_Status plan)) (mkX h ∅)) as (ws & Hws & Hall).
  destruct (executeSteps _ _ _ _ _) as [s [steps e]]. intros [= <- _ _]. by exists ws.
Qed.

(** *** The statuses of the steps *)

Definition doneStatus : list string := [StepStatusCreated; StepStatusPresent].

(** What the status of a step may be after it has been executed without an error. *)
Definition executed (old new : Step) : Prop :=
  step_Resource new = step_Resource old /\ step_Resolving new = step_Resolving old /\
  (step_Status new ∈ doneStatus \/ step_Status new = StepStatusWaitingForAPI \/
   (sr_Kind (step_Resource old) = crdKind /\
    ((step_Status old = StepStatusWaitingForAPI /\ step_Status new ∈ [StepStatusUnknown; StepStatusNotPresent]) \/
     (step_Status old ∉ [StepStatusUnknown; StepStatusNotPresent; StepStatusWaitingForAPI] /\ step_Status new = StepStatusUnknown)))).

(** Every computation that ends well says that the object is created or present. *)
Definition endsDone (m : X string) : Prop := forall s s' status, m s = (s', inr status) -> status ∈ doneStatus.

Lemma endsDone_ret status : status ∈ doneStatus -> endsDone (xret status).
Proof. by intros ? ? ? ? [= <- <-]. Qed.
Lemma endsDone_fail err : endsDone (xfail err).
Proof. by intros ? ? ?. Qed.
Lemma endsDone_bind {A} (m : X A) k : (forall x, endsDone (k x)) -> endsDone (xbind m k).
Proof. intros Hk s s' status. unfold xbind. destruct (m s) as [s1 [err|x]]; [done|]. apply Hk. Qed.
Lemma created_done : StepStatusCreated ∈ doneStatus.
Proof. apply list_elem_of_here. Qed.
Lemma present_done : StepStatusPresent ∈ doneStatus.
Proof. apply list_elem_of_further, list_elem_of_here. Qed.
Lemma endsDone_createOr kind ns r msg e : endsDone e -> endsDone (createOr env kind ns r msg e).
Proof.
  intros He. apply endsDone_bind. intros [err|]; [destruct (IsAlreadyExists _); [done|apply endsDone_fail]|apply endsDone_ret, created_done].
Qed.
Lemma endsDone_updateTo kind ns r msg : endsDone (updateTo env kind ns r msg).
Proof. apply endsDone_bind. intros [err|]; [apply endsDone_fail|apply endsDone_ret, present_done]. Qed.
End execution.

#[export] Hint Resolve endsDone_fail endsDone_ret created_done present_done endsDone_createOr endsDone_updateTo : adds.

Section statuses.
Context `{RangeOrder} (env : ExecEnv).

Lemma executeKind_done plan owners step manifest : endsDone (executeKind env plan owners step manifest).
Proof.
  unfold executeKind. cbv zeta. repeat (case_bool_decide; [|]).
  - apply endsDone_bind. intros [csv r]. apply endsDone_bind. intros [|]; [auto with adds|]. unfold EnsureClusterServiceVersion. auto with adds.
  - apply endsDone_bind. intros r. cbv zeta. unfold EnsureSubscription. auto with adds.
  - do 2 (apply endsDone_bind; intros ?). unfold EnsureBundleSecret. auto with adds.
  - apply endsDone_bind. intros [err|secret]; [destruct (IsNotFound _); auto with adds|]. apply endsDone_bind.
    intros [err|]; [destruct (IsAlreadyExists _)|]; auto with adds.
  - apply endsDone_bind. intros r. unfold EnsureClusterRole. auto with adds.
  - apply endsDone_bind. intros r. unfold EnsureClusterRoleBinding. auto with adds.
  - do 2 (apply endsDone_bind; intros ?). unfold EnsureRole. auto with adds.
  - do 2 (apply endsDone_bind; intros ?). unfold EnsureRoleBinding. auto with adds.
  - do 2 (apply endsDone_bind; intros ?). apply endsDone_createOr. do 2 (apply endsDone_bind; intros ?). cbv zeta. destruct (xe_derivative _ _ _); auto with adds.
  - do 2 (apply endsDone_bind; intros ?). unfold EnsureService. auto with adds.
  - do 2 (apply endsDone_bind; intros ?). unfold EnsureConfigMap. auto with adds.
  - apply endsDone_bind. intros r. cbv zeta. apply endsDone_bind. intros res. apply endsDone_bind. intros x.
    destruct res.2; (apply endsDone_createOr; do 2 (apply endsDone_bind; intros ?); auto with adds).
Qed.

Lemma stepCRD_executed version namespace step manifest s s' status :
  sr_Kind (step_Resource step) = crdKind -> stepCRD env version namespace step manifest s = (s', inr status) -> executed step (setStepStatus step status).
Proof.
  intros Hk Hs. split; [done|]. split; [done|]. cbn [step_Status setStepStatus]. revert Hs. unfold stepCRD. cbv zeta.
  case_bool_decide as E1; [intros [= <- <-]; left; apply present_done|]. case_bool_decide as E2; [intros [= <- <-]; left; apply created_done|].
  case_bool_decide as E3.
  { unfold xbind, ask. destruct (xe_getCRD _ _ _ _) as [err|crd].
    - destruct (IsNotFound _); [|done]. intros [= <- <-]. right; right. split; [done|]. left. split; [done|apply list_elem_of_further, list_elem_of_here].
    - destruct (_ && _); intros [= <- <-]; [left; apply created_done|]. right; right. split; [done|]. left. split; [done|apply list_elem_of_here]. }
  destruct (bool_decide (step_Status step = StepStatusUnknown) || _) eqn:E4.
  - unfold xbind. destruct (xlift _ s) as [s1 [err|crd]]; [done|]. destruct (ask _ s1) as [s2 [err|meta]]; [done|]. destruct (write _ _ s2) as [s3 [err|[err|]]]; [done| |].
    + destruct (IsAlreadyExists _); [|done]. destruct (updateLoop _ _ _ _ _ _ _ s3) as [s4 [e|[]]]; [done|]. intros [= <- <-]. left. apply present_done.
    + intros [= <- <-]. right; by left.
  - intros [= <- <-]. right; right. split; [done|]. right. split; [|done]. apply orb_false_iff in E4 as [E4 E5]. bools.
    intros [?|[?|?%list_elem_of_singleton]%elem_of_cons]%elem_of_cons; done.
Qed.

Lemma executeStep_executed plan owners step s s' status :
  executeStep env plan owners step s = (s', (status, None)) -> executed step (setStepStatus step status).
Proof.
  unfold executeStep. destruct (ManifestForStep env _ step s) as [s1 [err|manifest]]; [done|]. case_bool_decide as Hk.
  { destruct (xbind _ _ s1) as [s2 [err|st]] eqn:E; [done|]. intros [= <- <-]. unfold xbind, xlift in E. destruct (crdVersion env manifest) as [err|version]; [done|].
    by apply (stepCRD_executed version (ip_Namespace plan) step manifest s1 s2). }
  case_bool_decide as E1.
  { intros [= <- <-]. split; [done|]. split; [done|]. cbn [step_Status setStepStatus].
    apply elem_of_cons in E1 as [->|E1]; [left; apply present_done|]. apply elem_of_cons in E1 as [->|E1]; [left; apply created_done|].
    right; left. by apply list_elem_of_singleton in E1. }
  case_bool_decide as E2; [|done]. destruct (ManifestForStep env _ step s1) as [s2 [err|manifest']]; [done|].
  match goal with |- context [if ?b then _ else _] => destruct b end; [done|].
  destruct (executeKind env plan owners step manifest' s2) as [s3 [err|st]] eqn:E; [done|]. intros [= <- <-].
  split; [done|]. split; [done|]. left. by apply (executeKind_done plan owners step manifest' s2 s3).
Qed.

(** Steps keep what they are; when there is no error all have been executed. *)
Lemma executeSteps_executed plan owners steps s s' done err :
  executeSteps env plan owners steps s = (s', (done, err)) ->
  Forall2 (fun old new => exists status, new = setStepStatus old status) steps done /\ (err = None -> Forall2 executed steps done).
Proof.
  revert s s' done err. induction steps as [|step steps IH]; intros s s' done err; cbn [executeSteps]; [by intros [= <- <- <-]|].
  destruct (executeStep env plan owners step s) as [s1 [status [e|]]] eqn:E.
  - intros [= <- <- <-]. split; [|done]. constructor; [by eexists|]. apply Forall2_same_length_lookup. split; [done|]. intros i x y Hx Hy.
    rewrite Hx in Hy. injection Hy as <-. exists (step_Status x). by destruct x.
  - destruct (executeSteps env plan owners steps s1) as [s2 [done' err']] eqn:E2. intros [= <- <- <-]. apply IH in E2 as [H1 H2].
    split; [constructor; [by eexists|done]|]. intros He. constructor; [by apply (executeStep_executed plan owners step s s1)|by apply H2].
Qed.

(** The operator as the transitioner of the install state machine, from a history of writes on.  The
    panic cannot happen there, see [transition_no_panic]. *)
Definition operatorExecutor (h : History) : InstallPlanTransitioner.
Proof.
  refine {| ExecutePlan p := match executePlan env h p with Some (_, p', err) => (p', err) | None => (p, Some (ErrString "panic")) end |}.
  intros p. unfold executePlan. destruct (negb _); [by exists (ipt_Plan (ip_Status p)); destruct p as [? ? ? []]|].
  destruct (xe_listCSVs _ _); [by exists (ipt_Plan (ip_Status p)); destruct p as [? ? ? []]|].
  destruct (xe_clients _ _); [by exists (ipt_Plan (ip_Status p)); destruct p as [? ? ? []]|].
  destruct (executeSteps _ _ _ _ _) as [s [steps err]]. by exists steps.
Defined.

Lemma transition_no_panic h p now : ipt_Phase (ip_Status p) = InstallPlanPhaseInstalling -> is_Some (executePlan env h (started p now)).
Proof. intros Hp. unfold executePlan. rewrite (bool_decide_true (ipt_Phase (ip_Status (started p now)) = _)) by exact Hp. by eexists. Qed.

Lemma executePlan_executed h p now :
  ipt_Phase (ip_Status p) = InstallPlanPhaseInstalling -> (@ExecutePlan (operatorExecutor h) (started p now)).2 = None ->
  Forall2 executed (ipt_Plan (ip_Status p)) (ipt_Plan (ip_Status (@ExecutePlan (operatorExecutor h) (started p now)).1)).
Proof.
  intros Hp. unfold ExecutePlan, operatorExecutor, executePlan.
  rewrite (bool_decide_true (ipt_Phase (ip_Status (started p now)) = _)) by exact Hp. cbn [negb].
  destruct (xe_listCSVs env _) as [e|csvs]; [done|]. destruct (xe_clients _ _); [done|].
  destruct (executeSteps _ _ _ _ _) as [s [steps err]] eqn:E. cbn [snd fst]. intros ->.
  apply executeSteps_executed in E as [_ Hall]. by apply Hall.
Qed.

(** C34: an install plan that becomes complete has installed what it lists: every step that is not a
    custom resource definition is created or present.  A definition is too, except one that an
    earlier attempt created and whose API was not available yet when it was looked at again. *)
Theorem complete_plan_installed (h : History) (p : InstallPlan) (now : Time) (timeout : Z) :
  ipt_Phase (ip_Status p) = InstallPlanPhaseInstalling ->
  let out := (@transitionInstallPlanState (operatorExecutor h) p now timeout).1 in
  ipt_Phase (ip_Status out) = InstallPlanPhaseComplete ->
  Forall2 (fun old new => step_Resource new = step_Resource old /\
    (step_Status new ∈ doneStatus \/
     (sr_Kind (step_Resource old) = crdKind /\ step_Status old ∉ [StepStatusUnknown; StepStatusNotPresent] /\
      step_Status new ∈ [StepStatusUnknown; StepStatusNotPresent])))
    (ipt_Plan (ip_Status p)) (ipt_Plan (ip_Status out)).
Proof.
  intros Hp out Hout. unfold out in *. clear out.
  destruct (@ExecutePlan_keeps (operatorExecutor h) (started p now)) as (_ & _ & Hph & _).
  assert (phase (@ExecutePlan (operatorExecutor h) (started p now)).1 <> InstallPlanPhaseComplete) as Hi by (rewrite Hph; cbn; by rewrite Hp).
  destruct (@transition_cases (operatorExecutor h) p now timeout) as [Hq|Hq|Hn1 Hn2|out e msg _ _ _ ->|out e _ _ _ ->|out _ [Hnone Hreq] ->|_ Hn Hr];
    [by rewrite Hp in Hq..|done|cbn in Hout; by rewrite Hp in Hout|done| |done].
  pose proof (executePlan_executed h p now Hp Hnone) as Hall. cbn [fst ip_Status setPlanStatus setPhase Plan_SetCondition ipt_Plan].
  unfold NeedsRequeue in Hreq. revert Hall Hreq. generalize (ipt_Plan (ip_Status (@ExecutePlan (operatorExecutor h) (started p now)).1)) as news.
  intros news Hall. induction Hall as [|old new olds news Hex _ IH]; [constructor|]. cbn [existsb]. intros [Hw Hreq]%orb_false_iff.
  apply bool_decide_eq_false in Hw. constructor; [|by apply IH]. destruct Hex as (Hr & _ & [Hd|[Hd|(Hk & Hcrd)]]); [split; auto|done|].
  split; [done|]. right. split; [done|]. destruct Hcrd as [[Ho Hn]|[Ho ->]].
  - split; [rewrite Ho; apply (bool_decide_unpack _); by vm_compute|done].
  - split; [|apply list_elem_of_here]. intros Hin. apply Ho. apply elem_of_cons in Hin as [->| ->%list_elem_of_singleton]; [apply list_elem_of_here|apply list_elem_of_further, list_elem_of_here].
Qed.

(** *** Plans that are executed again *)

Lemma executeStep_skips plan owners step s :
  step_Status step ∈ doneStatus -> exists s' err, executeStep env plan owners step s = (s', (step_Status step, err)) /\ x_history s' = x_history s.
Proof.
  intros Hd. unfold executeStep. pose proof (ManifestForStep_reads env (ip_Namespace plan) step s) as Hm.
  destruct (ManifestForStep env _ step s) as [s1 [err|manifest]]; [by eexists _, _|]. cbn [fst] in Hm. case_bool_decide.
  { unfold xbind, xlift. destruct (crdVersion env manifest); [by eexists _, _|]. unfold stepCRD.
    apply elem_of_cons in Hd as [->| ->%list_elem_of_singleton]; by eexists _, _. }
  rewrite bool_decide_true; [by eexists _, _|].
  apply elem_of_cons in Hd as [->| ->%list_elem_of_singleton]; [apply list_elem_of_further, list_elem_of_here|apply list_elem_of_here].
Qed.

(** Executing a plan whose steps are all done writes nothing and changes nothing. *)
Lemma executePlan_done h plan :
  phase plan = InstallPlanPhaseInstalling -> Forall (fun step => step_Status step ∈ doneStatus) (ipt_Plan (ip_Status plan)) ->
  exists err, executePlan env h plan = Some (h, plan, err).
Proof.
  intros Hp Hd. unfold executePlan. rewrite bool_decide_true by done. cbn [negb].
  destruct (xe_listCSVs env _) as [e|csvs]; [by eexists|]. destruct (xe_clients env plan); [by eexists|].
  assert (forall steps s, Forall (fun step => step_Status step ∈ doneStatus) steps ->
    exists s' err, executeSteps env plan (getExistingAPIOwners csvs) steps s = (s', (steps, err)) /\ x_history s' = x_history s) as Hall.
  { induction steps as [|step steps IH]; intros s Hs; [by eexists _, _|]. apply Forall_cons in Hs as [H1 H2]. cbn [executeSteps].
    destruct (executeStep_skips plan (getExistingAPIOwners csvs) step s H1) as (s1 & err & -> & Hh).
    replace (setStepStatus step (step_Status step)) with step by (by destruct step). destruct err as [err|]; [by eexists _, _|].
    destruct (IH s1 H2) as (s2 & err & -> & Hh2). eexists _, _. split; [done|congruence]. }
  destruct (Hall _ (mkX h ∅) Hd) as (s & err & -> & Hh). exists err. cbn in Hh. rewrite Hh. by destruct plan as [? ? ? []].
Qed.

(** *** Definitions whose API is not there *)

(** A plan is called complete although the API it waits for is not there: when a custom resource
    definition was created and is looked at again before it is established, its step is set to
    unknown, for which nothing waits, and the plan is complete. *)
Theorem complete_without_api (h : History) (p : InstallPlan) (now : Time) (timeout : Z) (step : Step) (csvs : list CSV) (version : string) (crd : CRDObject) :
  phase p = InstallPlanPhaseInstalling -> ipt_Plan (ip_Status p) = [step] ->
  sr_Kind (step_Resource step) = crdKind -> step_Status step = StepStatusWaitingForAPI ->
  xe_listCSVs env (ip_Namespace p) = inr csvs -> (forall q, xe_clients env q = None) -> refForStep env step = None ->
  crdVersion env (sr_Manifest (step_Resource step)) = inr version ->
  xe_getCRD env h 0 (sr_Name (step_Resource step)) = inr crd -> crdConditionTrue "Established" crd = false ->
  let out := (@transitionInstallPlanState (operatorExecutor h) p now timeout).1 in
  phase out = InstallPlanPhaseComplete /\ step_Status <$> ipt_Plan (ip_Status out) = [StepStatusUnknown].
Proof.
  intros Hp Hplan Hk Hs Hcsvs Hcl Href Hv Hcrd He.
  assert (executePlan env h (started p now) = Some (h, withSteps (started p now) [setStepStatus step StepStatusUnknown], None)) as Hx.
  { unfold executePlan. rewrite bool_decide_true by done. cbn [negb]. change (ip_Namespace (started p now)) with (ip_Namespace p).
    rewrite Hcsvs, Hcl. change (ipt_Plan (ip_Status (started p now))) with (ipt_Plan (ip_Status p)). rewrite Hplan. cbn [executeSteps].
    unfold executeStep, ManifestForStep. rewrite Href. cbn [xret]. rewrite (bool_decide_true (sr_Kind _ = crdKind)) by done.
    unfold xbind, xlift. rewrite Hv. unfold stepCRD. rewrite Hs. do 2 rewrite bool_decide_false by done. rewrite bool_decide_true by done.
    unfold xbind, ask. cbn [x_history]. rewrite Hcrd, He. done. }
  unfold transitionInstallPlanState. rewrite (bool_decide_false (ipt_Phase _ = InstallPlanPhaseRequiresApproval)) by (by rewrite Hp).
  rewrite bool_decide_true by done. fold (started p now). unfold ExecutePlan, operatorExecutor. rewrite Hx. done.
Qed.
End statuses.

(** *** Plans that are completed *)

(** The cluster as one sync of a plan finds it. *)
Record SyncEnv := mkSyncEnv { sy_plan : PlanEnv; sy_exec : ExecEnv; sy_history : History }.

Section completion.
Context `{RangeOrder} (ref : option ObjectReference).

Definition executorAt (y : SyncEnv) : InstallPlanTransitioner := operatorExecutor (sy_exec y) (sy_history y).
Definition syncAt (y : SyncEnv) (p : InstallPlan) : PlanSync := @syncInstallPlans (executorAt y) (sy_plan y) p.
Definition syncedAt (y : SyncEnv) (p : InstallPlan) : InstallPlan := @synced (executorAt y) (sy_plan y) p.

(** The statuses of the steps of a plan that has been created and perhaps been executed: only custom
    resource definitions wait for an API. *)
Definition isCRD (step : Step) : Prop := sr_Kind (step_Resource step) = crdKind.
Definition waits (step : Step) : Prop := isCRD step /\ step_Status step = StepStatusWaitingForAPI.
Definition pendingStatus : list string := [StepStatusUnknown; StepStatusNotPresent].
Definition isDone (step : Step) : Prop := step_Status step ∈ doneStatus.
Definition known (step : Step) : Prop := isDone step \/ step_Status step ∈ pendingStatus \/ waits step.

(** A definition that is waited for is there, established and with its names accepted. *)
Definition established (env : ExecEnv) (h : History) (step : Step) : Prop :=
  waits step -> forall ws, exists crd, xe_getCRD env (h ++ ws) 0 (sr_Name (step_Resource step)) = inr crd /\
    crdConditionTrue "Established" crd = true /\ crdConditionTrue "NamesAccepted" crd = true.

(** A sync that reports no error, while the service account of the namespace is the same. *)
Record quiet (y : SyncEnv) (p : InstallPlan) : Prop := {
  qu_stored : answersStored (sy_plan y);
  qu_account : pe_querier (sy_plan y) (ip_Namespace p) = inr ref;
  qu_established : Forall (established (sy_exec y) (sy_history y)) (ipt_Plan (ip_Status p));
  qu_err : pl_err (syncAt y p) = None;
}.

(** Syncs one after the other, in clusters that differ. *)
Inductive quietly : list SyncEnv -> InstallPlan -> InstallPlan -> Prop :=
  | quietly_nil p : quietly [] p p
  | quietly_cons y ys p q : quiet y p -> quietly ys (syncedAt y p) q -> quietly (y :: ys) p q.

(** What a step is after it has been executed without an error: done, or a definition just created. *)
Definition progressed (old new : Step) : Prop :=
  step_Resource new = step_Resource old /\ (isDone new \/ (waits new /\ step_Status old ∈ pendingStatus)).

Lemma waiting_not_done : StepStatusWaitingForAPI ∉ doneStatus ++ pendingStatus.
Proof. apply (bool_decide_unpack _). by vm_compute. Qed.

Lemma pending_apart status : status ∈ pendingStatus -> status ∉ StepStatusWaitingForAPI :: doneStatus.
Proof. intros [->| ->%list_elem_of_singleton]%elem_of_cons; apply (bool_decide_unpack _); by vm_compute. Qed.

Lemma stepCRD_progress env version namespace step manifest s s' status h ws :
  isCRD step -> known step -> established env h step -> x_history s = h ++ ws ->
  stepCRD env version namespace step manifest s = (s', inr status) -> progressed step (setStepStatus step status).
Proof.
  intros Hk Hkn Hest Hh Hs. split; [done|]. revert Hs. unfold stepCRD, isDone, waits. cbv zeta. cbn [step_Status setStepStatus].
  case_bool_decide as E1; [intros [= <- <-]; left; apply present_done|]. case_bool_decide as E2; [intros [= <- <-]; left; apply created_done|].
  case_bool_decide as E3.
  { destruct (Hest (conj Hk E3) ws) as (crd & Hg & He & Hn). unfold xbind, ask. rewrite Hh, Hg, He, Hn. intros [= <- <-]. left. apply created_done. }
  assert (step_Status step ∈ pendingStatus) as Hp.
  { destruct Hkn as [Hd|[Hp|[_ Hw]]]; [|done|done]. by apply elem_of_cons in Hd as [?|?%list_elem_of_singleton]. }
  destruct (bool_decide (step_Status step = StepStatusUnknown) || _) eqn:E4.
  - unfold xbind. destruct (xlift _ s) as [s1 [err|crd]]; [done|]. destruct (ask _ s1) as [s2 [err|meta]]; [done|]. destruct (write _ _ s2) as [s3 [err|[err|]]]; [done| |].
    + destruct (IsAlreadyExists _); [|done]. destruct (updateLoop _ _ _ _ _ _ _ s3) as [s4 [e|[]]]; [done|]. intros [= <- <-]. left. apply present_done.
    + intros [= <- <-]. by right.
  - apply orb_false_iff in E4 as [E4 E5]. bools. by apply elem_of_cons in Hp as [?|?%list_elem_of_singleton].
Qed.

Lemma executeStep_progress env plan owners step s s' status h ws :
  known step -> established env h step -> x_history s = h ++ ws ->
  executeStep env plan owners step s = (s', (status, None)) -> progressed step (setStepStatus step status).
Proof.
  intros Hkn Hest Hh. pose proof (ManifestForStep_reads env (ip_Namespace plan) step s) as Hm.
  destruct (decide (isCRD step)) as [Hk|Hk].
  - unfold executeStep. destruct (ManifestForStep env _ step s) as [s1 [err|manifest]]; [done|]. rewrite bool_decide_true by done.
    destruct (xbind _ _ s1) as [s2 [err|st]] eqn:E; [done|]. intros [= <- <-]. unfold xbind, xlift in E. destruct (crdVersion env manifest) as [err|version]; [done|].
    apply (stepCRD_progress env version (ip_Namespace plan) step manifest s1 s2 st h ws); [done..| |done]. cbn in Hm. congruence.
  - intros Hx. pose proof Hx as (_ & _ & [Hd|[Hd|[? _]]])%executeStep_executed; [by split; [|left]| |done]. cbn in Hd. subst status.
    revert Hx. unfold executeStep. destruct (ManifestForStep env _ step s) as [s1 [err|manifest]]; [done|]. rewrite bool_decide_false by done.
    case_bool_decide as E1.
    { intros [= _ Hw]. destruct Hkn as [Hd|[Hd|[? _]]]; [..|done]; destruct waiting_not_done; rewrite <- Hw; apply elem_of_app; auto. }
    case_bool_decide as E2; [|done]. destruct (ManifestForStep env _ step s1) as [s2 [err|manifest']]; [done|].
    match goal with |- context [if ?b then _ else _] => destruct b end; [done|].
    destruct (executeKind env plan owners step manifest' s2) as [s3 [err|st]] eqn:E; [done|]. intros [= _ ->].
    apply executeKind_done in E. destruct waiting_not_done. apply elem_of_app; auto.
Qed.

Lemma executeSteps_progress env plan owners h steps : Forall known steps -> Forall (established env h) steps ->
  forall s s' done ws, x_history s = h ++ ws -> executeSteps env plan owners steps s = (s', (done, None)) -> Forall2 progressed steps done.
Proof.
  induction 1 as [|step steps Hkn _ IH]; intros Hest s s' done ws Hh; cbn [executeSteps]; [by intros [= _ <-]|].
  apply Forall_cons in Hest as [He Hest]. destruct (executeStep_ours env plan owners step s) as (ws1 & Hh1 & _).
  destruct (executeStep env plan owners step s) as [s1 [status [e|]]] eqn:E; [done|]. cbn [fst] in Hh1.
  destruct (executeSteps env plan owners steps s1) as [s2 [done' err']] eqn:E2. intros [= <- <- ->]. constructor.
  - by apply (executeStep_progress env plan owners step s s1 status h ws).
  - apply (IH Hest s1 s2 done' (ws ++ ws1)); [|done]. by rewrite Hh1, Hh, <- app_assoc.
Qed.

Lemma ExecutePlan_progress y p now :
  phase p = InstallPlanPhaseInstalling -> Forall known (ipt_Plan (ip_Status p)) ->
  Forall (established (sy_exec y) (sy_history y)) (ipt_Plan (ip_Status p)) -> (@ExecutePlan (executorAt y) (started p now)).2 = None ->
  Forall2 progressed (ipt_Plan (ip_Status p)) (ipt_Plan (ip_Status (@ExecutePlan (executorAt y) (started p now)).1)).
Proof.
  intros Hp Hkn Hest. unfold ExecutePlan, executorAt, operatorExecutor, executePlan.
  rewrite (bool_decide_true (ipt_Phase (ip_Status (started p now)) = _)) by exact Hp. cbn [negb].
  destruct (xe_listCSVs _ _) as [e|csvs]; [done|]. destruct (xe_clients _ _); [done|].
  destruct (executeSteps _ _ _ _ _) as [s [steps err]] eqn:E. cbn [snd fst]. intros ->.
  by eapply (executeSteps_progress _ _ _ _ _ Hkn Hest _ _ _ []); [|exact E]; rewrite app_nil_r.
Qed.

(** How many more syncs a plan needs at most. *)
Definition stage (n : nat) (q : InstallPlan) : Prop :=
  let steps := ipt_Plan (ip_Status q) in
  match n with
  | 0%nat => phase q = InstallPlanPhaseComplete /\ Forall isDone steps
  | 1%nat => active q /\ attached ref q /\ phase q = InstallPlanPhaseInstalling /\ Forall (fun s => isDone s \/ waits s) steps
  | 2%nat => active q /\ attached ref q /\ phase q = InstallPlanPhaseInstalling /\ Forall known steps
  | 3%nat => active q /\ attached ref q /\ phase q = InstallPlanPhaseRequiresApproval /\ ips_Approved (ip_Spec q) = true /\ Forall known steps
  | _ => active q /\ (phase q = InstallPlanPhaseRequiresApproval \/ phase q = InstallPlanPhaseInstalling) /\ ips_Approved (ip_Spec q) = true /\ Forall known steps
  end.
Definition sameSteps (p q : InstallPlan) : Prop :=
  ip_obj q = ip_obj p /\ step_Resource <$> ipt_Plan (ip_Status q) = step_Resource <$> ipt_Plan (ip_Status p).

Lemma progressed_sameSteps olds news : Forall2 progressed olds news -> step_Resource <$> news = step_Resource <$> olds.
Proof. induction 1 as [|? ? ? ? [Hr _] _ IH]; [done|]. cbn. by rewrite Hr, IH. Qed.

Lemma progressed_done olds news :
  Forall2 progressed olds news -> Forall (fun s => isDone s \/ waits s) news /\
  (Forall (fun s => isDone s \/ waits s) olds \/ existsb (fun s => bool_decide (step_Status s = StepStatusWaitingForAPI)) news = false -> Forall isDone news).
Proof.
  induction 1 as [|old new olds news [_ Hn] _ [IH1 IH2]]; [split; constructor|]. split; [constructor; [naive_solver|done]|].
  cbn [existsb]. intros Hc. constructor.
  - destruct Hn as [?|[Hw Hp]]; [done|]. exfalso. destruct Hc as [[Hd _]%Forall_cons|[Hd%bool_decide_eq_false _]%orb_false_iff]; [|by destruct Hw].
    apply (pending_apart _ Hp). apply elem_of_cons. destruct Hd as [?|[_ ?]]; auto.
  - apply IH2. destruct Hc as [[_ ?]%Forall_cons|[_ ?]%orb_false_iff]; auto.
Qed.

(** A plan that is being installed is complete after the sync, or waits for definitions it has created. *)
Lemma plan_install_advances y p p' out now timeout :
  quiet y p -> active p -> phase p = InstallPlanPhaseInstalling -> Forall known (ipt_Plan (ip_Status p)) -> sameRun p p' -> attached ref p' ->
  @transitionInstallPlanState (executorAt y) p' now timeout = (out, None) ->
  sameSteps p out /\ (stage 0 out \/ (stage 1 out /\ ~ Forall (fun s => isDone s \/ waits s) (ipt_Plan (ip_Status p)))).
Proof.
  intros Hq Ha Hp Hkn (Hs & Ho & Hp' & _ & Hpl & Hbl) Hatt Htr. pose proof (qu_established _ _ Hq) as Hest. rewrite <- Hpl in Hkn, Hest.
  rewrite Hp in Hp'. destruct (@install_quiet (executorAt y) p' now timeout out Hp' Htr) as (Hnone & Hobj & Hplan & Hlook & Hacc & Hph).
  pose proof (ExecutePlan_progress y p' now Hp' Hkn Hest Hnone) as Hprog. rewrite <- Hplan in Hprog.
  destruct (progressed_done _ _ Hprog) as [Hd Hall]. rewrite Hpl in Hprog, Hall.
  split; [split; [congruence|by apply progressed_sameSteps]|]. destruct (NeedsRequeue (ip_Status out)) eqn:Hreq.
  - right. split.
    + split_and!; [|unfold attached; by rewrite Hacc|done|done]. split_and!; [|by rewrite Hph..]. rewrite Hlook, Hbl.
      destruct Ha as [[Hne|Hne] _]; [left|by right]. intros Hnil. rewrite Hnil in Hprog. by apply Forall2_nil_inv_r in Hprog.
    + intros Hf. assert (Forall isDone (ipt_Plan (ip_Status out))) as Hdone by (by apply Hall; left).
      apply existsb_exists in Hreq as (s & Hin%list_elem_of_In & Hw%bool_decide_eq_true). rewrite Forall_forall in Hdone. apply Hdone in Hin.
      unfold isDone in Hin. rewrite Hw in Hin. apply waiting_not_done, elem_of_app. by left.
  - left. split; [done|]. by apply Hall; right.
Qed.

Lemma sameRun_stage p q : sameRun p q -> sameSteps p q /\ (active p -> active q).
Proof. intros (? & Ho & Hp & _ & Hpl & Hbl). split; [split; [done|by rewrite Hpl]|]. unfold active. by rewrite Hp, Hpl, Hbl. Qed.

Lemma plan_installing_advances y p :
  quiet y p -> active p -> phase p = InstallPlanPhaseInstalling -> Forall known (ipt_Plan (ip_Status p)) ->
  sameSteps p (syncedAt y p) /\
  ((~ attached ref p /\ stage 2 (syncedAt y p)) \/
   attached ref p /\ (stage 0 (syncedAt y p) \/ (stage 1 (syncedAt y p) /\ ~ Forall (fun s => isDone s \/ waits s) (ipt_Plan (ip_Status p))))).
Proof.
  intros Hq Ha Hp Hkn. destruct (@sync_progress (executorAt y) (sy_plan y) ref p) as [(Hn & Hr & Hatt)|(Hatt0 & p' & Hr & Hatt & Htr)]; try apply Hq; [done|..].
  - destruct (sameRun_stage _ _ Hr) as [Hk Ha']. destruct Hr as (_ & _ & Hp' & _ & Hpl & _). split; [done|]. left. split; [done|].
    split_and!; [by apply Ha'|done|unfold syncedAt in *; congruence|unfold syncedAt; by rewrite Hpl].
  - destruct (plan_install_advances y p p' _ _ _ Hq Ha Hp Hkn Hr Hatt Htr) as [Hk ?]. split; [done|]. by right.
Qed.

Lemma plan_approved_advances y p :
  quiet y p -> active p -> phase p = InstallPlanPhaseRequiresApproval -> ips_Approved (ip_Spec p) = true -> Forall known (ipt_Plan (ip_Status p)) ->
  sameSteps p (syncedAt y p) /\ ((~ attached ref p /\ stage 3 (syncedAt y p)) \/ attached ref p /\ stage 2 (syncedAt y p)).
Proof.
  intros Hq Ha Hp Happ Hkn. destruct (@sync_progress (executorAt y) (sy_plan y) ref p) as [(Hn & Hr & Hatt)|(Hatt0 & p' & Hr & Hatt & Htr)]; try apply Hq; [done|..].
  - destruct (sameRun_stage _ _ Hr) as [Hk Ha']. destruct Hr as (Hs & _ & Hp' & _ & Hpl & _). split; [done|]. left. split; [done|].
    split_and!; [by apply Ha'|done|unfold syncedAt in *; congruence|unfold syncedAt; by rewrite Hs|unfold syncedAt; by rewrite Hpl].
  - destruct (sameRun_stage _ _ Hr) as [Hk Ha']. destruct Hr as (Hs & Ho & Hp' & _ & Hpl & Hbl). unfold transitionInstallPlanState in Htr.
    rewrite bool_decide_true, Hs, Happ in Htr by congruence. fold (syncedAt y p) in Htr. injection Htr as <-. split; [done|]. right. split; [done|].
    split_and!; [|done|done|by cbn; rewrite Hpl]. split_and!; [|done|done]. by apply Ha' in Ha as [? _].
Qed.

(** A sync takes the plan at least one stage on. *)
Lemma stage_advances y n p : quiet y p -> stage n p -> sameSteps p (syncedAt y p) /\ exists m, (m <= pred n)%nat /\ stage m (syncedAt y p).
Proof.
  intros Hq. destruct n as [|[|[|[|n]]]]; cbn [stage pred].
  - intros [Hp Hd]. unfold syncedAt. rewrite synced_complete by done. by split; [|exists 0%nat].
  - intros (Ha & Hatt & Hp & Hs). destruct (plan_installing_advances y p Hq Ha Hp) as [Hk Hadv]; [by eapply Forall_impl; [exact Hs|intros s [?|?]; [left|do 2 right]]|].
    split; [done|]. destruct Hadv as [[? _]|[_ [?|[_ []]]]]; [done|by exists 0%nat|done].
  - intros (Ha & Hatt & Hp & Hs). destruct (plan_installing_advances y p Hq Ha Hp Hs) as [Hk Hadv].
    split; [done|]. destruct Hadv as [[? _]|[_ [?|[? _]]]]; [done|exists 0%nat; by split; [lia|]|by exists 1%nat].
  - intros (Ha & Hatt & Hp & Happ & Hs). destruct (plan_approved_advances y p Hq Ha Hp Happ Hs) as [Hk [[? _]|[_ ?]]]; [done|]. by split; [|exists 2%nat].
  - intros (Ha & [Hp|Hp] & Happ & Hs).
    + destruct (plan_approved_advances y p Hq Ha Hp Happ Hs) as [Hk [[_ ?]|[_ ?]]]; (split; [done|]); [exists 3%nat|exists 2%nat]; (split; [lia|done]).
    + destruct (plan_installing_advances y p Hq Ha Hp Hs) as [Hk Hadv]. split; [done|].
      destruct Hadv as [[_ ?]|[_ [?|[? _]]]]; [exists 2%nat|exists 0%nat|exists 1%nat]; (split; [lia|done]).
Qed.

Lemma quietly_advances ys p q n : quietly ys p q -> stage n p -> sameSteps p q /\ exists m, (m <= n - length ys)%nat /\ stage m q.
Proof.
  intros Hr. revert n. induction Hr as [p|y ys p q Hq _ IH]; intros n Hst; [split; [done|]; exists n; split; [cbn; lia|done]|].
  destruct (stage_advances y n p Hq Hst) as ([Ho Hs] & m & Hm & Hst'). destruct (IH m Hst') as ([Ho2 Hs2] & m' & Hm' & Hst2).
  split; [split; congruence|]. exists m'. split; [cbn; lia|done].
Qed.

(** C32: an approved plan is installed.  When four syncs in a row report no error, each in a cluster of
    its own, a plan that waits for approval or is being installed is complete after them, and every one
    of its steps is created or present, whatever conditions and statuses earlier attempts have left:
    attaching the service account of the namespace, leaving the phase that waits for approval and
    executing the steps take one sync each at most, and a custom resource definition that is created has
    to be looked at once more.  The service account does not change meanwhile, the server answers an
    update with the plan it was sent, and a definition that is waited for has become available when it is
    looked at; the other steps are in one of the states that executing a plan leaves. *)
Theorem plan_completes (ys : list SyncEnv) (p q : InstallPlan) :
  active p -> ips_Approved (ip_Spec p) = true -> phase p = InstallPlanPhaseRequiresApproval \/ phase p = InstallPlanPhaseInstalling ->
  Forall known (ipt_Plan (ip_Status p)) -> quietly ys p q -> (4 <= length ys)%nat ->
  phase q = InstallPlanPhaseComplete /\ Forall isDone (ipt_Plan (ip_Status q)) /\
  step_Resource <$> ipt_Plan (ip_Status q) = step_Resource <$> ipt_Plan (ip_Status p).
Proof.
  intros Ha Happ Hp Hkn Hr Hlen. destruct (quietly_advances ys p q 4 Hr) as ([_ Hs] & m & Hm & Hst); [by split_and!|].
  assert (m = 0%nat) as -> by lia. by destruct Hst.
Qed.
End completion.

(** *** Stored versions *)

(** A definition may be updated exactly when every stored version of the existing one is still a
    version of the new one. *)
Lemma SafeStorageVersionUpgrade_iff `{RangeOrder} version existing new :
  (SafeStorageVersionUpgrade version existing new).1 = true <-> forall v, v ∈ cd_StoredVersions existing -> v ∈ newSpecVersions version new.
Proof.
  unfold SafeStorageVersionUpgrade. set (stored := list_to_map _ : gmap string unit).
  assert (forall v, v ∈ (range stored).*1 <-> v ∈ cd_StoredVersions existing) as Hin.
  { intros v. rewrite range_perm, list_elem_of_fmap. split.
    - intros ([k []] & -> & Hk%elem_of_map_to_list). apply elem_of_list_to_map_2, list_elem_of_fmap in Hk as (? & [= ->] & Hk). done.
    - intros Hv. exists (v, tt). split; [done|]. apply elem_of_map_to_list. destruct (stored !! v) as [[]|] eqn:E; [done|].
      apply not_elem_of_list_to_map in E. destruct E. apply list_elem_of_fmap. exists (v, tt). split; [done|]. apply list_elem_of_fmap. by exists v. }
  destruct (List.find _ _) as [name|] eqn:E; cbn [fst]; split; try done.
  - intros Hall. apply find_some in E as [Hn Hf]. apply negb_true_iff, bool_decide_eq_false in Hf. destruct Hf. apply Hall, Hin. by apply list_elem_of_In.
  - intros _ v Hv. apply Hin, list_elem_of_In in Hv. pose proof (find_none _ _ E v Hv) as Hf. by apply negb_false_iff, bool_decide_eq_true in Hf.
Qed.

Section compatibility.
Context `{RangeOrder} (env : ExecEnv).

Lemma firstInvalid_None validate objects : firstInvalid validate objects = None <-> forall r, r ∈ objects -> validate r = None.
Proof.
  induction objects as [|r objects IH]; simpl; [split; [intros _ r Hr; by apply elem_of_nil in Hr|done]|].
  destruct (validate r) eqn:E; [split; [done|intros Hall; specialize (Hall r (list_elem_of_here _ _)); congruence]|].
  rewrite IH. setoid_rewrite elem_of_cons. split; [intros Hall x [->|?]; auto|auto].
Qed.

(** The objects of a version are there, and valid under a schema. *)
Definition objectsValid (h : History) (group resource version schema : string) : Prop :=
  exists validate objects, xe_newValidator env schema = inr validate /\ xe_listObjects env h group version resource = (objects, None) /\
    forall r, r ∈ objects -> validate r = None.

Lemma validateExistingCRs_None h group resource m :
  validateExistingCRs env h group resource m = None -> forall version schema, m !! version = Some schema -> objectsValid h group resource version schema.
Proof.
  unfold validateExistingCRs. intros Hv version schema Hm. assert ((version, schema) ∈ range m) as Hin by (rewrite range_perm; by apply elem_of_map_to_list).
  revert Hv Hin. clear. induction (range m) as [|[version' schema'] l IH]; [intros _ Hin; by apply elem_of_nil in Hin|]. cbn.
  destruct (xe_newValidator env schema') as [err|validate] eqn:Ev; [done|]. destruct (xe_listObjects env h group version' resource) as [objects e] eqn:El.
  destruct (firstInvalid validate objects) eqn:Ef; [done|]. destruct e; [done|]. intros Hv [[= -> ->]|Hin]%elem_of_cons; [|by apply IH].
  exists validate, objects. split_and!; [done..|]. by apply firstInvalid_None.
Qed.

Lemma convertSchemas_lookup versions m0 m :
  convertSchemas env versions m0 = inr m -> NoDup (cv_Name <$> versions) ->
  (forall v, v ∈ versions -> exists schema, xe_convertSchema env (cv_Schema v) = inr schema /\ m !! cv_Name v = Some schema) /\
  (forall name, name ∉ cv_Name <$> versions -> m !! name = m0 !! name).
Proof.
  revert m0. induction versions as [|v versions IH]; intros m0; cbn [convertSchemas fmap list_fmap].
  { intros [= ->] _. split; [intros v Hv; by apply elem_of_nil in Hv|done]. }
  destruct (xe_convertSchema env (cv_Schema v)) as [err|schema] eqn:E; [done|]. intros Hc [Hv Hnd]%NoDup_cons. apply IH in Hc as [H1 H2]; [|done]. split.
  - intros w [->|Hw]%elem_of_cons; [|by apply H1]. exists schema. split; [done|]. rewrite H2 by done. by rewrite lookup_insert_eq.
  - intros name [Hne Hn]%not_elem_of_cons. rewrite H2 by done. by rewrite lookup_insert_ne.
Qed.

(** The versions a definition serves: [v1beta1] has a single one when none are listed. *)
Definition servedBefore (version : string) (c : CRDObject) : gset string :=
  servedVersions c ∪ (if bool_decide (version = V1Beta1Version) && bool_decide (cd_Versions c = []) then {[cd_Version c]} else ∅).

(** The objects of a version are valid under a schema of the new definition. *)
Definition fits (h : History) (new : CRDObject) (version : string) (schema : option string) : Prop :=
  exists converted, xe_convertSchema env schema = inr converted /\ objectsValid h (cd_Group new) (cd_Plural new) version converted.

Definition staysServed (version : string) (existing new : CRDObject) (v : CRDVersion) : Prop :=
  v ∈ cd_Versions new /\ cv_Served v = true /\ cv_Name v ∈ servedBefore version existing.

(** When an existing definition may be overwritten: a global schema of [v1beta1] is for the objects of
    all versions, and has to fit those of one of them. *)
Record compatible (version : string) (h : History) (existing new : CRDObject) : Prop := {
  cp_stored v : v ∈ cd_StoredVersions existing -> v ∈ newSpecVersions version new;
  cp_own v : (version = V1Version -> cd_WebhookConversion new = false) -> (version = V1Beta1Version -> cd_Validation new = None) ->
    staysServed version existing new v -> fits h new (cv_Name v) (cv_Schema v);
  cp_global schema : version = V1Beta1Version -> cd_Validation new = Some schema -> (exists v, staysServed version existing new v) ->
    exists v, staysServed version existing new v /\ fits h new (cv_Name v) (Some schema);
  cp_single : version = V1Beta1Version -> cd_Versions new = [] -> cd_Version new ∈ servedBefore version existing ->
    fits h new (cd_Version new) (cd_Validation new);
}.

Lemma stillServed_elem version existing new v : v ∈ stillServed (servedBefore version existing) new <-> staysServed version existing new v.
Proof.
  unfold stillServed, staysServed. rewrite list_elem_of_In, filter_In, <- list_elem_of_In, andb_true_iff, bool_decide_eq_true. tauto.
Qed.

Lemma stillServed_NoDup old new : NoDup (cv_Name <$> cd_Versions new) -> NoDup (cv_Name <$> stillServed old new).
Proof.
  unfold stillServed. induction (cd_Versions new) as [|w l IH]; cbn; [done|]. intros [Hw Hnd]%NoDup_cons. destruct (_ && _); [|by apply IH].
  cbn. apply NoDup_cons. split; [|by apply IH]. intros (x & Hx & Hin)%list_elem_of_fmap. apply list_elem_of_In, filter_In in Hin as [Hin _].
  apply Hw, list_elem_of_fmap. exists x. split; [done|by apply list_elem_of_In].
Qed.

Lemma own_schemas_fit h new version existing m0 m :
  NoDup (cv_Name <$> cd_Versions new) -> convertSchemas env (stillServed (servedBefore version existing) new) m0 = inr m ->
  validateExistingCRs env h (cd_Group new) (cd_Plural new) m = None -> forall v, staysServed version existing new v -> fits h new (cv_Name v) (cv_Schema v).
Proof.
  intros Hnd Hc Hv v Hst%stillServed_elem. apply convertSchemas_lookup in Hc as [H1 _]; [|by apply stillServed_NoDup].
  destruct (H1 v Hst) as (schema & Hs & Hm). exists schema. split; [done|]. by apply (validateExistingCRs_None _ _ _ _ Hv).
Qed.

Lemma servedBefore_V1 c : servedBefore V1Version c = servedVersions c.
Proof. unfold servedBefore. rewrite bool_decide_false by done. set_solver. Qed.
Lemma servedBefore_V1Beta1 c : servedBefore V1Beta1Version c = servedVersions c ∪ (if (length (cd_Versions c) =? 0)%nat then {[cd_Version c]} else ∅).
Proof. unfold servedBefore. rewrite bool_decide_true by done. by destruct (cd_Versions c). Qed.

Lemma validateV1Beta1_valid h existing new :
  NoDup (cv_Name <$> cd_Versions new) -> validateV1Beta1CRDCompatibility env h existing new = None ->
  (cd_Validation new = None -> forall v, staysServed V1Beta1Version existing new v -> fits h new (cv_Name v) (cv_Schema v)) /\
  (forall schema, cd_Validation new = Some schema -> (exists v, staysServed V1Beta1Version existing new v) ->
    exists v, staysServed V1Beta1Version existing new v /\ fits h new (cv_Name v) (Some schema)) /\
  (cd_Versions new = [] -> cd_Version new ∈ servedBefore V1Beta1Version existing -> fits h new (cd_Version new) (cd_Validation new)).
Proof.
  intros Hnd. unfold validateV1Beta1CRDCompatibility. cbv zeta. rewrite <- servedBefore_V1Beta1. set (old := servedBefore _ _).
  destruct (if (_ =? 0)%nat && _ then _ else _) as [err|m] eqn:Eg; [done|].
  intros Hv. split_and!.
  - intros Hn. rewrite Hn in Hv. assert (match convertSchemas env (stillServed old new) m with inl err => Some (err, false) | inr m => validateExistingCRs env h (cd_Group new) (cd_Plural new) m end = None) as Hv'
      by (by destruct (stillServed old new)).
    destruct (convertSchemas env (stillServed old new) m) as [err|m'] eqn:Ec; [done|]. by apply (own_schemas_fit h new V1Beta1Version existing m m').
  - intros schema Hs (v0 & Hv0%stillServed_elem). fold old in Hv0. rewrite Hs in Hv. destruct (stillServed old new) as [|v rest] eqn:Es; [by apply elem_of_nil in Hv0|].
    destruct (xe_convertSchema env (Some schema)) as [err|converted] eqn:Ec; [done|]. exists v. split; [apply stillServed_elem; fold old; rewrite Es; apply list_elem_of_here|].
    exists converted. split; [done|]. apply (validateExistingCRs_None _ _ _ _ Hv). apply lookup_singleton_eq.
  - intros Hnil Hin. assert (stillServed old new = []) as Es by (unfold stillServed; by rewrite Hnil). rewrite Es in Hv. cbn in Hv.
    rewrite Hnil, bool_decide_true in Eg by done. cbn in Eg. destruct (xe_convertSchema env (cd_Validation new)) as [err|converted] eqn:Ec; [done|].
    injection Eg as <-. exists converted. split; [done|]. apply (validateExistingCRs_None _ _ _ _ Hv). apply lookup_singleton_eq.
Qed.

Lemma validateExistingCRs_empty h group resource : validateExistingCRs env h group resource ∅ = None.
Proof. unfold validateExistingCRs. by rewrite range_empty. Qed.

(** No version of the definition is called by the empty string. *)
Definition namedVersions (c : CRDObject) : Prop := "" ∉ cv_Name <$> cd_Versions c /\ (cd_Versions c = [] -> cd_Version c <> "").

Lemma unread_compatible version h c new :
  version ∈ [V1Version; V1Beta1Version] -> cd_Versions c = [] -> cd_Version c = "" -> namedVersions new -> validateCRDCompatibility env version h c new = None.
Proof.
  intros Hver Hc Hc' [Hn1 Hn2]. assert (servedBefore version c ⊆ {[""]}) as Hsub.
  { unfold servedBefore, servedVersions. rewrite Hc, Hc'. cbn. destruct (_ && _); set_solver. }
  assert (stillServed (servedBefore version c) new = []) as Hs.
  { destruct (stillServed _ _) as [|v l] eqn:E; [done|]. assert (v ∈ stillServed (servedBefore version c) new) as Hv by (rewrite E; apply list_elem_of_here).
    apply stillServed_elem in Hv as (Hv & _ & Hin). apply Hsub, elem_of_singleton in Hin. destruct Hn1. rewrite <- Hin. by apply list_elem_of_fmap_2. }
  unfold validateCRDCompatibility. apply elem_of_cons in Hver as [->| ->%list_elem_of_singleton].
  - rewrite bool_decide_true by done. unfold validateV1CRDCompatibility. rewrite <- servedBefore_V1, Hs. cbn [convertSchemas]. by apply validateExistingCRs_empty.
  - rewrite bool_decide_false by done. unfold validateV1Beta1CRDCompatibility. cbv zeta. rewrite <- servedBefore_V1Beta1, Hs.
    destruct (cd_Versions new) as [|v l] eqn:E; cbn; [|by apply validateExistingCRs_empty]. rewrite bool_decide_false; [by apply validateExistingCRs_empty|]. intros Hin. apply Hsub, elem_of_singleton in Hin. by apply Hn2.
Qed.

(** C35: updating a custom resource definition, of either version, loses no data.  An existing definition
    that could be read is overwritten only when each of its stored versions is a version of the new one,
    and when the objects of every version that stays served are valid under the new schema of the version;
    a webhook conversion of [v1] lifts the second condition, and a global schema of [v1beta1], which is
    for all versions, is checked on the objects of one of them.  When the existing definition cannot be
    read nothing protects it: the error is ignored, and the update is sent without any check. *)
Theorem updateCRD_safe (version namespace : string) (step : Step) (attempt : nat) (new : CRDObject) (s : XState) :
  version ∈ [V1Version; V1Beta1Version] -> NoDup (cv_Name <$> cd_Versions new) ->
  let sent := x_history (updateCRD env version namespace step attempt new s).1 <> x_history s in
  match xe_getCRD env (x_history s) attempt (r_Name (cd_meta new)) with
  | inr existing => sent -> compatible version (x_history s) existing new
  | inl _ => namedVersions new -> sent
  end.
Proof.
  intros Hver Hnd. unfold updateCRD. cbv zeta. destruct (xe_getCRD env _ _ _) as [err|existing].
  - intros Hn. rewrite unread_compatible by done. set (zero := mkCRD _ _ _ _ _ _ _ _ _).
    pose proof (SafeStorageVersionUpgrade_iff version zero new) as [_ Hsafe]. specialize (Hsafe ltac:(intros v Hv; by apply elem_of_nil in Hv)).
    unfold SafeStorageVersionUpgrade in *. destruct (List.find _ _); [done|]. cbn. intros Heq%(f_equal length). rewrite length_app in Heq. cbn in Heq. lia.
  - pose proof (SafeStorageVersionUpgrade_iff version existing new) as Hsafe.
    destruct (match validateCRDCompatibility _ _ _ _ _ with Some _ => _ | None => _ end) eqn:Ev; [done|].
    destruct (SafeStorageVersionUpgrade _ _ _) as [[|] [err|]]; [done| |done..]. intros _.
    apply elem_of_cons in Hver as [->| ->%list_elem_of_singleton]; unfold validateCRDCompatibility in Ev.
    + rewrite bool_decide_true in Ev by done. cbn [andb] in Ev. split; [intros v Hv; by apply Hsafe| |done..].
      intros v Hw _. rewrite (Hw eq_refl) in Ev. unfold validateV1CRDCompatibility in Ev. rewrite <- servedBefore_V1 in Ev.
      destruct (convertSchemas _ _ _) as [?|m] eqn:Ec; [done|]. destruct (validateExistingCRs _ _ _ _ _) as [[? ?]|] eqn:Ex; [done|].
      by apply (own_schemas_fit _ _ _ _ ∅ m).
    + rewrite bool_decide_false in Ev by done. cbn [andb] in Ev. destruct (validateV1Beta1CRDCompatibility _ _ _ _) as [[? ?]|] eqn:Ex; [done|].
      destruct (validateV1Beta1_valid _ _ _ Hnd Ex) as (Hown & Hglobal & Hsingle).
      split; [intros v Hv; by apply Hsafe|intros v _ Hn; by apply Hown; apply Hn|intros schema _; by apply Hglobal|intros _; by apply Hsingle].
Qed.
End compatibility.

(** References that carry the pointers the owner functions set are never merged, so that a service
    account that is ensured again and again collects the same owners. *)
Lemma mergedOwnerReferences_keeps `{RangeOrder} pre refs :
  Forall (fun ref => nilPointers ref = false) (pre ++ refs) -> mergedOwnerReferences pre refs ≡ₚ pre ++ refs.
Proof.
  intros Hn. assert (uniqueRefs (pre ++ refs) = pre ++ refs) as Hu.
  { induction Hn as [|ref rest Hr Hn IH]; [done|]. cbn. by rewrite Hr, IH. }
  unfold mergedOwnerReferences. rewrite Hu, range_perm. generalize (pre ++ refs) as l, 0%nat as n. clear.
  induction l as [|x l IH]; intros n; [by vm_compute|].
  rewrite map_seq_cons, map_to_list_insert by (apply lookup_map_seq_None; lia). cbn. by rewrite IH.
Qed.

(** ** A cluster *)

Module ExecDemo.
#[local] Existing Instance canonical_order.

Definition object (type : ObjectType) (name ns : string) : Resource := mkResource (mkObj type (mkGVK "" "" "") name ns "" [] None) None [] "body".
Definition definition_ (conditions : list (string * string)) : CRDObject :=
  mkCRD (object TCRDv1 "etcds.etcd.io" "") "etcd.io" "etcds" "" None [mkCRDVersion "v1" true None] false ["v1"] conditions.
Definition absent : error := ErrAPI ReasonNotFound "not found".

(** Services of the manifests claim to be in another namespace; creating one a second time fails. *)
Definition envWith (conditions : list (string * string)) : ExecEnv :=
  mkExecEnv "olm" (fun _ => None) (fun _ => inr []) (fun _ _ _ => inl absent) (fun _ => None) (fun _ _ => inl absent) (fun _ => inr V1Version)
    (fun _ => inl absent) (fun _ name => inr (object TService name "kube-system")) (fun _ _ => inr (definition_ []))
    (fun h w => match w with
                | Create _ _ r => if existsb (fun w' => bool_decide (r_Name (written w') = r_Name r)) h then Some (ErrAPI ReasonAlreadyExists "exists") else None
                | Update _ _ _ => None
                end)
    (fun _ _ _ => inl absent) (fun _ _ _ => inl absent) (fun _ _ => true) (fun _ _ _ _ => inl absent) (fun _ => inl absent)
    (fun _ _ _ => inr (definition_ conditions)) (fun _ => inr "schema") (fun _ => inr (fun _ => None)) (fun _ _ _ _ => ([object TOther "example" "ns"], None)).
Definition env : ExecEnv := envWith [("NamesAccepted", ConditionTrue)].

Definition service (name status : string) : Step := mkStep "" (mkStepResource "operators" "olm" "" "v1" serviceKind name name) false status.
Definition crd (status : string) : Step := mkStep "" (mkStepResource "operators" "olm" "apiextensions.k8s.io" "v1" crdKind "etcds.etcd.io" "{}") false status.
Definition plan (steps : list Step) : InstallPlan :=
  mkPlan (mkObj TInstallPlan (mkGVK "" "" "") "install-1" "ns" "u" [] None) 0%Z (mkIPSpec [] ApprovalManual true 1)
    (mkIPStatus InstallPlanPhaseInstalling [] [] steps [] None None "").

Lemma executePlan_stays_in_namespace_witness :
  exists h' p', executePlan env [] (plan [service "a" StepStatusUnknown; crd StepStatusUnknown; service "a" StepStatusUnknown]) = Some (h', p', None) /\
    (fun w => (writtenIn w, r_Namespace (written w))) <$> h' = [(Some "ns", "ns"); (None, ""); (Some "ns", "ns"); (Some "ns", "ns")] /\
    exists ws, h' = [] ++ ws /\ Forall (ours "ns") ws.
Proof.
  eexists _, _. split; [vm_compute; reflexivity|]. split; [by vm_compute|].
  refine (executePlan_stays_in_namespace env [] _ (plan [service "a" StepStatusUnknown; crd StepStatusUnknown; service "a" StepStatusUnknown]) _ None _).
  vm_compute. reflexivity.
Defined.

Lemma complete_plan_installed_witness :
  let p := plan [service "a" StepStatusUnknown; service "b" StepStatusPresent] in
  let out := (@transitionInstallPlanState (operatorExecutor env []) p 5%Z 10%Z).1 in
  step_Status <$> ipt_Plan (ip_Status out) = [StepStatusCreated; StepStatusPresent] /\
  Forall2 (fun old new => step_Resource new = step_Resource old /\
    (step_Status new ∈ doneStatus \/
     (sr_Kind (step_Resource old) = crdKind /\ step_Status old ∉ [StepStatusUnknown; StepStatusNotPresent] /\
      step_Status new ∈ [StepStatusUnknown; StepStatusNotPresent])))
    (ipt_Plan (ip_Status p)) (ipt_Plan (ip_Status out)).
Proof.
  split; [by vm_compute|]. refine (complete_plan_installed env [] (plan [service "a" StepStatusUnknown; service "b" StepStatusPresent]) 5%Z 10%Z _ _); by vm_compute.
Defined.

Lemma complete_without_api_witness :
  let out := (@transitionInstallPlanState (operatorExecutor env []) (plan [crd StepStatusWaitingForAPI]) 5%Z 10%Z).1 in
  phase out = InstallPlanPhaseComplete /\ step_Status <$> ipt_Plan (ip_Status out) = [StepStatusUnknown].
Proof.
  refine (complete_without_api env [] (plan [crd StepStatusWaitingForAPI]) 5%Z 10%Z (crd StepStatusWaitingForAPI) [] V1Version
    (definition_ [("NamesAccepted", ConditionTrue)]) _ _ _ _ _ _ _ _ _ _); by vm_compute.
Defined.

Lemma updateCRD_safe_witness :
  let s := mkX [] ∅ in
  written <$> x_history (updateCRD env V1Version "ns" (crd StepStatusUnknown) 0 (definition_ []) s).1 = [cd_meta (definition_ [])] /\
  compatible env V1Version [] (definition_ [("NamesAccepted", ConditionTrue)]) (definition_ []) /\
  compatible env V1Beta1Version [] (definition_ [("NamesAccepted", ConditionTrue)]) (definition_ []).
Proof.
  intros s. split; [by vm_compute|]. split.
  - refine (updateCRD_safe env V1Version "ns" (crd StepStatusUnknown) 0 (definition_ []) s (list_elem_of_here _ _) (NoDup_singleton _) _). by vm_compute.
  - refine (updateCRD_safe env V1Beta1Version "ns" (crd StepStatusUnknown) 0 (definition_ []) s
      (list_elem_of_further _ _ _ (list_elem_of_here _ _)) (NoDup_singleton _) _). by vm_compute.
Defined.

(** The plan waits for approval at first; its definition is established between the third sync and the
    fourth. *)
Definition approved : InstallPlan :=
  let p := plan [crd StepStatusUnknown; service "a" StepStatusUnknown; service "b" StepStatusPresent] in
  setPlanStatus p (setPhase (ip_Status p) InstallPlanPhaseRequiresApproval "").
Definition account : ObjectReference := mkObjectRef "ServiceAccount" "ns" "installer" "u" "v1".
Definition syncWith (conditions : list (string * string)) (h : History) : SyncEnv :=
  mkSyncEnv (mkPlanEnv (fun _ => inr (Some account)) (fun _ p => inr p) (fun _ => 5%Z) 10%Z) (envWith conditions) h.
Definition syncs : list SyncEnv :=
  let early := syncWith [] [] in
  [early; early; early;
   syncWith [("NamesAccepted", ConditionTrue); ("Established", ConditionTrue)] [Create crdKind None (object TCRDv1 "etcds.etcd.io" ""); Create serviceKind (Some "ns") (object TService "a" "ns")]].

Lemma plan_completes_witness :
  let after n := foldl (fun p y => syncedAt y p) approved (take n syncs) in
  phase (after 3%nat) = InstallPlanPhaseInstalling /\
  step_Status <$> ipt_Plan (ip_Status (after 3%nat)) = [StepStatusWaitingForAPI; StepStatusCreated; StepStatusPresent] /\
  phase (after 4%nat) = InstallPlanPhaseComplete /\ Forall isDone (ipt_Plan (ip_Status (after 4%nat))).
Proof.
  intros after. split; [by vm_compute|]. split; [by vm_compute|].
  assert (quietly (Some account) syncs approved (after 4%nat)) as Hq.
  { assert (forall conditions h, answersStored (sy_plan (syncWith conditions h))) as Hst by (intros conditions h site x y [= <-]; by split_and!).
    assert (forall env h, Forall (established env h) [crd StepStatusUnknown; service "a" StepStatusUnknown; service "b" StepStatusPresent]) as Hes.
    { intros. repeat constructor; by intros [? ?]. }
    unfold syncs. apply quietly_cons; [split; [apply Hst|done|apply Hes|by vm_compute]|].
    apply quietly_cons; [split; [apply Hst|by vm_compute|refine (eq_rect _ (Forall _) (Hes _ _) _ _); by vm_compute|by vm_compute]|].
    apply quietly_cons; [split; [apply Hst|by vm_compute|refine (eq_rect _ (Forall _) (Hes _ _) _ _); by vm_compute|by vm_compute]|].
    apply quietly_cons; [split; [apply Hst|by vm_compute| |by vm_compute]|apply quietly_nil].
    refine (eq_rect [crd StepStatusWaitingForAPI; service "a" StepStatusCreated; service "b" StepStatusPresent] (Forall _) _ _ _); [|by vm_compute].
    constructor; [intros _ ws; by eexists|]. repeat constructor; by intros [? ?]. }
  destruct (plan_completes (Some account) syncs approved (after 4%nat)) as (Hc & Hd & _); [..|exact (conj Hc Hd)].
  - split_and!; [by left|done|done].
  - done.
  - by left.
  - do 2 (apply Forall_cons; split; [right; left; apply list_elem_of_here|]). apply Forall_singleton. left. apply present_done.
  - exact Hq.
  - apply le_n.
Defined.
End ExecDemo.
