(* ===== verification/BundleUnpack.v ===== *)
(** * Unpacking bundles with jobs

    Models [controller/bundle/bundle_unpacker.go]: the job that extracts a bundle image into a config map, the
    role and the binding it needs, and [UnpackBundle], which moves a bundle lookup from pending to failed or
    unpacked.  Listers and the client are the environment ([UnpackEnv]); an operation on the cluster is a [Call],
    and the answers may depend on the calls made before.  [LaunchBundleImage] of [configmap_writer.go] is here too. *)

From S2P Require Import Prelude GoStrings RbacRules OwnerUtil RbacAuthorizer CatalogModel SatInterface ResolverCache CsvTypes OperatorGroups.
From S2P Require Import OperatorRbac CatalogTypes SnapshotSources BundleSteps ConfigMaps InstallPlans CatalogSync StepExecution.

#[local] Arguments String.append : simpl nomatch.

(** ** Jobs *)

Record JobCondition := mkJobCondition { jc_Type : string; jc_Status : string; jc_Reason : string; jc_Message : string; jc_LastTransitionTime : Time }.
Definition JobFailed : string := "Failed".
Definition JobComplete : string := "Complete".

Record Container := mkContainer {
  co_Name : string; co_Image : string; co_ImagePullPolicy : string; co_Command : list string; co_Env : list (string * string);
  co_VolumeMounts : list (string * string); co_Requests : list (string * string); co_AllowPrivilegeEscalation : option bool; co_Drop : list string;
  co_TerminationMessagePolicy : string
}.

Record JobSpec := mkJobSpec {
  jo_TemplateName : string; jo_TemplateLabels : gmap string string; jo_RestartPolicy : string; jo_ImagePullSecrets : list string;
  jo_Seccomp : string; jo_RunAsUser : option Z; jo_RunAsNonRoot : option bool;
  jo_Containers : list Container; jo_InitContainers : list Container; jo_EmptyDirs : list string; jo_NodeSelector : list (string * string);
  jo_Tolerations : list (string * string * string); jo_BackoffLimit : option Z; jo_ActiveDeadlineSeconds : option Z
}.
Record Job := mkJob { job_obj : Object; job_Spec : JobSpec; job_Conditions : list JobCondition }.
Definition job_Name (j : Job) : string := OName (job_obj j).
Definition job_Namespace (j : Job) : string := ONamespace (job_obj j).

(** The settings of the unpacker. *)
Record UnpackerConfig := mkUnpacker { uc_opmImage : string; uc_utilImage : string; uc_unpackTimeout : Z; uc_runAsUser : Z }.

Definition BundleUnpackPodLabel : string := "job-name".
Definition bundleUnpackRefLabel : string := "operatorframework.io/bundle-unpack-ref".
Definition EnvContainerImage : string := "CONTAINER_IMAGE".
Definition CatalogSourceMissingReason : string := "CatalogSourceMissing".
Definition CatalogSourceMissingMessage : string := "referenced catalogsource not found".
Definition JobIncompleteReason : string := "JobIncomplete".
Definition JobIncompleteMessage : string := "unpack job not completed".

Definition InferImagePullPolicy (image : string) : string := if HasByte "@"%char image then "IfNotPresent" else "Always".

Definition managedLabels : gmap string string := {[OLMManagedLabelKey := OLMManagedLabelValue]}.

Definition ownerRef (ref : ObjectReference) : OwnerReference :=
  mkRef (or_APIVersion ref) (or_Kind ref) (or_Name ref) (or_UID ref) (Some false) (Some false).

(** [int64(d.Seconds())]: exact for the durations below 2^22 seconds; a duration is in nanoseconds. *)
Definition seconds (d : Z) : Z := Z.quot d 1000000000.

Definition smallRequests : list (string * string) := [("cpu", "10m"); ("memory", "50Mi")].

Definition extractContainer (c : UnpackerConfig) (cmRef : ObjectReference) (bundlePath : string) : Container :=
  mkContainer "extract" (uc_opmImage c) "" ["opm"; "alpha"; "bundle"; "extract"; "-m"; "/bundle/"; "-n"; or_Namespace cmRef; "-c"; or_Name cmRef; "-z"]
    [(EnvContainerImage, bundlePath)] [("bundle", "/bundle")] smallRequests (Some false) ["ALL"] "FallbackToLogsOnError".
Definition utilContainer (c : UnpackerConfig) : Container :=
  mkContainer "util" (uc_utilImage c) "" ["/bin/cp"; "-Rv"; "/bin/cpb"; "/util/cpb"] [] [("util", "/util")] smallRequests (Some false) ["ALL"] "FallbackToLogsOnError".
Definition pullContainer (bundlePath : string) : Container :=
  mkContainer "pull" bundlePath (InferImagePullPolicy bundlePath) ["/util/cpb"; "/bundle"] [] [("bundle", "/bundle"); ("util", "/util")]
    smallRequests (Some false) ["ALL"] "FallbackToLogsOnError".

(** The deadline: the annotation overrides the setting, a negative one is ignored, and zero means none. *)
Definition jobDeadline (unpackTimeout annotationUnpackTimeout : Z) : option Z :=
  if (annotationUnpackTimeout <? 0)%Z then if (unpackTimeout =? 0)%Z then None else Some (seconds unpackTimeout)
  else if (annotationUnpackTimeout =? 0)%Z then None else Some (seconds annotationUnpackTimeout).

Definition job (c : UnpackerConfig) (cmRef : ObjectReference) (bundlePath : string) (secrets : list string) (annotationUnpackTimeout : Z) : Job :=
  mkJob (mkObj TOther (mkGVK "" "" "") (or_Name cmRef) (or_Namespace cmRef) "" [ownerRef cmRef] (Some (<[bundleUnpackRefLabel := or_Name cmRef]> managedLabels)))
    (mkJobSpec (or_Name cmRef) managedLabels "Never" secrets "RuntimeDefault"
       (if (0 <? uc_runAsUser c)%Z then Some (uc_runAsUser c) else None) (if (0 <? uc_runAsUser c)%Z then Some true else None)
       [extractContainer c cmRef bundlePath] [utilContainer c; pullContainer bundlePath] ["bundle"; "util"] [("kubernetes.io/os", "linux")]
       ((fun arch => ("kubernetes.io/arch", "Equal", arch)) <$> ["amd64"; "arm64"; "ppc64le"; "s390x"])
       (Some 3%Z) (jobDeadline (uc_unpackTimeout c) annotationUnpackTimeout)) [].

(** The condition of a type that is true. *)
Definition getCondition (j : option Job) (conditionType : string) : option JobCondition :=
  match j with
  | None => None
  | Some j => List.find (fun cond => bool_decide (jc_Type cond = conditionType) && bool_decide (jc_Status cond = ConditionTrue)) (job_Conditions j)
  end.

(** ** Choosing a job *)

(** Non-failed jobs first, then the latest failure; [None] dereferences nil, which two non-failed jobs do. *)
Definition jobLess (ji jj : option Job) : option bool :=
  match ji, jj with
  | Some _, Some _ =>
      match getCondition ji JobFailed, getCondition jj JobFailed with
      | Some condI, Some condJ => Some (jc_LastTransitionTime condJ <? jc_LastTransitionTime condI)%Z
      | None, Some _ => Some true
      | Some _, None => Some false
      | None, None => None
      end
  | _, _ => Some (bool_decide (ji <> None))
  end.

Definition live (j : option Job) : bool := match j with Some _ => bool_decide (getCondition j JobFailed = None) | None => false end.

Section jobs.
Context `{SortLib}.

(** Sorting by comparisons compares every two neighbours of the result, so that two non-failed jobs, which are
    neighbours at its front, are compared. *)
Definition sortJobs (jobs : list (option Job)) : option (list (option Job)) :=
  if (1 <? length (List.filter live jobs))%nat then None
  else Some (sortBy (fun ji jj => match jobLess ji jj with Some b => b | None => false end) jobs).

(** The nil jobs at the end are cut off. *)
Definition withoutNil (jobs : list (option Job)) : list (option Job) := foldr (fun j acc => match acc, j with [], None => [] | _, _ => j :: acc end) [] jobs.

Definition sortUnpackJobs (jobs : list (option Job)) (maxRetainedJobs : nat) : option (option Job * list (option Job)) :=
  match jobs with
  | [] => Some (None, [])
  | _ =>
      jobs ← sortJobs jobs;
      match jobs with
      | None :: _ | [] => Some (None, [])
      | latest :: _ =>
          let jobs := withoutNil jobs in
          if (length jobs <=? maxRetainedJobs)%nat then Some (latest, [])
          else if (maxRetainedJobs =? 0)%nat then Some (latest, drop 1 jobs)
          else Some (latest, take (maxRetainedJobs `min` (length jobs - 1 - maxRetainedJobs)) (drop maxRetainedJobs jobs))
      end
  end.
End jobs.

(** ** The cluster *)

Inductive Call :=
  | CreateConfigMap (cm : ConfigMap) | GetConfigMap (namespace name : string) | UpdateConfigMap (cm : ConfigMap)
  | CreateRole (r : RbacRole) | UpdateRole (r : RbacRole)
  | CreateRoleBinding (b : RbacBinding) | UpdateRoleBinding (b : RbacBinding) | DeleteRoleBinding (namespace name : string)
  | CreateJob (j : Job) | DeleteJob (namespace name : string).

Record ContainerStatus := mkContainerStatus { cst_Name : string; cst_Ready : bool; cst_Waiting : option (string * string) }.
Record Pod := mkPod { pod_Namespace : string; pod_Name : string; pod_Phase : string; pod_InitContainerStatuses : list ContainerStatus }.

Record UnpackEnv := mkUnpackEnv {
  ue_now : Time;
  ue_clock : Time;
  ue_catalog : string -> string -> error + string * list string;
  ue_cmLister : string -> string -> error + ConfigMap;
  ue_roleLister : string -> string -> error + RbacRole;
  ue_rbLister : string -> string -> error + RbacBinding;
  ue_listJobs : string -> string -> error + list Job;
  ue_getJob : string -> string -> error + Job;
  ue_listPods : string -> string -> error + list Pod;
  ue_reference : ConfigMap -> error + ObjectReference;
  ue_generateName : list Call -> string -> string;
  ue_configMap : list Call -> Call -> error + ConfigMap;
  ue_role : list Call -> Call -> error + RbacRole;
  ue_binding : list Call -> Call -> error + RbacBinding;
  ue_job : list Call -> Call -> error + Job;
  ue_delete : list Call -> Call -> option error;
}.

(** [equality.Semantic.DeepDerivative] on the values compared, SHA-256 in hexadecimal digits. *)
Class UnpackLib := {
  derivesRule : PolicyRule -> PolicyRule -> bool;
  derivesBinding : RbacBinding -> RbacBinding -> bool;
  derivesJob : Job -> Job -> bool;
  sha256hex : string -> string;
  sha256hex_length : forall s, String.length (sha256hex s) = 64%nat;
}.

(** A computation that makes calls, and ends in a value, an error, or a panic. *)
Definition U (A : Type) : Type := list Call -> list Call * option (error + A).
Definition uret {A} (x : A) : U A := fun h => (h, Some (inr x)).
Definition ufail {A} (err : error) : U A := fun h => (h, Some (inl err)).
Definition upanic {A} : U A := fun h => (h, None).
Definition ubind {A B} (m : U A) (k : A -> U B) : U B :=
  fun h => match m h with (h', Some (inr x)) => k x h' | (h', Some (inl err)) => (h', Some (inl err)) | (h', None) => (h', None) end.
Definition ulift {A} (r : error + A) : U A := fun h => (h, Some r).
(** The answer to a call, an error included. *)
Definition call {A} (answer : list Call -> Call -> A) (c : Call) : U A := fun h => (h ++ [c], Some (inr (answer h c))).

Declare Scope u_scope.
Delimit Scope u_scope with u.
Notation "'un!' x := m 'in' k" := (ubind m (fun x => k)) (at level 10, x name, m at level 100, k at level 200) : u_scope.
#[local] Open Scope u_scope.

Section unpack.
Context `{UnpackLib, ConfigMapLib, SnapshotLib, RangeOrder, SortLib} (c : UnpackerConfig) (env : UnpackEnv).

Definition ensureConfigmap (csRef : ObjectReference) (name : string) : U ConfigMap :=
  let ns := or_Namespace csRef in
  let fresh := mkConfigMap (mkObj TConfigMap (mkGVK "" "" "") name ns "" [ownerRef csRef] (Some managedLabels)) None ∅ ∅ in
  match ue_cmLister env ns name with
  | inr cm => uret cm
  | inl err =>
      if negb (IsNotFound (Some err)) then ufail err
      else
        un! created := call (ue_configMap env) (CreateConfigMap fresh) in
        match created with
        | inr cm => uret cm
        | inl err =>
            if negb (IsAlreadyExists (Some err)) then ufail err
            else
              un! got := call (ue_configMap env) (GetConfigMap ns name) in
              match got with
              | inl err => ufail (ErrString ("failed to retrieve configmap " +:+ name +:+ ": " +:+ Error_ err))
              | inr cm =>
                  un! updated := call (ue_configMap env) (UpdateConfigMap (mkConfigMap (SetLabels (cm_obj cm) managedLabels) (cm_Annotations cm) (cm_Data cm) (cm_BinaryData cm))) in
                  match updated with
                  | inl err => ufail (ErrString ("failed to update configmap " +:+ name +:+ ": " +:+ Error_ err))
                  | inr cm => uret cm
                  end
              end
        end
  end.

(** Create, or update what another one has created. *)
Definition createOrUpdate {A} (answer : list Call -> Call -> error + A) (create update : Call) : U unit :=
  un! created := call answer create in
  match created with
  | inr _ => uret tt
  | inl err => if IsAlreadyExists (Some err) then un! updated := call answer update in match updated with inr _ => uret tt | inl err => ufail err end else ufail err
  end.

Definition unpackRule (cmRef : ObjectReference) : PolicyRule := mkRule ["create"; "get"; "update"] [""] ["configmaps"] [or_Name cmRef] None.
Definition accessMeta (type : ObjectType) (cmRef : ObjectReference) : Object :=
  mkObj type (mkGVK "" "" "") (or_Name cmRef) (or_Namespace cmRef) "" [ownerRef cmRef] (Some managedLabels).

Definition ensureRole (cmRef : ObjectReference) : U unit :=
  let rule := unpackRule cmRef in
  let fresh := mkRbacRole (accessMeta TRole cmRef) [rule] in
  match ue_roleLister env (or_Namespace cmRef) (or_Name cmRef) with
  | inl err => if IsNotFound (Some err) then createOrUpdate (ue_role env) (CreateRole fresh) (UpdateRole fresh) else ufail err
  | inr role =>
      if existsb (derivesRule rule) (ro_Rules role) then uret tt
      else un! updated := call (ue_role env) (UpdateRole (mkRbacRole (ro_obj role) (ro_Rules role ++ [rule]))) in
           match updated with inr _ => uret tt | inl err => ufail err end
  end.

Definition freshBinding (cmRef : ObjectReference) : RbacBinding :=
  mkRbacBinding (accessMeta TRoleBinding cmRef) (mkRoleRef "Role" (or_Name cmRef)) [mkSubject "ServiceAccount" "default" (or_Namespace cmRef)].
Definition ensureRoleBinding (cmRef : ObjectReference) : U unit :=
  let fresh := freshBinding cmRef in
  match ue_rbLister env (or_Namespace cmRef) (or_Name cmRef) with
  | inl err => if IsNotFound (Some err) then createOrUpdate (ue_binding env) (CreateRoleBinding fresh) (UpdateRoleBinding fresh) else ufail err
  | inr roleBinding =>
      if derivesBinding fresh roleBinding then uret tt
      else un! err := call (ue_delete env) (DeleteRoleBinding (ONamespace (rb_obj roleBinding)) (OName (rb_obj roleBinding))) in
           match err with None => uret tt | Some err => ufail err end
  end.

Definition maxRetainedJobs : nat := 5.

(** Errors of deletions are ignored; a nil job panics. *)
Fixpoint deleteJobs (jobs : list (option Job)) : U unit :=
  match jobs with
  | [] => uret tt
  | None :: _ => upanic
  | Some j :: jobs' => un! _ := call (ue_delete env) (DeleteJob (job_Namespace j) (job_Name j)) in deleteJobs jobs'
  end.

Definition renamed (j : Job) (name : string) : Job :=
  let o := job_obj j in mkJob (mkObj (OType o) (OGVK o) name (ONamespace o) (OUID o) (OwnerRefs o) (Labels o)) (job_Spec j) (job_Conditions j).

(** [pending] is an error that was found on the way and is returned with the job. *)
Definition withPending (pending : option error) (j : Job) : U (option Job) := match pending with Some err => ufail err | None => uret (Some j) end.

(** Another attempt for a failed job, when the interval has passed. *)
Definition retryJob (fresh latest : Job) (cond : JobCondition) (unpackRetryInterval : Z) (pending : option error) : U (error + Job) :=
  if (jc_LastTransitionTime cond + unpackRetryInterval <? ue_clock env)%Z
  then fun h => call (ue_job env) (CreateJob (renamed fresh (ue_generateName env h (job_Name fresh)))) h
  else uret (match pending with Some err => inl err | None => inr latest end).

Definition ensureJob (cmRef : ObjectReference) (bundlePath : string) (secrets : list string) (timeout unpackRetryInterval : Z) : U (option Job) :=
  let fresh := job c cmRef bundlePath secrets timeout in
  match ue_listJobs env (job_Namespace fresh) (or_Name cmRef) with
  | inl err => ufail err
  | inr jobs =>
      let r := ue_getJob env (job_Namespace fresh) (or_Name cmRef) in
      let pending := match r with inl err => Some err | inr _ => None end in
      if bool_decide (is_Some pending) && negb (IsNotFound pending) then match pending with Some err => ufail err | None => upanic end
      else
        let jobs := match r with
                    | inr j => if bool_decide (default ∅ (Labels (job_obj j)) !! bundleUnpackRefLabel = None) then jobs ++ [j] else jobs
                    | inl _ => jobs
                    end in
        match jobs with
        | [] => un! created := call (ue_job env) (CreateJob fresh) in match created with inl err => ufail err | inr j => uret (Some j) end
        | _ =>
            match sortUnpackJobs (Some <$> jobs) maxRetainedJobs with
            | None | Some (None, _) => upanic
            | Some (Some latest, toDelete) =>
                match (if (0 <? unpackRetryInterval)%Z then getCondition (Some latest) JobFailed else None) with
                | Some cond =>
                    un! attempt := retryJob fresh latest cond unpackRetryInterval pending in
                    un! _ := deleteJobs toDelete in
                    match attempt with inl err => ufail err | inr j => uret (Some j) end
                | None =>
                    if derivesJob fresh latest then withPending pending latest
                    else un! err := call (ue_delete env) (DeleteJob (job_Namespace latest) (job_Name latest)) in
                         match err with None => uret None | Some err => ufail err end
                end
            end
        end
  end.

(** ** Unpacking *)

Definition hash (data : string) : string := let h := sha256hex data in String.substring 0 (String.length h - 1) h.

Definition newBundleUnpackResult (lookup : BundleLookup) : BundleUnpackResult (option APIBundle) := mkUnpack lookup None (hash (bl_Path lookup)).

(** A condition with the same status and reason keeps its transition time. *)
Definition mergeUnpackCond (existing cond : BundleLookupCondition) : BundleLookupCondition :=
  if bool_decide (blc_Status existing = blc_Status cond) && bool_decide (blc_Reason existing = blc_Reason cond)
  then mkBLCond (blc_Type cond) (blc_Status cond) (blc_Reason cond) (blc_Message cond) (blc_LastUpdateTime cond) (blc_LastTransitionTime existing)
  else cond.
Definition Unpack_SetCondition (lookup : BundleLookup) (cond : BundleLookupCondition) : BundleLookup :=
  setLookupConditions lookup (setCond blc_Type mergeUnpackCond cond (bl_Conditions lookup)).

(** The condition, true from now on. *)
Definition trueNow (cond : BundleLookupCondition) (reason message : string) : BundleLookupCondition :=
  mkBLCond (blc_Type cond) ConditionTrue reason message (blc_LastUpdateTime cond) (Some (ue_now env)).

Definition pendingMessage (pod : Pod) (ic : ContainerStatus) : string :=
  let msg := "Unpack pod(" +:+ pod_Namespace pod +:+ "/" +:+ pod_Name pod +:+ ") container(" +:+ cst_Name ic +:+ ") is pending" in
  match cst_Waiting ic with None => msg | Some (reason, message) => msg +:+ ". Reason: " +:+ reason +:+ ", Message: " +:+ message end.
Definition pendingContainerStatusMessages (j : Job) : error + string :=
  match ue_listPods env (job_Namespace j) (job_Name j) with
  | inl listErr => inl (ErrString ("failed to list pods for job(" +:+ job_Name j +:+ "): " +:+ Error_ listErr))
  | inr pods =>
      inr (Join (pods ≫= fun pod => if bool_decide (pod_Phase pod = "Pending")
                                    then omap (fun ic => if cst_Ready ic then None else Some (pendingMessage pod ic)) (pod_InitContainerStatuses pod) else []) " | ")
  end.

(** The bundle of a completed job; the lookup stays pending when the config map holds no object. *)
Definition loadUnpacked (lookup : BundleLookup) (cm : ConfigMap) : error + BundleUnpackResult (option APIBundle) :=
  let name := hash (bl_Path lookup) in
  bundle ← Load (Some cm);
  match ab_Object bundle with
  | [] => inr (mkUnpack lookup (Some bundle) name)
  | _ =>
      properties ← (if bool_decide (bl_Properties lookup = "") then inr (ab_Properties bundle)
                    else match PropertyListFromPropertiesAnnotation (bl_Properties lookup) with
                         | inl err => inl (ErrString ("failed to load bundle properties for " +:+ quote (bl_Identifier lookup) +:+ ": " +:+ Error_ err))
                         | inr props => inr props
                         end);
      inr (mkUnpack (Lookup_RemoveCondition lookup BundleLookupPending)
             (Some (mkAPIBundle (ab_CsvName bundle) (ab_PackageName bundle) (ab_ChannelName bundle) (ab_CsvJson bundle) (ab_Object bundle) (ab_BundlePath bundle)
                (ab_ProvidedApis bundle) (ab_RequiredApis bundle) (ab_Version bundle) (ab_SkipRange bundle) (ab_Dependencies bundle) properties
                (ab_Replaces bundle) (ab_Skips bundle) (ab_Deprecation bundle))) name)
  end.

(** What the job says of the lookup. *)
Definition followJob (lookup : BundleLookup) (cm : ConfigMap) (j : Job) : error + BundleUnpackResult (option APIBundle) :=
  let name := hash (bl_Path lookup) in
  let failedCond := Lookup_GetCondition lookup BundleLookupFailed in
  let pendingCond := Lookup_GetCondition lookup BundleLookupPending in
  match getCondition (Some j) JobFailed with
  | Some jobCond => inr (mkUnpack (Unpack_SetCondition lookup (trueNow failedCond (jc_Reason jobCond) (jc_Message jobCond))) None name)
  | None =>
      match getCondition (Some j) JobComplete with
      | None =>
          msgs ← pendingContainerStatusMessages j;
          let message := if bool_decide (msgs = "") then JobIncompleteMessage else JobIncompleteMessage +:+ ": " +:+ msgs in
          if bool_decide (blc_Reason pendingCond = JobIncompleteReason) && bool_decide (blc_Message pendingCond = message)
          then inr (mkUnpack lookup None name)
          else inr (mkUnpack (Unpack_SetCondition lookup (trueNow pendingCond JobIncompleteReason message)) None name)
      | Some _ => loadUnpacked lookup cm
      end
  end.

Definition UnpackBundle (lookup : BundleLookup) (timeout retryInterval : Z) : U (BundleUnpackResult (option APIBundle)) :=
  let result := newBundleUnpackResult lookup in
  let pendingCond := Lookup_GetCondition lookup BundleLookupPending in
  if bool_decide (blc_Status (Lookup_GetCondition lookup BundleLookupFailed) = ConditionTrue) then uret result
  else if negb (bool_decide (blc_Status pendingCond = ConditionTrue)) then uret result
  else
    let ref := bl_CatalogSourceRef lookup in
    match ue_catalog env (or_Namespace ref) (or_Name ref) with
    | inl err =>
        if IsNotFound (Some err) && negb (bool_decide (blc_Reason pendingCond = CatalogSourceMissingReason))
        then uret (mkUnpack (Unpack_SetCondition lookup (trueNow pendingCond CatalogSourceMissingReason CatalogSourceMissingMessage)) None (ur_name result))
        else ufail err
    | inr (uid, secrets) =>
        let csRef := mkObjectRef "CatalogSource" (or_Namespace ref) (or_Name ref) uid "operators.coreos.com/v1alpha1" in
        un! cm := ensureConfigmap csRef (ur_name result) in
        un! cmRef := ulift (ue_reference env cm) in
        un! _ := ensureRole cmRef in
        un! _ := ensureRoleBinding cmRef in
        un! j := ensureJob cmRef (bl_Path lookup) secrets timeout retryInterval in
        match j with
        | None => uret result
        | Some j => ulift (followJob lookup cm j)
        end
    end.
End unpack.

(** ** The job that is followed, and those that are deleted *)

Section retained.
Context `{SortLib}.

Definition failedAt (j : Job) : option Time := jc_LastTransitionTime <$> getCondition (Some j) JobFailed.
(** One job is not later than another; jobs that have not failed come first. *)
Definition notLater (j j' : Job) : Prop :=
  match failedAt j, failedAt j' with Some t, Some t' => (t <= t')%Z | None, Some _ => False | _, None => True end.

Definition less (ji jj : option Job) : bool := match jobLess ji jj with Some b => b | None => false end.

Lemma live_failedAt j : live (Some j) = bool_decide (failedAt j = None).
Proof. unfold live, failedAt. apply bool_decide_ext. by rewrite fmap_None. Qed.

Lemma less_notLater j j' : failedAt j <> None \/ failedAt j' <> None -> less (Some j) (Some j') = false <-> notLater j j'.
Proof.
  unfold less, jobLess, notLater, failedAt. destruct (getCondition (Some j) _), (getCondition (Some j') _); cbn; intros Hn; [lia|tauto|split; [done|by intros []]|naive_solver].
Qed.

Lemma notLater_trans j1 j2 j3 : notLater j1 j2 -> notLater j2 j3 -> notLater j1 j3.
Proof. unfold notLater. destruct (failedAt j1), (failedAt j2), (failedAt j3); try done. lia. Qed.
Lemma notLater_total j j' : notLater j j' \/ notLater j' j.
Proof. unfold notLater. destruct (failedAt j), (failedAt j'); try (by left); try (by right). lia. Qed.

(** At most one job has not failed. *)
Lemma one_live jobs : NoDup jobs -> (length (List.filter live (Some <$> jobs)) <= 1)%nat ->
  forall j j', j ∈ jobs -> j' ∈ jobs -> j <> j' -> failedAt j <> None \/ failedAt j' <> None.
Proof.
  intros Hnd Hlen j j' Hj Hj' Hne. destruct (failedAt j) eqn:E; [by left|]. destruct (failedAt j') eqn:E'; [by right|]. exfalso.
  assert (NoDup (List.filter live (Some <$> jobs))) as Hnd' by (apply NoDup_ListNoDup, List.NoDup_filter, NoDup_ListNoDup, NoDup_fmap_2; [apply _|done]).
  assert (forall x, x ∈ jobs -> failedAt x = None -> Some x ∈ List.filter live (Some <$> jobs)) as Hin.
  { intros x Hx Hf. apply list_elem_of_In, filter_In. split; [apply list_elem_of_In; by apply list_elem_of_fmap_2|]. by rewrite live_failedAt, bool_decide_true. }
  pose proof (Hin j Hj E) as H1. pose proof (Hin j' Hj' E') as H2. destruct (List.filter live _) as [|x [|y l]]; cbn in Hlen; [by apply elem_of_nil in H1| |lia].
  apply list_elem_of_singleton in H1, H2. congruence.
Qed.

(** The sorted jobs. *)
Lemma sortJobs_spec jobs l : NoDup jobs -> sortJobs (Some <$> jobs) = Some l ->
  exists js, l = Some <$> js /\ js ≡ₚ jobs /\ forall a b x y, (a < b)%nat -> js !! a = Some x -> js !! b = Some y -> notLater y x /\ failedAt y <> None.
Proof.
  unfold sortJobs. intros Hnd. destruct (1 <? _)%nat eqn:Elen; [done|]. apply Nat.ltb_ge in Elen. intros [= <-]. fold less.
  pose proof (one_live jobs Hnd Elen) as Hone. pose proof (sortBy_perm less (Some <$> jobs)) as Hp.
  destruct (Permutation_map_inv _ _ Hp) as (js & Hjs & Hperm). exists js. split; [exact Hjs|]. split; [by symmetry|].
  assert (not_after less (Some <$> jobs)) as Hna.
  { split.
    - intros x y (x' & -> & Hx)%list_elem_of_fmap (y' & -> & Hy)%list_elem_of_fmap Hne Hl.
      assert (failedAt y' <> None \/ failedAt x' <> None) as Hf by (apply Hone; congruence). apply less_notLater; [done|].
      destruct (notLater_total y' x') as [?|Hn]; [done|]. apply less_notLater in Hn; [congruence|tauto].
    - intros x y z (x' & -> & Hx)%list_elem_of_fmap (y' & -> & Hy)%list_elem_of_fmap (z' & -> & Hz)%list_elem_of_fmap Hxy Hyz Hxz.
      rewrite !less_notLater by (apply Hone; congruence). intros ? ?. by eapply notLater_trans. }
  assert (NoDup js) as Hndjs by (by rewrite <- Hperm).
  intros a b x y Hab Ha Hb. assert (x ∈ jobs) as Hx by (rewrite Hperm; by eapply list_elem_of_lookup_2).
  assert (y ∈ jobs) as Hy by (rewrite Hperm; by eapply list_elem_of_lookup_2). assert (y <> x) as Hne by (intros ->; assert (a = b) by (by eapply NoDup_lookup); lia).
  assert (notLater y x) as Hnl.
  { apply less_notLater; [by apply Hone|]. eapply (sortBy_ordered less (Some <$> jobs)); [by apply NoDup_fmap_2; [apply _|]|done|exact Hab| |].
    - rewrite Hjs. unfold fmap in *. change (map Some js) with (Some <$> js). by rewrite list_lookup_fmap, Ha.
    - rewrite Hjs. change (map Some js) with (Some <$> js). by rewrite list_lookup_fmap, Hb. }
  split; [done|]. intros Hf. destruct (Hone y x Hy Hx Hne) as [?|Hx']; [done|]. unfold notLater in Hnl. rewrite Hf in Hnl. by destruct (failedAt x).
Qed.

Lemma withoutNil_Some (js : list Job) : withoutNil (Some <$> js) = Some <$> js.
Proof. induction js as [|j js IH]; [done|]. cbn. unfold withoutNil in IH. rewrite IH. by destruct (Some <$> js). Qed.

Lemma sortUnpackJobs_spec jobs max latest toDelete : NoDup jobs -> jobs <> [] -> (0 < max)%nat -> sortUnpackJobs (Some <$> jobs) max = Some (latest, toDelete) ->
  exists js j, js ≡ₚ jobs /\ latest = Some j /\ js !! 0 = Some j /\
  (forall a b x y, (a < b)%nat -> js !! a = Some x -> js !! b = Some y -> notLater y x /\ failedAt y <> None) /\
  toDelete = Some <$> take (max `min` (length jobs - 1 - max)) (drop max js).
Proof.
  intros Hnd Hne Hmax. unfold sortUnpackJobs. destruct (Some <$> jobs) as [|o os] eqn:Ej; [by destruct jobs|]. rewrite <- Ej. clear Ej o os.
  destruct (sortJobs (Some <$> jobs)) as [l|] eqn:Es; [|done]. cbn [mbind option_bind].
  destruct (sortJobs_spec jobs l Hnd Es) as (js & -> & Hp & Hord). assert (length js = length jobs) as Hlen by (by rewrite Hp).
  destruct js as [|j js]; [by destruct jobs|]. rewrite withoutNil_Some. rewrite length_fmap, <- Hlen. change (Some <$> j :: js) with (Some j :: (Some <$> js)) at 1. cbv iota beta.
  intros Hr. exists (j :: js), j. split; [done|]. destruct (length (j :: js) <=? max)%nat eqn:El.
  - injection Hr as <- <-. split_and!; [done..|]. apply Nat.leb_le in El. by rewrite drop_ge, take_nil by done.
  - rewrite (proj2 (Nat.eqb_neq max 0)) in Hr by lia. injection Hr as <- <-. split_and!; [done..|]. by rewrite fmap_take, fmap_drop.
Qed.
End retained.

(** Retries of unpack jobs keep what matters.  Choosing among distinct jobs of a bundle dereferences nil exactly
    when two of them have not failed; otherwise the job that is followed is one that has not failed, or else the one
    that failed last; and only failed jobs are deleted, at most the maximum of retained jobs at a time, each while as
    many jobs that are not older are kept. *)
Theorem sortUnpackJobs_correct `{SortLib} (jobs : list Job) (max : nat) :
  NoDup jobs -> jobs <> [] -> (0 < max)%nat ->
  (sortUnpackJobs (Some <$> jobs) max = None <-> (1 < length (List.filter live (Some <$> jobs)))%nat) /\
  forall latest toDelete, sortUnpackJobs (Some <$> jobs) max = Some (latest, toDelete) ->
    exists j ds, latest = Some j /\ toDelete = Some <$> ds /\ j ∈ jobs /\ (forall j', j' ∈ jobs -> notLater j' j) /\
      (length ds <= max)%nat /\ (ds <> [] -> (length ds + S max <= length jobs)%nat) /\
      forall d, d ∈ ds -> d ∈ jobs /\ failedAt d <> None /\
        exists kept, NoDup kept /\ length kept = max /\ forall k, k ∈ kept -> k ∈ jobs /\ k ∉ ds /\ notLater d k.
Proof.
  intros Hnd Hne Hmax. split.
  { unfold sortUnpackJobs. destruct (Some <$> jobs) as [|o os] eqn:Ej; [by destruct jobs|]. rewrite <- Ej. unfold sortJobs. destruct (1 <? _)%nat eqn:El.
    - by apply Nat.ltb_lt in El.
    - apply Nat.ltb_ge in El. cbn [mbind option_bind]. split; [|lia]. destruct (sortBy _ _) as [|[|] ?]; try done. by repeat case_match. }
  intros latest toDelete Hs. destruct (sortUnpackJobs_spec jobs max latest toDelete Hnd Hne Hmax Hs) as (js & j & Hp & -> & Hj & Hord & ->).
  assert (length js = length jobs) as Hlen by (by rewrite Hp). assert (NoDup js) as Hndj by (by rewrite Hp).
  eexists j, _. split; [done|]. split; [done|]. split_and!.
  - rewrite <- Hp. by eapply list_elem_of_lookup_2.
  - intros j' Hj'. rewrite <- Hp in Hj'. apply list_elem_of_lookup in Hj' as [[|b] Hb]; [|by eapply (Hord 0 (S b)); [lia|..]].
    assert (j' = j) as -> by congruence. unfold notLater. destruct (failedAt j); [lia|done].
  - rewrite length_take. lia.
  - intros Hds. assert (length (take (max `min` (length jobs - 1 - max)) (drop max js)) <> 0%nat) as Hds' by (by rewrite length_zero_iff_nil).
    rewrite length_take, length_drop in *. lia.
  - intros d Hd. apply list_elem_of_lookup in Hd as [i Hi]. apply lookup_take_Some in Hi as [Hi Hlt]. rewrite lookup_drop in Hi.
    split; [rewrite <- Hp; by eapply list_elem_of_lookup_2|]. split; [eapply (Hord 0 (max + i)%nat); [lia|done|done]|].
    exists (take max js). assert (max <= length js)%nat as Hle by (apply lookup_lt_Some in Hi; lia).
    split; [exact (sublist_NoDup _ js (sublist_take js max) Hndj)|]. split; [rewrite length_take; lia|]. intros k [a Ha]%list_elem_of_lookup. apply lookup_take_Some in Ha as [Ha Hlt'].
    split_and!; [rewrite <- Hp; by eapply list_elem_of_lookup_2| |by eapply (Hord a (max + i)%nat); [lia|..]].
    intros [b Hb]%list_elem_of_lookup. apply lookup_take_Some in Hb as [Hb _]. rewrite lookup_drop in Hb. assert (a = (max + b)%nat) by (by eapply NoDup_lookup). lia.
Qed.

(** ** The life of a bundle lookup *)

Inductive LookupPhase := LookupFailed | LookupPending | LookupUnpacked.
Definition lookupPhase (b : BundleLookup) : LookupPhase :=
  if bool_decide (blc_Status (Lookup_GetCondition b BundleLookupFailed) = ConditionTrue) then LookupFailed
  else if bool_decide (blc_Status (Lookup_GetCondition b BundleLookupPending) = ConditionTrue) then LookupPending
  else LookupUnpacked.

Lemma mergeUnpackCond_type a b : blc_Type (mergeUnpackCond a b) = blc_Type b.
Proof. unfold mergeUnpackCond. by case_match. Qed.
Lemma mergeUnpackCond_rest a b : blc_Status (mergeUnpackCond a b) = blc_Status b /\ blc_Reason (mergeUnpackCond a b) = blc_Reason b /\ blc_Message (mergeUnpackCond a b) = blc_Message b.
Proof. unfold mergeUnpackCond. by case_match. Qed.

Lemma Lookup_type b t : blc_Type (Lookup_GetCondition b t) = t.
Proof. unfold Lookup_GetCondition. destruct (findCond _ _ _) eqn:E; [|done]. by apply findCond_Some in E as [_ <-]. Qed.

Lemma GetCondition_set b cond t :
  Lookup_GetCondition (Unpack_SetCondition b cond) t =
  if bool_decide (t = blc_Type cond) then match findCond blc_Type t (bl_Conditions b) with Some old => mergeUnpackCond old cond | None => cond end
  else Lookup_GetCondition b t.
Proof. unfold Lookup_GetCondition, Unpack_SetCondition, setLookupConditions. cbn [bl_Conditions]. rewrite (findCond_set blc_Type _ mergeUnpackCond_type). by case_bool_decide. Qed.

(** A condition that was set says what was set. *)
Lemma GetCondition_set_same b cond : let c' := Lookup_GetCondition (Unpack_SetCondition b cond) (blc_Type cond) in
  blc_Status c' = blc_Status cond /\ blc_Reason c' = blc_Reason cond /\ blc_Message c' = blc_Message cond.
Proof. cbv zeta. rewrite GetCondition_set, bool_decide_true by done. case_match; [apply mergeUnpackCond_rest|done]. Qed.
Lemma GetCondition_set_other b cond t : t <> blc_Type cond -> Lookup_GetCondition (Unpack_SetCondition b cond) t = Lookup_GetCondition b t.
Proof. intros Hn. by rewrite GetCondition_set, bool_decide_false. Qed.

Lemma removeFirst_find t conds t' : conds_ok blc_Type conds ->
  findCond blc_Type t' (removeFirst t conds) = if bool_decide (t' = t) then None else findCond blc_Type t' conds.
Proof.
  unfold conds_ok. induction conds as [|d conds IH]; [by intros _; case_bool_decide|]. cbn [removeFirst]. rewrite fmap_cons, NoDup_cons. intros [Hd Hok].
  destruct (decide (blc_Type d = t)) as [E|E].
  - rewrite (bool_decide_true (blc_Type d = t)) by done. case_bool_decide as E'; [apply findCond_None; by rewrite E', <- E|].
    unfold findCond at 2. cbn [List.find]. unfold hasType at 1. by rewrite bool_decide_false by congruence.
  - rewrite (bool_decide_false (blc_Type d = t)) by done. unfold findCond in *. cbn [List.find]. unfold hasType at 1 3. rewrite IH by done.
    destruct (decide (blc_Type d = t')) as [E2|E2].
    + rewrite !(bool_decide_true (blc_Type d = t')) by done. by rewrite bool_decide_false by congruence.
    + by rewrite !(bool_decide_false (blc_Type d = t')) by done.
Qed.

Section outcome.
Context `{UnpackLib, ConfigMapLib, SnapshotLib, RangeOrder, SortLib} (c : UnpackerConfig) (env : UnpackEnv).

(** What the cluster has said about config maps and jobs. *)
Definition reportedConfigMap (cm : ConfigMap) : Prop := (exists ns name, ue_cmLister env ns name = inr cm) \/ exists h call, ue_configMap env h call = inr cm.
Definition reportedJob (j : Job) : Prop :=
  (exists ns name js, ue_listJobs env ns name = inr js /\ j ∈ js) \/ (exists ns name, ue_getJob env ns name = inr j) \/ exists h call, ue_job env h call = inr j.

Lemma ubind_inr {A B} (m : U A) (k : A -> U B) h h' r : ubind m k h = (h', Some (inr r)) -> exists h1 x, m h = (h1, Some (inr x)) /\ k x h1 = (h', Some (inr r)).
Proof. unfold ubind. destruct (m h) as [h1 [[err|x]|]]; [done| |done]. eauto. Qed.
Lemma call_inr {A} (answer : list Call -> Call -> A) cl h h' r : call answer cl h = (h', Some (inr r)) -> r = answer h cl /\ h' = h ++ [cl].
Proof. by intros [= <- <-]. Qed.

Lemma ensureConfigmap_reported csRef name h h' cm : ensureConfigmap env csRef name h = (h', Some (inr cm)) -> reportedConfigMap cm.
Proof.
  unfold ensureConfigmap. cbv zeta. destruct (ue_cmLister _ _ _) as [err|cm0] eqn:El; [|intros [= <- <-]; left; eauto].
  destruct (negb _); [done|]. intros (h1 & r & [-> ->]%call_inr & Hk)%ubind_inr.
  destruct (ue_configMap env h _) as [err1|cm1] eqn:E1; [|injection Hk as <- <-; right; eauto]. destruct (negb _); [done|].
  apply ubind_inr in Hk as (h2 & r & [-> ->]%call_inr & Hk). destruct (ue_configMap env _ _) as [|cm2] in Hk; [done|].
  apply ubind_inr in Hk as (h3 & r & [-> ->]%call_inr & Hk). destruct (ue_configMap env _ _) as [|cm3] eqn:E3 in Hk; [done|].
  injection Hk as <- <-. right. eauto.
Qed.

Lemma sortUnpackJobs_latest (jobs : list Job) max latest ds : sortUnpackJobs (Some <$> jobs) max = Some (Some latest, ds) -> latest ∈ jobs.
Proof.
  unfold sortUnpackJobs. destruct (Some <$> jobs) as [|o os] eqn:Ej; [done|]. rewrite <- Ej. unfold sortJobs. destruct (1 <? _)%nat; [done|]. cbn [mbind option_bind].
  set (less := fun ji jj => _). pose proof (sortBy_perm less (Some <$> jobs)) as Hp. destruct (sortBy less _) as [|[j|] l]; [done| |done]. intros Hr.
  assert (latest = j) as -> by (repeat case_match; congruence). assert (Some j ∈ Some <$> jobs) as (j' & [= ->] & Hj)%list_elem_of_fmap; [|done].
  rewrite <- Hp. left.
Qed.

Lemma ensureJob_reported cmRef path secrets timeout interval h h' j :
  ensureJob c env cmRef path secrets timeout interval h = (h', Some (inr (Some j))) -> reportedJob j.
Proof.
  unfold ensureJob. cbv zeta. destruct (ue_listJobs _ _ _) as [|jobs] eqn:El; [done|]. set (r := ue_getJob _ _ _). destruct (_ && _); [by case_match|].
  set (all := match r with inl _ => jobs | inr _ => _ end).
  assert (forall x, x ∈ all -> reportedJob x) as Hall.
  { intros x Hx. unfold all in Hx. destruct r as [|j0] eqn:Er; [left; eauto|]. case_bool_decide; [|left; eauto].
    apply elem_of_app in Hx as [Hx| ->%list_elem_of_singleton]; [left; eauto|right; left; eauto]. }
  destruct all as [|j0 js] eqn:Ea.
  { intros (h1 & x & [-> ->]%call_inr & Hk)%ubind_inr. destruct (ue_job env h _) eqn:Ej; [done|]. injection Hk as <- <-. right; right; eauto. }
  rewrite <- Ea in *. destruct (sortUnpackJobs (Some <$> all) _) as [[[latest|] ds]|] eqn:Es; [|done..]. pose proof (sortUnpackJobs_latest _ _ _ _ Es) as Hlatest.
  destruct (if (0 <? interval)%Z then _ else None) as [cond|].
  - intros (h1 & a & Ha & (h2 & u & _ & Hk)%ubind_inr)%ubind_inr. destruct a as [|ja]; [done|]. injection Hk as <- <-. unfold retryJob in Ha. destruct (_ <? _)%Z.
    + apply call_inr in Ha as [Ha _]. right; right; eauto.
    + injection Ha as _ Ha. destruct (match r with inl err => Some err | inr _ => None end); [done|]. injection Ha as <-. by apply Hall.
  - destruct (derivesJob _ _); [unfold withPending; destruct (match r with inl err => Some err | inr _ => None end); [done|]; intros [= <- <-]; by apply Hall|].
    intros (h1 & err & _ & Hk)%ubind_inr. by destruct err.
Qed.

(** The outcomes for a pending lookup. *)
Definition stillPending (res : BundleUnpackResult (option APIBundle)) : Prop :=
  lookupPhase (ur_BundleLookup res) = LookupPending /\ forall b, ur_bundle res = Some b -> ab_Object b = [].
Definition failedWith (j : Job) (res : BundleUnpackResult (option APIBundle)) : Prop :=
  lookupPhase (ur_BundleLookup res) = LookupFailed /\ exists cond, getCondition (Some j) JobFailed = Some cond /\
    let failed := Lookup_GetCondition (ur_BundleLookup res) BundleLookupFailed in blc_Reason failed = jc_Reason cond /\ blc_Message failed = jc_Message cond.
Definition unpackedFrom (lookup : BundleLookup) (cm : ConfigMap) (j : Job) (res : BundleUnpackResult (option APIBundle)) : Prop :=
  lookupPhase (ur_BundleLookup res) = LookupUnpacked /\ getCondition (Some j) JobFailed = None /\ getCondition (Some j) JobComplete <> None /\
  exists b b', Load (Some cm) = inr b /\ ab_Object b <> [] /\ ur_bundle res = Some b' /\ ab_Object b' = ab_Object b /\ ab_CsvName b' = ab_CsvName b /\
    (bl_Properties lookup <> "" -> PropertyListFromPropertiesAnnotation (bl_Properties lookup) = inr (ab_Properties b')).

Lemma phase_pending lookup : lookupPhase lookup = LookupPending <->
  blc_Status (Lookup_GetCondition lookup BundleLookupFailed) <> ConditionTrue /\ blc_Status (Lookup_GetCondition lookup BundleLookupPending) = ConditionTrue.
Proof. unfold lookupPhase. repeat case_bool_decide; intuition congruence. Qed.

(** Another reason to wait. *)
Lemma pending_again lookup reason message name :
  lookupPhase lookup = LookupPending -> stillPending (mkUnpack (Unpack_SetCondition lookup (trueNow env (Lookup_GetCondition lookup BundleLookupPending) reason message)) None name).
Proof.
  intros [Hf Hp]%phase_pending. split; [|done]. cbn [ur_BundleLookup]. apply phase_pending. set (cond := trueNow _ _ _ _).
  assert (blc_Type cond = BundleLookupPending) as Ht by apply Lookup_type. split.
  - by rewrite GetCondition_set_other by (by rewrite Ht).
  - rewrite <- Ht. by destruct (GetCondition_set_same lookup cond) as [-> _].
Qed.

Lemma loadUnpacked_outcome lookup cm j res : conds_ok blc_Type (bl_Conditions lookup) -> lookupPhase lookup = LookupPending ->
  getCondition (Some j) JobFailed = None -> getCondition (Some j) JobComplete <> None -> loadUnpacked lookup cm = inr res ->
  stillPending res \/ unpackedFrom lookup cm j res.
Proof.
  intros Hok Hph Hjf Hjc. unfold loadUnpacked. cbv zeta. intros (b & Hb & Hk)%bind_inr. destruct (ab_Object b) as [|o os] eqn:Eo.
  { injection Hk as <-. left. split; [done|]. by intros b' [= <-]. }
  apply bind_inr in Hk as (props & Hprops & [= <-]). right. split_and!; [|done..|].
  - cbn [ur_BundleLookup]. apply phase_pending in Hph as [Hf _]. unfold lookupPhase, Lookup_GetCondition, Lookup_RemoveCondition, setLookupConditions in *. cbn [bl_Conditions].
    rewrite !removeFirst_find by done. rewrite (bool_decide_false (BundleLookupFailed = _)), (bool_decide_true (BundleLookupPending = _)) by done. by rewrite !bool_decide_false.
  - exists b. eexists. split_and!; [done|by rewrite Eo|done|done|done|]. intros Hp. rewrite bool_decide_false in Hprops by done. cbn.
    destruct (PropertyListFromPropertiesAnnotation _); [done|]. congruence.
Qed.

Lemma followJob_outcome lookup cm j res : conds_ok blc_Type (bl_Conditions lookup) -> lookupPhase lookup = LookupPending -> followJob env lookup cm j = inr res ->
  stillPending res \/ failedWith j res \/ unpackedFrom lookup cm j res.
Proof.
  intros Hok Hph. unfold followJob. cbv zeta. destruct (getCondition (Some j) JobFailed) as [cond|] eqn:Ef.
  { intros [= <-]. right; left. unfold failedWith. cbn [ur_BundleLookup]. set (fc := trueNow _ _ _ _).
    assert (BundleLookupFailed = blc_Type fc) as Ht by (symmetry; apply Lookup_type). destruct (GetCondition_set_same lookup fc) as (Hs & Hr & Hm). rewrite Ht.
    split; [unfold lookupPhase; by rewrite Ht, Hs, bool_decide_true|]. exists cond. by rewrite Hr, Hm. }
  destruct (getCondition (Some j) JobComplete) as [cc|] eqn:Ec.
  - intros Hl. destruct (loadUnpacked_outcome lookup cm j res Hok Hph Ef) as [?|?]; [by rewrite Ec|done|by left|by right; right].
  - intros (msgs & _ & Hk)%bind_inr. left. destruct (_ && _); injection Hk as <-; [by split|]. by apply pending_again.
Qed.
End outcome.

(** The life of a bundle lookup.  A lookup that has failed or is unpacked stays as it is, and the cluster is not
    touched.  A pending one stays pending; or it fails, with the reason and the message of a job of the cluster that
    failed; or it is unpacked, once a job of the cluster is complete and has not failed and the config map holds at
    least one object, and the result has the objects of the config map with the properties of the lookup. *)
Theorem UnpackBundle_outcome `{UnpackLib, ConfigMapLib, SnapshotLib, RangeOrder, SortLib} (c : UnpackerConfig) (env : UnpackEnv)
    (lookup : BundleLookup) (timeout interval : Z) (h h' : list Call) (res : BundleUnpackResult (option APIBundle)) :
  conds_ok blc_Type (bl_Conditions lookup) -> UnpackBundle c env lookup timeout interval h = (h', Some (inr res)) ->
  match lookupPhase lookup with
  | LookupFailed | LookupUnpacked => res = newBundleUnpackResult lookup /\ h' = h
  | LookupPending =>
      stillPending res \/ exists cm j, reportedConfigMap env cm /\ reportedJob env j /\ (failedWith j res \/ unpackedFrom lookup cm j res)
  end.
Proof.
  intros Hok. unfold UnpackBundle. cbv zeta. unfold lookupPhase at 1. case_bool_decide as Ef; [by intros [= <- <-]|]. case_bool_decide as Ep; cbn [negb]; [|by intros [= <- <-]].
  assert (lookupPhase lookup = LookupPending) as Hph by (by apply phase_pending).
  destruct (ue_catalog _ _ _) as [err|[uid secrets]].
  { destruct (_ && _); [|done]. intros [= <- <-]. left. by apply pending_again. }
  intros (h1 & cm & Hcm%ensureConfigmap_reported & (h2 & cmRef & _ & (h3 & u & _ & (h4 & u' & _ & (h5 & j & Hj & Hk)%ubind_inr)%ubind_inr)%ubind_inr)%ubind_inr)%ubind_inr.
  destruct j as [j|]; [|injection Hk as <- <-; left; by split]. apply ensureJob_reported in Hj. injection Hk as _ Hk.
  destruct (followJob_outcome env lookup cm j res Hok Hph Hk) as [?|[?|?]]; [by left|right; exists cm, j; auto..].
Qed.

(** ** From the bundle image to the bundle *)

Section delivery.
Context `{UnpackLib, ConfigMapLib, SnapshotLib, RangeOrder, SortLib} (c : UnpackerConfig) (env : UnpackEnv).

(** The cluster when the job of a lookup is done: everything the unpacker makes is there. *)
Record jobDone (lookup : BundleLookup) (timeout : Z) (cm : ConfigMap) (done_ref : ObjectReference) (done_secrets : list string) (done_job : Job)
    (done_role : RbacRole) (done_binding : RbacBinding) : Prop := mkDone {
  done_catalog : exists uid, ue_catalog env (or_Namespace (bl_CatalogSourceRef lookup)) (or_Name (bl_CatalogSourceRef lookup)) = inr (uid, done_secrets);
  done_cm : ue_cmLister env (or_Namespace (bl_CatalogSourceRef lookup)) (hash (bl_Path lookup)) = inr cm;
  done_cmRef : ue_reference env cm = inr done_ref;
  done_hasRole : ue_roleLister env (or_Namespace done_ref) (or_Name done_ref) = inr done_role;
  done_rule : existsb (derivesRule (unpackRule done_ref)) (ro_Rules done_role) = true;
  done_hasBinding : ue_rbLister env (or_Namespace done_ref) (or_Name done_ref) = inr done_binding;
  done_bound : derivesBinding (freshBinding done_ref) done_binding = true;
  done_listed : ue_listJobs env (or_Namespace done_ref) (or_Name done_ref) = inr [done_job];
  done_named : ue_getJob env (or_Namespace done_ref) (or_Name done_ref) = inr done_job;
  done_labelled : default ∅ (Labels (job_obj done_job)) !! bundleUnpackRefLabel <> None;
  done_same : derivesJob (job c done_ref (bl_Path lookup) done_secrets timeout) done_job = true;
  done_notFailed : getCondition (Some done_job) JobFailed = None;
  done_complete : getCondition (Some done_job) JobComplete <> None;
}.

Lemma sortUnpackJobs_one (j : Job) max : (0 < max)%nat -> sortUnpackJobs [Some j] max = Some (Some j, []).
Proof.
  intros Hmax. unfold sortUnpackJobs, sortJobs. rewrite (proj2 (Nat.ltb_ge 1 (length (List.filter live [Some j])))) by (cbn; destruct (bool_decide _); cbn; lia).
  cbn [mbind option_bind]. set (l := fun ji jj => _). pose proof (sortBy_perm l [Some j]) as Hp. apply Permutation_singleton_r in Hp as ->. cbn.
  by destruct max; [lia|].
Qed.

Lemma ensureJob_done cmRef path secrets timeout interval (j : Job) h :
  ue_listJobs env (or_Namespace cmRef) (or_Name cmRef) = inr [j] -> ue_getJob env (or_Namespace cmRef) (or_Name cmRef) = inr j ->
  default ∅ (Labels (job_obj j)) !! bundleUnpackRefLabel <> None -> derivesJob (job c cmRef path secrets timeout) j = true ->
  getCondition (Some j) JobFailed = None -> ensureJob c env cmRef path secrets timeout interval h = (h, Some (inr (Some j))).
Proof.
  intros Hl Hg Hlab Hd Hf. unfold ensureJob. cbv zeta. change (job_Namespace (job c cmRef path secrets timeout)) with (or_Namespace cmRef). rewrite Hl, Hg. cbn [bool_decide].
  rewrite (bool_decide_false (is_Some None)) by (by intros []). cbn [andb]. rewrite bool_decide_false by done.
  change (Some <$> [j]) with [Some j]. rewrite sortUnpackJobs_one by (unfold maxRetainedJobs; lia). rewrite Hf. destruct (0 <? interval)%Z; by rewrite Hd.
Qed.

Lemma UnpackBundle_done lookup timeout interval cm ref secrets j role binding h : lookupPhase lookup = LookupPending ->
  jobDone lookup timeout cm ref secrets j role binding ->
  UnpackBundle c env lookup timeout interval h = (h, Some (loadUnpacked lookup cm)).
Proof.
  intros [Hf Hp]%phase_pending [[uid Hcat] Hcm Href Hrole Hrule Hbind Hbound Hlist Hget Hlab Hsame Hjf Hjc].
  unfold UnpackBundle. cbv zeta. rewrite bool_decide_false by done. rewrite (bool_decide_true (blc_Status _ = _)) by done. cbn [negb]. rewrite Hcat.
  unfold ubind at 1. unfold ensureConfigmap. cbv zeta. cbn [or_Namespace]. change (ur_name (newBundleUnpackResult lookup)) with (hash (bl_Path lookup)). rewrite Hcm. cbn [uret]. unfold ubind at 1. unfold ulift at 1. rewrite Href.
  unfold ubind at 1. unfold ensureRole. cbv zeta. rewrite Hrole, Hrule. unfold uret at 1. unfold ubind at 1. unfold ensureRoleBinding. cbv zeta. rewrite Hbind, Hbound. unfold uret at 1.
  unfold ubind at 1. rewrite (ensureJob_done ref (bl_Path lookup) secrets timeout interval j) by done. unfold ulift, followJob. cbv zeta. rewrite Hjf.
  destruct (getCondition (Some j) JobComplete); done.
Qed.
End delivery.

(** C29: a bundle gets from its image to the install plan whole.  When the job that unpacks the image of a resolved
    operator has written its config map, the next attempt to unpack touches nothing and returns exactly the manifests
    of the image, its CSV, and the properties the operator was resolved with. *)
Theorem unpack_delivers_bundle `{UnpackLib, ConfigMapLib, SnapshotLib, RangeOrder, SortLib} (c : UnpackerConfig) (env : UnpackEnv) (writer : WriterEnv) (limit : Z)
    (op : Entry) (info : OperatorSourceInfo) (anno : string) (timeout interval : Z) (cm : ConfigMap)
    (ref : ObjectReference) (secrets : list string) (j : Job) (role : RbacRole) (binding : RbacBinding) (csv name json : string) (h : list Call) :
  let files := bundleFiles writer "/bundle/" in
  let lookup := newLookup op info anno in
  PropertiesAnnotationFromPropertyList (e_Properties op) = inr anno -> anno <> "" -> (forall p, p ∈ e_Properties op -> utf8 (PType p) /\ compactJSON (PValue p)) ->
  Populate writer "/bundle/" true limit = ([cm], None) -> NoDup (TranslateInvalidChars <$> files.*1) ->
  csv ∈ files.*2 -> isCSV csv = Some (name, inr json) -> (forall x, x ∈ files.*2 -> is_Some (isCSV x) -> x = csv) ->
  jobDone c env lookup timeout cm ref secrets j role binding ->
  exists res bundle, UnpackBundle c env lookup timeout interval h = (h, Some (inr res)) /\ lookupPhase (ur_BundleLookup res) = LookupUnpacked /\
    ur_bundle res = Some bundle /\ ab_Object bundle ≡ₚ List.filter decodable files.*2 /\ ab_CsvName bundle = name /\ ab_CsvJson bundle = json /\
    ab_Properties bundle = e_Properties op.
Proof.
  cbv zeta. intros Hanno Hne Hcompact Hpop Hnd Hcsv Hname Hone Hdone. set (lookup := newLookup op info anno) in *.
  assert (lookupPhase lookup = LookupPending) as Hph by done.
  destruct (Populate_load writer "/bundle/" true limit cm Hpop (or_introl eq_refl) Hnd) as (bundle & Hload & Ho & Hb).
  { intros x n err Hx Hc. assert (x = csv) as -> by (apply Hone; [done|by rewrite Hc]). congruence. }
  destruct (Hb csv name json Hcsv Hname Hone) as [Hn Hj].
  assert (ab_Object bundle <> []) as Hobj.
  { intros Hnil. rewrite Hnil in Ho. apply Permutation_nil_l in Ho. assert (csv ∈ List.filter decodable (bundleFiles writer "/bundle/").*2) as Hin; [|rewrite <- Ho in Hin; by apply elem_of_nil in Hin].
    apply list_elem_of_In, filter_In. split; [by apply list_elem_of_In|]. unfold decodable. unfold isCSV in Hname. by destruct (decodeResource csv). }
  assert (PropertyListFromPropertiesAnnotation anno = inr (e_Properties op)) as Hprops.
  { unfold PropertiesAnnotationFromPropertyList in Hanno. unfold PropertyListFromPropertiesAnnotation. destruct (encAnnotation _) eqn:E; [|done]. injection Hanno as <-. by rewrite (decAnnotation_enc _ _ Hcompact E). }
  rewrite (UnpackBundle_done c env lookup timeout interval cm ref secrets j role binding h Hph Hdone).
  unfold loadUnpacked. cbv zeta. rewrite Hload. cbn [mbind sum_bind]. destruct (ab_Object bundle) as [|o os] eqn:Eo; [done|].
  change (bl_Properties lookup) with anno. rewrite bool_decide_false by done. rewrite Hprops. cbn [mbind sum_bind].
  eexists _, _. split; [reflexivity|]. split_and!; try done.
Qed.

(** ** Launching an image (configmap_writer.go) *)

Record LaunchEnv := mkLaunchEnv {
  le_createConfigMap : ConfigMap -> error + ConfigMap; le_createJob : Job -> error + Job; le_deleteConfigMap : string -> string -> option error
}.

Definition launchJob (bundleImage initImage namespace cmName : string) (gzip : bool) : Job :=
  let opmCommand := ["/injected/opm"; "alpha"; "bundle"; "extract"; "-n"; namespace; "-c"; cmName] ++ (if gzip then ["--gzip"] else []) in
  mkJob (mkObj TOther (mkGVK "" "" "") "" "" "" [] None)
    (mkJobSpec "bundle-image" ∅ "OnFailure" [] "" None None
       [mkContainer "bundle-image" bundleImage "" opmCommand [(EnvContainerImage, bundleImage)] [("copydir", "/injected")] [] None [] ""]
       [mkContainer "copy-binary" initImage "" ["/bin/cp"; "/bin/opm"; "/copy-dest"] [] [("copydir", "/copy-dest")] [] None [] ""]
       ["copydir"] [] [] None None) [].

(** [inr None] is success with nil pointers. *)
Definition LaunchBundleImage (env : LaunchEnv) (bundleImage initImage namespace : string) (gzip : bool) : error + option (ConfigMap * Job) :=
  newConfigMap ← le_createConfigMap env (mkConfigMap (mkObj TConfigMap (mkGVK "" "" "") "" namespace "" [] None) None ∅ ∅);
  match le_createJob env (launchJob bundleImage initImage namespace (OName (cm_obj newConfigMap)) gzip) with
  | inr launchedJob => inr (Some (newConfigMap, launchedJob))
  | inl _ => match le_deleteConfigMap env namespace (OName (cm_obj newConfigMap)) with Some err => inl err | None => inr None end
  end.

(** ** Jobs of a bundle *)

Module UnpackDemo.
#[local] Existing Instances demo_semver canonical_order insertion_sort_lib SourceDemo.resolverLib SourceDemo.lib ConfigMapDemo.lib.

(** Names stand for what they identify; a path of 64 characters stands for its hash. *)
Definition digits : string := "0123456789abcdef0123456789abcdef0123456789abcdef0123456789abcdef".
Definition lib : UnpackLib := {|
  derivesRule a b := bool_decide (ResourceNames a = ResourceNames b); derivesBinding a b := bool_decide (RefName (rb_RoleRef a) = RefName (rb_RoleRef b));
  derivesJob a b := bool_decide (jo_TemplateName (job_Spec a) = jo_TemplateName (job_Spec b)); sha256hex _ := digits; sha256hex_length _ := eq_refl
|}.
#[local] Existing Instance lib.

Definition config : UnpackerConfig := mkUnpacker "quay.io/opm" "quay.io/util" 600000000000 1001.
Definition ref : ObjectReference := mkObjectRef "ConfigMap" "olm" (hash "quay.io/etcd") "u" "v1".
Definition jobWith (name : string) (labelled : bool) (conds : list JobCondition) : Job :=
  let fresh := job config ref "quay.io/etcd" [] (-1) in
  mkJob (mkObj TOther (mkGVK "" "" "") name "olm" "" [] (if labelled then Labels (job_obj fresh) else None)) (job_Spec fresh) conds.
Definition complete : JobCondition := mkJobCondition JobComplete ConditionTrue "" "" 5%Z.
Definition failure (t : Time) : JobCondition := mkJobCondition JobFailed ConditionTrue "DeadlineExceeded" "too slow" t.
Definition absent : error := ErrAPI ReasonNotFound "not found".
Definition env (jobs : list Job) : UnpackEnv :=
  mkUnpackEnv 10%Z 10%Z (fun _ _ => inr ("cs", [])) (fun _ _ => inr ConfigMapDemo.written) (fun _ _ => inr (mkRbacRole (accessMeta TRole ref) [unpackRule ref]))
    (fun _ _ => inr (freshBinding ref)) (fun _ _ => inr jobs)
    (fun _ name => match List.find (fun j => bool_decide (job_Name j = name)) jobs with Some j => inr j | None => inl absent end) (fun _ _ => inr [])
    (fun _ => inr ref) (fun _ name => name +:+ "-2") (fun _ _ => inl absent) (fun _ _ => inl absent) (fun _ _ => inl absent)
    (fun _ c => match c with CreateJob j => inr j | _ => inl absent end) (fun _ _ => None).

Definition operator : Entry :=
  mkEntry 1 "etcd.v1" "" [] None ∅ ∅ (Some "1.0.0") (Some (mkSourceInfo "etcd" "stable" "" SourceDemo.catalog true None None)) [mkProperty PackageType "etcd@1.0.0"] "quay.io/etcd" None.
Definition info : OperatorSourceInfo := mkSourceInfo "etcd" "stable" "" SourceDemo.catalog true None None.
Definition anno : string := default "" (encAnnotation (e_Properties operator)).
Definition lookup : BundleLookup := newLookup operator info anno.

Definition failures : list Job := (fun t => jobWith "job" true [failure t]) <$> [1; 2; 3; 4; 5; 6; 7]%Z.
Lemma sortUnpackJobs_correct_witness :
  exists ds, sortUnpackJobs (Some <$> failures) 5 = Some (Some (jobWith "job" true [failure 7%Z]), Some <$> ds) /\ length ds = 1%nat /\
    (sortUnpackJobs (Some <$> failures) 5 = None <-> (1 < length (List.filter live (Some <$> failures)))%nat).
Proof.
  assert (NoDup failures) as Hnd. { apply (NoDup_fmap_1 failedAt). apply (bool_decide_unpack _). vm_compute. exact I. }
  destruct (sortUnpackJobs_correct failures 5 Hnd) as [Hpanic Hall]; [done|lia|].
  exists [jobWith "job" true [failure 2%Z]]. split; [vm_compute; reflexivity|]. split; [done|exact Hpanic].
Defined.

Lemma UnpackBundle_outcome_witness :
  exists res, (UnpackBundle config (env [jobWith (hash "quay.io/etcd") true [failure 3%Z]]) lookup (-1)%Z 0%Z []).2 = Some (inr res) /\
    (stillPending res \/ exists cm j, reportedConfigMap (env [jobWith (hash "quay.io/etcd") true [failure 3%Z]]) cm /\
       reportedJob (env [jobWith (hash "quay.io/etcd") true [failure 3%Z]]) j /\ (failedWith j res \/ unpackedFrom lookup cm j res)) /\
    lookupPhase (ur_BundleLookup res) = LookupFailed.
Proof.
  eexists. split; [vm_compute; reflexivity|]. split; [|vm_compute; reflexivity].
  refine (UnpackBundle_outcome config (env [jobWith (hash "quay.io/etcd") true [failure 3%Z]]) lookup (-1)%Z 0%Z [] [] _ _ _); [|vm_compute; reflexivity].
  apply (bool_decide_unpack _). vm_compute. exact I.
Defined.

Definition doneJob : Job := jobWith (hash "quay.io/etcd") true [complete].
Lemma unpack_delivers_bundle_witness :
  exists res bundle, UnpackBundle config (env [doneJob]) lookup (-1)%Z 0%Z [] = ([], Some (inr res)) /\ ur_bundle res = Some bundle /\
    ab_Object bundle ≡ₚ ["ClusterServiceVersion/etcd.v1"; "Service/metrics"] /\ ab_CsvName bundle = "etcd.v1" /\ ab_Properties bundle = e_Properties operator.
Proof.
  destruct (unpack_delivers_bundle config (env [doneJob]) ConfigMapDemo.writer 1000000 operator info anno (-1) 0 ConfigMapDemo.written ref [] doneJob
    (mkRbacRole (accessMeta TRole ref) [unpackRule ref]) (freshBinding ref) "ClusterServiceVersion/etcd.v1" "etcd.v1" "ClusterServiceVersion/etcd.v1" [])
    as (res & bundle & Hu & _ & Hb & Ho & Hn & _ & Hp).
  - vm_compute. reflexivity.
  - by vm_compute.
  - intros p ->%list_elem_of_singleton. by split.
  - vm_compute. reflexivity.
  - apply (bool_decide_unpack _). by vm_compute.
  - apply (bool_decide_unpack _). by vm_compute.
  - vm_compute. reflexivity.
  - assert ((bundleFiles ConfigMapDemo.writer "/bundle/").*2 = ["text"; "ClusterServiceVersion/etcd.v1"; "Service/metrics"]) as -> by (vm_compute; reflexivity).
    intros c Hin Hc. apply elem_of_cons in Hin as [->|Hin]; [vm_compute in Hc; by destruct Hc|].
    apply elem_of_cons in Hin as [->|Hin]; [done|]. apply list_elem_of_singleton in Hin as ->. vm_compute in Hc. by destruct Hc.
  - constructor; try (vm_compute; reflexivity); [eexists; reflexivity|by vm_compute..].
  - exists res, bundle. split_and!; try done.
Defined.

(** Two jobs that have not failed: nil is dereferenced. *)
Example two_running_jobs_panic : (UnpackBundle config (env [doneJob; jobWith "other" true []]) lookup (-1)%Z 0%Z []).2 = None.
Proof. vm_compute. reflexivity. Qed.

(** The first job is gone and a later attempt is complete: its bundle is not returned but the error about the first. *)
Example finished_retry_not_found : (UnpackBundle config (env [jobWith "retry" true [complete]]) lookup (-1)%Z 0%Z []).2 = Some (inl absent).
Proof. vm_compute. reflexivity. Qed.

(** A job that cannot be created is reported as a success. *)
Example launch_failure_hidden : LaunchBundleImage (mkLaunchEnv inr (fun _ => inl absent) (fun _ _ => None)) "bundle" "init" "ns" true = inr None.
Proof. reflexivity. Qed.
End UnpackDemo.
