(* ===== verification/UnpackedSteps.v ===== *)
(** * Manifests of unpacked bundles

    Models how [catalog/manifests.go] finds the manifest of a step that refers to a config map: the bundle is
    loaded again and its steps are computed again.  Steps are written with such references when a bundle is unpacked
    ([CatalogSync.referManifests]); here both sides meet. *)

From S2P Require Import Prelude GoStrings OwnerUtil CatalogModel SatInterface ResolverCache CsvTypes OperatorRbac CatalogTypes SnapshotSources BundleSteps.
From S2P Require Import ConfigMaps InstallPlans CatalogSync StepExecution BundleUnpack.

#[local] Arguments String.append : simpl nomatch.

Section unpacked.
Context `{StepLib, RbacLib, ConfigMapLib, RangeOrder, SnapshotLib}.

Definition withProperties (bundle : APIBundle) (props : list Property) : APIBundle :=
  mkAPIBundle (ab_CsvName bundle) (ab_PackageName bundle) (ab_ChannelName bundle) (ab_CsvJson bundle) (ab_Object bundle) (ab_BundlePath bundle)
    (ab_ProvidedApis bundle) (ab_RequiredApis bundle) (ab_Version bundle) (ab_SkipRange bundle) (ab_Dependencies bundle) props
    (ab_Replaces bundle) (ab_Skips bundle) (ab_Deprecation bundle).

(** [unpackedStepsForBundle] without its cache. *)
Definition unpackSteps (getConfigMap : string -> string -> error + ConfigMap) (ref : UnpackedBundleReference) (namespace : string) : error + list StepResource :=
  match getConfigMap (ub_Namespace ref) (ub_Name ref) with
  | inl err => inl (Wrapf err "error finding unpacked bundle configmap for ref")
  | inr cm =>
      match Load (Some cm) with
      | inl err => inl (Wrapf err "error loading unpacked bundle configmap for ref")
      | inr bundle =>
          bundle ← (if bool_decide (ub_Properties ref = "") then inr bundle
                    else match PropertyListFromPropertiesAnnotation (ub_Properties ref) with
                         | inl err => inl (ErrString ("failed to load bundle properties for " +:+ quote (ab_CsvName bundle) +:+ ": " +:+ Error_ err))
                         | inr props => inr (withProperties bundle props)
                         end);
          match NewStepResourceFromBundle bundle namespace (ub_Replaces ref) (ub_CatalogSourceName ref) (ub_CatalogSourceNamespace ref) with
          | inl err => inl (Wrapf err "error calculating steps for ref")
          | inr steps => inr steps
          end
      end
  end.

Definition withUnpackedSteps (getConfigMap : string -> string -> error + ConfigMap) (env : ExecEnv) : ExecEnv :=
  mkExecEnv (xe_operatorNamespace env) (xe_clients env) (xe_listCSVs env) (xe_getCSV env) (xe_unmarshalRef env) (unpackSteps getConfigMap) (xe_gvkVersion env)
    (xe_decodeCSV env) (xe_decode env) (xe_decodeCRD env) (xe_do env) (xe_getSecret env) (xe_getServiceAccount env) (xe_derivative env) (xe_getObject env)
    (xe_apiResources env) (xe_getCRD env) (xe_convertSchema env) (xe_newValidator env) (xe_listObjects env).

(** What distinguishes the steps of a bundle. *)
Definition stepKey (r : StepResource) : string * string * string * string := (sr_Name r, sr_Kind r, sr_Version r, sr_Group r).

Lemma find_step (usteps : list StepResource) u r : NoDup (stepKey <$> usteps) -> u ∈ usteps -> stepKey u = stepKey r ->
  List.find (fun u => sameStepResource u r) usteps = Some u.
Proof.
  assert (forall x, sameStepResource x r = true <-> stepKey x = stepKey r) as Hsame.
  { intros x. unfold sameStepResource, stepKey. rewrite !andb_true_iff, !bool_decide_eq_true. split; [intros (((-> & ->) & ->) & ->); done|by intros [= -> -> -> ->]]. }
  induction usteps as [|x usteps IH]; [by intros _ ?%elem_of_nil|]. rewrite fmap_cons, NoDup_cons. intros [Hx Hnd] Hin Hk. cbn [List.find].
  destruct (sameStepResource x r) eqn:E.
  - apply Hsame in E. f_equal. apply elem_of_cons in Hin as [->|Hin]; [done|]. destruct Hx. rewrite E, <- Hk. by apply list_elem_of_fmap_2.
  - apply elem_of_cons in Hin as [->|Hin]; [apply not_true_iff_false in E; by destruct E; apply Hsame|by apply IH].
Qed.
End unpacked.

Section refer.
Context `{StepLib, RbacLib, ConfigMapLib, RangeOrder, SnapshotLib} (nsenv : NsEnv (option APIBundle)) (exec : ExecEnv) (getConfigMap : string -> string -> error + ConfigMap).

(** The reference that is written for an unpacked bundle. *)
Definition referenceOf (res : BundleUnpackResult (option APIBundle)) : UnpackedBundleReference :=
  let ref := bl_CatalogSourceRef (ur_BundleLookup res) in
  mkUnpackedRef "ConfigMap" (ur_name res) (or_Namespace ref) (or_Name ref) (or_Namespace ref) (bl_Replaces (ur_BundleLookup res)) (bl_Properties (ur_BundleLookup res)).

(** The bundle can still be loaded from where the reference points. *)
Definition reloads (res : BundleUnpackResult (option APIBundle)) (bundle : APIBundle) : Prop :=
  exists cm loaded, getConfigMap (or_Namespace (bl_CatalogSourceRef (ur_BundleLookup res))) (ur_name res) = inr cm /\ Load (Some cm) = inr loaded /\
    if bool_decide (bl_Properties (ur_BundleLookup res) = "") then bundle = loaded
    else exists props, PropertyListFromPropertiesAnnotation (bl_Properties (ur_BundleLookup res)) = inr props /\ bundle = withProperties loaded props.

Lemma unpackSteps_again res bundle namespace resources :
  reloads res bundle ->
  NewStepResourceFromBundle bundle namespace (bl_Replaces (ur_BundleLookup res)) (or_Name (bl_CatalogSourceRef (ur_BundleLookup res)))
    (or_Namespace (bl_CatalogSourceRef (ur_BundleLookup res))) = inr resources ->
  unpackSteps getConfigMap (referenceOf res) namespace = inr resources.
Proof.
  intros (cm & loaded & Hcm & Hload & Hb) Hr. unfold unpackSteps, referenceOf. cbn [ub_Namespace ub_Name ub_Properties ub_Replaces ub_CatalogSourceName ub_CatalogSourceNamespace].
  rewrite Hcm, Hload. case_bool_decide.
  - subst. cbn [mbind sum_bind]. by rewrite Hr.
  - destruct Hb as (props & -> & ->). cbn [mbind sum_bind]. by rewrite Hr.
Qed.
End refer.

(** C30: a step that was replaced by a reference is executed as it was.  The steps of an unpacked bundle are stored with
    a reference to its config map in place of their manifests; as long as the bundle can be loaded from there and no
    two of its steps have the same name, kind, version and group, the manifest that is found for each of them is the
    one the step had. *)
Theorem reference_resolves `{StepLib, RbacLib, ConfigMapLib, RangeOrder, SnapshotLib} (nsenv : NsEnv (option APIBundle)) (exec : ExecEnv)
    (getConfigMap : string -> string -> error + ConfigMap) (res : BundleUnpackResult (option APIBundle)) (bundle : APIBundle) (namespace : string)
    (steps stored : list Step) (i : nat) (step step' : Step) (s : XState) :
  let lookup := ur_BundleLookup res in
  let ref := bl_CatalogSourceRef lookup in
  NewStepsFromBundle bundle namespace (bl_Replaces lookup) (or_Name ref) (or_Namespace ref) = inr steps ->
  referManifests nsenv res steps = (stored, []) -> reloads getConfigMap res bundle ->
  (forall r text, ne_marshal nsenv r = inr text -> xe_unmarshalRef exec text = Some r) ->
  or_Name ref <> "" -> or_Namespace ref <> "" -> ur_name res <> "" ->
  NoDup (stepKey ∘ step_Resource <$> steps) -> steps !! i = Some step -> stored !! i = Some step' -> sr_Manifest (step_Resource step) <> sr_Manifest (step_Resource step') ->
  (x_unpacked s !! ab_CsvName bundle = None \/ x_unpacked s !! ab_CsvName bundle = Some (step_Resource <$> steps)) ->
  (ManifestForStep (withUnpackedSteps getConfigMap exec) namespace step' s).2 = inr (sr_Manifest (step_Resource step)).
Proof.
  cbv zeta. intros Hnew Href Hreload Hmarshal Hname Hns Hcm Hnd Hi Hi' Hdiff Hcache.
  unfold referManifests in Href. cbv zeta in Href. fold (referenceOf res) in Href. destruct (ne_marshal nsenv (referenceOf res)) as [err|text] eqn:Em.
  { injection Href as _ Hnil. destruct steps; [by rewrite lookup_nil in Hi|done]. }
  injection Href as <-. rewrite list_lookup_fmap, Hi in Hi'. injection Hi' as <-. cbn [step_Resource sr_Manifest] in Hdiff.
  unfold NewStepsFromBundle in Hnew. destruct (NewStepResourceFromBundle _ _ _ _ _) as [|resources] eqn:Er; [done|]. injection Hnew as <-.
  assert (step_Resource <$> ((fun r => mkStep (ab_CsvName bundle) r false StepStatusUnknown) <$> resources) = resources) as Hres
    by (rewrite <- list_fmap_compose; apply list_fmap_id).
  rewrite Hres in Hcache. rewrite list_lookup_fmap in Hi. destruct (resources !! i) as [r|] eqn:Eri; [|done]. injection Hi as <-. cbn [step_Resource] in *.
  unfold ManifestForStep, refForStep. cbn [withUnpackedSteps xe_unmarshalRef step_Resource sr_Manifest]. rewrite (Hmarshal _ _ Em).
  cbn [referenceOf ub_Kind ub_Name ub_Namespace ub_CatalogSourceName ub_CatalogSourceNamespace]. rewrite !(bool_decide_false (_ = "")) by done. cbn [orb negb bool_decide].
  rewrite bool_decide_true by done. cbn [orb negb]. unfold xbind, unpackedStepsForBundle. cbn [step_Resolving withUnpackedSteps xe_unpackedSteps].
  assert (forall u, stepKey u = stepKey r -> List.find (fun x => sameStepResource x u) resources = Some r) as Hfind.
  { intros u Hu. apply find_step; [|by eapply list_elem_of_lookup_2|done]. rewrite <- list_fmap_compose in Hnd. exact Hnd. }
  destruct Hcache as [-> | ->].
  - rewrite (unpackSteps_again getConfigMap res bundle namespace resources Hreload Er). rewrite Hfind by done. by rewrite bool_decide_false.
  - rewrite Hfind by done. by rewrite bool_decide_false.
Qed.

(** ** An unpacked bundle *)

Module ReferDemo.
#[local] Existing Instances demo_semver canonical_order insertion_sort_lib SourceDemo.resolverLib SourceDemo.lib ConfigMapDemo.lib RbacDemo.lib StepsDemo.stepLib UnpackDemo.lib.

Definition fields (r : UnpackedBundleReference) : list string :=
  [ub_Kind r; ub_Name r; ub_Namespace r; ub_CatalogSourceName r; ub_CatalogSourceNamespace r; ub_Replaces r; ub_Properties r].
Definition print (r : UnpackedBundleReference) : string := SourceDemo.bits (encode (fields r)).
Definition parse (s : string) : option UnpackedBundleReference :=
  match decode (SourceDemo.unbits s) with Some [a; b; c; d; e; f; g] => Some (mkUnpackedRef a b c d e f g) | _ => None end.
Lemma parse_print r : parse (print r) = Some r.
Proof. unfold parse, print. rewrite SourceDemo.unbits_bits, decode_encode. by destruct r. Qed.

Definition absent : error := UnpackDemo.absent.
Definition nsenv : NsEnv (option APIBundle) :=
  mkNsEnv _ (inl absent) (inl absent) (inl absent) (fun _ => inl absent) (fun _ _ => inl absent) (fun _ => inl absent) (fun _ _ => Some absent) (fun _ => inl absent)
    (inl absent) (fun _ _ _ => inl absent) (fun _ _ _ _ _ => inl absent) (fun r => inr (print r)) (fun _ => inl absent) (fun _ => inl absent) (fun _ => inl absent)
    (fun _ _ _ => inl absent) (fun _ _ => Some absent) (fun _ => 0%Z).
Definition exec : ExecEnv :=
  let env := ExecDemo.env in
  mkExecEnv (xe_operatorNamespace env) (xe_clients env) (xe_listCSVs env) (xe_getCSV env) parse (xe_unpackedSteps env) (xe_gvkVersion env)
    (xe_decodeCSV env) (xe_decode env) (xe_decodeCRD env) (xe_do env) (xe_getSecret env) (xe_getServiceAccount env) (xe_derivative env) (xe_getObject env)
    (xe_apiResources env) (xe_getCRD env) (xe_convertSchema env) (xe_newValidator env) (xe_listObjects env).

Definition bundle : APIBundle := withProperties (match Load (Some ConfigMapDemo.written) with inr b => b | inl _ => StepsDemo.bundle end) (e_Properties UnpackDemo.operator).
Definition unpacked : BundleUnpackResult (option APIBundle) := mkUnpack UnpackDemo.lookup (Some bundle) (hash "quay.io/etcd").
Definition steps : list Step := match NewStepsFromBundle bundle "ns" "" "community" "olm" with inr l => l | inl _ => [] end.
Definition stored : list Step := (referManifests nsenv unpacked steps).1.
Definition getConfigMap (ns name : string) : error + ConfigMap := inr ConfigMapDemo.written.

Lemma reference_resolves_witness :
  exists step step', steps !! 1%nat = Some step /\ stored !! 1%nat = Some step' /\ sr_Manifest (step_Resource step) <> sr_Manifest (step_Resource step') /\
    (ManifestForStep (withUnpackedSteps getConfigMap exec) "ns" step' (mkX [] ∅)).2 = inr (sr_Manifest (step_Resource step)).
Proof.
  destruct (steps !! 1%nat) as [step|] eqn:E; [|vm_compute in E; discriminate]. destruct (stored !! 1%nat) as [step'|] eqn:E'; [|vm_compute in E'; discriminate].
  exists step, step'. split; [done|]. split; [done|].
  assert (sr_Manifest (step_Resource step) <> sr_Manifest (step_Resource step')) as Hd.
  { vm_compute in E, E'. injection E as <-. injection E' as <-. discriminate. }
  split; [exact Hd|]. refine (reference_resolves nsenv exec getConfigMap unpacked bundle "ns" steps stored 1 step step' (mkX [] ∅) _ _ _ _ _ _ _ _ E E' Hd _).
  - vm_compute. reflexivity.
  - vm_compute. reflexivity.
  - eexists _, _. split; [reflexivity|]. split; [vm_compute; reflexivity|]. rewrite bool_decide_false by (vm_compute; discriminate).
    exists (e_Properties UnpackDemo.operator). split; vm_compute; reflexivity.
  - intros r text [= <-]. apply parse_print.
  - vm_compute. discriminate.
  - vm_compute. discriminate.
  - vm_compute. discriminate.
  - apply (bool_decide_unpack _). vm_compute. exact I.
  - left. reflexivity.
Defined.
End ReferDemo.
