(* ===== verification/CachePopulation.v ===== *)
(** * Filling the cache of the resolver

    Models [Cache.Namespaced] of [resolver/cache/cache.go] and the channels of [sourceInvalidator]
    ([source_registry.go]) as step relations: any number of callers look for the snapshots of their sources under a
    read lock, and make those that are missing under the write lock; each missing snapshot is read by a goroutine of
    its own, which holds the lock of its header until it is done, and at most four of them read at a time.

    A caller is the list of its sources and a program counter ([pc]), whose fields are the local variables.  The
    lock [c.m] is held and waited for by the callers at certain places ([reading], [waiting], [writing]): a
    [sync.RWMutex] does not admit readers while a writer holds it or waits.  The lock of a header is held until the
    header is [Ready]; the semaphore counts the headers that are [Running]. *)

From S2P Require Import Prelude CatalogModel ResolverCache CsvTypes.

(** ** State *)

Section cache.
Context `{SemverLib, RangeOrder}.

(** A snapshot: its entries, and the channel that is open as long as it is valid ([None] for a nil channel, on which
    [select] never receives). *)
Record Snap := mkSnap { sn_Entries : list Entry; sn_Valid : option nat }.
Inductive popState := Locked | Running | Ready (r : error + Snap).
Record Hdr := mkHdr { hd_key : SourceKey; hd_priority : Z; hd_state : popState }.

Inductive pc :=
  | Start
  | Reading (todo misses : list SourceKey) (result : gmap SourceKey nat)
  | WantLock (misses : list SourceKey) (result : gmap SourceKey nat)
  | Expiring (todo : list (SourceKey * nat)) (expired misses : list SourceKey) (result : gmap SourceKey nat)
  | Rechecking (misses : list SourceKey) (i found : nat) (result : gmap SourceKey nat)
  | Populating (todo : list SourceKey) (result : gmap SourceKey nat)
  | Returned (result : gmap SourceKey nat).
Record Caller := mkCaller { cl_sources : list SourceKey; cl_pc : pc }.

Record Cache := mkCache {
  ca_snapshots : gmap SourceKey nat; ca_heap : list Hdr; ca_closed : gset nat; ca_callers : list Caller
}.

Definition reading (cl : Caller) : bool := match cl_pc cl with Reading _ _ _ => true | _ => false end.
Definition waiting (cl : Caller) : bool := match cl_pc cl with WantLock _ _ => true | _ => false end.
Definition writing (cl : Caller) : bool := match cl_pc cl with Expiring _ _ _ _ | Rechecking _ _ _ _ | Populating _ _ => true | _ => false end.

Definition canRLock (c : Cache) : bool := negb (existsb (fun cl => writing cl || waiting cl) (ca_callers c)).
Definition canLock (c : Cache) : bool := negb (existsb (fun cl => writing cl || reading cl) (ca_callers c)).

Definition MaxConcurrentSnapshotUpdates : nat := 4.
Definition isRunning (h : Hdr) : bool := match hd_state h with Running => true | _ => false end.
Definition slots (c : Cache) : nat := length (List.filter isRunning (ca_heap c)).

(** [snapshotHeader.Valid]; [None] while the header is locked. *)
Definition Valid (c : Cache) (p : nat) : option bool :=
  h ← ca_heap c !! p;
  match hd_state h with
  | Ready (inl _) => Some false
  | Ready (inr s) => Some (match sn_Valid s with Some ch => bool_decide (ch ∉ ca_closed c) | None => true end)
  | _ => None
  end.

(** What the goroutine of a header stores, from what [source.Snapshot] returned (the quotes of [%q] are left out). *)
Definition populated (key : SourceKey) (snapshot : option Snap) (err : option error) : error + Snap :=
  match err, snapshot with
  | Some err, _ => inl err
  | None, Some snapshot => inr snapshot
  | None, None => inl (ErrString ("source {" +:+ sk_Name key +:+ " " +:+ sk_Namespace key +:+ "} produced no snapshot and no error"))
  end.

(** ** Steps of a caller *)

(** [misses[found], misses[i] = misses[i], misses[found]] *)
Definition swap (misses : list SourceKey) (i j : nat) : list SourceKey :=
  match misses !! i, misses !! j with Some a, Some b => <[i := b]> (<[j := a]> misses) | _, _ => misses end.

Definition setSnapshots (c : Cache) (snapshots : gmap SourceKey nat) : Cache := mkCache snapshots (ca_heap c) (ca_closed c) (ca_callers c).

(** One step of a caller; [None] when it is blocked, or has returned. *)
Definition callerStep (priority : SourceKey -> Z) (c : Cache) (cl : Caller) : option (Cache * pc) :=
  match cl_pc cl with
  | Start => if canRLock c then Some (c, Reading (cl_sources cl) [] ∅) else None
  | Reading [] misses result => Some (c, match misses with [] => Returned result | _ => WantLock misses result end)
  | Reading (key :: todo) misses result =>
      match ca_snapshots c !! key with
      | None => Some (c, Reading todo (misses ++ [key]) result)
      | Some p => v ← Valid c p; Some (c, if v : bool then Reading todo misses (<[key := p]> result) else Reading todo (misses ++ [key]) result)
      end
  | WantLock misses result => if canLock c then Some (c, Expiring (range (ca_snapshots c)) [] misses result) else None
  | Expiring [] expired misses result => Some (setSnapshots c (foldr delete (ca_snapshots c) expired), Rechecking misses 0 0 result)
  | Expiring ((key, p) :: todo) expired misses result => v ← Valid c p; Some (c, Expiring todo (if v : bool then expired else expired ++ [key]) misses result)
  | Rechecking misses i found result =>
      match misses !! i with
      | None => Some (c, Populating (drop found misses) result)
      | Some key =>
          match ca_snapshots c !! key with
          | None => Some (c, Rechecking misses (S i) found result)
          | Some p => v ← Valid c p; Some (c, if v : bool then Rechecking (swap misses found i) (S i) (S found) (<[key := p]> result) else Rechecking misses (S i) found result)
          end
      end
  | Populating (miss :: todo) result =>
      let p := length (ca_heap c) in
      Some (mkCache (<[miss := p]> (ca_snapshots c)) (ca_heap c ++ [mkHdr miss (priority miss) Locked]) (ca_closed c) (ca_callers c),
            Populating todo (<[miss := p]> result))
  | Populating [] result => Some (c, Returned result)
  | Returned _ => None
  end.

(** ** The step relation *)

Definition setCaller (c : Cache) (i : nat) (pc : pc) : Cache :=
  mkCache (ca_snapshots c) (ca_heap c) (ca_closed c) (alter (fun cl => mkCaller (cl_sources cl) pc) i (ca_callers c)).
Definition setHeader (c : Cache) (p : nat) (s : popState) : Cache :=
  mkCache (ca_snapshots c) (alter (fun h => mkHdr (hd_key h) (hd_priority h) s) p (ca_heap c)) (ca_closed c) (ca_callers c).

(** The work of callers and goroutines; reading a source gives anything. *)
Inductive work (priority : SourceKey -> Z) : Cache -> Cache -> Prop :=
  | work_caller c i cl c' pc : ca_callers c !! i = Some cl -> callerStep priority c cl = Some (c', pc) -> work priority c (setCaller c' i pc)
  | work_acquire c p h : ca_heap c !! p = Some h -> hd_state h = Locked -> (slots c < MaxConcurrentSnapshotUpdates)%nat -> work priority c (setHeader c p Running)
  | work_finish c p h snapshot err : ca_heap c !! p = Some h -> hd_state h = Running -> work priority c (setHeader c p (Ready (populated (hd_key h) snapshot err))).

(** What happens from outside: calls, each with the keys of a map of sources, and channels that are closed. *)
Inductive outside : Cache -> Cache -> Prop :=
  | outside_call c sources : NoDup sources -> outside c (mkCache (ca_snapshots c) (ca_heap c) (ca_closed c) (ca_callers c ++ [mkCaller sources Start]))
  | outside_close c ch : outside c (mkCache (ca_snapshots c) (ca_heap c) ({[ch]} ∪ ca_closed c) (ca_callers c)).

Definition step (priority : SourceKey -> Z) (c c' : Cache) : Prop := work priority c c' \/ outside c c'.
Definition NewCache : Cache := mkCache ∅ [] ∅ [].
Definition reachable (priority : SourceKey -> Z) (c : Cache) : Prop := rtc (step priority) NewCache c.

(** ** Invariant *)

(** A pointer to a header of a key. *)
Definition headerOf (heap : list Hdr) (key : SourceKey) (p : nat) : Prop := exists h, heap !! p = Some h /\ hd_key h = key.
Definition result_ok (heap : list Hdr) (result : gmap SourceKey nat) : Prop := forall key p, result !! key = Some p -> headerOf heap key p.

(** The sources of a caller are still to be looked at, missing, or found. *)
Definition found_in (r : gmap SourceKey nat) (key : SourceKey) : Prop := is_Some (r !! key).
Definition caller_ok (heap : list Hdr) (cl : Caller) : Prop :=
  match cl_pc cl with
  | Start => NoDup (cl_sources cl)
  | Reading todo misses r => result_ok heap r /\ NoDup (todo ++ misses) /\ forall key, key ∈ cl_sources cl <-> key ∈ todo \/ key ∈ misses \/ found_in r key
  | WantLock misses r => result_ok heap r /\ NoDup misses /\ forall key, key ∈ cl_sources cl <-> key ∈ misses \/ found_in r key
  | Expiring todo _ misses r =>
      result_ok heap r /\ NoDup misses /\ (forall key p, (key, p) ∈ todo -> headerOf heap key p) /\ forall key, key ∈ cl_sources cl <-> key ∈ misses \/ found_in r key
  | Rechecking misses i n r =>
      result_ok heap r /\ NoDup misses /\ (n <= i)%nat /\ (forall j key, (j < n)%nat -> misses !! j = Some key -> found_in r key) /\
      forall key, key ∈ cl_sources cl <-> key ∈ misses \/ found_in r key
  | Populating todo r => result_ok heap r /\ NoDup todo /\ forall key, key ∈ cl_sources cl <-> key ∈ todo \/ found_in r key
  | Returned r => result_ok heap r /\ forall key, key ∈ cl_sources cl <-> found_in r key
  end.

Definition isReady (h : Hdr) : bool := match hd_state h with Ready _ => true | _ => false end.
Definition all_ready (heap : list Hdr) : Prop := forall p h, heap !! p = Some h -> isReady h = true.

(** What is read is what the holder of the lock still has to wait for, and not what it still has to start. *)
Definition writer_ok (c : Cache) (cl : Caller) : Prop :=
  match cl_pc cl with
  | Expiring todo _ _ _ => forall key p h, ca_snapshots c !! key = Some p -> ca_heap c !! p = Some h -> isReady h = true \/ (key, p) ∈ todo
  | Rechecking _ _ _ _ => all_ready (ca_heap c)
  | Populating todo _ => forall p h, ca_heap c !! p = Some h -> isReady h = false -> hd_key h ∉ todo
  | _ => True
  end.

Record cache_inv (c : Cache) : Prop := {
  inv_snapshots : result_ok (ca_heap c) (ca_snapshots c);
  inv_callers : forall i cl, ca_callers c !! i = Some cl -> caller_ok (ca_heap c) cl /\ writer_ok c cl;
  inv_exclusive : forall i j a b, ca_callers c !! i = Some a -> ca_callers c !! j = Some b -> i <> j -> writing a = true -> writing b = false /\ reading b = false;
  inv_slots : (slots c <= MaxConcurrentSnapshotUpdates)%nat;
  inv_inflight : forall p h, ca_heap c !! p = Some h -> isReady h = false -> ca_snapshots c !! hd_key h = Some p;
}.

(** Headers keep their key, and what has been read stays. *)
Definition heap_grows (heap heap' : list Hdr) : Prop :=
  forall p h, heap !! p = Some h -> exists h', heap' !! p = Some h' /\ hd_key h' = hd_key h /\ hd_priority h' = hd_priority h /\
    (forall r, hd_state h = Ready r -> hd_state h' = Ready r).

Lemma heap_grows_refl heap : heap_grows heap heap.
Proof. intros p h Hp. exists h. auto. Qed.
Lemma heap_grows_app heap l : heap_grows heap (heap ++ l).
Proof. intros p h Hp. exists h. split; [by apply lookup_app_l_Some|auto]. Qed.
Lemma heap_grows_trans a b c : heap_grows a b -> heap_grows b c -> heap_grows a c.
Proof.
  intros Hab Hbc p h Hp. destruct (Hab p h Hp) as (h' & Hp' & Hk & Hr & Hs). destruct (Hbc p h' Hp') as (h'' & Hp'' & Hk' & Hr' & Hs').
  exists h''. repeat split; [done|congruence|congruence|auto].
Qed.
Lemma headerOf_grows heap heap' key p : heap_grows heap heap' -> headerOf heap key p -> headerOf heap' key p.
Proof. intros Hg (h & Hp & <-). destruct (Hg p h Hp) as (h' & Hp' & Hk & _). by exists h'. Qed.
Lemma result_ok_grows heap heap' r : heap_grows heap heap' -> result_ok heap r -> result_ok heap' r.
Proof. intros Hg Hr key p Hp. eapply headerOf_grows; [done|by apply Hr]. Qed.
Lemma caller_ok_grows heap heap' cl : heap_grows heap heap' -> caller_ok heap cl -> caller_ok heap' cl.
Proof.
  intros Hg. unfold caller_ok. destruct (cl_pc cl); try done; intros [Hr Hrest]; (split; [by eapply result_ok_grows|]); try done.
  destruct Hrest as (Hn & Ht & Hk). split; [done|]. split; [|done]. intros key p Hin. eapply headerOf_grows; [done|by apply Ht].
Qed.
Lemma result_ok_insert heap r key p : result_ok heap r -> headerOf heap key p -> result_ok heap (<[key := p]> r).
Proof. intros Hr Hp k q [[<- <-]|[_ Hq]]%lookup_insert_Some; [done|by apply Hr]. Qed.
Lemma found_insert (r : gmap SourceKey nat) key p k : found_in (<[key := p]> r) k <-> k = key \/ found_in r k.
Proof. unfold found_in. rewrite lookup_insert_is_Some. destruct (decide (key = k)); naive_solver. Qed.

Lemma swap_perm misses i j : swap misses i j ≡ₚ misses.
Proof.
  unfold swap. destruct (misses !! i) as [a|] eqn:Ei; [|done]. destruct (misses !! j) as [b|] eqn:Ej; [|done]. by apply Permutation_insert_swap.
Qed.
Lemma swap_length misses i j : length (swap misses i j) = length misses.
Proof. apply Permutation_length, swap_perm. Qed.
(** After the swap, what was at [i] is at [found], and what was before [found] is where it was. *)
Lemma swap_lookup misses n i key j k : misses !! i = Some key -> (n <= i)%nat -> (j < S n)%nat -> swap misses n i !! j = Some k -> j = n /\ k = key \/ (j < n)%nat /\ misses !! j = Some k.
Proof.
  intros Hi Hn Hj. unfold swap. rewrite Hi. destruct (misses !! n) as [a|] eqn:En; [|apply lookup_ge_None in En; apply lookup_lt_Some in Hi; lia].
  destruct (decide (j = n)) as [->|Hne].
  - rewrite list_lookup_insert_eq by (rewrite length_insert; by eapply lookup_lt_Some). intros [= ->]. by left.
  - rewrite list_lookup_insert_ne by done. rewrite list_lookup_insert_ne by lia. intros Hk. right. split; [lia|done].
Qed.

(** ** Every step keeps the invariant *)

Context (priority : SourceKey -> Z).

Ltac callerInv Hs :=
  unfold callerStep in Hs; repeat (case_match || simplify_option_eq); cbn [setSnapshots ca_snapshots ca_heap ca_closed ca_callers] in *.

Lemma callerStep_frame c cl c' pc' :
  callerStep priority c cl = Some (c', pc') -> ca_callers c' = ca_callers c /\ ca_closed c' = ca_closed c /\
  (ca_heap c' = ca_heap c \/ exists key, ca_heap c' = ca_heap c ++ [mkHdr key (priority key) Locked]) /\
  (writing cl = false -> ca_snapshots c' = ca_snapshots c /\ ca_heap c' = ca_heap c).
Proof. intros Hs. unfold writing. callerInv Hs; repeat split; eauto; try discriminate. Qed.

Lemma callerStep_grows c cl c' pc' : callerStep priority c cl = Some (c', pc') -> heap_grows (ca_heap c) (ca_heap c').
Proof. intros (_ & _ & [->|[key ->]] & _)%callerStep_frame; [apply heap_grows_refl|apply heap_grows_app]. Qed.

Lemma callerStep_snapshots c cl c' pc' : result_ok (ca_heap c) (ca_snapshots c) -> callerStep priority c cl = Some (c', pc') -> result_ok (ca_heap c') (ca_snapshots c').
Proof.
  intros Hr Hs. pose proof (callerStep_grows _ _ _ _ Hs) as Hg. callerInv Hs; try done.
  - intros key p Hp. apply Hr. revert Hp. clear. induction expired as [|k l IH]; [done|]. cbn [foldr]. intros [_ Hd]%lookup_delete_Some. auto.
  - apply result_ok_insert; [by eapply result_ok_grows|]. eexists. split; [by rewrite lookup_app_r, Nat.sub_diag by lia|done].
Qed.

Lemma Valid_headerOf c p v h : Valid c p = Some v -> ca_heap c !! p = Some h -> isReady h = true.
Proof. unfold Valid, isReady. intros Hv Hp. rewrite Hp in Hv. cbn in Hv. by destruct (hd_state h). Qed.

Lemma elem_of_drop_found misses n (r : gmap SourceKey nat) key :
  (forall j k, (j < n)%nat -> misses !! j = Some k -> found_in r k) -> key ∈ misses \/ found_in r key <-> key ∈ drop n misses \/ found_in r key.
Proof.
  intros Hn. split; intros [Hin|Hf]; try by right.
  - rewrite <- (take_drop n misses) in Hin. apply elem_of_app in Hin as [Hin|]; [|by left]. right.
    apply list_elem_of_lookup in Hin as [j [Hj Hlt]%lookup_take_Some]. by eapply Hn.
  - left. rewrite <- (take_drop n misses). apply elem_of_app. by right.
Qed.

(** A snapshot that was populated in the meantime is found, and swapped behind those found before. *)
Lemma recheck_hit heap sources misses n i key p r :
  caller_ok heap (mkCaller sources (Rechecking misses i n r)) -> misses !! i = Some key -> headerOf heap key p ->
  caller_ok heap (mkCaller sources (Rechecking (swap misses n i) (S i) (S n) (<[key := p]> r))).
Proof.
  intros (Hr & Hnd & Hle & Hf & Hk) Hi Hp. cbn [cl_pc cl_sources] in *. split; [by apply result_ok_insert|]. split; [by rewrite swap_perm|]. split; [lia|]. split.
  - intros j k Hj Hl. apply found_insert. destruct (swap_lookup _ _ _ _ _ _ Hi Hle Hj Hl) as [[_ ->]|[Hlt Hl']]; [by left|right; by eapply Hf].
  - intros k. cbn [cl_sources]. rewrite swap_perm, found_insert, Hk. apply list_elem_of_lookup_2 in Hi. naive_solver.
Qed.

Lemma callerStep_ok c cl c' pc' :
  result_ok (ca_heap c) (ca_snapshots c) -> caller_ok (ca_heap c) cl -> callerStep priority c cl = Some (c', pc') -> caller_ok (ca_heap c') (mkCaller (cl_sources cl) pc').
Proof.
  intros Hr Hok Hs. pose proof (callerStep_grows _ _ _ _ Hs) as Hg. destruct cl as [sources pc]. unfold callerStep in Hs. cbn [cl_pc cl_sources] in *. destruct pc.
  - callerInv Hs. split; [done|]. cbn. rewrite app_nil_r. split; [done|]. unfold found_in. intros k. rewrite lookup_empty. split; [by left|]. intros [?|[[]%not_elem_of_nil|[? [=]]]]. done.
  - destruct Hok as (Hres & Hnd & Hk). cbn [cl_sources] in Hk.
    assert (Hmiss : forall s l, todo = s :: l -> caller_ok (ca_heap c) (mkCaller sources (Reading l (misses ++ [s]) result))).
    { intros s l ->. split; [done|]. split; [|intros k; cbn [cl_sources]; rewrite Hk, elem_of_app, elem_of_cons, list_elem_of_singleton; naive_solver].
      rewrite app_assoc. by rewrite (Permutation_app_comm _ [s]). }
    callerInv Hs; try by apply Hmiss.
    + split; [done|]. intros k. cbn [cl_sources]. rewrite Hk. rewrite !elem_of_nil. naive_solver.
    + split; [done|]. split; [done|]. intros k. cbn [cl_sources]. rewrite Hk. rewrite elem_of_nil. naive_solver.
    + split; [apply result_ok_insert; [done|by apply Hr]|]. apply NoDup_cons in Hnd as [_ Hnd]. split; [done|]. intros k. cbn [cl_sources]. rewrite Hk, elem_of_cons, found_insert. naive_solver.
  - callerInv Hs. destruct Hok as (Hres & Hnd & Hk). repeat split; try done; try apply Hk. intros key p. rewrite elem_of_range. apply Hr.
  - destruct Hok as (Hres & Hnd & Ht & Hk). callerInv Hs; repeat split; try done; try apply Hk; try lia; intros; apply Ht; by right.
  - pose proof Hok as (Hres & Hnd & Hle & Hf & Hk). cbn [cl_sources] in Hk.
    callerInv Hs; try by (split; [done|]; split; [done|]; split; [lia|]).
    + apply recheck_hit; [done|done|by apply Hr].
    + split; [done|]. split; [by eapply sublist_NoDup; [|apply sublist_drop]|]. intros k. cbn [cl_sources]. rewrite Hk. by apply elem_of_drop_found.
  - destruct Hok as (Hres & Hnd & Hk). cbn [cl_sources] in Hk. callerInv Hs.
    + split; [done|]. intros k. cbn [cl_sources]. rewrite Hk, elem_of_nil. naive_solver.
    + split; [apply result_ok_insert; [by eapply result_ok_grows|eexists; split; [by rewrite lookup_app_r, Nat.sub_diag by lia|done]]|].
      apply NoDup_cons in Hnd as [_ Hnd]. split; [done|]. intros k. cbn [cl_sources]. rewrite Hk, elem_of_cons, found_insert. naive_solver.
  - done.
Qed.

(** A caller comes to hold the lock only when it may. *)
Lemma callerStep_locks c cl c' pc' : callerStep priority c cl = Some (c', pc') ->
  (writing (mkCaller (cl_sources cl) pc') = true -> writing cl = true \/ canLock c = true) /\
  (reading (mkCaller (cl_sources cl) pc') = true -> reading cl = true \/ canRLock c = true).
Proof. intros Hs. unfold writing, reading. callerInv Hs; auto. Qed.

Definition inflight (c : Cache) : Prop := forall p h, ca_heap c !! p = Some h -> isReady h = false -> ca_snapshots c !! hd_key h = Some p.

Lemma callerStep_writer c cl c' pc' :
  caller_ok (ca_heap c) cl -> writer_ok c cl -> inflight c -> callerStep priority c cl = Some (c', pc') -> writer_ok c' (mkCaller (cl_sources cl) pc') /\ inflight c'.
Proof.
  intros Hok Hw Hi Hs. destruct cl as [sources pc]. unfold callerStep in Hs. cbn [cl_pc cl_sources] in *. destruct pc.
  - callerInv Hs. by split.
  - callerInv Hs; by split.
  - callerInv Hs. split; [|done]. intros key p h Hk _. right. by apply elem_of_range.
  - cbn [writer_ok cl_pc] in Hw. callerInv Hs.
    + assert (Ha : all_ready (ca_heap c)).
      { intros p h Hp. destruct (isReady h) eqn:Er; [done|]. destruct (Hw _ _ _ (Hi p h Hp Er) Hp) as [|[]%not_elem_of_nil]. congruence. }
      split; [exact Ha|]. intros p h Hp Er. specialize (Ha p h Hp). congruence.
    + split; [|done]. intros key p h Hk Hp. destruct (Hw key p h Hk Hp) as [|[[= -> ->]|]%elem_of_cons]; [by left| |by right]. left. by eapply Valid_headerOf.
    + split; [|done]. intros key p h Hk Hp. destruct (Hw key p h Hk Hp) as [|[[= -> ->]|]%elem_of_cons]; [by left| |by right]. left. by eapply Valid_headerOf.
  - cbn [writer_ok cl_pc] in Hw. callerInv Hs; (split; [|done]); try done. intros p h Hp Er. specialize (Hw p h Hp). congruence.
  - cbn [writer_ok cl_pc] in Hw. destruct Hok as (_ & Hnd & _). callerInv Hs; [by split|]. apply NoDup_cons in Hnd as [Hs Hnd].
    split; intros p h [Hp|[Hle Hp]]%lookup_app_Some Er; cbn [ca_snapshots].
    + specialize (Hw p h Hp Er). by apply not_elem_of_cons in Hw as [_ ?].
    + apply list_lookup_singleton_Some in Hp as [_ <-]. done.
    + specialize (Hw p h Hp Er). apply not_elem_of_cons in Hw as [Hne _]. rewrite lookup_insert_ne by done. by apply Hi.
    + apply list_lookup_singleton_Some in Hp as [Hp <-]. cbn [hd_key]. rewrite lookup_insert_eq. f_equal. lia.
  - done.
Qed.

(** ** Steps of the goroutines *)

Lemma setHeader_back c p s q h' : (exists h, ca_heap c !! p = Some h /\ isReady h = false) ->
  ca_heap (setHeader c p s) !! q = Some h' -> exists h, ca_heap c !! q = Some h /\ hd_key h' = hd_key h /\ (isReady h = true -> isReady h' = true).
Proof.
  intros Hs Hq. cbn [ca_heap setHeader] in Hq. destruct (decide (p = q)) as [->|Hne].
  - rewrite list_lookup_alter_eq in Hq. destruct (ca_heap c !! q) as [h|] eqn:Eq; [|done]. injection Hq as <-. exists h. split; [done|]. split; [done|]. intros Hr.
    destruct Hs as (h0 & [= <-] & Hf). congruence.
  - rewrite list_lookup_alter_ne in Hq by done. by exists h'.
Qed.

Lemma setHeader_grows c p h s : ca_heap c !! p = Some h -> isReady h = false -> heap_grows (ca_heap c) (ca_heap (setHeader c p s)).
Proof.
  intros Hp Hr q h0 Hq. cbn [ca_heap setHeader]. destruct (decide (p = q)) as [->|Hne].
  - rewrite list_lookup_alter_eq, Hq. rewrite Hp in Hq. injection Hq as <-. eexists. split; [done|]. split; [done|]. split; [done|]. intros r Hst. unfold isReady in Hr. by rewrite Hst in Hr.
  - rewrite list_lookup_alter_ne by done. exists h0. auto.
Qed.

Lemma filter_alter {A} (f : A -> A) (b : A -> bool) l p x : l !! p = Some x ->
  (length (List.filter b (alter f p l)) + (if b x then 1 else 0) = length (List.filter b l) + (if b (f x) then 1 else 0))%nat.
Proof.
  revert p. induction l as [|y l IH]; intros [|p] Hp; try discriminate.
  - injection Hp as ->. cbn. destruct (b x), (b (f x)); cbn; lia.
  - specialize (IH p Hp). cbn in *. destruct (b y); cbn; lia.
Qed.

(** A goroutine takes a slot, or gives it back. *)
Lemma setHeader_inv c p h s :
  cache_inv c -> ca_heap c !! p = Some h -> isReady h = false -> (slots (setHeader c p s) <= MaxConcurrentSnapshotUpdates)%nat -> cache_inv (setHeader c p s).
Proof.
  intros Hinv Hp Hr Hsl. pose proof (setHeader_grows c p h s Hp Hr) as Hg.
  assert (Hback : forall q h', ca_heap (setHeader c p s) !! q = Some h' -> exists h0, ca_heap c !! q = Some h0 /\ hd_key h' = hd_key h0 /\ (isReady h0 = true -> isReady h' = true)).
  { intros q h'. apply setHeader_back. by exists h. }
  split; [by eapply result_ok_grows, (inv_snapshots _ Hinv)| |apply (inv_exclusive _ Hinv)|done|].
  - intros i cl Hcl. destruct (inv_callers _ Hinv i cl Hcl) as [Hok Hw]. split; [by eapply caller_ok_grows|]. unfold writer_ok in *. destruct (cl_pc cl); try done.
    + intros key q h' Hk Hq. destruct (Hback q h' Hq) as (h0 & Hq0 & _ & Hrr). destruct (Hw key q h0 Hk Hq0); auto.
    + intros q h' Hq. destruct (Hback q h' Hq) as (h0 & Hq0 & _ & Hrr). apply Hrr, (Hw q h0 Hq0).
    + intros q h' Hq Hf. destruct (Hback q h' Hq) as (h0 & Hq0 & -> & Hrr). apply (Hw q h0 Hq0). destruct (isReady h0); [by rewrite Hrr in Hf|done].
  - intros q h' Hq Hf. destruct (Hback q h' Hq) as (h0 & Hq0 & -> & Hrr). apply (inv_inflight _ Hinv q h0 Hq0). destruct (isReady h0); [by rewrite Hrr in Hf|done].
Qed.

(** ** The invariant holds in every reachable state *)

Lemma canLock_spec c i cl : canLock c = true -> ca_callers c !! i = Some cl -> writing cl = false /\ reading cl = false.
Proof.
  unfold canLock. intros Hc%negb_true_iff Hcl. apply list_elem_of_lookup_2, list_elem_of_In in Hcl.
  pose proof (existsb_exists (fun cl => writing cl || reading cl) (ca_callers c)) as Hex. rewrite Hc in Hex.
  destruct (writing cl) eqn:Ew, (reading cl) eqn:Er; try done; exfalso; by assert (false = true) by (apply Hex; exists cl; rewrite Ew, Er; auto).
Qed.
Lemma canRLock_spec c i cl : canRLock c = true -> ca_callers c !! i = Some cl -> writing cl = false /\ waiting cl = false.
Proof.
  unfold canRLock. intros Hc%negb_true_iff Hcl. apply list_elem_of_lookup_2, list_elem_of_In in Hcl.
  pose proof (existsb_exists (fun cl => writing cl || waiting cl) (ca_callers c)) as Hex. rewrite Hc in Hex.
  destruct (writing cl) eqn:Ew, (waiting cl) eqn:Er; try done; exfalso; by assert (false = true) by (apply Hex; exists cl; rewrite Ew, Er; auto).
Qed.

Lemma setCaller_lookup c i j pc cl : ca_callers (setCaller c i pc) !! j = Some cl ->
  i = j /\ (exists cl0, ca_callers c !! j = Some cl0 /\ cl = mkCaller (cl_sources cl0) pc) \/ i <> j /\ ca_callers c !! j = Some cl.
Proof.
  cbn [setCaller ca_callers]. destruct (decide (i = j)) as [->|Hne].
  - rewrite list_lookup_alter_eq. intros (cl0 & Hj & ->)%fmap_Some. left. eauto.
  - rewrite list_lookup_alter_ne by done. auto.
Qed.

Lemma writer_ok_frame c c' cl : writing cl = false \/ ca_snapshots c' = ca_snapshots c /\ ca_heap c' = ca_heap c -> writer_ok c cl -> writer_ok c' cl.
Proof. unfold writing, writer_ok. intros [Hw|[-> ->]]; [|done]. by destruct (cl_pc cl). Qed.

Lemma caller_exclusive c i cl c' pc' :
  cache_inv c -> ca_callers c !! i = Some cl -> callerStep priority c cl = Some (c', pc') ->
  forall j b, ca_callers c !! j = Some b -> i <> j ->
    (writing (mkCaller (cl_sources cl) pc') = true -> writing b = false /\ reading b = false) /\
    (writing b = true -> writing (mkCaller (cl_sources cl) pc') = false /\ reading (mkCaller (cl_sources cl) pc') = false).
Proof.
  intros Hinv Hcl Hs j b Hb Hne. destruct (callerStep_locks _ _ _ _ Hs) as [Hw Hrd]. split.
  - intros [Hcw|Hc]%Hw; [by apply (inv_exclusive _ Hinv i j cl b)|by eapply canLock_spec].
  - intros Hbw. destruct (inv_exclusive _ Hinv j i b cl Hb Hcl (not_eq_sym Hne) Hbw) as [Hn Hr']. split; apply not_true_is_false.
    + intros [?|Hc]%Hw; [congruence|]. destruct (canLock_spec c j b Hc Hb). congruence.
    + intros [?|Hc]%Hrd; [congruence|]. destruct (canRLock_spec c j b Hc Hb). congruence.
Qed.

Lemma caller_inv c i cl c' pc' : cache_inv c -> ca_callers c !! i = Some cl -> callerStep priority c cl = Some (c', pc') -> cache_inv (setCaller c' i pc').
Proof.
  intros Hinv Hcl Hs. destruct (callerStep_frame _ _ _ _ Hs) as (Ecs & _ & Hheap & Hnw). destruct (inv_callers _ Hinv i cl Hcl) as [Hok Hw].
  destruct (callerStep_writer _ _ _ _ Hok Hw (inv_inflight _ Hinv) Hs) as [Hw' Hin']. pose proof (caller_exclusive _ _ _ _ _ Hinv Hcl Hs) as Hex.
  split; [exact (callerStep_snapshots _ _ _ _ (inv_snapshots _ Hinv) Hs)| | | |done].
  - intros j b [[<- (cl0 & Hj & ->)]|[Hne Hj]]%setCaller_lookup; rewrite Ecs in Hj.
    + rewrite Hcl in Hj. injection Hj as <-. split; [|done]. exact (callerStep_ok _ _ _ _ (inv_snapshots _ Hinv) Hok Hs).
    + destruct (inv_callers _ Hinv j b Hj) as [Hbok Hbw]. split; [exact (caller_ok_grows _ _ _ (callerStep_grows _ _ _ _ Hs) Hbok)|]. eapply writer_ok_frame, Hbw.
      destruct (writing cl) eqn:Ew; [left|by right; apply Hnw]. by apply (inv_exclusive _ Hinv i j cl b).
  - intros j k a b [[<- (a0 & Ha & ->)]|[Hna Ha]]%setCaller_lookup [[<- (b0 & Hb & ->)]|[Hnb Hb]]%setCaller_lookup Hjk; rewrite Ecs in Ha, Hb; try done.
    + rewrite Hcl in Ha. injection Ha as <-. by apply (Hex k b).
    + rewrite Hcl in Hb. injection Hb as <-. by apply (Hex j a).
    + by apply (inv_exclusive _ Hinv j k).
  - pose proof (inv_slots _ Hinv) as Hsl. unfold slots in *. cbn [setCaller ca_heap]. destruct Hheap as [->|[key ->]]; [done|]. rewrite List.filter_app. cbn. by rewrite app_nil_r.
Qed.

Lemma work_inv c c' : cache_inv c -> work priority c c' -> cache_inv c'.
Proof.
  intros Hinv Hw. pose proof (inv_slots _ Hinv) as Hsl. destruct Hw as [c i cl c' pc' Hcl Hs|c p h Hp Hst Hlt|c p h snapshot err Hp Hst]; [by eapply caller_inv| |].
  - eapply setHeader_inv; [done|done|by unfold isReady; rewrite Hst|]. pose proof (filter_alter (fun h => mkHdr (hd_key h) (hd_priority h) Running) isRunning _ _ _ Hp) as Hf.
    unfold slots in *. cbn [setHeader ca_heap] in *. replace (isRunning h) with false in Hf by (unfold isRunning; by rewrite Hst). cbn in Hf. lia.
  - eapply setHeader_inv; [done|done|by unfold isReady; rewrite Hst|]. pose proof (filter_alter (fun h0 => mkHdr (hd_key h0) (hd_priority h0) (Ready (populated (hd_key h) snapshot err))) isRunning _ _ _ Hp) as Hf.
    unfold slots in *. cbn [setHeader ca_heap] in *. replace (isRunning h) with true in Hf by (unfold isRunning; by rewrite Hst). cbn in Hf. lia.
Qed.

Lemma outside_inv c c' : cache_inv c -> outside c c' -> cache_inv c'.
Proof.
  intros Hinv Ho. destruct Ho as [c sources Hnd|c ch]; [|split; apply Hinv].
  split; [apply Hinv| | |apply Hinv|apply Hinv]; cbn [ca_callers ca_heap ca_snapshots].
  - intros i cl [Hi|[_ [_ <-]%list_lookup_singleton_Some]]%lookup_app_Some; [by apply (inv_callers _ Hinv i cl)|done].
  - intros i j a b [Ha|[? [? <-]%list_lookup_singleton_Some]]%lookup_app_Some [Hb|[? [? <-]%list_lookup_singleton_Some]]%lookup_app_Some Hne Hwr; try done.
    by apply (inv_exclusive _ Hinv i j a b).
Qed.

Lemma NewCache_inv : cache_inv NewCache.
Proof. split; try done. cbn. lia. Qed.

Lemma step_inv c c' : cache_inv c -> step priority c c' -> cache_inv c'.
Proof. intros Hinv [Hw|Ho]; [by eapply work_inv|by eapply outside_inv]. Qed.
Lemma reachable_inv c : reachable priority c -> cache_inv c.
Proof. intros Hr. refine (rtc_ind_r (R := step priority) cache_inv NewCache NewCache_inv _ _ Hr). intros y z _ Hs Hy. by eapply step_inv. Qed.

Lemma step_grows c c' : step priority c c' -> heap_grows (ca_heap c) (ca_heap c').
Proof.
  intros [[c0 i cl c1 pc' Hcl Hs|c0 p h Hp Hst Hlt|c0 p h sn err Hp Hst]|[c0 sources Hnd|c0 ch]]; try apply heap_grows_refl.
  - by apply callerStep_grows in Hs.
  - eapply setHeader_grows; [done|by unfold isReady; rewrite Hst].
  - eapply setHeader_grows; [done|by unfold isReady; rewrite Hst].
Qed.
Lemma steps_grow c c' : rtc (step priority) c c' -> heap_grows (ca_heap c) (ca_heap c').
Proof. induction 1 as [|x y z Hs _ IH]; [apply heap_grows_refl|]. eapply heap_grows_trans; [by apply step_grows|done]. Qed.

(** ** Nothing waits for ever *)

Definition returned (cl : Caller) : bool := match cl_pc cl with Returned _ => true | _ => false end.
Definition at_rest (c : Cache) : Prop := all_ready (ca_heap c) /\ forall i cl, ca_callers c !! i = Some cl -> returned cl = true.

Lemma Valid_ready c key p : all_ready (ca_heap c) -> headerOf (ca_heap c) key p -> exists v, Valid c p = Some v.
Proof. intros Ha (h & Hp & _). specialize (Ha p h Hp). unfold Valid, isReady in *. rewrite Hp. cbn. destruct (hd_state h) as [| |[e|sn]]; try done; eauto. Qed.

(** With everything read, who holds the lock goes on. *)
Lemma holder_goes_on c i cl : cache_inv c -> all_ready (ca_heap c) -> ca_callers c !! i = Some cl -> writing cl || reading cl = true -> exists r, callerStep priority c cl = Some r.
Proof.
  intros Hinv Ha Hcl Hwr. destruct (inv_callers _ Hinv i cl Hcl) as [Hok _]. unfold writing, reading, caller_ok, callerStep in *.
  assert (Hv : forall key p, ca_snapshots c !! key = Some p -> exists v, Valid c p = Some v) by (intros key p Hk; eapply Valid_ready; [done|by apply (inv_snapshots _ Hinv)]).
  destruct (cl_pc cl) as [|[|key todo] m r|m r|[|[key p] todo] e m r|m j n r|[|key todo] r|r]; try discriminate; try by eauto.
  - destruct (ca_snapshots c !! key) as [p|] eqn:Ek; [|by eauto]. destruct (Hv key p Ek) as [v Hv']. rewrite Hv'. cbn. eauto.
  - destruct Hok as (_ & _ & Ht & _). destruct (Valid_ready c key p Ha (Ht key p ltac:(by left))) as [v Hv']. rewrite Hv'. cbn. eauto.
  - destruct (m !! j) as [key|]; [|by eauto]. destruct (ca_snapshots c !! key) as [p|] eqn:Ek; [|by eauto]. destruct (Hv key p Ek) as [v Hv']. rewrite Hv'. cbn. eauto.
Qed.

Lemma find_index {A} (b : A -> bool) (l : list A) : (exists i x, l !! i = Some x /\ b x = true) \/ forall i x, l !! i = Some x -> b x = false.
Proof.
  destruct (existsb b l) eqn:E.
  - left. apply existsb_exists in E as (x & Hin & Hb). apply list_elem_of_In, list_elem_of_lookup in Hin as [i Hi]. eauto.
  - right. intros i x Hi%list_elem_of_lookup_2%list_elem_of_In. apply not_true_is_false. intros Hb. assert (existsb b l = true); [|congruence]. apply existsb_exists. eauto.
Qed.
Lemma existsb_none {A} (b : A -> bool) (l : list A) : (forall i x, l !! i = Some x -> b x = false) -> existsb b l = false.
Proof.
  intros Hn. apply not_true_is_false. intros (x & Hin & Hb)%existsb_exists. apply list_elem_of_In, list_elem_of_lookup in Hin as [i Hi]. specialize (Hn i x Hi). congruence.
Qed.

Lemma goroutine_goes_on c p h : cache_inv c -> ca_heap c !! p = Some h -> isReady h = false -> exists c', work priority c c'.
Proof.
  intros Hinv Hp Hr. destruct (List.filter isRunning (ca_heap c)) as [|g l] eqn:Ef.
  - assert (hd_state h = Locked) as Hl.
    { unfold isReady in Hr. destruct (hd_state h) eqn:Est; try done. exfalso. apply list_elem_of_lookup_2, list_elem_of_In in Hp.
      assert (In h (List.filter isRunning (ca_heap c))) as Hin by (apply filter_In; split; [done|by unfold isRunning; rewrite Est]). by rewrite Ef in Hin. }
    eexists. eapply work_acquire; [done|done|]. unfold slots. rewrite Ef. cbn. unfold MaxConcurrentSnapshotUpdates. lia.
  - assert (In g (List.filter isRunning (ca_heap c))) as [Hin Hrun]%filter_In by (rewrite Ef; by left).
    apply list_elem_of_In, list_elem_of_lookup in Hin as [q Hq]. eexists. eapply (work_finish priority c q g None None); [done|]. unfold isRunning in Hrun. by destruct (hd_state g).
Qed.

(** Some goroutine, some holder of the lock, some caller that waits for it, or some caller at its start can go on. *)
Lemma progress c : cache_inv c -> at_rest c \/ exists c', work priority c c'.
Proof.
  intros Hinv. destruct (find_index (fun h => negb (isReady h)) (ca_heap c)) as [(p & h & Hp & Hr%negb_true_iff)|Hh]; [right; by eapply goroutine_goes_on|].
  assert (Ha : all_ready (ca_heap c)) by (intros p h Hp; by apply negb_false_iff, (Hh p h)).
  assert (Hgo : forall i cl r, ca_callers c !! i = Some cl -> callerStep priority c cl = Some r -> exists c', work priority c c') by (intros i cl [c' pc'] Hcl Hs; eexists; by eapply work_caller).
  destruct (find_index (fun cl => writing cl || reading cl) (ca_callers c)) as [(i & cl & Hcl & Hb)|Hl].
  { right. destruct (holder_goes_on c i cl Hinv Ha Hcl Hb) as [r Hs]. by eapply Hgo. }
  destruct (find_index waiting (ca_callers c)) as [(i & cl & Hcl & Hb)|Hwt].
  { right. unfold waiting in Hb. destruct (cl_pc cl) eqn:Epc; try done. eapply (Hgo i cl); [done|]. unfold callerStep, canLock. by rewrite Epc, (existsb_none _ _ Hl). }
  destruct (find_index (fun cl => negb (returned cl)) (ca_callers c)) as [(i & cl & Hcl & Hb)|Hret].
  - right. specialize (Hl i cl Hcl) as Hli. specialize (Hwt i cl Hcl) as Hwti. unfold writing, reading, waiting, returned in Hli, Hwti, Hb. destruct (cl_pc cl) eqn:Epc; try done.
    eapply (Hgo i cl); [done|]. unfold callerStep, canRLock. rewrite Epc, existsb_none; [done|]. intros j b Hj. rewrite (Hwt j b Hj), orb_false_r. by apply (orb_false_elim _ _ (Hl j b Hj)).
  - left. split; [done|]. intros i cl Hcl. by apply negb_false_iff, (Hret i cl).
Qed.

(** ** The work is bounded *)

(** How many headers a caller may still make, and how many steps it may still take when there are at most [B]
    headers. *)
Definition pop (cl : Caller) : nat :=
  match cl_pc cl with
  | Start => length (cl_sources cl)
  | Reading todo misses _ => length todo + length misses
  | WantLock misses _ | Expiring _ _ misses _ => length misses
  | Rechecking misses _ n _ => length misses - n
  | Populating todo _ => length todo
  | Returned _ => 0
  end.
Definition cost (B : nat) (cl : Caller) : nat :=
  match cl_pc cl with
  | Start => 3 * length (cl_sources cl) + 6 + B
  | Reading todo misses _ => length todo + 1 + B + 2 * (length todo + length misses) + 4
  | WantLock misses _ => B + 2 * length misses + 4
  | Expiring todo _ misses _ => length todo + 3 + 2 * length misses
  | Rechecking misses i n _ => (length misses - i) + 1 + (length misses - n) + 1
  | Populating todo _ => length todo + 1
  | Returned _ => 0
  end.
Definition hcost (h : Hdr) : nat := match hd_state h with Locked => 2 | Running => 1 | Ready _ => 0 end.
Definition headers (c : Cache) : nat := length (ca_heap c) + sum_list_with pop (ca_callers c).
Definition work_left (c : Cache) : nat := sum_list_with (cost (headers c)) (ca_callers c) + sum_list_with hcost (ca_heap c) + 2 * sum_list_with pop (ca_callers c).

Lemma sum_alter {A} (f : A -> A) (w : A -> nat) (l : list A) p x : l !! p = Some x -> (sum_list_with w (alter f p l) + w x = sum_list_with w l + w (f x))%nat.
Proof. revert p. induction l as [|y l IH]; intros [|p] Hp; try discriminate; [injection Hp as ->; cbn; lia|]. specialize (IH p Hp). cbn in *. lia. Qed.
Lemma sum_le {A} (v w : A -> nat) (l : list A) : (forall x, (v x <= w x)%nat) -> (sum_list_with v l <= sum_list_with w l)%nat.
Proof. intros Hvw. induction l as [|x l IH]; cbn; [lia|]. specialize (Hvw x). lia. Qed.
Lemma cost_mono B B' cl : (B <= B')%nat -> (cost B cl <= cost B' cl)%nat.
Proof. intros HB. unfold cost. destruct (cl_pc cl); lia. Qed.

(** There are no more snapshots than headers. *)
Lemma range_length_heap heap (snapshots : gmap SourceKey nat) : result_ok heap snapshots -> (length (range snapshots) <= length heap)%nat.
Proof.
  intros Hr. rewrite <- (length_fmap snd). rewrite <- (length_seq (length heap) 0).
  assert (Hdom : forall key p, (key, p) ∈ range snapshots -> headerOf heap key p) by (intros key p; rewrite elem_of_range; apply Hr).
  apply NoDup_incl_length.
  - apply NoDup_ListNoDup. apply NoDup_fmap_2_strong; [|by eapply NoDup_fmap_1, NoDup_range_keys].
    intros [k p] [k' p'] Hk Hk' Heq. cbn in Heq. subst p'. destruct (Hdom _ _ Hk) as (h & Hp & <-), (Hdom _ _ Hk') as (h' & Hp' & <-). congruence.
  - intros p Hin. apply list_elem_of_In, list_elem_of_fmap in Hin as ([k q] & -> & Hin). destruct (Hdom k q Hin) as (h & Hq & _). apply in_seq. apply lookup_lt_Some in Hq. cbn. lia.
Qed.

Lemma callerStep_cost c cl c' pc' B :
  cache_inv c -> callerStep priority c cl = Some (c', pc') -> (length (ca_heap c) <= B)%nat -> let cl' := mkCaller (cl_sources cl) pc' in
  (length (ca_heap c') + pop cl' <= length (ca_heap c) + pop cl)%nat /\
  (cost B cl' + sum_list_with hcost (ca_heap c') + 2 * pop cl' < cost B cl + sum_list_with hcost (ca_heap c) + 2 * pop cl)%nat.
Proof.
  intros Hinv Hs HB. pose proof (range_length_heap _ _ (inv_snapshots _ Hinv)) as Hrg. unfold pop, cost. callerInv Hs; cbn [cl_pc cl_sources length] in *;
    repeat match goal with Hm : ?m !! _ = Some _ |- context [length ?m] => apply lookup_lt_Some in Hm | Hm : ?m !! _ = None |- context [length ?m] => apply lookup_ge_None in Hm end;
    rewrite ?length_app, ?length_drop, ?swap_length; cbn [length]; rewrite ?sum_list_with_app; cbn; lia.
Qed.

Lemma work_decreases c c' : cache_inv c -> work priority c c' -> (work_left c' < work_left c)%nat.
Proof.
  intros Hinv Hw. destruct Hw as [c i cl c' pc' Hcl Hs|c p h Hp Hst Hlt|c p h snapshot err Hp Hst].
  - destruct (callerStep_frame _ _ _ _ Hs) as (Ecs & _). pose proof (callerStep_cost c cl c' pc' (headers c) Hinv Hs ltac:(unfold headers; lia)) as [Hpop Hcost].
    pose proof (sum_alter (fun cl => mkCaller (cl_sources cl) pc') pop _ _ _ Hcl) as Sp. pose proof (sum_alter (fun cl => mkCaller (cl_sources cl) pc') (cost (headers c)) _ _ _ Hcl) as Sc.
    assert (Hh : (headers (setCaller c' i pc') <= headers c)%nat) by (unfold headers in *; cbn [setCaller ca_heap ca_callers] in *; rewrite Ecs; lia).
    unfold work_left. pose proof (sum_le (cost (headers (setCaller c' i pc'))) (cost (headers c)) (ca_callers (setCaller c' i pc')) (fun x => cost_mono _ _ x Hh)) as Hle.
    cbn [setCaller ca_heap ca_callers] in *. rewrite Ecs in *. lia.
  - pose proof (sum_alter (fun h => mkHdr (hd_key h) (hd_priority h) Running) hcost _ _ _ Hp) as Sh. unfold work_left, headers. cbn [setHeader ca_heap ca_callers]. rewrite length_alter.
    unfold hcost in Sh at 2 4. rewrite Hst in Sh. cbn [hd_state] in Sh. lia.
  - pose proof (sum_alter (fun h0 => mkHdr (hd_key h0) (hd_priority h0) (Ready (populated (hd_key h) snapshot err))) hcost _ _ _ Hp) as Sh. unfold work_left, headers. cbn [setHeader ca_heap ca_callers]. rewrite length_alter.
    unfold hcost in Sh at 2 4. rewrite Hst in Sh. cbn [hd_state] in Sh. lia.
Qed.

Lemma works_bounded n c c' : cache_inv c -> nsteps (work priority) n c c' -> cache_inv c' /\ (n + work_left c' <= work_left c)%nat.
Proof.
  intros Hinv Hn. induction Hn as [x|n x y z Hs _ IH]; [split; [done|lia]|]. pose proof (work_decreases _ _ Hinv Hs). destruct (IH (work_inv _ _ Hinv Hs)). split; [done|lia].
Qed.

(** ** Schedules *)

(** The steps by name, so that schedules can be run. *)
Inductive action := ACall (sources : list SourceKey) | AClose (ch : nat) | ACaller (i : nat) | AAcquire (p : nat) | AFinish (p : nat) (snapshot : option Snap) (err : option error).
Definition act (c : Cache) (a : action) : option Cache :=
  match a with
  | ACall sources => if decide (NoDup sources) then Some (mkCache (ca_snapshots c) (ca_heap c) (ca_closed c) (ca_callers c ++ [mkCaller sources Start])) else None
  | AClose ch => Some (mkCache (ca_snapshots c) (ca_heap c) ({[ch]} ∪ ca_closed c) (ca_callers c))
  | ACaller i => cl ← ca_callers c !! i; r ← callerStep priority c cl; Some (setCaller r.1 i r.2)
  | AAcquire p => h ← ca_heap c !! p; match hd_state h with Locked => if decide (slots c < MaxConcurrentSnapshotUpdates)%nat then Some (setHeader c p Running) else None | _ => None end
  | AFinish p snapshot err => h ← ca_heap c !! p; match hd_state h with Running => Some (setHeader c p (Ready (populated (hd_key h) snapshot err))) | _ => None end
  end.
Definition actions (c : Cache) (l : list action) : option Cache := foldl (fun oc a => c ← oc; act c a) (Some c) l.

Lemma act_caller c i c' : act c (ACaller i) = Some c' -> work priority c c'.
Proof.
  cbn. destruct (ca_callers c !! i) as [cl|] eqn:Ecl; [|done]. cbn. destruct (callerStep priority c cl) as [[c1 pc']|] eqn:Es; [|done]. intros [= <-]. by eapply work_caller.
Qed.
Lemma act_step c c' : step priority c c' <-> exists a, act c a = Some c'.
Proof.
  split.
  - intros [[c0 i cl c1 pc' Hcl Hs|c0 p h Hp Hst Hlt|c0 p h sn err Hp Hst]|[c0 sources Hnd|c0 ch]].
    + exists (ACaller i). cbn. rewrite Hcl. cbn. by rewrite Hs.
    + exists (AAcquire p). cbn. rewrite Hp. cbn. rewrite Hst. by rewrite decide_True.
    + exists (AFinish p sn err). cbn. rewrite Hp. cbn. by rewrite Hst.
    + exists (ACall sources). cbn. by rewrite decide_True.
    + by exists (AClose ch).
  - intros [a Ha]. destruct a; cbn in Ha.
    + case_decide; [|done]. injection Ha as <-. right. by constructor.
    + injection Ha as <-. right. constructor.
    + left. by eapply act_caller.
    + destruct (ca_heap c !! p) as [h|] eqn:Ep; [|done]. cbn in Ha. destruct (hd_state h) eqn:Est; try done. case_decide; [|done]. injection Ha as <-. left. by eapply work_acquire.
    + destruct (ca_heap c !! p) as [h|] eqn:Ep; [|done]. cbn in Ha. destruct (hd_state h) eqn:Est; try done. injection Ha as <-. left. by eapply work_finish.
Qed.

Lemma actions_none l : foldl (fun oc a => c ← oc; act c a) None l = None.
Proof. by induction l. Qed.
Lemma actions_steps l c c' : actions c l = Some c' -> rtc (step priority) c c'.
Proof.
  revert c. induction l as [|a l IH]; intros c; unfold actions; cbn [foldl]; [intros [= <-]; constructor|]. cbn [mbind option_bind]. destruct (act c a) as [c1|] eqn:Ea; [|by rewrite actions_none].
  intros Hl. eapply rtc_l; [apply act_step; by exists a|by apply IH].
Qed.

(** ** Claims *)

(** C4: However calls of [Namespaced], goroutines that read sources and channels that are closed interleave: the
    write lock excludes everyone else; at most four sources are read at a time, and none by two goroutines at once;
    the result of a call has exactly the sources it asked for, each with a header made for it; and from then on
    headers keep their key, priority and what was read into them. *)
Theorem population_safe c :
  reachable priority c ->
  (forall i j a b, ca_callers c !! i = Some a -> ca_callers c !! j = Some b -> i <> j -> writing a = true -> writing b = false /\ reading b = false) /\
  (slots c <= MaxConcurrentSnapshotUpdates)%nat /\
  (forall p q g h, ca_heap c !! p = Some g -> ca_heap c !! q = Some h -> isReady g = false -> isReady h = false -> hd_key g = hd_key h -> p = q) /\
  (forall i cl r, ca_callers c !! i = Some cl -> cl_pc cl = Returned r ->
     (forall key, key ∈ cl_sources cl <-> is_Some (r !! key)) /\ forall key p, r !! key = Some p -> headerOf (ca_heap c) key p) /\
  (forall c', rtc (step priority) c c' -> heap_grows (ca_heap c) (ca_heap c')).
Proof.
  intros Hinv%reachable_inv. split; [apply Hinv|]. split; [apply Hinv|]. split; [|split; [|apply steps_grow]].
  - intros p q g h Hp Hq Hg Hh Hk. pose proof (inv_inflight _ Hinv p g Hp Hg) as Ep. pose proof (inv_inflight _ Hinv q h Hq Hh) as Eq. rewrite Hk in Ep. congruence.
  - intros i cl r Hcl Hpc. destruct (inv_callers _ Hinv i cl Hcl) as [Hok _]. unfold caller_ok in Hok. rewrite Hpc in Hok. destruct Hok as [Hr Hk]. by split.
Qed.

(** C5: Nothing waits for ever: from any reachable state, callers and goroutines take at most [work_left] steps, in
    whatever order, and they can take one as long as some call has not returned or some header is not read.  The
    locks, the semaphore and the waiting for headers under the write lock do not deadlock. *)
Theorem population_completes n c c' :
  reachable priority c -> nsteps (work priority) n c c' -> (n <= work_left c)%nat /\ (at_rest c' \/ exists c'', work priority c' c'').
Proof. intros Hinv%reachable_inv Hn. destruct (works_bounded _ _ _ Hinv Hn) as [Hinv' Hb]. split; [lia|by apply progress]. Qed.
End cache.

(** ** The channels of the invalidator *)

Module Invalidator.

(** [sourceInvalidator]: all channels it made, with their key and whether they are closed, those of [validChans],
    and the goroutines that wait for the time to live to pass. *)
Record sourceInvalidator := mkInv { iv_chans : list (SourceKey * bool); iv_validChans : gmap SourceKey nat; iv_timers : list (SourceKey * nat) }.

(** [close(c); delete(i.validChans, key)]; closing a closed channel panics ([None]). *)
Definition closeAndDelete (i : sourceInvalidator) (key : SourceKey) (c : nat) : option sourceInvalidator :=
  match iv_chans i !! c with
  | Some (k, false) => Some (mkInv (<[c := (k, true)]> (iv_chans i)) (delete key (iv_validChans i)) (iv_timers i))
  | _ => None
  end.
Definition Invalidate (i : sourceInvalidator) (key : SourceKey) : option sourceInvalidator :=
  match iv_validChans i !! key with Some c => closeAndDelete i key c | None => Some i end.
Definition GetValidChannel (i : sourceInvalidator) (key : SourceKey) : sourceInvalidator * nat :=
  match iv_validChans i !! key with
  | Some c => (i, c)
  | None => let c := length (iv_chans i) in (mkInv (iv_chans i ++ [(key, false)]) (<[key := c]> (iv_validChans i)) (iv_timers i ++ [(key, c)]), c)
  end.
(** The goroutine of the [n]-th pending timer, when its time is over. *)
Definition Expire (i : sourceInvalidator) (n : nat) : option sourceInvalidator :=
  match iv_timers i !! n with
  | Some (key, c) =>
      let i := mkInv (iv_chans i) (iv_validChans i) (delete n (iv_timers i)) in
      if bool_decide (iv_validChans i !! key = Some c) then closeAndDelete i key c else Some i
  | None => Some i
  end.

Inductive op := OInvalidate (key : SourceKey) | OGet (key : SourceKey) | OExpire (n : nat).
Definition invoke (i : sourceInvalidator) (o : op) : option sourceInvalidator :=
  match o with OInvalidate key => Invalidate i key | OGet key => Some (GetValidChannel i key).1 | OExpire n => Expire i n end.
Definition newInvalidator : sourceInvalidator := mkInv [] ∅ [].
Definition invocations (ops : list op) : option sourceInvalidator := foldl (fun oi o => i ← oi; invoke i o) (Some newInvalidator) ops.

(** The open channels are those of [validChans], one for a key. *)
Definition open_iff_valid (i : sourceInvalidator) : Prop := forall key c, iv_chans i !! c = Some (key, false) <-> iv_validChans i !! key = Some c.

Lemma closeAndDelete_ok i key c : open_iff_valid i -> iv_validChans i !! key = Some c ->
  exists i', closeAndDelete i key c = Some i' /\ open_iff_valid i' /\ iv_validChans i' = delete key (iv_validChans i).
Proof.
  intros Ho Hc. unfold closeAndDelete. pose proof (proj2 (Ho key c) Hc) as Hk. rewrite Hk. eexists. split; [done|]. split; [|done]. intros k ch. cbn [iv_chans iv_validChans].
  rewrite lookup_delete_Some, <- (Ho k ch). destruct (decide (c = ch)) as [<-|Hne].
  - rewrite list_lookup_insert_eq by (by eapply lookup_lt_Some). rewrite Hk. split; [done|]. intros [? [= ->]]. done.
  - rewrite list_lookup_insert_ne by done. split; [|by intros [_ ?]]. intros Hch. split; [|done]. intros <-. apply Ho in Hch. congruence.
Qed.

Lemma invoke_ok i o : open_iff_valid i -> exists i', invoke i o = Some i' /\ open_iff_valid i'.
Proof.
  intros Ho. destruct o as [key|key|n]; cbn [invoke].
  - unfold Invalidate. destruct (iv_validChans i !! key) as [c|] eqn:Ec; [|by exists i]. destruct (closeAndDelete_ok i key c Ho Ec) as (i' & -> & Hi' & _). eauto.
  - eexists. split; [done|]. unfold GetValidChannel. destruct (iv_validChans i !! key) as [c|] eqn:Ec; [done|]. intros k ch. cbn [fst iv_chans iv_validChans].
    rewrite lookup_insert_Some, <- (Ho k ch), lookup_app_Some, list_lookup_singleton_Some. split.
    + intros [Hch|(Hle & Hz & [= <-])]; [right|left; split; [done|lia]]. split; [|done]. intros <-. apply Ho in Hch. congruence.
    + intros [[<- <-]|[_ Hch]]; [right; split; [lia|]; split; [lia|done]|by left].
  - unfold Expire. destruct (iv_timers i !! n) as [[key c]|] eqn:En; [|by exists i]. cbn [iv_validChans]. case_bool_decide as Hv; [|by eexists].
    destruct (closeAndDelete_ok (mkInv (iv_chans i) (iv_validChans i) (delete n (iv_timers i))) key c Ho Hv) as (i' & -> & Hi' & _). eauto.
Qed.

Lemma invocations_snoc ops o : invocations (ops ++ [o]) = i ← invocations ops; invoke i o.
Proof. unfold invocations. by rewrite foldl_app. Qed.
Lemma invocations_ok ops : exists i, invocations ops = Some i /\ open_iff_valid i.
Proof.
  induction ops as [|o ops (i & Ei & Ho)] using rev_ind; [by exists newInvalidator|]. rewrite invocations_snoc, Ei. cbn. by apply invoke_ok.
Qed.

(** C6: Whatever calls of [Invalidate] and [GetValidChannel] there are and whenever the timers fire, no channel is
    closed twice (which would panic).  A channel that [GetValidChannel] returns is open; after [Invalidate], every
    channel ever made for the key is closed, so no snapshot of it taken before is valid, and the channels of other
    keys stay as they are. *)
Theorem invalidator_correct ops key : exists i, invocations ops = Some i /\
  iv_chans (GetValidChannel i key).1 !! (GetValidChannel i key).2 = Some (key, false) /\
  exists i', Invalidate i key = Some i' /\ (forall c, iv_chans i' !! c <> Some (key, false)) /\
    forall k c b, k <> key -> iv_chans i' !! c = Some (k, b) <-> iv_chans i !! c = Some (k, b).
Proof.
  destruct (invocations_ok ops) as (i & Ei & Ho). exists i. split; [done|]. split.
  - pose proof (invoke_ok i (OGet key) Ho) as (i' & [= <-] & Ho'). apply Ho'. unfold GetValidChannel. destruct (iv_validChans i !! key) as [c|] eqn:Ec; cbn; [done|apply lookup_insert_eq].
  - unfold Invalidate. destruct (iv_validChans i !! key) as [c|] eqn:Ec.
    + destruct (closeAndDelete_ok i key c Ho Ec) as (i' & Ei' & Ho' & Ev). exists i'. split; [done|]. split; [intros ch Hch; apply Ho' in Hch; rewrite Ev in Hch; by rewrite lookup_delete_eq in Hch|].
      unfold closeAndDelete in Ei'. rewrite (proj2 (Ho key c) Ec) in Ei'. injection Ei' as <-. intros k ch b Hk. cbn [iv_chans]. apply Ho in Ec.
      destruct (decide (c = ch)) as [<-|Hne]; [rewrite list_lookup_insert_eq by (by eapply lookup_lt_Some); split; congruence|by rewrite list_lookup_insert_ne].
    + exists i. split; [done|]. split; [|done]. intros c Hc. apply Ho in Hc. congruence.
Qed.
End Invalidator.

(** ** Witnesses *)

Module PopulationDemo.
#[local] Existing Instances demo_semver canonical_order.

Definition prio (key : SourceKey) : Z := 0.
Definition cats : SourceKey := mkKey "cats" "ns".
Definition dogs : SourceKey := mkKey "dogs" "ns".
Definition callsMade : option Cache := actions prio NewCache [ACall [cats; dogs]; ACall [cats]].

(** Both callers miss the source; the first one populates it, and the second one finds it when it gets the lock. *)
Definition schedule : list action :=
  [ACall [cats]; ACall [cats]; ACaller 0; ACaller 1; ACaller 0; ACaller 1; ACaller 0; ACaller 1; ACaller 0; ACaller 0; ACaller 0; ACaller 0; ACaller 0; ACaller 0;
   ACaller 1; AAcquire 0; AFinish 0 (Some (mkSnap [] (Some 7%nat))) None; ACaller 1; ACaller 1; ACaller 1; ACaller 1; ACaller 1; AClose 7].

Example schedule_result : option_map (fun c => (ca_callers c, length (ca_heap c))) (actions prio NewCache schedule)
  = Some ([mkCaller [cats] (Returned {[cats := 0%nat]}); mkCaller [cats] (Returned {[cats := 0%nat]})], 1%nat).
Proof. vm_compute. reflexivity. Qed.

(** The second caller is blocked as long as the header of the first is locked. *)
Example blocked_on_header : match actions prio NewCache (take 15 schedule) with Some c => act prio c (ACaller 1) | None => None end = None.
Proof. vm_compute. reflexivity. Qed.

Lemma population_safe_witness :
  match actions prio NewCache schedule with Some c => reachable prio c /\ (slots c <= MaxConcurrentSnapshotUpdates)%nat | None => False end.
Proof.
  destruct (actions prio NewCache schedule) as [c|] eqn:Ec; [|vm_compute in Ec; discriminate].
  pose proof (actions_steps prio _ _ _ Ec) as Hr. split; [exact Hr|]. exact (proj1 (proj2 (population_safe prio c Hr))).
Defined.

Lemma population_completes_witness :
  match callsMade with
  | Some c => match act prio c (ACaller 0) with Some c' => (1 <= work_left c)%nat /\ (at_rest c' \/ exists c'', work prio c' c'') | None => False end
  | None => False
  end.
Proof.
  destruct callsMade as [c|] eqn:Ec; [|vm_compute in Ec; discriminate]. pose proof (actions_steps prio _ _ _ Ec) as Hr.
  destruct (act prio c (ACaller 0)) as [c'|] eqn:Ea; [|vm_compute in Ec; injection Ec as <-; vm_compute in Ea; discriminate].
  refine (population_completes prio 1 c c' Hr _). econstructor; [exact (act_caller prio _ _ _ Ea)|constructor].
Defined.
End PopulationDemo.
