(* ===== verification/ClusterCalls.v ===== *)
(** * Computations that call the cluster

    The handlers of the OLM operator read caches and call the API server, log most errors and go on, or return them.
    A handler is a function on the calls made so far: it makes more calls and ends in a value or an error.  The
    answers to calls are part of the environment of a handler, and may depend on the calls before.

    [makes_only Q m]: whatever was called before, [m] makes only calls that satisfy [Q].  The hint database
    [calls] proves it along the structure of [m]. *)

From S2P Require Import Prelude CsvTypes.

Section monad.
Context {C : Type}.

Definition P (A : Type) : Type := list C -> list C * (error + A).
Definition pret {A} (x : A) : P A := fun h => (h, inr x).
Definition pfail {A} (err : error) : P A := fun h => (h, inl err).
Definition pbind {A B} (m : P A) (k : A -> P B) : P B := fun h => match m h with (h', inr x) => k x h' | (h', inl err) => (h', inl err) end.
Definition plift {A} (r : error + A) : P A := fun h => (h, r).
(** A call and its answer, which may be an error. *)
Definition perform {A} (answer : list C -> C -> A) (c : C) : P A := fun h => (h ++ [c], inr (answer h c)).
(** [if err := ...; err != nil { return err }] *)
Definition check (m : P (option error)) : P unit := pbind m (fun err => match err with None => pret tt | Some err => pfail err end).
Definition must {A} (m : P (error + A)) : P A := pbind m plift.
(** The error of a call is kept as a value: it is logged, or looked at. *)
Definition attempt {A} (m : P A) : P (error + A) := fun h => let r := m h in (r.1, inr r.2).
Fixpoint pfor {X} (xs : list X) (body : X -> P unit) : P unit :=
  match xs with [] => pret tt | x :: xs => pbind (body x) (fun _ => pfor xs body) end.
(** [for _, x := range xs { acc, err = body(acc, x); if err != nil { return err } }] *)
Fixpoint pfold {X S} (body : S -> X -> P S) (s : S) (xs : list X) : P S :=
  match xs with [] => pret s | x :: xs => pbind (body s x) (fun s => pfold body s xs) end.

Definition calls_of {A} (m : P A) : list C := (m []).1.
Definition result_of {A} (m : P A) : error + A := (m []).2.

(** ** Which calls a computation makes *)

Definition makes_only (Q : C -> Prop) {A} (m : P A) : Prop := forall h, exists new, (m h).1 = h ++ new /\ Forall Q new.

Context (Q : C -> Prop).

Lemma makes_ret {A} (x : A) : makes_only Q (pret x).
Proof. intros h. exists []. by rewrite app_nil_r. Qed.
Lemma makes_fail {A} err : makes_only Q (pfail (A := A) err).
Proof. intros h. exists []. by rewrite app_nil_r. Qed.
Lemma makes_lift {A} (r : error + A) : makes_only Q (plift r).
Proof. intros h. exists []. by rewrite app_nil_r. Qed.
Lemma makes_bind {A B} (m : P A) (k : A -> P B) : makes_only Q m -> (forall x, makes_only Q (k x)) -> makes_only Q (pbind m k).
Proof.
  intros Hm Hk h. unfold pbind. destruct (Hm h) as (n1 & E1 & F1). destruct (m h) as [h' [err|x]]; cbn in E1; subst h'; [by exists n1|].
  destruct (Hk x (h ++ n1)) as (n2 & E2 & F2). exists (n1 ++ n2). split; [by rewrite E2, app_assoc|by apply Forall_app].
Qed.
(** What the computation returned may be used for what follows. *)
Lemma makes_bind_res {A B} (R : A -> Prop) (m : P A) (k : A -> P B) :
  makes_only Q m -> (forall h x, (m h).2 = inr x -> R x) -> (forall x, R x -> makes_only Q (k x)) -> makes_only Q (pbind m k).
Proof.
  intros Hm HR Hk h. unfold pbind. destruct (Hm h) as (n1 & E1 & F1). specialize (HR h). destruct (m h) as [h' [err|x]]; cbn in E1; subst h'; [by exists n1|].
  destruct (Hk x (HR x eq_refl) (h ++ n1)) as (n2 & E2 & F2). exists (n1 ++ n2). split; [by rewrite E2, app_assoc|by apply Forall_app].
Qed.
Lemma makes_perform {A} (answer : list C -> C -> A) c : Q c -> makes_only Q (perform answer c).
Proof. intros Hc h. exists [c]. split; [done|by constructor]. Qed.
Lemma makes_check m : makes_only Q m -> makes_only Q (check m).
Proof. intros Hm. apply makes_bind; [done|]. intros [err|]; [apply makes_fail|apply makes_ret]. Qed.
Lemma makes_must {A} (m : P (error + A)) : makes_only Q m -> makes_only Q (must m).
Proof. intros Hm. apply makes_bind; [done|]. intros r. apply makes_lift. Qed.
Lemma makes_attempt {A} (m : P A) : makes_only Q m -> makes_only Q (attempt m).
Proof. intros Hm h. apply (Hm h). Qed.
Lemma makes_for {X} (xs : list X) body : (forall x, x ∈ xs -> makes_only Q (body x)) -> makes_only Q (pfor xs body).
Proof.
  induction xs as [|x xs IH]; intros Hb; [apply makes_ret|]. apply makes_bind; [apply Hb; by left|]. intros _. apply IH. intros y Hy. apply Hb. by right.
Qed.
Lemma makes_fold {X S} (body : S -> X -> P S) s xs : (forall s x, x ∈ xs -> makes_only Q (body s x)) -> makes_only Q (pfold body s xs).
Proof.
  revert s. induction xs as [|x xs IH]; intros s Hb; [apply makes_ret|]. apply makes_bind; [apply Hb; by left|]. intros s'. apply IH. intros s'' y Hy. apply Hb. by right.
Qed.

Lemma makes_calls {A} (m : P A) c : makes_only Q m -> c ∈ calls_of m -> Q c.
Proof. intros Hm Hc. destruct (Hm []) as (new & E & F). unfold calls_of in Hc. rewrite E in Hc. by eapply Forall_forall in F. Qed.
End monad.
Arguments P : clear implicits.

Lemma makes_weaken {C A} (Q R : C -> Prop) (m : P C A) : (forall c, Q c -> R c) -> makes_only Q m -> makes_only R m.
Proof. intros HQR Hm h. destruct (Hm h) as (new & E & F). exists new. split; [done|]. by eapply Forall_impl. Qed.

Create HintDb calls.
#[export] Hint Resolve makes_ret makes_fail makes_lift makes_bind makes_perform makes_check makes_must makes_attempt makes_for makes_fold : calls.

Declare Scope p_scope.
Delimit Scope p_scope with p.
Notation "'let!' x := m 'in' k" := (pbind m (fun x => k)) (at level 10, x name, m at level 100, k at level 200) : p_scope.
Notation "'run!' m 'in' k" := (pbind m (fun _ => k)) (at level 10, m at level 100, k at level 200) : p_scope.

(** [fmt.Errorf("...: %w", err)]: the reason of an API error can still be asked for. *)
Definition wrapErr (msg : string) (err : error) : error :=
  match err with
  | ErrAPI reason m => ErrAPI reason (msg +:+ ": " +:+ m)
  | err => ErrString (msg +:+ ": " +:+ Error_ err)
  end.
Definition orWrapErr {C A} (msg : string) (r : error + A) : P C A := match r with inl err => pfail (wrapErr msg err) | inr x => pret x end.
Lemma makes_orWrapErr {C A} (Q : C -> Prop) msg (r : error + A) : makes_only Q (orWrapErr msg r).
Proof. destruct r; [apply makes_fail|apply makes_ret]. Qed.
#[export] Hint Resolve makes_orWrapErr : calls.

(** Follows the structure of a computation; what is left are the calls themselves, and computations with a lemma of
    their own in the database [calls]. *)
Ltac calls_step :=
  match goal with
  | |- makes_only _ (pret _) => apply makes_ret
  | |- makes_only _ (pfail _) => apply makes_fail
  | |- makes_only _ (plift _) => apply makes_lift
  | |- makes_only _ (orWrapErr _ _) => apply makes_orWrapErr
  | |- makes_only _ (pbind _ _) => apply makes_bind; [|intros ?]
  | |- makes_only _ (perform _ _) => apply makes_perform
  | |- makes_only _ (check _) => apply makes_check
  | |- makes_only _ (must _) => apply makes_must
  | |- makes_only _ (attempt _) => apply makes_attempt
  | |- makes_only _ (pfor _ _) => apply makes_for; intros ? ?
  | |- makes_only _ (pfold _ _ _) => apply makes_fold; intros ? ? ?
  | |- makes_only _ (match ?x with _ => _ end) => destruct x eqn:?
  | |- makes_only _ (let _ := _ in _) => cbv zeta
  end.
Ltac calls := repeat calls_step; eauto with calls.

(** A computation that only reads. *)
Lemma makes_read {C A} (Q : C -> Prop) (f : list C -> error + A) : makes_only Q (fun h => (h, f h)).
Proof. intros h. exists []. by rewrite app_nil_r. Qed.
#[export] Hint Resolve makes_read : calls.

(** A loop whose bodies succeed makes their calls one after the other. *)
Lemma pfor_succeeds {C X} (xs : list X) (body : X -> P C unit) (f : X -> list C) h :
  (forall x h, x ∈ xs -> body x h = (h ++ f x, inr tt)) -> pfor xs body h = (h ++ (xs ≫= f), inr tt).
Proof.
  revert h. induction xs as [|x xs IH]; intros h Hb; [cbn; by rewrite app_nil_r|]. cbn [pfor]. unfold pbind. rewrite Hb by (by left).
  rewrite IH by (intros y h' Hy; apply Hb; by right). cbn. by rewrite app_assoc.
Qed.

(** In a loop that ends, every body has run, and what it called is among the calls. *)
Lemma pfor_ran {C X} (xs : list X) (body : X -> P C unit) h x :
  (forall y, y ∈ xs -> makes_only (fun _ => True) (body y)) -> (pfor xs body h).2 = inr tt -> x ∈ xs ->
  exists h', (body x h').2 = inr tt /\ forall c, c ∈ (body x h').1 -> c ∈ (pfor xs body h).1.
Proof.
  revert h. induction xs as [|y xs IH]; intros h Hm Hr Hx; [by apply elem_of_nil in Hx|]. cbn [pfor] in *. unfold pbind in *.
  destruct (body y h) as [h1 [err|[]]] eqn:Ey; [done|]. apply elem_of_cons in Hx as [->|Hx].
  - exists h. rewrite Ey. split; [done|]. intros c Hc. cbn in Hc. destruct (makes_for (fun _ => True) xs body ltac:(intros z Hz; apply Hm; by right) h1) as (new & -> & _). apply elem_of_app. by left.
  - apply IH; [intros z Hz; apply Hm; by right|done|done].
Qed.

(** ** Computations that end in no error *)

Definition steady {C A} (m : P C A) : Prop := forall h, exists new x, m h = (h ++ new, inr x).
Lemma steady_ret {C A} (x : A) : steady (C := C) (pret x).
Proof. intros h. exists [], x. by rewrite app_nil_r. Qed.
Lemma steady_perform {C A} (answer : list C -> C -> A) c : steady (perform answer c).
Proof. intros h. by exists [c], (answer h c). Qed.
Lemma steady_bind {C A B} (m : P C A) (k : A -> P C B) : steady m -> (forall x, steady (k x)) -> steady (pbind m k).
Proof.
  intros Hm Hk h. destruct (Hm h) as (n1 & x & E1). destruct (Hk x (h ++ n1)) as (n2 & y & E2). exists (n1 ++ n2), y. unfold pbind. by rewrite E1, E2, app_assoc.
Qed.
Lemma steady_for {C X} (xs : list X) (body : X -> P C unit) : (forall x, steady (body x)) -> steady (pfor xs body).
Proof. intros Hb. induction xs as [|x xs IH]; [apply steady_ret|]. by apply steady_bind. Qed.
Lemma steady_fold {C X S} (body : S -> X -> P C S) s xs : (forall s x, steady (body s x)) -> steady (pfold body s xs).
Proof. intros Hb. revert s. induction xs as [|x xs IH]; intros s; [apply steady_ret|]. by apply steady_bind. Qed.
#[export] Hint Resolve steady_ret steady_perform steady_bind steady_for steady_fold : calls.
(** A computation that looks at the calls made so far. *)
Lemma steady_history {C A} (f : list C -> P C A) : (forall g, steady (f g)) -> steady (fun h => f h h).
Proof. intros Hf h. apply Hf. Qed.
Lemma makes_history {C A} (Q : C -> Prop) (f : list C -> P C A) : (forall g, makes_only Q (f g)) -> makes_only Q (fun h => f h h).
Proof. intros Hf h. apply Hf. Qed.
Ltac steady_step :=
  match goal with
  | |- steady (pret _) => apply steady_ret
  | |- steady (perform _ _) => apply steady_perform
  | |- steady (pbind _ _) => apply steady_bind; [|intros ?]
  | |- steady (pfor _ _) => apply steady_for; intros ?
  | |- steady (pfold _ _ _) => apply steady_fold; intros ? ?
  | |- steady (match ?x with _ => _ end) => destruct x
  | |- steady (let _ := _ in _) => cbv zeta
  end.
Ltac steady := repeat steady_step; eauto with calls.

(** What was called stays called. *)
Lemma steady_keeps {C A} (m : P C A) h c : steady m -> c ∈ h -> c ∈ (m h).1.
Proof. intros Hm Hc. destruct (Hm h) as (new & x & ->). apply elem_of_app. by left. Qed.
Lemma pfold_ran {C X S} (body : S -> X -> P C S) s xs h x :
  (forall s x, steady (body s x)) -> x ∈ xs -> exists s' h', forall c, c ∈ (body s' x h').1 -> c ∈ (pfold body s xs h).1.
Proof.
  intros Hb. revert s h. induction xs as [|y xs IH]; intros s h Hx; [by apply elem_of_nil in Hx|]. cbn [pfold]. unfold pbind at 1.
  destruct (Hb s y h) as (new & s1 & E). rewrite E. apply elem_of_cons in Hx as [->|Hx]; [|by apply IH]. exists s, h. rewrite E. intros c Hc.
  apply steady_keeps; [by apply steady_fold|done].
Qed.

(** ** Computations that ended in a value *)

Lemma pbind_ok {C A B} (m : P C A) (k : A -> P C B) h h2 y : pbind m k h = (h2, inr y) -> exists h1 x, m h = (h1, inr x) /\ k x h1 = (h2, inr y).
Proof. unfold pbind. destruct (m h) as [h1 [err|x]]; [done|]. intros E. by exists h1, x. Qed.
Lemma pbind_run {C A B} (m : P C A) (k : A -> P C B) h h1 x : m h = (h1, inr x) -> pbind m k h = k x h1.
Proof. unfold pbind. by intros ->. Qed.
Lemma plift_ok {C A} (r : error + A) (h h' : list C) x : plift r h = (h', inr x) -> h' = h /\ r = inr x.
Proof. by intros [= -> ->]. Qed.
Lemma pret_ok {C A} (x y : A) (h h' : list C) : pret x h = (h', inr y) -> h' = h /\ x = y.
Proof. by intros [= -> ->]. Qed.
Lemma makes_grows {C A} (m : P C A) h h' r c : makes_only (fun _ => True) m -> m h = (h', r) -> c ∈ h -> c ∈ h'.
Proof. intros Hm E Hc. destruct (Hm h) as (new & E' & _). rewrite E in E'. cbn in E'. rewrite E'. apply elem_of_app. by left. Qed.
(** Takes apart a computation that ended in a value, first step first. *)
Ltac run_step H :=
  match type of H with
  | pbind _ _ _ = (_, inr _) => let h := fresh "h" in let x := fresh "x" in let E := fresh "E" in apply pbind_ok in H as (h & x & E & H)
  | plift _ _ = (_, inr _) => apply plift_ok in H as [-> H]
  | pret _ _ = (_, inr _) => apply pret_ok in H as [-> H]
  end.
