(* ===== verification/CsvCopies.v ===== *)
(** * Copies of a CSV in the namespaces its operator watches

    Models what [controller/operators/olm/operatorgroup.go] and [operator.go] do so that every target namespace of an
    operator group shows the operators that watch it: [syncCopyCSV] with [ensureCSVsInNamespaces], [copyToNamespace]
    and [pruneFromNamespace], the roles of an operator in a target namespace ([ensureTenantRBAC]) or in all of them
    ([ensureRBACInTargetNamespace], [ensureSingletonRBAC]), the garbage collection of copies
    ([removeDanglingChildCSVs]) and the configuration that switches copying off ([syncOLMConfig]).

    Handlers are computations on calls (ClusterCalls.v); caches and answers are the environment [CopyEnv].  The
    prototype of the copies, which the source mutates for each namespace, is a value whose namespace, resource version
    and UID are set for each copy. *)

From S2P Require Import Prelude GoStrings RbacRules RbacAuthorizer OwnerUtil CatalogModel ResolverCache CsvTypes OperatorGroups Requirements OperatorRbac ClusterCalls.
#[local] Open Scope p_scope.

(** ** Data *)

(** [metav1.PartialObjectMetadata] *)
Record Meta := mkMeta { mt_obj : Object; mt_Annotations : option (gmap string string); mt_ResourceVersion : string }.
Definition mt_Name (m : Meta) : string := OName (mt_obj m).
Definition mt_Namespace (m : Meta) : string := ONamespace (mt_obj m).
Definition mt_annotation (m : Meta) (key : string) : string := default "" (annotation (mt_Annotations m) key).

Record CopyEvent := mkCopyEvent { cev_Namespace : string; cev_Name : string; cev_ObjNamespace : string; cev_ObjName : string; cev_ObjUID : string; cev_Reason : string }.

(** [metav1.Condition] without its time. *)
Record StatusCondition := mkStatusCondition { sc_Type : string; sc_Status : string; sc_Reason : string; sc_Message : string }.
#[export] Instance StatusCondition_eq_dec : EqDecision StatusCondition.
Proof. solve_decision. Defined.
(** [OLMConfig]; [Features] and [DisableCopiedCSVs] are pointers. *)
Record OLMConfig := mkOLMConfig { oc_Name : string; oc_Features : option (option bool); oc_StatusConditions : list StatusCondition }.
Definition CopiedCSVsAreEnabled (config : OLMConfig) : bool := match oc_Features config with Some (Some disable) => negb disable | _ => true end.

Inductive CopyCall :=
  | KCreateCSV (ns : string) (c : CSV) | KUpdateCSV (ns : string) (c : CSV) (resourceVersion : string) | KUpdateCSVStatus (ns : string) (c : CSV) | KDeleteCSV (ns name : string)
  | KCreateRole (r : RbacRole) | KUpdateRole (r : RbacRole) | KCreateRoleBinding (b : RbacBinding)
  | KCreateClusterRole (r : RbacRole) | KCreateClusterRoleBinding (b : RbacBinding)
  | KRequeueGC (ns name : string) | KRequeueCSV (ns name : string) | KRequeueOLMConfig (name : string)
  | KDeleteEvent (ns name : string) | KEmitEvent (reason message : string) (c : CSV)
  | KUpdateOLMConfigStatus (config : OLMConfig).

Record CopyEnv := mkCopyEnv {
  ke_cluster : Cluster;
  ke_namespaces : error + list (string * bool);
  ke_copied : string -> error + list Meta;
  ke_copiedGet : string -> string -> error + Meta;
  ke_copiedFrom : string -> error + list Meta;
  ke_csvLister : string -> string -> error + CSV;
  ke_originals : string -> error + list CSV;
  ke_roles : string -> error + list RbacRole;
  ke_roleBindings : string -> error + list RbacBinding;
  ke_clusterRole : string -> error + RbacRole;
  ke_clusterRoleBinding : string -> error + RbacBinding;
  ke_group : string -> string -> error + OperatorGroup;
  ke_groups : error + list OperatorGroup;
  ke_olmConfig : list CopyCall -> error + OLMConfig;
  ke_events : list CopyCall -> string -> error + list CopyEvent;
  ke_protected : gset string;
  ke_csv : list CopyCall -> CopyCall -> error + CSV;
  ke_do : list CopyCall -> CopyCall -> option error;
}.

(** [spew] of a CSV and of a status, which [DeepHashObject] hashes. *)
Class CopyLib := { encodeCSV : CSV -> error + string; encodeStatus : CSVStatus -> error + string }.

Definition nonstatusKey : string := "$copyhash-nonstatus".
Definition statusKey : string := "$copyhash-status".
Definition CSVKind : string := "ClusterServiceVersion".
Definition olmManagedKey : string := "olm.managed".
Definition zeroStatus : CSVStatus := mkCSVStatus "" "" "" None None [] [] None None.
Definition DisabledCopiedCSVsConditionType : string := "DisabledCopiedCSVs".
Definition ViewVerbs : list string := ["get"; "list"; "watch"].

(** The objects that the selector [CSVOwnerSelector(csv)] selects. *)
Definition ownedBy {A} (meta : A -> Object) (csv : CSV) (objs : list A) : list A :=
  List.filter (fun o => selects (OwnerLabel (csv_obj csv) CSVKind) (meta o)) objs.

Section copies.
Context `{RangeOrder, RequirementLib, RbacLib, CopyLib} (env : CopyEnv).
Abbreviation P := (P CopyCall).

Definition do (c : CopyCall) : P unit := check (perform (ke_do env) c).

(** ** Copying a CSV *)

Definition copyableCSVHash (original : CSV) : error + string * string :=
  let shallow := mkCSV (mkObj TClusterServiceVersion noGVK (csv_Name original) "" "" [] (Labels (csv_obj original))) (csv_Annotations original) (csv_Spec original) zeroStatus in
  match DeepHashObject (encodeCSV shallow) with
  | inl err => inl err
  | inr newHash => match DeepHashObject (encodeStatus (csv_Status original)) with inl err => inl err | inr originalHash => inr (newHash, originalHash) end
  end.

(** [prototype.Namespace = ns; prototype.UID = uid] *)
Definition inPlace (prototype : CSV) (ns uid : string) : CSV :=
  let o := csv_obj prototype in
  mkCSV (mkObj (OType o) (OGVK o) (OName o) ns uid (OwnerRefs o) (Labels o)) (csv_Annotations prototype) (csv_Spec prototype) (csv_Status prototype).
(** The CSV that is returned: only its name, namespace and UID. *)
Definition identity (c : CSV) : Object := mkObj TClusterServiceVersion noGVK (csv_Name c) (csv_Namespace c) (OUID (csv_obj c)) [] None.

Definition copyToNamespace (prototype : CSV) (nsFrom nsTo nonstatus status : string) : P Object :=
  if bool_decide (nsFrom = nsTo) then pfail (ErrString ("bug: can not copy to active namespace " +:+ nsFrom))
  else
    match ke_copiedGet env nsTo (csv_Name prototype) with
    | inl err =>
        if IsNotFound (Some err) then
          let! created := perform (ke_csv env) (KCreateCSV nsTo (inPlace prototype nsTo "")) in
          let! created := orWrapErr "failed to create new CSV" created in
          let! updated := perform (ke_csv env) (KUpdateCSVStatus nsTo (setStatus created (csv_Status prototype))) in
          run! orWrapErr "failed to update status on new CSV" updated in
          pret (identity created)
        else pfail err
    | inr existing =>
        let prototype := inPlace prototype (mt_Namespace existing) (OUID (mt_obj existing)) in
        let! updated :=
          if bool_decide (mt_annotation existing nonstatusKey = nonstatus) then pret prototype
          else let! updated := perform (ke_csv env) (KUpdateCSV nsTo prototype (mt_ResourceVersion existing)) in orWrapErr "failed to update" updated in
        run! if bool_decide (mt_annotation existing statusKey = status) then pret tt
             else let! r := perform (ke_csv env) (KUpdateCSVStatus nsTo (setStatus updated (csv_Status prototype))) in
                  run! orWrapErr "failed to update status" r in pret tt in
        pret (identity updated)
    end.

Definition pruneFromNamespace (operatorGroupName namespace : string) : P unit :=
  let! fetchedCSVs := plift (ke_copied env namespace) in
  pfor fetchedCSVs (fun csv =>
    if IsCopiedObject (mt_Namespace csv) (mt_Annotations csv) (Labels (mt_obj csv)) && bool_decide (mt_annotation csv OperatorGroupAnnotationKey = operatorGroupName)
    then do (KRequeueGC (mt_Namespace csv) (mt_Name csv)) else pret tt).

(** ** The roles of an operator in a target namespace *)

(** The metadata of a copied role or binding. *)
Definition tenantMeta (o : Object) (operatorNamespace targetNamespace : string) (targetCSV : Object) : error + Object :=
  match AddOwnerLabels (mkObj (OType o) (OGVK o) (OName o) targetNamespace (OUID o) [NonBlockingOwner targetCSV] (Labels o)) targetCSV with
  | None => inl (ErrString "couldn't infer kind")
  | Some o => inr (SetLabels o (<[olmManagedKey := "true"]> (<[CopiedLabelKey := operatorNamespace]> (default ∅ (Labels o)))))
  end.

Definition byName {A} (meta : A -> Object) (objs : list A) : gmap string A := foldl (fun m o => <[OName (meta o) := o]> m) ∅ objs.

Definition ensureTenantRole (operatorNamespace targetNamespace : string) (csv : CSV) (targetCSV : Object) (targetRolesByName : gmap string RbacRole) (ownedRole : RbacRole) : P unit :=
  if negb (IsOwnedBy (ro_obj ownedRole) (csv_obj csv)) then pret tt
  else
    match targetRolesByName !! OName (ro_obj ownedRole) with
    | Some existing => do (KUpdateRole (mkRbacRole (ro_obj existing) (ro_Rules ownedRole)))
    | None => let! meta := plift (tenantMeta (ro_obj ownedRole) operatorNamespace targetNamespace targetCSV) in do (KCreateRole (mkRbacRole meta (ro_Rules ownedRole)))
    end.

Definition ensureTenantBinding (operatorNamespace targetNamespace : string) (csv : CSV) (targetCSV : Object) (targetRoleBindingsByName : gmap string RbacBinding) (b : RbacBinding) : P unit :=
  if negb (IsOwnedBy (rb_obj b) (csv_obj csv)) then pret tt
  else
    match targetRoleBindingsByName !! OName (rb_obj b) with
    | Some _ => pret tt
    | None => let! meta := plift (tenantMeta (rb_obj b) operatorNamespace targetNamespace targetCSV) in do (KCreateRoleBinding (mkRbacBinding meta (rb_RoleRef b) (rb_Subjects b)))
    end.

(** The selector of the target CSV has its name, namespace and kind. *)
Definition selectedFor {A} (meta : A -> Object) (targetCSV : Object) (objs : list A) : list A := List.filter (fun o => selects (OwnerLabel targetCSV CSVKind) (meta o)) objs.

Definition ensureTenantRBAC (operatorNamespace targetNamespace : string) (csv : CSV) (targetCSV : Object) : P unit :=
  if bool_decide (operatorNamespace = targetNamespace) then pret tt
  else
    let! roles := plift (ke_roles env operatorNamespace) in
    let ownedRoles := ownedBy ro_obj csv roles in
    if (length ownedRoles =? 0)%nat then pfail (ErrString "owned roles not found in cache")
    else
      let! targetRoles := plift (ke_roles env targetNamespace) in
      run! pfor ownedRoles (ensureTenantRole operatorNamespace targetNamespace csv targetCSV (byName ro_obj (selectedFor ro_obj targetCSV targetRoles))) in
      let! bindings := plift (ke_roleBindings env operatorNamespace) in
      let! targetBindings := plift (ke_roleBindings env targetNamespace) in
      pfor (ownedBy rb_obj csv bindings) (ensureTenantBinding operatorNamespace targetNamespace csv targetCSV (byName rb_obj (selectedFor rb_obj targetCSV targetBindings))).

(** ** Copies in all target namespaces *)

Definition permMet (strategy : StrategyDetailsDeployment) (ns : string) (csv : CSV) : error + bool :=
  match permissionStatus (ke_cluster env) strategy ns csv with inl err => inl err | inr (met, _) => inr met end.

Definition tenantNamespace (operatorGroup : OperatorGroup) (csv : CSV) (targetCSVs : gmap string Object) (ns : string) : P unit :=
  let! met := plift (permMet (ns_StrategySpec (spec_InstallStrategy (csv_Spec csv))) ns csv) in
  if met : bool then pret tt
  else
    match targetCSVs !! ns with
    | None => pfail (ErrString ("bug: no target CSV for namespace " +:+ ns))
    | Some targetCSV => ensureTenantRBAC (og_Namespace operatorGroup) ns csv targetCSV
    end.

(** Copies to one namespace, or prunes from it; errors are logged. *)
Definition copyOrPrune (csv : CSV) (operatorGroup : OperatorGroup) (targets : NamespaceSet) (nonstatus status : string) (targetCSVs : gmap string Object) (ns : string)
    : P (gmap string Object) :=
  if bool_decide (ns = og_Namespace operatorGroup) then pret targetCSVs
  else if Contains targets ns then
    let! copied := attempt (copyToNamespace (csvCopyPrototype csv) (csv_Namespace csv) ns nonstatus status) in
    pret (match copied with inl _ => targetCSVs | inr targetCSV => <[ns := targetCSV]> targetCSVs end)
  else run! attempt (pruneFromNamespace (og_Name operatorGroup) ns) in pret targetCSVs.

Definition ensureCSVsInNamespaces (csv : CSV) (operatorGroup : OperatorGroup) (targets : NamespaceSet) : P unit :=
  let! namespaces := plift (ke_namespaces env) in
  let! hashes := plift (copyableCSVHash (csvCopyPrototype csv)) in
  let! targetCSVs := pfold (copyOrPrune csv operatorGroup targets hashes.1 hashes.2) ∅ namespaces.*1 in
  match og_StatusNamespaces operatorGroup with
  | None => pret tt
  | Some targetNamespaces => if bool_decide (targetNamespaces = [NamespaceAll]) then pret tt else pfor targetNamespaces (tenantNamespace operatorGroup csv targetCSVs)
  end.

(** ** Events that say that copying is disabled *)

Definition getCopiedCSVDisabledEventsForCSV (csv : CSV) : P (list CopyEvent) := fun h =>
  (h, match ke_events env h (csv_Namespace csv) with
      | inl err => inl err
      | inr events => inr (List.filter (fun e => bool_decide (cev_ObjNamespace e = csv_Namespace csv) && bool_decide (cev_ObjName e = csv_Name csv)
                             && bool_decide (cev_ObjUID e = OUID (csv_obj csv)) && bool_decide (cev_Reason e = DisabledCopiedCSVsConditionType)) events)
      end).

(** [if err != nil && !apierrors.IsNotFound(err) { return err }] *)
Definition doUnlessGone (c : CopyCall) : P unit :=
  let! err := perform (ke_do env) c in
  match err with Some e => if IsNotFound (Some e) then pret tt else pfail e | None => pret tt end.

Definition deleteEvents (events : list CopyEvent) : P unit := pfor events (fun e => doUnlessGone (KDeleteEvent (cev_Namespace e) (cev_Name e))).
Definition deleteCSVCopyingDisabledEvent (csv : CSV) : P unit := let! events := getCopiedCSVDisabledEventsForCSV csv in deleteEvents events.
Definition createCSVCopyingDisabledEvent (csv : CSV) : P unit :=
  let! events := getCopiedCSVDisabledEventsForCSV csv in
  if (length events =? 1)%nat then pret tt
  else
    run! if (1 <? length events)%nat then deleteEvents events else pret tt in
    run! perform (ke_do env) (KEmitEvent DisabledCopiedCSVsConditionType ("CSV copying disabled for " +:+ csv_Namespace csv +:+ "/" +:+ csv_Name csv) csv) in
    pret tt.

(** ** Syncing copies *)

Definition operatorGroupFromAnnotations (csv : CSV) : option OperatorGroup :=
  annotations ← csv_Annotations csv;
  if bool_decide (default "" (annotations !! OperatorGroupNamespaceAnnotationKey) <> csv_Namespace csv) then None
  else
    operatorGroupName ← annotations !! OperatorGroupAnnotationKey;
    match ke_group env (csv_Namespace csv) operatorGroupName with
    | inl _ => None
    | inr operatorGroup =>
        targets ← annotations !! OperatorGroupTargetsAnnotationKey;
        if bool_decide (targets <> BuildTargetNamespaces operatorGroup) then None else Some operatorGroup
    end.

Definition copiedCSVsAreEnabled : P bool := fun h =>
  (h, match ke_olmConfig env h with
      | inl err => if IsNotFound (Some err) then inr true else inl err
      | inr config => inr (CopiedCSVsAreEnabled config)
      end).

(** Copies are kept in the protected namespaces only. *)
Definition copyToProtected (csv : CSV) (operatorGroup : OperatorGroup) : P unit :=
  let! copiedCSVs := plift (ke_copiedFrom env (csv_Namespace csv)) in
  run! ensureCSVsInNamespaces csv operatorGroup (ke_protected env ∖ {[ csv_Namespace csv ]}) in
  run! pfor copiedCSVs (fun copiedCSV =>
         if bool_decide (mt_Namespace copiedCSV ∈ ke_protected env) then pret tt else doUnlessGone (KDeleteCSV (mt_Namespace copiedCSV) (mt_Name copiedCSV))) in
  createCSVCopyingDisabledEvent csv.

Definition syncCopyCSV (csv : CSV) : P unit := fun h =>
  (let! _ := match ke_olmConfig env h with
             | inl err => if IsNotFound (Some err) then pret tt else pfail err
             | inr config => run! perform (ke_do env) (KRequeueOLMConfig (oc_Name config)) in pret tt
             end in
   match operatorGroupFromAnnotations csv with
   | None => pfail (ErrString ("operatorGroup for csv '" +:+ csv_Name csv +:+ "' should have annotations"))
   | Some operatorGroup =>
       let! enabled := copiedCSVsAreEnabled in
       let namespaceSet := NewNamespaceSet (og_Namespaces operatorGroup) in
       if enabled || negb (IsAllNamespaces namespaceSet) then
         let! copied := attempt (ensureCSVsInNamespaces csv operatorGroup namespaceSet) in
         run! if IsAllNamespaces namespaceSet then deleteCSVCopyingDisabledEvent csv else pret tt in
         plift copied
       else copyToProtected csv operatorGroup
   end) h.

(** ** Garbage collection *)

Definition deleteChild (csv : Meta) : P unit := do (KDeleteCSV (mt_Namespace csv) (mt_Name csv)).

(** A lister that fails returns no parent. *)
Definition removeDanglingChildCSVs (csv : Meta) : P unit :=
  if negb (IsCopiedObject (mt_Namespace csv) (mt_Annotations csv) (Labels (mt_obj csv))) then pret tt
  else
    match annotation (mt_Annotations csv) OperatorGroupNamespaceAnnotationKey with
    | None => deleteChild csv
    | Some operatorNamespace =>
        match ke_csvLister env operatorNamespace (mt_Name csv) with
        | inl _ => deleteChild csv
        | inr parent =>
            if bool_decide (csv_Phase parent = CSVPhaseFailed) && bool_decide (csv_Reason parent = CSVReasonInterOperatorGroupOwnerConflict) then deleteChild csv
            else if match csv_Annotations parent with
                    | Some annotations => negb (Contains (NewNamespaceSetFromString (default "" (annotations !! OperatorGroupTargetsAnnotationKey))) (mt_Namespace csv))
                    | None => false
                    end then deleteChild csv
            else if bool_decide (csv_Namespace parent = mt_Namespace csv) then deleteChild csv
            else pret tt
        end
    end.

Definition syncGcCsv (csv : Meta) : P unit :=
  if IsCopiedObject (mt_Namespace csv) (mt_Annotations csv) (Labels (mt_obj csv)) then removeDanglingChildCSVs csv else pret tt.

(** ** Cluster-wide roles of an operator whose group targets all namespaces *)

Definition clusterRoleFrom (r : RbacRole) : RbacRole :=
  let o := ro_obj r in
  mkRbacRole (mkObj TClusterRole (mkGVK (OwnerUtil.Group (OGVK o)) (OwnerUtil.Version (OGVK o)) "ClusterRole") (OName o) "" "" [] (Labels o))
    (ro_Rules r ++ [mkRule ViewVerbs [""] ["namespaces"] [] None]).
Definition clusterRoleBindingFrom (b : RbacBinding) : RbacBinding :=
  let o := rb_obj b in
  mkRbacBinding (mkObj TClusterRoleBinding (mkGVK (OwnerUtil.Group (OGVK o)) (OwnerUtil.Version (OGVK o)) "ClusterRoleBinding") (OName o) "" "" [] (Labels o))
    (mkRoleRef "ClusterRole" (RefName (rb_RoleRef b))) (rb_Subjects b).

Definition ensureSingletonRBAC (operatorNamespace : string) (csv : CSV) : P unit :=
  let! roles := plift (ke_roles env operatorNamespace) in
  let ownedRoles := ownedBy ro_obj csv roles in
  if (length ownedRoles =? 0)%nat then pfail (ErrString "no owned roles found")
  else
    run! pfor ownedRoles (fun r => match ke_clusterRole env (OName (ro_obj r)) with inr _ => pret tt | inl _ => do (KCreateClusterRole (clusterRoleFrom r)) end) in
    let! bindings := plift (ke_roleBindings env operatorNamespace) in
    let ownedRoleBindings := ownedBy rb_obj csv bindings in
    if (length ownedRoleBindings =? 0)%nat then pfail (ErrString "no owned rolebindings found")
    else pfor ownedRoleBindings (fun r =>
           match ke_clusterRoleBinding env (OName (rb_obj r)) with inr _ => pret tt | inl _ => do (KCreateClusterRoleBinding (clusterRoleBindingFrom r)) end).

Definition ensureRBACInTargetNamespace (csv : CSV) (operatorGroup : OperatorGroup) : P unit :=
  match og_StatusNamespaces operatorGroup with
  | None => pret tt
  | Some targetNamespaces =>
      let! strategy := plift (UnmarshalStrategy (spec_InstallStrategy (csv_Spec csv))) in
      if bool_decide (targetNamespaces = [NamespaceAll]) then
        let strategy := mkStrategy (sd_DeploymentSpecs strategy) [] (sd_ClusterPermissions strategy ++ sd_Permissions strategy) in
        let! met := plift (permMet strategy NamespaceAll csv) in
        if met : bool then pret tt else ensureSingletonRBAC (og_Namespace operatorGroup) csv
      else pret tt
  end.

(** ** Switching copies off (OLMConfig) *)

Definition allNamespaceOperatorGroups : error + list OperatorGroup :=
  match ke_groups env with
  | inl err => inl err
  | inr groups => inr (List.filter (fun g => IsAllNamespaces (NewNamespaceSet (og_Namespaces g))) groups)
  end.

Definition expectedCopiedCSVCount (namespaces : list (string * bool)) : Z := (-1 + Z.of_nat (length (List.filter snd namespaces)))%Z.
Definition getCopiedCSVEvaluatorFunc (copiedCSVsEnabled : bool) (namespaces : list (string * bool)) (protected : gset string) (m : gset string) : bool :=
  if copiedCSVsEnabled then bool_decide (expectedCopiedCSVCount namespaces = Z.of_nat (size m))
  else if negb (size protected =? size m)%nat then false
  else forallb (fun ns => bool_decide (ns ∈ m)) (elements protected).

Definition FindStatusConditionOf (conditions : list StatusCondition) (type : string) : option StatusCondition := List.find (fun c => bool_decide (sc_Type c = type)) conditions.
Definition isStatusConditionPresentAndAreTypeReasonMessageStatusEqual (conditions : list StatusCondition) (condition : StatusCondition) : bool :=
  match FindStatusConditionOf conditions (sc_Type condition) with
  | None => false
  | Some found => bool_decide (sc_Type found = sc_Type condition) && bool_decide (sc_Reason found = sc_Reason condition)
                  && bool_decide (sc_Message found = sc_Message condition) && bool_decide (sc_Status found = sc_Status condition)
  end.
(** [meta.SetStatusCondition] *)
Definition SetStatusCondition (conditions : list StatusCondition) (new : StatusCondition) : list StatusCondition :=
  match FindStatusConditionOf conditions (sc_Type new) with
  | None => conditions ++ [new]
  | Some _ => (fix replace l := match l with [] => [] | c :: l => if bool_decide (sc_Type c = sc_Type new) then new :: l else c :: replace l end) conditions
  end.

Definition getCopiedCSVsCondition (enabled csvIsRequeued : bool) : StatusCondition :=
  if enabled then
    mkStatusCondition DisabledCopiedCSVsConditionType "False" "CopiedCSVsEnabled"
      (if csvIsRequeued then "Copied CSVs are enabled and at least one copied CSVs is missing" else "Copied CSVs are enabled and present across the cluster")
  else if csvIsRequeued then
    mkStatusCondition DisabledCopiedCSVsConditionType "False" "CopiedCSVsDisabled"
      "Copied CSVs are disabled and at least one unexpected copied CSV was found for an operator installed in AllNamespace mode"
  else
    mkStatusCondition DisabledCopiedCSVsConditionType "True" "CopiedCSVsDisabled"
      "Copied CSVs are disabled and no unexpected copied CSVs were found for operators installed in AllNamespace mode".

(** Where the copies of each CSV are. *)
Definition copiedCSVNamespaces (copiedCSVs : list Meta) : gmap string (gset string) :=
  foldl (fun m c => <[mt_Name c := default ∅ (m !! mt_Name c) ∪ {[ mt_Namespace c ]}]> m) ∅ copiedCSVs.

(** A CSV whose copies are not where they should be is requeued; an error of the queue is logged. *)
Definition requeueIfMisplaced (olmConfig : OLMConfig) (namespaces : list (string * bool)) (copiedCSVs : list Meta) (csvIsRequeued : bool) (csv : CSV) : P bool :=
  if getCopiedCSVEvaluatorFunc (CopiedCSVsAreEnabled olmConfig) namespaces (ke_protected env) (default ∅ (copiedCSVNamespaces copiedCSVs !! csv_Name csv)) then pret csvIsRequeued
  else run! perform (ke_do env) (KRequeueCSV (csv_Namespace csv) (csv_Name csv)) in pret true.

Definition requeueMisplaced (olmConfig : OLMConfig) (csvIsRequeued : bool) (og : OperatorGroup) : P bool :=
  let! copiedCSVs := plift (ke_copiedFrom env (og_Namespace og)) in
  let! csvs := plift (ke_originals env (og_Namespace og)) in
  let! namespaces := plift (ke_namespaces env) in
  pfold (requeueIfMisplaced olmConfig namespaces copiedCSVs) csvIsRequeued csvs.

Definition syncOLMConfig (olmConfig : OLMConfig) : P unit :=
  let! groups := plift allNamespaceOperatorGroups in
  let! csvIsRequeued := pfold (requeueMisplaced olmConfig) false groups in
  let condition := getCopiedCSVsCondition (CopiedCSVsAreEnabled olmConfig) csvIsRequeued in
  if isStatusConditionPresentAndAreTypeReasonMessageStatusEqual (oc_StatusConditions olmConfig) condition then pret tt
  else do (KUpdateOLMConfigStatus (mkOLMConfig (oc_Name olmConfig) (oc_Features olmConfig) (SetStatusCondition (oc_StatusConditions olmConfig) condition))).
End copies.

(** ** What a cluster looks like after calls *)

(** The CSVs of a cluster.  The API server keeps the status of an object apart from the rest. *)
Abbreviation Store := (gmap (string * string) CSV).
Definition effect (s : Store) (c : CopyCall) : Store :=
  match c with
  | KCreateCSV ns x => <[(ns, csv_Name x) := setStatus x zeroStatus]> s
  | KUpdateCSV ns x _ => match s !! (ns, csv_Name x) with Some old => <[(ns, csv_Name x) := setStatus x (csv_Status old)]> s | None => s end
  | KUpdateCSVStatus ns x => match s !! (ns, csv_Name x) with Some old => <[(ns, csv_Name x) := setStatus old (csv_Status x)]> s | None => s end
  | KDeleteCSV ns name => delete (ns, name) s
  | _ => s
  end.
Definition after (s : Store) (calls : list CopyCall) : Store := foldl effect s calls.
Lemma after_app s a b : after s (a ++ b) = after (after s a) b.
Proof. apply foldl_app. Qed.

Definition changes_no_csv (c : CopyCall) : Prop := match c with KCreateCSV _ _ | KUpdateCSV _ _ _ | KUpdateCSVStatus _ _ | KDeleteCSV _ _ => False | _ => True end.
Lemma after_no_csv s calls : Forall changes_no_csv calls -> after s calls = s.
Proof. intros Hc. revert s. induction Hc as [|c calls Hc _ IH]; intros s; [done|]. cbn. destruct c; try done; apply IH. Qed.

(** The copy of a CSV that belongs in a namespace: everything but its UID. *)
Definition is_copy (csv : CSV) (ns : string) (x : CSV) : Prop :=
  let prototype := csvCopyPrototype csv in
  csv_Name x = csv_Name csv /\ csv_Namespace x = ns /\ Labels (csv_obj x) = Labels (csv_obj prototype) /\ csv_Annotations x = csv_Annotations prototype /\
  csv_Spec x = csv_Spec csv /\ csv_Status x = csv_Status prototype.

Section facts.
Context `{RangeOrder, RequirementLib, RbacLib, CopyLib} (env : CopyEnv).
Context (csv : CSV) (group : OperatorGroup).
Abbreviation name := (csv_Name csv).

(** The API server answers writes of CSVs with the object, and the cache of copies shows what is stored. *)
Definition api_accepts : Prop := forall h c, match c with KCreateCSV _ x | KUpdateCSV _ x _ | KUpdateCSVStatus _ x => exists r, ke_csv env h c = inr r /\ csv_Name r = csv_Name x | _ => True end.
Definition cache_shows (s : Store) (ns : string) : Prop :=
  match s !! (ns, name) with
  | None => exists err, ke_copiedGet env ns name = inl err /\ IsNotFound (Some err) = true
  | Some x => exists rv, ke_copiedGet env ns name = inr (mkMeta (csv_obj x) (csv_Annotations x) rv) /\ csv_Namespace x = ns /\ csv_Name x = name
  end.
(** A hash in the annotations of a copy is the hash of what the copy has. *)
Definition hashes_honest (s : Store) (nonstatus status : string) (ns : string) : Prop :=
  forall x, s !! (ns, name) = Some x ->
    (default "" (annotation (csv_Annotations x) nonstatusKey) = nonstatus -> is_copy csv ns (setStatus x (csv_Status (csvCopyPrototype csv)))) /\
    (default "" (annotation (csv_Annotations x) statusKey) = status -> csv_Status x = csv_Status (csvCopyPrototype csv)).

Lemma is_copy_inPlace ns uid : is_copy csv ns (inPlace (csvCopyPrototype csv) ns uid).
Proof. by repeat split. Qed.

Lemma status_effect s ns x old : csv_Name x = name -> s !! (ns, name) = Some old -> effect s (KUpdateCSVStatus ns x) = <[(ns, name) := setStatus old (csv_Status x)]> s.
Proof. intros Hn Ho. cbn. by rewrite Hn, Ho. Qed.
Lemma insert_twice_ne (s : Store) k a b k' : k' <> k -> <[k := b]> (<[k := a]> s) !! k' = s !! k'.
Proof. intros Hk. by rewrite !lookup_insert_ne by congruence. Qed.

Lemma create_effect s ns created :
  csv_Name created = name -> let prototype := inPlace (csvCopyPrototype csv) ns "" in
  let s' := after s [KCreateCSV ns prototype; KUpdateCSVStatus ns (setStatus created (csv_Status prototype))] in
  (exists x, s' !! (ns, name) = Some x /\ is_copy csv ns x) /\ forall k, k <> (ns, name) -> s' !! k = s !! k.
Proof.
  intros Hn prototype s'. unfold s', after. cbn [foldl]. change (effect s (KCreateCSV ns prototype)) with (<[(ns, name) := setStatus prototype zeroStatus]> s).
  rewrite (status_effect _ _ _ (setStatus prototype zeroStatus)); [|done|apply lookup_insert_eq]. split; [|intros k Hk; by apply insert_twice_ne].
  eexists. split; [apply lookup_insert_eq|]. by repeat split.
Qed.

(** The object and the status are updated, each unless its hash says that it is up to date. *)
Lemma update_effect s ns old uid rv updated (b1 b2 : bool) :
  let prototype := inPlace (csvCopyPrototype csv) ns uid in
  s !! (ns, name) = Some old -> csv_Name updated = name ->
  (b1 = true -> is_copy csv ns (setStatus old (csv_Status prototype))) -> (b2 = true -> csv_Status old = csv_Status prototype) ->
  let s' := after s ((if b1 then [] else [KUpdateCSV ns prototype rv]) ++ (if b2 then [] else [KUpdateCSVStatus ns (setStatus updated (csv_Status prototype))])) in
  (exists x, s' !! (ns, name) = Some x /\ is_copy csv ns x) /\ forall k, k <> (ns, name) -> s' !! k = s !! k.
Proof.
  intros prototype Hold Hn H1' H2' s'.
  set (mid := if b1 then s else <[(ns, name) := setStatus prototype (csv_Status old)]> s).
  assert (Emid : after s (if b1 then [] else [KUpdateCSV ns prototype rv]) = mid) by (unfold mid; destruct b1; [done|]; unfold after; cbn [foldl effect]; change (csv_Name prototype) with name; by rewrite Hold).
  assert (exists y, mid !! (ns, name) = Some y /\ csv_Status y = csv_Status old /\ is_copy csv ns (setStatus y (csv_Status prototype))) as (y & Hy & Hst & Hcopy).
  { unfold mid. destruct b1; [exists old; auto|]. eexists. split; [apply lookup_insert_eq|]. split; [done|]. by repeat split. }
  assert (Hother : forall k, k <> (ns, name) -> mid !! k = s !! k) by (intros k Hk; unfold mid; destruct b1; [done|]; by rewrite lookup_insert_ne by congruence).
  unfold s'. rewrite after_app, Emid. destruct b2.
  - split; [|done]. exists y. split; [done|]. specialize (H2' eq_refl). rewrite <- H2', <- Hst in Hcopy. destruct y. exact Hcopy.
  - unfold after. cbn [foldl]. rewrite (status_effect _ _ _ y); [|done|done]. split; [|intros k Hk; rewrite lookup_insert_ne by congruence; by apply Hother].
    eexists. split; [apply lookup_insert_eq|done].
Qed.

Lemma copy_effect s s0 ns nonstatus status h :
  api_accepts -> cache_shows s0 ns -> hashes_honest s0 nonstatus status ns -> csv_Namespace csv <> ns -> s !! (ns, name) = s0 !! (ns, name) ->
  exists new r, copyToNamespace env (csvCopyPrototype csv) (csv_Namespace csv) ns nonstatus status h = (h ++ new, inr r) /\
    (exists x, after s new !! (ns, name) = Some x /\ is_copy csv ns x) /\ forall k, k <> (ns, name) -> after s new !! k = s !! k.
Proof.
  intros Hapi Hc Hh Hne Hs. unfold copyToNamespace. rewrite bool_decide_false by done. change (csv_Name (csvCopyPrototype csv)) with name.
  unfold cache_shows in Hc. unfold hashes_honest in Hh. rewrite <- Hs in Hc, Hh. destruct (s !! (ns, name)) as [old|] eqn:Eold.
  - destruct Hc as (rv & -> & Hns & Hname). unfold mt_Namespace, mt_annotation. cbn [mt_obj mt_Annotations mt_ResourceVersion]. change (ONamespace (csv_obj old)) with (csv_Namespace old). rewrite Hns.
    destruct (Hh old eq_refl) as [H1' H2']. set (prototype := inPlace (csvCopyPrototype csv) ns (OUID (csv_obj old))).
    set (b1 := bool_decide (default "" (annotation (csv_Annotations old) nonstatusKey) = nonstatus)).
    set (b2 := bool_decide (default "" (annotation (csv_Annotations old) statusKey) = status)).
    assert (exists u, csv_Name u = name /\
      (if b1 then pret prototype else pbind (perform (ke_csv env) (KUpdateCSV ns prototype rv)) (fun u => orWrapErr "failed to update" u)) h
      = (h ++ (if b1 then [] else [KUpdateCSV ns prototype rv]), inr u)) as (u & Hu & Eu).
    { destruct b1; [exists prototype; split; [done|]; unfold pret; by rewrite app_nil_r|].
      destruct (Hapi h (KUpdateCSV ns prototype rv)) as (r & Er & Hr). exists r. split; [done|]. unfold pbind, perform. by rewrite Er. }
    unfold pbind at 1. rewrite Eu. clear Eu. set (h1 := h ++ _).
    assert (exists r, (pbind (if b2 then pret tt else pbind (perform (ke_csv env) (KUpdateCSVStatus ns (setStatus u (csv_Status prototype))))
        (fun r => pbind (orWrapErr "failed to update status" r) (fun _ => pret tt))) (fun _ => pret (identity u))) h1
      = (h1 ++ (if b2 then [] else [KUpdateCSVStatus ns (setStatus u (csv_Status prototype))]), inr r)) as [r ->].
    { exists (identity u). destruct b2; [unfold pbind, pret; by rewrite app_nil_r|].
      destruct (Hapi h1 (KUpdateCSVStatus ns (setStatus u (csv_Status prototype)))) as (r & Er & _). unfold pbind, perform. by rewrite Er. }
    unfold h1. rewrite <- app_assoc. eexists _, r. split; [done|].
    apply (update_effect s ns old (OUID (csv_obj old)) rv u b1 b2 Eold Hu); [intros E%bool_decide_eq_true; exact (H1' E)|intros E%bool_decide_eq_true; exact (H2' E)].
  - destruct Hc as (err & -> & ->). destruct (Hapi h (KCreateCSV ns (inPlace (csvCopyPrototype csv) ns ""))) as (created & Ec & Hcn).
    destruct (Hapi (h ++ [KCreateCSV ns (inPlace (csvCopyPrototype csv) ns "")]) (KUpdateCSVStatus ns (setStatus created (csv_Status (csvCopyPrototype csv))))) as (r & Er & _).
    eexists _, _. split; [|by apply (create_effect s ns created)]. unfold pbind, perform. rewrite Ec. cbn [orWrapErr pret]. rewrite Er. cbn. by rewrite <- app_assoc.
Qed.

(** ** Calls that change no CSV *)

Lemma do_no_csv c : changes_no_csv c -> makes_only changes_no_csv (do env c).
Proof. intros Hc. unfold do. calls. Qed.
Lemma prune_no_csv n ns : makes_only changes_no_csv (pruneFromNamespace env n ns).
Proof. unfold pruneFromNamespace. calls. by apply do_no_csv. Qed.
Lemma tenantRBAC_no_csv a b target : makes_only changes_no_csv (ensureTenantRBAC env a b csv target).
Proof. unfold ensureTenantRBAC, ensureTenantRole, ensureTenantBinding. calls; by apply do_no_csv. Qed.
Lemma tenant_no_csv targetCSVs ns : makes_only changes_no_csv (tenantNamespace env group csv targetCSVs ns).
Proof. unfold tenantNamespace. calls. apply tenantRBAC_no_csv. Qed.

(** ** Copies are where they belong *)

Definition requeues_accepted : Prop := forall h ns n, ke_do env h (KRequeueGC ns n) = None.
Definition stale (m : Meta) : bool :=
  IsCopiedObject (mt_Namespace m) (mt_Annotations m) (Labels (mt_obj m)) && bool_decide (mt_annotation m OperatorGroupAnnotationKey = og_Name group).

Lemma prune_calls ns l h : requeues_accepted -> ke_copied env ns = inr l ->
  pruneFromNamespace env (og_Name group) ns h = (h ++ (l ≫= fun m => if stale m then [KRequeueGC (mt_Namespace m) (mt_Name m)] else []), inr tt).
Proof.
  intros Hr Hl. unfold pruneFromNamespace, plift. rewrite Hl. cbn [pbind]. apply pfor_succeeds. intros m h' _. fold (stale m).
  destruct (stale m); [|unfold pret; by rewrite app_nil_r]. unfold do, check, pbind, perform. by rewrite Hr.
Qed.

Context (targets : NamespaceSet).
Definition belongs (ns : string) : Prop := ns <> og_Namespace group /\ Contains targets ns = true.

Lemma copyOrPrune_effect s s0 nonstatus status acc ns h :
  api_accepts -> cache_shows s0 ns -> hashes_honest s0 nonstatus status ns -> og_Namespace group = csv_Namespace csv -> s !! (ns, name) = s0 !! (ns, name) ->
  exists new acc', copyOrPrune env csv group targets nonstatus status acc ns h = (h ++ new, inr acc') /\
    (belongs ns -> exists x, after s new !! (ns, name) = Some x /\ is_copy csv ns x) /\ (forall k, belongs ns /\ k = (ns, name) \/ after s new !! k = s !! k) /\
    (requeues_accepted -> forall l, ke_copied env ns = inr l -> ns <> og_Namespace group -> ~ belongs ns -> forall m, m ∈ l -> stale m = true -> KRequeueGC (mt_Namespace m) (mt_Name m) ∈ new).
Proof.
  intros Hapi Hc Hh Hog Hs. unfold copyOrPrune, belongs. destruct (decide (ns = og_Namespace group)) as [->|Hne].
  { exists [], acc. rewrite bool_decide_true by done. unfold pret. rewrite app_nil_r. split; [done|]. split; [by intros []|]. split; [by right|]. by intros. }
  rewrite bool_decide_false by done. destruct (Contains targets ns) eqn:Ec.
  - destruct (copy_effect s s0 ns nonstatus status h Hapi Hc Hh ltac:(congruence) Hs) as (new & r & Er & Hx & Hk).
    exists new, (<[ns := r]> acc). unfold pbind, attempt. rewrite Er. split; [done|]. split; [done|]. split; [|by intros ? ? ? ? []].
    intros k. destruct (decide (k = (ns, name))); [by left|right; by apply Hk].
  - destruct (prune_no_csv (og_Name group) ns h) as (new & Enew & Fnew). exists new, acc. unfold pbind, attempt, pret. rewrite Enew. split; [done|]. split; [by intros []|].
    split; [intros k; right; by rewrite after_no_csv|]. intros Hr l Hl _ _ m Hm Hst. rewrite (prune_calls ns l h Hr Hl) in Enew. apply (app_inv_head h) in Enew as <-.
    apply list_elem_of_bind. exists m. rewrite Hst. split; [by left|done].
Qed.

Lemma copies_fold s0 nonstatus status nss :
  api_accepts -> og_Namespace group = csv_Namespace csv -> NoDup nss -> (forall ns, ns ∈ nss -> cache_shows s0 ns /\ hashes_honest s0 nonstatus status ns) ->
  forall s h acc, (forall ns, ns ∈ nss -> s !! (ns, name) = s0 !! (ns, name)) ->
  exists new acc', pfold (copyOrPrune env csv group targets nonstatus status) acc nss h = (h ++ new, inr acc') /\
    (forall ns, ns ∈ nss -> belongs ns -> exists x, after s new !! (ns, name) = Some x /\ is_copy csv ns x) /\
    (forall k, (exists ns, ns ∈ nss /\ belongs ns /\ k = (ns, name)) \/ after s new !! k = s !! k) /\
    (requeues_accepted -> forall ns l, ns ∈ nss -> ke_copied env ns = inr l -> ns <> og_Namespace group -> ~ belongs ns -> forall m, m ∈ l -> stale m = true -> KRequeueGC (mt_Namespace m) (mt_Name m) ∈ new).
Proof.
  intros Hapi Hog. induction nss as [|ns nss IH]; intros Hnd Hall s h acc Hs.
  { exists [], acc. cbn. unfold pret. rewrite app_nil_r. split; [done|]. split; [by intros ns ?%not_elem_of_nil|]. split; [by right|by intros _ ns l ?%not_elem_of_nil]. }
  apply NoDup_cons in Hnd as [Hns Hnd]. destruct (Hall ns ltac:(by left)) as [Hc Hh].
  destruct (copyOrPrune_effect s s0 nonstatus status acc ns h Hapi Hc Hh Hog (Hs ns ltac:(by left))) as (n1 & acc1 & E1 & Hx1 & Hk1 & Hr1).
  destruct (IH Hnd ltac:(intros y Hy; apply Hall; by right) (after s n1) (h ++ n1) acc1) as (n2 & acc2 & E2 & Hx2 & Hk2 & Hr2).
  { intros y Hy. destruct (Hk1 (y, name)) as [[_ [= ->]]| ->]; [done|]. apply Hs. by right. }
  exists (n1 ++ n2), acc2. cbn [pfold]. unfold pbind at 1. rewrite E1, E2, app_assoc. split; [done|]. rewrite !after_app. split; [|split].
  - intros y [->|Hy]%elem_of_cons Hb; [|by apply Hx2]. destruct (Hk2 (ns, name)) as [(z & Hz & _ & [= ->])| ->]; [done|by apply Hx1].
  - intros k. destruct (Hk2 k) as [(z & Hz & Hb & ->)| ->]; [left; exists z; split; [by right|done]|]. destruct (Hk1 k) as [[Hb ->]|Hk]; [left; exists ns; split; [by left|done]|by right].
  - intros Hr y l [->|Hy]%elem_of_cons Hl Hne Hnb m Hm Hst; apply elem_of_app; [left; by eapply Hr1|right; by eapply Hr2].
Qed.

Lemma ensure_calls s0 namespaces hashes :
  ke_namespaces env = inr namespaces -> NoDup namespaces.*1 -> copyableCSVHash (csvCopyPrototype csv) = inr hashes ->
  api_accepts -> og_Namespace group = csv_Namespace csv -> (forall ns, ns ∈ namespaces.*1 -> cache_shows s0 ns /\ hashes_honest s0 hashes.1 hashes.2 ns) ->
  let calls := calls_of (ensureCSVsInNamespaces env csv group targets) in
  (forall ns, ns ∈ namespaces.*1 -> belongs ns -> exists x, after s0 calls !! (ns, name) = Some x /\ is_copy csv ns x) /\
  (forall k, (exists ns, ns ∈ namespaces.*1 /\ belongs ns /\ k = (ns, name)) \/ after s0 calls !! k = s0 !! k) /\
  (requeues_accepted -> forall ns l, ns ∈ namespaces.*1 -> ke_copied env ns = inr l -> ns <> og_Namespace group -> ~ belongs ns ->
     forall m, m ∈ l -> stale m = true -> KRequeueGC (mt_Namespace m) (mt_Name m) ∈ calls).
Proof.
  intros Hnss Hnd Hhash Hapi Hog Hall calls.
  destruct (copies_fold s0 hashes.1 hashes.2 namespaces.*1 Hapi Hog Hnd Hall s0 [] ∅ ltac:(done)) as (n1 & acc & E1 & Hx & Hk & Hr).
  assert (exists n2, calls = n1 ++ n2 /\ Forall changes_no_csv n2) as (n2 & -> & F2).
  { unfold calls, calls_of, ensureCSVsInNamespaces, plift, pbind. rewrite Hnss, Hhash, E1. destruct (og_StatusNamespaces group) as [tns|]; [|exists []; split; [by rewrite app_nil_r|done]].
    destruct (bool_decide (tns = _)); [exists []; split; [by rewrite app_nil_r|done]|].
    assert (makes_only changes_no_csv (pfor tns (tenantNamespace env group csv acc))) as Hm by (apply makes_for; intros; apply tenant_no_csv).
    destruct (Hm n1) as (n2 & E2 & F2). by exists n2. }
  rewrite after_app, (after_no_csv _ n2 F2). split; [done|]. split; [done|]. intros Hrq ns l Hin Hl Hne Hb m Hm Hst. apply elem_of_app. left. by eapply Hr.
Qed.
End facts.

(** ** Stale copies are collected *)

(** The annotation of a member CSV lists the targets of its group. *)
Lemma targets_annotation_read (g : OperatorGroup) ns :
  og_Namespaces g <> [] -> Forall (fun n => HasByte ","%char n = false) (og_Namespaces g) ->
  Contains (NewNamespaceSetFromString (BuildTargetNamespaces g)) ns = Contains (NewNamespaceSet (og_Namespaces g)) ns.
Proof.
  intros Hne Hc. unfold NewNamespaceSetFromString, BuildTargetNamespaces. f_equal. pose proof (merge_sort_Permutation String.le (og_Namespaces g)) as Hp.
  rewrite Split_Join.
  - unfold NewNamespaceSet. apply leibniz_equiv. by rewrite Hp.
  - intros E. rewrite E in Hp. by apply Permutation_nil_l in Hp.
  - intros x Hx. rewrite Hp in Hx. by eapply Forall_forall in Hc.
Qed.

(** The metadata of a copy that the group made. *)
Definition made_by (csv : CSV) (group : OperatorGroup) (m : Meta) : Prop :=
  mt_Name m = csv_Name csv /\ mt_Namespace m <> csv_Namespace csv /\ annotation (mt_Annotations m) OperatorGroupNamespaceAnnotationKey = Some (csv_Namespace csv) /\
  annotation (mt_Annotations m) OperatorGroupAnnotationKey = Some (og_Name group).

Section collect.
Context `{RangeOrder, RequirementLib, RbacLib, CopyLib} (env : CopyEnv) (csv : CSV) (group : OperatorGroup).
Context (Hgroup : operatorGroupFromAnnotations env csv = Some group).

Lemma group_annotations : exists a, csv_Annotations csv = Some a /\ default "" (a !! OperatorGroupNamespaceAnnotationKey) = csv_Namespace csv /\
  (exists n, a !! OperatorGroupAnnotationKey = Some n /\ ke_group env (csv_Namespace csv) n = inr group) /\ a !! OperatorGroupTargetsAnnotationKey = Some (BuildTargetNamespaces group).
Proof.
  revert Hgroup. unfold operatorGroupFromAnnotations. destruct (csv_Annotations csv) as [a|]; [|done]. cbn. case_bool_decide as Hns; [done|].
  destruct (a !! OperatorGroupAnnotationKey) as [n|] eqn:En; [|done]. cbn. destruct (ke_group env _ n) as [|g] eqn:Eg; [done|].
  destruct (a !! OperatorGroupTargetsAnnotationKey) as [t|] eqn:Et; [|done]. cbn. case_bool_decide as Hb; [done|]. intros [= ->].
  subst t. exists a. eauto 10.
Qed.

Lemma made_by_copied m : made_by csv group m -> IsCopiedObject (mt_Namespace m) (mt_Annotations m) (Labels (mt_obj m)) = true.
Proof. intros (_ & Hne & Ha & _). unfold IsCopiedObject. rewrite Ha. by rewrite bool_decide_true. Qed.
Lemma made_by_stale m : made_by csv group m -> stale group m = true.
Proof. intros Hm. unfold stale, mt_annotation. rewrite made_by_copied by done. destruct Hm as (_ & _ & _ & ->). by rewrite bool_decide_true. Qed.

(** A copy is collected exactly when its namespace is not a target any more. *)
Lemma gc_of_copy m :
  og_Namespaces group <> [] -> Forall (fun n => HasByte ","%char n = false) (og_Namespaces group) -> ke_csvLister env (csv_Namespace csv) (csv_Name csv) = inr csv ->
  ~ (csv_Phase csv = CSVPhaseFailed /\ csv_Reason csv = CSVReasonInterOperatorGroupOwnerConflict) -> made_by csv group m ->
  calls_of (syncGcCsv env m) = if Contains (NewNamespaceSet (og_Namespaces group)) (mt_Namespace m) then [] else [KDeleteCSV (mt_Namespace m) (mt_Name m)].
Proof.
  intros Hne Hcomma Hparent Hok Hm. unfold syncGcCsv, removeDanglingChildCSVs. rewrite (made_by_copied m Hm). cbn [negb]. destruct Hm as (Hn & Hns & Ha & _). rewrite Ha, Hn, Hparent.
  replace (bool_decide (csv_Phase csv = CSVPhaseFailed) && bool_decide (csv_Reason csv = CSVReasonInterOperatorGroupOwnerConflict)) with false
    by (symmetry; apply andb_false_iff; rewrite !bool_decide_eq_false; destruct (decide (csv_Phase csv = CSVPhaseFailed)); tauto).
  destruct group_annotations as (a & Ea & _ & _ & Et). rewrite Ea. cbv beta iota. rewrite Et. change (default "" (Some (BuildTargetNamespaces group))) with (BuildTargetNamespaces group). rewrite targets_annotation_read by done.
  rewrite (bool_decide_false (csv_Namespace csv = mt_Namespace m)) by congruence. destruct (Contains _ (mt_Namespace m)); [done|].
  unfold calls_of, deleteChild, do, check, pbind, perform. rewrite Hn. cbn [negb]. by destruct (ke_do env [] (KDeleteCSV (mt_Namespace m) (csv_Name csv))).
Qed.
End collect.

(** C17: Copies of a CSV end up where they belong.  For a member of an operator group, a sync leaves in every target
    namespace the copy with the current content and status, and changes no other CSV; every copy the group has made
    elsewhere is queued for collection, and collecting it deletes it, while copies in target namespaces stay. *)
Theorem copies_converge `{RangeOrder, RequirementLib, RbacLib, CopyLib} (env : CopyEnv) (csv : CSV) (group : OperatorGroup) (s0 : Store)
    (namespaces : list (string * bool)) (hashes : string * string) :
  ke_namespaces env = inr namespaces -> NoDup namespaces.*1 -> copyableCSVHash (csvCopyPrototype csv) = inr hashes ->
  api_accepts env -> requeues_accepted env -> (forall ns, ns ∈ namespaces.*1 -> cache_shows env csv s0 ns /\ hashes_honest csv s0 hashes.1 hashes.2 ns) ->
  operatorGroupFromAnnotations env csv = Some group -> og_Namespace group = csv_Namespace csv -> og_Namespaces group <> [] -> Forall (fun n => HasByte ","%char n = false) (og_Namespaces group) ->
  ke_csvLister env (csv_Namespace csv) (csv_Name csv) = inr csv -> ~ (csv_Phase csv = CSVPhaseFailed /\ csv_Reason csv = CSVReasonInterOperatorGroupOwnerConflict) ->
  let targets := NewNamespaceSet (og_Namespaces group) in
  let calls := calls_of (ensureCSVsInNamespaces env csv group targets) in
  (forall ns, ns ∈ namespaces.*1 -> ns <> csv_Namespace csv -> Contains targets ns = true -> exists x, after s0 calls !! (ns, csv_Name csv) = Some x /\ is_copy csv ns x) /\
  (forall ns n, after s0 calls !! (ns, n) <> s0 !! (ns, n) -> ns <> csv_Namespace csv /\ Contains targets ns = true /\ n = csv_Name csv) /\
  (forall ns l m, ns ∈ namespaces.*1 -> ke_copied env ns = inr l -> m ∈ l -> mt_Namespace m = ns -> made_by csv group m ->
     if Contains targets ns then calls_of (syncGcCsv env m) = []
     else KRequeueGC ns (csv_Name csv) ∈ calls /\ calls_of (syncGcCsv env m) = [KDeleteCSV ns (csv_Name csv)]).
Proof.
  intros Hnss Hnd Hhash Hapi Hrq Hall Hg Hog Hne Hcomma Hparent Hok targets calls.
  destruct (ensure_calls env csv group targets s0 namespaces hashes Hnss Hnd Hhash Hapi Hog Hall) as (Hx & Hk & Hr). unfold belongs in *. rewrite Hog in *. split; [|split].
  - intros ns Hin Hns Hc. by apply Hx.
  - intros ns n Hd. destruct (Hk (ns, n)) as [(y & _ & [Hy Hc] & [= <- ->])|]; [auto|done].
  - intros ns l m Hin Hl Hm Hns Hmade. pose proof (gc_of_copy env csv group Hg m Hne Hcomma Hparent Hok Hmade) as Hgc. rewrite Hns in Hgc. fold targets in Hgc.
    destruct (Contains targets ns) eqn:Ec; [done|]. pose proof Hmade as (Hn & Hnn & _). rewrite Hn in Hgc. split; [|done]. rewrite <- Hn, <- Hns.
    eapply (Hr Hrq ns l); [done|done|congruence|intros [_ E]; congruence|done|by eapply made_by_stale].
Qed.

(** ** The roles of an operator in a target namespace suffice *)

Definition createdRoles (calls : list CopyCall) : list Role := omap (fun c => match c with KCreateRole r => Some (toRole r) | _ => None end) calls.
Definition createdBindings (calls : list CopyCall) : list Binding := omap (fun c => match c with KCreateRoleBinding b => Some (toBinding b) | _ => None end) calls.

Lemma tenantMeta_ok `{RangeOrder} o a b (t : Object) : OType t = TClusterServiceVersion -> OGVK t = noGVK ->
  exists l, tenantMeta o a b t = inr (mkObj (OType o) (OGVK o) (OName o) b (OUID o) [NonBlockingOwner t] (Some l)).
Proof. intros Ht Hg. unfold tenantMeta, AddOwnerLabels, InferGroupVersionKind. rewrite Hg, Ht. cbn. by eexists. Qed.

Section tenant.
Context `{RangeOrder, RequirementLib, RbacLib, CopyLib} (env : CopyEnv) (csv : CSV) (target : Object) (home tgt : string).
Context (Hdo : forall h c, ke_do env h c = None) (Htype : OType target = TClusterServiceVersion) (Hgvk : OGVK target = noGVK).

Definition roleCalls (r : RbacRole) : list CopyCall :=
  if IsOwnedBy (ro_obj r) (csv_obj csv) then match tenantMeta (ro_obj r) home tgt target with inr m => [KCreateRole (mkRbacRole m (ro_Rules r))] | inl _ => [] end else [].
Definition bindingCalls (b : RbacBinding) : list CopyCall :=
  if IsOwnedBy (rb_obj b) (csv_obj csv) then match tenantMeta (rb_obj b) home tgt target with inr m => [KCreateRoleBinding (mkRbacBinding m (rb_RoleRef b) (rb_Subjects b))] | inl _ => [] end else [].

Lemma do_succeeds c h : do env c h = (h ++ [c], inr tt).
Proof. unfold do, check, pbind, perform. by rewrite Hdo. Qed.
Lemma tenantRole_calls r h : ensureTenantRole env home tgt csv target ∅ r h = (h ++ roleCalls r, inr tt).
Proof.
  unfold ensureTenantRole, roleCalls. destruct (IsOwnedBy (ro_obj r) (csv_obj csv)); cbn [negb]; [|unfold pret; by rewrite app_nil_r]. rewrite lookup_empty.
  destruct (tenantMeta_ok (ro_obj r) home tgt target Htype Hgvk) as [l ->]. unfold plift, pbind. apply do_succeeds.
Qed.
Lemma tenantBinding_calls b h : ensureTenantBinding env home tgt csv target ∅ b h = (h ++ bindingCalls b, inr tt).
Proof.
  unfold ensureTenantBinding, bindingCalls. destruct (IsOwnedBy (rb_obj b) (csv_obj csv)); cbn [negb]; [|unfold pret; by rewrite app_nil_r]. rewrite lookup_empty.
  destruct (tenantMeta_ok (rb_obj b) home tgt target Htype Hgvk) as [l ->]. unfold plift, pbind. apply do_succeeds.
Qed.

(** In a namespace without roles for the copy, the owned roles and bindings are created. *)
Lemma tenant_calls roles bindings troles tbindings :
  home <> tgt -> ke_roles env home = inr roles -> ke_roles env tgt = inr troles -> ke_roleBindings env home = inr bindings -> ke_roleBindings env tgt = inr tbindings ->
  selectedFor ro_obj target troles = [] -> selectedFor rb_obj target tbindings = [] -> ownedBy ro_obj csv roles <> [] ->
  ensureTenantRBAC env home tgt csv target [] = ((ownedBy ro_obj csv roles ≫= roleCalls) ++ (ownedBy rb_obj csv bindings ≫= bindingCalls), inr tt).
Proof.
  intros Hne Er Etr Eb Etb Hst Hsb Hr. unfold ensureTenantRBAC, plift. rewrite bool_decide_false by done. rewrite Er, Etr, Eb, Etb. cbv beta iota zeta delta [pbind].
  destruct (length (ownedBy ro_obj csv roles) =? 0)%nat eqn:El; [apply Nat.eqb_eq, nil_length_inv in El; done|].
  rewrite Hst, Hsb, (pfor_succeeds _ _ roleCalls) by (intros; apply tenantRole_calls). cbn [app]. by rewrite (pfor_succeeds _ _ bindingCalls) by (intros; apply tenantBinding_calls).
Qed.

Lemma elem_of_createdRoles calls r : KCreateRole r ∈ calls -> toRole r ∈ createdRoles calls.
Proof. intros Hr. apply list_elem_of_omap. by exists (KCreateRole r). Qed.
Lemma created_roles_from roles bindings role : role ∈ createdRoles ((roles ≫= roleCalls) ++ (bindings ≫= bindingCalls)) ->
  exists r, r ∈ roles /\ RoleName role = OName (ro_obj r) /\ RoleRules role = ro_Rules r /\ RoleOwners role = [NonBlockingOwner target].
Proof.
  intros (c & Hc & E)%list_elem_of_omap. apply elem_of_app in Hc as [(r & Hcr & Hr)%list_elem_of_bind|(b & Hcb & _)%list_elem_of_bind].
  - unfold roleCalls in Hcr. destruct (IsOwnedBy (ro_obj r) (csv_obj csv)); [|by apply elem_of_nil in Hcr]. destruct (tenantMeta_ok (ro_obj r) home tgt target Htype Hgvk) as [l El]. rewrite El in Hcr.
    apply list_elem_of_singleton in Hcr as ->. injection E as <-. by exists r.
  - unfold bindingCalls in Hcb. destruct (IsOwnedBy _ _); [|by apply elem_of_nil in Hcb]. destruct (tenantMeta _ _ _ _); [by apply elem_of_nil in Hcb|]. by apply list_elem_of_singleton in Hcb as ->.
Qed.

Lemma role_created r roles bindings : r ∈ roles -> IsOwnedBy (ro_obj r) (csv_obj csv) = true ->
  exists role, role ∈ createdRoles ((roles ≫= roleCalls) ++ (bindings ≫= bindingCalls)) /\ RoleName role = OName (ro_obj r) /\ RoleNamespace role = tgt.
Proof.
  intros Hr Ho. destruct (tenantMeta_ok (ro_obj r) home tgt target Htype Hgvk) as [l El]. eexists. split.
  - apply elem_of_createdRoles, elem_of_app. left. apply list_elem_of_bind. exists r. unfold roleCalls. rewrite Ho, El. split; [by left|done].
  - done.
Qed.
Lemma binding_created b roles bindings : b ∈ bindings -> IsOwnedBy (rb_obj b) (csv_obj csv) = true ->
  exists binding, binding ∈ createdBindings ((roles ≫= roleCalls) ++ (bindings ≫= bindingCalls)) /\ BNamespace binding = tgt /\ BOwners binding = [NonBlockingOwner target] /\
    BSubjects binding = rb_Subjects b /\ BRoleRef binding = rb_RoleRef b.
Proof.
  intros Hb Ho. destruct (tenantMeta_ok (rb_obj b) home tgt target Htype Hgvk) as [l El]. eexists. split.
  - apply list_elem_of_omap. eexists. split; [apply elem_of_app; right; apply list_elem_of_bind; exists b; unfold bindingCalls; rewrite Ho, El; split; [by left|done]|reflexivity].
  - done.
Qed.

(** The rules of an owned role are found in the target namespace. *)
Lemma tenant_role_rules checked roles bindings r : let calls := (roles ≫= roleCalls) ++ (bindings ≫= bindingCalls) in
  tgt <> "" -> HasOwnerConflict checked [NonBlockingOwner target] = false -> (forall r', r' ∈ roles -> OName (ro_obj r') = OName (ro_obj r) -> r' = r) ->
  r ∈ roles -> IsOwnedBy (ro_obj r) (csv_obj csv) = true ->
  GetRoleReferenceRules (csvRoleSource checked (staticSource (mkStatic (createdRoles calls) (createdBindings calls) [] []))) (mkRoleRef "Role" (OName (ro_obj r))) tgt = inr (ro_Rules r).
Proof.
  intros calls Ht Hconf Huniq Hr Ho. unfold GetRoleReferenceRules. cbn [RefKind RefName]. rewrite bool_decide_true by done. cbn [GetRole csvRoleSource staticSource sroles].
  assert ((String.length tgt =? 0)%nat = false) as -> by (by destruct tgt). destruct (List.find _ _) as [role|] eqn:E.
  - apply find_elem_of in E as [Hin Hb]. bools. destruct (created_roles_from _ _ _ Hin) as (r' & Hr' & Hn & Hrules & Hown). rewrite (Huniq r' Hr') in Hrules by congruence.
    cbn -[HasOwnerConflict]. rewrite Hown, Hconf. cbn. by rewrite Hrules.
  - exfalso. destruct (role_created r roles bindings Hr Ho) as (role & Hin & Hn & Hns). apply (find_none_elem_of _ _ role) in E; [|done].
    cbv beta in E. rewrite Hn, Hns, !bool_decide_true in E by done. done.
Qed.
End tenant.

(** C18: An operator has in a target namespace the permissions it has at home.  When [ensureTenantRBAC] runs for a
    namespace where its copy has no roles yet, and the API server accepts what it creates, the rule checker finds there,
    for every service account bound at home to a role of the CSV, the rules of that role satisfied. *)
Theorem tenant_rbac_grants `{RangeOrder, RequirementLib, RbacLib, CopyLib} (env : CopyEnv) (csv : CSV) (target : Object) (home tgt : string)
    (roles troles : list RbacRole) (bindings tbindings : list RbacBinding) (r : RbacRole) (b : RbacBinding) (sa : ServiceAccount) (subject : Subject) (rule : PolicyRule) :
  (forall h c, ke_do env h c = None) -> OType target = TClusterServiceVersion -> OGVK target = noGVK -> OwnerUtil.ownerGVK (csv_obj csv) = OwnerUtil.ownerGVK target ->
  home <> tgt -> tgt <> "" -> ke_roles env home = inr roles -> ke_roles env tgt = inr troles -> ke_roleBindings env home = inr bindings -> ke_roleBindings env tgt = inr tbindings ->
  selectedFor ro_obj target troles = [] -> selectedFor rb_obj target tbindings = [] ->
  (forall r', r' ∈ ownedBy ro_obj csv roles -> OName (ro_obj r') = OName (ro_obj r) -> r' = r) ->
  r ∈ ownedBy ro_obj csv roles -> IsOwnedBy (ro_obj r) (csv_obj csv) = true -> b ∈ ownedBy rb_obj csv bindings -> IsOwnedBy (rb_obj b) (csv_obj csv) = true ->
  rb_RoleRef b = mkRoleRef "Role" (OName (ro_obj r)) -> appliesTo (toDefaultInfo sa) (rb_Subjects b) tgt = Some subject -> rule ∈ ro_Rules r -> grantable rule ->
  let calls := calls_of (ensureTenantRBAC env home tgt csv target) in
  RuleSatisfied (csv_obj csv) (staticSource (mkStatic (createdRoles calls) (createdBindings calls) [] [])) sa tgt rule = inr true.
Proof.
  intros Hdo Htype Hgvk Howner Hne Htgt Er Etr Eb Etb Hst Hsb Huniq Hr Hro Hb Hbo Href Happ Hrule Hg calls.
  assert (Ecalls : calls = (ownedBy ro_obj csv roles ≫= roleCalls csv target home tgt) ++ (ownedBy rb_obj csv bindings ≫= bindingCalls csv target home tgt)).
  { unfold calls, calls_of. erewrite tenant_calls by (try done; intros En; rewrite En in Hr; by apply elem_of_nil in Hr). done. }
  assert (Hconf : HasOwnerConflict (csv_obj csv) [NonBlockingOwner target] = false).
  { apply (HasOwnerConflict_blind (csv_obj csv) [target]). intros o ->%list_elem_of_singleton. rewrite Howner. split; [|done].
    unfold ownerGVK, InferGroupVersionKind. rewrite Hgvk, Htype. done. }
  apply held_rule_satisfied; [done|]. rewrite RulesFor_eq. unfold allVisits. cbn [fst]. rewrite omap_app, elem_of_app. right.
  assert ((0 <? String.length tgt)%nat = true) as -> by (by destruct tgt). cbn [ListRoleBindings csvRoleSource staticSource].
  assert ((String.length tgt =? 0)%nat = false) as -> by (by destruct tgt). rewrite Ecalls.
  destruct (binding_created csv target home tgt Htype Hgvk b (ownedBy ro_obj csv roles) (ownedBy rb_obj csv bindings) Hb Hbo) as (binding & Hin & Hbns & Hbown & Hsub & Hbref).
  eapply (listVisits_rule _ _ _ _ _ binding); [|rewrite Hsub; exact Happ| |exact Hrule].
  - apply list_elem_of_In, filter_In. rewrite Hbown, Hconf. split; [|done]. apply filter_In. rewrite Hbns, bool_decide_true by done. split; [|done]. by apply list_elem_of_In.
  - rewrite Hbref, Href. by apply (tenant_role_rules csv target home tgt Htype Hgvk).
Qed.

(** ** Copies that are up to date *)

Lemma base62From_ne fuel n acc : fuel <> 0%nat \/ acc <> "" -> base62From fuel n acc <> "".
Proof. revert n acc. induction fuel as [|fuel IH]; intros n acc Ha; cbn; [by destruct Ha|]. destruct (_ =? _)%Z; [done|]. apply IH. by right. Qed.
Lemma toBase62_ne n : toBase62 n <> "".
Proof. apply base62From_ne. by left. Qed.
Lemma DeepHashObject_ne `{RbacLib} e hash : DeepHashObject e = inr hash -> hash <> "".
Proof. unfold DeepHashObject. destruct e; [done|]. intros [= <-]. apply toBase62_ne. Qed.
Lemma copyableCSVHash_ne `{RbacLib, CopyLib} c hashes : copyableCSVHash c = inr hashes -> hashes.1 <> "" /\ hashes.2 <> "".
Proof.
  unfold copyableCSVHash. destruct (DeepHashObject (encodeCSV _)) as [|h1] eqn:E1; [done|]. destruct (DeepHashObject (encodeStatus _)) as [|h2] eqn:E2; [done|].
  intros [= <-]. cbn. split; by eapply DeepHashObject_ne.
Qed.
Lemma prototype_annotation csv key : annotation (csv_Annotations csv) key = None -> annotation (csv_Annotations (csvCopyPrototype csv)) key = None.
Proof. unfold annotation. cbn. intros Hk. apply map_lookup_filter_None. left. destruct (csv_Annotations csv); [done|apply lookup_empty]. Qed.

(** A copy that is exactly what it should be is written again by every sync, its status too.  Whether a copy is up
    to date is read from annotations with hashes, and no copy gets these annotations. *)
Theorem up_to_date_copy_rewritten `{RangeOrder, RequirementLib, RbacLib, CopyLib} (env : CopyEnv) (csv x : CSV) (ns rv : string) (hashes : string * string) :
  copyableCSVHash (csvCopyPrototype csv) = inr hashes -> api_accepts env -> is_copy csv ns x ->
  annotation (csv_Annotations csv) nonstatusKey = None -> annotation (csv_Annotations csv) statusKey = None ->
  csv_Namespace csv <> ns -> ke_copiedGet env ns (csv_Name csv) = inr (mkMeta (csv_obj x) (csv_Annotations x) rv) ->
  exists c1 c2, calls_of (copyToNamespace env (csvCopyPrototype csv) (csv_Namespace csv) ns hashes.1 hashes.2) = [KUpdateCSV ns c1 rv; KUpdateCSVStatus ns c2].
Proof.
  intros [H1n H2n]%copyableCSVHash_ne Hapi (_ & Hns & _ & Hann & _) Hk1 Hk2 Hne Hget. unfold calls_of, copyToNamespace.
  rewrite bool_decide_false by done. change (csv_Name (csvCopyPrototype csv)) with (csv_Name csv). rewrite Hget. unfold mt_annotation. cbn [mt_Annotations mt_ResourceVersion]. rewrite Hann.
  rewrite !prototype_annotation by done. cbn [from_option id]. rewrite !bool_decide_false by congruence.
  set (c1 := inPlace _ _ _). destruct (Hapi [] (KUpdateCSV ns c1 rv)) as (u & Eu & _). unfold pbind, perform. rewrite Eu. cbn [orWrapErr pret app].
  destruct (Hapi [KUpdateCSV ns c1 rv] (KUpdateCSVStatus ns (setStatus u (csv_Status c1)))) as (w & Ew & _). rewrite Ew. cbn. eauto.
Qed.

(** A group whose selector matches no namespace has no targets, but its members carry the same annotation as those
    of a group with all namespaces, the empty string: copies made before are queued for collection and then kept. *)
Theorem copies_kept_without_targets `{RangeOrder, RequirementLib, RbacLib, CopyLib} (env : CopyEnv) (csv : CSV) (group : OperatorGroup) (m : Meta) :
  operatorGroupFromAnnotations env csv = Some group -> og_Namespaces group = [] -> ke_csvLister env (csv_Namespace csv) (csv_Name csv) = inr csv ->
  ~ (csv_Phase csv = CSVPhaseFailed /\ csv_Reason csv = CSVReasonInterOperatorGroupOwnerConflict) -> made_by csv group m ->
  Contains (NewNamespaceSet (og_Namespaces group)) (mt_Namespace m) = false /\ calls_of (syncGcCsv env m) = [].
Proof.
  intros Hg Hempty Hparent Hok Hm. split; [rewrite Hempty; unfold Contains; by rewrite bool_decide_false by set_solver|].
  unfold syncGcCsv, removeDanglingChildCSVs. rewrite (made_by_copied csv group m Hm). cbn [negb]. destruct Hm as (Hn & Hns & Ha & _). rewrite Ha, Hn, Hparent.
  replace (bool_decide (csv_Phase csv = CSVPhaseFailed) && bool_decide (csv_Reason csv = CSVReasonInterOperatorGroupOwnerConflict)) with false
    by (symmetry; apply andb_false_iff; rewrite !bool_decide_eq_false; destruct (decide (csv_Phase csv = CSVPhaseFailed)); tauto).
  destruct (group_annotations env csv group Hg) as (a & Ea & _ & _ & Et). rewrite Ea. cbv beta iota. rewrite Et. unfold BuildTargetNamespaces. rewrite Hempty.
  rewrite (bool_decide_false (csv_Namespace csv = mt_Namespace m)) by congruence. done.
Qed.

(** ** What the configuration reports *)

Lemma protected_evaluator namespaces protected m : getCopiedCSVEvaluatorFunc false namespaces protected m = true <-> m = protected.
Proof.
  unfold getCopiedCSVEvaluatorFunc. split.
  - destruct (size protected =? size m)%nat eqn:Es; [|done]. cbn [negb]. apply Nat.eqb_eq in Es. intros Hall. rewrite forallb_forall in Hall.
    assert (protected ⊆ m) as Hsub by (intros ns Hns; specialize (Hall ns); apply bool_decide_eq_true in Hall; [done|by apply list_elem_of_In, elem_of_elements]).
    symmetry. apply set_subseteq_size_eq; [done|lia].
  - intros ->. rewrite Nat.eqb_refl. cbn [negb]. apply forallb_forall. intros ns Hns. apply bool_decide_eq_true, elem_of_elements. by apply list_elem_of_In.
Qed.

(** The active namespaces. *)
Definition active (namespaces : list (string * bool)) : gset string := list_to_set (List.filter snd namespaces).*1.
Lemma elem_of_active namespaces ns : ns ∈ active namespaces <-> (ns, true) ∈ namespaces.
Proof.
  unfold active. rewrite elem_of_list_to_set, list_elem_of_fmap. split.
  - intros ([y b] & -> & Hin). apply list_elem_of_In, filter_In in Hin as [Hin Hb]. cbn in Hb. subst b. by apply list_elem_of_In.
  - intros Hin. exists (ns, true). split; [done|]. apply list_elem_of_In, filter_In. split; [by apply list_elem_of_In|done].
Qed.
Lemma size_active namespaces : NoDup namespaces.*1 -> size (active namespaces) = length (List.filter snd namespaces).
Proof.
  intros Hnd. unfold active. rewrite size_list_to_set; [by rewrite length_fmap|]. induction namespaces as [|[ns b] l IH]; [constructor|].
  cbn [fmap list_fmap] in Hnd. apply NoDup_cons in Hnd as [Hns Hnd]. cbn. destruct b; [|by apply IH]. cbn. apply NoDup_cons. split; [|by apply IH].
  intros ([y c] & E & Hin)%list_elem_of_fmap. apply Hns. apply list_elem_of_fmap. exists (y, c). split; [done|]. apply list_elem_of_In. apply list_elem_of_In, filter_In in Hin. tauto.
Qed.

(** Counting the copies is enough when they are in active namespaces other than the one of the CSV. *)
Lemma enabled_evaluator namespaces protected m own : NoDup namespaces.*1 -> (own, true) ∈ namespaces -> own ∉ m -> (forall ns, ns ∈ m -> (ns, true) ∈ namespaces) ->
  getCopiedCSVEvaluatorFunc true namespaces protected m = true <-> m = active namespaces ∖ {[ own ]}.
Proof.
  intros Hnd Hown Hnot Hsub. unfold getCopiedCSVEvaluatorFunc, expectedCopiedCSVCount. rewrite bool_decide_eq_true, <- size_active by done.
  assert (own ∈ active namespaces) as Ho by (by apply elem_of_active). assert (m ⊆ active namespaces ∖ {[ own ]}) as Hm.
  { intros ns Hns. apply elem_of_difference. split; [by apply elem_of_active, Hsub|]. intros ->%elem_of_singleton. done. }
  assert (size (active namespaces ∖ {[ own ]}) = (size (active namespaces) - 1)%nat) as Hsize by (rewrite size_difference, size_singleton; set_solver).
  assert (size (active namespaces) <> 0%nat) by (apply size_non_empty_iff; set_solver). split; [|intros ->; lia].
  intros E. apply set_subseteq_size_eq; [done|lia].
Qed.

Section olmconfig.
Context `{RangeOrder, RequirementLib, RbacLib, CopyLib} (env : CopyEnv) (config : OLMConfig) (namespaces : list (string * bool)).

(** A CSV whose copies are not where they should be. *)
Definition misplaced (copiedCSVs : list Meta) (csv : CSV) : bool :=
  negb (getCopiedCSVEvaluatorFunc (CopiedCSVsAreEnabled config) namespaces (ke_protected env) (default ∅ (copiedCSVNamespaces copiedCSVs !! csv_Name csv))).
Definition group_misplaced (g : OperatorGroup) : bool :=
  match ke_copiedFrom env (og_Namespace g), ke_originals env (og_Namespace g) with inr copied, inr csvs => existsb (misplaced copied) csvs | _, _ => false end.

Lemma requeue_fold copied csvs b h : exists new, pfold (requeueIfMisplaced env config namespaces copied) b csvs h = (h ++ new, inr (b || existsb (misplaced copied) csvs)).
Proof.
  revert b h. induction csvs as [|csv csvs IH]; intros b h; [exists []; cbn; unfold pret; by rewrite app_nil_r, orb_false_r|]. cbn [pfold existsb]. unfold pbind.
  unfold requeueIfMisplaced at 1, misplaced at 1. destruct (getCopiedCSVEvaluatorFunc _ _ _ _) eqn:Ev; cbn [negb orb].
  - unfold pret. apply IH.
  - destruct (IH true (h ++ [KRequeueCSV (csv_Namespace csv) (csv_Name csv)])) as [new E]. exists (KRequeueCSV (csv_Namespace csv) (csv_Name csv) :: new).
    unfold pbind, perform, pret. rewrite E, <- app_assoc. by rewrite orb_true_r.
Qed.

Lemma groups_fold groups b h b' h' : ke_namespaces env = inr namespaces -> pfold (requeueMisplaced env config) b groups h = (h', inr b') -> b' = b || existsb group_misplaced groups.
Proof.
  intros Hns. revert b h. induction groups as [|g groups IH]; intros b h; cbn [pfold existsb]; [intros [= _ <-]; by rewrite orb_false_r|].
  unfold pbind at 1, requeueMisplaced at 1, group_misplaced at 1. unfold plift. destruct (ke_copiedFrom env (og_Namespace g)) as [|copied]; [done|]. destruct (ke_originals env (og_Namespace g)) as [|csvs]; [done|].
  rewrite Hns. cbv beta iota delta [pbind]. destruct (requeue_fold copied csvs b h) as [new E]. rewrite E. intros Hf. rewrite (IH _ _ Hf). by rewrite orb_assoc.
Qed.

Definition requeues_csv (c : CopyCall) : Prop := match c with KRequeueCSV _ _ => True | _ => False end.
Lemma requeueMisplaced_calls b g : makes_only requeues_csv (requeueMisplaced env config b g).
Proof. unfold requeueMisplaced, requeueIfMisplaced. by calls. Qed.

Lemma not_misplaced groups : existsb group_misplaced groups = false <-> forall g copied csvs csv, g ∈ groups -> ke_copiedFrom env (og_Namespace g) = inr copied ->
  ke_originals env (og_Namespace g) = inr csvs -> csv ∈ csvs -> misplaced copied csv = false.
Proof.
  rewrite existsb_not_elem_of. split.
  - intros Hall g copied csvs csv Hg Ec Eo Hc. specialize (Hall g Hg). unfold group_misplaced in Hall. rewrite Ec, Eo, existsb_not_elem_of in Hall. by apply Hall.
  - intros Hall g Hg. unfold group_misplaced. destruct (ke_copiedFrom _ _) as [|copied] eqn:Ec; [done|]. destruct (ke_originals _ _) as [|csvs] eqn:Eo; [done|].
    apply existsb_not_elem_of. intros csv Hc. by eapply Hall.
Qed.
End olmconfig.

(** The configuration reports whether copies are where they should be.  When its sync ends without an error, the
    condition it computed says "disabled" exactly when copies are disabled and the copies of every CSV of every group with
    all namespaces are in the protected namespaces and nowhere else; the status is written exactly when the condition is
    not there yet. *)
Theorem syncOLMConfig_honest `{RangeOrder, RequirementLib, RbacLib, CopyLib} (env : CopyEnv) (config : OLMConfig) (namespaces : list (string * bool)) (groups : list OperatorGroup) :
  ke_namespaces env = inr namespaces -> allNamespaceOperatorGroups env = inr groups -> result_of (syncOLMConfig env config) = inr tt ->
  exists condition, sc_Type condition = DisabledCopiedCSVsConditionType /\
    (sc_Status condition = "True" <-> CopiedCSVsAreEnabled config = false /\
      forall g copied csvs csv, g ∈ groups -> ke_copiedFrom env (og_Namespace g) = inr copied -> ke_originals env (og_Namespace g) = inr csvs -> csv ∈ csvs ->
        default ∅ (copiedCSVNamespaces copied !! csv_Name csv) = ke_protected env) /\
    (isStatusConditionPresentAndAreTypeReasonMessageStatusEqual (oc_StatusConditions config) condition = false <->
     KUpdateOLMConfigStatus (mkOLMConfig (oc_Name config) (oc_Features config) (SetStatusCondition (oc_StatusConditions config) condition)) ∈ calls_of (syncOLMConfig env config)).
Proof.
  intros Hns Hg Hres. unfold result_of, calls_of, syncOLMConfig, plift, pbind in *. rewrite Hg in *.
  destruct (makes_fold requeues_csv (requeueMisplaced env config) false groups (fun b g _ => requeueMisplaced_calls env config b g) []) as (new & Enew & Fnew).
  destruct (pfold (requeueMisplaced env config) false groups []) as [h1 [err|b]] eqn:Ef; [done|]. cbn in Enew. subst h1.
  pose proof (groups_fold env config namespaces groups false [] b new Hns Ef) as Hb. cbn [orb] in Hb. exists (getCopiedCSVsCondition (CopiedCSVsAreEnabled config) b). split; [|split].
  - unfold getCopiedCSVsCondition. by repeat case_match.
  - transitivity (CopiedCSVsAreEnabled config = false /\ b = false); [unfold getCopiedCSVsCondition; destruct (CopiedCSVsAreEnabled config), b; cbn; naive_solver|].
    rewrite Hb, (not_misplaced env config namespaces). unfold misplaced.
    destruct (CopiedCSVsAreEnabled config); [by split; intros []|]. setoid_rewrite negb_false_iff. by setoid_rewrite protected_evaluator.
  - destruct (isStatusConditionPresentAndAreTypeReasonMessageStatusEqual _ _); cbn [fst]; split; try done.
    + intros Hin. rewrite Forall_forall in Fnew. by specialize (Fnew _ Hin).
    + intros _. unfold do, check, pbind, perform. destruct (ke_do env new _); cbn [fst pret pfail]; apply elem_of_app; right; by left.
Qed.

(** ** Witnesses *)

Module CopiesDemo.
#[local] Existing Instances canonical_order demo_req_lib RbacDemo.lib.
Definition copyLib : CopyLib := {| encodeCSV c := inr (csv_Name c); encodeStatus s := inr (st_Phase s) |}.
#[local] Existing Instance copyLib.

Definition noLister {A} (_ : string) : error + list A := inr [].
Definition group (namespaces : list string) : OperatorGroup := mkGroup "og" "ns" "7" None None namespaces "" false "" (Some namespaces) None.
Definition annotations (targets : string) : gmap string string :=
  {[ OperatorGroupNamespaceAnnotationKey := "ns"; OperatorGroupAnnotationKey := "og"; OperatorGroupTargetsAnnotationKey := targets ]}.
Definition etcd (targets : string) : CSV := mkCSV (demo_csv "etcd.v1" "1") (Some (annotations targets)) (demo_spec "") (demo_status "Succeeded" "InstallSucceeded").
(** A copy in a namespace. *)
Definition copyIn (ns : string) : CSV := inPlace (csvCopyPrototype (etcd "a")) ns "2".
Definition metaIn (ns : string) : Meta := mkMeta (csv_obj (copyIn ns)) (csv_Annotations (copyIn ns)) "5".

(** Copies in the namespaces of [present]; the API server takes every write. *)
Definition env (targets : list string) (present : list string) (roles : string -> error + list RbacRole) (bindings : string -> error + list RbacBinding) : CopyEnv := {|
  ke_cluster := demo_cluster; ke_namespaces := inr [("ns", true); ("a", true); ("b", true)];
  ke_copied ns := inr (if bool_decide (ns ∈ present) then [metaIn ns] else []);
  ke_copiedGet ns n := if bool_decide (ns ∈ present) then inr (metaIn ns) else inl notFound;
  ke_copiedFrom ns := inr (metaIn <$> present); ke_csvLister ns n := inr (etcd (Join targets ",")); ke_originals ns := inr [etcd (Join targets ",")];
  ke_roles := roles; ke_roleBindings := bindings; ke_clusterRole n := inl notFound; ke_clusterRoleBinding n := inl notFound;
  ke_group ns n := inr (group targets); ke_groups := inr [group targets]; ke_olmConfig h := inr (mkOLMConfig "cluster" (Some (Some true)) []);
  ke_events h ns := inr []; ke_protected := {["a"]};
  ke_csv h c := match c with KCreateCSV _ x | KUpdateCSV _ x _ | KUpdateCSVStatus _ x => inr x | _ => inl notFound end; ke_do h c := None |}.
Definition store : Store := {[("b", "etcd.v1") := copyIn "b"]}.
Definition plain (present : list string) : CopyEnv := env ["a"] present noLister noLister.

Lemma accepts targets present roles bindings : api_accepts (env targets present roles bindings).
Proof. intros h c. destruct c; eauto. Qed.

(** The copy in [b] is stale, the one in [a] is missing. *)
Lemma copies_converge_witness :
  (exists x, after store (calls_of (ensureCSVsInNamespaces (plain ["b"]) (etcd "a") (group ["a"]) {["a"]})) !! ("a", "etcd.v1") = Some x /\ is_copy (etcd "a") "a" x) /\
  calls_of (syncGcCsv (plain ["b"]) (metaIn "b")) = [KDeleteCSV "b" "etcd.v1"].
Proof.
  pose proof (copies_converge (plain ["b"]) (etcd "a") (group ["a"]) store [("ns", true); ("a", true); ("b", true)]) as Hthm.
  edestruct Hthm as (Hcopy & _ & Hgc); [reflexivity|exact (bool_decide_unpack (NoDup ["ns"; "a"; "b"]) I)|vm_compute; reflexivity|apply accepts|intros h n m; reflexivity| |vm_compute; reflexivity|reflexivity|discriminate|repeat constructor|reflexivity| |].
  - intros ns Hns. unfold cache_shows, hashes_honest. repeat (apply elem_of_cons in Hns as [->|Hns]); [| | |by apply elem_of_nil in Hns].
    + split; [exists notFound; split; reflexivity|]. intros x Hx. vm_compute in Hx. discriminate.
    + split; [exists notFound; split; reflexivity|]. intros x Hx. vm_compute in Hx. discriminate.
    + split; [exists "5"; split; [|split]; reflexivity|]. intros x Hx. injection Hx as <-. split; intros E; vm_compute in E; discriminate.
  - intros [_ E]. vm_compute in E. discriminate.
  - split; [apply (Hcopy "a"); [exact (bool_decide_unpack ("a" ∈ ["ns"; "a"; "b"]) I)|discriminate|vm_compute; reflexivity]|].
    exact (proj2 (Hgc "b" [metaIn "b"] (metaIn "b") (bool_decide_unpack ("b" ∈ ["ns"; "a"; "b"]) I) eq_refl ltac:(by left) eq_refl
      ltac:(split; [reflexivity|]; split; [discriminate|]; split; vm_compute; reflexivity))).
Defined.

Lemma up_to_date_copy_rewritten_witness :
  exists c1 c2, calls_of (copyToNamespace (plain ["a"]) (csvCopyPrototype (etcd "a")) "ns" "a" (toBase62 (sha224 "etcd.v1")) (toBase62 (sha224 "Succeeded")))
    = [KUpdateCSV "a" c1 "5"; KUpdateCSVStatus "a" c2].
Proof.
  exact (up_to_date_copy_rewritten (plain ["a"]) (etcd "a") (copyIn "a") "a" "5" (toBase62 (sha224 "etcd.v1"), toBase62 (sha224 "Succeeded"))
    eq_refl (accepts ["a"] ["a"] noLister noLister) (is_copy_inPlace (etcd "a") "a" "2") eq_refl eq_refl ltac:(discriminate) eq_refl).
Defined.

Lemma copies_kept_without_targets_witness :
  Contains (NewNamespaceSet []) "b" = false /\ calls_of (syncGcCsv (env [] ["b"] noLister noLister) (metaIn "b")) = [].
Proof.
  refine (copies_kept_without_targets (env [] ["b"] noLister noLister) (etcd "") (group []) (metaIn "b") eq_refl eq_refl eq_refl _ _).
  - intros [_ E]. vm_compute in E. discriminate.
  - split; [reflexivity|]. split; [discriminate|]. split; vm_compute; reflexivity.
Defined.

(** A role and its binding at home, for the service account [sa]. *)
Definition owned (type : ObjectType) (name : string) : Object :=
  mkObj type noGVK name "ns" "3" [NonBlockingOwner (csv_obj (etcd "a"))] (Some (OwnerLabel (csv_obj (etcd "a")) CSVKind)).
Definition pods : PolicyRule := mkRule ["get"] [""] ["pods"] [] None.
Definition podRole : RbacRole := mkRbacRole (owned TRole "pods") [pods].
Definition podBinding : RbacBinding := mkRbacBinding (owned TRoleBinding "pods") (mkRoleRef "Role" "pods") [mkSubject "ServiceAccount" "sa" "ns"].
Definition atHome {A} (x : A) (ns : string) : error + list A := inr (if bool_decide (ns = "ns") then [x] else []).
Definition withRoles : CopyEnv := env ["a"] ["a"] (atHome podRole) (atHome podBinding).
Definition targetCSV : Object := identity (copyIn "a").

Lemma tenant_rbac_grants_witness :
  let calls := calls_of (ensureTenantRBAC withRoles "ns" "a" (etcd "a") targetCSV) in
  RuleSatisfied (csv_obj (etcd "a")) (staticSource (mkStatic (createdRoles calls) (createdBindings calls) [] [])) (mkSA "sa" "ns") "a" pods = inr true.
Proof.
  refine (tenant_rbac_grants withRoles (etcd "a") targetCSV "ns" "a" [podRole] [] [podBinding] [] podRole podBinding (mkSA "sa" "ns") (mkSubject "ServiceAccount" "sa" "ns") pods
    (fun h c => eq_refl) eq_refl eq_refl eq_refl ltac:(discriminate) ltac:(discriminate) eq_refl eq_refl eq_refl eq_refl eq_refl eq_refl _ _ eq_refl _ eq_refl eq_refl eq_refl _ _).
  - intros r' Hr' _. replace (ownedBy ro_obj (etcd "a") [podRole]) with [podRole] in Hr' by (vm_compute; reflexivity). by apply list_elem_of_singleton in Hr'.
  - replace (ownedBy ro_obj (etcd "a") [podRole]) with [podRole] by (vm_compute; reflexivity). by left.
  - replace (ownedBy rb_obj (etcd "a") [podBinding]) with [podBinding] by (vm_compute; reflexivity). by left.
  - by left.
  - split; [discriminate|]. left. split; [reflexivity|]. split; discriminate.
Defined.

(** Copies are disabled, and the only one is in the protected namespace. *)
Lemma syncOLMConfig_honest_witness :
  exists condition, sc_Type condition = DisabledCopiedCSVsConditionType /\
    KUpdateOLMConfigStatus (mkOLMConfig "cluster" (Some (Some true)) [condition]) ∈ calls_of (syncOLMConfig (env [""] ["a"] noLister noLister) (mkOLMConfig "cluster" (Some (Some true)) [])).
Proof.
  destruct (syncOLMConfig_honest (env [""] ["a"] noLister noLister) (mkOLMConfig "cluster" (Some (Some true)) []) [("ns", true); ("a", true); ("b", true)] [group [""]]
    eq_refl ltac:(vm_compute; reflexivity) ltac:(vm_compute; reflexivity)) as (c & Ht & _ & Hw).
  exists c. split; [exact Ht|]. exact (proj1 Hw eq_refl).
Defined.
End CopiesDemo.
