(* ===== verification/GroupSync.v ===== *)
(** * Syncing operator groups

    Models [syncOperatorGroups] of [controller/operators/olm/operatorgroup.go] with all it calls: the condition about
    several groups in a namespace, the service account of a group ([lib/scoped/syncer.go]), its target namespaces, the
    annotations of its members, its cluster roles that aggregate those of the provided APIs
    ([ensureProvidedAPIClusterRole], [ensureOpGroupClusterRole]), and the pruning of its provided APIs; and the labels
    of namespaces ([syncNamespace] of [operator.go]).

    Handlers are computations on calls (ClusterCalls.v); caches and answers are the environment [GroupEnv].  Deletion
    timestamps, which the model of CSVs leaves out, are asked for by name. *)

From S2P Require Import Prelude GoStrings GoHash RbacRules RbacAuthorizer OwnerUtil CatalogModel ResolverCache CsvTypes OperatorGroups ReplaceChain Requirements OperatorRbac ClusterCalls CsvCopies.
#[local] Open Scope p_scope.
#[local] Arguments String.append : simpl nomatch.

(** ** Data *)

(** An operator group with the parts of its status that [OperatorGroup] leaves out. *)
Record GroupObj := mkGroupObj { g_og : OperatorGroup; g_Conditions : list StatusCondition; g_LastUpdated : option Time }.
Definition g_Name (g : GroupObj) : string := og_Name (g_og g).
Definition g_Namespace (g : GroupObj) : string := og_Namespace (g_og g).
Definition withConditions (g : GroupObj) (conds : list StatusCondition) : GroupObj := mkGroupObj (g_og g) conds (g_LastUpdated g).
Definition withStatus (o : OperatorGroup) (namespaces : option (list string)) (ref : option string) : OperatorGroup :=
  mkGroup (og_Name o) (og_Namespace o) (og_UID o) (og_Annotations o) (og_Selector o) (og_TargetNamespaces o) (og_ServiceAccountName o) (og_StaticProvidedAPIs o)
    (og_SpecUpgradeStrategy o) namespaces ref.
(** The group as an owner. *)
Definition groupObject (o : OperatorGroup) : Object := mkObj TOperatorGroup noGVK (og_Name o) (og_Namespace o) (og_UID o) [] None.

(** A cluster role; an aggregation rule is a list of labels to match. *)
Record ClusterRoleObj := mkClusterRole { cr_obj : Object; cr_Rules : list PolicyRule; cr_Aggregation : option (list (gmap string string)) }.

Inductive GroupCall :=
  | GUpdateGroupStatus (g : GroupObj) | GUpdateGroup (g : GroupObj) | GUpdateCSVStatus (c : CSV) | GUpdateCSV (c : CSV)
  | GRequeueCSV (ns name : string) | GRequeueNamespace (name : string) | GRequeueGroup (ns name : string)
  | GCreateClusterRole (r : ClusterRoleObj) | GUpdateClusterRole (r : ClusterRoleObj) | GDeleteClusterRole (name : string)
  | GApplyServiceAccount (ns name : string) (labels : gmap string string) | GUpdateNamespace (name : string) (labels : option (gmap string string)).

Record GroupEnv := mkGroupEnv {
  ge_now : Time;
  ge_groups : string -> error + list GroupObj;
  ge_allGroups : error + list OperatorGroup;
  ge_allCSVs : error + list CSV;
  ge_csvs : string -> error + list CSV;
  ge_getCSV : string -> string -> error + CSV;
  ge_deleting : CSV -> bool;
  ge_selector : option string -> error + Selector;
  ge_namespaces : Selector -> error + list string;
  ge_listNamespaces : list string * option error;
  ge_clusterRoles : error + list ClusterRoleObj;
  ge_clusterRole : string -> error + ClusterRoleObj;
  ge_crd : string -> error + Object;
  ge_apiService : string -> error + Object;
  ge_serviceAccount : string -> string -> error + Object;
  ge_reference : Object -> error + string;
  ge_group : list GroupCall -> GroupCall -> error + GroupObj;
  ge_clusterRoleAnswer : list GroupCall -> GroupCall -> error + ClusterRoleObj;
  ge_do : list GroupCall -> GroupCall -> option error;
}.

Definition AdminSuffix : string := "admin".
Definition EditSuffix : string := "edit".
Definition ViewSuffix : string := "view".
Definition kubeResourceNameLimit : nat := 253.
Definition AdminVerbs : list string := ["*"].
Definition EditVerbs : list string := ["create"; "update"; "patch"; "delete"].
Definition Suffices : list string := [AdminSuffix; EditSuffix; ViewSuffix].
Definition VerbsForSuffix : gmap string (list string) := {[ AdminSuffix := AdminVerbs; EditSuffix := EditVerbs; ViewSuffix := ViewVerbs ]}.
Definition MutlipleOperatorGroupCondition : string := "MultipleOperatorGroup".
Definition OperatorGroupServiceAccountCondition : string := "OperatorGroupServiceAccount".

(** [meta.RemoveStatusCondition] *)
Definition RemoveStatusCondition (conds : list StatusCondition) (type : string) : list StatusCondition := List.filter (fun c => negb (bool_decide (sc_Type c = type))) conds.

Definition aggregationLabelFromAPIKey (k : APIKey) (suffix : string) : error + string :=
  match APIKeyToGVKHash k with inl err => inl err | inr hash => inr ("olm.opgroup.permissions/aggregate-to-" +:+ hash +:+ "-" +:+ suffix) end.

Section groups.
Context `{RangeOrder, RbacLib} (env : GroupEnv).
Abbreviation P := (P GroupCall).

Definition gdo (c : GroupCall) : P unit := check (perform (ge_do env) c).
(** Errors are logged only. *)
Definition gtry (c : GroupCall) : P unit := run! perform (ge_do env) c in pret tt.
Definition gdoUnlessGone (c : GroupCall) : P unit :=
  let! err := perform (ge_do env) c in match err with Some e => if IsNotFound (Some e) then pret tt else pfail e | None => pret tt end.

(** ** Cluster roles of provided APIs *)

Definition providedAPIClusterRole (name aggregationLabel suffix : string) (verbs : list string) (group resource : string) (resourceNames : list string) (api : Object) : ClusterRoleObj :=
  mkClusterRole
    (mkObj TClusterRole noGVK name "" "" [NonBlockingOwner api]
      (Some (<["rbac.authorization.k8s.io/aggregate-to-" +:+ suffix := "true"]> (<[aggregationLabel := "true"]> {[olmManagedKey := "true"]}))))
    [mkRule verbs [group] [resource] resourceNames None] None.

(** [labels.Equals] *)
Definition labelsEqual (a b : option (gmap string string)) : bool := bool_decide (default ∅ a = default ∅ b).

Definition ensureProvidedAPIClusterRole (namePrefix suffix : string) (verbs : list string) (group resource : string) (resourceNames : list string) (api : Object) (key : APIKey) : P unit :=
  let! aggregationLabel := plift (aggregationLabelFromAPIKey key suffix) in
  let clusterRole := providedAPIClusterRole (namePrefix +:+ suffix) aggregationLabel suffix verbs group resource resourceNames api in
  let! existingCR :=
    match ge_clusterRole env (OName (cr_obj clusterRole)) with
    | inr existing => pret existing
    | inl err => if IsNotFound (Some err) then must (perform (ge_clusterRoleAnswer env) (GCreateClusterRole clusterRole)) else pfail err
    end in
  if bool_decide (cr_Rules existingCR = cr_Rules clusterRole) && IsOwnedBy (cr_obj existingCR) api && labelsEqual (Labels (cr_obj existingCR)) (Labels (cr_obj clusterRole))
  then pret tt
  else run! must (perform (ge_clusterRoleAnswer env) (GUpdateClusterRole clusterRole)) in pret tt.

Definition ensureAllSuffixes (namePrefix group resource : string) (api : Object) (key : APIKey) : P unit :=
  pfor (range VerbsForSuffix) (fun sv => ensureProvidedAPIClusterRole namePrefix sv.1 sv.2 group resource [] api key).

Definition ensureRolesForCRD (owned : CRDDescription) : P unit :=
  match ge_crd env (crd_Name owned) with
  | inl err => pfail (ErrString ("crd " +:+ crd_Name owned +:+ " not found: " +:+ Error_ err))
  | inr crd =>
      let crd := setGVK crd (mkGVK "apiextensions.k8s.io" "v1" "customresourcedefinition") in
      match SplitN2 "."%char (crd_Name owned) with
      | [plural; group] =>
          let namePrefix := crd_Name owned +:+ "-" +:+ crd_Version owned +:+ "-" in
          let key := mkAPIKey group (crd_Version owned) (crd_Kind owned) plural in
          run! ensureAllSuffixes namePrefix group plural crd key in
          ensureProvidedAPIClusterRole (namePrefix +:+ "crd") ViewSuffix ["get"] "apiextensions.k8s.io" "customresourcedefinitions" [crd_Name owned] crd key
      | _ => pfail (ErrString ("invalid parsing of name '" +:+ crd_Name owned +:+ "'"))
      end
  end.

Definition ensureRolesForAPIService (owned : APIServiceDescription) : P unit :=
  let svcName := Join [as_Version owned; as_Group owned] "." in
  match ge_apiService env svcName with
  | inl err => pfail (ErrString ("apiservice " +:+ svcName +:+ " not found: " +:+ Error_ err))
  | inr svc => ensureAllSuffixes (as_Name owned +:+ "-" +:+ as_Version owned +:+ "-") (as_Group owned) (as_Name owned) svc (mkAPIKey (as_Group owned) (as_Version owned) (as_Kind owned) "")
  end.

Definition ensureClusterRolesForCSV (csv : CSV) : P unit :=
  run! pfor (spec_CRDs_Owned (csv_Spec csv)) ensureRolesForCRD in
  pfor (spec_APIServices_Owned (csv_Spec csv)) ensureRolesForAPIService.

(** ** Cluster roles of a group *)

(** [op.GetName()[:nameLimit]] *)
Definition getClusterRoleName (op : OperatorGroup) (roleType : string) : string :=
  let roleSuffix := toBase62 (sha224 (og_Namespace op +:+ "/" +:+ og_Name op +:+ "/" +:+ roleType)) in
  let nameLimit := (kubeResourceNameLimit - String.length "olm.og..-" - String.length roleType - String.length roleSuffix)%nat in
  let name := if (String.length (og_Name op) <? nameLimit)%nat then og_Name op else String.substring 0 nameLimit (og_Name op) in
  "olm.og." +:+ name +:+ "." +:+ roleType +:+ "-" +:+ roleSuffix.

Definition getClusterRoleAggregationRule (apis : APISet) (suffix : string) : error + option (list (gmap string string)) :=
  match foldE (fun selectors api => match aggregationLabelFromAPIKey api suffix with inl err => inl err | inr label => inr (selectors ++ [ {[ label := "true" ]} ]) end) []
          (range (gset_to_gmap tt apis)).*1 with
  | inl err => inl err
  | inr [] => inr None
  | inr selectors => inr (Some selectors)
  end.

(** The error of an update is lost: the source returns another variable of that name. *)
Definition ensureOpGroupClusterRole (op : OperatorGroup) (suffix : string) (apis : APISet) : P unit :=
  let clusterRoleName := getClusterRoleName op suffix in
  let! aggregationRule := plift (getClusterRoleAggregationRule apis suffix) in
  let create :=
    match AddOwnerLabels (mkObj TClusterRole noGVK clusterRoleName "" "" [] None) (groupObject op) with
    | None => pfail (ErrString "couldn't infer kind")
    | Some o => run! must (perform (ge_clusterRoleAnswer env) (GCreateClusterRole (mkClusterRole (SetLabels o (<[olmManagedKey := "true"]> (default ∅ (Labels o)))) [] aggregationRule))) in pret tt
    end in
  match ge_clusterRole env clusterRoleName with
  | inl err => if IsNotFound (Some err) then create else pfail err
  | inr existingRole =>
      match AddOwnerLabels (cr_obj existingRole) (groupObject op) with
      | None => pfail (ErrString "couldn't infer kind")
      | Some cp =>
          if labelsEqual (Labels (cr_obj existingRole)) (Labels cp) && bool_decide (cr_Aggregation existingRole = aggregationRule) then pret tt
          else run! perform (ge_clusterRoleAnswer env) (GUpdateClusterRole (mkClusterRole cp (cr_Rules existingRole) aggregationRule)) in pret tt
      end
  end.

Definition ensureOpGroupClusterRoles (op : OperatorGroup) (apis : APISet) : P unit := pfor Suffices (fun suffix => ensureOpGroupClusterRole op suffix apis).

(** ** Members of a group *)

Definition csvsInGroup (op : OperatorGroup) : list CSV := (range (csvSet (ge_csvs env (og_Namespace op)) CSVPhaseAny)).*2.

(** The CSV is requeued in the namespaces that were or are targets.  The namespaces of the cluster are ranged over only
    when listing them failed. *)
Definition requeueMember (original targets : NamespaceSet) (csv : CSV) : P unit :=
  let requeueNamespaces := NamespaceSet_Union original targets in
  run! if IsAllNamespaces requeueNamespaces then pret tt
       else pfor (range (gset_to_gmap tt requeueNamespaces)).*1 (fun ns => gtry (GRequeueCSV ns (csv_Name csv))) in
  match ge_listNamespaces env with
  | (namespaces, Some _) => pfor namespaces (fun ns => gtry (GRequeueCSV ns (csv_Name csv)))
  | (_, None) => pret tt
  end.

Definition annotated (group : OperatorGroup) (csv : CSV) : CSV := mkCSV (csv_obj csv) (setOperatorGroupAnnotations (csv_Annotations csv) group true) (csv_Spec csv) (csv_Status csv).

Definition annotateCSV (group : OperatorGroup) (targets : NamespaceSet) (updateErrs : list error) (csv : CSV) : P (list error) :=
  if IsCopied csv then pret updateErrs
  else
    let original := NewNamespaceSetFromString (default "" (copyOperatorGroupAnnotations (csv_Annotations csv) !! OperatorGroupTargetsAnnotationKey)) in
    let! err := if operatorGroupAnnotationsDiffer (csv_Annotations csv) group then perform (ge_do env) (GUpdateCSV (annotated group csv)) else pret None in
    match err with
    | Some e => if IsNotFound (Some e) then run! requeueMember original targets csv in pret updateErrs else pret (updateErrs ++ [e])
    | None => run! requeueMember original targets csv in pret updateErrs
    end.

Definition annotateCSVs (group : OperatorGroup) (targetNamespaces : list string) : P unit :=
  let! updateErrs := pfold (annotateCSV group (NewNamespaceSet targetNamespaces)) [] (csvsInGroup group) in
  match NewAggregate updateErrs with Some err => pfail err | None => pret tt end.

(** CSVs whose names cannot be parsed are left out. *)
Definition providedAPIsFromCSVs (group : OperatorGroup) : gmap APIKey CSV :=
  foldl (fun m csv =>
    if IsCopied csv then m
    else match apiSurfaceOfCSV csv with
         | inl _ => m
         | inr surface => foldl (fun m api => <[api := csv]> m) m (elements (StripPlural (os_ProvidedAPIs surface)))
         end) ∅ (csvsInGroup group).

(** A CSV that has not got to annotating its APIs yet. *)
Definition notAnnotatedYet (csv : CSV) : bool :=
  match ge_getCSV env (csv_Namespace csv) (csv_Name csv) with
  | inl err => if IsNotFound (Some err) then false else negb (ge_deleting env csv) && (bool_decide (csv_Phase csv = CSVPhaseNone) || bool_decide (csv_Phase csv = CSVPhasePending))
  | inr _ => negb (ge_deleting env csv) && (bool_decide (csv_Phase csv = CSVPhaseNone) || bool_decide (csv_Phase csv = CSVPhasePending))
  end.

Definition pruneProvidedAPIs (g : GroupObj) (groupProvidedAPIs : APISet) (fromCSVs : gmap APIKey CSV) : P unit :=
  if og_StaticProvidedAPIs (g_og g) then pret tt
  else if existsb (fun kv => negb (bool_decide (kv.1 ∈ groupProvidedAPIs)) && notAnnotatedYet kv.2) (range fromCSVs) then pret tt
  else
    let intersection : APISet := filter (fun api => api ∈ groupProvidedAPIs) (dom fromCSVs) in
    if (size intersection <? size groupProvidedAPIs)%nat then
      gtry (GUpdateGroup (mkGroupObj (annotate (g_og g) intersection) (g_Conditions g) (g_LastUpdated g)))
    else pret tt.

Definition findCSVsThatProvideAnyOf (provide : APISet) : error + list CSV :=
  match ge_allCSVs env with
  | inl err => inl err
  | inr csvs => inr (List.filter (fun csv =>
      negb (IsCopied csv) && match apiSurfaceOfCSV csv with
                             | inl _ => false
                             | inr surface => (0 <? size (Intersection (StripPlural (os_ProvidedAPIs surface)) [provide]))%nat
                             end) csvs)
  end.

(** ** The service account of a group *)

(** [update]: stores the reference; the answer replaces the group. *)
Definition updateServiceAccount (g : GroupObj) (ref : option string) : P (error + GroupObj) :=
  perform (ge_group env) (GUpdateGroupStatus (mkGroupObj (withStatus (g_og g) (og_StatusNamespaces (g_og g)) ref) (g_Conditions g) (Some (ge_now env)))).

Definition orMessage {A} (msg : string) (r : error + A) : P A := match r with inl err => pfail (ErrString (msg +:+ " " +:+ Error_ err)) | inr x => pret x end.

Definition SyncOperatorGroup (g : GroupObj) : P GroupObj :=
  let name := og_ServiceAccountName (g_og g) in
  if bool_decide (name = "") then
    match og_ServiceAccountRef (g_og g) with
    | None => pret g
    | Some _ =>
        let! out := updateServiceAccount (withConditions g (RemoveStatusCondition (g_Conditions g) OperatorGroupServiceAccountCondition)) None in
        orMessage ("failed to reset status.serviceAccount, sa=" +:+ name) out
    end
  else
    match ge_serviceAccount env (g_Namespace g) name with
    | inl err =>
        run! if IsNotFound (Some err) then
               let cond := mkStatusCondition OperatorGroupServiceAccountCondition "True" "ServiceAccountNotFound" ("ServiceAccount " +:+ name +:+ " not found") in
               run! updateServiceAccount (withConditions g (SetStatusCondition (g_Conditions g) cond)) None in pret tt
             else pret tt in
        pfail (ErrString ("failed to get service account, sa=" +:+ name +:+ " " +:+ Error_ err))
    | inr sa =>
        let! applied := perform (ge_do env) (GApplyServiceAccount (g_Namespace g) name {[olmManagedKey := "true"]}) in
        match applied with
        | Some err => pfail (wrapErr ("failed to apply labels[olm.managed]=true to serviceaccount " +:+ g_Namespace g +:+ "/" +:+ name) err)
        | None =>
            let! ref := plift (ge_reference env sa) in
            if bool_decide (og_ServiceAccountRef (g_og g) = Some ref) then pret g
            else
              let! out := updateServiceAccount (withConditions g (RemoveStatusCondition (g_Conditions g) OperatorGroupServiceAccountCondition)) (Some ref) in
              orMessage ("failed to set status.serviceAccount, sa=" +:+ name) out
        end
    end.

(** ** Several groups in a namespace *)

Definition multipleGroups : StatusCondition :=
  mkStatusCondition MutlipleOperatorGroupCondition "True" "MultipleOperatorGroupsFound" "Multiple OperatorGroup found in the same namespace".
(** The condition is set or removed on each group, and on the one that is synced; errors are logged. *)
Definition markGroup (g : GroupObj) (og : GroupObj) : P GroupObj :=
  match FindStatusConditionOf (g_Conditions og) MutlipleOperatorGroupCondition with
  | Some _ => pret g
  | None =>
      run! perform (ge_group env) (GUpdateGroupStatus (withConditions og (SetStatusCondition (g_Conditions og) multipleGroups))) in
      pret (if bool_decide (g_Name og = g_Name g) then withConditions g (SetStatusCondition (g_Conditions g) multipleGroups) else g)
  end.
Definition markMultiple (g : GroupObj) : P GroupObj :=
  match ge_groups env (g_Namespace g) with
  | inr [og] =>
      match FindStatusConditionOf (g_Conditions og) MutlipleOperatorGroupCondition with
      | None => pret g
      | Some _ =>
          run! perform (ge_group env) (GUpdateGroupStatus (withConditions og (RemoveStatusCondition (g_Conditions og) MutlipleOperatorGroupCondition))) in
          pret (if bool_decide (g_Name og = g_Name g) then withConditions g (RemoveStatusCondition (g_Conditions g) MutlipleOperatorGroupCondition) else g)
      end
  | inr (og1 :: og2 :: ogs) => pfold markGroup g (og1 :: og2 :: ogs)
  | _ => pret g
  end.

(** ** The sync *)

(** CSVs that failed for good are tried again. *)
Definition retryFailed (g : GroupObj) (csv : CSV) : P unit :=
  if bool_decide (annotation (csv_Annotations csv) OperatorGroupAnnotationKey = Some (g_Name g)) && bool_decide (csv_Reason csv = CSVReasonComponentFailedNoRetry) then
    run! gdo (GUpdateCSVStatus (SetPhase csv CSVPhasePending CSVReasonDetectedClusterChange "Cluster resources changed state" (Some (ge_now env)))) in
    gdo (GRequeueCSV (csv_Namespace csv) (csv_Name csv))
  else pret tt.

(** The reference is compared with a copy of the old one as a pointer: they are equal when both are nil. *)
Definition retryAfterSync (previousRef : option string) (g : GroupObj) : P unit :=
  match previousRef, og_ServiceAccountRef (g_og g) with
  | None, None => pret tt
  | _, _ => let! csvList := plift (ge_allCSVs env) in pfor csvList (retryFailed g)
  end.

(** The new status keeps the conditions, and not the service account. *)
Definition updateTargets (g : GroupObj) (targetNamespaces : list string) : P unit :=
  run! gdoUnlessGone (GUpdateGroupStatus (mkGroupObj (withStatus (g_og g) (Some targetNamespaces) None) (g_Conditions g) (Some (ge_now env)))) in
  pfor (namespacesAddedOrRemoved (og_Namespaces (g_og g)) targetNamespaces) (fun ns => gtry (GRequeueNamespace ns)).

Definition syncMembers (g : GroupObj) (targetNamespaces : list string) : P unit :=
  run! annotateCSVs (g_og g) targetNamespaces in
  let groupProvidedAPIs := gs_providedAPIs (NewOperatorGroup (g_og g)) in
  let fromCSVs := providedAPIsFromCSVs (g_og g) in
  let providedAPIsForGroup : APISet := dom fromCSVs ∪ groupProvidedAPIs in
  run! ensureOpGroupClusterRoles (g_og g) providedAPIsForGroup in
  run! match findCSVsThatProvideAnyOf providedAPIsForGroup with
       | inl _ => pret tt
       | inr csvs => pfor csvs (fun csv => gtry (GRequeueCSV (csv_Namespace csv) (csv_Name csv)))
       end in
  pruneProvidedAPIs g groupProvidedAPIs fromCSVs.

Definition syncOperatorGroups (g : GroupObj) : P unit :=
  let! g := markMultiple g in
  let previousRef := og_ServiceAccountRef (g_og g) in
  let! g := SyncOperatorGroup g in
  run! retryAfterSync previousRef g in
  let! targetNamespaces := plift (updateNamespaceList (ge_selector env) (ge_namespaces env) (g_og g)) in
  if namespacesChanged targetNamespaces (og_Namespaces (g_og g)) then updateTargets g targetNamespaces else syncMembers g targetNamespaces.

Definition operatorGroupDeleted (op : OperatorGroup) : P unit :=
  match ge_clusterRoles env with
  | inl _ => pret tt
  | inr clusterRoles =>
      run! pfor (List.filter (fun r => selects (OwnerLabel (groupObject op) "OperatorGroup") (cr_obj r)) clusterRoles) (fun r => gtry (GDeleteClusterRole (OName (cr_obj r)))) in
      pfor (og_Namespaces op) (fun ns => gtry (GRequeueNamespace ns))
  end.

(** ** The labels of a namespace *)

Definition desiredGroupLabels (groups : list OperatorGroup) (namespace : string) : error + gmap string string :=
  foldE (fun labels group =>
    let namespaceSet := NewNamespaceSet (og_Namespaces group) in
    if Contains namespaceSet namespace && negb (IsAllNamespaces namespaceSet)
    then match OGLabelKeyAndValue group with inl err => inl err | inr (k, v) => inr (<[k := v]> labels) end
    else inr labels) ∅ groups.

Definition groupLabelsChanged (labels desired : gmap string string) : bool :=
  existsb (fun kv => IsOperatorGroupLabel kv.1 && negb (bool_decide (desired !! kv.1 = Some kv.2))) (range labels)
  || existsb (fun kv => negb (bool_decide (labels !! kv.1 = Some kv.2))) (range desired).

Definition relabelled (labels : option (gmap string string)) (desired : gmap string string) : option (gmap string string) :=
  match labels with
  | None => if (size desired =? 0)%nat then None else Some desired
  | Some labels => Some (desired ∪ filter (fun kv => IsOperatorGroupLabel kv.1 = false) labels)
  end.

Definition syncNamespace (namespace : string) (labels : option (gmap string string)) : P unit :=
  let! groups := plift (ge_allGroups env) in
  let! desired := plift (desiredGroupLabels groups namespace) in
  if groupLabelsChanged (default ∅ labels) desired then gdo (GUpdateNamespace namespace (relabelled labels desired)) else pret tt.

Definition namespaceAddedOrRemoved (namespace : string) : P unit :=
  match ge_allGroups env with
  | inl _ => pret tt
  | inr groups => pfor (List.filter (fun g => Contains (NewNamespaceSet (og_Namespaces g)) namespace) groups) (fun g => gtry (GRequeueGroup (og_Namespace g) (og_Name g)))
  end.
End groups.

(** ** The labels of a namespace are those of the groups that target it *)

(** The groups whose label a namespace has to have. *)
Definition labelsNamespace (namespace : string) (group : OperatorGroup) : Prop :=
  let targets := NewNamespaceSet (og_Namespaces group) in Contains targets namespace = true /\ IsAllNamespaces targets = false.

Lemma desiredGroupLabels_spec groups namespace desired : desiredGroupLabels groups namespace = inr desired ->
  forall k v, desired !! k = Some v <-> v = "" /\ exists group, group ∈ groups /\ labelsNamespace namespace group /\ k = OperatorGroupLabelPrefix +:+ og_UID group.
Proof.
  unfold desiredGroupLabels. intros Hf.
  refine (foldE_inv _ (fun dn (acc : gmap string string) => forall k v, acc !! k = Some v <-> v = "" /\ exists group, group ∈ dn /\ labelsNamespace namespace group /\ k = OperatorGroupLabelPrefix +:+ og_UID group) ∅ groups desired _ _ Hf).
  - intros k v. rewrite lookup_empty. split; [done|]. by intros (_ & g & ?%elem_of_nil & _).
  - intros dn g acc acc' IH Hs k v. unfold labelsNamespace in *. destruct (Contains _ namespace && negb _) eqn:Ec.
    + apply andb_true_iff in Ec as [Ec Ea%negb_true_iff]. unfold OGLabelKeyAndValue in Hs. case_bool_decide; [done|]. injection Hs as <-.
      rewrite lookup_insert_Some, IH. setoid_rewrite elem_of_app. setoid_rewrite list_elem_of_singleton. split.
      * intros [[<- <-]|[_ (-> & g' & Hg' & Hrest)]]; (split; [done|]); [by exists g; auto|exists g'; auto].
      * intros (-> & g' & [Hg'| ->] & Hl & ->); [|by left].
        destruct (decide (OperatorGroupLabelPrefix +:+ og_UID g = OperatorGroupLabelPrefix +:+ og_UID g')) as [E|E]; [by left|right; split; [done|]]. split; [done|]. exists g'. auto.
    + injection Hs as <-. rewrite IH. setoid_rewrite elem_of_app. setoid_rewrite list_elem_of_singleton. split; [intros (-> & g1 & Hg1 & Hrest); split; [done|]; exists g1; auto|].
      intros (-> & g' & [Hg'| ->] & [Hc Ha] & ->); [split; [done|]; exists g'; auto|]. by rewrite Hc, Ha in Ec.
Qed.

Lemma groupLabelsChanged_false `{RangeOrder} labels desired :
  (forall k v, desired !! k = Some v -> IsOperatorGroupLabel k = true) ->
  groupLabelsChanged labels desired = false <-> forall k, IsOperatorGroupLabel k = true -> labels !! k = desired !! k.
Proof.
  intros Hd. unfold groupLabelsChanged. rewrite orb_false_iff, !existsb_not_elem_of. split.
  - intros [H1 H2] k Hk. destruct (desired !! k) as [v|] eqn:Ed.
    + specialize (H2 (k, v)). rewrite elem_of_range in H2. specialize (H2 Ed). by apply negb_false_iff, bool_decide_eq_true in H2.
    + destruct (labels !! k) as [v|] eqn:El; [|done]. specialize (H1 (k, v)). rewrite elem_of_range in H1. specialize (H1 El). cbn [fst snd] in H1.
      rewrite Hk in H1. apply negb_false_iff, bool_decide_eq_true in H1. congruence.
  - intros Heq. split; intros [k v] Hin%elem_of_range; cbn [fst snd].
    + destruct (IsOperatorGroupLabel k) eqn:Ek; [|done]. cbn [fst snd]. apply negb_false_iff, bool_decide_eq_true. by rewrite <- Heq.
    + apply negb_false_iff, bool_decide_eq_true. rewrite Heq; [done|by eapply Hd].
Qed.

Lemma relabelled_lookup labels desired k : (forall k v, desired !! k = Some v -> IsOperatorGroupLabel k = true) ->
  default ∅ (relabelled labels desired) !! k = if IsOperatorGroupLabel k then desired !! k else default ∅ labels !! k.
Proof.
  intros Hd. unfold relabelled. destruct labels as [labels|]; cbn [default from_option id].
  - destruct (IsOperatorGroupLabel k) eqn:Ek.
    + destruct (desired !! k) as [v|] eqn:Ed; [by apply lookup_union_Some_l|]. apply lookup_union_None. split; [done|]. apply map_lookup_filter_None. right. intros v _. cbn [fst]. rewrite Ek. done.
    + rewrite lookup_union_r; [|destruct (desired !! k) eqn:Ed; [apply Hd in Ed; congruence|done]]. rewrite map_lookup_filter. destruct (labels !! k) as [v|] eqn:El; [|done].
      cbn [mbind option_bind fst]. by rewrite option_guard_True.
  - destruct (size desired =? 0)%nat eqn:Es.
    + apply Nat.eqb_eq, map_size_empty_inv in Es as ->. rewrite !lookup_empty. by destruct (IsOperatorGroupLabel k).
    + cbn [default from_option id]. destruct (IsOperatorGroupLabel k) eqn:Ek; [done|]. rewrite lookup_empty. destruct (desired !! k) eqn:Ed; [apply Hd in Ed; congruence|done].
Qed.

(** The labels of the namespace after the calls. *)
Definition labelsAfter (labels : option (gmap string string)) (calls : list GroupCall) : option (gmap string string) :=
  foldl (fun l c => match c with GUpdateNamespace _ l' => l' | _ => l end) labels calls.

(** The sync of a namespace that ends without an error leaves it with the labels of exactly the operator groups
    that target it and not all namespaces; other labels stay as they are, and a namespace whose labels are right is not
    written. *)
Theorem syncNamespace_correct `{RangeOrder, RbacLib} (env : GroupEnv) (groups : list OperatorGroup) (namespace : string) (labels : option (gmap string string)) :
  ge_allGroups env = inr groups -> result_of (syncNamespace env namespace labels) = inr tt ->
  let after := default ∅ (labelsAfter labels (calls_of (syncNamespace env namespace labels))) in
  (forall k, IsOperatorGroupLabel k = true -> is_Some (after !! k) <-> exists group, group ∈ groups /\ labelsNamespace namespace group /\ k = OperatorGroupLabelPrefix +:+ og_UID group) /\
  (forall k, IsOperatorGroupLabel k = false -> after !! k = default ∅ labels !! k) /\
  (after = default ∅ labels <-> calls_of (syncNamespace env namespace labels) = []).
Proof.
  intros Hg Hres. unfold result_of, calls_of, syncNamespace, plift, pbind in *. rewrite Hg in *. destruct (desiredGroupLabels groups namespace) as [|desired] eqn:Ed; [done|].
  pose proof (desiredGroupLabels_spec _ _ _ Ed) as Hspec.
  assert (Hd : forall k v, desired !! k = Some v -> IsOperatorGroupLabel k = true).
  { intros k v (_ & g & _ & _ & ->)%Hspec. unfold IsOperatorGroupLabel. apply HasPrefix_app. }
  assert (Hdom : forall k, is_Some (desired !! k) <-> exists group, group ∈ groups /\ labelsNamespace namespace group /\ k = OperatorGroupLabelPrefix +:+ og_UID group).
  { intros k. split; [intros [v [_ Hv]%Hspec]; done|]. intros Hx. exists "". by apply Hspec. }
  pose proof (groupLabelsChanged_false (default ∅ labels) desired Hd) as Hch. destruct (groupLabelsChanged (default ∅ labels) desired) eqn:Ec.
  - unfold gdo, check, pbind, perform in *. destruct (ge_do env [] _) as [err|]; [done|]. cbn [pret fst app labelsAfter foldl] in *. split; [|split].
    + intros k Hk. rewrite relabelled_lookup by done. by rewrite Hk, Hdom.
    + intros k Hk. rewrite relabelled_lookup by done. by rewrite Hk.
    + split; [|done]. intros Heq. exfalso. enough (true = false) by done. apply Hch. intros k Hk. rewrite <- Heq, relabelled_lookup by done. by rewrite Hk.
  - cbn [pret fst labelsAfter foldl]. split; [|by split]. intros k Hk. rewrite <- Hdom. by rewrite (proj1 Hch eq_refl k Hk).
Qed.

(** ** Names of cluster roles *)

(** The cluster roles of a group have names that the API server accepts: with one of the suffixes in use they are at
    most 253 bytes long, however long the name of the group is. *)
Theorem getClusterRoleName_bound `{RbacLib} (op : OperatorGroup) (suffix : string) : suffix ∈ Suffices -> (String.length (getClusterRoleName op suffix) <= kubeResourceNameLimit)%nat.
Proof.
  intros Hs. unfold getClusterRoleName. set (hash := toBase62 _). assert (String.length hash <= 38)%nat as Hh by apply toBase62_length.
  assert (String.length suffix <= 5)%nat as Hl by (unfold Suffices in Hs; set_unfold; destruct Hs as [->|[->|[->|[]]]]; cbn; lia).
  rewrite !str_length_app. unfold kubeResourceNameLimit. cbn [String.length]. destruct (Nat.ltb_spec (String.length (og_Name op)) (253 - 9 - String.length suffix - String.length hash)); [lia|].
  rewrite substring_0_length. lia.
Qed.

(** ** Provided APIs are pruned, never added *)

(** Pruning leaves the annotation of a group as it is, or makes the set of APIs it lists the intersection of those it
    listed with those its members provide.  It leaves it when the group is static, when all listed APIs are provided, or
    when a member that is about to add APIs has not done so. *)
Theorem pruneProvidedAPIs_correct `{RangeOrder, RbacLib} (env : GroupEnv) (g : GroupObj) :
  let listed := gs_providedAPIs (NewOperatorGroup (g_og g)) in
  let fromCSVs := providedAPIsFromCSVs env (g_og g) in
  let waits := exists api csv, fromCSVs !! api = Some csv /\ api ∉ listed /\ notAnnotatedYet env csv = true in
  calls_of (pruneProvidedAPIs env g listed fromCSVs) = [] /\ (og_StaticProvidedAPIs (g_og g) = true \/ waits \/ listed ⊆ dom fromCSVs) \/
  exists g', calls_of (pruneProvidedAPIs env g listed fromCSVs) = [GUpdateGroup g'] /\ og_StaticProvidedAPIs (g_og g) = false /\ ~ waits /\
    gs_providedAPIs (NewOperatorGroup (g_og g')) = listed ∩ dom fromCSVs /\ gs_providedAPIs (NewOperatorGroup (g_og g')) ⊂ listed /\
    gs_targets (NewOperatorGroup (g_og g')) = gs_targets (NewOperatorGroup (g_og g)).
Proof.
  intros listed fromCSVs waits. unfold pruneProvidedAPIs. destruct (og_StaticProvidedAPIs (g_og g)) eqn:Est; [left; auto|].
  assert (Hw : existsb (fun kv => negb (bool_decide (kv.1 ∈ listed)) && notAnnotatedYet env kv.2) (range fromCSVs) = true <-> waits).
  { rewrite existsb_exists. unfold waits. split.
    - intros ([api csv] & Hin & Hb). apply list_elem_of_In, elem_of_range in Hin. apply andb_true_iff in Hb as [Hn%negb_true_iff Hy]. apply bool_decide_eq_false in Hn. eauto.
    - intros (api & csv & Hin & Hn & Hy). exists (api, csv). split; [by apply list_elem_of_In, elem_of_range|]. cbn. by rewrite bool_decide_false. }
  destruct (existsb _ (range fromCSVs)) eqn:Ew; [left; split; [done|]; right; left; by apply Hw|].
  set (inter := filter (fun api => api ∈ listed) (dom fromCSVs) : APISet). assert (Hinter : inter = listed ∩ dom fromCSVs) by (apply set_eq; intros x; unfold inter; rewrite elem_of_filter, elem_of_intersection; tauto).
  assert (Hsub : inter ⊆ listed) by (rewrite Hinter; apply intersection_subseteq_l).
  destruct (Nat.ltb_spec (size inter) (size listed)) as [Hlt|Hge].
  - right. exists (mkGroupObj (annotate (g_og g) inter) (g_Conditions g) (g_LastUpdated g)). unfold calls_of, gtry, pbind, perform. cbn [fst app pret g_og]. split; [done|]. split; [done|].
    split; [by intros ?%Hw|]. rewrite annotate_surface. 2:{ intros k Hk. apply (parsed_keys (default "" (annotation (og_Annotations (g_og g)) OperatorGroupProvidedAPIsAnnotationKey))). by apply Hsub. }
    cbn [gs_providedAPIs gs_targets]. split; [done|]. split; [|done]. split; [done|]. intros Hsup. apply subseteq_size in Hsup. lia.
  - left. split; [done|]. right; right. assert (inter = listed) as Heq by (apply set_subseteq_size_eq; [done|lia]). transitivity inter; [by rewrite Heq|]. rewrite Hinter. apply intersection_subseteq_r.
Qed.

(** ** Members carry the annotations of their group *)

Section members.
Context `{RangeOrder, RbacLib} (env : GroupEnv) (group : OperatorGroup) (targets : NamespaceSet).

Definition is_requeue (c : GroupCall) : Prop := match c with GRequeueCSV _ _ => True | _ => False end.
Lemma requeueMember_calls original csv : makes_only is_requeue (requeueMember env original targets csv).
Proof. unfold requeueMember, gtry. by calls. Qed.

(** A computation that cannot fail. *)
Lemma gtry_ok (c : GroupCall) h : gtry env c h = (h ++ [c], inr tt).
Proof. done. Qed.
Lemma requeueMember_ok original csv h : exists new, requeueMember env original targets csv h = (h ++ new, inr tt) /\ Forall is_requeue new.
Proof.
  destruct (requeueMember_calls original csv h) as (new & E & F). exists new. split; [|done]. rewrite (surjective_pairing (requeueMember env original targets csv h)), E. f_equal.
  unfold requeueMember, pbind. destruct (IsAllNamespaces _); [cbn|rewrite (pfor_succeeds _ _ (fun ns => [GRequeueCSV ns (csv_Name csv)])) by done];
    (destruct (ge_listNamespaces env) as [nss [e|]]; [by rewrite (pfor_succeeds _ _ (fun ns => [GRequeueCSV ns (csv_Name csv)])) by done|done]).
Qed.

Definition to_annotate (csv : CSV) : Prop := IsCopied csv = false /\ operatorGroupAnnotationsDiffer (csv_Annotations csv) group = true.

Lemma annotateCSV_calls errs csv h : exists new errs', annotateCSV env group targets errs csv h = (h ++ new, inr errs') /\
  (forall c, c ∈ new -> is_requeue c \/ to_annotate csv /\ c = GUpdateCSV (annotated group csv)) /\ (to_annotate csv -> GUpdateCSV (annotated group csv) ∈ new).
Proof.
  unfold annotateCSV, to_annotate. destruct (IsCopied csv) eqn:Ec.
  { exists [], errs. unfold pret. rewrite app_nil_r. split; [done|]. split; [by intros c ?%elem_of_nil|by intros []]. }
  set (original := NewNamespaceSetFromString _). destruct (operatorGroupAnnotationsDiffer (csv_Annotations csv) group) eqn:Ed.
  - destruct (requeueMember_ok original csv (h ++ [GUpdateCSV (annotated group csv)])) as (new & E & F).
    assert (exists errs' tl, (tl = [] \/ tl = new) /\ pbind (perform (ge_do env) (GUpdateCSV (annotated group csv))) (fun err => match err with
        | Some e => if IsNotFound (Some e) then pbind (requeueMember env original targets csv) (fun _ => pret errs) else pret (errs ++ [e])
        | None => pbind (requeueMember env original targets csv) (fun _ => pret errs) end) h = (h ++ GUpdateCSV (annotated group csv) :: tl, inr errs')) as (errs' & tl & Htl & ->).
    { unfold pbind, perform. destruct (ge_do env h _) as [e|]; [destruct (IsNotFound (Some e))|]; try (rewrite E; exists errs, new; split; [auto|]; by rewrite <- app_assoc).
      exists (errs ++ [e]), []. split; [auto|done]. }
    exists (GUpdateCSV (annotated group csv) :: tl), errs'. split; [done|]. split; [|intros _; by left]. intros c [->|Hc]%elem_of_cons; [by right|left].
    destruct Htl as [->| ->]; [by apply elem_of_nil in Hc|]. by eapply Forall_forall in F.
  - destruct (requeueMember_ok original csv h) as (new & E & F). exists new, errs. unfold pbind. cbn [pret]. rewrite E. split; [done|]. split; [|by intros []].
    intros c Hc. left. by eapply Forall_forall in F.
Qed.

Lemma annotate_fold csvs errs h : exists new errs', pfold (annotateCSV env group targets) errs csvs h = (h ++ new, inr errs') /\
  (forall c, c ∈ new -> is_requeue c \/ exists csv, csv ∈ csvs /\ to_annotate csv /\ c = GUpdateCSV (annotated group csv)) /\
  (forall csv, csv ∈ csvs -> to_annotate csv -> GUpdateCSV (annotated group csv) ∈ new).
Proof.
  revert errs h. induction csvs as [|csv csvs IH]; intros errs h.
  { exists [], errs. cbn. unfold pret. rewrite app_nil_r. split; [done|]. split; [by intros c ?%elem_of_nil|by intros c ?%elem_of_nil]. }
  destruct (annotateCSV_calls errs csv h) as (n1 & e1 & E1 & H1a & H1b). destruct (IH e1 (h ++ n1)) as (n2 & e2 & E2 & H2a & H2b).
  exists (n1 ++ n2), e2. cbn [pfold]. unfold pbind at 1. rewrite E1, E2, app_assoc. split; [done|]. split.
  - intros c [Hc|Hc]%elem_of_app; [destruct (H1a c Hc) as [|[Ha ->]]; [by left|right; exists csv; by rewrite elem_of_cons; auto]|].
    destruct (H2a c Hc) as [|(y & Hy & Ha & ->)]; [by left|right; exists y; rewrite elem_of_cons; auto].
  - intros y [->|Hy]%elem_of_cons Ha; apply elem_of_app; [left|right]; auto.
Qed.
End members.

(** Annotating the members of a group writes exactly the CSVs of its namespace that are not copies and whose
    annotations differ from those of the group, each with the annotations that do not differ any more; besides, CSVs are
    only requeued. *)
Theorem annotateCSVs_correct `{RangeOrder, RbacLib} (env : GroupEnv) (group : OperatorGroup) (targetNamespaces : list string) :
  is_Some (og_StatusNamespaces group) ->
  let calls := calls_of (annotateCSVs env group targetNamespaces) in
  (forall c, GUpdateCSV c ∈ calls <-> exists csv, csv ∈ csvsInGroup env group /\ to_annotate group csv /\ c = annotated group csv) /\
  (forall c, GUpdateCSV c ∈ calls -> operatorGroupAnnotationsDiffer (csv_Annotations c) group = false) /\
  (forall c, c ∈ calls -> is_requeue c \/ exists x, c = GUpdateCSV x).
Proof.
  intros Hst calls. destruct (annotate_fold env group (NewNamespaceSet targetNamespaces) (csvsInGroup env group) [] []) as (new & errs & E & Ha & Hb).
  assert (calls = new) as ->. { unfold calls, calls_of, annotateCSVs, pbind. rewrite E. by destruct (NewAggregate errs). }
  assert (Hiff : forall c, GUpdateCSV c ∈ new <-> exists csv, csv ∈ csvsInGroup env group /\ to_annotate group csv /\ c = annotated group csv).
  { intros c. split; [|intros (csv & Hc & Hta & ->); auto]. intros [[]|(csv & Hc & Hta & [= ->])]%Ha. eauto. }
  split; [done|]. split.
  - intros c (csv & _ & _ & ->)%Hiff. by apply annotations_settle.
  - intros c [|(csv & _ & _ & ->)]%Ha; eauto.
Qed.

(** Members of a group that targets all namespaces, or did before, are not requeued at all: the branch that requeues
    them everywhere runs only when listing the namespaces failed. *)
Theorem all_namespaces_not_requeued `{RangeOrder, RbacLib} (env : GroupEnv) (original targets : NamespaceSet) (csv : CSV) (namespaces : list string) :
  IsAllNamespaces original = true \/ IsAllNamespaces targets = true -> ge_listNamespaces env = (namespaces, None) -> calls_of (requeueMember env original targets csv) = [].
Proof.
  intros Hall Hl. unfold calls_of, requeueMember, pbind. rewrite Hl.
  assert (IsAllNamespaces (NamespaceSet_Union original targets) = true) as ->; [|done]. unfold NamespaceSet_Union. destruct (IsAllNamespaces original) eqn:Eo; [done|]. destruct Hall as [|Ht]; [done|]. by rewrite Ht.
Qed.

(** ** The roles of a group aggregate those of the APIs it provides *)

Section aggregation.
Context `{RangeOrder, RbacLib} (env : GroupEnv).

(** The lister gives the role of the name. *)
Definition roles_named : Prop := forall name r, ge_clusterRole env name = inr r -> OName (cr_obj r) = name.
(** What a handler leaves: a role that it wrote, or that was there. *)
Definition leaves (calls : list GroupCall) (role : ClusterRoleObj) : Prop :=
  GCreateClusterRole role ∈ calls \/ GUpdateClusterRole role ∈ calls \/ ge_clusterRole env (OName (cr_obj role)) = inr role.
Context (named : roles_named).

(** The label is a function of group, version and kind. *)
Definition aggregationLabel (key : APIKey) (suffix : string) : string := "olm.opgroup.permissions/aggregate-to-" +:+ hex (Sum64a (APIKeyToGVKString key)) +:+ "-" +:+ suffix.

Lemma ensureProvided_leaves prefix suffix verbs group resource names api key h h' :
  ensureProvidedAPIClusterRole env prefix suffix verbs group resource names api key h = (h', inr tt) ->
  let wanted := providedAPIClusterRole (prefix +:+ suffix) (aggregationLabel key suffix) suffix verbs group resource names api in
  exists role, leaves h' role /\ OName (cr_obj role) = prefix +:+ suffix /\ cr_Rules role = cr_Rules wanted /\ default ∅ (Labels (cr_obj role)) = default ∅ (Labels (cr_obj wanted)).
Proof using named.
  intros E. cbv zeta. set (wanted := providedAPIClusterRole (prefix +:+ suffix) (aggregationLabel key suffix) suffix verbs group resource names api). unfold ensureProvidedAPIClusterRole in E. run_step E. run_step E0. change (aggregationLabelFromAPIKey key suffix) with (inr (A := error) (aggregationLabel key suffix)) in E0. injection E0 as <-. cbv zeta in E. fold wanted in E. run_step E.
  assert (forall r h g, must (perform (ge_clusterRoleAnswer env) (GCreateClusterRole wanted)) h = (g, inr r) -> GCreateClusterRole wanted ∈ g) as Hcreate.
  { intros r g g' Em. unfold must, perform, pbind, plift in Em. injection Em as <- _. apply elem_of_app. right. by left. }
  destruct (_ && _ && _) eqn:Ek.
  - run_step E. apply andb_prop in Ek as [[Er _]%andb_prop El]. unfold labelsEqual in El. apply bool_decide_eq_true in Er, El.
    destruct (ge_clusterRole env _) as [err|existing] eqn:Ee.
    + destruct (IsNotFound _); [|done]. exists wanted. split_and!; [left; by eapply Hcreate|done..].
    + pose proof (named _ _ Ee) as Hn. exists existing. run_step E0. subst. split_and!; [right; right; by rewrite Hn|by rewrite Hn|done|done].
  - run_step E. run_step E. exists wanted. split_and!; [right; left|done..]. unfold must, perform, pbind, plift in E1. injection E1 as <- _. apply elem_of_app. right. by left.
Qed.

Lemma AddOwnerLabels_same_name o owner o' : AddOwnerLabels o owner = Some o' -> OName o' = OName o.
Proof. unfold AddOwnerLabels. destruct (InferGroupVersionKind owner) as [owner' []]; [|done]. by intros [= <-]. Qed.
Lemma ensureRolesForCRD_makes d : makes_only (fun _ => True) (ensureRolesForCRD env d).
Proof. unfold ensureRolesForCRD, ensureAllSuffixes, ensureProvidedAPIClusterRole. by calls. Qed.
Lemma ensureRolesForAPIService_makes d : makes_only (fun _ => True) (ensureRolesForAPIService env d).
Proof. unfold ensureRolesForAPIService, ensureAllSuffixes, ensureProvidedAPIClusterRole. by calls. Qed.

Lemma role_label name label suffix verbs group resource names api : label <> "rbac.authorization.k8s.io/aggregate-to-" +:+ suffix ->
  default ∅ (Labels (cr_obj (providedAPIClusterRole name label suffix verbs group resource names api))) !! label = Some "true".
Proof. intros Hne. cbn. rewrite lookup_insert_ne by done. apply lookup_insert_eq. Qed.

Lemma leaves_mono h h' role : (forall c, c ∈ h -> c ∈ h') -> leaves h role -> leaves h' role.
Proof. unfold leaves. intros Hs [?|[?|?]]; auto. Qed.

(** There is a cluster role for each suffix and each owned CRD. *)
Lemma crd_role_ensured csv d plural group suffix verbs :
  result_of (ensureClusterRolesForCSV env csv) = inr tt -> d ∈ spec_CRDs_Owned (csv_Spec csv) -> SplitN2 "."%char (crd_Name d) = [plural; group] -> VerbsForSuffix !! suffix = Some verbs ->
  exists role, leaves (calls_of (ensureClusterRolesForCSV env csv)) role /\ OName (cr_obj role) = crd_Name d +:+ "-" +:+ crd_Version d +:+ "-" +:+ suffix /\
    cr_Rules role = [mkRule verbs [group] [plural] [] None] /\
    default ∅ (Labels (cr_obj role)) !! aggregationLabel (mkAPIKey group (crd_Version d) (crd_Kind d) "") suffix = Some "true".
Proof using named.
  intros Hres Hd Hsplit Hv. set (key := mkAPIKey group (crd_Version d) (crd_Kind d) plural).
  assert (Hend : (pfor (spec_CRDs_Owned (csv_Spec csv)) (ensureRolesForCRD env) []).2 = inr tt).
  { unfold result_of, ensureClusterRolesForCSV, pbind in Hres. by destruct (pfor (spec_CRDs_Owned _) _ []) as [h [e|[]]]. }
  destruct (pfor_ran _ _ _ d (fun y _ => ensureRolesForCRD_makes y) Hend Hd) as (h' & Hr & Hc).
  assert (forall c, c ∈ (ensureRolesForCRD env d h').1 -> c ∈ calls_of (ensureClusterRolesForCSV env csv)) as Hsub.
  { intros c Hin%Hc. unfold calls_of, ensureClusterRolesForCSV, pbind. destruct (pfor (spec_CRDs_Owned _) _ []) as [h1 [e|[]]]; [done|]. cbn in Hin.
    destruct (makes_for (fun _ => True) (spec_APIServices_Owned (csv_Spec csv)) (ensureRolesForAPIService env) (fun y _ => ensureRolesForAPIService_makes y) h1) as (new & -> & _). apply elem_of_app. by left. }
  clear Hc. unfold ensureRolesForCRD in Hr, Hsub. destruct (ge_crd env (crd_Name d)) as [|crd]; [done|]. rewrite Hsplit in Hr, Hsub. set (api := setGVK crd _) in *.
  destruct (pbind _ _ h') as [h2 r] eqn:E. cbn in Hr, Hsub. subst r. run_step E. destruct x. unfold ensureAllSuffixes in E0.
  assert (forall y, makes_only (fun _ => True) (ensureProvidedAPIClusterRole env (crd_Name d +:+ "-" +:+ crd_Version d +:+ "-") y.1 y.2 group plural [] api key)) as Hm by (intros y; unfold ensureProvidedAPIClusterRole; by calls).
  set (body := fun sv : string * list string => ensureProvidedAPIClusterRole env (crd_Name d +:+ "-" +:+ crd_Version d +:+ "-") sv.1 sv.2 group plural [] api key).
  match type of E0 with _ = ?r => assert (pfor (range VerbsForSuffix) body h' = r) as E1 by exact E0 end.
  destruct (pfor_ran (range VerbsForSuffix) body h' (suffix, verbs) (fun y _ => Hm y)) as (g & Hg & Hin); [by rewrite E1|by apply elem_of_range|].
  destruct (body (suffix, verbs) g) as [g' r] eqn:Eg. cbn [fst snd] in Hg, Hin. subst r. destruct (ensureProvided_leaves _ _ _ _ _ _ _ _ _ _ Eg) as (role & Hl & Hn & Hrules & Hlab).
  exists role. split_and!; [|by rewrite Hn, !str_app_assoc|done|].
  - eapply leaves_mono; [|exact Hl]. intros c Hc%Hin. rewrite E1 in Hc. apply Hsub. eapply makes_grows; [|exact E|exact Hc]. unfold ensureProvidedAPIClusterRole. by calls.
  - rewrite Hlab. change (aggregationLabel (mkAPIKey group (crd_Version d) (crd_Kind d) "") suffix) with (aggregationLabel key suffix). by apply role_label.
Qed.

Definition selectorFor (suffix : string) (api : APIKey) : gmap string string := {[ aggregationLabel api suffix := "true" ]}.
Definition selectorsFor (apis : APISet) (suffix : string) : list (gmap string string) := selectorFor suffix <$> (range (gset_to_gmap tt apis)).*1.
Lemma aggregation_rule apis suffix : getClusterRoleAggregationRule apis suffix = inr (match selectorsFor apis suffix with [] => None | l => Some l end).
Proof.
  unfold getClusterRoleAggregationRule, selectorsFor. generalize (range (gset_to_gmap tt apis)).*1. intros keys.
  match goal with |- context [foldE ?f [] keys] => assert (forall l acc, foldE f acc l = inr (acc ++ (selectorFor suffix <$> l))) as Hf end.
  { intros l. induction l as [|a l IH]; intros acc; [cbn; by rewrite app_nil_r|]. cbn [foldE fmap list_fmap]. change (aggregationLabelFromAPIKey a suffix) with (inr (A := error) (aggregationLabel a suffix)).
    cbv iota beta. rewrite IH, <- app_assoc. done. }
  rewrite Hf. cbn [app]. by destruct (selectorFor suffix <$> keys).
Qed.
(** It has a selector for each API. *)
Lemma elem_of_selectorsFor apis suffix api : api ∈ apis -> selectorFor suffix api ∈ selectorsFor apis suffix.
Proof.
  intros Hin. apply list_elem_of_fmap. exists api. split; [done|]. apply list_elem_of_fmap. exists (api, tt). split; [done|]. apply elem_of_range. by apply lookup_gset_to_gmap_Some.
Qed.

Lemma group_role_leaves op apis suffix h h' : ensureOpGroupClusterRole env op suffix apis h = (h', inr tt) ->
  exists role, leaves h' role /\ OName (cr_obj role) = getClusterRoleName op suffix /\ cr_Aggregation role = match selectorsFor apis suffix with [] => None | l => Some l end.
Proof using named.
  unfold ensureOpGroupClusterRole. intros E. run_step E. run_step E0. rewrite aggregation_rule in E0. injection E0 as <-. destruct (ge_clusterRole env _) as [err|existing] eqn:Ee.
  - destruct (IsNotFound _); [|done]. destruct (AddOwnerLabels _ _) as [o|] eqn:Eo; [|done]. apply AddOwnerLabels_same_name in Eo. run_step E. run_step E. unfold must, perform, pbind, plift in E0. injection E0 as <- _.
    eexists. split; [left; apply elem_of_app; right; by left|]. by split; [|].
  - pose proof (named _ _ Ee) as Hn. destruct (AddOwnerLabels _ _) as [o|] eqn:Eo; [|done]. apply AddOwnerLabels_same_name in Eo. destruct (_ && _) eqn:Ek; run_step E.
    + apply andb_prop in Ek as [_ Ea]. apply bool_decide_eq_true in Ea. exists existing. split; [right; right; by rewrite Hn|done].
    + run_step E. injection E0 as <- _. eexists. split; [right; left; apply elem_of_app; right; by left|]. cbn. by rewrite Eo.
Qed.

Lemma group_roles_ensured op apis suffix : suffix ∈ Suffices -> result_of (ensureOpGroupClusterRoles env op apis) = inr tt ->
  exists role, leaves (calls_of (ensureOpGroupClusterRoles env op apis)) role /\
    OName (cr_obj role) = getClusterRoleName op suffix /\ cr_Aggregation role = match selectorsFor apis suffix with [] => None | l => Some l end.
Proof using named.
  intros Hs Hr. unfold result_of, calls_of, ensureOpGroupClusterRoles in *.
  destruct (pfor_ran Suffices (fun suffix => ensureOpGroupClusterRole env op suffix apis) [] suffix) as (g & Hg & Hin); [|done|done|].
  { intros y _. unfold ensureOpGroupClusterRole. by calls. }
  destruct (ensureOpGroupClusterRole _ _ _ _ g) as [g' r] eqn:Eg. cbn in Hg, Hin. subst r. apply group_role_leaves in Eg as (role & Hl & Hn). exists role. split; [by eapply leaves_mono|done].
Qed.
End aggregation.

(** The APIs of a member are among those of its group. *)
Lemma elem_of_providedAPIs `{RangeOrder, RbacLib} (env : GroupEnv) (group : OperatorGroup) csv surface api :
  csv ∈ csvsInGroup env group -> IsCopied csv = false -> apiSurfaceOfCSV csv = inr surface -> api ∈ StripPlural (os_ProvidedAPIs surface) -> api ∈ dom (providedAPIsFromCSVs env group).
Proof.
  intros Hin Hc Hs Hapi. unfold providedAPIsFromCSVs.
  assert (Hins : forall (l : list APIKey) (c : CSV) (m : gmap APIKey CSV) k, k ∈ dom (foldl (fun m api => <[api := c]> m) m l) <-> k ∈ l \/ k ∈ dom m).
  { induction l as [|x l IH]; intros c m k; cbn [foldl]; [rewrite elem_of_nil; tauto|]. rewrite IH, dom_insert, elem_of_cons. set_solver. }
  revert Hin. generalize (csvsInGroup env group). intros csvs Hin.
  refine (foldl_inv _ (fun dn (m : gmap APIKey CSV) => csv ∈ dn -> api ∈ dom m) ∅ csvs _ _ Hin); [by intros ?%elem_of_nil|].
  intros dn x m IH [Hx|Hx]%elem_of_app.
  - specialize (IH Hx). destruct (IsCopied x); [done|]. destruct (apiSurfaceOfCSV x); [done|]. apply Hins. by right.
  - apply list_elem_of_singleton in Hx as <-. rewrite Hc, Hs. apply Hins. left. by apply elem_of_elements.
Qed.


(** ** Witnesses *)

Module GroupDemo.
#[local] Existing Instances canonical_order RbacDemo.lib.

Definition og (targets : list string) : OperatorGroup := mkGroup "og" "ns" "7" None None targets "" false "" (Some targets) None.
Definition clusters : CRDDescription := mkCRDDesc "etcdclusters.etcd.io" "v1" "EtcdCluster".
Definition member : CSV := csv_owning [clusters].
Definition env (targets : list string) : GroupEnv := {|
  ge_now := 0%Z; ge_groups ns := inr []; ge_allGroups := inr [og targets]; ge_allCSVs := inr [member]; ge_csvs ns := inr [member]; ge_getCSV ns n := inr member;
  ge_deleting c := false; ge_selector s := inr SelNothing; ge_namespaces s := inr []; ge_listNamespaces := (["ns"; "a"], None);
  ge_clusterRoles := inr []; ge_clusterRole n := inl notFound; ge_crd n := inr (mkObj TCRDv1 noGVK n "" "9" [] None); ge_apiService n := inl notFound;
  ge_serviceAccount ns n := inl notFound; ge_reference o := inr (OName o); ge_group h c := inl notFound;
  ge_clusterRoleAnswer h c := match c with GCreateClusterRole r | GUpdateClusterRole r => inr r | _ => inl notFound end; ge_do h c := None |}.

Lemma syncNamespace_correct_witness :
  let after := default ∅ (labelsAfter None (calls_of (syncNamespace (env ["a"]) "a" None))) in
  forall k, IsOperatorGroupLabel k = true -> is_Some (after !! k) <-> exists group, group ∈ [og ["a"]] /\ labelsNamespace "a" group /\ k = OperatorGroupLabelPrefix +:+ og_UID group.
Proof. refine (proj1 (syncNamespace_correct (env ["a"]) [og ["a"]] "a" None eq_refl _)). vm_compute. reflexivity. Defined.

Lemma getClusterRoleName_bound_witness : (String.length (getClusterRoleName (og ["a"]) AdminSuffix) <= kubeResourceNameLimit)%nat.
Proof. exact (getClusterRoleName_bound (og ["a"]) AdminSuffix ltac:(by left)). Defined.

Lemma annotateCSVs_correct_witness :
  forall c, GUpdateCSV c ∈ calls_of (annotateCSVs (env ["a"]) (og ["a"]) ["a"]) -> operatorGroupAnnotationsDiffer (csv_Annotations c) (og ["a"]) = false.
Proof. exact (proj1 (proj2 (annotateCSVs_correct (env ["a"]) (og ["a"]) ["a"] ltac:(by eexists)))). Defined.

Lemma all_namespaces_not_requeued_witness : calls_of (requeueMember (env [""]) {["a"]} {[""]} member) = [].
Proof. exact (all_namespaces_not_requeued (env [""]) {["a"]} {[""]} member ["ns"; "a"] (or_intror eq_refl) eq_refl). Defined.

(** The role of the group for viewers is there from a time when the group had no members. *)
Definition stale : ClusterRoleObj := mkClusterRole (mkObj TClusterRole noGVK (getClusterRoleName (og ["a"]) ViewSuffix) "" "8" [] None) [] None.
Definition staleEnv : GroupEnv := {|
  ge_now := 0%Z; ge_groups ns := inr []; ge_allGroups := inr [og ["a"]]; ge_allCSVs := inr [member]; ge_csvs ns := inr [member]; ge_getCSV ns n := inr member;
  ge_deleting c := false; ge_selector s := inr SelNothing; ge_namespaces s := inr []; ge_listNamespaces := (["ns"; "a"], None);
  ge_clusterRoles := inr [stale]; ge_clusterRole n := if bool_decide (n = OName (cr_obj stale)) then inr stale else inl notFound; ge_crd n := inr (mkObj TCRDv1 noGVK n "" "9" [] None); ge_apiService n := inl notFound;
  ge_serviceAccount ns n := inl notFound; ge_reference o := inr (OName o); ge_group h c := inl notFound;
  ge_clusterRoleAnswer h c := match c with GCreateClusterRole r | GUpdateClusterRole r => inr r | _ => inl notFound end; ge_do h c := None |}.

End GroupDemo.
