(* ===== verification/CsvSync.v ===== *)
(** * Syncing and deleting CSVs

    Models the handlers of [controller/operators/olm/operator.go] around the state machine of a CSV:
    [syncClusterServiceVersion] with its finalizer ([processFinalizer]), the state machine (CsvTransition.v), the update of
    the status and the roles in target namespaces (CsvCopies.v); [handleClusterServiceVersionDeletion]; and the handlers
    that requeue CSVs when something they own or need changes ([syncObject], [syncAPIService], [handleDeletion],
    [syncSubscription]) or annotate secrets ([EnsureSecretOwnershipAnnotations]). *)

From S2P Require Import Prelude GoStrings RbacRules RbacAuthorizer OwnerUtil CatalogModel ResolverCache CsvTypes OperatorGroups ReplaceChain Requirements OperatorRbac CsvTransition CsvLifecycle ClusterCalls CsvCopies.
#[local] Open Scope p_scope.
#[local] Arguments String.append : simpl nomatch.

(** ** Data *)

(** A CSV with the metadata that the state machine does not read. *)
Record CSVObj := mkCSVObj { ob_csv : CSV; ob_Finalizers : list string; ob_Deleting : bool }.
(** The conversion of a CRD: its strategy and whether it has a webhook; nil for a CRD without one. *)
Record ConvertedCRD := mkConvertedCRD { cc_Name : string; cc_Conversion : option (string * bool) }.
Record SecretObj := mkSecretObj { se_obj : Object; se_Annotations : option (gmap string string) }.

(** The kinds of objects that the finalizer deletes by label. *)
Inductive Collection := ClusterRoleBindings | ClusterRoles | MutatingWebhooks | ValidatingWebhooks.

Inductive SyncCall :=
  | SCopy (c : CopyCall) | STransition (acts : list Action) | SUpdateCSV (c : CSVObj) | SUpdateStatus (c : CSV)
  | SDeleteCollection (k : Collection) (selector : gmap string string)
  | SRequeueCopy (ns name : string) | SRequeueGC (ns name : string) | SRequeueGroup (ns name : string) | SRequeueCSV (ns name : string)
  | SDeleteAPIService (name : string) | SUpdateCRD (c : ConvertedCRD) | SUpdateSecret (s : SecretObj).

Record SyncEnv := mkSyncEnv {
  ye_transition : Env;
  ye_copy : CopyEnv;
  ye_now : Time;
  ye_getCSV : string -> string -> error + CSVObj;
  ye_clusterRoleBindings : error + list Object;
  ye_clusterRoles : error + list Object;
  ye_groups : string -> error + list OperatorGroup;
  ye_namespaces : error + list string;
  ye_getNamespace : string -> option error;
  ye_apiService : string -> error + Object;
  ye_csvs : string -> error + list CSV;
  ye_crd : list SyncCall -> string -> error + ConvertedCRD;
  ye_labelIndex : list (gmap string string) -> error + list (string * string);
  ye_secrets : error + list SecretObj;
  ye_do : list SyncCall -> SyncCall -> option error;
}.

(** How a handler ends besides in an error. *)
Inductive Ended := Finished | Crashed.

Definition myFinalizerName : string := "operators.coreos.com/csv-cleanup".

Section sync.
Context `{RangeOrder, RequirementLib, RbacLib, CopyLib} (env : SyncEnv).
Abbreviation P := (P SyncCall).

Definition sdo (c : SyncCall) : P unit := check (perform (ye_do env) c).
Definition stry (c : SyncCall) : P unit := run! perform (ye_do env) c in pret tt.

(** The calls of the handlers of copies are among the calls of a sync. *)
Definition copyCalls (h : list SyncCall) : list CopyCall := omap (fun c => match c with SCopy c => Some c | _ => None end) h.
Definition liftCopy {A} (m : ClusterCalls.P CopyCall A) : P A := fun h =>
  let before := copyCalls h in
  let '(after, r) := m before in (h ++ (SCopy <$> drop (length before) after), r).

(** ** The finalizer *)

(** [client.IgnoreNotFound] *)
Definition deleteCollection (csv : CSV) (errs : list error) (k : Collection) : P (list error) :=
  let! err := perform (ye_do env) (SDeleteCollection k (OwnerLabel (csv_obj csv) CSVKind)) in
  pret (match err with Some e => if IsNotFound (Some e) then errs else errs ++ [e] | None => errs end).

Definition stillThere (csv : CSV) (listed : error + list Object) (message : string) : list error :=
  match listed with
  | inl err => [err]
  | inr objs => if existsb (selects (OwnerLabel (csv_obj csv) CSVKind)) objs then [ErrString message] else []
  end.

(** The error and whether to go on, with the CSV as it is then. *)
Definition processFinalizer (c : CSVObj) : P (option error * bool) :=
  if negb (ob_Deleting c) then
    if bool_decide (myFinalizerName ∈ ob_Finalizers c) then pret (None, true)
    else
      let! err := perform (ye_do env) (SUpdateCSV (mkCSVObj (ob_csv c) (ob_Finalizers c ++ [myFinalizerName]) false)) in
      pret (match err with Some e => (Some e, false) | None => (None, true) end)
  else if negb (bool_decide (myFinalizerName ∈ ob_Finalizers c)) then pret (None, false)
  else
    let csv := ob_csv c in
    let! errs := pfold (deleteCollection csv) [] [ClusterRoleBindings; ClusterRoles; MutatingWebhooks; ValidatingWebhooks] in
    let errs := errs ++ stillThere csv (ye_clusterRoleBindings env) "waiting for ClusterRoleBindings to delete" ++ stillThere csv (ye_clusterRoles env) "waiting for ClusterRoles to delete" in
    match NewAggregate errs with
    | Some err => pret (Some err, false)
    | None =>
        let! err := perform (ye_do env) (SUpdateCSV (mkCSVObj csv (List.filter (fun f => negb (bool_decide (f = myFinalizerName))) (ob_Finalizers c)) true)) in
        pret (err, false)
    end.

(** ** The sync of a CSV *)

Definition statusChanged (out in_ : CSV) : bool :=
  negb (bool_decide (st_LastUpdateTime (csv_Status out) = st_LastUpdateTime (csv_Status in_)) && bool_decide (csv_Phase out = csv_Phase in_)
        && bool_decide (csv_Reason out = csv_Reason in_) && bool_decide (st_Message (csv_Status out) = st_Message (csv_Status in_))).

Definition updateStatus (out in_ : CSV) (syncError : option error) : P (option error) :=
  if statusChanged out in_ then
    let! err := perform (ye_do env) (SUpdateStatus out) in
    pret (match err with
          | None => syncError
          | Some err =>
              let updateErr := "error updating ClusterServiceVersion status: " +:+ Error_ err in
              match syncError with
              | None => Some (ErrString updateErr)
              | Some e => Some (ErrString ("error transitioning ClusterServiceVersion: " +:+ Error_ e +:+ " and error updating CSV status: " +:+ updateErr))
              end
          end)
  else pret syncError.

Definition orFinished (err : option error) : P Ended := match err with Some e => pfail e | None => pret Finished end.

(** Access in the target namespaces, and copies. *)
Definition syncTargets (csv out : CSV) (syncError : option error) : P Ended :=
  match operatorGroupFromAnnotations (ye_copy env) csv with
  | None => orFinished syncError
  | Some operatorGroup =>
      if bool_decide (og_Namespaces operatorGroup = [og_Namespace operatorGroup]) then orFinished syncError
      else
        let! ensured := attempt (liftCopy (ensureRBACInTargetNamespace (ye_copy env) csv operatorGroup)) in
        let syncError := match ensured with inl err => Some err | inr _ => syncError end in
        run! if IsUncopiable out then pret tt else stry (SRequeueCopy (csv_Namespace out) (csv_Name out)) in
        orFinished syncError
  end.

(** After the finalizer: the state machine, the status it computed, and the target namespaces. *)
Definition reconcileCSV (csv : CSV) : P Ended :=
  if IsCopied csv then pret Finished
  else
    match transitionCSVState (ye_transition env) csv with
    | Skipped => pret Finished
    | Panicked acts => run! perform (fun _ _ => tt) (STransition acts) in pret Crashed
    | Synced out syncError acts =>
        run! perform (fun _ _ => tt) (STransition acts) in
        let! syncError := updateStatus out csv syncError in
        syncTargets csv out syncError
    end.

Definition syncClusterServiceVersion (namespace name : string) : P Ended :=
  match ye_getCSV env namespace name with
  | inl err => if IsNotFound (Some err) then pret Finished else pfail err
  | inr c =>
      let! fin := processFinalizer c in
      if fin.2 then reconcileCSV (ob_csv c) else orFinished fin.1
  end.

(** ** A CSV has been deleted *)

Definition requeueGroups (namespace : string) : P unit :=
  match ye_groups env namespace with inl _ => pret tt | inr groups => pfor groups (fun g => stry (SRequeueGroup (og_Namespace g) (og_Name g))) end.

Definition deleteOwnedAPIService (csv : CSV) (desc : APIServiceDescription) : P unit :=
  let apiServiceName := as_Version desc +:+ "." +:+ as_Group desc in
  match ye_apiService env apiServiceName with
  | inl _ => pret tt
  | inr fetched =>
      if bool_decide (csv_Name csv = label (Labels fetched) OwnerKey) && bool_decide (csv_Namespace csv = label (Labels fetched) OwnerNamespaceKey)
      then stry (SDeleteAPIService apiServiceName) else pret tt
  end.

(** [copy.Spec.Conversion.Strategy = ...] dereferences nil for a CRD without conversion. *)
Definition stripConversion (ended : Ended) (crdName : string) : P Ended := fun h =>
  match ended, ye_crd env h crdName with
  | Crashed, _ => (h, inr Crashed)
  | Finished, inl _ => (h, inr Finished)
  | Finished, inr crd =>
      match cc_Conversion crd with
      | None => (h, inr Crashed)
      | Some _ => (run! perform (ye_do env) (SUpdateCRD (mkConvertedCRD (cc_Name crd) (Some ("None", false)))) in pret Finished) h
      end
  end.
Definition stripConversions (csv : CSV) : P Ended :=
  pfold stripConversion Finished
    (List.filter (fun d => bool_decide (wd_Type d = ConversionWebhook)) (spec_WebhookDefinitions (csv_Spec csv)) ≫= wd_ConversionCRDs).

(** The namespaces whose copies are to be collected. *)
Definition childNamespaces (targetNamespaces : string) : error + list string := if bool_decide (targetNamespaces = "") then ye_namespaces env else inr (Split ","%char targetNamespaces).

Definition collectChildren (csv : CSV) (targetNamespaces operatorNamespace : string) : P Ended :=
  match childNamespaces targetNamespaces with
  | inl _ => pret Finished
  | inr namespaces =>
      run! pfor namespaces (fun ns => if bool_decide (ns = operatorNamespace) then pret tt else stry (SRequeueGC ns (csv_Name csv))) in
      run! pfor (spec_APIServices_Owned (csv_Spec csv)) (deleteOwnedAPIService csv) in
      let csvs := match ye_csvs env (csv_Namespace csv) with inr csvs => csvs | inl _ => [] end in
      if existsb (fun c => bool_decide (csv_Replaces c = csv_Name csv)) csvs then pret Finished else stripConversions csv
  end.

Definition handleClusterServiceVersionDeletion (csv : CSV) : P Ended :=
  if IsCopied csv then pret Finished
  else
    let annotations := default ∅ (csv_Annotations csv) in
    let! ended :=
      match annotations !! OperatorGroupTargetsAnnotationKey, annotations !! OperatorGroupNamespaceAnnotationKey, annotations !! OperatorGroupAnnotationKey with
      | Some targetNamespaces, Some operatorNamespace, Some _ => collectChildren csv targetNamespaces operatorNamespace
      | _, _, _ => pret Finished
      end in
    run! requeueGroups (csv_Namespace csv) in
    pret ended.

(** ** Requeueing CSVs *)

(** An error other than not found does not keep a CSV from being requeued. *)
Definition requeueOwnerCSVs (ownee : Object) : P unit :=
  let known ns name := match ye_getCSV env ns name with inl err => negb (IsNotFound (Some err)) | inr _ => true end in
  let owners := GetOwnersByKind ownee CSVKind in
  if negb (bool_decide (owners = [])) && negb (bool_decide (ONamespace ownee = NamespaceAll)) then
    pfor owners (fun owner => if known (ONamespace ownee) (RName owner) then stry (SRequeueCSV (ONamespace ownee) (RName owner)) else pret tt)
  else
    match GetOwnerByKindLabel ownee CSVKind with
    | (name, ns, true) => if known ns name then stry (SRequeueCSV ns name) else pret tt
    | _ => pret tt
    end.

Definition requeueCSVsByLabelSet (labelSets : list (gmap string string)) : P unit :=
  match ye_labelIndex env labelSets with inl _ => pret tt | inr keys => pfor keys (fun key => stry (SRequeueCSV key.1 key.2)) end.

Definition requeueByLabels (obj : labelObject) : P unit :=
  match LabelSetsFor obj with
  | inl _ => pret tt
  | inr labelSets => if (0 <? length labelSets)%nat then requeueCSVsByLabelSet labelSets else pret tt
  end.

Definition handleDeletion (meta : Object) (obj : labelObject) : P unit := run! requeueOwnerCSVs meta in requeueByLabels obj.

(** [scoped.IsObjectRBACRelated] *)
Definition IsObjectRBACRelated (meta : Object) : bool :=
  let '(o, ok) := InferGroupVersionKind meta in ok && bool_decide (Kind (OGVK o) ∈ ["Role"; "RoleBinding"; "ServiceAccount"]).

Definition retryCSV (errs : list error) (csv : CSV) : P (list error) :=
  if negb (bool_decide (csv_Reason csv = CSVReasonComponentFailedNoRetry)) then pret errs
  else
    let! err := perform (ye_do env) (SUpdateStatus (SetPhase csv CSVPhasePending CSVReasonDetectedClusterChange "Cluster resources changed state" (Some (ye_now env)))) in
    match err with
    | Some e => pret (errs ++ [e])
    | None => let! err := perform (ye_do env) (SRequeueCSV (csv_Namespace csv) (csv_Name csv)) in pret (match err with Some e => errs ++ [e] | None => errs end)
    end.

(** The aggregated errors are assigned to the result and then overwritten by [return nil]. *)
Definition syncObject (meta : Object) (obj : labelObject) : P unit :=
  run! if IsOwnedByKind meta CSVKind then requeueOwnerCSVs meta else pret tt in
  run! requeueByLabels obj in
  let! errs := if IsObjectRBACRelated meta then pfold retryCSV [] (range (csvSet (ye_csvs env (ONamespace meta)) CSVPhaseFailed)).*2 else pret [] in
  pret tt.

Definition syncAPIService (apiService : Object) : P unit :=
  match GetOwnerByKindLabel apiService CSVKind with
  | (name, ns, true) =>
      if IsNotFound (ye_getNamespace env ns) then sdo (SDeleteAPIService (OName apiService))
      else
        match ye_getCSV env ns name with
        | inl err => if IsNotFound (Some err) then sdo (SDeleteAPIService (OName apiService)) else pfail err
        | inr _ => if IsOwnedByKindLabel apiService CSVKind then requeueOwnerCSVs apiService else pret tt
        end
  | _ => pret tt
  end.

Definition syncSubscription (namespace installedCSV : string) : P unit := if bool_decide (installedCSV = "") then pret tt else sdo (SRequeueCSV namespace installedCSV).

(** ** Secrets *)

Definition OpenShiftComponent : string := "openshift.io/owning-component".
Definition OLMOwnershipAnnotation : string := "Operator Framework / operator-lifecycle-manager".

(** When an update fails the source returns the error of the listing, which is nil. *)
Fixpoint annotateSecrets (secrets : list SecretObj) : P unit :=
  match secrets with
  | [] => pret tt
  | s :: secrets =>
      if bool_decide (default "" (default ∅ (se_Annotations s) !! OpenShiftComponent) = "") then
        let! err := perform (ye_do env) (SUpdateSecret (mkSecretObj (se_obj s) (Some (<[OpenShiftComponent := OLMOwnershipAnnotation]> (default ∅ (se_Annotations s)))))) in
        match err with Some _ => pret tt | None => annotateSecrets secrets end
      else annotateSecrets secrets
  end.
Definition EnsureSecretOwnershipAnnotations : P unit :=
  let! secrets := plift (ye_secrets env) in
  annotateSecrets (List.filter (fun s => bool_decide (label (Labels (se_obj s)) olmManagedKey = "true")) secrets).
End sync.

(** ** What the handlers do *)

Definition collections : list Collection := [ClusterRoleBindings; ClusterRoles; MutatingWebhooks; ValidatingWebhooks].
(** The collection is gone: deleted, or not found. *)
Definition gone (answer : option error) : Prop := answer = None \/ IsNotFound answer = true.
Definition noneOwned (csv : CSV) (listed : error + list Object) : Prop :=
  exists objs, listed = inr objs /\ forall o, o ∈ objs -> selects (OwnerLabel (csv_obj csv) CSVKind) o = false.

Section facts.
Context `{RangeOrder, RequirementLib, RbacLib, CopyLib} (env : SyncEnv).

Lemma stillThere_nil csv listed msg : stillThere csv listed msg = [] <-> noneOwned csv listed.
Proof.
  unfold stillThere, noneOwned. destruct listed as [err|objs]; [split; [done|by intros (? & ? & ?)]|].
  destruct (existsb _ objs) eqn:Eo; split; try done.
  - intros (? & [= <-] & Hn). apply existsb_exists in Eo as (o & Ho & So). apply list_elem_of_In in Ho. by rewrite Hn in So.
  - intros _. exists objs. split; [done|]. intros o Ho. apply not_true_iff_false. intros So. apply not_true_iff_false in Eo. apply Eo. apply existsb_exists. exists o. split; [by apply list_elem_of_In|done].
Qed.

(** The errors of deleting the collections, given what was called before. *)
Fixpoint deletionErrors (csv : CSV) (h : list SyncCall) (ks : list Collection) : list error :=
  match ks with
  | [] => []
  | k :: ks =>
      let c := SDeleteCollection k (OwnerLabel (csv_obj csv) CSVKind) in
      (match ye_do env h c with Some e => if IsNotFound (Some e) then [] else [e] | None => [] end) ++ deletionErrors csv (h ++ [c]) ks
  end.
Definition deletions (csv : CSV) (ks : list Collection) : list SyncCall := (fun k => SDeleteCollection k (OwnerLabel (csv_obj csv) CSVKind)) <$> ks.

Lemma delete_collections csv ks errs h :
  pfold (deleteCollection env csv) errs ks h = (h ++ deletions csv ks, inr (errs ++ deletionErrors csv h ks)).
Proof.
  revert errs h. induction ks as [|k ks IH]; intros errs h; [cbn; by rewrite !app_nil_r|].
  cbn [pfold deletionErrors]. unfold pbind, deleteCollection, pbind, perform, pret. cbv beta iota. rewrite IH.
  unfold deletions. rewrite fmap_cons, <- (app_assoc h). cbn [app]. do 2 f_equal.
  destruct (ye_do env h _) as [e|]; [|done]. destruct (IsNotFound (Some e)); [done|]. by rewrite <- app_assoc.
Qed.

Lemma deletionErrors_nil csv h ks :
  deletionErrors csv h ks = [] <->
  forall i k, ks !! i = Some k -> gone (ye_do env (h ++ take i (deletions csv ks)) (SDeleteCollection k (OwnerLabel (csv_obj csv) CSVKind))).
Proof.
  revert h. induction ks as [|k ks IH]; intros h; [done|]. cbn [deletionErrors]. rewrite app_nil, IH. unfold gone. split.
  - intros [Hk Hks] [|i] k' Hi; cbn in Hi.
    + injection Hi as <-. cbn [take]. rewrite app_nil_r. destruct (ye_do env h _) as [e|]; [right|by left]. by destruct (IsNotFound (Some e)).
    + specialize (Hks i k' Hi). by rewrite <- app_assoc in Hks.
  - intros Hall. split.
    + specialize (Hall 0%nat k eq_refl). cbn [take] in Hall. rewrite app_nil_r in Hall. destruct (ye_do env h _) as [e|]; [|done]. destruct Hall as [|Hn]; [done|]. by rewrite Hn.
    + intros i k' Hi. specialize (Hall (S i) k' Hi). by rewrite <- app_assoc.
Qed.

(** Everything the finalizer waits for. *)
Definition cleanedUp (csv : CSV) : Prop :=
  (forall i k, collections !! i = Some k -> gone (ye_do env (take i (deletions csv collections)) (SDeleteCollection k (OwnerLabel (csv_obj csv) CSVKind)))) /\
  noneOwned csv (ye_clusterRoleBindings env) /\ noneOwned csv (ye_clusterRoles env).

Definition withoutFinalizer (c : CSVObj) : CSVObj := mkCSVObj (ob_csv c) (List.filter (fun f => negb (bool_decide (f = myFinalizerName))) (ob_Finalizers c)) true.

Lemma NewAggregate_None errs : NewAggregate errs = None <-> errs = [].
Proof. destruct errs; [done|]. unfold NewAggregate. split; [|done]. by intros. Qed.

(** The finalizer of a CSV that is being deleted, by cases. *)
Lemma processFinalizer_deleting c :
  ob_Deleting c = true -> myFinalizerName ∈ ob_Finalizers c ->
  let csv := ob_csv c in
  (cleanedUp csv /\ processFinalizer env c [] = (deletions csv collections ++ [SUpdateCSV (withoutFinalizer c)], inr (ye_do env (deletions csv collections) (SUpdateCSV (withoutFinalizer c)), false))) \/
  (~ cleanedUp csv /\ exists err, processFinalizer env c [] = (deletions csv collections, inr (Some err, false))).
Proof.
  intros Hd Hf csv. destruct (processFinalizer env c []) as [h r] eqn:Er. revert Er.
  unfold processFinalizer. rewrite Hd, (bool_decide_eq_true_2 _ Hf). cbn [negb]. fold csv. fold collections.
  unfold pbind at 1. rewrite delete_collections. cbn [app]. cbv beta iota. set (errs := _ ++ _ ++ _).
  assert (errs = [] <-> cleanedUp csv) as He by (unfold errs, cleanedUp; by rewrite !app_nil, !stillThere_nil, deletionErrors_nil).
  destruct (NewAggregate errs) as [err|] eqn:Ea.
  - intros [= <- <-]. right. split; [|by exists err]. intros Hc%He. apply NewAggregate_None in Hc. congruence.
  - intros [= <- <-]. left. apply NewAggregate_None in Ea. split; [by apply He|done].
Qed.

Definition withFinalizer (c : CSVObj) : CSVObj := mkCSVObj (ob_csv c) (ob_Finalizers c ++ [myFinalizerName]) false.

(** The finalizer of a CSV that is not being deleted, by cases. *)
Lemma processFinalizer_live c :
  ob_Deleting c = false ->
  (myFinalizerName ∈ ob_Finalizers c /\ processFinalizer env c [] = ([], inr (None, true))) \/
  (myFinalizerName ∉ ob_Finalizers c /\
   processFinalizer env c [] = ([SUpdateCSV (withFinalizer c)], inr (ye_do env [] (SUpdateCSV (withFinalizer c)), bool_decide (ye_do env [] (SUpdateCSV (withFinalizer c)) = None)))).
Proof.
  intros Hd. unfold processFinalizer. rewrite Hd. cbn [negb]. case_bool_decide as Hf; [by left|]. right. split; [done|].
  unfold pbind, perform, pret. cbn [app]. fold (withFinalizer c). by destruct (ye_do env [] _).
Qed.
Lemma processFinalizer_left c : ob_Deleting c = true -> myFinalizerName ∉ ob_Finalizers c -> processFinalizer env c [] = ([], inr (None, false)).
Proof. intros Hd Hf. unfold processFinalizer. by rewrite Hd, bool_decide_eq_false_2. Qed.

(** After the finalizer no CSV is written, but for its status. *)
Definition noCSVUpdate (c : SyncCall) : Prop := match c with SUpdateCSV _ => False | _ => True end.
Lemma makes_liftCopy {A} (Q : SyncCall -> Prop) (m : ClusterCalls.P CopyCall A) :
  (forall c, Q (SCopy c)) -> makes_only Q (liftCopy m).
Proof.
  intros HQ h. unfold liftCopy. destruct (m (copyCalls h)) as [after r]. eexists. split; [done|]. apply Forall_fmap, Forall_true. intros c. apply HQ.
Qed.
#[local] Hint Resolve makes_liftCopy : calls.
Lemma reconcile_no_update csv : makes_only noCSVUpdate (reconcileCSV env csv).
Proof. unfold reconcileCSV, updateStatus, syncTargets, orFinished, stry. calls; try done; apply makes_liftCopy; done. Qed.

Lemma orFinished_calls err h : (orFinished err h).1 = h.
Proof. by destruct err. Qed.

(** The calls of a sync: those of the finalizer, and those of the state machine when it is reached. *)
Lemma sync_calls ns name c h fin :
  ye_getCSV env ns name = inr c -> processFinalizer env c [] = (h, inr fin) ->
  exists rest, calls_of (syncClusterServiceVersion env ns name) = h ++ rest /\ Forall noCSVUpdate rest /\ (fin.2 = false -> rest = []).
Proof.
  intros Hg Hf. unfold calls_of, syncClusterServiceVersion. rewrite Hg. unfold pbind. rewrite Hf. destruct fin.2.
  - destruct (reconcile_no_update (ob_csv c) h) as (rest & E & F). exists rest. by rewrite E.
  - exists []. rewrite orFinished_calls, app_nil_r. done.
Qed.

Lemma withoutFinalizer_removed c : myFinalizerName ∉ ob_Finalizers (withoutFinalizer c).
Proof. cbn. rewrite list_elem_of_In, filter_In. intros [_ Hf]. by rewrite bool_decide_eq_true_2 in Hf. Qed.
Lemma withFinalizer_added c : myFinalizerName ∈ ob_Finalizers (withFinalizer c).
Proof. cbn. apply elem_of_app. right. by apply list_elem_of_singleton. Qed.
Lemma deletions_only csv c : c ∈ deletions csv collections -> exists k sel, c = SDeleteCollection k sel.
Proof. intros (k & -> & _)%list_elem_of_fmap. by eauto. Qed.

(** The calls of a CSV that is being deleted. *)
Lemma deleting_calls namespace name c :
  ye_getCSV env namespace name = inr c -> ob_Deleting c = true ->
  let calls := calls_of (syncClusterServiceVersion env namespace name) in
  (myFinalizerName ∈ ob_Finalizers c /\ cleanedUp (ob_csv c) /\ calls = deletions (ob_csv c) collections ++ [SUpdateCSV (withoutFinalizer c)]) \/
  (myFinalizerName ∈ ob_Finalizers c /\ ~ cleanedUp (ob_csv c) /\ calls = deletions (ob_csv c) collections) \/
  (myFinalizerName ∉ ob_Finalizers c /\ calls = []).
Proof.
  intros Hg Hd calls. destruct (decide (myFinalizerName ∈ ob_Finalizers c)) as [Hf|Hf].
  - destruct (processFinalizer_deleting c Hd Hf) as [[Hc E]|[Hn [err E]]]; destruct (sync_calls _ _ _ _ _ Hg E) as (rest & Ec & _ & Hr); rewrite Hr, app_nil_r in Ec by done; auto.
  - destruct (sync_calls _ _ _ _ _ Hg (processFinalizer_left c Hd Hf)) as (rest & Ec & _ & Hr). rewrite Hr in Ec by done. auto.
Qed.

(** C16: the finalizer of a CSV does its work.  The state machine of a CSV runs only when the CSV is not being deleted
    and has the finalizer, or was just written with it.  The finalizer is taken off only from a CSV that is being deleted,
    after the collections of cluster roles, bindings and webhooks with its owner labels were deleted (or not found) and no
    cluster role or binding with these labels is listed any more; and when all of that holds, it is taken off. *)
Theorem finalizer_protects namespace name c :
  ye_getCSV env namespace name = inr c ->
  let calls := calls_of (syncClusterServiceVersion env namespace name) in
  (forall acts, STransition acts ∈ calls ->
     ob_Deleting c = false /\
     (myFinalizerName ∈ ob_Finalizers c \/
      exists rest, calls = SUpdateCSV (withFinalizer c) :: rest /\ myFinalizerName ∈ ob_Finalizers (withFinalizer c) /\ ye_do env [] (SUpdateCSV (withFinalizer c)) = None)) /\
  (forall c', SUpdateCSV c' ∈ calls -> myFinalizerName ∉ ob_Finalizers c' ->
     ob_Deleting c = true /\ cleanedUp (ob_csv c) /\ calls = deletions (ob_csv c) collections ++ [SUpdateCSV c']) /\
  (ob_Deleting c = true -> myFinalizerName ∈ ob_Finalizers c -> cleanedUp (ob_csv c) ->
     SUpdateCSV (withoutFinalizer c) ∈ calls /\ myFinalizerName ∉ ob_Finalizers (withoutFinalizer c)).
Proof.
  intros Hg calls. destruct (ob_Deleting c) eqn:Hd.
  - assert (forall acts, STransition acts ∉ deletions (ob_csv c) collections) as Ht by (intros acts (k & sel & [=])%deletions_only).
    assert (forall c', SUpdateCSV c' ∉ deletions (ob_csv c) collections) as Hu by (intros c' (k & sel & [=])%deletions_only).
    pose proof (deleting_calls _ _ _ Hg Hd) as Hc. cbv zeta in Hc. fold calls in Hc. destruct Hc as [(Hf & Hc & ->)|[(Hf & Hn & ->)|(Hf & ->)]].
    + split_and!; intros x; rewrite ?elem_of_app, ?list_elem_of_singleton; [intros [?%Ht|[=]]; done|intros [?%Hu|[= ->]]; done|]. intros _ _. split; [by right|apply withoutFinalizer_removed].
    + split_and!; [by intros acts ?%Ht|by intros c' ?%Hu|done].
    + split_and!; [by intros acts ?%elem_of_nil|by intros c' ?%elem_of_nil|done].
  - assert (forall rest c', Forall noCSVUpdate rest -> SUpdateCSV c' ∉ rest) as Hno by (intros rest c' F Hin; by apply (proj1 (Forall_forall _ _) F) in Hin).
    destruct (processFinalizer_live c Hd) as [[Hf E]|[Hf E]]; destruct (sync_calls _ _ _ _ _ Hg E) as (rest & Ec & F & Hr); fold calls in Ec; rewrite Ec.
    + split_and!; [by auto|by intros c' Hc%(Hno _ _ F)|done].
    + split_and!; [|intros c' [Hc|Hc%(Hno _ _ F)]%elem_of_app Hn; [|done]|done].
      * intros acts [Ha%list_elem_of_singleton|Ha]%elem_of_app; [done|]. split; [done|]. right. exists rest. split_and!; [done|apply withFinalizer_added|].
        cbn in Hr. case_bool_decide; [done|]. rewrite Hr in Ha by done. by apply elem_of_nil in Ha.
      * apply list_elem_of_singleton in Hc as [= ->]. destruct Hn. apply withFinalizer_added.
Qed.

Lemma elem_of_if {X} (b : bool) (x y : X) : x ∈ (if b then [y] else []) <-> b = true /\ x = y.
Proof. destruct b; [rewrite list_elem_of_singleton|rewrite elem_of_nil]; naive_solver. Qed.

(** *** The sync of a CSV that is there to stay *)

(** The status is written when it changed, and its failure is not lost. *)
Lemma updateStatus_run out in_ err h :
  exists err', updateStatus env out in_ err h = (h ++ (if statusChanged out in_ then [SUpdateStatus out] else []), inr err') /\
    (err' = None -> err = None /\ (statusChanged out in_ = true -> ye_do env h (SUpdateStatus out) = None)).
Proof.
  unfold updateStatus. destruct (statusChanged out in_); [|exists err; rewrite app_nil_r; by auto].
  unfold pbind, perform, pret. eexists. split; [done|]. destruct (ye_do env h _); [by destruct err|by auto].
Qed.

(** The target namespaces are looked after when the group has others than its own. *)
Definition copiedFor (csv out : CSV) : bool :=
  match operatorGroupFromAnnotations (ye_copy env) csv with
  | None => false
  | Some g => negb (bool_decide (og_Namespaces g = [og_Namespace g])) && negb (IsUncopiable out)
  end.
Lemma syncTargets_run csv out err h :
  exists copies r, syncTargets env csv out err h = (h ++ (SCopy <$> copies) ++ (if copiedFor csv out then [SRequeueCopy (csv_Namespace out) (csv_Name out)] else []), r) /\ (r = inr Finished -> err = None).
Proof.
  unfold syncTargets, copiedFor. destruct (operatorGroupFromAnnotations _ csv) as [g|]; [|exists []; destruct err; eexists; rewrite !app_nil_r; done].
  case_bool_decide; cbn [negb andb]; [exists []; destruct err; eexists; rewrite !app_nil_r; done|].
  unfold pbind at 1, attempt, liftCopy. destruct (ensureRBACInTargetNamespace _ csv g (copyCalls h)) as [after res]. cbn [fst snd].
  exists (drop (length (copyCalls h)) after). destruct (IsUncopiable out); unfold pbind, stry, pbind, perform, pret; cbn [negb]; rewrite ?app_nil_r, ?app_assoc; destruct res, err; eexists; done.
Qed.

(** The sync of a CSV with its finalizer runs the state machine, writes the status it computed exactly when it
    changed, and requeues the copies of the CSV exactly when its operator group has other target namespaces than its own and
    the CSV is in a phase to be copied; the sync succeeds only if the transition and the update of the status did. *)
Theorem sync_reconciles namespace name c out err acts :
  ye_getCSV env namespace name = inr c -> ob_Deleting c = false -> myFinalizerName ∈ ob_Finalizers c -> IsCopied (ob_csv c) = false ->
  transitionCSVState (ye_transition env) (ob_csv c) = Synced out err acts ->
  let calls := calls_of (syncClusterServiceVersion env namespace name) in
  head calls = Some (STransition acts) /\
  (forall o, SUpdateStatus o ∈ calls <-> o = out /\ statusChanged out (ob_csv c) = true) /\
  (forall ns n, SRequeueCopy ns n ∈ calls <-> copiedFor (ob_csv c) out = true /\ ns = csv_Namespace out /\ n = csv_Name out) /\
  (result_of (syncClusterServiceVersion env namespace name) = inr Finished ->
     err = None /\ (statusChanged out (ob_csv c) = true -> ye_do env [STransition acts] (SUpdateStatus out) = None)).
Proof.
  intros Hg Hd Hf Hc Ht calls. destruct (processFinalizer_live c Hd) as [[_ E]|[? _]]; [|done].
  destruct (updateStatus_run out (ob_csv c) err [STransition acts]) as (err' & Eu & Hu).
  destruct (syncTargets_run (ob_csv c) out err' ([STransition acts] ++ (if statusChanged out (ob_csv c) then [SUpdateStatus out] else []))) as (copies & r & Es & Hr).
  assert (syncClusterServiceVersion env namespace name [] = (([STransition acts] ++ (if statusChanged out (ob_csv c) then [SUpdateStatus out] else [])) ++ (SCopy <$> copies) ++ (if copiedFor (ob_csv c) out then [SRequeueCopy (csv_Namespace out) (csv_Name out)] else []), r)) as Erun.
  { unfold syncClusterServiceVersion. rewrite Hg. unfold pbind at 1. rewrite E. cbn [snd]. unfold reconcileCSV. rewrite Hc, Ht. unfold pbind at 1, perform. cbv beta iota. cbn [app]. unfold pbind. by rewrite Eu, Es. }
  subst calls. unfold calls_of, result_of. rewrite Erun. cbn [fst snd].
  assert (forall x, x ∈ (SCopy <$> copies) -> exists k, x = SCopy k) as Hk by (intros x (k & -> & _)%list_elem_of_fmap; by exists k).
  split; [done|]. split_and!.
  - intros o. rewrite !elem_of_app, !elem_of_if, list_elem_of_singleton. split; [intros [[[=]|[? [= ->]]]|[[? [=]]%Hk|[? [=]]]]; done|intros [-> ?]; left; right; done].
  - intros ns n. rewrite !elem_of_app, !elem_of_if, list_elem_of_singleton. split; [intros [[[=]|[? [=]]]|[[? [=]]%Hk|[? [= -> ->]]]]; done|intros (? & -> & ->); right; right; done].
  - intros Hok. by apply Hu, Hr.
Qed.

(** The lister hands out a pointer into the cache, and [AddFinalizer] writes through it: the CSV in the cache after the
    finalizer of a CSV that is not being deleted. *)
Definition cachedAfterAdd (c : CSVObj) : CSVObj := if bool_decide (myFinalizerName ∈ ob_Finalizers c) then c else withFinalizer c.

(** When the update that adds the finalizer fails, the sync returns the error; but the next sync on the cached object
    finds the finalizer there and runs the state machine of a CSV that the API server knows without the finalizer. *)
Lemma failed_finalizer_forgotten namespace name c err out err' acts :
  ye_getCSV env namespace name = inr c -> ob_Deleting c = false -> myFinalizerName ∉ ob_Finalizers c -> IsCopied (ob_csv c) = false ->
  ye_do env [] (SUpdateCSV (withFinalizer c)) = Some err -> transitionCSVState (ye_transition env) (ob_csv c) = Synced out err' acts ->
  result_of (syncClusterServiceVersion env namespace name) = inl err /\
  forall h, exists rest, (let! fin := processFinalizer env (cachedAfterAdd c) in if fin.2 then reconcileCSV env (ob_csv c) else orFinished fin.1) h = (h ++ STransition acts :: rest.1, rest.2) /\ Forall noCSVUpdate rest.1.
Proof.
  intros Hg Hd Hf Hc He Ht. split.
  - unfold result_of, syncClusterServiceVersion. rewrite Hg. unfold pbind. destruct (processFinalizer_live c Hd) as [[? _]|[_ ->]]; [done|]. by rewrite He.
  - intros h. unfold cachedAfterAdd. rewrite bool_decide_eq_false_2 by done. unfold processFinalizer. cbn [withFinalizer ob_Deleting ob_Finalizers negb].
    rewrite (bool_decide_eq_true_2 _ (withFinalizer_added c)). unfold pbind at 1, pret. cbn [snd].
    destruct (reconcile_no_update (ob_csv c) h) as (new & E & F). destruct (reconcileCSV env (ob_csv c) h) as [h' r] eqn:Er. cbn [fst] in E. subst h'.
    unfold reconcileCSV in Er. rewrite Hc, Ht in Er. unfold pbind at 1, perform in Er. cbv beta iota in Er.
    destruct (updateStatus_run out (ob_csv c) err' (h ++ [STransition acts])) as (e2 & Eu & _). unfold pbind in Er. rewrite Eu in Er.
    destruct (syncTargets_run (ob_csv c) out e2 ((h ++ [STransition acts]) ++ (if statusChanged out (ob_csv c) then [SUpdateStatus out] else []))) as (copies & r2 & Es & _). rewrite Es in Er.
    injection Er as En <-. rewrite <- !app_assoc in En. apply app_inv_head in En. subst new. cbn [app] in F |- *. apply Forall_cons in F as [_ F]. eexists (_, _). split; [reflexivity|exact F].
Qed.

(** *** The deletion of a CSV *)

Definition gcCalls (csv : CSV) (operatorNamespace : string) (namespaces : list string) : list SyncCall :=
  namespaces ≫= fun ns => if bool_decide (ns = operatorNamespace) then [] else [SRequeueGC ns (csv_Name csv)].
(** The API service is there and its labels name the CSV as its owner. *)
Definition ownsAPIService (csv : CSV) (name : string) : bool :=
  match ye_apiService env name with
  | inl _ => false
  | inr fetched => bool_decide (csv_Name csv = label (Labels fetched) OwnerKey) && bool_decide (csv_Namespace csv = label (Labels fetched) OwnerNamespaceKey)
  end.
Definition apiServiceCalls (csv : CSV) : list SyncCall :=
  spec_APIServices_Owned (csv_Spec csv) ≫= fun desc =>
    let n := as_Version desc +:+ "." +:+ as_Group desc in if ownsAPIService csv n then [SDeleteAPIService n] else [].
Definition groupCalls (ns : string) : list SyncCall :=
  match ye_groups env ns with inl _ => [] | inr gs => (fun g => SRequeueGroup (og_Namespace g) (og_Name g)) <$> gs end.
Definition conversionCRDs (csv : CSV) : list string :=
  List.filter (fun d => bool_decide (wd_Type d = ConversionWebhook)) (spec_WebhookDefinitions (csv_Spec csv)) ≫= wd_ConversionCRDs.
Definition replacedByOther (csv : CSV) : bool :=
  existsb (fun c => bool_decide (csv_Replaces c = csv_Name csv)) (match ye_csvs env (csv_Namespace csv) with inr csvs => csvs | inl _ => [] end).
(** A CRD as it was read, without its conversion. *)
Definition stripped (crds : list string) (c : SyncCall) : Prop :=
  match c with
  | SUpdateCRD crd => cc_Conversion crd = Some ("None", false) /\ exists crdName h old, crdName ∈ crds /\ ye_crd env h crdName = inr old /\ cc_Name crd = cc_Name old
  | _ => False
  end.

Lemma stry_run c h : stry env c h = (h ++ [c], inr tt).
Proof. done. Qed.
Lemma gc_run csv op nss h :
  pfor nss (fun ns => if bool_decide (ns = op) then pret tt else stry env (SRequeueGC ns (csv_Name csv))) h = (h ++ gcCalls csv op nss, inr tt).
Proof. apply pfor_succeeds. intros ns h' _. case_bool_decide; [by rewrite app_nil_r|apply stry_run]. Qed.
Lemma apiServices_run csv h : pfor (spec_APIServices_Owned (csv_Spec csv)) (deleteOwnedAPIService env csv) h = (h ++ apiServiceCalls csv, inr tt).
Proof.
  apply pfor_succeeds. intros desc h' _. cbv zeta. unfold deleteOwnedAPIService, ownsAPIService.
  destruct (ye_apiService env _) as [err|fetched]; [by rewrite app_nil_r|]. destruct (_ && _); [apply stry_run|by rewrite app_nil_r].
Qed.
Lemma groups_run ns h : requeueGroups env ns h = (h ++ groupCalls ns, inr tt).
Proof.
  unfold requeueGroups, groupCalls. destruct (ye_groups env ns) as [err|gs]; [by rewrite app_nil_r|].
  erewrite pfor_succeeds with (f := fun g => [SRequeueGroup (og_Namespace g) (og_Name g)]) by (intros; apply stry_run).
  done.
Qed.
Lemma strip_run csv h : exists new e, stripConversions env csv h = (h ++ new, inr e) /\ Forall (stripped (conversionCRDs csv)) new.
Proof.
  unfold stripConversions. fold (conversionCRDs csv). assert (conversionCRDs csv ⊆ conversionCRDs csv) as Hsub by done. revert Hsub.
  generalize (conversionCRDs csv) at 1 3. intros crds. generalize Finished. revert h. induction crds as [|crd crds IH]; intros h e Hsub; [exists [], e; by rewrite app_nil_r|].
  assert (crd ∈ conversionCRDs csv) as Hcrd by (apply Hsub; by left). assert (crds ⊆ conversionCRDs csv) as Hcrds by (intros x Hx; apply Hsub; by right).
  cbn [pfold]. unfold pbind at 1. destruct (stripConversion env e crd h) as [h' [err|e']] eqn:Es; unfold stripConversion in Es; [by repeat case_match|].
  assert (exists new, h' = h ++ new /\ Forall (stripped (conversionCRDs csv)) new) as (new & -> & F).
  { destruct e; [|injection Es as <- <-; exists []; by rewrite app_nil_r]. destruct (ye_crd env h crd) as [err|old] eqn:Ec; [injection Es as <- <-; exists []; by rewrite app_nil_r|].
    destruct (cc_Conversion old); [|injection Es as <- <-; exists []; by rewrite app_nil_r]. injection Es as <- <-. eexists. split; [done|]. constructor; [|done]. cbn. split; [done|]. by exists crd, h, old. }
  destruct (IH (h ++ new) e' Hcrds) as (new' & e'' & -> & F'). exists (new ++ new'), e''. split; [by rewrite app_assoc|by apply Forall_app].
Qed.

Lemma elem_of_gc csv op nss c : c ∈ gcCalls csv op nss <-> exists ns, c = SRequeueGC ns (csv_Name csv) /\ ns ∈ nss /\ ns <> op.
Proof.
  unfold gcCalls. rewrite list_elem_of_bind. split.
  - intros (ns & Hc & Hin). case_bool_decide; [by apply elem_of_nil in Hc|]. apply list_elem_of_singleton in Hc as ->. by exists ns.
  - intros (ns & -> & Hin & Hne). exists ns. rewrite bool_decide_eq_false_2 by done. split; [by apply list_elem_of_singleton|done].
Qed.
Lemma elem_of_apis csv c :
  c ∈ apiServiceCalls csv <-> exists desc, c = SDeleteAPIService (as_Version desc +:+ "." +:+ as_Group desc) /\ desc ∈ spec_APIServices_Owned (csv_Spec csv) /\ ownsAPIService csv (as_Version desc +:+ "." +:+ as_Group desc) = true.
Proof. unfold apiServiceCalls. rewrite list_elem_of_bind. cbv zeta. setoid_rewrite elem_of_if. naive_solver. Qed.

(** Everything the handler calls, in order. *)
Lemma deletion_calls csv t op g nss :
  IsCopied csv = false ->
  default ∅ (csv_Annotations csv) !! OperatorGroupTargetsAnnotationKey = Some t ->
  default ∅ (csv_Annotations csv) !! OperatorGroupNamespaceAnnotationKey = Some op ->
  default ∅ (csv_Annotations csv) !! OperatorGroupAnnotationKey = Some g ->
  childNamespaces env t = inr nss ->
  exists crds, calls_of (handleClusterServiceVersionDeletion env csv) = gcCalls csv op nss ++ apiServiceCalls csv ++ crds ++ groupCalls (csv_Namespace csv) /\
    Forall (stripped (conversionCRDs csv)) crds /\ (replacedByOther csv = true -> crds = []).
Proof.
  intros Hc Ht Hn Hg Hnss. unfold calls_of, handleClusterServiceVersionDeletion. rewrite Hc, Ht, Hn, Hg.
  unfold pbind at 1, collectChildren. rewrite Hnss. unfold pbind at 1. rewrite gc_run. unfold pbind at 1. rewrite apiServices_run. cbv zeta. fold (replacedByOther csv).
  destruct (replacedByOther csv).
  - unfold pret at 1, pbind. rewrite groups_run. exists []. cbn. by rewrite <- app_assoc.
  - destruct (strip_run csv (([] ++ gcCalls csv op nss) ++ apiServiceCalls csv)) as (crds & e & -> & F). unfold pbind. rewrite groups_run. exists crds. cbn. by rewrite <- !app_assoc.
Qed.

(** The deletion of a CSV with the annotations of its operator group cleans up after it.  The collection of its
    copies is requeued in exactly the target namespaces other than the operator's; exactly the API services it describes
    whose labels name it as owner are deleted; every operator group of its namespace is requeued; and a CRD is written only
    without its conversion, only if a conversion webhook of the CSV names it, and only if no CSV of the namespace replaces
    the deleted one. *)
Theorem csv_deletion_collects csv t op g nss :
  IsCopied csv = false ->
  default ∅ (csv_Annotations csv) !! OperatorGroupTargetsAnnotationKey = Some t ->
  default ∅ (csv_Annotations csv) !! OperatorGroupNamespaceAnnotationKey = Some op ->
  default ∅ (csv_Annotations csv) !! OperatorGroupAnnotationKey = Some g ->
  childNamespaces env t = inr nss ->
  let calls := calls_of (handleClusterServiceVersionDeletion env csv) in
  (forall ns n, SRequeueGC ns n ∈ calls <-> n = csv_Name csv /\ ns ∈ nss /\ ns <> op) /\
  (forall n, SDeleteAPIService n ∈ calls <-> ownsAPIService csv n = true /\ exists desc, desc ∈ spec_APIServices_Owned (csv_Spec csv) /\ n = as_Version desc +:+ "." +:+ as_Group desc) /\
  (forall gs og, ye_groups env (csv_Namespace csv) = inr gs -> og ∈ gs -> SRequeueGroup (og_Namespace og) (og_Name og) ∈ calls) /\
  (forall crd, SUpdateCRD crd ∈ calls -> replacedByOther csv = false /\ stripped (conversionCRDs csv) (SUpdateCRD crd)).
Proof.
  intros Hc Ht Hn Hg Hnss calls. destruct (deletion_calls csv t op g nss Hc Ht Hn Hg Hnss) as (crds & Ec & F & Hr). subst calls. rewrite Ec. clear Ec.
  assert (forall c, c ∈ crds -> exists crd, c = SUpdateCRD crd) as Hcrds by (intros [] Hin; apply (proj1 (Forall_forall _ _) F) in Hin as Hs; eauto; done).
  assert (forall c, c ∈ groupCalls (csv_Namespace csv) -> exists og, c = SRequeueGroup (og_Namespace og) (og_Name og)) as Hgs.
  { unfold groupCalls. destruct (ye_groups env _); [by intros c ?%elem_of_nil|]. intros c (og & -> & _)%list_elem_of_fmap. by exists og. }
  setoid_rewrite elem_of_app. setoid_rewrite elem_of_app. setoid_rewrite elem_of_app.
  setoid_rewrite elem_of_gc. setoid_rewrite elem_of_apis.
  split_and!.
  - intros ns n. split; [|intros (-> & Hin & Hne); left; by exists ns].
    intros [(ns' & [= -> ->] & Hin & Hne)|[(desc & [=] & _)|[[? [=]]%Hcrds|[? [=]]%Hgs]]]. done.
  - intros n. split; [|intros [Ho (desc & Hd & ->)]; right; left; by exists desc].
    intros [(ns' & [=] & _)|[(desc & [= ->] & Hd & Ho)|[[? [=]]%Hcrds|[? [=]]%Hgs]]]. split; [done|]. by exists desc.
  - intros gs og Hg' Hin. do 3 right. unfold groupCalls. rewrite Hg'. apply list_elem_of_fmap. by exists og.
  - intros crd [(ns' & [=] & _)|[(desc & [=] & _)|[Hin|[? [=]]%Hgs]]]. split; [|by apply (proj1 (Forall_forall _ _) F) in Hin].
    destruct (replacedByOther csv); [|done]. rewrite Hr in Hin by done. by apply elem_of_nil in Hin.
Qed.

(** *** Requeueing *)

Lemma steady_requeueOwnerCSVs o : steady (requeueOwnerCSVs env o).
Proof. unfold requeueOwnerCSVs, stry. steady. Qed.
Lemma steady_requeueByLabels o : steady (requeueByLabels env o).
Proof. unfold requeueByLabels, requeueCSVsByLabelSet, stry. steady. Qed.
Lemma steady_retryCSV errs csv : steady (retryCSV env errs csv).
Proof. unfold retryCSV. steady. Qed.
#[local] Hint Resolve steady_requeueOwnerCSVs steady_requeueByLabels steady_retryCSV : calls.
Lemma steady_syncObject meta obj : steady (syncObject env meta obj).
Proof. unfold syncObject. steady. Qed.

Definition retried (csv : CSV) : CSV := SetPhase csv CSVPhasePending CSVReasonDetectedClusterChange "Cluster resources changed state" (Some (ye_now env)).

Lemma retryCSV_calls errs csv h :
  csv_Reason csv = CSVReasonComponentFailedNoRetry ->
  SUpdateStatus (retried csv) ∈ (retryCSV env errs csv h).1 /\
  (ye_do env h (SUpdateStatus (retried csv)) = None -> SRequeueCSV (csv_Namespace csv) (csv_Name csv) ∈ (retryCSV env errs csv h).1).
Proof.
  intros Hr. unfold retryCSV. rewrite bool_decide_eq_true_2 by done. cbn [negb]. fold (retried csv). unfold pbind at 1 3. unfold perform at 1 3.
  destruct (ye_do env h _) as [e|]; cbv beta iota; (split; [|try done]); unfold pret, pbind, perform; cbn [fst]; rewrite ?elem_of_app, ?list_elem_of_singleton; naive_solver.
Qed.

(** When a role, a role binding or a service account changes, every failed CSV of its namespace that would not be
    retried is set to pending and, where the update goes through, requeued; and the sync returns no error, whatever fails
    (the aggregated errors are assigned to the result and then overwritten). *)
Theorem rbac_change_retries meta obj name csv :
  IsObjectRBACRelated meta = true -> csvSet (ye_csvs env (ONamespace meta)) CSVPhaseFailed !! name = Some csv -> csv_Reason csv = CSVReasonComponentFailedNoRetry ->
  let calls := calls_of (syncObject env meta obj) in
  result_of (syncObject env meta obj) = inr tt /\
  SUpdateStatus (retried csv) ∈ calls /\
  ((forall h, ye_do env h (SUpdateStatus (retried csv)) = None) -> SRequeueCSV (csv_Namespace csv) (csv_Name csv) ∈ calls).
Proof.
  intros Hm Hc Hr calls. split. { unfold result_of. destruct (steady_syncObject meta obj []) as (? & [] & E). by rewrite E. }
  subst calls. unfold calls_of, syncObject. rewrite Hm.
  assert (steady (if IsOwnedByKind meta CSVKind then requeueOwnerCSVs env meta else pret tt)) as S1 by steady.
  unfold pbind at 1 4. destruct (S1 []) as (n1 & x1 & ->). unfold pbind at 1 3. destruct (steady_requeueByLabels obj ([] ++ n1)) as (n2 & x2 & ->).
  assert (csv ∈ (range (csvSet (ye_csvs env (ONamespace meta)) CSVPhaseFailed)).*2) as Hin by (apply elem_of_range_vals; by exists name).
  set (xs := (range _).*2) in *. set (h := ([] ++ n1) ++ n2). destruct (pfold_ran (retryCSV env) [] xs h csv steady_retryCSV Hin) as (s' & h' & Hk).
  destruct (steady_fold (retryCSV env) [] xs steady_retryCSV h) as (n3 & x3 & E3). unfold pbind. rewrite E3 in *. cbn [fst] in *.
  destruct (retryCSV_calls s' csv h' Hr) as [Hu Hq]. split; [by apply Hk|]. intros Hok. by apply Hk, Hq.
Qed.
End facts.

(** ** A concrete environment *)

Module SyncDemo.
#[local] Existing Instances canonical_order demo_req_lib RbacDemo.lib CopiesDemo.copyLib.

Definition etcd : CSV := member_CSV "etcd" "" "" "".
(** An operator with an API service of its own and a conversion webhook. *)
Definition served : CSV :=
  mkCSV (demo_csv "etcd" "1") (Some (CopiesDemo.annotations "ns,a,b"))
    (mkCSVSpec empty_strategy [] [] [mkAPIDesc "backups" "example.com" "v1" "Backup" "etcd" 443%Z] [] [mkWebhook "convert" ConversionWebhook "etcd" [] ["etcds.example.com"] 443%Z None None [] ""] [] "" [] "" false)
    (demo_status "Succeeded" "InstallSucceeded").
Definition failed : CSV := mkCSV (demo_csv "etcd" "1") None (demo_spec "") (demo_status "Failed" CSVReasonComponentFailedNoRetry).
Definition service : Object := mkObj TAPIService noGVK "v1.example.com" "" "9" [] (Some (OwnerLabel (csv_obj served) CSVKind)).
Definition role : Object := mkObj TRole noGVK "pods" "ns" "3" [] None.

(** The API server takes every write; the given CSV is the only one, and no cluster role is left of it. *)
Definition env (c : CSVObj) (csvs : list CSV) : SyncEnv := {|
  ye_transition := live_env "" [] 0%Z; ye_copy := CopiesDemo.plain []; ye_now := 0%Z; ye_getCSV ns n := inr c;
  ye_clusterRoleBindings := inr [role]; ye_clusterRoles := inr []; ye_groups ns := inr [live_group ""]; ye_namespaces := inr ["ns"; "a"];
  ye_getNamespace n := None; ye_apiService n := inr service; ye_csvs ns := inr csvs;
  ye_crd h n := inr (mkConvertedCRD n (Some ("Webhook", true))); ye_labelIndex sets := inr []; ye_secrets := inr []; ye_do h c := None |}.
Definition live : CSVObj := mkCSVObj etcd [myFinalizerName] false.
Definition leaving : CSVObj := mkCSVObj etcd ["other"; myFinalizerName] true.

Lemma finalizer_protects_witness :
  SUpdateCSV (mkCSVObj etcd ["other"] true) ∈ calls_of (syncClusterServiceVersion (env leaving []) "ns" "etcd").
Proof.
  refine (proj1 (proj2 (proj2 (finalizer_protects (env leaving []) "ns" "etcd" leaving eq_refl)) eq_refl (bool_decide_unpack (myFinalizerName ∈ ["other"; myFinalizerName]) I) _)).
  split; [intros i k _; by left|]. split; eexists; (split; [reflexivity|]); intros o Ho.
  - apply list_elem_of_singleton in Ho as ->. vm_compute. reflexivity.
  - by apply elem_of_nil in Ho.
Defined.

Lemma sync_reconciles_witness :
  exists out acts, head (calls_of (syncClusterServiceVersion (env live []) "ns" "etcd")) = Some (STransition acts) /\ csv_Phase out = CSVPhasePending /\
    SUpdateStatus out ∈ calls_of (syncClusterServiceVersion (env live []) "ns" "etcd").
Proof.
  destruct (transitionCSVState (ye_transition (env live [])) etcd) as [|acts|out err acts] eqn:E; [vm_compute in E; discriminate E|vm_compute in E; discriminate E|].
  destruct (sync_reconciles (env live []) "ns" "etcd" live out err acts eq_refl eq_refl ltac:(by left) eq_refl E) as (Hh & Hs & _ & _).
  exists out, acts. split; [exact Hh|]. vm_compute in E. injection E as <- _ _. split; [reflexivity|]. apply Hs. split; [reflexivity|]. vm_compute. reflexivity.
Defined.

Lemma csv_deletion_collects_witness :
  SRequeueGC "b" "etcd" ∈ calls_of (handleClusterServiceVersionDeletion (env live []) served) /\
  SDeleteAPIService "v1.example.com" ∈ calls_of (handleClusterServiceVersionDeletion (env live []) served).
Proof.
  destruct (csv_deletion_collects (env live []) served "ns,a,b" "ns" "og" ["ns"; "a"; "b"] eq_refl ltac:(vm_compute; reflexivity) ltac:(vm_compute; reflexivity) ltac:(vm_compute; reflexivity) ltac:(vm_compute; reflexivity)) as (Hgc & Hapi & _).
  split; [apply Hgc|apply Hapi].
  - split; [reflexivity|]. split; [exact (bool_decide_unpack ("b" ∈ ["ns"; "a"; "b"]) I)|discriminate].
  - split; [vm_compute; reflexivity|]. eexists. split; [left|reflexivity].
Defined.

Lemma rbac_change_retries_witness :
  SRequeueCSV "ns" "etcd" ∈ calls_of (syncObject (env live [failed]) role LOther).
Proof.
  refine (proj2 (proj2 (rbac_change_retries (env live [failed]) role LOther "etcd" failed _ _ eq_refl)) (fun h => eq_refl)); vm_compute; reflexivity.
Defined.
End SyncDemo.
