(* ===== verification/RegistryPods.v ===== *)
(** * Catalog sources and the pods that serve them

    Models [v1alpha1/catalogsource_types.go], the decoding of its update strategy included, and [Pod],
    [addSecurityContext] and [getDefaultPodContextConfig] of [controller/registry/reconciler/reconciler.go].

    A pod has at least one container, as the API server demands: the first one is a field of its own.  Of a
    container the parts are kept that the code sets differently for different catalogs; ports, the commands of probes
    and the requested CPU are constants of the source. *)

From S2P Require Import Prelude GoStrings OwnerUtil CsvTypes OperatorRbac BundleUnpack ClusterCalls CsvCopies.

(** ** Catalog sources *)

Definition SourceTypeInternal : string := "internal".
Definition SourceTypeConfigmap : string := "configmap".
Definition SourceTypeGrpc : string := "grpc".
Definition CatalogSourceSpecInvalidError : string := "SpecInvalidError".
Definition CatalogSourceConfigMapError : string := "ConfigMapError".
Definition CatalogSourceRegistryServerError : string := "RegistryServerError".
Definition CatalogSourceIntervalInvalidError : string := "InvalidIntervalError".
Definition Legacy : string := "legacy".
Definition Restricted : string := "restricted".
(** Durations and times are in nanoseconds. *)
Definition minute : Z := 60 * 1000000000.
Definition DefaultRegistryPollDuration : Z := 15 * minute.

Record ExtractContentConfig := mkExtract { ec_CacheDir : string; ec_CatalogDir : string }.
(** Tolerations, affinities and quantities are not looked into. *)
Record GrpcPodConfig := mkPodConfig {
  gp_NodeSelector : option (gmap string string); gp_Tolerations : option (list string); gp_Affinity : option string;
  gp_PriorityClassName : option string; gp_SecurityContextConfig : string; gp_MemoryTarget : option string;
  gp_ExtractContent : option ExtractContentConfig
}.
Record RegistryPoll := mkPoll { rp_RawInterval : string; rp_Interval : option Z; rp_ParsingError : string }.
(** The update strategy is a pointer to a structure that embeds a pointer. *)
Record CatalogSourceSpec := mkCatSpec {
  css_SourceType : string; css_ConfigMap : string; css_Address : string; css_Image : string;
  css_GrpcPodConfig : option GrpcPodConfig; css_UpdateStrategy : option (option RegistryPoll); css_Secrets : list string
}.
Record RegistryServiceStatus := mkServiceStatus { rss_Protocol : string; rss_ServiceName : string; rss_ServiceNamespace : string; rss_Port : string; rss_CreatedAt : Time }.
Record GRPCConnectionState := mkConnState { gc_Address : string; gc_LastObservedState : string; gc_LastConnectTime : Time }.
Record ConfigMapResourceReference := mkCMRef { cmr_Name : string; cmr_Namespace : string; cmr_UID : string; cmr_ResourceVersion : string; cmr_LastUpdateTime : Time }.
Record CatalogSourceStatus := mkCatStatus {
  cst_Message : string; cst_Reason : string; cst_LatestImageRegistryPoll : option Time; cst_ConfigMapResource : option ConfigMapResourceReference;
  cst_RegistryServiceStatus : option RegistryServiceStatus; cst_GRPCConnectionState : option GRPCConnectionState; cst_Conditions : list StatusCondition
}.
Record CatalogSource := mkCatSource { cs_obj : Object; cs_Annotations : option (gmap string string); cs_CreationTimestamp : Time; cs_Spec : CatalogSourceSpec; cs_Status : CatalogSourceStatus }.

Definition cs_Name (c : CatalogSource) : string := OName (cs_obj c).
Definition cs_Namespace (c : CatalogSource) : string := ONamespace (cs_obj c).
Definition cs_setStatus (c : CatalogSource) (s : CatalogSourceStatus) : CatalogSource := mkCatSource (cs_obj c) (cs_Annotations c) (cs_CreationTimestamp c) (cs_Spec c) s.
Definition setConfigMapResource (c : CatalogSource) (r : option ConfigMapResourceReference) : CatalogSource :=
  let s := cs_Status c in cs_setStatus c (mkCatStatus (cst_Message s) (cst_Reason s) (cst_LatestImageRegistryPoll s) r (cst_RegistryServiceStatus s) (cst_GRPCConnectionState s) (cst_Conditions s)).
Definition setRegistryService (c : CatalogSource) (r : option RegistryServiceStatus) : CatalogSource :=
  let s := cs_Status c in cs_setStatus c (mkCatStatus (cst_Message s) (cst_Reason s) (cst_LatestImageRegistryPoll s) (cst_ConfigMapResource s) r (cst_GRPCConnectionState s) (cst_Conditions s)).
Definition setConnection (c : CatalogSource) (g : option GRPCConnectionState) : CatalogSource :=
  let s := cs_Status c in cs_setStatus c (mkCatStatus (cst_Message s) (cst_Reason s) (cst_LatestImageRegistryPoll s) (cst_ConfigMapResource s) (cst_RegistryServiceStatus s) g (cst_Conditions s)).
(** [SetError] *)
Definition SetError (c : CatalogSource) (reason : string) (err : option error) : CatalogSource :=
  let s := cs_Status c in
  cs_setStatus c (mkCatStatus (match err with Some e => Error_ e | None => "" end) reason (cst_LatestImageRegistryPoll s) (cst_ConfigMapResource s) (cst_RegistryServiceStatus s) (cst_GRPCConnectionState s) (cst_Conditions s)).
Definition SetLastUpdateTime (c : CatalogSource) (now : Time) : CatalogSource :=
  let s := cs_Status c in cs_setStatus c (mkCatStatus (cst_Message s) (cst_Reason s) (Some now) (cst_ConfigMapResource s) (cst_RegistryServiceStatus s) (cst_GRPCConnectionState s) (cst_Conditions s)).

Definition IsAMatch (r : ConfigMapResourceReference) (uid resourceVersion : string) : bool := bool_decide (cmr_UID r = uid) && bool_decide (cmr_ResourceVersion r = resourceVersion).

(** [RegistryServiceStatus.Address] *)
Definition serviceAddress (s : RegistryServiceStatus) : string := rss_ServiceName s +:+ "." +:+ rss_ServiceNamespace s +:+ ".svc:" +:+ rss_Port s.
(** [CatalogSource.Address]: dereferences the status when the spec has no address. *)
Definition Address (c : CatalogSource) : option string :=
  if bool_decide (css_Address (cs_Spec c) = "") then serviceAddress <$> cst_RegistryServiceStatus (cs_Status c) else Some (css_Address (cs_Spec c)).

Definition registryPoll (c : CatalogSource) : option RegistryPoll := css_UpdateStrategy (cs_Spec c) ≫= id.

Definition Poll (c : CatalogSource) : bool :=
  bool_decide (is_Some (registryPoll c)) && negb (bool_decide (css_Image (cs_Spec c) = "")) && bool_decide (css_SourceType (cs_Spec c) = SourceTypeGrpc).

(** [None]: the interval is dereferenced though it is nil. *)
Definition Update (c : CatalogSource) (now : Time) : option bool :=
  if negb (Poll c) then Some false
  else
    interval ← registryPoll c ≫= rp_Interval;
    Some (match cst_LatestImageRegistryPoll (cs_Status c) with
          | None => (cs_CreationTimestamp c + interval <? now)%Z
          | Some latest => (latest + interval <? now)%Z
          end).

(** [UpdateStrategy.UnmarshalJSON], on what the JSON decoder found: [None] when it dereferences nil because there is
    no [registryPoll]. *)
Definition UnmarshalUpdateStrategy (parseDuration : string -> error + Z) (decoded : option string) : option (option RegistryPoll) :=
  rawInterval ← decoded;
  Some (Some (match parseDuration rawInterval with
              | inl err => mkPoll rawInterval (Some DefaultRegistryPollDuration)
                             ("error parsing spec.updateStrategy.registryPoll.interval. Using the default value of 15m0s instead. Error: " +:+ Error_ err)
              | inr duration => mkPoll rawInterval (Some duration) ""
              end)).

(** ** Pods *)

Record SecurityContext := mkSecurity { sx_ReadOnlyRootFilesystem : option bool; sx_AllowPrivilegeEscalation : option bool; sx_Drop : option (list string) }.
Record RegContainer := mkRegContainer {
  rc_Name : string; rc_Image : string; rc_Command : list string; rc_Args : list string; rc_Env : list (string * string);
  rc_VolumeMounts : list (string * string); rc_Memory : option string; rc_Limits : bool; rc_PullPolicy : string; rc_ProbeDelays : option (Z * Z); rc_SecurityContext : option SecurityContext
}.
Record PodSecurity := mkPodSecurity { px_SeccompRuntimeDefault : bool; px_RunAsUser : option Z; px_RunAsNonRoot : option bool }.
Record PodSpec := mkPodSpec {
  ps_InitContainers : list RegContainer; ps_Container : RegContainer; ps_MoreContainers : list RegContainer; ps_NodeSelector : gmap string string; ps_ServiceAccountName : string;
  ps_ImagePullSecrets : list string; ps_PriorityClassName : string; ps_Tolerations : list string; ps_Affinity : option string;
  ps_Volumes : list string; ps_Security : option PodSecurity
}.
(** Of the status of a pod: its phase, conditions and the image ids of its containers. *)
Record Pod := mkPod {
  po_obj : Object; po_GenerateName : string; po_Annotations : gmap string string; po_Spec : PodSpec;
  po_Phase : string; po_Conditions : list (string * string); po_InitImageIDs : list string; po_ImageIDs : list string
}.
Definition po_Name (p : Pod) : string := OName (po_obj p).

(** [spew] of the specs of a pod and of a service (its port and selector), which [DeepHashObject] hashes, and the text
    of a quantity in binary format. *)
Class RegistryLib := {
  encodePodSpec : PodSpec -> error + string;
  encodeServiceSpec : Z * gmap string string -> error + string;
  binarySI : string -> string;
}.

Definition CatalogSourceLabelKey : string := "olm.catalogSource".
Definition CatalogPriorityClassKey : string := "operatorframework.io/priorityclass".
Definition PodHashLabelKey : string := "olm.pod-spec-hash".
Definition ClusterAutoscalingAnnotationKey : string := "cluster-autoscaler.kubernetes.io/safe-to-evict".
Definition fallbackToLogs : string := "FallbackToLogsOnError".

Definition setContainer0 (s : PodSpec) (f : RegContainer -> RegContainer) : PodSpec :=
  mkPodSpec (ps_InitContainers s) (f (ps_Container s)) (ps_MoreContainers s) (ps_NodeSelector s) (ps_ServiceAccountName s) (ps_ImagePullSecrets s)
    (ps_PriorityClassName s) (ps_Tolerations s) (ps_Affinity s) (ps_Volumes s) (ps_Security s).
Definition setPriorityClass (s : PodSpec) (p : string) : PodSpec :=
  mkPodSpec (ps_InitContainers s) (ps_Container s) (ps_MoreContainers s) (ps_NodeSelector s) (ps_ServiceAccountName s) (ps_ImagePullSecrets s)
    p (ps_Tolerations s) (ps_Affinity s) (ps_Volumes s) (ps_Security s).

Definition basePodSpec (name img saName : string) (saImagePullSecrets : list string) (readinessDelay livenessDelay : Z) : PodSpec :=
  mkPodSpec []
    (mkRegContainer name img [] [] [] [] (Some "50Mi") false (InferImagePullPolicy img) (Some (readinessDelay, livenessDelay)) (Some (mkSecurity (Some false) None None)))
    [] {["kubernetes.io/os" := "linux"]} saName saImagePullSecrets "" [] None [] None.

(** Scheduling options and the memory target. *)
Definition overrideSpec `{RegistryLib} (c : GrpcPodConfig) (s : PodSpec) : PodSpec :=
  let s := mkPodSpec (ps_InitContainers s) (ps_Container s) (ps_MoreContainers s) (default (ps_NodeSelector s) (gp_NodeSelector c)) (ps_ServiceAccountName s) (ps_ImagePullSecrets s)
             (default (ps_PriorityClassName s) (gp_PriorityClassName c)) (default (ps_Tolerations s) (gp_Tolerations c))
             (match gp_Affinity c with Some a => Some a | None => ps_Affinity s end) (ps_Volumes s) (ps_Security s) in
  match gp_MemoryTarget c with
  | None => s
  | Some target =>
      setContainer0 s (fun r => mkRegContainer (rc_Name r) (rc_Image r) (rc_Command r) (rc_Args r) (rc_Env r ++ [("GOMEMLIMIT", binarySI target +:+ "B")])
                                  (rc_VolumeMounts r) (Some target) true (rc_PullPolicy r) (rc_ProbeDelays r) (rc_SecurityContext r))
  end.

Definition utilitiesPath : string := "/utilities".
Definition catalogPath : string := "/extracted-catalog".
Definition extractArgs (e : ExtractContentConfig) : list string :=
  ["--catalog.from=" +:+ ec_CatalogDir e; "--catalog.to=" +:+ catalogPath +:+ "/catalog"]
  ++ (if bool_decide (ec_CacheDir e = "") then [] else ["--cache.from=" +:+ ec_CacheDir e; "--cache.to=" +:+ catalogPath +:+ "/cache"]).

(** The catalog is copied out of its image and served by a known server. *)
Definition extractContent (opmImg utilImage img : string) (e : ExtractContentConfig) (s : PodSpec) : PodSpec :=
  let r := ps_Container s in
  mkPodSpec
    (ps_InitContainers s ++
      [mkRegContainer "extract-utilities" utilImage ["cp"] ["/bin/copy-content"; utilitiesPath +:+ "/copy-content"] [] [("utilities", utilitiesPath)] None false "" None None;
       mkRegContainer "extract-content" img [utilitiesPath +:+ "/copy-content"] (extractArgs e) [] [("utilities", utilitiesPath); ("catalog-content", catalogPath)] None false (InferImagePullPolicy img) None None])
    (mkRegContainer (rc_Name r) opmImg ["/bin/opm"] ["serve"; catalogPath +:+ "/catalog"; "--cache-dir=" +:+ catalogPath +:+ "/cache"] (rc_Env r)
      (rc_VolumeMounts r ++ [("catalog-content", catalogPath)]) (rc_Memory r) (rc_Limits r) (rc_PullPolicy r) (rc_ProbeDelays r) (rc_SecurityContext r))
    (ps_MoreContainers s) (ps_NodeSelector s) (ps_ServiceAccountName s) (ps_ImagePullSecrets s) (ps_PriorityClassName s) (ps_Tolerations s) (ps_Affinity s)
    (ps_Volumes s ++ ["utilities"; "catalog-content"]) (ps_Security s).

Definition secured (r : RegContainer) : RegContainer :=
  let sc := default (mkSecurity None None None) (rc_SecurityContext r) in
  mkRegContainer (rc_Name r) (rc_Image r) (rc_Command r) (rc_Args r) (rc_Env r) (rc_VolumeMounts r) (rc_Memory r) (rc_Limits r) (rc_PullPolicy r) (rc_ProbeDelays r)
    (Some (mkSecurity (sx_ReadOnlyRootFilesystem sc) (Some false) (Some ["ALL"]))).
Definition addSecurityContext (s : PodSpec) (runAsUser : Z) : PodSpec :=
  mkPodSpec (secured <$> ps_InitContainers s) (secured (ps_Container s)) (secured <$> ps_MoreContainers s) (ps_NodeSelector s) (ps_ServiceAccountName s) (ps_ImagePullSecrets s)
    (ps_PriorityClassName s) (ps_Tolerations s) (ps_Affinity s) (ps_Volumes s)
    (Some (if (0 <? runAsUser)%Z then mkPodSecurity true (Some runAsUser) (Some true) else mkPodSecurity true None None)).

(** Which of the two configurations applies. *)
Definition securityContextConfig (source : CatalogSource) (defaultSecurityConfig : string) : string :=
  match css_GrpcPodConfig (cs_Spec source) with
  | Some c => if bool_decide (gp_SecurityContextConfig c = "") then defaultSecurityConfig else gp_SecurityContextConfig c
  | None => defaultSecurityConfig
  end.

(** The spec before its security settings. *)
Definition configuredSpec `{RegistryLib} (source : CatalogSource) (name opmImg utilImage img : string) (serviceAccount : option (string * list string)) (readinessDelay livenessDelay : Z) : PodSpec :=
  let '(saName, secrets) := default ("", []) serviceAccount in
  let s := basePodSpec name img saName secrets readinessDelay livenessDelay in
  match css_GrpcPodConfig (cs_Spec source) with
  | None => s
  | Some c => let s := overrideSpec c s in match gp_ExtractContent c with Some e => extractContent opmImg utilImage img e s | None => s end
  end.

Definition podSpec `{RegistryLib} (source : CatalogSource) (name opmImg utilImage img : string) (serviceAccount : option (string * list string)) (annotations : gmap string string)
    (readinessDelay livenessDelay runAsUser : Z) (defaultSecurityConfig : string) : PodSpec :=
  let s := configuredSpec source name opmImg utilImage img serviceAccount readinessDelay livenessDelay in
  let s := if bool_decide (securityContextConfig source defaultSecurityConfig = Restricted) then addSecurityContext s runAsUser else s in
  match annotations !! CatalogPriorityClassKey with
  | Some prio => if bool_decide (prio = "") then s else setPriorityClass s prio
  | None => s
  end.

(** [Pod]: the service account is given by its name and pull secrets. *)
Definition makePod `{RbacLib, RegistryLib} (source : CatalogSource) (name opmImg utilImage img : string) (serviceAccount : option (string * list string)) (labels : gmap string string)
    (annotations : option (gmap string string)) (readinessDelay livenessDelay runAsUser : Z) (defaultSecurityConfig : string) : error + Pod :=
  let annotations := default ∅ annotations in
  let spec := podSpec source name opmImg utilImage img serviceAccount annotations readinessDelay livenessDelay runAsUser defaultSecurityConfig in
  match DeepHashObject (encodePodSpec spec) with
  | inl err => inl err
  | inr hash =>
      inr (mkPod (mkObj TOther noGVK "" (cs_Namespace source) "" [] (Some (<[PodHashLabelKey := hash]> (<[olmManagedKey := "true"]> labels))))
             (cs_Name source +:+ "-") (<[ClusterAutoscalingAnnotationKey := "true"]> annotations) spec "" [] [] [])
  end.

(** [getDefaultPodContextConfig], on the labels of the namespace. *)
Definition getDefaultPodContextConfig (namespace : error + gmap string string) : error + string :=
  match namespace with
  | inl err => inl (ErrString ("error fetching defaultNamespace: " +:+ Error_ err))
  | inr labels => inr (if bool_decide (labels !! "pod-security.kubernetes.io/enforce" = Some "restricted") then Restricted else Legacy)
  end.

(** ** What the pod is like *)

Section pod_facts.
Context `{RbacLib, RegistryLib}.

Definition containers (s : PodSpec) : list RegContainer := ps_InitContainers s ++ ps_Container s :: ps_MoreContainers s.
Definition images (s : PodSpec) : list string := rc_Image <$> containers s.

(** The images of the containers of a pod. *)
Definition images_ok (source : CatalogSource) (opm util img : string) (s : PodSpec) : Prop :=
  ps_MoreContainers s = [] /\
  match css_GrpcPodConfig (cs_Spec source) ≫= gp_ExtractContent with
  | Some _ => rc_Image <$> ps_InitContainers s = [util; img] /\ rc_Image (ps_Container s) = opm
  | None => ps_InitContainers s = [] /\ rc_Image (ps_Container s) = img
  end.
Lemma configuredSpec_images source name opm util img sa rd ld : images_ok source opm util img (configuredSpec source name opm util img sa rd ld).
Proof.
  unfold configuredSpec, images_ok. destruct (default ("", []) sa) as [saName secrets]. destruct (css_GrpcPodConfig (cs_Spec source)) as [c|]; cbn [mbind option_bind]; [|done].
  unfold overrideSpec. by destruct (gp_ExtractContent c) as [e|], (gp_MemoryTarget c).
Qed.
Lemma podSpec_images source name opm util img sa annotations rd ld user config :
  images_ok source opm util img (podSpec source name opm util img sa annotations rd ld user config).
Proof.
  unfold podSpec. cbv zeta. set (s := configuredSpec _ _ _ _ _ _ _ _). assert (images_ok source opm util img s) as Hs by apply configuredSpec_images.
  assert (images_ok source opm util img (if bool_decide (securityContextConfig source config = Restricted) then addSecurityContext s user else s)) as Hs'.
  { destruct (bool_decide _); [|done]. revert Hs. unfold images_ok. cbn [addSecurityContext ps_MoreContainers ps_InitContainers ps_Container]. intros [Hm Hs]. split; [by rewrite Hm|].
    destruct (_ ≫= _); destruct Hs as [Hi Hc]; [split; [|exact Hc]; rewrite <- Hi, <- list_fmap_compose; by apply list_fmap_ext|]. split; [by rewrite Hi|exact Hc]. }
  destruct (annotations !! _) as [prio|]; [|done]. by destruct (bool_decide (prio = "")).
Qed.

(** A container that cannot gain privileges. *)
Definition unprivileged (r : RegContainer) : Prop :=
  exists sc, rc_SecurityContext r = Some sc /\ sx_AllowPrivilegeEscalation sc = Some false /\ sx_Drop sc = Some ["ALL"].
Lemma secured_unprivileged r : unprivileged (secured r).
Proof. by eexists. Qed.
Lemma addSecurityContext_unprivileged s user r : r ∈ containers (addSecurityContext s user) -> unprivileged r.
Proof.
  unfold containers. cbn. rewrite elem_of_app, elem_of_cons, !list_elem_of_fmap. intros [(x & -> & _)|[->|(x & -> & _)]]; apply secured_unprivileged.
Qed.

Lemma configuredSpec_plain source name opm util img sa rd ld :
  ps_Security (configuredSpec source name opm util img sa rd ld) = None /\ forall r, r ∈ containers (configuredSpec source name opm util img sa rd ld) -> ~ unprivileged r.
Proof.
  unfold configuredSpec. destruct (default ("", []) sa) as [saName secrets].
  assert (forall r, rc_SecurityContext r = Some (mkSecurity (Some false) None None) \/ rc_SecurityContext r = None -> ~ unprivileged r) as Hr.
  { intros r [E|E] (sc & E' & _ & Ed); rewrite E in E'; [|done]. injection E' as <-. done. }
  destruct (css_GrpcPodConfig (cs_Spec source)) as [c|]; [|split; [done|]; intros r [->|[]%elem_of_nil]%elem_of_cons; apply Hr; by left].
  unfold overrideSpec. destruct (gp_ExtractContent c) as [e|], (gp_MemoryTarget c); (split; [done|]); intros r Hin; apply Hr; revert Hin; unfold containers; cbn; rewrite ?elem_of_cons, elem_of_nil; naive_solver.
Qed.

Lemma restricted_iff source namespace config :
  getDefaultPodContextConfig namespace = inr config ->
  securityContextConfig source config = Restricted <->
  (let asked := match css_GrpcPodConfig (cs_Spec source) with Some c => gp_SecurityContextConfig c | None => "" end in
   asked = Restricted \/ asked = "" /\ exists ls, namespace = inr ls /\ ls !! "pod-security.kubernetes.io/enforce" = Some "restricted").
Proof.
  intros Hc. assert (config = Restricted <-> exists ls, namespace = inr ls /\ ls !! "pod-security.kubernetes.io/enforce" = Some "restricted") as Hr.
  { destruct namespace as [err|ls]; [done|]. cbn in Hc. injection Hc as <-. case_bool_decide as He; split; [by intros _; exists ls|done|done|]. intros (ls' & [= <-] & E). congruence. }
  unfold securityContextConfig. cbv zeta. destruct (css_GrpcPodConfig (cs_Spec source)) as [c|]; [|rewrite Hr; naive_solver].
  case_bool_decide as Hs; [rewrite Hs, Hr; naive_solver|]. naive_solver.
Qed.

(** C24: a pod for a catalog source has the security settings that were asked for.  When the catalog source asks for the
    restricted configuration, or leaves it open in a namespace that enforces it, no container of the pod can escalate its
    privileges or keep a capability, the pod runs under the default seccomp profile, and as a user that is not root where a
    user was given; otherwise no security settings are added to the pod. *)
Theorem pod_security source name opm util img sa labels annotations rd ld user namespace config p :
  getDefaultPodContextConfig namespace = inr config ->
  makePod source name opm util img sa labels annotations rd ld user config = inr p ->
  let asked := match css_GrpcPodConfig (cs_Spec source) with Some c => gp_SecurityContextConfig c | None => "" end in
  let enforced := exists ls, namespace = inr ls /\ ls !! "pod-security.kubernetes.io/enforce" = Some "restricted" in
  (asked = Restricted \/ asked = "" /\ enforced ->
     (forall r, r ∈ containers (po_Spec p) -> unprivileged r) /\
     exists sec, ps_Security (po_Spec p) = Some sec /\ px_SeccompRuntimeDefault sec = true /\
       ((0 < user)%Z -> px_RunAsUser sec = Some user /\ px_RunAsNonRoot sec = Some true)) /\
  (~ (asked = Restricted \/ asked = "" /\ enforced) -> ps_Security (po_Spec p) = None /\ forall r, r ∈ containers (po_Spec p) -> ~ unprivileged r).
Proof.
  intros Hc Hp asked enforced. pose proof (restricted_iff source namespace config Hc) as Hr. cbv zeta in Hr. fold asked enforced in Hr.
  unfold makePod in Hp. set (spec := podSpec _ _ _ _ _ _ _ _ _ _ _) in *. destruct (DeepHashObject _) as [err|hash]; [done|]. injection Hp as <-. cbn [po_Spec].
  assert (forall s prio, containers (setPriorityClass s prio) = containers s /\ ps_Security (setPriorityClass s prio) = ps_Security s) as Hprio by done.
  set (s0 := configuredSpec source name opm util img sa rd ld).
  assert (containers spec = containers (if bool_decide (securityContextConfig source config = Restricted) then addSecurityContext s0 user else s0) /\
          ps_Security spec = ps_Security (if bool_decide (securityContextConfig source config = Restricted) then addSecurityContext s0 user else s0)) as [-> ->].
  { unfold spec, podSpec. cbv zeta. fold s0. destruct (_ !! CatalogPriorityClassKey) as [prio|]; [|done]. by destruct (bool_decide (prio = "")). }
  split; intros Ha.
  - rewrite bool_decide_eq_true_2 by (by apply Hr). split; [apply addSecurityContext_unprivileged|]. eexists. split; [reflexivity|]. split; [by destruct (0 <? user)%Z|].
    intros Hu. rewrite (proj2 (Z.ltb_lt _ _) Hu). done.
  - rewrite bool_decide_eq_false_2 by (by rewrite Hr). apply configuredSpec_plain.
Qed.
End pod_facts.

(** ** Examples *)

Module PodsDemo.
#[local] Existing Instances canonical_order RbacDemo.lib.
(** The image of a container, or the name of a selected label, stands for the printed spec. *)
Definition regLib : RegistryLib := {| encodePodSpec s := inr (rc_Image (ps_Container s)); encodeServiceSpec s := inr (Join (map_to_list s.2).*1 ","); binarySI q := q |}.
#[local] Existing Instance regLib.

Definition noStatus : CatalogSourceStatus := mkCatStatus "" "" None None None None [].
Definition source (sourceType configMap image : string) (poll : option (option RegistryPoll)) (config : option GrpcPodConfig) : CatalogSource :=
  mkCatSource (mkObj TCatalogSource noGVK "operatorhub.io" "olm" "7" [] None) None 0%Z (mkCatSpec sourceType configMap "" image config poll []) noStatus.
Definition extracting : GrpcPodConfig := mkPodConfig None None None None "" None (Some (mkExtract "/cache" "/configs")).

(** In a namespace that enforces the restricted configuration. *)
Lemma pod_security_witness :
  exists p, makePod (source SourceTypeGrpc "" "quay.io/catalog:v1" None (Some extracting)) "registry-server" "opm" "util" "quay.io/catalog:v1" None ∅ None 5 10 1001 Restricted = inr p /\
    length (containers (po_Spec p)) = 3 /\ (forall r, r ∈ containers (po_Spec p) -> unprivileged r) /\ px_RunAsUser <$> ps_Security (po_Spec p) = Some (Some 1001%Z).
Proof.
  eexists. split; [reflexivity|]. split; [reflexivity|].
  pose proof (pod_security (source SourceTypeGrpc "" "quay.io/catalog:v1" None (Some extracting)) "registry-server" "opm" "util" "quay.io/catalog:v1" None ∅ None 5 10 1001
    (inr {["pod-security.kubernetes.io/enforce" := "restricted"]}) Restricted _ eq_refl eq_refl) as [Hr _].
  destruct Hr as (Hu & sec & Hs & _ & Hrun); [right; split; [done|]; eexists; split; reflexivity|]. split; [exact Hu|]. rewrite Hs. cbn. by destruct (Hrun eq_refl) as [-> _].
Defined.
End PodsDemo.
