(* ===== verification/RegistryServers.v ===== *)
(** * Reconcilers of registry servers

    Models [controller/registry/reconciler]: the pods, services, service accounts and roles that serve a catalog
    source, for catalogs in an image ([grpc.go]), at an address ([grpc_address.go]) and in a config map
    ([configmap.go]).  The interface [RegistryReconciler] of [reconciler.go] is the record [RegistryReconciler], and
    [ReconcilerForSource] chooses an implementation.

    [EnsureRegistryServer] changes the status of the catalog source it is given: it returns the catalog source with its
    outcome.  The listers are functions of the environment; reads through the API may depend on the calls before. *)

From stdpp Require Import pretty.
From S2P Require Import Prelude GoStrings OwnerUtil RbacRules RbacAuthorizer CsvTypes OperatorRbac ClusterCalls CsvCopies RegistryPods.
#[local] Open Scope p_scope.

Record ServiceAcct := mkServiceAcct { sac_obj : Object; sac_ImagePullSecrets : list string }.
(** A service with its only port. *)
Record Service := mkService { svc_obj : Object; svc_Port : Z; svc_Selector : gmap string string }.
Record ConfigMapObj := mkConfigMapObj { cmo_obj : Object; cmo_ResourceVersion : string }.

Inductive RegCall :=
  | RCreateSA (s : ServiceAcct) | RDeleteSA (ns name : string)
  | RCreateRole (r : RbacRole) | RDeleteRole (ns name : string)
  | RCreateRoleBinding (b : RbacBinding) | RDeleteRoleBinding (ns name : string)
  | RCreatePod (p : Pod) | RDeletePod (ns name : string) (graceSeconds : Z) | RPromotePod (p : Pod)
  | RCreateService (s : Service) | RDeleteService (ns name : string).

Record RegEnv := mkRegEnv {
  re_now : Time;
  re_pods : string -> error + list Pod;
  re_service : string -> string -> error + Service;
  re_serviceAccount : string -> string -> error + ServiceAcct;
  re_role : string -> string -> error + RbacRole;
  re_roleBinding : string -> string -> error + RbacBinding;
  re_namespace : string -> error + gmap string string;
  re_configMap : string -> string -> error + ConfigMapObj;
  re_getServiceAccount : list RegCall -> string -> string -> error + ServiceAcct;
  re_createPod : list RegCall -> RegCall -> error + Pod;
  re_do : list RegCall -> RegCall -> option error;
}.

Definition CatalogSourceUpdateKey : string := "catalogsource.operators.coreos.com/update".
Definition ServiceHashLabelKey : string := "olm.service-spec-hash".
Definition ConfigMapServerPostfix : string := "-configmap-server".
Definition ConfigMapRVLabelKey : string := "olm.configMapResourceVersion".

(** How ensuring a registry server ends. *)
Inductive EnsureOutcome := Ensured | UpdateNotReady (catalogName podName : string) | EnsureFailed (err : error) | EnsurePanicked.

(** The interface; [None]: the check dereferences nil. *)
Record RegistryReconciler := mkReconciler {
  CheckRegistryServer : CatalogSource -> P RegCall (option bool);
  EnsureRegistryServer : CatalogSource -> P RegCall (CatalogSource * EnsureOutcome);
}.

(** [strings.ReplaceAll(s, ".", "-")] *)
Fixpoint dotsToDashes (s : string) : string :=
  match s with EmptyString => EmptyString | String c s => String (if Ascii.eqb c "."%char then "-"%char else c) (dotsToDashes s) end.

Section reconcilers.
Context `{RbacLib, RegistryLib} (env : RegEnv).
Abbreviation P := (P RegCall).

Definition rdo (c : RegCall) : P unit := check (perform (re_do env) c).
Definition rdoUnlessGone (c : RegCall) : P unit :=
  let! err := perform (re_do env) c in match err with Some e => if IsNotFound (Some e) then pret tt else pfail e | None => pret tt end.
(** [pkgerrors.Wrapf(err, msg)] *)
Definition wrapping {A} (msg : string) (m : P A) : P A := let! r := attempt m in orWrapErr msg r.
Definition listPods (ns : string) (selector : gmap string string) : list Pod :=
  match re_pods env ns with inl _ => [] | inr pods => List.filter (fun p => selects selector (po_obj p)) pods end.
Definition found {A} (r : error + A) : option A := match r with inl _ => None | inr x => Some x end.

Definition deletePods (ns : string) (pods : list Pod) (msg : Pod -> string) : P unit :=
  pfor pods (fun p => wrapping (msg p) (rdoUnlessGone (RDeletePod ns (po_Name p) 1))).

Definition getPort (s : Service) : string := pretty (svc_Port s).

Definition ServiceHashMatch (existing new : Service) : bool :=
  match default ∅ (Labels (svc_obj existing)) !! ServiceHashLabelKey, default ∅ (Labels (svc_obj new)) !! ServiceHashLabelKey with
  | Some a, Some b => bool_decide (a = b)
  | _, _ => false
  end.
Definition podHashMatch (existing new : Pod) : bool :=
  match default ∅ (Labels (po_obj existing)) !! PodHashLabelKey, default ∅ (Labels (po_obj new)) !! PodHashLabelKey with
  | Some a, Some b => bool_decide (a = b)
  | _, _ => false
  end.

(** [ownerutil.AddOwner] on the metadata of a pod *)
Definition ownPod (p : Pod) (c : CatalogSource) (isController : bool) : Pod :=
  mkPod (AddOwner (po_obj p) (cs_obj c) false isController) (po_GenerateName p) (po_Annotations p) (po_Spec p) (po_Phase p) (po_Conditions p) (po_InitImageIDs p) (po_ImageIDs p).

(** *** Dead pods *)

Definition isPodDead (p : Pod) : bool := existsb (fun c => bool_decide (c = ("DisruptionTarget", "True"))) (po_Conditions p).

Definition deleteIfDead (ns : string) (acc : bool * list error) (p : Pod) : P (bool * list error) :=
  if negb (isPodDead p) then pret (true, acc.2)
  else
    let! err := perform (re_do env) (RDeletePod ns (po_Name p) 0) in
    pret (match err with Some e => if IsNotFound (Some e) then acc else (acc.1, acc.2 ++ [e]) | None => acc end).

Definition detectAndDeleteDeadPods (pods : list Pod) (ns : string) : P bool :=
  let! acc := pfold (deleteIfDead ns) (false, []) pods in
  match acc.2 with
  | [] => pret acc.1
  | errs => pfail (ErrString (Join (Error_ <$> errs) (String "010"%char "")))
  end.

(** ** Catalogs in an image *)

Record GrpcRegistryReconciler := mkGrpc { gr_createPodAsUser : Z; gr_opmImage : string; gr_utilImage : string }.

Definition grpcSelector (s : CatalogSource) : gmap string string := {[CatalogSourceLabelKey := cs_Name s]}.
Definition SelectorForUpdate (s : CatalogSource) : gmap string string := {[CatalogSourceUpdateKey := cs_Name s]}.
Definition grpcLabels (s : CatalogSource) : gmap string string := {[CatalogSourceLabelKey := cs_Name s; olmManagedKey := "true"]}.

Definition serviceOf (s : CatalogSource) (name : string) (selector : gmap string string) : error + Service :=
  match DeepHashObject (encodeServiceSpec (50051%Z, selector)) with
  | inl err => inl err
  | inr hash =>
      inr (mkService (AddOwner (mkObj TService noGVK name (cs_Namespace s) "" [] (Some {[ServiceHashLabelKey := hash; olmManagedKey := "true"]})) (cs_obj s) false false) 50051 selector)
  end.
Definition grpcService (s : CatalogSource) : error + Service := serviceOf s (dotsToDashes (cs_Name s)) (grpcLabels s).

Definition grpcServiceAccount (s : CatalogSource) : ServiceAcct :=
  mkServiceAcct
    (mkObj TServiceAccount noGVK (cs_Name s) (cs_Namespace s) "" [mkRef "operators.coreos.com/v1alpha1" "CatalogSource" (cs_Name s) (OUID (cs_obj s)) (Some true) (Some true)] (Some {[olmManagedKey := "true"]}))
    (List.filter (fun n => negb (bool_decide (n = ""))) (css_Secrets (cs_Spec s))).

Section grpc.
Context (c : GrpcRegistryReconciler).

Definition grpcPod (s : CatalogSource) (sa : ServiceAcct) (defaultPodSecurityConfig : string) : error + Pod :=
  match makePod s "registry-server" (gr_opmImage c) (gr_utilImage c) (css_Image (cs_Spec s)) (Some (OName (sac_obj sa), sac_ImagePullSecrets sa)) (grpcLabels s) (cs_Annotations s) 5 10 (gr_createPodAsUser c) defaultPodSecurityConfig with
  | inl err => inl err
  | inr p => inr (ownPod p s true)
  end.

Definition grpcCurrentService (s : CatalogSource) : error + option Service :=
  match grpcService s with inl err => inl err | inr proto => inr (found (re_service env (cs_Namespace s) (OName (svc_obj proto)))) end.
Definition grpcCurrentServiceAccount (s : CatalogSource) : option ServiceAcct := found (re_serviceAccount env (cs_Namespace s) (OName (sac_obj (grpcServiceAccount s)))).
Definition grpcCurrentPods (s : CatalogSource) : list Pod := listPods (cs_Namespace s) (grpcSelector s).
Definition currentUpdatePods (s : CatalogSource) : list Pod := listPods (cs_Namespace s) (SelectorForUpdate s).

Definition correctImages (s : CatalogSource) (p : Pod) : bool :=
  let spec := po_Spec p in
  match css_GrpcPodConfig (cs_Spec s) ≫= gp_ExtractContent with
  | Some _ =>
      match ps_InitContainers spec, ps_MoreContainers spec with
      | [i0; i1], [] => bool_decide (rc_Image i0 = gr_utilImage c) && bool_decide (rc_Image i1 = css_Image (cs_Spec s)) && bool_decide (rc_Image (ps_Container spec) = gr_opmImage c)
      | _, _ => false
      end
  | None => bool_decide (rc_Image (ps_Container spec) = css_Image (cs_Spec s))
  end.

(** A lister that fails has no pods, and then no pod is computed. *)
Definition currentPodsWithCorrectImageAndSpec (s : CatalogSource) (sa : ServiceAcct) (defaultPodSecurityConfig : string) : error + list Pod :=
  match re_pods env (cs_Namespace s) with
  | inl _ => inr []
  | inr _ =>
      match grpcPod s sa defaultPodSecurityConfig with
      | inl err => inl err
      | inr newPod => inr (List.filter (fun p => correctImages s p && podHashMatch p newPod) (listPods (cs_Namespace s) (grpcLabels s)))
      end
  end.

Definition isRegistryServiceStatusValid (s : CatalogSource) : error + bool :=
  match grpcService s with
  | inl err => inl err
  | inr service =>
      inr (match cst_RegistryServiceStatus (cs_Status s) with
           | None => false
           | Some st => bool_decide (rss_ServiceName st = OName (svc_obj service)) && bool_decide (rss_ServiceNamespace st = ONamespace (svc_obj service))
                          && bool_decide (rss_Port st = getPort service) && bool_decide (rss_Protocol st = "grpc")
           end)
  end.

Definition grpcEnsurePod (s : CatalogSource) (sa : ServiceAcct) (config : string) (overwrite : bool) : P unit :=
  let currentPods := grpcCurrentPods s in
  if (0 <? length currentPods)%nat && negb overwrite then pret tt
  else
    run! deletePods (cs_Namespace s) currentPods (fun p => "error deleting old pod: " +:+ po_Name p) in
    let! desiredPod := plift (grpcPod s sa config) in
    let! created := perform (re_createPod env) (RCreatePod desiredPod) in
    run! orWrapErr ("error creating new pod: " +:+ po_GenerateName desiredPod) created in
    pret tt.

Definition imageID (p : Pod) : string :=
  match po_InitImageIDs p, po_ImageIDs p with
  | [_; i], [_] => i
  | [], [i] => i
  | _, _ => ""
  end.
Fixpoint servingChanged (updated : string) (servingPods : list Pod) : bool :=
  match servingPods with
  | [] => false
  | p :: ps => if bool_decide (imageID p = "") then false else if bool_decide (updated = imageID p) then servingChanged updated ps else true
  end.
Definition imageChanged (updatePod : Pod) (servingPods : list Pod) : bool :=
  if bool_decide (imageID updatePod = "") then false else servingChanged (imageID updatePod) servingPods.

Definition podReady (p : Pod) : bool := existsb (fun c => bool_decide (c = ("Ready", "True"))) (po_Conditions p).

Definition relabel (p : Pod) (labelKey updateKey : string) : Pod :=
  mkPod (SetLabels (po_obj p) (<[CatalogSourceUpdateKey := updateKey]> (<[CatalogSourceLabelKey := labelKey]> (default ∅ (Labels (po_obj p))))))
    (po_GenerateName p) (po_Annotations p) (po_Spec p) (po_Phase p) (po_Conditions p) (po_InitImageIDs p) (po_ImageIDs p).
(** [swapLabels(p, "", source.Name)]: the service does not select the pod. *)
Definition createUpdatePod (s : CatalogSource) (sa : ServiceAcct) (config : string) : P Pod :=
  let! p := plift (grpcPod s sa config) in
  must (perform (re_createPod env) (RCreatePod (relabel p "" (cs_Name s)))).
Definition promoteCatalog (updatePod : Pod) (key : string) : P unit := rdo (RPromotePod (relabel updatePod key "")).

Definition podFailed (p : Pod) : P bool :=
  if bool_decide (po_Phase p = "Failed") || bool_decide (po_Phase p = "Unknown") then
    run! wrapping ("error deleting failed catalog polling pod: " +:+ po_Name p)
           (deletePods (ONamespace (po_obj p)) [p] (fun p => "error deleting pod: " +:+ po_Name p)) in
    pret true
  else pret false.

(** The first update pod that is not ready, if all before are. *)
Fixpoint updatePodsReady (ps : list Pod) : P (option Pod) :=
  match ps with
  | [] => pret None
  | p :: ps =>
      let! fail := podFailed p in
      if fail : bool then pfail (ErrString ("update pod " +:+ po_Name p +:+ " in a " +:+ po_Phase p +:+ " state: deleted update pod"))
      else if podReady p then updatePodsReady ps else pret (Some p)
  end.

(** An update pod with another image is promoted and the old pods are deleted; one with the same image is deleted. *)
Fixpoint switchPods (s : CatalogSource) (live updates : list Pod) : P unit :=
  match updates with
  | [] => pret tt
  | u :: updates =>
      if imageChanged u live then
        let! promoted := attempt (promoteCatalog u (cs_Name s)) in
        match promoted with
        | inl err => pfail (ErrString ("detected imageID change: error during update: " +:+ Error_ err))
        | inr _ => wrapping "detected imageID change: error deleting old catalog source pod" (deletePods (cs_Namespace s) live (fun p => "error deleting pod: " +:+ po_Name p))
        end
      else
        run! wrapping "duplicate catalog polling pod" (deletePods (cs_Namespace s) [u] (fun p => "error deleting pod: " +:+ po_Name p)) in
        switchPods s live updates
  end.

Definition ensureUpdatePod (s : CatalogSource) (sa : ServiceAcct) (config : string) : P (CatalogSource * EnsureOutcome) :=
  if negb (Poll s) then pret (s, Ensured)
  else
    let updatePods := currentUpdatePods s in
    match Update s (re_now env) with
    | None => pret (s, EnsurePanicked)
    | Some update =>
        if update && (length updatePods =? 0)%nat then
          let! pod := wrapping "creating update catalog source pod" (createUpdatePod s sa config) in
          pret (SetLastUpdateTime s (re_now env), UpdateNotReady (cs_Name s) (po_Name pod))
        else
          let! waiting := updatePodsReady updatePods in
          match waiting with
          | Some p => pret (s, UpdateNotReady (cs_Name s) (po_Name p))
          | None => run! switchPods s (grpcCurrentPods s) updatePods in pret (s, Ensured)
          end
    end.

Definition ensureServiceIs (current : error + option Service) (service : Service) (overwrite : bool) : P unit :=
  let! svc := plift current in
  match svc with
  | Some svc =>
      if negb overwrite && ServiceHashMatch svc service then pret tt
      else run! rdoUnlessGone (RDeleteService (ONamespace (svc_obj service)) (OName (svc_obj service))) in rdo (RCreateService service)
  | None => rdo (RCreateService service)
  end.

Definition registryServiceStatus (s : CatalogSource) (service : Service) : RegistryServiceStatus :=
  mkServiceStatus "grpc" (OName (svc_obj service)) (cs_Namespace s) (getPort service) (re_now env).

(** The catalog source is not changed before an error. *)
Definition failingWith (s : CatalogSource) (m : P (CatalogSource * EnsureOutcome)) : P (CatalogSource * EnsureOutcome) :=
  let! r := attempt m in pret (match r with inl err => (s, EnsureFailed err) | inr r => r end).

Definition grpcEnsureRegistryServer (s : CatalogSource) : P (CatalogSource * EnsureOutcome) := failingWith s (
  let! valid := plift (isRegistryServiceStatusValid s) in
  let overwrite := negb valid in
  let proto := grpcServiceAccount s in
  let! created := perform (re_do env) (RCreateSA proto) in
  run! match created with Some e => if IsAlreadyExists (Some e) then pret tt else pfail (wrapErr ("error ensuring service account: " +:+ cs_Name s) e) | None => pret tt end in
  let! sa := (fun h => (h, re_getServiceAccount env h (ONamespace (sac_obj proto)) (OName (sac_obj proto)))) in
  let! config := plift (getDefaultPodContextConfig (re_namespace env (cs_Namespace s))) in
  let! current := plift (currentPodsWithCorrectImageAndSpec s sa config) in
  let overwritePod := overwrite || (length current =? 0)%nat in
  let! pod := plift (grpcPod s sa config) in
  run! wrapping ("error ensuring pod: " +:+ po_Name pod) (grpcEnsurePod s sa config overwritePod) in
  let! updated := wrapping ("error ensuring updated catalog source pod: " +:+ po_Name pod) (ensureUpdatePod s sa config) in
  match updated with
  | (s, Ensured) =>
      let! service := plift (grpcService s) in
      run! wrapping ("error ensuring service: " +:+ OName (svc_obj service)) (ensureServiceIs (grpcCurrentService s) service overwrite) in
      pret (if overwritePod then setRegistryService s (Some (registryServiceStatus s service)) else s, Ensured)
  | r => pret r
  end).

(** A missing service account is no error: the resources are yet to be created. *)
Definition grpcCheckRegistryServer (s : CatalogSource) : P (option bool) := fun h =>
  let proto := grpcServiceAccount s in
  match re_getServiceAccount env h (ONamespace (sac_obj proto)) (OName (sac_obj proto)) with
  | inl err => if IsNotFound (Some err) then (h, inr (Some false)) else (h, inl err)
  | inr sa =>
      (let! config := plift (getDefaultPodContextConfig (re_namespace env (cs_Namespace s))) in
       let! service := plift (grpcCurrentService s) in
       let! currentPods := plift (currentPodsWithCorrectImageAndSpec s sa config) in
       if (length currentPods <? 1)%nat || negb (bool_decide (is_Some service)) || negb (bool_decide (is_Some (grpcCurrentServiceAccount s))) then pret (Some false)
       else
         let! live := attempt (detectAndDeleteDeadPods currentPods (cs_Namespace s)) in
         match live with
         | inl err => pfail (ErrString ("error deleting dead pods: " +:+ Error_ err))
         | inr b => pret (Some b)
         end) h
  end.

Definition grpcReconciler : RegistryReconciler := mkReconciler grpcCheckRegistryServer grpcEnsureRegistryServer.
End grpc.

(** ** Catalogs at an address *)

Definition addressReconciler : RegistryReconciler :=
  mkReconciler (fun _ => pret (Some true)) (fun s => pret (setRegistryService s (Some (mkServiceStatus "grpc" "" "" "" (re_now env))), Ensured)).

(** ** Catalogs in a config map *)

Record ConfigMapRegistryReconciler := mkConfigMapRec { cmr_Image : string; cmr_createPodAsUser : Z }.

Definition serviceAccountName (s : CatalogSource) : string := cs_Name s +:+ ConfigMapServerPostfix.
Definition roleName (s : CatalogSource) : string := cs_Name s +:+ "-configmap-reader".
Definition cmSelector (s : CatalogSource) : gmap string string := {[CatalogSourceLabelKey := cs_Name s]}.
Definition isConfigMapSource (s : CatalogSource) : bool := bool_decide (css_SourceType (cs_Spec s) = SourceTypeInternal) || bool_decide (css_SourceType (cs_Spec s) = SourceTypeConfigmap).
(** [None]: the reference to the config map is dereferenced though it is nil. *)
Definition cmLabels (s : CatalogSource) : option (gmap string string) :=
  if isConfigMapSource s then r ← cst_ConfigMapResource (cs_Status s); Some (<[ConfigMapRVLabelKey := cmr_ResourceVersion r]> (grpcLabels s)) else Some (grpcLabels s).
Definition ConfigMapChanges (s : CatalogSource) (cm : ConfigMapObj) : bool :=
  match cst_ConfigMapResource (cs_Status s) with None => true | Some r => negb (bool_decide (cmr_ResourceVersion r = cmo_ResourceVersion cm)) end.
Definition cmService (s : CatalogSource) : error + Service := serviceOf s (cs_Name s) (cmSelector s).

Definition managedObj (s : CatalogSource) (t : ObjectType) (name : string) : Object :=
  AddOwner (mkObj t noGVK name (cs_Namespace s) "" [] (Some {[olmManagedKey := "true"]})) (cs_obj s) false false.
Definition cmServiceAccount (s : CatalogSource) : ServiceAcct := mkServiceAcct (managedObj s TServiceAccount (serviceAccountName s)) [].
Definition Role (s : CatalogSource) : RbacRole := mkRbacRole (managedObj s TRole (roleName s)) [mkRule ["get"] [""] ["configmaps"] [css_ConfigMap (cs_Spec s)] None].
Definition RoleBinding (s : CatalogSource) : RbacBinding :=
  mkRbacBinding (managedObj s TRoleBinding (cs_Name s +:+ "-server-configmap-reader")) (mkRoleRef "Role" (roleName s)) [mkSubject "ServiceAccount" (serviceAccountName s) (cs_Namespace s)].

(** The account and the command are set after the hash was computed. *)
Definition serveConfigMap (s : CatalogSource) (p : Pod) : Pod :=
  let spec := po_Spec p in
  let spec := setContainer0 spec (fun r => mkRegContainer (rc_Name r) (rc_Image r) ["configmap-server"; "-c"; css_ConfigMap (cs_Spec s); "-n"; cs_Namespace s] (rc_Args r) (rc_Env r)
                                             (rc_VolumeMounts r) (rc_Memory r) (rc_Limits r) (rc_PullPolicy r) (rc_ProbeDelays r) (rc_SecurityContext r)) in
  let spec := mkPodSpec (ps_InitContainers spec) (ps_Container spec) (ps_MoreContainers spec) (ps_NodeSelector spec) (serviceAccountName s) (ps_ImagePullSecrets spec)
                (ps_PriorityClassName spec) (ps_Tolerations spec) (ps_Affinity spec) (ps_Volumes spec) (ps_Security spec) in
  mkPod (po_obj p) (po_GenerateName p) (po_Annotations p) spec (po_Phase p) (po_Conditions p) (po_InitImageIDs p) (po_ImageIDs p).

Section configmap.
Context (c : ConfigMapRegistryReconciler).

Definition cmPod (s : CatalogSource) (labels : gmap string string) (image config : string) : error + Pod :=
  match makePod s "configmap-registry-server" "" "" image None labels (cs_Annotations s) 5 5 (cmr_createPodAsUser c) config with
  | inl err => inl err
  | inr p => inr (ownPod (serveConfigMap s p) s true)
  end.
(** The pod is computed, and only its error is used. *)
Definition cmListPods (s : CatalogSource) (labels selector : gmap string string) (image config : string) : error + list Pod :=
  match cmPod s labels image config with inl err => inl err | inr _ => inr (listPods (cs_Namespace s) selector) end.

Definition cmCurrentService (s : CatalogSource) : error + option Service :=
  match cmService s with inl err => inl err | inr proto => inr (found (re_service env (cs_Namespace s) (OName (svc_obj proto)))) end.
Definition cmCurrentServiceAccount (s : CatalogSource) : option ServiceAcct := found (re_serviceAccount env (cs_Namespace s) (serviceAccountName s)).
Definition currentRole (s : CatalogSource) : option RbacRole := found (re_role env (cs_Namespace s) (OName (ro_obj (Role s)))).
Definition currentRoleBinding (s : CatalogSource) : option RbacBinding := found (re_roleBinding env (cs_Namespace s) (OName (rb_obj (RoleBinding s)))).

(** Deletes what is there if it is to be overwritten, and creates. *)
Definition recreate (there overwrite : bool) (delete create : RegCall) : P unit :=
  if there && negb overwrite then pret tt else run! if there then rdoUnlessGone delete else pret tt in rdo create.

Definition ensureServiceAccount (s : CatalogSource) (overwrite : bool) : P unit :=
  recreate (bool_decide (is_Some (cmCurrentServiceAccount s))) overwrite (RDeleteSA (cs_Namespace s) (serviceAccountName s)) (RCreateSA (cmServiceAccount s)).
Definition ensureRole (s : CatalogSource) (overwrite : bool) : P unit :=
  recreate (bool_decide (is_Some (currentRole s))) overwrite (RDeleteRole (cs_Namespace s) (roleName s)) (RCreateRole (Role s)).
Definition ensureRoleBinding (s : CatalogSource) (overwrite : bool) : P unit :=
  recreate (bool_decide (is_Some (currentRoleBinding s))) overwrite (RDeleteRoleBinding (cs_Namespace s) (OName (rb_obj (RoleBinding s)))) (RCreateRoleBinding (RoleBinding s)).

Definition cmEnsurePod (s : CatalogSource) (labels : gmap string string) (config : string) (overwrite : bool) : P unit :=
  let! pod := plift (cmPod s labels (cmr_Image c) config) in
  let! currentPods := plift (cmListPods s labels (cmSelector s) (cmr_Image c) config) in
  if (0 <? length currentPods)%nat && negb overwrite then pret tt
  else
    run! deletePods (cs_Namespace s) currentPods (fun p => "error deleting old pod: " +:+ po_Name p) in
    let! created := perform (re_createPod env) (RCreatePod pod) in
    run! orWrapErr ("error creating new pod: " +:+ po_GenerateName pod) created in
    pret tt.

Definition registryImage (s : CatalogSource) : string := if bool_decide (css_SourceType (cs_Spec s) = SourceTypeGrpc) then css_Image (cs_Spec s) else cmr_Image c.
Definition getConfigMap (s : CatalogSource) : error + ConfigMapObj :=
  match re_configMap env (cs_Namespace s) (css_ConfigMap (cs_Spec s)) with
  | inl err => inl (wrapErr ("unable to find configmap " +:+ cs_Namespace s +:+ "/" +:+ css_ConfigMap (cs_Spec s)) err)
  | inr cm => inr cm
  end.
Definition configMapReference (cm : ConfigMapObj) : ConfigMapResourceReference :=
  mkCMRef (OName (cmo_obj cm)) (ONamespace (cmo_obj cm)) (OUID (cmo_obj cm)) (cmo_ResourceVersion cm) (re_now env).

(** The objects of the server, and the status; [labels] are those of the catalog source as it is now. *)
Definition cmEnsureObjects (s : CatalogSource) (labels : gmap string string) (image config : string) (overwrite overwritePod : bool) : P (CatalogSource * EnsureOutcome) :=
  run! wrapping ("error ensuring service account: " +:+ serviceAccountName s) (ensureServiceAccount s overwrite) in
  run! wrapping ("error ensuring role: " +:+ roleName s) (ensureRole s overwrite) in
  run! wrapping ("error ensuring rolebinding: " +:+ OName (rb_obj (RoleBinding s))) (ensureRoleBinding s overwrite) in
  let! pod := plift (cmPod s labels image config) in
  run! wrapping ("error ensuring pod: " +:+ po_Name pod) (cmEnsurePod s labels config overwritePod) in
  let! service := plift (cmService s) in
  run! wrapping ("error ensuring service: " +:+ OName (svc_obj service)) (ensureServiceIs (cmCurrentService s) service overwrite) in
  pret (if overwritePod then setRegistryService s (Some (registryServiceStatus s service)) else s, Ensured).

Definition withLabels (s : CatalogSource) (k : gmap string string -> P (CatalogSource * EnsureOutcome)) : P (CatalogSource * EnsureOutcome) :=
  match cmLabels s with None => pret (s, EnsurePanicked) | Some labels => k labels end.

Definition cmEnsureRegistryServer (s : CatalogSource) : P (CatalogSource * EnsureOutcome) := failingWith s (
  let image := registryImage s in
  if bool_decide (image = "") then pfail (ErrString "no image for registry")
  else
    let overwrite := negb (bool_decide (is_Some (cst_RegistryServiceStatus (cs_Status s)))) in
    let! config := plift (getDefaultPodContextConfig (re_namespace env (cs_Namespace s))) in
    if isConfigMapSource s then
      let! cm := plift (getConfigMap s) in
      let changes := ConfigMapChanges s cm in
      let s := if changes then setConfigMapResource s (Some (configMapReference cm)) else s in
      failingWith s (withLabels s (fun labels =>
        let! current := plift (cmListPods s labels labels image config) in
        cmEnsureObjects s labels image config overwrite (overwrite || changes || (length current =? 0)%nat)))
    else withLabels s (fun labels => cmEnsureObjects s labels image config overwrite overwrite)).

Definition cmHealthy (s : CatalogSource) (labels : gmap string string) (config : string) : P (option bool) :=
  let! service := plift (cmCurrentService s) in
  let! pods := plift (cmListPods s labels (cmSelector s) (cmr_Image c) config) in
  if negb (bool_decide (is_Some (cmCurrentServiceAccount s)) && bool_decide (is_Some (currentRole s)) && bool_decide (is_Some (currentRoleBinding s)) && bool_decide (is_Some service))
     || (length pods <? 1)%nat then pret (Some false)
  else
    let! live := attempt (detectAndDeleteDeadPods pods (cs_Namespace s)) in
    match live with
    | inl err => pfail (ErrString ("error deleting dead pods: " +:+ Error_ err))
    | inr b => pret (Some b)
    end.

Definition cmCheckRegistryServer (s : CatalogSource) : P (option bool) :=
  let image := registryImage s in
  if bool_decide (image = "") then pfail (ErrString "no image for registry")
  else
    let! config := plift (getDefaultPodContextConfig (re_namespace env (cs_Namespace s))) in
    if isConfigMapSource s then
      let! cm := plift (getConfigMap s) in
      if ConfigMapChanges s cm then pret (Some false)
      else
        match cmLabels s with
        | None => pret None
        | Some labels =>
            let! current := plift (cmListPods s labels labels image config) in
            if (length current =? 0)%nat then pret (Some false) else cmHealthy s labels config
        end
    else match cmLabels s with None => pret None | Some labels => cmHealthy s labels config end.

Definition configMapReconciler : RegistryReconciler := mkReconciler cmCheckRegistryServer cmEnsureRegistryServer.
End configmap.

(** ** The factory *)

Record registryReconcilerFactory := mkFactory { rf_ConfigMapServerImage : string; rf_createPodAsUser : Z; rf_opmImage : string; rf_utilImage : string }.

Definition ReconcilerForSource (r : registryReconcilerFactory) (s : CatalogSource) : option RegistryReconciler :=
  if isConfigMapSource s then Some (configMapReconciler (mkConfigMapRec (rf_ConfigMapServerImage r) (rf_createPodAsUser r)))
  else if bool_decide (css_SourceType (cs_Spec s) = SourceTypeGrpc) then
    if negb (bool_decide (css_Image (cs_Spec s) = "")) then Some (grpcReconciler (mkGrpc (rf_createPodAsUser r) (rf_opmImage r) (rf_utilImage r)))
    else if negb (bool_decide (css_Address (cs_Spec s) = "")) then Some addressReconciler
    else None
  else None.
End reconcilers.

(** ** A registry server settles *)

Lemma AddOwner_kept o owner b ctl : Labels (AddOwner o owner b ctl) = Labels o /\ OName (AddOwner o owner b ctl) = OName o /\ ONamespace (AddOwner o owner b ctl) = ONamespace o.
Proof. unfold AddOwner. destruct (ToAPIVersionAndKind _). by destruct (existsb _ _). Qed.

Section facts.
Context `{RbacLib, RegistryLib}.

Lemma serviceOf_meta s name sel svc :
  serviceOf s name sel = inr svc -> OName (svc_obj svc) = name /\ ONamespace (svc_obj svc) = cs_Namespace s /\ ServiceHashMatch svc svc = true /\ svc_Selector svc = sel.
Proof.
  unfold serviceOf. destruct (DeepHashObject _) as [err|hash]; [done|]. intros [= <-]. cbn [svc_obj svc_Selector]. unfold ServiceHashMatch. cbn [svc_obj].
  destruct (AddOwner_kept (mkObj TService noGVK name (cs_Namespace s) "" [] (Some {[ServiceHashLabelKey := hash; olmManagedKey := "true"]})) (cs_obj s) false false) as (-> & -> & ->).
  cbn [Labels OName ONamespace default id]. rewrite lookup_insert_eq. split_and!; try done. by apply bool_decide_eq_true_2.
Qed.

(** The pod of a catalog source is selected by its labels, and is recognised. *)
Lemma grpcPod_recognised c s sa config p :
  grpcPod c s sa config = inr p ->
  selects (grpcLabels s) (po_obj p) = true /\ correctImages c s p = true /\ podHashMatch p p = true.
Proof.
  unfold grpcPod. destruct (makePod _ _ _ _ _ _ _ _ _ _ _) as [err|q] eqn:Em; [done|]. intros [= <-].
  unfold makePod in Em. cbv zeta in Em. destruct (DeepHashObject _) as [err|hash]; [done|]. injection Em as <-. unfold ownPod, selects, podHashMatch, correctImages. cbn [po_obj po_Spec].
  destruct (AddOwner_kept (mkObj TOther noGVK "" (cs_Namespace s) "" [] (Some (<[PodHashLabelKey := hash]> (<[olmManagedKey := "true"]> (grpcLabels s))))) (cs_obj s) false true) as (-> & _ & _).
  cbn [Labels default id]. split_and!.
  - apply bool_decide_eq_true_2. unfold grpcLabels. apply map_subseteq_spec. intros k v Hk.
    assert (k = CatalogSourceLabelKey \/ k = olmManagedKey) as [-> | ->].
    { apply lookup_insert_Some in Hk as [[<- _]|[_ Hk]]; [by left|]. apply lookup_singleton_Some in Hk as [<- _]. by right. }
    + by rewrite !lookup_insert_ne by done.
    + rewrite lookup_insert_ne in Hk by done. rewrite lookup_singleton_eq in Hk. injection Hk as <-. rewrite lookup_insert_ne by done. by rewrite lookup_insert_eq.
  - destruct (podSpec_images s "registry-server" (gr_opmImage c) (gr_utilImage c) (css_Image (cs_Spec s)) (Some (OName (sac_obj sa), sac_ImagePullSecrets sa)) (default ∅ (cs_Annotations s)) 5 10 (gr_createPodAsUser c) config) as [Hm Hi].
    set (spec := podSpec _ _ _ _ _ _ _ _ _ _ _) in *. rewrite Hm. destruct (_ ≫= _).
    + destruct Hi as [Hi Hc]. destruct (ps_InitContainers spec) as [|i0 [|i1 [|]]]; try discriminate Hi. injection Hi as -> ->. rewrite Hc. by rewrite !bool_decide_eq_true_2.
    + destruct Hi as [_ ->]. by apply bool_decide_eq_true_2.
  - rewrite lookup_insert_eq. by apply bool_decide_eq_true_2.
Qed.

(** *** Ensuring the server of an image *)

Context (env : RegEnv).

Lemma wrapping_ok {A} msg (m : P RegCall A) h h' x : wrapping msg m h = (h', inr x) -> m h = (h', inr x).
Proof. unfold wrapping, pbind, attempt. destruct (m h) as [h1 [err|y]]; cbn; [done|]. by intros [= -> ->]. Qed.
Lemma wrapping_run {A} msg (m : P RegCall A) h h' x : m h = (h', inr x) -> wrapping msg m h = (h', inr x).
Proof. intros E. unfold wrapping, pbind, attempt. by rewrite E. Qed.
Lemma failingWith_run s (m : P RegCall (CatalogSource * EnsureOutcome)) h h' r : m h = (h', inr r) -> failingWith s m h = (h', inr r).
Proof. intros E. unfold failingWith, pbind, attempt. by rewrite E. Qed.
Lemma failingWith_ok s (m : P RegCall (CatalogSource * EnsureOutcome)) h h' s' : failingWith s m h = (h', inr (s', Ensured)) -> m h = (h', inr (s', Ensured)).
Proof. unfold failingWith, pbind, attempt. destruct (m h) as [h1 [err|y]]; cbn; [done|]. by intros [= -> ->]. Qed.

Lemma grows_wrapping {A} msg (m : P RegCall A) : makes_only (fun _ => True) m -> makes_only (fun _ => True) (wrapping msg m).
Proof. intros Hm. unfold wrapping. calls. Qed.
#[local] Hint Resolve grows_wrapping : calls.
Lemma grows_deletePods ns pods msg : makes_only (fun _ => True) (deletePods env ns pods msg).
Proof. unfold deletePods, rdoUnlessGone. calls. apply grows_wrapping. calls. Qed.
Lemma grows_ensureServiceIs cur svc o : makes_only (fun _ => True) (ensureServiceIs env cur svc o).
Proof. unfold ensureServiceIs, rdoUnlessGone, rdo. calls. Qed.

(** A pod that is to be overwritten is created. *)
Lemma grpcEnsurePod_creates c s sa config h h' :
  grpcEnsurePod env c s sa config true h = (h', inr tt) -> exists pod, grpcPod c s sa config = inr pod /\ RCreatePod pod ∈ h'.
Proof.
  unfold grpcEnsurePod. cbv zeta. rewrite andb_false_r. intros E. run_step E. run_step E. run_step E1. run_step E. run_step E. run_step E.
  exists x0. split; [done|]. unfold perform in E2. injection E2 as <- <-. unfold orWrapErr in E3. destruct (re_createPod env _ _); [done|]. injection E3 as <- _. set_solver.
Qed.
Lemma ensureServiceIs_creates cur svc h h' : ensureServiceIs env cur svc true h = (h', inr tt) -> RCreateService svc ∈ h'.
Proof.
  assert (forall h h', rdo env (RCreateService svc) h = (h', inr tt) -> RCreateService svc ∈ h') as Hc.
  { intros g g'. unfold rdo, check, pbind, perform. destruct (re_do env _ _); [done|]. intros [= <-]. set_solver. }
  unfold ensureServiceIs. intros E. run_step E. destruct x as [cur'|]; [|by apply Hc in E]. cbn [negb andb] in E. run_step E. by apply Hc in E.
Qed.

(** No update of the image is looked for: the catalog is not polled, or the next poll is not due and no update pod is left. *)
Definition noUpdateDue (s : CatalogSource) : Prop := Poll s = false \/ Update s (re_now env) = Some false /\ currentUpdatePods env s = [].
Lemma ensureUpdate_notDue c s sa config h : noUpdateDue s -> ensureUpdatePod env c s sa config h = (h, inr (s, Ensured)).
Proof. unfold ensureUpdatePod. intros [->|[-> ->]]; [done|]. by destruct (negb _). Qed.

Lemma grpcEnsure_creates c s h s' :
  noUpdateDue s -> cst_RegistryServiceStatus (cs_Status s) = None -> grpcEnsureRegistryServer env c s [] = (h, inr (s', Ensured)) ->
  exists sa config pod svc, re_getServiceAccount env [RCreateSA (grpcServiceAccount s)] (cs_Namespace s) (cs_Name s) = inr sa /\
    getDefaultPodContextConfig (re_namespace env (cs_Namespace s)) = inr config /\ grpcPod c s sa config = inr pod /\ grpcService s = inr svc /\
    RCreatePod pod ∈ h /\ RCreateService svc ∈ h /\ s' = setRegistryService s (Some (registryServiceStatus env s svc)).
Proof.
  intros Hp Hs E. apply failingWith_ok in E. cbv zeta in E. run_step E. run_step E0. unfold isRegistryServiceStatusValid in E0. rewrite Hs in E0.
  destruct (grpcService s) as [err|svc] eqn:Esvc; [done|]. injection E0 as <-. cbn [negb orb] in E. run_step E. unfold perform in E0. injection E0 as <- <-. run_step E.
  assert (h0 = [RCreateSA (grpcServiceAccount s)]) as -> by (destruct (re_do env [] _) as [e|]; [destruct (IsAlreadyExists (Some e)); [|done]|]; by injection E0 as <-). clear E0 x.
  run_step E. injection E0 as <- Esa. cbn in Esa. run_step E. run_step E0. run_step E. run_step E1. run_step E. run_step E2. run_step E. apply wrapping_ok in E3.
  destruct x3, (grpcEnsurePod_creates _ _ _ _ _ _ E3) as (pod & Epod & Hpod).
  run_step E. apply wrapping_ok in E4. rewrite (ensureUpdate_notDue _ _ _ _ _ Hp) in E4. injection E4 as <- <-.
  rewrite Esvc in E. run_step E. run_step E4. injection E4 as <-. run_step E. apply wrapping_ok in E4. destruct x3. run_step E. injection E as <-.
  exists x, x0, pod, svc. split_and!; try done; [|by eapply ensureServiceIs_creates]. eapply makes_grows; [apply grows_ensureServiceIs|exact E4|done].
Qed.

(** The API server stores a pod with its spec and labels. *)
Definition stored (p q : Pod) : Prop := po_Spec q = po_Spec p /\ Labels (po_obj q) = Labels (po_obj p).

(** A later environment, whose caches show what was created, alive; the service account, as it was read, is there. *)
Record shows_created (env' : RegEnv) (s : CatalogSource) (h : list RegCall) : Prop := {
  sh_pods : exists pods, re_pods env' (cs_Namespace s) = inr pods /\ (forall p, RCreatePod p ∈ h -> exists q, q ∈ pods /\ stored p q) /\ forall q, q ∈ pods -> isPodDead q = false;
  sh_service : forall svc, RCreateService svc ∈ h -> re_service env' (ONamespace (svc_obj svc)) (OName (svc_obj svc)) = inr svc;
  sh_account : forall h', re_getServiceAccount env' h' (cs_Namespace s) (cs_Name s) = re_getServiceAccount env [RCreateSA (grpcServiceAccount s)] (cs_Namespace s) (cs_Name s);
  sh_accountLister : exists sa, re_serviceAccount env' (cs_Namespace s) (cs_Name s) = inr sa;
  sh_exists : exists e, re_do env' [] (RCreateSA (grpcServiceAccount s)) = Some e /\ IsAlreadyExists (Some e) = true;
  sh_namespace : re_namespace env' (cs_Namespace s) = re_namespace env (cs_Namespace s);
}.

Lemma recognised_stored c s sa config p q :
  grpcPod c s sa config = inr p -> stored p q ->
  selects (grpcLabels s) (po_obj q) = true /\ selects (grpcSelector s) (po_obj q) = true /\ correctImages c s q && podHashMatch q p = true.
Proof.
  intros Hp [Hspec Hlabels]. destruct (grpcPod_recognised c s sa config p Hp) as (Hs & Hi & Hh). unfold selects in *. rewrite Hlabels. split; [done|]. split.
  - apply bool_decide_eq_true in Hs. apply bool_decide_eq_true. etrans; [|exact Hs]. unfold grpcSelector, grpcLabels. apply map_singleton_subseteq_l. by rewrite lookup_insert_eq.
  - unfold correctImages in *. rewrite Hspec. unfold podHashMatch in *. rewrite Hlabels. by rewrite Hi, Hh.
Qed.

Lemma live_pods ns pods : (forall q, q ∈ pods -> isPodDead q = false) -> pods <> [] -> detectAndDeleteDeadPods env pods ns [] = ([], inr true).
Proof.
  intros Hl Hne. unfold detectAndDeleteDeadPods.
  assert (forall b h, pfold (deleteIfDead env ns) (b, []) pods h = (h, inr (if bool_decide (pods = []) then b else true, []))) as Hf.
  { clear Hne. induction pods as [|p pods IH]; intros b h; [done|]. cbn [pfold]. unfold pbind, deleteIfDead at 1. rewrite Hl by (by left). cbn [negb]. unfold pret.
    rewrite IH by (intros q Hq; apply Hl; by right). rewrite (bool_decide_eq_false_2 (p :: pods = [])) by done. by case_bool_decide. }
  unfold pbind. rewrite Hf. rewrite bool_decide_eq_false_2 by done. done.
Qed.
End facts.

Section settles.
Context `{RbacLib, RegistryLib} (env env' : RegEnv) (c : GrpcRegistryReconciler) (s : CatalogSource) (h : list RegCall) (sa : ServiceAcct) (config : string) (pod : Pod) (svc : Service).
Context (Hsa : re_getServiceAccount env [RCreateSA (grpcServiceAccount s)] (cs_Namespace s) (cs_Name s) = inr sa).
Context (Hconfig : getDefaultPodContextConfig (re_namespace env (cs_Namespace s)) = inr config).
Context (Hpod : grpcPod c s sa config = inr pod) (Hsvc : grpcService s = inr svc).
Context (Hin : RCreatePod pod ∈ h) (Hsin : RCreateService svc ∈ h) (Hshow : shows_created env env' s h).
Let s' : CatalogSource := setRegistryService s (Some (registryServiceStatus env s svc)).

Lemma settled_pods :
  exists current, currentPodsWithCorrectImageAndSpec env' c s' sa config = inr current /\ current <> [] /\ (forall q, q ∈ current -> isPodDead q = false) /\ grpcCurrentPods env' s' <> [].
Proof using Hin Hpod Hshow.
  destruct (sh_pods _ _ _ _ Hshow) as (pods & Hp & Hc & Hl). destruct (Hc _ Hin) as (q & Hq & Hst). destruct (recognised_stored c s sa config pod q Hpod Hst) as (Hs1 & Hs2 & Hs3).
  exists (List.filter (fun p => correctImages c s p && podHashMatch p pod) (listPods env' (cs_Namespace s) (grpcLabels s))).
  unfold currentPodsWithCorrectImageAndSpec. change (cs_Namespace s') with (cs_Namespace s). rewrite Hp. change (grpcPod c s' sa config) with (grpcPod c s sa config). rewrite Hpod. split; [done|].
  unfold grpcCurrentPods, listPods. change (cs_Namespace s') with (cs_Namespace s). rewrite Hp. split_and!.
  - intros E. assert (q ∈ @nil Pod) as []%elem_of_nil. rewrite <- E. apply list_elem_of_In, filter_In. split; [|done]. apply filter_In. split; [by apply list_elem_of_In|done].
  - intros q' Hq'. apply list_elem_of_In, filter_In in Hq' as [Hq' _]. apply filter_In in Hq' as [Hq' _]. apply Hl. by apply list_elem_of_In.
  - intros E. assert (q ∈ @nil Pod) as []%elem_of_nil. rewrite <- E. apply list_elem_of_In, filter_In. split; [by apply list_elem_of_In|done].
Qed.

Lemma settled_service : grpcCurrentService env' s' = inr (Some svc) /\ isRegistryServiceStatusValid s' = inr true /\ ServiceHashMatch svc svc = true.
Proof using Hshow Hsin Hsvc.
  destruct (serviceOf_meta _ _ _ _ Hsvc) as (Hn & Hns & Hh & _). unfold grpcCurrentService, isRegistryServiceStatusValid. change (grpcService s') with (grpcService s). rewrite Hsvc.
  pose proof (sh_service _ _ _ _ Hshow svc Hsin) as Hl. rewrite Hns in Hl. change (cs_Namespace s') with (cs_Namespace s). rewrite Hl. split; [done|]. split; [|done].
  cbn [s' setRegistryService cs_setStatus cs_Status cst_RegistryServiceStatus registryServiceStatus rss_ServiceName rss_ServiceNamespace rss_Port rss_Protocol]. rewrite Hns. by rewrite !bool_decide_eq_true_2.
Qed.

Lemma settled_check : grpcCheckRegistryServer env' c s' [] = ([], inr (Some true)).
Proof using Hconfig Hin Hpod Hsa Hshow Hsin Hsvc.
  destruct settled_pods as (current & Hc & Hne & Hl & _). destruct settled_service as (Hs & _ & _).
  unfold grpcCheckRegistryServer. cbv zeta. change (grpcServiceAccount s') with (grpcServiceAccount s). cbn [grpcServiceAccount sac_obj ONamespace OName].
  rewrite (sh_account _ _ _ _ Hshow), Hsa. change (cs_Namespace s') with (cs_Namespace s). rewrite (sh_namespace _ _ _ _ Hshow), Hconfig. unfold pbind at 1, plift at 1. unfold pbind at 1. rewrite Hs. unfold plift at 1.
  unfold pbind at 1. rewrite Hc. unfold plift. destruct (sh_accountLister _ _ _ _ Hshow) as [acc Ha]. unfold grpcCurrentServiceAccount. change (OName (sac_obj (grpcServiceAccount s'))) with (cs_Name s). change (cs_Namespace s') with (cs_Namespace s). rewrite Ha.
  cbn [found]. rewrite !bool_decide_eq_true_2 by done. destruct current as [|q current]; [done|]. cbn [length Nat.ltb Nat.leb negb orb]. unfold pbind, attempt. by rewrite live_pods.
Qed.

Lemma settled_ensure : noUpdateDue env' s -> grpcEnsureRegistryServer env' c s' [] = ([RCreateSA (grpcServiceAccount s)], inr (s', Ensured)).
Proof using Hconfig Hin Hpod Hsa Hshow Hsin Hsvc.
  intros Hpoll. destruct settled_pods as (current & Hc & Hne & _ & Hcur). destruct settled_service as (Hs & Hv & Hh). destruct (sh_exists _ _ _ _ Hshow) as (e & He & Hae).
  apply failingWith_run. cbv zeta. rewrite Hv. rewrite (pbind_run _ _ _ [] true) by done. rewrite (pbind_run _ _ _ [RCreateSA (grpcServiceAccount s)] (Some e)) by (unfold perform; cbn [app]; by rewrite <- He).
  rewrite Hae. rewrite (pbind_run _ _ _ [RCreateSA (grpcServiceAccount s)] tt) by done.
  rewrite (pbind_run _ _ _ [RCreateSA (grpcServiceAccount s)] sa) by (cbv beta; f_equal; rewrite <- Hsa; apply (sh_account _ _ _ _ Hshow)).
  change (cs_Namespace s') with (cs_Namespace s). rewrite (sh_namespace _ _ _ _ Hshow), Hconfig, (pbind_run (plift (inr _)) _ _ _ _ eq_refl), Hc, (pbind_run (plift (inr _)) _ _ _ _ eq_refl).
  change (grpcPod c s' sa config) with (grpcPod c s sa config). rewrite Hpod, (pbind_run (plift (inr _)) _ _ _ _ eq_refl).
  assert (negb true || (length current =? 0)%nat = false) as -> by (by destruct current).
  rewrite (pbind_run _ _ _ [RCreateSA (grpcServiceAccount s)] tt); [|apply wrapping_run; unfold grpcEnsurePod; cbv zeta; by destruct (grpcCurrentPods env' s')].
  rewrite (pbind_run _ _ _ [RCreateSA (grpcServiceAccount s)] (s', Ensured)); [|by apply wrapping_run, ensureUpdate_notDue].
  change (grpcService s') with (grpcService s). rewrite Hsvc, (pbind_run (plift (inr _)) _ _ _ _ eq_refl).
  rewrite (pbind_run _ _ _ [RCreateSA (grpcServiceAccount s)] tt); [done|]. apply wrapping_run. unfold ensureServiceIs. rewrite Hs, (pbind_run (plift (inr _)) _ _ _ _ eq_refl). by rewrite Hh.
Qed.
End settles.

(** A registry server settles.  When ensuring the server of a catalog image for the first time has succeeded and a
    later sync finds in its caches what was created, and no update is due at either time, the check says that the server is healthy and changes nothing, and
    ensuring it again leaves the pod, the service and the catalog source as they are. *)
Theorem registry_settles `{RbacLib, RegistryLib} (env env' : RegEnv) (c : GrpcRegistryReconciler) (s s' : CatalogSource) (h : list RegCall) :
  noUpdateDue env s -> noUpdateDue env' s -> cst_RegistryServiceStatus (cs_Status s) = None ->
  grpcEnsureRegistryServer env c s [] = (h, inr (s', Ensured)) -> shows_created env env' s h ->
  grpcCheckRegistryServer env' c s' [] = ([], inr (Some true)) /\
  grpcEnsureRegistryServer env' c s' [] = ([RCreateSA (grpcServiceAccount s)], inr (s', Ensured)) /\
  is_Some (cst_RegistryServiceStatus (cs_Status s')).
Proof.
  intros Hp Hp' Hs E Hsh. destruct (grpcEnsure_creates env c s h s' Hp Hs E) as (sa & config & pod & svc & Hsa & Hc & Hpod & Hsvc & Hin & Hsin & ->).
  split; [by eapply settled_check|]. split; [by eapply settled_ensure|done].
Qed.

(** ** Updates *)

Section updates.
Context `{RbacLib, RegistryLib} (env : RegEnv) (c : GrpcRegistryReconciler) (s : CatalogSource).

(** An update pod may take over. *)
Definition promotable (u : Pod) : Prop :=
  u ∈ currentUpdatePods env s /\ podReady u = true /\ po_Phase u <> "Failed" /\ po_Phase u <> "Unknown" /\
  exists live, live ∈ grpcCurrentPods env s /\ imageID u <> "" /\ imageID live <> "" /\ imageID u <> imageID live.

Lemma servingChanged_witness img ps : servingChanged img ps = true -> exists p, p ∈ ps /\ imageID p <> "" /\ img <> imageID p.
Proof.
  induction ps as [|p ps IH]; [done|]. cbn. case_bool_decide as He; [done|]. case_bool_decide as Hi; [|intros _; exists p; split; [by left|done]].
  intros Hs. destruct (IH Hs) as (q & Hq & ?). exists q. split; [by right|done].
Qed.

Definition deletes (pods : list Pod) (x : RegCall) : Prop := exists p ns, p ∈ pods /\ x = RDeletePod ns (po_Name p) 1.

Lemma makes_wrapping {A} Q msg (m : P RegCall A) : makes_only Q m -> makes_only Q (wrapping msg m).
Proof. intros Hm. unfold wrapping. calls. Qed.
Lemma makes_deletePods ns pods msg : makes_only (deletes pods) (deletePods env ns pods msg).
Proof. unfold deletePods, rdoUnlessGone. calls. apply makes_wrapping. calls. by eexists _, _. Qed.
Lemma deletes_mono ps qs x : ps ⊆ qs -> deletes ps x -> deletes qs x.
Proof. intros Hs (p & ns & Hp & ->). exists p, ns. split; [by apply Hs|done]. Qed.

(** Waiting for the update pods: those that failed are deleted. *)
Lemma updatePodsReady_calls ps : makes_only (deletes ps) (updatePodsReady env ps).
Proof.
  induction ps as [|p ps IH]; [apply makes_ret|]. cbn [updatePodsReady]. unfold podFailed. calls.
  - apply makes_wrapping. eapply makes_weaken; [|apply makes_deletePods]. intros y. apply deletes_mono. set_solver.
  - eapply makes_weaken; [|exact IH]. intros y. apply deletes_mono. set_solver.
Qed.
Lemma updatePodsReady_none ps h h' : updatePodsReady env ps h = (h', inr None) -> forall p, p ∈ ps -> podReady p = true /\ po_Phase p <> "Failed" /\ po_Phase p <> "Unknown".
Proof.
  revert h h'. induction ps as [|p ps IH]; intros h h' E q Hq; [by apply elem_of_nil in Hq|]. cbn [updatePodsReady] in E. run_step E. destruct x; [done|].
  destruct (podReady p) eqn:Hr; [|by run_step E]. apply elem_of_cons in Hq as [->|Hq]; [|by eapply IH]. split; [done|]. unfold podFailed in E0.
  case_bool_decide; cbn [orb] in E0; [by repeat run_step E0|]. case_bool_decide; cbn [orb] in E0; [by repeat run_step E0|done].
Qed.

(** The shape of what switching calls: duplicates are deleted, and at the end one update pod may take over. *)
Definition switched (live us : list Pod) (h new : list RegCall) : Prop :=
  exists dups tail, new = dups ++ tail /\ Forall (deletes us) dups /\
    (tail = [] \/ exists u dels, u ∈ us /\ imageChanged u live = true /\ tail = RPromotePod (relabel u (cs_Name s) "") :: dels /\ Forall (deletes live) dels /\
       (dels <> [] -> re_do env (h ++ dups) (RPromotePod (relabel u (cs_Name s) "")) = None)).

Lemma switchPods_calls live us h : exists new, (switchPods env s live us h).1 = h ++ new /\ switched live us h new.
Proof.
  revert h. induction us as [|u us IH]; intros h; [exists []; split; [by rewrite app_nil_r|]; exists [], []; auto|]. cbn [switchPods].
  destruct (imageChanged u live) eqn:Hi.
  - unfold pbind, attempt, promoteCatalog, rdo, check, pbind, perform. destruct (re_do env h _) as [e|] eqn:Ed; cbn [fst snd pfail].
    + eexists. split; [reflexivity|]. exists [], [RPromotePod (relabel u (cs_Name s) "")]. split; [done|]. split; [done|]. right. exists u, []. split_and!; try done. set_solver.
    + destruct (makes_wrapping _ "detected imageID change: error deleting old catalog source pod" _ (makes_deletePods (cs_Namespace s) live (fun p => "error deleting pod: " +:+ po_Name p)) (h ++ [RPromotePod (relabel u (cs_Name s) "")])) as (dels & E & F).
      exists (RPromotePod (relabel u (cs_Name s) "") :: dels). split; [change (pret tt (h ++ [RPromotePod (relabel u (cs_Name s) "")])) with (h ++ [RPromotePod (relabel u (cs_Name s) "")], @inr error _ tt); cbn [fst snd]; rewrite E; by rewrite <- app_assoc|].
      exists [], (RPromotePod (relabel u (cs_Name s) "") :: dels). split; [done|]. split; [done|]. right. exists u, dels. split_and!; try done; [set_solver|]. intros _. by rewrite app_nil_r.
  - unfold pbind at 1. destruct (makes_wrapping _ "duplicate catalog polling pod" _ (makes_deletePods (cs_Namespace s) [u] (fun p => "error deleting pod: " +:+ po_Name p)) h) as (dups & E & F).
    assert (Forall (deletes (u :: us)) dups) as F' by (eapply Forall_impl; [exact F|]; intros x; apply deletes_mono; set_solver).
    destruct (wrapping _ _ h) as [h1 [err|[]]]; cbn [fst] in E; subst h1; [exists dups; split; [done|]; exists dups, []; rewrite app_nil_r; auto|].
    destruct (IH (h ++ dups)) as (new & -> & dups' & tail & -> & F'' & Ht). exists (dups ++ dups' ++ tail). split; [by rewrite <- !app_assoc|].
    exists (dups ++ dups'), tail. split; [by rewrite <- !app_assoc|]. split; [apply Forall_app; split; [done|]; eapply Forall_impl; [exact F''|]; intros x; apply deletes_mono; set_solver|].
    destruct Ht as [->|(u' & dels & Hu & ? & -> & ? & Hd)]; [by left|]. right. exists u', dels. split_and!; try done; [set_solver|]. intros Hne. rewrite app_assoc. by apply Hd.
Qed.

(** A pod that is created for an update is not selected by the service. *)
Definition hidden (x : RegCall) : Prop := exists p, x = RCreatePod p /\ selects (grpcLabels s) (po_obj p) = false.
Lemma relabel_hidden p : cs_Name s <> "" -> selects (grpcLabels s) (po_obj (relabel p "" (cs_Name s))) = false.
Proof.
  intros Hne. unfold selects. apply bool_decide_eq_false_2. intros Hsub. assert (grpcLabels s !! CatalogSourceLabelKey = Some (cs_Name s)) as Hl by (unfold grpcLabels; by rewrite lookup_insert_eq). apply (lookup_weaken _ _ _ _ Hl) in Hsub.
  cbn [relabel po_obj SetLabels Labels default id] in Hsub. rewrite lookup_insert_ne, lookup_insert_eq in Hsub by done. congruence.
Qed.

(** C21: polling for a new catalog image does not interrupt the catalog.  Whatever happens in a sync, the pods that serve
    are deleted only at its end and only after the API server accepted the promotion of an update pod that is ready, has
    not failed and runs another image than a serving pod; before, only update pods are deleted, and a pod that is created
    is not selected by the service. *)
Theorem update_keeps_serving sa config :
  cs_Name s <> "" ->
  exists pre tail, calls_of (ensureUpdatePod env c s sa config) = pre ++ tail /\
    (forall x, x ∈ pre -> deletes (currentUpdatePods env s) x \/ hidden x) /\
    (tail = [] \/ exists u dels, promotable u /\ tail = RPromotePod (relabel u (cs_Name s) "") :: dels /\ Forall (deletes (grpcCurrentPods env s)) dels /\
       (dels <> [] -> re_do env pre (RPromotePod (relabel u (cs_Name s) "")) = None)).
Proof.
  intros Hne. unfold calls_of, ensureUpdatePod. destruct (Poll s); cbn [negb]; [|exists [], []; split; [done|]; split; [set_solver|by left]]. cbv zeta.
  destruct (Update s (re_now env)) as [update|]; [|exists [], []; split; [done|]; split; [set_solver|by left]]. destruct (update && _).
  - assert (makes_only hidden (let! pod := wrapping "creating update catalog source pod" (createUpdatePod env c s sa config) in pret (SetLastUpdateTime s (re_now env), UpdateNotReady (cs_Name s) (po_Name pod)))) as Hm.
    { apply makes_bind; [|intros; apply makes_ret]. apply makes_wrapping. unfold createUpdatePod. calls. eexists. split; [reflexivity|]. by apply relabel_hidden. }
    destruct (Hm []) as (new & E & F). exists new, []. rewrite E. split; [by rewrite app_nil_r|]. split; [|by left]. intros x Hx. right. by apply (proj1 (Forall_forall _ _) F).
  - destruct (updatePodsReady_calls (currentUpdatePods env s) []) as (dels & E & F). unfold pbind at 1. destruct (updatePodsReady env (currentUpdatePods env s) []) as [h1 [err|[p|]]] eqn:Eu; cbn [fst app] in E; subst h1.
    1,2: exists dels, []; split; [by rewrite app_nil_r|]; split; [|by left]; intros x Hx; left; by apply (proj1 (Forall_forall _ _) F).
    destruct (switchPods_calls (grpcCurrentPods env s) (currentUpdatePods env s) dels) as (new & En & dups & tail & -> & Fd & Ht). exists (dels ++ dups), tail. unfold pbind.
    split; [destruct (switchPods env s _ _ dels) as [h2 [err|[]]]; cbn [fst] in En |- *; subst h2; by rewrite <- app_assoc|]. split.
    + intros x [Hx|Hx]%elem_of_app; left; [by apply (proj1 (Forall_forall _ _) F)|by apply (proj1 (Forall_forall _ _) Fd)].
    + destruct Ht as [->|(u & ds & Hu & Hi & -> & Fl & Hd)]; [by left|]. right. exists u, ds. split_and!; try done. destruct (updatePodsReady_none _ _ _ Eu u Hu) as (Hr & Hf & Hk).
      unfold imageChanged in Hi. case_bool_decide; [done|]. destruct (servingChanged_witness _ _ Hi) as (q & Hq & Hq1 & Hq2). split_and!; try done. by exists q.
Qed.
End updates.

(** ** The server of a config map *)

Section configmap_facts.
Context `{RbacLib, RegistryLib} (env : RegEnv) (c : ConfigMapRegistryReconciler) (s : CatalogSource).

(** A pod that serves a version of a config map: it carries the version as a label. *)
Definition servesVersion (version : string) (p : Pod) : Prop := default ∅ (Labels (po_obj p)) !! ConfigMapRVLabelKey = Some version.

Lemma cmPod_labels s' labels image config p : cmPod c s' labels image config = inr p -> forall k v, labels !! k = Some v -> k <> PodHashLabelKey -> k <> olmManagedKey -> default ∅ (Labels (po_obj p)) !! k = Some v.
Proof.
  unfold cmPod. destruct (makePod _ _ _ _ _ _ _ _ _ _ _) as [err|q] eqn:Em; [done|]. intros [= <-] k v Hk H1 H2.
  unfold makePod in Em. cbv zeta in Em. destruct (DeepHashObject _) as [err|hash]; [done|]. injection Em as <-. unfold ownPod, serveConfigMap. cbn [po_obj].
  destruct (AddOwner_kept (mkObj TOther noGVK "" (cs_Namespace s') "" [] (Some (<[PodHashLabelKey := hash]> (<[olmManagedKey := "true"]> labels)))) (cs_obj s') false true) as (-> & _ & _).
  cbn [Labels default id]. by rewrite !lookup_insert_ne by done.
Qed.

Lemma grows_recreate there o d k : makes_only (fun _ => True) (recreate env there o d k).
Proof. unfold recreate, rdoUnlessGone, rdo. calls. Qed.
Lemma cmEnsurePod_creates s' labels config h h' : cmEnsurePod env c s' labels config true h = (h', inr tt) -> exists pod, cmPod c s' labels (cmr_Image c) config = inr pod /\ RCreatePod pod ∈ h'.
Proof.
  unfold cmEnsurePod. intros E. run_step E. run_step E0. run_step E. run_step E1. rewrite andb_false_r in E. run_step E. run_step E. unfold perform in E3. injection E3 as <- <-. run_step E. run_step E.
  exists x. split; [done|]. unfold orWrapErr in E3. destruct (re_createPod env _ _); [done|]. injection E3 as <- _. set_solver.
Qed.

(** The objects of the server are there when it is ensured, and a pod to be overwritten is created. *)
Lemma cmEnsureObjects_ok s0 labels image config o op h h' s' :
  cmEnsureObjects env c s0 labels image config o op h = (h', inr (s', Ensured)) ->
  cst_ConfigMapResource (cs_Status s') = cst_ConfigMapResource (cs_Status s0) /\ (op = true -> exists pod, cmPod c s0 labels (cmr_Image c) config = inr pod /\ RCreatePod pod ∈ h').
Proof.
  unfold cmEnsureObjects. intros E. run_step E. run_step E. run_step E. run_step E. run_step E3. run_step E. apply wrapping_ok in E4. run_step E. run_step E5. run_step E. apply wrapping_ok in E6. run_step E. injection E as <-.
  split; [by destruct op|]. intros ->. destruct x3. destruct (cmEnsurePod_creates _ _ _ _ _ E4) as (pod & Hp & Hin). exists pod. split; [done|].
  eapply makes_grows; [|exact E6|done]. apply grows_ensureServiceIs.
Qed.

(** The catalog source after its reference to the config map was brought up to date. *)
Definition refreshed (cm : ConfigMapObj) : CatalogSource := if ConfigMapChanges s cm then setConfigMapResource s (Some (configMapReference env cm)) else s.
Lemma refreshed_current cm :
  isConfigMapSource s = true ->
  cmLabels (refreshed cm) = Some (<[ConfigMapRVLabelKey := cmo_ResourceVersion cm]> (grpcLabels s)) /\
  exists r, cst_ConfigMapResource (cs_Status (refreshed cm)) = Some r /\ cmr_ResourceVersion r = cmo_ResourceVersion cm.
Proof.
  intros Hs. unfold refreshed, ConfigMapChanges. destruct (cst_ConfigMapResource (cs_Status s)) as [r|] eqn:Er.
  - case_bool_decide as Hv; cbn [negb].
    + unfold cmLabels. rewrite Hs, Er. cbn. rewrite Hv. split; [done|]. by exists r.
    + unfold cmLabels. change (isConfigMapSource (setConfigMapResource s _)) with (isConfigMapSource s). rewrite Hs. split; [done|]. by eexists.
  - unfold cmLabels. change (isConfigMapSource (setConfigMapResource s _)) with (isConfigMapSource s). rewrite Hs. split; [done|]. by eexists.
Qed.

Lemma listed_serves ns version labels p : labels !! ConfigMapRVLabelKey = Some version -> p ∈ listPods env ns labels -> servesVersion version p.
Proof.
  unfold listPods. intros Hl Hp. destruct (re_pods env ns); [by apply elem_of_nil in Hp|]. apply list_elem_of_In, filter_In in Hp as [_ Hs]. unfold selects in Hs. apply bool_decide_eq_true in Hs.
  unfold servesVersion. by eapply lookup_weaken.
Qed.

Lemma cmEnsure_ok h s' :
  isConfigMapSource s = true -> cmEnsureRegistryServer env c s [] = (h, inr (s', Ensured)) ->
  exists cm config overwrite, re_configMap env (cs_Namespace s) (css_ConfigMap (cs_Spec s)) = inr cm /\
    exists current, cmListPods env c (refreshed cm) (<[ConfigMapRVLabelKey := cmo_ResourceVersion cm]> (grpcLabels s)) (<[ConfigMapRVLabelKey := cmo_ResourceVersion cm]> (grpcLabels s)) (registryImage c s) config = inr current /\
    cmEnsureObjects env c (refreshed cm) (<[ConfigMapRVLabelKey := cmo_ResourceVersion cm]> (grpcLabels s)) (registryImage c s) config overwrite
      (overwrite || ConfigMapChanges s cm || (length current =? 0)%nat) [] = (h, inr (s', Ensured)).
Proof.
  intros Hs E. unfold cmEnsureRegistryServer in E. apply failingWith_ok in E. cbv zeta in E. case_bool_decide; [done|]. run_step E. run_step E0. rewrite Hs in E. run_step E. run_step E1.
  unfold getConfigMap in E1. destruct (re_configMap env _ _) as [err|cm]; [done|]. injection E1 as <-. fold (refreshed cm) in E. apply failingWith_ok in E. unfold withLabels in E.
  destruct (refreshed_current cm Hs) as [Hl _]. rewrite Hl in E. run_step E. run_step E1. eexists cm, _, _. split; [done|]. exists x0. by split.
Qed.

Lemma cmEnsureObjects_calm s0 labels image config o op h s'' : (cmEnsureObjects env c s0 labels image config o op h).2 <> inr (s'', EnsurePanicked).
Proof.
  destruct (cmEnsureObjects env c s0 labels image config o op h) as [h' [err|r]] eqn:E; [done|]. cbn. intros [= ->]. unfold cmEnsureObjects in E. by repeat run_step E.
Qed.
Lemma failingWith_calm s0 m h s'' : (forall h s'', (m h).2 <> inr (s'', EnsurePanicked)) -> (failingWith s0 m h).2 <> inr (s'', EnsurePanicked).
Proof. intros Hm. specialize (Hm h). unfold failingWith, pbind, attempt, pret. destruct (m h) as [h' [err|[s1 o]]]; cbn in *; [done|]. intros [= -> ->]. by eapply Hm. Qed.
Lemma cmHealthy_calm labels config h : (cmHealthy env c s labels config h).2 <> inr None.
Proof.
  destruct (cmHealthy env c s labels config h) as [h' [err|r]] eqn:E; [done|]. cbn. intros [= ->]. unfold cmHealthy in E. run_step E. run_step E. destruct (_ || _); [by run_step E|].
  run_step E. destruct x1; [done|by run_step E].
Qed.

(** The server of a config map follows the config map.  When it has been ensured, the status of the catalog source
    refers to the version of the config map that was read, and a pod labelled with that version was created, or was there
    already; neither checking nor ensuring ever dereferences a missing reference to the config map. *)
Theorem configmap_server_current h s' :
  isConfigMapSource s = true ->
  (cmEnsureRegistryServer env c s [] = (h, inr (s', Ensured)) ->
     exists cm r, re_configMap env (cs_Namespace s) (css_ConfigMap (cs_Spec s)) = inr cm /\ cst_ConfigMapResource (cs_Status s') = Some r /\ cmr_ResourceVersion r = cmo_ResourceVersion cm /\
       exists p, servesVersion (cmo_ResourceVersion cm) p /\ (RCreatePod p ∈ h \/ p ∈ listPods env (cs_Namespace s) (<[ConfigMapRVLabelKey := cmo_ResourceVersion cm]> (grpcLabels s)))) /\
  (cmCheckRegistryServer env c s []).2 <> inr None /\ (forall s'', (cmEnsureRegistryServer env c s []).2 <> inr (s'', EnsurePanicked)).
Proof.
  intros Hs. split; [|split].
  - intros E. destruct (cmEnsure_ok h s' Hs E) as (cm & config & o & Hcm & current & Hcur & Eo). destruct (refreshed_current cm Hs) as (_ & r & Hr & Hv).
    destruct (cmEnsureObjects_ok _ _ _ _ _ _ _ _ _ Eo) as [Hres Hnew]. exists cm, r. rewrite Hres. split_and!; try done.
    set (labels := <[ConfigMapRVLabelKey := cmo_ResourceVersion cm]> (grpcLabels s)) in *. assert (labels !! ConfigMapRVLabelKey = Some (cmo_ResourceVersion cm)) as Hl by apply lookup_insert_eq.
    destruct current as [|q current].
    + rewrite orb_true_r in Hnew. destruct (Hnew eq_refl) as (pod & Hp & Hin). exists pod. split; [|by left]. by apply (cmPod_labels _ _ _ _ _ Hp).
    + unfold cmListPods in Hcur. destruct (cmPod _ _ _ _ _) as [|x]; [done|]. injection Hcur as Hcur. assert (cs_Namespace (refreshed cm) = cs_Namespace s) as Hns by (unfold refreshed; by destruct (ConfigMapChanges s cm)).
      rewrite Hns in Hcur. assert (q ∈ listPods env (cs_Namespace s) labels) as Hq by (rewrite Hcur; by left). exists q. split; [by eapply listed_serves|by right].
  - unfold cmCheckRegistryServer. cbv zeta. case_bool_decide; [done|]. unfold pbind, plift at 1. destruct (getDefaultPodContextConfig _) as [err|config]; [done|]. rewrite Hs. unfold plift at 1. destruct (getConfigMap env s) as [err|cm]; [done|].
    destruct (ConfigMapChanges s cm) eqn:Hc; [done|]. destruct (refreshed_current cm Hs) as [Hl _]. unfold refreshed in Hl. rewrite Hc in Hl. rewrite Hl. unfold plift. destruct (cmListPods _ _ _ _ _ _) as [err|current]; [done|].
    destruct (length current =? 0)%nat; [done|]. apply cmHealthy_calm.
  - intros s''. unfold cmEnsureRegistryServer. apply failingWith_calm. intros h0 s0. cbv zeta. case_bool_decide; [done|]. unfold pbind, plift at 1. destruct (getDefaultPodContextConfig _) as [err|config]; [done|]. rewrite Hs.
    unfold plift at 1. destruct (getConfigMap env s) as [err|cm]; [done|]. fold (refreshed cm). apply failingWith_calm. intros h1 s1. unfold withLabels. destruct (refreshed_current cm Hs) as [-> _].
    unfold plift. destruct (cmListPods _ _ _ _ _ _) as [err|current]; [done|]. apply cmEnsureObjects_calm.
Qed.
End configmap_facts.

(** ** Examples *)

Module ServersDemo.
#[local] Existing Instances canonical_order RbacDemo.lib PodsDemo.regLib.

Definition notFound {A} : error + A := inl (ErrAPI ReasonNotFound "not found").
Definition c : GrpcRegistryReconciler := mkGrpc 1001 "opm" "util".
Definition new : CatalogSource := PodsDemo.source SourceTypeGrpc "" "quay.io/catalog:v1" None None.
(** A cluster with the pods and services given; the service account is there once it was created. *)
Definition cluster (pods : list Pod) (services : list Service) (cm : error + ConfigMapObj) (there : bool) : RegEnv :=
  mkRegEnv 100%Z (fun _ => inr pods) (fun ns name => match List.filter (fun s => bool_decide (OName (svc_obj s) = name)) services with s :: _ => inr s | [] => notFound end)
    (fun _ _ => if there then inr (grpcServiceAccount new) else notFound) (fun _ _ => notFound) (fun _ _ => notFound) (fun _ => inr ∅) (fun _ _ => cm)
    (fun h _ _ => if there || (0 <? length h)%nat then inr (grpcServiceAccount new) else notFound) (fun _ c => match c with RCreatePod p => inr p | _ => notFound end)
    (fun _ c => match c with RCreateSA _ => if there then Some (ErrAPI ReasonAlreadyExists "there") else None | _ => None end).
Definition empty : RegEnv := cluster [] [] notFound false.
Definition firstRun : list RegCall * (error + CatalogSource * EnsureOutcome) := grpcEnsureRegistryServer empty c new [].
Definition createdPods (h : list RegCall) : list Pod := omap (fun c => match c with RCreatePod p => Some p | _ => None end) h.
Definition createdServices (h : list RegCall) : list Service := omap (fun c => match c with RCreateService s => Some s | _ => None end) h.
(** The cluster after the first run. *)
Definition later : RegEnv := cluster (createdPods firstRun.1) (createdServices firstRun.1) notFound true.

Lemma later_shows s h : createdPods h = createdPods firstRun.1 -> createdServices h = createdServices firstRun.1 -> cs_obj s = cs_obj new -> css_Secrets (cs_Spec s) = [] -> shows_created empty later s h.
Proof.
  intros Hp Hs Ho Hsec. assert (forall q, q ∈ createdPods firstRun.1 -> isPodDead q = false) as Hlive by (apply (proj1 (Forall_forall _ _)); apply (bool_decide_unpack _); vm_compute; exact I).
  split.
  - exists (createdPods firstRun.1). split; [reflexivity|]. split; [|exact Hlive]. intros p Hin. exists p. split; [|done]. rewrite <- Hp. apply list_elem_of_omap. by exists (RCreatePod p).
  - intros svc Hin. assert (svc ∈ createdServices firstRun.1) as Hc by (rewrite <- Hs; apply list_elem_of_omap; by exists (RCreateService svc)).
    assert (createdServices firstRun.1 = [match createdServices firstRun.1 with x :: _ => x | [] => svc end]) as E by reflexivity. rewrite E in Hc. apply list_elem_of_singleton in Hc. rewrite Hc. vm_compute. reflexivity.
  - intros h'. unfold later, empty, cluster. cbn [re_getServiceAccount orb length Nat.ltb Nat.leb]. reflexivity.
  - eexists. reflexivity.
  - eexists. split; reflexivity.
  - reflexivity.
Qed.

Lemma registry_settles_witness :
  exists s', firstRun.2 = inr (s', Ensured) /\ length firstRun.1 = 3 /\ grpcCheckRegistryServer later c s' [] = ([], inr (Some true)).
Proof.
  eexists. split; [vm_compute; reflexivity|]. split; [vm_compute; reflexivity|].
  refine (proj1 (registry_settles empty later c new _ firstRun.1 (or_introl eq_refl) (or_introl eq_refl) eq_refl _ (later_shows new firstRun.1 eq_refl eq_refl eq_refl eq_refl))). vm_compute. reflexivity.
Defined.

(** A catalog that is polled, with a serving pod and a ready pod that runs a newer image. *)
Definition polled : CatalogSource := PodsDemo.source SourceTypeGrpc "" "quay.io/catalog:latest" (Some (Some (mkPoll "10m" (Some (10 * minute)%Z) ""))) None.
Definition podOf (name key image : string) (labels : gmap string string) : Pod :=
  mkPod (mkObj TOther noGVK name "olm" "" [] (Some labels)) "" ∅ (basePodSpec "registry-server" image "" [] 5 10) "Running" [("Ready", "True")] [] [image].
Definition serving : Pod := podOf "old" "operatorhub.io" "sha256:1" {[CatalogSourceLabelKey := "operatorhub.io"]}.
Definition update : Pod := podOf "new" "" "sha256:2" {[CatalogSourceLabelKey := ""; CatalogSourceUpdateKey := "operatorhub.io"]}.
Definition updating : RegEnv := cluster [serving; update] [] notFound true.

Lemma update_keeps_serving_witness :
  calls_of (ensureUpdatePod updating c polled (grpcServiceAccount polled) Legacy) = [RPromotePod (relabel update "operatorhub.io" ""); RDeletePod "olm" "old" 1] /\
  exists pre tail, [RPromotePod (relabel update "operatorhub.io" ""); RDeletePod "olm" "old" 1] = pre ++ tail /\
    (forall x, x ∈ pre -> deletes (currentUpdatePods updating polled) x \/ hidden polled x) /\ tail <> [].
Proof.
  assert (calls_of (ensureUpdatePod updating c polled (grpcServiceAccount polled) Legacy) = [RPromotePod (relabel update "operatorhub.io" ""); RDeletePod "olm" "old" 1]) as E by (vm_compute; reflexivity).
  split; [exact E|]. destruct (update_keeps_serving updating c polled (grpcServiceAccount polled) Legacy ltac:(done)) as (pre & tail & Ht & Hpre & Hd). rewrite E in Ht. exists pre, tail. split; [exact Ht|].
  split; [exact Hpre|]. intros ->. rewrite app_nil_r in Ht. subst pre. destruct (Hpre (RPromotePod (relabel update "operatorhub.io" "")) ltac:(by left)) as [(q & ns & _ & X)|(q & X & _)]; discriminate X.
Defined.

Definition cmSource : CatalogSource := PodsDemo.source SourceTypeInternal "catalog" "" None None.
Definition cm : ConfigMapObj := mkConfigMapObj (mkObj TConfigMap noGVK "catalog" "olm" "9" [] None) "42".
Lemma configmap_server_current_witness :
  exists h s' r, cmEnsureRegistryServer (cluster [] [] (inr cm) false) (mkConfigMapRec "configmap-server" 0) cmSource [] = (h, inr (s', Ensured)) /\
    cst_ConfigMapResource (cs_Status s') = Some r /\ cmr_ResourceVersion r = "42".
Proof.
  assert (exists h s', cmEnsureRegistryServer (cluster [] [] (inr cm) false) (mkConfigMapRec "configmap-server" 0) cmSource [] = (h, inr (s', Ensured))) as (h & s' & E) by (eexists _, _; vm_compute; reflexivity).
  destruct (proj1 (configmap_server_current (cluster [] [] (inr cm) false) (mkConfigMapRec "configmap-server" 0) cmSource h s' ltac:(done)) E) as (cm' & r & Hcm & Hr & Hv & _).
  exists h, s', r. split; [exact E|]. split; [exact Hr|]. rewrite Hv. by injection Hcm as <-.
Defined.
End ServersDemo.
