(* ===== verification/SourceStore.v ===== *)
(** * The connections to catalogs

    Models [SourceStore] of [controller/registry/grpc/source.go], goroutines and locks included: [Add] and [Remove] run
    beside each other and beside one watcher per connection, and each takes the lock several times.  A step of a
    goroutine is what it does under one lock, or between two; [exec] runs one step of one goroutine, so that a list of
    moves is an interleaving.

    The gRPC library is in the choices of the moves: whether dialling fails, and which state a connection changes to. *)

From S2P Require Import Prelude GoStrings CatalogModel ResolverCache CsvTypes.

Record SourceMeta := mkSourceMeta { sm_Address : string; sm_LastConnect : Time; sm_ConnectionState : string }.
(** A connection is known by its number, and its context is cancelled by that number. *)
Record SourceConn := mkSourceConn { sc_meta : SourceMeta; sc_conn : nat }.

(** ** Goroutines *)

(** [Remove(key)], or [Add(key, address)], which begins with it. *)
Inductive Op :=
  | OFind (k : SourceKey) (add : option string)
  | ODelete (k : SourceKey) (c : SourceConn) (add : option string)
  | OCancel (k : SourceKey) (c : SourceConn) (add : option string)
  | OClose (k : SourceKey) (c : SourceConn) (add : option string)
  | ODial (k : SourceKey) (address : string)
  | OStore (k : SourceKey) (c : SourceConn)
  | OSpawn (k : SourceKey) (c : SourceConn)
  | OReturned (err : option error).

Inductive WatchPC :=
  | WSelect (state : string) | WWait (state : string) | WGet (newState : string) | WPut (src : SourceConn) (newState : string) | WNotify (newState : string) | WExit.
Record Watcher := mkWatcher { w_key : SourceKey; w_conn : nat; w_pc : WatchPC }.

Record SourceStore := mkStore {
  st_sources : gmap SourceKey SourceConn;
  st_cancelled : gset nat;
  st_closed : gset nat;
  st_ops : list Op;
  st_watchers : list Watcher;
  st_notified : list (SourceKey * string);
  st_dialed : list (SourceKey * string);
}.
Definition NewSourceStore : SourceStore := mkStore ∅ ∅ ∅ [] [] [] [].

Definition setSources (s : SourceStore) (m : gmap SourceKey SourceConn) : SourceStore :=
  mkStore m (st_cancelled s) (st_closed s) (st_ops s) (st_watchers s) (st_notified s) (st_dialed s).

(** What is not in the hands of the program. *)
Record Choice := mkChoice { ch_now : Time; ch_dialErr : option error; ch_closeErr : option error; ch_newState : option string }.

(** *** Add and Remove *)

(** [Add] does not look at the error of [Remove]. *)
Definition afterRemove (k : SourceKey) (add : option string) (err : option error) : Op := match add with None => OReturned err | Some address => ODial k address end.

(** The connections are numbered in the order in which they were dialled. *)
Definition stepOp (ch : Choice) (s : SourceStore) (o : Op) : SourceStore * Op :=
  match o with
  | OFind k add => match st_sources s !! k with None => (s, afterRemove k add None) | Some c => (s, ODelete k c add) end
  | ODelete k c add => (setSources s (delete k (st_sources s)), OCancel k c add)
  | OCancel k c add => (mkStore (st_sources s) ({[sc_conn c]} ∪ st_cancelled s) (st_closed s) (st_ops s) (st_watchers s) (st_notified s) (st_dialed s), OClose k c add)
  | OClose k c add => (mkStore (st_sources s) (st_cancelled s) ({[sc_conn c]} ∪ st_closed s) (st_ops s) (st_watchers s) (st_notified s) (st_dialed s), afterRemove k add (ch_closeErr ch))
  | ODial k address =>
      match ch_dialErr ch with
      | Some err => (s, OReturned (Some err))
      | None =>
          (mkStore (st_sources s) (st_cancelled s) (st_closed s) (st_ops s) (st_watchers s) (st_notified s) (st_dialed s ++ [(k, address)]),
           OStore k (mkSourceConn (mkSourceMeta address (ch_now ch) "IDLE") (length (st_dialed s))))
      end
  | OStore k c => (setSources s (<[k := c]> (st_sources s)), OSpawn k c)
  | OSpawn k c =>
      (mkStore (st_sources s) (st_cancelled s) (st_closed s) (st_ops s) (st_watchers s ++ [mkWatcher k (sc_conn c) (WSelect (sm_ConnectionState (sc_meta c)))]) (st_notified s) (st_dialed s),
       OReturned None)
  | OReturned err => (s, OReturned err)
  end.

(** *** The watcher of a connection *)

(** A watcher that finds its source removed leaves the function in its loop, not the loop. *)
Definition stepWatch (ch : Choice) (s : SourceStore) (w : Watcher) : SourceStore * WatchPC :=
  match w_pc w with
  | WSelect state => (s, if bool_decide (w_conn w ∈ st_cancelled s) then WExit else WWait state)
  | WWait state => (s, match ch_newState ch with Some newState => WGet newState | None => WSelect state end)
  | WGet newState => (s, match st_sources s !! w_key w with None => WSelect newState | Some src => WPut src newState end)
  | WPut src newState =>
      (setSources s (<[w_key w := mkSourceConn (mkSourceMeta (sm_Address (sc_meta src)) (ch_now ch) newState) (sc_conn src)]> (st_sources s)), WNotify newState)
  | WNotify newState =>
      (mkStore (st_sources s) (st_cancelled s) (st_closed s) (st_ops s) (st_watchers s) (st_notified s ++ [(w_key w, newState)]) (st_dialed s), WSelect newState)
  | WExit => (s, WExit)
  end.

(** *** Interleavings *)

Inductive Move := MCall (k : SourceKey) (add : option string) | MOp (i : nat) (ch : Choice) | MWatch (i : nat) (ch : Choice).

Definition setOps (s : SourceStore) (ops : list Op) : SourceStore :=
  mkStore (st_sources s) (st_cancelled s) (st_closed s) ops (st_watchers s) (st_notified s) (st_dialed s).
Definition setWatchers (s : SourceStore) (ws : list Watcher) : SourceStore :=
  mkStore (st_sources s) (st_cancelled s) (st_closed s) (st_ops s) ws (st_notified s) (st_dialed s).

Definition exec (s : SourceStore) (m : Move) : option SourceStore :=
  match m with
  | MCall k add => Some (setOps s (st_ops s ++ [OFind k add]))
  | MOp i ch => o ← st_ops s !! i; let '(s', o') := stepOp ch s o in Some (setOps s' (<[i := o']> (st_ops s')))
  | MWatch i ch => w ← st_watchers s !! i; let '(s', pc) := stepWatch ch s w in Some (setWatchers s' (<[i := mkWatcher (w_key w) (w_conn w) pc]> (st_watchers s')))
  end.
Fixpoint execs (s : SourceStore) (ms : list Move) : option SourceStore := match ms with [] => Some s | m :: ms => s' ← exec s m; execs s' ms end.

(** ** Reading *)

Definition GetMeta (s : SourceStore) (k : SourceKey) : option SourceMeta := sc_meta <$> st_sources s !! k.
Definition Exists (s : SourceStore) (k : SourceKey) : bool := bool_decide (is_Some (st_sources s !! k)).
Definition Get (s : SourceStore) (k : SourceKey) : option SourceConn := st_sources s !! k.
(** [AsClients] and [ClientsForNamespaces]: the connections that clients are made of. *)
Definition AsClients (s : SourceStore) (namespaces : list string) : gmap SourceKey nat :=
  sc_conn <$> filter (fun kc : SourceKey * SourceConn => sm_LastConnect (sc_meta kc.2) <> 0%Z /\ sk_Namespace kc.1 ∈ namespaces) (st_sources s).

(** ** Every source is a connection of its catalog *)

(** The connection was dialled for this catalog and this address. *)
Definition dialedFor (s : SourceStore) (k : SourceKey) (c : SourceConn) : Prop := st_dialed s !! sc_conn c = Some (k, sm_Address (sc_meta c)).
(** The source a call of [Add] or [Remove] has in hand. *)
Definition holds (o : Op) : option (SourceKey * SourceConn) :=
  match o with ODelete k c _ | OCancel k c _ | OClose k c _ | OStore k c | OSpawn k c => Some (k, c) | _ => None end.

Record store_ok (s : SourceStore) : Prop := {
  ok_sources : forall k c, st_sources s !! k = Some c -> dialedFor s k c;
  ok_ops : forall o k c, o ∈ st_ops s -> holds o = Some (k, c) -> dialedFor s k c;
  ok_watchers : forall w src newState, w ∈ st_watchers s -> w_pc w = WPut src newState -> dialedFor s (w_key w) src;
}.

Lemma elem_of_insert_or {A} (l : list A) i x y : y ∈ <[i := x]> l -> y = x \/ y ∈ l.
Proof. rewrite !list_elem_of_lookup. intros [j Hj]. apply list_lookup_insert_Some in Hj as [(_ & -> & _)|[_ Hj]]; [by left|right; by exists j]. Qed.

(** What a step of a goroutine does to what is stored, to what it has in hand and to the other goroutines. *)
Lemma stepOp_ok ch s o s' o' :
  store_ok s -> o ∈ st_ops s -> stepOp ch s o = (s', o') -> store_ok s' /\ st_ops s' = st_ops s /\ forall k c, holds o' = Some (k, c) -> dialedFor s' k c.
Proof.
  intros [Hs Ho Hw] Hin E. specialize (Ho o) as Hoo. destruct o as [k add|k c add|k c add|k c add|k a|k c|k c|err]; cbn in E.
  - destruct (st_sources s !! k) as [c|] eqn:Ek; injection E as <- <-; (split; [by split|split; [done|]]); intros k' c' X; [injection X as <- <-; by apply Hs|by destruct add].
  - injection E as <- <-. split; [|split; [done|intros k' c' X; by apply Hoo]]. split; [|done|done]. intros k' c' X. cbn in X. apply lookup_delete_Some in X as [_ X]. by apply Hs.
  - injection E as <- <-. split; [by split|split; [done|intros k' c' X; by apply Hoo]].
  - injection E as <- <-. split; [by split|split; [done|]]. intros k' c' X. by destruct add.
  - destruct (ch_dialErr ch) as [err|]; injection E as <- <-; [split; [by split|split; [done|by intros]]|].
    assert (forall k' c', dialedFor s k' c' -> dialedFor (mkStore (st_sources s) (st_cancelled s) (st_closed s) (st_ops s) (st_watchers s) (st_notified s) (st_dialed s ++ [(k, a)])) k' c') as Hmono by (intros k' c' X; by apply lookup_app_l_Some).
    split; [split; cbn; eauto|]. split; [done|]. intros k' c' X. injection X as <- <-. unfold dialedFor. cbn. rewrite lookup_app_r by lia. by rewrite Nat.sub_diag.
  - injection E as <- <-. split; [|split; [done|intros k' c' X; by apply Hoo]]. split; [|done|done]. intros k' c' X. cbn in X. apply lookup_insert_Some in X as [[<- <-]|[_ X]]; [by apply Hoo|by apply Hs].
  - injection E as <- <-. split; [|split; [done|by intros]]. split; [done|done|]. intros w src n [X|X]%elem_of_app; [by apply Hw|]. apply list_elem_of_singleton in X as ->. done.
  - injection E as <- <-. split; [by split|split; [done|by intros]].
Qed.

Lemma stepWatch_ok ch s w s' pc :
  store_ok s -> w ∈ st_watchers s -> stepWatch ch s w = (s', pc) ->
  store_ok s' /\ st_watchers s' = st_watchers s /\ st_ops s' = st_ops s /\ forall src newState, pc = WPut src newState -> dialedFor s' (w_key w) src.
Proof.
  intros [Hs Ho Hw] Hin E. specialize (Hw w) as Hww. unfold stepWatch in E. destruct (w_pc w) as [st|st|n|src n|n|]; injection E as <- <-.
  - split; [by split|split; [done|split; [done|]]]. intros src n X. by destruct (bool_decide _).
  - split; [by split|split; [done|split; [done|]]]. intros src n X. by destruct (ch_newState ch).
  - split; [by split|split; [done|split; [done|]]]. intros src n' X. destruct (st_sources s !! w_key w) as [c|] eqn:Ek; [|done]. injection X as <- <-. by apply Hs.
  - split; [|by split; [|split]]. split; [|done|done]. intros k c X. cbn in X. apply lookup_insert_Some in X as [[<- <-]|[_ X]]; [by apply (Hww src n)|by apply Hs].
  - by split; [split|].
  - by split; [split|].
Qed.

Lemma exec_ok s m s' : store_ok s -> exec s m = Some s' -> store_ok s'.
Proof.
  intros Hok E. destruct m as [k add|i ch|i ch]; cbn in E.
  - injection E as <-. destruct Hok as [Hs Ho Hw]. split; [done| |done]. intros o k' c [X|X]%elem_of_app; [by apply Ho|]. by apply list_elem_of_singleton in X as ->.
  - apply bind_Some in E as (o & Ho & E). destruct (stepOp ch s o) as [s1 o1] eqn:Es. injection E as <-. destruct (stepOp_ok _ _ _ _ _ Hok (list_elem_of_lookup_2 _ _ _ Ho) Es) as ([Hs1 Ho1 Hw1] & _ & Hh).
    split; [done| |done]. intros o' k c X. apply elem_of_insert_or in X as [->|X]; [apply Hh|by apply Ho1].
  - apply bind_Some in E as (w & Hw & E). destruct (stepWatch ch s w) as [s1 pc] eqn:Es. injection E as <-. destruct (stepWatch_ok _ _ _ _ _ Hok (list_elem_of_lookup_2 _ _ _ Hw) Es) as ([Hs1 Ho1 Hw1] & _ & _ & Hh).
    split; [done|done|]. intros w' src n X. apply elem_of_insert_or in X as [->|X]; [apply Hh|by apply Hw1].
Qed.
Lemma execs_ok s ms s' : store_ok s -> execs s ms = Some s' -> store_ok s'.
Proof. revert s. induction ms as [|m ms IH]; intros s Hok E; cbn in E; [by injection E as <-|]. apply bind_Some in E as (s1 & E1 & E). eapply IH, E. by eapply exec_ok. Qed.
Lemma NewSourceStore_ok : store_ok NewSourceStore.
Proof. split; [intros k c; cbn; by rewrite lookup_empty|by intros o k c ?%elem_of_nil|by intros w src n ?%elem_of_nil]. Qed.

(** C23: clients talk to the catalog they were asked for.  However the calls of [Add] and [Remove] and the watchers
    interleave, a source that is stored for a catalog has a connection that was dialled for this catalog and to the
    address it shows, and a client for some namespaces is such a connection of a catalog in one of them. *)
Theorem clients_of_catalog ms s :
  execs NewSourceStore ms = Some s ->
  (forall k c, Get s k = Some c -> st_dialed s !! sc_conn c = Some (k, sm_Address (sc_meta c))) /\
  (forall namespaces k n, AsClients s namespaces !! k = Some n ->
     sk_Namespace k ∈ namespaces /\ exists m, GetMeta s k = Some m /\ st_dialed s !! n = Some (k, sm_Address m)).
Proof.
  intros E. destruct (execs_ok _ _ _ NewSourceStore_ok E) as [Hs _ _]. split; [exact Hs|]. intros namespaces k n X. unfold AsClients in X. apply lookup_fmap_Some in X as (c & <- & X).
  apply map_lookup_filter_Some in X as [Hk [_ Hns]]. split; [done|]. exists (sc_meta c). unfold GetMeta. rewrite Hk. split; [done|by apply Hs].
Qed.

(** ** A removed source *)

(** Nobody is about to bring the catalog back: it is not stored, no [Add] of it is running and no watcher has a copy. *)
Definition adds (k : SourceKey) (o : Op) : Prop :=
  match o with OFind k' (Some _) | ODelete k' _ (Some _) | OCancel k' _ (Some _) | OClose k' _ (Some _) | ODial k' _ | OStore k' _ => k' = k | _ => False end.
Record gone (k : SourceKey) (s : SourceStore) : Prop := {
  gn_source : st_sources s !! k = None;
  gn_ops : forall o, o ∈ st_ops s -> ~ adds k o;
  gn_watchers : forall w src newState, w ∈ st_watchers s -> w_pc w = WPut src newState -> w_key w <> k;
}.

Lemma gone_stepOp k ch s o s' o' : gone k s -> o ∈ st_ops s -> stepOp ch s o = (s', o') -> gone k s' /\ ~ adds k o'.
Proof.
  intros [Hs Ho Hw] Hin E. specialize (Ho o Hin) as Hno. destruct o as [k' [a|]|k' c [a|]|k' c [a|]|k' c [a|]|k' a|k' c|k' c|err]; cbn in E, Hno; try destruct (st_sources s !! k') as [c|]; try destruct (ch_dialErr ch);
    injection E as <- <-; (split; [split|]); cbn; try done.
  all: first [by rewrite lookup_delete_None, Hs; right|tauto|by rewrite lookup_insert_ne|idtac].
  all: intros w src n [X|X]%elem_of_app; [by apply Hw|]; by apply list_elem_of_singleton in X as ->.
Qed.
Lemma gone_stepWatch k ch s w s' pc : gone k s -> w ∈ st_watchers s -> stepWatch ch s w = (s', pc) -> gone k s' /\ forall src newState, pc = WPut src newState -> w_key w <> k.
Proof.
  intros [Hs Ho Hw] Hin E. specialize (Hw w) as Hww. unfold stepWatch in E. destruct (w_pc w) as [st|st|n|src n|n|]; injection E as <- <-; (split; [split|]); try done.
  - intros src n. by destruct (bool_decide _).
  - intros src n. by destruct (ch_newState ch).
  - intros src n' X E. rewrite E in X. by rewrite Hs in X.
  - cbn. by rewrite lookup_insert_ne by (by eapply Hww).
Qed.
Lemma gone_exec k s m s' : gone k s -> (forall a, m <> MCall k (Some a)) -> exec s m = Some s' -> gone k s'.
Proof.
  intros Hg Hm E. destruct m as [k' add|i ch|i ch]; cbn in E.
  - injection E as <-. destruct Hg as [Hs Ho Hw]. split; [done| |done]. intros o [X|X]%elem_of_app; [by apply Ho|]. apply list_elem_of_singleton in X as ->. destruct add as [a|]; cbn; [|tauto]. intros ->. by apply (Hm a).
  - apply bind_Some in E as (o & Ho & E). destruct (stepOp ch s o) as [s1 o1] eqn:Es. injection E as <-. destruct (gone_stepOp _ _ _ _ _ _ Hg (list_elem_of_lookup_2 _ _ _ Ho) Es) as ([Hs1 Ho1 Hw1] & Hh).
    split; [done| |done]. intros o' X. apply elem_of_insert_or in X as [->|X]; [done|by apply Ho1].
  - apply bind_Some in E as (w & Hw & E). destruct (stepWatch ch s w) as [s1 pc] eqn:Es. injection E as <-. destruct (gone_stepWatch _ _ _ _ _ _ Hg (list_elem_of_lookup_2 _ _ _ Hw) Es) as ([Hs1 Ho1 Hw1] & Hh).
    split; [done|done|]. intros w' src n X. apply elem_of_insert_or in X as [->|X]; [apply Hh|by apply Hw1].
Qed.

(** A catalog that was removed stays removed until it is added again, unless a watcher had read it before it was
    removed: once it is gone and neither a running [Add] nor a watcher has it in hand, no interleaving of removals,
    watchers and calls for other catalogs brings it back. *)
Theorem removed_stays_removed k s ms s' :
  gone k s -> (forall a, MCall k (Some a) ∉ ms) -> execs s ms = Some s' ->
  gone k s' /\ GetMeta s' k = None /\ Exists s' k = false /\ forall namespaces, AsClients s' namespaces !! k = None.
Proof.
  intros Hg Hms E. assert (gone k s') as Hg'.
  { revert s Hg E. induction ms as [|m ms IH]; intros s Hg E; cbn in E; [by injection E as <-|]. apply bind_Some in E as (s1 & E1 & E).
    apply (IH ltac:(intros a X; apply (Hms a); by right) s1); [|done]. eapply gone_exec; [exact Hg| |exact E1]. intros a ->. apply (Hms a). by left. }
  split; [done|]. pose proof (gn_source _ _ Hg') as Hn. unfold GetMeta, Exists, AsClients. rewrite Hn. split; [done|]. split; [by rewrite bool_decide_eq_false_2 by apply is_Some_None|].
  intros namespaces. rewrite lookup_fmap, fmap_None; apply map_lookup_filter_None. by left.
Qed.

(** ** Undisturbed calls *)

Fixpoint runOp (fuel : nat) (ch : Choice) (s : SourceStore) (o : Op) : SourceStore * Op :=
  match fuel with O => (s, o) | S fuel => let '(s', o') := stepOp ch s o in runOp fuel ch s' o' end.

(** What the store promises. *)
Definition RemoveSpec (sources : gmap SourceKey SourceConn) (k : SourceKey) : gmap SourceKey SourceConn := delete k sources.
Definition AddSpec (sources : gmap SourceKey SourceConn) (k : SourceKey) (dialErr : option error) (c : SourceConn) : gmap SourceKey SourceConn :=
  match dialErr with Some _ => delete k sources | None => <[k := c]> sources end.

(** Undisturbed, [Remove] takes the source of a catalog out of the store and [Add] replaces it, or takes it out when
    the new address cannot be dialled; the connection that was stored is cancelled and closed.  Both end, within four and
    seven steps. *)
Theorem store_operations ch s k address :
  let old := st_sources s !! k in
  let added := mkSourceConn (mkSourceMeta address (ch_now ch) "IDLE") (length (st_dialed s)) in
  let '(s1, o1) := runOp 4 ch s (OFind k None) in
  let '(s2, o2) := runOp 7 ch s (OFind k (Some address)) in
  st_sources s1 = RemoveSpec (st_sources s) k /\ (exists err, o1 = OReturned err) /\
  st_sources s2 = AddSpec (st_sources s) k (ch_dialErr ch) added /\ o2 = OReturned (ch_dialErr ch) /\
  (forall c, old = Some c -> (sc_conn c ∈ st_cancelled s1 /\ sc_conn c ∈ st_closed s1) /\ (sc_conn c ∈ st_cancelled s2 /\ sc_conn c ∈ st_closed s2)) /\
  (ch_dialErr ch = None -> st_watchers s2 = st_watchers s ++ [mkWatcher k (sc_conn added) (WSelect "IDLE")]).
Proof.
  cbv zeta. cbn [runOp stepOp]. destruct (st_sources s !! k) as [c|] eqn:Ek; cbn [runOp stepOp afterRemove]; destruct (ch_dialErr ch) as [err|]; cbn [runOp stepOp afterRemove].
  all: split_and!; try done; try (by eexists); try (by rewrite delete_id); try (by unfold AddSpec; rewrite delete_id); try (by cbn; rewrite insert_delete_eq).
  all: try (intros c' [= <-]; cbn; split_and!; by apply elem_of_union_l, elem_of_singleton_2); by unfold RemoveSpec; rewrite delete_id.
Qed.

(** *** A race *)

(** A source can be stored after it was removed, with its connection closed: a watcher that has read the source before it
    was removed writes it back. *)
Theorem removed_source_returns :
  exists ms s k c, execs NewSourceStore ms = Some s /\ (forall o, o ∈ st_ops s -> exists err, o = OReturned err) /\
    last (omap (fun m => match m with MCall k' add => Some (k', add) | _ => None end) ms) = Some (k, None) /\ Get s k = Some c /\ sc_conn c ∈ st_closed s /\
    forall w, w ∈ st_watchers s -> w_pc w = WExit.
Proof.
  pose (k := mkKey "operatorhub" "olm"). pose (ch := mkChoice 1%Z None None (Some "CONNECTING")).
  pose (ms := [MCall k (Some "a:50051"); MOp 0 ch; MOp 0 ch; MOp 0 ch; MOp 0 ch; MWatch 0 ch; MWatch 0 ch; MWatch 0 ch;
               MCall k None; MOp 1 ch; MOp 1 ch; MOp 1 ch; MOp 1 ch; MWatch 0 ch; MWatch 0 ch; MWatch 0 ch]).
  eexists ms, _, k, _. split; [vm_compute; reflexivity|]. split.
  - apply (proj1 (Forall_forall (fun o => exists err, o = OReturned err) _)). repeat constructor; by eexists.
  - split; [reflexivity|]. split; [reflexivity|]. split; [apply (bool_decide_unpack _); vm_compute; exact I|]. apply (proj1 (Forall_forall (fun w => w_pc w = WExit) _)). by repeat constructor.
Qed.

(** ** Examples *)

Module StoreDemo.
Definition k : SourceKey := mkKey "operatorhub" "olm".
Definition ch : Choice := mkChoice 1%Z None None (Some "READY").
(** A catalog is added and becomes ready. *)
Definition added : list Move := [MCall k (Some "a:50051"); MOp 0 ch; MOp 0 ch; MOp 0 ch; MOp 0 ch; MWatch 0 ch; MWatch 0 ch; MWatch 0 ch; MWatch 0 ch; MWatch 0 ch].
Definition store : SourceStore := Eval vm_compute in default NewSourceStore (execs NewSourceStore added).

Lemma clients_of_catalog_witness : AsClients store ["olm"] !! k = Some 0 /\ st_notified store = [(k, "READY")] /\ sk_Namespace k ∈ ["olm"].
Proof.
  assert (AsClients store ["olm"] !! k = Some 0) as E by (vm_compute; reflexivity). split; [exact E|]. split; [reflexivity|].
  refine (proj1 (proj2 (clients_of_catalog added store _) ["olm"] k 0 E)). vm_compute. reflexivity.
Defined.

(** It is removed, and the watcher goes on until it sees that it was cancelled. *)
Definition removed : list Move := [MCall k None; MOp 1 ch; MOp 1 ch; MOp 1 ch; MOp 1 ch].
Definition after : SourceStore := Eval vm_compute in default NewSourceStore (execs store removed).
Lemma removed_stays_removed_witness : exists s', execs after [MWatch 0 ch; MCall k None; MOp 2 ch] = Some s' /\ GetMeta s' k = None.
Proof.
  eexists. split; [vm_compute; reflexivity|]. refine (proj1 (proj2 (removed_stays_removed k after [MWatch 0 ch; MCall k None; MOp 2 ch] _ _ _ _))); [split; [vm_compute; reflexivity| |]| |vm_compute; reflexivity].
  - apply (proj1 (Forall_forall (fun o => ~ adds k o) _)). repeat constructor; intros [].
  - intros w src n Hw E. exfalso. revert src n E. revert w Hw. apply (proj1 (Forall_forall (fun w => forall src n, w_pc w = WPut src n -> False) _)). repeat constructor; discriminate.
  - intros a X. rewrite !elem_of_cons, elem_of_nil in X. destruct X as [X|[X|[X|[]]]]; discriminate X.
Defined.
End StoreDemo.
