(* ===== verification/CatalogSources.v ===== *)
(** * Syncing catalog sources

    Models [syncCatalogSources] of [controller/operators/catalog/operator.go] with the chain of functions it runs
    ([validateSourceType], [syncConfigMap], [syncRegistryServer], [syncConnection]), the polling interval of
    [reconciler/grpc_polling.go] and the handlers of source states and deleted catalog sources.

    A function of the chain returns the catalog source, whether to go on, and an error; [StepPanicked] stands for a nil
    dereference.  The connections to catalogs ([SourceStore], SourceStore.v) are reached through calls. *)

From S2P Require Import Prelude GoStrings OwnerUtil RbacRules CatalogModel ResolverCache CsvTypes OperatorRbac ClusterCalls CsvCopies RegistryPods RegistryServers SourceStore.
#[local] Open Scope p_scope.

(** ** When to look again *)

Definition DefaultResyncPeriod : Z := 15 * minute.

Definition defaultOr (latestPoll : option Time) (pollingInterval : Z) (creationTimestamp now : Time) : Z :=
  let remaining := (default creationTimestamp latestPoll + pollingInterval - now)%Z in
  if (remaining <? DefaultResyncPeriod)%Z then remaining else DefaultResyncPeriod.

Definition SyncRegistryUpdateInterval (source : CatalogSource) (pollingInterval : Z) (now : Time) : Z :=
  if (pollingInterval <=? DefaultResyncPeriod)%Z then pollingInterval
  else defaultOr (cst_LatestImageRegistryPoll (cs_Status source)) pollingInterval (cs_CreationTimestamp source) now.

(** [resyncWithJitter] of [lib/queueinformer/jitter.go], for a factor [fn/fd] and the random number [k/2^53]; the
    arithmetic is exact, the rounding of floating point numbers is left out. *)
Definition maxInt64 : Z := 2 ^ 63 - 1.
Definition resyncWithJitter (period fn fd k : Z) : Z :=
  if (period <? 0)%Z then DefaultResyncPeriod
  else if (maxInt64 / 2 <? period)%Z then period
  else if (fn <? 0)%Z || (fd <? fn)%Z then period
  else (((fd - fn) * 2 ^ 53 + 2 * k * fn) * period / (fd * 2 ^ 53))%Z.

(** ** The environment *)

Inductive CatCall :=
  | CReg (c : RegCall) | CUpdateConfigMap (cm : ConfigMapObj) | CUpdateStatus (s : CatalogSource)
  | CRequeueAfter (ns name : string) (duration : Z) | CAddSource (key : SourceKey) (address : string) | CRemoveSource (key : SourceKey)
  | CInvalidate (key : SourceKey) | CResolveNamespace (ns : string) | CRequeueSource (ns name : string) | CRequeueSubscription (ns name : string) | CSourcesUpdated (now : Time).

Record CatEnv := mkCatEnv {
  ce_reg : RegEnv;
  ce_factory : registryReconcilerFactory;
  ce_now : Time;
  ce_configMapLister : string -> string -> error + ConfigMapObj;
  ce_configMap : string -> string -> error + ConfigMapObj;
  ce_updateConfigMap : list CatCall -> CatCall -> error + ConfigMapObj;
  ce_meta : list CatCall -> SourceKey -> option SourceMeta;
  ce_add : list CatCall -> CatCall -> error + option SourceMeta;
  ce_sourcesLastUpdate : Time;
  ce_random : Z;
  ce_operatorNamespace : string;
  ce_subscribers : SourceKey -> error + list string;
  ce_do : list CatCall -> CatCall -> option error;
}.

Inductive SyncStep := StepDone (out : CatalogSource) (continueSync : bool) (syncError : option error) | StepPanicked.

#[export] Instance CatalogSourceStatus_eq_dec : EqDecision CatalogSourceStatus.
Proof.
  assert (EqDecision RegistryServiceStatus) by solve_decision. assert (EqDecision GRPCConnectionState) by solve_decision. assert (EqDecision ConfigMapResourceReference) by solve_decision. solve_decision.
Defined.

Section sources.
Context `{RbacLib, RegistryLib} (env : CatEnv).
Abbreviation P := (P CatCall).

Definition ctry (c : CatCall) : P unit := run! perform (ce_do env) c in pret tt.
(** The calls of the reconcilers are among those of a sync. *)
Definition regCalls (h : list CatCall) : list RegCall := omap (fun c => match c with CReg c => Some c | _ => None end) h.
Definition liftReg {A} (m : ClusterCalls.P RegCall A) : P A := fun h =>
  let before := regCalls h in
  let '(after, r) := m before in (h ++ (CReg <$> drop (length before) after), r).

Definition sourceKey (s : CatalogSource) : SourceKey := mkKey (cs_Name s) (cs_Namespace s).
(** [out.SetError(reason, err)] and a return with the error *)
Definition failed (s : CatalogSource) (reason : string) (err : error) : SyncStep := StepDone (SetError s reason (Some err)) false (Some err).

(** ** The chain *)

Definition sourceTypeError (s : CatalogSource) : option error :=
  let sourceType := css_SourceType (cs_Spec s) in
  if isConfigMapSource s then
    if bool_decide (css_ConfigMap (cs_Spec s) = "") then Some (ErrString ("configmap name unset: must be set for sourcetype: " +:+ sourceType)) else None
  else if bool_decide (sourceType = SourceTypeGrpc) then
    if bool_decide (css_Image (cs_Spec s) = "") && bool_decide (css_Address (cs_Spec s) = "")
    then Some (ErrString ("image and address unset: at least one must be set for sourcetype: " +:+ sourceType)) else None
  else Some (ErrString ("unknown sourcetype: " +:+ sourceType)).

(** An invalid spec is reported in the status and is no error of the sync. *)
Definition validateSourceType (s : CatalogSource) : P SyncStep :=
  match sourceTypeError s with
  | Some err => pret (StepDone (SetError s CatalogSourceSpecInvalidError (Some err)) false None)
  | None =>
      pret (StepDone (if bool_decide (cst_Reason (cs_Status s) = CatalogSourceSpecInvalidError) then cs_setStatus s (mkCatStatus "" "" None None None None (cst_Conditions (cs_Status s))) else s) true None)
  end.

(** The config map, from the cache or else from the cluster, and whether it was found only there. *)
Definition findConfigMap (s : CatalogSource) : error + ConfigMapObj * bool :=
  match ce_configMapLister env (cs_Namespace s) (css_ConfigMap (cs_Spec s)) with
  | inr cm => inr (cm, false)
  | inl err =>
      if IsNotFound (Some err) then
        match ce_configMap env (cs_Namespace s) (css_ConfigMap (cs_Spec s)) with
        | inl err => inl err
        | inr cm => let o := cmo_obj cm in inr (mkConfigMapObj (SetLabels o (<[olmManagedKey := "false"]> (default ∅ (Labels o)))) (cmo_ResourceVersion cm), true)
        end
      else inl err
  end.

Definition syncConfigMap (s : CatalogSource) : P SyncStep :=
  if negb (isConfigMapSource s) then pret (StepDone s true None)
  else
    match findConfigMap s with
    | inl err => pret (failed s CatalogSourceConfigMapError (ErrString ("failed to get catalog config map " +:+ css_ConfigMap (cs_Spec s) +:+ ": " +:+ Error_ err)))
    | inr (cm, updateLabel) =>
        let '(o, wasOwned) := EnsureOwner (cmo_obj cm) (cs_obj s) in
        let cm := mkConfigMapObj o (cmo_ResourceVersion cm) in
        let! updated := if negb wasOwned || updateLabel then perform (ce_updateConfigMap env) (CUpdateConfigMap cm) else pret (inr cm) in
        match updated with
        | inl err => pret (failed s CatalogSourceConfigMapError (ErrString ("unable to write owner onto catalog source configmap - " +:+ Error_ err)))
        | inr cm =>
            if match cst_ConfigMapResource (cs_Status s) with Some r => IsAMatch r (OUID (cmo_obj cm)) (cmo_ResourceVersion cm) | None => false end
            then pret (StepDone s true None)
            else pret (StepDone (setConfigMapResource s (Some (mkCMRef (OName (cmo_obj cm)) (ONamespace (cmo_obj cm)) (OUID (cmo_obj cm)) (cmo_ResourceVersion cm) (ce_now env)))) false None)
        end
    end.

(** After the server was ensured: polling sources are looked at again later, the others lose their connection. *)
Definition afterEnsure (s : CatalogSource) (cont : bool) : P SyncStep :=
  match registryPoll s with
  | Some poll =>
      match rp_Interval poll with
      | None => pret (StepDone (SetError s CatalogSourceIntervalInvalidError (Some (ErrString "empty polling interval; cannot requeue registry server sync without a provided polling interval"))) cont
                        (Some (ErrString "empty polling interval; cannot requeue registry server sync without a provided polling interval")))
      | Some interval =>
          let s := if negb (bool_decide (rp_ParsingError poll = "")) && negb (bool_decide (cst_Reason (cs_Status s) = CatalogSourceIntervalInvalidError))
                   then SetError s CatalogSourceIntervalInvalidError (Some (ErrString (rp_ParsingError poll))) else s in
          run! perform (fun _ _ => tt) (CRequeueAfter (cs_Namespace s) (cs_Name s) (resyncWithJitter (SyncRegistryUpdateInterval s interval (ce_now env)) 1 10 (ce_random env))) in
          pret (StepDone s cont None)
      end
  | None => run! ctry (CRemoveSource (sourceKey s)) in pret (StepDone s cont None)
  end.

Definition CatalogPollingRequeuePeriod : Z := 30 * 1000000000.

Definition ensureServer (r : RegistryReconciler) (s : CatalogSource) (cont : bool) : P SyncStep :=
  let! ensured := liftReg (EnsureRegistryServer r s) in
  match ensured with
  | (s, Ensured) => afterEnsure s cont
  | (s, UpdateNotReady _ _) => run! perform (fun _ _ => tt) (CRequeueAfter (cs_Namespace s) (cs_Name s) CatalogPollingRequeuePeriod) in pret (StepDone s cont None)
  | (s, EnsureFailed err) =>
      let err := ErrString ("couldn't ensure registry server - " +:+ Error_ err) in pret (StepDone (SetError s CatalogSourceRegistryServerError (Some err)) cont (Some err))
  | (_, EnsurePanicked) => pret StepPanicked
  end.

Definition syncRegistryServer (s : CatalogSource) : P SyncStep :=
  match ReconcilerForSource (ce_reg env) (ce_factory env) s with
  | None => pret (failed s CatalogSourceRegistryServerError (ErrString ("no reconciler for source type " +:+ css_SourceType (cs_Spec s))))
  | Some r =>
      let! healthy := attempt (liftReg (CheckRegistryServer r s)) in
      match healthy with
      | inl err => pret (failed s CatalogSourceRegistryServerError err)
      | inr None => pret StepPanicked
      | inr (Some healthy) =>
          let cont := healthy && bool_decide (is_Some (cst_RegistryServiceStatus (cs_Status s))) in
          if cont && negb (Poll s) then pret (StepDone s true None) else ensureServer r s cont
      end
  end.

Definition connState (m : SourceMeta) : GRPCConnectionState := mkConnState (sm_Address m) (sm_ConnectionState m) (sm_LastConnect m).
Definition connect (s : CatalogSource) (address : string) : P (error + SourceMeta) :=
  let! added := perform (ce_add env) (CAddSource (sourceKey s) address) in
  pret (match added with
        | inl err => inl (ErrString ("couldn't connect to registry - " +:+ Error_ err))
        | inr None => inl (ErrString "couldn't connect to registry")
        | inr (Some m) => inr m
        end).

(** The connection is there: the time of the last sync is brought up to date. *)
Definition refreshConnection (s : CatalogSource) (source : SourceMeta) : CatalogSource :=
  let s := match cst_GRPCConnectionState (cs_Status s) with None => setConnection s (Some (connState source)) | Some _ => s end in
  match cst_GRPCConnectionState (cs_Status s) with
  | Some g => if (gc_LastConnectTime g <? ce_sourcesLastUpdate env)%Z then setConnection s (Some (mkConnState (sm_Address source) (sm_ConnectionState source) (ce_now env))) else s
  | None => s
  end.

Definition syncConnection (s : CatalogSource) : P SyncStep :=
  match Address s with
  | None => pret StepPanicked
  | Some address => fun h =>
      (match ce_meta env h (sourceKey s) with
       | None =>
           let! source := connect s address in
           match source with
           | inl err => pret (failed s CatalogSourceRegistryServerError err)
           | inr source => pret (StepDone (setConnection s (Some (connState source))) false None)
           end
       | Some source =>
           if bool_decide (sm_Address source = address) then pret (StepDone (refreshConnection s source) false None)
           else
             let! source := connect s address in
             match source with
             | inl err => pret (failed s CatalogSourceRegistryServerError err)
             | inr source => pret (StepDone (refreshConnection (setConnection s (Some (connState source))) source) false None)
             end
       end) h
  end.

Fixpoint runChain (s : CatalogSource) (chain : list (CatalogSource -> P SyncStep)) : P SyncStep :=
  match chain with
  | [] => pret (StepDone s true None)
  | f :: chain =>
      let! r := f s in
      match r with
      | StepDone out true None => match chain with [] => pret r | _ => runChain out chain end
      | r => pret r
      end
  end.
Definition syncChain : list (CatalogSource -> P SyncStep) := [validateSourceType; syncConfigMap; syncRegistryServer; syncConnection].

(** The status is written when it changed; an error of the chain comes first. *)
Definition syncCatalogSources (catsrc : CatalogSource) : P bool :=
  let! r := runChain (SetError catsrc "" None) syncChain in
  match r with
  | StepPanicked => pret false
  | StepDone out _ syncError =>
      let! updateErr := if bool_decide (cs_Status catsrc = cs_Status out) then pret None else perform (ce_do env) (CUpdateStatus out) in
      match syncError, updateErr with
      | Some err, _ => pfail err
      | None, Some err => pfail err
      | None, None => pret true
      end
  end.

(** ** Other handlers *)

Definition syncSourceState (key : SourceKey) (state : string) : P unit :=
  run! ctry (CSourcesUpdated (ce_now env)) in
  run! if bool_decide (state = "READY") then
         run! ctry (CInvalidate key) in
         run! if bool_decide (ce_operatorNamespace env = sk_Namespace key) then
                match ce_subscribers env key with inl _ => pret tt | inr namespaces => pfor namespaces (fun ns => ctry (CResolveNamespace ns)) end
              else pret tt in
         ctry (CResolveNamespace (sk_Namespace key))
       else pret tt in
  ctry (CRequeueSource (sk_Namespace key) (sk_Name key)).

Definition handleCatSrcDeletion (s : CatalogSource) : P unit := ctry (CRemoveSource (sourceKey s)).

(** Owners that are subscriptions are requeued as catalog sources, too. *)
Definition requeueOwners (o : Object) : P unit :=
  pfor (OwnerRefs o) (fun owner =>
    if bool_decide (RKind owner = "CatalogSource") then run! ctry (CRequeueSource (ONamespace o) (RName owner)) in ctry (CRequeueSource (ONamespace o) (RName owner))
    else if bool_decide (RKind owner = "Subscription") then run! ctry (CRequeueSource (ONamespace o) (RName owner)) in ctry (CRequeueSubscription (ONamespace o) (RName owner))
    else pret tt).
End sources.

(** ** Requeueing *)

Lemma jitter_bounds N period k :
  (0 < N -> 0 <= period -> 0 <= k < N ->
   let w := ((10 - 1) * N + 2 * k * 1) * period / (10 * N) in 9 * period <= 10 * w + 9 /\ 10 * w <= 11 * period)%Z.
Proof.
  intros HN Hp Hk w. assert (9 * N * period <= ((10 - 1) * N + 2 * k * 1) * period <= 11 * N * period)%Z as [Hlo Hhi] by nia.
  subst w. set (x := (((10 - 1) * N + 2 * k * 1) * period)%Z) in *. clearbody x.
  pose proof (Z.mul_div_le x (10 * N) ltac:(lia)) as Hle. pose proof (Z.mul_succ_div_gt x (10 * N) ltac:(lia)) as Hgt.
  set (q := (x / (10 * N))%Z) in *. clearbody q. split; nia.
Qed.

Lemma resyncWithJitter_run period k : (0 <= period <= maxInt64 / 2)%Z -> resyncWithJitter period 1 10 k = (((10 - 1) * 2 ^ 53 + 2 * k * 1) * period / (10 * 2 ^ 53))%Z.
Proof.
  intros [Hp Hq]. unfold resyncWithJitter. rewrite (proj2 (Z.ltb_ge period 0) Hp), (proj2 (Z.ltb_ge (maxInt64 / 2) period) Hq). reflexivity.
Qed.

Lemma resyncWithJitter_bounds period k :
  (0 <= period <= maxInt64 / 2)%Z -> (0 <= k < 2 ^ 53)%Z -> (9 * period <= 10 * resyncWithJitter period 1 10 k + 9 /\ 10 * resyncWithJitter period 1 10 k <= 11 * period)%Z.
Proof. intros Hp Hk. rewrite (resyncWithJitter_run _ _ Hp). apply (jitter_bounds (2 ^ 53) period k); [reflexivity|apply Hp|exact Hk]. Qed.

(** A polled catalog is looked at again soon enough: whatever was polled last, the sync is requeued within 16.5
    minutes, and when the polling interval is shorter than that, within the interval plus a tenth of it; and a poll that is
    overdue is requeued after the default of 15 minutes, not at once. *)
Theorem requeue_bounds (s : CatalogSource) (interval : Z) (now : Time) (k : Z) :
  (0 <= interval)%Z -> (0 <= k < 2 ^ 53)%Z ->
  let wait := resyncWithJitter (SyncRegistryUpdateInterval s interval now) 1 10 k in
  (0 <= wait)%Z /\ (10 * wait <= 11 * DefaultResyncPeriod)%Z /\ (interval <= DefaultResyncPeriod -> 10 * wait <= 11 * interval)%Z /\
  (DefaultResyncPeriod < interval -> default (cs_CreationTimestamp s) (cst_LatestImageRegistryPoll (cs_Status s)) + interval < now -> wait = DefaultResyncPeriod)%Z.
Proof.
  intros Hi Hk wait. unfold wait, SyncRegistryUpdateInterval. assert (0 < DefaultResyncPeriod < maxInt64 / 2)%Z as Hd by (split; reflexivity).
  destruct (Z.leb_spec interval DefaultResyncPeriod) as [Hl|Hl].
  - pose proof (resyncWithJitter_bounds interval k ltac:(lia) Hk). lia.
  - unfold defaultOr. cbv zeta. set (remaining := (_ + interval - now)%Z). destruct (Z.ltb_spec remaining DefaultResyncPeriod) as [Hr|Hr].
    + destruct (Z.ltb_spec remaining 0) as [Hn|Hn]; [|pose proof (resyncWithJitter_bounds remaining k ltac:(lia) Hk); lia].
      unfold resyncWithJitter. rewrite (proj2 (Z.ltb_lt _ _) Hn). lia.
    + pose proof (resyncWithJitter_bounds DefaultResyncPeriod k ltac:(lia) Hk). lia.
Qed.

(** ** What the status says *)

(** Nothing but the references of the status may differ. *)
Definition sameReport (s s' : CatalogSource) : Prop :=
  cs_obj s' = cs_obj s /\ cs_Spec s' = cs_Spec s /\ cst_Reason (cs_Status s') = cst_Reason (cs_Status s) /\ cst_Message (cs_Status s') = cst_Message (cs_Status s).
Lemma sameReport_refl s : sameReport s s.
Proof. done. Qed.
Lemma sameReport_trans s1 s2 s3 : sameReport s1 s2 -> sameReport s2 s3 -> sameReport s1 s3.
Proof. unfold sameReport. intuition congruence. Qed.
#[local] Hint Resolve sameReport_refl : core.

Section ensured.
Context `{RbacLib, RegistryLib} (env : RegEnv).

Lemma failingWith_report s m h h' s' o :
  (forall h h' s' o, m h = (h', inr (s', o)) -> sameReport s s') -> failingWith s m h = (h', inr (s', o)) -> sameReport s s'.
Proof. intros Hm. unfold failingWith, pbind, attempt, pret. specialize (Hm h). destruct (m h) as [h1 [err|[s1 o1]]]; cbn; intros [= <- <- <-]; [done|by eapply Hm]. Qed.

Lemma ensureUpdatePod_report c s sa config h h' s' o : ensureUpdatePod env c s sa config h = (h', inr (s', o)) -> sameReport s s'.
Proof.
  unfold ensureUpdatePod. destruct (Poll s); cbn [negb]; [|intros E; run_step E; by injection E as <- <-]. cbv zeta. destruct (Update s _) as [u|]; [|intros E; run_step E; by injection E as <- <-].
  destruct (u && _); intros E; run_step E; [run_step E; by injection E as <- <-|]. destruct x; [run_step E; by injection E as <- <-|]. run_step E. run_step E. by injection E as <- <-.
Qed.
Lemma grpcEnsure_report c s h h' s' o : grpcEnsureRegistryServer env c s h = (h', inr (s', o)) -> sameReport s s'.
Proof.
  apply failingWith_report. clear. intros h h' s' o E. cbv zeta in E. do 9 run_step E. destruct x7 as [s1 o1]. apply wrapping_ok, ensureUpdatePod_report in E8.
  destruct o1; [|run_step E; by injection E as <- <-..]. run_step E. run_step E. run_step E. injection E as <- <-. eapply sameReport_trans; [done|]. by destruct (_ || _).
Qed.
Lemma cmEnsureObjects_report c s labels image config o1 o2 h h' s' o : cmEnsureObjects env c s labels image config o1 o2 h = (h', inr (s', o)) -> sameReport s s'.
Proof. intros E. unfold cmEnsureObjects in E. repeat run_step E. injection E as <- <-. by destruct o2. Qed.
Lemma cmEnsure_report c s h h' s' o : cmEnsureRegistryServer env c s h = (h', inr (s', o)) -> sameReport s s'.
Proof.
  assert (forall s k h h' s' o, (forall l h h' s' o, k l h = (h', inr (s', o)) -> sameReport s s') -> withLabels s k h = (h', inr (s', o)) -> sameReport s s') as Hl.
  { clear. intros s k h h' s' o Hk. unfold withLabels. destruct (cmLabels s); [apply Hk|]. intros E. run_step E. by injection E as <- <-. }
  apply failingWith_report. clear h h' s' o. intros h h' s' o. cbv zeta. case_bool_decide; [done|]. intros E. run_step E. destruct (isConfigMapSource s).
  - run_step E. eapply sameReport_trans; [|eapply failingWith_report; [|exact E]]; [by destruct (ConfigMapChanges s x0)|]. intros g g' t' t. apply Hl. clear. intros l h h' s' o E. run_step E. by eapply cmEnsureObjects_report.
  - revert E. apply Hl. intros l g g' t' t. apply cmEnsureObjects_report.
Qed.

Lemma ensure_report f s r h h' s' o : ReconcilerForSource env f s = Some r -> EnsureRegistryServer r s h = (h', inr (s', o)) -> sameReport s s'.
Proof.
  unfold ReconcilerForSource. destruct (isConfigMapSource s); [intros [= <-]; apply cmEnsure_report|]. case_bool_decide; [|done]. case_bool_decide; cbn [negb]; [|intros [= <-]; apply grpcEnsure_report].
  case_bool_decide; [done|]. intros [= <-] E. cbn in E. by injection E as <- <- <-.
Qed.
End ensured.

Section status.
Context `{RbacLib, RegistryLib} (env : CatEnv).

(** What the chain may leave as the reason of the status. *)
Definition reported (s : CatalogSource) (err : option error) : Prop :=
  match err with
  | Some e => cst_Reason (cs_Status s) <> "" /\ cst_Message (cs_Status s) = Error_ e
  | None => cst_Reason (cs_Status s) = "" /\ cst_Message (cs_Status s) = "" \/
            exists poll, registryPoll s = Some poll /\ rp_ParsingError poll <> "" /\ cst_Reason (cs_Status s) = CatalogSourceIntervalInvalidError /\ cst_Message (cs_Status s) = rp_ParsingError poll
  end.
(** A function of the chain keeps the report true. *)
Definition reports (f : CatalogSource -> P CatCall SyncStep) : Prop :=
  forall s h h' out cont err, reported s None -> f s h = (h', inr (StepDone out cont err)) -> reported out err /\ cs_Spec out = cs_Spec s.

Lemma reported_same s s' : sameReport s s' -> reported s None -> reported s' None.
Proof. intros (_ & Hs & Hr & Hm). unfold reported, registryPoll. by rewrite Hs, Hr, Hm. Qed.
Lemma reported_failed s reason err : reason <> "" -> reported (SetError s reason (Some err)) (Some err).
Proof. done. Qed.

Lemma syncConfigMap_reports : reports (syncConfigMap env).
Proof.
  intros s h h' out cont err Hs E. unfold syncConfigMap in E. destruct (negb _); [run_step E; by injection E as <- <- <-|]. destruct (findConfigMap env s) as [e|[cm label]]; [run_step E; by injection E as <- <- <-|].
  destruct (EnsureOwner _ _) as [o wasOwned]. run_step E. destruct x as [e|cm']; [run_step E; by injection E as <- <- <-|]. destruct (cst_ConfigMapResource (cs_Status s)); [destruct (IsAMatch _ _ _)|]; run_step E; by injection E as <- <- <-.
Qed.
Lemma afterEnsure_reports cont0 : reports (fun s => afterEnsure env s cont0).
Proof.
  intros s h h' out cont err Hs E. unfold afterEnsure in E. destruct (registryPoll s) as [poll|] eqn:Ep; [|run_step E; run_step E; by injection E as <- <- <-].
  destruct (rp_Interval poll) as [i|]; [|run_step E; by injection E as <- <- <-]. run_step E. run_step E. injection E as <- <- <-.
  case_bool_decide as H1; cbn [negb andb]; [done|]. case_bool_decide as H2; cbn [negb]; [done|]. split; [|done]. right. by exists poll.
Qed.
Lemma syncRegistryServer_reports : reports (syncRegistryServer env).
Proof.
  intros s h h' out cont err Hs E. unfold syncRegistryServer in E. destruct (ReconcilerForSource _ _ s) as [r|] eqn:Er; [|run_step E; by injection E as <- <- <-].
  run_step E. destruct x as [e|[healthy|]]; [run_step E; by injection E as <- <- <-| |by run_step E]. destruct (healthy && _ && negb (Poll s)) in E; [run_step E; by injection E as <- <- <-|].
  unfold ensureServer in E. run_step E. destruct x as [s' o]. assert (sameReport s s') as Hsame.
  { unfold liftReg in E1. destruct (EnsureRegistryServer r s (regCalls h0)) as [g r0] eqn:Ee. injection E1 as _ ->. by eapply ensure_report. }
  pose proof (proj1 (proj2 Hsame)) as Hspec. rewrite <- Hspec. destruct o; [eapply afterEnsure_reports; [|exact E]; by apply (reported_same s)| | |by run_step E].
  - run_step E. run_step E. injection E as <- <- <-. split; [|done]. by apply (reported_same s).
  - run_step E. by injection E as <- <- <-.
Qed.
Lemma syncConnection_reports : reports (syncConnection env).
Proof.
  intros s h h' out cont err Hs E. unfold syncConnection in E. destruct (Address s); [|by run_step E]. assert (forall s m, sameReport s (refreshConnection env s m)) as Hr.
  { clear. intros s m. unfold refreshConnection. destruct (cst_GRPCConnectionState (cs_Status s)) as [g|] eqn:Eg; cbn; [rewrite Eg|]; by destruct (_ <? _)%Z. }
  assert (forall s s', reported s None -> sameReport s s' -> reported s' None /\ cs_Spec s' = cs_Spec s) as Hk by (intros t t' Ht Hst; split; [by eapply reported_same|apply Hst]).
  destruct (ce_meta env h (sourceKey s)) as [m|]; [case_bool_decide; [run_step E; injection E as <- <- <-; by apply Hk|]|]; run_step E; destruct x as [e|m']; run_step E; injection E as <- <- <-; try done; apply Hk; try done.
  exact (sameReport_trans _ (setConnection s (Some (connState m'))) _ ltac:(done) (Hr _ _)).
Qed.

Lemma runChain_reports chain : (forall f, f ∈ chain -> reports f) -> reports (fun s => runChain s chain).
Proof.
  induction chain as [|f chain IH]; intros Hf s h h' out cont err Hs E; cbn [runChain] in E; [run_step E; by injection E as <- <- <-|].
  run_step E. destruct x as [s1 c e|]; [|by run_step E]. destruct (Hf f ltac:(by left) _ _ _ _ _ _ Hs E0) as [Hr1 Hsp]. destruct c, e as [e|]; try (run_step E; by injection E as <- <- <-).
  destruct chain as [|g chain]; [run_step E; by injection E as <- <- <-|]. destruct (IH ltac:(intros x Hx; apply Hf; by right) s1 h0 h' out cont err Hr1 E) as [? ?]. split; [done|congruence].
Qed.

(** The chain ends in a result, whatever fails, and leaves writing the status to the end of the sync. *)
Definition quiet (c : CatCall) : Prop := match c with CUpdateStatus _ => False | _ => True end.
Definition orderly (f : CatalogSource -> P CatCall SyncStep) : Prop := forall s, steady (f s) /\ makes_only quiet (f s).

Lemma failingWith_steady s m h : exists h' x, failingWith s m h = (h', inr x).
Proof. unfold failingWith, pbind, attempt, pret. destruct (m h) as [h' [err|r]]; by eexists _, _. Qed.
Lemma ensure_steady f s r h : ReconcilerForSource (ce_reg env) f s = Some r -> exists h' x, EnsureRegistryServer r s h = (h', inr x).
Proof.
  unfold ReconcilerForSource. destruct (isConfigMapSource s); [intros [= <-]; apply failingWith_steady|]. case_bool_decide; [|done]. case_bool_decide; cbn [negb]; [|intros [= <-]; apply failingWith_steady].
  case_bool_decide; [done|]. intros [= <-]. by eexists _, _.
Qed.
Lemma liftReg_steady {A} (m : ClusterCalls.P RegCall A) : (forall h, exists h' x, m h = (h', inr x)) -> steady (liftReg m).
Proof. intros Hm h. unfold liftReg. destruct (Hm (regCalls h)) as (h' & x & ->). by eexists _, _. Qed.
Lemma liftReg_attempt_steady {A} (m : ClusterCalls.P RegCall A) : steady (attempt (liftReg m)).
Proof. intros h. unfold attempt, liftReg. destruct (m (regCalls h)) as [h' r]. by eexists _, _. Qed.
Lemma liftReg_quiet {A} (m : ClusterCalls.P RegCall A) : makes_only quiet (liftReg m).
Proof. intros h. unfold liftReg. destruct (m (regCalls h)) as [h' r]. eexists. split; [reflexivity|]. apply Forall_fmap, Forall_true. done. Qed.
#[local] Hint Resolve liftReg_attempt_steady liftReg_quiet : calls.

Lemma validateSourceType_orderly : orderly validateSourceType.
Proof. intros s. unfold validateSourceType. split; [steady|calls]. Qed.
Lemma syncConfigMap_orderly : orderly (syncConfigMap env).
Proof. intros s. unfold syncConfigMap. split; [steady|calls; done]. Qed.
Lemma afterEnsure_orderly cont : orderly (fun s => afterEnsure env s cont).
Proof. intros s. unfold afterEnsure, ctry. split; [steady|calls; done]. Qed.
Lemma syncRegistryServer_orderly : orderly (syncRegistryServer env).
Proof.
  intros s. unfold syncRegistryServer, ensureServer. destruct (ReconcilerForSource _ _ s) as [r|] eqn:Er; [|split; [steady|calls]]. split.
  - steady; [apply liftReg_steady; intros h; by eapply ensure_steady|apply afterEnsure_orderly].
  - calls; [apply afterEnsure_orderly|done].
Qed.
Lemma syncConnection_orderly : orderly (syncConnection env).
Proof.
  intros s. unfold syncConnection, connect. destruct (Address s) as [a|]; [|split; [steady|calls]].
  split; [apply (steady_history (fun g => match ce_meta env g (sourceKey s) with None => _ | Some source => _ end)); intros g; steady|].
  apply (makes_history _ (fun g => match ce_meta env g (sourceKey s) with None => _ | Some source => _ end)). intros g. calls; done.
Qed.
Lemma runChain_orderly chain : (forall f, f ∈ chain -> orderly f) -> orderly (fun s => runChain s chain).
Proof.
  induction chain as [|f chain IH]; intros Hf s; cbn [runChain]; [split; [steady|calls]|]. assert (orderly (fun s => runChain s chain)) as Hc by (apply IH; intros g Hg; apply Hf; by right).
  split; [apply steady_bind; [apply Hf; by left|]|apply makes_bind; [apply Hf; by left|]]; intros [out [] [e|]|]; try apply steady_ret; try apply makes_ret; destruct chain; try apply steady_ret; try apply makes_ret; apply Hc.
Qed.

(** The result of the chain, and the calls it made. *)
Lemma chain_run s :
  exists pre r, runChain (SetError s "" None) (syncChain env) [] = (pre, inr r) /\ Forall quiet pre.
Proof.
  assert (orderly (fun s => runChain s (syncChain env))) as Ho.
  { apply runChain_orderly. unfold syncChain. intros f Hf. rewrite !elem_of_cons, elem_of_nil in Hf. destruct Hf as [->|[->|[->|[->|[]]]]];
      [apply validateSourceType_orderly|apply syncConfigMap_orderly|apply syncRegistryServer_orderly|apply syncConnection_orderly]. }
  destruct (Ho (SetError s "" None)) as [Hs Hm]. destruct (Hs []) as (new & r & E). destruct (Hm []) as (new' & E' & F). rewrite E in E'. cbn in E'. subst new'. by exists new, r.
Qed.

(** A spec that is invalid ends the chain at once; else its first function changes nothing, because the reason was
    cleared before. *)
Lemma chain_validates s :
  let s0 := SetError s "" None in
  match sourceTypeError s with
  | Some err => runChain s0 (syncChain env) [] = ([], inr (StepDone (SetError s0 CatalogSourceSpecInvalidError (Some err)) false None))
  | None => runChain s0 (syncChain env) [] = runChain s0 [syncConfigMap env; syncRegistryServer env; syncConnection env] []
  end.
Proof.
  intros s0. unfold syncChain. cbn [runChain]. unfold validateSourceType at 1 2. change (sourceTypeError s0) with (sourceTypeError s).
  destruct (sourceTypeError s) as [err|]; rewrite (pbind_run _ _ _ [] _ eq_refl); [done|]. by rewrite bool_decide_eq_false_2.
Qed.

(** How the sync ends, given what the chain said and what the API server answered to the update. *)
Definition syncResult (err updateErr : option error) : error + bool :=
  match err, updateErr with Some e, _ => inl e | None, Some e => inl e | None, None => inr true end.

(** C22: the status of a catalog source says why a sync failed, and nothing that is not so.  A sync dereferences nil, or it
    ends with a status whose reason is set when the sync failed and whose message is then the error; without an error the
    status has no reason, but for an interval that could not be parsed and an invalid spec, which is no error of the sync.
    The status is written at the end, once, exactly when it changed, and the error of the sync is reported before one of
    the update. *)
Theorem catalog_status_honest s h r :
  syncCatalogSources env s [] = (h, r) ->
  Forall quiet h /\ r = inr false \/
  exists out err pre, cs_Spec out = cs_Spec s /\ Forall quiet pre /\
    match sourceTypeError s with
    | Some e => pre = [] /\ err = None /\ cst_Reason (cs_Status out) = CatalogSourceSpecInvalidError /\ cst_Message (cs_Status out) = Error_ e
    | None => reported out err
    end /\
    (cs_Status out = cs_Status s /\ h = pre /\ r = syncResult err None \/
     cs_Status out <> cs_Status s /\ h = pre ++ [CUpdateStatus out] /\ r = syncResult err (ce_do env pre (CUpdateStatus out))).
Proof.
  intros E. unfold syncCatalogSources in E. destruct (chain_run s) as (pre & x & Ec & Hq). rewrite (pbind_run _ _ _ _ _ Ec) in E. destruct x as [out cont err|]; [right|by injection E as <- <-; left].
  exists out, err, pre. pose proof (chain_validates s) as Hv. cbv zeta in Hv.
  assert (cs_Spec out = cs_Spec s /\ match sourceTypeError s with
    | Some e => pre = [] /\ err = None /\ cst_Reason (cs_Status out) = CatalogSourceSpecInvalidError /\ cst_Message (cs_Status out) = Error_ e
    | None => reported out err end) as [Hspec Hrep].
  { destruct (sourceTypeError s) as [e|]; rewrite Hv in Ec; [by injection Ec as <- <- <- <-|]. apply and_comm.
    refine (runChain_reports [syncConfigMap env; syncRegistryServer env; syncConnection env] _ (SetError s "" None) [] pre out cont err (or_introl (conj eq_refl eq_refl)) Ec).
    intros f Hf. rewrite !elem_of_cons, elem_of_nil in Hf. destruct Hf as [->|[->|[->|[]]]]; [apply syncConfigMap_reports|apply syncRegistryServer_reports|apply syncConnection_reports]. }
  split_and!; try done. case_bool_decide as Hst.
  - left. rewrite (pbind_run _ _ _ _ _ eq_refl) in E. by destruct err; injection E as <- <-.
  - right. rewrite (pbind_run _ _ _ _ _ eq_refl) in E. split; [congruence|]. destruct err as [e|]; [by injection E as <- <-|]. cbn [syncResult]. by destruct (ce_do env pre _); injection E as <- <-.
Qed.
End status.

(** ** A new catalog becomes connected *)

(** The last calls after the server of a catalog was ensured: the next look of a catalog that is polled is scheduled; else
    the connection is dropped. *)
Definition nextLook (env : CatEnv) (s : CatalogSource) : list CatCall :=
  match registryPoll s with
  | Some poll => [CRequeueAfter (cs_Namespace s) (cs_Name s) (resyncWithJitter (SyncRegistryUpdateInterval s (default 0%Z (rp_Interval poll)) (ce_now env)) 1 10 (ce_random env))]
  | None => [CRemoveSource (sourceKey s)]
  end.
Definition validPolling (s : CatalogSource) : Prop := forall poll, registryPoll s = Some poll -> is_Some (rp_Interval poll) /\ rp_ParsingError poll = "".
Lemma afterEnsure_run env s cont h : validPolling s -> afterEnsure env s cont h = (h ++ nextLook env s, inr (StepDone s cont None)).
Proof.
  intros Hv. unfold afterEnsure, nextLook. destruct (registryPoll s) as [poll|] eqn:Ep; [|done]. destruct (Hv _ Ep) as [[interval ->] ->]. done.
Qed.

(** A catalog in an image, not looked at yet and whose service account is yet to be created; when it is polled, its
    polling interval is valid and the first poll is not due yet. *)
Record newImageSource (env : CatEnv) (s : CatalogSource) : Prop := {
  ni_type : css_SourceType (cs_Spec s) = SourceTypeGrpc;
  ni_image : css_Image (cs_Spec s) <> "";
  ni_address : css_Address (cs_Spec s) = "";
  ni_poll : validPolling s;
  ni_quiet : noUpdateDue (ce_reg env) s;
  ni_service : cst_RegistryServiceStatus (cs_Status s) = None;
  ni_connection : cst_GRPCConnectionState (cs_Status s) = None;
  ni_account : exists e, re_getServiceAccount (ce_reg env) [] (cs_Namespace s) (cs_Name s) = inl e /\ IsNotFound (Some e) = true;
}.

Section connects.
Context `{RbacLib, RegistryLib} (env env' : CatEnv) (s : CatalogSource).
Context (Hnew : newImageSource env s).
Let s0 : CatalogSource := SetError s "" None.
Let c : GrpcRegistryReconciler := mkGrpc (rf_createPodAsUser (ce_factory env)) (rf_opmImage (ce_factory env)) (rf_utilImage (ce_factory env)).

Lemma new_valid : isConfigMapSource s = false /\ sourceTypeError s = None.
Proof using Hnew.
  destruct Hnew as [Ht Hi Ha _ _ _ _ _]. assert (isConfigMapSource s = false) as Hc by (unfold isConfigMapSource; by rewrite Ht). split; [done|]. unfold sourceTypeError. rewrite Hc, Ht.
  by rewrite (bool_decide_eq_false_2 (css_Image _ = "")).
Qed.
Lemma new_reconciler renv f st : ReconcilerForSource renv f (cs_setStatus s st) = Some (grpcReconciler renv (mkGrpc (rf_createPodAsUser f) (rf_opmImage f) (rf_utilImage f))).
Proof using Hnew.
  destruct new_valid as [Hc _]. unfold ReconcilerForSource. change (isConfigMapSource (cs_setStatus s st)) with (isConfigMapSource s). change (cs_Spec (cs_setStatus s st)) with (cs_Spec s). rewrite Hc, (ni_type _ _ Hnew).
  by rewrite (bool_decide_eq_false_2 (css_Image _ = "")) by apply Hnew.
Qed.

(** The chain up to the server of the catalog. *)
Lemma new_chain (e : CatEnv) st :
  let s1 := cs_setStatus s st in SetError s1 "" None = s1 ->
  runChain s1 (syncChain e) [] = runChain s1 [syncRegistryServer e; syncConnection e] [].
Proof using Hnew.
  intros s1 Hs1. destruct new_valid as (Hc & Hv). pose proof (chain_validates e s1) as Hx. change (sourceTypeError s1) with (sourceTypeError s) in Hx. rewrite Hv in Hx. cbv zeta in Hx. rewrite Hs1 in Hx. rewrite Hx.
  cbn [runChain]. unfold syncConfigMap at 1. change (isConfigMapSource s1) with (isConfigMapSource s). rewrite Hc. cbn [negb]. by rewrite (pbind_run _ _ _ [] _ eq_refl).
Qed.

Lemma failingWith_value s1 m (h h' : list RegCall) s2 o : (forall err, o <> EnsureFailed err) -> failingWith s1 m h = (h', inr (s2, o)) -> m h = (h', inr (s2, o)).
Proof. intros Ho. unfold failingWith, pbind, attempt, pret. destruct (m h) as [g [err|r]]; cbn; [|by intros [= -> ->]]. intros [= <- <- <-]. by destruct (Ho err). Qed.
Lemma quiet_ready (renv : RegEnv) s1 h h' s2 n p : noUpdateDue renv s1 -> grpcEnsureRegistryServer renv c s1 h <> (h', inr (s2, UpdateNotReady n p)).
Proof.
  intros Hp E. unfold grpcEnsureRegistryServer in E. apply failingWith_value in E; [|done]. cbv zeta in E. do 9 run_step E. apply wrapping_ok in E8. rewrite (ensureUpdate_notDue _ _ _ _ _ _ Hp) in E8.
  injection E8 as <- <-. by repeat run_step E.
Qed.

Lemma new_check : grpcCheckRegistryServer (ce_reg env) c s0 [] = ([], inr (Some false)).
Proof using Hnew.
  destruct (ni_account _ _ Hnew) as (e & He & Hnf). unfold grpcCheckRegistryServer. cbv zeta. change (ONamespace (sac_obj (grpcServiceAccount s0))) with (cs_Namespace s).
  change (OName (sac_obj (grpcServiceAccount s0))) with (cs_Name s). by rewrite He, Hnf.
Qed.

(** The first sync, when it succeeds: the server was ensured. *)
Lemma first_ensure r0 pre :
  runChain s0 (syncChain env) [] = (pre, inr r0) -> (forall out cont e, r0 <> StepDone out cont (Some e)) -> r0 <> StepPanicked ->
  exists g s1, grpcEnsureRegistryServer (ce_reg env) c s0 [] = (g, inr (s1, Ensured)) /\ pre = (CReg <$> g) ++ nextLook env s1 /\ r0 = StepDone s1 false None.
Proof using Hnew.
  intros Er Hne Hnp. unfold s0, SetError in Er. rewrite (new_chain env) in Er by done. change (cs_setStatus s _) with s0 in Er. cbn [runChain] in Er. run_step Er. unfold syncRegistryServer in E. pose proof (new_reconciler (ce_reg env) (ce_factory env) (cs_Status s0)) as Hr. change (cs_setStatus s (cs_Status s0)) with s0 in Hr. rewrite Hr in E.
  rewrite (pbind_run _ _ _ [] (inr (Some false))) in E by (unfold attempt, liftReg; cbn [regCalls omap list_omap CheckRegistryServer grpcReconciler]; fold c; by rewrite new_check). cbn [andb] in E.
  unfold ensureServer in E. run_step E. unfold liftReg in E0. cbn [regCalls omap list_omap EnsureRegistryServer grpcReconciler] in E0. fold c s0 in E0. destruct (grpcEnsureRegistryServer (ce_reg env) c s0 []) as [g res] eqn:Eg. injection E0 as <- ->.
  destruct x0 as [s1 o]. pose proof (grpcEnsure_report _ _ _ _ _ _ _ Eg) as (_ & Hspec & _). destruct o.
  - exists g, s1. rewrite (afterEnsure_run env) in E by (unfold validPolling, registryPoll; rewrite Hspec; apply Hnew). injection E as <- <-. cbn in Er. run_step Er. subst r0. done.
  - by destruct (quiet_ready _ s0 _ _ _ _ _ (ni_quiet _ _ Hnew) Eg).
  - run_step E. subst x. cbn [failed] in Er. run_step Er. subst r0. by destruct (Hne _ _ _ eq_refl).
  - run_step E. subst x. run_step Er. by subst r0.
Qed.

(** A catalog that is polled is looked at again on every sync. *)
Definition lookAgain : list CatCall := if Poll s then CReg (RCreateSA (grpcServiceAccount s)) :: nextLook env' s else [].

(** The step of the server in a later sync. *)
Lemma second_server st svc :
  let s1 := cs_setStatus s st in
  cst_RegistryServiceStatus st = Some svc -> cst_LatestImageRegistryPoll st = cst_LatestImageRegistryPoll (cs_Status s) -> ce_factory env' = ce_factory env ->
  grpcCheckRegistryServer (ce_reg env') c s1 [] = ([], inr (Some true)) ->
  grpcEnsureRegistryServer (ce_reg env') c s1 [] = ([RCreateSA (grpcServiceAccount s)], inr (s1, Ensured)) ->
  syncRegistryServer env' s1 [] = (lookAgain, inr (StepDone s1 true None)).
Proof using Hnew.
  intros s1 Hsvc Hlatest Hf Hcheck Hensure. unfold syncRegistryServer. pose proof (new_reconciler (ce_reg env') (ce_factory env') st) as Hr. fold s1 in Hr. rewrite Hr, Hf. fold c.
  rewrite (pbind_run _ _ _ [] (inr (Some true))) by (unfold attempt, liftReg; cbn [regCalls omap list_omap CheckRegistryServer grpcReconciler]; by rewrite Hcheck).
  change (cst_RegistryServiceStatus (cs_Status s1)) with (cst_RegistryServiceStatus st). rewrite Hsvc, bool_decide_eq_true_2 by done. change (Poll s1) with (Poll s). unfold lookAgain.
  destruct (Poll s); cbn [andb negb]; [|done]. unfold ensureServer.
  rewrite (pbind_run _ _ _ [CReg (RCreateSA (grpcServiceAccount s))] (s1, Ensured)) by (unfold liftReg; cbn [regCalls omap list_omap EnsureRegistryServer grpcReconciler]; by rewrite Hensure).
  rewrite (afterEnsure_run env') by apply (ni_poll _ _ Hnew). assert (nextLook env' s1 = nextLook env' s) as ->; [|done].
  unfold nextLook, SyncRegistryUpdateInterval, defaultOr. change (registryPoll s1) with (registryPoll s). change (cs_Status s1) with st. by rewrite Hlatest.
Qed.

(** A sync of a catalog that was written with a healthy server and no connection. *)
Lemma second_sync st svc m :
  let s1 := cs_setStatus s st in
  SetError s1 "" None = s1 -> cst_RegistryServiceStatus st = Some svc -> cst_LatestImageRegistryPoll st = cst_LatestImageRegistryPoll (cs_Status s) -> cst_GRPCConnectionState st = None ->
  ce_factory env' = ce_factory env -> grpcCheckRegistryServer (ce_reg env') c s1 [] = ([], inr (Some true)) ->
  grpcEnsureRegistryServer (ce_reg env') c s1 [] = ([RCreateSA (grpcServiceAccount s)], inr (s1, Ensured)) ->
  (forall h, ce_meta env' h (sourceKey s) = None) -> (forall h, ce_add env' h (CAddSource (sourceKey s) (serviceAddress svc)) = inr (Some m)) ->
  let s2 := setConnection s1 (Some (connState m)) in
  (forall h, ce_do env' h (CUpdateStatus s2) = None) ->
  syncCatalogSources env' s1 [] = (lookAgain ++ [CAddSource (sourceKey s) (serviceAddress svc); CUpdateStatus s2], inr true).
Proof using Hnew.
  intros s1 Hs1 Hsvc Hlatest Hconn Hf Hcheck Hensure Hmeta Hadd s2 Hdo. unfold syncCatalogSources. rewrite Hs1. pose proof (new_chain env' st Hs1) as Hch. fold s1 in Hch.
  rewrite (pbind_run _ _ _ (lookAgain ++ [CAddSource (sourceKey s) (serviceAddress svc)]) (StepDone s2 false None)).
  - assert (cs_Status s1 <> cs_Status s2) as Hne by (intros E; apply (f_equal cst_GRPCConnectionState) in E; cbn in E; congruence). rewrite (bool_decide_eq_false_2 _ Hne).
    rewrite (pbind_run _ _ _ (lookAgain ++ [CAddSource (sourceKey s) (serviceAddress svc); CUpdateStatus s2]) None) by (unfold perform; rewrite Hdo, <- app_assoc; done). done.
  - rewrite Hch. cbn [runChain]. rewrite (pbind_run _ _ _ _ _ (second_server st svc Hsvc Hlatest Hf Hcheck Hensure)). fold s1.
    unfold syncConnection. assert (Address s1 = Some (serviceAddress svc)) as -> by (unfold Address; change (cs_Spec s1) with (cs_Spec s); rewrite (ni_address _ _ Hnew); cbn; by rewrite Hsvc).
    unfold pbind at 1. change (sourceKey s1) with (sourceKey s). rewrite Hmeta. unfold connect, perform, pbind at 1 2, pret. change (sourceKey s1) with (sourceKey s). rewrite Hadd. done.
Qed.
End connects.

(** The address at which the service of a catalog is reached. *)
Definition catalogAddress (s : CatalogSource) : string := dotsToDashes (cs_Name s) +:+ "." +:+ cs_Namespace s +:+ ".svc:50051".

Lemma service_address `{RbacLib, RegistryLib} renv s svc : grpcService s = inr svc -> serviceAddress (registryServiceStatus renv s svc) = catalogAddress s.
Proof.
  intros Hs. assert (svc_Port svc = 50051%Z) as Hp by (unfold grpcService, serviceOf in Hs; destruct (DeepHashObject _); [done|]; by injection Hs as <-).
  destruct (serviceOf_meta _ _ _ _ Hs) as (Hn & _). unfold serviceAddress, registryServiceStatus, catalogAddress, getPort. cbn [rss_ServiceName rss_ServiceNamespace rss_Port]. by rewrite Hn, Hp.
Qed.

(** C20: a new catalog becomes connected in two syncs.  When the first sync of a catalog in an image succeeded, it created
    the pod and the service and wrote the status; and the next sync of what was written, in which the caches show what
    was created and the connection can be opened, connects to the address of the service and writes the connection to the
    status.  It does nothing else, except for a catalog that is polled: of this one it ensures the server, which changes
    nothing but to ask for the service account that is there, and schedules the next look.  A catalog that is polled has a
    valid interval, and no poll is due at either sync. *)
Theorem catalog_source_connects `{RbacLib, RegistryLib} (env env' : CatEnv) (s : CatalogSource) (h : list CatCall) (m : SourceMeta) :
  newImageSource env s -> syncCatalogSources env s [] = (h, inr true) ->
  shows_created (ce_reg env) (ce_reg env') s (regCalls h) -> noUpdateDue (ce_reg env') s -> ce_factory env' = ce_factory env ->
  (forall h, ce_meta env' h (sourceKey s) = None) -> (forall h, ce_add env' h (CAddSource (sourceKey s) (catalogAddress s)) = inr (Some m)) ->
  (forall h s2, ce_do env' h (CUpdateStatus s2) = None) ->
  exists s1 pre pod svc, h = pre ++ [CUpdateStatus s1] /\ CReg (RCreatePod pod) ∈ pre /\ CReg (RCreateService svc) ∈ pre /\
    let s2 := setConnection s1 (Some (connState m)) in
    syncCatalogSources env' s1 [] =
      ((if Poll s then CReg (RCreateSA (grpcServiceAccount s)) :: nextLook env' s else []) ++ [CAddSource (sourceKey s) (catalogAddress s); CUpdateStatus s2], inr true).
Proof.
  intros Hnew E Hsh Hquiet Hf Hmeta Hadd Hdo. set (s0 := SetError s "" None). unfold syncCatalogSources in E. run_step E.
  assert (exists g s1, grpcEnsureRegistryServer (ce_reg env) (mkGrpc (rf_createPodAsUser (ce_factory env)) (rf_opmImage (ce_factory env)) (rf_utilImage (ce_factory env))) s0 [] = (g, inr (s1, Ensured)) /\
            h0 = (CReg <$> g) ++ nextLook env s1 /\ x = StepDone s1 false None) as (g & s1 & Eg & -> & ->).
  { apply (first_ensure env s Hnew x h0 E0); destruct x as [out cont [e|]|]; try done. by run_step E. }
  destruct (grpcEnsure_creates _ _ s0 g s1 (ni_quiet _ _ Hnew) (ni_service _ _ Hnew) Eg) as (sa & config & pod & svc & Hsa & Hc & Hpod & Hsvc & Hin & Hsin & ->).
  set (s1 := setRegistryService s0 _) in *. assert (cs_Status s <> cs_Status s1) as Hne by (intros X; apply (f_equal cst_RegistryServiceStatus) in X; rewrite (ni_service _ _ Hnew) in X; done).
  rewrite (bool_decide_eq_false_2 _ Hne) in E. run_step E. injection E1 as <- <-.
  set (pre := (CReg <$> g) ++ nextLook env s1) in *. assert (h = pre ++ [CUpdateStatus s1]) as -> by (by destruct (ce_do env _ _); injection E as <-).
  assert (forall r, r ∈ g -> CReg r ∈ pre) as Hpre by (intros r Hr; apply elem_of_app; left; by apply list_elem_of_fmap_2).
  exists s1, pre, pod, svc. split_and!; [done|by apply Hpre|by apply Hpre|]. assert (serviceAddress (registryServiceStatus (ce_reg env) s0 svc) = catalogAddress s) as Ha by exact (service_address (ce_reg env) s0 svc Hsvc).
  rewrite <- Ha in *. assert (forall r, r ∈ g -> r ∈ regCalls (pre ++ [CUpdateStatus s1])) as Hreg.
  { intros r Hr. apply list_elem_of_omap. exists (CReg r). split; [|done]. apply elem_of_app. left. by apply Hpre. }
  assert (shows_created (ce_reg env) (ce_reg env') s0 (regCalls (pre ++ [CUpdateStatus s1]))) as Hsh0 by (destruct Hsh; by constructor).
  apply (second_sync env env' s Hnew (cs_Status s1) (registryServiceStatus (ce_reg env) s0 svc) m); try done; [apply Hnew| |].
  - exact (settled_check (ce_reg env) (ce_reg env') _ s0 _ sa config pod svc Hsa Hc Hpod Hsvc (Hreg _ Hin) (Hreg _ Hsin) Hsh0).
  - exact (settled_ensure (ce_reg env) (ce_reg env') _ s0 _ sa config pod svc Hsa Hc Hpod Hsvc (Hreg _ Hin) (Hreg _ Hsin) Hsh0 Hquiet).
Qed.

(** ** Examples *)

Lemma requeue_bounds_witness : (10 * resyncWithJitter (SyncRegistryUpdateInterval ServersDemo.polled (10 * minute) 0) 1 10 (2 ^ 52) <= 11 * (10 * minute))%Z.
Proof.
  destruct (requeue_bounds ServersDemo.polled (10 * minute)%Z 0%Z (2 ^ 52)%Z) as (_ & _ & Hb & _); [by vm_compute|by vm_compute|]. apply Hb. by vm_compute.
Defined.

Module SourcesDemo.
#[local] Existing Instances canonical_order RbacDemo.lib PodsDemo.regLib.
Import ServersDemo.

Definition m : SourceMeta := mkSourceMeta (catalogAddress new) 100%Z "IDLE".
Definition sync (reg : RegEnv) : CatEnv :=
  mkCatEnv reg (mkFactory "configmap-server" 1001 "opm" "util") 100%Z (fun _ _ => notFound) (fun _ _ => notFound) (fun _ _ => notFound) (fun _ _ => None) (fun _ _ => inr (Some m)) 0%Z 0%Z "olm" (fun _ => inr []) (fun _ _ => None).

(** The catalog is polled every ten minutes, and no poll is due in the two syncs. *)
Definition newPolled : CatalogSource := PodsDemo.source SourceTypeGrpc "" "quay.io/catalog:v1" (Some (Some (mkPoll "10m" (Some (10 * minute)%Z) ""))) None.
Lemma catalog_source_connects_witness :
  let run := syncCatalogSources (sync empty) newPolled [] in
  Poll newPolled = true /\ run.2 = inr true /\ exists s1 s2 delay, syncCatalogSources (sync later) s1 [] =
    ([CReg (RCreateSA (grpcServiceAccount newPolled)); CRequeueAfter "olm" "operatorhub.io" delay; CAddSource (sourceKey newPolled) "operatorhub-io.olm.svc:50051"; CUpdateStatus s2], inr true).
Proof.
  intros run. split; [reflexivity|]. assert (run.2 = inr true) as Hr by (vm_compute; reflexivity). split; [exact Hr|].
  assert (newImageSource (sync empty) newPolled) as Hn.
  { split; try reflexivity; [discriminate|intros p [= <-]; split; [by eexists|reflexivity]|right; split; vm_compute; reflexivity|eexists; split; reflexivity]. }
  assert (shows_created empty later newPolled (regCalls run.1)) as Hs by (apply later_shows; [vm_compute; reflexivity|vm_compute; reflexivity|reflexivity|reflexivity]).
  destruct (catalog_source_connects (sync empty) (sync later) newPolled run.1 m Hn ltac:(rewrite <- Hr; apply surjective_pairing) Hs ltac:(right; split; vm_compute; reflexivity) eq_refl (fun _ => eq_refl) (fun _ => eq_refl) (fun _ _ => eq_refl)) as (s1 & pre & pod & svc & _ & _ & _ & E).
  eexists s1, _, _. exact E.
Defined.

(** A catalog without an image. *)
Lemma catalog_status_honest_witness :
  exists out, syncCatalogSources (sync empty) (PodsDemo.source SourceTypeGrpc "" "" None None) [] = ([CUpdateStatus out], inr true) /\ cst_Reason (cs_Status out) = CatalogSourceSpecInvalidError.
Proof.
  set (s := PodsDemo.source SourceTypeGrpc "" "" None None).
  destruct (catalog_status_honest (sync empty) s _ _ (surjective_pairing _)) as [[_ X]|(out & err & pre & _ & _ & (-> & -> & Hreason & _) & [(X & _)|(_ & Hh & Hres)])]; [discriminate X| |].
  - rewrite X in Hreason. discriminate Hreason.
  - exists out. split; [|exact Hreason]. cbn [app] in Hh. rewrite <- Hh. etrans; [apply surjective_pairing|]. f_equal.
Defined.
End SourcesDemo.
