(* ===== verification/Overrides.v ===== *)
(** * What a subscription overrides in the deployments of its operator

    Models [controller/operators/olm/overrides] ([config.go], [initializer.go], [inject/inject.go]) and the proxy
    variables of [lib/proxy] ([envvar.go], [overridden.go]).  The deployment is edited in place in the source; here each
    function returns the edited value. *)

From S2P Require Import Prelude GoStrings OwnerUtil CsvTypes.

(** ** Deployments *)

Record DeploymentCondition := mkDepCondition { dc_Type : string; dc_Status : string; dc_Reason : string; dc_Message : string }.
Record Deployment := mkDeployment {
  dp_obj : Object; dp_Annotations : option (gmap string string); dp_Spec : DeploymentSpec;
  dp_Generation : Z; dp_ObservedGeneration : Z; dp_Replicas : Z; dp_UpdatedReplicas : Z; dp_Conditions : list DeploymentCondition
}.
Definition dp_Name (d : Deployment) : string := OName (dp_obj d).
Definition setSpec (d : Deployment) (s : DeploymentSpec) : Deployment :=
  mkDeployment (dp_obj d) (dp_Annotations d) s (dp_Generation d) (dp_ObservedGeneration d) (dp_Replicas d) (dp_UpdatedReplicas d) (dp_Conditions d).
Definition setContainers (s : DeploymentSpec) (cs : list Container) : DeploymentSpec :=
  mkDeploymentSpec (sp_Annotations s) (sp_ServiceAccountName s) (sp_Volumes s) cs (sp_Tolerations s) (sp_NodeSelector s) (sp_Affinity s) (sp_MatchLabels s) (sp_RevisionHistoryLimit s) (sp_rest s).
Definition setVolumes (s : DeploymentSpec) (vs : list Volume) : DeploymentSpec :=
  mkDeploymentSpec (sp_Annotations s) (sp_ServiceAccountName s) vs (sp_Containers s) (sp_Tolerations s) (sp_NodeSelector s) (sp_Affinity s) (sp_MatchLabels s) (sp_RevisionHistoryLimit s) (sp_rest s).
Definition setTemplateAnnotations (s : DeploymentSpec) (a : option (gmap string string)) : DeploymentSpec :=
  mkDeploymentSpec a (sp_ServiceAccountName s) (sp_Volumes s) (sp_Containers s) (sp_Tolerations s) (sp_NodeSelector s) (sp_Affinity s) (sp_MatchLabels s) (sp_RevisionHistoryLimit s) (sp_rest s).

(** ** inject.go *)

Definition zeroEnvVar : EnvVar := mkEnvVar "" "" None.
Definition envMap (vars : list EnvVar) (m : gmap string EnvVar) : gmap string EnvVar := foldl (fun m e => <[ev_Name e := e]> m) m vars.
(** The first loop over the merged map: each name is taken out of the map once, and read as the zero value after. *)
Fixpoint takeEnv (m : gmap string EnvVar) (vars : list EnvVar) : list EnvVar * gmap string EnvVar :=
  match vars with
  | [] => ([], m)
  | e :: vars => let '(out, rest) := takeEnv (delete (ev_Name e) m) vars in (default zeroEnvVar (m !! ev_Name e) :: out, rest)
  end.
Definition mergeEnvVars (containerEnvVars newEnvVars : list EnvVar) : list EnvVar :=
  let '(merged, rest) := takeEnv (envMap newEnvVars (envMap containerEnvVars ∅)) containerEnvVars in
  merged ++ omap (fun e => rest !! ev_Name e) newEnvVars.
Definition setEnv (c : Container) (env : list EnvVar) : Container := mkContainer (ct_Name c) (ct_VolumeMounts c) env (ct_EnvFrom c) (ct_Resources c) (ct_rest c).
Definition InjectEnvIntoDeployment (s : DeploymentSpec) (envVars : list EnvVar) : DeploymentSpec :=
  setContainers s ((fun c => setEnv c (mergeEnvVars (ct_Env c) envVars)) <$> sp_Containers s).

(** [mergeEnvFromVars] and [mergeTolerations]: what is not there is appended. *)
Definition mergeMissing (old new : list string) : list string := old ++ filter (fun x => x ∉ old) new.
Definition InjectEnvFromIntoDeployment (s : DeploymentSpec) (envFromVars : list string) : DeploymentSpec :=
  setContainers s ((fun c => mkContainer (ct_Name c) (ct_VolumeMounts c) (ct_Env c) (mergeMissing (ct_EnvFrom c) envFromVars) (ct_Resources c) (ct_rest c)) <$> sp_Containers s).

(** [findVolume] and [findVolumeMount]: the first one of that name is replaced. *)
Fixpoint replaceFirst {A} (name : A -> string) (x : A) (l : list A) : option (list A) :=
  match l with
  | [] => None
  | y :: l => if bool_decide (name x = name y) then Some (x :: l) else cons y <$> replaceFirst name x l
  end.
(** [merged = old; for _, x := range new { existing, found := find(old, x); if found { *existing = x; continue }; merged =
    append(merged, x) }].  The edit is made in the array of [old]: the result sees it while it shares this array, that is
    until an append finds no room in it. *)
Record Merge (A : Type) := mkMerge { mg_old : list A; mg_merged : list A; mg_shared : bool; mg_room : nat }.
Arguments mkMerge {A}.
Arguments mg_old {A}.
Arguments mg_merged {A}.
Arguments mg_shared {A}.
Arguments mg_room {A}.
Definition mergeStep {A} (name : A -> string) (st : Merge A) (x : A) : Merge A :=
  match replaceFirst name x (mg_old st) with
  | Some old => mkMerge old (if mg_shared st then old ++ drop (length old) (mg_merged st) else mg_merged st) (mg_shared st) (mg_room st)
  | None =>
      match mg_shared st, mg_room st with
      | true, S room => mkMerge (mg_old st) (mg_merged st ++ [x]) true room
      | _, _ => mkMerge (mg_old st) (mg_merged st ++ [x]) false 0
      end
  end.
Definition mergeNamed {A} (name : A -> string) (room : nat) (old new : list A) : list A := mg_merged (foldl (mergeStep name) (mkMerge old old true room) new).
Definition mergeVolumes : nat -> list Volume -> list Volume -> list Volume := mergeNamed v_Name.
Definition mergeVolumeMounts : nat -> list VolumeMount -> list VolumeMount -> list VolumeMount := mergeNamed vm_Name.
(** The room that the arrays of a deployment have: that of its volumes, and of the mounts of a container. *)
Record Room := mkRoom { rm_volumes : nat; rm_mounts : string -> nat }.
Definition InjectVolumesIntoDeployment (room : Room) (s : DeploymentSpec) (volumes : list Volume) : DeploymentSpec := setVolumes s (mergeVolumes (rm_volumes room) (sp_Volumes s) volumes).
Definition setMounts (c : Container) (ms : list VolumeMount) : Container := mkContainer (ct_Name c) ms (ct_Env c) (ct_EnvFrom c) (ct_Resources c) (ct_rest c).
Definition InjectVolumeMountsIntoDeployment (room : Room) (s : DeploymentSpec) (volumeMounts : list VolumeMount) : DeploymentSpec :=
  setContainers s ((fun c => setMounts c (mergeVolumeMounts (rm_mounts room (ct_Name c)) (ct_VolumeMounts c) volumeMounts)) <$> sp_Containers s).

Definition InjectTolerationsIntoDeployment (s : DeploymentSpec) (tolerations : list string) : DeploymentSpec :=
  mkDeploymentSpec (sp_Annotations s) (sp_ServiceAccountName s) (sp_Volumes s) (sp_Containers s) (mergeMissing (sp_Tolerations s) tolerations) (sp_NodeSelector s) (sp_Affinity s) (sp_MatchLabels s) (sp_RevisionHistoryLimit s) (sp_rest s).
Definition InjectResourcesIntoDeployment (s : DeploymentSpec) (resources : option string) : DeploymentSpec :=
  match resources with
  | None => s
  | Some r => setContainers s ((fun c => mkContainer (ct_Name c) (ct_VolumeMounts c) (ct_Env c) (ct_EnvFrom c) r (ct_rest c)) <$> sp_Containers s)
  end.
Definition InjectNodeSelectorIntoDeployment (s : DeploymentSpec) (nodeSelector : option (gmap string string)) : DeploymentSpec :=
  match nodeSelector with
  | None => s
  | Some n => mkDeploymentSpec (sp_Annotations s) (sp_ServiceAccountName s) (sp_Volumes s) (sp_Containers s) (sp_Tolerations s) (Some n) (sp_Affinity s) (sp_MatchLabels s) (sp_RevisionHistoryLimit s) (sp_rest s)
  end.

(** *** Affinities *)

#[export] Instance Affinity_eq_dec : EqDecision Affinity.
Proof. solve_decision. Defined.
Definition zeroAffinity : Affinity := mkAffinity None None None.
(** A part of an affinity that is overridden: the empty one removes it. *)
Definition overridePart (old new : option string) : option string :=
  match new with None => old | Some x => if bool_decide (x = "") then None else Some x end.
(** An empty override of the last part removes the whole affinity. *)
Definition overrideParts (p a : Affinity) : option Affinity :=
  let node := overridePart (af_NodeAffinity p) (af_NodeAffinity a) in
  let pod := overridePart (af_PodAffinity p) (af_PodAffinity a) in
  match af_PodAntiAffinity a with
  | None => Some (mkAffinity node pod (af_PodAntiAffinity p))
  | Some x => if bool_decide (x = "") then None else Some (mkAffinity node pod (Some x))
  end.
Definition overrideAffinity (old new : option Affinity) : option Affinity :=
  match new with
  | None => old
  | Some a =>
      match old with
      | None => if bool_decide (a = zeroAffinity) then None else Some a
      | Some p =>
          if bool_decide (p = zeroAffinity) then if bool_decide (a = zeroAffinity) then None else Some a
          else if bool_decide (a = zeroAffinity) then None
          else match overrideParts p a with Some r => if bool_decide (r = zeroAffinity) then None else Some r | None => None end
      end
  end.
Definition OverrideDeploymentAffinity (s : DeploymentSpec) (affinity : option Affinity) : DeploymentSpec :=
  mkDeploymentSpec (sp_Annotations s) (sp_ServiceAccountName s) (sp_Volumes s) (sp_Containers s) (sp_Tolerations s) (sp_NodeSelector s) (overrideAffinity (sp_Affinity s) affinity) (sp_MatchLabels s) (sp_RevisionHistoryLimit s) (sp_rest s).

Definition InjectAnnotationsIntoDeployment (d : Deployment) (newAnnotations : option (gmap string string)) : Deployment :=
  match newAnnotations with
  | None => d
  | Some new =>
      mkDeployment (dp_obj d) (Some (default ∅ (dp_Annotations d) ∪ new)) (setTemplateAnnotations (dp_Spec d) (Some (default ∅ (sp_Annotations (dp_Spec d)) ∪ new)))
        (dp_Generation d) (dp_ObservedGeneration d) (dp_Replicas d) (dp_UpdatedReplicas d) (dp_Conditions d)
  end.

(** ** config.go *)

Record SubscriptionConfig := mkSubConfig {
  cf_NodeSelector : option (gmap string string); cf_Tolerations : list string; cf_Resources : option string; cf_EnvFrom : list string; cf_Env : list EnvVar;
  cf_Volumes : list Volume; cf_VolumeMounts : list VolumeMount; cf_Affinity : option Affinity; cf_Annotations : option (gmap string string)
}.
Definition noConfig : SubscriptionConfig := mkSubConfig None [] None [] [] [] [] None None.
(** Of a subscription: the CSV that is installed for it and its configuration. *)
Record ConfiguredSub := mkConfiguredSub { cu_InstalledCSV : string; cu_Config : option SubscriptionConfig }.

Definition findOwner (list : list ConfiguredSub) (ownerName : string) : option ConfiguredSub := List.find (fun sub => bool_decide (cu_InstalledCSV sub = ownerName)) list.
Definition GetConfigOverrides (subscriptions : error + list ConfiguredSub) (owner : Object) : error + SubscriptionConfig :=
  match subscriptions with
  | inl err => inl (ErrString ("failed to list subscription namespace=" +:+ ONamespace owner +:+ " - " +:+ Error_ err))
  | inr list => inr (default noConfig (findOwner list (OName owner) ≫= cu_Config))
  end.

(** ** lib/proxy *)

Definition allProxyEnvVarNames : list string := ["HTTP_PROXY"; "HTTPS_PROXY"; "NO_PROXY"].
Definition IsOverridden (envVar : list EnvVar) : bool := existsb (fun name => existsb (fun e => bool_decide (name = ev_Name e)) envVar) allProxyEnvVarNames.
(** [ToEnvVar]: the status of the proxy has three values. *)
Definition ToEnvVar (httpProxy httpsProxy noProxy : string) : list EnvVar :=
  [mkEnvVar "HTTP_PROXY" httpProxy None; mkEnvVar "HTTPS_PROXY" httpsProxy None; mkEnvVar "NO_PROXY" noProxy None].
Definition dropEmptyProxyEnv (l : list EnvVar) : list EnvVar := List.filter (fun e => negb (bool_decide (ev_Value e = ""))) l.

(** ** initializer.go *)

(** The variables to inject: those of the subscription, and those of the proxy unless the subscription sets one. *)
Definition envToInject (queryProxyConfig : error + list EnvVar) (overrides : list EnvVar) : error + list EnvVar :=
  if IsOverridden overrides then inr overrides
  else match queryProxyConfig with
       | inl err => inl (ErrString ("failed to query cluster proxy configuration - " +:+ Error_ err))
       | inr proxyEnvVar => inr (overrides ++ dropEmptyProxyEnv proxyEnvVar)
       end.

Definition injectAll (room : Room) (merged : list EnvVar) (c : SubscriptionConfig) (d : Deployment) : Deployment :=
  let s := InjectEnvIntoDeployment (dp_Spec d) merged in
  let s := InjectEnvFromIntoDeployment s (cf_EnvFrom c) in
  let s := InjectVolumesIntoDeployment room s (cf_Volumes c) in
  let s := InjectVolumeMountsIntoDeployment room s (cf_VolumeMounts c) in
  let s := InjectTolerationsIntoDeployment s (cf_Tolerations c) in
  let s := InjectResourcesIntoDeployment s (cf_Resources c) in
  let s := InjectNodeSelectorIntoDeployment s (cf_NodeSelector c) in
  let s := OverrideDeploymentAffinity s (cf_Affinity c) in
  InjectAnnotationsIntoDeployment (setSpec d s) (cf_Annotations c).

Definition initialize (room : Room) (subscriptions : error + list ConfiguredSub) (queryProxyConfig : error + list EnvVar) (ownerCSV : Object) (d : Deployment) : error + Deployment :=
  match GetConfigOverrides subscriptions ownerCSV with
  | inl err => inl (ErrString ("failed to get subscription pod configuration - " +:+ Error_ err))
  | inr c =>
      match envToInject queryProxyConfig (cf_Env c) with
      | inl err => inl err
      | inr merged => inr (injectAll room merged c d)
      end
  end.

(** ** What is overridden *)

(** A list of named things after an override: the names in their order, then the new ones; what the override names is
    as the override has it, and the rest is as before. *)
Definition overridden {A} (name : A -> string) (old new l : list A) : Prop :=
  name <$> l = (name <$> old) ++ filter (fun n => n ∉ name <$> old) (name <$> new) /\
  forall x, x ∈ l <-> x ∈ new \/ x ∈ old /\ name x ∉ name <$> new.

Lemma name_inj {A} (name : A -> string) l x y : NoDup (name <$> l) -> x ∈ l -> y ∈ l -> name x = name y -> x = y.
Proof.
  intros Hnd [i Hi]%list_elem_of_lookup_1 [j Hj]%list_elem_of_lookup_1 E. assert (i = j) as ->; [|congruence].
  eapply (NoDup_lookup (name <$> l)); [done| |]; rewrite list_lookup_fmap; [by rewrite Hi|rewrite Hj; cbn; by rewrite E].
Qed.

Section named.
Context {A : Type} (name : A -> string).

Lemma replaceFirst_spec x l :
  match replaceFirst name x l with
  | Some l' => name x ∈ name <$> l /\ name <$> l' = name <$> l
  | None => name x ∉ name <$> l
  end.
Proof.
  induction l as [|z l IH]; cbn; [set_solver|]. case_bool_decide as Hz; [cbn; rewrite Hz; split; [by left|done]|].
  destruct (replaceFirst name x l) as [l'|]; cbn; [|by intros [?|?]%elem_of_cons]. destruct IH as [Hin Hl]. split; [by right|by rewrite Hl].
Qed.

(** The last element of that name. *)
Definition lastNamed (n : string) (l : list A) : option A := last (filter (fun y => name y = n) l).
(** The old elements after an override: the first one of each name is the last one of that name in the override, if there
    is any. *)
Fixpoint overrideFirst (seen : list string) (old new : list A) : list A :=
  match old with
  | [] => []
  | o :: old => (if decide (name o ∈ seen) then o else default o (lastNamed (name o) new)) :: overrideFirst (name o :: seen) old new
  end.
(** A list after an override: these, in their places, and then what has a name that was not there. *)
Definition overriddenBy (old new : list A) : list A := overrideFirst [] old new ++ filter (fun x => name x ∉ name <$> old) new.

Lemma lastNamed_snoc_ne n l x : name x <> n -> lastNamed n (l ++ [x]) = lastNamed n l.
Proof. intros Hn. unfold lastNamed. rewrite filter_app, filter_cons, filter_nil, decide_False by done. by rewrite app_nil_r. Qed.
Lemma lastNamed_snoc_eq l x : lastNamed (name x) (l ++ [x]) = Some x.
Proof. unfold lastNamed. by rewrite filter_app, filter_cons, filter_nil, decide_True, last_snoc. Qed.
Lemma lastNamed_name n l x : lastNamed n l = Some x -> name x = n.
Proof. intros [l' E]%last_Some. assert (x ∈ filter (fun y => name y = n) l) as [? _]%list_elem_of_filter; [|done]. rewrite E. apply elem_of_app. right. by left. Qed.
Lemma overrideFirst_seen seen old new x : name x ∈ seen -> overrideFirst seen old (new ++ [x]) = overrideFirst seen old new.
Proof.
  revert seen. induction old as [|o old IH]; intros seen Hx; [done|]. cbn. rewrite (IH (name o :: seen)) by (by right). f_equal.
  destruct (decide (name o ∈ seen)) as [|Ho]; [done|]. rewrite lastNamed_snoc_ne; [done|]. intros E. apply Ho. by rewrite <- E.
Qed.
Lemma replaceFirst_override seen old new x : name x ∉ seen -> name x ∈ name <$> old ->
  replaceFirst name x (overrideFirst seen old new) = Some (overrideFirst seen old (new ++ [x])).
Proof.
  revert seen. induction old as [|o old IH]; intros seen Hs Hx; [by apply elem_of_nil in Hx|]. cbn.
  assert (name (if decide (name o ∈ seen) then o else default o (lastNamed (name o) new)) = name o) as ->.
  { destruct (decide _); [done|]. destruct (lastNamed _ _) as [y|] eqn:E; [by apply lastNamed_name in E|done]. }
  case_bool_decide as Hn.
  - rewrite <- Hn, (decide_False _ _ Hs), lastNamed_snoc_eq, overrideFirst_seen by (by left). done.
  - apply elem_of_cons in Hx as [?|Hx]; [done|]. rewrite IH by (rewrite ?elem_of_cons; tauto). cbn. by rewrite lastNamed_snoc_ne.
Qed.

(** The merge on one list: what was processed is in its place, or at the end. *)
Definition placeStep (acc : list A * list A) (x : A) : list A * list A :=
  match replaceFirst name x acc.1 with Some kept => (kept, acc.2) | None => (acc.1, acc.2 ++ [x]) end.
Lemma overrideFirst_nil seen old : overrideFirst seen old [] = old.
Proof. revert seen. induction old as [|o old IH]; intros seen; [done|]. cbn. rewrite IH. by destruct (decide _). Qed.
Lemma overrideFirst_names seen old new : name <$> overrideFirst seen old new = name <$> old.
Proof.
  revert seen. induction old as [|o old IH]; intros seen; [done|]. cbn. rewrite IH. f_equal. destruct (decide _); [done|].
  destruct (lastNamed _ _) as [y|] eqn:E; [by apply lastNamed_name in E|done].
Qed.
Lemma overrideFirst_unused seen old new x : name x ∉ name <$> old -> overrideFirst seen old (new ++ [x]) = overrideFirst seen old new.
Proof.
  revert seen. induction old as [|o old IH]; intros seen Hx; [done|]. cbn in *. rewrite not_elem_of_cons in Hx. destruct Hx as [Hn Hx]. rewrite IH by done. by rewrite lastNamed_snoc_ne.
Qed.
Lemma placeSteps_spec old new : foldl placeStep (old, []) new = (overrideFirst [] old new, filter (fun x => name x ∉ name <$> old) new).
Proof.
  induction new as [|x new IH] using rev_ind; [cbn; by rewrite overrideFirst_nil|]. rewrite foldl_snoc, IH. unfold placeStep. cbn [fst snd].
  rewrite filter_app, filter_cons, filter_nil. destruct (decide (name x ∉ name <$> old)) as [Hn|Hn].
  - pose proof (replaceFirst_spec x (overrideFirst [] old new)) as Hr. rewrite overrideFirst_names in Hr. rewrite overrideFirst_unused by done.
    destruct (replaceFirst name x _); [by destruct Hr|done].
  - rewrite replaceFirst_override by (rewrite ?elem_of_nil; destruct (decide (name x ∈ name <$> old)); tauto). by rewrite app_nil_r.
Qed.

(** The array has room for what is new, or what is overridden comes first. *)
Definition fits (room : nat) (old new : list A) : Prop :=
  (length (filter (fun x => name x ∉ name <$> old) new) <= room)%nat \/
  exists new1 new2, new = new1 ++ new2 /\ Forall (fun x => name x ∈ name <$> old) new1 /\ Forall (fun x => name x ∉ name <$> old) new2.

Lemma replaceFirst_names x l l' : replaceFirst name x l = Some l' -> name <$> l' = name <$> l.
Proof. intros E. pose proof (replaceFirst_spec x l) as Hr. rewrite E in Hr. apply Hr. Qed.
Lemma replaceFirst_len x l l' : replaceFirst name x l = Some l' -> length l' = length l.
Proof. intros E%replaceFirst_names. apply (f_equal length) in E. by rewrite !length_fmap in E. Qed.
Lemma replaceFirst_none x l : name x ∉ name <$> l -> replaceFirst name x l = None.
Proof. intros Hx. pose proof (replaceFirst_spec x l) as Hr. destruct (replaceFirst name x l); [|done]. by destruct Hr. Qed.
Lemma replaceFirst_some x l : name x ∈ name <$> l -> exists l', replaceFirst name x l = Some l'.
Proof. intros Hx. pose proof (replaceFirst_spec x l) as Hr. destruct (replaceFirst name x l) as [l'|]; [by exists l'|done]. Qed.
Lemma placeSteps_grow new : forall k a, (length a <= length (foldl placeStep (k, a) new).2)%nat.
Proof.
  induction new as [|x new IH]; intros k a; [done|]. cbn. unfold placeStep at 2. cbn. destruct (replaceFirst name x k); [apply IH|]. etransitivity; [|apply IH]. rewrite length_app. lia.
Qed.
Lemma merge_with_room new : forall k a room, (length (foldl placeStep (k, a) new).2 <= length a + room)%nat ->
  mg_merged (foldl (mergeStep name) (mkMerge k (k ++ a) true room) new) = (foldl placeStep (k, a) new).1 ++ (foldl placeStep (k, a) new).2.
Proof.
  induction new as [|x new IH]; intros k a room Hlen; [done|]. cbn in *. unfold placeStep at 2 4. unfold placeStep at 2 in Hlen. unfold mergeStep at 2. cbn in *. destruct (replaceFirst name x k) as [k'|] eqn:E.
  - rewrite (replaceFirst_len _ _ _ E), drop_app_length. by apply IH.
  - pose proof (placeSteps_grow new k (a ++ [x])) as Hg. rewrite length_app in Hg. cbn in Hg. destruct room as [|room]; [lia|]. rewrite <- app_assoc. apply IH. rewrite length_app. cbn. lia.
Qed.
Lemma merge_appends new : forall old merged shared room, Forall (fun x => name x ∉ name <$> old) new -> mg_merged (foldl (mergeStep name) (mkMerge old merged shared room) new) = merged ++ new.
Proof.
  induction new as [|x new IH]; intros old merged shared room Hn; [by rewrite app_nil_r|]. apply Forall_cons in Hn as [Hx Hn]. cbn. unfold mergeStep at 2. cbn. rewrite (replaceFirst_none _ _ Hx).
  assert (merged ++ x :: new = (merged ++ [x]) ++ new) as -> by (by rewrite <- app_assoc). destruct shared; [destruct room|]; by apply IH.
Qed.
Lemma merge_replaces new : forall old room, Forall (fun x => name x ∈ name <$> old) new ->
  exists k, foldl (mergeStep name) (mkMerge old old true room) new = mkMerge k k true room /\ foldl placeStep (old, []) new = (k, []) /\ name <$> k = name <$> old.
Proof.
  induction new as [|x new IH]; intros old room Hn; [by exists old|]. apply Forall_cons in Hn as [Hx Hn]. destruct (replaceFirst_some _ _ Hx) as [k E]. cbn. unfold mergeStep at 2, placeStep at 2. cbn. rewrite E.
  rewrite (replaceFirst_len _ _ _ E), drop_all, app_nil_r. pose proof (replaceFirst_names _ _ _ E) as Hk. destruct (IH k room) as (k' & E1 & E2 & E3); [by rewrite Hk|]. exists k'. split_and!; [done|done|by rewrite E3].
Qed.
Lemma place_appends new : forall k a, Forall (fun x => name x ∉ name <$> k) new -> foldl placeStep (k, a) new = (k, a ++ new).
Proof.
  induction new as [|x new IH]; intros k a Hn; [by rewrite app_nil_r|]. apply Forall_cons in Hn as [Hx Hn]. cbn. unfold placeStep at 2. cbn. rewrite (replaceFirst_none _ _ Hx), IH by done. by rewrite <- app_assoc.
Qed.
Lemma mergeNamed_spec room old new : fits room old new -> mergeNamed name room old new = overriddenBy old new.
Proof.
  unfold mergeNamed, overriddenBy. intros [Hroom|(new1 & new2 & -> & H1 & H2)].
  - pose proof (merge_with_room new old [] room) as Hm. rewrite placeSteps_spec, app_nil_r in Hm. by apply Hm.
  - pose proof (placeSteps_spec old (new1 ++ new2)) as Hp. rewrite !foldl_app in *. destruct (merge_replaces new1 old room H1) as (k & E1 & E2 & Ek).
    rewrite E1, merge_appends by (by rewrite Ek). rewrite E2, place_appends in Hp by (by rewrite Ek). by injection Hp as <- <-.
Qed.
End named.

(** *** Environments *)

Lemma envMap_lookup vars m k :
  NoDup (ev_Name <$> vars) -> forall e, envMap vars m !! k = Some e <-> e ∈ vars /\ ev_Name e = k \/ k ∉ ev_Name <$> vars /\ m !! k = Some e.
Proof.
  revert m. induction vars as [|x vars IH]; intros m Hnd e; [cbn; set_solver|]. cbn in Hnd. apply NoDup_cons in Hnd as [Hx Hnd]. cbn [envMap foldl]. fold (envMap vars (<[ev_Name x := x]> m)).
  rewrite (IH _ Hnd), lookup_insert_Some. cbn. rewrite !elem_of_cons. split.
  - intros [[? ?]|[Hk [[<- <-]|[? ?]]]]; [left; split; [by right|done]|left; split; [by left|done]|right; split; [intros [E|?]; congruence|done]].
  - intros [[[->|?] <-]|[Hk ?]]; [right; split; [done|by left]|left; by split|right; split; [tauto|right; split; [intros E; apply Hk; by left|done]]].
Qed.

Lemma takeEnv_spec m vars :
  NoDup (ev_Name <$> vars) ->
  (takeEnv m vars).1 = (fun e => default zeroEnvVar (m !! ev_Name e)) <$> vars /\ forall k, (takeEnv m vars).2 !! k = if decide (k ∈ ev_Name <$> vars) then None else m !! k.
Proof.
  revert m. induction vars as [|x vars IH]; intros m Hnd; [split; [done|intros k; by rewrite decide_False by (by intros ?%elem_of_nil)]|]. cbn in Hnd. apply NoDup_cons in Hnd as [Hx Hnd]. cbn [takeEnv].
  destruct (IH (delete (ev_Name x) m) Hnd) as [H1 H2]. destruct (takeEnv (delete (ev_Name x) m) vars) as [out rest]. cbn [fst snd] in *. split.
  - cbn. f_equal. rewrite H1. apply list_fmap_ext. intros i y Hy. rewrite lookup_delete_ne; [done|]. intros E. apply Hx. rewrite E. apply list_elem_of_fmap_2. by eapply list_elem_of_lookup_2.
  - intros k. rewrite H2. cbn. destruct (decide (k = ev_Name x)) as [->|Hk]; [rewrite lookup_delete_eq, (decide_True _ _ (list_elem_of_here _ _)); by destruct (decide _)|].
    rewrite lookup_delete_ne by done. destruct (decide (k ∈ ev_Name <$> vars)); [by rewrite decide_True by (by right)|rewrite decide_False; [done|]]. by intros [?|?]%elem_of_cons.
Qed.

Lemma mergeEnvVars_overridden old new : NoDup (ev_Name <$> old) -> NoDup (ev_Name <$> new) -> overridden ev_Name old new (mergeEnvVars old new).
Proof.
  intros Hold Hnew. unfold mergeEnvVars. set (m := envMap new (envMap old ∅)). destruct (takeEnv_spec m old Hold) as [Hm Hr]. destruct (takeEnv m old) as [merged rest]. cbn [fst snd] in *. subst merged.
  assert (forall k e, m !! k = Some e <-> e ∈ new /\ ev_Name e = k \/ k ∉ ev_Name <$> new /\ e ∈ old /\ ev_Name e = k) as Hlk.
  { intros k e. unfold m. rewrite envMap_lookup, envMap_lookup by done. rewrite lookup_empty. split; [intros [?|[? [?|[_ X]]]]; [tauto|tauto|discriminate X]|tauto]. }
  assert (forall x, x ∈ old -> exists e, m !! ev_Name x = Some e /\ ev_Name e = ev_Name x /\ (e ∈ new \/ ev_Name x ∉ ev_Name <$> new /\ e = x)) as Hkept.
  { intros x Hx. destruct (decide (ev_Name x ∈ ev_Name <$> new)) as [[e [E He]]%list_elem_of_fmap|Hn]; [exists e; split; [apply Hlk; left; split; [done|by rewrite E]|split; [by rewrite E|by left]]|].
    exists x. split; [apply Hlk; by right|]. split; [done|by right]. }
  assert (omap (fun e => rest !! ev_Name e) new = filter (fun e => ev_Name e ∉ ev_Name <$> old) new) as ->.
  { assert (forall e, e ∈ new -> rest !! ev_Name e = if decide (ev_Name e ∉ ev_Name <$> old) then Some e else None) as Hrest.
    { intros e He. rewrite Hr. destruct (decide (ev_Name e ∈ _)); [rewrite decide_False by tauto; done|]. rewrite decide_True by done. apply Hlk. by left. }
    clear - Hrest. induction new as [|e new IH]; [done|]. cbn [omap list_omap]. rewrite filter_cons, (Hrest e) by (by left). rewrite IH by (intros y Hy; apply Hrest; by right). by destruct (decide (ev_Name e ∉ _)). }
  split.
  - rewrite fmap_app. f_equal.
    + rewrite <- list_fmap_compose. apply list_fmap_ext. intros i x Hx. destruct (Hkept x (list_elem_of_lookup_2 _ _ _ Hx)) as (e & He & Hn & _). cbn. by rewrite He.
    + clear. induction new as [|x new IH]; [done|]. cbn [fmap list_fmap]. rewrite !filter_cons. destruct (decide (ev_Name x ∉ _)); cbn; by rewrite IH.
  - intros x. rewrite elem_of_app, list_elem_of_fmap, list_elem_of_filter. split.
    + intros [(y & -> & Hy)|[? ?]]; [|by left]. destruct (Hkept y Hy) as (e & He & Hn & Hc). rewrite He. cbn. destruct Hc as [?|[? ->]]; [by left|by right].
    + intros [Hx|[Hx Hn]].
      * destruct (decide (ev_Name x ∈ ev_Name <$> old)) as [(y & E & Hy)%list_elem_of_fmap|]; [|by right]. left. exists y. split; [|done]. destruct (Hlk (ev_Name y) x) as [_ Hl]. rewrite Hl by (left; by rewrite E). done.
      * left. exists x. split; [|done]. destruct (Hlk (ev_Name x) x) as [_ Hl]. rewrite Hl by (by right). done.
Qed.

(** *** The whole configuration *)

(** A container with the overrides.  Variables are as specified when the names are distinct; the mounts when they fit. *)
Record containerOverridden (room : Room) (env : list EnvVar) (c : SubscriptionConfig) (old new : Container) : Prop := {
  co_same : ct_Name new = ct_Name old /\ ct_rest new = ct_rest old;
  co_env : NoDup (ev_Name <$> ct_Env old) -> NoDup (ev_Name <$> env) -> overridden ev_Name (ct_Env old) env (ct_Env new);
  co_mounts : fits vm_Name (rm_mounts room (ct_Name old)) (ct_VolumeMounts old) (cf_VolumeMounts c) ->
    ct_VolumeMounts new = overriddenBy vm_Name (ct_VolumeMounts old) (cf_VolumeMounts c);
  co_envFrom : forall x, x ∈ ct_EnvFrom new <-> x ∈ ct_EnvFrom old \/ x ∈ cf_EnvFrom c;
  co_resources : ct_Resources new = default (ct_Resources old) (cf_Resources c);
}.

(** The annotations [new] are [old] and those of the subscription for other keys. *)
Definition annotated (c : SubscriptionConfig) (old new : option (gmap string string)) : Prop :=
  forall k, default ∅ new !! k = match default ∅ old !! k with Some v => Some v | None => default ∅ (cf_Annotations c) !! k end.

(** A part of an affinity; one that is missing and an empty one mean the same. *)
Definition part (f : Affinity -> option string) (a : option Affinity) : string := default "" (f (default zeroAffinity a)).
(** The affinity: an empty one of the subscription removes it, else each part that the subscription gives replaces that part. *)
Definition affinityOverridden (new old result : option Affinity) : Prop :=
  match new with
  | None => result = old
  | Some a => af_PodAntiAffinity a <> Some "" -> forall f, f ∈ [af_NodeAffinity; af_PodAffinity; af_PodAntiAffinity] ->
      part f result = if decide (a = zeroAffinity) then "" else default (part f old) (f a)
  end.
Lemma overrideAffinity_spec old new : affinityOverridden new old (overrideAffinity old new).
Proof.
  unfold affinityOverridden, overrideAffinity. destruct new as [a|]; [|done]. intros Ha f Hf. assert (f zeroAffinity = None) as Hz by (rewrite !elem_of_cons, elem_of_nil in Hf; by destruct Hf as [E|[E|[E|[]]]]; subst f).
  destruct (decide (a = zeroAffinity)) as [->|Hna].
  { rewrite bool_decide_eq_true_2 by done. unfold part. destruct old as [p|]; [destruct (bool_decide (p = zeroAffinity))|]; cbn; by rewrite Hz. }
  rewrite bool_decide_eq_false_2 by done.
  assert (part f (Some a) = default (part f None) (f a)) as Hnew by (unfold part; cbn; rewrite Hz; by destruct (f a)).
  destruct old as [p|]; [|done]. case_bool_decide as Hp; [subst; done|].
  assert (exists r, overrideParts p a = Some r /\ part f (Some r) = default (part f (Some p)) (f a)) as (r & -> & <-).
  { unfold overrideParts, overridePart, part. cbn. destruct p as [p1 p2 p3], a as [a1 a2 a3]. cbn in *.
    assert (a3 <> Some "") as Ha3 by done. destruct a3 as [x|]; [rewrite (bool_decide_eq_false_2 (x = "")) by congruence|]; (eexists; split; [done|]);
    rewrite !elem_of_cons, elem_of_nil in Hf; destruct Hf as [E|[E|[E|[]]]]; subst f; cbn; repeat case_match; bools; by subst. }
  case_bool_decide as Hr; [subst; unfold part; cbn; by rewrite Hz|done].
Qed.

Lemma mergeMissing_elem old new x : x ∈ mergeMissing old new <-> x ∈ old \/ x ∈ new.
Proof. unfold mergeMissing. rewrite elem_of_app, list_elem_of_filter. destruct (decide (x ∈ old)); tauto. Qed.

Lemma injectAll_containers room env c d :
  Forall2 (containerOverridden room env c) (sp_Containers (dp_Spec d)) (sp_Containers (dp_Spec (injectAll room env c d))).
Proof.
  assert (sp_Containers (dp_Spec (injectAll room env c d)) =
    (fun x => mkContainer (ct_Name x) (mergeVolumeMounts (rm_mounts room (ct_Name x)) (ct_VolumeMounts x) (cf_VolumeMounts c)) (mergeEnvVars (ct_Env x) env) (mergeMissing (ct_EnvFrom x) (cf_EnvFrom c)) (default (ct_Resources x) (cf_Resources c)) (ct_rest x)) <$> sp_Containers (dp_Spec d)) as ->.
  - unfold injectAll. cbv zeta. assert (forall d a, sp_Containers (dp_Spec (InjectAnnotationsIntoDeployment d a)) = sp_Containers (dp_Spec d)) as -> by (intros d' [a|]; done). cbn [dp_Spec setSpec OverrideDeploymentAffinity sp_Containers].
    assert (forall s n, sp_Containers (InjectNodeSelectorIntoDeployment s n) = sp_Containers s) as -> by (intros s [n|]; done).
    destruct (cf_Resources c) as [r|]; cbn; rewrite <- !list_fmap_compose; by apply list_fmap_ext.
  - apply Forall2_fmap_r, Forall_Forall2_diag, Forall_forall. intros x _.
    split; [done|by apply mergeEnvVars_overridden|by apply mergeNamed_spec|intros y; apply mergeMissing_elem|done].
Qed.

Lemma injectAll_annotations room env c d :
  annotated c (sp_Annotations (dp_Spec d)) (sp_Annotations (dp_Spec (injectAll room env c d))) /\
  annotated c (dp_Annotations d) (dp_Annotations (injectAll room env c d)).
Proof.
  unfold injectAll. cbv zeta. set (s := OverrideDeploymentAffinity _ _).
  assert (sp_Annotations s = sp_Annotations (dp_Spec d)) as Hs by (unfold s; cbn; by destruct (cf_NodeSelector c), (cf_Resources c)).
  unfold InjectAnnotationsIntoDeployment, annotated. clearbody s. destruct (cf_Annotations c) as [a|]; cbn [setSpec dp_Spec dp_Annotations setTemplateAnnotations sp_Annotations default id]; rewrite ?Hs;
    split; intros k; rewrite ?lookup_union, ?lookup_empty; destruct (_ !! k) eqn:E; rewrite ?E; try done; by destruct (a !! k).
Qed.
Lemma injectAll_spec room env c d : let s := dp_Spec d in let s' := dp_Spec (injectAll room env c d) in
  sp_Volumes s' = mergeVolumes (rm_volumes room) (sp_Volumes s) (cf_Volumes c) /\ sp_Tolerations s' = mergeMissing (sp_Tolerations s) (cf_Tolerations c) /\
  sp_NodeSelector s' = match cf_NodeSelector c with Some n => Some n | None => sp_NodeSelector s end /\ sp_Affinity s' = overrideAffinity (sp_Affinity s) (cf_Affinity c) /\
  sp_ServiceAccountName s' = sp_ServiceAccountName s /\ sp_MatchLabels s' = sp_MatchLabels s /\ sp_RevisionHistoryLimit s' = sp_RevisionHistoryLimit s /\ sp_rest s' = sp_rest s.
Proof. unfold injectAll. cbv zeta. destruct (cf_Annotations c), (cf_NodeSelector c), (cf_Resources c); by split_and!. Qed.

(** C14: the configuration of a subscription reaches every container of the operator, and nothing else changes.  The
    variables injected are those of the subscription and, unless it sets a proxy variable itself, the ones of the proxy that
    are not empty.  In each container the variables of an overridden name are as injected and the others stay as they were
    and in their order, provided that the names of each are distinct; the resources are those of the subscription if it
    gives any.  Of volumes, and of the mounts of a container, the first one of each name that the subscription overrides is
    the last one it gives, the others stay, and those of new names follow, provided that the array has room for these or
    the subscription lists them after the others.  Tolerations are added; the node selector is replaced; each part of the
    affinity is replaced or removed, provided that the anti-affinity is not the empty one.  Annotations of the deployment
    and of its pods win over those of the subscription.  Names, labels, the service account and all else stay. *)
Theorem overrides_applied room subscriptions proxy owner d d' :
  initialize room subscriptions proxy owner d = inr d' ->
  let s := dp_Spec d in let s' := dp_Spec d' in
  exists c env, GetConfigOverrides subscriptions owner = inr c /\
    (if IsOverridden (cf_Env c) then env = cf_Env c else exists p, proxy = inr p /\ env = cf_Env c ++ dropEmptyProxyEnv p) /\
    Forall2 (containerOverridden room env c) (sp_Containers s) (sp_Containers s') /\
    (fits v_Name (rm_volumes room) (sp_Volumes s) (cf_Volumes c) -> sp_Volumes s' = overriddenBy v_Name (sp_Volumes s) (cf_Volumes c)) /\
    (forall x, x ∈ sp_Tolerations s' <-> x ∈ sp_Tolerations s \/ x ∈ cf_Tolerations c) /\
    sp_NodeSelector s' = match cf_NodeSelector c with Some n => Some n | None => sp_NodeSelector s end /\
    affinityOverridden (cf_Affinity c) (sp_Affinity s) (sp_Affinity s') /\
    annotated c (sp_Annotations s) (sp_Annotations s') /\ annotated c (dp_Annotations d) (dp_Annotations d') /\
    (dp_obj d', sp_ServiceAccountName s', sp_MatchLabels s', sp_RevisionHistoryLimit s', sp_rest s') =
      (dp_obj d, sp_ServiceAccountName s, sp_MatchLabels s, sp_RevisionHistoryLimit s, sp_rest s).
Proof.
  unfold initialize. destruct (GetConfigOverrides subscriptions owner) as [err|c]; [done|]. destruct (envToInject proxy (cf_Env c)) as [err|env] eqn:Ee; [done|]. intros [= <-]. cbv zeta. exists c, env. split; [done|]. split.
  { unfold envToInject in Ee. destruct (IsOverridden (cf_Env c)); [by injection Ee|]. destruct proxy as [err|p]; [done|]. injection Ee as <-. by exists p. }
  destruct (injectAll_spec room env c d) as (Ev & Et & En & Ea & Es & Em & Eh & Er). destruct (injectAll_annotations room env c d) as [Ha1 Ha2].
  split; [apply injectAll_containers|]. split; [rewrite Ev; apply mergeNamed_spec|]. split; [intros x; rewrite Et; apply mergeMissing_elem|]. split; [done|].
  split; [rewrite Ea; apply overrideAffinity_spec|]. split_and!; [done|done|]. rewrite Es, Em, Eh, Er. unfold injectAll. cbv zeta. by destruct (cf_Annotations c).
Qed.

(** *** What goes wrong *)

(** A variable that a container sets twice is replaced by one without a name, and a variable that a subscription sets
    twice is injected twice. *)
Theorem duplicate_variables :
  let a := mkEnvVar "A" "1" None in
  mergeEnvVars [a; mkEnvVar "A" "2" None] [] = [mkEnvVar "A" "2" None; zeroEnvVar] /\ mergeEnvVars [] [a; a] = [a; a].
Proof. split; vm_compute; reflexivity. Qed.

(** A volume that overrides one of the deployment is lost when the subscription lists a new one before it: the append has
    copied the array by then, and the edit is made in the old one. *)
Theorem late_override_lost :
  let data source := mkVolume "data" (OtherSource source) in let cache := mkVolume "cache" (OtherSource "emptyDir") in
  mergeVolumes 0 [data "emptyDir"] [cache; data "hostPath"] = [data "emptyDir"; cache] /\ mergeVolumes 0 [data "emptyDir"] [data "hostPath"; cache] = [data "hostPath"; cache].
Proof. split; vm_compute; reflexivity. Qed.

(** An empty anti-affinity of the subscription removes the other affinities of the operator, too, and those of the
    subscription itself. *)
Theorem anti_affinity_removes_all p node : p <> zeroAffinity -> overrideAffinity (Some p) (Some (mkAffinity node None (Some ""))) = None.
Proof. intros Hp. unfold overrideAffinity. rewrite (bool_decide_eq_false_2 _ Hp), bool_decide_eq_false_2 by done. done. Qed.

(** ** Examples *)

Module OverridesDemo.
Definition container : Container := mkContainer "etcd" [mkMount "data" "/data" ""] [mkEnvVar "MODE" "slow" None; mkEnvVar "LOG" "info" None] [] "" "".
Definition spec : DeploymentSpec := mkDeploymentSpec None "etcd" [mkVolume "data" (OtherSource "emptyDir")] [container] [] None None ∅ None "".
Definition deployment : Deployment := mkDeployment (mkObj TOther (mkGVK "" "" "") "etcd" "ns" "" [] None) None spec 1 1 1 1 [].
Definition room : Room := mkRoom 0 (fun _ => 0%nat).
Definition config : SubscriptionConfig := mkSubConfig None [] None [] [mkEnvVar "MODE" "fast" None] [] [] None None.
Definition csv : Object := mkObj TClusterServiceVersion (mkGVK "" "" "") "etcd.v1" "ns" "7" [] None.
Definition subs : error + list ConfiguredSub := inr [mkConfiguredSub "etcd.v1" (Some config)].

(** The mode is overridden, and a proxy is injected. *)
Lemma overrides_applied_witness :
  exists d' c', initialize room subs (inr (ToEnvVar "http://proxy" "" "")) csv deployment = inr d' /\ sp_Containers (dp_Spec d') = [c'] /\
    ct_Env c' = [mkEnvVar "MODE" "fast" None; mkEnvVar "LOG" "info" None; mkEnvVar "HTTP_PROXY" "http://proxy" None] /\ mkEnvVar "LOG" "info" None ∈ ct_Env c'.
Proof.
  eexists _, _. split; [vm_compute; reflexivity|]. split; [reflexivity|]. split; [reflexivity|].
  destruct (overrides_applied room subs (inr (ToEnvVar "http://proxy" "" "")) csv deployment _ eq_refl) as (c & env & Hc & He & Hcs & _). injection Hc as <-. destruct He as (p & [= <-] & ->).
  apply Forall2_cons in Hcs as [Hco _]. apply (proj2 (co_env _ _ _ _ _ Hco ltac:(apply (bool_decide_unpack _); vm_compute; exact I) ltac:(apply (bool_decide_unpack _); vm_compute; exact I))).
  right. split; [right; by left|]. apply (bool_decide_unpack _). vm_compute. exact I.
Defined.
End OverridesDemo.
