(* ===== verification/Certificates.v ===== *)
(** * Serving certificates

    Models [controller/certs/certs.go] (key pairs, the self-signed CA, the serving pair, PEM) and the part of
    [controller/install/certresources.go] that decides when a certificate is replaced ([shouldRotateCerts], the dates
    [CalculateCertExpiration] and [CalculateCertRotatesAt], the names of services, secrets and hosts).

    The packages [crypto/x509], [encoding/pem] and [crypto/rand] are parameters ([CertLib]); the laws the theorem
    about issued certificates needs are the record [CertLaws].  Byte strings are [string]s, a key is its encoding. *)

From S2P Require Import Prelude GoStrings OwnerUtil CsvTypes.

#[local] Open Scope Z_scope.

(** ** Certificates *)

(** [x509.Certificate]: the template of one has no [Raw]. *)
Record Certificate := mkCert {
  x_Raw : string; x_SerialNumber : Z; x_CommonName : string; x_Organization : string;
  x_NotBefore : Time; x_NotAfter : Time; x_IsCA : bool; x_DNSNames : list string
}.
Record KeyPair := mkPair { kp_Cert : Certificate; kp_Priv : string }.

(** What [rand.Reader] gives one generation: a serial number and a private key. *)
Record Entropy := mkEntropy { en_Serial : error + Z; en_Key : error + string }.

Class CertLib := {
  marshalKey : string -> error + string;
  (** [x509.CreateCertificate(template, parent, publicKey, signerKey)]; the public key is that of the private key given. *)
  createCertificate : Certificate -> Certificate -> string -> string -> error + string;
  parseCertificate : string -> error + Certificate;
  pemEncode : string -> string -> string;
  pemDecode : string -> option string;
  (** [cert.Verify] with one root, at a time. *)
  verify : Time -> Certificate -> Certificate -> string -> option error;
  hexNumber : Z -> string;
  sha256Hex : string -> string;
}.

(** ** certs.go *)

Section certs.
Context `{CertLib}.

Definition ToPEM (kp : KeyPair) : error + string * string :=
  match marshalKey (kp_Priv kp) with
  | inl err => inl err
  | inr privDER => inr (pemEncode "CERTIFICATE" (x_Raw (kp_Cert kp)), pemEncode "EC PRIVATE KEY" privDER)
  end.

Definition invalidNotAfter : error := ErrString "invalid notAfter".

(** A certificate from its template, signed by [signer] for the key; without one it signs itself. *)
Definition issue (template : Certificate) (parent : option KeyPair) (key : string) : error + KeyPair :=
  match createCertificate template (default template (kp_Cert <$> parent)) key (default key (kp_Priv <$> parent)) with
  | inl err => inl err
  | inr certRaw =>
      match parseCertificate certRaw with
      | inl err => inl err
      | inr cert => inr (mkPair cert key)
      end
  end.

Definition caTemplate (now notAfter : Time) (organization : string) (serial : Z) : Certificate :=
  mkCert "" serial ("olm-selfsigned-" +:+ hexNumber serial) organization now notAfter true [].
Definition GenerateCA (now : Time) (e : Entropy) (notAfter : Time) (organization : string) : error + KeyPair :=
  if notAfter <? now then inl invalidNotAfter
  else
    match en_Serial e, en_Key e with
    | inl err, _ | _, inl err => inl err
    | inr serial, inr key => issue (caTemplate now notAfter organization serial) None key
    end.

Definition servingTemplate (now notAfter : Time) (organization : string) (hosts : list string) (serial : Z) : Certificate :=
  mkCert "" serial (default "" (head hosts)) organization now notAfter false hosts.
(** [hosts] is not empty: the source reads its first element. *)
Definition CreateSignedServingPair (now : Time) (e : Entropy) (notAfter : Time) (organization : string) (ca : KeyPair) (hosts : list string) : error + KeyPair :=
  if notAfter <? now then inl invalidNotAfter
  else
    match en_Serial e, en_Key e with
    | inl err, _ | _, inl err => inl err
    | inr serial, inr key => issue (servingTemplate now notAfter organization hosts serial) (Some ca) key
    end.

Definition PEMToCert (certPEM : string) : error + Certificate :=
  match pemDecode certPEM with
  | None => inl (ErrString "cert PEM empty")
  | Some bytes => parseCertificate bytes
  end.
Definition VerifyCert (now : Time) (ca cert : Certificate) (host : string) : option error := verify now ca cert host.
Definition Active (now : Time) (cert : Certificate) : bool := (x_NotBefore cert <? now) && (now <? x_NotAfter cert).
Definition PEMSHA256 (certPEM : string) : string := sha256Hex certPEM.

(** ** When a certificate is replaced (certresources.go) *)

Definition second : Z := 1000000000.
Definition DefaultCertMinFresh : Z := 24 * 3600 * second.
Definition DefaultCertValidFor : Z := 730 * (24 * 3600 * second).
Definition OLMCAPEMKey : string := "olmCAKey".
Definition OLMCAHashAnnotationKey : string := "olmcahash".
Definition Organization : string := "Red Hat, Inc.".

Definition SecretName (serviceName : string) : string := serviceName +:+ "-cert".
Definition ServiceName (deploymentName : string) : string := deploymentName +:+ "-service".
Definition HostnamesForService (serviceName namespace : string) : list string :=
  [serviceName +:+ "." +:+ namespace; serviceName +:+ "." +:+ namespace +:+ ".svc"; serviceName +:+ "." +:+ namespace +:+ ".svc.cluster.local"].

Definition CalculateCertExpiration (startingFrom : Time) : Time := startingFrom + DefaultCertValidFor.
Definition CalculateCertRotatesAt (certExpirationTime : Time) : Time := certExpirationTime - DefaultCertMinFresh.

(** [corev1.Secret] *)
Record Secret := mkSecret { sec_obj : Object; sec_Annotations : option (gmap string string); sec_Data : gmap string string; sec_Type : string }.

(** [shouldRotateCerts] reads the clock when it starts, and again in each call of [Active] and [VerifyCert]. *)
Inductive CertReading := ReadStart | ReadActiveCA | ReadActiveCert | ReadVerify (host : string).

Definition shouldRotateCerts (clock : CertReading -> Time) (data : gmap string string) (hosts : list string) : bool :=
  match data !! OLMCAPEMKey, data !! "tls.crt" with
  | Some caPEM, Some certPEM =>
      match PEMToCert caPEM, PEMToCert certPEM with
      | inr ca, inr cert =>
          let now := clock ReadStart in
          if negb (Active (clock ReadActiveCA) ca) || (CalculateCertRotatesAt (x_NotAfter ca) <? now) ||
             negb (Active (clock ReadActiveCert) cert) || (CalculateCertRotatesAt (x_NotAfter cert) <? now)
          then true
          else existsb (fun host => bool_decide (is_Some (VerifyCert (clock (ReadVerify host)) ca cert host))) hosts
      | _, _ => true
      end
  | _, _ => true
  end.

(** ** What issuing promises *)

(** The fields of a certificate survive, its dates as whole seconds. *)
Definition parsedFrom (t c : Certificate) : Prop :=
  x_IsCA c = x_IsCA t /\ x_DNSNames c = x_DNSNames t /\
  x_NotBefore c <= x_NotBefore t /\ x_NotAfter c <= x_NotAfter t < x_NotAfter c + second.
Record CertLaws : Prop := {
  pem_decodes : forall kind bytes, pemDecode (pemEncode kind bytes) = Some bytes;
  pem_empty : pemDecode "" = None;
  parse_created : forall t p key signer raw, createCertificate t p key signer = inr raw -> exists c, parseCertificate raw = inr c /\ x_Raw c = raw /\ parsedFrom t c;
  (** A certificate signed with the key of a self-signed authority is trusted under it, for its names, while both are
      valid. *)
  signed_verifies : forall ta ca key rawCA t cert key' raw host now,
    createCertificate ta ta key key = inr rawCA -> parseCertificate rawCA = inr ca -> x_IsCA ta = true ->
    createCertificate t ca key' key = inr raw -> parseCertificate raw = inr cert -> host ∈ x_DNSNames t ->
    Active now ca = true -> Active now cert = true -> verify now ca cert host = None
}.

Context (laws : CertLaws).

Lemma issue_ok t parent key pair : issue t parent key = inr pair ->
  createCertificate t (default t (kp_Cert <$> parent)) key (default key (kp_Priv <$> parent)) = inr (x_Raw (kp_Cert pair)) /\
  parseCertificate (x_Raw (kp_Cert pair)) = inr (kp_Cert pair) /\ parsedFrom t (kp_Cert pair) /\ kp_Priv pair = key.
Proof using laws.
  unfold issue. destruct (createCertificate _ _ _ _) as [err|raw] eqn:Ec; [done|]. destruct (parse_created laws _ _ _ _ _ Ec) as (c & Ep & Er & Hp).
  rewrite Ep. intros [= <-]. cbn. by rewrite Er.
Qed.
Lemma issued_decodes t parent key pair certPEM keyPEM : issue t parent key = inr pair -> ToPEM pair = inr (certPEM, keyPEM) -> PEMToCert certPEM = inr (kp_Cert pair).
Proof using laws.
  intros Hi. unfold ToPEM. destruct (marshalKey _) as [|der]; [done|]. intros [= <- _]. unfold PEMToCert. rewrite (pem_decodes laws). by apply issue_ok in Hi as (_ & -> & _).
Qed.
Lemma ToPEM_nonempty kp pems : ToPEM kp = inr pems -> pems.1 <> "".
Proof using laws.
  unfold ToPEM. destruct (marshalKey _); [done|]. intros [= <-] E. cbn in E. pose proof (pem_decodes laws "CERTIFICATE" (x_Raw (kp_Cert kp))) as Hd. rewrite E, (pem_empty laws) in Hd. done.
Qed.
(** Data that need not be rotated holds an authority. *)
Lemma kept_nonempty clock data hosts : shouldRotateCerts clock data hosts = false -> default "" (data !! OLMCAPEMKey) <> "".
Proof using laws.
  unfold shouldRotateCerts. destruct (data !! OLMCAPEMKey) as [caPEM|]; [|done]. destruct (data !! "tls.crt"); [|done]. cbn. intros E ->. revert E. unfold PEMToCert at 1. by rewrite (pem_empty laws).
Qed.
Lemma parsed_active t c now : parsedFrom t c -> x_NotBefore t < now -> now <= CalculateCertRotatesAt (x_NotAfter t) - second ->
  Active now c = true /\ (CalculateCertRotatesAt (x_NotAfter c) <? now) = false.
Proof.
  clear. intros (_ & _ & Hb & Ha). unfold CalculateCertRotatesAt, Active, DefaultCertMinFresh, second in *. intros Hl Hu. split; [apply andb_true_intro; split|];
    [apply Z.ltb_lt; lia|apply Z.ltb_lt; lia|apply Z.ltb_ge; lia].
Qed.

(** C13: an expiration is computed at a time [t], and a fresh authority and a serving certificate are issued for it, at
    [tca] and [tserving].  The serving certificate is kept from then on and until a day before it expires, which is 730
    days after [t]: whenever all readings of the clock are after the issue and up to a second (the precision of the dates)
    before that day, the secret that holds it is not rotated, for all its hosts; from that day on it is. *)
Theorem issued_is_kept t tca tserving eca eserving hosts ca serving caPEM caKey certPEM privPEM data clock :
  GenerateCA tca eca (CalculateCertExpiration t) Organization = inr ca ->
  CreateSignedServingPair tserving eserving (CalculateCertExpiration t) Organization ca hosts = inr serving ->
  ToPEM ca = inr (caPEM, caKey) -> ToPEM serving = inr (certPEM, privPEM) ->
  data !! OLMCAPEMKey = Some caPEM -> data !! "tls.crt" = Some certPEM ->
  ((forall r, tca < clock r /\ tserving < clock r /\ clock r <= CalculateCertRotatesAt (CalculateCertExpiration t) - second) ->
    shouldRotateCerts clock data hosts = false) /\
  (CalculateCertRotatesAt (CalculateCertExpiration t) < clock ReadStart -> shouldRotateCerts clock data hosts = true).
Proof using laws.
  unfold GenerateCA, CreateSignedServingPair. destruct (Z.ltb _ _) eqn:Et; [done|]. destruct (en_Serial eca) as [|s1], (en_Key eca) as [|k1]; try done. intros Hca.
  destruct (Z.ltb _ tserving) eqn:Ets; [done|]. destruct (en_Serial eserving) as [|s2], (en_Key eserving) as [|k2]; try done. intros Hs P1 P2 D1 D2. unfold shouldRotateCerts. rewrite D1, D2.
  rewrite (issued_decodes _ _ _ _ _ _ Hca P1), (issued_decodes _ _ _ _ _ _ Hs P2). apply issue_ok in Hca as (C1 & Q1 & Hp1 & Hk). apply issue_ok in Hs as (C2 & Q2 & Hp2 & _). split.
  - intros Hclock.
    assert (forall r, Active (clock r) (kp_Cert ca) = true /\ (CalculateCertRotatesAt (x_NotAfter (kp_Cert ca)) <? clock r) = false) as Hca
      by (intros r; destruct (Hclock r) as (? & ? & ?); by eapply parsed_active).
    assert (forall r, Active (clock r) (kp_Cert serving) = true /\ (CalculateCertRotatesAt (x_NotAfter (kp_Cert serving)) <? clock r) = false) as Hse
      by (intros r; destruct (Hclock r) as (? & ? & ?); by eapply parsed_active).
    cbv zeta. rewrite (proj1 (Hca _)), (proj2 (Hca _)), (proj1 (Hse _)), (proj2 (Hse _)). cbn [negb orb].
    apply not_true_is_false. intros Hex. apply existsb_elem_of in Hex as (host & Hh & Hv). apply bool_decide_eq_true in Hv as [err Hv].
    cbn in C1, C2. rewrite Hk in C2. unfold VerifyCert in Hv.
    by rewrite (signed_verifies laws _ _ _ _ _ _ _ _ _ _ C1 Q1 eq_refl C2 Q2 Hh (proj1 (Hca _)) (proj1 (Hse _))) in Hv.
  - intros Hlate. destruct Hp1 as (_ & _ & _ & Ha & _). assert (CalculateCertRotatesAt (x_NotAfter (kp_Cert ca)) <? clock ReadStart = true) as ->.
    { apply Z.ltb_lt. cbn [x_NotAfter caTemplate] in Ha. unfold CalculateCertRotatesAt in *. lia. }
    cbv zeta. by rewrite orb_true_r.
Qed.
End certs.

(** ** A concrete certificate library *)

Module CertsDemo.
Fixpoint posString (p : positive) : string :=
  match p with xH => "" | xO p => String "0" (posString p) | xI p => String "1" (posString p) end.
Fixpoint stringPos (s : string) : positive :=
  match s with EmptyString => xH | String c s => if Ascii.eqb c "0" then xO (stringPos s) else xI (stringPos s) end.
Lemma string_pos p : stringPos (posString p) = p.
Proof. induction p as [p IH|p IH|]; cbn; by rewrite ?IH. Qed.

(** The dates are cut to seconds; a certificate lists its fields in binary. *)
Definition wholeSeconds (t : Time) : Time := second * (t / second).
Definition fieldsOf (c : Certificate) : Z * string * string * Time * Time * bool * list string :=
  (x_SerialNumber c, x_CommonName c, x_Organization c, wholeSeconds (x_NotBefore c), wholeSeconds (x_NotAfter c), x_IsCA c, x_DNSNames c).
Definition parse (raw : string) : error + Certificate :=
  match decode (A := Z * string * string * Z * Z * bool * list string) (stringPos raw) with
  | Some (serial, cn, org, notBefore, notAfter, isCA, names) => inr (mkCert raw serial cn org notBefore notAfter isCA names)
  | None => inl (ErrString "malformed certificate")
  end.
Definition certLib : CertLib := {|
  marshalKey := inr;
  createCertificate t p key signer := inr (posString (encode (A := Z * string * string * Z * Z * bool * list string) (fieldsOf t)));
  parseCertificate := parse;
  pemEncode kind bytes := "-" +:+ bytes;
  pemDecode s := match s with String _ bytes => Some bytes | EmptyString => None end;
  verify now ca cert host :=
    if x_IsCA ca && bool_decide (host ∈ x_DNSNames cert) && (x_NotBefore cert <=? now) && (now <=? x_NotAfter cert) then None else Some (ErrString "not trusted");
  hexNumber n := "1f";
  sha256Hex s := "#" +:+ String.substring 0 40 s
|}.
#[local] Existing Instance certLib.

Lemma wholeSeconds_bounds t : wholeSeconds t <= t < wholeSeconds t + second.
Proof. unfold wholeSeconds, second. pose proof (Z.div_mod t 1000000000). pose proof (Z.mod_pos_bound t 1000000000). lia. Qed.
Lemma certificate_roundtrip t : parse (posString (encode (fieldsOf t))) =
  inr (mkCert (posString (encode (fieldsOf t))) (x_SerialNumber t) (x_CommonName t) (x_Organization t) (wholeSeconds (x_NotBefore t)) (wholeSeconds (x_NotAfter t)) (x_IsCA t) (x_DNSNames t)).
Proof. unfold parse. by rewrite string_pos, decode_encode. Qed.
Lemma certLaws : CertLaws.
Proof.
  split; [done|done| |].
  - intros t p key signer raw [= <-]. eexists. split; [apply certificate_roundtrip|]. unfold parsedFrom. cbn [x_Raw x_IsCA x_DNSNames x_NotBefore x_NotAfter].
    pose proof (wholeSeconds_bounds (x_NotBefore t)). pose proof (wholeSeconds_bounds (x_NotAfter t)). repeat split; lia.
  - intros ta ca key rawCA t cert key' raw host now [= <-] Pa HCA [= <-] Pc Hh _ Ha. cbn in Pa, Pc. rewrite certificate_roundtrip in Pa, Pc. injection Pa as <-. injection Pc as <-.
    cbn [x_DNSNames x_IsCA verify certLib] in *. rewrite HCA. rewrite bool_decide_eq_true_2 by done. unfold Active in Ha. apply andb_prop in Ha as [H1 H2].
    apply Z.ltb_lt in H1, H2. cbn [x_NotBefore x_NotAfter] in *. rewrite (proj2 (Z.leb_le _ _)), (proj2 (Z.leb_le _ _)) by lia. done.
Qed.

Definition issuedAt : Time := 1700000000 * second + 7.
Definition entropy (serial : Z) : Entropy := mkEntropy (inr serial) (inr "key").
Definition hosts : list string := HostnamesForService (ServiceName "etcd") "ns".
Definition caPair : KeyPair := Eval vm_compute in match GenerateCA issuedAt (entropy 31) (CalculateCertExpiration issuedAt) Organization with inr p => p | inl _ => mkPair (mkCert "" 0 "" "" 0 0 false []) "" end.
Definition servingPair : KeyPair := Eval vm_compute in
  match CreateSignedServingPair issuedAt (entropy 32) (CalculateCertExpiration issuedAt) Organization caPair hosts with inr p => p | inl _ => caPair end.
Definition pemOf (p : KeyPair) : string * string := match ToPEM p with inr r => r | inl _ => ("", "") end.
Definition secretData : gmap string string := <["tls.crt" := (pemOf servingPair).1]> {[OLMCAPEMKey := (pemOf caPair).1]}.

(** A clock that ticks between two readings. *)
Definition ticking (start : Time) (r : CertReading) : Time :=
  start + match r with ReadStart => 0 | ReadActiveCA => 1 | ReadActiveCert => 2 | ReadVerify _ => 3 end.

Lemma issued_is_kept_witness :
  shouldRotateCerts (ticking (issuedAt + 3600 * second)) secretData hosts = false /\
  shouldRotateCerts (ticking (issuedAt + 729 * (24 * 3600 * second) + 1)) secretData hosts = true.
Proof.
  pose proof (fun clock => issued_is_kept certLaws issuedAt issuedAt issuedAt (entropy 31) (entropy 32) hosts caPair servingPair (pemOf caPair).1 (pemOf caPair).2
    (pemOf servingPair).1 (pemOf servingPair).2 secretData clock ltac:(by vm_compute) ltac:(by vm_compute) eq_refl eq_refl ltac:(by vm_compute) ltac:(by vm_compute)) as Hk.
  split; [apply (proj1 (Hk _)); intros [| | |host]; by vm_compute|apply (proj2 (Hk _)); by vm_compute].
Defined.
End CertsDemo.
