(* ===== verification/InstallStrategy.v ===== *)
(** * Installing the deployments of a ClusterServiceVersion

    Models the strategy installer of [controller/install]: [deployment.go] (deployments, their spec hash, the check
    whether they are installed), [certresources.go] (services, serving certificates and the objects around them),
    [apiservice.go] and [webhook.go] (API services, webhook configurations, conversion webhooks), [status_viewer.go],
    [resolver.go], the deployment client of [api/wrappers/deployment_install_client.go], and of
    [controller/operators/olm/apiservices.go] what recomputes the specs for the check
    ([updateDeploymentSpecsWithAPIServiceData]) and what tells whether webhooks are available.

    The installer edits the strategy and itself in place; here the edited values are returned.  An owner is always a
    ClusterServiceVersion: the only caller passes one.  The cluster is an [InstEnv]: the caches, what the client reads
    (which may depend on the calls made before), and the answers to calls.  A sync reads the clock once. *)

From stdpp Require Import pretty.
From S2P Require Import RegistryServers Prelude GoStrings RbacRules OwnerUtil RbacAuthorizer CsvTypes OperatorGroups Requirements OperatorRbac StepExecution CsvCopies CsvSync CsvTransition ClusterCalls Overrides Certificates.

#[local] Open Scope p_scope.
#[local] Open Scope stdpp_scope.
#[local] Arguments String.append : simpl nomatch.

(** ** Objects *)

Record ServicePort := mkPort { spt_Name : string; spt_Port : Z; spt_TargetPort : IntOrString }.
#[export] Instance ServicePort_eq_dec : EqDecision ServicePort.
Proof. solve_decision. Defined.

(** A service a webhook or an API service is reached at. *)
Record ServiceReference := mkServiceRef { sv_Namespace : string; sv_Name : string; sv_Path : option string; sv_Port : Z }.

(** [apiregistrationv1.APIService] with its spec. *)
Record ServedAPI := mkServedAPI {
  av_base : APIService; av_Annotations : option (gmap string string); av_Group : string; av_Version : string;
  av_GroupPriorityMinimum : Z; av_VersionPriority : Z; av_Service : option ServiceReference; av_CABundle : string
}.
Definition av_Name (a : ServedAPI) : string := OName (a_obj (av_base a)).

(** [MutatingWebhook] and [ValidatingWebhook]; the policies are the rest of the description. *)
Record Webhook := mkHook {
  wh_Name : string; wh_Rules : list WebhookRule; wh_NamespaceSelector : option GroupSelector;
  wh_Service : ServiceReference; wh_CABundle : string; wh_AdmissionReviewVersions : list string; wh_rest : string
}.
Inductive WebhookKind := Mutating | Validating.
Record WebhookConfiguration := mkHookConfig { wc_obj : Object; wc_GenerateName : string; wc_Webhooks : list Webhook }.

(** The conversion of a CRD; [None] stands for each pointer on the way to the client configuration, and its bundle. *)
Record ConversionClient := mkConversionClient { vc_Service : ServiceReference; vc_CABundle : option string; vc_ConversionReviewVersions : list string }.
Record Conversion := mkConversion { cv_Strategy : string; cv_Client : option ConversionClient }.
Record ConvertibleCRD := mkConvertible { vk_Name : string; vk_PreserveUnknownFields : bool; vk_Conversion : option Conversion; vk_rest : string }.

(** The objects of the old naming convention. *)
Inductive LegacyKind := LegacyService | LegacySecret | LegacyRole | LegacyRoleBinding | LegacyClusterRoleBinding.

Inductive InstCall :=
  | IApplyService (namespace name : string) (ports : list ServicePort) (selector : gmap string string) (owner : OwnerReference) (labels : gmap string string)
  | ICreateSecret (s : Secret) | IUpdateSecret (s : Secret)
  | ICreateRole (r : RbacRole) | IUpdateRole (r : RbacRole)
  | ICreateRoleBinding (b : RbacBinding) | IUpdateRoleBinding (b : RbacBinding)
  | IApplyRoleBinding (b : RbacBinding) | IApplyClusterRoleBinding (b : RbacBinding)
  | ICreateDeployment (d : Deployment) | IUpdateDeployment (d : Deployment) | IDeleteDeployment (namespace name : string)
  | ICreateAPIService (a : ServedAPI) | IUpdateAPIService (a : ServedAPI)
  | ICreateWebhook (k : WebhookKind) (w : WebhookConfiguration) | IUpdateWebhook (k : WebhookKind) (w : WebhookConfiguration) | IDeleteWebhook (k : WebhookKind) (name : string)
  | IUpdateCRD (c : ConvertibleCRD)
  | IDeleteLegacy (k : LegacyKind) (namespace name : string).

(** The readings of the clock: for the expiration, in [GenerateCA] and [CreateSignedServingPair], and in the two uses of
    [shouldRotateCerts], for a secret that is there and in [ShouldRotateCerts]. *)
Inductive InstReading :=
  | NowExpiration | NowCA | NowServing (hosts : list string) | NowKeep (hosts : list string) (r : CertReading) | NowRotate (hosts : list string) (r : CertReading).

Record InstEnv := mkInstEnv {
  ie_do : list InstCall -> InstCall -> option error;
  ie_now : InstReading -> Time;
  ie_entropy : list string -> Entropy;   (* for the CA, and for the hosts of a service *)
  ie_cluster : Cluster;
  ie_secret : string -> string -> error + Secret;
  ie_role : string -> string -> error + Object;
  ie_roleBinding : string -> string -> error + Object;
  ie_clusterRoleBinding : string -> error + Object;
  ie_service : string -> string -> error + Object;
  ie_serviceAccount : string -> string -> error + Object;
  ie_deployments : string -> error + list Deployment;
  ie_apiService : string -> error + ServedAPI;
  ie_subscriptions : string -> error + list ConfiguredSub;
  ie_groups : string -> error + list OperatorGroup;
  ie_getDeployment : list InstCall -> string -> string -> error + Deployment;
  ie_webhooks : list InstCall -> WebhookKind -> error + list WebhookConfiguration;
  ie_crd : list InstCall -> string -> error + ConvertibleCRD;
  ie_legacy : list InstCall -> LegacyKind -> string -> string -> error + Object;
}.

Class InstallLib := {
  encodeDeploymentSpec : DeploymentSpec -> error + string;
  encodeWebhookDescription : WebhookDescription -> error + string;
}.

(** ** errors.go, status_viewer.go *)

Definition StrategyErrReasonComponentMissing : string := "ComponentMissing".
Definition StrategyErrReasonWaiting : string := "Waiting".
Definition TimedOutReason : string := "ProgressDeadlineExceeded".
Definition DeploymentProgressing : string := "Progressing".
Definition DeploymentAvailable : string := "Available".

Definition getDeploymentCondition (conditions : list DeploymentCondition) (condType : string) : option DeploymentCondition :=
  List.find (fun c => bool_decide (dc_Type c = condType)) conditions.
Definition DeploymentStatus (d : Deployment) : error + string * bool :=
  if (dp_Generation d <=? dp_ObservedGeneration d)%Z then
    if match getDeploymentCondition (dp_Conditions d) DeploymentProgressing with Some c => bool_decide (dc_Reason c = TimedOutReason) | None => false end
    then inl (ErrString ("deployment " +:+ quoted (dp_Name d) +:+ " exceeded its progress deadline"))
    else if (dp_UpdatedReplicas d <? dp_Replicas d)%Z then
      inr ("deployment " +:+ quoted (dp_Name d) +:+ " waiting for " +:+ pretty (dp_Replicas d - dp_UpdatedReplicas d)%Z +:+ " outdated replica(s) to be terminated", false)
    else match getDeploymentCondition (dp_Conditions d) DeploymentAvailable with
         | None => inr ("deployment " +:+ quoted (dp_Name d) +:+ " not available: missing condition " +:+ quoted DeploymentAvailable, false)
         | Some c =>
             if bool_decide (dc_Status c = ConditionTrue) then inr ("deployment " +:+ quoted (dp_Name d) +:+ " is up-to-date and available", true)
             else inr ("deployment " +:+ quoted (dp_Name d) +:+ " not available: " +:+ dc_Message c, false)
         end
  else inr ("waiting for spec update of deployment " +:+ quoted (dp_Name d) +:+ " to be observed...", false).

(** ** Certified resources (certresources.go) *)

Inductive CertDesc := APIDesc (d : APIServiceDescription) | HookDesc (d : WebhookDescription).
Record certResource := mkCertResource { cr_Desc : CertDesc; cr_caPEM : string }.
Definition getDeploymentName (d : CertDesc) : string := match d with APIDesc d => as_DeploymentName d | HookDesc d => wd_DeploymentName d end.
Definition containerPort (declared : Z) : Z := if (0 <? declared)%Z then declared else 443%Z.
Definition getServicePort (d : CertDesc) : ServicePort :=
  match d with
  | APIDesc d => let port := containerPort (as_ContainerPort d) in mkPort (pretty port) port (IntValue port)
  | HookDesc d => let port := containerPort (wd_ContainerPort d) in mkPort (pretty port) port (default (IntValue port) (wd_TargetPort d))
  end.
Definition getServicePorts (descs : list certResource) : list ServicePort :=
  foldl (fun result desc => let port := getServicePort (cr_Desc desc) in if bool_decide (port ∈ result) then result else result ++ [port]) [] descs.

(** [DeploymentInitializerFuncChain] *)
Definition Initializer : Type := Deployment -> error + Deployment.
Fixpoint Apply (c : list (option Initializer)) (d : Deployment) : error + Deployment :=
  match c with
  | [] => inr d
  | None :: c => Apply c d
  | Some initializer :: c => match initializer d with inl err => inl err | inr d => Apply c d end
  end.

Record StrategyDeploymentInstaller := mkSDI {
  sdi_owner : CSV; sdi_templateAnnotations : option (gmap string string); sdi_initializers : list (option Initializer);
  sdi_apiServiceDescriptions : list certResource; sdi_webhookDescriptions : list certResource;
  sdi_certificateExpirationTime : Time; sdi_certificatesRotated : bool
}.
Definition NewStrategyDeploymentInstaller (templateAnnotations : option (gmap string string)) (owner : CSV) (initializers : list (option Initializer))
    (apiServiceDescriptions : list APIServiceDescription) (webhookDescriptions : list WebhookDescription) : StrategyDeploymentInstaller :=
  mkSDI owner templateAnnotations initializers ((fun d => mkCertResource (APIDesc d) "") <$> apiServiceDescriptions) ((fun d => mkCertResource (HookDesc d) "") <$> webhookDescriptions) 0%Z false.

(** [InstallerForStrategy], as the OLM operator calls it for a CSV. *)
Definition InstallerForStrategy (csv : CSV) (initializers : list (option Initializer)) : StrategyDeploymentInstaller :=
  NewStrategyDeploymentInstaller (csv_Annotations csv) csv initializers (GetAllAPIServiceDescriptions csv) (spec_WebhookDefinitions (csv_Spec csv)).

Definition getCertResources (i : StrategyDeploymentInstaller) : list certResource := sdi_apiServiceDescriptions i ++ sdi_webhookDescriptions i.
Definition forDeployment (deploymentName : string) (r : certResource) : bool := bool_decide (getDeploymentName (cr_Desc r) = deploymentName).
Definition certResourcesForDeployment (i : StrategyDeploymentInstaller) (deploymentName : string) : list certResource := List.filter (forDeployment deploymentName) (getCertResources i).
Definition setCAPEM (deploymentName caPEM : string) (r : certResource) : certResource := if forDeployment deploymentName r then mkCertResource (cr_Desc r) caPEM else r.
Definition updateCertResourcesForDeployment (i : StrategyDeploymentInstaller) (deploymentName caPEM : string) : StrategyDeploymentInstaller :=
  mkSDI (sdi_owner i) (sdi_templateAnnotations i) (sdi_initializers i) (setCAPEM deploymentName caPEM <$> sdi_apiServiceDescriptions i) (setCAPEM deploymentName caPEM <$> sdi_webhookDescriptions i)
    (sdi_certificateExpirationTime i) (sdi_certificatesRotated i).
Definition setExpiration (i : StrategyDeploymentInstaller) (t : Time) : StrategyDeploymentInstaller :=
  mkSDI (sdi_owner i) (sdi_templateAnnotations i) (sdi_initializers i) (sdi_apiServiceDescriptions i) (sdi_webhookDescriptions i) t (sdi_certificatesRotated i).
Definition setRotated (i : StrategyDeploymentInstaller) (rotated : bool) : StrategyDeploymentInstaller :=
  mkSDI (sdi_owner i) (sdi_templateAnnotations i) (sdi_initializers i) (sdi_apiServiceDescriptions i) (sdi_webhookDescriptions i) (sdi_certificateExpirationTime i) (sdi_certificatesRotated i || rotated).

(** *** What certificates change in a deployment *)

Definition setTemplateAccount (s : DeploymentSpec) (name : string) : DeploymentSpec :=
  mkDeploymentSpec (sp_Annotations s) name (sp_Volumes s) (sp_Containers s) (sp_Tolerations s) (sp_NodeSelector s) (sp_Affinity s) (sp_MatchLabels s) (sp_RevisionHistoryLimit s) (sp_rest s).
Definition defaultServiceAccount (s : DeploymentSpec) : DeploymentSpec := if bool_decide (sp_ServiceAccountName s = "") then setTemplateAccount s "default" else s.
Definition SetCAAnnotation (s : DeploymentSpec) (caHash : string) : DeploymentSpec :=
  setTemplateAnnotations s (Some (<[OLMCAHashAnnotationKey := caHash]> (default ∅ (sp_Annotations s)))).
(** The first mount of the name stays; the first one at the path, when it comes before, is replaced. *)
Fixpoint addMount (mount : VolumeMount) (mounts : list VolumeMount) : list VolumeMount :=
  match mounts with
  | [] => [mount]
  | m :: ms =>
      if bool_decide (vm_Name m = vm_Name mount) then m :: ms
      else if bool_decide (vm_MountPath m = vm_MountPath mount) then mount :: ms
      else m :: addMount mount ms
  end.
Definition addCertVolumeAndVolumeMount (s : DeploymentSpec) (volume : Volume) (mount : VolumeMount) : DeploymentSpec :=
  let volumes := default (sp_Volumes s ++ [volume]) (replaceFirst v_Name volume (sp_Volumes s)) in
  setContainers (setVolumes s volumes) ((fun c => setMounts c (addMount mount (ct_VolumeMounts c))) <$> sp_Containers s).
Definition apiserviceVolume (secretName : string) : Volume := mkVolume "apiservice-cert" (SecretSource secretName [("tls.crt", "apiserver.crt"); ("tls.key", "apiserver.key")]).
Definition apiserviceMount : VolumeMount := mkMount "apiservice-cert" "/apiserver.local.config/certificates" "".
Definition webhookVolume (secretName : string) : Volume := mkVolume "webhook-cert" (SecretSource secretName [("tls.crt", "tls.crt"); ("tls.key", "tls.key")]).
Definition webhookMount : VolumeMount := mkMount "webhook-cert" "/tmp/k8s-webhook-server/serving-certs" "".
Definition AddDefaultCertVolumeAndVolumeMounts (s : DeploymentSpec) (secretName : string) : DeploymentSpec :=
  addCertVolumeAndVolumeMount (addCertVolumeAndVolumeMount s (apiserviceVolume secretName) apiserviceMount) (webhookVolume secretName) webhookMount.
(** A spec that mounts a certificate. *)
Definition certified (secretName caHash : string) (s : DeploymentSpec) : DeploymentSpec :=
  SetCAAnnotation (AddDefaultCertVolumeAndVolumeMounts (defaultServiceAccount s) secretName) caHash.

(** ** Operations *)

Section installer.
Context `{RangeOrder, RbacLib, InstallLib, CertLib} (env : InstEnv).
Abbreviation P := (P InstCall).

Definition ido (c : InstCall) : P unit := check (perform (ie_do env) c).
(** A read through the client. *)
Definition iread {A} (f : list InstCall -> A) : P A := fun h => (h, inr (f h)).
Definition managedLabel : gmap string string := {[OLMManagedLabelKey := OLMManagedLabelValue]}.
Definition owner_ (i : StrategyDeploymentInstaller) : Object := csv_obj (sdi_owner i).
Definition ownerNamespace (i : StrategyDeploymentInstaller) : string := csv_Namespace (sdi_owner i).
Definition ownerKind (i : StrategyDeploymentInstaller) : string := Kind (ownerGVK (owner_ i)).

(** *** Certificates of one deployment *)

Definition applyService (i : StrategyDeploymentInstaller) (serviceName : string) (s : DeploymentSpec) (ports : list ServicePort) : P unit :=
  ido (IApplyService (ownerNamespace i) serviceName ports (sp_MatchLabels s) (NonBlockingOwner (owner_ i)) managedLabel).

(** The serving certificate and its key, and the certificate of the authority. *)
Definition servingCerts (ca : KeyPair) (expiration : Time) (hosts : list string) : P (string * string * string) :=
  let! pair := plift (CreateSignedServingPair (ie_now env (NowServing hosts)) (ie_entropy env hosts) expiration Organization ca hosts) in
  let! pems := plift (ToPEM pair) in
  let! caPEMs := plift (ToPEM ca) in
  pret (pems.1, pems.2, caPEMs.1).

Definition certSecret (name namespace certPEM privPEM caPEM : string) : Secret :=
  mkSecret (mkObj TSecret noGVK name namespace "" [] (Some managedLabel))
    (Some (<[OpenShiftComponent := OLMOwnershipAnnotation]> {[OLMCAHashAnnotationKey := PEMSHA256 caPEM]}))
    (<["tls.crt" := certPEM]> (<["tls.key" := privPEM]> {[OLMCAPEMKey := caPEM]})) "kubernetes.io/tls".
Definition setSecretObj (s : Secret) (o : Object) : Secret := mkSecret o (sec_Annotations s) (sec_Data s) (sec_Type s).
Definition ownSecret (i : StrategyDeploymentInstaller) (s : Secret) : Secret := setSecretObj s (AddNonBlockingOwner (sec_obj s) (owner_ i)).
(** The name of the secret, the authority in it, and whether it was written. *)
Definition ensureCertSecret (i : StrategyDeploymentInstaller) (secret : Secret) (caPEM : string) (hosts : list string) : P (string * string * bool) :=
  let name := OName (sec_obj secret) in
  match ie_secret env (ownerNamespace i) name with
  | inr existingSecret =>
      let secret := if Adoptable (owner_ i) (OwnerRefs (sec_obj existingSecret)) then ownSecret i secret else secret in
      if negb (shouldRotateCerts (fun r => ie_now env (NowKeep hosts r)) (sec_Data existingSecret) hosts) then
        pret (OName (sec_obj existingSecret), default "" (sec_Data existingSecret !! OLMCAPEMKey), false)
      else run! ido (IUpdateSecret secret) in pret (name, caPEM, true)
  | inl err =>
      if IsNotFound (Some err) then
        let! answer := perform (ie_do env) (ICreateSecret (ownSecret i secret)) in
        match answer with
        | None => pret (name, caPEM, true)
        | Some err =>
            if IsAlreadyExists (Some err) then run! ido (IUpdateSecret (ownSecret i secret)) in pret (name, caPEM, true)
            else pfail err
        end
      else pfail err
  end.

(** A role or a role binding: updated when the cache has one, with the owner when it may be adopted; else created. *)
Definition createOrAdopt (i : StrategyDeploymentInstaller) (existing : error + Object) (o : Object) (create update : Object -> InstCall) : P unit :=
  match existing with
  | inr existing => ido (update (if Adoptable (owner_ i) (OwnerRefs existing) then AddNonBlockingOwner o (owner_ i) else o))
  | inl err => if IsNotFound (Some err) then ido (create (AddNonBlockingOwner o (owner_ i))) else pfail err
  end.

Definition secretRules (secretName : string) : list PolicyRule := [mkRule ["get"] [""] ["secrets"] [secretName] None].
Definition ensureSecretRole (i : StrategyDeploymentInstaller) (secretName : string) : P unit :=
  let role o := mkRbacRole o (secretRules secretName) in
  createOrAdopt i (ie_role env (ownerNamespace i) secretName) (mkObj TRole noGVK secretName (ownerNamespace i) "" [] (Some managedLabel)) (fun o => ICreateRole (role o)) (fun o => IUpdateRole (role o)).
Definition serviceAccountSubject (i : StrategyDeploymentInstaller) (serviceAccount : string) : list Subject := [mkSubject "ServiceAccount" serviceAccount (ownerNamespace i)].
Definition ensureSecretRoleBinding (i : StrategyDeploymentInstaller) (secretName serviceAccount : string) : P unit :=
  let binding o := mkRbacBinding o (mkRoleRef "Role" secretName) (serviceAccountSubject i serviceAccount) in
  createOrAdopt i (ie_roleBinding env (ownerNamespace i) secretName) (mkObj TRoleBinding noGVK secretName (ownerNamespace i) "" [] (Some managedLabel))
    (fun o => ICreateRoleBinding (binding o)) (fun o => IUpdateRoleBinding (binding o)).

Definition KubeSystem : string := "kube-system".
Definition AuthDelegatorClusterRoleBindingName (serviceName : string) : string := serviceName +:+ "-system:auth-delegator".
Definition AuthReaderRoleBindingName (serviceName : string) : string := serviceName +:+ "-auth-reader".
Definition applyAuthDelegator (i : StrategyDeploymentInstaller) (serviceName serviceAccount : string) : P unit :=
  ido (IApplyClusterRoleBinding (mkRbacBinding (mkObj TClusterRoleBinding noGVK (AuthDelegatorClusterRoleBindingName serviceName) "" "" [] (Some (OwnerLabel (owner_ i) (ownerKind i) ∪ managedLabel)))
    (mkRoleRef "ClusterRole" "system:auth-delegator") (serviceAccountSubject i serviceAccount))).
Definition applyAuthReader (i : StrategyDeploymentInstaller) (serviceName serviceAccount : string) : P unit :=
  ido (IApplyRoleBinding (mkRbacBinding (mkObj TRoleBinding noGVK (AuthReaderRoleBindingName serviceName) KubeSystem "" [] (Some managedLabel))
    (mkRoleRef "Role" "extension-apiserver-authentication-reader") (serviceAccountSubject i serviceAccount))).

(** The spec with the certificate, the authority, and whether certificates were written. *)
Definition installCertRequirementsForDeployment (i : StrategyDeploymentInstaller) (deploymentName : string) (ca : KeyPair) (expiration : Time) (depSpec : DeploymentSpec) (ports : list ServicePort)
    : P (DeploymentSpec * string * bool) :=
  let serviceName := ServiceName deploymentName in
  let hosts := HostnamesForService serviceName (ownerNamespace i) in
  run! applyService i serviceName depSpec ports in
  let! pems := servingCerts ca expiration hosts in
  let '(certPEM, privPEM, caPEM) := pems in
  let! kept := ensureCertSecret i (certSecret (SecretName serviceName) (ownerNamespace i) certPEM privPEM caPEM) caPEM hosts in
  let '(secretName, caPEM, rotated) := kept in
  run! ensureSecretRole i secretName in
  let serviceAccount := sp_ServiceAccountName (defaultServiceAccount depSpec) in
  run! ensureSecretRoleBinding i secretName serviceAccount in
  run! applyAuthDelegator i serviceName serviceAccount in
  run! applyAuthReader i serviceName serviceAccount in
  pret (certified secretName (PEMSHA256 caPEM) depSpec, caPEM, rotated).

Definition setDeploymentSpec (d : StrategyDeploymentSpec) (s : DeploymentSpec) : StrategyDeploymentSpec := mkStrategySpec (ds_Name d) s (ds_Label d).
Definition installCertsOf (ca : KeyPair) (acc : StrategyDeploymentInstaller * list StrategyDeploymentSpec) (d : StrategyDeploymentSpec) : P (StrategyDeploymentInstaller * list StrategyDeploymentSpec) :=
  let '(i, done) := acc in
  match certResourcesForDeployment i (ds_Name d) with
  | [] => pret (i, done ++ [d])
  | certResources =>
      let! r := installCertRequirementsForDeployment i (ds_Name d) ca (sdi_certificateExpirationTime i) (ds_Spec d) (getServicePorts certResources) in
      let '(newDepSpec, caPEM, rotated) := r in
      pret (updateCertResourcesForDeployment (setRotated i rotated) (ds_Name d) caPEM, done ++ [setDeploymentSpec d newDepSpec])
  end.
Definition installCertRequirements (i : StrategyDeploymentInstaller) (strategy : StrategyDetailsDeployment) : P (StrategyDeploymentInstaller * list StrategyDeploymentSpec) :=
  let i := setExpiration i (CalculateCertExpiration (ie_now env NowExpiration)) in
  let! ca := plift (GenerateCA (ie_now env NowCA) (ie_entropy env []) (sdi_certificateExpirationTime i) Organization) in
  pfold (installCertsOf ca) (i, []) (sd_DeploymentSpecs strategy).

Definition CertsRotateAt (i : StrategyDeploymentInstaller) : Time := CalculateCertRotatesAt (sdi_certificateExpirationTime i).
Definition CertsRotated (i : StrategyDeploymentInstaller) : bool := sdi_certificatesRotated i.
Fixpoint rotateAny (i : StrategyDeploymentInstaller) (specs : list StrategyDeploymentSpec) : error + bool :=
  match specs with
  | [] => inr false
  | d :: specs =>
      if existsb (forDeployment (ds_Name d)) (getCertResources i) then
        match ie_secret env (ownerNamespace i) (SecretName (ServiceName (ds_Name d))) with
        | inr certSecret =>
            let hosts := HostnamesForService (ServiceName (ds_Name d)) (ownerNamespace i) in
            if shouldRotateCerts (fun r => ie_now env (NowRotate hosts r)) (sec_Data certSecret) hosts then inr true else rotateAny i specs
        | inl err => if IsNotFound (Some err) then inr true else inl err
        end
      else rotateAny i specs
  end.
Definition ShouldRotateCerts (i : StrategyDeploymentInstaller) (strategy : StrategyDetailsDeployment) : error + bool := rotateAny i (sd_DeploymentSpecs strategy).

(** *** API services (apiservice.go) *)

Definition managedAPI (a : ServedAPI) (o : Object) (service : ServiceReference) (caPEM : string) : ServedAPI :=
  let o := SetLabels o (<[OLMManagedLabelKey := OLMManagedLabelValue]> (default ∅ (Labels o))) in
  mkServedAPI (mkAPIService o (a_Conditions (av_base a))) (av_Annotations a) (av_Group a) (av_Version a) (av_GroupPriorityMinimum a) (av_VersionPriority a) (Some service) caPEM.
Definition freshAPI (desc : APIServiceDescription) (annotations : option (gmap string string)) : ServedAPI :=
  mkServedAPI (mkAPIService (mkObj TAPIService noGVK (APIServiceDescription_GetName desc) "" "" [] None) []) annotations (as_Group desc) (as_Version desc) 2000 15 None "".
Definition findOwnerSubscription (i : StrategyDeploymentInstaller) : error + option ConfiguredSub :=
  match ie_subscriptions env (ownerNamespace i) with
  | inl err => inl (ErrString ("failed to list subscription namespace=" +:+ ownerNamespace i +:+ " - " +:+ Error_ err))
  | inr list => inr (findOwner list (csv_Name (sdi_owner i)))
  end.
(** The API service to write, and whether it exists. *)
Definition apiServiceFor (i : StrategyDeploymentInstaller) (desc : APIServiceDescription) : error + ServedAPI * bool :=
  match ie_apiService env (APIServiceDescription_GetName desc) with
  | inl err =>
      if negb (IsNotFound (Some err)) then inl err
      else match findOwnerSubscription i with
           | inl err => inl err
           | inr sub => inr (freshAPI desc ((sub ≫= cu_Config) ≫= cf_Annotations), false)
           end
  | inr apiService =>
      match IsAPIServiceAdoptable (ie_cluster env) (sdi_owner i) (av_base apiService) with
      | inr true => inr (apiService, true)
      | _ => inl (ErrString ("pre-existing APIService " +:+ APIServiceDescription_GetName desc +:+ " is not adoptable"))
      end
  end.
Definition createOrUpdateAPIService (i : StrategyDeploymentInstaller) (caPEM : string) (desc : APIServiceDescription) : P unit :=
  let! found := plift (apiServiceFor i desc) in
  let '(apiService, exists_) := found in
  match AddOwnerLabels (a_obj (av_base apiService)) (owner_ i) with
  | None => pfail (ErrString "could not infer GVK for object")
  | Some o =>
      let apiService := managedAPI apiService o (mkServiceRef (ownerNamespace i) (ServiceName (as_DeploymentName desc)) None (containerPort (as_ContainerPort desc))) caPEM in
      ido (if exists_ then IUpdateAPIService apiService else ICreateAPIService apiService)
  end.

Definition legacyAPIServiceNameToServiceName (apiServiceName : string) : string := dotsToDashes apiServiceName.
Definition deleteLegacy (i : StrategyDeploymentInstaller) (k : LegacyKind) (namespace name : string) : P unit :=
  let! existing := iread (fun h => ie_legacy env h k namespace name) in
  match existing with
  | inl err => if IsNotFound (Some err) then pret tt else pfail err
  | inr existing =>
      if AdoptableLabels (Labels existing) true [owner_ i] then
        let! answer := perform (ie_do env) (IDeleteLegacy k namespace name) in
        match answer with Some err => if IsNotFound (Some err) then pret tt else pfail err | None => pret tt end
      else pret tt
  end.
(** The second comparison of the names never decides: the first one has returned. *)
Definition deleteLegacyAPIServiceResources (i : StrategyDeploymentInstaller) (desc : APIServiceDescription) : P unit :=
  let namespace := ownerNamespace i in
  let apiServiceName := APIServiceDescription_GetName desc in
  if bool_decide (legacyAPIServiceNameToServiceName apiServiceName = ServiceName (as_DeploymentName desc)) then pret tt
  else
    let legacyServiceName := legacyAPIServiceNameToServiceName apiServiceName in
    run! if bool_decide (legacyServiceName = ServiceName (as_DeploymentName desc)) then pret tt else deleteLegacy i LegacyService namespace legacyServiceName in
    run! deleteLegacy i LegacySecret namespace (SecretName apiServiceName) in
    run! deleteLegacy i LegacyRole namespace (SecretName apiServiceName) in
    run! deleteLegacy i LegacyRoleBinding namespace (SecretName apiServiceName) in
    run! deleteLegacy i LegacyClusterRoleBinding "" (apiServiceName +:+ "-system:auth-delegator") in
    deleteLegacy i LegacyRoleBinding KubeSystem (apiServiceName +:+ "-auth-reader").

(** *** Webhooks (webhook.go, and [GetMutatingWebhook], [GetValidatingWebhook], [DomainName] of the CSV type) *)

Definition WebhookDescKey : string := "olm.webhook-description-generate-name".
Definition WebhookHashKey : string := "olm.webhook-description-hash".
Definition DomainName (w : WebhookDescription) : string := dotsToDashes (wd_DeploymentName w).
Definition webhookService (namespace : string) (w : WebhookDescription) (path : option string) : ServiceReference :=
  mkServiceRef namespace (DomainName w +:+ "-service") path (wd_ContainerPort w).
Definition GetWebhook (namespace : string) (namespaceSelector : option GroupSelector) (caBundle : string) (w : WebhookDescription) : Webhook :=
  mkHook (wd_GenerateName w) (wd_Rules w) namespaceSelector (webhookService namespace w (wd_WebhookPath w)) caBundle (wd_AdmissionReviewVersions w) (wd_rest w).

(** The labels stay as they are when the description cannot be hashed: the error is dropped. *)
Definition addWebhookLabels (o : Object) (desc : WebhookDescription) : Object :=
  match DeepHashObject (encodeWebhookDescription desc) with
  | inl _ => o
  | inr hash => SetLabels o (<[OLMManagedLabelKey := OLMManagedLabelValue]> (<[WebhookHashKey := hash]> (<[WebhookDescKey := wd_GenerateName desc]> (default ∅ (Labels o)))))
  end.
Definition webhookSelector (owner : Object) (kind : string) (desc : WebhookDescription) : gmap string string := <[WebhookDescKey := wd_GenerateName desc]> (OwnerLabel owner kind).
Definition selectedHooks (sel : gmap string string) (configs : list WebhookConfiguration) : list WebhookConfiguration := List.filter (fun w => selects sel (wc_obj w)) configs.
(** [createOrUpdateMutatingWebhook] and [createOrUpdateValidatingWebhook] *)
Definition createOrUpdateAdmissionWebhook (i : StrategyDeploymentInstaller) (k : WebhookKind) (ogNamespaceLabelSelector : option GroupSelector) (caPEM : string) (desc : WebhookDescription) : P unit :=
  let! configs := must (iread (fun h => ie_webhooks env h k)) in
  let webhooks := [GetWebhook (ownerNamespace i) ogNamespaceLabelSelector caPEM desc] in
  match selectedHooks (webhookSelector (owner_ i) (ownerKind i) desc) configs with
  | [] =>
      let o := mkObj TOther noGVK "" (ownerNamespace i) "" [] (Some (OwnerLabel (owner_ i) (ownerKind i))) in
      ido (ICreateWebhook k (mkHookConfig (addWebhookLabels o desc) (wd_GenerateName desc +:+ "-") webhooks))
  | existing => pfor existing (fun w => ido (IUpdateWebhook k (mkHookConfig (addWebhookLabels (wc_obj w) desc) (wc_GenerateName w) webhooks)))
  end.

Definition isSingletonOperator (csv : CSV) : bool :=
  forallb (fun m => if bool_decide (im_Type m = InstallModeTypeAllNamespaces) then im_Supported m else negb (im_Supported m)) (spec_InstallModes (csv_Spec csv)).

(** [retry.RetryOnConflict] with [retry.DefaultRetry]: at most five attempts. *)
Fixpoint retryOnConflict (attempts : nat) (fn : P unit) : P unit :=
  match attempts with
  | O | S O => fn
  | S attempts => let! r := attempt fn in match r with inr _ => pret tt | inl err => if IsConflict (Some err) then retryOnConflict attempts fn else pfail err end
  end.
Definition convertCRD (i : StrategyDeploymentInstaller) (caPEM : string) (desc : WebhookDescription) (conversionCRD : string) : P unit :=
  let! crd := iread (fun h => ie_crd env h conversionCRD) in
  match crd with
  | inl err => pfail (ErrString ("unable to get CRD " +:+ conversionCRD +:+ " specified in Conversion Webhook: " +:+ Error_ err))
  | inr crd =>
      if negb (OwnsCRD (sdi_owner i) conversionCRD) then pfail (ErrString ("csv " +:+ csv_Name (sdi_owner i) +:+ " does not own CRD " +:+ conversionCRD))
      else if vk_PreserveUnknownFields crd then pfail (ErrString "crd.Spec.PreserveUnknownFields must be false to let API Server call webhook to do the conversion")
      else
        let client := mkConversionClient (webhookService (ownerNamespace i) desc (Some (default "/" (wd_WebhookPath desc)))) (Some caPEM) (wd_AdmissionReviewVersions desc) in
        let! answer := perform (ie_do env) (IUpdateCRD (mkConvertible (vk_Name crd) false (Some (mkConversion "Webhook" (Some client))) (vk_rest crd))) in
        match answer with None => pret tt | Some err => pfail (wrapErr "Error updating CRD with Conversion info" err) end
  end.
Definition createOrUpdateConversionWebhook (i : StrategyDeploymentInstaller) (caPEM : string) (desc : WebhookDescription) : P unit :=
  if negb (isSingletonOperator (sdi_owner i)) then pfail (ErrString "unable to manage conversion webhook: CSVs with conversion webhooks must support only AllNamespaces")
  else match wd_ConversionCRDs desc with
       | [] => pfail (ErrString "unable to manager conversion webhook: conversion webhook must have at least one CRD specified")
       | crds => pfor crds (fun crd => retryOnConflict 5 (convertCRD i caPEM desc crd))
       end.
Definition createOrUpdateWebhook (i : StrategyDeploymentInstaller) (caPEM : string) (desc : WebhookDescription) : P unit :=
  match ie_groups env (ownerNamespace i) with
  | inr [group] =>
      let! selector := plift (NamespaceLabelSelector group) in
      if bool_decide (wd_Type desc = ValidatingAdmissionWebhook) then createOrUpdateAdmissionWebhook i Validating selector caPEM desc
      else if bool_decide (wd_Type desc = MutatingAdmissionWebhook) then createOrUpdateAdmissionWebhook i Mutating selector caPEM desc
      else if bool_decide (wd_Type desc = ConversionWebhook) then createOrUpdateConversionWebhook i caPEM desc
      else pret tt
  | _ => pfail (ErrString "error retrieving OperatorGroup info")
  end.

(** *** Deployments (deployment.go) *)

Definition DeploymentSpecHashLabelKey : string := "olm.deployment-spec-hash".
Definition setRevisionHistoryLimit (s : DeploymentSpec) (n : Z) : DeploymentSpec :=
  mkDeploymentSpec (sp_Annotations s) (sp_ServiceAccountName s) (sp_Volumes s) (sp_Containers s) (sp_Tolerations s) (sp_NodeSelector s) (sp_Affinity s) (sp_MatchLabels s) (Some n) (sp_rest s).
Definition setDepObj (d : Deployment) (o : Object) : Deployment :=
  mkDeployment o (dp_Annotations d) (dp_Spec d) (dp_Generation d) (dp_ObservedGeneration d) (dp_Replicas d) (dp_UpdatedReplicas d) (dp_Conditions d).
(** The annotations of the template are those of the spec, and over them the ones of the CSV. *)
Definition annotatedSpec (i : StrategyDeploymentInstaller) (s : DeploymentSpec) : DeploymentSpec :=
  setTemplateAnnotations s (Some (default ∅ (sdi_templateAnnotations i) ∪ default ∅ (sp_Annotations s))).
Definition deploymentObject (i : StrategyDeploymentInstaller) (name : string) (specLabels : gmap string string) : Object :=
  let o := mkObj TOther noGVK name (ownerNamespace i) "" [] (Some (<[OLMManagedLabelKey := OLMManagedLabelValue]> specLabels)) in
  AddOwnerLabelsForKind (AddNonBlockingOwner o (owner_ i)) (owner_ i) ClusterServiceVersionKind.
Definition deploymentForSpec (i : StrategyDeploymentInstaller) (name : string) (spec : DeploymentSpec) (specLabels : gmap string string) : error + Deployment * string :=
  match Apply (sdi_initializers i) (mkDeployment (deploymentObject i name specLabels) None (annotatedSpec i spec) 0 0 0 0 []) with
  | inl err => inl err
  | inr dep =>
      let s := InjectEnvIntoDeployment (dp_Spec dep) [mkEnvVar "OPERATOR_CONDITION_NAME" (csv_Name (sdi_owner i)) None] in
      let s := setRevisionHistoryLimit s 1 in
      match DeepHashObject (encodeDeploymentSpec s) with
      | inl err => inl err
      | inr hash => inr (setSpec (setDepObj dep (SetLabels (dp_obj dep) (<[DeploymentSpecHashLabelKey := hash]> (default ∅ (Labels (dp_obj dep)))))) s, hash)
      end
  end.

(** [CreateOrUpdateDeployment], [FindAnyDeploymentsMatchingLabels] of the deployment client *)
Definition CreateOrUpdateDeployment (d : Deployment) : P unit :=
  let! existing := iread (fun h => ie_getDeployment env h (ONamespace (dp_obj d)) (dp_Name d)) in
  match existing with
  | inl err => if IsNotFound (Some err) then ido (ICreateDeployment d) else pfail err
  | inr _ => ido (IUpdateDeployment d)
  end.
Definition FindAnyDeploymentsMatchingLabels (i : StrategyDeploymentInstaller) : error + list Deployment :=
  match ie_deployments env (ownerNamespace i) with
  | inl err => inl err
  | inr deployments => inr (List.filter (fun d => selects (OwnerLabel (owner_ i) ClusterServiceVersionKind) (dp_obj d)) deployments)
  end.

Definition createOrUpdateCertResource (i : StrategyDeploymentInstaller) (r : certResource) : P unit :=
  match cr_Desc r with
  | APIDesc desc => run! createOrUpdateAPIService i (cr_caPEM r) desc in deleteLegacyAPIServiceResources i desc
  | HookDesc desc => createOrUpdateWebhook i (cr_caPEM r) desc
  end.
Definition createOrUpdateCertResourcesForDeployment (i : StrategyDeploymentInstaller) : P unit := pfor (getCertResources i) (createOrUpdateCertResource i).
Definition installDeployment (i : StrategyDeploymentInstaller) (d : StrategyDeploymentSpec) : P unit :=
  let! deployment := plift (deploymentForSpec i (ds_Name d) (ds_Spec d) (ds_Label d)) in
  run! CreateOrUpdateDeployment deployment.1 in
  createOrUpdateCertResourcesForDeployment i.
Definition installDeployments (i : StrategyDeploymentInstaller) (deps : list StrategyDeploymentSpec) : P unit := pfor deps (installDeployment i).

Definition cleanupOrphanedDeployments (i : StrategyDeploymentInstaller) (specs : list StrategyDeploymentSpec) : P unit :=
  let! existingDeployments := plift (FindAnyDeploymentsMatchingLabels i) in
  pfor existingDeployments (fun d =>
    if negb (bool_decide (dp_Name d ∈ ds_Name <$> specs)) && IsOwnedBy (dp_obj d) (owner_ i) then ido (IDeleteDeployment (ownerNamespace i) (dp_Name d)) else pret tt).

Definition forbiddenInstall (err : error) : error :=
  if IsForbidden (Some err) then ErrStrategy StrategyErrInsufficientPermissions ("install strategy failed: " +:+ Error_ err) else err.
Definition Install (i : StrategyDeploymentInstaller) (strategy : StrategyDetailsDeployment) : P StrategyDeploymentInstaller :=
  let! r := installCertRequirements i strategy in
  let '(i, specs) := r in
  let! installed := attempt (installDeployments i specs) in
  match installed with
  | inl err => pfail (forbiddenInstall err)
  | inr _ => run! cleanupOrphanedDeployments i specs in pret i
  end.

(** *** The check *)

Definition annotationsError (i : StrategyDeploymentInstaller) (annotations : option (gmap string string)) : option error :=
  let expected := default ∅ (sdi_templateAnnotations i) in
  if (0 <? size expected)%nat && bool_decide (annotations = None) then Some (ErrStrategy StrategyErrReasonAnnotationsMissing "no annotations found on deployment")
  else
    match List.find (fun '(key, value) => negb (bool_decide (default ∅ annotations !! key = Some value))) (range expected) with
    | None => None
    | Some (key, value) =>
        match default ∅ annotations !! key with
        | None => Some (ErrStrategy StrategyErrReasonAnnotationsMissing ("annotations on deployment does not contain expected key: " +:+ key))
        | Some actualValue =>
            Some (ErrStrategy StrategyErrReasonAnnotationsMissing ("unexpected annotation on deployment. Expected " +:+ key +:+ ":" +:+ value +:+ ", found " +:+ key +:+ ":" +:+ actualValue))
        end
    end.
Definition hashError (i : StrategyDeploymentInstaller) (spec : StrategyDeploymentSpec) (dep : Deployment) : option error :=
  let labels := default ∅ (Labels (dp_obj dep)) in
  match labels !! DeploymentSpecHashLabelKey with
  | None => Some (ErrStrategy StrategyErrDeploymentUpdated ("deployment " +:+ dp_Name dep +:+ " doesn't have a spec hash, update it"))
  | Some existingDeploymentSpecHash =>
      match deploymentForSpec i (ds_Name spec) (ds_Spec spec) labels with
      | inl err => Some (ErrStrategy StrategyErrDeploymentUpdated ("couldn't calculate deployment spec hash: " +:+ Error_ err))
      | inr (_, calculatedDeploymentHash) =>
          if bool_decide (existingDeploymentSpecHash = calculatedDeploymentHash) then None
          else Some (ErrStrategy StrategyErrDeploymentUpdated ("deployment changed old hash=" +:+ existingDeploymentSpecHash +:+ ", new hash=" +:+ calculatedDeploymentHash))
      end
  end.
Definition checkDeployment (i : StrategyDeploymentInstaller) (existing : gmap string Deployment) (spec : StrategyDeploymentSpec) : option error :=
  match existing !! ds_Name spec with
  | None => Some (ErrStrategy StrategyErrReasonComponentMissing ("missing deployment with name=" +:+ ds_Name spec))
  | Some dep =>
      match DeploymentStatus dep with
      | inl err => Some (ErrStrategy StrategyErrReasonTimeout ("deployment " +:+ dp_Name dep +:+ " not ready before timeout: " +:+ Error_ err))
      | inr (reason, false) => Some (ErrStrategy StrategyErrReasonWaiting ("waiting for deployment " +:+ dp_Name dep +:+ " to become ready: " +:+ reason))
      | inr (_, true) => match annotationsError i (sp_Annotations (dp_Spec dep)) with Some err => Some err | None => hashError i spec dep end
      end
  end.
(** The first error in the order of the specs. *)
Definition firstError {A} (f : A -> option error) (l : list A) : option error := head (omap f l).
Definition checkForDeployments (i : StrategyDeploymentInstaller) (specs : list StrategyDeploymentSpec) : option error :=
  match FindAnyDeploymentsMatchingLabels i with
  | inl err => Some (ErrStrategy StrategyErrReasonComponentMissing ("error querying existing deployments for CSV " +:+ csv_Name (sdi_owner i) +:+ ": " +:+ Error_ err))
  | inr existingDeployments => firstError (checkDeployment i (foldl (fun m d => <[dp_Name d := d]> m) ∅ existingDeployments)) specs
  end.
Definition CheckInstalled (i : StrategyDeploymentInstaller) (strategy : StrategyDetailsDeployment) : bool * option error :=
  match checkForDeployments i (sd_DeploymentSpecs strategy) with Some err => (false, Some err) | None => (true, None) end.

(** *** What the OLM operator asks (apiservices.go) *)

Definition getAPIServiceCABundle (desc : APIServiceDescription) : error + string :=
  match ie_apiService env (APIServiceDescription_GetName desc) with
  | inl err => inl (ErrString ("could not retrieve generated APIService: " +:+ Error_ err))
  | inr apiService => if bool_decide (av_CABundle apiService = "") then inl (ErrString "unable to find CA") else inr (av_CABundle apiService)
  end.

Definition csvWebhookSelector (csv : CSV) (desc : WebhookDescription) : gmap string string := webhookSelector (csv_obj csv) ClusterServiceVersionKind desc.
(** A configuration without a webhook ends the process. *)
Definition firstBundle (configs : list WebhookConfiguration) : error + string :=
  match configs with
  | [] => inl (ErrString "unable to find CA")
  | w :: _ => match wc_Webhooks w with h :: _ => inr (wh_CABundle h) | [] => inl (ErrString "panic: index out of range [0] with length 0") end
  end.
Definition admissionCABundle (csv : CSV) (k : WebhookKind) (kind : string) (desc : WebhookDescription) : P string :=
  let! configs := iread (fun h => ie_webhooks env h k) in
  match configs with
  | inl err => pfail (ErrString ("could not retrieve generated " +:+ kind +:+ ": " +:+ Error_ err))
  | inr configs => plift (firstBundle (selectedHooks (csvWebhookSelector csv desc) configs))
  end.
Definition conversionBundle (crd : error + ConvertibleCRD) : option string :=
  match crd with inl _ => None | inr crd => (vk_Conversion crd ≫= cv_Client) ≫= vc_CABundle end.
Definition getWebhookCABundle (csv : CSV) (desc : WebhookDescription) : P string :=
  if bool_decide (wd_Type desc = MutatingAdmissionWebhook) then admissionCABundle csv Mutating "MutatingWebhookConfiguration" desc
  else if bool_decide (wd_Type desc = ValidatingAdmissionWebhook) then admissionCABundle csv Validating "ValidatingWebhookConfiguration" desc
  else if bool_decide (wd_Type desc = ConversionWebhook) then
    let! bundles := iread (fun h => omap (fun crd => conversionBundle (ie_crd env h crd)) (wd_ConversionCRDs desc)) in
    match bundles with bundle :: _ => pret bundle | [] => pfail (ErrString "unable to find CA") end
  else pfail (ErrString "unable to find CA").

Definition descName (d : CertDesc) : string :=
  match d with APIDesc d => "owned APIServices " +:+ APIServiceDescription_GetName d | HookDesc d => "WebhookDescription " +:+ wd_GenerateName d end.
Definition getCABundle (csv : CSV) (d : CertDesc) : P string :=
  let! r := attempt (match d with APIDesc d => plift (getAPIServiceCABundle d) | HookDesc d => getWebhookCABundle csv d end) in
  match r with
  | inl err => pfail (ErrString ("could not retrieve caBundle for " +:+ descName d +:+ ": " +:+ Error_ err))
  | inr caBundle => pret caBundle
  end.
Definition certifyFor (csv : CSV) (depSpecs : gmap string DeploymentSpec) (d : CertDesc) : P (gmap string DeploymentSpec) :=
  let! caBundle := getCABundle csv d in
  match depSpecs !! getDeploymentName d with
  | None => pfail (ErrString ("strategyDetailsDeployment is missing deployment " +:+ getDeploymentName d +:+ " for " +:+ descName d))
  | Some depSpec =>
      let secretName := SecretName (ServiceName (getDeploymentName d)) in
      match ie_secret env (csv_Namespace csv) secretName with
      | inl _ => pfail (ErrString ("unable to get secret " +:+ secretName))
      | inr secret => pret (<[getDeploymentName d := certified (OName (sec_obj secret)) (PEMSHA256 caBundle) depSpec]> depSpecs)
      end
  end.
Definition csvCertDescs (csv : CSV) : list CertDesc := (APIDesc <$> spec_APIServices_Owned (csv_Spec csv)) ++ (HookDesc <$> spec_WebhookDefinitions (csv_Spec csv)).
Definition updateDeploymentSpecsWithAPIServiceData (csv : CSV) (strategy : StrategyDetailsDeployment) : P StrategyDetailsDeployment :=
  if negb (HasCAResources csv) then pret strategy
  else
    let depSpecs := foldl (fun m d => <[ds_Name d := ds_Spec d]> m) ∅ (sd_DeploymentSpecs strategy) in
    let! depSpecs := pfold (certifyFor csv) depSpecs (csvCertDescs csv) in
    pret (mkStrategy ((fun d => setDeploymentSpec d (default (ds_Spec d) (depSpecs !! ds_Name d))) <$> sd_DeploymentSpecs strategy) (sd_Permissions strategy) (sd_ClusterPermissions strategy)).

(** The error of a deletion is returned when it says that the webhook was not found; other errors are dropped. *)
Definition removeUnknownHooks (csv : CSV) (k : WebhookKind) : P unit :=
  let! configs := must (iread (fun h => ie_webhooks env h k)) in
  pfor (selectedHooks (OwnerLabel (csv_obj csv) ClusterServiceVersionKind) configs) (fun w =>
    match default ∅ (Labels (wc_obj w)) !! WebhookDescKey with
    | None => pfail (ErrString (OName (wc_obj w) +:+ " does not have WebhookDesc key"))
    | Some generateName =>
        if bool_decide (generateName ∈ wd_GenerateName <$> spec_WebhookDefinitions (csv_Spec csv)) then pret tt
        else
          let! answer := perform (ie_do env) (IDeleteWebhook k (OName (wc_obj w))) in
          match answer with Some err => if IsNotFound (Some err) then pfail err else pret tt | None => pret tt end
    end).
Definition cleanUpRemovedWebhooks (csv : CSV) : P unit := run! removeUnknownHooks csv Validating in removeUnknownHooks csv Mutating.

Definition conversionReady (crd : ConvertibleCRD) : bool :=
  match vk_Conversion crd with
  | Some cv => bool_decide (cv_Strategy cv = "Webhook") && bool_decide (is_Some (cv_Client cv ≫= vc_CABundle))
  | None => false
  end.
(** The number of objects that serve the description. *)
Definition webhookCount (csv : CSV) (desc : WebhookDescription) (hash : string) : P nat :=
  let sel := <[WebhookHashKey := hash]> (csvWebhookSelector csv desc) in
  let count k := let! configs := must (iread (fun h => ie_webhooks env h k)) in pret (length (selectedHooks sel configs)) in
  if bool_decide (wd_Type desc = ValidatingAdmissionWebhook) then count Validating
  else if bool_decide (wd_Type desc = MutatingAdmissionWebhook) then count Mutating
  else if bool_decide (wd_Type desc = ConversionWebhook) then
    pfold (fun n name => let! crd := must (iread (fun h => ie_crd env h name)) in if conversionReady crd then pret (S n) else pfail (ErrString "conversionWebhook not ready")) 0%nat (wd_ConversionCRDs desc)
  else pret 0%nat.
Fixpoint webhooksAvailable (csv : CSV) (ds : list WebhookDescription) : P bool :=
  match ds with
  | [] => pret true
  | desc :: ds =>
      let! hash := plift (DeepHashObject (encodeWebhookDescription desc)) in
      let! n := webhookCount csv desc hash in
      if (n =? 0)%nat then pret false else webhooksAvailable csv ds
  end.
Definition areWebhooksAvailable (csv : CSV) : P bool := run! cleanUpRemovedWebhooks csv in webhooksAvailable csv (spec_WebhookDefinitions (csv_Spec csv)).

(** *** The resources of an API service *)

Definition errOf {A} (r : error + A) : list error := match r with inl err => [err] | inr _ => [] end.
(** The errors of one description, and whether they end the check. *)
Definition checkCertsOf (csv : CSV) (desc : APIServiceDescription) (serviceName : string) (apiService : ServedAPI) : list error :=
  match PEMToCert (av_CABundle apiService) with
  | inl err => [err]
  | inr _ =>
      let secretName := SecretName serviceName in
      match ie_secret env (csv_Namespace csv) secretName with
      | inl err => [err]
      | inr secret =>
          match PEMToCert (default "" (sec_Data secret !! "tls.crt")) with
          | inl err => [err]
          | inr _ =>
              let caHash := PEMSHA256 (av_CABundle apiService) in
              if negb (bool_decide (default ∅ (sec_Annotations secret) !! OLMCAHashAnnotationKey = Some caHash)) then [ErrString ("secret " +:+ secretName +:+ " CA cert hash does not match expected")]
              else
                match (match ie_deployments env (csv_Namespace csv) with inl err => inl err | inr ds => match List.find (fun d => bool_decide (dp_Name d = as_DeploymentName desc)) ds with Some d => inr d | None => inl (ErrAPI ReasonNotFound "deployment not found") end end) with
                | inl err => [err]
                | inr deployment =>
                    if negb (bool_decide (default ∅ (sp_Annotations (dp_Spec deployment)) !! OLMCAHashAnnotationKey = Some caHash)) then
                      [ErrString ("deployment " +:+ as_DeploymentName desc +:+ " CA cert hash does not match expected")]
                    else
                      errOf (ie_serviceAccount env (ONamespace (dp_obj deployment)) (sp_ServiceAccountName (defaultServiceAccount (dp_Spec deployment))))
                      ++ errOf (ie_role env (ONamespace (sec_obj secret)) (OName (sec_obj secret))) ++ errOf (ie_roleBinding env (ONamespace (sec_obj secret)) (OName (sec_obj secret)))
                      ++ errOf (ie_clusterRoleBinding env (AuthDelegatorClusterRoleBindingName serviceName)) ++ errOf (ie_roleBinding env KubeSystem (AuthReaderRoleBindingName serviceName))
                end
          end
      end
  end.
(** An API service that is adoptable has been written by OLM and names a service. *)
Definition checkAPIServiceOf (csv : CSV) (desc : APIServiceDescription) : list error * bool :=
  match ie_apiService env (APIServiceDescription_GetName desc) with
  | inl err => ([err], false)
  | inr apiService =>
      match IsAPIServiceAdoptable (ie_cluster env) csv (av_base apiService) with
      | inl err => ([err], true)
      | inr false => ([ErrUnadoptable "" (APIServiceDescription_GetName desc)], true)
      | inr true =>
          let serviceName := ServiceName (as_DeploymentName desc) in
          match ie_service env (csv_Namespace csv) serviceName with
          | inl err => ([err], false)
          | inr _ =>
              if negb (bool_decide ((fun s => (sv_Name s, sv_Namespace s)) <$> av_Service apiService = Some (serviceName, csv_Namespace csv))) then
                ([ErrString "found APIService and service reference mismatch"], false)
              else (checkCertsOf csv desc serviceName apiService, false)
          end
      end
  end.
Fixpoint checkAPIServices (csv : CSV) (errs : list error) (ds : list APIServiceDescription) : list error :=
  match ds with
  | [] => errs
  | desc :: ds => let '(new, stop) := checkAPIServiceOf csv desc in if stop then errs ++ new else checkAPIServices csv (errs ++ new) ds
  end.
Definition checkAPIServiceResources (csv : CSV) : option error := NewAggregate (checkAPIServices csv [] (GetOwnedAPIServiceDescriptions csv)).

(** *** The installer of a CSV, as its sync uses it *)

(** [Install] is called with the strategy of the CSV: what the installer says of its certificates is read after that. *)
Definition strategyInstaller (csv : CSV) (initializers : list (option Initializer)) : Installer :=
  let i := InstallerForStrategy csv initializers in
  let after := match (Install i (ns_StrategySpec (spec_InstallStrategy (csv_Spec csv))) []).2 with inr i => i | inl _ => i end in
  {| in_Install s := match (Install i s []).2 with inl err => Some err | inr _ => None end;
     in_CheckInstalled := CheckInstalled i;
     in_ShouldRotateCerts := ShouldRotateCerts i;
     in_CertsRotateAt := CertsRotateAt after;
     in_CertsRotated := CertsRotated after |}.
End installer.
