(* ===== verification/InstallSettles.v ===== *)
(** * What installing a strategy achieves

    Theorems about [InstallStrategy]: an installation whose writes show up in the cluster is found installed by the
    check that follows it (the spec that is recomputed from the cluster hashes to the label that was written); what an
    installation may write and delete; and the API services that keep it from ever succeeding. *)

From S2P Require Import RegistryServers Prelude GoStrings RbacRules OwnerUtil RbacAuthorizer CsvTypes OperatorGroups Requirements OperatorRbac StepExecution CsvCopies CsvSync CsvTransition CsvLifecycle ClusterCalls Overrides Certificates InstallStrategy.

#[local] Open Scope stdpp_scope.
#[local] Arguments String.append : simpl nomatch.

(** ** Certified specs *)

(** A container that does not mount the certificates by the names OLM gives them. *)
Definition plainMounts (s : DeploymentSpec) : Prop :=
  forall c m, c ∈ sp_Containers s -> m ∈ ct_VolumeMounts c -> vm_Name m <> vm_Name apiserviceMount /\ vm_Name m <> vm_Name webhookMount.

(** The first mount of the name or at the path is the given one. *)
Fixpoint mounted (mount : VolumeMount) (ms : list VolumeMount) : Prop :=
  match ms with
  | [] => False
  | m :: ms => m = mount \/ (vm_Name m <> vm_Name mount /\ vm_MountPath m <> vm_MountPath mount /\ mounted mount ms)
  end.
Lemma mounted_stays mount ms : mounted mount ms -> addMount mount ms = ms.
Proof.
  induction ms as [|m ms IH]; [done|]. intros [->|(Hn & Hp & Hms)]; cbn; [by rewrite bool_decide_eq_true_2|].
  rewrite !bool_decide_eq_false_2 by done. by rewrite IH.
Qed.
Lemma addMount_mounted mount ms : (forall m, m ∈ ms -> vm_Name m <> vm_Name mount) -> mounted mount (addMount mount ms).
Proof.
  induction ms as [|m ms IH]; intros Hn; [by left|]. cbn. rewrite bool_decide_eq_false_2 by (apply Hn; by left). case_bool_decide; [by left|]. right.
  split_and!; [apply Hn; by left|done|]. apply IH. intros x Hx. apply Hn. by right.
Qed.
Lemma addMount_keeps mount other ms : vm_Name mount <> vm_Name other -> vm_MountPath mount <> vm_MountPath other -> mounted other ms -> mounted other (addMount mount ms).
Proof.
  intros Hn Hp. induction ms as [|m ms IH]; [done|]. cbn. intros [->|(H1 & H2 & H3)].
  - rewrite !bool_decide_eq_false_2 by congruence. by left.
  - case_bool_decide; [by right|]. case_bool_decide; [by right|]. right. tauto.
Qed.
Lemma addMount_elem mount ms m : m ∈ addMount mount ms -> m = mount \/ m ∈ ms.
Proof.
  induction ms as [|x ms IH]; cbn; [intros ?%list_elem_of_singleton; by left|]. case_bool_decide; [by right|].
  case_bool_decide; intros [->|Hm]%elem_of_cons; [by left|right; by right|right; by left|]. destruct (IH Hm); [by left|right; by right].
Qed.

(** A volume that is there is replaced by itself. *)
Definition addVolume (v : Volume) (vs : list Volume) : list Volume := default (vs ++ [v]) (replaceFirst v_Name v vs).
Fixpoint firstVolume (v : Volume) (vs : list Volume) : Prop :=
  match vs with [] => False | x :: vs => x = v \/ (v_Name v <> v_Name x /\ firstVolume v vs) end.
Lemma addVolume_first v vs : firstVolume v (addVolume v vs).
Proof.
  unfold addVolume. induction vs as [|x vs IH]; [by left|]. cbn. case_bool_decide; [by left|]. destruct (replaceFirst v_Name v vs); cbn in *; right; done.
Qed.
Lemma firstVolume_stays v vs : firstVolume v vs -> addVolume v vs = vs.
Proof.
  unfold addVolume. induction vs as [|x vs IH]; [done|]. cbn. intros [->|[Hn Hv]]; [by rewrite bool_decide_eq_true_2|]. rewrite bool_decide_eq_false_2 by done.
  specialize (IH Hv). destruct (replaceFirst v_Name v vs); cbn in *; [by rewrite IH|]. exfalso. apply (f_equal length) in IH. rewrite length_app in IH. cbn in IH. lia.
Qed.
Lemma addVolume_keeps v w vs : v_Name v <> v_Name w -> firstVolume w vs -> firstVolume w (addVolume v vs).
Proof.
  unfold addVolume. intros Hn. induction vs as [|x vs IH]; [done|]. cbn. intros [->|[Hx Hv]].
  - rewrite bool_decide_eq_false_2 by done. destruct (replaceFirst v_Name v vs); by left.
  - case_bool_decide as E; [right; split; [congruence|done]|]. specialize (IH Hv). destruct (replaceFirst v_Name v vs); cbn in *; right; done.
Qed.

Lemma addCert_spec s v mount : addCertVolumeAndVolumeMount s v mount =
  mkDeploymentSpec (sp_Annotations s) (sp_ServiceAccountName s) (addVolume v (sp_Volumes s)) ((fun c => setMounts c (addMount mount (ct_VolumeMounts c))) <$> sp_Containers s)
    (sp_Tolerations s) (sp_NodeSelector s) (sp_Affinity s) (sp_MatchLabels s) (sp_RevisionHistoryLimit s) (sp_rest s).
Proof. reflexivity. Qed.
Lemma certified_spec secret hash s : certified secret hash s =
  mkDeploymentSpec (Some (<[OLMCAHashAnnotationKey := hash]> (default ∅ (sp_Annotations s)))) (if bool_decide (sp_ServiceAccountName s = "") then "default" else sp_ServiceAccountName s)
    (addVolume (webhookVolume secret) (addVolume (apiserviceVolume secret) (sp_Volumes s)))
    ((fun c => setMounts c (addMount webhookMount (addMount apiserviceMount (ct_VolumeMounts c)))) <$> sp_Containers s)
    (sp_Tolerations s) (sp_NodeSelector s) (sp_Affinity s) (sp_MatchLabels s) (sp_RevisionHistoryLimit s) (sp_rest s).
Proof.
  unfold certified, AddDefaultCertVolumeAndVolumeMounts. rewrite !addCert_spec. unfold defaultServiceAccount, SetCAAnnotation, setTemplateAnnotations.
  case_bool_decide; cbn [setTemplateAccount sp_Annotations sp_ServiceAccountName sp_Volumes sp_Containers sp_Tolerations sp_NodeSelector sp_Affinity sp_MatchLabels sp_RevisionHistoryLimit sp_rest]; f_equal;
    rewrite <- list_fmap_compose; by apply list_fmap_ext.
Qed.
Lemma certified_idem secret hash s : plainMounts s -> certified secret hash (certified secret hash s) = certified secret hash s.
Proof.
  intros Hs. rewrite !(certified_spec secret hash). cbn [sp_Annotations sp_ServiceAccountName sp_Volumes sp_Containers sp_Tolerations sp_NodeSelector sp_Affinity sp_MatchLabels sp_RevisionHistoryLimit sp_rest]. f_equal.
  - cbn. by rewrite insert_insert_eq.
  - destruct (decide (sp_ServiceAccountName s = "")) as [E|E]; [by rewrite (bool_decide_eq_true_2 _ E)|by rewrite !(bool_decide_eq_false_2 _ E)].
  - pose proof (addVolume_first (apiserviceVolume secret) (sp_Volumes s)) as Ha. set (va := addVolume (apiserviceVolume secret) (sp_Volumes s)) in *.
    pose proof (addVolume_first (webhookVolume secret) va) as Hw. rewrite (firstVolume_stays (apiserviceVolume secret)) by (by apply addVolume_keeps). by apply firstVolume_stays.
  - rewrite <- list_fmap_compose. apply list_fmap_ext. intros k c Hc. apply list_elem_of_lookup_2 in Hc. unfold setMounts. cbn. f_equal.
    pose proof (addMount_mounted apiserviceMount (ct_VolumeMounts c) ltac:(intros m Hm; apply (Hs c m Hc Hm))) as Ha. set (ma := addMount apiserviceMount (ct_VolumeMounts c)) in *.
    assert (mounted webhookMount (addMount webhookMount ma)) as Hw.
    { apply addMount_mounted. intros m [->|Hm]%addMount_elem; [done|]. apply (Hs c m Hc Hm). }
    rewrite (mounted_stays apiserviceMount) by (by apply addMount_keeps). by apply mounted_stays.
Qed.

(** The hypothesis is needed: a container that mounts a volume of that name at the place of the webhook certificates loses
    the mount and gets it again, so that certifying for a second description changes the spec, and its hash. *)
Theorem colliding_mount : exists s, certified "secret" "hash" (certified "secret" "hash" s) <> certified "secret" "hash" s.
Proof.
  exists (mkDeploymentSpec None "sa" [] [mkContainer "c" [mkMount "apiservice-cert" "/tmp/k8s-webhook-server/serving-certs" ""] [] [] "" ""] [] None None ∅ None ""). vm_compute. discriminate.
Qed.

(** ** Initializers *)

(** What the installer needs of an initializer: it leaves the metadata alone and does not look at it, and it keeps the
    annotations of the template. *)
Record wellBehaved (f : Initializer) : Prop := {
  wb_meta : forall d d', f d = inr d' -> dp_obj d' = dp_obj d;
  wb_blind : forall d o, f (setDepObj d o) = (match f d with inl err => inl err | inr d' => inr (setDepObj d' o) end);
  wb_annotations : forall d d' a, f d = inr d' -> sp_Annotations (dp_Spec d) = Some a -> exists a', sp_Annotations (dp_Spec d') = Some a' /\ a ⊆ a'
}.

(** The overrides of a subscription are such an initializer. *)
Lemma injectAll_blind room env c d o : injectAll room env c (setDepObj d o) = setDepObj (injectAll room env c d) o.
Proof. unfold injectAll. cbv zeta. cbn [dp_Spec setDepObj]. set (s := OverrideDeploymentAffinity _ _). by destruct (cf_Annotations c). Qed.
Lemma initialize_wellBehaved room subscriptions proxy owner : wellBehaved (initialize room subscriptions proxy owner).
Proof.
  split; unfold initialize; intros *; destruct (GetConfigOverrides subscriptions owner) as [err|c]; try done; destruct (envToInject proxy (cf_Env c)) as [err|env]; try done.
  - intros [= <-]. unfold injectAll. cbv zeta. by destruct (cf_Annotations c).
  - by rewrite injectAll_blind.
  - intros [= <-] Ha. unfold injectAll. cbv zeta. set (s := OverrideDeploymentAffinity _ _).
    assert (sp_Annotations s = Some a) as Hs by (unfold s; cbn; destruct (cf_NodeSelector c), (cf_Resources c); done).
    clearbody s. destruct (cf_Annotations c) as [new|]; cbn; rewrite Hs; eexists; (split; [done|]); [apply map_union_subseteq_l|done].
Qed.

Lemma Apply_wellBehaved c : Forall (fun f => match f with Some f => wellBehaved f | None => True end) c -> wellBehaved (Apply c).
Proof.
  induction c as [|[f|] c IH]; intros Hc; apply Forall_cons in Hc as [Hf Hc] || clear Hc; [| |apply (IH Hc)].
  - split; [by intros d d' [= <-]|done|intros d d' a [= <-] Ha; by exists a].
  - specialize (IH Hc). split; cbn.
    + intros d d'. destruct (f d) as [err|d1] eqn:E; [done|]. intros Ha. rewrite (wb_meta _ IH _ _ Ha). by apply (wb_meta _ Hf).
    + intros d o. rewrite (wb_blind _ Hf). destruct (f d) as [err|d1]; [done|]. apply (wb_blind _ IH).
    + intros d d' a. destruct (f d) as [err|d1] eqn:E; [done|]. intros Ha Hd. destruct (wb_annotations _ Hf _ _ _ E Hd) as (a1 & H1 & S1).
      destruct (wb_annotations _ IH _ _ _ Ha H1) as (a2 & H2 & S2). exists a2. split; [done|by etransitivity].
Qed.

(** ** Deployments *)

Section install.
Context `{RangeOrder, RbacLib, InstallLib} {certLib : CertLib}.

Definition wellInitialized (i : StrategyDeploymentInstaller) : Prop := Forall (fun f => match f with Some f => wellBehaved f | None => True end) (sdi_initializers i).

(** Installers of one CSV, which differ only in their certificates. *)
Definition sameInstaller (i j : StrategyDeploymentInstaller) : Prop :=
  sdi_owner i = sdi_owner j /\ sdi_templateAnnotations i = sdi_templateAnnotations j /\ sdi_initializers i = sdi_initializers j.
Lemma deploymentForSpec_same i j : sameInstaller i j -> deploymentForSpec i = deploymentForSpec j.
Proof. destruct i, j. unfold sameInstaller. cbn. intros (-> & -> & ->). reflexivity. Qed.

Lemma AddNonBlockingOwner_labels o owner : Labels (AddNonBlockingOwner o owner) = Labels o.
Proof. unfold AddNonBlockingOwner. by destruct (existsb _ _). Qed.
Lemma AddNonBlockingOwner_name o owner : OName (AddNonBlockingOwner o owner) = OName o /\ ONamespace (AddNonBlockingOwner o owner) = ONamespace o.
Proof. unfold AddNonBlockingOwner. by destruct (existsb _ _). Qed.

Lemma deploymentObject_relabel i name l l' : deploymentObject i name l' = SetLabels (deploymentObject i name l) (default ∅ (Labels (deploymentObject i name l'))).
Proof. unfold deploymentObject, AddOwnerLabelsForKind, AddNonBlockingOwner. cbn. reflexivity. Qed.
Lemma OwnerLabel_other owner kind k : k <> OwnerKey -> k <> OwnerNamespaceKey -> k <> OwnerKindKey -> OwnerLabel owner kind !! k = None.
Proof. intros Hk1 Hk2 Hk3. unfold OwnerLabel. by rewrite !lookup_insert_ne by done. Qed.

Lemma deploymentForSpec_ok i name s l dep hash :
  wellInitialized i -> deploymentForSpec i name s l = inr (dep, hash) ->
  dp_Name dep = name /\ OwnerLabel (owner_ i) ClusterServiceVersionKind ⊆ default ∅ (Labels (dp_obj dep)) /\ default ∅ (Labels (dp_obj dep)) !! DeploymentSpecHashLabelKey = Some hash /\
  (exists a, sp_Annotations (dp_Spec dep) = Some a /\ default ∅ (sdi_templateAnnotations i) ⊆ a) /\
  forall l', exists dep', deploymentForSpec i name s l' = inr (dep', hash).
Proof.
  intros Hi. apply Apply_wellBehaved in Hi. unfold deploymentForSpec. set (d0 := mkDeployment (deploymentObject i name l) None (annotatedSpec i s) 0 0 0 0 []).
  destruct (Apply (sdi_initializers i) d0) as [err|d1] eqn:E1; [done|]. set (s1 := setRevisionHistoryLimit _ 1). destruct (DeepHashObject (encodeDeploymentSpec s1)) as [err|hash'] eqn:Eh; [done|].
  intros [= <- <-]. pose proof (wb_meta _ Hi _ _ E1) as Hm. cbn [dp_obj d0] in Hm. split_and!.
  - unfold dp_Name. cbn. by rewrite Hm.
  - cbn. rewrite Hm. unfold deploymentObject. rewrite AddOwnerLabelsForKind_lookup. cbn. apply insert_subseteq_r; [by apply OwnerLabel_other|]. apply map_union_subseteq_l.
  - cbn. by rewrite lookup_insert_eq.
  - destruct (wb_annotations _ Hi _ _ _ E1 eq_refl) as (a & Ha & Hsub). exists a. split; [exact Ha|]. etransitivity; [|exact Hsub]. apply map_union_subseteq_l.
  - intros l'. change (mkDeployment (deploymentObject i name l') None (annotatedSpec i s) 0 0 0 0 []) with (setDepObj d0 (deploymentObject i name l')). rewrite (wb_blind _ Hi), E1. cbn.
    change (setRevisionHistoryLimit _ 1) with s1. rewrite Eh. by eexists.
Qed.

(** ** Certificates *)

Context (laws : CertLaws).

(** A lister gives the object of the name. *)
Record listersNamed (env : InstEnv) : Prop := {
  ln_secret : forall ns n s, ie_secret env ns n = inr s -> OName (sec_obj s) = n;
  ln_api : forall n a, ie_apiService env n = inr a -> av_Name a = n;
  ln_crd : forall h n c, ie_crd env h n = inr c -> vk_Name c = n
}.

Context (env : InstEnv) (named : listersNamed env).

Lemma servingCerts_ok ca expiration hosts h h' pems : servingCerts env ca expiration hosts h = (h', inr pems) -> pems.2 <> "".
Proof using laws.
  unfold servingCerts. intros E. run_step E. run_step E. run_step E. run_step E. rewrite <- E. cbn. run_step E2. by eapply ToPEM_nonempty.
Qed.
Lemma ensureCertSecret_ok i secret caPEM hosts h h' name pem rotated : caPEM <> "" -> ensureCertSecret env i secret caPEM hosts h = (h', inr (name, pem, rotated)) -> name = OName (sec_obj secret) /\ pem <> "".
Proof using laws named.
  intros Hc. unfold ensureCertSecret. destruct (ie_secret env _ _) as [err|existing] eqn:Es.
  - destruct (IsNotFound _); [|done]. intros E. run_step E. destruct x as [err'|]; [destruct (IsAlreadyExists _); [|done]|]; repeat run_step E; by injection E as <- <- <-.
  - destruct (shouldRotateCerts _ _ _) eqn:Er; cbn [negb]; intros E; repeat run_step E; injection E as <- <- <-; [done|]. split; [by apply (ln_secret _ named) in Es|by eapply kept_nonempty].
Qed.
Lemma installCertsForDeployment_ok i name ca expiration s ports h h' s' pem rotated :
  installCertRequirementsForDeployment env i name ca expiration s ports h = (h', inr (s', pem, rotated)) -> s' = certified (SecretName (ServiceName name)) (PEMSHA256 pem) s /\ pem <> "".
Proof using laws named.
  unfold installCertRequirementsForDeployment. cbv zeta. intros E. run_step E. clear E0. run_step E. destruct x0 as [[certPEM privPEM] caPEM]. run_step E. destruct x0 as [[secretName caPEM'] rotated'].
  apply servingCerts_ok in E0. apply ensureCertSecret_ok in E1 as [-> Hpem]; [|done]. repeat run_step E. injection E as <- <- <-. done.
Qed.

(** The authorities that the deployments got, by their names. *)
Definition certifyWith (m : gmap string string) (d : StrategyDeploymentSpec) : StrategyDeploymentSpec :=
  match m !! ds_Name d with Some pem => setDeploymentSpec d (certified (SecretName (ServiceName (ds_Name d))) (PEMSHA256 pem) (ds_Spec d)) | None => d end.
Definition fillPEM (m : gmap string string) (r : certResource) : certResource := match m !! getDeploymentName (cr_Desc r) with Some pem => mkCertResource (cr_Desc r) pem | None => r end.
Definition certNames (i : StrategyDeploymentInstaller) : list string := (fun r => getDeploymentName (cr_Desc r)) <$> getCertResources i.

Lemma forDeployment_true n r : forDeployment n r = true <-> getDeploymentName (cr_Desc r) = n.
Proof. unfold forDeployment. by rewrite bool_decide_eq_true. Qed.
Lemma getCertResources_update i name pem : getCertResources (updateCertResourcesForDeployment i name pem) = setCAPEM name pem <$> getCertResources i.
Proof. unfold getCertResources. cbn. by rewrite fmap_app. Qed.
Lemma certNames_update i name pem : certNames (updateCertResourcesForDeployment i name pem) = certNames i.
Proof.
  unfold certNames. rewrite getCertResources_update, <- list_fmap_compose. apply list_fmap_ext. intros k r _. unfold setCAPEM. cbn. by destruct (forDeployment name r).
Qed.
Lemma certResources_nil i name : certResourcesForDeployment i name = [] <-> name ∉ certNames i.
Proof.
  unfold certResourcesForDeployment, certNames. rewrite list_elem_of_fmap. split.
  - intros E (r & Hn & Hr). assert (r ∈ List.filter (forDeployment name) (getCertResources i)) as Hf; [|by rewrite E in Hf; apply elem_of_nil in Hf].
    apply list_elem_of_In, List.filter_In. split; [by apply list_elem_of_In|by apply forDeployment_true].
  - intros Hn. destruct (List.filter _ _) as [|r l] eqn:E; [done|]. exfalso. assert (In r (r :: l)) as Hr by (by left). rewrite <- E in Hr. apply List.filter_In in Hr as [Hr Hf].
    apply Hn. exists r. split; [symmetry; by apply forDeployment_true|by apply list_elem_of_In].
Qed.

Lemma installCerts_loop ca specs : forall i done h h' i' done',
  pfold (installCertsOf env ca) (i, done) specs h = (h', inr (i', done')) -> NoDup (ds_Name <$> specs) ->
  exists m : gmap string string, (forall n, is_Some (m !! n) <-> n ∈ ds_Name <$> specs /\ n ∈ certNames i) /\ (forall n pem, m !! n = Some pem -> pem <> "") /\
    sameInstaller i i' /\ getCertResources i' = fillPEM m <$> getCertResources i /\ done' = done ++ (certifyWith m <$> specs).
Proof using laws named.
  induction specs as [|d specs IH]; intros i done h h' i' done' E Hnd.
  { injection E as -> -> ->. exists ∅. split_and!; [|done|done|symmetry; apply list_fmap_id|by rewrite app_nil_r]. intros n. split; [by intros [? ?]|by intros [?%elem_of_nil _]]. }
  cbn [fmap list_fmap] in Hnd. apply NoDup_cons in Hnd as [Hd Hnd]. cbn [pfold] in E. run_step E. destruct x as [i1 done1]. destruct (IH _ _ _ _ _ _ E Hnd) as (m & Hdom & Hpem & Hsame & Hres & Hdone). clear IH E. unfold installCertsOf in E0.
  assert (m !! ds_Name d = None) as Hm. { apply eq_None_not_Some. intros [Hn _]%Hdom. done. }
  destruct (certResourcesForDeployment i (ds_Name d)) as [|r rs] eqn:Er.
  - injection E0 as -> <- <-. exists m. split_and!; [|done|done|done|].
    + intros n. rewrite Hdom. cbn [fmap list_fmap]. rewrite elem_of_cons. split; [tauto|]. intros [[->|?] Hc]; [|done]. by apply certResources_nil in Er.
    + rewrite Hdone, <- app_assoc. cbn. unfold certifyWith at 2. by rewrite Hm.
  - run_step E0. destruct x as [[s' pem] rotated]. apply installCertsForDeployment_ok in E as [-> Hp]. injection E0 as -> <- <-. exists (<[ds_Name d := pem]> m).
    assert (ds_Name d ∈ certNames i) as Hc. { destruct (decide (ds_Name d ∈ certNames i)) as [|Hn]; [done|]. apply certResources_nil in Hn. by rewrite Hn in Er. }
    rewrite getCertResources_update in Hres. rewrite certNames_update in Hdom. split_and!.
    + intros n. cbn [fmap list_fmap]. rewrite elem_of_cons. destruct (decide (n = ds_Name d)) as [->|Hne]; [rewrite lookup_insert_eq; split; [by split; [left|]|done]|]. rewrite lookup_insert_ne, Hdom by done. unfold certNames, getCertResources. cbn. tauto.
    + intros n q. destruct (decide (n = ds_Name d)) as [->|Hne]; [rewrite lookup_insert_eq; by intros [= <-]|]. rewrite lookup_insert_ne by done. apply Hpem.
    + exact Hsame.
    + rewrite Hres, <- list_fmap_compose. apply list_fmap_ext. intros k r' _. unfold setCAPEM, fillPEM. cbn. destruct (forDeployment (ds_Name d) r') eqn:Ef.
      * apply forDeployment_true in Ef. cbn. by rewrite Ef, Hm, lookup_insert_eq.
      * rewrite lookup_insert_ne; [done|]. intros X. symmetry in X. apply forDeployment_true in X. by rewrite X in Ef.
    + rewrite Hdone, <- app_assoc. cbn. f_equal. f_equal; [unfold certifyWith; by rewrite lookup_insert_eq|]. apply list_fmap_ext. intros k d' Hk. unfold certifyWith.
      rewrite lookup_insert_ne; [done|]. intros X. apply Hd. rewrite X. apply list_elem_of_fmap_2. by eapply list_elem_of_lookup_2.
Qed.

(** ** What an installation touches *)

Lemma sameInstaller_trans i j k : sameInstaller i j -> sameInstaller j k -> sameInstaller i k.
Proof. unfold sameInstaller. intros (-> & -> & ->). done. Qed.
Lemma installCertsOf_shape ca acc d h h' acc' : installCertsOf env ca acc d h = (h', inr acc') -> sameInstaller acc.1 acc'.1 /\ ds_Name <$> acc'.2 = (ds_Name <$> acc.2) ++ [ds_Name d].
Proof.
  destruct acc as [i done]. unfold installCertsOf. destruct (certResourcesForDeployment i (ds_Name d)) as [|r rs]; intros E; repeat run_step E; [|destruct x as [[s' pem] rotated]; run_step E]; subst acc'; cbn; by rewrite fmap_app.
Qed.
Lemma pfold_inv {X S} (I : S -> Prop) (body : S -> X -> P InstCall S) s xs h h' s' :
  I s -> (forall s x h h' s', I s -> body s x h = (h', inr s') -> I s') -> pfold body s xs h = (h', inr s') -> I s'.
Proof.
  intros Hs Hb. revert s h Hs. induction xs as [|x xs IH]; intros s h Hs E; [by injection E as _ <-|]. cbn in E. run_step E. eapply IH; [|exact E]. by eapply Hb.
Qed.
Lemma makes_fold_inv {X S} (Q : InstCall -> Prop) (I : S -> Prop) (body : S -> X -> P InstCall S) s xs :
  I s -> (forall s x, I s -> x ∈ xs -> makes_only Q (body s x)) -> (forall s x h h' s', I s -> body s x h = (h', inr s') -> I s') -> makes_only Q (pfold body s xs).
Proof.
  revert s. induction xs as [|x xs IH]; intros s Hs Hb Hi; [apply makes_ret|]. cbn. apply (makes_bind_res Q I); [apply Hb; [done|by left]| |].
  - intros h s' E. destruct (body s x h) as [h' r] eqn:Eb. cbn in E. subst r. by eapply Hi.
  - intros s' Hs'. apply IH; [done| |done]. intros s'' y Hs'' Hy. apply Hb; [done|by right].
Qed.
Lemma installCerts_shape ca specs i h h' i' specs' :
  pfold (installCertsOf env ca) (i, []) specs h = (h', inr (i', specs')) -> sameInstaller i i' /\ ds_Name <$> specs' = ds_Name <$> specs.
Proof.
  assert (forall acc h, pfold (installCertsOf env ca) acc specs h = (h', inr (i', specs')) -> sameInstaller acc.1 i' /\ ds_Name <$> specs' = (ds_Name <$> acc.2) ++ (ds_Name <$> specs)) as Hgen.
  { induction specs as [|d specs IH]; intros acc g E; [injection E as _ ->; cbn; by rewrite app_nil_r|]. cbn in E. run_step E. apply installCertsOf_shape in E0 as [Hs Hn]. apply IH in E as [Hs' Hn'].
    split; [by eapply sameInstaller_trans|]. rewrite Hn', Hn, <- app_assoc. done. }
  intros E. apply Hgen in E. exact E.
Qed.

(** What an installation may write.  The secret of a deployment's certificate, its role and their binding carry one name;
    the CSV becomes their owner when they are created.  One that is there is overwritten: with the CSV as its owner when
    it may be adopted, else without any owner. *)
Definition ownSubjects (csv : CSV) (b : RbacBinding) : Prop := exists sa, rb_Subjects b = [mkSubject "ServiceAccount" sa (csv_Namespace csv)].
Definition created (csv : CSV) (existing : error + Object) (o : Object) : Prop :=
  (exists err, existing = inl err /\ IsNotFound (Some err) = true) /\ OwnerRefs o = [NonBlockingOwner (csv_obj csv)].
Definition overwritten (csv : CSV) (existing : error + Object) (o : Object) : Prop :=
  exists e, existing = inr e /\ OwnerRefs o = if Adoptable (csv_obj csv) (OwnerRefs e) then [NonBlockingOwner (csv_obj csv)] else [].
Definition secretObject (csv : CSV) (name : string) : error + Object :=
  match ie_secret env (csv_Namespace csv) name with inl err => inl err | inr s => inr (sec_obj s) end.
(** A secret is there whose certificates are due. *)
Definition due (csv : CSV) (n : string) : Prop :=
  exists e, ie_secret env (csv_Namespace csv) (SecretName (ServiceName n)) = inr e /\
    let hosts := HostnamesForService (ServiceName n) (csv_Namespace csv) in
    shouldRotateCerts (fun r => ie_now env (NowKeep hosts r)) (sec_Data e) hosts = true.

(** [o] is the object of the certificate of deployment [n] of the strategy. *)
Definition certObject (csv : CSV) (names : list string) (n : string) (o : Object) : Prop :=
  n ∈ names /\ OName o = SecretName (ServiceName n) /\ ONamespace o = csv_Namespace csv.

Definition touches (csv : CSV) (names : list string) (c : InstCall) : Prop :=
  match c with
  | IApplyService ns name _ _ owner _ => ns = csv_Namespace csv /\ name ∈ ServiceName <$> names /\ owner = NonBlockingOwner (csv_obj csv)
  | ICreateSecret s => exists n, certObject csv names n (sec_obj s) /\ created csv (secretObject csv (OName (sec_obj s))) (sec_obj s)
  | IUpdateSecret s =>
      exists n, certObject csv names n (sec_obj s) /\
        (created csv (secretObject csv (OName (sec_obj s))) (sec_obj s) \/ overwritten csv (secretObject csv (OName (sec_obj s))) (sec_obj s) /\ due csv n)
  | ICreateRole r => exists n, certObject csv names n (ro_obj r) /\ ro_Rules r = secretRules (OName (ro_obj r)) /\ created csv (ie_role env (csv_Namespace csv) (OName (ro_obj r))) (ro_obj r)
  | IUpdateRole r => exists n, certObject csv names n (ro_obj r) /\ ro_Rules r = secretRules (OName (ro_obj r)) /\ overwritten csv (ie_role env (csv_Namespace csv) (OName (ro_obj r))) (ro_obj r)
  | ICreateRoleBinding b =>
      exists n, certObject csv names n (rb_obj b) /\ rb_RoleRef b = mkRoleRef "Role" (OName (rb_obj b)) /\ ownSubjects csv b /\ created csv (ie_roleBinding env (csv_Namespace csv) (OName (rb_obj b))) (rb_obj b)
  | IUpdateRoleBinding b =>
      exists n, certObject csv names n (rb_obj b) /\ rb_RoleRef b = mkRoleRef "Role" (OName (rb_obj b)) /\ ownSubjects csv b /\ overwritten csv (ie_roleBinding env (csv_Namespace csv) (OName (rb_obj b))) (rb_obj b)
  | IApplyRoleBinding b =>
      OName (rb_obj b) ∈ (fun n => AuthReaderRoleBindingName (ServiceName n)) <$> names /\ ONamespace (rb_obj b) = KubeSystem /\
      rb_RoleRef b = mkRoleRef "Role" "extension-apiserver-authentication-reader" /\ ownSubjects csv b
  | IApplyClusterRoleBinding b =>
      OName (rb_obj b) ∈ (fun n => AuthDelegatorClusterRoleBindingName (ServiceName n)) <$> names /\ rb_RoleRef b = mkRoleRef "ClusterRole" "system:auth-delegator" /\ ownSubjects csv b
  | ICreateDeployment d =>
      ONamespace (dp_obj d) = csv_Namespace csv /\ dp_Name d ∈ names /\ IsOwnedBy (dp_obj d) (csv_obj csv) = true /\
      exists h err, ie_getDeployment env h (csv_Namespace csv) (dp_Name d) = inl err /\ IsNotFound (Some err) = true
  | IUpdateDeployment d =>
      ONamespace (dp_obj d) = csv_Namespace csv /\ dp_Name d ∈ names /\ IsOwnedBy (dp_obj d) (csv_obj csv) = true /\
      exists h x, ie_getDeployment env h (csv_Namespace csv) (dp_Name d) = inr x
  | IDeleteDeployment ns n =>
      ns = csv_Namespace csv /\ n ∉ names /\ exists ds d, ie_deployments env ns = inr ds /\ d ∈ ds /\ dp_Name d = n /\ IsOwnedBy (dp_obj d) (csv_obj csv) = true
  | ICreateAPIService a => exists err, ie_apiService env (av_Name a) = inl err /\ IsNotFound (Some err) = true
  | IUpdateAPIService a => exists a0, ie_apiService env (av_Name a) = inr a0 /\ IsAPIServiceAdoptable (ie_cluster env) csv (av_base a0) = inr true
  | ICreateWebhook _ w => OwnerLabel (csv_obj csv) (Kind (ownerGVK (csv_obj csv))) ⊆ default ∅ (Labels (wc_obj w))
  | IUpdateWebhook k w =>
      exists h configs w0, ie_webhooks env h k = inr configs /\ w0 ∈ configs /\ OName (wc_obj w) = OName (wc_obj w0) /\ OwnerLabel (csv_obj csv) (Kind (ownerGVK (csv_obj csv))) ⊆ default ∅ (Labels (wc_obj w0))
  | IDeleteWebhook _ _ => False
  | IUpdateCRD c => OwnsCRD csv (vk_Name c) = true /\ isSingletonOperator csv = true
  | IDeleteLegacy k ns n => exists h o, ie_legacy env h k ns n = inr o /\ AdoptableLabels (Labels o) true [csv_obj csv] = true
  end.

Section touched.
Context (i : StrategyDeploymentInstaller) (names : list string).
Abbreviation Q := (touches (sdi_owner i) names).

Lemma makes_ido c : Q c -> makes_only Q (ido env c).
Proof. intros Hc. unfold ido. calls. Qed.
Lemma makes_iread {A} (R : InstCall -> Prop) (f : list InstCall -> A) : makes_only R (iread f).
Proof. apply (makes_read R (fun h => inr (f h))). Qed.
#[local] Hint Resolve makes_ido makes_iread : calls.

Lemma AddNonBlockingOwner_fresh o owner : OwnerRefs o = [] -> OwnerRefs (AddNonBlockingOwner o owner) = [NonBlockingOwner owner].
Proof. intros Ho. unfold AddNonBlockingOwner. by rewrite Ho. Qed.
Lemma makes_createOrAdopt existing o create update :
  OwnerRefs o = [] ->
  (forall o', OName o' = OName o -> ONamespace o' = ONamespace o -> created (sdi_owner i) existing o' -> Q (create o')) ->
  (forall o', OName o' = OName o -> ONamespace o' = ONamespace o -> overwritten (sdi_owner i) existing o' -> Q (update o')) ->
  makes_only Q (createOrAdopt env i existing o create update).
Proof.
  intros Hf Hc Hu. unfold createOrAdopt. destruct existing as [err|x]; [destruct (IsNotFound _) eqn:En; [|apply makes_fail]|]; apply makes_ido.
  - apply Hc; [apply AddNonBlockingOwner_name..|]. split; [by exists err|by apply AddNonBlockingOwner_fresh].
  - unfold owner_ in *. apply Hu; [by destruct (Adoptable _ _); [apply AddNonBlockingOwner_name|]..|]. exists x. split; [done|]. destruct (Adoptable _ _); [by apply AddNonBlockingOwner_fresh|done].
Qed.
(** The secret keeps the name it is asked for. *)
Lemma ensureCertSecret_name secret caPEM hosts h h' r : ensureCertSecret env i secret caPEM hosts h = (h', inr r) -> r.1.1 = OName (sec_obj secret).
Proof using named.
  unfold ensureCertSecret. destruct (ie_secret env _ _) as [err|e] eqn:Es.
  - destruct (IsNotFound _); [|done]. intros E. run_step E. destruct x as [err'|]; [destruct (IsAlreadyExists _); [|done]|]; repeat run_step E; by rewrite <- E.
  - destruct (shouldRotateCerts _ _ _); cbn [negb]; intros E; repeat run_step E; rewrite <- E; [done|]. by apply (ln_secret _ named) in Es.
Qed.
Lemma touches_secret n certPEM privPEM caPEM : n ∈ names ->
  makes_only Q (ensureCertSecret env i (certSecret (SecretName (ServiceName n)) (ownerNamespace i) certPEM privPEM caPEM) caPEM (HostnamesForService (ServiceName n) (ownerNamespace i))).
Proof.
  intros Hn. unfold ensureCertSecret. cbn [certSecret sec_obj OName]. set (secret := certSecret _ _ _ _ _).
  assert (certObject (sdi_owner i) names n (sec_obj (ownSecret i secret))) as Hown by done.
  destruct (ie_secret env _ _) as [err|e] eqn:Es.
  - destruct (IsNotFound _) eqn:En; [|apply makes_fail].
    assert (created (sdi_owner i) (secretObject (sdi_owner i) (SecretName (ServiceName n))) (sec_obj (ownSecret i secret))) as Hc.
    { split; [|done]. exists err. unfold secretObject. unfold ownerNamespace in Es. by rewrite Es. }
    apply makes_bind; [apply makes_perform; by exists n|]. intros [err'|]; [destruct (IsAlreadyExists _); [|apply makes_fail]|apply makes_ret].
    apply makes_bind; [|intros _; apply makes_ret]. apply makes_ido. exists n. split; [done|by left].
  - destruct (shouldRotateCerts _ _ _) eqn:Er; cbn [negb]; [|apply makes_ret]. apply makes_bind; [|intros _; apply makes_ret].
    apply makes_ido. exists n. unfold owner_. split; [by destruct (Adoptable _ _)|]. right. split; [|by exists e].
    exists (sec_obj e). split; [|by destruct (Adoptable _ _)].
    assert (OName (sec_obj (if Adoptable (csv_obj (sdi_owner i)) (OwnerRefs (sec_obj e)) then ownSecret i secret else secret)) = SecretName (ServiceName n)) as -> by (by destruct (Adoptable _ _)).
    unfold secretObject. unfold ownerNamespace in Es. by rewrite Es.
Qed.
Lemma touches_certs name ca expiration s ports : name ∈ names -> makes_only Q (installCertRequirementsForDeployment env i name ca expiration s ports).
Proof using named.
  intros Hn. unfold installCertRequirementsForDeployment. cbv zeta. apply makes_bind; [apply makes_ido; split_and!; [done|by apply list_elem_of_fmap_2|done]|]. intros _.
  apply makes_bind; [unfold servingCerts; calls|]. intros [[certPEM privPEM] caPEM].
  apply (makes_bind_res _ (fun r => r.1.1 = SecretName (ServiceName name))); [by apply touches_secret| |].
  { intros h r E. destruct (ensureCertSecret _ _ _ _ _ h) as [h' r'] eqn:Er. cbn in E. subst r'. by apply ensureCertSecret_name in Er. }
  intros [[secretName caPEM'] rotated]. cbn. intros ->. apply makes_bind; [|intros _; apply makes_bind; [|intros _; apply makes_bind; [|intros _; apply makes_bind; [|intros _; apply makes_ret]]]].
  - apply makes_createOrAdopt; [done|..]; cbn; intros o' E1 E2 Ho; exists name; cbn; unfold certObject; rewrite E1; by split_and!.
  - apply makes_createOrAdopt; [done|..]; cbn; intros o' E1 E2 Ho; exists name; cbn; unfold certObject; rewrite E1; (split_and!; [done..|by eexists|done]).
  - apply makes_ido. split_and!; [cbn; by apply (list_elem_of_fmap_2 (fun n => AuthDelegatorClusterRoleBindingName (ServiceName n)))|done|by eexists].
  - apply makes_ido. split_and!; [cbn; by apply (list_elem_of_fmap_2 (fun n => AuthReaderRoleBindingName (ServiceName n)))|done|done|by eexists].
Qed.

Lemma AddOwnerLabels_name o owner o' : AddOwnerLabels o owner = Some o' -> OName o' = OName o.
Proof. unfold AddOwnerLabels. destruct (InferGroupVersionKind owner) as [owner' []]; [|done]. by intros [= <-]. Qed.
Lemma touches_apiService caPEM desc : makes_only Q (createOrUpdateAPIService env i caPEM desc).
Proof using named.
  unfold createOrUpdateAPIService. apply (makes_bind_res _ (fun r => apiServiceFor env i desc = inr r)); [calls|by intros h x [= ->]|]. intros [a ex] Ha. destruct (AddOwnerLabels _ _) as [o|] eqn:Eo; [|calls].
  apply AddOwnerLabels_name in Eo. apply makes_ido. unfold apiServiceFor in Ha. destruct (ie_apiService env _) as [err|a0] eqn:Ea.
  - destruct (IsNotFound (Some err)) eqn:En; [|done]. cbn [negb] in Ha. destruct (findOwnerSubscription env i) as [|sub]; [done|]. injection Ha as <- <-. cbn. exists err. unfold av_Name. cbn. by rewrite Eo.
  - destruct (IsAPIServiceAdoptable _ _ _) as [|[]] eqn:Ead; try done. injection Ha as <- <-. cbn. exists a0. unfold av_Name. cbn. rewrite Eo. apply (ln_api _ named) in Ea as En. unfold av_Name in En. rewrite En. done.
Qed.
Lemma touches_legacy k ns n : makes_only Q (deleteLegacy env i k ns n).
Proof.
  unfold deleteLegacy. apply (makes_bind_res _ (fun r => exists h, ie_legacy env h k ns n = r)); [apply makes_iread|intros h x [= <-]; by exists h|]. intros [err|o] [h Ho]; [calls|]. destruct (AdoptableLabels _ _ _) eqn:Ea; [|calls].
  calls. cbn. by exists h, o.
Qed.
#[local] Hint Resolve touches_apiService touches_legacy : calls.
Lemma touches_legacies desc : makes_only Q (deleteLegacyAPIServiceResources env i desc).
Proof. unfold deleteLegacyAPIServiceResources. cbv zeta. calls. Qed.

Lemma addWebhookLabels_keeps o desc : OName (addWebhookLabels o desc) = OName o /\
  forall m : gmap string string, m !! WebhookDescKey = None -> m !! WebhookHashKey = None -> m !! OLMManagedLabelKey = None -> m ⊆ default ∅ (Labels o) -> m ⊆ default ∅ (Labels (addWebhookLabels o desc)).
Proof. unfold addWebhookLabels. destruct (DeepHashObject _); [done|]. split; [done|]. intros m Hm1 Hm2 Hm3 Hm. cbn. by repeat apply insert_subseteq_r. Qed.
Lemma selectedHooks_elem sel configs w : w ∈ selectedHooks sel configs <-> w ∈ configs /\ sel ⊆ default ∅ (Labels (wc_obj w)).
Proof. unfold selectedHooks, selects. rewrite list_elem_of_In, List.filter_In, <- list_elem_of_In, bool_decide_eq_true. done. Qed.
Lemma touches_admission k selector caPEM desc : makes_only Q (createOrUpdateAdmissionWebhook env i k selector caPEM desc).
Proof.
  unfold createOrUpdateAdmissionWebhook. apply (makes_bind_res _ (fun r => exists h, ie_webhooks env h k = inr r)); [apply makes_must, makes_iread| |].
  { intros h x. unfold must, pbind, iread, plift. cbn. intros E. by exists h. }
  intros configs [h Hc]. destruct (selectedHooks _ _) as [|w ws] eqn:Es.
  - apply makes_ido. cbn. apply (proj2 (addWebhookLabels_keeps _ desc)); [by apply OwnerLabel_other..|done].
  - apply makes_for. intros x Hx. apply makes_ido. cbn. assert (x ∈ selectedHooks (webhookSelector (owner_ i) (ownerKind i) desc) configs) as [Hin Hsub]%selectedHooks_elem by (by rewrite Es).
    exists h, configs, x. split_and!; [done|done|apply addWebhookLabels_keeps|]. etransitivity; [|exact Hsub]. unfold webhookSelector. apply insert_subseteq. by apply OwnerLabel_other.
Qed.
Lemma makes_retry Q' n fn : makes_only Q' fn -> makes_only Q' (retryOnConflict n fn).
Proof. intros Hf. induction n as [|n IH]; [done|]. destruct n; [done|]. cbn [retryOnConflict]. apply makes_bind; [by apply makes_attempt|]. intros [err|]; [|apply makes_ret]. destruct (IsConflict _); [apply IH|apply makes_fail]. Qed.
Lemma touches_conversion caPEM desc : makes_only Q (createOrUpdateConversionWebhook env i caPEM desc).
Proof using named.
  unfold createOrUpdateConversionWebhook. destruct (isSingletonOperator _) eqn:Es; cbn [negb]; [|apply makes_fail]. destruct (wd_ConversionCRDs desc) as [|c cs]; [apply makes_fail|]. apply makes_for. intros crd _. apply makes_retry. unfold convertCRD.
  apply (makes_bind_res _ (fun r => exists h, ie_crd env h crd = r)); [apply makes_iread|intros h x [= <-]; by exists h|]. intros [err|x] [h Hx]; [calls|]. destruct (OwnsCRD _ _) eqn:Eo; cbn [negb]; [|apply makes_fail].
  destruct (vk_PreserveUnknownFields x); [calls|]. cbv zeta. calls. cbn. by rewrite (ln_crd _ named _ _ _ Hx).
Qed.
Lemma touches_resource r : makes_only Q (createOrUpdateCertResource env i r).
Proof using named.
  unfold createOrUpdateCertResource. destruct (cr_Desc r) as [desc|desc]; [apply makes_bind; [apply touches_apiService|intros _; apply touches_legacies]|]. unfold createOrUpdateWebhook.
  destruct (ie_groups env _) as [err|[|g [|? ?]]]; try apply makes_fail. apply makes_bind; [apply makes_lift|]. intros sel. repeat case_bool_decide; [apply touches_admission|apply touches_admission|apply touches_conversion|apply makes_ret].
Qed.
Lemma touches_deployment d : wellInitialized i -> ds_Name d ∈ names -> makes_only Q (installDeployment env i d).
Proof using named.
  intros Hi Hd. unfold installDeployment. apply (makes_bind_res _ (fun r => deploymentForSpec i (ds_Name d) (ds_Spec d) (ds_Label d) = inr r)); [calls|by intros h x [= ->]|]. intros [dep hash] Hdep.
  apply makes_bind; [|intros _; apply makes_for; intros r _; apply touches_resource]. pose proof (deploymentForSpec_ok i _ _ _ dep hash Hi Hdep) as (Hn & _).
  assert (dp_obj dep = SetLabels (deploymentObject i (ds_Name d) (ds_Label d)) (default ∅ (Labels (dp_obj dep)))) as Ho.
  { apply Apply_wellBehaved in Hi. unfold deploymentForSpec in Hdep. destruct (Apply _ _) as [|d1] eqn:E1; [done|]. destruct (DeepHashObject _); [done|]. injection Hdep as <- <-. cbn. apply (wb_meta _ Hi) in E1. by rewrite E1. }
  assert (ONamespace (dp_obj dep) = csv_Namespace (sdi_owner i) /\ IsOwnedBy (dp_obj dep) (csv_obj (sdi_owner i)) = true) as [Hns Hown].
  { rewrite Ho. unfold deploymentObject, AddOwnerLabelsForKind, AddNonBlockingOwner, NonBlockingOwner. cbn. destruct (ToAPIVersionAndKind _) as [av k]. cbn. split; [done|]. unfold IsOwnedBy. cbn. by rewrite bool_decide_eq_true_2. }
  unfold CreateOrUpdateDeployment. apply (makes_bind_res _ (fun r => exists h, ie_getDeployment env h (csv_Namespace (sdi_owner i)) (dp_Name dep) = r)); [apply makes_iread|intros h x [= <-]; exists h; by rewrite Hns|].
  intros [err|x] [h Hx]; [destruct (IsNotFound _) eqn:En; [|apply makes_fail]|]; apply makes_ido; cbn; rewrite Hn in *; (split_and!; [done..|by repeat eexists]).
Qed.
Lemma touches_cleanup specs : ds_Name <$> specs = names -> makes_only Q (cleanupOrphanedDeployments env i specs).
Proof.
  intros Hnames. unfold cleanupOrphanedDeployments. apply (makes_bind_res _ (fun r => FindAnyDeploymentsMatchingLabels env i = inr r)); [calls|by intros h x [= ->]|]. intros ds Hds. apply makes_for. intros d Hd.
  destruct (negb _ && _) eqn:E; [|calls]. apply andb_prop in E as [En Eo]. apply negb_true_iff, bool_decide_eq_false in En. rewrite Hnames in En. apply makes_ido. cbn. split_and!; [done|done|].
  unfold FindAnyDeploymentsMatchingLabels in Hds. destruct (ie_deployments env _) as [|all] eqn:Ea; [done|]. injection Hds as <-. exists all, d. split_and!; [done| |done|done]. apply list_elem_of_In, List.filter_In in Hd as [Hd _]. by apply list_elem_of_In.
Qed.
End touched.

Lemma touches_same i j names : sameInstaller i j -> touches (sdi_owner j) names = touches (sdi_owner i) names.
Proof. by intros (-> & _). Qed.
Lemma wellInitialized_same i j : sameInstaller i j -> wellInitialized i -> wellInitialized j.
Proof. unfold wellInitialized. by intros (_ & _ & ->). Qed.


(** ** What an installation has written *)

Lemma ido_ok c h h' x : ido env c h = (h', inr x) -> h' = h ++ [c].
Proof. unfold ido, check, perform, pbind. cbn. destruct (ie_do env h c); [done|]. by intros [= <-]. Qed.
Lemma ido_called c h h' x : ido env c h = (h', inr x) -> c ∈ h'.
Proof. intros ->%ido_ok. apply elem_of_app. right. by left. Qed.
Lemma retry_ok n fn h h' : retryOnConflict n fn h = (h', inr tt) -> exists g, fn g = (h', inr tt).
Proof.
  revert h. induction n as [|[|n] IH]; intros h; [by exists h|by exists h|]. cbn [retryOnConflict]. intros E. run_step E. unfold attempt in E0. injection E0 as <- <-. destruct (fn h).2 as [err|[]] eqn:Er.
  - destruct (IsConflict _); [|done]. by apply IH in E.
  - injection E as <-. exists h. destruct (fn h) as [h1 r]. cbn in *. by subst r.
Qed.

Definition wroteDeployment (calls : list InstCall) (d : Deployment) : Prop := ICreateDeployment d ∈ calls \/ IUpdateDeployment d ∈ calls.
Definition wroteAPI (calls : list InstCall) (a : ServedAPI) : Prop := ICreateAPIService a ∈ calls \/ IUpdateAPIService a ∈ calls.
Definition wroteHook (calls : list InstCall) (k : WebhookKind) (w : WebhookConfiguration) : Prop := ICreateWebhook k w ∈ calls \/ IUpdateWebhook k w ∈ calls.

Definition admissionKind (desc : WebhookDescription) : option WebhookKind :=
  if bool_decide (wd_Type desc = ValidatingAdmissionWebhook) then Some Validating else if bool_decide (wd_Type desc = MutatingAdmissionWebhook) then Some Mutating else None.
Definition converted (c : ConvertibleCRD) (pem : string) : Prop := (vk_Conversion c ≫= cv_Client) ≫= vc_CABundle = Some pem.

(** What the writing of a certified resource leaves in the calls. *)
Definition wroteResource (calls : list InstCall) (i : StrategyDeploymentInstaller) (d : CertDesc) (pem : string) : Prop :=
  match d with
  | APIDesc d => exists a, wroteAPI calls a /\ av_Name a = APIServiceDescription_GetName d /\ av_CABundle a = pem
  | HookDesc d =>
      match admissionKind d with
      | Some k => exists w hook, wroteHook calls k w /\ selects (webhookSelector (owner_ i) (ownerKind i) d) (wc_obj w) = true /\ wc_Webhooks w = [hook] /\ wh_CABundle hook = pem
      | None => wd_Type d = ConversionWebhook -> wd_ConversionCRDs d <> [] /\ forall crd, crd ∈ wd_ConversionCRDs d -> exists c, IUpdateCRD c ∈ calls /\ vk_Name c = crd /\ converted c pem
      end
  end.
Lemma wroteResource_mono calls calls' i d pem : (forall c, c ∈ calls -> c ∈ calls') -> wroteResource calls i d pem -> wroteResource calls' i d pem.
Proof.
  intros Hc. unfold wroteResource, wroteAPI, wroteHook. destruct d as [d|d]; [naive_solver|]. destruct (admissionKind d); [naive_solver|]. intros Hw Ht. destruct (Hw Ht) as [Hne Hall]. split; [done|].
  intros crd Hcrd. destruct (Hall crd Hcrd) as (c & Hin & ?). exists c. split; [by apply Hc|done].
Qed.
Definition hashable (d : CertDesc) : Prop := match d with APIDesc _ => True | HookDesc d => exists s, encodeWebhookDescription d = inr s end.

Lemma webhookLabels_selected o desc sel : (exists s, encodeWebhookDescription desc = inr s) ->
  sel !! WebhookHashKey = None -> sel !! OLMManagedLabelKey = None -> sel ⊆ default ∅ (Labels o) -> selects (<[WebhookDescKey := wd_GenerateName desc]> sel) (addWebhookLabels o desc) = true.
Proof.
  intros [s Hs] Hh Hm Hsub. unfold selects, addWebhookLabels, DeepHashObject. rewrite Hs. apply bool_decide_eq_true_2. cbn. do 2 (apply insert_subseteq_r; [by rewrite lookup_insert_ne by done|]). by apply insert_mono.
Qed.
Lemma admission_wrote i k selector pem desc h h' : (exists s, encodeWebhookDescription desc = inr s) -> createOrUpdateAdmissionWebhook env i k selector pem desc h = (h', inr tt) ->
  exists w hook, wroteHook h' k w /\ selects (webhookSelector (owner_ i) (ownerKind i) desc) (wc_obj w) = true /\ wc_Webhooks w = [hook] /\ wh_CABundle hook = pem.
Proof.
  intros Hs. unfold createOrUpdateAdmissionWebhook. intros E. run_step E. clear E0. cbv zeta in E. destruct (selectedHooks _ x) as [|w ws] eqn:Esel.
  - apply ido_called in E. eexists _, _. split; [by left|]. split; [|done]. cbn. apply webhookLabels_selected; [done|by apply OwnerLabel_other..|done].
  - cbn [pfor] in E. run_step E. apply ido_called in E0. assert (w ∈ selectedHooks (webhookSelector (owner_ i) (ownerKind i) desc) x) as [_ Hsub]%selectedHooks_elem by (rewrite Esel; by left).
    exists (mkHookConfig (addWebhookLabels (wc_obj w) desc) (wc_GenerateName w) [GetWebhook (ownerNamespace i) selector pem desc]), (GetWebhook (ownerNamespace i) selector pem desc). split; [right|split; [|done]].
    + eapply makes_grows; [|exact E|exact E0]. apply makes_for. intros y _. unfold ido. calls.
    + cbn. apply webhookLabels_selected; [done|by apply OwnerLabel_other..|]. etransitivity; [|exact Hsub]. unfold webhookSelector. apply insert_subseteq. by apply OwnerLabel_other.
Qed.
Lemma conversion_wrote i pem desc h h' : createOrUpdateConversionWebhook env i pem desc h = (h', inr tt) ->
  wd_ConversionCRDs desc <> [] /\ forall crd, crd ∈ wd_ConversionCRDs desc -> exists c, IUpdateCRD c ∈ h' /\ vk_Name c = crd /\ converted c pem.
Proof using named.
  unfold createOrUpdateConversionWebhook. destruct (isSingletonOperator _); [|done]. cbn [negb]. destruct (wd_ConversionCRDs desc) as [|c0 cs] eqn:Ec; [done|]. intros E. split; [done|]. intros crd Hcrd.
  destruct (pfor_ran (c0 :: cs) (fun crd => retryOnConflict 5 (convertCRD env i pem desc crd)) h crd) as (g & Hg & Hin); [|by rewrite E|done|].
  { intros y _. apply makes_retry. unfold convertCRD. calls. }
  rewrite E in Hin. cbn [fst] in Hin. destruct (retryOnConflict 5 _ g) as [g' r] eqn:Eg. cbn in Hg, Hin. subst r. apply retry_ok in Eg as [g0 Eg]. unfold convertCRD in Eg. run_step Eg. injection E0 as <- <-.
  destruct (ie_crd env g0 crd) as [err|x] eqn:Ex; [done|]. destruct (OwnsCRD _ _); cbn [negb] in Eg; [|done]. destruct (vk_PreserveUnknownFields x); [done|]. cbv zeta in Eg. run_step Eg. injection E0 as <- <-.
  destruct (ie_do env g0 _); [done|]. injection Eg as <-. eexists. split; [apply Hin, elem_of_app; right; by left|]. split; [cbn; by apply (ln_crd _ named) in Ex|done].
Qed.
Lemma resource_wrote i r h h' : hashable (cr_Desc r) -> createOrUpdateCertResource env i r h = (h', inr tt) -> wroteResource h' i (cr_Desc r) (cr_caPEM r).
Proof using certLib named.
  unfold createOrUpdateCertResource. destruct (cr_Desc r) as [desc|desc]; cbn [hashable wroteResource]; intros Hs E.
  - run_step E. unfold createOrUpdateAPIService in E0. run_step E0. run_step E1. destruct x0 as [a ex]. destruct (AddOwnerLabels _ _) as [o|] eqn:Eo; [|done]. apply AddOwnerLabels_name in Eo. apply ido_called in E0.
    eassert (_ ∈ h') as E2; [eapply makes_grows; [|exact E|exact E0]; eapply makes_weaken; [|apply (touches_legacies i [])]; done|].
    eexists. split; [destruct ex; [right; exact E2|left; exact E2]|]. split; [|done]. unfold av_Name. cbn. rewrite Eo. unfold apiServiceFor in E1. destruct (ie_apiService env _) as [err|a0] eqn:Ea.
    + destruct (negb _); [done|]. destruct (findOwnerSubscription env i) as [|sub]; [done|]. by injection E1 as <- <-.
    + destruct (IsAPIServiceAdoptable _ _ _) as [|[]]; try done. injection E1 as <- <-. by apply (ln_api _ named) in Ea.
  - unfold createOrUpdateWebhook in E. destruct (ie_groups env _) as [err|[|g [|? ?]]]; try done. run_step E. run_step E0. unfold admissionKind. repeat case_bool_decide; try (by eapply admission_wrote); [intros _; by eapply conversion_wrote|done].
Qed.

Lemma install_wrote i specs h h' d : wellInitialized i -> Forall (fun r => hashable (cr_Desc r)) (getCertResources i) -> installDeployments env i specs h = (h', inr tt) -> d ∈ specs ->
  (exists dep hash, deploymentForSpec i (ds_Name d) (ds_Spec d) (ds_Label d) = inr (dep, hash) /\ wroteDeployment h' dep) /\ forall r, r ∈ getCertResources i -> wroteResource h' i (cr_Desc r) (cr_caPEM r).
Proof using certLib named.
  intros Hi Hh E Hd. set (names := ds_Name <$> specs). assert (forall r, makes_only (fun _ => True) (createOrUpdateCertResource env i r)) as Hres by (intros r; eapply makes_weaken; [|apply (touches_resource i names)]; done).
  destruct (pfor_ran specs (installDeployment env i) h d) as (g & Hg & Hin); [|by unfold installDeployments in E; rewrite E|done|].
  { intros y Hy. eapply makes_weaken; [|apply (touches_deployment i names y Hi)]; [done|]. by apply list_elem_of_fmap_2. }
  unfold installDeployments in E. rewrite E in Hin. cbn [fst] in Hin. destruct (installDeployment env i d g) as [g' r] eqn:Eg. cbn in Hg, Hin. subst r. unfold installDeployment in Eg. run_step Eg. run_step E0. destruct x as [dep hash]. run_step Eg. cbn [fst] in E1. split.
  - exists dep, hash. split; [done|]. assert (forall c, c ∈ h0 -> c ∈ h') as Hgrow. { intros c Hc. apply Hin. eapply makes_grows; [|exact Eg|exact Hc]. apply makes_for. intros r _. apply Hres. }
    unfold CreateOrUpdateDeployment in E1. run_step E1. injection E2 as <- <-. destruct (ie_getDeployment env _ _ _) as [err|]; [destruct (IsNotFound _); [|done]; left|right]; apply Hgrow; by eapply ido_called.
  - intros r Hr. unfold createOrUpdateCertResourcesForDeployment in Eg. destruct (pfor_ran (getCertResources i) (createOrUpdateCertResource env i) h0 r) as (k & Hk & Hkin); [intros y _; apply Hres|by rewrite Eg|done|].
    rewrite Eg in Hkin. cbn [fst] in Hkin. destruct (createOrUpdateCertResource env i r k) as [k' res] eqn:Ek. cbn in Hk, Hkin. subst res. rewrite Forall_forall in Hh. pose proof (resource_wrote _ _ _ _ (Hh _ Hr) Ek) as Hw.
    eapply wroteResource_mono; [|exact Hw]. intros c Hc. by apply Hin, Hkin.
Qed.

(** ** The check after an installation *)

(** A CSV whose strategy and certificates fit together. *)
Record installable (csv : CSV) (strategy : StrategyDetailsDeployment) : Prop := {
  ib_names : NoDup (ds_Name <$> sd_DeploymentSpecs strategy);
  ib_owned : NoDup (APIServiceDescription_GetName <$> spec_APIServices_Owned (csv_Spec csv));
  ib_deployments : forall d, d ∈ csvCertDescs csv -> getDeploymentName d ∈ ds_Name <$> sd_DeploymentSpecs strategy;
  ib_required : forall d, d ∈ spec_APIServices_Required (csv_Spec csv) -> as_DeploymentName d ∉ ds_Name <$> sd_DeploymentSpecs strategy;
  ib_mounts : forall s, s ∈ sd_DeploymentSpecs strategy -> plainMounts (ds_Spec s);
  ib_types : forall w, w ∈ spec_WebhookDefinitions (csv_Spec csv) -> wd_Type w ∈ [ValidatingAdmissionWebhook; MutatingAdmissionWebhook; ConversionWebhook];
  ib_encodes : forall w, w ∈ spec_WebhookDefinitions (csv_Spec csv) -> exists s, encodeWebhookDescription w = inr s;
  ib_kind : Kind (ownerGVK (csv_obj csv)) = ClusterServiceVersionKind
}.

(** A later state of the cluster that shows what was written, with the deployments ready. *)
Record shows (later : InstEnv) (csv : CSV) (calls : list InstCall) : Prop := {
  sh_deployments : exists ds, ie_deployments later (csv_Namespace csv) = inr ds /\ NoDup (dp_Name <$> ds) /\
    forall d, wroteDeployment calls d -> exists d' reason, d' ∈ ds /\ dp_Name d' = dp_Name d /\ Labels (dp_obj d') = Labels (dp_obj d) /\
      sp_Annotations (dp_Spec d') = sp_Annotations (dp_Spec d) /\ DeploymentStatus d' = inr (reason, true);
  sh_secrets : forall d, d ∈ csvCertDescs csv -> exists s, ie_secret later (csv_Namespace csv) (SecretName (ServiceName (getDeploymentName d))) = inr s /\ OName (sec_obj s) = SecretName (ServiceName (getDeploymentName d));
  sh_apis : forall a, wroteAPI calls a -> exists a', ie_apiService later (av_Name a) = inr a' /\ av_CABundle a' = av_CABundle a;
  sh_hooks : forall k w desc h, wroteHook calls k w -> desc ∈ spec_WebhookDefinitions (csv_Spec csv) -> admissionKind desc = Some k -> selects (csvWebhookSelector csv desc) (wc_obj w) = true ->
    exists configs w' rest, ie_webhooks later h k = inr configs /\ selectedHooks (csvWebhookSelector csv desc) configs = w' :: rest /\ wc_Webhooks w' = wc_Webhooks w;
  sh_crds : forall c h, IUpdateCRD c ∈ calls -> exists c', ie_crd later h (vk_Name c) = inr c' /\ vk_Conversion c' = vk_Conversion c
}.

Lemma addByKey_elem {A} (key : A -> string) ds : forall (set : gmap string A) k x, addByKey key set ds !! k = Some x -> x ∈ ds \/ set !! k = Some x.
Proof.
  unfold addByKey. induction ds as [|d ds IH]; intros set k x; [by right|]. cbn. intros [Hx|Hx]%IH; [left; by right|]. destruct (decide (key d = k)) as [<-|Hne]; [rewrite lookup_insert_eq in Hx; injection Hx as <-; left; by left|].
  rewrite lookup_insert_ne in Hx by done. by right.
Qed.
Lemma foldl_insert_lookup {A B} (key : A -> string) (val : A -> B) ds : forall (set : gmap string B) x, NoDup (key <$> ds) -> x ∈ ds -> foldl (fun m d => <[key d := val d]> m) set ds !! key x = Some (val x).
Proof.
  induction ds as [|d ds IH] using rev_ind; intros set x Hnd Hx; [by apply elem_of_nil in Hx|]. rewrite foldl_snoc. rewrite fmap_app, NoDup_app in Hnd. destruct Hnd as (Hnd & Hd & _). cbn. apply elem_of_app in Hx as [Hx| ->%list_elem_of_singleton]; [|by rewrite lookup_insert_eq].
  rewrite lookup_insert_ne; [by apply IH|]. intros E. apply (Hd (key x)); [by apply list_elem_of_fmap_2|]. rewrite <- E. cbn. by left.
Qed.
Lemma NoDup_filtered {A} (key : A -> string) (p : A -> bool) l : NoDup (key <$> l) -> NoDup (key <$> List.filter p l).
Proof.
  induction l as [|x l IH]; [done|]. cbn. intros [Hx Hnd]%NoDup_cons. destruct (p x); [|by apply IH]. cbn. apply NoDup_cons. split; [|by apply IH]. intros (y & E & Hy)%list_elem_of_fmap. apply Hx. rewrite E.
  apply list_elem_of_fmap_2. apply list_elem_of_In, List.filter_In in Hy as [Hy _]. by apply list_elem_of_In.
Qed.
Lemma sortedDescs_elem {A} (set : gmap string A) x : x ∈ sortedDescs set <-> exists k, set !! k = Some x.
Proof.
  unfold sortedDescs. rewrite list_elem_of_omap. split; [intros (k & _ & Hk); by exists k|]. intros [k Hk]. exists k. split; [|done].
  rewrite (merge_sort_Permutation String.le (elements (dom set))). apply elem_of_elements, elem_of_dom. by exists x.
Qed.
Lemma allAPIs_elem csv d : d ∈ GetAllAPIServiceDescriptions csv -> d ∈ spec_APIServices_Owned (csv_Spec csv) \/ d ∈ spec_APIServices_Required (csv_Spec csv).
Proof. unfold GetAllAPIServiceDescriptions. intros [k [?|[?|E]%addByKey_elem]%addByKey_elem]%sortedDescs_elem; [by left|by right|by rewrite lookup_empty in E]. Qed.
Lemma ownedAPIs_elem csv d : NoDup (APIServiceDescription_GetName <$> spec_APIServices_Owned (csv_Spec csv)) -> d ∈ spec_APIServices_Owned (csv_Spec csv) -> d ∈ GetAllAPIServiceDescriptions csv.
Proof. intros Hnd Hd. apply sortedDescs_elem. exists (APIServiceDescription_GetName d). unfold addByKey. by rewrite (foldl_insert_lookup APIServiceDescription_GetName id). Qed.

Section later.
Context (csv : CSV) (strategy : StrategyDetailsDeployment) (initializers : list (option Initializer)).
Context (ready : installable csv strategy) (behaved : Forall (fun f => match f with Some f => wellBehaved f | None => True end) initializers).
Abbreviation specs := (sd_DeploymentSpecs strategy).
Abbreviation i0 := (InstallerForStrategy csv initializers).

Lemma certNames_spec n : n ∈ ds_Name <$> specs -> n ∈ certNames i0 <-> n ∈ getDeploymentName <$> csvCertDescs csv.
Proof using ready.
  intros Hn. unfold certNames, getCertResources, csvCertDescs. cbn. rewrite !fmap_app, !elem_of_app, <- !list_fmap_compose. split; (intros [Hd|Hd]; [|by right]); left; apply list_elem_of_fmap in Hd as (d & -> & Hd); cbn in *.
  - apply list_elem_of_fmap. exists d. split; [done|]. destruct (allAPIs_elem _ _ Hd) as [|Hr]; [done|]. by destruct (ib_required _ _ ready _ Hr).
  - apply list_elem_of_fmap. exists d. split; [done|]. by apply ownedAPIs_elem; [apply ready|].
Qed.
Lemma certResource_elem d : d ∈ csvCertDescs csv -> mkCertResource d "" ∈ getCertResources i0.
Proof using ready.
  unfold csvCertDescs, getCertResources. cbn. rewrite !elem_of_app. intros [Hd|Hd]; apply list_elem_of_fmap in Hd as (x & -> & Hx); [left|right]; apply list_elem_of_fmap; exists x; (split; [done|]); [|done].
  by apply ownedAPIs_elem; [apply ready|].
Qed.
Lemma resources_hashable : Forall (fun r => hashable (cr_Desc r)) (getCertResources i0).
Proof using ready.
  apply Forall_forall. intros r. unfold getCertResources. cbn. intros [Hr|Hr]%elem_of_app; apply list_elem_of_fmap in Hr as (x & -> & Hx); [done|]. by apply (ib_encodes _ _ ready).
Qed.

Context (later : InstEnv) (calls : list InstCall) (shown : shows later csv calls).

(** The authority of a description is the one that was written. *)
Lemma bundle_shown i d pem h : sdi_owner i = csv -> pem <> "" -> d ∈ csvCertDescs csv -> wroteResource calls i d pem -> getCABundle later csv d h = (h, inr pem).
Proof using ready shown.
  intros Hi Hpem Hd Hw. assert (owner_ i = csv_obj csv /\ ownerKind i = ClusterServiceVersionKind) as [Ho Hk] by (unfold ownerKind, owner_; rewrite Hi; split; [done|apply ready]). unfold getCABundle. destruct d as [d|d]; cbn [wroteResource] in Hw.
  - destruct Hw as (a & Ha & Hn & Hb). destruct (sh_apis _ _ _ shown a Ha) as (a' & Ea & Hb'). unfold getAPIServiceCABundle. rewrite <- Hn, Ea, Hb', Hb. rewrite bool_decide_eq_false_2 by done. done.
  - assert (d ∈ spec_WebhookDefinitions (csv_Spec csv)) as Hdw. { unfold csvCertDescs in Hd. apply elem_of_app in Hd as [Hd|Hd]; apply list_elem_of_fmap in Hd as (x & E & Hx); [done|by injection E as ->]. }
    unfold getWebhookCABundle. destruct (admissionKind d) as [k|] eqn:Ek.
    + destruct Hw as (w & hook & Hw & Hsel & Hhook & Hb). rewrite Ho, Hk in Hsel. destruct (sh_hooks _ _ _ shown k w d h Hw Hdw Ek Hsel) as (configs & w' & rest & Ec & Es & Ew).
      assert (forall kind, admissionCABundle later csv k kind d h = (h, inr pem)) as Hadm. { intros kind. unfold admissionCABundle, iread, pbind. rewrite Ec, Es. cbn. by rewrite Ew, Hhook, <- Hb. }
      unfold admissionKind in Ek. destruct (decide (wd_Type d = MutatingAdmissionWebhook)) as [Et|Et].
      * rewrite Et in *. cbn in Ek. injection Ek as <-. unfold attempt, pbind. rewrite bool_decide_eq_true_2 by done. by rewrite Hadm.
      * rewrite (bool_decide_eq_false_2 (_ = MutatingAdmissionWebhook)) in * by done. case_bool_decide; [|done]. injection Ek as <-. unfold attempt, pbind. by rewrite Hadm.
    + unfold admissionKind in Ek. case_bool_decide as E1; [done|]. case_bool_decide as E2; [done|]. assert (wd_Type d = ConversionWebhook) as Et. { pose proof (ib_types _ _ ready _ Hdw) as Ht. rewrite !elem_of_cons in Ht. destruct Ht as [?|[?|[?|?%elem_of_nil]]]; done. }
      rewrite (bool_decide_eq_true_2 _ Et). destruct (Hw Et) as [Hne Hall]. unfold attempt, iread, pbind. cbn. destruct (wd_ConversionCRDs d) as [|c cs]; [done|]. destruct (Hall c ltac:(by left)) as (x & Hx & Hn & Hc).
      destruct (sh_crds _ _ _ shown x h Hx) as (x' & Ex & Hv). cbn. rewrite <- Hn, Ex. cbn. rewrite Hv. unfold converted in Hc. by rewrite Hc.
Qed.

(** The specs that are recomputed are the ones that were installed. *)
Section recomputed.
Context (m : gmap string string).
Definition recomputed (done : list CertDesc) (M : gmap string DeploymentSpec) : Prop :=
  forall spec, spec ∈ specs -> M !! ds_Name spec = Some (if bool_decide (ds_Name spec ∈ getDeploymentName <$> done) then ds_Spec (certifyWith m spec) else ds_Spec spec).
Lemma certify_loop ds : forall M done h,
  (forall d, d ∈ ds -> d ∈ csvCertDescs csv /\ exists pem, m !! getDeploymentName d = Some pem /\ forall h, getCABundle later csv d h = (h, inr pem)) ->
  recomputed done M -> exists M', pfold (certifyFor later csv) M ds h = (h, inr M') /\ recomputed (done ++ ds) M'.
Proof using ready shown.
  induction ds as [|d ds IH]; intros M done h Hds HM; [exists M; by rewrite app_nil_r|]. destruct (Hds d ltac:(by left)) as (Hd & pem & Hm & Hb). pose proof (ib_deployments _ _ ready _ Hd) as (spec & En & Hspec)%list_elem_of_fmap.
  destruct (sh_secrets _ _ _ shown d Hd) as (s & Es & Hs). set (old := if bool_decide (ds_Name spec ∈ getDeploymentName <$> done) then ds_Spec (certifyWith m spec) else ds_Spec spec).
  assert (certifyFor later csv M d h = (h, inr (<[getDeploymentName d := certified (SecretName (ServiceName (getDeploymentName d))) (PEMSHA256 pem) old]> M))) as Estep.
  { unfold certifyFor. rewrite (pbind_run _ _ _ _ _ (Hb h)). rewrite En, (HM spec Hspec). cbv zeta. rewrite <- En, Es, Hs. unfold old. by rewrite En. }
  assert (certified (SecretName (ServiceName (getDeploymentName d))) (PEMSHA256 pem) old = ds_Spec (certifyWith m spec)) as Enew.
  { unfold old. assert (ds_Spec (certifyWith m spec) = certified (SecretName (ServiceName (getDeploymentName d))) (PEMSHA256 pem) (ds_Spec spec)) as -> by (unfold certifyWith; rewrite <- En, Hm; cbn; done).
    case_bool_decide; [|done]. apply certified_idem. by apply (ib_mounts _ _ ready). }
  destruct (IH (<[getDeploymentName d := ds_Spec (certifyWith m spec)]> M) (done ++ [d]) h) as (M' & E' & HM').
  - intros x Hx. apply Hds. by right.
  - intros spec' Hspec'. rewrite fmap_app. destruct (decide (ds_Name spec' = getDeploymentName d)) as [E|Hne].
    + rewrite E, lookup_insert_eq. rewrite bool_decide_eq_true_2 by (apply elem_of_app; right; by left). f_equal. f_equal. f_equal. symmetry. eapply (name_inj ds_Name); [apply ready|done|done|congruence].
    + rewrite lookup_insert_ne by done. rewrite (HM spec' Hspec'). f_equal. rewrite (bool_decide_ext (ds_Name spec' ∈ getDeploymentName <$> done) (ds_Name spec' ∈ (getDeploymentName <$> done) ++ (getDeploymentName <$> [d]))); [done|].
      rewrite elem_of_app. cbn. rewrite list_elem_of_singleton. tauto.
  - exists M'. split; [|by rewrite <- app_assoc in HM']. cbn [pfold]. rewrite (pbind_run _ _ _ _ _ Estep), Enew. done.
Qed.

Lemma recomputed_specs h : (forall d, d ∈ csvCertDescs csv -> exists pem, m !! getDeploymentName d = Some pem /\ forall h, getCABundle later csv d h = (h, inr pem)) ->
  (forall n, n ∈ ds_Name <$> specs -> n ∉ getDeploymentName <$> csvCertDescs csv -> m !! n = None) ->
  updateDeploymentSpecsWithAPIServiceData later csv strategy h = (h, inr (mkStrategy (certifyWith m <$> specs) (sd_Permissions strategy) (sd_ClusterPermissions strategy))).
Proof using ready shown.
  intros Hb Hn. unfold updateDeploymentSpecsWithAPIServiceData.
  assert (forall spec, spec ∈ specs -> ds_Name spec ∉ getDeploymentName <$> csvCertDescs csv -> certifyWith m spec = spec) as Hid. { intros spec Hs Hx. unfold certifyWith. rewrite Hn; [done|by apply list_elem_of_fmap_2|done]. }
  destruct (HasCAResources csv) eqn:Eca; cbn [negb].
  - destruct (certify_loop (csvCertDescs csv) (foldl (fun m d => <[ds_Name d := ds_Spec d]> m) ∅ specs) [] h) as (M & E & HM).
    + intros d Hd. split; [done|by apply Hb].
    + intros spec Hs. rewrite (foldl_insert_lookup ds_Name ds_Spec); [|apply ready|done]. rewrite bool_decide_eq_false_2; [done|]. by intros ?%elem_of_nil.
    + rewrite (pbind_run _ _ _ _ _ E). unfold pret. f_equal. f_equal. f_equal. apply list_fmap_ext. intros k spec Hk. apply list_elem_of_lookup_2 in Hk. rewrite (HM spec Hk). cbn. case_bool_decide as Hin.
      * unfold certifyWith. by destruct (m !! ds_Name spec); destruct spec.
      * rewrite (Hid spec Hk Hin). by destruct spec.
  - assert (csvCertDescs csv = []) as Enil. { unfold HasCAResources in Eca. apply negb_false_iff, Nat.eqb_eq in Eca. unfold csvCertDescs. destruct (spec_APIServices_Owned _); [|done]. destruct (spec_WebhookDefinitions _); done. }
    unfold pret. f_equal. f_equal. destruct strategy as [ss ps cps]. cbn [sd_DeploymentSpecs sd_Permissions sd_ClusterPermissions] in *. f_equal. symmetry. etransitivity; [|apply list_fmap_id]. apply list_fmap_ext. intros k spec Hk. apply list_elem_of_lookup_2 in Hk. apply Hid; [done|]. rewrite Enil. by intros ?%elem_of_nil.
Qed.
End recomputed.

(** A deployment that was written for a spec passes the check of the spec. *)
Lemma annotations_found a : default ∅ (csv_Annotations csv) ⊆ a -> annotationsError i0 (Some a) = None.
Proof.
  intros Hsub. unfold annotationsError. rewrite andb_false_r. destruct (List.find _ _) as [[k v]|] eqn:E; [|done]. exfalso. apply List.find_some in E as [Hin Hf]. apply list_elem_of_In, elem_of_range in Hin.
  apply negb_true_iff, bool_decide_eq_false in Hf. apply Hf. cbn in *. by eapply lookup_weaken.
Qed.
Lemma check_written spec dep hash existing d' reason : deploymentForSpec i0 (ds_Name spec) (ds_Spec spec) (ds_Label spec) = inr (dep, hash) -> existing !! ds_Name spec = Some d' ->
  Labels (dp_obj d') = Labels (dp_obj dep) -> sp_Annotations (dp_Spec d') = sp_Annotations (dp_Spec dep) -> DeploymentStatus d' = inr (reason, true) -> checkDeployment i0 existing spec = None.
Proof using behaved.
  intros Hdep Hex Hl Ha Hst. destruct (deploymentForSpec_ok i0 _ _ _ _ _ behaved Hdep) as (_ & _ & Hh & (a & Ea & Hsub) & Hany). unfold checkDeployment. rewrite Hex, Hst, Ha, Ea, annotations_found by exact Hsub.
  unfold hashError. rewrite Hl, Hh. destruct (Hany (default ∅ (Labels (dp_obj dep)))) as (dep' & ->). by rewrite bool_decide_eq_true_2.
Qed.

Lemma checks_installed installed :
  NoDup (ds_Name <$> installed) -> (forall spec, spec ∈ installed -> exists dep hash, deploymentForSpec i0 (ds_Name spec) (ds_Spec spec) (ds_Label spec) = inr (dep, hash) /\ wroteDeployment calls dep) ->
  checkForDeployments later i0 installed = None.
Proof using behaved shown.
  intros Hnd Hw. unfold checkForDeployments, FindAnyDeploymentsMatchingLabels. destruct (sh_deployments _ _ _ shown) as (ds & Eds & Hds & Hshow). change (ownerNamespace i0) with (csv_Namespace csv). rewrite Eds.
  set (found := List.filter _ ds). unfold firstError. assert (omap (checkDeployment i0 (foldl (fun m d => <[dp_Name d := d]> m) ∅ found)) installed = []) as ->; [|done]. apply elem_of_nil_inv. intros err (spec & Hspec & Herr)%list_elem_of_omap.
  destruct (Hw spec Hspec) as (dep & hash & Hdep & Hwr). destruct (Hshow dep Hwr) as (d' & reason & Hin & Hn & Hl & Ha & Hst). destruct (deploymentForSpec_ok i0 _ _ _ _ _ behaved Hdep) as (Hname & Hown & _).
  erewrite check_written in Herr; [done|exact Hdep| |exact Hl|exact Ha|exact Hst]. rewrite <- Hname, <- Hn. apply (foldl_insert_lookup dp_Name id).
  - unfold found. by apply NoDup_filtered.
  - unfold found. apply list_elem_of_In, List.filter_In. split; [by apply list_elem_of_In|]. unfold selects. apply bool_decide_eq_true_2. rewrite Hl. exact Hown.
Qed.
End later.

(** An installation settles.  When [Install] has succeeded for a CSV and a later state of the cluster shows what it
    wrote (the deployments ready, the authorities in the API services, webhook configurations and CRDs, the secrets), the
    check that OLM makes then (the strategy recomputed from the cluster, its deployments hashed and compared) finds the
    strategy installed: what is recomputed is what was installed, so that OLM does not install again. *)
Lemma install_settles csv strategy initializers calls i' later h :
  installable csv strategy -> Forall (fun f => match f with Some f => wellBehaved f | None => True end) initializers ->
  Install env (InstallerForStrategy csv initializers) strategy [] = (calls, inr i') -> shows later csv calls ->
  exists strategy', updateDeploymentSpecsWithAPIServiceData later csv strategy h = (h, inr strategy') /\
    CheckInstalled later (InstallerForStrategy csv initializers) strategy' = (true, None).
Proof using laws named.
  intros Hok Hin E Hshow. unfold Install in E. run_step E. destruct x as [i1 installed]. unfold installCertRequirements in E0. cbv zeta in E0. run_step E0. clear E1. apply installCerts_loop in E0 as (m & Hdom & Hpem & Hsame & Hres & ->); [|apply Hok]. cbn [app] in E.
  run_step E. destruct (installDeployments env i1 (certifyWith m <$> sd_DeploymentSpecs strategy) h0) as [h9 r] eqn:Ei. unfold attempt in E0. rewrite Ei in E0. injection E0 as <- <-. cbn [snd] in E. destruct r as [err|[]]; [done|]. run_step E. injection E as -> <-.
  assert (sameInstaller (InstallerForStrategy csv initializers) i1) as Hs1 by exact Hsame. assert (getCertResources i1 = fillPEM m <$> getCertResources (InstallerForStrategy csv initializers)) as Hr1 by exact Hres.
  assert (Forall (fun r => hashable (cr_Desc r)) (getCertResources i1)) as Hhash.
  { rewrite Hr1. apply Forall_fmap. eapply Forall_impl; [by apply (resources_hashable csv strategy initializers Hok)|]. intros r Hr. cbn. unfold fillPEM. by destruct (m !! _). }
  assert (forall c, c ∈ h9 -> c ∈ calls) as Hgrow. { intros c Hc. eapply makes_grows; [|exact E0|exact Hc]. eapply makes_weaken; [|apply (touches_cleanup i1 (ds_Name <$> (certifyWith m <$> sd_DeploymentSpecs strategy)) (certifyWith m <$> sd_DeploymentSpecs strategy) eq_refl)]. done. }
  pose proof (fun d => install_wrote i1 _ _ _ d (wellInitialized_same _ _ Hs1 Hin) Hhash Ei) as Hwrote.
  exists (mkStrategy (certifyWith m <$> sd_DeploymentSpecs strategy) (sd_Permissions strategy) (sd_ClusterPermissions strategy)). split.
  - apply (recomputed_specs csv strategy Hok later calls Hshow).
    + intros d Hd. pose proof (ib_deployments _ _ Hok d Hd) as Hn. destruct (proj2 (Hdom (getDeploymentName d))) as [pem Hm]; [split; [done|]; apply (certNames_spec csv strategy initializers Hok _ Hn); by apply list_elem_of_fmap_2|].
      exists pem. split; [done|]. intros g. apply (bundle_shown csv strategy Hok later calls Hshow i1); [by destruct Hs1 as [<- _]|by eapply Hpem|done|].
      apply list_elem_of_fmap in Hn as (spec & _ & Hspec). destruct (Hwrote (certifyWith m spec) ltac:(by apply list_elem_of_fmap_2)) as [_ Hall]. eapply wroteResource_mono; [exact Hgrow|].
      specialize (Hall (fillPEM m (mkCertResource d ""))). unfold fillPEM in Hall. cbn in Hall. rewrite Hm in Hall. apply Hall. rewrite Hr1. apply list_elem_of_fmap. exists (mkCertResource d ""). split; [unfold fillPEM; cbn; by rewrite Hm|]. by apply (certResource_elem csv strategy).
    + intros n Hn Hnot. apply eq_None_not_Some. intros [_ Hc]%Hdom. apply Hnot. by apply (certNames_spec csv strategy initializers Hok n Hn).
  - unfold CheckInstalled. cbn [sd_DeploymentSpecs]. rewrite (checks_installed csv initializers Hin later calls Hshow); [done| |].
    + rewrite <- list_fmap_compose. erewrite list_fmap_ext; [apply (ib_names _ _ Hok)|]. intros k spec _. cbn. unfold certifyWith. by destruct (m !! _).
    + intros spec Hspec. destruct (Hwrote spec Hspec) as [(dep & hash & Hdep & Hw) _]. exists dep, hash. split; [by rewrite (deploymentForSpec_same _ _ Hs1)|]. destruct Hw as [Hw|Hw]; [left|right]; by apply Hgrow.
Qed.

(** ** The sync of the CSV *)

(** The sync in [e] sees the installer, and the cluster, of [later]. *)
Record installsWith (e : Env) (later : InstEnv) (initializers : list (option Initializer)) (c : CSV) : Prop := {
  iw_installer : forall previous, env_installer e c previous = strategyInstaller later c initializers;
  iw_specs : forall s, env_updateDeploymentSpecs e c s = result_of (updateDeploymentSpecsWithAPIServiceData later c s);
  iw_webhooks : env_areWebhooksAvailable e c = result_of (areWebhooksAvailable later c)
}.

Context `{RequirementLib}.

(** C10: a CSV that was installed succeeds.  When [Install] has succeeded for the CSV, with whatever status it had then,
    and the cluster shows what was written, the sync of the CSV in phase Installing finds every deployment as it was
    installed and moves the CSV to Succeeded, provided its API services and webhooks are served. *)
Theorem installed_succeeds csv status strategy initializers calls i' later e og :
  installable csv strategy -> Forall (fun f => match f with Some f => wellBehaved f | None => True end) initializers ->
  Install env (InstallerForStrategy csv initializers) strategy [] = (calls, inr i') -> shows later csv calls ->
  let c := setStatus csv status in
  csv_Phase c = CSVPhaseInstalling -> csv_Reason c <> CSVReasonComponentFailedNoRetry -> UnmarshalStrategy (spec_InstallStrategy (csv_Spec csv)) = inr strategy ->
  admitted e c og -> env_clientError e c = None -> installsWith e later initializers c ->
  areAPIServicesAvailable (env_cluster e) c = inr true -> result_of (areWebhooksAvailable later c) = inr true ->
  exists out, synced_to e c out /\ succeeds out.
Proof using laws named.
  intros Hok Hin Ei Hshow c Hph Hr Hu Ha Hcl Hw Hapis Hhooks. destruct (install_settles csv strategy initializers calls i' later [] Hok Hin Ei Hshow) as (strategy' & Hspecs & Hcheck).
  apply sync_handled; [by exists og|done|]. intros og'. rewrite Hph. change (phaseHandler e og' CSVPhaseInstalling) with (installingPhase e). unfold installingPhase.
  assert (exists s1 previous, parseStrategiesAndUpdateStatus e (mkSt c []) = (s1, inr (env_installer e c previous, strategy)) /\ s_out s1 = c) as (s1 & previous & Hp & Ho).
  { unfold parseStrategiesAndUpdateStatus. rewrite getOut_bind. change (spec_InstallStrategy (csv_Spec (s_out (mkSt c [])))) with (spec_InstallStrategy (csv_Spec csv)). rewrite Hu.
    destruct (isReplacing e ReadStrategy _) as [prev|]; (erewrite bind_ok; [|reflexivity]); cbn [s_out]; rewrite Hcl; eexists _, _; (split; [reflexivity|done]). }
  rewrite (bind_ok _ _ _ _ _ Hp). rewrite (bind_ok (expectedStrategy e strategy) _ s1 s1 strategy').
  2:{ apply expectedStrategy_healthy. rewrite Ho, (iw_specs _ _ _ _ Hw). change (updateDeploymentSpecsWithAPIServiceData later c strategy) with (updateDeploymentSpecsWithAPIServiceData later csv strategy). unfold result_of. by rewrite Hspecs. }
  unfold updateInstallStatus. rewrite (iw_installer _ _ _ _ Hw). change (in_CheckInstalled (strategyInstaller later c initializers) strategy') with (CheckInstalled later (InstallerForStrategy csv initializers) strategy'). rewrite Hcheck.
  destruct (setPhaseIfChanged_says CSVPhaseSucceeded CSVReasonInstallSuccessful "install strategy completed with no errors" (env_now e NowInstallStatus) s1) as (s' & Hs & Hsucc & _).
  cbv zeta. erewrite bind_ok; [|rewrite getOut_bind, Ho, Hapis, (iw_webhooks _ _ _ _ Hw), Hhooks; cbn [toPair andb]; rewrite (bind_ok _ _ _ _ _ Hs); reflexivity].
  exists s'. by split.
Qed.

(** ** What keeps an installation from succeeding *)

(** C12: an API service that a CSV only requires keeps it from being installed: the installer writes every API service of
    the CSV, the required ones with the owned, so that one which exists and may not be adopted, because it belongs to the
    operator that provides it, makes every installation of a strategy with a deployment fail. *)
Theorem required_api_blocks csv strategy initializers desc a h :
  Forall (fun f => match f with Some f => wellBehaved f | None => True end) initializers -> sd_DeploymentSpecs strategy <> [] ->
  desc ∈ GetAllAPIServiceDescriptions csv -> ie_apiService env (APIServiceDescription_GetName desc) = inr a -> IsAPIServiceAdoptable (ie_cluster env) csv (av_base a) <> inr true ->
  exists err, (Install env (InstallerForStrategy csv initializers) strategy h).2 = inl err.
Proof using certLib named.
  intros Hin Hne Hdesc Ha Had. destruct (Install env _ strategy h) as [calls [err|i']] eqn:E; [by exists err|exfalso]. unfold Install in E. run_step E. destruct x as [i1 specs]. unfold installCertRequirements in E0. cbv zeta in E0. run_step E0. clear E1.
  pose proof (installCerts_shape _ _ _ _ _ _ _ E0) as [Hsame Hnames]. assert (exists pem, mkCertResource (APIDesc desc) pem ∈ getCertResources i1) as [pem Hpem].
  { assert (exists pem, mkCertResource (APIDesc desc) pem ∈ getCertResources (setExpiration (InstallerForStrategy csv initializers) (CalculateCertExpiration (ie_now env NowExpiration)))) as Hstart.
    { exists "". unfold getCertResources. cbn. apply elem_of_app. left. by apply (list_elem_of_fmap_2 (fun d => mkCertResource (APIDesc d) "")). }
    revert Hstart. generalize (setExpiration (InstallerForStrategy csv initializers) (CalculateCertExpiration (ie_now env NowExpiration))) (@nil StrategyDeploymentSpec) E0. clear. intros i done E0 Hstart.
    apply (pfold_inv (fun acc => exists pem, mkCertResource (APIDesc desc) pem ∈ getCertResources acc.1) _ _ _ _ _ _ Hstart) in E0; [exact E0|]. clear. intros [i done] d h h' acc' [pem Hpem] E. unfold installCertsOf in E.
    destruct (certResourcesForDeployment i (ds_Name d)); repeat run_step E; [subst acc'; by exists pem|]. destruct x0 as [[s' pem'] rotated]. run_step E. subst acc'. cbn [fst]. rewrite getCertResources_update.
    apply (list_elem_of_fmap_2 (setCAPEM (ds_Name d) pem')) in Hpem. unfold setCAPEM at 1 in Hpem. destruct (forDeployment _ _); [by exists pem'|by exists pem]. }
  run_step E. unfold attempt in E1. destruct (installDeployments env i1 specs h0) as [h9 r] eqn:Ei. injection E1 as <- <-. cbn [snd] in E. destruct r as [err|[]]; [done|]. clear E. assert (exists d, d ∈ specs) as [d Hd].
  { destruct specs as [|d specs]; [|exists d; by left]. apply (f_equal length) in Hnames. rewrite !length_fmap in Hnames. destruct (sd_DeploymentSpecs strategy); done. }
  assert (forall r, makes_only (fun _ => True) (createOrUpdateCertResource env i1 r)) as Hres by (intros r; eapply makes_weaken; [|apply (touches_resource i1 [])]; done).
  destruct (pfor_ran specs (installDeployment env i1) h0 d) as (g & Hg & _); [|by unfold installDeployments in Ei; rewrite Ei|done|].
  { intros y Hy. eapply makes_weaken; [|apply (touches_deployment i1 (ds_Name <$> specs) y (wellInitialized_same _ _ Hsame Hin))]; [done|]. by apply list_elem_of_fmap_2. }
  destruct (installDeployment env i1 d g) as [g' r] eqn:Eg. cbn in Hg. subst r. unfold installDeployment in Eg. run_step Eg. clear E. run_step Eg. clear E. unfold createOrUpdateCertResourcesForDeployment in Eg.
  destruct (pfor_ran (getCertResources i1) (createOrUpdateCertResource env i1) h3 (mkCertResource (APIDesc desc) pem)) as (k & Hk & _); [intros y _; apply Hres|by rewrite Eg|done|].
  cbn [createOrUpdateCertResource cr_Desc cr_caPEM] in Hk. unfold createOrUpdateAPIService in Hk. assert (exists err, apiServiceFor env i1 desc = inl err) as [err Herr].
  { unfold apiServiceFor. rewrite Ha. destruct Hsame as [<- _]. cbn. destruct (IsAPIServiceAdoptable _ _ _) as [|[]]; [by eexists|done|by eexists]. }
  unfold pbind, plift in Hk. by rewrite Herr in Hk.
Qed.

(** ** Webhooks that were removed from a CSV *)

(** Asking whether the webhooks are available deletes only configurations that carry the owner labels of the CSV and
    were made for a description the CSV no longer has. *)
Theorem removed_hooks_only csv h c : c ∈ (areWebhooksAvailable env csv h).1 ->
  c ∈ h \/ exists k w g configs name, c = IDeleteWebhook k (OName (wc_obj w)) /\ ie_webhooks env g k = inr configs /\ w ∈ configs /\ OwnerLabel (csv_obj csv) ClusterServiceVersionKind ⊆ default ∅ (Labels (wc_obj w)) /\
    default ∅ (Labels (wc_obj w)) !! WebhookDescKey = Some name /\ name ∉ wd_GenerateName <$> spec_WebhookDefinitions (csv_Spec csv).
Proof.
  set (Q := fun c => exists k w g configs name, c = IDeleteWebhook k (OName (wc_obj w)) /\ ie_webhooks env g k = inr configs /\ w ∈ configs /\ OwnerLabel (csv_obj csv) ClusterServiceVersionKind ⊆ default ∅ (Labels (wc_obj w)) /\
    default ∅ (Labels (wc_obj w)) !! WebhookDescKey = Some name /\ name ∉ wd_GenerateName <$> spec_WebhookDefinitions (csv_Spec csv)).
  intros Hc. assert (makes_only Q (areWebhooksAvailable env csv)) as Hm; [|destruct (Hm h) as (new & E & HF); rewrite E in Hc; apply elem_of_app in Hc as [?|Hn]; [by left|right; by eapply Forall_forall in HF]].
  assert (forall A (f : list InstCall -> error + A), makes_only Q (must (iread f))) as Hread by (intros; apply makes_must, (makes_read Q (fun h => inr _))).
  assert (forall k, makes_only Q (removeUnknownHooks env csv k)) as Hrm.
  { intros k. unfold removeUnknownHooks. apply (makes_bind_res _ (fun r => exists g, ie_webhooks env g k = inr r)); [apply Hread|intros g x; unfold must, pbind, iread, plift; cbn; intros E; by exists g|]. intros configs [g Hg]. apply makes_for. intros w [Hw Hsub]%selectedHooks_elem.
    destruct (default ∅ (Labels (wc_obj w)) !! WebhookDescKey) as [name|] eqn:En; [|apply makes_fail]. case_bool_decide as Hin; [apply makes_ret|]. apply makes_bind; [apply makes_perform; by exists k, w, g, configs, name|]. intros [err|]; [destruct (IsNotFound _)|]; auto using makes_fail, makes_ret. }
  unfold areWebhooksAvailable, cleanUpRemovedWebhooks. apply makes_bind; [apply makes_bind; [apply Hrm|intros _; apply Hrm]|]. intros _.
  induction (spec_WebhookDefinitions (csv_Spec csv)) as [|desc ds IH] in |-*; [apply makes_ret|]. cbn [webhooksAvailable]. apply makes_bind; [apply makes_lift|]. intros hash. apply makes_bind; [|intros n; destruct (n =? 0)%nat; [apply makes_ret|done]].
  unfold webhookCount. cbv zeta. repeat case_bool_decide; try (apply makes_bind; [apply Hread|intros ?; apply makes_ret]); [|apply makes_ret]. apply makes_fold. intros n name _. apply makes_bind; [apply Hread|]. intros crd. destruct (conversionReady crd); [apply makes_ret|apply makes_fail].
Qed.

(** ** The resources of an API service *)

(** What the check of the generated resources promises for an API service: OLM may adopt it, it points at the service of
    the deployment, and the secret and the template of the deployment carry the hash of the authority it trusts. *)
Definition servedBy (csv : CSV) (desc : APIServiceDescription) : Prop :=
  exists a secret ds d, ie_apiService env (APIServiceDescription_GetName desc) = inr a /\ IsAPIServiceAdoptable (ie_cluster env) csv (av_base a) = inr true /\
    (fun s => (sv_Name s, sv_Namespace s)) <$> av_Service a = Some (ServiceName (as_DeploymentName desc), csv_Namespace csv) /\
    ie_secret env (csv_Namespace csv) (SecretName (ServiceName (as_DeploymentName desc))) = inr secret /\ ie_deployments env (csv_Namespace csv) = inr ds /\ d ∈ ds /\ dp_Name d = as_DeploymentName desc /\
    default ∅ (sec_Annotations secret) !! OLMCAHashAnnotationKey = Some (PEMSHA256 (av_CABundle a)) /\ default ∅ (sp_Annotations (dp_Spec d)) !! OLMCAHashAnnotationKey = Some (PEMSHA256 (av_CABundle a)).
Lemma checkAPIService_served csv desc stop : checkAPIServiceOf env csv desc = ([], stop) -> servedBy csv desc.
Proof.
  unfold checkAPIServiceOf. destruct (ie_apiService env _) as [err|a] eqn:Ea; [done|]. destruct (IsAPIServiceAdoptable _ _ _) as [err|[]] eqn:Ead; [done| |done]. cbv zeta. destruct (ie_service env _ _) as [err|]; [done|].
  case_bool_decide as Esv; cbn [negb]; [|done]. intros [= Ec _]. unfold checkCertsOf in Ec. destruct (PEMToCert (av_CABundle a)); [done|]. cbv zeta in Ec. destruct (ie_secret env _ _) as [err|secret] eqn:Es; [done|].
  destruct (PEMToCert (default "" _)); [done|]. case_bool_decide as Eh1; cbn [negb] in Ec; [|done]. destruct (ie_deployments env _) as [err|ds] eqn:Ed; [done|]. destruct (List.find _ ds) as [d|] eqn:Ef; [|done].
  case_bool_decide as Eh2; cbn [negb] in Ec; [|done]. apply List.find_some in Ef as [Hin Hn]. apply bool_decide_eq_true in Hn. exists a, secret, ds, d. split_and!; try done. by apply list_elem_of_In.
Qed.
(** When the check of the generated resources finds no error, every API service the CSV owns is served by the CSV's
    own service, and the certificates agree: the secret and the pods carry the hash of the authority that clients trust. *)
Theorem resources_served csv desc : NoDup (APIServiceDescription_GetName <$> spec_APIServices_Owned (csv_Spec csv)) -> desc ∈ spec_APIServices_Owned (csv_Spec csv) -> checkAPIServiceResources env csv = None -> servedBy csv desc.
Proof.
  intros Hnd Hd. unfold checkAPIServiceResources. assert (desc ∈ GetOwnedAPIServiceDescriptions csv) as Ho.
  { apply sortedDescs_elem. exists (APIServiceDescription_GetName desc). unfold addByKey. by rewrite (foldl_insert_lookup APIServiceDescription_GetName id). }
  intros Hn. assert (checkAPIServices env csv [] (GetOwnedAPIServiceDescriptions csv) = []) as E by (by destruct (checkAPIServices _ _ _ _)). clear Hn. revert E Ho. assert (forall errs ds, checkAPIServices env csv errs ds = [] -> errs = []) as Hnil.
  { intros errs ds. revert errs. induction ds as [|x ds IH]; intros errs; [done|]. cbn. destruct (checkAPIServiceOf env csv x) as [new []]; [intros [-> _]%app_nil; done|]. intros [-> _]%IH%app_nil. done. }
  assert (forall ds errs, checkAPIServices env csv errs ds = [] -> desc ∈ ds -> servedBy csv desc) as Hall; [|apply Hall].
  induction ds as [|x ds IH]; intros errs E Hin; [by apply elem_of_nil in Hin|]. cbn in E. destruct (checkAPIServiceOf env csv x) as [new stop] eqn:Ex.
  assert (new = []) as ->. { destruct stop; [by apply app_nil in E as [_ ->]|]. by apply Hnil, app_nil in E as [_ ->]. }
  apply elem_of_cons in Hin as [->|Hin]; [by eapply checkAPIService_served|]. destruct stop; [|by eapply IH]. exfalso. unfold checkAPIServiceOf in Ex. destruct (ie_apiService env _); [done|]. destruct (IsAPIServiceAdoptable _ _ _) as [|[]]; try done. cbv zeta in Ex. destruct (ie_service env _ _); [done|]. by destruct (negb _).
Qed.
End install.

(** ** Examples *)

Module InstallDemo.
#[local] Existing Instances canonical_order demo_req_lib RbacDemo.lib CertsDemo.certLib.

(** The names of what a deployment mounts stand for its JSON. *)
Definition installLib : InstallLib := {|
  encodeDeploymentSpec s := inr (sp_ServiceAccountName s +:+ Join (v_Name <$> sp_Volumes s) "," +:+ Join (sp_Containers s ≫= (fun c => ev_Name <$> ct_Env c)) ",");
  encodeWebhookDescription w := inr (wd_GenerateName w +:+ wd_Type w) |}.
#[local] Existing Instance installLib.

(** An operator with one deployment and a webhook, in its group; the subscription sets nothing. *)
Definition deployment : StrategyDeploymentSpec :=
  mkStrategySpec "etcd" (mkDeploymentSpec None "" [mkVolume "data" (OtherSource "emptyDir")] [mkContainer "etcd" [mkMount "data" "/data" ""] [mkEnvVar "MODE" "fast" None] [] "" ""] [] None None {["app" := "etcd"]} None "") ∅.
Definition hook : WebhookDescription := mkWebhook "vetcd" ValidatingAdmissionWebhook "etcd" [mkWebhookRule ["example.com"] ["etcds"]] [] 443 None (Some "/validate") ["v1"] "".
Definition strategy : StrategyDetailsDeployment := mkStrategy [deployment] [] [].
Definition csvWith (required : list APIServiceDescription) : CSV :=
  mkCSV (demo_csv "etcd" "etcd") (setOperatorGroupAnnotations None (live_group "") true)
    (mkCSVSpec (mkNamedStrategy "deployment" strategy) [] [] [] required [hook] [] "" [mkMode "AllNamespaces" true] "" false) (demo_status CSVPhaseInstallReady "").
Definition csv : CSV := csvWith [].
Definition initializers : list (option Initializer) := [Some (initialize OverridesDemo.room (inr []) (inr (ToEnvVar "http://proxy" "" "")) (csv_obj csv))].
Lemma initializers_behaved : Forall (fun f => match f with Some f => wellBehaved f | None => True end) initializers.
Proof. apply Forall_singleton, initialize_wellBehaved. Qed.

(** A cluster with API services, deployments and webhook configurations; every call succeeds. *)
Definition cluster (apis : string -> error + ServedAPI) (secrets : string -> error + Secret) (ds : list Deployment) (hooks : list WebhookConfiguration) (now : Time) : InstEnv := {|
  ie_do _ _ := None; ie_now _ := now; ie_entropy _ := CertsDemo.entropy 31; ie_cluster := demo_cluster; ie_secret _ n := secrets n; ie_role _ _ := inl notFound; ie_roleBinding _ _ := inl notFound;
  ie_clusterRoleBinding _ := inl notFound; ie_service _ _ := inl notFound; ie_serviceAccount _ _ := inl notFound; ie_deployments _ := inr ds; ie_apiService := apis; ie_subscriptions _ := inr [];
  ie_groups _ := inr [live_group ""]; ie_getDeployment _ _ _ := inl notFound; ie_webhooks _ k := inr (match k with Validating => hooks | Mutating => [] end); ie_crd _ _ := inl notFound; ie_legacy _ _ _ _ := inl notFound |}.
Definition empty : InstEnv := cluster (fun _ => inl notFound) (fun _ => inl notFound) [] [] CertsDemo.issuedAt.
Lemma empty_named : listersNamed empty.
Proof. by split. Qed.

Definition calls : list InstCall := Eval vm_compute in calls_of (Install empty (InstallerForStrategy csv initializers) strategy).
Definition afterInstall : StrategyDeploymentInstaller := match result_of (Install empty (InstallerForStrategy csv initializers) strategy) with inr i => i | inl _ => InstallerForStrategy csv initializers end.
Lemma install_run : Install empty (InstallerForStrategy csv initializers) strategy [] = (calls, inr afterInstall).
Proof. vm_compute. reflexivity. Qed.

(** The cluster afterwards: the deployment is available. *)
Definition available (d : Deployment) : Deployment := mkDeployment (dp_obj d) (dp_Annotations d) (dp_Spec d) 1 1 1 1 [mkDepCondition DeploymentAvailable ConditionTrue "" ""].
Definition shownDeployments : list Deployment := Eval vm_compute in omap (fun c => match c with ICreateDeployment d => Some (available d) | _ => None end) calls.
Definition shownHooks : list WebhookConfiguration := Eval vm_compute in omap (fun c => match c with ICreateWebhook Validating w => Some w | _ => None end) calls.
Definition shownSecret : Secret := mkSecret (mkObj TSecret noGVK "etcd-service-cert" "ns" "" [] None) None ∅ "".
Definition later : InstEnv := cluster (fun _ => inl notFound) (fun _ => inr shownSecret) shownDeployments shownHooks (CertsDemo.issuedAt + 60)%Z.

Lemma csv_installable : installable csv strategy.
Proof.
  split; try done.
  - apply NoDup_singleton.
  - apply NoDup_nil_2.
  - intros d [->|[]%elem_of_nil]%elem_of_cons. by left.
  - by intros d []%elem_of_nil.
  - intros s [->|[]%elem_of_nil]%elem_of_cons c m [->|[]%elem_of_nil]%elem_of_cons [->|[]%elem_of_nil]%elem_of_cons. done.
  - intros w [->|[]%elem_of_nil]%elem_of_cons. by left.
  - intros w [->|[]%elem_of_nil]%elem_of_cons. by eexists.
Qed.
(** What the calls write, as lists. *)
Definition deploymentsIn (cs : list InstCall) : list Deployment := omap (fun c => match c with ICreateDeployment d | IUpdateDeployment d => Some d | _ => None end) cs.
Definition apisIn (cs : list InstCall) : list ServedAPI := omap (fun c => match c with ICreateAPIService a | IUpdateAPIService a => Some a | _ => None end) cs.
Definition hooksIn (cs : list InstCall) : list (WebhookKind * WebhookConfiguration) := omap (fun c => match c with ICreateWebhook k w | IUpdateWebhook k w => Some (k, w) | _ => None end) cs.
Definition crdsIn (cs : list InstCall) : list ConvertibleCRD := omap (fun c => match c with IUpdateCRD x => Some x | _ => None end) cs.
Lemma written_elem {A} (f : InstCall -> option A) (cs : list InstCall) c x : f c = Some x -> c ∈ cs -> x ∈ omap f cs.
Proof. intros Hf Hc. apply list_elem_of_omap. by exists c. Qed.
Lemma deploymentsIn_calls : available <$> deploymentsIn calls = shownDeployments.
Proof. vm_compute. reflexivity. Qed.
Lemma apisIn_calls : apisIn calls = [].
Proof. vm_compute. reflexivity. Qed.
Lemma hooksIn_calls : hooksIn calls = pair Validating <$> shownHooks.
Proof. vm_compute. reflexivity. Qed.
Lemma crdsIn_calls : crdsIn calls = [].
Proof. vm_compute. reflexivity. Qed.
Lemma shownDeployments_names : dp_Name <$> shownDeployments = ["etcd"].
Proof. vm_compute. reflexivity. Qed.
Lemma shownHooks_selected : exists w, shownHooks = [w] /\ selectedHooks (csvWebhookSelector csv hook) shownHooks = [w].
Proof. eexists. split; vm_compute; reflexivity. Qed.

Lemma read_back_shows : shows later csv calls.
Proof.
  split.
  - exists shownDeployments. split; [done|]. rewrite shownDeployments_names. split; [apply NoDup_singleton|]. intros d Hd. assert (d ∈ deploymentsIn calls) as Hin by (destruct Hd as [Hd|Hd]; by eapply written_elem; [|exact Hd]).
    exists (available d). eexists. split; [rewrite <- deploymentsIn_calls; by apply list_elem_of_fmap_2|]. split_and!; [done..|]. reflexivity.
  - intros d [->|[]%elem_of_nil]%elem_of_cons. by exists shownSecret.
  - intros a Ha. assert (a ∈ apisIn calls) as Hin by (destruct Ha as [Ha|Ha]; by eapply written_elem; [|exact Ha]). rewrite apisIn_calls in Hin. by apply elem_of_nil in Hin.
  - intros k w desc h Hw Hd Hk _. assert ((k, w) ∈ hooksIn calls) as Hin by (destruct Hw as [Hw|Hw]; by eapply written_elem; [|exact Hw]). rewrite hooksIn_calls in Hin. destruct shownHooks_selected as (w0 & Ew & Es). rewrite Ew in Hin.
    apply list_elem_of_singleton in Hin as [= -> ->]. assert (desc = hook) as -> by (by apply list_elem_of_singleton in Hd). exists shownHooks, w0, []. split; [reflexivity|]. split; [exact Es|reflexivity].
  - intros c h Hc. assert (c ∈ crdsIn calls) as Hin by (by eapply written_elem; [|exact Hc]). rewrite crdsIn_calls in Hin. by apply elem_of_nil in Hin.
Qed.

Definition env : Env := {|
  env_cluster := demo_cluster; env_now := fun _ => 60%Z; env_groupsIn := fun _ => inr [live_group ""]; env_allGroups := inr [live_group ""];
  env_listCSVs := fun _ => inr []; env_getCSV := fun _ _ _ => inl notFound; env_updateCSV := fun c => inr c; env_updateGroup := fun _ => None; env_requeueGroup := fun _ _ => None;
  env_deleteCSV := fun _ _ => None; env_LabelSelectorAsSelector := fun _ => inl notFound; env_ListNamespaces := fun _ => inr []; env_clientError := fun _ => None;
  env_installer := fun c _ => strategyInstaller later c initializers; env_checkAPIServiceResources := checkAPIServiceResources later;
  env_updateDeploymentSpecs := fun c s => result_of (updateDeploymentSpecsWithAPIServiceData later c s); env_areWebhooksAvailable := fun c => result_of (areWebhooksAvailable later c);
  env_ensureClusterRoles := fun _ => None |}.
Definition installing : CSV := setStatus csv (demo_status CSVPhaseInstalling CSVReasonInstallSuccessful).
Lemma installing_admitted : admitted env installing (live_group "").
Proof.
  split; [eexists _, _; split; [reflexivity|]; split; [reflexivity|]; left; vm_compute; reflexivity|reflexivity|vm_compute; reflexivity|]. eexists _, _. split; [reflexivity|]. split; [reflexivity|]. vm_compute. reflexivity.
Qed.

(** The operator is installed, and its next sync moves it to Succeeded. *)
Lemma installed_succeeds_witness : exists out, synced_to env installing out /\ succeeds out.
Proof.
  refine (installed_succeeds CertsDemo.certLaws empty empty_named csv (demo_status CSVPhaseInstalling CSVReasonInstallSuccessful) strategy initializers calls afterInstall later env (live_group "")
    csv_installable initializers_behaved install_run read_back_shows _ _ _ installing_admitted _ _ _ _).
  - reflexivity.
  - discriminate.
  - reflexivity.
  - reflexivity.
  - by split.
  - reflexivity.
  - vm_compute. reflexivity.
Defined.

(** Among the writes is the deployment, which is the CSV's own. *)
Definition written : InstCall := Eval vm_compute in default (IDeleteDeployment "" "") (calls !! 6%nat).
Lemma written_call : written ∈ (Install empty (InstallerForStrategy csv initializers) strategy []).1.
Proof. rewrite install_run. apply (list_elem_of_lookup_2 calls 6). vm_compute. reflexivity. Qed.

(** An operator that requires the metrics API, which another operator provides. *)
Definition metrics : APIServiceDescription := mkAPIDesc "metrics" "metrics.example.com" "v1" "Metric" "" 0.
Definition provided : ServedAPI :=
  mkServedAPI (mkAPIService (mkObj TAPIService noGVK "v1.metrics.example.com" "" "7" [] (Some (OwnerLabel (demo_csv "prometheus" "9") ClusterServiceVersionKind))) [])
    None "metrics.example.com" "v1" 2000 15 (Some (mkServiceRef "ns" "prometheus-service" None 443)) "ca".
Definition withMetrics : InstEnv := cluster (fun n => if bool_decide (n = "v1.metrics.example.com") then inr provided else inl notFound) (fun _ => inl notFound) [] [] CertsDemo.issuedAt.
Lemma withMetrics_named : listersNamed withMetrics.
Proof. split; [done| |done]. intros n a. cbn. case_bool_decide as E; [|done]. intros [= <-]. by rewrite E. Qed.
Lemma required_api_blocks_witness : exists err, (Install withMetrics (InstallerForStrategy (csvWith [metrics]) initializers) strategy []).2 = inl err.
Proof.
  refine (required_api_blocks withMetrics withMetrics_named (csvWith [metrics]) strategy initializers metrics provided [] initializers_behaved _ _ _ _).
  - discriminate.
  - apply (list_elem_of_lookup_2 _ 0). vm_compute. reflexivity.
  - vm_compute. reflexivity.
  - vm_compute. discriminate.
Defined.
End InstallDemo.
